(* ===== verification/_CoqProject ===== *)
-Q . S2P
Prelude.v
Slice.v
Coding.v
Crc32c.v
Status.v
Env.v
Logging.v
LogFormat.v
LogReader.v
LogLayout.v
LogCorrect.v
LogSpec.v
MemEnv.v
Comparator.v
DbFormat.v
Bloom.v
FilterBlock.v
Random.v
Arena.v
SkipList.v
MemTable.v
WriteBatch.v
VersionEdit.v
Filename.v
MemFs.v
Posix.v
PosixSpec.v
Format.v
Iterator.v
Options.v
BlockBuilder.v
Block.v
BlockSafety.v
TwoLevel.v
Merger.v
DbIter.v
Cache.v
CacheSpec.v
CacheClient.v
CacheShards.v
TableBuilder.v
Table.v
TableFile.v
TableBuild.v
TableSpec.v
TableCache.v
BlockCache.v
Pmem.v
Group.v
GroupSpec.v
Version.v
VersionSpec.v
Compaction.v
CompactionSpec.v
VersionSet.v
VersionSetSpec.v
VersionLife.v
Manifest.v
ManifestSpec.v
Snapshot.v
TableFromIter.v
DbState.v
DbFlush.v
CompactWork.v
CompactRead.v
CompactSpec.v
DbWrite.v
DbWriteSpec.v
WriteQueue.v
DbRecover.v
DbRecoverSpec.v
DbRead.v
DbReadSpec.v
DbIterSpec.v
DbCompact.v
DbCompactSpec.v
Repair.v
RepairSpec.v
Dump.v
CApi.v
