(* ===== verification/Prelude.v ===== *)
(** * A verification of tleveldb

    The repository holds a fork of the LevelDB key-value store
    (src/lib/leveldb) and a layer of its own that keeps lists of large
    persistent-memory nodes (src/src, src/include).  This library models the
    parts of both that decide what is stored and what is read back, and proves
    what they promise each other.

    ** The program and the files that model it

    Bytes and numbers.
    - [Prelude]: bytes, machine words with their wrap-around, list lemmas, hint
      databases and tactics.
    - [Slice], [Status], [Logging], [Random]: include/leveldb/slice.h,
      util/status.cc, util/logging.cc, util/random.h.
    - [Coding]: util/coding.cc, fixed-width and varint encodings.
    - [Crc32c]: util/crc32c.cc, the table-driven CRC against the bitwise
      definition.

    Files and the write-ahead log.
    - [Env]: the file interfaces of include/leveldb/env.h as classes, with what
      a reliable file promises.
    - [LogFormat], [LogReader]: db/log_writer.cc and db/log_reader.cc.
      [LogLayout], [LogCorrect] and [LogSpec] prove that what was written is
      read back, also after reopening and from a torn file.
    - [MemEnv], [MemFs]: helpers/memenv/memenv.cc, file objects with reference
      counts and the file map; SetCurrentFile of db/filename.cc over it.
    - [Filename]: db/filename.cc.
    - [Posix], [PosixSpec]: util/env_posix.cc over the system calls as the class
      [Kernel]: buffered, sequential and random access files with their retries and
      limits, the lock table and the background thread.

    Keys, memory tables and batches.
    - [Comparator], [Bloom]: util/comparator.cc,
      include/leveldb/filter_policy.h, util/bloom.cc and util/hash.cc, with the
      documented contracts as classes ([ComparatorLaws], [FilterPolicyLaws]).
    - [DbFormat]: db/dbformat.cc, internal keys; the wrapped comparator and
      filter policy satisfy the contracts again.
    - [SkipList], [MemTable], [WriteBatch], [VersionEdit]: db/skiplist.h,
      db/memtable.cc, db/write_batch.cc, db/version_edit.cc.

    Tables and iterators.
    - [Options], [Format], [BlockBuilder], [Block], [BlockSafety],
      [FilterBlock], [TableBuilder], [Table]: the files of the same names under
      table/ and util/options.cc.  [TableFile], [TableBuild] and [TableSpec]
      prove that a table that was built is read back.
    - [Iterator]: include/leveldb/iterator.h.  [IteratesOver] is the contract
      every iterator is verified against and every client relies on: the
      iterator is a cursor over a list of entries.  The cleanup functions of
      table/iterator.cc are at its end.
    - [TwoLevel], [Merger], [DbIter]: table/two_level_iterator.cc,
      table/merger.cc, db/db_iter.cc, each verified against the contract for
      any inner iterators that satisfy it.

    Caches.
    - [Cache], [CacheSpec], [CacheClient]: util/cache.cc; the hash table and the LRU
      lists as linked nodes in a heap, their invariant, and every history of a
      client against an abstract cache.
    - [CacheShards]: the sharded cache as a client with objects on the heap uses it.
    - [TableCache], [BlockCache]: db/table_cache.cc, and table/table.cc with a block
      cache, as two such clients; each is proved to change no answer.

    Versions and compactions.
    - [Version], [VersionSpec]: the read side of db/version_set.cc: searching the
      files of a level, overlap queries, Version::Get, the level iterators.
    - [Compaction], [CompactionSpec]: choosing the inputs of a compaction, with the
      scores in IEEE doubles, and the per-key tests of a running one.
    - [VersionSet], [VersionSetSpec], [VersionLife]: the linked list of versions
      with reference counts, the Builder, LogAndApply, Recover and ReuseManifest.
    - [Manifest], [ManifestSpec]: what a descriptor log records and what opening
      recovers from it.

    The database.
    - [Snapshot], [Arena]: db/snapshot.h and util/arena.cc.
    - [TableFromIter]: db/builder.cc and the iterator of db/memtable.cc.
    - [DbState]: the members of DBImpl (db/db_impl.h) as a record, a state monad
      with failure over it ([DbM]) and what the database asks of its environment
      ([DbEnv]).
    - [DbFlush]: RemoveObsoleteFiles, WriteLevel0Table, CompactMemTable.
    - [CompactWork]: DoCompactionWork and the routines it calls.  [CompactRead] is
      what a read sees of a list of entries and what the drop rule does to it;
      [CompactSpec] relates the two.
    - [DbWrite]: Write, BuildBatchGroup, MakeRoomForWrite.  [DbWriteSpec] is one
      turn of the writer at the front of the queue, [WriteQueue] the queue as a
      transition system.
    - [DbRecover], [DbRecoverSpec]: SanitizeOptions, NewDB, RecoverLogFile,
      Recover, DB::Open and DestroyDB.
    - [DbRead]: Get, NewIterator, GetApproximateSizes, GetProperty and read
      samples.
      [DbReadSpec] proves what Get answers while other threads run, [DbIterSpec]
      what an iterator shows.
    - [DbCompact]: MakeInputIterator, BackgroundCompaction, BackgroundCall, manual
      compactions and the destructor.  [DbCompactSpec] proves what a compaction
      reads and that work is never left unscheduled.
    - [Repair], [RepairSpec]: db/repair.cc, the descriptor rebuilt from the files.
    - [Dump]: db/dumpfile.cc, db/leveldbutil.cc and VersionEdit::DebugString.
    - [CApi]: db/c.cc over the interface of include/leveldb/db.h, with the strings it
      allocates for its caller.

    Persistent groups.
    - [Pmem]: include/groupManager.h and include/define.h, nodes and append
      writes; libpmemobj as the class [PMEMobj] with the laws its manual states.
    - [Group], [GroupSpec]: src/groupManager.cc and the pool files of
      src/deviceManager.cc; the persistent list of nodes, its invariant and what
      each operation does to it.

    ** How code is represented

    A C++ integer is a [Z] with its wrap-around written out where it can happen;
    a byte string is a list of bytes; a struct is a record; a pointer into a
    structure that is shared or mutated is an index into an explicit store
    (skip-list nodes, in-memory files, pool objects).  [None] in an operation
    stands for a failed assertion or undefined behaviour, and theorems show it
    does not occur.  A status is a value; an exception is an outcome.  Code that
    is not in the repository (compression libraries, libpmemobj, the operating
    system's files) is a parameter with the documented behaviour as a class, and
    a concrete instance shows that the class can be satisfied.

    Threads.  The code of db/db_impl.cc runs under one mutex.  Where it releases
    the mutex or waits on a condition variable the model applies a function
    [others] to the database and the environment: whatever the other threads do in
    the meantime.  Theorems hold for every [others] that keeps what the code relies
    on ([calm], [yields], [grows]).  LogAndApply writes the descriptor without the
    mutex; there [others] runs once, before the mutex is taken again.  A thread that
    waits is woken by [others] alone, so signalling a condition is no step of its
    own, and messages to the info log are left out.

    Loops that are not structural take fuel.  It is always a bound the code
    itself implies (the bytes of a block, the entries of an index, the nodes of
    a list, twice the bytes read in the sampling loop of [DbIter]), and the
    theorems prove that the loops end within it.

    ** What the theorems show

    Round trips: log records ([LogSpec.log_roundtrip], [log_reopen],
    [log_torn_tail]), write batches, version edits, file names, blocks and
    tables.  Refinement: block, table, merging and database iterators are cursors
    over the list they should show; a memtable lookup answers from the newest
    visible entry; a group's pool holds the list its operations describe.
    Totality: the log reader, the block iterator and the decoders return on
    arbitrary bytes.  Invariants, bounds and errors: the skip list's order, the
    reference counts of in-memory files, the capacity of a node, creation that
    runs out of room.

    The version set: an edit that was applied is in the descriptor and recovered
    from it ([ManifestSpec.manifest_recovery]), every file of a live version stays
    alive, lookups find the newest visible entry.  The database: a write is logged,
    numbered and applied as one group ([DbWriteSpec.write_commits]), every queued
    write is answered ([WriteQueue.write_queue_liveness]), a compaction keeps every
    read at or after the oldest snapshot ([CompactSpec.compaction_keeps_reads]),
    a log is replayed as it was written ([DbRecoverSpec.recover_log_file]), and no
    file in use is removed ([DbFlush.remove_obsolete_files]).
    Reads answer from the newest entry of a key at a snapshot, wherever it is stored
    ([DbReadSpec.db_get]), an iterator shows the user's view of the whole database
    ([DbIterSpec.db_iterator]), and compaction work always has a background call
    that will do it ([DbCompactSpec.work_is_scheduled]).
    A table cache and a block cache change no answer
    ([TableCache.table_cache_transparent], [BlockCache.block_cache_transparent]); a
    buffered file holds what was appended to it however the kernel splits the writes
    ([PosixSpec.posix_writable_file]) and the background thread runs every work item
    in order ([PosixSpec.background_work]).  Repair leaves a descriptor from which the
    tables it found are recovered, and a log's operations in a table
    ([RepairSpec.repair_tables], [RepairSpec.repair_log]).

    ** Not modelled

    The Windows environment (util/env_windows.cc) mirrors the POSIX one over other
    system calls, and the port layer is locks and compression calls; of
    util/env_posix.cc starting a thread, the logger, sleeping, the test directory and
    the singleton are left out.  The benchmarks and the vendored third_party libraries
    are clients or foreign code, and the histogram of util/histogram.cc, which only the
    benchmarks use, prints floating-point statistics.  Flushes to persistent memory,
    memory ordering of concurrent skip-list readers and the release of memory are not
    represented.  What is written to the info log is left out. *)

From Stdlib Require Export ZArith Lia Bool.
From Stdlib Require Export Init.Byte Strings.Byte.
From stdpp Require Export base tactics list numbers gmap sorting.
From stdpp Require Export strings.

#[global] Open Scope Z_scope.

(** ** Bytes

    A C++ [char] or [uint8_t] is a [byte]; [b2z] is its unsigned value,
    [schar] its value as the (signed) [char] of the supported platforms and
    [z2b] the narrowing conversion of an integer. *)

Abbreviation byte := Byte.byte.
Abbreviation bytes := (list byte).

#[export] Instance byte_eq_dec : EqDecision byte := Byte.byte_eq_dec.

Definition b2z (b : byte) : Z := Z.of_N (Byte.to_N b).

Definition z2b (z : Z) : byte :=
  match Byte.of_N (Z.to_N (z mod 256)) with
  | Some b => b
  | None => x00
  end.

Definition schar (b : byte) : Z :=
  if b2z b <? 128 then b2z b else b2z b - 256.

#[export] Instance byte_countable : Countable byte := inj_countable Byte.to_N Byte.of_N Byte.of_to_N.

(** The bytes of a string literal. *)
Definition str (s : string) : bytes := String.list_byte_of_string s.

Lemma b2z_range b : 0 <= b2z b < 256.
Proof. unfold b2z. pose proof (Byte.to_N_bounded b). lia. Qed.

Lemma b2z_inj b1 b2 : b2z b1 = b2z b2 -> b1 = b2.
Proof.
  unfold b2z. intros H%N2Z.inj.
  pose proof (Byte.of_to_N b1) as E1. pose proof (Byte.of_to_N b2) as E2.
  congruence.
Qed.

#[export] Instance b2z_Inj : Inj (=) (=) b2z.
Proof. exact b2z_inj. Qed.

Lemma b2z_z2b z : b2z (z2b z) = z mod 256.
Proof.
  pose proof (Z.mod_pos_bound z 256 eq_refl) as Hr.
  unfold z2b, b2z. destruct (Byte.of_N (Z.to_N (z mod 256))) eqn:E.
  - apply Byte.to_of_N in E. rewrite E. lia.
  - apply Byte.of_N_None_iff in E. lia.
Qed.

Lemma b2z_z2b_small z : 0 <= z < 256 -> b2z (z2b z) = z.
Proof. intros H. rewrite b2z_z2b. by apply Z.mod_small. Qed.

Lemma z2b_b2z b : z2b (b2z b) = b.
Proof. apply b2z_inj. rewrite b2z_z2b. apply Z.mod_small, b2z_range. Qed.

(** ** Machine words

    Unsigned integers are kept as [Z]; [u8], [u32] and [u64] are the
    wrap-around of the corresponding C++ type ([size_t] is 64 bits wide). *)

Definition u8 (z : Z) : Z := z mod 2 ^ 8.
Definition u32 (z : Z) : Z := z mod 2 ^ 32.
Definition u64 (z : Z) : Z := z mod 2 ^ 64.

(** The conversion of an integer to [int]. *)
Definition i32 (z : Z) : Z := (z + 2 ^ 31) mod 2 ^ 32 - 2 ^ 31.

(** Length of a byte string, as the [size_t] the source computes with. *)
Definition blen (s : bytes) : Z := Z.of_nat (length s).

(** [s[i]] of an unchecked C++ access.  Reading past the end is undefined in
    the source; the model then yields the zero byte, and no theorem relies on
    it: the source's own length tests guard every use. *)
Definition byte_at (s : bytes) (i : Z) : byte := nth (Z.to_nat i) s x00.

(** [Slice(s.data(), n)] and [s.remove_prefix(n)]: the first [n] bytes and
    what follows them. *)
Definition ztake (n : Z) (s : bytes) : bytes := take (Z.to_nat n) s.
Definition zdrop (n : Z) (s : bytes) : bytes := drop (Z.to_nat n) s.

Lemma u32_range z : 0 <= u32 z < 2 ^ 32.
Proof. apply Z.mod_pos_bound. lia. Qed.

Lemma u64_range z : 0 <= u64 z < 2 ^ 64.
Proof. apply Z.mod_pos_bound. lia. Qed.

Lemma u32_small z : 0 <= z < 2 ^ 32 -> u32 z = z.
Proof. apply Z.mod_small. Qed.

Lemma i32_small z : - 2 ^ 31 <= z < 2 ^ 31 -> i32 z = z.
Proof. intros H. unfold i32. rewrite Z.mod_small; lia. Qed.

Lemma u64_small z : 0 <= z < 2 ^ 64 -> u64 z = z.
Proof. apply Z.mod_small. Qed.

Lemma blen_nonneg s : 0 <= blen s.
Proof. unfold blen. lia. Qed.

Lemma blen_app s1 s2 : blen (s1 ++ s2) = blen s1 + blen s2.
Proof. unfold blen. rewrite length_app. lia. Qed.

Lemma blen_nil : blen [] = 0.
Proof. done. Qed.

Lemma blen_cons b s : blen (b :: s) = 1 + blen s.
Proof. unfold blen. cbn [length]. lia. Qed.

Lemma blen_zero s : blen s = 0 -> s = [].
Proof. unfold blen. destruct s; [done|]. cbn [length]. lia. Qed.

Lemma blen_replicate n b : 0 <= n -> blen (replicate (Z.to_nat n) b) = n.
Proof. intros H. unfold blen. rewrite length_replicate. lia. Qed.

Lemma ztake_app n s1 s2 : n = blen s1 -> ztake n (s1 ++ s2) = s1.
Proof.
  intros ->. unfold ztake, blen. rewrite Nat2Z.id. apply take_app_length.
Qed.

Lemma zdrop_app n s1 s2 : n = blen s1 -> zdrop n (s1 ++ s2) = s2.
Proof.
  intros ->. unfold zdrop, blen. rewrite Nat2Z.id. apply drop_app_length.
Qed.

Lemma ztake_zdrop n s : ztake n s ++ zdrop n s = s.
Proof. apply take_drop. Qed.

Lemma blen_ztake n s : 0 <= n <= blen s -> blen (ztake n s) = n.
Proof. unfold blen, ztake. intros H. rewrite length_take. lia. Qed.

Lemma blen_zdrop n s : 0 <= n <= blen s -> blen (zdrop n s) = blen s - n.
Proof. unfold blen, zdrop. intros H. rewrite length_drop. lia. Qed.

Lemma ztake_all n s : blen s <= n -> ztake n s = s.
Proof. unfold blen, ztake. intros H. apply take_ge. lia. Qed.

Lemma zdrop_all n s : blen s <= n -> zdrop n s = [].
Proof. unfold blen, zdrop. intros H. apply drop_ge. lia. Qed.

Lemma zdrop_0 s : zdrop 0 s = s.
Proof. done. Qed.

Lemma ztake_0 s : ztake 0 s = [].
Proof. done. Qed.

Lemma zdrop_zdrop n m s : 0 <= n -> 0 <= m -> zdrop n (zdrop m s) = zdrop (m + n) s.
Proof.
  intros Hn Hm. unfold zdrop. rewrite drop_drop. f_equal. lia.
Qed.

Lemma ztake_app_ge n s1 s2 : blen s1 <= n -> ztake n (s1 ++ s2) = s1 ++ ztake (n - blen s1) s2.
Proof.
  unfold ztake, blen. intros H. rewrite take_app. f_equal; [apply take_ge; lia|]. f_equal. lia.
Qed.

Lemma ztake_app_le n s1 s2 : n <= blen s1 -> ztake n (s1 ++ s2) = ztake n s1.
Proof. unfold ztake, blen. intros H. apply take_app_le. lia. Qed.

Lemma zdrop_app_ge n s1 s2 : blen s1 <= n -> zdrop n (s1 ++ s2) = zdrop (n - blen s1) s2.
Proof.
  unfold zdrop, blen. intros H. rewrite drop_app_ge by lia. f_equal. lia.
Qed.

Lemma zdrop_app_le n s1 s2 : n <= blen s1 -> zdrop n (s1 ++ s2) = zdrop n s1 ++ s2.
Proof. unfold zdrop, blen. intros H. apply drop_app_le. lia. Qed.

Lemma ztake_short n s : blen (ztake n s) < n -> ztake n s = s.
Proof.
  unfold ztake, blen. intros H. rewrite length_take in H. apply take_ge. lia.
Qed.

(** Two splittings of one string: the shorter first part is a prefix of the
    longer one. *)
Lemma app_prefix_split (a m x y : bytes) :
  a ++ m = x ++ y -> blen x <= blen a -> a = x ++ zdrop (blen x) a.
Proof.
  intros E H. rewrite <- (ztake_zdrop (blen x) a) at 1. f_equal.
  apply (f_equal (ztake (blen x))) in E. rewrite (ztake_app _ x) in E by done.
  etrans; [|exact E]. unfold ztake, blen in *. rewrite take_app_le; [done|lia].
Qed.

Lemma app_zdrop_inv (a m x y : bytes) :
  a ++ m = x ++ y -> blen x <= blen a -> zdrop (blen x) a ++ m = y.
Proof.
  intros E H. pose proof (app_prefix_split _ _ _ _ E H) as Ha.
  rewrite Ha, <- app_assoc in E. by apply app_inv_head in E.
Qed.

(** Rewriting form of the loop step, with an abstract body. *)
Lemma fold_left_step {A B} (f : A -> B -> A) x l a :
  fold_left f (x :: l) a = fold_left f l (f a x).
Proof. done. Qed.

(** Filtering by a test that always, or never, holds. *)
Lemma filter_id {A} (f : A -> bool) l :
  (forall x, x ∈ l -> f x = true) -> List.filter f l = l.
Proof.
  induction l as [|x l IH]; intros H; [done|]. cbn. rewrite H by left. f_equal.
  apply IH. intros y Hy. apply H. by right.
Qed.

Lemma filter_none {A} (f : A -> bool) l :
  (forall x, x ∈ l -> f x = false) -> List.filter f l = [].
Proof.
  induction l as [|x l IH]; intros H; [done|]. cbn. rewrite H by left.
  apply IH. intros y Hy. apply H. by right.
Qed.

Lemma elem_of_filter_bool {A} (f : A -> bool) l x : x ∈ List.filter f l <-> x ∈ l /\ f x = true.
Proof. rewrite !list_elem_of_In. apply filter_In. Qed.

#[export] Instance filter_bool_proper {A} (f : A -> bool) :
  Proper (Permutation ==> Permutation) (List.filter f).
Proof.
  intros l l' Hp. induction Hp as [|x l l' _ IH|x y l|l l1 l2 _ IH1 _ IH2]; cbn.
  - done.
  - destruct (f x); by rewrite IH.
  - destruct (f x), (f y); try done. apply Permutation_swap.
  - by rewrite IH1.
Qed.

Lemma StronglySorted_filter_bool {A} (R : A -> A -> Prop) (f : A -> bool) l :
  StronglySorted R l -> StronglySorted R (List.filter f l).
Proof.
  induction 1 as [|x l _ IH Hx]; cbn; [constructor|]. destruct (f x); [|done].
  constructor; [done|]. rewrite Forall_forall in Hx |- *. intros y [Hy _]%elem_of_filter_bool. auto.
Qed.

Lemma StronglySorted_lookup {A} (R : A -> A -> Prop) l i j x y :
  StronglySorted R l -> l !! i = Some x -> l !! j = Some y -> (i < j)%nat -> R x y.
Proof.
  intros Hs. revert i j. induction Hs as [|z l Hs IH Hz]; intros i j Hi Hj Hij; [done|].
  destruct j as [|j]; [lia|]. destruct i as [|i]; cbn in *; [|eapply IH; eauto; lia].
  simplify_eq. rewrite Forall_forall in Hz. by apply Hz, (list_elem_of_lookup_2 _ j).
Qed.

Lemma StronglySorted_by_lookup {A} (R : A -> A -> Prop) l :
  (forall i j x y, l !! i = Some x -> l !! j = Some y -> (i < j)%nat -> R x y) -> StronglySorted R l.
Proof.
  induction l as [|a l IH]; intros Hl; constructor.
  - apply IH. intros i j x y Hi Hj Hij. apply (Hl (S i) (S j)); [done..|lia].
  - apply Forall_lookup_2. intros j y Hj. apply (Hl 0%nat (S j)); [done..|lia].
Qed.

Create HintDb bytes.
Create Rewrite HintDb blen.
Create Rewrite HintDb zbits.
#[export] Hint Resolve b2z_range u32_range u64_range blen_nonneg : bytes.
#[export] Hint Rewrite blen_app blen_cons blen_nil : blen.
#[export] Hint Rewrite blen_replicate using lia : blen.
#[export] Hint Rewrite blen_ztake blen_zdrop using (autorewrite with blen; lia) : blen.

(** Reduce goals on lengths of byte strings to linear arithmetic. *)
Ltac len := autorewrite with blen in *; try lia.

(** ** Bit operations *)

Lemma lor_add a b : Z.land a b = 0 -> Z.lor a b = a + b.
Proof.
  intros H. rewrite Z.add_nocarry_lxor by done. by rewrite Z.lxor_lor.
Qed.

Lemma land_shiftl_low a b n :
  0 <= n -> 0 <= a < 2 ^ n -> Z.land a (Z.shiftl b n) = 0.
Proof.
  intros Hn Ha. apply Z.bits_inj'. intros i Hi.
  rewrite Z.land_spec, Z.testbit_0_l, Z.shiftl_spec by lia.
  destruct (Z.ltb_spec i n).
  - rewrite (Z.testbit_neg_r b) by lia. apply andb_false_r.
  - rewrite <- (Z.mod_small a (2 ^ n)) by lia.
    rewrite Z.mod_pow2_bits_high by lia. done.
Qed.

(** Or-ing a value above the bits already present is addition. *)
Lemma lor_shiftl_add a b n :
  0 <= n -> 0 <= a < 2 ^ n -> Z.lor a (Z.shiftl b n) = a + b * 2 ^ n.
Proof.
  intros Hn Ha. rewrite lor_add by (by apply land_shiftl_low).
  rewrite Z.shiftl_mul_pow2 by lia. done.
Qed.

Lemma testbit_mod_pow2 a n i :
  0 <= n -> 0 <= i -> Z.testbit (a mod 2 ^ n) i = (i <? n) && Z.testbit a i.
Proof.
  intros Hn Hi. destruct (Z.ltb_spec i n).
  - by rewrite Z.mod_pow2_bits_low.
  - by rewrite Z.mod_pow2_bits_high by lia.
Qed.

Lemma testbit_small a n i : 0 <= a < 2 ^ n -> n <= i -> Z.testbit a i = false.
Proof.
  intros Ha Hi. assert (0 <= n) by (destruct (Z.neg_nonneg_cases n) as [Hneg|]; [rewrite Z.pow_neg_r in Ha|]; lia).
  rewrite <- (Z.mod_small a (2 ^ n)) by lia. apply Z.mod_pow2_bits_high. lia.
Qed.

(** A number whose bits from [n] on are clear is below [2 ^ n]. *)
Lemma bits_bound a n :
  0 <= n -> 0 <= a -> (forall i, n <= i -> Z.testbit a i = false) -> a < 2 ^ n.
Proof.
  intros Hn Ha Hb. assert (a = a mod 2 ^ n) as ->.
  { apply Z.bits_inj'. intros i Hi. rewrite testbit_mod_pow2 by lia.
    destruct (Z.ltb_spec i n); [done|]. by rewrite Hb by lia. }
  apply Z.mod_pos_bound. lia.
Qed.

Lemma lxor_bound a b n :
  0 <= n -> 0 <= a < 2 ^ n -> 0 <= b < 2 ^ n -> 0 <= Z.lxor a b < 2 ^ n.
Proof.
  intros Hn Ha Hb. split; [apply Z.lxor_nonneg; lia|].
  apply bits_bound; [lia|apply Z.lxor_nonneg; lia|].
  intros i Hi. rewrite Z.lxor_spec, (testbit_small a n), (testbit_small b n) by lia.
  done.
Qed.

Lemma lor_bound a b n :
  0 <= n -> 0 <= a < 2 ^ n -> 0 <= b < 2 ^ n -> 0 <= Z.lor a b < 2 ^ n.
Proof.
  intros Hn Ha Hb. split; [apply Z.lor_nonneg; lia|].
  apply bits_bound; [lia|apply Z.lor_nonneg; lia|].
  intros i Hi. rewrite Z.lor_spec, (testbit_small a n), (testbit_small b n) by lia.
  done.
Qed.

#[export] Hint Rewrite Z.lor_spec Z.land_spec Z.lxor_spec Z.testbit_0_l : zbits.
#[export] Hint Rewrite Z.shiftl_spec Z.shiftr_spec testbit_mod_pow2 using lia : zbits.

(** Equality of integers, bit by bit. *)
Ltac zbits i Hi := apply Z.bits_inj'; intros i Hi; autorewrite with zbits.
