(* ===== verification/Slice.v ===== *)
(** * Slices and the bytewise order

    [include/leveldb/slice.h].  A [Slice] is a pointer and a length into
    memory owned by somebody else; it is modelled by the bytes it refers to.
    This file holds the byte-string operations of the class and the order
    [Slice::compare] defines, with the facts on that order every sorted
    structure of the database relies on. *)

From S2P Require Import Prelude.

(** The sign of [memcmp(a, b, n)] over the first [n] bytes, all in range. *)
Fixpoint memcmp (a b : bytes) (n : nat) : Z :=
  match n, a, b with
  | S n, x :: a, y :: b =>
      if b2z x <? b2z y then -1
      else if b2z y <? b2z x then 1
      else memcmp a b n
  | _, _, _ => 0
  end.

(** [Slice::compare] *)
Definition compare (a b : bytes) : Z :=
  let min_len := if blen a <? blen b then blen a else blen b in
  let r := memcmp a b (Z.to_nat min_len) in
  if r =? 0 then
    if blen a <? blen b then -1
    else if blen b <? blen a then 1
    else r
  else r.

(** [Slice::starts_with] *)
Definition starts_with (s x : bytes) : bool :=
  (blen x <=? blen s) && (memcmp s x (length x) =? 0).

(** [operator==(Slice, Slice)] *)
Definition slice_eq (x y : bytes) : bool :=
  (blen x =? blen y) && (memcmp x y (length x) =? 0).

(** [Slice::remove_prefix]: [None] is the failed assertion [n <= size()]. *)
Definition remove_prefix (s : bytes) (n : Z) : option bytes :=
  if n <=? blen s then Some (zdrop n s) else None.

(** ** The lexicographic order

    [lex] is the three-way comparison by the first differing byte; it is what
    [compare] computes. *)

Fixpoint lex (a b : bytes) : Z :=
  match a, b with
  | [], [] => 0
  | [], _ => -1
  | _, [] => 1
  | x :: a, y :: b =>
      if b2z x <? b2z y then -1
      else if b2z y <? b2z x then 1
      else lex a b
  end.

Lemma memcmp_lex a b n :
  n = Nat.min (length a) (length b) ->
  (let r := memcmp a b n in
   if r =? 0 then
     if blen a <? blen b then -1 else if blen b <? blen a then 1 else r
   else r) = lex a b.
Proof.
  revert b n. induction a as [|x a IH]; intros [|y b] n ->; try done.
  cbn [length Nat.min memcmp lex]. cbv zeta.
  destruct (b2z x <? b2z y); [done|]. destruct (b2z y <? b2z x); [done|].
  specialize (IH b _ eq_refl). cbv zeta in IH. rewrite <- IH, !blen_cons.
  replace (1 + blen a <? 1 + blen b) with (blen a <? blen b) by lia.
  replace (1 + blen b <? 1 + blen a) with (blen b <? blen a) by lia.
  done.
Qed.

Lemma compare_lex a b : compare a b = lex a b.
Proof.
  unfold compare. apply memcmp_lex. unfold blen.
  destruct (Z.ltb_spec (Z.of_nat (length a)) (Z.of_nat (length b))); lia.
Qed.

(** Case analysis on the comparison of the heads. *)
Ltac lex_step x y :=
  destruct (Z.ltb_spec (b2z x) (b2z y));
  destruct (Z.ltb_spec (b2z y) (b2z x)); try lia.

Lemma lex_eq a b : lex a b = 0 <-> a = b.
Proof.
  split; [|intros ->].
  - revert b. induction a as [|x a IH]; intros [|y b]; cbn; try done.
    lex_step x y. intros ->%IH. f_equal. apply b2z_inj. lia.
  - induction b as [|y b IH]; cbn; [done|]. lex_step y y; done.
Qed.

Lemma lex_range a b : lex a b = -1 \/ lex a b = 0 \/ lex a b = 1.
Proof.
  revert b. induction a as [|x a IH]; intros [|y b]; cbn; try lia.
  lex_step x y; apply IH.
Qed.

Lemma lex_antisym a b : lex a b = - lex b a.
Proof.
  revert b. induction a as [|x a IH]; intros [|y b]; cbn; try done.
  lex_step x y; apply IH.
Qed.

Lemma lex_trans a b c : lex a b < 0 -> lex b c < 0 -> lex a c < 0.
Proof.
  revert b c. induction a as [|x a IH]; intros [|y b] [|z c]; cbn; try lia.
  lex_step x y; lex_step y z; lex_step x z; try lia. apply IH.
Qed.

(** A common prefix does not influence the comparison. *)
Lemma lex_app p a b : lex (p ++ a) (p ++ b) = lex a b.
Proof.
  induction p as [|x p IH]; [done|]. cbn. lex_step x x; done.
Qed.

Lemma lex_prefix a x s : lex a (a ++ x :: s) = -1.
Proof.
  rewrite <- (app_nil_r a) at 1. by rewrite lex_app.
Qed.

Lemma slice_eq_spec x y : slice_eq x y = true <-> x = y.
Proof.
  unfold slice_eq. rewrite andb_true_iff, Z.eqb_eq. split.
  - intros [Hl Hm]. revert y Hl Hm. induction x as [|a x IH]; intros [|b y] Hl Hm;
      rewrite ?blen_cons, ?blen_nil in Hl; try done;
      try (pose proof (blen_nonneg x); lia); try (pose proof (blen_nonneg y); lia).
    cbn [length memcmp] in Hm. revert Hm.
    destruct (Z.ltb_spec (b2z a) (b2z b)), (Z.ltb_spec (b2z b) (b2z a)); cbn; try done; intros Hm.
    f_equal; [apply b2z_inj; lia|]. apply IH; [lia|done].
  - intros ->. split; [done|]. apply Z.eqb_eq. induction y as [|b y IH]; [done|]. cbn [length memcmp].
    by rewrite Z.ltb_irrefl.
Qed.
