(* ===== verification/Coding.v ===== *)
(** * Integer and string encodings

    [util/coding.h] and [util/coding.cc]: fixed-width little-endian integers,
    varints and length-prefixed strings.  A [Put...] function returns the
    bytes it appends to [*dst]; a [Get...] function takes the input slice and
    returns the parsed value with the advanced slice, or [None] for [false]
    (or [nullptr]). *)

From S2P Require Import Prelude.

(** ** Fixed-width integers *)

Definition EncodeFixed32 (value : Z) : bytes :=
  [z2b value; z2b (Z.shiftr value 8); z2b (Z.shiftr value 16);
   z2b (Z.shiftr value 24)].

Definition EncodeFixed64 (value : Z) : bytes :=
  [z2b value; z2b (Z.shiftr value 8); z2b (Z.shiftr value 16);
   z2b (Z.shiftr value 24); z2b (Z.shiftr value 32); z2b (Z.shiftr value 40);
   z2b (Z.shiftr value 48); z2b (Z.shiftr value 56)].

(** [buffer[i]] as an unsigned integer. *)
Definition buffer_at (ptr : bytes) (i : Z) : Z := b2z (byte_at ptr i).

Definition DecodeFixed32 (ptr : bytes) : Z :=
  Z.lor (Z.lor (Z.lor (buffer_at ptr 0)
    (u32 (Z.shiftl (buffer_at ptr 1) 8)))
    (u32 (Z.shiftl (buffer_at ptr 2) 16)))
    (u32 (Z.shiftl (buffer_at ptr 3) 24)).

Definition DecodeFixed64 (ptr : bytes) : Z :=
  Z.lor (Z.lor (Z.lor (Z.lor (Z.lor (Z.lor (Z.lor (buffer_at ptr 0)
    (u64 (Z.shiftl (buffer_at ptr 1) 8)))
    (u64 (Z.shiftl (buffer_at ptr 2) 16)))
    (u64 (Z.shiftl (buffer_at ptr 3) 24)))
    (u64 (Z.shiftl (buffer_at ptr 4) 32)))
    (u64 (Z.shiftl (buffer_at ptr 5) 40)))
    (u64 (Z.shiftl (buffer_at ptr 6) 48)))
    (u64 (Z.shiftl (buffer_at ptr 7) 56)).

Definition PutFixed32 (dst : bytes) (value : Z) : bytes := dst ++ EncodeFixed32 value.
Definition PutFixed64 (dst : bytes) (value : Z) : bytes := dst ++ EncodeFixed64 value.

(** ** Varints *)

(** The constant [B] of the encoders: the continuation bit. *)
Definition B : Z := 128.

Definition EncodeVarint32 (v : Z) : bytes :=
  if v <? Z.shiftl 1 7 then [z2b v]
  else if v <? Z.shiftl 1 14 then
    [z2b (Z.lor v B); z2b (Z.shiftr v 7)]
  else if v <? Z.shiftl 1 21 then
    [z2b (Z.lor v B); z2b (Z.lor (Z.shiftr v 7) B); z2b (Z.shiftr v 14)]
  else if v <? Z.shiftl 1 28 then
    [z2b (Z.lor v B); z2b (Z.lor (Z.shiftr v 7) B); z2b (Z.lor (Z.shiftr v 14) B);
     z2b (Z.shiftr v 21)]
  else
    [z2b (Z.lor v B); z2b (Z.lor (Z.shiftr v 7) B); z2b (Z.lor (Z.shiftr v 14) B);
     z2b (Z.lor (Z.shiftr v 21) B); z2b (Z.shiftr v 28)].

Definition PutVarint32 (dst : bytes) (v : Z) : bytes := dst ++ EncodeVarint32 v.

(** The [while (v >= B)] loop of [EncodeVarint64]; [fuel] bounds the number of
    bytes, 10 for a 64-bit value. *)
Fixpoint encode_varint_loop (fuel : nat) (v : Z) : bytes :=
  match fuel with
  | O => []
  | S fuel =>
      if B <=? v then z2b (Z.lor v B) :: encode_varint_loop fuel (Z.shiftr v 7)
      else [z2b v]
  end.

Definition EncodeVarint64 (v : Z) : bytes := encode_varint_loop 10 v.

Definition PutVarint64 (dst : bytes) (v : Z) : bytes := dst ++ EncodeVarint64 v.

(** [VarintLength], the loop with its counter. *)
Fixpoint varint_length_loop (fuel : nat) (v len : Z) : Z :=
  match fuel with
  | O => len
  | S fuel =>
      if 128 <=? v then varint_length_loop fuel (Z.shiftr v 7) (len + 1) else len
  end.

Definition VarintLength (v : Z) : Z := varint_length_loop 10 v 1.

(** The decoding loop: [width] is the width of the result type and [last] the
    largest admitted shift.  Each turn moves the shift by 7, so the fuel the
    callers pass is the number of turns the source's condition allows. *)
Fixpoint get_varint_loop (width last : Z) (fuel : nat) (shift result : Z)
    (p : bytes) : option (Z * bytes) :=
  match fuel, p with
  | S fuel, b :: p =>
      if shift <=? last then
        let byte := b2z b in
        if negb (Z.land byte 128 =? 0) then
          get_varint_loop width last fuel (shift + 7)
            (Z.lor result (Z.shiftl (Z.land byte 127) shift mod 2 ^ width)) p
        else Some (Z.lor result (Z.shiftl byte shift mod 2 ^ width), p)
      else None
  | _, _ => None
  end.

Definition GetVarint32PtrFallback (p : bytes) : option (Z * bytes) :=
  get_varint_loop 32 28 5 0 0 p.

Definition GetVarint32Ptr (p : bytes) : option (Z * bytes) :=
  match p with
  | b :: rest =>
      let result := b2z b in
      if Z.land result 128 =? 0 then Some (result, rest)
      else GetVarint32PtrFallback p
  | [] => GetVarint32PtrFallback p
  end.

Definition GetVarint32 (input : bytes) : option (Z * bytes) := GetVarint32Ptr input.

Definition GetVarint64Ptr (p : bytes) : option (Z * bytes) :=
  get_varint_loop 64 63 10 0 0 p.

Definition GetVarint64 (input : bytes) : option (Z * bytes) := GetVarint64Ptr input.

(** ** Length-prefixed strings *)

Definition PutLengthPrefixedSlice (dst value : bytes) : bytes :=
  PutVarint32 dst (u32 (blen value)) ++ value.

Definition GetLengthPrefixedSlice (input : bytes) : option (bytes * bytes) :=
  match GetVarint32 input with
  | Some (len, input) =>
      if len <=? blen input then Some (ztake len input, zdrop len input) else None
  | None => None
  end.

(** ** Values of the encodings *)

(** Little-endian value of a byte string. *)
Fixpoint le_val (s : bytes) : Z :=
  match s with
  | [] => 0
  | b :: s => b2z b + 256 * le_val s
  end.

(** Little-endian digits of an integer. *)
Fixpoint le_bytes (n : nat) (v : Z) : bytes :=
  match n with
  | O => []
  | S n => z2b v :: le_bytes n (Z.shiftr v 8)
  end.

Lemma le_val_bound s : 0 <= le_val s < 256 ^ Z.of_nat (length s).
Proof.
  induction s as [|b s IH]; [done|]. cbn [le_val length].
  pose proof (b2z_range b). rewrite Nat2Z.inj_succ, Z.pow_succ_r by lia. lia.
Qed.

Lemma le_val_bytes n v : le_val (le_bytes n v) = v mod 256 ^ Z.of_nat n.
Proof.
  revert v. induction n as [|n IH]; intros v.
  { cbn. by rewrite Z.mod_1_r. }
  cbn [le_bytes le_val]. rewrite IH, b2z_z2b, Nat2Z.inj_succ, Z.pow_succ_r by lia.
  rewrite Z.shiftr_div_pow2 by lia. change (2 ^ 8) with 256.
  rewrite Z.rem_mul_r by lia. lia.
Qed.

Lemma EncodeFixed32_le v : EncodeFixed32 v = le_bytes 4 v.
Proof. cbn [le_bytes]. unfold EncodeFixed32. by rewrite !Z.shiftr_shiftr by lia. Qed.

Lemma EncodeFixed64_le v : EncodeFixed64 v = le_bytes 8 v.
Proof. cbn [le_bytes]. unfold EncodeFixed64. by rewrite !Z.shiftr_shiftr by lia. Qed.

Lemma byte_shift_mod w b k :
  0 <= k -> k + 8 <= w -> Z.shiftl (b2z b) k mod 2 ^ w = Z.shiftl (b2z b) k.
Proof.
  intros Hk Hw. apply Z.mod_small. rewrite Z.shiftl_mul_pow2 by lia.
  pose proof (b2z_range b). pose proof (Z.pow_pos_nonneg 2 k).
  assert (2 ^ w = 2 ^ (w - k - 8) * 2 ^ 8 * 2 ^ k) as ->
    by (rewrite <- !Z.pow_add_r by lia; f_equal; lia).
  pose proof (Z.pow_pos_nonneg 2 (w - k - 8)). split; [nia|].
  apply Z.mul_lt_mono_pos_r; nia.
Qed.

(** Each or-ed byte lies above the bytes before it. *)
Ltac le_add :=
  repeat match goal with
  | |- context [Z.lor ?a (Z.shiftl (b2z ?x) ?n)] =>
      rewrite (lor_shiftl_add a (b2z x) n) by lia
  end.

Lemma DecodeFixed32_le b0 b1 b2 b3 rest :
  DecodeFixed32 (b0 :: b1 :: b2 :: b3 :: rest) = le_val [b0; b1; b2; b3].
Proof.
  unfold DecodeFixed32, buffer_at, byte_at, u32. cbn [le_val].
  change (nth (Z.to_nat 0) ?l x00) with (nth 0 l x00).
  change (nth (Z.to_nat 1) ?l x00) with (nth 1 l x00).
  change (nth (Z.to_nat 2) ?l x00) with (nth 2 l x00).
  change (nth (Z.to_nat 3) ?l x00) with (nth 3 l x00).
  cbn [nth]. rewrite !byte_shift_mod by lia.
  pose proof (b2z_range b0); pose proof (b2z_range b1);
  pose proof (b2z_range b2); pose proof (b2z_range b3).
  le_add. lia.
Qed.

Lemma DecodeFixed64_le b0 b1 b2 b3 b4 b5 b6 b7 rest :
  DecodeFixed64 (b0 :: b1 :: b2 :: b3 :: b4 :: b5 :: b6 :: b7 :: rest)
  = le_val [b0; b1; b2; b3; b4; b5; b6; b7].
Proof.
  unfold DecodeFixed64, buffer_at, byte_at, u64. cbn [le_val].
  change (nth (Z.to_nat 0) ?l x00) with (nth 0 l x00).
  change (nth (Z.to_nat 1) ?l x00) with (nth 1 l x00).
  change (nth (Z.to_nat 2) ?l x00) with (nth 2 l x00).
  change (nth (Z.to_nat 3) ?l x00) with (nth 3 l x00).
  change (nth (Z.to_nat 4) ?l x00) with (nth 4 l x00).
  change (nth (Z.to_nat 5) ?l x00) with (nth 5 l x00).
  change (nth (Z.to_nat 6) ?l x00) with (nth 6 l x00).
  change (nth (Z.to_nat 7) ?l x00) with (nth 7 l x00).
  cbn [nth]. rewrite !byte_shift_mod by lia.
  pose proof (b2z_range b0); pose proof (b2z_range b1);
  pose proof (b2z_range b2); pose proof (b2z_range b3);
  pose proof (b2z_range b4); pose proof (b2z_range b5);
  pose proof (b2z_range b6); pose proof (b2z_range b7).
  le_add. lia.
Qed.

(** Decoding after encoding gives the value back, whatever follows. *)
Lemma DecodeFixed32_Encode v rest : DecodeFixed32 (EncodeFixed32 v ++ rest) = u32 v.
Proof.
  unfold EncodeFixed32. cbn [app]. rewrite DecodeFixed32_le.
  change (le_val _) with (le_val (EncodeFixed32 v)).
  rewrite EncodeFixed32_le. apply le_val_bytes.
Qed.

Lemma DecodeFixed64_Encode v rest : DecodeFixed64 (EncodeFixed64 v ++ rest) = u64 v.
Proof.
  unfold EncodeFixed64. cbn [app]. rewrite DecodeFixed64_le.
  change (le_val _) with (le_val (EncodeFixed64 v)).
  rewrite EncodeFixed64_le. apply le_val_bytes.
Qed.

(** ** Varints: one step of the encoding against one step of the decoding *)

Lemma z2b_lor_B v : b2z (z2b (Z.lor v B)) = v mod 128 + 128.
Proof.
  rewrite b2z_z2b. change 256 with (2 ^ 8). change 128 with (2 ^ 7).
  assert (Z.lor v B mod 2 ^ 8 = Z.lor (v mod 2 ^ 7) (Z.shiftl 1 7)) as ->.
  { unfold B. zbits i Hi. change 128 with (Z.shiftl 1 7). autorewrite with zbits.
    destruct (Z.ltb_spec i 7).
    - rewrite (Z.testbit_neg_r 1) by lia. destruct (Z.ltb_spec i 8); [|lia].
      by rewrite !orb_false_r.
    - destruct (Z.ltb_spec i 8); cbn.
      + assert (i = 7) as -> by lia. by rewrite orb_true_r.
      + symmetry. apply (testbit_small 1 1); lia. }
  rewrite lor_shiftl_add by (try apply Z.mod_pos_bound; lia). lia.
Qed.

Lemma land_128_ge b : 128 <= b < 256 -> (Z.land b 128 =? 0) = false.
Proof.
  intros H. apply Z.eqb_neq. intros E.
  assert (Z.testbit b 7 = true) as Hb.
  { apply Z.testbit_true; [lia|]. change (2 ^ 7) with 128.
    assert (b / 128 = 1) as -> by (symmetry; apply (Z.div_unique _ _ _ (b - 128)); lia).
    done. }
  assert (Z.testbit (Z.land b 128) 7 = true) by (rewrite Z.land_spec, Hb; done).
  rewrite E in *. done.
Qed.

Lemma land_128_lt b : 0 <= b < 128 -> (Z.land b 128 =? 0) = true.
Proof.
  intros H. change 128 with (Z.shiftl 1 7).
  rewrite land_shiftl_low by (try lia; change (2 ^ 7) with 128; lia). done.
Qed.

Lemma land_127 b : Z.land b 127 = b mod 128.
Proof. change 127 with (Z.ones 7). by rewrite Z.land_ones by lia. Qed.

(** The two bytes a decoding turn distinguishes. *)
Lemma get_varint_more width last fuel shift result v p :
  shift <= last ->
  get_varint_loop width last (S fuel) shift result (z2b (Z.lor v B) :: p)
  = get_varint_loop width last fuel (shift + 7)
      (Z.lor result (Z.shiftl (v mod 128) shift mod 2 ^ width)) p.
Proof.
  intros Hs. cbn [get_varint_loop]. rewrite z2b_lor_B, land_127.
  pose proof (Z.mod_pos_bound v 128 eq_refl).
  replace (shift <=? last) with true by lia.
  rewrite land_128_ge by lia. cbn [negb].
  by rewrite <- Z.add_mod_idemp_r, Z_mod_same_full, Z.add_0_r, Z.mod_mod by lia.
Qed.

Lemma get_varint_last width last fuel shift result v p :
  shift <= last -> 0 <= v < 128 ->
  get_varint_loop width last (S fuel) shift result (z2b v :: p)
  = Some (Z.lor result (Z.shiftl v shift mod 2 ^ width), p).
Proof.
  intros Hs Hv. cbn [get_varint_loop]. rewrite b2z_z2b_small by lia.
  replace (shift <=? last) with true by lia. by rewrite land_128_lt.
Qed.

Lemma shiftr_7 v : Z.shiftr v 7 = v / 128.
Proof. by rewrite Z.shiftr_div_pow2 by lia. Qed.

(** Decoding consumes exactly the encoding and or-s the value in, as long as
    the value fits in the width above the current shift. *)
Lemma get_varint_encode width last n fuel shift result v p :
  0 <= shift -> 0 <= v -> 0 <= result < 2 ^ shift ->
  v < 2 ^ (7 * Z.of_nat n) -> (n <= fuel)%nat -> (0 < n)%nat ->
  v * 2 ^ shift < 2 ^ width ->
  (forall k, (k < n)%nat -> 128 ^ Z.of_nat k <= v \/ k = O -> shift + 7 * Z.of_nat k <= last) ->
  get_varint_loop width last fuel shift result (encode_varint_loop n v ++ p)
  = Some (result + v * 2 ^ shift, p).
Proof.
  revert fuel shift result v. induction n as [|n IH];
    intros fuel shift result v Hs Hv Hr Hvn Hf Hn Hw Hl; [lia|].
  destruct fuel as [|fuel]; [lia|]. cbn [encode_varint_loop].
  pose proof (Z.pow_pos_nonneg 2 shift eq_refl Hs) as Hps.
  assert (shift <= last) as Hsl by (specialize (Hl O ltac:(lia)); lia).
  destruct (Z.leb_spec B v) as [HB|HB]; unfold B in HB; cbn [app].
  - rewrite get_varint_more, shiftr_7 by done.
    pose proof (Z.div_mod v 128 ltac:(lia)) as Hdm.
    pose proof (Z.mod_pos_bound v 128 eq_refl) as Hm.
    assert (0 <= v / 128) by (apply Z.div_pos; lia).
    assert (2 ^ (shift + 7) = 128 * 2 ^ shift) as E7
      by (rewrite Z.pow_add_r by lia; lia).
    assert (0 < n)%nat.
    { destruct n; [|lia]. cbn in Hvn. lia. }
    rewrite (Z.mod_small (Z.shiftl _ _)), lor_shiftl_add
      by (rewrite ?Z.shiftl_mul_pow2 by lia; try lia; nia).
    rewrite IH; [f_equal; f_equal; rewrite E7; nia|lia|lia| | |lia|lia| |].
    + rewrite E7. nia.
    + apply Z.div_lt_upper_bound; [lia|].
      rewrite Nat2Z.inj_succ in Hvn.
      replace (7 * Z.succ (Z.of_nat n)) with (7 + 7 * Z.of_nat n) in Hvn by lia.
      rewrite Z.pow_add_r in Hvn by lia. exact Hvn.
    + rewrite E7. nia.
    + intros k Hk Hkv. specialize (Hl (S k) ltac:(lia)).
      rewrite Nat2Z.inj_succ in Hl. enough (128 ^ Z.succ (Z.of_nat k) <= v) by lia.
      rewrite Z.pow_succ_r by lia. destruct Hkv as [Hkv| ->]; [|cbn; lia].
      nia.
  - rewrite get_varint_last by lia.
    rewrite Z.mod_small by (rewrite Z.shiftl_mul_pow2 by lia; nia).
    by rewrite lor_shiftl_add by lia.
Qed.

(** The unrolled 32-bit encoder is the loop. *)
Lemma EncodeVarint32_loop v :
  0 <= v < 2 ^ 32 -> EncodeVarint32 v = encode_varint_loop 5 v.
Proof.
  intros Hv. unfold EncodeVarint32. cbn [encode_varint_loop].
  rewrite !Z.shiftr_shiftr by lia. change (7 + 7) with 14.
  change (14 + 7) with 21. change (21 + 7) with 28.
  rewrite !Z.shiftl_mul_pow2, !Z.shiftr_div_pow2 by lia. unfold B.
  repeat match goal with
  | |- context [?a <? ?b] => destruct (Z.ltb_spec a b)
  | |- context [?a <=? ?b] => destruct (Z.leb_spec a b)
  end; try done; Z.div_mod_to_equations; lia.
Qed.

Lemma EncodeVarint64_32 v :
  0 <= v < 2 ^ 32 -> EncodeVarint64 v = EncodeVarint32 v.
Proof.
  intros Hv. rewrite EncodeVarint32_loop by done. unfold EncodeVarint64.
  cbn [encode_varint_loop]. rewrite !Z.shiftr_shiftr by lia.
  change (7 + 7) with 14. change (14 + 7) with 21. change (21 + 7) with 28.
  rewrite !Z.shiftr_div_pow2 by lia. unfold B.
  repeat match goal with
  | |- context [?a <=? ?b] => destruct (Z.leb_spec a b)
  end; try done; Z.div_mod_to_equations; lia.
Qed.

Lemma GetVarint64_Encode v rest :
  0 <= v < 2 ^ 64 -> GetVarint64 (EncodeVarint64 v ++ rest) = Some (v, rest).
Proof.
  intros Hv. unfold GetVarint64, GetVarint64Ptr, EncodeVarint64.
  rewrite get_varint_encode; try lia.
  do 2 f_equal. lia.
Qed.

Lemma GetVarint32_Encode v rest :
  0 <= v < 2 ^ 32 -> GetVarint32 (EncodeVarint32 v ++ rest) = Some (v, rest).
Proof.
  intros Hv. rewrite EncodeVarint32_loop by done.
  assert (GetVarint32PtrFallback (encode_varint_loop 5 v ++ rest) = Some (v, rest)) as Hfb.
  { unfold GetVarint32PtrFallback. rewrite get_varint_encode; try lia.
    do 2 f_equal. lia. }
  unfold GetVarint32, GetVarint32Ptr. cbn [encode_varint_loop app] in Hfb |- *.
  destruct (Z.leb_spec B v) as [HB|HB]; unfold B in HB; cbn [app] in Hfb |- *.
  - rewrite z2b_lor_B, land_128_ge; [done|].
    pose proof (Z.mod_pos_bound v 128 eq_refl). lia.
  - rewrite b2z_z2b_small, land_128_lt by lia. done.
Qed.

Lemma PutLengthPrefixedSlice_get value rest :
  blen value < 2 ^ 32 ->
  GetLengthPrefixedSlice (PutLengthPrefixedSlice [] value ++ rest) = Some (value, rest).
Proof.
  intros Hl. pose proof (blen_nonneg value).
  unfold GetLengthPrefixedSlice, PutLengthPrefixedSlice, PutVarint32. cbn [app].
  rewrite u32_small, <- app_assoc, GetVarint32_Encode by lia.
  rewrite ztake_app, zdrop_app by done.
  pose proof (blen_nonneg rest).
  destruct (Z.leb_spec (blen value) (blen (value ++ rest))); [done|len].
Qed.

(** ** What the decoders accept *)

Lemma get_varint_suffix width last fuel shift result p v rest :
  get_varint_loop width last fuel shift result p = Some (v, rest) ->
  exists q, p = q ++ rest /\ q <> [].
Proof.
  revert shift result p. induction fuel as [|fuel IH]; intros shift result [|b p]; try done.
  cbn [get_varint_loop]. destruct (shift <=? last); [|done].
  destruct (negb _).
  - intros (q & -> & Hq)%IH. by exists (b :: q).
  - intros [= <- <-]. by exists [b].
Qed.

(** A successful [GetVarint32] consumes a non-empty prefix of the input. *)
Lemma GetVarint32_suffix p v rest :
  GetVarint32 p = Some (v, rest) -> exists q, p = q ++ rest /\ q <> [].
Proof.
  unfold GetVarint32, GetVarint32Ptr, GetVarint32PtrFallback. destruct p as [|b p].
  - apply get_varint_suffix.
  - destruct (Z.land (b2z b) 128 =? 0); [|apply get_varint_suffix].
    intros [= <- <-]. by exists [b].
Qed.

Lemma get_varint_range width last fuel shift result p v rest :
  0 <= width -> 0 <= result < 2 ^ width ->
  get_varint_loop width last fuel shift result p = Some (v, rest) -> 0 <= v < 2 ^ width.
Proof.
  intros Hw. revert shift result p. induction fuel as [|fuel IH];
    intros shift result [|b p] Hr; try done.
  cbn [get_varint_loop]. destruct (shift <=? last); [|done].
  destruct (negb _).
  - apply IH. apply lor_bound; [lia|lia|]. apply Z.mod_pos_bound. lia.
  - intros [= <- <-]. apply lor_bound; [lia|lia|]. apply Z.mod_pos_bound. lia.
Qed.

Lemma GetVarint32_range p v rest : GetVarint32 p = Some (v, rest) -> 0 <= v < 2 ^ 32.
Proof.
  unfold GetVarint32, GetVarint32Ptr, GetVarint32PtrFallback. destruct p as [|b p].
  - apply get_varint_range; lia.
  - destruct (Z.land (b2z b) 128 =? 0).
    + intros [= <- <-]. pose proof (b2z_range b). lia.
    + apply get_varint_range; lia.
Qed.

Lemma GetVarint64_suffix p v rest :
  GetVarint64 p = Some (v, rest) -> exists q, p = q ++ rest /\ q <> [].
Proof. apply get_varint_suffix. Qed.

Lemma GetLengthPrefixedSlice_suffix p s rest :
  GetLengthPrefixedSlice p = Some (s, rest) -> exists q, p = q ++ rest /\ q <> [].
Proof.
  unfold GetLengthPrefixedSlice. destruct (GetVarint32 p) as [[len p']|] eqn:E; [|done].
  apply GetVarint32_suffix in E as (q & -> & Hq).
  destruct (_ <=? _); [|done]. intros [= <- <-]. exists (q ++ ztake len p').
  rewrite <- app_assoc, ztake_zdrop. split; [done|]. by destruct q.
Qed.

Lemma blen_EncodeFixed32 v : blen (EncodeFixed32 v) = 4.
Proof. done. Qed.

Lemma blen_EncodeFixed64 v : blen (EncodeFixed64 v) = 8.
Proof. done. Qed.

#[export] Hint Rewrite blen_EncodeFixed32 blen_EncodeFixed64 : blen.

(** [VarintLength] is the length of the encoding. *)
Lemma varint_length_loop_encode n v len :
  (0 < n)%nat -> 0 <= v < 2 ^ (7 * Z.of_nat n) ->
  varint_length_loop n v len = len - 1 + blen (encode_varint_loop n v).
Proof.
  revert v len. induction n as [|n IH]; intros v len Hn Hv; [lia|].
  cbn [varint_length_loop encode_varint_loop]. change B with 128.
  destruct (Z.leb_spec 128 v); [|len].
  destruct n as [|n].
  { cbn in Hv. lia. }
  rewrite IH, blen_cons; [lia|lia|]. rewrite shiftr_7.
  rewrite Nat2Z.inj_succ in Hv.
  replace (7 * Z.succ (Z.of_nat (S n))) with (7 + 7 * Z.of_nat (S n)) in Hv by lia.
  rewrite Z.pow_add_r in Hv by lia. change (2 ^ 7) with 128 in Hv.
  split; [apply Z.div_pos; lia|]. apply Z.div_lt_upper_bound; lia.
Qed.

Lemma VarintLength_Encode v :
  0 <= v < 2 ^ 64 -> VarintLength v = blen (EncodeVarint64 v).
Proof.
  intros Hv. unfold VarintLength, EncodeVarint64.
  rewrite varint_length_loop_encode; lia.
Qed.

Lemma PutLengthPrefixedSlice_app dst v :
  PutLengthPrefixedSlice dst v = dst ++ PutLengthPrefixedSlice [] v.
Proof. unfold PutLengthPrefixedSlice, PutVarint32. by rewrite <- app_assoc. Qed.

(** ** Arrays of fixed-width words *)

Definition encode_words (ws : list Z) : bytes := concat (map EncodeFixed32 ws).

Lemma encode_words_app ws ws' : encode_words (ws ++ ws') = encode_words ws ++ encode_words ws'.
Proof. unfold encode_words. by rewrite map_app, concat_app. Qed.

Lemma blen_encode_words ws : blen (encode_words ws) = 4 * Z.of_nat (length ws).
Proof.
  unfold encode_words. induction ws as [|w ws IH]; [done|]. cbn [map concat].
  rewrite blen_app, blen_EncodeFixed32, IH. cbn [length]. lia.
Qed.

Lemma fold_PutFixed32 ws dst : fold_left PutFixed32 ws dst = dst ++ encode_words ws.
Proof.
  revert dst. induction ws as [|w ws IH]; intros dst.
  - cbn. by rewrite app_nil_r.
  - rewrite fold_left_step, IH. unfold PutFixed32, encode_words. cbn [map concat].
    by rewrite app_assoc.
Qed.

(** Indexing an array of words at byte offset [4 * i]. *)
Lemma DecodeFixed32_words ws (i : nat) w rest :
  ws !! i = Some w ->
  DecodeFixed32 (zdrop (Z.of_nat i * 4) (encode_words ws ++ rest)) = u32 w.
Proof.
  intros Hi. pose proof (lookup_lt_Some _ _ _ Hi). rewrite <- (take_drop_middle ws i w Hi).
  rewrite encode_words_app, <- app_assoc, zdrop_app.
  - unfold encode_words at 1. cbn [map concat]. rewrite <- app_assoc. apply DecodeFixed32_Encode.
  - rewrite blen_encode_words, length_take. lia.
Qed.
