(* ===== verification/Status.v ===== *)
(** * Status values

    [include/leveldb/status.h] and [util/status.cc].  A [Status] is a pointer
    to a heap array, null for success: [state_[0..3]] is the message length,
    [state_[4]] the code and the message follows.  The array is modelled by its
    bytes (the length is stored by [memcpy], so in the little-endian order of
    the supported machines). *)

From S2P Require Import Prelude Coding.

Inductive Code :=
  | kOk | kNotFound | kCorruption | kNotSupported | kInvalidArgument | kIOError.

#[export] Instance Code_eq_dec : EqDecision Code.
Proof. solve_decision. Defined.

Definition code_value (c : Code) : Z :=
  match c with
  | kOk => 0 | kNotFound => 1 | kCorruption => 2
  | kNotSupported => 3 | kInvalidArgument => 4 | kIOError => 5
  end.

Record Status := mkStatus { state_ : option bytes }.

#[export] Instance Status_eq_dec : EqDecision Status.
Proof. solve_decision. Defined.

(** [Status::OK()] *)
Definition OK : Status := mkStatus None.

(** The constructor [Status(code, msg, msg2)]. *)
Definition Status_make (code : Code) (msg msg2 : bytes) : Status :=
  let len1 := u32 (blen msg) in
  let len2 := u32 (blen msg2) in
  let sz := u32 (len1 + (if len2 =? 0 then 0 else u32 (2 + len2))) in
  mkStatus (Some (EncodeFixed32 sz ++ [z2b (code_value code)] ++ ztake len1 msg
    ++ (if len2 =? 0 then [] else str ": " ++ ztake len2 msg2))).

Definition NotFound (msg msg2 : bytes) : Status := Status_make kNotFound msg msg2.
Definition Corruption (msg msg2 : bytes) : Status := Status_make kCorruption msg msg2.
Definition NotSupported (msg msg2 : bytes) : Status := Status_make kNotSupported msg msg2.
Definition InvalidArgument (msg msg2 : bytes) : Status := Status_make kInvalidArgument msg msg2.
Definition IOError (msg msg2 : bytes) : Status := Status_make kIOError msg msg2.

(** [Status::ok()] *)
Definition ok (s : Status) : bool :=
  match state_ s with None => true | Some _ => false end.

(** [Status::code()], as the integer stored in [state_[4]]. *)
Definition code (s : Status) : Z :=
  match state_ s with None => 0 | Some st => schar (byte_at st 4) end.

Definition IsNotFound (s : Status) : bool := code s =? 1.
Definition IsCorruption (s : Status) : bool := code s =? 2.
Definition IsIOError (s : Status) : bool := code s =? 5.
Definition IsNotSupportedError (s : Status) : bool := code s =? 3.
Definition IsInvalidArgument (s : Status) : bool := code s =? 4.

(** [Status::CopyState]: copy [size + 5] bytes. *)
Definition CopyState (state : bytes) : bytes :=
  let size := DecodeFixed32 state in ztake (u32 (size + 5)) state.

(** The copy constructor. *)
Definition Status_copy (rhs : Status) : Status :=
  mkStatus (match state_ rhs with None => None | Some st => Some (CopyState st) end).

(** [Status::ToString()]; the unknown-code branch cannot be reached from the
    constructors and prints the code in decimal. *)
Definition ToString (s : Status) (decimal : Z -> bytes) : bytes :=
  match state_ s with
  | None => str "OK"
  | Some st =>
      let type :=
        match code s with
        | 0 => str "OK"
        | 1 => str "NotFound: "
        | 2 => str "Corruption: "
        | 3 => str "Not implemented: "
        | 4 => str "Invalid argument: "
        | 5 => str "IO error: "
        | c => take 29 (str "Unknown code(" ++ decimal c ++ str "): ")
        end in
      type ++ ztake (DecodeFixed32 st) (zdrop 5 st)
  end.

(** ** Correctness *)

Lemma ok_OK : ok OK = true.
Proof. done. Qed.

Lemma ok_make c m1 m2 : ok (Status_make c m1 m2) = false.
Proof. done. Qed.

Lemma code_make c m1 m2 : code (Status_make c m1 m2) = code_value c.
Proof. by destruct c. Qed.

(** The message a status made from [m1] and [m2] carries. *)
Definition status_message (m1 m2 : bytes) : bytes :=
  m1 ++ (if blen m2 =? 0 then [] else str ": " ++ m2).

(** Messages whose combined length fits the 32-bit length field. *)
Definition status_fits (m1 m2 : bytes) : Prop := blen m1 + blen m2 + 7 < 2 ^ 32.

Lemma status_layout c m1 m2 :
  status_fits m1 m2 ->
  state_ (Status_make c m1 m2) =
  Some (EncodeFixed32 (blen (status_message m1 m2)) ++ [z2b (code_value c)]
        ++ status_message m1 m2) /\
  0 <= blen (status_message m1 m2) < 2 ^ 32 - 5.
Proof.
  unfold status_fits. intros H. pose proof (blen_nonneg m1). pose proof (blen_nonneg m2).
  unfold Status_make, status_message. cbn [state_].
  rewrite !(u32_small (blen _)), !(ztake_all (blen _)) by lia.
  destruct (Z.eqb_spec (blen m2) 0) as [E|E].
  - rewrite u32_small by lia. rewrite app_nil_r, Z.add_0_r. split; [done|lia].
  - rewrite (u32_small (2 + _)), u32_small by lia. len. change (blen (str ": ")) with 2. split; [|lia].
    done.
Qed.

Lemma CopyState_make c m1 m2 st :
  status_fits m1 m2 -> state_ (Status_make c m1 m2) = Some st -> CopyState st = st.
Proof.
  intros H. destruct (status_layout c m1 m2 H) as [-> Hr]. intros Hst; apply (inj Some) in Hst as <-.
  unfold CopyState. rewrite DecodeFixed32_Encode, !u32_small by (rewrite ?u32_small; lia).
  apply ztake_all. len.
Qed.

Lemma ToString_make c m1 m2 dec :
  status_fits m1 m2 -> c <> kOk ->
  exists type, ToString (Status_make c m1 m2) dec = type ++ status_message m1 m2.
Proof.
  intros H Hc. unfold ToString. rewrite code_make.
  destruct (status_layout c m1 m2 H) as [-> Hr].
  rewrite DecodeFixed32_Encode, u32_small by lia.
  rewrite app_assoc, zdrop_app by done. rewrite ztake_all by lia. eauto.
Qed.

Create Rewrite HintDb status.
#[export] Hint Rewrite ok_OK ok_make code_make : status.
