(* ===== verification/Env.v ===== *)
(** * File interfaces

    The abstract classes [WritableFile], [SequentialFile] and
    [RandomAccessFile] of [include/leveldb/env.h], as operation classes, and
    the contracts their clients rely on: the file's contents grow by exactly
    what was appended, sequential reads deliver the unread contents in order
    and random reads the bytes at the offset. *)

From S2P Require Import Prelude Status.

(** [class WritableFile]: each operation returns its status and the file after
    the call. *)
Class WritableFile (F : Type) := {
  Append : F -> bytes -> Status * F;
  Close : F -> Status * F;
  Flush : F -> Status * F;
  Sync : F -> Status * F
}.

(** [class SequentialFile]: [Read] returns its status, [*result] and the file. *)
Class SequentialFile (F : Type) := {
  Read : F -> Z -> Status * bytes * F;
  Skip : F -> Z -> Status * F
}.

(** [class RandomAccessFile]: [ReadAt f offset n] is the constant method [Read];
    it returns its status, [*result], and whether [*result] points into the
    caller's [scratch] buffer. *)
Class RandomAccessFile (F : Type) := {
  ReadAt : F -> Z -> Z -> Status * bytes * bool
}.

(** What a caller may assume of a file that does not fail: [contents] is what
    has been written so far. *)
Class ReliableWritable (F : Type) `{WritableFile F} (contents : F -> bytes) := {
  append_contents f d :
    ok (fst (Append f d)) = true /\ contents (snd (Append f d)) = contents f ++ d;
  flush_contents f :
    ok (fst (Flush f)) = true /\ contents (snd (Flush f)) = contents f;
  sync_contents f :
    ok (fst (Sync f)) = true /\ contents (snd (Sync f)) = contents f;
  close_contents f :
    ok (fst (Close f)) = true /\ contents (snd (Close f)) = contents f
}.

(** The same for reading: [unread] is what the file has not delivered yet, and
    a read is short only at the end of the file. *)
Class ReliableSequential (F : Type) `{SequentialFile F} (unread : F -> bytes) := {
  read_unread f n :
    0 <= n ->
    ok (fst (fst (Read f n))) = true /\
    snd (fst (Read f n)) = ztake n (unread f) /\
    unread (snd (Read f n)) = zdrop n (unread f);
  skip_unread f n :
    0 <= n ->
    ok (fst (Skip f n)) = true /\
    unread (snd (Skip f n)) = zdrop n (unread f)
}.

(** Reading a file that does not fail: short only at the end of the file. *)
Class ReliableRandom (F : Type) `{RandomAccessFile F} (contents : F -> bytes) := {
  readat_contents f offset n :
    0 <= offset <= blen (contents f) -> 0 <= n ->
    ok (fst (fst (ReadAt f offset n))) = true /\
    snd (fst (ReadAt f offset n)) = ztake n (zdrop offset (contents f))
}.

(** ** Files held in a string

    The simplest implementation of the interfaces: a file that is the string
    written so far, one that is the string still to be read, and one that is
    read at random; [in_scratch] says which buffer its reads fill. *)

Record StringDest := mkDest { dest_contents : bytes }.
Record StringSource := mkSource { source_unread : bytes }.
Record StringRandom := mkRandom { random_contents : bytes; in_scratch : bool }.

#[export] Instance StringDest_file : WritableFile StringDest := {
  Append f d := (OK, mkDest (dest_contents f ++ d));
  Close f := (OK, f);
  Flush f := (OK, f);
  Sync f := (OK, f)
}.

#[export] Instance StringSource_file : SequentialFile StringSource := {
  Read f n := (OK, ztake n (source_unread f), mkSource (zdrop n (source_unread f)));
  Skip f n := (OK, mkSource (zdrop n (source_unread f)))
}.

#[export] Instance StringDest_reliable : ReliableWritable StringDest dest_contents.
Proof. by split. Qed.

#[export] Instance StringSource_reliable : ReliableSequential StringSource source_unread.
Proof. by split. Qed.

#[export] Instance StringRandom_file : RandomAccessFile StringRandom := {
  ReadAt f offset n := (OK, ztake n (zdrop offset (random_contents f)), in_scratch f)
}.

#[export] Instance StringRandom_reliable : ReliableRandom StringRandom random_contents.
Proof. by split. Qed.
