(* ===== verification/Logging.v ===== *)
(** * Numbers and escapes in text

    [util/logging.cc]: decimal printing and parsing of 64-bit integers (used in
    file names and debug output) and the escaping of binary strings. *)

From S2P Require Import Prelude.

(** ** Printing *)

(** The decimal digits [printf] writes for [%u] and [%llu], most significant
    first; 20 digits hold every 64-bit value. *)
Fixpoint decimal_loop (fuel : nat) (n : Z) (acc : bytes) : bytes :=
  match fuel with
  | O => acc
  | S fuel =>
      let acc := z2b (48 + n mod 10) :: acc in
      if n / 10 =? 0 then acc else decimal_loop fuel (n / 10) acc
  end.

Definition decimal (n : Z) : bytes := decimal_loop 20 n [].

Definition AppendNumberTo (s : bytes) (num : Z) : bytes := s ++ decimal num.
Definition NumberToString (num : Z) : bytes := AppendNumberTo [] num.

(** One lower-case hexadecimal digit. *)
Definition hex_digit (d : Z) : byte := if d <? 10 then z2b (48 + d) else z2b (87 + d).

(** The bytes [AppendEscapedStringTo] pushes for one character. *)
Definition escape_char (c : byte) : bytes :=
  if (32 <=? schar c) && (schar c <=? 126) then [c]
  else let v := Z.land (u32 (schar c)) 0xff in
       str "\x" ++ [hex_digit (v / 16); hex_digit (v mod 16)].

Definition AppendEscapedStringTo (s value : bytes) : bytes := s ++ concat (map escape_char value).
Definition EscapeString (value : bytes) : bytes := AppendEscapedStringTo [] value.

(** ** Parsing *)

Definition kMaxUint64 : Z := 2 ^ 64 - 1.
Definition kLastDigitOfMaxUint64 : Z := 48 + kMaxUint64 mod 10.

(** The loop of [ConsumeDecimalNumber]: [None] is the [return false] of the
    overflow check, otherwise the value and the characters left. *)
Fixpoint consume_loop (value : Z) (current : bytes) : option (Z * bytes) :=
  match current with
  | [] => Some (value, [])
  | c :: rest =>
      let ch := b2z c in
      if (ch <? 48) || (57 <? ch) then Some (value, current)
      else if (kMaxUint64 / 10 <? value)
              || ((value =? kMaxUint64 / 10) && (kLastDigitOfMaxUint64 <? ch))
      then None
      else consume_loop (u64 (u64 (value * 10) + (ch - 48))) rest
  end.

(** [ConsumeDecimalNumber(in, val)]: on [true] the value and the advanced
    slice; on [false] ([None]) the slice is left as it was. *)
Definition ConsumeDecimalNumber (in_ : bytes) : option (Z * bytes) :=
  match consume_loop 0 in_ with
  | Some (value, current) =>
      let digits_consumed := blen in_ - blen current in
      if negb (digits_consumed =? 0) then Some (value, zdrop digits_consumed in_) else None
  | None => None
  end.

(** ** Specification: digit strings *)

Definition is_digit (c : byte) : bool := (48 <=? b2z c) && (b2z c <=? 57).

(** Value of a digit string appended to a number. *)
Definition digits_value (value : Z) (ds : bytes) : Z :=
  fold_left (fun v c => v * 10 + (b2z c - 48)) ds value.

(** Longest prefix of digits, and what follows it. *)
Fixpoint digit_span (s : bytes) : bytes * bytes :=
  match s with
  | c :: s' => if is_digit c then let '(d, r) := digit_span s' in (c :: d, r) else ([], s)
  | [] => ([], [])
  end.

Lemma digit_span_app s : fst (digit_span s) ++ snd (digit_span s) = s.
Proof.
  induction s as [|c s IH]; [done|]. cbn [digit_span]. destruct (is_digit c); [|done].
  destruct (digit_span s). cbn in *. by rewrite IH.
Qed.

Lemma digit_span_digits ds rest :
  forallb is_digit ds = true -> (match rest with [] => True | c :: _ => is_digit c = false end) ->
  digit_span (ds ++ rest) = (ds, rest).
Proof.
  intros Hd Hr. induction ds as [|c ds IH]; cbn in *.
  - destruct rest as [|c rest]; [done|]. cbn. by rewrite Hr.
  - apply andb_prop in Hd as [-> Hd]. by rewrite IH.
Qed.

Lemma digits_value_mono v ds : 0 <= v -> forallb is_digit ds = true -> v <= digits_value v ds.
Proof.
  unfold digits_value. revert v. induction ds as [|c ds IH]; intros v Hv Hd; [cbn; lia|].
  rewrite fold_left_step. cbn in Hd. apply andb_prop in Hd as [Hc Hd].
  unfold is_digit in Hc. etrans; [|apply IH; [lia|done]]. lia.
Qed.

Lemma digit_span_forall s : forallb is_digit (fst (digit_span s)) = true.
Proof.
  induction s as [|c s IH]; [done|]. cbn [digit_span]. destruct (is_digit c) eqn:E; [|done].
  destruct (digit_span s). cbn in *. by rewrite E.
Qed.

(** The loop computes the value of the digit prefix exactly when it fits. *)
Lemma consume_loop_spec s v :
  0 <= v < 2 ^ 64 ->
  consume_loop v s =
  (let '(ds, rest) := digit_span s in
   if digits_value v ds <? 2 ^ 64 then Some (digits_value v ds, rest) else None).
Proof.
  revert v. induction s as [|c s IH]; intros v Hv; cbn [consume_loop digit_span].
  { cbn. by replace (v <? _) with true by lia. }
  destruct (is_digit c) eqn:Hd; unfold is_digit in Hd.
  2: { replace ((b2z c <? 48) || (57 <? b2z c)) with true by lia.
       cbn. by replace (v <? _) with true by lia. }
  replace ((b2z c <? 48) || (57 <? b2z c)) with false by lia.
  pose proof (digit_span_forall s) as Hds. destruct (digit_span s) as [ds rest].
  change (digits_value v (c :: ds)) with (digits_value (v * 10 + (b2z c - 48)) ds).
  change kLastDigitOfMaxUint64 with 53. change (kMaxUint64 / 10) with 1844674407370955161.
  destruct (Z.ltb_spec (v * 10 + (b2z c - 48)) (2 ^ 64)) as [Hs|Hs].
  - replace (_ || _) with false by lia.
    rewrite (u64_small (v * 10)), u64_small by lia. apply IH. lia.
  - replace (_ || _) with true by lia. cbn [fst] in Hds.
    pose proof (digits_value_mono (v * 10 + (b2z c - 48)) ds ltac:(lia) Hds) as Hmono.
    destruct (Z.ltb_spec (digits_value (v * 10 + (b2z c - 48)) ds) (2 ^ 64)); [lia|done].
Qed.

(** The digits printed for a number are digits and denote it. *)
Lemma decimal_loop_spec fuel n acc :
  0 <= n < 10 ^ Z.of_nat fuel -> (0 < fuel)%nat ->
  exists ds, decimal_loop fuel n acc = ds ++ acc /\ forallb is_digit ds = true /\
             ds <> [] /\ forall v, digits_value v ds = v * 10 ^ blen ds + n.
Proof.
  revert n acc. induction fuel as [|fuel IH]; intros n acc Hn Hf; [lia|].
  cbn [decimal_loop]. pose proof (Z.mod_pos_bound n 10 eq_refl) as Hm.
  pose proof (Z.div_mod n 10 ltac:(lia)) as Hdm.
  assert (is_digit (z2b (48 + n mod 10)) = true) as Hd.
  { unfold is_digit. rewrite b2z_z2b_small by lia. lia. }
  destruct (Z.eqb_spec (n / 10) 0) as [E|E].
  - exists [z2b (48 + n mod 10)]. cbn. rewrite Hd, b2z_z2b_small by lia.
    repeat split; [done|]. intros v. change (10 ^ blen [_]) with 10. lia.
  - assert (0 <= n / 10) by (apply Z.div_pos; lia).
    destruct (IH (n / 10) (z2b (48 + n mod 10) :: acc)) as (ds & -> & Hds & Hne & Hv).
    { rewrite Nat2Z.inj_succ, Z.pow_succ_r in Hn by lia.
      split; [done|]. apply Z.div_lt_upper_bound; lia. }
    { destruct fuel; [|lia]. cbn in Hn. lia. }
    exists (ds ++ [z2b (48 + n mod 10)]). rewrite <- app_assoc.
    split; [done|]. rewrite forallb_app, Hds. cbn [forallb]. rewrite Hd.
    split; [done|]. split; [by destruct ds|]. intros v.
    unfold digits_value. rewrite fold_left_app. fold (digits_value v ds). rewrite Hv.
    cbn [fold_left]. rewrite b2z_z2b_small by lia. len.
    rewrite Z.pow_add_r by (pose proof (blen_nonneg ds); lia). lia.
Qed.

Lemma decimal_spec n :
  0 <= n < 2 ^ 64 ->
  forallb is_digit (decimal n) = true /\ decimal n <> [] /\ digits_value 0 (decimal n) = n.
Proof.
  intros Hn. destruct (decimal_loop_spec 20 n []) as (ds & Hds & Hd & Hne & Hv); [lia|lia|].
  unfold decimal. rewrite Hds, app_nil_r. repeat split; [done|done|]. rewrite Hv. lia.
Qed.

(** Twenty digits are enough for 64 bits. *)
Lemma decimal_loop_length fuel n acc :
  (length (decimal_loop fuel n acc) <= fuel + length acc)%nat.
Proof.
  revert n acc. induction fuel as [|fuel IH]; intros n acc; cbn [decimal_loop]; [lia|].
  repeat case_match; try (cbn [length]; lia); etrans; [apply IH|]; cbn [length]; lia.
Qed.

Lemma decimal_length n : 0 <= n < 2 ^ 64 -> blen (decimal n) <= 20.
Proof. intros _. pose proof (decimal_loop_length 20 n []). unfold blen, decimal. cbn in *. lia. Qed.

Lemma ConsumeDecimalNumber_spec s :
  ConsumeDecimalNumber s =
  (let '(ds, rest) := digit_span s in
   if (0 <? blen ds) && (digits_value 0 ds <? 2 ^ 64)
   then Some (digits_value 0 ds, rest) else None).
Proof.
  unfold ConsumeDecimalNumber. rewrite consume_loop_spec by lia.
  pose proof (digit_span_app s) as Hs. destruct (digit_span s) as [ds rest]. cbn in Hs.
  pose proof (blen_nonneg ds).
  destruct (digits_value 0 ds <? 2 ^ 64); [|by rewrite andb_false_r].
  subst s. replace (blen (ds ++ rest) - blen rest) with (blen ds) by len.
  rewrite zdrop_app by done. destruct (Z.eqb_spec (blen ds) 0), (Z.ltb_spec 0 (blen ds));
    try lia; done.
Qed.

(** Printing and parsing a number are inverse to each other. *)
Lemma ConsumeDecimalNumber_NumberToString n rest :
  0 <= n < 2 ^ 64 -> (match rest with [] => True | c :: _ => is_digit c = false end) ->
  ConsumeDecimalNumber (NumberToString n ++ rest) = Some (n, rest).
Proof.
  intros Hn Hr. destruct (decimal_spec n Hn) as (Hd & Hne & Hv).
  unfold NumberToString, AppendNumberTo. cbn [app].
  rewrite ConsumeDecimalNumber_spec, digit_span_digits by done. rewrite Hv.
  assert (0 < blen (decimal n)).
  { pose proof (blen_nonneg (decimal n)). destruct (Z.eq_dec (blen (decimal n)) 0) as [E|]; [|lia].
    by apply blen_zero in E. }
  replace (_ && _) with true by lia. done.
Qed.

(** Escaped strings are printable. *)
Definition printable (c : byte) : bool := (32 <=? b2z c) && (b2z c <=? 126).

Lemma escape_char_printable c : forallb printable (escape_char c) = true.
Proof. by destruct c. Qed.

Lemma EscapeString_printable s : forallb printable (EscapeString s) = true.
Proof.
  unfold EscapeString, AppendEscapedStringTo. cbn [app].
  induction s as [|c s IH]; [done|]. cbn [map concat].
  by rewrite forallb_app, escape_char_printable.
Qed.
