(* ===== verification/LogFormat.v ===== *)
(** * Log format: the writer

    [db/log_format.h], [db/log_writer.h] and [db/log_writer.cc].  A log is a
    sequence of 32 KiB blocks of physical records; a logical record is split
    into fragments so that no physical record crosses a block boundary, and a
    block never ends in a partial header. *)

From S2P Require Import Prelude Coding Crc32c Status Env.

Inductive RecordType := kZeroType | kFullType | kFirstType | kMiddleType | kLastType.

Definition type_value (t : RecordType) : Z :=
  match t with
  | kZeroType => 0 | kFullType => 1 | kFirstType => 2 | kMiddleType => 3 | kLastType => 4
  end.

Definition kMaxRecordType : Z := type_value kLastType.
Definition kBlockSize : Z := 32768.
Definition kHeaderSize : Z := 4 + 2 + 1.

(** [InitTypeCrc]: the checksum of each one-byte type, the byte being at
    address [addr]. *)
Definition InitTypeCrc (addr : Z) : list Z :=
  map (fun i => Value addr [z2b i]) (seqZ 0 (kMaxRecordType + 1)).

Section Writer.

Context {F : Type} `{WritableFile F}.

Record Writer := mkWriter { dest_ : F; block_offset_ : Z; type_crc_ : list Z }.

(** [Writer(dest)] and [Writer(dest, dest_length)]. *)
Definition Writer_make (addr : Z) (dest : F) : Writer :=
  mkWriter dest 0 (InitTypeCrc addr).

Definition Writer_reopen (addr : Z) (dest : F) (dest_length : Z) : Writer :=
  mkWriter dest (dest_length mod kBlockSize) (InitTypeCrc addr).

(** [EmitPhysicalRecord(t, ptr, length)] for the payload [data] at address
    [addr]. *)
Definition EmitPhysicalRecord (w : Writer) (t : RecordType) (addr : Z) (data : bytes)
    : Status * Writer :=
  let len := blen data in
  let crc := Extend addr (nth (Z.to_nat (type_value t)) (type_crc_ w) 0) data in
  let crc := Mask crc in
  let buf := EncodeFixed32 crc
    ++ [z2b (Z.land len 0xff); z2b (Z.shiftr len 8); z2b (type_value t)] in
  let '(s, f) := Append (dest_ w) buf in
  let '(s, f) :=
    if ok s then
      let '(s, f) := Append f data in
      if ok s then Flush f else (s, f)
    else (s, f) in
  (s, mkWriter f (block_offset_ w + (kHeaderSize + len)) (type_crc_ w)).

(** Switching to a new block when no header fits any more: fill the trailer and
    restart at offset 0.  The status of this [Append] is not inspected. *)
Definition switch_block (w : Writer) : Writer :=
  let leftover := kBlockSize - block_offset_ w in
  if leftover <? kHeaderSize then
    let f :=
      if 0 <? leftover
      then snd (Append (dest_ w) (replicate (Z.to_nat leftover) x00))
      else dest_ w in
    mkWriter f 0 (type_crc_ w)
  else w.

Definition fragment_type (begin end_ : bool) : RecordType :=
  if begin && end_ then kFullType
  else if begin then kFirstType
  else if end_ then kLastType
  else kMiddleType.

(** The [do ... while] loop of [AddRecord]: [ptr] is the address of what is
    left of the slice. *)
Fixpoint add_record_loop (fuel : nat) (w : Writer) (ptr : Z) (left : bytes) (begin : bool)
    : option (Status * Writer) :=
  match fuel with
  | O => None
  | S fuel =>
      let w := switch_block w in
      let avail := kBlockSize - block_offset_ w - kHeaderSize in
      let fragment_length := if blen left <? avail then blen left else avail in
      let end_ := blen left =? fragment_length in
      let type := fragment_type begin end_ in
      let '(s, w) := EmitPhysicalRecord w type ptr (ztake fragment_length left) in
      let left := zdrop fragment_length left in
      if ok s && (0 <? blen left)
      then add_record_loop fuel w (ptr + fragment_length) left false
      else Some (s, w)
  end.

(** [AddRecord(slice)] for a slice at address [addr].  A turn that emits an
    empty fragment is followed by one in a fresh block, so [2 * size + 2] turns
    always suffice ([AddRecord_some]). *)
Definition AddRecord (w : Writer) (addr : Z) (slice : bytes) : option (Status * Writer) :=
  add_record_loop (2 * length slice + 2) w addr slice true.

(** ** [AddRecord] returns, whatever the file answers *)

Definition offset_ok (w : Writer) : Prop := 0 <= block_offset_ w <= kBlockSize.

Lemma switch_block_offset w : offset_ok w -> 0 <= block_offset_ (switch_block w) <= kBlockSize - kHeaderSize.
Proof.
  unfold offset_ok, switch_block, kHeaderSize, kBlockSize. intros Ho. destruct (Z.ltb_spec (32768 - block_offset_ w) (4 + 2 + 1)); cbn; lia.
Qed.

Lemma EmitPhysicalRecord_offset w t addr data s w' :
  EmitPhysicalRecord w t addr data = (s, w') -> block_offset_ w' = block_offset_ w + kHeaderSize + blen data.
Proof.
  unfold EmitPhysicalRecord. repeat (destruct (Append _ _)). repeat (destruct (Flush _)).
  repeat match goal with |- context [if ?b then _ else _] => destruct b end; intros [= _ <-]; cbn; lia.
Qed.

Definition turns_left (w : Writer) (left : bytes) : nat :=
  if block_offset_ (switch_block w) =? kBlockSize - kHeaderSize then S (S (length left)) else S (length left).

Lemma add_record_loop_some fuel w ptr left begin :
  offset_ok w -> (turns_left w left <= fuel)%nat ->
  exists s w', add_record_loop fuel w ptr left begin = Some (s, w') /\ offset_ok w'.
Proof.
  revert w ptr left begin. induction fuel as [|fuel IH]; intros w ptr left begin Ho Hf.
  { unfold turns_left in Hf. destruct (_ =? _); lia. }
  cbn [add_record_loop]. pose proof (switch_block_offset w Ho) as Hs. set (w1 := switch_block w) in *.
  set (avail := kBlockSize - block_offset_ w1 - kHeaderSize). pose proof (blen_nonneg left) as Hl.
  set (n := if blen left <? avail then blen left else avail).
  assert (0 <= n <= blen left /\ n <= avail) as Hn by (unfold n, avail; destruct (Z.ltb_spec (blen left) (kBlockSize - block_offset_ w1 - kHeaderSize)); lia).
  destruct (EmitPhysicalRecord w1 _ ptr (ztake n left)) as [s w2] eqn:HE. apply EmitPhysicalRecord_offset in HE.
  rewrite blen_ztake in HE by lia. assert (offset_ok w2) as Ho2 by (unfold offset_ok; unfold avail, kHeaderSize in *; lia).
  destruct (ok s && (0 <? blen (zdrop n left))) eqn:E; [|by exists s, w2]. apply andb_true_iff in E as [_ E].
  apply Z.ltb_lt in E. rewrite blen_zdrop in E by lia.
  assert (n = avail) as En by (unfold n in *; destruct (Z.ltb_spec (blen left) avail); lia).
  apply IH; [done|]. unfold turns_left in *. fold w1 in Hf. rewrite En in HE.
  assert (block_offset_ (switch_block w2) = 0) as -> by (unfold switch_block; rewrite HE; unfold avail;
    replace (kBlockSize - (block_offset_ w1 + kHeaderSize + (kBlockSize - block_offset_ w1 - kHeaderSize))) with 0 by lia; done).
  change (0 =? kBlockSize - kHeaderSize) with false. cbv iota. unfold zdrop. rewrite length_drop. unfold blen, avail, kHeaderSize in *.
  destruct (Z.eqb_spec (block_offset_ w1) (kBlockSize - (4 + 2 + 1))); lia.
Qed.

Lemma AddRecord_some w addr slice : offset_ok w -> exists s w', AddRecord w addr slice = Some (s, w') /\ offset_ok w'.
Proof. intros Ho. apply add_record_loop_some; [done|]. unfold turns_left. destruct (_ =? _); lia. Qed.

End Writer.

Arguments Writer F : clear implicits.
Arguments mkWriter {F} _ _ _.
