(* ===== verification/LogReader.v ===== *)
(** * Log format: the reader

    [db/log_reader.h] and [db/log_reader.cc].  The reader fetches one block at
    a time, parses physical records from its buffer, checks their checksums and
    reassembles logical records.  Record types are the [unsigned int]s of the
    source, [kEof] and [kBadRecord] included; the calls of the reporter are
    collected in [reports_]. *)

From S2P Require Import Prelude Coding Crc32c Status Env Logging LogFormat.

Definition kEof : Z := kMaxRecordType + 1.
Definition kBadRecord : Z := kMaxRecordType + 2.

Section Reader.

Context {F : Type} `{SequentialFile F}.

Record Reader := mkReader {
  file_ : F;
  reporter_ : bool;            (* reporter_ != nullptr *)
  reports_ : list (Z * Status);(* calls of reporter_->Corruption, oldest first *)
  checksum_ : bool;
  backing_addr_ : Z;           (* address of backing_store_ *)
  buffer_ : bytes;
  eof_ : bool;
  last_record_offset_ : Z;
  end_of_buffer_offset_ : Z;
  initial_offset_ : Z;
  resyncing_ : bool
}.

Definition Reader_make (file : F) (reporter checksum : bool) (backing_addr : Z)
    (initial_offset : Z) : Reader :=
  mkReader file reporter [] checksum backing_addr [] false 0 0 initial_offset
    (0 <? initial_offset).

(** Field updates. *)
Definition set_file (f : F) (r : Reader) : Reader :=
  mkReader f (reporter_ r) (reports_ r) (checksum_ r) (backing_addr_ r) (buffer_ r) (eof_ r)
    (last_record_offset_ r) (end_of_buffer_offset_ r) (initial_offset_ r) (resyncing_ r).
Definition add_report (x : Z * Status) (r : Reader) : Reader :=
  mkReader (file_ r) (reporter_ r) (reports_ r ++ [x]) (checksum_ r) (backing_addr_ r) (buffer_ r) (eof_ r)
    (last_record_offset_ r) (end_of_buffer_offset_ r) (initial_offset_ r) (resyncing_ r).
Definition set_buffer (b : bytes) (r : Reader) : Reader :=
  mkReader (file_ r) (reporter_ r) (reports_ r) (checksum_ r) (backing_addr_ r) b (eof_ r)
    (last_record_offset_ r) (end_of_buffer_offset_ r) (initial_offset_ r) (resyncing_ r).
Definition set_eof (e : bool) (r : Reader) : Reader :=
  mkReader (file_ r) (reporter_ r) (reports_ r) (checksum_ r) (backing_addr_ r) (buffer_ r) e
    (last_record_offset_ r) (end_of_buffer_offset_ r) (initial_offset_ r) (resyncing_ r).
Definition set_last_record_offset (o : Z) (r : Reader) : Reader :=
  mkReader (file_ r) (reporter_ r) (reports_ r) (checksum_ r) (backing_addr_ r) (buffer_ r) (eof_ r)
    o (end_of_buffer_offset_ r) (initial_offset_ r) (resyncing_ r).
Definition set_end_of_buffer_offset (o : Z) (r : Reader) : Reader :=
  mkReader (file_ r) (reporter_ r) (reports_ r) (checksum_ r) (backing_addr_ r) (buffer_ r) (eof_ r)
    (last_record_offset_ r) o (initial_offset_ r) (resyncing_ r).
Definition set_resyncing (b : bool) (r : Reader) : Reader :=
  mkReader (file_ r) (reporter_ r) (reports_ r) (checksum_ r) (backing_addr_ r) (buffer_ r) (eof_ r)
    (last_record_offset_ r) (end_of_buffer_offset_ r) (initial_offset_ r) b.

(** [ReportDrop(bytes, reason)] *)
Definition ReportDrop (bytes : Z) (reason : Status) (r : Reader) : Reader :=
  if reporter_ r
     && (initial_offset_ r <=? u64 (end_of_buffer_offset_ r - blen (buffer_ r) - bytes))
  then add_report (bytes, reason) r
  else r.

Definition ReportCorruption (bytes : Z) (reason : string) (r : Reader) : Reader :=
  ReportDrop bytes (Corruption (str reason) []) r.

(** [SkipToInitialBlock()] *)
Definition SkipToInitialBlock (r : Reader) : bool * Reader :=
  let offset_in_block := initial_offset_ r mod kBlockSize in
  let block_start_location := u64 (initial_offset_ r - offset_in_block) in
  let block_start_location :=
    if kBlockSize - 6 <? offset_in_block
    then u64 (block_start_location + kBlockSize) else block_start_location in
  let r := set_end_of_buffer_offset block_start_location r in
  if 0 <? block_start_location then
    let '(skip_status, f) := Skip (file_ r) block_start_location in
    let r := set_file f r in
    if ok skip_status then (true, r)
    else (false, ReportDrop block_start_location skip_status r)
  else (true, r).

(** Parsing one record from a buffer that holds at least a header: the part of
    [ReadPhysicalRecord] below the refill.  [result] is the caller's fragment,
    which the early returns leave alone. *)
Definition parse_physical (result : bytes) (r : Reader) : Z * bytes * Reader :=
  let header := buffer_ r in
  let a := Z.land (u32 (schar (byte_at header 4))) 0xff in
  let b := Z.land (u32 (schar (byte_at header 5))) 0xff in
  let type := u32 (schar (byte_at header 6)) in
  let len := Z.lor a (u32 (Z.shiftl b 8)) in
  if blen (buffer_ r) <? kHeaderSize + len then
    let drop_size := blen (buffer_ r) in
    let r := set_buffer [] r in
    if negb (eof_ r) then
      (kBadRecord, result, ReportCorruption drop_size "bad record length" r)
    else (kEof, result, r)
  else if (type =? 0) && (len =? 0) then
    (kBadRecord, result, set_buffer [] r)
  else
    let header_addr := backing_addr_ r in
    let bad_crc :=
      if checksum_ r then
        let expected_crc := Unmask (DecodeFixed32 header) in
        let actual_crc := Value (header_addr + 6) (ztake (1 + len) (zdrop 6 header)) in
        negb (actual_crc =? expected_crc)
      else false in
    if bad_crc then
      let drop_size := blen (buffer_ r) in
      let r := set_buffer [] r in
      (kBadRecord, result, ReportCorruption drop_size "checksum mismatch" r)
    else
      let r := set_buffer (zdrop (kHeaderSize + len) (buffer_ r)) r in
      if u64 (end_of_buffer_offset_ r - blen (buffer_ r) - kHeaderSize - len)
         <? initial_offset_ r
      then (kBadRecord, [], r)
      else (type, ztake len (zdrop kHeaderSize header), r).

(** [ReadPhysicalRecord(&result)].  After one refill the buffer either holds a
    header or the file has ended, so two turns of the [while (true)] loop
    suffice ([ReadPhysicalRecord_total]). *)
Fixpoint read_physical_loop (fuel : nat) (result : bytes) (r : Reader)
    : option (Z * bytes * Reader) :=
  match fuel with
  | O => None
  | S fuel =>
      if blen (buffer_ r) <? kHeaderSize then
        if negb (eof_ r) then
          let '(status, b, f) := Read (file_ r) kBlockSize in
          let r := set_file f (set_buffer b r) in
          let r := set_end_of_buffer_offset
                     (u64 (end_of_buffer_offset_ r + blen (buffer_ r))) r in
          if negb (ok status) then
            let r := set_buffer [] r in
            Some (kEof, result, set_eof true (ReportDrop kBlockSize status r))
          else if blen (buffer_ r) <? kBlockSize then
            read_physical_loop fuel result (set_eof true r)
          else read_physical_loop fuel result r
        else Some (kEof, result, set_buffer [] r)
      else Some (parse_physical result r)
  end.

Definition ReadPhysicalRecord (result : bytes) (r : Reader) : option (Z * bytes * Reader) :=
  read_physical_loop 2 result r.

(** One logical-record attempt: what a turn of the loop of [ReadRecord] does
    with a physical record. *)
Inductive turn :=
  | Return (record : option bytes) (scratch : bytes) (r : Reader)
  | Continue (in_fragmented_record : bool) (scratch : bytes)
      (prospective_record_offset : Z) (r : Reader).

(** The [switch] on the record type. *)
Definition on_record (record_type : Z) (fragment : bytes) (physical_record_offset : Z)
    (in_fragmented_record : bool) (scratch : bytes) (prospective_record_offset : Z)
    (r : Reader) : turn :=
  if record_type =? type_value kFullType then
    let r := if in_fragmented_record && negb (blen scratch =? 0)
             then ReportCorruption (blen scratch) "partial record without end(1)" r else r in
    Return (Some fragment) [] (set_last_record_offset physical_record_offset r)
  else if record_type =? type_value kFirstType then
    let r := if in_fragmented_record && negb (blen scratch =? 0)
             then ReportCorruption (blen scratch) "partial record without end(2)" r else r in
    Continue true fragment physical_record_offset r
  else if record_type =? type_value kMiddleType then
    if negb in_fragmented_record then
      Continue in_fragmented_record scratch prospective_record_offset
        (ReportCorruption (blen fragment) "missing start of fragmented record(1)" r)
    else Continue in_fragmented_record (scratch ++ fragment) prospective_record_offset r
  else if record_type =? type_value kLastType then
    if negb in_fragmented_record then
      Continue in_fragmented_record scratch prospective_record_offset
        (ReportCorruption (blen fragment) "missing start of fragmented record(2)" r)
    else Return (Some (scratch ++ fragment)) (scratch ++ fragment)
           (set_last_record_offset prospective_record_offset r)
  else if record_type =? kEof then
    Return None (if in_fragmented_record then [] else scratch) r
  else if record_type =? kBadRecord then
    if in_fragmented_record then
      Continue false [] prospective_record_offset
        (ReportCorruption (blen scratch) "error in middle of record" r)
    else Continue in_fragmented_record scratch prospective_record_offset r
  else
    Continue false [] prospective_record_offset
      (ReportDrop (u64 (blen fragment + (if in_fragmented_record then blen scratch else 0)))
         (Corruption (take 39 (str "unknown record type " ++ decimal record_type)) []) r).

(** The [while (true)] loop of [ReadRecord]; [None] means out of fuel. *)
Fixpoint read_record_loop (fuel : nat) (in_fragmented_record : bool) (scratch : bytes)
    (prospective_record_offset : Z) (fragment : bytes) (r : Reader)
    : option (option bytes * bytes * Reader) :=
  match fuel with
  | O => None
  | S fuel =>
      match ReadPhysicalRecord fragment r with
      | None => None
      | Some (record_type, fragment, r) =>
          let physical_record_offset :=
            u64 (end_of_buffer_offset_ r - blen (buffer_ r) - kHeaderSize - blen fragment) in
          let again in_fragmented_record scratch prospective_record_offset r :=
            read_record_loop fuel in_fragmented_record scratch prospective_record_offset
              fragment r in
          if resyncing_ r && (record_type =? type_value kMiddleType) then
            again in_fragmented_record scratch prospective_record_offset r
          else if resyncing_ r && (record_type =? type_value kLastType) then
            again in_fragmented_record scratch prospective_record_offset (set_resyncing false r)
          else
            let r := if resyncing_ r then set_resyncing false r else r in
            match on_record record_type fragment physical_record_offset
                    in_fragmented_record scratch prospective_record_offset r with
            | Return record scratch r => Some (record, scratch, r)
            | Continue in_fragmented_record scratch prospective_record_offset r =>
                again in_fragmented_record scratch prospective_record_offset r
            end
      end
  end.

(** [ReadRecord(&record, &scratch)]: [Some record] is [true]; the second
    component is the scratch string.  [ReadRecord_total] gives the fuel. *)
Definition ReadRecord (fuel : nat) (scratch : bytes) (r : Reader)
    : option (option bytes * bytes * Reader) :=
  let '(go, r) :=
    if last_record_offset_ r <? initial_offset_ r then SkipToInitialBlock r else (true, r) in
  if go then read_record_loop fuel false [] 0 [] r
  else Some (None, scratch, r).

Definition LastRecordOffset (r : Reader) : Z := last_record_offset_ r.

End Reader.

Arguments Reader F : clear implicits.
Arguments mkReader {F} _ _ _ _ _ _ _ _ _ _ _.
Arguments turn F : clear implicits.
