(* ===== verification/LogLayout.v ===== *)
(** * Log layout, and the writer against it

    The byte layout of a log as a relation on positions: where the fragments of
    a record go when its first byte is written at position [p] of the file.  The
    writer produces such layouts (this file) and the reader parses them back
    ([LogCorrect]). *)

From S2P Require Import Prelude Coding Crc32c Status Env Logging LogFormat.

(** One physical record: checksum, length, type, payload. *)
Definition phys (t : RecordType) (data : bytes) : bytes :=
  EncodeFixed32 (Mask (crc32c_ref 0 (z2b (type_value t) :: data)))
  ++ [z2b (Z.land (blen data) 0xff); z2b (Z.shiftr (blen data) 8); z2b (type_value t)]
  ++ data.

(** Zero bytes that fill the block when no header fits after position [p]. *)
Definition trailer (p : Z) : bytes :=
  let leftover := kBlockSize - p mod kBlockSize in
  if leftover <? kHeaderSize then replicate (Z.to_nat leftover) x00 else [].

(** Payload bytes available to a physical record starting at [q]. *)
Definition avail_at (q : Z) : Z := kBlockSize - q mod kBlockSize - kHeaderSize.

(** [record_layout p left begin out]: writing what is [left] of a record at
    position [p] appends [out]. *)
Inductive record_layout : Z -> bytes -> bool -> bytes -> Prop :=
  | layout_last p q left begin :
      q = p + blen (trailer p) -> blen left <= avail_at q ->
      record_layout p left begin (trailer p ++ phys (fragment_type begin true) left)
  | layout_more p q left begin out :
      q = p + blen (trailer p) -> avail_at q < blen left ->
      record_layout (q + kHeaderSize + avail_at q) (zdrop (avail_at q) left) false out ->
      record_layout p left begin
        (trailer p ++ phys (fragment_type begin false) (ztake (avail_at q) left) ++ out).

(** The layout of a sequence of records. *)
Inductive log_layout : Z -> list bytes -> bytes -> Prop :=
  | log_nil p : log_layout p [] []
  | log_cons p rec recs out outs :
      record_layout p rec true out -> log_layout (p + blen out) recs outs ->
      log_layout p (rec :: recs) (out ++ outs).

Lemma log_layout_app p recs1 recs2 out1 out2 :
  log_layout p recs1 out1 -> log_layout (p + blen out1) recs2 out2 ->
  log_layout p (recs1 ++ recs2) (out1 ++ out2).
Proof.
  intros H1. revert recs2 out2. induction H1 as [|p rec recs out outs Hr _ IH];
    intros recs2 out2 H2.
  - by rewrite blen_nil, Z.add_0_r in H2.
  - cbn [app]. rewrite <- app_assoc. econstructor; [done|]. apply IH.
    by rewrite <- Z.add_assoc, <- blen_app.
Qed.

(** ** Arithmetic of positions *)

Lemma kBlockSize_pos : 0 < kBlockSize.
Proof. done. Qed.

Lemma pmod_range p : 0 <= p mod kBlockSize < kBlockSize.
Proof. by apply Z.mod_pos_bound. Qed.

Lemma blen_phys t data : blen (phys t data) = kHeaderSize + blen data.
Proof. unfold phys, kHeaderSize. len. Qed.

Lemma blen_trailer p :
  blen (trailer p) =
  if kBlockSize - p mod kBlockSize <? kHeaderSize then kBlockSize - p mod kBlockSize else 0.
Proof.
  unfold trailer. pose proof (pmod_range p). destruct (_ <? _); [|done].
  apply blen_replicate. lia.
Qed.

#[export] Hint Rewrite blen_phys : blen.

(** After the trailer a header fits. *)
Lemma trailer_position p q :
  q = p + blen (trailer p) ->
  (trailer p = [] /\ q = p \/ 0 < q - p < kHeaderSize /\ q mod kBlockSize = 0) /\
  q mod kBlockSize + kHeaderSize <= kBlockSize.
Proof.
  intros ->. rewrite blen_trailer. unfold trailer. pose proof (pmod_range p).
  destruct (Z.ltb_spec (kBlockSize - p mod kBlockSize) kHeaderSize) as [Hl|Hl].
  - assert ((p + (kBlockSize - p mod kBlockSize)) mod kBlockSize = 0) as ->.
    { pose proof (Z.div_mod p kBlockSize ltac:(done)) as Hp.
      replace (p + (kBlockSize - p mod kBlockSize)) with ((p / kBlockSize + 1) * kBlockSize) by lia.
      by apply Z.mod_mul. }
    split; [right; lia|done].
  - rewrite Z.add_0_r. split; [by left|]. lia.
Qed.

Lemma avail_nonneg p q : q = p + blen (trailer p) -> 0 <= avail_at q < kBlockSize.
Proof.
  intros Hq. destruct (trailer_position p q Hq) as [_ Ht]. pose proof (pmod_range q).
  unfold avail_at, kHeaderSize in *. lia.
Qed.

(** ** The writer *)

Section WriterCorrect.

Context {F : Type} {HW : WritableFile F} {contents : F -> bytes}
        {HR : ReliableWritable F contents}.

(** The writer's state is in step with the file: its offset is the position
    within the current block (or the very end of the previous one). *)
Definition writer_ok (w : Writer F) : Prop :=
  (exists a, type_crc_ w = InitTypeCrc a) /\
  0 <= block_offset_ w <= kBlockSize /\
  (blen (contents (dest_ w)) - block_offset_ w) mod kBlockSize = 0.

Lemma type_crc_nth a t :
  nth (Z.to_nat (type_value t)) (InitTypeCrc a) 0 = crc32c_ref 0 [z2b (type_value t)].
Proof.
  unfold InitTypeCrc. change (seqZ 0 (kMaxRecordType + 1)) with [0; 1; 2; 3; 4].
  destruct t; cbn [map type_value Z.to_nat Pos.to_nat Pos.iter_op nth];
    unfold Value; rewrite !Extend_ref by lia; done.
Qed.

(** Emitting a physical record appends it and moves the offset. *)
Lemma EmitPhysicalRecord_spec w t addr data s w' :
  (exists a, type_crc_ w = InitTypeCrc a) ->
  EmitPhysicalRecord w t addr data = (s, w') ->
  ok s = true /\ contents (dest_ w') = contents (dest_ w) ++ phys t data /\
  block_offset_ w' = block_offset_ w + (kHeaderSize + blen data) /\
  type_crc_ w' = type_crc_ w.
Proof.
  intros [a Ha]. unfold EmitPhysicalRecord. rewrite Ha, type_crc_nth.
  rewrite Extend_ref by (apply crc32c_ref_range; lia). rewrite <- crc32c_ref_app.
  set (buf := EncodeFixed32 _ ++ _).
  pose proof (append_contents (dest_ w) buf) as [Hs1 Hc1].
  destruct (Append (dest_ w) buf) as [s1 f1]. cbn [fst snd] in *. rewrite Hs1.
  pose proof (append_contents f1 data) as [Hs2 Hc2].
  destruct (Append f1 data) as [s2 f2]. cbn [fst snd] in *. rewrite Hs2.
  pose proof (flush_contents f2) as [Hs3 Hc3].
  destruct (Flush f2) as [s3 f3]. cbn [fst snd] in *. intros [= <- <-]. cbn.
  split; [done|]. split; [|done]. rewrite Hc3, Hc2, Hc1. unfold buf, phys.
  by rewrite <- !app_assoc.
Qed.

(** Positions that agree modulo the block size. *)
Lemma offset_mod p off :
  0 <= off <= kBlockSize -> (p - off) mod kBlockSize = 0 ->
  p mod kBlockSize = if off =? kBlockSize then 0 else off.
Proof.
  intros Ho Hm. apply Z.mod_divide in Hm as [k Hk]; [|done].
  replace p with (off + k * kBlockSize) by lia. rewrite Z.mod_add by done.
  destruct (Z.eqb_spec off kBlockSize) as [->|]; [done|]. apply Z.mod_small. lia.
Qed.

(** Filling the trailer brings the writer to the position after it. *)
Lemma switch_block_spec w :
  writer_ok w ->
  let p := blen (contents (dest_ w)) in
  writer_ok (switch_block w) /\
  contents (dest_ (switch_block w)) = contents (dest_ w) ++ trailer p /\
  kBlockSize - block_offset_ (switch_block w) - kHeaderSize = avail_at (p + blen (trailer p)).
Proof.
  intros (Ht & Ho & Hm). cbv zeta. set (p := blen (contents (dest_ w))) in *.
  pose proof (offset_mod _ _ Ho Hm) as Hp. pose proof (trailer_position p _ eq_refl) as [Hq _].
  unfold switch_block, writer_ok, avail_at. revert Hq. rewrite blen_trailer. unfold trailer.
  rewrite Hp. destruct (Z.eqb_spec (block_offset_ w) kBlockSize) as [E|E].
  - rewrite E. replace (kBlockSize - kBlockSize <? kHeaderSize) with true by done.
    replace (0 <? kBlockSize - kBlockSize) with false by done.
    replace (kBlockSize - 0 <? kHeaderSize) with false by done. cbn [dest_ block_offset_ type_crc_].
    rewrite app_nil_r, !Z.add_0_r, Z.sub_0_r, Hp. fold p. intros _.
    rewrite Hp. split; [|done]. split; [done|]. split; [|done].
    pose proof kBlockSize_pos. lia.
  - destruct (Z.ltb_spec (kBlockSize - block_offset_ w) kHeaderSize) as [Hl|Hl].
    + replace (0 <? kBlockSize - block_offset_ w) with true by lia.
      pose proof (append_contents (dest_ w) (replicate (Z.to_nat (kBlockSize - block_offset_ w)) x00))
        as [_ Hc].
      cbn [dest_ block_offset_ type_crc_]. intros Hq.
      assert ((p + (kBlockSize - block_offset_ w)) mod kBlockSize = 0) as Hq' by lia.
      rewrite Hc, blen_app, blen_replicate, !Z.sub_0_r by lia. fold p. rewrite Hq'.
      split; [|done]. split; [done|]. split; [pose proof kBlockSize_pos; lia|done].
    + rewrite app_nil_r, Z.add_0_r, Hp. replace (block_offset_ w =? kBlockSize) with false by lia.
      done.
Qed.

Lemma writer_ok_emit w n w' :
  writer_ok w -> block_offset_ w' = block_offset_ w + n -> type_crc_ w' = type_crc_ w ->
  0 <= n <= kBlockSize - block_offset_ w ->
  blen (contents (dest_ w')) = blen (contents (dest_ w)) + n -> writer_ok w'.
Proof.
  intros (Ht & Ho & Hm) Hb Hc Hn Hl. unfold writer_ok. rewrite Hb, Hc, Hl.
  split; [done|]. split; [lia|].
  replace (blen (contents (dest_ w)) + n - (block_offset_ w + n))
    with (blen (contents (dest_ w)) - block_offset_ w) by lia. done.
Qed.

(** Turns of the loop that suffice from position [p] with [left] to write. *)
Definition turns (p : Z) (left : bytes) : nat :=
  if avail_at (p + blen (trailer p)) =? 0 then S (S (length left)) else S (length left).

Lemma full_block_avail p q :
  q = p + blen (trailer p) ->
  let p' := q + kHeaderSize + avail_at q in
  trailer p' = [] /\ 0 < avail_at (p' + blen (trailer p')).
Proof.
  intros Hq. cbv zeta.
  assert ((q + kHeaderSize + avail_at q) mod kBlockSize = 0) as Hm.
  { unfold avail_at. pose proof (Z.div_mod q kBlockSize ltac:(done)) as Hd.
    replace (q + _ + _) with ((q / kBlockSize + 1) * kBlockSize) by lia. by apply Z.mod_mul. }
  assert (trailer (q + kHeaderSize + avail_at q) = []) as -> by (unfold trailer; by rewrite Hm).
  rewrite blen_nil, Z.add_0_r. split; [done|]. unfold avail_at at 1. rewrite Hm. done.
Qed.

Lemma add_record_loop_spec fuel w ptr left begin :
  writer_ok w -> (turns (blen (contents (dest_ w))) left <= fuel)%nat ->
  exists s w' out,
    add_record_loop fuel w ptr left begin = Some (s, w') /\ ok s = true /\ writer_ok w' /\
    contents (dest_ w') = contents (dest_ w) ++ out /\
    record_layout (blen (contents (dest_ w))) left begin out.
Proof.
  revert w ptr left begin. induction fuel as [|fuel IH]; intros w ptr left begin Hw Hf.
  { unfold turns in Hf. destruct (_ =? _); lia. }
  cbn [add_record_loop]. destruct (switch_block_spec w Hw) as (Hw1 & Hc1 & Ha1).
  set (p := blen (contents (dest_ w))) in *. set (q := p + blen (trailer p)) in *.
  set (w1 := switch_block w) in *. rewrite Ha1.
  pose proof (avail_nonneg p q eq_refl) as Hav.
  pose proof (blen_nonneg left) as Hl0.
  set (n := if blen left <? avail_at q then blen left else avail_at q).
  assert (0 <= n <= blen left /\ n <= avail_at q) as Hn by (unfold n; destruct (Z.ltb_spec (blen left) (avail_at q)); lia).
  destruct (EmitPhysicalRecord w1 _ ptr (ztake n left)) as [s w2] eqn:HE.
  pose proof Hw1 as (Ht1 & _ & _).
  destruct (EmitPhysicalRecord_spec _ _ _ _ _ _ Ht1 HE) as (Hs & Hc2 & Hb2 & Ht2). rewrite Hs.
  assert (blen (contents (dest_ w1)) = q) as Hq by (by rewrite Hc1, blen_app).
  assert (writer_ok w2) as Hw2.
  { eapply (writer_ok_emit w1 (kHeaderSize + n)); [done| |done| |].
    - rewrite Hb2. len.
    - unfold kHeaderSize in *. lia.
    - rewrite Hc2. len. }
  destruct (Z.eqb_spec (blen left) n) as [Hend|Hend].
  - rewrite zdrop_all by lia. cbn [andb]. change (0 <? blen []) with false. cbv iota.
    rewrite ztake_all in Hc2 by lia.
    eexists _, w2, _. split; [done|]. split; [done|]. split; [done|].
    rewrite Hc2, Hc1, <- app_assoc. split; [done|].
    apply (layout_last p q); [done|lia].
  - assert (n = avail_at q) as En by (unfold n in *; destruct (Z.ltb_spec (blen left) (avail_at q)); lia).
    replace (true && (0 <? blen (zdrop n left))) with true by len.
    assert (blen (contents (dest_ w2)) = q + kHeaderSize + avail_at q) as Hq2
      by (rewrite Hc2, blen_app, blen_phys, blen_ztake by lia; lia).
    destruct (IH w2 (ptr + n) (zdrop n left) false Hw2) as (s' & w' & out & -> & Hs' & Hw' & Hc' & Hlay).
    { rewrite Hq2. destruct (full_block_avail p q eq_refl) as [_ Ha'].
      unfold turns in Hf |- *. fold q in Hf. cbv zeta in Ha'.
      replace (avail_at (q + kHeaderSize + avail_at q + _) =? 0) with false by lia.
      unfold zdrop. rewrite length_drop. unfold blen in *.
      destruct (Z.eqb_spec (avail_at q) 0); lia. }
    eexists s', w', _. split; [done|]. split; [done|]. split; [done|].
    rewrite Hc', Hc2, Hc1, <- !app_assoc. split; [done|].
    rewrite En. apply (layout_more p q); [done|lia|].
    rewrite En, Hq2 in Hlay. exact Hlay.
Qed.

(** Writing a sequence of records, stopping at the first failure. *)
Fixpoint write_all (w : Writer F) (addr : Z) (recs : list bytes) : option (Writer F) :=
  match recs with
  | [] => Some w
  | rec :: recs =>
      match AddRecord w addr rec with
      | Some (s, w) => if ok s then write_all w addr recs else None
      | None => None
      end
  end.

Lemma AddRecord_layout w addr slice :
  writer_ok w ->
  exists s w' out,
    AddRecord w addr slice = Some (s, w') /\ ok s = true /\ writer_ok w' /\
    contents (dest_ w') = contents (dest_ w) ++ out /\
    record_layout (blen (contents (dest_ w))) slice true out.
Proof.
  intros Hw. apply add_record_loop_spec; [done|]. unfold turns. destruct (_ =? _); lia.
Qed.

Lemma write_all_layout w addr recs :
  writer_ok w ->
  exists w' out,
    write_all w addr recs = Some w' /\ writer_ok w' /\
    contents (dest_ w') = contents (dest_ w) ++ out /\
    log_layout (blen (contents (dest_ w))) recs out.
Proof.
  revert w. induction recs as [|rec recs IH]; intros w Hw; cbn [write_all].
  - exists w, []. rewrite app_nil_r. repeat split; try done; [apply Hw..|]. constructor.
  - destruct (AddRecord_layout w addr rec Hw) as (s & w1 & out & -> & -> & Hw1 & Hc1 & Hl1).
    destruct (IH w1 Hw1) as (w' & outs & -> & Hw' & Hc' & Hl').
    exists w', (out ++ outs). rewrite Hc', Hc1, <- app_assoc. repeat split; try done; [apply Hw'..|].
    econstructor; [done|]. rewrite Hc1, blen_app in Hl'. exact Hl'.
Qed.

Lemma Writer_make_ok addr f : contents f = [] -> writer_ok (Writer_make addr f).
Proof. intros E. split; [by eexists|]. cbn. rewrite E. done. Qed.

Lemma Writer_reopen_ok addr f :
  writer_ok (Writer_reopen addr f (blen (contents f))).
Proof.
  split; [by eexists|]. cbn. pose proof (pmod_range (blen (contents f))). split; [lia|].
  rewrite Zminus_mod_idemp_r, Z.sub_diag. done.
Qed.

End WriterCorrect.
