(* ===== verification/LogCorrect.v ===== *)
(** * The log reader against the layout

    Reading back what the writer wrote: every record, in order, with no
    corruption reported, also when the file was cut short by a crash. *)

From S2P Require Import Prelude Coding Crc32c Status Env Logging LogFormat LogReader LogLayout.

Section ReaderCorrect.

Context {F : Type} {HS : SequentialFile F} {unread : F -> bytes}
        {HR : ReliableSequential F unread}.

(** ** Parsing a well-formed record *)

Lemma land_u32_schar b : Z.land (u32 (schar b)) 0xff = b2z b.
Proof. by destruct b. Qed.

Lemma length_bytes n : 0 <= n < 65536 ->
  Z.lor (b2z (z2b (Z.land n 0xff))) (u32 (Z.shiftl (b2z (z2b (Z.shiftr n 8))) 8)) = n.
Proof.
  intros Hn. change 0xff with (Z.ones 8). rewrite Z.land_ones, Z.shiftr_div_pow2 by lia.
  change (2 ^ 8) with 256. pose proof (Z.div_mod n 256 ltac:(lia)).
  pose proof (Z.mod_pos_bound n 256 eq_refl).
  assert (0 <= n / 256 < 256) as Hq by lia.
  rewrite !b2z_z2b, Z.mod_mod, (Z.mod_small (n / 256)) by lia.
  rewrite u32_small by (rewrite Z.shiftl_mul_pow2; lia).
  rewrite lor_shiftl_add; lia.
Qed.

Lemma parse_phys result t data rest (r : Reader F) :
  buffer_ r = phys t data ++ rest -> t <> kZeroType -> blen data < 65536 ->
  initial_offset_ r = 0 ->
  parse_physical result r = (type_value t, data, set_buffer rest r).
Proof.
  intros Hb Ht Hd Hi. pose proof (blen_nonneg data). pose proof (blen_nonneg rest).
  unfold parse_physical. rewrite Hb.
  assert (exists c0 c1 c2 c3, EncodeFixed32 (Mask (crc32c_ref 0 (z2b (type_value t) :: data)))
    = [c0; c1; c2; c3]) as (c0 & c1 & c2 & c3 & Hc) by (by eexists _, _, _, _).
  set (hdr := phys t data ++ rest).
  assert (hdr = [c0; c1; c2; c3; z2b (Z.land (blen data) 0xff); z2b (Z.shiftr (blen data) 8);
    z2b (type_value t)] ++ data ++ rest) as Hh
    by (unfold hdr, phys; rewrite Hc, <- !app_assoc; done).
  assert (byte_at hdr 4 = z2b (Z.land (blen data) 0xff)) as -> by (by rewrite Hh).
  assert (byte_at hdr 5 = z2b (Z.shiftr (blen data) 8)) as -> by (by rewrite Hh).
  assert (byte_at hdr 6 = z2b (type_value t)) as -> by (by rewrite Hh).
  rewrite !land_u32_schar, length_bytes by lia.
  assert (u32 (schar (z2b (type_value t))) = type_value t) as -> by (by destruct t).
  assert (blen hdr = kHeaderSize + blen data + blen rest) as Hlen by (unfold hdr; len).
  replace (blen hdr <? _) with false by lia.
  replace ((type_value t =? 0) && (blen data =? 0)) with false by (destruct t; done).
  assert (DecodeFixed32 hdr = Mask (crc32c_ref 0 (z2b (type_value t) :: data))) as ->.
  { unfold hdr, phys. rewrite <- !app_assoc, DecodeFixed32_Encode.
    apply u32_small, Mask_range. }
  rewrite Unmask_Mask by (apply crc32c_ref_range; lia).
  assert (zdrop 6 hdr = (z2b (type_value t) :: data) ++ rest) as -> by (by rewrite Hh).
  rewrite ztake_app by len. unfold Value. rewrite Extend_ref, Z.eqb_refl by lia. cbn [negb].
  assert (zdrop (kHeaderSize + blen data) hdr = rest) as -> by (apply zdrop_app; len).
  assert (zdrop kHeaderSize hdr = data ++ rest) as -> by (by rewrite Hh).
  rewrite ztake_app by done.
  cbn [set_buffer end_of_buffer_offset_ buffer_ initial_offset_]. rewrite Hi.
  set (o := u64 _). assert (0 <= o) by apply u64_range.
  replace (o <? 0) with false by lia. by destruct (checksum_ r).
Qed.

(** One turn of the loop of [ReadPhysicalRecord]. *)
Lemma read_physical_loop_S fuel result (r : Reader F) :
  read_physical_loop (S fuel) result r =
  if blen (buffer_ r) <? kHeaderSize then
    if negb (eof_ r) then
      let '(status, b, f) := Read (file_ r) kBlockSize in
      let r1 := set_end_of_buffer_offset (u64 (end_of_buffer_offset_ r + blen b))
                  (set_file f (set_buffer b r)) in
      if negb (ok status) then
        Some (kEof, result, set_eof true (ReportDrop kBlockSize status (set_buffer [] r1)))
      else read_physical_loop fuel result (if blen b <? kBlockSize then set_eof true r1 else r1)
    else Some (kEof, result, set_buffer [] r)
  else Some (parse_physical result r).
Proof.
  cbn [read_physical_loop]. destruct (blen (buffer_ r) <? kHeaderSize); [|done].
  destruct (negb (eof_ r)); [|done]. destruct (Read (file_ r) kBlockSize) as [[status b] f].
  cbn. destruct (negb (ok status)); [done|]. by destruct (blen b <? kBlockSize).
Qed.

(** ** Position of the reader in the file *)

(** The reader has consumed the first [p] bytes of a file [C]: its buffer is the
    rest of the block containing [p] (the [k]-th), the file holds the rest. *)
Record reader_at (r : Reader F) (C : bytes) (p : Z) : Prop := {
  at_initial : initial_offset_ r = 0;
  at_resync : resyncing_ r = false;
  at_size : blen C < 2 ^ 64;
  at_last : 0 <= last_record_offset_ r;
  at_block : exists k,
    0 <= p /\ k * kBlockSize <= p <= end_of_buffer_offset_ r /\
    end_of_buffer_offset_ r <= (k + 1) * kBlockSize /\
    (eof_ r = false -> end_of_buffer_offset_ r = (k + 1) * kBlockSize);
  at_end : end_of_buffer_offset_ r <= blen C;
  at_eof : eof_ r = true -> end_of_buffer_offset_ r = blen C;
  at_buffer : buffer_ r = ztake (end_of_buffer_offset_ r - p) (zdrop p C);
  at_unread : unread (file_ r) = zdrop (end_of_buffer_offset_ r) C
}.

Lemma Reader_make_at f reporter checksum addr C :
  unread f = C -> blen C < 2 ^ 64 -> reader_at (Reader_make f reporter checksum addr 0) C 0.
Proof.
  intros Hu HC. pose proof (blen_nonneg C). split; cbn; try done.
  exists (-1). unfold kBlockSize. lia.
Qed.

Lemma reader_at_nonneg r C p : reader_at r C p -> 0 <= p.
Proof. intros []. destruct at_block0 as (k & ? & _). done. Qed.

Lemma reader_at_blen r C p :
  reader_at r C p -> blen (buffer_ r) = end_of_buffer_offset_ r - p.
Proof.
  intros []. destruct at_block0 as (k & ? & ? & ?). rewrite at_buffer0.
  rewrite blen_ztake; [done|]. rewrite blen_zdrop by lia. lia.
Qed.

(** Dropping a prefix of the buffer advances the position. *)
Lemma reader_at_advance r C p n rest :
  reader_at r C p -> 0 <= n -> buffer_ r = rest -> n <= blen rest ->
  reader_at (set_buffer (zdrop n rest) r) C (p + n).
Proof.
  intros Ha Hn Hb Hr. pose proof (reader_at_blen _ _ _ Ha) as Hbl. rewrite Hb in Hbl.
  destruct Ha. destruct at_block0 as (k & Hp & Hk1 & Hk2 & Hk3).
  split; cbn [set_buffer initial_offset_ resyncing_ end_of_buffer_offset_ eof_ file_ buffer_]; try done.
  - exists k. repeat split; try lia. done.
  - rewrite <- Hb, at_buffer0. unfold zdrop, ztake. rewrite skipn_firstn_comm, drop_drop.
    f_equal; [lia|f_equal; lia].
Qed.

(** Refilling an exhausted buffer moves to the next block. *)
Lemma refill_at r C p b f s :
  reader_at r C p -> eof_ r = false -> Read (file_ r) kBlockSize = (s, b, f) ->
  let E := end_of_buffer_offset_ r in
  let r1 := set_end_of_buffer_offset (u64 (E + blen b)) (set_file f (set_buffer b r)) in
  ok s = true /\ b = ztake kBlockSize (zdrop E C) /\
  reader_at (if blen b <? kBlockSize then set_eof true r1 else r1) C E.
Proof.
  intros Ha He HRd. cbv zeta. set (E := end_of_buffer_offset_ r).
  destruct Ha. destruct at_block0 as (k & Hp & Hk1 & Hk2 & Hk3).
  pose proof (read_unread (file_ r) kBlockSize ltac:(done)) as (Hs & Hb & Hu).
  rewrite HRd in Hs, Hb, Hu. cbn [fst snd] in *. rewrite at_unread0 in Hb, Hu. fold E in Hb, Hu.
  specialize (Hk3 He). fold E in Hk1, Hk3, at_end0. clearbody E.
  assert (0 <= E) by lia.
  assert (blen (zdrop E C) = blen C - E) as HdC by (apply blen_zdrop; lia).
  assert (0 <= blen b <= kBlockSize /\ E + blen b <= blen C /\
    (blen b < kBlockSize -> E + blen b = blen C)) as (Hb1 & Hb2 & Hb3).
  { rewrite Hb. destruct (Z.le_gt_cases (blen C - E) kBlockSize).
    - rewrite ztake_all by lia. lia.
    - rewrite blen_ztake by (unfold kBlockSize in *; lia). lia. }
  split; [done|]. split; [done|]. rewrite u64_small by lia.
  assert (forall e, (e = true -> E + blen b = blen C) -> (e = false -> blen b = kBlockSize) ->
    reader_at (set_eof e (set_end_of_buffer_offset (E + blen b) (set_file f (set_buffer b r)))) C E)
    as Hall.
  { intros e He1 He2. split; cbn; try done.
    - exists (k + 1). repeat split; try lia. intros ?%He2. lia.
    - rewrite Z.add_simpl_l. rewrite Hb at 1. destruct (Z.le_gt_cases (blen C - E) kBlockSize).
      + rewrite Hb, !ztake_all; try done; rewrite ?ztake_all by lia; lia.
      + rewrite Hb, (blen_ztake kBlockSize) by (unfold kBlockSize in *; lia). done.
    - rewrite Hu, zdrop_zdrop by (unfold kBlockSize; lia). rewrite Hb.
      destruct (Z.le_gt_cases (blen C - E) kBlockSize).
      + rewrite ztake_all, !zdrop_all by lia. done.
      + rewrite blen_ztake by (unfold kBlockSize in *; lia). done. }
  destruct (Z.ltb_spec (blen b) kBlockSize) as [Hlt|Hge].
  - apply Hall; [auto|done].
  - specialize (Hall false ltac:(done) ltac:(lia)).
    unfold set_eof, set_end_of_buffer_offset in Hall |- *. cbn in Hall |- *.
    by rewrite He.
Qed.

(** ** Reading one physical record of a layout *)

(** Where a physical record may start: a whole header fits in the block, and it
    is either right at [p] or after a trailer that ends the block. *)
Definition starts_at (p q : Z) : Prop :=
  (q = p \/ 0 < q - p < kHeaderSize /\ q mod kBlockSize = 0) /\
  q mod kBlockSize + kHeaderSize <= kBlockSize.

Lemma trailer_starts p q : q = p + blen (trailer p) -> starts_at p q.
Proof.
  intros Hq. destruct (trailer_position p q Hq) as [[[_ ?]|?] ?]; split; auto.
Qed.

(** The next record is in the buffer, or right after the current block. *)
Lemma starts_at_cases r C p q :
  reader_at r C p -> starts_at p q -> q + kHeaderSize <= blen C ->
  (q = p /\ kHeaderSize <= end_of_buffer_offset_ r - p \/
   q = end_of_buffer_offset_ r /\ eof_ r = false /\ end_of_buffer_offset_ r - p < kHeaderSize).
Proof.
  intros Ha [Hq Hfit] HC. destruct Ha. destruct at_block0 as (k & Hp & Hk1 & Hk2 & Hk3).
  pose proof (Z.div_mod q kBlockSize ltac:(done)) as Hdm. pose proof (pmod_range q).
  set (E := end_of_buffer_offset_ r) in *. clearbody E.
  unfold kHeaderSize, kBlockSize in *. destruct (eof_ r).
  - specialize (at_eof0 eq_refl). lia.
  - specialize (Hk3 eq_refl). lia.
Qed.

(** A record that starts at [q] and fits in its block ends within the buffer
    that contains [q]. *)
Lemma phys_in_buffer r C q n :
  reader_at r C q -> 0 <= n -> q mod kBlockSize + n <= kBlockSize -> q + n <= blen C ->
  q < end_of_buffer_offset_ r -> n <= blen (buffer_ r).
Proof.
  intros Ha Hn Hfit HC Hlt. rewrite (reader_at_blen _ _ _ Ha).
  destruct Ha. destruct at_block0 as (k & Hp & Hk1 & Hk2 & Hk3).
  pose proof (Z.div_mod q kBlockSize ltac:(done)) as Hdm. pose proof (pmod_range q).
  set (E := end_of_buffer_offset_ r) in *. clearbody E.
  unfold kBlockSize in *. destruct (eof_ r).
  - specialize (at_eof0 eq_refl). lia.
  - specialize (Hk3 eq_refl). lia.
Qed.

Lemma buffer_prefix r C q s post :
  reader_at r C q -> zdrop q C = s ++ post -> blen s <= blen (buffer_ r) ->
  exists rest, buffer_ r = s ++ rest.
Proof.
  intros Ha Hz Hl. rewrite (at_buffer _ _ _ Ha), Hz in *.
  set (n := end_of_buffer_offset_ r - q) in *. clearbody n.
  exists (take (Z.to_nat n - length s) post). unfold ztake in *.
  rewrite take_app. f_equal. apply take_ge. unfold blen in Hl.
  rewrite length_take, length_app in Hl. lia.
Qed.

Lemma zdrop_plus p n C s post :
  0 <= p -> 0 <= n -> n = blen s -> zdrop p C = s ++ post -> zdrop (p + n) C = post.
Proof.
  intros Hp Hn -> Hz. rewrite <- zdrop_zdrop by lia. rewrite Hz. by apply zdrop_app.
Qed.

(** Parsing at the position of a record moves the reader behind it. *)
Lemma parse_at result t data post r C q :
  reader_at r C q -> zdrop q C = phys t data ++ post -> t <> kZeroType ->
  q mod kBlockSize + kHeaderSize + blen data <= kBlockSize ->
  q < end_of_buffer_offset_ r -> q <= blen C ->
  (kHeaderSize <= blen (buffer_ r)) /\
  exists r', parse_physical result r = (type_value t, data, r') /\
    reader_at r' C (q + kHeaderSize + blen data) /\ reports_ r' = reports_ r.
Proof.
  intros Ha Hz Ht Hfit Hlt HqC. pose proof (blen_nonneg data). pose proof (blen_nonneg post).
  assert (0 <= q) as Hq by (by eapply reader_at_nonneg).
  assert (q + (kHeaderSize + blen data) <= blen C) as Hend.
  { assert (blen (zdrop q C) = kHeaderSize + blen data + blen post) as E by (rewrite Hz; len).
    rewrite blen_zdrop in E by lia. lia. }
  pose proof (phys_in_buffer _ _ _ (kHeaderSize + blen data) Ha ltac:(unfold kHeaderSize; lia) ltac:(lia) Hend Hlt) as Hin.
  split; [lia|].
  destruct (buffer_prefix _ _ _ _ _ Ha Hz) as [rest Hb]; [len|].
  exists (set_buffer rest r). split.
  { eapply parse_phys; try done; [|apply Ha].
    pose proof (pmod_range q). unfold kBlockSize, kHeaderSize in *. lia. }
  split; [|done].
  replace rest with (zdrop (kHeaderSize + blen data) (phys t data ++ rest)) by (apply zdrop_app; len).
  rewrite <- Z.add_assoc. apply reader_at_advance; [done|unfold kHeaderSize; lia|done|]. len.
  pose proof (blen_nonneg rest). lia.
Qed.

(** [ReadPhysicalRecord] returns the record that starts at [q], skipping the
    trailer before it and fetching the next block if needed. *)
Lemma ReadPhysicalRecord_at result t data post r C p q :
  reader_at r C p -> starts_at p q -> zdrop q C = phys t data ++ post -> t <> kZeroType ->
  q mod kBlockSize + kHeaderSize + blen data <= kBlockSize -> q <= blen C ->
  exists r', ReadPhysicalRecord result r = Some (type_value t, data, r') /\
    reader_at r' C (q + kHeaderSize + blen data) /\ reports_ r' = reports_ r.
Proof.
  intros Ha Hst Hz Ht Hfit HqC. pose proof (blen_nonneg data). pose proof (blen_nonneg post).
  assert (0 <= p) as Hp by (by eapply reader_at_nonneg).
  assert (0 <= q) as Hq by (destruct Hst; lia).
  assert (q + kHeaderSize <= blen C) as Hh.
  { assert (blen (zdrop q C) = kHeaderSize + blen data + blen post) as E by (rewrite Hz; len).
    rewrite blen_zdrop in E by lia. lia. }
  unfold ReadPhysicalRecord. rewrite read_physical_loop_S, (reader_at_blen _ _ _ Ha).
  destruct (starts_at_cases _ _ _ _ Ha Hst Hh) as [[-> Hin]|(-> & He & Hout)].
  - replace (_ <? kHeaderSize) with false by lia.
    destruct (parse_at result t data post r C p Ha Hz Ht Hfit) as (_ & r' & -> & ? & ?);
      [unfold kHeaderSize in *; lia|done|]. eauto.
  - replace (_ <? kHeaderSize) with true by lia. rewrite He. cbn [negb].
    destruct (Read (file_ r) kBlockSize) as [[s b] f] eqn:HRd.
    destruct (refill_at _ _ _ _ _ _ Ha He HRd) as (Hs & Hb & Ha1). rewrite Hs. cbn [negb].
    cbv zeta in Ha1 |- *. set (r2 := if _ <? _ then _ else _) in *.
    assert (buffer_ r2 = b /\ reports_ r2 = reports_ r) as [Hb2 Hr2]
      by (unfold r2; by destruct (_ <? _)).
    pose proof (reader_at_blen _ _ _ Ha1) as Hbl. rewrite Hb2 in Hbl.
    assert (0 < blen b) as Hb0.
    { rewrite Hb, Hz. unfold blen, ztake. rewrite length_take, length_app.
      assert (0 < length (phys t data))%nat by (unfold phys; rewrite length_app; cbn; lia).
      unfold kBlockSize. lia. }
    destruct (parse_at result t data post r2 C _ Ha1 Hz Ht Hfit) as (Hge & r' & Hpar & ? & Hr');
      [lia|done|].
    rewrite read_physical_loop_S. replace (blen (buffer_ r2) <? kHeaderSize) with false by lia.
    exists r'. rewrite Hpar. split; [done|]. split; [done|congruence].
Qed.

(** ** Reading at the end of a file that may have been cut *)

(** A record whose payload is cut off by the end of the file reads as [kEof]. *)
Lemma parse_cut result t data missing (r : Reader F) :
  buffer_ r ++ missing = phys t data -> missing <> [] -> kHeaderSize <= blen (buffer_ r) ->
  blen data < 65536 -> eof_ r = true ->
  parse_physical result r = (kEof, result, set_buffer [] r).
Proof.
  intros Hb Hm Hl Hd He. pose proof (blen_nonneg data).
  assert (exists c0 c1 c2 c3, EncodeFixed32 (Mask (crc32c_ref 0 (z2b (type_value t) :: data)))
    = [c0; c1; c2; c3]) as (c0 & c1 & c2 & c3 & Hc) by (by eexists _, _, _, _).
  assert (blen (buffer_ r) + blen missing = kHeaderSize + blen data) as Hlen
    by (rewrite <- blen_app, Hb; len).
  assert (0 < blen missing) as Hm0.
  { pose proof (blen_nonneg missing). destruct (Z.eq_dec (blen missing) 0) as [E|]; [|lia].
    by apply blen_zero in E. }
  assert (forall i, 0 <= i < kHeaderSize ->
    byte_at (buffer_ r) i = byte_at (phys t data) i) as Hat.
  { intros i Hi. unfold byte_at. rewrite <- Hb, app_nth1; [done|].
    unfold blen in Hl. lia. }
  unfold parse_physical. rewrite !Hat by done. unfold phys. rewrite Hc.
  change (byte_at (_ ++ _) 4) with (z2b (Z.land (blen data) 0xff)).
  change (byte_at (_ ++ _) 5) with (z2b (Z.shiftr (blen data) 8)).
  rewrite !land_u32_schar, length_bytes by lia.
  replace (blen (buffer_ r) <? kHeaderSize + blen data) with true by lia.
  cbn [set_buffer eof_]. by rewrite He.
Qed.

(** From position [p] the file holds only a proper prefix of a physical record
    (with its trailer). *)
Definition cut_at (C : bytes) (p : Z) : Prop :=
  exists t data missing,
    zdrop p C ++ missing = trailer p ++ phys t data /\ missing <> [] /\
    (p + blen (trailer p)) mod kBlockSize + kHeaderSize + blen data <= kBlockSize.

Lemma cut_at_end C p : blen C <= p -> cut_at C p.
Proof.
  intros Hp. exists kFullType, [], (trailer p ++ phys kFullType []). rewrite zdrop_all by done.
  split; [done|]. split.
  - intros E%(f_equal blen). revert E. len. pose proof (blen_nonneg (trailer p)).
    unfold kHeaderSize. lia.
  - destruct (trailer_position p _ eq_refl) as [_ ?]. rewrite blen_nil. lia.
Qed.

(** The buffer at a cut record, once it is the last one of the file. *)
Lemma parse_cut_at result t data missing r C q :
  reader_at r C q -> zdrop q C ++ missing = phys t data -> missing <> [] ->
  blen data < 65536 -> eof_ r = true -> kHeaderSize <= blen (buffer_ r) ->
  parse_physical result r = (kEof, result, set_buffer [] r).
Proof.
  intros Ha Hz Hm Hd He Hl. apply (parse_cut result t data missing); try done.
  rewrite (at_buffer _ _ _ Ha), (at_eof _ _ _ Ha He).
  pose proof (reader_at_nonneg _ _ _ Ha).
  assert (blen C - q >= 0).
  { pose proof (reader_at_blen _ _ _ Ha) as E. rewrite (at_eof _ _ _ Ha He) in E.
    unfold kHeaderSize in *. lia. }
  rewrite ztake_all by (rewrite blen_zdrop; lia). done.
Qed.

Lemma cut_bound C p t data missing :
  0 <= p <= blen C -> zdrop p C ++ missing = trailer p ++ phys t data -> missing <> [] ->
  blen C < p + blen (trailer p) + kHeaderSize + blen data.
Proof.
  intros Hp Hz Hm.
  assert (0 < blen missing) as Hm0.
  { pose proof (blen_nonneg missing). destruct (Z.eq_dec (blen missing) 0) as [E|]; [|lia].
    by apply blen_zero in E. }
  assert (blen (zdrop p C) + blen missing = blen (trailer p) + (kHeaderSize + blen data)) as E
    by (rewrite <- blen_app, Hz; len).
  rewrite blen_zdrop in E by lia. lia.
Qed.

(** The turn of the loop after a refill: the file has ended. *)
Lemma read_physical_cut_last result t data missing r C q :
  reader_at r C q -> eof_ r = true ->
  (kHeaderSize <= blen (buffer_ r) -> zdrop q C ++ missing = phys t data) ->
  missing <> [] -> blen data < 65536 ->
  read_physical_loop 1 result r = Some (kEof, result, set_buffer [] r).
Proof.
  intros Ha He Hz Hm Hd. rewrite read_physical_loop_S, He. cbn [negb].
  destruct (Z.ltb_spec (blen (buffer_ r)) kHeaderSize) as [Hs|Hs]; [done|].
  by rewrite (parse_cut_at result t data missing r C q) by auto.
Qed.

Lemma cut_refill_position E p q n C k :
  (q = p \/ 0 < q - p < kHeaderSize /\ q mod kBlockSize = 0) ->
  q mod kBlockSize + kHeaderSize + n <= kBlockSize -> 0 <= n ->
  k * kBlockSize <= p <= E -> E = (k + 1) * kBlockSize -> E - p < kHeaderSize ->
  blen C < q + kHeaderSize + n -> E <= blen C ->
  blen C - E < kBlockSize /\ (E < blen C -> q = E).
Proof.
  intros. pose proof (Z.div_mod q kBlockSize ltac:(done)). pose proof (pmod_range q).
  unfold kBlockSize, kHeaderSize in *. lia.
Qed.

(** At a cut the reader reports the end of the file and nothing else. *)
Lemma ReadPhysicalRecord_cut result r C p :
  reader_at r C p -> cut_at C p -> p <= blen C ->
  exists r', ReadPhysicalRecord result r = Some (kEof, result, r') /\
    resyncing_ r' = false /\ reports_ r' = reports_ r.
Proof.
  intros Ha (t & data & missing & Hz & Hm & Hfit) HpC.
  pose proof (reader_at_nonneg _ _ _ Ha) as Hp. pose proof (blen_nonneg data).
  pose proof (reader_at_blen _ _ _ Ha) as Hbl.
  destruct (trailer_position p _ eq_refl) as [Hq _].
  pose proof (cut_bound _ _ _ _ _ (conj Hp HpC) Hz Hm) as HC.
  assert (blen data < 65536) as Hd
    by (pose proof (pmod_range (p + blen (trailer p))); unfold kBlockSize, kHeaderSize in *; lia).
  pose proof (Z.div_mod (p + blen (trailer p)) kBlockSize ltac:(done)) as Hdm.
  pose proof (pmod_range (p + blen (trailer p))) as Hqr.
  unfold ReadPhysicalRecord. pose proof (at_resync _ _ _ Ha) as Hres.
  pose proof (at_block _ _ _ Ha) as (k & _ & Hk1 & Hk2 & Hk3).
  pose proof (at_eof _ _ _ Ha) as Heof. pose proof (at_end _ _ _ Ha) as Hend.
  pose proof (blen_nonneg (trailer p)) as Htr0.
  destruct (eof_ r) eqn:He.
  - exists (set_buffer [] r). split; [|by split].
    rewrite <- (read_physical_cut_last result t data missing r C p Ha He); try done.
    + rewrite !read_physical_loop_S, He. done.
    + intros Hl. rewrite (Heof eq_refl) in *. assert (trailer p = []) as Htr.
      { apply blen_zero. unfold kBlockSize, kHeaderSize in *. lia. }
      by rewrite Hz, Htr.
  - specialize (Hk3 eq_refl). rewrite read_physical_loop_S, Hbl, He. cbn [negb].
    assert (end_of_buffer_offset_ r - p < kHeaderSize) as Hs
      by (unfold kBlockSize, kHeaderSize in *; lia).
    destruct (cut_refill_position (end_of_buffer_offset_ r) p (p + blen (trailer p)) (blen data) C k)
      as [Hlast HqE]; try done; [lia|].
    replace (end_of_buffer_offset_ r - p <? kHeaderSize) with true by lia.
    destruct (Read (file_ r) kBlockSize) as [[s b] f] eqn:HRd.
    destruct (refill_at _ _ _ _ _ _ Ha He HRd) as (Hok & Hb & Ha1). rewrite Hok. cbn [negb].
    cbv zeta in Ha1 |- *.
    assert (blen (zdrop (end_of_buffer_offset_ r) C) = blen C - end_of_buffer_offset_ r) as HdE
      by (apply blen_zdrop; lia).
    rewrite ztake_all in Hb by lia.
    assert ((blen b <? kBlockSize) = true) as Elt by (rewrite Hb; lia). rewrite Elt in Ha1 |- *.
    set (r1 := set_eof _ _) in *.
    exists (set_buffer [] r1). split; [|by split].
    apply (read_physical_cut_last result t data missing _ C (end_of_buffer_offset_ r)); try done.
    change (buffer_ r1) with b. rewrite Hb, HdE. intros Hl.
    rewrite <- HqE by (unfold kHeaderSize in *; lia).
    rewrite <- zdrop_zdrop by lia. apply app_zdrop_inv; [done|].
    rewrite blen_zdrop by lia. unfold kHeaderSize in *. lia.
Qed.

(** ** Reading logical records *)

(** A turn of the loop of [ReadRecord] outside resynchronisation. *)
Lemma read_record_loop_S fuel inf scratch pro frag frag' ty (r r' : Reader F) :
  ReadPhysicalRecord frag r = Some (ty, frag', r') -> resyncing_ r' = false ->
  read_record_loop (S fuel) inf scratch pro frag r =
  match on_record ty frag'
          (u64 (end_of_buffer_offset_ r' - blen (buffer_ r') - kHeaderSize - blen frag'))
          inf scratch pro r' with
  | Return record scratch r => Some (record, scratch, r)
  | Continue inf scratch pro r => read_record_loop fuel inf scratch pro frag' r
  end.
Proof.
  intros HP Hr. cbn [read_record_loop]. rewrite HP, Hr. cbn [andb]. done.
Qed.

Lemma reader_at_last r C p o :
  reader_at r C p -> 0 <= o -> reader_at (set_last_record_offset o r) C p.
Proof. intros [] Ho. by split. Qed.

(** The states in which the loop expects the first ([begin]) or a later
    fragment. *)
Definition expects (begin inf : bool) (scratch : bytes) : Prop :=
  if begin then inf = false /\ scratch = [] else inf = true.

Lemma on_last_fragment begin inf scratch pro off data (r : Reader F) :
  expects begin inf scratch ->
  exists scratch' o, (o = off \/ o = pro) /\
    on_record (type_value (fragment_type begin true)) data off inf scratch pro r =
    Return (Some (scratch ++ data)) scratch' (set_last_record_offset o r).
Proof.
  destruct begin; cbn [expects].
  - intros [-> ->]. exists [], off. by split; [left|].
  - intros ->. exists (scratch ++ data), pro. by split; [right|].
Qed.

Lemma on_more_fragment begin inf scratch pro off data (r : Reader F) :
  expects begin inf scratch ->
  exists o, (o = off \/ o = pro) /\
    on_record (type_value (fragment_type begin false)) data off inf scratch pro r =
    Continue true (scratch ++ data) o r.
Proof.
  destruct begin; cbn [expects].
  - intros [-> ->]. exists off. by split; [left|].
  - intros ->. exists pro. by split; [right|].
Qed.

Lemma fragment_type_nonzero b e : fragment_type b e <> kZeroType.
Proof. by destruct b, e. Qed.

Lemma zdrop_skip p C tr rest :
  0 <= p -> zdrop p C = tr ++ rest -> zdrop (p + blen tr) C = rest.
Proof.
  intros Hp Hz. pose proof (blen_nonneg tr). rewrite <- zdrop_zdrop by lia. rewrite Hz.
  by apply zdrop_app.
Qed.

Lemma zdrop_bound p C s : 0 <= p <= blen C -> zdrop p C = s -> p + blen s = blen C.
Proof. intros Hp <-. rewrite blen_zdrop by lia. lia. Qed.

(** Reading one fragment of a layout. *)
Lemma read_fragment frag r C p q t data post :
  reader_at r C p -> q = p + blen (trailer p) -> zdrop p C = trailer p ++ phys t data ++ post ->
  t <> kZeroType -> blen data <= avail_at q -> p <= blen C ->
  exists r', ReadPhysicalRecord frag r = Some (type_value t, data, r') /\
    reader_at r' C (q + kHeaderSize + blen data) /\ reports_ r' = reports_ r /\
    zdrop (q + kHeaderSize + blen data) C = post /\ q + kHeaderSize + blen data <= blen C.
Proof.
  intros Ha Hq Hz Ht Hd HpC. pose proof (reader_at_nonneg _ _ _ Ha) as Hp.
  pose proof (blen_nonneg (trailer p)). pose proof (blen_nonneg post). pose proof (blen_nonneg data).
  pose proof (zdrop_bound _ _ _ (conj Hp HpC) Hz) as Hlen.
  apply zdrop_skip in Hz; [|done]. rewrite <- Hq in Hz. revert Hlen. len. intros Hlen.
  unfold avail_at in Hd.
  destruct (ReadPhysicalRecord_at frag t data post r C p q) as (r' & HP & Ha' & Hr'); try done;
    [by apply trailer_starts|lia|unfold kHeaderSize in *; lia|].
  exists r'. split; [done|]. split; [done|]. split; [done|].
  apply zdrop_skip in Hz; [|lia]. rewrite blen_phys, Z.add_assoc in Hz. split; [done|lia].
Qed.

Lemma read_record_layout p left begin out :
  record_layout p left begin out ->
  forall r C post fuel inf scratch pro frag,
  reader_at r C p -> zdrop p C = out ++ post -> p <= blen C -> 0 <= pro ->
  expects begin inf scratch -> (length out <= fuel)%nat ->
  exists scratch' r',
    read_record_loop fuel inf scratch pro frag r = Some (Some (scratch ++ left), scratch', r') /\
    reader_at r' C (p + blen out) /\ reports_ r' = reports_ r.
Proof.
  induction 1 as [p q left begin Hq Hav|p q left begin out Hq Hav _ IH];
    intros r C post fuel inf scratch pro frag Ha Hz HpC Hpro Hex Hf.
  - destruct fuel as [|fuel].
    { rewrite length_app in Hf. unfold phys in Hf. rewrite length_app in Hf. cbn in Hf. lia. }
    rewrite <- app_assoc in Hz.
    destruct (read_fragment frag r C p q _ left post Ha Hq Hz (fragment_type_nonzero _ _) Hav HpC)
      as (r' & HP & Ha' & Hr' & _ & _).
    rewrite (read_record_loop_S _ _ _ _ _ _ _ _ _ HP (at_resync _ _ _ Ha')).
    match goal with |- context [on_record _ _ ?off _ _ _ _] => set (o := off) end.
    destruct (on_last_fragment begin inf scratch pro o left r' Hex) as (s' & o' & Ho & ->).
    eexists _, _. split; [done|]. split; [|done]. len.
    replace (p + (blen (trailer p) + (kHeaderSize + blen left))) with (q + kHeaderSize + blen left) by lia.
    apply reader_at_last; [done|]. assert (0 <= o) by apply u64_range. lia.
  - pose proof (avail_nonneg p q Hq) as Hav0.
    destruct fuel as [|fuel].
    { rewrite !length_app in Hf. unfold phys in Hf. rewrite length_app in Hf. cbn in Hf. lia. }
    rewrite <- !app_assoc in Hz.
    destruct (read_fragment frag r C p q _ (ztake (avail_at q) left) (out ++ post) Ha Hq Hz
      (fragment_type_nonzero _ _)) as (r' & HP & Ha' & Hr' & Hz' & HC'); [len|done|].
    rewrite (read_record_loop_S _ _ _ _ _ _ _ _ _ HP (at_resync _ _ _ Ha')).
    match goal with |- context [on_record _ _ ?off _ _ _ _] => set (o := off) end.
    destruct (on_more_fragment begin inf scratch pro o (ztake (avail_at q) left) r' Hex)
      as (o' & Ho & ->).
    rewrite blen_ztake in * by lia.
    edestruct (IH r' C post fuel true (scratch ++ ztake (avail_at q) left) o' (ztake (avail_at q) left))
      as (s' & r2 & -> & Ha2 & Hr2); try done.
    { assert (0 <= o) by apply u64_range. lia. }
    { rewrite !length_app in Hf. unfold phys in Hf. rewrite length_app in Hf. cbn in Hf. lia. }
    exists s', r2. rewrite <- app_assoc, ztake_zdrop. split; [done|]. split; [|congruence].
    len. by replace (p + (blen (trailer p) + (kHeaderSize + avail_at q + blen out)))
      with (q + kHeaderSize + avail_at q + blen out) by lia.
Qed.

(** At a cut the logical record in progress is dropped silently. *)
Lemma read_record_cut r C p fuel inf scratch pro frag :
  reader_at r C p -> cut_at C p -> p <= blen C -> (0 < fuel)%nat ->
  exists scratch' r',
    read_record_loop fuel inf scratch pro frag r = Some (None, scratch', r') /\
    reports_ r' = reports_ r.
Proof.
  intros Ha Hcut HpC Hf. destruct fuel as [|fuel]; [lia|].
  destruct (ReadPhysicalRecord_cut frag r C p Ha Hcut HpC) as (r' & HP & Hres & Hr').
  rewrite (read_record_loop_S _ _ _ _ _ _ _ _ _ HP Hres). eexists _, _. by split.
Qed.

Lemma phys_length t data : (7 <= length (phys t data))%nat.
Proof. unfold phys. rewrite !length_app. cbn. lia. Qed.

Lemma read_record_layout_cut p left begin out :
  record_layout p left begin out ->
  forall r C missing fuel inf scratch pro frag,
  reader_at r C p -> zdrop p C ++ missing = out -> missing <> [] -> p <= blen C -> 0 <= pro ->
  expects begin inf scratch -> (length out <= fuel)%nat ->
  exists scratch' r',
    read_record_loop fuel inf scratch pro frag r = Some (None, scratch', r') /\
    reports_ r' = reports_ r.
Proof.
  induction 1 as [p q left begin Hq Hav|p q left begin out Hq Hav _ IH];
    intros r C missing fuel inf scratch pro frag Ha Hz Hm HpC Hpro Hex Hf.
  - apply (read_record_cut r C p); try done.
    + exists (fragment_type begin true), left, missing. rewrite <- Hq. unfold avail_at in Hav.
      repeat split; [done|done|]. lia.
    + pose proof (phys_length (fragment_type begin true) left). rewrite length_app in Hf. lia.
  - pose proof (avail_nonneg p q Hq) as Hav0. set (data := ztake (avail_at q) left) in *.
    assert (blen data = avail_at q) as Hdl by (unfold data; apply blen_ztake; lia).
    pose proof (phys_length (fragment_type begin false) data) as Hpl.
    rewrite !length_app in Hf. rewrite app_assoc in Hz.
    destruct (Z.lt_ge_cases (blen (zdrop p C)) (blen (trailer p ++ phys (fragment_type begin false) data)))
      as [Hshort|Hlong].
    + apply (read_record_cut r C p); try done; [|lia].
      exists (fragment_type begin false), data,
        (zdrop (blen (zdrop p C)) (trailer p ++ phys (fragment_type begin false) data)).
      split; [|split].
      * symmetry. eapply app_prefix_split; [by symmetry|lia].
      * intros E%(f_equal blen). rewrite blen_zdrop in E by (pose proof (blen_nonneg (zdrop p C)); lia).
        rewrite blen_nil in E. lia.
      * rewrite <- Hq, Hdl. unfold avail_at. lia.
    + assert (exists post, zdrop p C = trailer p ++ phys (fragment_type begin false) data ++ post /\
        post ++ missing = out) as (post & Hz1 & Hz2).
      { set (X := trailer p ++ _) in *. pose proof (app_zdrop_inv _ _ _ _ Hz Hlong) as Hinv.
        exists (zdrop (blen X) (zdrop p C)). split; [|done].
        rewrite app_assoc. by eapply app_prefix_split. }
      destruct (read_fragment frag r C p q _ data post Ha Hq Hz1 (fragment_type_nonzero _ _))
        as (r' & HP & Ha' & Hr' & Hz' & HC'); [lia|done|].
      destruct fuel as [|fuel]; [lia|].
      rewrite (read_record_loop_S _ _ _ _ _ _ _ _ _ HP (at_resync _ _ _ Ha')).
      match goal with |- context [on_record _ _ ?off _ _ _ _] => set (o := off) end.
      destruct (on_more_fragment begin inf scratch pro o data r' Hex) as (o' & Ho & ->).
      rewrite Hdl in *.
      destruct (IH r' C missing fuel true (scratch ++ data) o' data) as (s' & r2 & -> & Hr2); try done.
      { by rewrite Hz'. }
      { assert (0 <= o) by apply u64_range. lia. }
      { lia. }
      exists s', r2. split; [done|congruence].
Qed.

(** ** Whole logs *)

(** Call [ReadRecord] until it returns [false]. *)
Fixpoint read_all (n fuel : nat) (r : Reader F) : option (list bytes * Reader F) :=
  match n with
  | O => None
  | S n =>
      match ReadRecord fuel [] r with
      | Some (Some rec, _, r) =>
          match read_all n fuel r with
          | Some (recs, r) => Some (rec :: recs, r)
          | None => None
          end
      | Some (None, _, r) => Some ([], r)
      | None => None
      end
  end.

Lemma ReadRecord_at fuel scratch r C p :
  reader_at r C p -> ReadRecord fuel scratch r = read_record_loop fuel false [] 0 [] r.
Proof.
  intros Ha. unfold ReadRecord. rewrite (at_initial _ _ _ Ha).
  pose proof (at_last _ _ _ Ha). by replace (last_record_offset_ r <? 0) with false by lia.
Qed.

(** Reading a log, then meeting a cut. *)
Lemma read_all_layout recs :
  forall p out r C rest fuel n,
  log_layout p recs out -> reader_at r C p -> zdrop p C = out ++ rest -> p <= blen C ->
  (length (zdrop p C) < fuel)%nat -> (length recs < n)%nat ->
  (forall r', reader_at r' C (p + blen out) ->
     exists scratch' r2, read_record_loop fuel false [] 0 [] r' = Some (None, scratch', r2) /\
       reports_ r2 = reports_ r') ->
  exists r', read_all n fuel r = Some (recs, r') /\ reports_ r' = reports_ r.
Proof.
  induction recs as [|rec recs IH]; intros p out r C rest fuel n Hlay Ha Hz HpC Hf Hn Hend;
    (destruct n as [|n]; [cbn in Hn; lia|]); cbn [read_all];
    rewrite (ReadRecord_at _ _ _ _ _ Ha); inversion Hlay; subst.
  - rewrite blen_nil, Z.add_0_r in Hend. destruct (Hend r Ha) as (s' & r' & -> & Hr'). eauto.
  - pose proof (reader_at_nonneg _ _ _ Ha) as Hp.
    rewrite <- app_assoc in Hz.
    edestruct (read_record_layout p rec true out0) as (s' & r1 & -> & Ha1 & Hr1); try done.
    { rewrite Hz, length_app in Hf. lia. }
    pose proof (zdrop_bound _ _ _ (conj Hp HpC) Hz) as Hlen. rewrite !blen_app in Hlen.
    pose proof (blen_nonneg outs). pose proof (blen_nonneg out0). pose proof (blen_nonneg rest).
    destruct (IH (p + blen out0) outs r1 C rest fuel n) as (r' & -> & Hr'); try done.
    + by apply zdrop_skip.
    + lia.
    + assert (zdrop (p + blen out0) C = outs ++ rest) as -> by (by apply zdrop_skip).
      rewrite Hz, !length_app in Hf. rewrite length_app. lia.
    + cbn in Hn. lia.
    + intros r' Hr'. apply Hend. by rewrite blen_app, Z.add_assoc.
    + exists r'. split; [done|congruence].
Qed.

Lemma log_complete recs C r n fuel :
  log_layout 0 recs C -> reader_at r C 0 -> (length C + 1 < fuel)%nat -> (length recs < n)%nat ->
  exists r', read_all n fuel r = Some (recs, r') /\ reports_ r' = reports_ r.
Proof.
  intros Hlay Ha Hf Hn. pose proof (blen_nonneg C).
  apply (read_all_layout recs 0 C r C []); try done; try (rewrite ?zdrop_0; lia).
  - by rewrite zdrop_0, app_nil_r.
  - intros r' Ha'. apply (read_record_cut r' C (0 + blen C));
      [done|apply cut_at_end; lia|lia|lia].
Qed.

(** A crash left only part of the record after [recs]. *)
Lemma log_cut recs rec C1 out C missing r n fuel :
  log_layout 0 recs C1 -> record_layout (blen C1) rec true out ->
  C ++ missing = C1 ++ out -> missing <> [] -> blen C1 <= blen C ->
  reader_at r C 0 -> (length (C1 ++ out) + 1 < fuel)%nat -> (length recs < n)%nat ->
  exists r', read_all n fuel r = Some (recs, r') /\ reports_ r' = reports_ r.
Proof.
  intros Hlay Hrec HC Hm Hle Ha Hf Hn.
  pose proof (app_zdrop_inv _ _ _ _ HC Hle) as Hz.
  pose proof (app_prefix_split _ _ _ _ HC Hle) as Hsplit.
  assert (length C + length missing = length (C1 ++ out))%nat by (by rewrite <- HC, length_app).
  pose proof (blen_nonneg C).
  apply (read_all_layout recs 0 C1 r C (zdrop (blen C1) C)); try done; try (rewrite ?zdrop_0; lia).
  intros r' Ha'. apply (read_record_layout_cut (0 + blen C1) rec true out Hrec r' C missing);
    try done; rewrite ?length_app in *; lia.
Qed.

(** ** Termination *)

(** Whatever the file does, two turns of the inner loop suffice. *)
Lemma ReadPhysicalRecord_some result (r : Reader F) :
  exists x, ReadPhysicalRecord result r = Some x.
Proof.
  unfold ReadPhysicalRecord. rewrite read_physical_loop_S.
  destruct (blen (buffer_ r) <? kHeaderSize); [|eauto]. destruct (negb (eof_ r)); [|eauto].
  destruct (Read (file_ r) kBlockSize) as [[s b] f]. cbv zeta. destruct (negb (ok s)); [eauto|].
  rewrite read_physical_loop_S. destruct (Z.ltb_spec (blen b) kBlockSize).
  - destruct (_ <? kHeaderSize); cbn [set_eof eof_ negb]; eauto.
  - cbn [buffer_ set_end_of_buffer_offset set_file set_buffer].
    replace (blen b <? kHeaderSize) with false; [eauto|].
    symmetry. apply Z.ltb_ge. unfold kHeaderSize, kBlockSize in *. lia.
Qed.

(** Bytes the reader has not consumed yet. *)
Definition remaining (r : Reader F) : nat := length (unread (file_ r)) + length (buffer_ r).

Lemma ReportDrop_fields b s (r : Reader F) :
  file_ (ReportDrop b s r) = file_ r /\ buffer_ (ReportDrop b s r) = buffer_ r.
Proof. unfold ReportDrop. by destruct (_ && _). Qed.

Lemma ReportDrop_remaining b s (r : Reader F) : remaining (ReportDrop b s r) = remaining r.
Proof. unfold remaining. by destruct (ReportDrop_fields b s r) as [-> ->]. Qed.

Lemma parse_physical_remaining result (r : Reader F) ty frag r' :
  kHeaderSize <= blen (buffer_ r) -> parse_physical result r = (ty, frag, r') ->
  (remaining r' < remaining r)%nat.
Proof.
  intros Hl. assert (0 < length (buffer_ r))%nat by (unfold blen, kHeaderSize in Hl; lia).
  assert (remaining (set_buffer [] r) < remaining r)%nat as Hnil
    by (unfold remaining; cbn; lia).
  unfold parse_physical, ReportCorruption. set (n := Z.lor _ _).
  destruct (_ <? _).
  { destruct (negb _); intros [= <- <- <-]; by rewrite ?ReportDrop_remaining. }
  destruct (_ && _); [by intros [= <- <- <-]|].
  destruct (if checksum_ r then _ else _); [intros [= <- <- <-]; by rewrite ReportDrop_remaining|].
  assert (0 <= n) as Hn.
  { apply Z.lor_nonneg. rewrite land_u32_schar. pose proof (b2z_range (byte_at (buffer_ r) 4)).
    split; [lia|]. apply u32_range. }
  assert (remaining (set_buffer (zdrop (kHeaderSize + n) (buffer_ r)) r) < remaining r)%nat.
  { unfold remaining, zdrop, kHeaderSize. cbn [set_buffer file_ buffer_]. rewrite length_drop. lia. }
  destruct (_ <? initial_offset_ _); by intros [= <- <- <-].
Qed.

Lemma ReadPhysicalRecord_remaining result (r : Reader F) ty frag r' :
  ReadPhysicalRecord result r = Some (ty, frag, r') ->
  ty = kEof \/ (remaining r' < remaining r)%nat.
Proof.
  unfold ReadPhysicalRecord. rewrite read_physical_loop_S.
  destruct (Z.ltb_spec (blen (buffer_ r)) kHeaderSize) as [Hs|Hs].
  2: { intros [= Hp]. right. by eapply parse_physical_remaining. }
  destruct (negb (eof_ r)); [|intros [= <- _ _]; by left].
  pose proof (read_unread (file_ r) kBlockSize ltac:(done)) as (_ & Hb & Hu).
  destruct (Read (file_ r) kBlockSize) as [[s b] f]. cbn [fst snd] in *. cbv zeta.
  destruct (negb (ok s)); [intros [= <- _ _]; by left|].
  set (r1 := if _ <? _ then _ else _).
  assert (remaining r1 <= remaining r)%nat as Hle.
  { assert (file_ r1 = f /\ buffer_ r1 = b) as [Hf1 Hb1] by (unfold r1; by destruct (_ <? _)).
    unfold remaining. rewrite Hf1, Hb1, Hb, Hu. unfold zdrop, ztake.
    rewrite length_drop, length_take. lia. }
  rewrite read_physical_loop_S. destruct (Z.ltb_spec (blen (buffer_ r1)) kHeaderSize).
  - destruct (negb (eof_ r1)); [|intros [= <- _ _]; by left].
    destruct (Read (file_ r1) kBlockSize) as [[s1 b1] f1]. cbv zeta.
    destruct (negb (ok s1)); [intros [= <- _ _]; by left|done].
  - intros [= Hp]. right. apply parse_physical_remaining in Hp; lia.
Qed.

Lemma on_record_remaining ty frag off inf scratch pro (r : Reader F) :
  match on_record ty frag off inf scratch pro r with
  | Return _ _ _ => True
  | Continue _ _ _ r' => ty <> kEof /\ remaining r' = remaining r
  end.
Proof.
  unfold on_record, ReportCorruption.
  destruct (Z.eqb_spec ty (type_value kFullType)); [done|].
  destruct (Z.eqb_spec ty (type_value kFirstType)) as [->|].
  { destruct (_ && _); by rewrite ?ReportDrop_remaining. }
  destruct (Z.eqb_spec ty (type_value kMiddleType)) as [->|].
  { destruct inf; cbn [negb]; by rewrite ?ReportDrop_remaining. }
  destruct (Z.eqb_spec ty (type_value kLastType)) as [->|].
  { destruct inf; cbn [negb]; by rewrite ?ReportDrop_remaining. }
  destruct (Z.eqb_spec ty kEof); [done|].
  destruct (ty =? kBadRecord); [destruct inf|]; by rewrite ?ReportDrop_remaining.
Qed.

Lemma set_resyncing_remaining b (r : Reader F) : remaining (set_resyncing b r) = remaining r.
Proof. done. Qed.

Lemma read_record_loop_some fuel :
  forall inf scratch pro frag (r : Reader F), (remaining r < fuel)%nat ->
  exists x, read_record_loop fuel inf scratch pro frag r = Some x.
Proof.
  induction fuel as [|fuel IH]; intros inf scratch pro frag r Hf; [lia|].
  cbn [read_record_loop]. destruct (ReadPhysicalRecord_some frag r) as [[[ty frag'] r'] HP].
  rewrite HP. apply ReadPhysicalRecord_remaining in HP.
  destruct (resyncing_ r' && (ty =? type_value kMiddleType)) eqn:E1.
  { apply IH. destruct HP as [->|]; [by rewrite andb_false_r in E1|lia]. }
  destruct (resyncing_ r' && (ty =? type_value kLastType)) eqn:E2.
  { apply IH. rewrite set_resyncing_remaining. destruct HP as [->|]; [by rewrite andb_false_r in E2|lia]. }
  set (r2 := if resyncing_ r' then _ else _).
  assert (remaining r2 = remaining r') as Hr2 by (unfold r2; by destruct (resyncing_ r')).
  match goal with |- context [on_record ?a ?b ?c ?d ?e ?f ?g] =>
    pose proof (on_record_remaining a b c d e f g) as Hon; destruct (on_record a b c d e f g) end;
    [eauto|].
  apply IH. destruct Hon as [? Hon]. destruct HP; [done|lia].
Qed.

End ReaderCorrect.
