(* ===== verification/LogSpec.v ===== *)
(** * What the log guarantees

    The contract of the write-ahead log, proved for every reliable
    implementation of the file interfaces: what was added is read back, also
    after reopening the file for appending, a log cut short by a crash yields
    exactly the records that were completely written, and the reader terminates
    on every file. *)

From S2P Require Import Prelude Coding Crc32c Status Env Logging LogFormat LogReader LogLayout LogCorrect.

Section LogSpec.

Context {W : Type} {HW : WritableFile W} {contents : W -> bytes}
        {HRW : ReliableWritable W contents}.
Context {S : Type} {HS : SequentialFile S} {unread : S -> bytes}
        {HRS : ReliableSequential S unread}.

(** Turns and fuel sufficient to read a file of these bytes. *)
Definition enough (C : bytes) : nat := 2 + length C.

Lemma record_layout_nonempty p left begin out : record_layout p left begin out -> out <> [].
Proof.
  intros H E. assert (blen out = 0) as E0 by (by rewrite E). destruct H; revert E0; len;
    pose proof (blen_nonneg (trailer p)); pose proof (blen_nonneg left);
    try pose proof (blen_nonneg out); unfold kHeaderSize.
  - lia.
  - pose proof (blen_nonneg (ztake (avail_at q) left)). lia.
Qed.

Lemma log_layout_length p recs out : log_layout p recs out -> (length recs <= length out)%nat.
Proof.
  induction 1 as [|p rec recs out outs Hr _ IH]; [done|]. rewrite length_app. cbn [length].
  apply record_layout_nonempty in Hr. destruct out; [done|]. cbn. lia.
Qed.

(** *** Reading record by record

    [reading r recs fuel]: the records [recs] are still to come, and [fuel] is enough
    for each call of [ReadRecord]. *)
Definition reading (r : Reader S) (recs : list bytes) (fuel : nat) : Prop :=
  exists C p, log_layout p recs (zdrop p C) /\ reader_at (unread := unread) r C p /\ p <= blen C /\ (length (zdrop p C) + 1 < fuel)%nat.

Lemma reading_make (g : S) C reporter checksum addr recs fuel :
  log_layout 0 recs C -> unread g = C -> blen C < 2 ^ 64 -> (length C + 1 < fuel)%nat -> reading (Reader_make g reporter checksum addr 0) recs fuel.
Proof. intros Hlay Hu HC Hf. exists C, 0. split; [done|]. split; [by apply Reader_make_at|]. split; [apply blen_nonneg|done]. Qed.

Lemma read_end r fuel scratch :
  reading r [] fuel -> exists scratch' r', ReadRecord fuel scratch r = Some (None, scratch', r') /\ reports_ r' = reports_ r.
Proof.
  intros (C & p & Hlay & Ha & HpC & Hf). rewrite (ReadRecord_at _ _ _ _ _ Ha). apply (read_record_cut r C p); [done|apply cut_at_end|done|lia].
  inversion Hlay as [p0 Ep Er Hnil|]. symmetry in Hnil. apply (f_equal blen) in Hnil. pose proof (reader_at_nonneg _ _ _ Ha). rewrite blen_zdrop, blen_nil in Hnil by lia. lia.
Qed.

Lemma read_next r rec recs fuel scratch :
  reading r (rec :: recs) fuel ->
  exists scratch' r', ReadRecord fuel scratch r = Some (Some rec, scratch', r') /\ reports_ r' = reports_ r /\ reading r' recs fuel.
Proof.
  intros (C & p & Hlay & Ha & HpC & Hf). pose proof (reader_at_nonneg _ _ _ Ha) as Hp. rewrite (ReadRecord_at _ _ _ _ _ Ha).
  inversion Hlay as [|? ? ? out outs Hrec Hlay' E1 E2 Hz]; subst. symmetry in Hz. rewrite Hz, length_app in Hf.
  destruct (read_record_layout p rec true out Hrec r C outs fuel false [] 0 []) as (scr & r1 & -> & Ha1 & Hr1); try done; [lia|].
  exists scr, r1. split; [done|]. split; [done|]. exists C, (p + blen out). pose proof (zdrop_bound _ _ _ (conj Hp HpC) Hz) as Hlen.
  rewrite blen_app in Hlen. pose proof (blen_nonneg outs). rewrite (zdrop_skip _ _ _ _ Hp Hz). split; [done|]. split; [done|]. split; lia.
Qed.

(** A log written by a fresh writer and continued by reopened ones is read back
    completely. *)
Lemma layout_read recs C reporter checksum addr (g : S) :
  log_layout 0 recs C -> unread g = C -> blen C < 2 ^ 64 ->
  exists r', read_all (enough C) (enough C) (Reader_make g reporter checksum addr 0)
             = Some (recs, r') /\ reports_ r' = [].
Proof.
  intros Hlay Hu HC. pose proof (log_layout_length _ _ _ Hlay).
  apply (log_complete recs C (Reader_make g reporter checksum addr 0)).
  - done.
  - by apply Reader_make_at.
  - unfold enough. lia.
  - unfold enough. lia.
Qed.

(** C1: Writing any sequence of records to an empty file succeeds, and a reader
    that starts at the beginning of the resulting file returns exactly these
    records, in order, then end of file, and reports no corruption. *)
Theorem log_roundtrip waddr addr (f : W) (recs : list bytes) :
  contents f = [] ->
  exists w', write_all (Writer_make waddr f) addr recs = Some w' /\
  forall reporter checksum raddr (g : S),
    unread g = contents (dest_ w') -> blen (contents (dest_ w')) < 2 ^ 64 ->
    exists r', read_all (enough (unread g)) (enough (unread g))
                 (Reader_make g reporter checksum raddr 0) = Some (recs, r') /\
               reports_ r' = [].
Proof.
  intros Hf.
  destruct (write_all_layout (Writer_make waddr f) addr recs (Writer_make_ok _ _ Hf))
    as (w' & out & Hw & _ & Hc & Hlay).
  exists w'. split; [done|]. intros reporter checksum raddr g Hu Hsz.
  cbn [dest_ Writer_make] in Hc, Hlay. rewrite Hf in Hc, Hlay. cbn [app] in Hc.
  rewrite Hu, Hc in *. by apply layout_read.
Qed.

(** C2: A writer reopened on an existing log (with the file's length, as
    [DBImpl::RecoverLogFile] does) appends records that are read back after the
    records already there. *)
Theorem log_reopen waddr addr waddr' addr' (f : W) (recs1 recs2 : list bytes) w1 :
  contents f = [] ->
  write_all (Writer_make waddr f) addr recs1 = Some w1 ->
  exists w2,
    write_all (Writer_reopen waddr' (dest_ w1) (blen (contents (dest_ w1)))) addr' recs2
      = Some w2 /\
    forall reporter checksum raddr (g : S),
      unread g = contents (dest_ w2) -> blen (contents (dest_ w2)) < 2 ^ 64 ->
      exists r', read_all (enough (unread g)) (enough (unread g))
                   (Reader_make g reporter checksum raddr 0) = Some (recs1 ++ recs2, r') /\
                 reports_ r' = [].
Proof.
  intros Hf Hw1.
  destruct (write_all_layout (Writer_make waddr f) addr recs1 (Writer_make_ok _ _ Hf))
    as (w1' & out1 & Hw1' & _ & Hc1 & Hlay1).
  rewrite Hw1' in Hw1. injection Hw1 as ->. cbn [dest_ Writer_make] in Hc1, Hlay1.
  rewrite Hf in Hc1, Hlay1. cbn [app] in Hc1.
  destruct (write_all_layout _ addr' recs2 (Writer_reopen_ok waddr' (dest_ w1)))
    as (w2 & out2 & Hw2 & _ & Hc2 & Hlay2).
  exists w2. split; [done|]. intros reporter checksum raddr g Hu Hsz.
  cbn [dest_ Writer_reopen] in Hc2, Hlay2. rewrite Hc1 in Hc2, Hlay2.
  rewrite Hu, Hc2 in *. apply layout_read; [|done|done]. by apply log_layout_app.
Qed.

(** C3: If the file loses its tail while the record after [recs] is being
    written, so that what is left ends inside that record, a reader returns
    exactly [recs] and then end of file; the torn record is dropped without a
    corruption report, whichever byte the file ends at. *)
Theorem log_torn_tail waddr addr (f : W) (recs : list bytes) (rec : bytes) w1 s w2 :
  contents f = [] ->
  write_all (Writer_make waddr f) addr recs = Some w1 ->
  AddRecord w1 addr rec = Some (s, w2) ->
  forall n, blen (contents (dest_ w1)) <= n < blen (contents (dest_ w2)) ->
  blen (contents (dest_ w2)) < 2 ^ 64 ->
  forall reporter checksum raddr (g : S),
    unread g = ztake n (contents (dest_ w2)) ->
    exists r', read_all (enough (contents (dest_ w2))) (enough (contents (dest_ w2)))
                 (Reader_make g reporter checksum raddr 0) = Some (recs, r') /\
               reports_ r' = [].
Proof.
  intros Hf Hw1 Hw2 n Hn Hsz reporter checksum raddr g Hu.
  destruct (write_all_layout (Writer_make waddr f) addr recs (Writer_make_ok _ _ Hf))
    as (w1' & C1 & Hw1' & Hok1 & Hc1 & Hlay1).
  rewrite Hw1' in Hw1. injection Hw1 as ->. cbn [dest_ Writer_make] in Hc1, Hlay1.
  rewrite Hf in Hc1, Hlay1. cbn [app] in Hc1.
  destruct (AddRecord_layout w1 addr rec Hok1) as (s' & w2' & out & Hw2' & _ & _ & Hc2 & Hlay2).
  rewrite Hw2' in Hw2. injection Hw2 as -> ->. rewrite Hc1 in *. rewrite Hc2 in *.
  pose proof (blen_nonneg C1). pose proof (log_layout_length _ _ _ Hlay1) as Hl.
  apply (log_cut recs rec C1 out (ztake n (C1 ++ out)) (zdrop n (C1 ++ out))
           (Reader_make g reporter checksum raddr 0)); try done.
  - apply ztake_zdrop.
  - intros E%(f_equal blen). rewrite blen_zdrop, blen_nil in E by lia. lia.
  - rewrite blen_ztake; lia.
  - apply Reader_make_at; [done|]. rewrite blen_ztake; lia.
  - unfold enough. lia.
  - unfold enough. rewrite length_app. lia.
Qed.

(** C17: [ReadRecord] returns on every file, whatever its bytes and whatever
    state the reader is in: fuel for one turn per unread byte suffices. *)
Theorem ReadRecord_total scratch (r : Reader S) :
  exists x, ReadRecord (1 + length (unread (file_ r)) + length (buffer_ r)) scratch r = Some x.
Proof.
  unfold ReadRecord. destruct (last_record_offset_ r <? initial_offset_ r).
  2: { apply (read_record_loop_some (unread := unread)). unfold remaining. lia. }
  unfold SkipToInitialBlock. set (b := if kBlockSize - 6 <? _ then _ else _).
  destruct (Z.ltb_spec 0 b) as [Hb|Hb].
  2: { apply (read_record_loop_some (unread := unread)). unfold remaining. cbn. lia. }
  pose proof (skip_unread (file_ r) b ltac:(lia)) as [Hok Hu].
  cbn [set_end_of_buffer_offset file_].
  destruct (Skip (file_ r) b) as [st f]. cbn [fst snd] in *. rewrite Hok.
  apply (read_record_loop_some (unread := unread)). unfold remaining. cbn. rewrite Hu.
  unfold zdrop. rewrite length_drop. lia.
Qed.

End LogSpec.

(** ** Witnesses: a two-record log in a string *)

Definition demo_recs : list bytes := [str "hello"; []; str "world"].

Lemma log_roundtrip_witness :
  exists w', write_all (Writer_make 0 (mkDest [])) 0 demo_recs = Some w' /\
  forall reporter checksum raddr (g : StringSource),
    source_unread g = dest_contents (dest_ w') -> blen (dest_contents (dest_ w')) < 2 ^ 64 ->
    exists r', read_all (enough (source_unread g)) (enough (source_unread g))
                 (Reader_make g reporter checksum raddr 0) = Some (demo_recs, r') /\
               reports_ r' = [].
Proof. exact (log_roundtrip 0 0 (mkDest []) demo_recs eq_refl). Defined.

Definition demo_writer : Writer StringDest :=
  match write_all (Writer_make 0 (mkDest [])) 0 demo_recs with
  | Some w => w
  | None => Writer_make 0 (mkDest [])
  end.

Lemma log_reopen_witness :
  exists w2,
    write_all (Writer_reopen 0 (dest_ demo_writer) (blen (dest_contents (dest_ demo_writer)))) 0
      [str "again"] = Some w2 /\
    forall reporter checksum raddr (g : StringSource),
      source_unread g = dest_contents (dest_ w2) -> blen (dest_contents (dest_ w2)) < 2 ^ 64 ->
      exists r', read_all (enough (source_unread g)) (enough (source_unread g))
                   (Reader_make g reporter checksum raddr 0)
                 = Some (demo_recs ++ [str "again"], r') /\
                 reports_ r' = [].
Proof.
  refine (log_reopen 0 0 0 0 (mkDest []) demo_recs [str "again"] demo_writer eq_refl _).
  vm_compute. reflexivity.
Defined.

(** The demo log with one more record, as a torn write leaves it: the record's
    header and two of its bytes reached the file. *)
Definition demo_writer2 : Writer StringDest :=
  match AddRecord demo_writer 0 (str "torn") with
  | Some (_, w) => w
  | None => demo_writer
  end.

Lemma log_torn_tail_witness :
  exists r', read_all (enough (dest_contents (dest_ demo_writer2)))
                      (enough (dest_contents (dest_ demo_writer2)))
               (Reader_make (mkSource (ztake 40 (dest_contents (dest_ demo_writer2))))
                            true true 0 0) = Some (demo_recs, r') /\
             reports_ r' = [].
Proof.
  eapply (log_torn_tail (S := StringSource) 0 0 (mkDest []) demo_recs (str "torn") demo_writer
            OK demo_writer2 eq_refl) with (n := 40).
  - vm_compute. reflexivity.
  - vm_compute. reflexivity.
  - vm_compute. split; congruence.
  - vm_compute. reflexivity.
  - reflexivity.
Defined.

Lemma ReadRecord_total_witness :
  exists x, ReadRecord (1 + length (str "not a log") + length (@nil byte)) []
              (Reader_make (mkSource (str "not a log")) true true 0 0) = Some x.
Proof.
  exact (ReadRecord_total (S := StringSource) []
           (Reader_make (mkSource (str "not a log")) true true 0 0)).
Defined.
