(* ===== verification/MemEnv.v ===== *)
(** * The in-memory environment: files

    [FileState], [SequentialFileImpl] and [WritableFileImpl] of
    [helpers/memenv/memenv.cc].  A file is a vector of 8 KiB blocks and a size;
    a fresh block is uninitialised memory, so its contents are a parameter.  The
    file refines a plain byte string and implements the interfaces of [Env]. *)

From S2P Require Import Prelude Status Env.

(** [enum { kBlockSize = 8 * 1024 }] *)
Definition kMemBlockSize : Z := 8 * 1024.

Record FileState := mkFileState { refs_ : Z; blocks_ : list bytes; size_ : Z }.

Definition FileState_new : FileState := mkFileState 0 [] 0.

Definition Size (st : FileState) : Z := size_ st.

Definition Truncate (st : FileState) : FileState := mkFileState (refs_ st) [] 0.

(** [memcpy(dst + off, src, n)] within one block. *)
Definition overwrite (block : bytes) (off : Z) (src : bytes) : bytes :=
  ztake off block ++ src ++ zdrop (off + blen src) block.

(** Apply [f] to [blocks_.back()]. *)
Definition map_back (f : bytes -> bytes) (bs : list bytes) : list bytes :=
  match rev bs with
  | [] => []
  | b :: r => rev r ++ [f b]
  end.

Section FileState.

(** The contents of [new char[kBlockSize]]. *)
Variable uninit : bytes.

(** The body of the loop of [FileState::Append]: the file after the copy and
    what is left of the source. *)
Definition append_turn (st : FileState) (src : bytes) : FileState * bytes :=
  let offset := size_ st mod kMemBlockSize in
  let '(blocks, avail) :=
    if negb (offset =? 0) then (blocks_ st, kMemBlockSize - offset)
    else (blocks_ st ++ [uninit], kMemBlockSize) in
  let avail := if blen src <? avail then blen src else avail in
  (mkFileState (refs_ st)
     (map_back (fun b => overwrite b offset (ztake avail src)) blocks)
     (u64 (size_ st + avail)),
   zdrop avail src).

(** [while (src_len > 0)]; every turn copies at least one byte. *)
Fixpoint append_loop (fuel : nat) (st : FileState) (src : bytes) : FileState :=
  match fuel with
  | O => st
  | S fuel =>
      if 0 <? blen src
      then let '(st, src) := append_turn st src in append_loop fuel st src
      else st
  end.

Definition FileState_Append (st : FileState) (data : bytes) : Status * FileState :=
  (OK, append_loop (length data) st data).

(** The copying loop of [FileState::Read]. *)
Fixpoint read_loop (fuel : nat) (blocks : list bytes) (block block_offset bytes_to_copy : Z)
    : bytes :=
  match fuel with
  | O => []
  | S fuel =>
      if 0 <? bytes_to_copy then
        let avail := kMemBlockSize - block_offset in
        let avail := if bytes_to_copy <? avail then bytes_to_copy else avail in
        ztake avail (zdrop block_offset (nth (Z.to_nat block) blocks []))
        ++ read_loop fuel blocks (block + 1) 0 (bytes_to_copy - avail)
      else []
  end.

Definition FileState_Read (st : FileState) (offset n : Z) : Status * bytes :=
  if size_ st <? offset then (IOError (str "Offset greater than file size.") [], [])
  else
    let available := size_ st - offset in
    let n := if available <? n then available else n in
    if n =? 0 then (OK, [])
    else (OK, read_loop (Z.to_nat n) (blocks_ st) (offset / kMemBlockSize)
                (offset mod kMemBlockSize) n).

(** ** Refinement of a byte string *)

Definition contents (st : FileState) : bytes := ztake (size_ st) (concat (blocks_ st)).

(** Blocks are whole, and there are just enough of them. *)
Record file_ok (st : FileState) : Prop := {
  ok_blocks : Forall (fun b => blen b = kMemBlockSize) (blocks_ st);
  ok_size : 0 <= size_ st <= Z.of_nat (length (blocks_ st)) * kMemBlockSize;
  ok_tight : Z.of_nat (length (blocks_ st)) * kMemBlockSize < size_ st + kMemBlockSize
}.

Lemma blen_concat bs :
  Forall (fun b => blen b = kMemBlockSize) bs ->
  blen (concat bs) = Z.of_nat (length bs) * kMemBlockSize.
Proof. induction 1 as [|b bs Hb _ IH]; [done|]. cbn [concat length]. len. Qed.

Lemma blen_contents st : file_ok st -> blen (contents st) = size_ st.
Proof.
  intros [Hb Hs _]. unfold contents. apply blen_ztake. rewrite blen_concat by done. lia.
Qed.

Lemma map_back_snoc f bs b : map_back f (bs ++ [b]) = bs ++ [f b].
Proof. unfold map_back. rewrite rev_app_distr. cbn. by rewrite rev_involutive. Qed.

Lemma blen_overwrite b off src :
  0 <= off -> off + blen src <= blen b -> blen (overwrite b off src) = blen b.
Proof. intros Ho Hl. pose proof (blen_nonneg src). unfold overwrite. len. Qed.

Lemma ztake_overwrite b off src :
  0 <= off -> off + blen src <= blen b ->
  ztake (off + blen src) (overwrite b off src) = ztake off b ++ src.
Proof.
  intros Ho Hl. pose proof (blen_nonneg src). unfold overwrite. rewrite app_assoc.
  apply ztake_app. len.
Qed.

(** Writing [n] bytes at the end of a last block with room for them. *)
Lemma write_last bs b off src r :
  Forall (fun b => blen b = kMemBlockSize) (bs ++ [b]) -> 0 <= off ->
  off + blen src <= kMemBlockSize -> 0 < blen src ->
  let st := mkFileState r (bs ++ [overwrite b off src])
              (Z.of_nat (length bs) * kMemBlockSize + off + blen src) in
  file_ok st /\ contents st = concat bs ++ ztake off b ++ src.
Proof.
  intros Hall Ho Hl Hs. cbv zeta. apply Forall_app in Hall as [Hbs Hb%Forall_inv].
  cbv beta in Hb.
  split.
  - split; cbn [blocks_ size_].
    + apply Forall_app. split; [done|]. apply Forall_singleton.
      rewrite blen_overwrite; lia.
    + rewrite length_app. cbn [length]. unfold kMemBlockSize in *. lia.
    + rewrite length_app. cbn [length]. unfold kMemBlockSize in *. lia.
  - unfold contents. cbn [blocks_ size_]. rewrite concat_app. cbn [concat]. rewrite app_nil_r.
    rewrite ztake_app_ge by (rewrite blen_concat by done; lia).
    rewrite blen_concat by done. f_equal. rewrite <- ztake_overwrite by lia. f_equal. lia.
Qed.

Hypothesis uninit_size : blen uninit = kMemBlockSize.

(** The block a turn writes into: the last one, fresh if there is no room. *)
Lemma append_target st :
  file_ok st ->
  let offset := size_ st mod kMemBlockSize in
  exists bs b,
    (if negb (offset =? 0) then blocks_ st else blocks_ st ++ [uninit]) = bs ++ [b] /\
    Forall (fun b => blen b = kMemBlockSize) (bs ++ [b]) /\
    size_ st = Z.of_nat (length bs) * kMemBlockSize + offset /\
    contents st = concat bs ++ ztake offset b.
Proof.
  intros [Hb Hs Ht]. cbv zeta.
  pose proof (Z.mod_pos_bound (size_ st) kMemBlockSize eq_refl) as Hm.
  pose proof (Z.div_mod (size_ st) kMemBlockSize ltac:(done)) as Hdm.
  set (offset := size_ st mod kMemBlockSize) in *. unfold contents.
  destruct (Z.eqb_spec offset 0) as [E0|E0]; cbn [negb].
  - exists (blocks_ st), uninit.
    assert (size_ st = Z.of_nat (length (blocks_ st)) * kMemBlockSize)
      by (unfold kMemBlockSize in *; lia).
    split; [done|]. split; [apply Forall_app; split; [done|by apply Forall_singleton]|].
    split; [lia|]. rewrite E0, ztake_0, app_nil_r. apply ztake_all.
    rewrite blen_concat by done. lia.
  - assert (exists bs b, blocks_ st = bs ++ [b]) as (bs & b & Ebs).
    { destruct (blocks_ st) as [|b' bs' _] using rev_ind;
        [cbn in Hs; unfold kMemBlockSize in *; lia|eauto]. }
    exists bs, b. rewrite Ebs in *. rewrite length_app in Hs, Ht. cbn [length] in Hs, Ht.
    assert (size_ st = Z.of_nat (length bs) * kMemBlockSize + offset) as Hsz
      by (unfold kMemBlockSize in *; lia).
    split; [done|]. split; [done|]. split; [done|]. apply Forall_app in Hb as [Hbs _].
    rewrite concat_app. cbn [concat]. rewrite app_nil_r.
    rewrite ztake_app_ge by (rewrite blen_concat by done; lia). rewrite blen_concat by done.
    do 2 f_equal. lia.
Qed.

(** One turn of the append loop copies a prefix of the data. *)
Lemma append_turn_spec st src :
  file_ok st -> 0 < blen src -> size_ st + blen src < 2 ^ 64 ->
  let '(st', src') := append_turn st src in
  exists n, 0 < n <= blen src /\ src' = zdrop n src /\ file_ok st' /\
    contents st' = contents st ++ ztake n src /\ size_ st' = size_ st + n /\
    refs_ st' = refs_ st.
Proof.
  intros Hok Hpos Hsz. destruct (append_target st Hok) as (bs & b & Ebs & Hall & Hs & Hc).
  unfold append_turn. pose proof (Z.mod_pos_bound (size_ st) kMemBlockSize eq_refl) as Hm.
  set (offset := size_ st mod kMemBlockSize) in *.
  assert (exists avail, (if negb (offset =? 0) then (blocks_ st, kMemBlockSize - offset)
    else (blocks_ st ++ [uninit], kMemBlockSize)) = (bs ++ [b], avail) /\
    0 < avail <= kMemBlockSize - offset) as (avail & -> & Hav).
  { destruct (Z.eqb_spec offset 0); cbn [negb] in *; rewrite Ebs; eexists; (split; [done|lia]). }
  set (n := if blen src <? avail then blen src else avail).
  assert (0 < n <= blen src /\ n <= kMemBlockSize - offset) as Hn
    by (unfold n; destruct (Z.ltb_spec (blen src) avail); lia).
  exists n. rewrite map_back_snoc, u64_small by (destruct Hok; lia).
  destruct (write_last bs b offset (ztake n src) (refs_ st)) as [Hok' Hc'];
    [done|lia|rewrite blen_ztake; lia|rewrite blen_ztake; lia|].
  rewrite blen_ztake in Hok', Hc' by lia. rewrite Hs. rewrite Hc, <- app_assoc.
  repeat split; try done; try lia; apply Hok'.
Qed.

Lemma append_loop_spec fuel st src :
  file_ok st -> (length src <= fuel)%nat -> size_ st + blen src < 2 ^ 64 ->
  let st' := append_loop fuel st src in
  file_ok st' /\ contents st' = contents st ++ src /\ refs_ st' = refs_ st.
Proof.
  revert st src. induction fuel as [|fuel IH]; intros st src Hok Hf Hsz; cbv zeta; cbn [append_loop].
  { destruct src; [|cbn in Hf; lia]. by rewrite app_nil_r. }
  destruct (Z.ltb_spec 0 (blen src)) as [Hpos|Hz].
  2: { assert (src = []) as -> by (apply blen_zero; pose proof (blen_nonneg src); lia).
       by rewrite app_nil_r. }
  pose proof (append_turn_spec st src Hok Hpos Hsz) as Hturn.
  destruct (append_turn st src) as [st1 src1].
  destruct Hturn as (n & Hn & -> & Hok1 & Hc1 & Hs1 & Hr1).
  destruct (IH st1 (zdrop n src) Hok1) as (Hok2 & Hc2 & Hr2).
  { unfold zdrop. rewrite length_drop. unfold blen in *. lia. }
  { rewrite blen_zdrop by lia. lia. }
  split; [done|]. split; [|congruence]. by rewrite Hc2, Hc1, <- app_assoc, ztake_zdrop.
Qed.

(** The reading loop delivers the requested range of the blocks. *)
Lemma read_loop_spec fuel bs k off n :
  Forall (fun b => blen b = kMemBlockSize) bs ->
  0 <= k -> 0 <= off < kMemBlockSize -> 0 <= n -> (Z.to_nat n <= fuel)%nat ->
  k * kMemBlockSize + off + n <= Z.of_nat (length bs) * kMemBlockSize ->
  read_loop fuel bs k off n = ztake n (zdrop (k * kMemBlockSize + off) (concat bs)).
Proof.
  intros Hall. revert k off n. induction fuel as [|fuel IH]; intros k off n Hk Ho Hn Hf Hle;
    cbn [read_loop].
  { replace n with 0 by lia. done. }
  destruct (Z.ltb_spec 0 n) as [Hpos|?]; [|replace n with 0 by lia; done].
  set (a := if n <? kMemBlockSize - off then n else kMemBlockSize - off).
  assert (0 < a <= n /\ a <= kMemBlockSize - off) as Ha
    by (unfold a; destruct (Z.ltb_spec n (kMemBlockSize - off)); lia).
  assert (exists b0 b b1, bs = b0 ++ b :: b1 /\ length b0 = Z.to_nat k) as (b0 & b & b1 & -> & Hb0).
  { destruct (nth_split bs [] (n := Z.to_nat k)) as (b0 & b1 & Hsp & Hl);
      [unfold kMemBlockSize in *; lia|eauto]. }
  rewrite app_nth2, Hb0, Nat.sub_diag by lia. cbn [nth].
  pose proof Hall as Hall'. apply Forall_app in Hall' as [H0 H1].
  pose proof (Forall_inv H1) as Hb. apply Forall_inv_tail in H1. cbv beta in Hb.
  rewrite length_app in Hle. cbn [length] in Hle.
  assert (forall m, 0 <= m -> zdrop (k * kMemBlockSize + m) (concat (b0 ++ b :: b1))
    = zdrop m (b ++ concat b1)) as Hdrop.
  { intros m Hm. assert (blen (concat b0) = k * kMemBlockSize) as Hc0
      by (rewrite blen_concat by done; rewrite Hb0, Z2Nat.id; done).
    rewrite concat_app. cbn [concat]. rewrite zdrop_app_ge by lia.
    f_equal. lia. }
  assert (0 < kMemBlockSize) by done.
  rewrite IH; [|lia|lia|lia|lia|rewrite length_app; cbn [length]; subst a;
    destruct (Z.ltb_spec n (kMemBlockSize - off)); unfold kMemBlockSize in *; lia].
  replace ((k + 1) * kMemBlockSize + 0) with (k * kMemBlockSize + kMemBlockSize) by lia.
  rewrite !Hdrop by lia.
  rewrite (zdrop_app kMemBlockSize) by lia. rewrite zdrop_app_le by lia.
  assert (blen (zdrop off b) = kMemBlockSize - off) as Hd by (rewrite blen_zdrop; lia).
  destruct (Z.ltb_spec n (kMemBlockSize - off)) as [Hlt|Hge]; subst a.
  - rewrite Z.sub_diag, ztake_0, app_nil_r. by rewrite ztake_app_le by lia.
  - rewrite ztake_app_ge by lia. rewrite Hd, ztake_all by lia. done.
Qed.

Lemma FileState_Read_spec st offset n :
  file_ok st -> 0 <= offset -> 0 <= n ->
  FileState_Read st offset n =
  if size_ st <? offset then (IOError (str "Offset greater than file size.") [], [])
  else (OK, ztake n (zdrop offset (contents st))).
Proof.
  intros Hok Ho Hn. unfold FileState_Read. pose proof (blen_contents st Hok) as Hlen.
  destruct (Z.ltb_spec (size_ st) offset) as [?|Hle]; [done|].
  set (m := if size_ st - offset <? n then size_ st - offset else n).
  assert (ztake n (zdrop offset (contents st)) = ztake m (zdrop offset (contents st))) as ->.
  { unfold m. destruct (Z.ltb_spec (size_ st - offset) n); [|done].
    by rewrite !ztake_all by (rewrite blen_zdrop; lia). }
  assert (0 <= m <= size_ st - offset) as Hm
    by (unfold m; destruct (Z.ltb_spec (size_ st - offset) n); lia).
  destruct (Z.eqb_spec m 0) as [->|]; [done|]. destruct Hok as [Hb Hs Ht].
  pose proof (Z.div_mod offset kMemBlockSize ltac:(done)) as Hdm.
  pose proof (Z.mod_pos_bound offset kMemBlockSize eq_refl).
  rewrite read_loop_spec; try done; [|apply Z.div_pos; done|lia|lia].
  f_equal. replace (offset / kMemBlockSize * kMemBlockSize + offset mod kMemBlockSize)
    with offset by lia.
  unfold contents. rewrite <- (ztake_zdrop (size_ st) (concat (blocks_ st))) at 1.
  assert (blen (ztake (size_ st) (concat (blocks_ st))) = size_ st) as Hc
    by (rewrite blen_ztake; [done|rewrite blen_concat by done; lia]).
  rewrite zdrop_app_le by lia. apply ztake_app_le. rewrite blen_zdrop; lia.
Qed.

Lemma FileState_new_ok : file_ok FileState_new /\ contents FileState_new = [].
Proof. by repeat split. Qed.

Lemma Truncate_ok st : file_ok (Truncate st) /\ contents (Truncate st) = [].
Proof. by repeat split. Qed.

Lemma FileState_Append_spec st data :
  file_ok st -> size_ st + blen data < 2 ^ 64 ->
  let '(s, st') := FileState_Append st data in
  s = OK /\ file_ok st' /\ contents st' = contents st ++ data.
Proof.
  intros Hok Hsz. unfold FileState_Append.
  destruct (append_loop_spec (length data) st data Hok ltac:(lia) Hsz) as (? & ? & _). done.
Qed.

End FileState.
