(* ===== verification/Comparator.v ===== *)
(** * Comparators

    [include/leveldb/comparator.h] and [util/comparator.cc].  A [Comparator] is
    the record of its virtual functions; [ComparatorLaws] is the contract the
    header documents, against which every sorted structure of the database is
    verified, and [BytewiseComparator] is shown to satisfy it.  At the end, in the
    same way, the interface of [include/leveldb/filter_policy.h]. *)

From S2P Require Import Prelude Slice.

(** [class Comparator].  The two functions that modify a string return its new
    contents. *)
Record Comparator := mkComparator {
  Name : bytes;
  Compare : bytes -> bytes -> Z;
  FindShortestSeparator : bytes -> bytes -> bytes;
  FindShortSuccessor : bytes -> bytes
}.

(** A three-way comparison by a total order; keys that compare equal need not be
    identical. *)
Class ThreeWay {K : Type} (cmp : K -> K -> Z) : Prop := {
  cmp_refl a : cmp a a = 0;
  cmp_opp a b : cmp a b < 0 <-> 0 < cmp b a;
  cmp_le_trans a b d : cmp a b <= 0 -> cmp b d <= 0 -> cmp a d <= 0
}.

(** The documented contract: [Compare] is a three-way comparison, a separator is
    changed only when [start < limit], to a key in [[start, limit)], and the
    successor of a key is not below it. *)
Class ComparatorLaws (c : Comparator) : Prop := {
  compare_three_way :: ThreeWay (Compare c);
  separator_range start limit :
    Compare c start limit < 0 ->
    Compare c start (FindShortestSeparator c start limit) <= 0 /\
    Compare c (FindShortestSeparator c start limit) limit < 0;
  separator_unchanged start limit :
    0 <= Compare c start limit -> FindShortestSeparator c start limit = start;
  successor_ge key : Compare c key (FindShortSuccessor c key) <= 0
}.

(** Comparators that shorten keys, or leave them as they are, when asked for a
    separator or a successor, as the two comparators of the sources do. *)
Class ShortKeys (c : Comparator) : Prop := {
  separator_short start limit : blen (FindShortestSeparator c start limit) <= blen start;
  successor_short key : blen (FindShortSuccessor c key) <= blen key
}.

(** ** [BytewiseComparatorImpl] *)

(** The first loop of [FindShortestSeparator]: length of the common prefix. *)
Fixpoint diff_index (start limit : bytes) : nat :=
  match start, limit with
  | x :: start, y :: limit => if b2z x =? b2z y then S (diff_index start limit) else O
  | _, _ => O
  end.

Definition bytewise_FindShortestSeparator (start limit : bytes) : bytes :=
  let min_length := Z.min (blen start) (blen limit) in
  let i := Z.of_nat (diff_index start limit) in
  if min_length <=? i then start
  else
    let diff_byte := b2z (byte_at start i) in
    if (diff_byte <? 0xff) && (diff_byte + 1 <? b2z (byte_at limit i))
    then ztake i start ++ [z2b (diff_byte + 1)]
    else start.

(** The loop of [FindShortSuccessor]: the bytes already passed are [0xff]. *)
Fixpoint bytewise_FindShortSuccessor (key : bytes) : bytes :=
  match key with
  | [] => []
  | byte :: rest =>
      if negb (b2z byte =? 0xff) then [z2b (b2z byte + 1)]
      else byte :: bytewise_FindShortSuccessor rest
  end.

Definition BytewiseComparator : Comparator := {|
  Name := str "leveldb.BytewiseComparator";
  Compare := compare;
  FindShortestSeparator := bytewise_FindShortestSeparator;
  FindShortSuccessor := bytewise_FindShortSuccessor
|}.

(** ** Consequences of the laws *)

Section ThreeWay.

Context {K : Type} (cmp : K -> K -> Z) {T : ThreeWay cmp}.

Lemma cmp_opp_eq a b : cmp a b = 0 <-> cmp b a = 0.
Proof. pose proof (cmp_opp a b). pose proof (cmp_opp b a). lia. Qed.

Lemma cmp_ge_opp a b : cmp a b <= 0 <-> 0 <= cmp b a.
Proof. pose proof (cmp_opp b a). lia. Qed.

Lemma cmp_lt_le_trans a b d : cmp a b < 0 -> cmp b d <= 0 -> cmp a d < 0.
Proof.
  intros H1 H2. destruct (Z.lt_ge_cases (cmp a d) 0) as [|H]; [done|].
  apply cmp_ge_opp in H. pose proof (cmp_le_trans b d a H2 H) as H3.
  apply cmp_opp in H1. lia.
Qed.

Lemma cmp_le_lt_trans a b d : cmp a b <= 0 -> cmp b d < 0 -> cmp a d < 0.
Proof.
  intros H1 H2. destruct (Z.lt_ge_cases (cmp a d) 0) as [|H]; [done|].
  apply cmp_ge_opp in H. pose proof (cmp_le_trans d a b H H1) as H3.
  apply cmp_opp in H2. lia.
Qed.

Lemma cmp_lt_trans a b d : cmp a b < 0 -> cmp b d < 0 -> cmp a d < 0.
Proof. intros H1 H2. apply (cmp_lt_le_trans a b d); lia. Qed.

Lemma cmp_eq_trans a b d : cmp a b = 0 -> cmp b d = 0 -> cmp a d = 0.
Proof.
  intros H1 H2. pose proof (cmp_le_trans a b d). pose proof (cmp_le_trans d b a).
  apply cmp_opp_eq in H1 as H1'. apply cmp_opp_eq in H2 as H2'.
  pose proof (cmp_ge_opp d a). lia.
Qed.

(** Comparing images under a function is a three-way comparison again. *)
Lemma ThreeWay_image {K'} (f : K' -> K) : ThreeWay (fun a b => cmp (f a) (f b)).
Proof.
  split; intros *; [apply cmp_refl|apply cmp_opp|apply cmp_le_trans].
Qed.

End ThreeWay.

(** ** The bytewise comparator satisfies the contract *)

Lemma byte_at_0 x s : byte_at (x :: s) 0 = x.
Proof. done. Qed.

Lemma byte_at_S x s (n : nat) : byte_at (x :: s) (Z.of_nat (S n)) = byte_at s (Z.of_nat n).
Proof. unfold byte_at. rewrite !Nat2Z.id. done. Qed.

(** Where the loop stops short of both ends, the strings share a prefix and
    differ in the next byte. *)
Lemma diff_index_split start limit :
  Z.of_nat (diff_index start limit) < Z.min (blen start) (blen limit) ->
  exists p x s y l, start = p ++ x :: s /\ limit = p ++ y :: l /\ b2z x <> b2z y /\
    diff_index start limit = length p.
Proof.
  revert limit. induction start as [|x s IH]; intros [|y l]; cbn [diff_index];
    rewrite ?blen_cons, ?blen_nil; try (pose proof (blen_nonneg s); lia);
    try (pose proof (blen_nonneg l); lia); try lia.
  destruct (Z.eqb_spec (b2z x) (b2z y)) as [E|N]; intros H.
  - apply b2z_inj in E as ->. destruct (IH l) as (p & x' & s' & y' & l' & -> & -> & Hn & Hd); [lia|].
    exists (y :: p), x', s', y', l'. cbn. by rewrite Hd.
  - by exists [], x, s, y, l.
Qed.

Lemma byte_at_app p x s : byte_at (p ++ x :: s) (Z.of_nat (length p)) = x.
Proof. unfold byte_at. rewrite Nat2Z.id. by rewrite nth_middle. Qed.

(** The separator is either [start] itself or a proper shortening. *)
Lemma bytewise_separator_cases start limit :
  bytewise_FindShortestSeparator start limit = start \/
  exists p x s y l,
    start = p ++ x :: s /\ limit = p ++ y :: l /\ b2z x + 1 < b2z y /\
    bytewise_FindShortestSeparator start limit = p ++ [z2b (b2z x + 1)].
Proof.
  unfold bytewise_FindShortestSeparator.
  destruct (Z.leb_spec (Z.min (blen start) (blen limit)) (Z.of_nat (diff_index start limit)))
    as [|Hlt]; [by left|].
  destruct (diff_index_split _ _ Hlt) as (p & x & s & y & l & -> & -> & _ & ->).
  rewrite !byte_at_app. destruct (Z.ltb_spec (b2z x) 255); [|by left].
  destruct (Z.ltb_spec (b2z x + 1) (b2z y)); [|by left]. right.
  exists p, x, s, y, l. repeat split; [done|]. f_equal.
  by apply ztake_app.
Qed.

Lemma lex_cons_lt x y a b : b2z x < b2z y -> lex (x :: a) (y :: b) = -1.
Proof. intros H. cbn. destruct (Z.ltb_spec (b2z x) (b2z y)); [done|lia]. Qed.

Lemma bytewise_successor_ge key : lex key (bytewise_FindShortSuccessor key) <= 0.
Proof.
  induction key as [|x s IH]; [done|]. cbn [bytewise_FindShortSuccessor].
  pose proof (b2z_range x). destruct (Z.eqb_spec (b2z x) 255); cbn [negb].
  - cbn. by lex_step x x.
  - rewrite lex_cons_lt; [lia|]. rewrite b2z_z2b_small; lia.
Qed.

Lemma compare_ThreeWay : ThreeWay compare.
Proof.
  split; intros *; rewrite !compare_lex.
  - by apply lex_eq.
  - rewrite (lex_antisym a b). lia.
  - intros H1 H2. destruct (Z.eq_dec (lex a b) 0) as [E|N1]; [apply lex_eq in E; by subst|].
    destruct (Z.eq_dec (lex b d) 0) as [E|N2]; [apply lex_eq in E; by subst|].
    apply Z.lt_le_incl, (lex_trans a b d); lia.
Qed.

#[export] Instance BytewiseComparator_laws : ComparatorLaws BytewiseComparator.
Proof.
  split; cbn [Compare FindShortestSeparator FindShortSuccessor BytewiseComparator]; intros *;
    rewrite ?compare_lex.
  - apply compare_ThreeWay.
  - intros H.
    destruct (bytewise_separator_cases start limit)
      as [->|(p & x & s & y & l & -> & -> & Hxy & ->)].
    + split; [|done]. assert (lex start start = 0) as -> by (by apply lex_eq). lia.
    + pose proof (b2z_range x). pose proof (b2z_range y). rewrite !lex_app.
      split; rewrite lex_cons_lt; rewrite ?b2z_z2b_small; lia.
  - intros H.
    destruct (bytewise_separator_cases start limit)
      as [->|(p & x & s & y & l & -> & -> & Hxy & _)]; [done|].
    rewrite lex_app, lex_cons_lt in H; lia.
  - apply bytewise_successor_ge.
Qed.

#[export] Instance BytewiseComparator_short : ShortKeys BytewiseComparator.
Proof.
  split; cbn.
  - intros start limit. unfold bytewise_FindShortestSeparator. cbv zeta.
    destruct (Z.leb_spec (Z.min (blen start) (blen limit)) (Z.of_nat (diff_index start limit))); [lia|].
    destruct (_ && _); [|lia]. rewrite blen_app, blen_ztake, blen_cons, blen_nil by lia. lia.
  - induction key as [|b key IH]; cbn; [lia|]. destruct (negb _); rewrite !blen_cons; [|lia].
    rewrite blen_nil. pose proof (blen_nonneg key). lia.
Qed.

(** ** Filter policies *)

(** [class FilterPolicy].  [CreateFilter keys dst] is [*dst] after the call. *)
Record FilterPolicy := mkFilterPolicy {
  PolicyName : bytes;
  CreateFilter : list bytes -> bytes -> bytes;
  KeyMayMatch : bytes -> bytes -> bool
}.

(** The documented contract: the filter is appended to [*dst], which keeps its
    contents, and every key it was made of matches it.  The number of keys is
    an [int]. *)
Class FilterPolicyLaws (p : FilterPolicy) : Prop := {
  create_filter_appends keys dst :
    CreateFilter p keys dst = dst ++ CreateFilter p keys [];
  create_filter_matches keys key :
    Z.of_nat (length keys) < 2 ^ 31 ->
    key ∈ keys -> KeyMayMatch p key (CreateFilter p keys []) = true
}.
