(* ===== verification/DbFormat.v ===== *)
(** * Internal keys

    [db/dbformat.h] and [db/dbformat.cc]: a user key with a sequence number and
    a value type, packed into one byte string; the comparator and the filter
    policy that wrap the user's ones; the key used for lookups.

    [InternalKeyComparator_laws] shows that the wrapper of a lawful comparator
    is a lawful comparator again, so that the memtable and the tables, which
    are verified against [ComparatorLaws], can be instantiated with it. *)

From S2P Require Import Prelude Slice Coding Logging Comparator.

(** ** Constants *)

Definition kNumLevels : Z := 7.
Definition kL0_CompactionTrigger : Z := 4.
Definition kL0_SlowdownWritesTrigger : Z := 8.
Definition kL0_StopWritesTrigger : Z := 12.
Definition kMaxMemCompactLevel : Z := 2.
Definition kReadBytesPeriod : Z := 1048576.

Inductive ValueType := kTypeDeletion | kTypeValue.

#[export] Instance ValueType_eq_dec : EqDecision ValueType.
Proof. solve_decision. Defined.

(** The enum's values, stored on disk. *)
Definition ValueType_value (t : ValueType) : Z :=
  match t with kTypeDeletion => 0x0 | kTypeValue => 0x1 end.

(** [static_cast<ValueType>(c)] for a value of the enum. *)
Definition ValueType_of (c : Z) : ValueType := if c =? 0 then kTypeDeletion else kTypeValue.

Definition kValueTypeForSeek : ValueType := kTypeValue.

Definition kMaxSequenceNumber : Z := Z.shiftl 0x1 56 - 1.

(** ** Parsed and packed internal keys *)

Record ParsedInternalKey := mkParsedInternalKey {
  user_key : bytes;
  sequence : Z;
  type : ValueType
}.

Definition InternalKeyEncodingLength (key : ParsedInternalKey) : Z := blen (user_key key) + 8.

Definition PackSequenceAndType (seq : Z) (t : ValueType) : Z :=
  Z.lor (u64 (Z.shiftl seq 8)) (ValueType_value t).

Definition AppendInternalKey (result : bytes) (key : ParsedInternalKey) : bytes :=
  PutFixed64 (result ++ user_key key) (PackSequenceAndType (sequence key) (type key)).

(** The tag of an internal key: its last eight bytes. *)
Definition key_tag (internal_key : bytes) : Z :=
  DecodeFixed64 (zdrop (blen internal_key - 8) internal_key).

(** [ParseInternalKey]: [None] is the return value [false]. *)
Definition ParseInternalKey (internal_key : bytes) : option ParsedInternalKey :=
  let n := blen internal_key in
  if n <? 8 then None
  else
    let num := key_tag internal_key in
    let c := Z.land num 0xff in
    if c <=? ValueType_value kTypeValue
    then Some (mkParsedInternalKey (ztake (n - 8) internal_key) (Z.shiftr num 8) (ValueType_of c))
    else None.

(** [ExtractUserKey], for keys of at least eight bytes, as it asserts. *)
Definition ExtractUserKey (internal_key : bytes) : bytes :=
  ztake (blen internal_key - 8) internal_key.

(** [ParsedInternalKey::DebugString] and [InternalKey::DebugString] *)
Definition ParsedInternalKey_DebugString (k : ParsedInternalKey) : bytes :=
  [z2b 39] ++ EscapeString (user_key k) ++ str "' @ " ++ decimal (sequence k) ++ str " : " ++
  decimal (ValueType_value (type k)).

Definition InternalKey_DebugString (rep_ : bytes) : bytes :=
  match ParseInternalKey rep_ with
  | Some parsed => ParsedInternalKey_DebugString parsed
  | None => str "(bad)" ++ EscapeString rep_
  end.

(** ** [InternalKey]: a packed key, empty when invalid *)

Record InternalKey := mkInternalKey { rep_ : bytes }.

Definition InternalKey_make (user_key : bytes) (s : Z) (t : ValueType) : InternalKey :=
  mkInternalKey (AppendInternalKey [] (mkParsedInternalKey user_key s t)).

Definition InternalKey_DecodeFrom (s : bytes) : bool * InternalKey :=
  (negb (blen s =? 0), mkInternalKey s).

(** [None] is the failed assertion [!rep_.empty()]. *)
Definition InternalKey_Encode (k : InternalKey) : option bytes :=
  if blen (rep_ k) =? 0 then None else Some (rep_ k).

Definition InternalKey_user_key (k : InternalKey) : bytes := ExtractUserKey (rep_ k).

Definition InternalKey_SetFrom (p : ParsedInternalKey) : InternalKey :=
  mkInternalKey (AppendInternalKey [] p).

(** ** [InternalKeyComparator] *)

Section InternalKeyComparator.

Context (user_comparator_ : Comparator).

Definition ikey_Compare (akey bkey : bytes) : Z :=
  let r := Compare user_comparator_ (ExtractUserKey akey) (ExtractUserKey bkey) in
  if r =? 0 then
    let anum := key_tag akey in
    let bnum := key_tag bkey in
    if bnum <? anum then -1
    else if anum <? bnum then 1
    else r
  else r.

Definition ikey_FindShortestSeparator (start limit : bytes) : bytes :=
  let user_start := ExtractUserKey start in
  let user_limit := ExtractUserKey limit in
  let tmp := FindShortestSeparator user_comparator_ user_start user_limit in
  if (blen tmp <? blen user_start) && (Compare user_comparator_ user_start tmp <? 0)
  then PutFixed64 tmp (PackSequenceAndType kMaxSequenceNumber kValueTypeForSeek)
  else start.

Definition ikey_FindShortSuccessor (key : bytes) : bytes :=
  let user_key := ExtractUserKey key in
  let tmp := FindShortSuccessor user_comparator_ user_key in
  if (blen tmp <? blen user_key) && (Compare user_comparator_ user_key tmp <? 0)
  then PutFixed64 tmp (PackSequenceAndType kMaxSequenceNumber kValueTypeForSeek)
  else key.

Definition InternalKeyComparator : Comparator := {|
  Name := str "leveldb.InternalKeyComparator";
  Compare := ikey_Compare;
  FindShortestSeparator := ikey_FindShortestSeparator;
  FindShortSuccessor := ikey_FindShortSuccessor
|}.

End InternalKeyComparator.

(** ** [InternalFilterPolicy]

    [CreateFilter] replaces the entries of the caller's key array by the user
    keys before it calls the user's policy; the array is not used afterwards
    (see [GenerateFilter]). *)

Definition InternalFilterPolicy (user_policy_ : FilterPolicy) : FilterPolicy := {|
  PolicyName := PolicyName user_policy_;
  CreateFilter keys dst := CreateFilter user_policy_ (map ExtractUserKey keys) dst;
  KeyMayMatch key f := KeyMayMatch user_policy_ (ExtractUserKey key) f
|}.

(** ** [LookupKey]

    The array built by the constructor, from [start_] to [end_], and the offset
    of [kstart_] in it. *)

Record LookupKey := mkLookupKey { start_ : bytes; kstart_ : Z }.

Definition LookupKey_make (user_key : bytes) (s : Z) : LookupKey :=
  let usize := blen user_key in
  let klength := EncodeVarint32 (u32 (usize + 8)) in
  mkLookupKey (klength ++ user_key ++ EncodeFixed64 (PackSequenceAndType s kValueTypeForSeek))
              (blen klength).

Definition memtable_key (k : LookupKey) : bytes := start_ k.
Definition internal_key (k : LookupKey) : bytes := zdrop (kstart_ k) (start_ k).
Definition lookup_user_key (k : LookupKey) : bytes :=
  ztake (blen (start_ k) - kstart_ k - 8) (zdrop (kstart_ k) (start_ k)).

(** ** Packing *)

Lemma ValueType_value_range t : 0 <= ValueType_value t <= 1.
Proof. destruct t; cbn; lia. Qed.

Lemma ValueType_of_value t : ValueType_of (ValueType_value t) = t.
Proof. by destruct t. Qed.

Lemma PackSequenceAndType_add seq t :
  0 <= seq <= kMaxSequenceNumber ->
  PackSequenceAndType seq t = ValueType_value t + seq * 2 ^ 8.
Proof.
  intros Hs. change kMaxSequenceNumber with (2 ^ 56 - 1) in Hs.
  pose proof (ValueType_value_range t). unfold PackSequenceAndType.
  rewrite u64_small by (rewrite Z.shiftl_mul_pow2 by lia; lia).
  rewrite Z.lor_comm. apply lor_shiftl_add; lia.
Qed.

Lemma PackSequenceAndType_range seq t :
  0 <= seq <= kMaxSequenceNumber -> 0 <= PackSequenceAndType seq t < 2 ^ 64.
Proof.
  intros Hs. rewrite PackSequenceAndType_add by done.
  change kMaxSequenceNumber with (2 ^ 56 - 1) in Hs.
  pose proof (ValueType_value_range t). lia.
Qed.

Lemma ExtractUserKey_app u n : ExtractUserKey (u ++ EncodeFixed64 n) = u.
Proof.
  unfold ExtractUserKey. apply ztake_app. rewrite blen_app, blen_EncodeFixed64. lia.
Qed.

Lemma key_tag_app u n : 0 <= n < 2 ^ 64 -> key_tag (u ++ EncodeFixed64 n) = n.
Proof.
  intros Hn. unfold key_tag. rewrite zdrop_app.
  2: { rewrite blen_app, blen_EncodeFixed64. lia. }
  rewrite <- (app_nil_r (EncodeFixed64 n)), DecodeFixed64_Encode. by apply u64_small.
Qed.

(** Reading a packed key gives back its parts. *)
Lemma ParseInternalKey_Append u seq t :
  0 <= seq <= kMaxSequenceNumber ->
  ParseInternalKey (AppendInternalKey [] (mkParsedInternalKey u seq t))
  = Some (mkParsedInternalKey u seq t).
Proof.
  intros Hs. unfold ParseInternalKey, AppendInternalKey, PutFixed64. cbn [app user_key sequence type].
  set (n := PackSequenceAndType seq t).
  rewrite blen_app, blen_EncodeFixed64. destruct (Z.ltb_spec (blen u + 8) 8).
  { pose proof (blen_nonneg u). lia. }
  rewrite key_tag_app by (by apply PackSequenceAndType_range).
  assert (Z.land n 255 = ValueType_value t) as Hc.
  { change 255 with (Z.ones 8). rewrite Z.land_ones by lia. unfold n.
    rewrite PackSequenceAndType_add, Z.mod_add by (done || lia).
    pose proof (ValueType_value_range t). apply Z.mod_small. lia. }
  rewrite Hc, ValueType_of_value. change (ValueType_value kTypeValue) with 1.
  pose proof (ValueType_value_range t). destruct (Z.leb_spec (ValueType_value t) 1); [|lia].
  do 2 f_equal.
  - apply ztake_app. lia.
  - unfold n. rewrite PackSequenceAndType_add by done. rewrite Z.shiftr_div_pow2 by lia.
    rewrite Z.div_add by lia. rewrite Z.div_small by lia. lia.
Qed.

(** ** The order on internal keys *)

(** [ikey_Compare] orders by user key, then by decreasing tag. *)
Lemma ikey_Compare_spec c a b :
  ikey_Compare c a b =
  (if Compare c (ExtractUserKey a) (ExtractUserKey b) =? 0
   then Z.sgn (key_tag b - key_tag a)
   else Compare c (ExtractUserKey a) (ExtractUserKey b)).
Proof.
  unfold ikey_Compare.
  destruct (Z.eqb_spec (Compare c (ExtractUserKey a) (ExtractUserKey b)) 0); [|done].
  destruct (Z.ltb_spec (key_tag b) (key_tag a)); [lia|].
  destruct (Z.ltb_spec (key_tag a) (key_tag b)); lia.
Qed.

Ltac ikey_cases :=
  repeat match goal with
  | |- context [?x =? 0] => destruct (Z.eqb_spec x 0)
  | H : context [?x =? 0] |- _ => destruct (Z.eqb_spec x 0)
  end.

Section InternalKeyLaws.

Context (c : Comparator) {L : ComparatorLaws c}.

Lemma ikey_opp a b : ikey_Compare c a b < 0 <-> 0 < ikey_Compare c b a.
Proof.
  rewrite !ikey_Compare_spec.
  pose proof (cmp_opp (ExtractUserKey a) (ExtractUserKey b)).
  pose proof (cmp_opp_eq (Compare c) (ExtractUserKey a) (ExtractUserKey b)).
  ikey_cases; lia.
Qed.

Lemma ikey_le_trans a b d :
  ikey_Compare c a b <= 0 -> ikey_Compare c b d <= 0 -> ikey_Compare c a d <= 0.
Proof.
  rewrite !ikey_Compare_spec.
  set (ua := ExtractUserKey a). set (ub := ExtractUserKey b). set (ud := ExtractUserKey d).
  pose proof (cmp_le_trans ua ub ud). pose proof (cmp_eq_trans (Compare c) ua ub ud).
  pose proof (cmp_lt_le_trans (Compare c) ua ub ud). pose proof (cmp_le_lt_trans (Compare c) ua ub ud).
  ikey_cases; lia.
Qed.

(** A strictly larger user key decides the comparison. *)
Lemma ikey_lt_user a b :
  Compare c (ExtractUserKey a) (ExtractUserKey b) < 0 -> ikey_Compare c a b < 0.
Proof. rewrite ikey_Compare_spec. ikey_cases; lia. Qed.

Lemma ikey_le_user a b :
  ikey_Compare c a b <= 0 -> Compare c (ExtractUserKey a) (ExtractUserKey b) <= 0.
Proof. rewrite ikey_Compare_spec. ikey_cases; lia. Qed.

Lemma ikey_refl a : ikey_Compare c a a = 0.
Proof. rewrite ikey_Compare_spec, cmp_refl. ikey_cases; lia. Qed.

Lemma blen_ExtractUserKey k : blen (ExtractUserKey k) = Z.max 0 (blen k - 8).
Proof. unfold ExtractUserKey, ztake, blen. rewrite length_take. lia. Qed.

#[export] Instance InternalKeyComparator_short : ShortKeys (InternalKeyComparator c).
Proof.
  split; cbn; intros start; [intros limit; unfold ikey_FindShortestSeparator|unfold ikey_FindShortSuccessor];
    cbv zeta; pose proof (blen_ExtractUserKey start);
    match goal with |- context [blen ?x <? blen (ExtractUserKey start)] =>
      pose proof (blen_nonneg x);
      destruct (Z.ltb_spec (blen x) (blen (ExtractUserKey start))); cbn [andb]; [|lia] end;
    (destruct (_ <? 0); [|lia]); unfold PutFixed64; rewrite blen_app, blen_EncodeFixed64; lia.
Qed.

#[export] Instance InternalKeyComparator_laws : ComparatorLaws (InternalKeyComparator c).
Proof.
  split; cbn [Compare FindShortestSeparator FindShortSuccessor InternalKeyComparator].
  - split; [apply ikey_refl|apply ikey_opp|apply ikey_le_trans].
  - intros start limit H. unfold ikey_FindShortestSeparator.
    set (us := ExtractUserKey start). set (ul := ExtractUserKey limit).
    set (tmp := FindShortestSeparator c us ul).
    destruct ((blen tmp <? blen us) && (Compare c us tmp <? 0)) eqn:E.
    2: { split; [|done]. by rewrite ikey_refl. }
    apply andb_prop in E as [_ E%Z.ltb_lt].
    destruct (Z.lt_ge_cases (Compare c us ul) 0) as [Hu|Hu].
    + destruct (separator_range us ul Hu) as [_ Hl]. fold tmp in Hl. unfold PutFixed64.
      split; [apply Z.lt_le_incl|]; apply ikey_lt_user; by rewrite ExtractUserKey_app.
    + exfalso. unfold tmp in E. rewrite separator_unchanged in E by done.
      rewrite cmp_refl in E. lia.
  - intros start limit H. unfold ikey_FindShortestSeparator.
    set (us := ExtractUserKey start). set (ul := ExtractUserKey limit).
    destruct (Z.lt_ge_cases (Compare c us ul) 0) as [Hu|Hu].
    { pose proof (ikey_lt_user start limit Hu). lia. }
    rewrite separator_unchanged by done. by rewrite Z.ltb_irrefl.
  - intros key. unfold ikey_FindShortSuccessor.
    set (us := ExtractUserKey key). set (tmp := FindShortSuccessor c us).
    destruct ((blen tmp <? blen us) && (Compare c us tmp <? 0)) eqn:E.
    2: { by rewrite ikey_refl. }
    apply andb_prop in E as [_ E%Z.ltb_lt]. apply Z.lt_le_incl, ikey_lt_user.
    unfold PutFixed64. by rewrite ExtractUserKey_app.
Qed.

(** The order of packed keys: by user key, then newest first. *)
Lemma ikey_Compare_packed u1 s1 t1 u2 s2 t2 :
  0 <= s1 <= kMaxSequenceNumber -> 0 <= s2 <= kMaxSequenceNumber ->
  ikey_Compare c (AppendInternalKey [] (mkParsedInternalKey u1 s1 t1))
                 (AppendInternalKey [] (mkParsedInternalKey u2 s2 t2)) < 0 <->
  Compare c u1 u2 < 0 \/
  Compare c u1 u2 = 0 /\
    (s2 < s1 \/ s1 = s2 /\ ValueType_value t2 < ValueType_value t1).
Proof.
  intros H1 H2. rewrite ikey_Compare_spec.
  unfold AppendInternalKey, PutFixed64. cbn [app user_key sequence type].
  rewrite !ExtractUserKey_app, !key_tag_app by (by apply PackSequenceAndType_range).
  rewrite !PackSequenceAndType_add by done.
  pose proof (ValueType_value_range t1). pose proof (ValueType_value_range t2).
  ikey_cases; lia.
Qed.

End InternalKeyLaws.

(** ** The wrapped filter policy *)

#[export] Instance InternalFilterPolicy_laws p `{!FilterPolicyLaws p} :
  FilterPolicyLaws (InternalFilterPolicy p).
Proof.
  split; cbn [CreateFilter KeyMayMatch InternalFilterPolicy].
  - intros keys dst. apply create_filter_appends.
  - intros keys key Hs Hin. apply create_filter_matches; [by rewrite length_map|].
    by apply (list_elem_of_fmap_2 ExtractUserKey).
Qed.

(** ** Lookup keys *)

Lemma LookupKey_parts u s :
  let k := LookupKey_make u s in
  memtable_key k = EncodeVarint32 (u32 (blen u + 8)) ++ internal_key k /\
  internal_key k = AppendInternalKey [] (mkParsedInternalKey u s kValueTypeForSeek) /\
  lookup_user_key k = u.
Proof.
  cbv zeta. unfold memtable_key, internal_key, lookup_user_key, LookupKey_make. cbn [start_ kstart_].
  rewrite !zdrop_app by done. split_and!; [done|done|].
  apply ztake_app. rewrite !blen_app, blen_EncodeFixed64. lia.
Qed.
