(* ===== verification/Bloom.v ===== *)
(** * The bloom filter policy

    [util/hash.cc] and [util/bloom.cc].  The filter is the byte array the source
    fills, followed by the number of probes.  [BloomFilterPolicy_laws] shows that
    the policy satisfies the contract of [FilterPolicy]: no false negatives. *)

From S2P Require Import Prelude Coding Comparator.

(** ** [Hash] *)

Definition hash_m : Z := 0xc6a4a793.
Definition hash_r : Z := 24.

(** [h ^= (h >> n)] *)
Definition xor_shift (h n : Z) : Z := Z.lxor h (Z.shiftr h n).

(** The loop over four bytes at a time. *)
Fixpoint hash_loop (fuel : nat) (h : Z) (data : bytes) : Z * bytes :=
  match fuel with
  | O => (h, data)
  | S fuel =>
      if 4 <=? blen data then
        let w := DecodeFixed32 data in
        let h := u32 (h + w) in
        let h := u32 (h * hash_m) in
        hash_loop fuel (xor_shift h 16) (zdrop 4 data)
      else (h, data)
  end.

(** The switch over the remaining bytes; cases 3 and 2 fall through. *)
Definition hash_tail (h : Z) (data : bytes) : Z :=
  let h := if blen data =? 3 then u32 (h + Z.shiftl (b2z (byte_at data 2)) 16) else h in
  let h := if 2 <=? blen data then u32 (h + Z.shiftl (b2z (byte_at data 1)) 8) else h in
  if 1 <=? blen data then
    let h := u32 (h + b2z (byte_at data 0)) in
    let h := u32 (h * hash_m) in
    xor_shift h hash_r
  else h.

Definition Hash (data : bytes) (seed : Z) : Z :=
  let h := u32 (Z.lxor seed (u64 (blen data * hash_m))) in
  let '(h, data) := hash_loop (length data) h data in
  hash_tail h data.

(** ** [BloomFilterPolicy] *)

Definition BloomHash (key : bytes) : Z := Hash key 0xbc9f1d34.

Record BloomFilterPolicy := mkBloom { bits_per_key_ : Z; k_ : Z }.

(** The constructor.  [bits_per_key * 0.69] is truncated; for the arguments below
    44, which the clamp at 30 does not mask, the double product truncates to the
    exact quotient. *)
Definition BloomFilterPolicy_make (bits_per_key : Z) : BloomFilterPolicy :=
  let k := bits_per_key * 69 / 100 in
  let k := if k <? 1 then 1 else k in
  let k := if 30 <? k then 30 else k in
  mkBloom bits_per_key k.

(** [array[bitpos / 8] |= (1 << (bitpos % 8))] *)
Definition set_bit (array : bytes) (bitpos : Z) : bytes :=
  alter (fun b => z2b (Z.lor (b2z b) (Z.shiftl 1 (bitpos mod 8))))
        (Z.to_nat (bitpos / 8)) array.

(** Rotate right 17 bits. *)
Definition bloom_delta (h : Z) : Z := Z.lor (Z.shiftr h 17) (u32 (Z.shiftl h 15)).

(** The inner loop of [CreateFilter]: [k] probes for one key. *)
Fixpoint add_probes (k : nat) (bits delta h : Z) (array : bytes) : bytes :=
  match k with
  | O => array
  | S k => add_probes k bits delta (u32 (h + delta)) (set_bit array (h mod bits))
  end.

Definition add_key (k bits : Z) (array key : bytes) : bytes :=
  let h := BloomHash key in
  add_probes (Z.to_nat k) bits (bloom_delta h) h array.

(** The size of the bit array, in bytes. *)
Definition filter_bytes (p : BloomFilterPolicy) (n : Z) : Z :=
  let bits := u64 (n * bits_per_key_ p) in
  let bits := if bits <? 64 then 64 else bits in
  u64 (bits + 7) / 8.

Definition bloom_CreateFilter (p : BloomFilterPolicy) (keys : list bytes) (dst : bytes) : bytes :=
  let bytes := filter_bytes p (Z.of_nat (length keys)) in
  let bits := u64 (bytes * 8) in
  dst ++ fold_left (add_key (k_ p) bits) keys (replicate (Z.to_nat bytes) x00) ++ [z2b (k_ p)].

(** The loop of [KeyMayMatch]. *)
Fixpoint test_probes (k : nat) (bits delta h : Z) (array : bytes) : bool :=
  match k with
  | O => true
  | S k =>
      let bitpos := h mod bits in
      if Z.land (schar (byte_at array (bitpos / 8))) (Z.shiftl 1 (bitpos mod 8)) =? 0
      then false
      else test_probes k bits delta (u32 (h + delta)) array
  end.

Definition bloom_KeyMayMatch (key bloom_filter : bytes) : bool :=
  let len := blen bloom_filter in
  if len <? 2 then false
  else
    let bits := u64 ((len - 1) * 8) in
    let k := u64 (schar (byte_at bloom_filter (len - 1))) in
    if 30 <? k then true
    else
      let h := BloomHash key in
      test_probes (Z.to_nat k) bits (bloom_delta h) h bloom_filter.

Definition NewBloomFilterPolicy (bits_per_key : Z) : FilterPolicy :=
  let p := BloomFilterPolicy_make bits_per_key in {|
  PolicyName := str "leveldb.BuiltinBloomFilter2";
  CreateFilter := bloom_CreateFilter p;
  KeyMayMatch := bloom_KeyMayMatch
|}.

(** ** Bits of the array *)

Definition bit_at (array : bytes) (pos : Z) : bool :=
  Z.testbit (b2z (byte_at array (pos / 8))) (pos mod 8).

Lemma byte_at_alter_eq f array i :
  0 <= i < blen array -> byte_at (alter f (Z.to_nat i) array) i = f (byte_at array i).
Proof.
  intros Hi. unfold byte_at. set (n := Z.to_nat i). assert (n < length array)%nat by (unfold blen in Hi; lia).
  destruct (lookup_lt_is_Some_2 array n ltac:(done)) as [b Hb].
  rewrite (nth_lookup (alter f n array)), (nth_lookup array).
  rewrite list_lookup_alter_eq, Hb. done.
Qed.

Lemma byte_at_alter_ne f array i j :
  0 <= i -> 0 <= j -> i <> j -> byte_at (alter f (Z.to_nat i) array) j = byte_at array j.
Proof.
  intros Hi Hj Hn. unfold byte_at. rewrite !nth_lookup.
  by rewrite list_lookup_alter_ne by lia.
Qed.

Lemma length_set_bit array pos : length (set_bit array pos) = length array.
Proof. apply length_alter. Qed.

Lemma byte_index pos n : 0 <= pos < 8 * n -> 0 <= pos / 8 < n.
Proof. intros H. split; [apply Z.div_pos|apply Z.div_lt_upper_bound]; lia. Qed.

(** Setting one bit sets it and leaves every other bit as it was. *)
Lemma bit_at_set_bit array pos q :
  0 <= pos < 8 * blen array -> 0 <= q ->
  bit_at (set_bit array pos) q = (q =? pos) || bit_at array q.
Proof.
  intros Hp Hq. unfold bit_at, set_bit.
  destruct (Z.eq_dec (q / 8) (pos / 8)) as [E|N].
  - rewrite E, byte_at_alter_eq by (by apply byte_index).
    set (b := byte_at array (pos / 8)).
    rewrite b2z_z2b. change 256 with (2 ^ 8).
    pose proof (Z.mod_pos_bound q 8). pose proof (Z.mod_pos_bound pos 8).
    rewrite testbit_mod_pow2, Z.lor_spec, Z.shiftl_spec by lia.
    destruct (Z.ltb_spec (q mod 8) 8); [|lia]. cbn [andb]. rewrite orb_comm. f_equal.
    destruct (Z.eqb_spec q pos) as [->|Hne].
    + by rewrite Z.sub_diag.
    + destruct (Z.lt_ge_cases (q mod 8) (pos mod 8)) as [Hlt|Hge].
      { by rewrite Z.testbit_neg_r by lia. }
      change 1 with (2 ^ 0). rewrite Z.pow2_bits_false; [done|].
      intros E0. apply Hne. rewrite (Z.div_mod q 8), (Z.div_mod pos 8) by lia. lia.
  - destruct (Z.eqb_spec q pos) as [->|_]; [done|].
    rewrite byte_at_alter_ne; [done|apply Z.div_pos; lia|apply Z.div_pos; lia|done].
Qed.

(** The test of [KeyMayMatch] reads that bit. *)
Lemma land_bit_at array pos :
  (Z.land (schar (byte_at array (pos / 8))) (Z.shiftl 1 (pos mod 8)) =? 0) = negb (bit_at array pos).
Proof.
  unfold bit_at. set (b := byte_at array (pos / 8)). set (i := pos mod 8).
  assert (0 <= i < 8) as Hi by (apply Z.mod_pos_bound; lia).
  assert (Z.testbit (schar b) i = Z.testbit (b2z b) i) as <-.
  { assert (b2z b = schar b mod 2 ^ 8) as ->.
    { pose proof (b2z_range b). unfold schar. destruct (Z.ltb_spec (b2z b) 128).
      - by rewrite Z.mod_small by lia.
      - rewrite <- (Z.mod_add _ 1) by lia. rewrite Z.mod_small; lia. }
    rewrite testbit_mod_pow2 by lia. by destruct (Z.ltb_spec i 8); [|lia]. }
  rewrite Z.shiftl_mul_pow2, Z.mul_1_l by lia.
  destruct (Z.testbit (schar b) i) eqn:E; cbn [negb].
  - apply Z.eqb_neq. intros H. apply (f_equal (fun z => Z.testbit z i)) in H.
    rewrite Z.land_spec, Z.pow2_bits_true, E, Z.testbit_0_l in H by lia. done.
  - apply Z.eqb_eq. zbits j Hj. rewrite Z.pow2_bits_eqb by lia.
    destruct (Z.eqb_spec i j) as [<-|]; [by rewrite E|apply andb_false_r].
Qed.

(** ** No false negatives *)

(** The probed positions of one key. *)
Fixpoint probes (k : nat) (bits delta h : Z) : list Z :=
  match k with
  | O => []
  | S k => h mod bits :: probes k bits delta (u32 (h + delta))
  end.

Lemma test_probes_spec k bits delta h array :
  test_probes k bits delta h array = forallb (bit_at array) (probes k bits delta h).
Proof.
  revert h. induction k as [|k IH]; intros h; [done|]. cbn [test_probes probes forallb].
  rewrite land_bit_at. by destruct (bit_at array (h mod bits)); cbn [negb andb].
Qed.

Lemma probes_range k bits delta h q :
  0 < bits -> In q (probes k bits delta h) -> 0 <= q < bits.
Proof.
  intros Hb. revert h. induction k as [|k IH]; intros h; [done|].
  intros [<-|H]; [by apply Z.mod_pos_bound|]. by apply (IH (u32 (h + delta))).
Qed.

(** What adding a key does to the array. *)
Lemma add_probes_spec k bits delta h array :
  0 < bits <= 8 * blen array ->
  blen (add_probes k bits delta h array) = blen array /\
  forall q, 0 <= q -> bit_at (add_probes k bits delta h array) q = true <->
                      In q (probes k bits delta h) \/ bit_at array q = true.
Proof.
  revert h array. induction k as [|k IH]; intros h array Hb; cbn [add_probes probes].
  { split; [done|]. intros q _. cbn [In]. tauto. }
  pose proof (Z.mod_pos_bound h bits ltac:(lia)).
  assert (blen (set_bit array (h mod bits)) = blen array) as Hl by (unfold blen; by rewrite length_set_bit).
  destruct (IH (u32 (h + delta)) (set_bit array (h mod bits)) ltac:(lia)) as [IHl IHq].
  split; [lia|]. intros q Hq. rewrite IHq, bit_at_set_bit by lia. cbn [In].
  rewrite orb_true_iff, Z.eqb_eq. intuition.
Qed.

Lemma add_keys_spec k bits keys array :
  0 < bits <= 8 * blen array ->
  let array' := fold_left (add_key k bits) keys array in
  blen array' = blen array /\
  (forall q, 0 <= q -> bit_at array q = true -> bit_at array' q = true) /\
  forall key q, key ∈ keys -> In q (probes (Z.to_nat k) bits (bloom_delta (BloomHash key)) (BloomHash key)) ->
    bit_at array' q = true.
Proof.
  cbv zeta. revert array. induction keys as [|x keys IH]; intros array Hb.
  { repeat split; [done|]. intros key q Hk. by apply elem_of_nil in Hk. }
  rewrite fold_left_step.
  destruct (add_probes_spec (Z.to_nat k) bits (bloom_delta (BloomHash x)) (BloomHash x) array Hb)
    as [Hl Hq]. fold (add_key k bits array x) in Hl, Hq.
  destruct (IH (add_key k bits array x) ltac:(lia)) as (IHl & IHm & IHk).
  repeat split; [lia| |].
  - intros q Hq0 Hq1. apply IHm; [done|]. apply Hq; auto.
  - intros key q [->|Hin]%elem_of_cons Hp; [|by apply (IHk key)].
    assert (0 <= q) by (apply probes_range in Hp; lia).
    apply IHm; [done|]. apply Hq; auto.
Qed.

(** The [int] arguments keep the bit array within the address space. *)
Lemma filter_bytes_range bits_per_key (keys : list bytes) :
  0 <= bits_per_key < 2 ^ 31 -> Z.of_nat (length keys) < 2 ^ 31 ->
  8 <= filter_bytes (BloomFilterPolicy_make bits_per_key) (Z.of_nat (length keys)) < 2 ^ 60.
Proof.
  unfold filter_bytes. cbn [BloomFilterPolicy_make bits_per_key_]. intros Hb Hs.
  set (n := Z.of_nat (length keys) * bits_per_key) in *.
  assert (0 <= n < 2 ^ 62) by (unfold n; nia).
  rewrite (u64_small n) by lia. set (bits := if n <? 64 then 64 else n).
  assert (64 <= bits < 2 ^ 62) by (unfold bits; destruct (Z.ltb_spec n 64); lia).
  rewrite u64_small by lia. split.
  - apply Z.div_le_lower_bound; lia.
  - apply Z.div_lt_upper_bound; lia.
Qed.

Lemma bloom_k_range bits_per_key : 1 <= k_ (BloomFilterPolicy_make bits_per_key) <= 30.
Proof.
  cbn [BloomFilterPolicy_make k_]. set (k := bits_per_key * 69 / 100).
  destruct (Z.ltb_spec k 1); [cbn; lia|]. destruct (Z.ltb_spec 30 k); lia.
Qed.

Lemma byte_at_last s b i : i = blen s -> byte_at (s ++ [b]) i = b.
Proof. intros ->. unfold byte_at, blen. rewrite Nat2Z.id. by rewrite nth_middle. Qed.

Lemma bit_at_app s t q : 0 <= q < 8 * blen s -> bit_at (s ++ t) q = bit_at s q.
Proof.
  intros Hq. unfold bit_at, byte_at. f_equal. f_equal. apply app_nth1.
  apply byte_index in Hq. unfold blen in Hq. lia.
Qed.

Lemma BloomFilterPolicy_laws bits_per_key :
  0 <= bits_per_key < 2 ^ 31 -> FilterPolicyLaws (NewBloomFilterPolicy bits_per_key).
Proof.
  intros Hb. split; cbn [CreateFilter KeyMayMatch NewBloomFilterPolicy]; [done|].
  intros keys key Hs Hin. unfold bloom_CreateFilter. cbn [app].
  set (p := BloomFilterPolicy_make bits_per_key).
  pose proof (filter_bytes_range bits_per_key keys Hb Hs) as Hr. fold p in Hr.
  pose proof (bloom_k_range bits_per_key) as Hk. fold p in Hk.
  set (n := filter_bytes p (Z.of_nat (length keys))) in *.
  rewrite u64_small by lia.
  assert (blen (replicate (Z.to_nat n) x00) = n) as Hn by (apply blen_replicate; lia).
  destruct (add_keys_spec (k_ p) (n * 8) keys (replicate (Z.to_nat n) x00) ltac:(lia)) as (Hl & _ & Hq).
  set (array := fold_left (add_key (k_ p) (n * 8)) keys (replicate (Z.to_nat n) x00)) in *.
  unfold bloom_KeyMayMatch. rewrite blen_app, blen_cons, blen_nil, Hl, Hn.
  destruct (Z.ltb_spec (n + (1 + 0)) 2); [lia|].
  replace (n + (1 + 0) - 1) with n by lia. rewrite (u64_small (n * 8)) by lia.
  rewrite (byte_at_last array (z2b (k_ p)) n) by lia.
  assert (b2z (z2b (k_ p)) = k_ p) as Hbk by (apply b2z_z2b_small; clear -Hk; lia).
  unfold schar. rewrite Hbk. destruct (Z.ltb_spec (k_ p) 128); [|lia].
  rewrite u64_small by lia. destruct (Z.ltb_spec 30 (k_ p)); [lia|].
  rewrite test_probes_spec. apply forallb_forall. intros q Hp.
  rewrite bit_at_app.
  - by apply (Hq key).
  - apply probes_range in Hp; lia.
Qed.

(** ** Size of a filter *)

Lemma length_add_key k bits array key : length (add_key k bits array key) = length array.
Proof.
  unfold add_key. generalize (BloomHash key) at 2 as h. generalize (bloom_delta (BloomHash key)) as delta.
  induction (Z.to_nat k) as [|n IH] in array |- *; intros delta h; [done|]. cbn [add_probes].
  rewrite IH. apply length_set_bit.
Qed.

Lemma length_add_keys k bits keys array :
  length (fold_left (add_key k bits) keys array) = length array.
Proof.
  revert array. induction keys as [|key keys IH]; intros array; [done|]. cbn [fold_left].
  rewrite IH. apply length_add_key.
Qed.

Lemma u64_le z : 0 <= z -> u64 z <= z.
Proof. intros H. unfold u64. apply Z.mod_le; lia. Qed.

(** At most one byte for every bit asked for, and ten more. *)
Lemma bloom_filter_size bits_per_key keys :
  0 <= bits_per_key ->
  blen (CreateFilter (NewBloomFilterPolicy bits_per_key) keys [])
    <= (bits_per_key + 10) * (1 + Z.of_nat (length keys)).
Proof.
  intros Hb. cbn [CreateFilter NewBloomFilterPolicy]. unfold bloom_CreateFilter. cbv zeta. cbn [app].
  set (p := BloomFilterPolicy_make bits_per_key). set (n := Z.of_nat (length keys)).
  rewrite blen_app, blen_cons, blen_nil. unfold blen. rewrite length_add_keys, length_replicate.
  assert (0 <= n) by (subst n; lia).
  assert (filter_bytes p n <= n * bits_per_key + 9) as Hf.
  { unfold filter_bytes. change (bits_per_key_ p) with bits_per_key. cbv zeta.
    pose proof (u64_le (n * bits_per_key) ltac:(nia)) as H1. pose proof (u64_range (n * bits_per_key)).
    set (b := if u64 (n * bits_per_key) <? 64 then 64 else u64 (n * bits_per_key)).
    assert (0 <= b <= n * bits_per_key + 64) as Hb2.
    { subst b. destruct (Z.ltb_spec (u64 (n * bits_per_key)) 64); nia. }
    pose proof (u64_le (b + 7) ltac:(lia)). pose proof (u64_range (b + 7)).
    assert (u64 (b + 7) / 8 <= (n * bits_per_key + 71) / 8) by (apply Z.div_le_mono; lia).
    assert ((n * bits_per_key + 71) / 8 <= n * bits_per_key + 9) by (apply Z.div_le_upper_bound; nia). lia. }
  nia.
Qed.
