(* ===== verification/FilterBlock.v ===== *)
(** * Filter blocks

    [table/filter_block.h] and [table/filter_block.cc]: one filter for every two
    kilobytes of table data, built from the keys of the data blocks that start
    in that range, and looked up by data block offset.  The theorem at the end
    is the one lookups depend on: a key added under a block's offset is never
    ruled out for that offset, whatever the policy, as long as the policy itself
    has no false negatives. *)

From S2P Require Import Prelude Coding Comparator DbFormat Bloom.

Definition kFilterBaseLg : Z := 11.
Definition kFilterBase : Z := Z.shiftl 1 kFilterBaseLg.

Section FilterBlock.

Context (policy_ : FilterPolicy).

(** ** [FilterBlockBuilder] *)

Record FilterBlockBuilder := mkFilterBlockBuilder {
  keys_ : bytes;
  starts_ : list Z;
  result_ : bytes;
  filter_offsets_ : list Z
}.

Definition FilterBlockBuilder_make : FilterBlockBuilder := mkFilterBlockBuilder [] [] [] [].

(** [tmp_keys_]: the slices of [keys_] between consecutive starts. *)
Fixpoint split_keys (keys : bytes) (starts : list Z) : list bytes :=
  match starts with
  | s :: ((e :: _) as starts') => ztake (e - s) (zdrop s keys) :: split_keys keys starts'
  | _ => []
  end.

Definition GenerateFilter (b : FilterBlockBuilder) : FilterBlockBuilder :=
  match starts_ b with
  | [] =>
      mkFilterBlockBuilder (keys_ b) (starts_ b) (result_ b)
        (filter_offsets_ b ++ [u32 (blen (result_ b))])
  | _ =>
      let starts := starts_ b ++ [blen (keys_ b)] in
      let tmp_keys := split_keys (keys_ b) starts in
      let filter_offsets := filter_offsets_ b ++ [u32 (blen (result_ b))] in
      let result := CreateFilter policy_ tmp_keys (result_ b) in
      mkFilterBlockBuilder [] [] result filter_offsets
  end.

(** The loop of [StartBlock]; each turn adds one offset. *)
Fixpoint start_block_loop (fuel : nat) (filter_index : Z) (b : FilterBlockBuilder)
  : FilterBlockBuilder :=
  match fuel with
  | O => b
  | S fuel =>
      if Z.of_nat (length (filter_offsets_ b)) <? filter_index
      then start_block_loop fuel filter_index (GenerateFilter b)
      else b
  end.

Definition StartBlock (block_offset : Z) (b : FilterBlockBuilder) : FilterBlockBuilder :=
  let filter_index := block_offset / kFilterBase in
  start_block_loop (Z.to_nat filter_index) filter_index b.

Definition AddKey (key : bytes) (b : FilterBlockBuilder) : FilterBlockBuilder :=
  mkFilterBlockBuilder (keys_ b ++ key) (starts_ b ++ [blen (keys_ b)])
    (result_ b) (filter_offsets_ b).

Definition Finish (b : FilterBlockBuilder) : bytes :=
  let b := match starts_ b with [] => b | _ => GenerateFilter b end in
  let array_offset := u32 (blen (result_ b)) in
  let result := fold_left PutFixed32 (filter_offsets_ b) (result_ b) in
  PutFixed32 result array_offset ++ [z2b kFilterBaseLg].

(** ** [FilterBlockReader] *)

Record FilterBlockReader := mkFilterBlockReader {
  data_ : bytes;       (* empty for the null pointer *)
  offset_ : Z;         (* offset_ - data_ *)
  num_ : Z;
  base_lg_ : Z
}.

Definition FilterBlockReader_make (contents : bytes) : FilterBlockReader :=
  let n := blen contents in
  if n <? 5 then mkFilterBlockReader [] 0 0 0
  else
    let base_lg := u64 (schar (byte_at contents (n - 1))) in
    let last_word := DecodeFixed32 (zdrop (n - 5) contents) in
    if n - 5 <? last_word then mkFilterBlockReader [] 0 0 base_lg
    else mkFilterBlockReader contents last_word ((n - 5 - last_word) / 4) base_lg.

Definition FilterBlockReader_KeyMayMatch (r : FilterBlockReader) (block_offset : Z) (key : bytes)
  : bool :=
  let index := Z.shiftr block_offset (base_lg_ r) in
  if index <? num_ r then
    let start := DecodeFixed32 (zdrop (offset_ r + index * 4) (data_ r)) in
    let limit := DecodeFixed32 (zdrop (offset_ r + index * 4 + 4) (data_ r)) in
    if (start <=? limit) && (limit <=? offset_ r) then
      KeyMayMatch policy_ key (ztake (limit - start) (zdrop start (data_ r)))
    else if start =? limit then false
    else true
  else true.

(** ** The builder's state, abstractly

    A builder is determined by the key groups its finished filters were made of
    and the keys pending for the next one. *)

Context {L : FilterPolicyLaws policy_}.

(** The filter of one group; a group without keys has an empty one. *)
Definition group_filter (g : list bytes) : bytes :=
  match g with [] => [] | _ => CreateFilter policy_ g [] end.

Definition filters (gs : list (list bytes)) : bytes := concat (map group_filter gs).

Fixpoint group_offsets (base : Z) (gs : list (list bytes)) : list Z :=
  match gs with
  | [] => []
  | g :: gs => u32 base :: group_offsets (base + blen (group_filter g)) gs
  end.

Fixpoint key_starts (base : Z) (ks : list bytes) : list Z :=
  match ks with
  | [] => []
  | k :: ks => base :: key_starts (base + blen k) ks
  end.

Definition builder_of (gs : list (list bytes)) (cur : list bytes) : FilterBlockBuilder :=
  mkFilterBlockBuilder (concat cur) (key_starts 0 cur) (filters gs) (group_offsets 0 gs).

Lemma key_starts_app base a b :
  key_starts base (a ++ b) = key_starts base a ++ key_starts (base + blen (concat a)) b.
Proof.
  revert base. induction a as [|x a IH]; intros base; cbn [app key_starts concat].
  - by rewrite blen_nil, Z.add_0_r.
  - rewrite IH, blen_app, Z.add_assoc. done.
Qed.

Lemma group_offsets_app base a b :
  group_offsets base (a ++ b)
  = group_offsets base a ++ group_offsets (base + blen (filters a)) b.
Proof.
  revert base. unfold filters. induction a as [|x a IH]; intros base; cbn [app map concat group_offsets].
  - by rewrite blen_nil, Z.add_0_r.
  - rewrite IH, blen_app, Z.add_assoc. done.
Qed.

Lemma length_group_offsets base gs : length (group_offsets base gs) = length gs.
Proof. revert base. induction gs as [|g gs IH]; intros base; cbn; [done|]. by rewrite IH. Qed.

Lemma filters_snoc gs g : filters (gs ++ [g]) = filters gs ++ group_filter g.
Proof. unfold filters. rewrite map_app, concat_app. cbn. by rewrite app_nil_r. Qed.

(** Cutting the flattened keys at their starts gives the keys back. *)
Lemma split_keys_starts p ks :
  split_keys (p ++ concat ks) (key_starts (blen p) ks ++ [blen (p ++ concat ks)]) = ks.
Proof.
  revert p. induction ks as [|k ks IH]; intros p; [done|].
  cbn [concat key_starts app]. rewrite (app_assoc p k), <- (blen_app p k).
  destruct ks as [|k' ks].
  - cbn [key_starts app split_keys concat]. rewrite !app_nil_r, zdrop_app by done.
    f_equal. rewrite ztake_all by (rewrite blen_app; lia). done.
  - specialize (IH (p ++ k)). cbn [key_starts app split_keys] in *. rewrite IH. f_equal.
    rewrite <- app_assoc, zdrop_app by done. rewrite blen_app. apply ztake_app. lia.
Qed.

Lemma key_starts_nil base ks : key_starts base ks = [] -> ks = [].
Proof. by destruct ks. Qed.

Lemma GenerateFilter_of gs cur :
  GenerateFilter (builder_of gs cur) = builder_of (gs ++ [cur]) [].
Proof.
  unfold GenerateFilter, builder_of. cbn [starts_ keys_ result_ filter_offsets_ concat key_starts].
  rewrite filters_snoc, group_offsets_app. cbn [group_offsets].
  destruct (key_starts 0 cur) as [|s0 ss] eqn:Es.
  - apply key_starts_nil in Es as ->. cbn. by rewrite app_nil_r.
  - rewrite <- Es.
    assert (split_keys (concat cur) (key_starts 0 cur ++ [blen (concat cur)]) = cur) as ->
      by exact (split_keys_starts [] cur).
    rewrite create_filter_appends. by destruct cur.
Qed.

Lemma AddKey_of k gs cur : AddKey k (builder_of gs cur) = builder_of gs (cur ++ [k]).
Proof.
  unfold AddKey, builder_of. cbn [starts_ keys_ result_ filter_offsets_].
  rewrite key_starts_app, concat_app. cbn [concat key_starts]. by rewrite app_nil_r.
Qed.

Lemma AddKeys_of ks gs cur :
  fold_left (fun b k => AddKey k b) ks (builder_of gs cur) = builder_of gs (cur ++ ks).
Proof.
  revert cur. induction ks as [|k ks IH]; intros cur.
  - by rewrite app_nil_r.
  - rewrite fold_left_step, AddKey_of, IH, <- app_assoc. done.
Qed.

(** What [StartBlock] does to the groups. *)
Definition start_groups (index : nat) (gs : list (list bytes)) (cur : list bytes)
  : list (list bytes) * list bytes :=
  if decide (length gs < index)%nat
  then (gs ++ cur :: replicate (index - length gs - 1) [], [])
  else (gs, cur).

Lemma start_block_loop_of fuel index gs cur :
  (index - length gs <= fuel)%nat ->
  start_block_loop fuel (Z.of_nat index) (builder_of gs cur)
  = builder_of (fst (start_groups index gs cur)) (snd (start_groups index gs cur)).
Proof.
  revert gs cur. induction fuel as [|fuel IH]; intros gs cur Hf; unfold start_groups.
  { destruct (decide (length gs < index)%nat); [lia|done]. }
  cbn [start_block_loop]. unfold builder_of at 1. cbn [filter_offsets_].
  rewrite length_group_offsets. destruct (decide (length gs < index)%nat) as [Hlt|Hge].
  - destruct (Z.ltb_spec (Z.of_nat (length gs)) (Z.of_nat index)); [|lia].
    rewrite GenerateFilter_of, IH by (rewrite length_app; cbn; lia). unfold start_groups.
    rewrite length_app. cbn [length fst snd].
    destruct (decide (length gs + 1 < index)%nat); cbn [fst snd].
    + rewrite <- app_assoc. cbn [app]. do 3 f_equal.
      replace (index - length gs - 1)%nat with (S (index - (length gs + 1) - 1)) by lia. done.
    + replace (index - length gs - 1)%nat with 0%nat by lia. done.
  - by destruct (Z.ltb_spec (Z.of_nat (length gs)) (Z.of_nat index)); [lia|].
Qed.

(** ** A sequence of calls: blocks, each with its keys *)

Definition add_block (b : FilterBlockBuilder) (blk : Z * list bytes) : FilterBlockBuilder :=
  fold_left (fun b k => AddKey k b) (snd blk) (StartBlock (fst blk) b).

Definition build_filter_block (blocks : list (Z * list bytes)) : bytes :=
  Finish (fold_left add_block blocks FilterBlockBuilder_make).

(** The filter a data block at [off] belongs to. *)
Definition filter_index (off : Z) : nat := Z.to_nat (off / kFilterBase).

Lemma add_block_of gs cur off ks :
  0 <= off ->
  add_block (builder_of gs cur) (off, ks)
  = builder_of (fst (start_groups (filter_index off) gs cur))
               (snd (start_groups (filter_index off) gs cur) ++ ks).
Proof.
  intros Ho. unfold add_block, StartBlock. cbn [fst snd].
  assert (off / kFilterBase = Z.of_nat (filter_index off)) as E.
  { unfold filter_index. rewrite Z2Nat.id; [done|]. apply Z.div_pos; [done|]. by vm_compute. }
  rewrite E, start_block_loop_of by lia. by rewrite AddKeys_of.
Qed.

(** Where the keys of the processed blocks are. *)
Definition covered (gs : list (list bytes)) (cur : list bytes) (off : Z) (k : bytes) : Prop :=
  (exists g, gs !! filter_index off = Some g /\ k ∈ g) \/
  (filter_index off = length gs /\ k ∈ cur).

Lemma start_groups_covered index gs cur off k :
  covered gs cur off k ->
  covered (fst (start_groups index gs cur)) (snd (start_groups index gs cur)) off k.
Proof.
  intros H. unfold start_groups. destruct (decide (length gs < index)%nat); [|done]. cbn [fst snd].
  destruct H as [(g & Hg & Hk)|[Hi Hk]]; left.
  - exists g. split; [|done]. by apply lookup_app_l_Some.
  - exists cur. split; [|done]. rewrite Hi. by apply list_lookup_middle.
Qed.

Lemma start_groups_length index gs cur :
  length (fst (start_groups index gs cur)) = Nat.max index (length gs).
Proof.
  unfold start_groups. destruct (decide (length gs < index)%nat); cbn [fst]; [|lia].
  rewrite length_app. cbn [length]. rewrite length_replicate. lia.
Qed.

Definition total_keys (gs : list (list bytes)) (cur : list bytes) : nat :=
  (length (concat gs) + length cur)%nat.

Lemma start_groups_total index gs cur :
  total_keys (fst (start_groups index gs cur)) (snd (start_groups index gs cur))
  = total_keys gs cur.
Proof.
  unfold start_groups, total_keys. destruct (decide (length gs < index)%nat); [|done].
  cbn [fst snd]. rewrite concat_app. cbn [concat length]. rewrite !length_app.
  assert (concat (replicate (index - length gs - 1) ([] : list bytes)) = []) as ->.
  { induction (index - length gs - 1)%nat as [|n IH]; [done|]. by cbn. }
  cbn. lia.
Qed.

Lemma filter_index_mono a b : a <= b -> (filter_index a <= filter_index b)%nat.
Proof.
  intros H. unfold filter_index.
  assert (a / kFilterBase <= b / kFilterBase) by (apply Z.div_le_mono; [by vm_compute|done]). lia.
Qed.

(** The builder after a sequence of blocks at non-decreasing offsets. *)
Lemma add_blocks_of blocks gs cur :
  Forall (fun blk => 0 <= fst blk) blocks ->
  Sorted (fun b1 b2 => fst b1 <= fst b2) blocks ->
  (forall b, head blocks = Some b -> (length gs <= filter_index (fst b))%nat) ->
  exists gs' cur',
    fold_left add_block blocks (builder_of gs cur) = builder_of gs' cur' /\
    total_keys gs' cur' = (total_keys gs cur + length (concat (map snd blocks)))%nat /\
    (forall off k, covered gs cur off k -> covered gs' cur' off k) /\
    (forall off ks k, (off, ks) ∈ blocks -> k ∈ ks -> covered gs' cur' off k).
Proof.
  revert gs cur. induction blocks as [|[off ks] blocks IH]; intros gs cur Hpos Hsort Hhd.
  { exists gs, cur. cbn [fold_left map concat length]. split_and!; [done|lia|done|].
    intros off ks k Hin. by apply elem_of_nil in Hin. }
  inversion_clear Hpos as [|? ? H0 Hpos']. apply Sorted_inv in Hsort as [Hsort' Hhd'].
  rewrite fold_left_step, add_block_of by done.
  set (gs1 := fst (start_groups (filter_index off) gs cur)).
  set (cur1 := snd (start_groups (filter_index off) gs cur)).
  assert (length gs1 = filter_index off) as Hl1.
  { unfold gs1. rewrite start_groups_length. specialize (Hhd (off, ks) eq_refl). cbn in Hhd. lia. }
  destruct (IH gs1 (cur1 ++ ks)) as (gs' & cur' & E & Ht & Hold & Hnew); [done|done| |].
  { intros b Hb. destruct blocks as [|b' bs]; [done|]. injection Hb as ->.
    inversion_clear Hhd' as [|? ? Hle]. cbn in Hle. rewrite Hl1. by apply filter_index_mono. }
  exists gs', cur'. split_and!.
  - done.
  - rewrite Ht. cbn [map concat snd]. rewrite length_app.
    pose proof (start_groups_total (filter_index off) gs cur) as Hst.
    fold gs1 cur1 in Hst. unfold total_keys in *. rewrite length_app. lia.
  - intros off' k Hc. apply Hold. apply (start_groups_covered (filter_index off)) in Hc.
    fold gs1 cur1 in Hc. destruct Hc as [?|[? ?]]; [by left|right]. split; [done|].
    apply elem_of_app. by left.
  - intros off' ks' k [E'|Hin]%elem_of_cons Hk; [|by apply (Hnew off' ks' k)].
    injection E' as -> ->. apply Hold. right. split; [done|]. apply elem_of_app. by right.
Qed.
(** ** The finished block *)

(** The offset array with the offset of the array itself, which ends the last
    filter. *)
Definition offset_words (gs : list (list bytes)) : list Z :=
  group_offsets 0 gs ++ [u32 (blen (filters gs))].

Lemma filters_app a b : filters (a ++ b) = filters a ++ filters b.
Proof. unfold filters. by rewrite map_app, concat_app. Qed.

Lemma offset_words_lookup gs i :
  (i <= length gs)%nat -> offset_words gs !! i = Some (u32 (blen (filters (take i gs)))).
Proof.
  intros Hi. unfold offset_words. destruct (decide (i = length gs)) as [->|Hn].
  - rewrite take_ge by lia. rewrite <- (length_group_offsets 0 gs). apply list_lookup_middle. done.
  - rewrite lookup_app_l by (rewrite length_group_offsets; lia).
    rewrite <- (take_drop i gs) at 1. rewrite group_offsets_app.
    rewrite lookup_app_r by (rewrite length_group_offsets, length_take; lia).
    rewrite length_group_offsets, length_take, Nat.min_l, Nat.sub_diag by lia.
    destruct (drop i gs) as [|g rest] eqn:E.
    + apply (f_equal length) in E. rewrite length_drop in E. cbn in E. lia.
    + done.
Qed.

(** The groups once the pending keys are flushed. *)
Definition final_groups (gs : list (list bytes)) (cur : list bytes) : list (list bytes) :=
  match cur with [] => gs | _ => gs ++ [cur] end.

Lemma Finish_of gs cur :
  let gf := final_groups gs cur in
  Finish (builder_of gs cur) = filters gf ++ encode_words (offset_words gf) ++ [z2b kFilterBaseLg].
Proof.
  cbv zeta. unfold Finish.
  assert ((match starts_ (builder_of gs cur) with [] => builder_of gs cur
           | _ => GenerateFilter (builder_of gs cur) end)
          = builder_of (final_groups gs cur) []) as ->.
  { destruct cur as [|k cur]; [done|]. cbn [builder_of starts_ key_starts final_groups].
    exact (GenerateFilter_of gs (k :: cur)). }
  set (gf := final_groups gs cur). cbn [builder_of result_ filter_offsets_].
  rewrite fold_PutFixed32. unfold PutFixed32, offset_words. rewrite encode_words_app.
  cbn [encode_words map concat]. by rewrite app_nil_r, <- !app_assoc.
Qed.

(** The reader's view of a finished block. *)
Lemma reader_of gf :
  blen (filters gf) < 2 ^ 32 ->
  FilterBlockReader_make (filters gf ++ encode_words (offset_words gf) ++ [z2b kFilterBaseLg])
  = mkFilterBlockReader (filters gf ++ encode_words (offset_words gf) ++ [z2b kFilterBaseLg])
      (blen (filters gf)) (Z.of_nat (length gf)) kFilterBaseLg.
Proof.
  intros Hs. unfold FilterBlockReader_make.
  set (R := filters gf) in *. set (ws := offset_words gf).
  assert (length ws = S (length gf)) as Hl.
  { unfold ws, offset_words. rewrite length_app, length_group_offsets. cbn. lia. }
  pose proof (blen_nonneg R) as HR.
  assert (blen (R ++ encode_words ws ++ [z2b kFilterBaseLg])
          = blen R + 4 * Z.of_nat (length gf) + 5) as Hn.
  { rewrite !blen_app, blen_encode_words, blen_cons, blen_nil. lia. }
  rewrite Hn. destruct (Z.ltb_spec (blen R + 4 * Z.of_nat (length gf) + 5) 5); [lia|].
  assert (byte_at (R ++ encode_words ws ++ [z2b kFilterBaseLg])
            (blen R + 4 * Z.of_nat (length gf) + 5 - 1) = z2b kFilterBaseLg) as ->.
  { rewrite app_assoc. apply byte_at_last. rewrite blen_app, blen_encode_words. lia. }
  assert (DecodeFixed32 (zdrop (blen R + 4 * Z.of_nat (length gf) + 5 - 5)
            (R ++ encode_words ws ++ [z2b kFilterBaseLg])) = blen R) as ->.
  { rewrite zdrop_app_ge by lia.
    replace (blen R + 4 * Z.of_nat (length gf) + 5 - 5 - blen R) with (Z.of_nat (length gf) * 4) by lia.
    rewrite (DecodeFixed32_words ws (length gf) (u32 (blen R))).
    - rewrite !u32_small; rewrite ?u32_small; lia.
    - unfold ws. rewrite offset_words_lookup by lia. by rewrite take_ge. }
  destruct (Z.ltb_spec (blen R + 4 * Z.of_nat (length gf) + 5 - 5) (blen R)); [lia|]. f_equal.
  replace (blen R + 4 * Z.of_nat (length gf) + 5 - 5 - blen R) with (Z.of_nat (length gf) * 4) by lia.
  apply Z.div_mul. lia.
Qed.

(** Looking up a group's filter. *)
Lemma reader_match gf i g k :
  blen (filters gf) < 2 ^ 32 -> gf !! i = Some g -> k ∈ g -> Z.of_nat (length g) < 2 ^ 31 ->
  forall off, Z.shiftr off kFilterBaseLg = Z.of_nat i ->
  FilterBlockReader_KeyMayMatch
    (mkFilterBlockReader (filters gf ++ encode_words (offset_words gf) ++ [z2b kFilterBaseLg])
       (blen (filters gf)) (Z.of_nat (length gf)) kFilterBaseLg) off k = true.
Proof.
  intros Hs Hi Hk Hlen off Ho. unfold FilterBlockReader_KeyMayMatch.
  cbn [data_ offset_ num_ base_lg_]. rewrite Ho. pose proof (lookup_lt_Some _ _ _ Hi).
  destruct (Z.ltb_spec (Z.of_nat i) (Z.of_nat (length gf))); [|lia].
  set (ws := offset_words gf). set (R := filters gf) in *. pose proof (blen_nonneg R).
  assert (R = filters (take i gf) ++ group_filter g ++ filters (drop (S i) gf)) as ER.
  { unfold R. rewrite <- (take_drop_middle gf i g Hi) at 1. rewrite filters_app. done. }
  assert (filters (take (S i) gf) = filters (take i gf) ++ group_filter g) as ES.
  { rewrite (take_S_r gf i g Hi). apply filters_snoc. }
  set (P := filters (take i gf)) in *. set (F := group_filter g) in *.
  set (Q := filters (drop (S i) gf)) in *.
  assert (blen R = blen P + blen F + blen Q) as Hb by (rewrite ER, !blen_app; lia).
  pose proof (blen_nonneg P). pose proof (blen_nonneg F). pose proof (blen_nonneg Q).
  rewrite (zdrop_app_ge (blen R + Z.of_nat i * 4)), (zdrop_app_ge (blen R + Z.of_nat i * 4 + 4)) by lia.
  replace (blen R + Z.of_nat i * 4 - blen R) with (Z.of_nat i * 4) by lia.
  replace (blen R + Z.of_nat i * 4 + 4 - blen R) with (Z.of_nat (S i) * 4) by lia.
  rewrite (DecodeFixed32_words ws i (u32 (blen P)))
    by (unfold ws; rewrite offset_words_lookup by lia; done).
  rewrite (DecodeFixed32_words ws (S i) (u32 (blen (P ++ F))))
    by (unfold ws; rewrite offset_words_lookup by lia; by rewrite ES).
  rewrite blen_app. rewrite !u32_small; rewrite ?u32_small; try lia.
  destruct (Z.leb_spec (blen P) (blen P + blen F)); [|lia].
  destruct (Z.leb_spec (blen P + blen F) (blen R)); [|lia]. cbn [andb].
  rewrite ER, <- app_assoc, zdrop_app by done. rewrite <- app_assoc, ztake_app by lia.
  unfold F, group_filter. destruct g as [|k0 g]; [by apply elem_of_nil in Hk|].
  by apply create_filter_matches.
Qed.

Lemma covered_final gs cur off k :
  covered gs cur off k -> exists g, final_groups gs cur !! filter_index off = Some g /\ k ∈ g.
Proof.
  intros [(g & Hg & Hk)|[Hi Hk]].
  - exists g. split; [|done]. destruct cur; [done|]. by apply lookup_app_l_Some.
  - exists cur. split; [|done]. destruct cur; [by apply elem_of_nil in Hk|].
    rewrite Hi. by apply list_lookup_middle.
Qed.

Lemma group_length gs cur i g :
  final_groups gs cur !! i = Some g -> (length g <= total_keys gs cur)%nat.
Proof.
  intros Hg. unfold total_keys.
  assert (length (concat (final_groups gs cur)) = length (concat gs) + length cur)%nat as <-.
  { destruct cur; cbn [final_groups]; [cbn; lia|]. rewrite concat_app, length_app. cbn. rewrite app_nil_r. lia. }
  rewrite <- (take_drop_middle _ i g Hg). rewrite concat_app. cbn [concat]. rewrite !length_app. lia.
Qed.

Lemma shiftr_filter_index off : 0 <= off -> Z.shiftr off kFilterBaseLg = Z.of_nat (filter_index off).
Proof.
  intros Ho. unfold filter_index. rewrite Z2Nat.id.
  - by rewrite Z.shiftr_div_pow2.
  - apply Z.div_pos; [done|]. by vm_compute.
Qed.

(** ** Size of a filter block *)

Lemma add_blocks_length blocks gs cur n :
  Forall (fun blk => 0 <= fst blk) blocks ->
  Forall (fun blk => (filter_index (fst blk) <= n)%nat) blocks -> (length gs <= n)%nat ->
  exists gs' cur', fold_left add_block blocks (builder_of gs cur) = builder_of gs' cur' /\
    (length gs' <= n)%nat /\
    total_keys gs' cur' = (total_keys gs cur + length (concat (map snd blocks)))%nat.
Proof.
  revert gs cur. induction blocks as [|[off ks] blocks IH]; intros gs cur Hpos Hn Hl.
  { exists gs, cur. cbn. split_and!; [done|done|lia]. }
  inversion_clear Hpos as [|? ? H0 Hpos']. inversion_clear Hn as [|? ? Hn0 Hn'].
  rewrite fold_left_step, add_block_of by done.
  edestruct IH as (gs' & cur' & E & Hl' & Ht); [exact Hpos'|exact Hn'| |rewrite E; exists gs', cur'].
  - rewrite start_groups_length. cbn in Hn0 |- *. lia.
  - split_and!; [done|done|]. rewrite Ht. cbn [map concat snd]. rewrite length_app.
    pose proof (start_groups_total (filter_index off) gs cur) as Hst. unfold total_keys in *.
    rewrite length_app. cbn in *. lia.
Qed.

Lemma filters_size k gs :
  0 <= k -> (forall ks, blen (CreateFilter policy_ ks []) <= k * (1 + Z.of_nat (length ks))) ->
  blen (filters gs) <= 2 * k * Z.of_nat (length (concat gs)).
Proof.
  intros Hk Hf. induction gs as [|g gs IH]; [change (blen (filters [])) with 0; cbn [concat length]; lia|]. unfold filters in *. cbn [map concat].
  rewrite blen_app, length_app. pose proof (Hf g). unfold group_filter at 1.
  destruct g as [|x g]; [rewrite blen_nil; cbn [length]; lia|]. cbn [length] in *. nia.
Qed.

(** With filters of at most [k] bytes per key, and one more for a filter. *)
Lemma filter_block_size k blocks max :
  0 <= k -> (forall ks, blen (CreateFilter policy_ ks []) <= k * (1 + Z.of_nat (length ks))) ->
  Forall (fun blk => 0 <= fst blk <= max) blocks -> 0 <= max ->
  blen (build_filter_block blocks) <=
    2 * k * Z.of_nat (length (concat (map snd blocks))) + 4 * (max / kFilterBase + 2) + 1.
Proof.
  intros Hk Hf Hb Hm. unfold build_filter_block.
  destruct (add_blocks_length blocks [] [] (filter_index max)) as (gs & cur & E & Hl & Ht).
  { eapply Forall_impl; [exact Hb|]. cbn. lia. }
  { eapply Forall_impl; [exact Hb|]. cbn. intros [off ks] Ho. cbn in *. apply filter_index_mono. lia. }
  { cbn. lia. }
  change (builder_of [] []) with FilterBlockBuilder_make in E. rewrite E, Finish_of. cbv zeta.
  pose proof (filters_size k (final_groups gs cur) Hk Hf) as Hs.
  assert (length (concat (final_groups gs cur)) = total_keys gs cur) as Hc.
  { unfold final_groups, total_keys. destruct cur; [cbn; lia|].
    rewrite concat_app, length_app. cbn. rewrite app_nil_r. done. }
  assert (length (final_groups gs cur) <= S (length gs))%nat as Hlf.
  { unfold final_groups. destruct cur; [lia|]. rewrite length_app. cbn. lia. }
  unfold offset_words. rewrite !blen_app, blen_encode_words, length_app, length_group_offsets.
  rewrite Hc, Ht in Hs. cbn [length total_keys] in Hs. unfold total_keys in Hs. cbn [concat length] in Hs.
  rewrite !blen_cons, blen_nil. cbn [length]. unfold filter_index in Hl.
  pose proof (Z.div_pos max kFilterBase Hm eq_refl). lia.
Qed.

Lemma filter_block_match blocks off ks k :
  Forall (fun blk => 0 <= fst blk) blocks ->
  Sorted (fun b1 b2 => fst b1 <= fst b2) blocks ->
  Z.of_nat (length (concat (map snd blocks))) < 2 ^ 31 ->
  blen (build_filter_block blocks) < 2 ^ 32 ->
  (off, ks) ∈ blocks -> k ∈ ks ->
  FilterBlockReader_KeyMayMatch (FilterBlockReader_make (build_filter_block blocks)) off k = true.
Proof.
  intros Hpos Hsort Hnum Hsize Hin Hk. unfold build_filter_block in *.
  destruct (add_blocks_of blocks [] [] Hpos Hsort) as (gs & cur & E & Ht & _ & Hc).
  { intros b _. cbn. lia. }
  change (builder_of [] []) with FilterBlockBuilder_make in E.
  rewrite E, Finish_of in *. cbv zeta in *.
  destruct (covered_final gs cur off k (Hc off ks k Hin Hk)) as (g & Hg & Hkg).
  apply group_length in Hg as Hlen. cbn in Ht.
  set (gf := final_groups gs cur) in *.
  assert (blen (filters gf) < 2 ^ 32) as Hf.
  { rewrite blen_app in Hsize. pose proof (blen_nonneg (encode_words (offset_words gf) ++ [z2b kFilterBaseLg])). lia. }
  rewrite reader_of by done.
  apply (reader_match gf (filter_index off) g); [done|done|done|lia|].
  apply shiftr_filter_index. rewrite Forall_forall in Hpos. exact (Hpos (off, ks) Hin).
Qed.

(** C36: A filter block built from data blocks at non-decreasing offsets has no
    false negatives: looking up a key under the offset of the data block it was
    added with never answers "no", for every filter policy that keeps the
    contract of [FilterPolicy]. *)
Theorem filter_block_no_false_negatives blocks off ks k :
  Forall (fun blk => 0 <= fst blk) blocks ->
  Sorted (fun b1 b2 => fst b1 <= fst b2) blocks ->
  Z.of_nat (length (concat (map snd blocks))) < 2 ^ 31 ->
  blen (build_filter_block blocks) < 2 ^ 32 ->
  (off, ks) ∈ blocks -> k ∈ ks ->
  FilterBlockReader_KeyMayMatch (FilterBlockReader_make (build_filter_block blocks)) off k = true.
Proof. apply filter_block_match. Qed.

End FilterBlock.

(** The theorem for the filter policy the database uses, on two data blocks that
    start in different two-kilobyte ranges. *)
Lemma filter_block_no_false_negatives_witness :
  FilterBlockReader_KeyMayMatch (NewBloomFilterPolicy 10)
    (FilterBlockReader_make
       (build_filter_block (NewBloomFilterPolicy 10)
          [(0, [str "a"; str "b"]); (5000, [str "c"])])) 5000 (str "c") = true.
Proof.
  refine (@filter_block_no_false_negatives (NewBloomFilterPolicy 10)
            (BloomFilterPolicy_laws 10 _) [(0, [str "a"; str "b"]); (5000, [str "c"])]
            5000 [str "c"] (str "c") _ _ _ _ _ _).
  - lia.
  - repeat constructor; cbn; lia.
  - repeat constructor; cbn; lia.
  - by vm_compute.
  - by vm_compute.
  - apply elem_of_cons. right. by apply list_elem_of_singleton.
  - by apply list_elem_of_singleton.
Defined.
