(* ===== verification/Random.v ===== *)
(** * The pseudo-random generator

    [util/random.h]: the multiplicative generator modulo [2^31 - 1] behind the
    skip list's tower heights, with its division-free reduction. *)

From S2P Require Import Prelude.

Definition random_M : Z := 2147483647.
Definition random_A : Z := 16807.

(** [Random(s)]: the initial [seed_]. *)
Definition Random_make (s : Z) : Z :=
  let seed := Z.land s 0x7fffffff in
  if (seed =? 0) || (seed =? 2147483647) then 1 else seed.

(** [Next()]: the new [seed_], which is also the result. *)
Definition Random_Next (seed_ : Z) : Z :=
  let product := u64 (seed_ * random_A) in
  let seed := u32 (Z.shiftr product 31 + Z.land product random_M) in
  if random_M <? seed then seed - random_M else seed.

(** [Uniform(n)], [OneIn(n)] and [Skewed(max_log)], with the new state. *)
Definition Uniform (seed_ n : Z) : Z * Z :=
  let seed := Random_Next seed_ in (seed mod n, seed).

Definition OneIn (seed_ n : Z) : bool * Z :=
  let seed := Random_Next seed_ in (seed mod n =? 0, seed).

Definition Skewed (seed_ max_log : Z) : Z * Z :=
  let '(base, seed) := Uniform seed_ (max_log + 1) in
  Uniform seed (Z.shiftl 1 base).

(** The states the generator can be in. *)
Definition seed_ok (seed : Z) : Prop := 1 <= seed < random_M.

Lemma Random_make_ok s : 0 <= s < 2 ^ 32 -> seed_ok (Random_make s).
Proof.
  intros Hs. unfold seed_ok, Random_make. change (Z.land s _) with (Z.land s (Z.ones 31)).
  rewrite Z.land_ones by lia. pose proof (Z.mod_pos_bound s (2 ^ 31) ltac:(lia)).
  unfold random_M. destruct (Z.eqb_spec (s mod 2 ^ 31) 0); [cbn; lia|].
  destruct (Z.eqb_spec (s mod 2 ^ 31) 2147483647); cbn [orb]; lia.
Qed.

(** The product is not a multiple of the modulus, as the two are coprime. *)
Lemma product_mod_nonzero seed : seed_ok seed -> (seed * random_A) mod random_M <> 0.
Proof.
  intros [H1 H2] E. apply Z.mod_divide in E; [|done].
  rewrite Z.mul_comm in E. apply Z.gauss in E; [|done]. apply Z.divide_pos_le in E; lia.
Qed.

Lemma Random_Next_spec seed :
  seed_ok seed ->
  Random_Next seed = (seed * random_A) mod random_M /\ seed_ok (Random_Next seed).
Proof.
  intros Hok. pose proof (product_mod_nonzero seed Hok) as Hnz. destruct Hok as [H1 H2].
  unfold random_M in H2.
  assert (0 <= seed * random_A < 2 ^ 31 * random_A) by (unfold random_A; lia).
  set (p := seed * random_A) in *.
  assert (Random_Next seed = p mod random_M) as ->.
  { unfold Random_Next. fold p. rewrite u64_small by (unfold random_A in *; lia).
    change (Z.land p random_M) with (Z.land p (Z.ones 31)).
    rewrite Z.land_ones, Z.shiftr_div_pow2 by lia.
    pose proof (Z.div_mod p (2 ^ 31) ltac:(lia)) as E.
    set (hi := p / 2 ^ 31) in *. set (lo := p mod 2 ^ 31) in *.
    assert (0 <= lo < 2 ^ 31) by (apply Z.mod_pos_bound; lia).
    assert (0 <= hi < random_A) by (split; [apply Z.div_pos|apply Z.div_lt_upper_bound]; lia).
    unfold random_A in *.
    rewrite u32_small by lia.
    assert (p mod random_M = (hi + lo) mod random_M) as Em.
    { rewrite E. replace (2 ^ 31 * hi + lo) with (hi + lo + hi * random_M) by (unfold random_M; lia).
      by rewrite Z.mod_add. }
    rewrite Em in *. unfold random_M in *. destruct (Z.ltb_spec 2147483647 (hi + lo)).
    - apply (Z.mod_unique _ _ 1); lia.
    - destruct (Z.eq_dec (hi + lo) 2147483647) as [E'|]; [by rewrite E' in Hnz|].
      rewrite Z.mod_small; lia. }
  split; [done|]. pose proof (Z.mod_pos_bound p random_M ltac:(done)).
  unfold seed_ok. lia.
Qed.

(** C40: The generator computes [seed * 16807 mod (2^31 - 1)] exactly, without
    division, from every state it can be in, and stays in those states. *)
Theorem Random_Next_mod seed :
  seed_ok seed ->
  Random_Next seed = (seed * random_A) mod random_M /\ seed_ok (Random_Next seed).
Proof. exact (Random_Next_spec seed). Qed.

Lemma Random_Next_mod_witness : Random_Next 3 = (3 * random_A) mod random_M /\ seed_ok (Random_Next 3).
Proof. apply (Random_Next_mod 3). unfold seed_ok, random_M. lia. Defined.

(** No two numbers in a row are multiples of [2^21]. *)
Lemma Random_Next_not_stuck seed :
  seed_ok seed -> seed mod 2 ^ 21 = 0 -> Random_Next seed mod 2 ^ 21 <> 0.
Proof.
  intros Hok Hz. rewrite (proj1 (Random_Next_spec seed Hok)).
  destruct Hok as [H1 H2]. unfold random_M, random_A in *.
  pose proof (Z.div_mod seed (2 ^ 21) ltac:(lia)) as E. set (t := seed / 2 ^ 21) in *.
  assert (1 <= t < 1024) by lia.
  pose proof (Z.div_mod (t * 16807) 1024 ltac:(lia)) as Et. set (a := t * 16807 / 1024) in *.
  pose proof (Z.mod_pos_bound (t * 16807) 1024 ltac:(lia)). set (b := (t * 16807) mod 1024) in *.
  assert (16 <= a < 16807) by lia.
  assert ((seed * 16807) mod 2147483647 = a + 2 ^ 21 * b) as ->.
  { symmetry. apply (Z.mod_unique _ _ a); lia. }
  rewrite Z.mul_comm, Z.mod_add by lia. rewrite Z.mod_small; lia.
Qed.
