(* ===== verification/Arena.v ===== *)
(** * The arena

    [class Arena] of [util/arena.h] and [util/arena.cc]: memory handed out from
    blocks of 4096 bytes, never returned before the arena dies.  A pointer is a
    block and an offset in it; blocks start at addresses that are multiples of 8, as
    [new char[]] guarantees, so the alignment of a pointer is that of its offset.
    Sizes are not bounded by the width of [size_t]. *)

From S2P Require Import Prelude.

Definition kArenaBlockSize : Z := 4096.
Definition align : Z := 8.

(** [alloc_ptr_] is [None] while it is null. *)
Record Arena := mkArena {
  alloc_ptr_ : option (nat * Z);
  alloc_bytes_remaining_ : Z;
  arena_blocks_ : list Z;
  memory_usage_ : Z
}.

Definition Arena_make : Arena := mkArena None 0 [] 0.

Section Arena.

Implicit Types a : Arena.

Definition MemoryUsage a : Z := memory_usage_ a.

Definition AllocateNewBlock a (block_bytes : Z) : (nat * Z) * Arena :=
  ((length (arena_blocks_ a), 0),
   mkArena (alloc_ptr_ a) (alloc_bytes_remaining_ a) (arena_blocks_ a ++ [block_bytes]) (memory_usage_ a + (block_bytes + 8))).

Definition AllocateFallback a (bytes : Z) : (nat * Z) * Arena :=
  if kArenaBlockSize / 4 <? bytes then AllocateNewBlock a bytes
  else
    let '(p, a) := AllocateNewBlock a kArenaBlockSize in
    (p, mkArena (Some (fst p, snd p + bytes)) (kArenaBlockSize - bytes) (arena_blocks_ a) (memory_usage_ a)).

(** [None] is the failed assertion [bytes > 0], or a null [alloc_ptr_] used. *)
Definition Allocate a (bytes : Z) : option ((nat * Z) * Arena) :=
  if negb (0 <? bytes) then None
  else if bytes <=? alloc_bytes_remaining_ a then
    p ← alloc_ptr_ a;
    Some (p, mkArena (Some (fst p, snd p + bytes)) (alloc_bytes_remaining_ a - bytes) (arena_blocks_ a) (memory_usage_ a))
  else Some (AllocateFallback a bytes).

Definition AllocateAligned a (bytes : Z) : option ((nat * Z) * Arena) :=
  let current_mod := match alloc_ptr_ a with Some p => Z.land (snd p) (align - 1) | None => 0 end in
  let slop := if current_mod =? 0 then 0 else align - current_mod in
  let needed := bytes + slop in
  '(result, a) ←
    (if needed <=? alloc_bytes_remaining_ a then
       p ← alloc_ptr_ a;
       Some ((fst p, snd p + slop),
             mkArena (Some (fst p, snd p + needed)) (alloc_bytes_remaining_ a - needed) (arena_blocks_ a) (memory_usage_ a))
     else Some (AllocateFallback a bytes));
  if negb (Z.land (snd result) (align - 1) =? 0) then None else Some (result, a).

(** ** Requests *)

Inductive Request := RBytes (n : Z) | RAligned (n : Z).

Definition serve a (r : Request) : option ((nat * Z) * Arena) :=
  match r with RBytes n => Allocate a n | RAligned n => AllocateAligned a n end.
Definition request_size (r : Request) : Z := match r with RBytes n => n | RAligned n => n end.

Fixpoint serve_all a (rs : list Request) : option (list (nat * Z) * Arena) :=
  match rs with
  | [] => Some ([], a)
  | r :: rs => '(p, a) ← serve a r; '(ps, a) ← serve_all a rs; Some (p :: ps, a)
  end.

(** ** Regions *)

(** The bytes from [p] on, [n] of them. *)
Definition region : Type := (nat * Z) * Z.

Definition in_block (blocks : list Z) (x : region) : Prop :=
  exists size, blocks !! fst (fst x) = Some size /\ 0 <= snd (fst x) /\ snd (fst x) + snd x <= size.

Definition apart (x y : region) : Prop :=
  fst (fst x) <> fst (fst y) \/ snd (fst x) + snd x <= snd (fst y) \/ snd (fst y) + snd y <= snd (fst x).

(** The free part of the current block. *)
Definition free_region a : option region := (fun p => (p, alloc_bytes_remaining_ a)) <$> alloc_ptr_ a.

Record arena_ok a (used : list region) : Prop := {
  ar_remaining : 0 <= alloc_bytes_remaining_ a;
  ar_null : alloc_ptr_ a = None -> alloc_bytes_remaining_ a = 0;
  ar_free x : free_region a = Some x -> in_block (arena_blocks_ a) x /\ Forall (apart x) used;
  ar_used : Forall (in_block (arena_blocks_ a)) used;
  ar_usage : memory_usage_ a = fold_right Z.add 0 (map (fun n => n + 8) (arena_blocks_ a))
}.

Lemma arena_make_ok : arena_ok Arena_make [].
Proof. by split. Qed.

Lemma in_block_app blocks b x : in_block blocks x -> in_block (blocks ++ [b]) x.
Proof. intros (size & H & ?). exists size. split; [|done]. by apply lookup_app_l_Some. Qed.

Lemma apart_new blocks x n off : in_block blocks x -> apart x ((length blocks, off), n) /\ apart ((length blocks, off), n) x.
Proof. intros (size & H & _). apply lookup_lt_Some in H. unfold apart. cbn. split; left; lia. Qed.

Lemma usage_app l b : fold_right Z.add 0 (map (fun n => n + 8) (l ++ [b])) = fold_right Z.add 0 (map (fun n => n + 8) l) + (b + 8).
Proof. induction l as [|x l IH]; cbn; [lia|]. cbn in IH. lia. Qed.

(** A request that starts a block of its own, or a new current block. *)
Lemma AllocateFallback_ok a used n p a' :
  arena_ok a used -> 0 <= n -> AllocateFallback a n = (p, a') ->
  arena_ok a' ((p, n) :: used) /\ Forall (apart (p, n)) used /\ snd p = 0.
Proof.
  intros [H1 H2 H3 H4 H5] Hn. unfold AllocateFallback, AllocateNewBlock.
  assert (Hap : forall b, Forall (apart ((length (arena_blocks_ a), 0), b)) used).
  { intros b. eapply Forall_impl; [exact H4|]. intros x Hx. by apply (apart_new (arena_blocks_ a) x b 0). }
  assert (Hin : forall b, n <= b -> in_block (arena_blocks_ a ++ [b]) ((length (arena_blocks_ a), 0), n)).
  { intros b Hb. exists b. cbn. split; [by rewrite list_lookup_middle|]. lia. }
  assert (Hall : forall b, Forall (in_block (arena_blocks_ a ++ [b])) used).
  { intros b. eapply Forall_impl; [exact H4|]. intros x Hx. by apply in_block_app. }
  destruct (Z.ltb_spec (kArenaBlockSize / 4) n) as [Hbig|Hsmall]; intros [= <- <-]; (split; [|by split]); split; cbn [alloc_bytes_remaining_ alloc_ptr_ arena_blocks_ memory_usage_ free_region fst snd]; try done.
  - intros x Hx. destruct (H3 x Hx) as [I1 I2]. split; [by apply in_block_app|]. constructor; [|done].
    by apply (apart_new (arena_blocks_ a) x n 0).
  - constructor; [by apply Hin|apply Hall].
  - by rewrite usage_app, H5.
  - change (kArenaBlockSize / 4) with 1024 in Hsmall. unfold kArenaBlockSize. lia.
  - intros x [= <-]. split.
    + exists kArenaBlockSize. cbn. split; [by rewrite list_lookup_middle|]. lia.
    + constructor; [right; right; cbn; lia|]. eapply Forall_impl; [exact H4|]. intros x Hx. destruct Hx as (size & Hx & _).
      apply lookup_lt_Some in Hx. left. cbn. lia.
  - constructor; [|apply Hall]. apply Hin. change (kArenaBlockSize / 4) with 1024 in Hsmall. unfold kArenaBlockSize. lia.
  - by rewrite usage_app, H5.
Qed.

(** A request served from the current block, [slop] bytes in. *)
Lemma bump_ok a used p slop n :
  arena_ok a used -> alloc_ptr_ a = Some p -> 0 <= slop -> 0 <= n -> n + slop <= alloc_bytes_remaining_ a ->
  arena_ok (mkArena (Some (fst p, snd p + (n + slop))) (alloc_bytes_remaining_ a - (n + slop)) (arena_blocks_ a) (memory_usage_ a))
    (((fst p, snd p + slop), n) :: used) /\ Forall (apart ((fst p, snd p + slop), n)) used.
Proof.
  intros [H1 H2 H3 H4 H5] Hp Hs Hn Hle. destruct (H3 (p, alloc_bytes_remaining_ a)) as [(size & I1 & I2 & I3) I4]; [unfold free_region; by rewrite Hp|].
  cbn [fst snd] in *. assert (Hap : forall off m, snd p <= off -> off + m <= snd p + alloc_bytes_remaining_ a -> Forall (apart ((fst p, off), m)) used).
  { intros off m Ho Hm. eapply Forall_impl; [exact I4|]. unfold apart. intros x Hx. cbn in *. lia. }
  split; [|apply Hap; lia]. split; cbn [alloc_bytes_remaining_ alloc_ptr_ arena_blocks_ memory_usage_ free_region]; try done; [lia| |].
  - intros x [= <-]. split; [exists size; cbn; split; [done|lia]|]. constructor; [right; right; cbn; lia|]. apply Hap; lia.
  - constructor; [|done]. exists size. cbn. split; [done|lia].
Qed.

Lemma land_align n : Z.land n (align - 1) = n mod 8.
Proof. unfold align. change (8 - 1) with (Z.ones 3). by rewrite Z.land_ones by lia. Qed.

Lemma serve_ok a used r :
  arena_ok a used -> 0 < request_size r ->
  exists p a', serve a r = Some (p, a') /\ arena_ok a' ((p, request_size r) :: used) /\ Forall (apart (p, request_size r)) used /\
    match r with RAligned _ => snd p mod 8 = 0 | RBytes _ => True end.
Proof.
  intros Hok Hr. destruct r as [n|n]; cbn [serve request_size] in *.
  - unfold Allocate. rewrite (proj2 (Z.ltb_lt 0 n) Hr). cbn [negb]. destruct (Z.leb_spec n (alloc_bytes_remaining_ a)) as [Hle|Hgt].
    + destruct (alloc_ptr_ a) as [p|] eqn:Ep; [|pose proof (ar_null _ _ Hok Ep); lia]. cbn [mbind option_bind].
      destruct (bump_ok a used p 0 n Hok Ep) as [B1 B2]; [lia..|]. rewrite !Z.add_0_r in *. destruct p as [b o]. cbn [fst snd] in *.
      eexists _, _. by split.
    + destruct (AllocateFallback a n) as [p a'] eqn:E. destruct (AllocateFallback_ok a used n p a' Hok ltac:(lia) E) as (F1 & F2 & _).
      eexists _, _. by split.
  - unfold AllocateAligned. set (m := match alloc_ptr_ a with Some p => _ | None => 0 end).
    set (slop := if m =? 0 then 0 else align - m).
    assert (Hm : 0 <= m < 8 /\ match alloc_ptr_ a with Some p => m = snd p mod 8 | None => m = 0 end).
    { unfold m. destruct (alloc_ptr_ a) as [p|]; [|lia]. rewrite land_align. pose proof (Z.mod_pos_bound (snd p) 8). lia. }
    assert (Hslop : 0 <= slop /\ (m + slop) mod 8 = 0).
    { unfold slop, align. destruct (Z.eqb_spec m 0) as [E|]; [by rewrite E|]. replace (m + (8 - m)) with 8 by lia. split; [lia|done]. }
    destruct (Z.leb_spec (n + slop) (alloc_bytes_remaining_ a)) as [Hle|Hgt].
    + destruct (alloc_ptr_ a) as [p|] eqn:Ep; [|pose proof (ar_null _ _ Hok Ep); lia]. cbn [mbind option_bind fst snd].
      destruct (bump_ok a used p slop n Hok Ep) as [B1 B2]; [lia..|].
      assert (Hal : (snd p + slop) mod 8 = 0) by (rewrite <- Z.add_mod_idemp_l by lia; destruct Hm as [_ <-]; tauto).
      rewrite land_align, Hal. cbn [Z.eqb negb]. eexists _, _. split; [done|]. by split.
    + destruct (AllocateFallback a n) as [p a'] eqn:E. destruct (AllocateFallback_ok a used n p a' Hok ltac:(lia) E) as (F1 & F2 & F3).
      cbn [mbind option_bind]. rewrite F3. cbn [Z.land Z.eqb negb]. eexists _, _. split; [done|]. split; [done|]. split; [done|]. by rewrite F3.
Qed.

Lemma serve_all_ok rs : forall a used,
  arena_ok a used -> Forall (fun r => 0 < request_size r) rs ->
  exists ps a', serve_all a rs = Some (ps, a') /\ arena_ok a' (rev (zip ps (map request_size rs)) ++ used) /\
    length ps = length rs /\ ForallOrdPairs apart (zip ps (map request_size rs)) /\
    Forall (fun x => Forall (apart x) used) (zip ps (map request_size rs)) /\
    Forall2 (fun r p => match r with RAligned _ => snd p mod 8 = 0 | RBytes _ => True end) rs ps.
Proof.
  induction rs as [|r rs IH]; intros a used Hok Hr; cbn [serve_all].
  { exists [], a. split; [done|]. split; [done|]. split; [done|]. split; [constructor|]. split; constructor. }
  apply Forall_cons in Hr as [Hr1 Hr]. destruct (serve_ok a used r Hok Hr1) as (p & a1 & -> & Hok1 & Hap & Hal). cbn [mbind option_bind].
  destruct (IH a1 ((p, request_size r) :: used) Hok1 Hr) as (ps & a' & -> & Hok' & Hlen & Hord & Hused & Hall). cbn [mbind option_bind].
  exists (p :: ps), a'. cbn [map zip_with rev length]. split; [done|]. split; [by rewrite <- app_assoc|]. split; [by rewrite Hlen|].
  split; [|split; [|by constructor]].
  - constructor; [|done]. eapply Forall_impl; [exact Hused|]. intros x Hx. apply Forall_cons in Hx as [Hx _].
    unfold apart in *. intuition lia.
  - constructor; [done|]. eapply Forall_impl; [exact Hused|]. intros x Hx. by apply Forall_cons in Hx as [_ Hx].
Qed.


End Arena.

