(* ===== verification/SkipList.v ===== *)
(** * The skip list

    [db/skiplist.h].  Nodes live in an arena and are never freed while the list
    is alive, so a node pointer is an index into the list of allocated nodes
    ([None] is the null pointer) and [head_] is node 0.  A node's [next_] array
    has one link per level of its tower.  The searches are loops over these
    links with fuel; [search_fuel] is shown to suffice for every list that
    satisfies the representation invariant, so they always return. *)

From S2P Require Import Prelude Comparator Random.

Definition kMaxHeight : nat := 12.

Section SkipList.

Context {Key : Type} (compare_ : Key -> Key -> Z) (null_key : Key).

Record Node := mkNode { node_key : Key; next_ : list (option nat) }.

Record SkipList := mkSkipList {
  nodes : list Node;
  max_height_ : nat;
  rnd_ : Z
}.

Definition head_ : nat := 0.

(** ** Links *)

(** [x->Next(n)] *)
Definition Next (ns : list Node) (x n : nat) : option nat :=
  match ns !! x with
  | Some nd => mjoin (next_ nd !! n)
  | None => None
  end.

(** [x->SetNext(n, v)] *)
Definition SetNext (ns : list Node) (x n : nat) (v : option nat) : list Node :=
  alter (fun nd => mkNode (node_key nd) (<[n := v]> (next_ nd))) x ns.

(** [NewNode(key, height)]: the links are set before the node is published. *)
Definition NewNode (ns : list Node) (key : Key) (height : nat) : nat * list Node :=
  (length ns, ns ++ [mkNode key (replicate height None)]).

Definition key_at (ns : list Node) (x : nat) : Key :=
  match ns !! x with Some nd => node_key nd | None => null_key end.

(** The constructor. *)
Definition SkipList_make : SkipList :=
  mkSkipList [mkNode null_key (replicate kMaxHeight None)] 1 (Random_make 0xdeadbeef).

(** The loop of [RandomHeight]. *)
Fixpoint random_height_loop (fuel : nat) (height : nat) (rnd : Z) : nat * Z :=
  match fuel with
  | O => (height, rnd)
  | S fuel =>
      if (height <? kMaxHeight)%nat then
        let '(one, rnd) := OneIn rnd 4 in
        if one then random_height_loop fuel (S height) rnd else (height, rnd)
      else (height, rnd)
  end.

Definition RandomHeight (rnd : Z) : nat * Z := random_height_loop kMaxHeight 1 rnd.

(** ** Searches *)

Definition KeyIsAfterNode (ns : list Node) (key : Key) (n : option nat) : bool :=
  match n with
  | Some n => compare_ (key_at ns n) key <? 0
  | None => false
  end.

(** The loop of [FindGreaterOrEqual].  [prev] is always filled in; the callers
    that pass a null pointer ignore it. *)
Fixpoint find_ge_loop (fuel : nat) (ns : list Node) (key : Key) (x level : nat) (prev : list nat)
  : option (option nat * list nat) :=
  match fuel with
  | O => None
  | S fuel =>
      let next := Next ns x level in
      if KeyIsAfterNode ns key next then
        match next with
        | Some n => find_ge_loop fuel ns key n level prev
        | None => None    (* not reached: null is not before any key *)
        end
      else
        let prev := <[level := x]> prev in
        match level with
        | O => Some (next, prev)
        | S level => find_ge_loop fuel ns key x level prev
        end
  end.

(** Turns that are enough for every search. *)
Definition search_fuel (sl : SkipList) : nat := length (nodes sl) + max_height_ sl.

Definition FindGreaterOrEqual (sl : SkipList) (key : Key) : option (option nat * list nat) :=
  find_ge_loop (search_fuel sl) (nodes sl) key head_ (max_height_ sl - 1)
    (replicate kMaxHeight head_).

Fixpoint find_lt_loop (fuel : nat) (ns : list Node) (key : Key) (x level : nat) : option nat :=
  match fuel with
  | O => None
  | S fuel =>
      match Next ns x level with
      | Some n =>
          if 0 <=? compare_ (key_at ns n) key then
            match level with
            | O => Some x
            | S level => find_lt_loop fuel ns key x level
            end
          else find_lt_loop fuel ns key n level
      | None =>
          match level with
          | O => Some x
          | S level => find_lt_loop fuel ns key x level
          end
      end
  end.

Definition FindLessThan (sl : SkipList) (key : Key) : option nat :=
  find_lt_loop (search_fuel sl) (nodes sl) key head_ (max_height_ sl - 1).

Fixpoint find_last_loop (fuel : nat) (ns : list Node) (x level : nat) : option nat :=
  match fuel with
  | O => None
  | S fuel =>
      match Next ns x level with
      | Some n => find_last_loop fuel ns n level
      | None =>
          match level with
          | O => Some x
          | S level => find_last_loop fuel ns x level
          end
      end
  end.

Definition FindLast (sl : SkipList) : option nat :=
  find_last_loop (search_fuel sl) (nodes sl) head_ (max_height_ sl - 1).

(** ** Insertion *)

(** The loop that links node [x] at levels [i, i+1, ...]. *)
Fixpoint link_loop (n : nat) (i : nat) (x : nat) (prev : list nat) (ns : list Node) : list Node :=
  match n with
  | O => ns
  | S n =>
      let p := nth i prev head_ in
      let ns := SetNext ns x i (Next ns p i) in
      let ns := SetNext ns p i (Some x) in
      link_loop n (S i) x prev ns
  end.

Definition Insert (sl : SkipList) (key : Key) : option SkipList :=
  match FindGreaterOrEqual sl key with
  | None => None
  | Some (_, prev) =>
      let '(height, rnd) := RandomHeight (rnd_ sl) in
      (* prev[i] = head_ for the new levels: the array starts out filled with it *)
      let max_height := if (max_height_ sl <? height)%nat then height else max_height_ sl in
      let '(x, ns) := NewNode (nodes sl) key height in
      Some (mkSkipList (link_loop height 0 x prev ns) max_height rnd)
  end.

Definition Equal (a b : Key) : bool := compare_ a b =? 0.

Definition Contains (sl : SkipList) (key : Key) : option bool :=
  match FindGreaterOrEqual sl key with
  | None => None
  | Some (Some x, _) => Some (Equal key (key_at (nodes sl) x))
  | Some (None, _) => Some false
  end.

(** ** [SkipList::Iterator]: the current [node_] *)

Definition Iterator_Valid (node_ : option nat) : bool :=
  match node_ with Some _ => true | None => false end.

(** The operations that require [Valid()] have no result otherwise. *)
Definition Iterator_key (sl : SkipList) (node_ : option nat) : option Key :=
  match node_ with Some x => Some (key_at (nodes sl) x) | None => None end.

Definition Iterator_Next (sl : SkipList) (node_ : option nat) : option (option nat) :=
  match node_ with Some x => Some (Next (nodes sl) x 0) | None => None end.

Definition not_head (x : nat) : option nat := if (x =? head_)%nat then None else Some x.

Definition Iterator_Prev (sl : SkipList) (node_ : option nat) : option (option nat) :=
  match node_ with
  | Some x =>
      match FindLessThan sl (key_at (nodes sl) x) with
      | Some y => Some (not_head y)
      | None => None
      end
  | None => None
  end.

Definition Iterator_Seek (sl : SkipList) (target : Key) : option (option nat) :=
  match FindGreaterOrEqual sl target with
  | Some (x, _) => Some x
  | None => None
  end.

Definition Iterator_SeekToFirst (sl : SkipList) : option nat := Next (nodes sl) head_ 0.

Definition Iterator_SeekToLast (sl : SkipList) : option (option nat) :=
  match FindLast sl with
  | Some x => Some (not_head x)
  | None => None
  end.

(** ** The representation invariant

    [ids] are the nodes of the list in order.  The chain at each level is the
    sublist of the nodes whose tower reaches it. *)

Definition height (ns : list Node) (x : nat) : nat :=
  match ns !! x with Some nd => length (next_ nd) | None => 0 end.

Definition at_level (ns : list Node) (i : nat) (ids : list nat) : list nat :=
  List.filter (fun x => i <? height ns x)%nat ids.

(** Following level [i] from [x] visits [ids] and ends. *)
Fixpoint linked (ns : list Node) (i x : nat) (ids : list nat) : Prop :=
  match ids with
  | [] => Next ns x i = None
  | y :: ids => Next ns x i = Some y /\ linked ns i y ids
  end.

(** What the nodes hold, in order. *)
Definition keys_of (ns : list Node) (ids : list nat) : list Key := map (key_at ns) ids.

Definition key_lt (a b : Key) : Prop := compare_ a b < 0.

Record skip_ok (sl : SkipList) (ids : list nat) : Prop := {
  ok_head : height (nodes sl) head_ = kMaxHeight;
  ok_max : (1 <= max_height_ sl <= kMaxHeight)%nat;
  ok_heights x : x ∈ ids -> (1 <= height (nodes sl) x <= max_height_ sl)%nat;
  ok_nodup : NoDup (head_ :: ids);
  ok_sorted : StronglySorted key_lt (keys_of (nodes sl) ids);
  ok_linked i : (i < kMaxHeight)%nat -> linked (nodes sl) i head_ (at_level (nodes sl) i ids)
}.

(** ** Searching

    The three search loops are one descent, with different tests for moving on
    along a level. *)

Fixpoint descend (fuel : nat) (ns : list Node) (adv : nat -> bool) (x level : nat)
    (prev : list nat) : option (nat * option nat * list nat) :=
  match fuel with
  | O => None
  | S fuel =>
      let stop :=
        let prev := <[level := x]> prev in
        match level with
        | O => Some (x, Next ns x level, prev)
        | S level => descend fuel ns adv x level prev
        end in
      match Next ns x level with
      | Some n => if adv n then descend fuel ns adv n level prev else stop
      | None => stop
      end
  end.

Lemma find_ge_descend fuel ns key x level prev :
  find_ge_loop fuel ns key x level prev =
  (fun r => (snd (fst r), snd r)) <$>
    descend fuel ns (fun n => compare_ (key_at ns n) key <? 0) x level prev.
Proof.
  revert x level prev. induction fuel as [|fuel IH]; intros x level prev; [done|].
  cbn [find_ge_loop descend]. destruct (Next ns x level) as [n|] eqn:E; cbn [KeyIsAfterNode].
  - destruct (compare_ (key_at ns n) key <? 0); [apply IH|]. destruct level; [done|apply IH].
  - destruct level; [done|apply IH].
Qed.

Lemma find_lt_descend fuel ns key x level prev :
  find_lt_loop fuel ns key x level =
  (fun r => fst (fst r)) <$>
    descend fuel ns (fun n => compare_ (key_at ns n) key <? 0) x level prev.
Proof.
  revert x level prev. induction fuel as [|fuel IH]; intros x level prev; [done|].
  cbn [find_lt_loop descend]. destruct (Next ns x level) as [n|] eqn:E.
  - rewrite Z.leb_antisym. destruct (compare_ (key_at ns n) key <? 0); cbn [negb]; [apply IH|].
    destruct level; [done|apply IH].
  - destruct level; [done|apply IH].
Qed.

Lemma find_last_descend fuel ns x level prev :
  find_last_loop fuel ns x level =
  (fun r => fst (fst r)) <$> descend fuel ns (fun _ => true) x level prev.
Proof.
  revert x level prev. induction fuel as [|fuel IH]; intros x level prev; [done|].
  cbn [find_last_loop descend]. destruct (Next ns x level) as [n|] eqn:E; [apply IH|].
  destruct level; [done|apply IH].
Qed.

(** *** Chains *)

(** The last node of a path that starts in [x]. *)
Fixpoint path_end (x : nat) (ids : list nat) : nat :=
  match ids with [] => x | y :: ids => path_end y ids end.

Lemma path_end_app x a b : path_end x (a ++ b) = path_end (path_end x a) b.
Proof. revert x. induction a as [|y a IH]; intros x; cbn; [done|apply IH]. Qed.

Lemma path_end_snoc x a y : path_end x (a ++ [y]) = y.
Proof. by rewrite path_end_app. Qed.

Lemma path_end_elem x a : path_end x a ∈ x :: a.
Proof.
  revert x. induction a as [|y a IH]; intros x; cbn [path_end]; [left|right; apply IH].
Qed.

Lemma linked_app ns i x P Q :
  linked ns i x (P ++ Q) <->
  (forall p y, (exists P1 P2, P = P1 ++ y :: P2 /\ p = path_end x P1) -> Next ns p i = Some y) /\
  linked ns i (path_end x P) Q.
Proof.
  revert x. induction P as [|z P IH]; intros x; cbn [app linked path_end].
  - split; [|by intros [_ ?]]. intros H. split; [|done].
    intros p y ([|??] & P2 & E & _); discriminate.
  - rewrite IH. split.
    + intros (H1 & H2 & H3). split; [|done].
      intros p y ([|w P1] & P2 & E & ->); cbn in E; injection E as -> ->; cbn [path_end].
      * done.
      * apply H2. by exists P1, P2.
    + intros (H1 & H2). split; [apply H1; by exists [], P|]. split; [|done].
      intros p y (P1 & P2 & -> & ->). apply H1. by exists (z :: P1), P2.
Qed.

Lemma linked_next ns i x P Q : linked ns i x (P ++ Q) -> Next ns (path_end x P) i = head Q.
Proof.
  intros [_ H]%linked_app. destruct Q; [done|]. by destruct H.
Qed.

Lemma at_level_app ns i a b : at_level ns i (a ++ b) = at_level ns i a ++ at_level ns i b.
Proof. apply List.filter_app. Qed.

Lemma at_level_elem ns i ids x : x ∈ at_level ns i ids <-> x ∈ ids /\ (i < height ns x)%nat.
Proof.
  rewrite !list_elem_of_In. unfold at_level. rewrite filter_In. by rewrite Nat.ltb_lt.
Qed.

(** A path that ends in a node of level [i] ends there at level [i] too. *)
Lemma path_end_at_level ns i ids :
  (i < height ns (path_end head_ ids))%nat ->
  path_end head_ (at_level ns i ids) = path_end head_ ids.
Proof.
  destruct ids as [|y ids _] using rev_ind; [done|]. rewrite path_end_snoc, at_level_app.
  intros H. cbn [at_level List.filter]. apply Nat.ltb_lt in H. rewrite H. apply path_end_snoc.
Qed.

(** The first node of a level among [ids]. *)
Lemma at_level_head ns i ids y :
  head (at_level ns i ids) = Some y ->
  exists a b, ids = a ++ y :: b /\ at_level ns i a = [] /\ (i < height ns y)%nat.
Proof.
  induction ids as [|x ids IH]; [done|]. cbn [at_level List.filter].
  destruct (Nat.ltb_spec i (height ns x)); intros E.
  - injection E as ->. by exists [], ids.
  - destruct (IH E) as (a & b & -> & Ha & Hy). exists (x :: a), b. split_and!; [done| |done].
    cbn [at_level List.filter]. destruct (Nat.ltb_spec i (height ns x)); [lia|done].
Qed.

(** *** The descent *)

Section Descent.

Context (ns : list Node) (ids : list nat) (adv : nat -> bool).
Context (Hhead : height ns head_ = kMaxHeight).
Context (Hlink : forall i, (i < kMaxHeight)%nat -> linked ns i head_ (at_level ns i ids)).
Context (Hge1 : forall x, x ∈ ids -> (1 <= height ns x <= kMaxHeight)%nat).
(** The test holds on a prefix of the list. *)
Context (Hprefix : forall a y b, ids = a ++ y :: b -> adv y = false ->
                   Forall (fun z => adv z = false) b).

(** The nodes before the target, and the others. *)
Definition low (l : list nat) : list nat := List.filter adv l.
Definition high (l : list nat) : list nat := List.filter (fun z => negb (adv z)) l.

(** After a prefix on which the test holds. *)
Lemma suffix_split a b :
  ids = a ++ b -> Forall (fun z => adv z = true) a ->
  low ids = a ++ low b /\ high ids = high b.
Proof.
  intros -> Ha. rewrite Forall_forall in Ha. unfold low, high. rewrite !List.filter_app.
  rewrite (filter_id adv a Ha), (filter_none (fun z => negb (adv z)) a); [done|].
  intros x Hx. by rewrite Ha.
Qed.

(** Where a level's search stops, no later node of the level is before the
    target. *)
Lemma suffix_stop a b i :
  ids = a ++ b -> (forall y, head (at_level ns i b) = Some y -> adv y = false) ->
  at_level ns i (low b) = [].
Proof.
  intros E Hs. apply filter_none. intros z [Hz Ha]%elem_of_filter_bool.
  destruct (Nat.ltb_spec i (height ns z)) as [Hi|]; [exfalso|done].
  assert (z ∈ at_level ns i b) as Hzb by (by apply at_level_elem).
  destruct (at_level ns i b) as [|y l] eqn:El; [by apply elem_of_nil in Hzb|].
  specialize (Hs y eq_refl). apply (f_equal head) in El as Eh.
  destruct (at_level_head _ _ _ _ Eh) as (b1 & b2 & Eb & Hb1 & Hy). subst b.
  rewrite app_assoc in E. pose proof (Hprefix _ _ _ E Hs) as Hb2. rewrite Forall_forall in Hb2.
  apply elem_of_app in Hz as [Hz|[->|Hz]%elem_of_cons]; [|congruence|].
  - assert (z ∈ at_level ns i b1) as Hz1 by (by apply at_level_elem).
    rewrite Hb1 in Hz1. by apply elem_of_nil in Hz1.
  - rewrite Hb2 in Ha by done. done.
Qed.

(** Every node is on the bottom level. *)
Lemma at_level_0 b : (forall z, z ∈ b -> z ∈ ids) -> at_level ns 0 b = b.
Proof.
  intros Hb. apply filter_id. intros z Hz. apply Nat.ltb_lt. specialize (Hge1 z (Hb z Hz)). lia.
Qed.

(** The node a level's search stops at. *)
Definition pred_at (i : nat) : nat := path_end head_ (at_level ns i (low ids)).

Lemma pred_at_stop a b level :
  ids = a ++ b -> Forall (fun z => adv z = true) a ->
  (level < height ns (path_end head_ a))%nat ->
  (forall y, head (at_level ns level b) = Some y -> adv y = false) ->
  pred_at level = path_end head_ a.
Proof.
  intros E Ha Hl Hs. destruct (suffix_split a b E Ha) as [Hlow _]. unfold pred_at.
  rewrite Hlow, at_level_app, (suffix_stop a b level E Hs), app_nil_r.
  by apply path_end_at_level.
Qed.

(** Stopping on the bottom level ends between the two parts. *)
Lemma stop_bottom a b :
  ids = a ++ b -> Forall (fun z => adv z = true) a ->
  (forall y, head (at_level ns 0 b) = Some y -> adv y = false) ->
  low ids = a /\ high ids = b.
Proof.
  intros E Ha Hs. destruct (suffix_split a b E Ha) as [-> ->].
  assert (forall z, z ∈ b -> z ∈ ids) as Hb by (intros z; rewrite E, elem_of_app; auto).
  pose proof (suffix_stop a b 0 E Hs) as H0.
  rewrite at_level_0 in H0 by (intros z [Hz _]%elem_of_filter_bool; auto).
  rewrite H0, app_nil_r. split; [done|]. apply filter_id. intros z Hz.
  destruct (adv z) eqn:Ez; [exfalso|done].
  assert (z ∈ low b) as Hz' by (by apply elem_of_filter_bool).
  rewrite H0 in Hz'. by apply elem_of_nil in Hz'.
Qed.

(** Moving on along a level keeps to the nodes before the target. *)
Lemma advance_prefix a b1 y b2 :
  ids = a ++ b1 ++ y :: b2 -> Forall (fun z => adv z = true) a -> adv y = true ->
  Forall (fun z => adv z = true) (a ++ b1 ++ [y]).
Proof.
  intros E Ha Hy. apply Forall_app. split; [done|]. apply Forall_app. split; [|by constructor].
  apply Forall_forall. intros z Hz. destruct (adv z) eqn:Ez; [done|]. exfalso.
  apply list_elem_of_split in Hz as (c1 & c2 & ->).
  assert (ids = (a ++ c1) ++ z :: c2 ++ y :: b2) as E2 by (rewrite E; by rewrite <- !app_assoc).
  apply Hprefix in E2; [|done]. apply Forall_app in E2 as [_ E2]. inversion E2. congruence.
Qed.

(** What the descent leaves in [prev] when it starts at [level]. *)
Definition prev_filled (level : nat) (prev prev' : list nat) : Prop :=
  length prev' = kMaxHeight /\
  (forall i, (i <= level)%nat -> prev' !! i = Some (pred_at i)) /\
  (forall i, (level < i)%nat -> prev' !! i = prev !! i).

Lemma prev_filled_insert level x prev prev' :
  pred_at (S level) = x -> length prev = kMaxHeight -> (S level < kMaxHeight)%nat ->
  prev_filled level (<[S level := x]> prev) prev' -> prev_filled (S level) prev prev'.
Proof.
  intros <- Hp Hl (H1 & H2 & H3). split_and!; [done| |].
  - intros i Hi. destruct (decide (i = S level)) as [->|]; [|apply H2; lia].
    rewrite H3 by lia. apply list_lookup_insert_eq. lia.
  - intros i Hi. rewrite H3 by lia. apply list_lookup_insert_ne. lia.
Qed.

Lemma prev_filled_bottom x prev :
  pred_at 0 = x -> length prev = kMaxHeight -> prev_filled 0 prev (<[0%nat := x]> prev).
Proof.
  intros <- Hp. split_and!; [by rewrite length_insert| |].
  - intros i Hi. assert (i = 0)%nat as -> by lia. apply list_lookup_insert_eq. unfold kMaxHeight in Hp. lia.
  - intros i Hi. apply list_lookup_insert_ne. lia.
Qed.

Lemma descend_spec fuel a b level prev :
  ids = a ++ b -> Forall (fun z => adv z = true) a ->
  (level < height ns (path_end head_ a))%nat -> (level < kMaxHeight)%nat ->
  length prev = kMaxHeight -> (length b + level < fuel)%nat ->
  exists prev',
    descend fuel ns adv (path_end head_ a) level prev
      = Some (path_end head_ (low ids), head (high ids), prev') /\
    prev_filled level prev prev'.
Proof.
  revert a b level prev. induction fuel as [|fuel IH]; [lia|].
  intros a b level prev E Ha Hl Hm Hp Hf. cbn [descend].
  assert (Next ns (path_end head_ a) level = head (at_level ns level b)) as Hn.
  { rewrite <- (path_end_at_level ns level a) by done. apply linked_next.
    rewrite <- at_level_app, <- E. by apply Hlink. }
  assert ((exists y, head (at_level ns level b) = Some y /\ adv y = true) \/
          (forall y, head (at_level ns level b) = Some y -> adv y = false))
    as [(y & Eh & Ey)|Hs].
  { destruct (head (at_level ns level b)) as [y|]; [|by right].
    destruct (adv y) eqn:Ey; [left; by exists y|right; by intros ? [= <-]]. }
  - rewrite Hn, Eh, Ey.
    destruct (at_level_head _ _ _ _ Eh) as (b1 & b2 & -> & _ & Hy).
    assert (path_end head_ (a ++ b1 ++ [y]) = y) as Hend by (rewrite app_assoc; apply path_end_snoc).
    specialize (IH (a ++ b1 ++ [y]) b2 level prev). rewrite Hend in IH. apply IH; try done.
    + rewrite E. by rewrite <- !app_assoc.
    + by apply (advance_prefix a b1 y b2).
    + revert Hf. rewrite length_app. cbn. lia.
  - set (stop := match level with O => _ | S _ => _ end).
    assert (match Next ns (path_end head_ a) level with
            | Some n => if adv n then descend fuel ns adv n level prev else stop
            | None => stop end = stop) as ->.
    { rewrite Hn. destruct (head (at_level ns level b)) as [y|]; [|done]. by rewrite Hs. }
    pose proof (pred_at_stop a b level E Ha Hl Hs) as Hpred. unfold stop. clear stop.
    destruct level as [|level].
    + exists (<[0%nat := path_end head_ a]> prev). split; [|by apply prev_filled_bottom].
      destruct (stop_bottom a b E Ha Hs) as [-> ->]. rewrite Hn, at_level_0; [done|].
      intros z Hz. rewrite E, elem_of_app. auto.
    + destruct (IH a b level (<[S level := path_end head_ a]> prev) E Ha) as (prev' & E' & Hf');
        [lia|lia|by rewrite length_insert|lia|].
      exists prev'. split; [done|]. by apply (prev_filled_insert level (path_end head_ a)).
Qed.

End Descent.

(** ** Searches on a list that satisfies the invariant *)

Section Correct.

Context {T : ThreeWay compare_}.

(** The nodes before a key, and the others. *)
Definition is_before (ns : list Node) (key : Key) (x : nat) : bool :=
  compare_ (key_at ns x) key <? 0.

Abbreviation lower sl key := (low (is_before (nodes sl) key)).
Abbreviation upper sl key := (high (is_before (nodes sl) key)).

Lemma sorted_suffix {A} (R : A -> A -> Prop) a y b :
  StronglySorted R (a ++ y :: b) -> Forall (R y) b.
Proof.
  induction a as [|x a IH]; cbn [app]; intros H; apply StronglySorted_inv in H as [H1 H2]; auto.
Qed.

Lemma keys_of_app ns a b : keys_of ns (a ++ b) = keys_of ns a ++ keys_of ns b.
Proof. apply map_app. Qed.

Lemma keys_of_elem ns ids x : x ∈ ids -> key_at ns x ∈ keys_of ns ids.
Proof. rewrite !list_elem_of_In. apply in_map. Qed.

(** In a sorted list the nodes before a key form a prefix. *)
Lemma is_before_prefix ns key ids :
  StronglySorted key_lt (keys_of ns ids) ->
  forall a y b, ids = a ++ y :: b -> is_before ns key y = false ->
    Forall (fun z => is_before ns key z = false) b.
Proof.
  intros Hs a y b -> Hy. rewrite keys_of_app in Hs. apply sorted_suffix in Hs.
  unfold is_before in *. apply Z.ltb_ge in Hy. rewrite Forall_forall in Hs.
  apply Forall_forall. intros z Hz. assert (key_lt (key_at ns y) (key_at ns z)) as Hyz.
  { apply Hs. by apply keys_of_elem. }
  apply Z.ltb_ge. destruct (Z.lt_ge_cases (compare_ (key_at ns z) key) 0) as [Hlt|]; [|done].
  pose proof (cmp_lt_trans compare_ _ _ _ Hyz Hlt). lia.
Qed.

Lemma height_valid ns x i : (i < height ns x)%nat -> (x < length ns)%nat.
Proof.
  unfold height. destruct (ns !! x) eqn:E; [|lia]. intros _. by apply lookup_lt_Some in E.
Qed.

(** There are fewer list nodes than allocated ones. *)
Lemma ok_length sl ids : skip_ok sl ids -> (length ids < length (nodes sl))%nat.
Proof.
  intros H. assert (length (head_ :: ids) <= length (seq 0 (length (nodes sl))))%nat as Hl.
  { apply NoDup_incl_length; [apply NoDup_ListNoDup, H|]. intros x Hx. apply in_seq.
    split; [lia|]. cbn [Nat.add]. destruct Hx as [<-|Hx].
    - apply (height_valid _ _ 0). rewrite (ok_head _ _ H). unfold kMaxHeight. lia.
    - apply list_elem_of_In in Hx. apply (height_valid _ _ 0). apply (ok_heights _ _ H) in Hx. lia. }
  rewrite length_seq in Hl. cbn in Hl. lia.
Qed.

(** The descent from the head, for a test that holds on a prefix. *)
Lemma descend_head sl ids adv :
  skip_ok sl ids ->
  (forall a y b, ids = a ++ y :: b -> adv y = false -> Forall (fun z => adv z = false) b) ->
  exists prev,
    descend (search_fuel sl) (nodes sl) adv head_ (max_height_ sl - 1) (replicate kMaxHeight head_)
      = Some (path_end head_ (low adv ids), head (high adv ids), prev) /\
    forall i, (i < kMaxHeight)%nat -> prev !! i = Some (pred_at (nodes sl) ids adv i).
Proof.
  intros H Hp. pose proof H as [Hh Hm Hhs _ _ Hl].
  destruct (descend_spec (nodes sl) ids adv) with (a := @nil nat) (b := ids)
    (fuel := search_fuel sl) (level := (max_height_ sl - 1)%nat)
    (prev := replicate kMaxHeight head_) as (prev & E & Hlen & Hle & Hgt); try done.
  - intros x Hx. apply Hhs in Hx. lia.
  - cbn [path_end]. rewrite Hh. lia.
  - lia.
  - pose proof (ok_length sl ids H). unfold search_fuel. lia.
  - exists prev. split; [done|]. intros i Hi.
    destruct (Nat.le_gt_cases i (max_height_ sl - 1)); [by apply Hle|].
    rewrite Hgt, lookup_replicate_2 by lia. f_equal. unfold pred_at.
    unfold at_level. rewrite filter_none; [done|]. intros x [Hx _]%elem_of_filter_bool.
    apply Nat.ltb_ge. apply Hhs in Hx. lia.
Qed.

Lemma FindGreaterOrEqual_spec sl ids key :
  skip_ok sl ids ->
  exists prev,
    FindGreaterOrEqual sl key = Some (head (upper sl key ids), prev) /\
    forall i, (i < kMaxHeight)%nat ->
      prev !! i = Some (pred_at (nodes sl) ids (is_before (nodes sl) key) i).
Proof.
  intros H. destruct (descend_head sl ids (is_before (nodes sl) key) H) as (prev & E & Hp).
  { apply is_before_prefix, H. }
  exists prev. split; [|done]. unfold FindGreaterOrEqual. rewrite find_ge_descend.
  unfold is_before in E. by rewrite E.
Qed.

Lemma FindLessThan_spec sl ids key :
  skip_ok sl ids -> FindLessThan sl key = Some (path_end head_ (lower sl key ids)).
Proof.
  intros H. destruct (descend_head sl ids (is_before (nodes sl) key) H) as (prev & E & _).
  { apply is_before_prefix, H. }
  unfold FindLessThan. rewrite (find_lt_descend _ _ _ _ _ (replicate kMaxHeight head_)).
  unfold is_before in E. by rewrite E.
Qed.

Lemma FindLast_spec sl ids : skip_ok sl ids -> FindLast sl = Some (path_end head_ ids).
Proof.
  intros H. destruct (descend_head sl ids (fun _ => true) H) as (prev & E & _); [done|].
  unfold FindLast. rewrite (find_last_descend _ _ _ _ (replicate kMaxHeight head_)), E. cbn.
  do 2 f_equal. by apply filter_id.
Qed.

(** A sorted list is the nodes before a key followed by the others. *)
Lemma lower_upper sl ids key : skip_ok sl ids -> ids = lower sl key ids ++ upper sl key ids.
Proof.
  intros H. pose proof (is_before_prefix (nodes sl) key ids (ok_sorted _ _ H)) as Hp. clear H.
  induction ids as [|x ids IH]; [done|]. cbn [low high List.filter].
  destruct (is_before (nodes sl) key x) eqn:E; cbn [negb app].
  - f_equal. apply IH. intros a y b -> Hy. by apply (Hp (x :: a) y b).
  - specialize (Hp [] x ids eq_refl E). rewrite Forall_forall in Hp.
    rewrite (filter_none (is_before _ _)), (filter_id (fun z => negb _)); [done| |done].
    intros z Hz. by rewrite Hp.
Qed.

(** ** Insertion *)

Lemma NoDup_insert_fresh {A} (a b : list A) n :
  NoDup (a ++ b) -> n ∉ a ++ b -> NoDup (a ++ n :: b).
Proof.
  intros Hnd Hn. rewrite <- (Permutation_middle a b n). by constructor.
Qed.

Lemma Next_SetNext ns x n v y j :
  (n < height ns x)%nat ->
  Next (SetNext ns x n v) y j = if decide (y = x /\ j = n) then v else Next ns y j.
Proof.
  intros Hn. unfold Next, SetNext, height in *. destruct (ns !! x) as [nd|] eqn:Ex; [|lia].
  destruct (decide (y = x)) as [->|Hy].
  - rewrite list_lookup_alter_eq, Ex. cbn [fmap option_fmap option_map next_].
    destruct (decide (x = x /\ j = n)) as [[_ ->]|Hj].
    + rewrite list_lookup_insert_eq by done. done.
    + rewrite list_lookup_insert_ne; [done|]. intros ->. by apply Hj.
  - rewrite list_lookup_alter_ne by congruence.
    destruct (decide (y = x /\ j = n)) as [[? _]|]; [done|done].
Qed.

Lemma height_SetNext ns x n v y : height (SetNext ns x n v) y = height ns y.
Proof.
  unfold height, SetNext. destruct (decide (y = x)) as [->|].
  - rewrite list_lookup_alter_eq. destruct (ns !! x); [|done]. cbn. by rewrite length_insert.
  - by rewrite list_lookup_alter_ne by congruence.
Qed.

Lemma key_at_SetNext ns x n v y : key_at (SetNext ns x n v) y = key_at ns y.
Proof.
  unfold key_at, SetNext. destruct (decide (y = x)) as [->|].
  - rewrite list_lookup_alter_eq. by destruct (ns !! x).
  - by rewrite list_lookup_alter_ne by congruence.
Qed.

(** Linking changes no tower and no key. *)
Lemma link_loop_shape m i x prev ns y :
  height (link_loop m i x prev ns) y = height ns y /\
  key_at (link_loop m i x prev ns) y = key_at ns y.
Proof.
  revert i ns. induction m as [|m IH]; intros i ns; [done|]. cbn [link_loop].
  destruct (IH (S i) (SetNext (SetNext ns x i (Next ns (nth i prev head_) i))
              (nth i prev head_) i (Some x))) as [-> ->].
  by rewrite !height_SetNext, !key_at_SetNext.
Qed.

(** The links after the loop. *)
Lemma link_loop_Next m i x prev ns y j :
  (i + m <= height ns x)%nat ->
  (forall k, (i <= k < i + m)%nat -> nth k prev head_ <> x /\ (k < height ns (nth k prev head_))%nat) ->
  Next (link_loop m i x prev ns) y j =
  if decide (i <= j < i + m)%nat then
    if decide (y = x) then Next ns (nth j prev head_) j
    else if decide (y = nth j prev head_) then Some x
    else Next ns y j
  else Next ns y j.
Proof.
  revert i ns. induction m as [|m IH]; intros i ns Hh Hp; cbn [link_loop].
  { destruct (decide (i <= j < i + 0)%nat); [lia|done]. }
  set (p := nth i prev head_). destruct (Hp i ltac:(lia)) as [Hpx Hpi]. fold p in Hpx, Hpi.
  set (ns1 := SetNext ns x i (Next ns p i)). set (ns2 := SetNext ns1 p i (Some x)).
  assert (forall z k, Next ns2 z k = if decide (z = p /\ k = i) then Some x
                      else if decide (z = x /\ k = i) then Next ns p i else Next ns z k) as H2.
  { intros z k. unfold ns2. rewrite Next_SetNext by (unfold ns1; by rewrite height_SetNext).
    unfold ns1. rewrite Next_SetNext by lia. done. }
  assert (forall z, height ns2 z = height ns z) as Hh2
    by (intros z; unfold ns2, ns1; by rewrite !height_SetNext).
  rewrite IH.
  2: { rewrite Hh2. lia. }
  2: { intros k Hk. rewrite Hh2. apply Hp. lia. }
  clear Hp IH Hh Hpi.
  destruct (decide (j = i)) as [->|Hj].
  - destruct (decide (S i <= i < S i + m)%nat); [lia|].
    destruct (decide (i <= i < i + S m)%nat); [|lia]. rewrite H2. fold p.
    repeat case_decide; intuition congruence.
  - assert (forall z, Next ns2 z j = Next ns z j) as H2j
      by (intros z; rewrite H2; repeat case_decide; intuition congruence).
    rewrite !H2j. repeat case_decide; intuition (congruence || lia).
Qed.

Lemma linked_ext ns ns' i x ids :
  (forall y, y ∈ x :: ids -> Next ns' y i = Next ns y i) ->
  linked ns i x ids -> linked ns' i x ids.
Proof.
  revert x. induction ids as [|y ids IH]; intros x He; cbn [linked].
  - intros <-. apply He. left.
  - intros [<- Hl]. split; [apply He; left|]. apply IH; [|done]. intros z Hz. apply He. by right.
Qed.

(** Inserting a node into a chain. *)
Lemma linked_insert ns ns' i n x P Q :
  linked ns i x (P ++ Q) -> NoDup (x :: P ++ Q) -> n ∉ x :: P ++ Q ->
  (forall y, y ∈ n :: x :: P ++ Q ->
   Next ns' y i = if decide (y = n) then Next ns (path_end x P) i
                            else if decide (y = path_end x P) then Some n else Next ns y i) ->
  linked ns' i x (P ++ n :: Q).
Proof.
  revert x. induction P as [|y P IH]; intros x Hl Hnd Hn He; cbn [app path_end] in *.
  - assert (x <> n) by (intros ->; apply Hn; left). cbn [linked]. split.
    { rewrite He by (right; left). repeat case_decide; done. }
    destruct Q as [|q Q]; cbn [linked] in *.
    { rewrite He by left. case_decide; done. }
    destruct Hl as [Hq Hl]. split; [rewrite He by left; case_decide; done|].
    apply (linked_ext ns); [|done]. intros z Hz. rewrite He by (right; by right).
    destruct (decide (z = n)) as [->|]; [exfalso; apply Hn; by right|].
    destruct (decide (z = x)) as [->|]; [|done]. apply NoDup_cons in Hnd as [Hnd _]. done.
  - destruct Hl as [Hx Hl]. apply NoDup_cons in Hnd as [Hnx Hnd]. cbn [linked]. split.
    + rewrite He by (right; left). destruct (decide (x = n)) as [->|]; [exfalso; apply Hn; left|].
      destruct (decide (x = path_end y P)) as [Ex|]; [|done]. exfalso. apply Hnx.
      pose proof (path_end_elem y P) as Hp. rewrite <- Ex in Hp.
      apply elem_of_cons in Hp as [->|Hp]; [left|right; apply elem_of_app; by left].
    + apply IH; [done|done| |].
      * intros Hin. apply Hn. by right.
      * intros z Hz. apply He. apply elem_of_cons in Hz as [->|Hz]; [left|right; by right].
Qed.

Lemma random_height_range fuel h rnd :
  (1 <= h <= kMaxHeight)%nat -> (1 <= fst (random_height_loop fuel h rnd) <= kMaxHeight)%nat.
Proof.
  revert h rnd. induction fuel as [|fuel IH]; intros h rnd Hh; [done|]. cbn [random_height_loop].
  destruct (Nat.ltb_spec h kMaxHeight); [|done].
  destruct (OneIn rnd 4) as [[] r]; [apply IH; lia|done].
Qed.

Lemma RandomHeight_range rnd : (1 <= fst (RandomHeight rnd) <= kMaxHeight)%nat.
Proof. apply random_height_range. unfold kMaxHeight. lia. Qed.

(** The node list extended by the new node. *)
Lemma NewNode_lookup (ns : list Node) key h y :
  let ns1 := ns ++ [mkNode key (replicate h None)] in
  (y < length ns)%nat ->
  height ns1 y = height ns y /\ key_at ns1 y = key_at ns y /\
  forall i, Next ns1 y i = Next ns y i.
Proof.
  intros ns1 Hy. unfold height, key_at, Next, ns1. by rewrite lookup_app_l.
Qed.

Lemma NewNode_self (ns : list Node) key h :
  let ns1 := ns ++ [mkNode key (replicate h None)] in
  height ns1 (length ns) = h /\ key_at ns1 (length ns) = key.
Proof.
  intros ns1. unfold height, key_at, ns1. rewrite list_lookup_middle by done. cbn.
  by rewrite length_replicate.
Qed.

Lemma old_valid sl ids y : skip_ok sl ids -> y ∈ head_ :: ids -> (y < length (nodes sl))%nat.
Proof.
  intros Hok [->|Hy]%elem_of_cons; apply (height_valid _ _ 0).
  - rewrite (ok_head _ _ Hok). unfold kMaxHeight. lia.
  - apply (ok_heights _ _ Hok) in Hy. lia.
Qed.

(** The node array after [Insert], and what it is like. *)
Section Inserted.

Context (sl : SkipList) (ids : list nat) (key : Key) (prev : list nat) (h : nat).
Context (Hok : skip_ok sl ids) (Hh : (1 <= h <= kMaxHeight)%nat).
Context (Hprev : forall i, (i < kMaxHeight)%nat ->
           prev !! i = Some (pred_at (nodes sl) ids (is_before (nodes sl) key) i)).

Let n : nat := length (nodes sl).
Let ns1 : list Node := nodes sl ++ [mkNode key (replicate h None)].
Let ns' : list Node := link_loop h 0 n prev ns1.
Let a : list nat := lower sl key ids.
Let b : list nat := upper sl key ids.

Lemma prev_nth i :
  (i < kMaxHeight)%nat -> nth i prev head_ = path_end head_ (at_level (nodes sl) i a).
Proof. intros Hi. apply nth_lookup_Some. by apply Hprev. Qed.

Lemma prev_old i :
  (i < kMaxHeight)%nat ->
  (nth i prev head_ < n)%nat /\ (i < height (nodes sl) (nth i prev head_))%nat.
Proof.
  intros Hi. rewrite prev_nth by done.
  pose proof (path_end_elem head_ (at_level (nodes sl) i a)) as [->|[Hp Hl]%at_level_elem]%elem_of_cons.
  - split; [apply (old_valid sl ids _ Hok); left|]. by rewrite (ok_head _ _ Hok).
  - split; [|done]. apply (old_valid sl ids _ Hok). right. by apply elem_of_filter_bool in Hp as [Hp _].
Qed.

Lemma inserted_old y :
  (y < n)%nat -> height ns' y = height (nodes sl) y /\ key_at ns' y = key_at (nodes sl) y.
Proof using.
  intros Hy. destruct (NewNode_lookup (nodes sl) key h y Hy) as (E1 & E2 & _).
  destruct (link_loop_shape h 0 n prev ns1 y) as [E3 E4]. unfold ns'. by rewrite E3, E4.
Qed.

Lemma inserted_new : height ns' n = h /\ key_at ns' n = key.
Proof using.
  destruct (NewNode_self (nodes sl) key h) as [E1 E2].
  destruct (link_loop_shape h 0 n prev ns1 n) as [E3 E4]. unfold ns'. by rewrite E3, E4.
Qed.

(** The side conditions of [link_loop_Next]. *)
Lemma link_ready :
  (0 + h <= height ns1 n)%nat /\
  forall k, (0 <= k < 0 + h)%nat ->
    nth k prev head_ <> n /\ (k < height ns1 (nth k prev head_))%nat.
Proof.
  split.
  - destruct (NewNode_self (nodes sl) key h) as [E _]. unfold ns1, n. rewrite E. lia.
  - intros k Hk. destruct (prev_old k ltac:(lia)) as [H1 H2]. split; [lia|].
    destruct (NewNode_lookup (nodes sl) key h (nth k prev head_) H1) as (E & _).
    unfold ns1. by rewrite E.
Qed.

Lemma inserted_Next y i :
  (i < h)%nat -> (y <= n)%nat ->
  Next ns' y i = if decide (y = n) then Next (nodes sl) (nth i prev head_) i
                 else if decide (y = nth i prev head_) then Some n else Next (nodes sl) y i.
Proof.
  intros Hi Hy. unfold ns'. rewrite link_loop_Next by apply link_ready.
  destruct (decide (0 <= i < 0 + h)%nat); [|lia].
  destruct (decide (y = n)); [|repeat case_decide; try done];
    apply NewNode_lookup; [apply prev_old|]; unfold n in *; lia.
Qed.

Lemma inserted_Next_above y i : (h <= i)%nat -> (y < n)%nat -> Next ns' y i = Next (nodes sl) y i.
Proof.
  intros Hi Hy. unfold ns'. rewrite link_loop_Next by apply link_ready.
  destruct (decide (0 <= i < 0 + h)%nat); [lia|]. by apply NewNode_lookup.
Qed.

Lemma ids_split : ids = a ++ b.
Proof. by apply lower_upper. Qed.

Lemma inserted_at_level i :
  at_level ns' i (a ++ n :: b) =
  at_level (nodes sl) i a ++ (if (i <? h)%nat then [n] else []) ++ at_level (nodes sl) i b.
Proof.
  assert (forall l, (forall y, y ∈ l -> y ∈ ids) -> at_level ns' i l = at_level (nodes sl) i l) as E.
  { intros l Hl. unfold at_level. apply filter_ext_in. intros y Hy. apply list_elem_of_In in Hy.
    destruct (inserted_old y) as [-> _]; [|done]. apply (old_valid sl ids _ Hok). right. auto. }
  rewrite at_level_app. rewrite (E a) by (intros y [Hy _]%elem_of_filter_bool; done). f_equal.
  cbn [at_level List.filter]. destruct inserted_new as [-> _]. rewrite <- (E b); [by destruct (i <? h)%nat|].
  intros y [Hy _]%elem_of_filter_bool. done.
Qed.

Lemma at_level_nodup i : NoDup (head_ :: at_level (nodes sl) i ids).
Proof.
  pose proof (ok_nodup _ _ Hok) as Hnd. apply NoDup_cons in Hnd as [H1 H2]. apply NoDup_cons. split.
  - intros [Hin _]%at_level_elem. done.
  - apply NoDup_ListNoDup. apply List.NoDup_filter. by apply NoDup_ListNoDup.
Qed.

Lemma inserted_linked i : (i < kMaxHeight)%nat -> linked ns' i head_ (at_level ns' i (a ++ n :: b)).
Proof.
  intros Hi. rewrite inserted_at_level. pose proof (ok_linked _ _ Hok i Hi) as Hl.
  assert (forall y, y ∈ head_ :: at_level (nodes sl) i ids -> (y < n)%nat) as Hold.
  { intros y [->|[Hy _]%at_level_elem]%elem_of_cons; apply (old_valid sl ids _ Hok); [left|by right]. }
  pose proof (at_level_nodup i) as Hnd. rewrite ids_split, at_level_app in Hl, Hold, Hnd.
  destruct (Nat.ltb_spec i h) as [Hih|Hih]; cbn [app].
  - apply (linked_insert (nodes sl)); try done.
    + intros Hin%Hold. lia.
    + intros y [->|Hy%Hold]%elem_of_cons; rewrite inserted_Next by lia; by rewrite prev_nth.
  - apply (linked_ext (nodes sl)); [|done]. intros y Hy. apply inserted_Next_above; auto.
Qed.

Lemma inserted_keys :
  keys_of ns' (a ++ n :: b) = keys_of (nodes sl) a ++ key :: keys_of (nodes sl) b.
Proof.
  assert (forall l, (forall y, y ∈ l -> y ∈ ids) -> keys_of ns' l = keys_of (nodes sl) l) as E.
  { intros l Hl. unfold keys_of. apply map_ext_in. intros y Hy. apply list_elem_of_In in Hy.
    apply inserted_old. apply (old_valid sl ids _ Hok). right. auto. }
  rewrite keys_of_app, (E a) by (intros y [Hy _]%elem_of_filter_bool; done). f_equal.
  unfold keys_of. cbn [map]. fold (keys_of ns' b). destruct inserted_new as [_ ->].
  rewrite (E b); [done|]. intros y [Hy _]%elem_of_filter_bool. done.
Qed.

(** The key falls between the two parts, if none of the list's keys equals it. *)
Lemma inserted_sorted :
  (forall y, y ∈ ids -> compare_ (key_at (nodes sl) y) key <> 0) ->
  StronglySorted key_lt (keys_of (nodes sl) a ++ key :: keys_of (nodes sl) b).
Proof.
  intros Hne. pose proof (ok_sorted _ _ Hok) as Hs. rewrite ids_split, keys_of_app in Hs.
  assert (forall k, k ∈ keys_of (nodes sl) a -> key_lt k key) as Ha.
  { intros k Hk. apply list_elem_of_In, in_map_iff in Hk as (y & <- & Hy).
    apply list_elem_of_In, elem_of_filter_bool in Hy as [_ Hy]. by apply Z.ltb_lt in Hy. }
  assert (forall k, k ∈ keys_of (nodes sl) b -> key_lt key k) as Hb.
  { intros k Hk. apply list_elem_of_In, in_map_iff in Hk as (y & <- & Hy).
    apply list_elem_of_In, elem_of_filter_bool in Hy as [Hin Hy]. apply negb_true_iff, Z.ltb_ge in Hy.
    specialize (Hne y Hin). apply (cmp_opp (cmp := compare_)). lia. }
  apply StronglySorted_app_2.
  - intros k k' Hk [->|Hk']%elem_of_cons; [auto|].
    apply (cmp_lt_trans compare_ k key k'); [by apply Ha|by apply Hb].
  - by apply StronglySorted_app_1_l in Hs.
  - constructor; [by apply StronglySorted_app_1_r in Hs|]. apply Forall_forall. auto.
Qed.

End Inserted.

(** [Insert] puts the key between the smaller and the larger ones and keeps the
    invariant. *)
Lemma Insert_spec sl ids key :
  skip_ok sl ids ->
  (forall y, y ∈ ids -> compare_ (key_at (nodes sl) y) key <> 0) ->
  exists sl' a b n,
    Insert sl key = Some sl' /\ ids = a ++ b /\ skip_ok sl' (a ++ n :: b) /\
    keys_of (nodes sl') (a ++ n :: b) = keys_of (nodes sl) a ++ key :: keys_of (nodes sl) b.
Proof.
  intros Hok Hne. destruct (FindGreaterOrEqual_spec sl ids key Hok) as (prev & E & Hprev).
  unfold Insert. rewrite E. pose proof (RandomHeight_range (rnd_ sl)) as Hh.
  destruct (RandomHeight (rnd_ sl)) as [h rnd]. cbn [fst NewNode] in *.
  set (mh := if (max_height_ sl <? h)%nat then h else max_height_ sl).
  assert (max_height_ sl <= mh <= kMaxHeight /\ h <= mh)%nat as Hmh.
  { pose proof (ok_max _ _ Hok). unfold mh. destruct (Nat.ltb_spec (max_height_ sl) h); lia. }
  eexists _, (lower sl key ids), (upper sl key ids), (length (nodes sl)).
  split_and!; [reflexivity|by apply lower_upper| |by apply inserted_keys].
  split; cbn [nodes max_height_ rnd_].
  - destruct (inserted_old sl key prev h head_) as [-> _]; [apply (old_valid sl ids _ Hok); left|].
    apply Hok.
  - pose proof (ok_max _ _ Hok). lia.
  - intros y Hy.
    assert (y = length (nodes sl) \/ y ∈ ids) as [->|Hin].
    { rewrite (lower_upper sl ids key Hok). rewrite elem_of_app, elem_of_cons in Hy.
      rewrite elem_of_app. tauto. }
    + destruct (inserted_new sl key prev h) as [-> _]. lia.
    + destruct (inserted_old sl key prev h y) as [-> _]; [apply (old_valid sl ids _ Hok); by right|].
      apply (ok_heights _ _ Hok) in Hin. lia.
  - apply (NoDup_insert_fresh (head_ :: lower sl key ids)).
    + cbn [app]. rewrite <- (lower_upper sl ids key Hok). apply Hok.
    + cbn [app]. rewrite <- (lower_upper sl ids key Hok). intros Hin%(old_valid sl ids _ Hok). lia.
  - rewrite (inserted_keys sl ids key prev h Hok). by apply (inserted_sorted sl ids key h).
  - by apply inserted_linked.
Qed.

(** ** The empty list *)

Lemma SkipList_make_ok : skip_ok SkipList_make [].
Proof.
  split; cbn [SkipList_make nodes max_height_].
  - done.
  - unfold kMaxHeight. lia.
  - intros x Hx. by apply elem_of_nil in Hx.
  - apply NoDup_singleton.
  - constructor.
  - intros i Hi. cbn [at_level List.filter linked]. unfold Next, head_. cbn [lookup list_lookup next_].
    by rewrite lookup_replicate_2.
Qed.

(** ** Iteration *)

Lemma at_level_bottom sl ids : skip_ok sl ids -> at_level (nodes sl) 0 ids = ids.
Proof.
  intros H. apply filter_id. intros x Hx. apply Nat.ltb_lt. apply (ok_heights _ _ H) in Hx. lia.
Qed.

(** The bottom links step through the list. *)
Lemma bottom_next sl ids a b :
  skip_ok sl ids -> ids = a ++ b -> Next (nodes sl) (path_end head_ a) 0 = head b.
Proof.
  intros H E. apply (linked_next (nodes sl) 0 head_). rewrite <- E.
  rewrite <- (at_level_bottom sl ids H) at 1. apply (ok_linked _ _ H). unfold kMaxHeight. lia.
Qed.

(** The keys a loop of [key(); Next();] sees, in at most [n] turns. *)
Fixpoint scan_forward (n : nat) (sl : SkipList) (node_ : option nat) : list Key :=
  match n, node_ with
  | S n, Some x => key_at (nodes sl) x :: scan_forward n sl (Next (nodes sl) x 0)
  | _, _ => []
  end.

(** The same for a loop of [key(); Prev();]. *)
Fixpoint scan_backward (n : nat) (sl : SkipList) (node_ : option nat) : option (list Key) :=
  match n, node_ with
  | S n, Some x =>
      match Iterator_Prev sl node_ with
      | Some node' =>
          match scan_backward n sl node' with
          | Some ks => Some (key_at (nodes sl) x :: ks)
          | None => None
          end
      | None => None
      end
  | _, _ => Some []
  end.

Lemma scan_forward_spec n sl ids a b :
  skip_ok sl ids -> ids = a ++ b -> (length b <= n)%nat ->
  scan_forward n sl (head b) = keys_of (nodes sl) b.
Proof.
  intros H. revert a b. induction n as [|n IH]; intros a b E Hn.
  { destruct b; [done|cbn in Hn; lia]. }
  destruct b as [|x b]; [done|]. cbn [head scan_forward keys_of map]. f_equal.
  pose proof (bottom_next sl ids (a ++ [x]) b H) as Hx. rewrite path_end_snoc in Hx.
  rewrite Hx by (rewrite E; by rewrite <- app_assoc).
  apply (IH (a ++ [x])); [rewrite E; by rewrite <- app_assoc|cbn in Hn; lia].
Qed.

Lemma not_head_path_end sl ids a b :
  skip_ok sl ids -> ids = a ++ b -> not_head (path_end head_ a) = last a.
Proof.
  intros H E. destruct a as [|x a _] using rev_ind; [done|]. rewrite path_end_snoc, last_snoc.
  unfold not_head. destruct (Nat.eqb_spec x head_) as [->|]; [|done]. exfalso.
  pose proof (ok_nodup _ _ H) as Hnd. apply NoDup_cons in Hnd as [Hnd _]. apply Hnd.
  rewrite E, !elem_of_app, list_elem_of_singleton. tauto.
Qed.

(** [Prev] from a node goes to the node before it. *)
Lemma Prev_spec sl ids a x b :
  skip_ok sl ids -> ids = a ++ x :: b -> Iterator_Prev sl (Some x) = Some (last a).
Proof.
  intros H E. cbn [Iterator_Prev]. rewrite (FindLessThan_spec sl ids) by done.
  assert (lower sl (key_at (nodes sl) x) ids = a) as ->.
  { pose proof (ok_sorted _ _ H) as Hs. rewrite E, keys_of_app in Hs.
    rewrite E. unfold low. rewrite List.filter_app. rewrite filter_id, filter_none.
    - apply app_nil_r.
    - intros y Hy. apply Z.ltb_ge. apply elem_of_cons in Hy as [->|Hy]; [by rewrite cmp_refl|].
      apply sorted_suffix in Hs. rewrite Forall_forall in Hs.
      specialize (Hs _ (keys_of_elem (nodes sl) b y Hy)). unfold key_lt in Hs.
      apply (cmp_opp (cmp := compare_)) in Hs. lia.
    - intros y Hy. apply Z.ltb_lt. apply (StronglySorted_app_1_elem_of _ _ _ _ _ Hs).
      + by apply keys_of_elem.
      + left. }
  f_equal. by apply (not_head_path_end sl ids a (x :: b)).
Qed.

Lemma scan_backward_spec n sl ids a b :
  skip_ok sl ids -> ids = a ++ b -> (length a <= n)%nat ->
  scan_backward n sl (last a) = Some (rev (keys_of (nodes sl) a)).
Proof.
  intros H. revert a b. induction n as [|n IH]; intros a b E Hn.
  { destruct a; [done|cbn in Hn; lia]. }
  destruct a as [|x a _] using rev_ind; [done|]. rewrite last_snoc. cbn [scan_backward].
  rewrite length_app in Hn. cbn in Hn.
  rewrite (Prev_spec sl ids a x b) by (done || (rewrite E; by rewrite <- app_assoc)).
  rewrite (IH a (x :: b)) by (lia || (rewrite E; by rewrite <- app_assoc)).
  rewrite keys_of_app, rev_app_distr. done.
Qed.

(** ** What the skip list guarantees

    [represents sl ks]: the list is well formed and holds the keys [ks]. *)
Definition represents (sl : SkipList) (ks : list Key) : Prop :=
  exists ids, skip_ok sl ids /\ keys_of (nodes sl) ids = ks.

Lemma upper_keys sl ids key :
  keys_of (nodes sl) (upper sl key ids)
  = List.filter (fun k => negb (compare_ k key <? 0)) (keys_of (nodes sl) ids).
Proof.
  unfold keys_of, high, is_before. induction ids as [|x ids IH]; [done|]. cbn [List.filter map].
  destruct (negb _); cbn [map]; by rewrite IH.
Qed.

Lemma keys_of_split ns ids a' b' :
  keys_of ns ids = a' ++ b' -> exists a b, ids = a ++ b /\ keys_of ns a = a' /\ keys_of ns b = b'.
Proof.
  intros E. exists (take (length a') ids), (drop (length a') ids). rewrite take_drop.
  split; [done|]. rewrite <- (take_drop (length a') ids), keys_of_app in E.
  assert (length (keys_of ns (take (length a') ids)) = length a') as Hl.
  { apply (f_equal length) in E. rewrite !length_app in E. unfold keys_of in *.
    rewrite !length_map, length_take, length_drop in *. lia. }
  by apply app_inj_1 in E.
Qed.

Lemma represents_make : represents SkipList_make [].
Proof. exists []. split; [apply SkipList_make_ok|done]. Qed.

Lemma represents_sorted sl ks : represents sl ks -> StronglySorted key_lt ks.
Proof. intros (ids & H & <-). apply H. Qed.

Lemma represents_Insert sl ks key :
  represents sl ks -> (forall k, k ∈ ks -> compare_ k key <> 0) ->
  exists sl' a b, Insert sl key = Some sl' /\ ks = a ++ b /\ represents sl' (a ++ key :: b).
Proof.
  intros (ids & Hok & <-) Hne.
  destruct (Insert_spec sl ids key Hok) as (sl' & a & b & n & E & Eids & Hok' & Hk).
  { intros y Hy. apply Hne. by apply keys_of_elem. }
  exists sl', (keys_of (nodes sl) a), (keys_of (nodes sl) b). split_and!; [done| |].
  - by rewrite <- keys_of_app, Eids.
  - by exists (a ++ n :: b).
Qed.

Lemma represents_Seek sl ks target :
  represents sl ks ->
  exists node, Iterator_Seek sl target = Some node /\
    forall n, (length ks <= n)%nat ->
      scan_forward n sl node = List.filter (fun k => negb (compare_ k target <? 0)) ks.
Proof.
  intros (ids & Hok & <-). destruct (FindGreaterOrEqual_spec sl ids target Hok) as (prev & E & _).
  exists (head (upper sl target ids)). unfold Iterator_Seek. rewrite E. split; [done|].
  intros n Hn. rewrite <- upper_keys.
  apply (scan_forward_spec n sl ids (lower sl target ids)); [done|by apply lower_upper|].
  unfold keys_of in Hn. rewrite length_map in Hn. etrans; [apply filter_length_le|done].
Qed.

(** A sequence of insertions. *)
Fixpoint insert_all (sl : SkipList) (keys : list Key) : option SkipList :=
  match keys with
  | [] => Some sl
  | key :: keys =>
      match Insert sl key with
      | Some sl => insert_all sl keys
      | None => None
      end
  end.

Lemma insert_all_represents keys sl ks :
  represents sl ks ->
  ForallOrdPairs (fun a b => compare_ a b <> 0) keys ->
  (forall k key, k ∈ ks -> key ∈ keys -> compare_ k key <> 0) ->
  exists sl' ks', insert_all sl keys = Some sl' /\ represents sl' ks' /\ ks' ≡ₚ ks ++ keys.
Proof.
  revert sl ks. induction keys as [|key keys IH]; intros sl ks Hr Hd Hks; cbn [insert_all].
  { exists sl, ks. by rewrite app_nil_r. }
  inversion_clear Hd as [|? ? Hkey Hd']. rewrite Forall_forall in Hkey.
  destruct (represents_Insert sl ks key Hr) as (sl1 & a & b & E & -> & Hr1).
  { intros k Hk. apply Hks; [done|left]. }
  rewrite E. destruct (IH sl1 _ Hr1 Hd') as (sl' & ks' & E' & Hr' & Hp).
  { intros k k' Hk Hk'. rewrite elem_of_app, elem_of_cons in Hk.
    destruct Hk as [Hk|[->|Hk]]; [| |]; [apply Hks|by apply Hkey|apply Hks]; try (by right);
      rewrite elem_of_app; tauto. }
  exists sl', ks'. split_and!; [done|done|]. rewrite Hp, <- (Permutation_middle a b key).
  cbn [app]. by rewrite Permutation_middle.
Qed.

(** C34: Inserting any sequence of pairwise different keys into an empty skip
    list succeeds; afterwards a forward scan from the first entry returns
    exactly these keys in increasing order and a backward scan from the last
    entry returns them in decreasing order. *)
Theorem skiplist_insert_scan (keys : list Key) :
  ForallOrdPairs (fun a b => compare_ a b <> 0) keys ->
  exists sl ks node,
    insert_all SkipList_make keys = Some sl /\
    ks ≡ₚ keys /\ StronglySorted key_lt ks /\
    scan_forward (length keys) sl (Iterator_SeekToFirst sl) = ks /\
    Iterator_SeekToLast sl = Some node /\
    scan_backward (length keys) sl node = Some (rev ks).
Proof.
  intros Hd. destruct (insert_all_represents keys SkipList_make [] represents_make Hd)
    as (sl & ks & E & (ids & Hok & Hk) & Hp).
  { intros k key Hk. by apply elem_of_nil in Hk. }
  assert (length ids = length keys) as Hl.
  { cbn [app] in Hp. apply Permutation_length in Hp. rewrite <- Hk in Hp.
    unfold keys_of in Hp. by rewrite length_map in Hp. }
  exists sl, ks, (last ids). split_and!; [done|done| | | |].
  - rewrite <- Hk. apply Hok.
  - unfold Iterator_SeekToFirst. rewrite (bottom_next sl ids [] ids Hok eq_refl : Next _ head_ 0 = _), <- Hk.
    apply (scan_forward_spec _ sl ids []); [done|done|lia].
  - unfold Iterator_SeekToLast. rewrite (FindLast_spec sl ids Hok). f_equal.
    apply (not_head_path_end sl ids ids []); [done|by rewrite app_nil_r].
  - rewrite <- Hk. apply (scan_backward_spec _ sl ids ids []); [done|by rewrite app_nil_r|lia].
Qed.

(** Seeking returns, in any well-formed list, and the scan that follows sees
    exactly the keys that are not below the target, in order; [Contains] decides
    whether some key equals the target. *)
Theorem skiplist_seek sl ks target :
  represents sl ks ->
  (exists node, Iterator_Seek sl target = Some node /\
     scan_forward (length ks) sl node = List.filter (fun k => negb (compare_ k target <? 0)) ks) /\
  exists found, Contains sl target = Some found /\
    (found = true <-> exists k, k ∈ ks /\ compare_ target k = 0).
Proof.
  intros Hr. split.
  { destruct (represents_Seek sl ks target Hr) as (node & E & Hs). exists node. split; [done|]. by apply Hs. }
  pose proof Hr as (ids & Hok & Hk). unfold Contains.
  destruct (FindGreaterOrEqual_spec sl ids target Hok) as (prev & E & _). rewrite E.
  pose proof (upper_keys sl ids target) as Hu. rewrite Hk in Hu.
  assert (forall k, k ∈ ks -> compare_ target k = 0 -> k ∈ keys_of (nodes sl) (upper sl target ids)) as Hin.
  { intros k Hks Hc. rewrite Hu. apply elem_of_filter_bool. split; [done|].
    apply (cmp_opp_eq compare_) in Hc. by rewrite Hc. }
  destruct (upper sl target ids) as [|x l] eqn:Eu; cbn [head].
  { exists false. split; [done|]. split; [done|]. intros (k & Hks & Hc). specialize (Hin k Hks Hc).
    by apply elem_of_nil in Hin. }
  exists (Equal target (key_at (nodes sl) x)). split; [done|]. unfold Equal. rewrite Z.eqb_eq. split.
  - intros Hc. exists (key_at (nodes sl) x). split; [|done].
    assert (key_at (nodes sl) x ∈ keys_of (nodes sl) (x :: l)) as Hx by (apply keys_of_elem; left).
    rewrite Hu in Hx. by apply elem_of_filter_bool in Hx as [Hx _].
  - intros (k & Hks & Hc). specialize (Hin k Hks Hc).
    apply elem_of_cons in Hin as [->|Hin]; [done|].
    assert (StronglySorted key_lt (keys_of (nodes sl) (x :: l))) as Hs.
    { pose proof (ok_sorted _ _ Hok) as Hs. rewrite (lower_upper sl ids target Hok), Eu, keys_of_app in Hs.
      by apply StronglySorted_app_1_r in Hs. }
    apply StronglySorted_inv in Hs as [_ Hs]. rewrite Forall_forall in Hs. specialize (Hs k Hin).
    assert (0 <= compare_ (key_at (nodes sl) x) target) as Hx.
    { assert (key_at (nodes sl) x ∈ keys_of (nodes sl) (x :: l)) as Hx by (apply keys_of_elem; left).
      rewrite Hu in Hx. apply elem_of_filter_bool in Hx as [_ Hx]. by apply negb_true_iff, Z.ltb_ge in Hx. }
    apply (cmp_opp_eq compare_) in Hc. unfold key_lt in Hs.
    pose proof (cmp_lt_le_trans compare_ _ k target Hs). lia.
Qed.

End Correct.

End SkipList.

(** ** Witnesses: a list of integers *)

Definition Z_compare (a b : Z) : Z := a - b.

#[export] Instance Z_compare_three_way : ThreeWay Z_compare.
Proof. split; unfold Z_compare; intros; lia. Qed.

Lemma skiplist_insert_scan_witness :
  exists sl ks node,
    insert_all Z_compare 0 (SkipList_make 0) [5; 1; 9; 3] = Some sl /\
    ks ≡ₚ [5; 1; 9; 3] /\ StronglySorted (key_lt Z_compare) ks /\
    scan_forward 0 4 sl (Iterator_SeekToFirst sl) = ks /\
    Iterator_SeekToLast sl = Some node /\
    scan_backward Z_compare 0 4 sl node = Some (rev ks).
Proof.
  apply (skiplist_insert_scan Z_compare 0 [5; 1; 9; 3]).
  repeat constructor; unfold Z_compare; lia.
Defined.

Definition demo_list : SkipList :=
  match insert_all Z_compare 0 (SkipList_make 0) [5; 1; 9; 3] with
  | Some sl => sl
  | None => SkipList_make 0
  end.

(** Its nodes in key order: 1, 3, 5, 9 were allocated as 2, 4, 1, 3. *)
Lemma demo_list_represents : represents Z_compare 0 demo_list [1; 3; 5; 9].
Proof.
  exists [2; 4; 1; 3]%nat. split; [|by vm_compute]. split.
  - by vm_compute.
  - vm_compute. lia.
  - intros x Hx. repeat apply elem_of_cons in Hx as [->|Hx]; try (vm_compute; lia).
    by apply elem_of_nil in Hx.
  - apply (bool_decide_unpack _). by vm_compute.
  - vm_compute. repeat constructor.
  - intros i Hi. unfold kMaxHeight in Hi.
    do 12 (destruct i as [|i]; [vm_compute; repeat split|]). lia.
Qed.

Lemma skiplist_seek_witness :
  (exists node, Iterator_Seek Z_compare 0 demo_list 4 = Some node /\
     scan_forward 0 4 demo_list node = [5; 9]) /\
  exists found, Contains Z_compare 0 demo_list 4 = Some found /\
    (found = true <-> exists k, k ∈ [1; 3; 5; 9] /\ Z_compare 4 k = 0).
Proof.
  exact (skiplist_seek Z_compare 0 demo_list [1; 3; 5; 9] 4 demo_list_represents).
Defined.
