(* ===== verification/MemTable.v ===== *)
(** * The memtable

    [db/memtable.h] and [db/memtable.cc]: entries are byte arrays (length-prefixed
    internal key, length-prefixed value) kept in a skip list ordered by internal
    key.  A skip list key is a [const char*] to such an array; it is modelled by
    the bytes that start there.

    The main result is the lookup theorem: [Get] answers from the newest entry
    of the user key that is visible at the requested sequence number. *)

From S2P Require Import Prelude Slice Coding Status Logging Comparator DbFormat Random Arena SkipList.

(** [GetLengthPrefixedSlice] of a pointer: at most five bytes are looked at for
    the length; also returned is what follows the slice.  The entry is assumed
    not to be corrupted; the model yields empty slices otherwise. *)
Definition prefixed_slice (data : bytes) : bytes * bytes :=
  match GetVarint32Ptr (ztake 5 data) with
  | Some (len, rest) =>
      let p := zdrop (blen (ztake 5 data) - blen rest) data in
      (ztake len p, zdrop len p)
  | None => ([], [])
  end.

(** What [Add] stores: the entry's parts. *)
Record Entry := mkEntry { e_seq : Z; e_type : ValueType; e_key : bytes; e_value : bytes }.

(** The buffer [Add] fills. *)
Definition encode_entry (s : Z) (t : ValueType) (key value : bytes) : bytes :=
  let internal_key_size := blen key + 8 in
  EncodeVarint32 (u32 internal_key_size) ++ key ++
  EncodeFixed64 (Z.lor (u64 (Z.shiftl s 8)) (ValueType_value t)) ++
  EncodeVarint32 (u32 (blen value)) ++ value.

(** [encoded_len], the size [Add] allocates. *)
Definition encoded_len (key value : bytes) : Z :=
  let internal_key_size := blen key + 8 in
  VarintLength internal_key_size + internal_key_size + VarintLength (blen value) + blen value.

(** [EncodeKey] *)
Definition EncodeKey (target : bytes) : bytes := PutVarint32 [] (u32 (blen target)) ++ target.

Inductive GetResult := Found (value : bytes) | Deleted (s : Status) | Absent.

Section MemTable.

Context (user_comparator : Comparator).

(** [KeyComparator::operator()] *)
Definition KeyComparator (a b : bytes) : Z :=
  Compare (InternalKeyComparator user_comparator) (fst (prefixed_slice a)) (fst (prefixed_slice b)).

Record MemTable := mkMemTable { mem_refs_ : Z; table_ : @SkipList bytes }.

Definition MemTable_make : MemTable := mkMemTable 0 (SkipList_make []).

Definition Ref (m : MemTable) : MemTable := mkMemTable (mem_refs_ m + 1) (table_ m).

(** [Unref]: [None] once the object is deleted. *)
Definition Unref (m : MemTable) : option MemTable :=
  let refs := mem_refs_ m - 1 in
  if refs <=? 0 then None else Some (mkMemTable refs (table_ m)).

(** [ApproximateMemoryUsage].  Nodes are kept in the order they were made, so what
    the memtable has asked of its arena is read off the list: the head, then for
    each entry its buffer and its node. *)
Definition node_size (height : nat) : Z := 16 + 8 * (Z.of_nat height - 1).

Definition mem_requests (m : MemTable) : list Request :=
  RAligned (node_size kMaxHeight) ::
  concat (map (fun n => [RBytes (blen (node_key n)); RAligned (node_size (length (next_ n)))]) (tail (nodes (table_ m)))).

Definition ApproximateMemoryUsage (m : MemTable) : option Z :=
  '(_, arena) ← serve_all Arena_make (mem_requests m); Some (MemoryUsage arena).

Definition Add (m : MemTable) (s : Z) (t : ValueType) (key value : bytes) : option MemTable :=
  match Insert KeyComparator [] (table_ m) (encode_entry s t key value) with
  | Some table => Some (mkMemTable (mem_refs_ m) table)
  | None => None
  end.

(** [Get]; [None] would be a search that does not return. *)
Definition Get (m : MemTable) (key : LookupKey) : option GetResult :=
  match Iterator_Seek KeyComparator [] (table_ m) (memtable_key key) with
  | None => None
  | Some node =>
      match Iterator_key [] (table_ m) node with
      | None => Some Absent
      | Some entry =>
          match GetVarint32Ptr (ztake 5 entry) with
          | None => Some Absent      (* corrupted entry, excluded by the source's comment *)
          | Some (key_length, rest) =>
              let key_ptr := zdrop (blen (ztake 5 entry) - blen rest) entry in
              if Compare user_comparator (ztake (key_length - 8) key_ptr) (lookup_user_key key) =? 0
              then
                let tag := DecodeFixed64 (zdrop (key_length - 8) key_ptr) in
                let c := Z.land tag 0xff in
                if c =? ValueType_value kTypeValue
                then Some (Found (fst (prefixed_slice (zdrop key_length key_ptr))))
                else if c =? ValueType_value kTypeDeletion
                then Some (Deleted (NotFound [] []))
                else Some Absent
              else Some Absent
          end
      end
  end.

(** ** [MemTableIterator]: a skip list iterator with decoded keys *)

Definition MemIter_Seek (m : MemTable) (k : bytes) : option (option nat) :=
  Iterator_Seek KeyComparator [] (table_ m) (EncodeKey k).
Definition MemIter_SeekToFirst (m : MemTable) : option nat := Iterator_SeekToFirst (table_ m).
Definition MemIter_SeekToLast (m : MemTable) : option (option nat) := Iterator_SeekToLast (table_ m).
Definition MemIter_Next (m : MemTable) (node : option nat) : option (option nat) :=
  Iterator_Next (table_ m) node.
Definition MemIter_Prev (m : MemTable) (node : option nat) : option (option nat) :=
  Iterator_Prev KeyComparator [] (table_ m) node.
Definition MemIter_key (m : MemTable) (node : option nat) : option bytes :=
  match Iterator_key [] (table_ m) node with
  | Some e => Some (fst (prefixed_slice e))
  | None => None
  end.
Definition MemIter_value (m : MemTable) (node : option nat) : option bytes :=
  match Iterator_key [] (table_ m) node with
  | Some e => Some (fst (prefixed_slice (snd (prefixed_slice e))))
  | None => None
  end.

(** ** Entries *)

(** Sizes and sequence numbers within the format's limits. *)
Record entry_ok (e : Entry) : Prop := {
  entry_seq : 0 <= e_seq e <= kMaxSequenceNumber;
  entry_key_size : blen (e_key e) + 8 < 2 ^ 32;
  entry_value_size : blen (e_value e) < 2 ^ 32
}.

Definition encode (e : Entry) : bytes := encode_entry (e_seq e) (e_type e) (e_key e) (e_value e).

(** The internal key of an entry. *)
Definition ikey (e : Entry) : bytes :=
  AppendInternalKey [] (mkParsedInternalKey (e_key e) (e_seq e) (e_type e)).

Lemma encode_ikey e :
  encode e = EncodeVarint32 (u32 (blen (e_key e) + 8)) ++ ikey e ++
             EncodeVarint32 (u32 (blen (e_value e))) ++ e_value e.
Proof. unfold encode, encode_entry, ikey, AppendInternalKey, PutFixed64. cbn. by rewrite <- app_assoc. Qed.

Lemma blen_ikey e : blen (ikey e) = blen (e_key e) + 8.
Proof.
  unfold ikey, AppendInternalKey, PutFixed64. cbn [app user_key]. by rewrite blen_app, blen_EncodeFixed64.
Qed.

Lemma EncodeVarint32_length n : 0 <= n < 2 ^ 32 -> blen (EncodeVarint32 n) <= 5.
Proof. intros Hn. unfold EncodeVarint32. repeat case_match; unfold blen; cbn [length]; lia. Qed.

(** The five-byte window always contains the whole length. *)
Lemma window_varint n X :
  0 <= n < 2 ^ 32 ->
  exists rest, GetVarint32Ptr (ztake 5 (EncodeVarint32 n ++ X)) = Some (n, rest) /\
    zdrop (blen (ztake 5 (EncodeVarint32 n ++ X)) - blen rest) (EncodeVarint32 n ++ X) = X.
Proof.
  intros Hn. pose proof (EncodeVarint32_length n Hn). rewrite ztake_app_ge by lia.
  exists (ztake (5 - blen (EncodeVarint32 n)) X). split.
  - exact (GetVarint32_Encode n _ Hn).
  - rewrite blen_app. apply zdrop_app. lia.
Qed.

Lemma prefixed_slice_encode s X :
  blen s < 2 ^ 32 -> prefixed_slice (EncodeVarint32 (u32 (blen s)) ++ s ++ X) = (s, X).
Proof.
  intros Hs. pose proof (blen_nonneg s). rewrite u32_small by lia. unfold prefixed_slice.
  destruct (window_varint (blen s) (s ++ X) ltac:(lia)) as (rest & -> & ->).
  by rewrite ztake_app, zdrop_app.
Qed.

Lemma prefixed_entry e :
  entry_ok e ->
  prefixed_slice (encode e) = (ikey e, EncodeVarint32 (u32 (blen (e_value e))) ++ e_value e).
Proof.
  intros He. rewrite encode_ikey, <- blen_ikey. apply prefixed_slice_encode.
  rewrite blen_ikey. apply He.
Qed.

Lemma prefixed_value e :
  entry_ok e -> prefixed_slice (EncodeVarint32 (u32 (blen (e_value e))) ++ e_value e) = (e_value e, []).
Proof.
  intros He. rewrite <- (app_nil_r (e_value e)) at 2. apply prefixed_slice_encode, He.
Qed.

(** ** The order of entries *)

Context {L : ComparatorLaws user_comparator}.

#[export] Instance KeyComparator_three_way : ThreeWay KeyComparator.
Proof.
  exact (ThreeWay_image (Compare (InternalKeyComparator user_comparator)) (fun a => fst (prefixed_slice a))).
Qed.

(** The tag of an entry orders its versions. *)
Definition tag (e : Entry) : Z := PackSequenceAndType (e_seq e) (e_type e).

Lemma tag_spec e : entry_ok e -> tag e = ValueType_value (e_type e) + e_seq e * 2 ^ 8.
Proof. intros He. apply PackSequenceAndType_add, He. Qed.

Lemma ikey_parts e : entry_ok e -> ExtractUserKey (ikey e) = e_key e /\ key_tag (ikey e) = tag e.
Proof.
  intros He. unfold ikey, AppendInternalKey, PutFixed64. cbn [app user_key sequence type].
  rewrite ExtractUserKey_app, key_tag_app; [done|]. apply PackSequenceAndType_range, He.
Qed.

(** Comparison of stored entries, and with a lookup key. *)
Lemma KeyComparator_parts a b ua ub ta tb ka kb :
  fst (prefixed_slice a) = ka -> fst (prefixed_slice b) = kb ->
  ExtractUserKey ka = ua -> key_tag ka = ta -> ExtractUserKey kb = ub -> key_tag kb = tb ->
  KeyComparator a b =
  (if Compare user_comparator ua ub =? 0 then Z.sgn (tb - ta) else Compare user_comparator ua ub).
Proof.
  intros <- <- <- <- <- <-. unfold KeyComparator. cbn [Compare InternalKeyComparator].
  apply ikey_Compare_spec.
Qed.

Lemma KeyComparator_entries e e' :
  entry_ok e -> entry_ok e' ->
  KeyComparator (encode e) (encode e') =
  (if Compare user_comparator (e_key e) (e_key e') =? 0 then Z.sgn (tag e' - tag e)
   else Compare user_comparator (e_key e) (e_key e')).
Proof.
  intros He He'. destruct (ikey_parts e He) as [E1 E2]. destruct (ikey_parts e' He') as [E3 E4].
  eapply KeyComparator_parts; eauto; by rewrite prefixed_entry.
Qed.

Lemma blen_internal_key u s : blen (internal_key (LookupKey_make u s)) = blen u + 8.
Proof.
  destruct (LookupKey_parts u s) as (_ & -> & _). unfold AppendInternalKey, PutFixed64.
  cbn [app user_key]. by rewrite blen_app, blen_EncodeFixed64.
Qed.

Lemma lookup_prefixed u s :
  blen u + 8 < 2 ^ 32 ->
  prefixed_slice (memtable_key (LookupKey_make u s)) = (internal_key (LookupKey_make u s), []).
Proof.
  intros Hu. destruct (LookupKey_parts u s) as (-> & _ & _).
  rewrite <- (blen_internal_key u s) in *.
  pose proof (prefixed_slice_encode (internal_key (LookupKey_make u s)) [] Hu) as E.
  by rewrite app_nil_r in E.
Qed.

Lemma KeyComparator_lookup e u s :
  entry_ok e -> blen u + 8 < 2 ^ 32 -> 0 <= s <= kMaxSequenceNumber ->
  KeyComparator (encode e) (memtable_key (LookupKey_make u s)) =
  (if Compare user_comparator (e_key e) u =? 0 then Z.sgn (PackSequenceAndType s kValueTypeForSeek - tag e)
   else Compare user_comparator (e_key e) u).
Proof.
  intros He Hu Hs. destruct (ikey_parts e He) as [E1 E2].
  destruct (LookupKey_parts u s) as (_ & Hi & _).
  apply (KeyComparator_parts _ _ _ _ _ _ (ikey e) (internal_key (LookupKey_make u s)));
    [by rewrite prefixed_entry|by rewrite lookup_prefixed|done|done| |];
    rewrite Hi; unfold AppendInternalKey, PutFixed64; cbn [app user_key sequence type].
  - apply ExtractUserKey_app.
  - apply key_tag_app. by apply PackSequenceAndType_range.
Qed.

(** An entry is visible at [s] iff it is not before the lookup key. *)
Lemma visible_iff e s :
  entry_ok e -> 0 <= s <= kMaxSequenceNumber ->
  (e_seq e <= s <-> tag e <= PackSequenceAndType s kValueTypeForSeek).
Proof.
  intros He Hs. rewrite tag_spec by done. rewrite PackSequenceAndType_add by done.
  change (ValueType_value kValueTypeForSeek) with 1. pose proof (ValueType_value_range (e_type e)). lia.
Qed.

(** ** What a memtable holds *)

(** The entries, in the order of their internal keys. *)
Definition holds (m : MemTable) (es : list Entry) : Prop :=
  Forall entry_ok es /\ represents KeyComparator [] (table_ m) (map encode es).

(** No two entries have the same internal key. *)
Definition different (e e' : Entry) : Prop :=
  ~ (Compare user_comparator (e_key e) (e_key e') = 0 /\ tag e = tag e').

Lemma different_compare e e' :
  entry_ok e -> entry_ok e' -> different e e' -> KeyComparator (encode e) (encode e') <> 0.
Proof.
  intros He He' Hd. rewrite KeyComparator_entries by done.
  destruct (Z.eqb_spec (Compare user_comparator (e_key e) (e_key e')) 0); [|done].
  intros E. apply Hd. split; [done|]. lia.
Qed.

Lemma Add_holds m es e :
  holds m es -> entry_ok e -> (forall e', e' ∈ es -> different e' e) ->
  exists m' a b, Add m (e_seq e) (e_type e) (e_key e) (e_value e) = Some m' /\
    es = a ++ b /\ holds m' (a ++ e :: b).
Proof.
  intros [Hok Hr] He Hd. rewrite Forall_forall in Hok. unfold Add. fold (encode e).
  destruct (represents_Insert KeyComparator [] (table_ m) _ (encode e) Hr) as (sl & a' & b' & -> & E & Hr').
  { intros k Hk. apply list_elem_of_In, in_map_iff in Hk as (e' & <- & Hin).
    apply list_elem_of_In in Hin. apply different_compare; auto. }
  apply map_eq_app in E as (a & b & -> & <- & <-).
  exists (mkMemTable (mem_refs_ m) sl), a, b. split_and!; [done|done|]. split.
  - apply Forall_forall. intros x Hx. rewrite elem_of_app, elem_of_cons in Hx.
    destruct Hx as [?|[->|?]]; [|done|]; apply Hok, elem_of_app; auto.
  - by rewrite map_app.
Qed.

(** A sequence of writes. *)
Fixpoint add_all (m : MemTable) (es : list Entry) : option MemTable :=
  match es with
  | [] => Some m
  | e :: es =>
      match Add m (e_seq e) (e_type e) (e_key e) (e_value e) with
      | Some m => add_all m es
      | None => None
      end
  end.

Lemma add_all_holds adds m es :
  holds m es -> Forall entry_ok adds -> ForallOrdPairs different adds ->
  (forall e e', e ∈ es -> e' ∈ adds -> different e e') ->
  exists m' es', add_all m adds = Some m' /\ holds m' es' /\ es' ≡ₚ es ++ adds.
Proof.
  revert m es. induction adds as [|e adds IH]; intros m es Hh Hok Hd Hes; cbn [add_all].
  { exists m, es. by rewrite app_nil_r. }
  inversion_clear Hok as [|? ? He Hok']. inversion_clear Hd as [|? ? Hde Hd'].
  rewrite Forall_forall in Hde.
  destruct (Add_holds m es e Hh He) as (m1 & a & b & E & -> & Hh1).
  { intros e' He'. apply Hes; [done|left]. }
  rewrite E. destruct (IH m1 _ Hh1 Hok' Hd') as (m' & es' & E' & Hh' & Hp).
  { intros x y Hx Hy. rewrite elem_of_app, elem_of_cons in Hx.
    destruct Hx as [Hx|[->|Hx]]; [| by apply Hde |]; apply Hes; try (by right); rewrite elem_of_app; auto. }
  exists m', es'. split_and!; [done|done|]. rewrite Hp, <- (Permutation_middle a b e).
  cbn [app]. by rewrite Permutation_middle.
Qed.

Lemma holds_make : holds MemTable_make [].
Proof. split; [constructor|]. apply represents_make. Qed.

(** ** Lookup *)

(** The entries of a user key that a reader at sequence number [s] may see. *)
Definition visible (u : bytes) (s : Z) (e : Entry) : Prop :=
  Compare user_comparator (e_key e) u = 0 /\ e_seq e <= s.

(** The specification of a lookup: the newest visible entry decides. *)
Definition answers (es : list Entry) (u : bytes) (s : Z) (r : GetResult) : Prop :=
  match r with
  | Absent => forall e, e ∈ es -> ~ visible u s e
  | Found v =>
      exists e, e ∈ es /\ visible u s e /\ (forall e', e' ∈ es -> visible u s e' -> e_seq e' <= e_seq e) /\
        e_type e = kTypeValue /\ v = e_value e
  | Deleted st =>
      exists e, e ∈ es /\ visible u s e /\ (forall e', e' ∈ es -> visible u s e' -> e_seq e' <= e_seq e) /\
        e_type e = kTypeDeletion /\ st = NotFound [] []
  end.

(** What [Get] makes of the entry it finds. *)
Definition read_entry (u : bytes) (e : Entry) : GetResult :=
  if Compare user_comparator (e_key e) u =? 0 then
    match e_type e with
    | kTypeValue => Found (e_value e)
    | kTypeDeletion => Deleted (NotFound [] [])
    end
  else Absent.

Lemma Get_entry m u s e x :
  entry_ok e -> Iterator_Seek KeyComparator [] (table_ m) (memtable_key (LookupKey_make u s)) = Some (Some x) ->
  key_at [] (nodes (table_ m)) x = encode e ->
  Get m (LookupKey_make u s) = Some (read_entry u e).
Proof.
  intros He Hs Hx. unfold Get. rewrite Hs. cbn [Iterator_key]. rewrite Hx, encode_ikey.
  pose proof (entry_key_size e He). pose proof (blen_nonneg (e_key e)). rewrite u32_small by lia.
  set (V := EncodeVarint32 (u32 (blen (e_value e))) ++ e_value e).
  destruct (window_varint (blen (e_key e) + 8) (ikey e ++ V) ltac:(lia)) as (rest & -> & ->).
  destruct (LookupKey_parts u s) as (_ & _ & ->).
  replace (blen (e_key e) + 8 - 8) with (blen (e_key e)) by lia.
  assert (ikey e = e_key e ++ EncodeFixed64 (tag e)) as Ek by done.
  assert (0 <= tag e < 2 ^ 64) as Ht by (apply PackSequenceAndType_range, He).
  rewrite Ek, <- !app_assoc, ztake_app, zdrop_app by done. rewrite DecodeFixed64_Encode, u64_small by done.
  unfold read_entry. destruct (Compare user_comparator (e_key e) u =? 0); [|done].
  assert (Z.land (tag e) 255 = ValueType_value (e_type e)) as ->.
  { change 255 with (Z.ones 8). rewrite Z.land_ones, tag_spec, Z.mod_add by (done || lia).
    pose proof (ValueType_value_range (e_type e)). apply Z.mod_small. lia. }
  rewrite app_assoc, <- Ek, zdrop_app by (by rewrite blen_ikey).
  destruct (e_type e); cbn [ValueType_value Z.eqb]; [done|].
  unfold V. by rewrite prefixed_value.
Qed.

Lemma filter_map_bool {A B} (f : A -> B) (p : B -> bool) l :
  List.filter p (map f l) = map f (List.filter (fun x => p (f x)) l).
Proof.
  induction l as [|x l IH]; [done|]. cbn. destruct (p (f x)); cbn; by rewrite IH.
Qed.

(** The entries at or after the lookup key, and their order. *)
Lemma Get_first m es u s :
  holds m es -> blen u + 8 < 2 ^ 32 -> 0 <= s <= kMaxSequenceNumber ->
  exists node,
    Iterator_Seek KeyComparator [] (table_ m) (memtable_key (LookupKey_make u s)) = Some node /\
    match node with
    | None => forall e, e ∈ es -> KeyComparator (encode e) (memtable_key (LookupKey_make u s)) < 0
    | Some x =>
        exists e, e ∈ es /\ key_at [] (nodes (table_ m)) x = encode e /\
          0 <= KeyComparator (encode e) (memtable_key (LookupKey_make u s)) /\
          forall e', e' ∈ es -> 0 <= KeyComparator (encode e') (memtable_key (LookupKey_make u s)) ->
            KeyComparator (encode e) (encode e') <= 0
    end.
Proof.
  intros [Hok Hr] Hu Hs. set (target := memtable_key (LookupKey_make u s)).
  destruct (represents_Seek KeyComparator [] (table_ m) _ target Hr) as (node & E & Hscan).
  exists node. split; [done|]. specialize (Hscan (S (length (map encode es))) ltac:(lia)).
  rewrite filter_map_bool in Hscan.
  set (p := fun e => negb (KeyComparator (encode e) target <? 0)) in *.
  assert (forall e, e ∈ List.filter p es <-> e ∈ es /\ 0 <= KeyComparator (encode e) target) as Hp.
  { intros e. rewrite elem_of_filter_bool. unfold p. rewrite negb_true_iff, Z.ltb_ge. done. }
  destruct node as [x|]; cbn [scan_forward] in Hscan.
  - destruct (List.filter p es) as [|e rest] eqn:Ef; [done|]. cbn [map] in Hscan.
    injection Hscan as Hx Hrest. exists e.
    destruct (proj1 (Hp e) ltac:(left)) as [Hin Hge]. split_and!; [done|done|done|].
    intros e' Hin' Hge'. pose proof (proj2 (Hp e') (conj Hin' Hge')) as Hf.
    apply elem_of_cons in Hf as [->|Hf]; [by rewrite cmp_refl|].
    assert (StronglySorted (key_lt KeyComparator) (map encode (e :: rest))) as Hsort.
    { rewrite <- Ef, <- (filter_map_bool encode (fun k => negb (KeyComparator k target <? 0))).
      apply StronglySorted_filter_bool. by apply (represents_sorted KeyComparator [] (table_ m)). }
    apply StronglySorted_inv in Hsort as [_ Hall]. rewrite Forall_forall in Hall.
    apply Z.lt_le_incl, Hall. apply list_elem_of_In, in_map. by apply list_elem_of_In.
  - intros e Hin. destruct (Z.lt_ge_cases (KeyComparator (encode e) target) 0) as [|Hge]; [done|].
    pose proof (proj2 (Hp e) (conj Hin Hge)) as Hf. destruct (List.filter p es); [by apply elem_of_nil in Hf|done].
Qed.

Lemma Get_holds m es u s :
  holds m es -> blen u + 8 < 2 ^ 32 -> 0 <= s <= kMaxSequenceNumber ->
  exists r, Get m (LookupKey_make u s) = Some r /\ answers es u s r.
Proof.
  intros Hh Hu Hs. pose proof Hh as [Hok _]. rewrite Forall_forall in Hok.
  assert (forall e, e ∈ es -> visible u s e ->
    0 <= KeyComparator (encode e) (memtable_key (LookupKey_make u s))) as Hvis.
  { intros e Hin [Hk Hv]. rewrite KeyComparator_lookup by auto. rewrite Hk. cbn [Z.eqb].
    apply (visible_iff e s) in Hv; [lia|auto|done]. }
  destruct (Get_first m es u s Hh Hu Hs) as ([x|] & E & Hx).
  - destruct Hx as (e & Hin & Hkey & Hge & Hmin). exists (read_entry u e).
    split; [by apply (Get_entry m u s e x); [apply Hok| |]|].
    rewrite KeyComparator_lookup in Hge by auto. unfold read_entry.
    destruct (Z.eqb_spec (Compare user_comparator (e_key e) u) 0) as [Hk|Hk].
    + assert (visible u s e) as Hv by (split; [done|]; apply (visible_iff e s); [auto|done|lia]).
      assert (forall e', e' ∈ es -> visible u s e' -> e_seq e' <= e_seq e) as Hmax.
      { intros e' Hin' Hv'. specialize (Hmin e' Hin' (Hvis e' Hin' Hv')).
        rewrite KeyComparator_entries in Hmin by auto. destruct Hv' as [Hk' _].
        apply (cmp_opp_eq (Compare user_comparator)) in Hk'.
        rewrite (cmp_eq_trans (Compare user_comparator) _ _ _ Hk Hk') in Hmin. cbn [Z.eqb] in Hmin.
        rewrite !tag_spec in Hmin by auto. pose proof (ValueType_value_range (e_type e)).
        pose proof (ValueType_value_range (e_type e')). lia. }
      destruct (e_type e) eqn:Et; exists e; by rewrite Et.
    + intros e' Hin' Hv'. specialize (Hmin e' Hin' (Hvis e' Hin' Hv')). destruct Hv' as [Hk' _].
      rewrite KeyComparator_entries in Hmin by auto.
      assert (Compare user_comparator (e_key e) u <= 0).
      { apply (cmp_le_trans (cmp := Compare user_comparator) _ (e_key e')); [|lia].
        destruct (Z.eqb_spec (Compare user_comparator (e_key e) (e_key e')) 0); lia. }
      lia.
  - exists Absent. split; [unfold Get; by rewrite E|]. intros e Hin Hv.
    specialize (Hx e Hin). specialize (Hvis e Hin Hv). lia.
Qed.

Lemma answers_perm es es' u s r : es ≡ₚ es' -> answers es u s r -> answers es' u s r.
Proof.
  intros Hp. assert (forall e, e ∈ es <-> e ∈ es') as He by (intros e; by rewrite Hp).
  destruct r as [v|st|]; cbn [answers].
  - intros (e & H1 & H2 & H3 & H4 & H5). exists e. rewrite <- He.
    split_and!; try done. intros e' He'. rewrite <- He in He'. auto.
  - intros (e & H1 & H2 & H3 & H4 & H5). exists e. rewrite <- He.
    split_and!; try done. intros e' He'. rewrite <- He in He'. auto.
  - intros H e. rewrite <- He. apply H.
Qed.

(** ** Properties *)

(** C29: After any sequence of writes with distinct internal keys, a lookup of a
    user key at a sequence number answers from the newest write of that key
    that is not newer than the sequence number: its value if it was a put,
    [NotFound] if it was a deletion, and nothing if there is no such write.
    Both the writes and the lookup always return. *)
Theorem memtable_get adds :
  Forall entry_ok adds -> ForallOrdPairs different adds ->
  exists m, add_all MemTable_make adds = Some m /\
  forall u s, blen u + 8 < 2 ^ 32 -> 0 <= s <= kMaxSequenceNumber ->
    exists r, Get m (LookupKey_make u s) = Some r /\ answers adds u s r.
Proof.
  intros Hok Hd. destruct (add_all_holds adds MemTable_make [] holds_make Hok Hd) as (m & es & E & Hh & Hp).
  { intros e e' He. by apply elem_of_nil in He. }
  exists m. split; [done|]. intros u s Hu Hs.
  destruct (Get_holds m es u s Hh Hu Hs) as (r & Hr & Ha). exists r. split; [done|].
  by apply (answers_perm es).
Qed.

(** The keys and values a loop of [key(); value(); Next();] sees. *)
Fixpoint mem_scan (n : nat) (m : MemTable) (node : option nat) : list (bytes * bytes) :=
  match n, MemIter_key m node, MemIter_value m node, MemIter_Next m node with
  | S n, Some k, Some v, Some node' => (k, v) :: mem_scan n m node'
  | _, _, _, _ => []
  end.

Lemma mem_scan_forward n m node :
  mem_scan n m node =
  map (fun e => (fst (prefixed_slice e), fst (prefixed_slice (snd (prefixed_slice e)))))
      (scan_forward [] n (table_ m) node).
Proof.
  revert node. induction n as [|n IH]; intros [x|]; try done.
  cbn [mem_scan MemIter_key MemIter_value MemIter_Next Iterator_key Iterator_Next scan_forward map].
  by rewrite IH.
Qed.

(** The entries of a memtable are in the order of their internal keys. *)
Lemma holds_sorted m es :
  holds m es -> StronglySorted (fun a b => Compare (InternalKeyComparator user_comparator) a b < 0) (map ikey es).
Proof.
  intros [Hes Hr]. apply represents_sorted in Hr. induction es as [|e es IH]; [constructor|].
  inversion_clear Hes as [|? ? He Hes']. apply StronglySorted_inv in Hr as [Hr Hall].
  cbn [map]. constructor; [by apply IH|]. rewrite Forall_forall in Hall. rewrite Forall_forall in Hes'. apply Forall_forall.
  intros k Hk. apply list_elem_of_In, in_map_iff in Hk as (e' & <- & Hin).
  specialize (Hall (encode e')). unfold key_lt, KeyComparator in Hall.
  rewrite (prefixed_entry e), (prefixed_entry e') in Hall by (done || by apply Hes', list_elem_of_In).
  apply Hall. apply list_elem_of_In. by apply in_map.
Qed.

(** Iterating over a memtable yields each write once, as internal key and
    value, in the order of the internal keys: by user key, and for one user key
    from the newest to the oldest write. *)
Theorem memtable_scan adds :
  Forall entry_ok adds -> ForallOrdPairs different adds ->
  exists m es, add_all MemTable_make adds = Some m /\ es ≡ₚ adds /\
    mem_scan (length adds) m (MemIter_SeekToFirst m) = map (fun e => (ikey e, e_value e)) es /\
    StronglySorted (fun a b => Compare (InternalKeyComparator user_comparator) a b < 0) (map ikey es).
Proof.
  intros Hok Hd. destruct (add_all_holds adds MemTable_make [] holds_make Hok Hd) as (m & es & E & Hh & Hp).
  { intros e e' He. by apply elem_of_nil in He. }
  exists m, es. pose proof Hh as [Hes Hr]. split_and!; [done|done| |].
  - rewrite mem_scan_forward. destruct Hr as (ids & Hsk & Hk).
    unfold MemIter_SeekToFirst, Iterator_SeekToFirst.
    rewrite (bottom_next KeyComparator [] (table_ m) ids [] ids Hsk eq_refl : Next _ head_ 0 = _).
    rewrite (scan_forward_spec KeyComparator [] _ _ ids [] ids) by
      (done || (apply (f_equal length) in Hk; apply Permutation_length in Hp; unfold keys_of in Hk;
                rewrite !length_map in Hk; cbn in Hp; lia)).
    rewrite Hk, map_map. apply map_ext_in. intros e He. apply list_elem_of_In in He.
    rewrite Forall_forall in Hes. rewrite prefixed_entry by auto. cbn [fst snd].
    by rewrite prefixed_value by auto.
  - by apply (holds_sorted m).
Qed.

(** C39: The buffer allocated for an entry has exactly the entry's length, for
    keys and values within the 32-bit length fields: nothing is written past
    it. *)
Theorem memtable_entry_size s t key value :
  blen key + 8 < 2 ^ 32 -> blen value < 2 ^ 32 ->
  blen (encode_entry s t key value) = encoded_len key value.
Proof.
  intros Hk Hv. pose proof (blen_nonneg key). pose proof (blen_nonneg value).
  unfold encode_entry, encoded_len. rewrite !blen_app, blen_EncodeFixed64.
  rewrite !VarintLength_Encode by lia. rewrite !u32_small by lia.
  rewrite <- !EncodeVarint64_32 by lia. lia.
Qed.

End MemTable.

(** ** Witnesses: two writes and a deletion *)

Definition demo_adds : list Entry :=
  [mkEntry 1 kTypeValue (str "a") (str "x"); mkEntry 2 kTypeValue (str "b") (str "y");
   mkEntry 3 kTypeDeletion (str "a") []].

Lemma memtable_get_witness :
  exists m, add_all BytewiseComparator MemTable_make demo_adds = Some m /\
  forall u s, blen u + 8 < 2 ^ 32 -> 0 <= s <= kMaxSequenceNumber ->
    exists r, Get BytewiseComparator m (LookupKey_make u s) = Some r /\
              answers BytewiseComparator demo_adds u s r.
Proof.
  apply (memtable_get BytewiseComparator demo_adds).
  - unfold demo_adds. repeat (constructor; [split; by vm_compute|]). constructor.
  - unfold demo_adds. repeat constructor; intros [Hc Ht]; vm_compute in Hc, Ht; congruence.
Defined.

Lemma memtable_scan_witness :
  exists m es, add_all BytewiseComparator MemTable_make demo_adds = Some m /\ es ≡ₚ demo_adds /\
    mem_scan 3 m (MemIter_SeekToFirst m) = map (fun e => (ikey e, e_value e)) es /\
    StronglySorted (fun a b => Compare (InternalKeyComparator BytewiseComparator) a b < 0) (map ikey es).
Proof.
  apply (memtable_scan BytewiseComparator demo_adds).
  - unfold demo_adds. repeat (constructor; [split; by vm_compute|]). constructor.
  - unfold demo_adds. repeat constructor; intros [Hc Ht]; vm_compute in Hc, Ht; congruence.
Defined.

Lemma memtable_entry_size_witness :
  blen (encode_entry 1 kTypeValue (str "a") (str "x")) = encoded_len (str "a") (str "x").
Proof. apply memtable_entry_size; by vm_compute. Defined.
