(* ===== verification/WriteBatch.v ===== *)
(** * Write batches

    [include/leveldb/write_batch.h], [db/write_batch_internal.h] and
    [db/write_batch.cc]: a batch is one byte string, a twelve-byte header
    (sequence number, count) followed by the operations.  The theorems show that
    iterating over a batch replays exactly the operations that were put into it,
    and that inserting it into a memtable numbers them consecutively. *)

From S2P Require Import Prelude Slice Coding Status Logging Comparator DbFormat Random SkipList MemTable.

Definition kHeader : Z := 12.

Record WriteBatch := mkWriteBatch { wb_rep_ : bytes }.

Definition WriteBatch_Clear : WriteBatch := mkWriteBatch (replicate (Z.to_nat kHeader) x00).
Definition WriteBatch_make : WriteBatch := WriteBatch_Clear.

Definition ApproximateSize (b : WriteBatch) : Z := blen (wb_rep_ b).

(** ** [WriteBatchInternal] *)

Definition Count (b : WriteBatch) : Z := i32 (DecodeFixed32 (zdrop 8 (wb_rep_ b))).

(** [EncodeFixed32(&b->rep_[8], n)] *)
Definition SetCount (b : WriteBatch) (n : Z) : WriteBatch :=
  mkWriteBatch (ztake 8 (wb_rep_ b) ++ EncodeFixed32 (u32 n) ++ zdrop 12 (wb_rep_ b)).

Definition Sequence (b : WriteBatch) : Z := DecodeFixed64 (wb_rep_ b).

Definition SetSequence (b : WriteBatch) (seq : Z) : WriteBatch :=
  mkWriteBatch (EncodeFixed64 seq ++ zdrop 8 (wb_rep_ b)).

Definition Contents (b : WriteBatch) : bytes := wb_rep_ b.
Definition ByteSize (b : WriteBatch) : Z := blen (wb_rep_ b).
Definition SetContents (contents : bytes) : WriteBatch := mkWriteBatch contents.

Definition batch_Append (dst src : WriteBatch) : WriteBatch :=
  let dst := SetCount dst (Count dst + Count src) in
  mkWriteBatch (wb_rep_ dst ++ zdrop kHeader (wb_rep_ src)).

(** ** [WriteBatch] *)

Definition batch_Put (b : WriteBatch) (key value : bytes) : WriteBatch :=
  let b := SetCount b (Count b + 1) in
  let rep := wb_rep_ b ++ [z2b (ValueType_value kTypeValue)] in
  let rep := PutLengthPrefixedSlice rep key in
  mkWriteBatch (PutLengthPrefixedSlice rep value).

Definition batch_Delete (b : WriteBatch) (key : bytes) : WriteBatch :=
  let b := SetCount b (Count b + 1) in
  let rep := wb_rep_ b ++ [z2b (ValueType_value kTypeDeletion)] in
  mkWriteBatch (PutLengthPrefixedSlice rep key).

Section Iterate.

(** [WriteBatch::Handler] over the state [H] it updates. *)
Context {H : Type} (handler_Put : bytes -> bytes -> H -> H) (handler_Delete : bytes -> H -> H).

(** The loop of [Iterate]: an error, or the number of records found. *)
Fixpoint iterate_loop (fuel : nat) (input : bytes) (found : Z) (h : H) : (Status + Z) * H :=
  match input with
  | [] => (inr found, h)
  | tag :: input =>
      match fuel with
      | O => (inr found, h)     (* not reached: every turn consumes a byte *)
      | S fuel =>
          let found := found + 1 in
          if schar tag =? ValueType_value kTypeValue then
            match GetLengthPrefixedSlice input with
            | Some (key, input) =>
                match GetLengthPrefixedSlice input with
                | Some (value, input) => iterate_loop fuel input found (handler_Put key value h)
                | None => (inl (Corruption (str "bad WriteBatch Put") []), h)
                end
            | None => (inl (Corruption (str "bad WriteBatch Put") []), h)
            end
          else if schar tag =? ValueType_value kTypeDeletion then
            match GetLengthPrefixedSlice input with
            | Some (key, input) => iterate_loop fuel input found (handler_Delete key h)
            | None => (inl (Corruption (str "bad WriteBatch Delete") []), h)
            end
          else (inl (Corruption (str "unknown WriteBatch tag") []), h)
      end
  end.

Definition Iterate (b : WriteBatch) (h : H) : Status * H :=
  let input := wb_rep_ b in
  if blen input <? kHeader then (Corruption (str "malformed WriteBatch (too small)") [], h)
  else
    let input := zdrop kHeader input in
    match iterate_loop (length input) input 0 h with
    | (inl s, h) => (s, h)
    | (inr found, h) =>
        if negb (found =? Count b) then (Corruption (str "WriteBatch has wrong count") [], h)
        else (OK, h)
    end.

End Iterate.

(** ** [MemTableInserter] and [InsertInto]

    The handler's state: the next sequence number and the memtable. *)

Section InsertInto.

Context (user_comparator : Comparator).

Definition inserter_add (t : ValueType) (key value : bytes) (h : Z * option MemTable)
  : Z * option MemTable :=
  let '(sequence_, mem_) := h in
  (u64 (sequence_ + 1),
   match mem_ with
   | Some m => Add user_comparator m sequence_ t key value
   | None => None
   end).

Definition inserter_Put (key value : bytes) := inserter_add kTypeValue key value.
Definition inserter_Delete (key : bytes) := inserter_add kTypeDeletion key [].

Definition InsertInto (b : WriteBatch) (memtable : MemTable) : Status * option MemTable :=
  let '(s, (_, m)) := Iterate inserter_Put inserter_Delete b (Sequence b, Some memtable) in
  (s, m).

End InsertInto.

(** ** The operations of a batch *)

Inductive Op := OpPut (key value : bytes) | OpDelete (key : bytes).

Definition apply_op (b : WriteBatch) (op : Op) : WriteBatch :=
  match op with
  | OpPut k v => batch_Put b k v
  | OpDelete k => batch_Delete b k
  end.

(** Keys and values within the 32-bit length fields. *)
Definition op_ok (op : Op) : Prop :=
  match op with
  | OpPut k v => blen k < 2 ^ 32 /\ blen v < 2 ^ 32
  | OpDelete k => blen k < 2 ^ 32
  end.

Definition encode_op (op : Op) : bytes :=
  match op with
  | OpPut k v => z2b 1 :: PutLengthPrefixedSlice [] k ++ PutLengthPrefixedSlice [] v
  | OpDelete k => z2b 0 :: PutLengthPrefixedSlice [] k
  end.

(** The batch with these operations. *)
Definition batch_of (seq : Z) (ops : list Op) : WriteBatch :=
  mkWriteBatch (EncodeFixed64 seq ++ EncodeFixed32 (Z.of_nat (length ops)) ++ concat (map encode_op ops)).

Lemma Count_of seq ops :
  Z.of_nat (length ops) < 2 ^ 31 -> Count (batch_of seq ops) = Z.of_nat (length ops).
Proof.
  intros Hn. unfold Count, batch_of. cbn [wb_rep_]. rewrite zdrop_app, DecodeFixed32_Encode by done.
  rewrite u32_small by lia. apply i32_small. lia.
Qed.

Lemma SetCount_of seq ops n :
  SetCount (batch_of seq ops) n =
  mkWriteBatch (EncodeFixed64 seq ++ EncodeFixed32 (u32 n) ++ concat (map encode_op ops)).
Proof. reflexivity. Qed.

Lemma SetSequence_of seq seq' ops : SetSequence (batch_of seq ops) seq' = batch_of seq' ops.
Proof. unfold SetSequence, batch_of. cbn [wb_rep_]. by rewrite zdrop_app. Qed.

Lemma Sequence_of seq ops : 0 <= seq < 2 ^ 64 -> Sequence (batch_of seq ops) = seq.
Proof.
  intros Hs. unfold Sequence, batch_of. cbn [wb_rep_]. rewrite DecodeFixed64_Encode.
  by apply u64_small.
Qed.

Lemma WriteBatch_make_of : WriteBatch_make = batch_of 0 [].
Proof. by vm_compute. Qed.

(** Adding an operation appends it. *)
Lemma apply_op_of seq ops op :
  Z.of_nat (length ops) + 1 < 2 ^ 31 ->
  apply_op (batch_of seq ops) op = batch_of seq (ops ++ [op]).
Proof.
  intros Hn.
  assert (batch_of seq (ops ++ [op]) =
    mkWriteBatch (EncodeFixed64 seq ++ EncodeFixed32 (u32 (Z.of_nat (length ops) + 1)) ++
                  concat (map encode_op ops) ++ encode_op op)) as ->.
  { unfold batch_of. rewrite length_app, map_app, concat_app, u32_small by lia. cbn [length map concat].
    rewrite app_nil_r. do 3 f_equal. f_equal. lia. }
  destruct op as [k v|k]; cbn [apply_op encode_op]; [unfold batch_Put|unfold batch_Delete];
    rewrite Count_of, SetCount_of by lia; cbn [wb_rep_]; f_equal;
    rewrite !(PutLengthPrefixedSlice_app (_ ++ _)), <- !app_assoc;
    rewrite ?(PutLengthPrefixedSlice_app [_]); by rewrite <- ?app_assoc.
Qed.

Lemma apply_ops_of ops' seq ops :
  Z.of_nat (length ops + length ops') < 2 ^ 31 ->
  fold_left apply_op ops' (batch_of seq ops) = batch_of seq (ops ++ ops').
Proof.
  revert ops. induction ops' as [|op ops' IH]; intros ops Hn; cbn [length] in Hn.
  - by rewrite app_nil_r.
  - rewrite fold_left_step, apply_op_of, IH by (rewrite ?length_app; cbn; lia).
    by rewrite <- app_assoc.
Qed.

Lemma batch_Append_of seq ops seq' ops' :
  Z.of_nat (length ops + length ops') < 2 ^ 31 ->
  batch_Append (batch_of seq ops) (batch_of seq' ops') = batch_of seq (ops ++ ops').
Proof.
  intros Hn. unfold batch_Append. rewrite !Count_of, SetCount_of by lia. cbn [wb_rep_].
  assert (zdrop kHeader (wb_rep_ (batch_of seq' ops')) = concat (map encode_op ops')) as ->.
  { unfold batch_of. cbn [wb_rep_]. rewrite app_assoc. by apply zdrop_app. }
  unfold batch_of. rewrite length_app, map_app, concat_app, u32_small, <- !app_assoc by lia.
  do 3 f_equal. f_equal. lia.
Qed.

(** ** Iteration *)

Section Replay.

Context {H : Type} (handler_Put : bytes -> bytes -> H -> H) (handler_Delete : bytes -> H -> H).

Definition replay_op (h : H) (op : Op) : H :=
  match op with
  | OpPut k v => handler_Put k v h
  | OpDelete k => handler_Delete k h
  end.

Lemma iterate_loop_ops ops fuel found h :
  Forall op_ok ops -> (length ops <= fuel)%nat ->
  iterate_loop handler_Put handler_Delete fuel (concat (map encode_op ops)) found h
  = (inr (found + Z.of_nat (length ops)), fold_left replay_op ops h).
Proof.
  revert fuel found h. induction ops as [|op ops IH]; intros fuel found h Hok Hf.
  { destruct fuel; cbn; by rewrite Z.add_0_r. }
  inversion_clear Hok as [|? ? Ho Hok']. destruct fuel as [|fuel]; [cbn in Hf; lia|].
  assert (Hnext : forall h, iterate_loop handler_Put handler_Delete fuel (concat (map encode_op ops))
                              (found + 1) h
          = (inr (found + Z.of_nat (length (op :: ops))), fold_left replay_op ops h)).
  { intros h'. rewrite IH by (done || (cbn in Hf; lia)). cbn [length]. do 2 f_equal. lia. }
  rewrite fold_left_step. destruct op as [k v|k]; cbn [map concat encode_op app iterate_loop op_ok replay_op] in *.
  - change (schar (z2b 1) =? ValueType_value kTypeValue) with true. cbv iota. destruct Ho as [Hk Hv].
    rewrite <- app_assoc, PutLengthPrefixedSlice_get by done.
    rewrite PutLengthPrefixedSlice_get by done. apply Hnext.
  - change (schar (z2b 0) =? ValueType_value kTypeValue) with false.
    change (schar (z2b 0) =? ValueType_value kTypeDeletion) with true. cbv iota.
    rewrite PutLengthPrefixedSlice_get by done. apply Hnext.
Qed.

Lemma encode_ops_length ops : (length ops <= length (concat (map encode_op ops)))%nat.
Proof.
  induction ops as [|op ops IH]; [done|]. cbn [map concat length]. rewrite length_app.
  destruct op; cbn [encode_op length]; lia.
Qed.

Lemma Iterate_of seq ops h :
  Forall op_ok ops -> Z.of_nat (length ops) < 2 ^ 31 ->
  Iterate handler_Put handler_Delete (batch_of seq ops) h = (OK, fold_left replay_op ops h).
Proof.
  intros Hok Hn. unfold Iterate. rewrite Count_of by done.
  assert (zdrop kHeader (wb_rep_ (batch_of seq ops)) = concat (map encode_op ops)) as ->.
  { unfold batch_of. cbn [wb_rep_]. rewrite app_assoc. by apply zdrop_app. }
  destruct (Z.ltb_spec (blen (wb_rep_ (batch_of seq ops))) kHeader) as [Hl|_].
  { unfold batch_of in Hl. cbn [wb_rep_] in Hl. rewrite !blen_app in Hl. unfold kHeader in Hl.
    change (blen (EncodeFixed64 seq)) with 8 in Hl. rewrite blen_EncodeFixed32 in Hl.
    pose proof (blen_nonneg (concat (map encode_op ops))). lia. }
  rewrite iterate_loop_ops by (done || apply encode_ops_length). rewrite Z.add_0_l, Z.eqb_refl. done.
Qed.

End Replay.

(** ** Properties *)

(** C35: A batch built by any sequence of [Put]s and [Delete]s, then given a
    sequence number, iterates successfully and hands exactly these operations,
    in order and with their keys and values, to the handler. *)
Theorem batch_roundtrip {H} (handler_Put : bytes -> bytes -> H -> H) (handler_Delete : bytes -> H -> H)
    ops seq h :
  Forall op_ok ops -> Z.of_nat (length ops) < 2 ^ 31 ->
  Iterate handler_Put handler_Delete (SetSequence (fold_left apply_op ops WriteBatch_make) seq) h
  = (OK, fold_left (replay_op handler_Put handler_Delete) ops h).
Proof.
  intros Hok Hn. rewrite WriteBatch_make_of, apply_ops_of, SetSequence_of by (cbn; lia).
  by apply Iterate_of.
Qed.

(** C29: Appending a batch to another one, as the writer queue does to group
    writes, gives the batch of both operation lists under the first one's
    sequence number. *)
Theorem batch_append_ops ops ops' seq seq' :
  Z.of_nat (length ops + length ops') < 2 ^ 31 ->
  batch_Append (SetSequence (fold_left apply_op ops WriteBatch_make) seq)
               (SetSequence (fold_left apply_op ops' WriteBatch_make) seq')
  = SetSequence (fold_left apply_op (ops ++ ops') WriteBatch_make) seq.
Proof.
  intros Hn. rewrite WriteBatch_make_of, !apply_ops_of by (rewrite ?length_app; cbn; lia).
  rewrite !SetSequence_of. cbn [app]. by apply batch_Append_of.
Qed.

(** The entries a batch stands for: consecutive sequence numbers from [seq]. *)
Fixpoint number_ops (seq : Z) (ops : list Op) : list Entry :=
  match ops with
  | [] => []
  | OpPut k v :: ops => mkEntry seq kTypeValue k v :: number_ops (seq + 1) ops
  | OpDelete k :: ops => mkEntry seq kTypeDeletion k [] :: number_ops (seq + 1) ops
  end.

Lemma replay_none c ops seq :
  snd (fold_left (replay_op (inserter_Put c) (inserter_Delete c)) ops (seq, None)) = None.
Proof.
  revert seq. induction ops as [|op ops IH]; intros seq; [done|]. rewrite fold_left_step.
  destruct op; apply IH.
Qed.

Lemma replay_inserts c ops seq m :
  0 <= seq -> seq + Z.of_nat (length ops) < 2 ^ 64 ->
  snd (fold_left (replay_op (inserter_Put c) (inserter_Delete c)) ops (seq, Some m))
  = add_all c m (number_ops seq ops).
Proof.
  revert seq m. induction ops as [|op ops IH]; intros seq m H0 Hs; [done|]. cbn [length] in Hs.
  assert (u64 (seq + 1) = seq + 1) as Eu by (apply u64_small; lia).
  rewrite fold_left_step. destruct op as [k v|k]; cbn [replay_op number_ops add_all e_seq e_type e_key e_value];
    unfold inserter_Put, inserter_Delete, inserter_add; rewrite Eu; destruct (Add _ _ _ _ _ _) as [m'|];
    (apply IH; lia) || apply replay_none.
Qed.

(** Inserting a batch into a memtable succeeds as far as the batch is
    concerned and adds its operations under consecutive sequence numbers that
    start at the batch's own. *)
Theorem batch_insert_into c ops seq m :
  Forall op_ok ops -> Z.of_nat (length ops) < 2 ^ 31 ->
  0 <= seq -> seq + Z.of_nat (length ops) < 2 ^ 64 ->
  InsertInto c (SetSequence (fold_left apply_op ops WriteBatch_make) seq) m
  = (OK, add_all c m (number_ops seq ops)).
Proof.
  intros Hok Hn H0 Hs. rewrite WriteBatch_make_of, apply_ops_of, SetSequence_of by (cbn; lia).
  cbn [app]. unfold InsertInto. rewrite Sequence_of, Iterate_of by (done || lia).
  pose proof (replay_inserts c ops seq m H0 Hs) as E.
  destruct (fold_left _ ops _) as [q m']. cbn [snd] in E. by rewrite E.
Qed.

(** ** Witnesses *)

Definition demo_ops : list Op := [OpPut (str "k") (str "v"); OpDelete (str "old")].

Lemma batch_roundtrip_witness :
  Iterate (fun k v h => OpPut k v :: h) (fun k h => OpDelete k :: h)
    (SetSequence (fold_left apply_op demo_ops WriteBatch_make) 7) []
  = (OK, fold_left (replay_op (fun k v h => OpPut k v :: h) (fun k h => OpDelete k :: h)) demo_ops []).
Proof. apply batch_roundtrip; [repeat constructor; by vm_compute|by vm_compute]. Defined.

Lemma batch_append_ops_witness :
  batch_Append (SetSequence (fold_left apply_op demo_ops WriteBatch_make) 7)
               (SetSequence (fold_left apply_op demo_ops WriteBatch_make) 9)
  = SetSequence (fold_left apply_op (demo_ops ++ demo_ops) WriteBatch_make) 7.
Proof. apply batch_append_ops. by vm_compute. Defined.

Lemma batch_insert_into_witness :
  InsertInto BytewiseComparator (SetSequence (fold_left apply_op demo_ops WriteBatch_make) 7) MemTable_make
  = (OK, add_all BytewiseComparator MemTable_make (number_ops 7 demo_ops)).
Proof.
  apply batch_insert_into; [repeat constructor; by vm_compute|by vm_compute|by vm_compute|by vm_compute].
Defined.
