(* ===== verification/VersionEdit.v ===== *)
(** * Version edits

    [db/version_edit.h] and [db/version_edit.cc]: the records of the MANIFEST.
    The theorems show that decoding an encoded edit gives the edit back, and
    that decoding returns a verdict on every input. *)

From S2P Require Import Prelude Slice Coding Status Logging Comparator DbFormat.

(** [enum Tag] *)
Definition kComparator : Z := 1.
Definition kLogNumber : Z := 2.
Definition kNextFileNumber : Z := 3.
Definition kLastSequence : Z := 4.
Definition kCompactPointer : Z := 5.
Definition kDeletedFile : Z := 6.
Definition kNewFile : Z := 7.
Definition kPrevLogNumber : Z := 9.

Record FileMetaData := mkFileMetaData {
  f_refs : Z;
  allowed_seeks : Z;
  number : Z;
  file_size : Z;
  smallest : InternalKey;
  largest : InternalKey
}.

(** A [FileMetaData] as its constructor and the four assignments leave it. *)
Definition FileMetaData_make (num size : Z) (small large : InternalKey) : FileMetaData :=
  mkFileMetaData 0 (Z.shiftl 1 30) num size small large.

Record VersionEdit := mkVersionEdit {
  comparator_ : bytes;
  log_number_ : Z;
  prev_log_number_ : Z;
  next_file_number_ : Z;
  last_sequence_ : Z;
  has_comparator_ : bool;
  has_log_number_ : bool;
  has_prev_log_number_ : bool;
  has_next_file_number_ : bool;
  has_last_sequence_ : bool;
  compact_pointers_ : list (Z * InternalKey);
  deleted_files_ : list (Z * Z);                (* std::set: increasing, no duplicates *)
  new_files_ : list (Z * FileMetaData)
}.

Definition VersionEdit_Clear : VersionEdit :=
  mkVersionEdit [] 0 0 0 0 false false false false false [] [] [].

Definition SetComparatorName (name : bytes) (e : VersionEdit) : VersionEdit :=
  mkVersionEdit name (log_number_ e) (prev_log_number_ e) (next_file_number_ e) (last_sequence_ e)
    true (has_log_number_ e) (has_prev_log_number_ e) (has_next_file_number_ e) (has_last_sequence_ e)
    (compact_pointers_ e) (deleted_files_ e) (new_files_ e).

Definition SetLogNumber (num : Z) (e : VersionEdit) : VersionEdit :=
  mkVersionEdit (comparator_ e) num (prev_log_number_ e) (next_file_number_ e) (last_sequence_ e)
    (has_comparator_ e) true (has_prev_log_number_ e) (has_next_file_number_ e) (has_last_sequence_ e)
    (compact_pointers_ e) (deleted_files_ e) (new_files_ e).

Definition SetPrevLogNumber (num : Z) (e : VersionEdit) : VersionEdit :=
  mkVersionEdit (comparator_ e) (log_number_ e) num (next_file_number_ e) (last_sequence_ e)
    (has_comparator_ e) (has_log_number_ e) true (has_next_file_number_ e) (has_last_sequence_ e)
    (compact_pointers_ e) (deleted_files_ e) (new_files_ e).

Definition SetNextFile (num : Z) (e : VersionEdit) : VersionEdit :=
  mkVersionEdit (comparator_ e) (log_number_ e) (prev_log_number_ e) num (last_sequence_ e)
    (has_comparator_ e) (has_log_number_ e) (has_prev_log_number_ e) true (has_last_sequence_ e)
    (compact_pointers_ e) (deleted_files_ e) (new_files_ e).

Definition SetLastSequence (seq : Z) (e : VersionEdit) : VersionEdit :=
  mkVersionEdit (comparator_ e) (log_number_ e) (prev_log_number_ e) (next_file_number_ e) seq
    (has_comparator_ e) (has_log_number_ e) (has_prev_log_number_ e) (has_next_file_number_ e) true
    (compact_pointers_ e) (deleted_files_ e) (new_files_ e).

Definition SetCompactPointer (level : Z) (key : InternalKey) (e : VersionEdit) : VersionEdit :=
  mkVersionEdit (comparator_ e) (log_number_ e) (prev_log_number_ e) (next_file_number_ e)
    (last_sequence_ e) (has_comparator_ e) (has_log_number_ e) (has_prev_log_number_ e)
    (has_next_file_number_ e) (has_last_sequence_ e)
    (compact_pointers_ e ++ [(level, key)]) (deleted_files_ e) (new_files_ e).

(** [std::set::insert] of a pair, with the lexicographic order of pairs. *)
Definition pair_lt (a b : Z * Z) : bool :=
  (fst a <? fst b) || ((fst a =? fst b) && (snd a <? snd b)).

Fixpoint set_insert (p : Z * Z) (s : list (Z * Z)) : list (Z * Z) :=
  match s with
  | [] => [p]
  | q :: s' => if pair_lt p q then p :: s else if pair_lt q p then q :: set_insert p s' else s
  end.

Definition RemoveFile (level file : Z) (e : VersionEdit) : VersionEdit :=
  mkVersionEdit (comparator_ e) (log_number_ e) (prev_log_number_ e) (next_file_number_ e)
    (last_sequence_ e) (has_comparator_ e) (has_log_number_ e) (has_prev_log_number_ e)
    (has_next_file_number_ e) (has_last_sequence_ e)
    (compact_pointers_ e) (set_insert (level, file) (deleted_files_ e)) (new_files_ e).

(** [new_files_.push_back(std::make_pair(level, f))] *)
Definition push_new_file (level : Z) (f : FileMetaData) (e : VersionEdit) : VersionEdit :=
  mkVersionEdit (comparator_ e) (log_number_ e) (prev_log_number_ e) (next_file_number_ e)
    (last_sequence_ e) (has_comparator_ e) (has_log_number_ e) (has_prev_log_number_ e)
    (has_next_file_number_ e) (has_last_sequence_ e)
    (compact_pointers_ e) (deleted_files_ e) (new_files_ e ++ [(level, f)]).

Definition AddFile (level file size : Z) (small large : InternalKey) (e : VersionEdit) : VersionEdit :=
  push_new_file level (FileMetaData_make file size small large) e.

(** ** Encoding *)

Definition put_compact_pointer (dst : bytes) (p : Z * InternalKey) : bytes :=
  let dst := PutVarint32 dst kCompactPointer in
  let dst := PutVarint32 dst (u32 (fst p)) in
  PutLengthPrefixedSlice dst (rep_ (snd p)).

Definition put_deleted_file (dst : bytes) (p : Z * Z) : bytes :=
  let dst := PutVarint32 dst kDeletedFile in
  let dst := PutVarint32 dst (u32 (fst p)) in
  PutVarint64 dst (snd p).

Definition put_new_file (dst : bytes) (p : Z * FileMetaData) : bytes :=
  let f := snd p in
  let dst := PutVarint32 dst kNewFile in
  let dst := PutVarint32 dst (u32 (fst p)) in
  let dst := PutVarint64 dst (number f) in
  let dst := PutVarint64 dst (file_size f) in
  let dst := PutLengthPrefixedSlice dst (rep_ (smallest f)) in
  PutLengthPrefixedSlice dst (rep_ (largest f)).

Definition EncodeTo (e : VersionEdit) (dst : bytes) : bytes :=
  let dst := if has_comparator_ e
             then PutLengthPrefixedSlice (PutVarint32 dst kComparator) (comparator_ e) else dst in
  let dst := if has_log_number_ e
             then PutVarint64 (PutVarint32 dst kLogNumber) (log_number_ e) else dst in
  let dst := if has_prev_log_number_ e
             then PutVarint64 (PutVarint32 dst kPrevLogNumber) (prev_log_number_ e) else dst in
  let dst := if has_next_file_number_ e
             then PutVarint64 (PutVarint32 dst kNextFileNumber) (next_file_number_ e) else dst in
  let dst := if has_last_sequence_ e
             then PutVarint64 (PutVarint32 dst kLastSequence) (last_sequence_ e) else dst in
  let dst := fold_left put_compact_pointer (compact_pointers_ e) dst in
  let dst := fold_left put_deleted_file (deleted_files_ e) dst in
  fold_left put_new_file (new_files_ e) dst.

(** ** Decoding *)

(** [GetInternalKey] and [GetLevel] with the rest of the input; [None] is
    [false]. *)
Definition GetInternalKey (input : bytes) : option (InternalKey * bytes) :=
  match GetLengthPrefixedSlice input with
  | Some (s, input) =>
      let '(ok, key) := InternalKey_DecodeFrom s in
      if ok then Some (key, input) else None
  | None => None
  end.

Definition GetLevel (input : bytes) : option (Z * bytes) :=
  match GetVarint32 input with
  | Some (v, input) => if v <? kNumLevels then Some (v, input) else None
  | None => None
  end.

(** One case of the switch: [msg], or the edit and the input after it. *)
Definition decode_new_file (input : bytes) (e : VersionEdit) : string + VersionEdit * bytes :=
  match GetLevel input with
  | None => inl "new-file entry"%string
  | Some (level, input) =>
      match GetVarint64 input with
      | None => inl "new-file entry"%string
      | Some (num, input) =>
          match GetVarint64 input with
          | None => inl "new-file entry"%string
          | Some (size, input) =>
              match GetInternalKey input with
              | None => inl "new-file entry"%string
              | Some (small, input) =>
                  match GetInternalKey input with
                  | None => inl "new-file entry"%string
                  | Some (large, input) =>
                      inr (push_new_file level (FileMetaData_make num size small large) e, input)
                  end
              end
          end
      end
  end.

Definition decode_number (set : Z -> VersionEdit -> VersionEdit) (msg : string)
    (input : bytes) (e : VersionEdit) : string + VersionEdit * bytes :=
  match GetVarint64 input with
  | Some (v, input) => inr (set v e, input)
  | None => inl msg
  end.

Definition decode_field (tag : Z) (input : bytes) (e : VersionEdit) : string + VersionEdit * bytes :=
  if tag =? kComparator then
    match GetLengthPrefixedSlice input with
    | Some (s, input) => inr (SetComparatorName s e, input)
    | None => inl "comparator name"%string
    end
  else if tag =? kLogNumber then decode_number SetLogNumber "log number" input e
  else if tag =? kPrevLogNumber then decode_number SetPrevLogNumber "previous log number" input e
  else if tag =? kNextFileNumber then decode_number SetNextFile "next file number" input e
  else if tag =? kLastSequence then decode_number SetLastSequence "last sequence number" input e
  else if tag =? kCompactPointer then
    match GetLevel input with
    | Some (level, input) =>
        match GetInternalKey input with
        | Some (key, input) => inr (SetCompactPointer level key e, input)
        | None => inl "compaction pointer"%string
        end
    | None => inl "compaction pointer"%string
    end
  else if tag =? kDeletedFile then
    match GetLevel input with
    | Some (level, input) =>
        match GetVarint64 input with
        | Some (num, input) => inr (RemoveFile level num e, input)
        | None => inl "deleted file"%string
        end
    | None => inl "deleted file"%string
    end
  else if tag =? kNewFile then decode_new_file input e
  else inl "unknown tag"%string.

(** The loop of [DecodeFrom]: the message, if any, the edit and the unread
    input. *)
Fixpoint decode_loop (fuel : nat) (input : bytes) (e : VersionEdit)
  : option (option string * VersionEdit * bytes) :=
  match GetVarint32 input with
  | None => Some (None, e, input)
  | Some (tag, rest) =>
      match fuel with
      | O => None
      | S fuel =>
          match decode_field tag rest e with
          | inl msg => Some (Some msg, e, rest)
          | inr (e, rest) => decode_loop fuel rest e
          end
      end
  end.

(** [DecodeFrom]; one turn per input byte is enough (see [DecodeFrom_total]). *)
Definition DecodeFrom (src : bytes) : option (Status * VersionEdit) :=
  match decode_loop (length src) src VersionEdit_Clear with
  | None => None
  | Some (msg, e, input) =>
      let msg := match msg with
                 | None => if negb (blen input =? 0) then Some "invalid tag"%string else None
                 | Some _ => msg
                 end in
      match msg with
      | Some m => Some (Corruption (str "VersionEdit") (str m), e)
      | None => Some (OK, e)
      end
  end.

(** ** [DebugString] *)

Definition debug_number (b : bool) (label : string) (n : Z) (r : bytes) : bytes :=
  if b then AppendNumberTo (r ++ [z2b 10] ++ str label) n else r.

Definition VersionEdit_DebugString (e : VersionEdit) : bytes :=
  let nl := [z2b 10] in
  let r := str "VersionEdit {" in
  let r := if has_comparator_ e then r ++ nl ++ str "  Comparator: " ++ comparator_ e else r in
  let r := debug_number (has_log_number_ e) "  LogNumber: " (log_number_ e) r in
  let r := debug_number (has_prev_log_number_ e) "  PrevLogNumber: " (prev_log_number_ e) r in
  let r := debug_number (has_next_file_number_ e) "  NextFile: " (next_file_number_ e) r in
  let r := debug_number (has_last_sequence_ e) "  LastSeq: " (last_sequence_ e) r in
  let r := fold_left (fun r p =>
             AppendNumberTo (r ++ nl ++ str "  CompactPointer: ") (fst p) ++ str " " ++
             InternalKey_DebugString (rep_ (snd p))) (compact_pointers_ e) r in
  let r := fold_left (fun r p =>
             AppendNumberTo (AppendNumberTo (r ++ nl ++ str "  RemoveFile: ") (fst p) ++ str " ") (snd p))
             (deleted_files_ e) r in
  let r := fold_left (fun r p =>
             let f := snd p in
             let r := AppendNumberTo (r ++ nl ++ str "  AddFile: ") (fst p) in
             let r := AppendNumberTo (r ++ str " ") (number f) in
             let r := AppendNumberTo (r ++ str " ") (file_size f) in
             r ++ str " " ++ InternalKey_DebugString (rep_ (smallest f)) ++ str " .. " ++
             InternalKey_DebugString (rep_ (largest f))) (new_files_ e) r in
  r ++ nl ++ str "}" ++ nl.

(** ** Reading one field after another

    [decodes e c e']: wherever the chunk [c] starts, with enough turns left, the
    loop passes it and goes from [e] to [e']. *)
Definition decodes (e : VersionEdit) (c : bytes) (e' : VersionEdit) : Prop :=
  forall fuel rest, (length (c ++ rest) <= fuel)%nat ->
    exists fuel', decode_loop fuel (c ++ rest) e = decode_loop fuel' rest e' /\
                  (length rest <= fuel')%nat.

Lemma decodes_nil e : decodes e [] e.
Proof. intros fuel rest H. by exists fuel. Qed.

Lemma decodes_app e1 c1 e2 c2 e3 : decodes e1 c1 e2 -> decodes e2 c2 e3 -> decodes e1 (c1 ++ c2) e3.
Proof.
  intros H1 H2 fuel rest Hf. rewrite <- app_assoc in *.
  destruct (H1 fuel (c2 ++ rest) Hf) as (f1 & -> & Hf1). by apply H2.
Qed.

Lemma EncodeVarint32_nonempty v : (0 < length (EncodeVarint32 v))%nat.
Proof. unfold EncodeVarint32. repeat case_match; cbn; lia. Qed.

Lemma decodes_field tag body e e' :
  0 <= tag < 2 ^ 32 -> (forall rest, decode_field tag (body ++ rest) e = inr (e', rest)) ->
  decodes e (EncodeVarint32 tag ++ body) e'.
Proof.
  intros Ht Hd fuel rest Hf. rewrite <- app_assoc in *. pose proof (EncodeVarint32_nonempty tag).
  rewrite !length_app in Hf. destruct fuel as [|fuel]; [lia|]. exists fuel. split; [|lia].
  cbn [decode_loop]. rewrite GetVarint32_Encode by done. by rewrite Hd.
Qed.

Lemma decodes_fold {A} (put : A -> bytes) (set : A -> VersionEdit -> VersionEdit) (P : A -> Prop) xs e :
  (forall x e, P x -> decodes e (put x) (set x e)) -> Forall P xs ->
  decodes e (concat (map put xs)) (fold_left (fun e x => set x e) xs e).
Proof.
  intros Hs. revert e. induction xs as [|x xs IH]; intros e Hp; [apply decodes_nil|].
  inversion_clear Hp as [|? ? Hx Hp']. cbn [map concat fold_left].
  apply (decodes_app e (put x) (set x e)); [by apply Hs|by apply IH].
Qed.

(** The parts of a field. *)
Lemma GetLevel_put l rest : 0 <= l < kNumLevels -> GetLevel (EncodeVarint32 (u32 l) ++ rest) = Some (l, rest).
Proof.
  intros Hl. unfold kNumLevels in Hl. rewrite u32_small by lia. unfold GetLevel.
  rewrite GetVarint32_Encode by lia. unfold kNumLevels. destruct (Z.ltb_spec l 7); [done|lia].
Qed.

Definition key_ok (k : InternalKey) : Prop := 0 < blen (rep_ k) < 2 ^ 32.

Lemma GetInternalKey_put k rest :
  key_ok k -> GetInternalKey (PutLengthPrefixedSlice [] (rep_ k) ++ rest) = Some (k, rest).
Proof.
  intros Hk. destruct k as [s]. unfold key_ok in Hk. cbn [rep_] in *. unfold GetInternalKey.
  rewrite PutLengthPrefixedSlice_get by lia. unfold InternalKey_DecodeFrom.
  destruct (Z.eqb_spec (blen s) 0); [lia|done].
Qed.

(** ** Edits that fit the format *)

Definition u64_ok (n : Z) : Prop := 0 <= n < 2 ^ 64.
Definition level_ok (l : Z) : Prop := 0 <= l < kNumLevels.
Definition pointer_ok (p : Z * InternalKey) : Prop := level_ok (fst p) /\ key_ok (snd p).
Definition deleted_ok (p : Z * Z) : Prop := level_ok (fst p) /\ u64_ok (snd p).

Definition file_ok (p : Z * FileMetaData) : Prop :=
  level_ok (fst p) /\ u64_ok (number (snd p)) /\ u64_ok (file_size (snd p)) /\
  key_ok (smallest (snd p)) /\ key_ok (largest (snd p)) /\
  snd p = FileMetaData_make (number (snd p)) (file_size (snd p)) (smallest (snd p)) (largest (snd p)).

Definition optional_ok (has : bool) (n : Z) : Prop := if has then u64_ok n else n = 0.

Record edit_ok (e : VersionEdit) : Prop := {
  ok_comparator : if has_comparator_ e then blen (comparator_ e) < 2 ^ 32 else comparator_ e = [];
  ok_log : optional_ok (has_log_number_ e) (log_number_ e);
  ok_prev_log : optional_ok (has_prev_log_number_ e) (prev_log_number_ e);
  ok_next_file : optional_ok (has_next_file_number_ e) (next_file_number_ e);
  ok_last_sequence : optional_ok (has_last_sequence_ e) (last_sequence_ e);
  ok_pointers : Forall pointer_ok (compact_pointers_ e);
  ok_deleted : Forall deleted_ok (deleted_files_ e);
  ok_deleted_set : StronglySorted (fun a b => pair_lt a b = true) (deleted_files_ e);
  ok_files : Forall file_ok (new_files_ e)
}.

Lemma decodes_number tag set msg v e :
  0 <= tag < 2 ^ 32 -> u64_ok v ->
  (forall input, decode_field tag input e = decode_number set msg input e) ->
  decodes e (EncodeVarint32 tag ++ EncodeVarint64 v) (set v e).
Proof.
  intros Ht Hv Hf. apply decodes_field; [done|]. intros rest. rewrite Hf. unfold decode_number.
  by rewrite GetVarint64_Encode.
Qed.

Lemma decodes_comparator s e :
  blen s < 2 ^ 32 -> decodes e (EncodeVarint32 kComparator ++ PutLengthPrefixedSlice [] s) (SetComparatorName s e).
Proof.
  intros Hs. apply decodes_field; [by unfold kComparator|]. intros rest. unfold decode_field.
  rewrite Z.eqb_refl. by rewrite PutLengthPrefixedSlice_get.
Qed.

Lemma decodes_pointer p e :
  pointer_ok p -> decodes e (put_compact_pointer [] p) (SetCompactPointer (fst p) (snd p) e).
Proof.
  intros [Hl Hk]. unfold put_compact_pointer, PutVarint32. cbn [app].
  rewrite PutLengthPrefixedSlice_app, <- app_assoc.
  apply decodes_field; [by unfold kCompactPointer|]. intros rest.
  rewrite <- app_assoc. unfold decode_field. cbn [Z.eqb kCompactPointer kComparator kLogNumber
    kPrevLogNumber kNextFileNumber kLastSequence Pos.eqb].
  by rewrite GetLevel_put, GetInternalKey_put.
Qed.

Lemma decodes_deleted p e :
  deleted_ok p -> decodes e (put_deleted_file [] p) (RemoveFile (fst p) (snd p) e).
Proof.
  intros [Hl Hn]. unfold put_deleted_file, PutVarint32, PutVarint64. cbn [app]. rewrite <- app_assoc.
  apply decodes_field; [by unfold kDeletedFile|]. intros rest. rewrite <- app_assoc.
  change (decode_field kDeletedFile) with (fun input e =>
    match GetLevel input with
    | Some (level, input) =>
        match GetVarint64 input with
        | Some (num, input) => inr (RemoveFile level num e, input)
        | None => inl "deleted file"%string
        end
    | None => inl "deleted file"%string
    end). cbv beta.
  by rewrite GetLevel_put, GetVarint64_Encode.
Qed.

Lemma decodes_new_file p e :
  file_ok p -> decodes e (put_new_file [] p) (push_new_file (fst p) (snd p) e).
Proof.
  intros (Hl & Hn & Hz & Hs & Hg & Ef). unfold put_new_file, PutVarint32, PutVarint64. cbn [app].
  rewrite !(PutLengthPrefixedSlice_app (_ ++ _)), <- !app_assoc.
  apply decodes_field; [by unfold kNewFile|]. intros rest. rewrite <- !app_assoc.
  change (decode_field kNewFile) with decode_new_file. unfold decode_new_file.
  rewrite GetLevel_put, !GetVarint64_Encode, !GetInternalKey_put by done. by rewrite <- Ef.
Qed.

(** ** Encoding as a sequence of fields *)

Lemma fold_put {A} (put : bytes -> A -> bytes) xs dst :
  (forall d x, put d x = d ++ put [] x) ->
  fold_left put xs dst = dst ++ concat (map (put []) xs).
Proof.
  intros Hp. revert dst. induction xs as [|x xs IH]; intros dst; cbn [fold_left map concat].
  - by rewrite app_nil_r.
  - by rewrite IH, Hp, <- app_assoc.
Qed.

Definition field (has : bool) (c : bytes) : bytes := if has then c else [].

Lemma EncodeTo_fields e :
  EncodeTo e [] =
  field (has_comparator_ e) (EncodeVarint32 kComparator ++ PutLengthPrefixedSlice [] (comparator_ e)) ++
  field (has_log_number_ e) (EncodeVarint32 kLogNumber ++ EncodeVarint64 (log_number_ e)) ++
  field (has_prev_log_number_ e) (EncodeVarint32 kPrevLogNumber ++ EncodeVarint64 (prev_log_number_ e)) ++
  field (has_next_file_number_ e) (EncodeVarint32 kNextFileNumber ++ EncodeVarint64 (next_file_number_ e)) ++
  field (has_last_sequence_ e) (EncodeVarint32 kLastSequence ++ EncodeVarint64 (last_sequence_ e)) ++
  concat (map (put_compact_pointer []) (compact_pointers_ e)) ++
  concat (map (put_deleted_file []) (deleted_files_ e)) ++
  concat (map (put_new_file []) (new_files_ e)).
Proof.
  unfold EncodeTo. rewrite (fold_put put_new_file), (fold_put put_deleted_file), (fold_put put_compact_pointer).
  - rewrite !app_assoc. do 3 f_equal. unfold field, PutVarint64, PutVarint32.
    rewrite (PutLengthPrefixedSlice_app ([] ++ _)).
    destruct (has_comparator_ e), (has_log_number_ e), (has_prev_log_number_ e),
      (has_next_file_number_ e), (has_last_sequence_ e); cbn [app];
      rewrite ?app_nil_r, <- ?app_assoc; done.
  - intros d p. unfold put_compact_pointer, PutVarint32.
    rewrite !(PutLengthPrefixedSlice_app (_ ++ _)). by rewrite <- !app_assoc.
  - intros d p. unfold put_deleted_file, PutVarint32, PutVarint64. by rewrite <- !app_assoc.
  - intros d p. unfold put_new_file, PutVarint32, PutVarint64.
    rewrite !(PutLengthPrefixedSlice_app (_ ++ _)). by rewrite <- !app_assoc.
Qed.

(** ** Rebuilding the edit *)

Lemma set_insert_last p s :
  Forall (fun q => pair_lt q p = true) s -> set_insert p s = s ++ [p].
Proof.
  induction 1 as [|q s Hq _ IH]; [done|]. cbn [set_insert].
  assert (pair_lt p q = false) as ->; [|by rewrite Hq, IH].
  unfold pair_lt in *. destruct p as [a b], q as [c d]; cbn [fst snd] in *.
  destruct (Z.ltb_spec c a), (Z.eqb_spec c a), (Z.ltb_spec d b), (Z.ltb_spec a c), (Z.eqb_spec a c),
    (Z.ltb_spec b d); cbn in *; try done; lia.
Qed.

(** An edit with other lists. *)
Definition with_lists (e : VersionEdit) (ps : list (Z * InternalKey)) (ds : list (Z * Z))
    (fs : list (Z * FileMetaData)) : VersionEdit :=
  mkVersionEdit (comparator_ e) (log_number_ e) (prev_log_number_ e) (next_file_number_ e)
    (last_sequence_ e) (has_comparator_ e) (has_log_number_ e) (has_prev_log_number_ e)
    (has_next_file_number_ e) (has_last_sequence_ e) ps ds fs.

Lemma fold_pointers xs e ps ds fs :
  fold_left (fun e p => SetCompactPointer (fst p) (snd p) e) xs (with_lists e ps ds fs)
  = with_lists e (ps ++ xs) ds fs.
Proof.
  revert ps. induction xs as [|[l k] xs IH]; intros ps; [by rewrite app_nil_r|].
  cbn [fold_left fst snd]. change (SetCompactPointer l k (with_lists e ps ds fs)) with (with_lists e (ps ++ [(l, k)]) ds fs).
  by rewrite IH, <- app_assoc.
Qed.

Lemma fold_deleted xs e ps ds fs :
  StronglySorted (fun a b => pair_lt a b = true) (ds ++ xs) ->
  fold_left (fun e p => RemoveFile (fst p) (snd p) e) xs (with_lists e ps ds fs)
  = with_lists e ps (ds ++ xs) fs.
Proof.
  revert ds. induction xs as [|[l n] xs IH]; intros ds Hs; [by rewrite app_nil_r|].
  cbn [fold_left fst snd].
  change (RemoveFile l n (with_lists e ps ds fs)) with (with_lists e ps (set_insert (l, n) ds) fs).
  rewrite set_insert_last.
  - rewrite IH, <- app_assoc; [done|]. by rewrite <- app_assoc.
  - apply Forall_forall. intros q Hq. apply (StronglySorted_app_1_elem_of _ _ _ _ _ Hs Hq). left.
Qed.

Lemma fold_files xs e ps ds fs :
  fold_left (fun e p => push_new_file (fst p) (snd p) e) xs (with_lists e ps ds fs)
  = with_lists e ps ds (fs ++ xs).
Proof.
  revert fs. induction xs as [|[l f] xs IH]; intros fs; [by rewrite app_nil_r|].
  cbn [fold_left fst snd]. change (push_new_file l f (with_lists e ps ds fs)) with (with_lists e ps ds (fs ++ [(l, f)])).
  by rewrite IH, <- app_assoc.
Qed.

Lemma decodes_optional (has : bool) c e e' :
  (has = true -> decodes e c e') -> decodes e (field has c) (if has then e' else e).
Proof. destruct has; intros H; [by apply H|apply decodes_nil]. Qed.

Lemma decodes_numbers tag set msg (has : bool) v e :
  0 <= tag < 2 ^ 32 -> optional_ok has v ->
  (forall input, decode_field tag input e = decode_number set msg input e) ->
  decodes e (field has (EncodeVarint32 tag ++ EncodeVarint64 v)) (if has then set v e else e).
Proof.
  intros Ht Hv Hf. apply decodes_optional. intros ->. by apply (decodes_number tag set msg).
Qed.

(** The optional fields, from an empty edit. *)
Lemma decodes_header e :
  edit_ok e ->
  decodes VersionEdit_Clear
    (field (has_comparator_ e) (EncodeVarint32 kComparator ++ PutLengthPrefixedSlice [] (comparator_ e)) ++
     field (has_log_number_ e) (EncodeVarint32 kLogNumber ++ EncodeVarint64 (log_number_ e)) ++
     field (has_prev_log_number_ e) (EncodeVarint32 kPrevLogNumber ++ EncodeVarint64 (prev_log_number_ e)) ++
     field (has_next_file_number_ e) (EncodeVarint32 kNextFileNumber ++ EncodeVarint64 (next_file_number_ e)) ++
     field (has_last_sequence_ e) (EncodeVarint32 kLastSequence ++ EncodeVarint64 (last_sequence_ e)))
    (with_lists e [] [] []).
Proof.
  intros [Hc Hl Hp Hn Hq _ _ _ _].
  assert (forall c a b d s (hc ha hb hd hs : bool),
    (if hc then blen c < 2 ^ 32 else c = []) -> optional_ok ha a -> optional_ok hb b ->
    optional_ok hd d -> optional_ok hs s ->
    let e1 := if hc then SetComparatorName c VersionEdit_Clear else VersionEdit_Clear in
    let e2 := if ha then SetLogNumber a e1 else e1 in
    let e3 := if hb then SetPrevLogNumber b e2 else e2 in
    let e4 := if hd then SetNextFile d e3 else e3 in
    let e5 := if hs then SetLastSequence s e4 else e4 in
    e5 = mkVersionEdit c a b d s hc ha hb hd hs [] [] []) as Hbuild.
  { intros c a b d s [] [] [] [] []; cbn [optional_ok]; intros; subst; reflexivity. }
  unfold with_lists. rewrite <- (Hbuild _ _ _ _ _ _ _ _ _ _ Hc Hl Hp Hn Hq).
  eapply decodes_app; [apply decodes_optional; intros E; rewrite E in Hc; by apply decodes_comparator|].
  eapply decodes_app; [by eapply decodes_numbers|].
  eapply decodes_app; [by eapply decodes_numbers|].
  eapply decodes_app; by eapply decodes_numbers.
Qed.

Lemma decodes_edit e : edit_ok e -> decodes VersionEdit_Clear (EncodeTo e []) e.
Proof.
  intros He. rewrite EncodeTo_fields.
  rewrite (app_assoc (field _ _)), (app_assoc (_ ++ _) (field _ _)), (app_assoc (_ ++ _) (field _ _)),
    (app_assoc (_ ++ _) (field _ _)).
  apply (decodes_app _ _ (with_lists e [] [] [])).
  { rewrite <- !app_assoc. by apply decodes_header. }
  eapply decodes_app.
  { apply (decodes_fold _ (fun p e => SetCompactPointer (fst p) (snd p) e) pointer_ok); [|apply He].
    intros p e'. apply decodes_pointer. }
  rewrite fold_pointers. eapply decodes_app.
  { apply (decodes_fold _ (fun p e => RemoveFile (fst p) (snd p) e) deleted_ok); [|apply He].
    intros p e'. apply decodes_deleted. }
  rewrite fold_deleted by apply He. cbn [app].
  pose proof (decodes_fold (put_new_file []) (fun p e => push_new_file (fst p) (snd p) e) file_ok
    (new_files_ e) (with_lists e (compact_pointers_ e) (deleted_files_ e) [])) as H.
  rewrite fold_files in H. destruct e. apply H; [|apply He]. intros p e'. apply decodes_new_file.
Qed.

Lemma DecodeFrom_EncodeTo e : edit_ok e -> DecodeFrom (EncodeTo e []) = Some (OK, e).
Proof.
  intros He. unfold DecodeFrom.
  destruct (decodes_edit e He (length (EncodeTo e [])) []) as (fuel & E & _).
  { by rewrite app_nil_r. }
  rewrite app_nil_r in E. rewrite E. destruct fuel; done.
Qed.

(** Decoding an encoded edit returns OK and the edit itself, for every edit
    whose fields fit the format. *)
Theorem version_edit_roundtrip e : edit_ok e -> DecodeFrom (EncodeTo e []) = Some (OK, e).
Proof. apply DecodeFrom_EncodeTo. Qed.

(** ** Termination *)

Lemma GetInternalKey_length p k rest : GetInternalKey p = Some (k, rest) -> (length rest <= length p)%nat.
Proof.
  unfold GetInternalKey. destruct (GetLengthPrefixedSlice p) as [[s r]|] eqn:E; [|done].
  destruct (InternalKey_DecodeFrom s) as [[] ?]; [|done]. intros [= _ <-].
  apply GetLengthPrefixedSlice_suffix in E as (q & -> & _). rewrite length_app. lia.
Qed.

Lemma GetLevel_length p l rest : GetLevel p = Some (l, rest) -> (length rest <= length p)%nat.
Proof.
  unfold GetLevel. destruct (GetVarint32 p) as [[v r]|] eqn:E; [|done].
  destruct (v <? kNumLevels); [|done]. intros [= _ <-].
  apply GetVarint32_suffix in E as (q & -> & _). rewrite length_app. lia.
Qed.

Lemma GetVarint64_length p v rest : GetVarint64 p = Some (v, rest) -> (length rest <= length p)%nat.
Proof. intros (q & -> & _)%GetVarint64_suffix. rewrite length_app. lia. Qed.

Lemma GetLengthPrefixedSlice_length p s rest :
  GetLengthPrefixedSlice p = Some (s, rest) -> (length rest <= length p)%nat.
Proof. intros (q & -> & _)%GetLengthPrefixedSlice_suffix. rewrite length_app. lia. Qed.

(** No field gives input back. *)
Lemma decode_field_length tag input e e' rest :
  decode_field tag input e = inr (e', rest) -> (length rest <= length input)%nat.
Proof.
  unfold decode_field, decode_new_file, decode_number. intros H.
  repeat (case_match; try done); simplify_eq;
    repeat match goal with
    | H : GetInternalKey _ = Some _ |- _ => apply GetInternalKey_length in H
    | H : GetLevel _ = Some _ |- _ => apply GetLevel_length in H
    | H : GetVarint64 _ = Some _ |- _ => apply GetVarint64_length in H
    | H : GetLengthPrefixedSlice _ = Some _ |- _ => apply GetLengthPrefixedSlice_length in H
    end; lia.
Qed.

Lemma decode_loop_total fuel input e :
  (length input <= fuel)%nat -> exists x, decode_loop fuel input e = Some x.
Proof.
  revert input e. induction fuel as [|fuel IH]; intros input e Hf; cbn [decode_loop];
    destruct (GetVarint32 input) as [[tag rest]|] eqn:E; try (by eexists);
    apply GetVarint32_suffix in E as (q & -> & Hq); rewrite length_app in Hf;
    (assert (0 < length q)%nat by (destruct q; [done|cbn; lia])); [lia|].
  destruct (decode_field tag rest e) as [msg|[e' rest']] eqn:Ed; [by eexists|].
  apply IH. apply decode_field_length in Ed. lia.
Qed.

(** Decoding terminates with a status on every byte string. *)
Theorem DecodeFrom_total src : exists s e, DecodeFrom src = Some (s, e).
Proof.
  unfold DecodeFrom. destruct (decode_loop_total (length src) src VersionEdit_Clear) as ([[msg e] input] & ->);
    [done|]. destruct msg; [by eexists _, _|]. destruct (negb _); by eexists _, _.
Qed.

(** ** Witnesses *)

Definition demo_key (s : string) (n : Z) : InternalKey := InternalKey_make (str s) n kTypeValue.

Definition demo_edit : VersionEdit :=
  AddFile 3 12 4096 (demo_key "a" 5) (demo_key "m" 9)
    (RemoveFile 2 11 (SetCompactPointer 1 (demo_key "c" 4)
      (SetLogNumber 10 (SetComparatorName (str "leveldb.BytewiseComparator") VersionEdit_Clear)))).

Lemma version_edit_roundtrip_witness : DecodeFrom (EncodeTo demo_edit []) = Some (OK, demo_edit).
Proof.
  apply (version_edit_roundtrip demo_edit).
  split; [by vm_compute|by vm_compute|by vm_compute|by vm_compute|by vm_compute| | | |].
  - constructor; [|constructor]. split; split; by vm_compute.
  - constructor; [|constructor]. split; split; by vm_compute.
  - constructor; constructor.
  - constructor; [|constructor]. split_and!; [..|done]; by vm_compute.
Defined.
