(* ===== verification/Filename.v ===== *)
(** * File names

    [db/filename.h] and [db/filename.cc], without [SetCurrentFile] (see [MemFs]).
    The theorem shows that every name the database generates is recognised by
    [ParseFileName] with its number and type. *)

From S2P Require Import Prelude Slice Logging.

Inductive FileType :=
  | kLogFile | kDBLockFile | kTableFile | kDescriptorFile | kCurrentFile | kTempFile | kInfoLogFile.

#[export] Instance FileType_eq_dec : EqDecision FileType.
Proof. solve_decision. Defined.

(** [%06llu] *)
Definition decimal6 (n : Z) : bytes :=
  replicate (6 - length (decimal n)) (z2b 48) ++ decimal n.

Definition MakeFileName (dbname : bytes) (number : Z) (suffix : string) : bytes :=
  dbname ++ str "/" ++ decimal6 number ++ str "." ++ str suffix.

Definition LogFileName (dbname : bytes) (number : Z) : bytes := MakeFileName dbname number "log".
Definition TableFileName (dbname : bytes) (number : Z) : bytes := MakeFileName dbname number "ldb".
Definition SSTTableFileName (dbname : bytes) (number : Z) : bytes := MakeFileName dbname number "sst".
Definition DescriptorFileName (dbname : bytes) (number : Z) : bytes :=
  dbname ++ str "/MANIFEST-" ++ decimal6 number.
Definition CurrentFileName (dbname : bytes) : bytes := dbname ++ str "/CURRENT".
Definition LockFileName (dbname : bytes) : bytes := dbname ++ str "/LOCK".
Definition TempFileName (dbname : bytes) (number : Z) : bytes := MakeFileName dbname number "dbtmp".
Definition InfoLogFileName (dbname : bytes) : bytes := dbname ++ str "/LOG".
Definition OldInfoLogFileName (dbname : bytes) : bytes := dbname ++ str "/LOG.old".

(** [ParseFileName]: [None] is the return value [false]. *)
Definition ParseFileName (filename : bytes) : option (Z * FileType) :=
  let rest := filename in
  if slice_eq rest (str "CURRENT") then Some (0, kCurrentFile)
  else if slice_eq rest (str "LOCK") then Some (0, kDBLockFile)
  else if slice_eq rest (str "LOG") || slice_eq rest (str "LOG.old") then Some (0, kInfoLogFile)
  else if starts_with rest (str "MANIFEST-") then
    match remove_prefix rest (blen (str "MANIFEST-")) with
    | None => None
    | Some rest =>
        match ConsumeDecimalNumber rest with
        | None => None
        | Some (num, rest) => if negb (blen rest =? 0) then None else Some (num, kDescriptorFile)
        end
    end
  else
    match ConsumeDecimalNumber rest with
    | None => None
    | Some (num, suffix) =>
        if slice_eq suffix (str ".log") then Some (num, kLogFile)
        else if slice_eq suffix (str ".sst") || slice_eq suffix (str ".ldb") then Some (num, kTableFile)
        else if slice_eq suffix (str ".dbtmp") then Some (num, kTempFile)
        else None
    end.

(** ** Numbers with leading zeros *)

Lemma digits_value_zeros k v : v = 0 -> digits_value v (replicate k (z2b 48)) = 0.
Proof. intros ->. unfold digits_value. induction k as [|k IH]; [done|]. cbn [replicate fold_left]. apply IH. Qed.

Lemma digits_value_app v a b : digits_value v (a ++ b) = digits_value (digits_value v a) b.
Proof. apply fold_left_app. Qed.

Lemma zeros_digits k : forallb is_digit (replicate k (z2b 48)) = true.
Proof. induction k as [|k IH]; [done|]. cbn [replicate forallb]. by rewrite IH. Qed.

Lemma decimal6_spec n :
  0 <= n < 2 ^ 64 ->
  forallb is_digit (decimal6 n) = true /\ decimal6 n <> [] /\ digits_value 0 (decimal6 n) = n.
Proof.
  intros Hn. destruct (decimal_spec n Hn) as (H1 & H2 & H3). unfold decimal6. split_and!.
  - by rewrite forallb_app, zeros_digits, H1.
  - intros E. by apply app_eq_nil in E as [_ ?].
  - by rewrite digits_value_app, digits_value_zeros.
Qed.

Lemma consume_decimal6 n rest :
  0 <= n < 2 ^ 64 -> (match rest with [] => True | c :: _ => is_digit c = false end) ->
  ConsumeDecimalNumber (decimal6 n ++ rest) = Some (n, rest).
Proof.
  intros Hn Hr. destruct (decimal6_spec n Hn) as (Hd & Hne & Hv).
  rewrite ConsumeDecimalNumber_spec, digit_span_digits by done. rewrite Hv.
  assert (0 < blen (decimal6 n)) as Hl.
  { pose proof (blen_nonneg (decimal6 n)). destruct (Z.eq_dec (blen (decimal6 n)) 0) as [E|]; [|lia].
    by apply blen_zero in E. }
  destruct (Z.ltb_spec 0 (blen (decimal6 n))); [|lia]. destruct (Z.ltb_spec n (2 ^ 64)); [done|lia].
Qed.

(** A generated name starts with a digit, so none of the fixed names match. *)
Lemma decimal6_first n rest :
  0 <= n < 2 ^ 64 -> exists c s, decimal6 n ++ rest = c :: s /\ is_digit c = true.
Proof.
  intros Hn. destruct (decimal6_spec n Hn) as (Hd & Hne & _).
  destruct (decimal6 n) as [|c s]; [done|]. exists c, (s ++ rest). split; [done|].
  cbn in Hd. by apply andb_prop in Hd as [? _].
Qed.

Lemma not_fixed_name c s (x : bytes) :
  is_digit c = true -> match x with [] => True | d :: _ => is_digit d = false end ->
  slice_eq (c :: s) x = false.
Proof.
  intros Hc Hx. destruct (slice_eq (c :: s) x) eqn:E; [|done]. apply slice_eq_spec in E as <-. congruence.
Qed.

Lemma not_manifest c s : is_digit c = true -> starts_with (c :: s) (str "MANIFEST-") = false.
Proof.
  intros Hc. unfold starts_with. apply andb_false_iff. right.
  change (str "MANIFEST-") with (z2b 77 :: str "ANIFEST-"). cbn [length memcmp].
  change (b2z (z2b 77)) with 77. unfold is_digit in Hc. apply andb_prop in Hc as [H1 H2].
  apply Z.leb_le in H1, H2. destruct (Z.ltb_spec (b2z c) 77); [done|lia].
Qed.

Lemma parse_numbered n (suffix : string) :
  0 <= n < 2 ^ 64 ->
  ParseFileName (decimal6 n ++ str "." ++ str suffix) =
  (if slice_eq (str "." ++ str suffix) (str ".log") then Some (n, kLogFile)
   else if slice_eq (str "." ++ str suffix) (str ".sst") || slice_eq (str "." ++ str suffix) (str ".ldb")
   then Some (n, kTableFile)
   else if slice_eq (str "." ++ str suffix) (str ".dbtmp") then Some (n, kTempFile)
   else None).
Proof.
  intros Hn. unfold ParseFileName. rewrite consume_decimal6 by done.
  destruct (decimal6_first n (str "." ++ str suffix) Hn) as (c & s & -> & Hc).
  rewrite !not_fixed_name, not_manifest by done. done.
Qed.

Lemma starts_with_app x s : starts_with (x ++ s) x = true.
Proof.
  unfold starts_with. apply andb_true_iff. split.
  - apply Z.leb_le. rewrite blen_app. pose proof (blen_nonneg s). lia.
  - apply Z.eqb_eq. induction x as [|a x IH]; [by destruct s|]. cbn [app length memcmp]. by rewrite Z.ltb_irrefl.
Qed.

Lemma parse_manifest n :
  0 <= n < 2 ^ 64 -> ParseFileName (str "MANIFEST-" ++ decimal6 n) = Some (n, kDescriptorFile).
Proof.
  intros Hn. unfold ParseFileName.
  assert (forall x, match x with [] => True | d :: _ => b2z d <> 77 end ->
                    slice_eq (str "MANIFEST-" ++ decimal6 n) x = false) as Hno.
  { intros x Hx. destruct (slice_eq _ x) eqn:E; [|done]. apply slice_eq_spec in E as <-.
    by exfalso; apply Hx. }
  rewrite !Hno by (by vm_compute). rewrite starts_with_app. cbn [orb]. unfold remove_prefix.
  destruct (Z.leb_spec (blen (str "MANIFEST-")) (blen (str "MANIFEST-" ++ decimal6 n))) as [_|Hl].
  - rewrite zdrop_app by done. rewrite <- (app_nil_r (decimal6 n)). by rewrite consume_decimal6.
  - rewrite blen_app in Hl. pose proof (blen_nonneg (decimal6 n)). lia.
Qed.

(** Every name the database gives to one of its files, with the database's
    directory removed, is recognised by [ParseFileName], which returns the
    number and the type it was made from. *)
Theorem filename_roundtrip dbname n :
  0 <= n < 2 ^ 64 ->
  Forall (fun x => let '(name, num, ty) := x in
            exists base, name = dbname ++ str "/" ++ base /\ ParseFileName base = Some (num, ty))
    [(LogFileName dbname n, n, kLogFile); (TableFileName dbname n, n, kTableFile);
     (SSTTableFileName dbname n, n, kTableFile); (TempFileName dbname n, n, kTempFile);
     (DescriptorFileName dbname n, n, kDescriptorFile); (CurrentFileName dbname, 0, kCurrentFile);
     (LockFileName dbname, 0, kDBLockFile); (InfoLogFileName dbname, 0, kInfoLogFile);
     (OldInfoLogFileName dbname, 0, kInfoLogFile)].
Proof.
  intros Hn. repeat apply Forall_cons_2; try apply Forall_nil_2.
  1-4: eexists; (split; [reflexivity|by rewrite parse_numbered]).
  1: { exists (str "MANIFEST-" ++ decimal6 n). split; [done|]. by apply parse_manifest. }
  1: by exists (str "CURRENT").
  1: by exists (str "LOCK").
  1: by exists (str "LOG").
  by exists (str "LOG.old").
Qed.

Lemma filename_roundtrip_witness :
  Forall (fun x => let '(name, num, ty) := x in
            exists base, name = str "db" ++ str "/" ++ base /\ ParseFileName base = Some (num, ty))
    [(LogFileName (str "db") 7, 7, kLogFile); (TableFileName (str "db") 7, 7, kTableFile);
     (SSTTableFileName (str "db") 7, 7, kTableFile); (TempFileName (str "db") 7, 7, kTempFile);
     (DescriptorFileName (str "db") 7, 7, kDescriptorFile); (CurrentFileName (str "db"), 0, kCurrentFile);
     (LockFileName (str "db"), 0, kDBLockFile); (InfoLogFileName (str "db"), 0, kInfoLogFile);
     (OldInfoLogFileName (str "db"), 0, kInfoLogFile)].
Proof. apply (filename_roundtrip (str "db") 7). lia. Defined.
