(* ===== verification/MemFs.v ===== *)
(** * The in-memory environment: the file system

    [InMemoryEnv] and the file objects of [helpers/memenv/memenv.cc], the string
    helpers of [util/env.cc] and [SetCurrentFile] of [db/filename.cc].

    [FileState] objects are shared: the file map and every open file hold a
    counted reference.  The model therefore keeps a heap of objects (a deleted
    one is [None]) and pointers into it, in a state monad; dereferencing a null
    or dangling pointer has no result.  The theorems relate it to a plain
    map from names to contents and show that no such dereference happens. *)

From S2P Require Import Prelude Slice Status Env MemEnv Logging Filename.

(** [FileState*]; [None] is the null pointer. *)
Definition ptr : Type := option nat.

Record World := mkWorld {
  heap : list (option FileState);
  file_map_ : list (bytes * ptr)      (* std::map: increasing names *)
}.

(** ** The monad: state, and no result after undefined behaviour *)

Definition M (A : Type) : Type := World -> option (A * World).

#[export] Instance M_ret : MRet M := fun A a w => Some (a, w).
#[export] Instance M_bind : MBind M := fun A B k m w =>
  match m w with
  | Some (a, w) => k a w
  | None => None
  end.

(** Running the parts of a computation. *)
Lemma run_bind {A B} (m : M A) (k : A -> M B) w a w' : m w = Some (a, w') -> (m ≫= k) w = k a w'.
Proof. intros H. unfold mbind, M_bind. by rewrite H. Qed.

Lemma run_ret {A B} (a : A) (k : A -> M B) w : (mret a ≫= k) w = k a w.
Proof. done. Qed.

Ltac run H := rewrite (run_bind _ _ _ _ _ H).

Definition get_world : M World := fun w => Some (w, w).
Definition set_map (m : list (bytes * ptr)) : M unit := fun w => Some (tt, mkWorld (heap w) m).

Lemma run_get {B} (k : World -> M B) w : (get_world ≫= k) w = k w w.
Proof. done. Qed.

Lemma run_set {B} m (k : unit -> M B) w : (set_map m ≫= k) w = k tt (mkWorld (heap w) m).
Proof. done. Qed.

(** [new FileState()] *)
Definition new_FileState : M ptr := fun w =>
  Some (Some (length (heap w)), mkWorld (heap w ++ [Some FileState_new]) (file_map_ w)).

(** [*p], and assignment through [p]. *)
Definition deref (p : ptr) : M FileState := fun w =>
  match p with
  | Some i => match heap w !! i with Some (Some st) => Some (st, w) | _ => None end
  | None => None
  end.

Definition put_heap (p : ptr) (v : option FileState) : M unit := fun w =>
  match p with
  | Some i => Some (tt, mkWorld (<[i := v]> (heap w)) (file_map_ w))
  | None => None
  end.

(** ** [std::map] *)

Fixpoint map_find (name : bytes) (m : list (bytes * ptr)) : option ptr :=
  match m with
  | [] => None
  | (k, v) :: m => if slice_eq k name then Some v else map_find name m
  end.

(** [m[name] = v], keeping the names in order. *)
Fixpoint map_set (name : bytes) (v : ptr) (m : list (bytes * ptr)) : list (bytes * ptr) :=
  match m with
  | [] => [(name, v)]
  | (k, u) :: m' =>
      if compare name k <? 0 then (name, v) :: m
      else if slice_eq k name then (k, v) :: m'
      else (k, u) :: map_set name v m'
  end.

Definition map_erase (name : bytes) (m : list (bytes * ptr)) : list (bytes * ptr) :=
  List.filter (fun kv => negb (slice_eq (fst kv) name)) m.

(** [m[name]] as a value: a missing entry is created, null. *)
Definition map_index (name : bytes) : M ptr := fun w =>
  match map_find name (file_map_ w) with
  | Some p => Some (p, w)
  | None => Some (None, mkWorld (heap w) (map_set name None (file_map_ w)))
  end.

(** ** [FileState] objects *)

Definition Ref (p : ptr) : M unit :=
  st ← deref p; put_heap p (Some (mkFileState (refs_ st + 1) (blocks_ st) (size_ st))).

Definition Unref (p : ptr) : M unit :=
  st ← deref p;
  let refs := refs_ st - 1 in
  if refs <=? 0 then put_heap p None
  else put_heap p (Some (mkFileState refs (blocks_ st) (size_ st))).

Section InMemoryEnv.

Context (uninit : bytes).

(** ** Open files *)

Record SequentialFileImpl := mkSeq { seq_file_ : ptr; pos_ : Z }.

Definition SequentialFileImpl_make (p : ptr) : M SequentialFileImpl := Ref p;; mret (mkSeq p 0).

Definition Seq_Read (f : SequentialFileImpl) (n : Z) : M (Status * bytes * SequentialFileImpl) :=
  st ← deref (seq_file_ f);
  let '(s, result) := FileState_Read st (pos_ f) n in
  if ok s then mret (s, result, mkSeq (seq_file_ f) (u64 (pos_ f + blen result)))
  else mret (s, result, f).

Definition Seq_Skip (f : SequentialFileImpl) (n : Z) : M (Status * SequentialFileImpl) :=
  st ← deref (seq_file_ f);
  if Size st <? pos_ f then mret (IOError (str "pos_ > file_->Size()") [], f)
  else
    let available := Size st - pos_ f in
    let n := if available <? n then available else n in
    mret (OK, mkSeq (seq_file_ f) (pos_ f + n)).

Definition Random_Read (p : ptr) (offset n : Z) : M (Status * bytes) :=
  st ← deref p; mret (FileState_Read st offset n).

(** [WritableFileImpl::Append] on the file it holds. *)
Definition Writable_Append (p : ptr) (data : bytes) : M Status :=
  st ← deref p;
  let '(s, st) := FileState_Append uninit st data in
  put_heap p (Some st);; mret s.

Definition Writable_Close (p : ptr) : M Status := mret OK.
Definition Writable_Flush (p : ptr) : M Status := mret OK.
Definition Writable_Sync (p : ptr) : M Status := mret OK.

(** ** [InMemoryEnv] *)

Definition not_found (fname : bytes) : Status := IOError fname (str "File not found").

Definition NewSequentialFile (fname : bytes) : M (Status * option SequentialFileImpl) :=
  w ← get_world;
  match map_find fname (file_map_ w) with
  | None => mret (not_found fname, None)
  | Some _ =>
      p ← map_index fname;
      f ← SequentialFileImpl_make p;
      mret (OK, Some f)
  end.

Definition NewRandomAccessFile (fname : bytes) : M (Status * option ptr) :=
  w ← get_world;
  match map_find fname (file_map_ w) with
  | None => mret (not_found fname, None)
  | Some _ =>
      p ← map_index fname;
      Ref p;; mret (OK, Some p)
  end.

Definition NewWritableFile (fname : bytes) : M (Status * ptr) :=
  w ← get_world;
  file ← match map_find fname (file_map_ w) with
         | None =>
             file ← new_FileState;
             Ref file;;
             w ← get_world;
             set_map (map_set fname file (file_map_ w));;
             mret file
         | Some file =>
             st ← deref file;
             put_heap file (Some (Truncate st));;
             mret file
         end;
  Ref file;; mret (OK, file).

Definition NewAppendableFile (fname : bytes) : M (Status * ptr) :=
  file ← map_index fname;
  file ← match file with
         | None => file ← new_FileState; Ref file;; mret file
         | Some _ => mret file
         end;
  Ref file;; mret (OK, file).

Definition FileExists (fname : bytes) : M bool :=
  w ← get_world;
  mret (match map_find fname (file_map_ w) with Some _ => true | None => false end).

Definition GetChildren (dir : bytes) : M (Status * list bytes) :=
  w ← get_world;
  mret (OK, flat_map (fun kv =>
    let filename := fst kv in
    if (blen dir + 1 <=? blen filename) && (b2z (byte_at filename (blen dir)) =? 47) &&
       starts_with filename dir
    then [zdrop (blen dir + 1) filename] else []) (file_map_ w)).

Definition RemoveFileInternal (fname : bytes) : M unit :=
  w ← get_world;
  match map_find fname (file_map_ w) with
  | None => mret tt
  | Some _ =>
      p ← map_index fname;
      Unref p;;
      w ← get_world;
      set_map (map_erase fname (file_map_ w))
  end.

Definition RemoveFile (fname : bytes) : M Status :=
  w ← get_world;
  match map_find fname (file_map_ w) with
  | None => mret (not_found fname)
  | Some _ => RemoveFileInternal fname;; mret OK
  end.

Definition GetFileSize (fname : bytes) : M (Status * Z) :=
  w ← get_world;
  match map_find fname (file_map_ w) with
  | None => mret (not_found fname, 0)
  | Some _ =>
      p ← map_index fname;
      st ← deref p;
      mret (OK, Size st)
  end.

Definition RenameFile (src target : bytes) : M Status :=
  w ← get_world;
  match map_find src (file_map_ w) with
  | None => mret (not_found src)
  | Some _ =>
      RemoveFileInternal target;;
      p ← map_index src;
      w ← get_world;
      set_map (map_set target p (file_map_ w));;
      w ← get_world;
      set_map (map_erase src (file_map_ w));;
      mret OK
  end.

(** ** [util/env.cc] *)

Definition DoWriteStringToFile (data fname : bytes) (should_sync : bool) : M Status :=
  '(s, file) ← NewWritableFile fname;
  if negb (ok s) then mret s
  else
    s ← Writable_Append file data;
    s ← (if ok s && should_sync then Writable_Sync file else mret s);
    s ← (if ok s then Writable_Close file else mret s);
    Unref file;;
    (if negb (ok s) then RemoveFile fname;; mret s else mret s).

Definition WriteStringToFile (data fname : bytes) : M Status := DoWriteStringToFile data fname false.
Definition WriteStringToFileSync (data fname : bytes) : M Status := DoWriteStringToFile data fname true.

Definition kBufferSize : Z := 8192.

(** The loop of [ReadFileToString]; [None] if the fuel does not suffice. *)
Fixpoint read_string_loop (fuel : nat) (f : SequentialFileImpl) (data : bytes)
  : M (Status * bytes * SequentialFileImpl) :=
  match fuel with
  | O => fun _ => None
  | S fuel =>
      '(s, fragment, f) ← Seq_Read f kBufferSize;
      if negb (ok s) then mret (s, data, f)
      else
        let data := data ++ fragment in
        if blen fragment =? 0 then mret (s, data, f) else read_string_loop fuel f data
  end.

Definition ReadFileToString (fuel : nat) (fname : bytes) : M (Status * bytes) :=
  '(s, file) ← NewSequentialFile fname;
  match file with
  | None => mret (s, [])
  | Some f =>
      '(s, data, f) ← read_string_loop fuel f [];
      Unref (seq_file_ f);;
      mret (s, data)
  end.

(** ** [SetCurrentFile] of [db/filename.cc] *)

Definition SetCurrentFile (dbname : bytes) (descriptor_number : Z) : M Status :=
  let manifest := DescriptorFileName dbname descriptor_number in
  let contents := zdrop (blen dbname + 1) manifest in
  let tmp := TempFileName dbname descriptor_number in
  s ← WriteStringToFileSync (contents ++ [z2b 10]) tmp;
  s ← (if ok s then RenameFile tmp (CurrentFileName dbname) else mret s);
  if negb (ok s) then RemoveFile tmp;; mret s else mret s.

(** ** The invariant

    Every object is referenced by the entries of the file map that point to it
    and by the open files [hs], and its reference count is their number. *)

Definition heap_at (w : World) (i : nat) : option FileState := mjoin (heap w !! i).

Definition owned (m : list (bytes * ptr)) : list nat :=
  flat_map (fun kv => match snd kv with Some i => [i] | None => [] end) m.

Definition occ (i : nat) (l : list nat) : nat := count_occ Nat.eq_dec l i.

Definition owners (w : World) (hs : list nat) (i : nat) : nat := occ i (owned (file_map_ w) ++ hs).

Record map_ok (m : list (bytes * ptr)) : Prop := {
  names_nodup : NoDup (map fst m);
  ptrs_nodup : NoDup (owned m);
  ptrs_some n v : (n, v) ∈ m -> exists i, v = Some i
}.

Record fs_ok (w : World) (hs : list nat) : Prop := {
  fs_map : map_ok (file_map_ w);
  fs_live i st : heap_at w i = Some st -> file_ok st /\ refs_ st = Z.of_nat (owners w hs i);
  fs_owned i : is_Some (heap_at w i) <-> (0 < owners w hs i)%nat
}.

(** The file system the environment stands for. *)
Definition view (w : World) (name : bytes) : option bytes :=
  match map_find name (file_map_ w) with
  | Some (Some i) => contents <$> heap_at w i
  | _ => None
  end.

(** *** Maps *)

Lemma map_find_elem n v m : NoDup (map fst m) -> map_find n m = Some v <-> (n, v) ∈ m.
Proof.
  induction m as [|[k u] m IH]; cbn [map fst map_find]; intros Hnd.
  { split; [done|]. intros H. by apply elem_of_nil in H. }
  apply NoDup_cons in Hnd as [Hk Hnd]. rewrite elem_of_cons. specialize (IH Hnd).
  destruct (slice_eq k n) eqn:E.
  - apply slice_eq_spec in E as ->. split; [intros [= ->]; by left|].
    intros [[= ->]|Hin]; [done|]. exfalso. apply Hk. apply list_elem_of_In in Hin.
    apply (in_map fst) in Hin. by apply list_elem_of_In.
  - rewrite IH. split; [by right|]. intros [[= -> ->]|?]; [|done].
    assert (slice_eq k k = true) by (by apply slice_eq_spec). congruence.
Qed.

Lemma map_find_set n k v m : map_find n (map_set k v m) = if decide (n = k) then Some v else map_find n m.
Proof.
  assert (forall a, slice_eq a a = true) as Hrefl by (intros a; by apply slice_eq_spec).
  assert (forall a b, a <> b -> slice_eq a b = false) as Hne.
  { intros a b Hab. destruct (slice_eq a b) eqn:E; [|done]. by apply slice_eq_spec in E. }
  induction m as [|[k' u] m IH]; cbn [map_set map_find].
  - destruct (decide (n = k)) as [->|]; [by rewrite Hrefl|by rewrite Hne by done].
  - destruct (compare k k' <? 0); cbn [map_find].
    { destruct (decide (n = k)) as [->|]; [by rewrite Hrefl|]. by rewrite (Hne k n). }
    destruct (slice_eq k' k) eqn:E; cbn [map_find].
    + apply slice_eq_spec in E as ->. destruct (decide (n = k)) as [->|]; [by rewrite Hrefl|].
      by rewrite (Hne k n).
    + rewrite IH. destruct (decide (n = k)) as [->|]; [by rewrite E|done].
Qed.

Lemma map_find_erase n k m : map_find n (map_erase k m) = if decide (n = k) then None else map_find n m.
Proof.
  induction m as [|[k' u] m IH]; cbn [map_erase List.filter map_find fst].
  { by destruct (decide (n = k)). }
  fold (map_erase k m). destruct (slice_eq k' k) eqn:E; cbn [negb map_find].
  - apply slice_eq_spec in E as ->. rewrite IH. destruct (decide (n = k)) as [->|Hn]; [done|].
    destruct (slice_eq k n) eqn:E; [|done]. apply slice_eq_spec in E. congruence.
  - rewrite IH. destruct (slice_eq k' n) eqn:E2; [|done]. apply slice_eq_spec in E2 as ->.
    destruct (decide (n = k)) as [->|]; [|done].
    assert (slice_eq k k = true) by (by apply slice_eq_spec). congruence.
Qed.

(** Setting a new name adds one entry. *)
Lemma map_set_perm k v m : map_find k m = None -> map_set k v m ≡ₚ (k, v) :: m.
Proof.
  induction m as [|[k' u] m IH]; cbn [map_set map_find]; [done|]. destruct (slice_eq k' k) eqn:E; [done|].
  intros Hf. destruct (compare k k' <? 0); [done|]. rewrite IH by done. by apply Permutation_swap.
Qed.

(** Erasing a name removes its entry. *)
Lemma map_erase_perm k v m :
  NoDup (map fst m) -> map_find k m = Some v -> m ≡ₚ (k, v) :: map_erase k m.
Proof.
  induction m as [|[k' u] m IH]; cbn [map fst map_find map_erase List.filter]; [done|].
  intros Hnd Hf. apply NoDup_cons in Hnd as [Hk Hnd]. fold (map_erase k m).
  destruct (slice_eq k' k) eqn:E; cbn [negb].
  - apply slice_eq_spec in E as ->. injection Hf as ->. f_equiv.
    unfold map_erase. rewrite filter_id; [done|]. intros [n x] Hin. cbn [fst].
    destruct (slice_eq n k) eqn:E; [|done]. apply slice_eq_spec in E as ->. exfalso. apply Hk.
    apply list_elem_of_In in Hin. apply (in_map fst) in Hin. by apply list_elem_of_In.
  - rewrite Permutation_swap. f_equiv. by apply IH.
Qed.

Lemma owned_perm m m' : m ≡ₚ m' -> owned m ≡ₚ owned m'.
Proof. intros H. unfold owned. by apply Permutation_flat_map. Qed.

Lemma map_ok_perm m m' : m ≡ₚ m' -> map_ok m -> map_ok m'.
Proof.
  intros Hp [H1 H2 H3]. split.
  - by rewrite <- Hp.
  - rewrite <- (owned_perm m m' Hp). done.
  - intros n v Hin. apply (H3 n v). by rewrite Hp.
Qed.

Lemma map_ok_cons n i m :
  map_ok ((n, Some i) :: m) <-> map_ok m /\ map_find n m = None /\ i ∉ owned m.
Proof.
  split.
  - intros [H1 H2 H3]. cbn [map fst owned flat_map snd] in H1, H2.
    apply NoDup_cons in H1 as [Hn H1]. apply NoDup_cons in H2 as [Hi H2].
    split_and!; [split; [done|done|intros n' v Hin; apply (H3 n'); by right]| |done].
    destruct (map_find n m) as [v|] eqn:E; [|done]. exfalso. apply Hn.
    apply map_find_elem in E; [|done]. apply list_elem_of_In in E. apply (in_map fst) in E.
    by apply list_elem_of_In.
  - intros ([H1 H2 H3] & Hn & Hi). split.
    + cbn [map fst]. apply NoDup_cons. split; [|done]. intros Hin.
      apply list_elem_of_In, in_map_iff in Hin as ([k v] & Hk & Hin). cbn in Hk. subst k.
      apply list_elem_of_In, map_find_elem in Hin; [congruence|done].
    + cbn [owned flat_map snd]. by apply NoDup_cons.
    + intros n' v [[= -> ->]|Hin]%elem_of_cons; [eauto|by apply (H3 n')].
Qed.

(** Counting references. *)
Lemma occ_app i a b : occ i (a ++ b) = (occ i a + occ i b)%nat.
Proof. apply count_occ_app. Qed.

Lemma occ_cons i j l : occ i (j :: l) = ((if decide (i = j) then 1 else 0) + occ i l)%nat.
Proof.
  unfold occ. cbn [count_occ]. destruct (Nat.eq_dec j i), (decide (i = j)); congruence || lia.
Qed.

Lemma occ_perm i a b : a ≡ₚ b -> occ i a = occ i b.
Proof. intros Hp. by apply (proj1 (Permutation_count_occ Nat.eq_dec a b)). Qed.

Lemma occ_elem i l : (0 < occ i l)%nat <-> i ∈ l.
Proof. unfold occ. rewrite list_elem_of_In. symmetry. apply count_occ_In. Qed.

(** *** Single operations *)

Lemma heap_at_put (w : World) m i v j :
  (i < length (heap w))%nat ->
  heap_at (mkWorld (<[i := v]> (heap w)) m) j = if decide (j = i) then v else heap_at w j.
Proof.
  intros Hi. unfold heap_at. cbn [heap]. destruct (decide (j = i)) as [->|].
  - by rewrite list_lookup_insert_eq.
  - by rewrite list_lookup_insert_ne.
Qed.

Lemma heap_at_lt w i st : heap_at w i = Some st -> (i < length (heap w))%nat.
Proof.
  unfold heap_at. destruct (heap w !! i) eqn:E; [|done]. intros _. by apply lookup_lt_Some in E.
Qed.

Lemma deref_at w i st : heap_at w i = Some st -> deref (Some i) w = Some (st, w).
Proof.
  unfold heap_at, deref. destruct (heap w !! i) as [[st'|]|]; cbn; try done. by intros [= ->].
Qed.

(** Changing one object, the map and the open files together. *)
Lemma fs_update w hs w' hs' i :
  fs_ok w hs -> map_ok (file_map_ w') ->
  (forall j, j <> i -> heap_at w' j = heap_at w j /\ owners w' hs' j = owners w hs j) ->
  match heap_at w' i with
  | Some st => file_ok st /\ refs_ st = Z.of_nat (owners w' hs' i) /\ (0 < owners w' hs' i)%nat
  | None => owners w' hs' i = 0%nat
  end -> fs_ok w' hs'.
Proof.
  intros [_ Hl Ho] Hm Hj Hi. split; [done| |].
  - intros j st Hst. destruct (decide (j = i)) as [->|Hn].
    + rewrite Hst in Hi. tauto.
    + destruct (Hj j Hn) as [E1 E2]. rewrite E2. apply Hl. by rewrite <- E1.
  - intros j. destruct (decide (j = i)) as [->|Hn].
    + destruct (heap_at w' i); [|rewrite Hi; split; [by intros [? ?]|lia]]. split; [tauto|eauto].
    + destruct (Hj j Hn) as [-> ->]. apply Ho.
Qed.

(** The objects of the file map are alive. *)
Lemma named_live w hs n v :
  fs_ok w hs -> map_find n (file_map_ w) = Some v ->
  exists i st, v = Some i /\ heap_at w i = Some st /\ i ∈ owned (file_map_ w).
Proof.
  intros [Hm _ Ho] Hf. apply map_find_elem in Hf; [|apply Hm].
  destruct (ptrs_some _ Hm n v Hf) as [i ->].
  assert (i ∈ owned (file_map_ w)) as Hin.
  { apply list_elem_of_In. apply in_flat_map. exists (n, Some i). split; [by apply list_elem_of_In|]. by left. }
  assert (is_Some (heap_at w i)) as [st Hst].
  { apply Ho. unfold owners. rewrite occ_app. apply occ_elem in Hin. lia. }
  by exists i, st.
Qed.

(** Different names have different objects. *)
Lemma names_apart w hs n n' i :
  fs_ok w hs -> map_find n (file_map_ w) = Some (Some i) ->
  map_find n' (file_map_ w) = Some (Some i) -> n = n'.
Proof.
  intros [Hm _ _] Hn Hn'. pose proof Hm as Hm0.
  pose proof (map_erase_perm n (Some i) _ (names_nodup _ Hm) Hn) as Hp.
  apply (map_ok_perm _ _ Hp), map_ok_cons in Hm0 as (_ & _ & Hi).
  destruct (decide (n = n')) as [|Hne]; [done|]. exfalso. apply Hi.
  assert (map_find n' (map_erase n (file_map_ w)) = Some (Some i)) as Hf
    by (rewrite map_find_erase; by case_decide).
  apply (map_ok_perm _ _ Hp), map_ok_cons in Hm as (Hm & _).
  apply map_find_elem in Hf; [|apply Hm]. apply list_elem_of_In, in_flat_map. exists (n', Some i).
  split; [by apply list_elem_of_In|by left].
Qed.

Lemma Ref_spec w hs i st :
  fs_ok w hs -> heap_at w i = Some st ->
  exists w', Ref (Some i) w = Some (tt, w') /\ fs_ok w' (i :: hs) /\
    file_map_ w' = file_map_ w /\
    heap_at w' i = Some (mkFileState (refs_ st + 1) (blocks_ st) (size_ st)) /\
    (forall n, view w' n = view w n).
Proof.
  intros Hok Hi. pose proof (heap_at_lt _ _ _ Hi) as Hlt. unfold Ref, mbind, M_bind.
  rewrite (deref_at w i st Hi). cbn [put_heap].
  set (st' := mkFileState (refs_ st + 1) (blocks_ st) (size_ st)).
  set (w' := mkWorld (<[i := Some st']> (heap w)) (file_map_ w)). exists w'.
  assert (forall j, heap_at w' j = if decide (j = i) then Some st' else heap_at w j) as Hh
    by (intros j; by apply heap_at_put).
  destruct (fs_live _ _ Hok i st Hi) as [Hf Hr].
  split_and!; [done| |done| |].
  - apply (fs_update w hs w' (i :: hs) i); [done|apply Hok| |].
    + intros j Hj. rewrite Hh. split; [by case_decide|]. unfold owners. cbn [file_map_ w'].
      rewrite !occ_app, occ_cons. case_decide; [done|lia].
    + rewrite Hh. case_decide; [|done]. unfold owners in *. cbn [file_map_ w'].
      rewrite !occ_app, occ_cons in *. case_decide; [|done].
      split_and!; [destruct Hf; by split|cbn [refs_ st']; lia|lia].
  - rewrite Hh. by case_decide.
  - intros n. unfold view. cbn [file_map_ w']. destruct (map_find n (file_map_ w)) as [[j|]|]; try done.
    rewrite Hh. case_decide as Hj; [|done]. subst j. by rewrite Hi.
Qed.

Lemma Unref_spec w hs i :
  fs_ok w (i :: hs) ->
  exists w', Unref (Some i) w = Some (tt, w') /\ fs_ok w' hs /\
    file_map_ w' = file_map_ w /\ (forall n, view w' n = view w n).
Proof.
  intros Hok. assert (is_Some (heap_at w i)) as [st Hi].
  { apply (fs_owned _ _ Hok). unfold owners. rewrite occ_app, occ_cons. case_decide; [lia|done]. }
  pose proof (heap_at_lt _ _ _ Hi) as Hlt. destruct (fs_live _ _ Hok i st Hi) as [Hf Hr].
  unfold Unref, mbind, M_bind. rewrite (deref_at w i st Hi).
  set (v := if refs_ st - 1 <=? 0 then None else Some (mkFileState (refs_ st - 1) (blocks_ st) (size_ st))).
  set (w' := mkWorld (<[i := v]> (heap w)) (file_map_ w)). exists w'.
  assert (forall j, heap_at w' j = if decide (j = i) then v else heap_at w j) as Hh
    by (intros j; by apply heap_at_put).
  assert (Z.of_nat (owners w' hs i) = refs_ st - 1) as Hn.
  { rewrite Hr. unfold owners. cbn [file_map_ w']. rewrite !occ_app, occ_cons. case_decide; [lia|done]. }
  split_and!.
  - unfold v, w'. destruct (refs_ st - 1 <=? 0); done.
  - apply (fs_update w (i :: hs) w' hs i); [done|apply Hok| |].
    + intros j Hj. rewrite Hh. split; [by case_decide|]. unfold owners. cbn [file_map_ w'].
      rewrite !occ_app, occ_cons. case_decide; [done|lia].
    + rewrite Hh. case_decide; [|done]. unfold v. destruct (Z.leb_spec (refs_ st - 1) 0); [lia|].
      split_and!; [destruct Hf; by split|cbn [refs_]; lia|lia].
  - done.
  - intros n. unfold view. cbn [file_map_ w']. destruct (map_find n (file_map_ w)) as [[j|]|] eqn:En; try done.
    rewrite Hh. case_decide as Hj; [|done]. subst j. rewrite Hi. unfold v.
    destruct (Z.leb_spec (refs_ st - 1) 0) as [Hle|]; [exfalso|done].
    destruct (named_live w _ n _ Hok En) as (j & st' & [= <-] & _ & Hin).
    apply occ_elem in Hin. unfold owners in Hn. cbn [file_map_ w'] in Hn. rewrite occ_app in Hn. lia.
Qed.

(** Changing the contents of a named file. *)
Lemma store_spec w hs n i st st' :
  fs_ok w hs -> map_find n (file_map_ w) = Some (Some i) -> heap_at w i = Some st ->
  file_ok st' -> refs_ st' = refs_ st ->
  let w' := mkWorld (<[i := Some st']> (heap w)) (file_map_ w) in
  fs_ok w' hs /\ heap_at w' i = Some st' /\
  forall n', view w' n' = if decide (n' = n) then Some (contents st') else view w n'.
Proof.
  intros Hok Hn Hi Hf Hr w'. pose proof (heap_at_lt _ _ _ Hi) as Hlt.
  assert (forall j, heap_at w' j = if decide (j = i) then Some st' else heap_at w j) as Hh
    by (intros j; by apply heap_at_put).
  destruct (fs_live _ _ Hok i st Hi) as [_ Hri].
  assert (0 < owners w hs i)%nat as Hpos by (apply Hok; by rewrite Hi).
  split_and!.
  - apply (fs_update w hs w' hs i); [done|apply Hok| |].
    + intros j Hj. rewrite Hh. by case_decide.
    + rewrite Hh. case_decide; [|done]. change (owners w' hs i) with (owners w hs i).
      split_and!; [done|congruence|done].
  - rewrite Hh. by case_decide.
  - intros n'. unfold view. cbn [file_map_ w']. destruct (decide (n' = n)) as [->|Hne].
    + rewrite Hn, Hh. by case_decide.
    + destruct (map_find n' (file_map_ w)) as [[j|]|] eqn:En'; try done. rewrite Hh.
      case_decide as Hj; [|done]. subst j. exfalso. apply Hne. by apply (names_apart w hs n' n i).
Qed.

(** A new, empty file under a new name. *)
Lemma create_spec w hs n st0 :
  fs_ok w hs -> map_find n (file_map_ w) = None -> file_ok st0 -> refs_ st0 = 1 ->
  let i := length (heap w) in
  let w' := mkWorld (heap w ++ [Some st0]) (map_set n (Some i) (file_map_ w)) in
  fs_ok w' hs /\ heap_at w' i = Some st0 /\
  forall n', view w' n' = if decide (n' = n) then Some (contents st0) else view w n'.
Proof.
  intros Hok Hn Hf Hr i w'. pose proof (map_set_perm n (Some i) _ Hn) as Hp.
  assert (forall j, heap_at w' j = if decide (j = i) then Some st0 else heap_at w j) as Hh.
  { intros j. unfold heap_at. cbn [heap w']. destruct (decide (j = i)) as [->|Hj].
    - by rewrite list_lookup_middle.
    - destruct (Nat.lt_ge_cases j i); [by rewrite lookup_app_l|].
      rewrite (lookup_ge_None_2 (heap w)), lookup_ge_None_2; [done| |lia].
      rewrite length_app. cbn. unfold i in *. lia. }
  assert (owners w hs i = 0%nat) as H0.
  { destruct (owners w hs i) eqn:E; [done|]. exfalso.
    assert (is_Some (heap_at w i)) as [st Hst] by (apply (fs_owned _ _ Hok); lia).
    apply heap_at_lt in Hst. unfold i in Hst. lia. }
  assert (forall j, owners w' hs j = ((if decide (j = i) then 1 else 0) + owners w hs j)%nat) as Ho.
  { intros j. unfold owners. cbn [file_map_ w']. rewrite !occ_app.
    rewrite (occ_perm j _ _ (owned_perm _ _ Hp)). 
    change (owned ((n, Some i) :: file_map_ w)) with (i :: owned (file_map_ w)). rewrite occ_cons. lia. }
  split_and!.
  - apply (fs_update w hs w' hs i); [done| | |].
    + apply (map_ok_perm ((n, Some i) :: file_map_ w)); [done|]. apply map_ok_cons.
      split_and!; [apply Hok|done|]. intros Hin%occ_elem. unfold owners in H0. rewrite occ_app in H0. lia.
    + intros j Hj. rewrite Hh, Ho. by case_decide.
    + rewrite Hh, Ho, H0. case_decide; [|done]. split_and!; [done|done|lia].
  - rewrite Hh. by case_decide.
  - intros n'. unfold view. cbn [file_map_ w']. rewrite map_find_set.
    destruct (decide (n' = n)) as [->|Hne]; [rewrite Hh; by case_decide|].
    destruct (map_find n' (file_map_ w)) as [[j|]|] eqn:En'; try done. rewrite Hh.
    case_decide as Hj; [|done]. subst j. exfalso.
    destruct (named_live w hs n' _ Hok En') as (j & st & [= <-] & Hst & _). apply heap_at_lt in Hst.
    unfold i in Hst. lia.
Qed.

Context (Huninit : blen uninit = kMemBlockSize).

Lemma run_put {B} i v (k : unit -> M B) w :
  (put_heap (Some i) v ≫= k) w = k tt (mkWorld (<[i := v]> (heap w)) (file_map_ w)).
Proof. done. Qed.

(** Opening for writing: an empty file, and an open file more. *)
Lemma NewWritableFile_spec w hs n :
  fs_ok w hs ->
  exists w' i, NewWritableFile n w = Some ((OK, Some i), w') /\ fs_ok w' (i :: hs) /\
    map_find n (file_map_ w') = Some (Some i) /\
    forall n', view w' n' = if decide (n' = n) then Some [] else view w n'.
Proof.
  intros Hok. unfold NewWritableFile. rewrite run_get.
  destruct (map_find n (file_map_ w)) as [v|] eqn:En.
  - destruct (named_live w hs n v Hok En) as (i & st & -> & Hi & _).
    destruct (store_spec w hs n i st (Truncate st) Hok En Hi) as (Hok1 & Hi1 & Hv1);
      [apply Truncate_ok|done|].
    set (w1 := mkWorld (<[i := Some (Truncate st)]> (heap w)) (file_map_ w)) in *.
    assert ((st ← deref (Some i); put_heap (Some i) (Some (Truncate st));; mret (Some i)) w
            = Some (Some i, w1)) as E1.
    { run (deref_at w i st Hi). by rewrite run_put. }
    run E1. destruct (Ref_spec w1 hs i (Truncate st) Hok1 Hi1) as (w2 & E2 & Hok2 & Hm2 & _ & Hv2).
    run E2. exists w2, i. split_and!; [done|done|by rewrite Hm2|]. intros n'. rewrite Hv2, Hv1.
    by destruct (decide (n' = n)).
  - set (i := length (heap w)). set (st1 := mkFileState 1 [] 0).
    destruct (create_spec w hs n st1 Hok En) as (Hok1 & Hi1 & Hv1); [by repeat split|done|].
    fold i in Hok1, Hi1, Hv1.
    set (w1 := mkWorld (heap w ++ [Some st1]) (map_set n (Some i) (file_map_ w))) in *.
    assert (Ref (Some i) (mkWorld (heap w ++ [Some FileState_new]) (file_map_ w)) =
            Some (tt, mkWorld (heap w ++ [Some st1]) (file_map_ w))) as Er.
    { unfold Ref. rewrite (run_bind _ _ _ FileState_new (mkWorld (heap w ++ [Some FileState_new]) (file_map_ w))).
      - cbn [put_heap heap file_map_]. do 3 f_equal. unfold i.
        by rewrite insert_app_r_alt, Nat.sub_diag by lia.
      - apply deref_at. unfold heap_at. cbn [heap]. by rewrite list_lookup_middle. }
    assert ((file ← new_FileState; Ref file;; w ← get_world;
             set_map (map_set n file (file_map_ w));; mret file) w = Some (Some i, w1)) as E1.
    { rewrite (run_bind new_FileState _ w (Some i)
        (mkWorld (heap w ++ [Some FileState_new]) (file_map_ w))) by done.
      run Er. by rewrite run_get, run_set. }
    run E1. destruct (Ref_spec w1 hs i _ Hok1 Hi1) as (w2 & E2 & Hok2 & Hm2 & _ & Hv2).
    run E2. exists w2, i. split_and!; [done|done| |].
    + rewrite Hm2. cbn [file_map_ w1]. rewrite map_find_set. by case_decide.
    + intros n'. rewrite Hv2, Hv1. by destruct (decide (n' = n)).
Qed.

Lemma Writable_Append_spec w hs n i c data :
  fs_ok w hs -> map_find n (file_map_ w) = Some (Some i) -> view w n = Some c ->
  blen c + blen data < 2 ^ 64 ->
  exists w', Writable_Append (Some i) data w = Some (OK, w') /\ fs_ok w' hs /\
    file_map_ w' = file_map_ w /\
    forall n', view w' n' = if decide (n' = n) then Some (c ++ data) else view w n'.
Proof.
  intros Hok En Hc Hsz. destruct (named_live w hs n _ Hok En) as (j & st & [= <-] & Hi & _).
  unfold view in Hc. rewrite En, Hi in Hc. injection Hc as <-.
  destruct (fs_live _ _ Hok i st Hi) as [Hf _]. rewrite blen_contents in Hsz by done.
  destruct (append_loop_spec uninit Huninit (length data) st data Hf ltac:(lia) Hsz) as (Hf' & Hc' & Hr').
  unfold Writable_Append. run (deref_at w i st Hi). unfold FileState_Append.
  set (st' := append_loop uninit (length data) st data) in *. rewrite run_put.
  destruct (store_spec w hs n i st st' Hok En Hi Hf' Hr') as (Hok' & _ & Hv').
  eexists. split_and!; [done|done|done|]. intros n'. rewrite Hv'. by rewrite Hc'.
Qed.

(** Removing a name: its object goes when no open file holds it. *)
Lemma RemoveFileInternal_spec w hs n :
  fs_ok w hs ->
  exists w', RemoveFileInternal n w = Some (tt, w') /\ fs_ok w' hs /\
    file_map_ w' = map_erase n (file_map_ w) /\
    forall n', view w' n' = if decide (n' = n) then None else view w n'.
Proof.
  intros Hok. unfold RemoveFileInternal. rewrite run_get.
  destruct (map_find n (file_map_ w)) as [v|] eqn:En.
  2: { exists w. split_and!; [done|done| |].
    - unfold map_erase. rewrite filter_id; [done|]. intros [k u] Hin. cbn [fst].
      destruct (slice_eq k n) eqn:E; [|done]. apply slice_eq_spec in E as ->.
      apply map_find_elem in Hin; [congruence|apply Hok].
    - intros n'. destruct (decide (n' = n)) as [->|]; [|done]. unfold view. by rewrite En. }
  destruct (named_live w hs n v Hok En) as (i & st & -> & Hi & _).
  pose proof (map_erase_perm n (Some i) _ (names_nodup _ (fs_map _ _ Hok)) En) as Hp.
  pose proof (proj1 (map_ok_cons _ _ _) (map_ok_perm _ _ Hp (fs_map _ _ Hok))) as (Hm' & _ & Hni).
  assert (map_index n w = Some (Some i, w)) as Ex by (unfold map_index; by rewrite En).
  run Ex. set (m' := map_erase n (file_map_ w)) in *. set (w0 := mkWorld (heap w) m').
  assert (forall j, owners w0 (i :: hs) j = owners w hs j) as Ho.
  { intros j. unfold owners. cbn [file_map_ w0]. rewrite !occ_app, (occ_perm j _ _ (owned_perm _ _ Hp)).
    change (owned ((n, Some i) :: m')) with (i :: owned m'). rewrite !occ_cons. lia. }
  assert (fs_ok w0 (i :: hs)) as Hok0.
  { split; [done| |].
    - intros j st' Hst'. rewrite Ho. by apply (fs_live _ _ Hok).
    - intros j. rewrite Ho. apply (fs_owned _ _ Hok). }
  destruct (Unref_spec w0 hs i Hok0) as (w1 & E1 & Hok1 & Hm1 & Hv1).
  assert (Unref (Some i) w = Some (tt, mkWorld (heap w1) (file_map_ w))) as Eu.
  { revert E1. unfold Unref. run (deref_at w i st Hi). run (deref_at w0 i st Hi).
    destruct (refs_ st - 1 <=? 0); cbn [put_heap]; by intros [= <-]. }
  run Eu. rewrite run_get. unfold set_map. cbn [file_map_ heap]. exists w1. split_and!; [|done|done|].
  - fold m'. rewrite <- (Hm1 : file_map_ w1 = m'). by destruct w1.
  - intros n'. rewrite Hv1. unfold view. cbn [file_map_ w0 heap_at heap]. unfold m'. rewrite map_find_erase.
    by destruct (decide (n' = n)).
Qed.

(** Renaming onto a different name moves the contents. *)
Lemma RenameFile_spec w hs src target c :
  fs_ok w hs -> src <> target -> view w src = Some c ->
  exists w', RenameFile src target w = Some (OK, w') /\ fs_ok w' hs /\
    forall n, view w' n = if decide (n = target) then Some c
                          else if decide (n = src) then None else view w n.
Proof.
  intros Hok Hne Hc. unfold RenameFile. rewrite run_get.
  destruct (map_find src (file_map_ w)) as [v|] eqn:En; [|unfold view in Hc; by rewrite En in Hc].
  destruct (RemoveFileInternal_spec w hs target Hok) as (w1 & E1 & Hok1 & Hm1 & Hv1). run E1.
  assert (map_find src (file_map_ w1) = Some v) as En1
    by (rewrite Hm1, map_find_erase; by case_decide).
  assert (map_find target (file_map_ w1) = None) as Et1
    by (rewrite Hm1, map_find_erase; by case_decide).
  destruct (named_live w1 hs src v Hok1 En1) as (i & st & -> & Hi & _).
  assert (map_index src w1 = Some (Some i, w1)) as Ex by (unfold map_index; by rewrite En1).
  run Ex. rewrite run_get, run_set, run_get, run_set. cbn [file_map_ heap].
  set (m' := map_erase src (map_set target (Some i) (file_map_ w1))).
  exists (mkWorld (heap w1) m').
  assert (map_set target (Some i) (file_map_ w1) ≡ₚ (src, Some i) :: (target, Some i) :: map_erase src (file_map_ w1)) as Hp1.
  { rewrite (map_set_perm target (Some i) _ Et1), Permutation_swap.
    by rewrite <- (map_erase_perm src (Some i) _ (names_nodup _ (fs_map _ _ Hok1)) En1). }
  assert (m' ≡ₚ (target, Some i) :: map_erase src (file_map_ w1)) as Hp.
  { unfold m', map_erase. rewrite Hp1. cbn [List.filter fst].
    assert (slice_eq src src = true) as -> by (by apply slice_eq_spec).
    assert (slice_eq target src = false) as ->.
    { destruct (slice_eq target src) eqn:E; [|done]. apply slice_eq_spec in E. congruence. }
    cbn [negb]. f_equiv. rewrite filter_id; [done|].
    intros kv Hkv. by apply elem_of_filter_bool in Hkv as [_ ?]. }
  pose proof (map_erase_perm src (Some i) _ (names_nodup _ (fs_map _ _ Hok1)) En1) as Hp0.
  assert (forall j, owners (mkWorld (heap w1) m') hs j = owners w1 hs j) as Ho.
  { intros j. unfold owners. cbn [file_map_]. rewrite !occ_app, (occ_perm j _ _ (owned_perm _ _ Hp)).
    by rewrite (occ_perm j _ _ (owned_perm _ _ Hp0)). }
  split_and!; [done| |].
  - split; cbn [file_map_].
    + apply (map_ok_perm ((target, Some i) :: map_erase src (file_map_ w1))); [done|].
      pose proof (proj1 (map_ok_cons _ _ _) (map_ok_perm _ _ Hp0 (fs_map _ _ Hok1))) as (Hm' & _ & Hni).
      apply map_ok_cons. split_and!; [done| |done]. rewrite map_find_erase. by destruct (decide _).
    + intros j st' Hst'. rewrite Ho. by apply (fs_live _ _ Hok1).
    + intros j. rewrite Ho. apply (fs_owned _ _ Hok1).
  - assert (view w1 src = Some c) as Hc1 by (rewrite Hv1; by case_decide).
    intros n. unfold view. change (heap_at (mkWorld (heap w1) m')) with (heap_at w1).
    cbn [file_map_]. unfold m'. rewrite map_find_erase, map_find_set.
    destruct (decide (n = target)) as [->|Hnt].
    + case_decide; [congruence|]. unfold view in Hc1. by rewrite En1 in Hc1.
    + destruct (decide (n = src)) as [->|Hns]; [done|]. specialize (Hv1 n). unfold view in Hv1.
      rewrite Hv1. by case_decide.
Qed.

(** *** Whole files *)

Lemma DoWriteStringToFile_spec w hs data fname sync :
  fs_ok w hs -> blen data < 2 ^ 64 ->
  exists w', DoWriteStringToFile data fname sync w = Some (OK, w') /\ fs_ok w' hs /\
    forall n, view w' n = if decide (n = fname) then Some data else view w n.
Proof.
  intros Hok Hsz. unfold DoWriteStringToFile.
  destruct (NewWritableFile_spec w hs fname Hok) as (w1 & i & E1 & Hok1 & Hf1 & Hv1). run E1.
  change (negb (ok OK)) with false. cbv beta iota.
  destruct (Writable_Append_spec w1 (i :: hs) fname i [] data Hok1 Hf1) as (w2 & E2 & Hok2 & Hm2 & Hv2);
    [rewrite Hv1; by case_decide|done|]. run E2.
  assert ((if ok OK && sync then Writable_Sync (Some i) else mret OK) w2 = Some (OK, w2)) as Es
    by (by destruct sync). run Es.
  assert ((if ok OK then Writable_Close (Some i) else mret OK) w2 = Some (OK, w2)) as Ec by done. run Ec.
  destruct (Unref_spec w2 hs i Hok2) as (w3 & E3 & Hok3 & Hm3 & Hv3). run E3.
  exists w3. split_and!; [done|done|]. intros n. rewrite Hv3, Hv2, Hv1. by case_decide.
Qed.

Lemma NewSequentialFile_spec w hs fname c :
  fs_ok w hs -> view w fname = Some c ->
  exists w' i st, NewSequentialFile fname w = Some ((OK, Some (mkSeq (Some i) 0)), w') /\
    fs_ok w' (i :: hs) /\ heap_at w' i = Some st /\ contents st = c /\
    forall n, view w' n = view w n.
Proof.
  intros Hok Hc. unfold NewSequentialFile. rewrite run_get.
  destruct (map_find fname (file_map_ w)) as [v|] eqn:En; [|unfold view in Hc; by rewrite En in Hc].
  destruct (named_live w hs fname v Hok En) as (i & st & -> & Hi & _).
  assert (map_index fname w = Some (Some i, w)) as Ex by (unfold map_index; by rewrite En). run Ex.
  destruct (Ref_spec w hs i st Hok Hi) as (w1 & E1 & Hok1 & _ & Hi1 & Hv1).
  assert (SequentialFileImpl_make (Some i) w = Some (mkSeq (Some i) 0, w1)) as E2.
  { unfold SequentialFileImpl_make. by run E1. }
  run E2. eexists w1, i, _. split_and!; [done|done|done| |done].
  unfold view in Hc. rewrite En, Hi in Hc. by injection Hc.
Qed.

(** Reading to the end from a position inside the file. *)
Lemma read_string_loop_spec fuel w i st pos data :
  heap_at w i = Some st -> file_ok st -> size_ st < 2 ^ 64 -> 0 <= pos <= size_ st ->
  (Z.to_nat (size_ st - pos) < fuel)%nat ->
  exists pos', read_string_loop fuel (mkSeq (Some i) pos) data w
             = Some ((OK, data ++ zdrop pos (contents st), mkSeq (Some i) pos'), w).
Proof.
  intros Hi Hf Hsz. revert pos data. induction fuel as [|fuel IH]; intros pos data Hp Hfu; [lia|].
  cbn [read_string_loop]. pose proof (blen_contents st Hf) as Hl.
  assert (Seq_Read (mkSeq (Some i) pos) kBufferSize w =
    Some ((OK, ztake kBufferSize (zdrop pos (contents st)),
           mkSeq (Some i) (u64 (pos + blen (ztake kBufferSize (zdrop pos (contents st)))))), w)) as Er.
  { unfold Seq_Read. cbn [seq_file_ pos_]. run (deref_at w i st Hi).
    rewrite FileState_Read_spec by (done || lia). destruct (Z.ltb_spec (size_ st) pos); [lia|done]. }
  run Er. change (negb (ok OK)) with false. cbv beta iota zeta.
  set (frag := ztake kBufferSize (zdrop pos (contents st))).
  assert (blen (zdrop pos (contents st)) = size_ st - pos) as Hd by (rewrite blen_zdrop; lia).
  destruct (Z.eqb_spec (blen frag) 0) as [E0|E0].
  - exists (u64 (pos + blen frag)). assert (frag = []) as Ef by (by apply blen_zero).
    assert (zdrop pos (contents st) = []) as ->; [|by rewrite Ef].
    apply blen_zero. destruct (Z.le_gt_cases kBufferSize (size_ st - pos)).
    + unfold frag in E0. rewrite blen_ztake in E0 by (unfold kBufferSize in *; lia). done.
    + unfold frag in E0. rewrite ztake_all in E0 by lia. done.
  - assert (blen frag <= size_ st - pos) as Hfl.
    { rewrite <- Hd. unfold frag, blen, ztake. rewrite length_take. lia. }
    pose proof (blen_nonneg frag).
    destruct (IH (u64 (pos + blen frag)) (data ++ frag)) as [pos' E]; [|rewrite u64_small; lia|].
    { rewrite u64_small; lia. }
    exists pos'. rewrite E. do 4 f_equal. rewrite <- app_assoc. f_equal.
    rewrite u64_small by lia. etrans; [|apply (ztake_zdrop kBufferSize)].
    fold frag. f_equal. rewrite zdrop_zdrop by (unfold kBufferSize; lia).
    destruct (Z.le_gt_cases kBufferSize (size_ st - pos)).
    + unfold frag. rewrite blen_ztake by (unfold kBufferSize in *; lia). done.
    + unfold frag. rewrite ztake_all by lia. rewrite Hd. rewrite !zdrop_all; [done| |];
        unfold kBufferSize in *; lia.
Qed.

Lemma ReadFileToString_spec w hs fname c :
  fs_ok w hs -> view w fname = Some c -> blen c < 2 ^ 64 ->
  exists w', ReadFileToString (1 + length c) fname w = Some ((OK, c), w') /\ fs_ok w' hs /\
    forall n, view w' n = view w n.
Proof.
  intros Hok Hc Hsz. unfold ReadFileToString.
  destruct (NewSequentialFile_spec w hs fname c Hok Hc) as (w1 & i & st & E1 & Hok1 & Hi & Hst & Hv1).
  run E1. cbv beta iota. destruct (fs_live _ _ Hok1 i st Hi) as [Hf _].
  pose proof (blen_contents st Hf) as Hl. rewrite Hst in Hl.
  destruct (read_string_loop_spec (1 + length c) w1 i st 0 [] Hi Hf) as [pos' E2];
    [lia|pose proof (blen_nonneg c); lia|unfold blen in Hl; lia|].
  run E2. cbv beta iota. cbn [seq_file_]. destruct (Unref_spec w1 hs i Hok1) as (w2 & E3 & Hok2 & _ & Hv2).
  run E3. exists w2. split_and!; [|done|].
  - cbn [app]. by rewrite zdrop_0, Hst.
  - intros n. by rewrite Hv2, Hv1.
Qed.

(** Writing a string to a file and reading it back returns the string, no
    other file changes, and all references are released: the invariant holds
    again with the same set of open files. *)
Theorem memfs_write_read w hs data fname sync :
  fs_ok w hs -> blen data < 2 ^ 64 ->
  exists w1 w2,
    DoWriteStringToFile data fname sync w = Some (OK, w1) /\
    ReadFileToString (1 + length data) fname w1 = Some ((OK, data), w2) /\
    fs_ok w2 hs /\ forall n, n <> fname -> view w2 n = view w n.
Proof.
  intros Hok Hsz. destruct (DoWriteStringToFile_spec w hs data fname sync Hok Hsz) as (w1 & E1 & Hok1 & Hv1).
  destruct (ReadFileToString_spec w1 hs fname data Hok1) as (w2 & E2 & Hok2 & Hv2);
    [rewrite Hv1; by case_decide|done|].
  exists w1, w2. split_and!; [done|done|done|]. intros n Hn. rewrite Hv2, Hv1. by case_decide.
Qed.

Lemma temp_not_current dbname n :
  0 <= n < 2 ^ 64 -> TempFileName dbname n <> CurrentFileName dbname.
Proof.
  intros Hn E. unfold TempFileName, MakeFileName, CurrentFileName in E. apply app_inv_head in E.
  change (str "/CURRENT") with (str "/" ++ str "CURRENT") in E. apply app_inv_head in E.
  destruct (decimal6_first n (str "." ++ str "dbtmp") Hn) as (c & s & E' & Hc). rewrite E' in E.
  injection E as -> _. done.
Qed.

(** [SetCurrentFile] makes CURRENT name the given manifest: afterwards its
    contents are the manifest's file name and a newline, the temporary file is
    gone and every other file is as before. *)
Theorem set_current_file w hs dbname n :
  fs_ok w hs -> 0 <= n < 2 ^ 64 ->
  exists w',
    SetCurrentFile dbname n w = Some (OK, w') /\ fs_ok w' hs /\
    view w' (CurrentFileName dbname) = Some (str "MANIFEST-" ++ decimal6 n ++ [z2b 10]) /\
    view w' (TempFileName dbname n) = None /\
    forall name, name <> CurrentFileName dbname -> name <> TempFileName dbname n ->
      view w' name = view w name.
Proof.
  intros Hok Hn. unfold SetCurrentFile. pose proof (temp_not_current dbname n Hn) as Hne.
  assert (zdrop (blen dbname + 1) (DescriptorFileName dbname n) = str "MANIFEST-" ++ decimal6 n) as ->.
  { unfold DescriptorFileName. change (str "/MANIFEST-") with (str "/" ++ str "MANIFEST-").
    rewrite <- app_assoc, app_assoc. apply zdrop_app. by rewrite blen_app. }
  set (c := (str "MANIFEST-" ++ decimal6 n) ++ [z2b 10]).
  assert (blen c < 2 ^ 64) as Hc.
  { unfold c, decimal6. rewrite !blen_app. pose proof (decimal_length n Hn).
    unfold blen at 2. rewrite length_replicate. change (blen (str "MANIFEST-")) with 9.
    change (blen [z2b 10]) with 1. lia. }
  destruct (DoWriteStringToFile_spec w hs c (TempFileName dbname n) true Hok Hc) as (w1 & E1 & Hok1 & Hv1).
  unfold WriteStringToFileSync. run E1. change (ok OK) with true. cbv beta iota.
  destruct (RenameFile_spec w1 hs (TempFileName dbname n) (CurrentFileName dbname) c Hok1 Hne)
    as (w2 & E2 & Hok2 & Hv2); [rewrite Hv1; by case_decide|].
  run E2. exists w2. split_and!; [done|done| | |].
  - rewrite Hv2. case_decide; [|done]. unfold c. by rewrite <- app_assoc.
  - rewrite Hv2. case_decide; [done|]. by case_decide.
  - intros name H1 H2. rewrite Hv2, Hv1. by repeat case_decide.
Qed.

(** Opening a missing file for appending succeeds but leaves a null entry in
    the file map: the name then exists, and asking for its size, or opening it
    for reading, dereferences the null pointer. *)
Theorem appendable_file_lost w fname :
  map_find fname (file_map_ w) = None ->
  exists w' p,
    NewAppendableFile fname w = Some ((OK, Some p), w') /\
    FileExists fname w' = Some (true, w') /\
    GetFileSize fname w' = None /\ NewSequentialFile fname w' = None.
Proof.
  intros Hf. unfold NewAppendableFile.
  assert (map_index fname w = Some (None, mkWorld (heap w) (map_set fname None (file_map_ w)))) as Ex
    by (unfold map_index; by rewrite Hf).
  run Ex. set (m := map_set fname None (file_map_ w)). set (i := length (heap w)).
  assert (map_find fname m = Some None) as Hm by (unfold m; rewrite map_find_set; by case_decide).
  assert (forall st, heap_at (mkWorld (heap w ++ [Some st]) m) i = Some st) as Hi.
  { intros st. unfold heap_at. cbn [heap]. by rewrite list_lookup_middle. }
  assert (forall st, Ref (Some i) (mkWorld (heap w ++ [Some st]) m) =
    Some (tt, mkWorld (heap w ++ [Some (mkFileState (refs_ st + 1) (blocks_ st) (size_ st))]) m)) as Hr.
  { intros st. unfold Ref. run (deref_at _ _ _ (Hi st)). cbn [put_heap heap file_map_]. do 3 f_equal.
    unfold i. by rewrite insert_app_r_alt, Nat.sub_diag by lia. }
  rewrite (run_bind _ _ _ (Some i) (mkWorld (heap w ++ [Some (mkFileState 1 [] 0)]) m)).
  2: { rewrite (run_bind new_FileState _ _ (Some i) (mkWorld (heap w ++ [Some FileState_new]) m)) by done.
       by run (Hr FileState_new). }
  run (Hr (mkFileState 1 [] 0)). eexists _, i. split_and!; [reflexivity| | |].
  - unfold FileExists. rewrite run_get. cbn [file_map_]. by rewrite Hm.
  - unfold GetFileSize. rewrite run_get. cbn [file_map_]. rewrite Hm.
    unfold map_index, mbind, M_bind. cbn [file_map_]. by rewrite Hm.
  - unfold NewSequentialFile. rewrite run_get. cbn [file_map_]. rewrite Hm.
    unfold map_index, mbind, M_bind. cbn [file_map_]. by rewrite Hm.
Qed.

End InMemoryEnv.

(** ** Witnesses: the empty environment *)

Definition empty_world : World := mkWorld [] [].
Definition zero_block : bytes := replicate (Z.to_nat kMemBlockSize) x00.

Lemma empty_world_ok : fs_ok empty_world [].
Proof.
  split.
  - split; [constructor|constructor|]. intros n v H. by apply elem_of_nil in H.
  - intros i st H. by destruct i.
  - intros i. replace (heap_at empty_world i) with (@None FileState) by (by destruct i).
    unfold owners. cbn. split; [by intros [? ?]|lia].
Qed.

Lemma memfs_write_read_witness :
  exists w1 w2,
    DoWriteStringToFile zero_block (str "data") (str "f") false empty_world = Some (OK, w1) /\
    ReadFileToString 5 (str "f") w1 = Some ((OK, str "data"), w2) /\
    fs_ok w2 [] /\ forall n, n <> str "f" -> view w2 n = view empty_world n.
Proof.
  apply (memfs_write_read zero_block (blen_replicate kMemBlockSize x00 ltac:(done)) empty_world []
           (str "data") (str "f") false empty_world_ok).
  by vm_compute.
Defined.

Lemma set_current_file_witness :
  exists w',
    SetCurrentFile zero_block (str "db") 5 empty_world = Some (OK, w') /\ fs_ok w' [] /\
    view w' (CurrentFileName (str "db")) = Some (str "MANIFEST-" ++ decimal6 5 ++ [z2b 10]) /\
    view w' (TempFileName (str "db") 5) = None /\
    forall name, name <> CurrentFileName (str "db") -> name <> TempFileName (str "db") 5 ->
      view w' name = view empty_world name.
Proof.
  apply (set_current_file zero_block (blen_replicate kMemBlockSize x00 ltac:(done)) empty_world []
           (str "db") 5 empty_world_ok).
  by vm_compute.
Defined.

Lemma appendable_file_lost_witness :
  exists w' p,
    NewAppendableFile (str "f") empty_world = Some ((OK, Some p), w') /\
    FileExists (str "f") w' = Some (true, w') /\
    GetFileSize (str "f") w' = None /\ NewSequentialFile (str "f") w' = None.
Proof. exact (appendable_file_lost empty_world (str "f") eq_refl). Defined.
