(* ===== verification/Posix.v ===== *)
(** * The POSIX environment

    [util/env_posix.cc] over the system calls it makes.  The operating system is a
    parameter, the class [Kernel]; what POSIX documents of its calls is stated where
    it is used, in [PosixSpec]. *)

From S2P Require Import Prelude Slice Status Env Logging.

(** ** System calls *)

(** A call returns a value or fails with [errno]. *)
Inductive sysres (A : Type) := Ret (a : A) | Err (errno : Z).
Arguments Ret {A} a.
Arguments Err {A} errno.

Definition ENOENT : Z := 2.
Definition EINTR : Z := 4.
Definition EINVAL : Z := 22.

(** The flags the environment opens files with. *)
Inductive OpenMode :=
  | RdOnly            (* O_RDONLY *)
  | TruncWrite        (* O_TRUNC | O_WRONLY | O_CREAT *)
  | AppendWrite       (* O_APPEND | O_WRONLY | O_CREAT *)
  | RdWrCreate.       (* O_RDWR | O_CREAT *)

Class Kernel (K : Type) := {
  k_open : bytes -> OpenMode -> K -> sysres Z * K;
  k_close : Z -> K -> sysres () * K;
  k_read : Z -> Z -> K -> sysres bytes * K;
  k_pread : Z -> Z -> Z -> K -> sysres bytes * K;
  k_lseek_cur : Z -> Z -> K -> sysres () * K;
  k_write : Z -> bytes -> K -> sysres Z * K;
  k_fdatasync : Z -> K -> sysres () * K;
  k_mmap : Z -> Z -> K -> sysres bytes * K;
  k_munmap : bytes -> K -> K;
  k_access : bytes -> K -> bool * K;
  k_opendir : bytes -> K -> sysres (list bytes) * K;
  k_unlink : bytes -> K -> sysres () * K;
  k_mkdir : bytes -> K -> sysres () * K;
  k_rmdir : bytes -> K -> sysres () * K;
  k_stat : bytes -> K -> sysres Z * K;
  k_rename : bytes -> bytes -> K -> sysres () * K;
  k_setlk : Z -> bool -> K -> sysres () * K;
  k_gettimeofday : K -> (Z * Z) * K;
  k_strerror : Z -> bytes
}.

Section Posix.

Context {K : Type} `{!Kernel K}.

Implicit Types k : K.

Definition PosixError (context : bytes) (error_number : Z) : Status :=
  if error_number =? ENOENT then NotFound context (k_strerror error_number) else IOError context (k_strerror error_number).

(** A call whose result does not matter but for success. *)
Definition posix_status (context : bytes) (r : sysres ()) : Status :=
  match r with Ret _ => OK | Err e => PosixError context e end.

(** ** [Limiter] *)

Record Limiter := mkLimiter { max_acquires_ : Z; acquires_allowed_ : Z }.

Definition Limiter_make (max_acquires : Z) : option Limiter :=
  if negb (0 <=? max_acquires) then None else Some (mkLimiter max_acquires max_acquires).

(** [fetch_add]: the old value, and the counter with its 32-bit wrap-around. *)
Definition fetch_add (l : Limiter) (d : Z) : Z * Limiter :=
  (acquires_allowed_ l, mkLimiter (max_acquires_ l) (i32 (acquires_allowed_ l + d))).

Definition Acquire (l : Limiter) : option (bool * Limiter) :=
  let '(old, l) := fetch_add l (-1) in
  if 0 <? old then Some (true, l)
  else
    let '(pre, l) := fetch_add l 1 in
    if negb (pre <? max_acquires_ l) then None else Some (false, l).

Definition Limiter_Release (l : Limiter) : option Limiter :=
  let '(old, l) := fetch_add l 1 in
  if negb (old <? max_acquires_ l) then None else Some l.

(** ** [PosixSequentialFile] *)

Record PosixSequentialFile := mkPS { ps_fd_ : Z; ps_filename_ : bytes }.

(** The loop retries interrupted calls; [fuel] bounds the interruptions.  [*result] is
    left as it was after an error. *)
Fixpoint ps_Read (fuel : nat) (f : PosixSequentialFile) (n : Z) k : option (Status * option bytes * K) :=
  match fuel with
  | O => None
  | S fuel =>
      match k_read (ps_fd_ f) n k with
      | (Err e, k) => if e =? EINTR then ps_Read fuel f n k else Some (PosixError (ps_filename_ f) e, None, k)
      | (Ret data, k) => Some (OK, Some data, k)
      end
  end.

Definition ps_Skip (f : PosixSequentialFile) (n : Z) k : Status * K :=
  let '(r, k) := k_lseek_cur (ps_fd_ f) n k in (posix_status (ps_filename_ f) r, k).

Definition ps_delete (f : PosixSequentialFile) k : K := snd (k_close (ps_fd_ f) k).

(** ** [PosixRandomAccessFile] *)

Record PosixRandomAccessFile := mkPR { has_permanent_fd_ : bool; pr_fd_ : Z; pr_filename_ : bytes }.

(** The constructor takes [fd] over if the limiter grants it, and closes it if not. *)
Definition PosixRandomAccessFile_make (filename : bytes) (fd : Z) (l : Limiter) k : option (PosixRandomAccessFile * Limiter * K) :=
  '(has, l) ← Acquire l;
  Some (if has : bool then (mkPR true fd filename, l, k) else (mkPR false (-1) filename, l, snd (k_close fd k))).

Definition pr_delete (f : PosixRandomAccessFile) (l : Limiter) k : option (Limiter * K) :=
  if has_permanent_fd_ f then
    if pr_fd_ f =? -1 then None
    else l ← Limiter_Release l; Some (l, snd (k_close (pr_fd_ f) k))
  else Some (l, k).

Definition pr_pread (f : PosixRandomAccessFile) (fd offset n : Z) k : Status * bytes * K :=
  match k_pread fd n offset k with
  | (Ret data, k) => (OK, data, k)
  | (Err e, k) => (PosixError (pr_filename_ f) e, [], k)
  end.

(** [None]: a failed assertion. *)
Definition pr_Read (f : PosixRandomAccessFile) (offset n : Z) k : option (Status * bytes * K) :=
  if has_permanent_fd_ f then
    if pr_fd_ f =? -1 then None else Some (pr_pread f (pr_fd_ f) offset n k)
  else
    match k_open (pr_filename_ f) RdOnly k with
    | (Err e, k) => Some (PosixError (pr_filename_ f) e, [], k)
    | (Ret fd, k) =>
        if (fd =? -1) || (fd =? pr_fd_ f) then None
        else let '(s, data, k) := pr_pread f fd offset n k in Some (s, data, snd (k_close fd k))
    end.

(** ** [PosixMmapReadableFile] *)

Record PosixMmapReadableFile := mkPM { mmap_base_ : bytes; mmap_length_ : Z; pm_filename_ : bytes }.

(** The sum in the check is one of 64-bit integers; a slice past the mapped region is
    undefined behaviour. *)
Definition pm_Read (f : PosixMmapReadableFile) (offset n : Z) : option (Status * bytes) :=
  if mmap_length_ f <? u64 (offset + n) then Some (PosixError (pm_filename_ f) EINVAL, [])
  else if offset + n <=? mmap_length_ f then Some (OK, ztake n (zdrop offset (mmap_base_ f)))
  else None.

Definition pm_delete (f : PosixMmapReadableFile) (l : Limiter) k : option (Limiter * K) :=
  l ← Limiter_Release l; Some (l, k_munmap (mmap_base_ f) k).

(** ** [PosixWritableFile] *)

Definition kWritableFileBufferSize : Z := 65536.

(** [buf_] holds the first [pos_] bytes of the array. *)
Record PosixWritableFile := mkPW {
  buf_ : bytes;
  fd_ : Z;
  is_manifest_ : bool;
  filename_ : bytes;
  pw_dirname_ : bytes
}.

Implicit Types f : PosixWritableFile.

Definition pos_ f : Z := blen (buf_ f).
Definition set_buf f (b : bytes) : PosixWritableFile := mkPW b (fd_ f) (is_manifest_ f) (filename_ f) (pw_dirname_ f).
Definition set_fd f (fd : Z) : PosixWritableFile := mkPW (buf_ f) fd (is_manifest_ f) (filename_ f) (pw_dirname_ f).

(** The path before and after its last separator. *)
Fixpoint rfind_separator (s : bytes) : option (bytes * bytes) :=
  match s with
  | [] => None
  | c :: s =>
      match rfind_separator s with
      | Some (dir, base) => Some (c :: dir, base)
      | None => if Byte.eqb c "/"%byte then Some ([], s) else None
      end
  end.

Definition Dirname (filename : bytes) : bytes :=
  match rfind_separator filename with None => str "." | Some (dir, _) => dir end.
Definition Basename (filename : bytes) : bytes :=
  match rfind_separator filename with None => filename | Some (_, base) => base end.
Definition IsManifest (filename : bytes) : bool := starts_with (Basename filename) (str "MANIFEST").

Definition PosixWritableFile_make (filename : bytes) (fd : Z) : PosixWritableFile :=
  mkPW [] fd (IsManifest filename) filename (Dirname filename).

(** A write may be short or interrupted; [fuel] bounds the calls. *)
Fixpoint WriteUnbuffered (fuel : nat) f (data : bytes) k : option (Status * K) :=
  match fuel with
  | O => None
  | S fuel =>
      if 0 <? blen data then
        match k_write (fd_ f) data k with
        | (Err e, k) => if e =? EINTR then WriteUnbuffered fuel f data k else Some (PosixError (filename_ f) e, k)
        | (Ret n, k) => WriteUnbuffered fuel f (zdrop n data) k
        end
      else Some (OK, k)
  end.

(** The buffer is emptied whether the write succeeded or not. *)
Definition FlushBuffer (fuel : nat) f k : option (Status * PosixWritableFile * K) :=
  '(s, k) ← WriteUnbuffered fuel f (buf_ f) k;
  Some (s, set_buf f [], k).

Definition pw_Append (fuel : nat) f (data : bytes) k : option (Status * PosixWritableFile * K) :=
  let copy_size := Z.min (blen data) (kWritableFileBufferSize - pos_ f) in
  let f := set_buf f (buf_ f ++ ztake copy_size data) in
  let data := zdrop copy_size data in
  if blen data =? 0 then Some (OK, f, k)
  else
    '(s, f, k) ← FlushBuffer fuel f k;
    if negb (ok s) then Some (s, f, k)
    else if blen data <? kWritableFileBufferSize then Some (OK, set_buf f data, k)
    else '(s, k) ← WriteUnbuffered fuel f data k; Some (s, f, k).

Definition SyncFd (fd : Z) (fd_path : bytes) k : Status * K :=
  let '(r, k) := k_fdatasync fd k in (posix_status fd_path r, k).

Definition SyncDirIfManifest f k : Status * K :=
  if negb (is_manifest_ f) then (OK, k)
  else
    match k_open (pw_dirname_ f) RdOnly k with
    | (Err e, k) => (PosixError (pw_dirname_ f) e, k)
    | (Ret fd, k) => let '(s, k) := SyncFd fd (pw_dirname_ f) k in (s, snd (k_close fd k))
    end.

Definition pw_Flush (fuel : nat) f k : option (Status * PosixWritableFile * K) := FlushBuffer fuel f k.

Definition pw_Sync (fuel : nat) f k : option (Status * PosixWritableFile * K) :=
  let '(s, k) := SyncDirIfManifest f k in
  if negb (ok s) then Some (s, f, k)
  else
    '(s, f, k) ← FlushBuffer fuel f k;
    if negb (ok s) then Some (s, f, k)
    else let '(s, k) := SyncFd (fd_ f) (filename_ f) k in Some (s, f, k).

Definition pw_Close (fuel : nat) f k : option (Status * PosixWritableFile * K) :=
  '(s, f, k) ← FlushBuffer fuel f k;
  let '(r, k) := k_close (fd_ f) k in
  Some (if ok s then posix_status (filename_ f) r else s, set_fd f (-1), k).

Definition pw_delete (fuel : nat) f k : option K :=
  if 0 <=? fd_ f then '(_, _, k) ← pw_Close fuel f k; Some k else Some k.

(** ** [PosixEnv] *)

(** [PosixFileLock] *)
Record PosixFileLock := mkLock { lock_fd : Z; lock_filename : bytes }.

(** A work item is its function applied to its argument; items are told apart by a
    number. *)
Record PosixEnv := mkPosixEnv {
  started_background_thread_ : bool;
  background_work_queue_ : list nat;
  locked_files_ : gset bytes;
  mmap_limiter_ : Limiter;
  fd_limiter_ : Limiter
}.

Implicit Types e : PosixEnv.

Definition set_locks e x : PosixEnv := mkPosixEnv (started_background_thread_ e) (background_work_queue_ e) x (mmap_limiter_ e) (fd_limiter_ e).
Definition set_mmap_limiter e x : PosixEnv := mkPosixEnv (started_background_thread_ e) (background_work_queue_ e) (locked_files_ e) x (fd_limiter_ e).
Definition set_fd_limiter e x : PosixEnv := mkPosixEnv (started_background_thread_ e) (background_work_queue_ e) (locked_files_ e) (mmap_limiter_ e) x.
Definition set_queue e started x : PosixEnv := mkPosixEnv started x (locked_files_ e) (mmap_limiter_ e) (fd_limiter_ e).

(** [getrlimit]: nothing if it fails, or the soft limit, nothing if it is infinite. *)
Definition MaxOpenFiles (read_only_limit : Z) (rlimit : option (option Z)) : Z :=
  if 0 <=? read_only_limit then read_only_limit
  else
    match rlimit with
    | None => 50
    | Some None => 2 ^ 31 - 1
    | Some (Some rlim_cur) => i32 (rlim_cur / 5)
    end.

Definition PosixEnv_make (mmap_limit read_only_limit : Z) (rlimit : option (option Z)) : option PosixEnv :=
  m ← Limiter_make mmap_limit;
  l ← Limiter_make (MaxOpenFiles read_only_limit rlimit);
  Some (mkPosixEnv false [] ∅ m l).

Definition posix_NewSequentialFile (filename : bytes) k : Status * option PosixSequentialFile * K :=
  match k_open filename RdOnly k with
  | (Err err, k) => (PosixError filename err, None, k)
  | (Ret fd, k) => (OK, Some (mkPS fd filename), k)
  end.

Definition posix_GetFileSize (filename : bytes) k : Status * Z * K :=
  match k_stat filename k with
  | (Err err, k) => (PosixError filename err, 0, k)
  | (Ret size, k) => (OK, size, k)
  end.

(** Mapping the file once the limiter has granted it. *)
Definition mmap_file (filename : bytes) (fd : Z) k : Status * option PosixMmapReadableFile * K :=
  let '(s, file_size, k) := posix_GetFileSize filename k in
  if ok s then
    match k_mmap fd file_size k with
    | (Ret base, k) => (s, Some (mkPM base file_size filename), k)
    | (Err err, k) => (PosixError filename err, None, k)
    end
  else (s, None, k).

Definition posix_NewRandomAccessFile (filename : bytes) e k
  : option (Status * option (PosixRandomAccessFile + PosixMmapReadableFile) * PosixEnv * K) :=
  match k_open filename RdOnly k with
  | (Err err, k) => Some (PosixError filename err, None, e, k)
  | (Ret fd, k) =>
      '(granted, l) ← Acquire (mmap_limiter_ e);
      let e := set_mmap_limiter e l in
      if negb granted then
        '(f, l, k) ← PosixRandomAccessFile_make filename fd (fd_limiter_ e) k;
        Some (OK, Some (inl f), set_fd_limiter e l, k)
      else
        let '(s, f, k) := mmap_file filename fd k in
        let k := snd (k_close fd k) in
        if negb (ok s) then
          l ← Limiter_Release (mmap_limiter_ e); Some (s, None, set_mmap_limiter e l, k)
        else Some (s, option_map inr f, e, k)
  end.

Definition posix_NewWritable (mode : OpenMode) (filename : bytes) k : Status * option PosixWritableFile * K :=
  match k_open filename mode k with
  | (Err err, k) => (PosixError filename err, None, k)
  | (Ret fd, k) => (OK, Some (PosixWritableFile_make filename fd), k)
  end.

Definition posix_NewWritableFile : bytes -> K -> Status * option PosixWritableFile * K := posix_NewWritable TruncWrite.
Definition posix_NewAppendableFile : bytes -> K -> Status * option PosixWritableFile * K := posix_NewWritable AppendWrite.

Definition posix_FileExists (filename : bytes) k : bool * K := k_access filename k.

Definition posix_GetChildren (directory_path : bytes) k : Status * list bytes * K :=
  match k_opendir directory_path k with
  | (Err err, k) => (PosixError directory_path err, [], k)
  | (Ret names, k) => (OK, names, k)
  end.

Definition posix_RemoveFile (filename : bytes) k : Status * K := let '(r, k) := k_unlink filename k in (posix_status filename r, k).
Definition posix_CreateDir (dirname : bytes) k : Status * K := let '(r, k) := k_mkdir dirname k in (posix_status dirname r, k).
Definition posix_RemoveDir (dirname : bytes) k : Status * K := let '(r, k) := k_rmdir dirname k in (posix_status dirname r, k).
Definition posix_RenameFile (from to : bytes) k : Status * K := let '(r, k) := k_rename from to k in (posix_status from r, k).

(** [PosixLockTable::Insert] and [Remove] *)
Definition locks_Insert (s : gset bytes) (fname : bytes) : bool * gset bytes := (negb (bool_decide (fname ∈ s)), {[fname]} ∪ s).
Definition locks_Remove (s : gset bytes) (fname : bytes) : gset bytes := s ∖ {[fname]}.

Definition posix_LockFile (filename : bytes) e k : Status * option PosixFileLock * PosixEnv * K :=
  match k_open filename RdWrCreate k with
  | (Err err, k) => (PosixError filename err, None, e, k)
  | (Ret fd, k) =>
      let '(inserted, locks) := locks_Insert (locked_files_ e) filename in
      let e := set_locks e locks in
      if negb inserted then (IOError (str "lock " ++ filename) (str "already held by process"), None, e, snd (k_close fd k))
      else
        match k_setlk fd true k with
        | (Err lock_errno, k) =>
            (PosixError (str "lock " ++ filename) lock_errno, None, set_locks e (locks_Remove (locked_files_ e) filename), snd (k_close fd k))
        | (Ret _, k) => (OK, Some (mkLock fd filename), e, k)
        end
  end.

Definition posix_UnlockFile (lock : PosixFileLock) e k : Status * PosixEnv * K :=
  match k_setlk (lock_fd lock) false k with
  | (Err err, k) => (PosixError (str "unlock " ++ lock_filename lock) err, e, k)
  | (Ret _, k) => (OK, set_locks e (locks_Remove (locked_files_ e) (lock_filename lock)), snd (k_close (lock_fd lock) k))
  end.

Definition posix_NowMicros k : Z * K :=
  let '(tv_sec, tv_usec, k) := k_gettimeofday k in (u64 (u64 (tv_sec * 1000000) + tv_usec), k).

End Posix.

(** ** Background work

    [Schedule] and [BackgroundThreadMain] as steps of the threads, each step under the
    mutex.  The background thread is not started, waits on the condition variable, has
    been signalled, is about to look at the queue, or runs an item. *)

Inductive Worker := NotStarted | Waiting | Awake | Running (item : nat).

Record Background := mkBackground { bg_env : PosixEnv; worker : Worker; finished : list nat }.

(** [Schedule]: the thread is started if it was not, and signalled if the queue is
    empty. *)
Definition Schedule (item : nat) (b : Background) : Background :=
  let e := bg_env b in
  let w := if started_background_thread_ e then worker b else Awake in
  let w := match background_work_queue_ e, w with [], Waiting => Awake | _, _ => w end in
  mkBackground (set_queue e true (background_work_queue_ e ++ [item])) w (finished b).

(** One step of [BackgroundThreadMain]. *)
Definition background_step (b : Background) : option Background :=
  let e := bg_env b in
  match worker b with
  | NotStarted | Waiting => None
  | Awake =>
      match background_work_queue_ e with
      | [] => Some (mkBackground e Waiting (finished b))
      | item :: queue => Some (mkBackground (set_queue e (started_background_thread_ e) queue) (Running item) (finished b))
      end
  | Running item => Some (mkBackground e Awake (finished b ++ [item]))
  end.
