(* ===== verification/PosixSpec.v ===== *)
(** * What the POSIX environment guarantees

    Buffered writes reach the descriptor in order and nothing is reported written that
    was not; the limiter never hands out more than its limit; scheduled work is done
    once, in order, and never forgotten; what the lock table and a mapped file do. *)

From S2P Require Import Prelude Slice Status Env Logging Posix.

(** ** Writable files *)

(** What POSIX says of the calls a writable file makes.  [written k fd] is what has
    been written through a descriptor; [stall k] bounds how often calls will still be
    interrupted or write nothing. *)
Class KernelWrites (K : Type) `{!Kernel K} (written : K -> Z -> bytes) (is_open : K -> Z -> Prop) (stall : K -> nat) : Prop := {
  kw_write fd data k n k' :
    is_open k fd -> k_write fd data k = (Ret n, k') ->
    0 <= n <= blen data /\ written k' fd = written k fd ++ ztake n data /\ is_open k' fd /\
    (stall k' <= stall k)%nat /\ (n = 0 -> data <> [] -> (stall k' < stall k)%nat);
  kw_error fd data k e k' :
    is_open k fd -> k_write fd data k = (Err e, k') ->
    written k' fd = written k fd /\ is_open k' fd /\ (stall k' <= stall k)%nat /\ (e = EINTR -> (stall k' < stall k)%nat);
  kw_sync fd fd' k r k' :
    is_open k fd -> k_fdatasync fd' k = (r, k') -> written k' fd = written k fd /\ is_open k' fd /\ (stall k' <= stall k)%nat;
  kw_open fd path k r k' :
    is_open k fd -> k_open path RdOnly k = (r, k') ->
    written k' fd = written k fd /\ is_open k' fd /\ (stall k' <= stall k)%nat /\ r <> Ret fd;
  kw_close fd fd' k r k' :
    is_open k fd -> k_close fd' k = (r, k') -> written k' fd = written k fd /\ (stall k' <= stall k)%nat /\ (fd <> fd' -> is_open k' fd)
}.

Section Writable.

Context {K : Type} `{!Kernel K} (written : K -> Z -> bytes) (is_open : K -> Z -> Prop) (stall : K -> nat).
Context `{!KernelWrites K written is_open stall}.

Implicit Types (k : K) (f : PosixWritableFile).

Lemma PosixError_not_ok context e : ok (PosixError context e) = false.
Proof. unfold PosixError. by destruct (e =? ENOENT). Qed.

(** What a call may leave of the kernel: [data] or a part of it was written. *)
Definition wrote (fd : Z) k k' (data : bytes) : Prop := written k' fd = written k fd ++ data /\ is_open k' fd /\ (stall k' <= stall k)%nat.

Lemma wrote_nil fd k : is_open k fd -> wrote fd k k [].
Proof. split; [by rewrite app_nil_r|done]. Qed.

Lemma wrote_app fd k1 k2 k3 d1 d2 : wrote fd k1 k2 d1 -> wrote fd k2 k3 d2 -> wrote fd k1 k3 (d1 ++ d2).
Proof. intros (E1 & _ & S1) (E2 & O2 & S2). split; [by rewrite E2, E1, app_assoc|]. split; [done|lia]. Qed.

(** The write loop ends within the bytes and the interruptions there are, and a success
    means that everything was written. *)
Lemma WriteUnbuffered_ok fuel : forall f data k,
  is_open k (fd_ f) -> (length data + stall k < fuel)%nat ->
  exists s k' m, WriteUnbuffered fuel f data k = Some (s, k') /\ wrote (fd_ f) k k' (ztake m data) /\ 0 <= m <= blen data /\
    (ok s = true -> m = blen data).
Proof.
  induction fuel as [|fuel IH]; intros f data k Ho Hf; [lia|]. cbn [WriteUnbuffered]. destruct (Z.ltb_spec 0 (blen data)) as [Hlen|Hlen].
  - assert (Hne : data <> []) by (intros ->; done). destruct (k_write (fd_ f) data k) as [[n|e] k1] eqn:E.
    + destruct (kw_write (fd_ f) data k n k1 Ho E) as (Hn & Hw & Ho1 & Hs & Hz).
      destruct (IH f (zdrop n data) k1 Ho1) as (s & k2 & m & -> & Hw2 & Hm & Hok).
      { unfold zdrop. rewrite length_drop. unfold blen in *. destruct (decide (n = 0)) as [->|]; [specialize (Hz eq_refl Hne); lia|lia]. }
      rewrite blen_zdrop in * by lia. exists s, k2, (n + m). split; [done|]. split; [|split; [lia|intros H; specialize (Hok H); lia]].
      replace (ztake (n + m) data) with (ztake n data ++ ztake m (zdrop n data)); [by apply (wrote_app _ _ k1)|].
      rewrite <- (ztake_zdrop n data) at 3. rewrite ztake_app_ge by (rewrite blen_ztake; lia). by rewrite blen_ztake, Z.add_simpl_l by lia.
    + destruct (kw_error (fd_ f) data k e k1 Ho E) as (Hw & Ho1 & Hs & Hi). destruct (Z.eqb_spec e EINTR) as [->|].
      * destruct (IH f data k1 Ho1) as (s & k2 & m & -> & (Hw2 & Ho2 & Hs2) & Hm); [specialize (Hi eq_refl); lia|].
        exists s, k2, m. split; [done|]. split; [|done]. split; [by rewrite Hw2, Hw|]. split; [done|lia].
      * exists (PosixError (filename_ f) e), k1, 0. split; [done|]. split; [split; [by rewrite app_nil_r|done]|]. split; [lia|].
        by rewrite PosixError_not_ok.
  - assert (Hz : blen data = 0) by (pose proof (blen_nonneg data); lia). apply blen_zero in Hz as ->. exists OK, k, 0. split; [done|].
    split; [by apply wrote_nil|]. done.
Qed.

(** The state of a file and its kernel between calls. *)
Definition file_ok f k : Prop := is_open k (fd_ f) /\ blen (buf_ f) <= kWritableFileBufferSize.

(** A call that takes [data]: if it succeeds the data follow what was written and
    buffered, if it fails some part of them may be missing at the end. *)
Definition took f k (s : Status) f' k' (data : bytes) : Prop :=
  file_ok f' k' /\ fd_ f' = fd_ f /\ (stall k' <= stall k)%nat /\
  (exists m, 0 <= m <= blen (buf_ f ++ data) /\ written k' (fd_ f) = written k (fd_ f) ++ ztake m (buf_ f ++ data)) /\
  (ok s = true -> written k' (fd_ f) ++ buf_ f' = written k (fd_ f) ++ buf_ f ++ data).

Definition enough (fuel : nat) k (data : bytes) : Prop := kWritableFileBufferSize + blen data + Z.of_nat (stall k) < Z.of_nat fuel.

Lemma FlushBuffer_ok fuel f k :
  file_ok f k -> enough fuel k [] -> exists s f' k', FlushBuffer fuel f k = Some (s, f', k') /\ took f k s f' k' [] /\ buf_ f' = [].
Proof.
  intros [Ho Hb] Hf. destruct (WriteUnbuffered_ok fuel f (buf_ f) k Ho) as (s & k' & m & E & (Hw & Ho' & Hs) & Hm & Hok).
  { unfold enough in Hf. rewrite blen_nil in Hf. unfold blen in *. lia. }
  unfold FlushBuffer. rewrite E. cbn [mbind option_bind]. exists s, (set_buf f []), k'. split; [done|]. split; [|done]. unfold took. cbn [fd_ buf_ set_buf].
  rewrite app_nil_r. split; [split; [done|done]|]. split; [done|]. split; [done|]. split; [by exists m|].
  intros H. specialize (Hok H). rewrite Hw, Hok, ztake_all by lia. by rewrite !app_nil_r.
Qed.

Lemma took_buffered f k b data : file_ok f k -> blen (buf_ f ++ data) <= kWritableFileBufferSize -> b = buf_ f ++ data -> took f k OK (set_buf f b) k data.
Proof.
  intros [Ho Hb] Hd ->. split; [split; cbn; [done|lia]|]. split; [done|]. split; [done|]. split; [|done].
  exists 0. split; [pose proof (blen_nonneg (buf_ f ++ data)); lia|]. by rewrite ztake_0, app_nil_r.
Qed.

Lemma pw_Append_ok fuel f data k :
  file_ok f k -> enough fuel k data -> exists s f' k', pw_Append fuel f data k = Some (s, f', k') /\ took f k s f' k' data.
Proof.
  intros Hok Hf. pose proof Hok as [Ho Hb]. unfold pw_Append, pos_. set (n := Z.min (blen data) (kWritableFileBufferSize - blen (buf_ f))).
  pose proof (blen_nonneg data) as H0. assert (Hn : 0 <= n <= blen data) by lia.
  set (f1 := set_buf f (buf_ f ++ ztake n data)). assert (Hd : blen (zdrop n data) = blen data - n) by (by rewrite blen_zdrop).
  assert (Hb1 : blen (buf_ f ++ ztake n data) <= kWritableFileBufferSize) by (rewrite blen_app, blen_ztake; lia).
  destruct (Z.eqb_spec (blen (zdrop n data)) 0) as [Ez|Ez].
  { exists OK, f1, k. split; [done|]. apply took_buffered; [done| |].
    - rewrite (ztake_all n) in Hb1 by lia. done.
    - by rewrite (ztake_all n) by lia. }
  destruct (FlushBuffer_ok fuel f1 k) as (s & f2 & k2 & E & (Hok2 & Efd & Hs2 & (m & Hm & Hw) & Hall) & Eb); [by split|unfold enough in *; rewrite blen_nil; lia|].
  rewrite E. cbn [mbind option_bind]. rewrite app_nil_r in Hm, Hw. cbn [fd_ buf_ set_buf f1] in *.
  assert (Hsplit : buf_ f ++ data = (buf_ f ++ ztake n data) ++ zdrop n data) by (by rewrite <- app_assoc, ztake_zdrop).
  assert (Hpart : forall m', 0 <= m' <= blen (buf_ f ++ ztake n data) -> ztake m' (buf_ f ++ ztake n data) = ztake m' (buf_ f ++ data)).
  { intros m' Hm'. rewrite Hsplit. by rewrite (ztake_app_le m' (buf_ f ++ ztake n data) (zdrop n data)) by lia. }
  assert (Hblen : blen (buf_ f ++ ztake n data) <= blen (buf_ f ++ data)) by (rewrite !blen_app, blen_ztake; lia).
  destruct (ok s) eqn:Es; cbn [negb].
  2:{ exists s, f2, k2. split; [done|]. split; [done|]. split; [done|]. split; [done|]. split; [|congruence].
      exists m. split; [lia|]. by rewrite Hw, Hpart. }
  specialize (Hall eq_refl). rewrite Eb, !app_nil_r in Hall. destruct (Z.ltb_spec (blen (zdrop n data)) kWritableFileBufferSize) as [Hl|Hl].
  - exists OK, (set_buf f2 (zdrop n data)), k2. split; [done|]. split; [split; [by apply Hok2|cbn; lia]|]. split; [done|]. split; [done|]. split.
    + exists m. split; [lia|]. by rewrite Hw, Hpart.
    + intros _. cbn [buf_ set_buf]. rewrite Hall, <- !app_assoc. by rewrite ztake_zdrop.
  - destruct (WriteUnbuffered_ok fuel f2 (zdrop n data) k2) as (s3 & k3 & m3 & -> & (Hw3 & Ho3 & Hs3) & Hm3 & Hok3).
    { apply Hok2. } { unfold enough, blen in *. unfold zdrop. rewrite length_drop. unfold kWritableFileBufferSize in *. lia. }
    cbn [mbind option_bind]. exists s3, f2, k3. split; [done|]. split; [split; [done|apply Hok2]|]. split; [done|]. split; [lia|].
    rewrite Efd in Hw3. split.
    + exists (blen (buf_ f ++ ztake n data) + m3). split; [rewrite !blen_app in *; rewrite blen_ztake in * by lia; lia|].
      rewrite Hw3, Hall, <- (app_assoc (written k (fd_ f))), Hsplit. f_equal. rewrite ztake_app_ge by lia. by rewrite Z.add_simpl_l.
    + intros H. specialize (Hok3 H). rewrite Hw3, Hall, Hok3, Eb, app_nil_r, (ztake_all (blen (zdrop n data))), <- !app_assoc by lia.
      by rewrite ztake_zdrop.
Qed.

Lemma SyncFd_wrote fd fd' path k : is_open k fd -> wrote fd k (snd (SyncFd fd' path k)) [].
Proof.
  intros Ho. unfold SyncFd. destruct (k_fdatasync fd' k) as [r k'] eqn:E. destruct (kw_sync fd fd' k r k' Ho E) as (H1 & H2 & H3).
  split; [by rewrite app_nil_r|done].
Qed.

Lemma SyncDir_wrote f fd k : is_open k fd -> wrote fd k (snd (SyncDirIfManifest f k)) [].
Proof.
  intros Ho. unfold SyncDirIfManifest. destruct (is_manifest_ f); [|by apply wrote_nil]. cbn [negb].
  destruct (k_open (pw_dirname_ f) RdOnly k) as [[d|e] k1] eqn:E; destruct (kw_open fd _ k _ k1 Ho E) as (H1 & H2 & H3 & H4).
  - assert (W1 : wrote fd k k1 []) by (split; [by rewrite app_nil_r|done]). pose proof (SyncFd_wrote fd d (pw_dirname_ f) k1 H2) as W2.
    destruct (SyncFd d (pw_dirname_ f) k1) as [s k2]. cbn [snd] in *. destruct (k_close d k2) as [r k3] eqn:Ec.
    destruct (kw_close fd d k2 r k3 (proj1 (proj2 W2)) Ec) as (H5 & H6 & H7). cbn [snd].
    assert (W3 : wrote fd k2 k3 []) by (split; [by rewrite app_nil_r|split; [apply H7; congruence|done]]).
    exact (wrote_app _ _ _ _ [] [] W1 (wrote_app _ _ _ _ [] [] W2 W3)).
  - by split; [rewrite app_nil_r|].
Qed.

Lemma pw_Sync_ok fuel f k :
  file_ok f k -> enough fuel k [] -> exists s f' k', pw_Sync fuel f k = Some (s, f', k') /\ took f k s f' k' [] /\ (ok s = true -> buf_ f' = []).
Proof.
  intros [Ho Hb] Hf. unfold pw_Sync. pose proof (SyncDir_wrote f (fd_ f) k Ho) as (W1 & W2 & W3). destruct (SyncDirIfManifest f k) as [s1 k1]. cbn [snd] in *.
  rewrite app_nil_r in W1. destruct (ok s1) eqn:E1; cbn [negb].
  2:{ exists s1, f, k1. split; [done|]. split; [|congruence]. split; [done|]. split; [done|]. split; [done|]. split; [|congruence].
      exists 0. rewrite app_nil_r, ztake_0, app_nil_r. split; [pose proof (blen_nonneg (buf_ f)); lia|done]. }
  destruct (FlushBuffer_ok fuel f k1) as (s & f2 & k2 & -> & (Hok2 & Efd & Hs2 & (m & Hm & Hw) & Hall) & Eb); [done|unfold enough in *; lia|].
  cbn [mbind option_bind]. rewrite W1 in *. destruct (ok s) eqn:Es; cbn [negb].
  - pose proof (SyncFd_wrote (fd_ f2) (fd_ f2) (filename_ f2) k2 (proj1 Hok2)) as (V1 & V2 & V3). destruct (SyncFd _ _ k2) as [s3 k3]. cbn [snd] in *.
    rewrite app_nil_r, Efd in V1. exists s3, f2, k3. split; [done|]. split; [|done]. split; [split; [done|apply Hok2]|]. split; [done|]. split; [lia|].
    rewrite V1. split; [by exists m|]. intros _. by apply Hall.
  - exists s, f2, k2. split; [done|]. split; [|done]. split; [done|]. split; [done|]. split; [lia|]. split; [by exists m|congruence].
Qed.

(** ** Any sequence of calls *)

Inductive FileOp := OpAppend (data : bytes) | OpFlush | OpSync.

Definition op_data (o : FileOp) : bytes := match o with OpAppend d => d | _ => [] end.

Definition run_op (fuel : nat) (o : FileOp) f k : option (Status * PosixWritableFile * K) :=
  match o with OpAppend d => pw_Append fuel f d k | OpFlush => pw_Flush fuel f k | OpSync => pw_Sync fuel f k end.

(** The calls up to the first that fails. *)
Fixpoint run_ops (fuel : nat) (ops : list FileOp) f k : option (Status * PosixWritableFile * K) :=
  match ops with
  | [] => Some (OK, f, k)
  | o :: ops => '(s, f, k) ← run_op fuel o f k; if ok s then run_ops fuel ops f k else Some (s, f, k)
  end.

Definition all_data (ops : list FileOp) : bytes := concat (map op_data ops).

Lemma run_op_ok fuel o f k :
  file_ok f k -> enough fuel k (op_data o) -> exists s f' k', run_op fuel o f k = Some (s, f', k') /\ took f k s f' k' (op_data o) /\
    (ok s = true -> op_data o = [] -> o = OpAppend [] \/ buf_ f' = []).
Proof.
  intros Hok Hf. destruct o as [d| |]; cbn [run_op op_data] in *.
  - destruct (pw_Append_ok fuel f d k Hok Hf) as (s & f' & k' & E & Ht). exists s, f', k'. split; [done|]. split; [done|]. intros _ ->. by left.
  - destruct (FlushBuffer_ok fuel f k Hok Hf) as (s & f' & k' & E & Ht & Eb). exists s, f', k'. split; [done|]. split; [done|]. by right.
  - destruct (pw_Sync_ok fuel f k Hok Hf) as (s & f' & k' & E & Ht & Eb). exists s, f', k'. split; [done|]. split; [done|]. intros H _. right. by apply Eb.
Qed.

Lemma took_trans f k s1 f1 k1 s f2 k2 d1 d2 :
  took f k s1 f1 k1 d1 -> ok s1 = true -> took f1 k1 s f2 k2 d2 -> took f k s f2 k2 (d1 ++ d2).
Proof.
  intros (_ & Efd & Hs1 & (m1 & Hm1 & Hw1) & Hall1) Es1 (Hok2 & Efd2 & Hs2 & (m & Hm & Hw) & Hall2). specialize (Hall1 Es1). rewrite Efd in *.
  assert (Hp : ztake m1 (buf_ f ++ d1) ++ buf_ f1 = buf_ f ++ d1) by (rewrite Hw1, <- app_assoc in Hall1; by apply app_inv_head in Hall1).
  assert (Hall : buf_ f ++ d1 ++ d2 = ztake m1 (buf_ f ++ d1) ++ buf_ f1 ++ d2) by (by rewrite app_assoc, <- Hp at 1; rewrite <- app_assoc).
  split; [done|]. split; [done|]. split; [lia|]. rewrite Hall. split.
  - exists (m1 + m). pose proof (blen_ztake m1 (buf_ f ++ d1) Hm1) as El. split; [rewrite blen_app, El; lia|].
    rewrite Hw, Hw1, <- app_assoc, (ztake_app_ge (m1 + m) (ztake m1 (buf_ f ++ d1))) by lia. by rewrite El, Z.add_simpl_l.
  - intros Es. rewrite (Hall2 Es), Hw1. by rewrite <- app_assoc.
Qed.

Lemma run_ops_ok fuel ops : forall f k,
  file_ok f k -> enough fuel k (all_data ops) -> exists s f' k', run_ops fuel ops f k = Some (s, f', k') /\
    exists done_, (exists rest, all_data ops = done_ ++ rest) /\ took f k s f' k' done_ /\ (ok s = true -> done_ = all_data ops) /\
      (ok s = true -> last ops = Some OpFlush \/ last ops = Some OpSync -> buf_ f' = []).
Proof.
  induction ops as [|o ops IH]; intros f k Hok Hf; cbn [run_ops].
  - exists OK, f, k. split; [done|]. exists []. split; [by exists []|]. split; [|split; [done|by intros _ [H|H]]].
    split; [done|]. split; [done|]. split; [done|]. split; [|by rewrite app_nil_r]. exists 0. split; [pose proof (blen_nonneg (buf_ f ++ [])); lia|]. by rewrite ztake_0, app_nil_r.
  - change (all_data (o :: ops)) with (op_data o ++ all_data ops) in *. unfold enough in Hf. rewrite blen_app in Hf.
    pose proof (blen_nonneg (op_data o)) as H1. pose proof (blen_nonneg (all_data ops)) as H2.
    destruct (run_op_ok fuel o f k Hok) as (s1 & f1 & k1 & -> & Ht & He); [unfold enough; lia|]. cbn [mbind option_bind].
    destruct (ok s1) eqn:Es1.
    2:{ exists s1, f1, k1. split; [done|]. exists (op_data o). split; [by exists (all_data ops)|]. split; [done|]. split; congruence. }
    pose proof Ht as (Hok1 & _ & Hs1 & _). destruct (IH f1 k1 Hok1) as (s & f' & k' & E & dn & (rest & Hr) & Ht2 & Ha & Hl); [unfold enough; lia|].
    exists s, f', k'. split; [done|]. exists (op_data o ++ dn). split; [exists rest; by rewrite Hr, app_assoc|]. split; [by eapply took_trans|].
    split; [intros Es; by rewrite Ha|]. intros Es Hlast. destruct ops as [|o' ops]; [|by apply Hl]. cbn [run_ops] in E. injection E as _ <- _.
    cbn in Hlast. destruct Hlast as [[= ->]|[= ->]]; by destruct (He eq_refl eq_refl).
Qed.

Lemma pw_Close_ok fuel f k :
  file_ok f k -> enough fuel k [] -> exists s f' k', pw_Close fuel f k = Some (s, f', k') /\ fd_ f' = -1 /\
    (ok s = true -> written k' (fd_ f) = written k (fd_ f) ++ buf_ f).
Proof.
  intros Hok Hf. unfold pw_Close. destruct (FlushBuffer_ok fuel f k Hok Hf) as (s & f1 & k1 & -> & (Hok1 & Efd & _ & _ & Hall) & Eb).
  cbn [mbind option_bind]. destruct (k_close (fd_ f1) k1) as [r k2] eqn:Ec. destruct (kw_close (fd_ f) (fd_ f1) k1 r k2) as (Hw & _ & _); [|done|].
  { rewrite <- Efd. apply Hok1. }
  eexists _, _, _. split; [done|]. split; [done|]. destruct (ok s) eqn:Es; [|congruence]. intros _. specialize (Hall eq_refl).
  rewrite Eb, !app_nil_r in Hall. by rewrite Hw.
Qed.


End Writable.

(** ** A small kernel

    Descriptors with their paths and what was written through them, the record locks of
    the process, and a number of interruptions to come.  A write takes at most three
    bytes; closing any descriptor of a file drops the locks on it, as POSIX has it. *)

Record ToyKernel := mkToy {
  toy_fds : gmap Z bytes;
  toy_written : gmap Z bytes;
  toy_locks : gset bytes;
  toy_next : Z;
  toy_interrupts : nat
}.

Definition toy_write (fd : Z) (data : bytes) (k : ToyKernel) : sysres Z * ToyKernel :=
  match toy_interrupts k with
  | S n => (Err EINTR, mkToy (toy_fds k) (toy_written k) (toy_locks k) (toy_next k) n)
  | O =>
      let n := Z.min 3 (blen data) in
      (Ret n, mkToy (toy_fds k) (<[fd := default [] (toy_written k !! fd) ++ ztake n data]> (toy_written k)) (toy_locks k) (toy_next k) 0)
  end.

Definition toy_open (path : bytes) (mode : OpenMode) (k : ToyKernel) : sysres Z * ToyKernel :=
  (Ret (toy_next k), mkToy (<[toy_next k := path]> (toy_fds k)) (toy_written k) (toy_locks k) (toy_next k + 1) (toy_interrupts k)).

Definition toy_close (fd : Z) (k : ToyKernel) : sysres () * ToyKernel :=
  match toy_fds k !! fd with
  | Some path => (Ret tt, mkToy (delete fd (toy_fds k)) (toy_written k) (toy_locks k ∖ {[path]}) (toy_next k) (toy_interrupts k))
  | None => (Err 9, k)
  end.

Definition toy_setlk (fd : Z) (lock : bool) (k : ToyKernel) : sysres () * ToyKernel :=
  match toy_fds k !! fd with
  | Some path =>
      (Ret tt, mkToy (toy_fds k) (toy_written k) (if lock then {[path]} ∪ toy_locks k else toy_locks k ∖ {[path]}) (toy_next k) (toy_interrupts k))
  | None => (Err 9, k)
  end.

#[local] Instance toy_kernel : Kernel ToyKernel := {
  k_open := toy_open;
  k_close := toy_close;
  k_read _ _ k := (Ret [], k);
  k_pread _ _ _ k := (Ret [], k);
  k_lseek_cur _ _ k := (Ret tt, k);
  k_write := toy_write;
  k_fdatasync _ k := (Ret tt, k);
  k_mmap _ _ k := (Ret [], k);
  k_munmap _ k := k;
  k_access _ k := (true, k);
  k_opendir _ k := (Ret [], k);
  k_unlink _ k := (Ret tt, k);
  k_mkdir _ k := (Ret tt, k);
  k_rmdir _ k := (Ret tt, k);
  k_stat _ k := (Ret 0, k);
  k_rename _ _ k := (Ret tt, k);
  k_setlk := toy_setlk;
  k_gettimeofday k := ((0, 0), k);
  k_strerror e := str "error"
}.

Definition toy_wrote (k : ToyKernel) (fd : Z) : bytes := default [] (toy_written k !! fd).
Definition toy_is_open (k : ToyKernel) (fd : Z) : Prop := is_Some (toy_fds k !! fd) /\ fd < toy_next k.

#[local] Instance toy_writes : KernelWrites ToyKernel toy_wrote toy_is_open toy_interrupts.
Proof.
  split.
  - intros fd data k n k' Ho. cbn. unfold toy_write. destruct (toy_interrupts k) as [|i] eqn:Ei; [|done]. intros [= <- <-].
    pose proof (blen_nonneg data) as H0. split; [lia|]. unfold toy_wrote. cbn. rewrite lookup_insert_eq. split; [done|]. split; [done|]. split; [lia|].
    intros Hz Hd. exfalso. apply Hd, blen_zero. lia.
  - intros fd data k e k' Ho. cbn. unfold toy_write. destruct (toy_interrupts k) as [|i] eqn:Ei; [done|]. intros [= <- <-].
    split; [done|]. split; [done|]. cbn. split; [lia|]. intros _. lia.
  - intros fd fd' k r k' Ho [= _ <-]. by split.
  - intros fd path k r k' [Ho Hn] [= <- <-]. split; [done|]. split; [split; cbn|split; [done|intros [= E]; lia]].
    + rewrite lookup_insert_ne by lia. done.
    + lia.
  - intros fd fd' k r k' [Ho Hn]. cbn. unfold toy_close. destruct (toy_fds k !! fd') eqn:E; intros [= <- <-]; [|done]. split; [done|]. split; [done|].
    intros Hne. split; cbn; [|done]. by rewrite lookup_delete_ne by congruence.
Qed.

Definition toy0 : ToyKernel := mkToy {[3 := str "db/MANIFEST-000002"]} ∅ ∅ 4 2.
Definition toy_ops : list FileOp := [OpAppend (str "hello "); OpFlush; OpAppend (str "world"); OpSync].


(** ** The lock table *)

(** What POSIX says of record locks: closing any descriptor of a file drops the locks
    the process has on it. *)
Class KernelLocks (K : Type) `{!Kernel K} (path_at : K -> Z -> option bytes) (locked : K -> bytes -> Prop) : Prop := {
  kl_open path mode k fd k' : k_open path mode k = (Ret fd, k') -> path_at k' fd = Some path /\ (forall p, locked k' p <-> locked k p);
  kl_lock fd path k r k' : path_at k fd = Some path -> k_setlk fd true k = (Ret r, k') -> locked k' path;
  kl_close fd path k r k' : path_at k fd = Some path -> k_close fd k = (r, k') -> ~ locked k' path
}.

Section Locks.

Context {K : Type} `{!Kernel K} (path_at : K -> Z -> option bytes) (locked : K -> bytes -> Prop) `{!KernelLocks K path_at locked}.

(** [LockFile] on a file that is not in the table, when it succeeds, has the lock. *)
Lemma LockFile_locks filename e k s l e' k' :
  posix_LockFile filename e k = (s, Some l, e', k') -> ok s = true /\ locked k' filename /\ filename ∉ locked_files_ e /\ filename ∈ locked_files_ e'.
Proof.
  unfold posix_LockFile. destruct (k_open filename RdWrCreate k) as [[fd|err] k1] eqn:Eo; [|done]. cbn [locks_Insert].
  destruct (bool_decide_reflect (filename ∈ locked_files_ e)) as [|Hni]; cbn [negb]; [done|].
  destruct (k_setlk fd true k1) as [[r|err] k2] eqn:El; [|done]. intros [= <- <- <- <-]. destruct (kl_open _ _ _ _ _ Eo) as [Hp _].
  split; [done|]. split; [by apply (kl_lock _ _ _ _ _ Hp El)|]. split; [done|]. cbn. set_solver.
Qed.

(** A second [LockFile] in the same process is refused, as it should be, and yet the lock
    of the first is gone: the descriptor opened to try is closed. *)
Lemma second_lock_drops_first filename e k s l e' k' :
  filename ∈ locked_files_ e -> posix_LockFile filename e k = (s, l, e', k') -> (exists fd k1, k_open filename RdWrCreate k = (Ret fd, k1)) ->
  ok s = false /\ l = None /\ filename ∈ locked_files_ e' /\ ~ locked k' filename.
Proof.
  intros Hin E (fd & k1 & Eo). unfold posix_LockFile in E. rewrite Eo in E. cbn [locks_Insert] in E. rewrite bool_decide_eq_true_2 in E by done.
  cbn [negb] in E. injection E as <- <- <- <-. split; [done|]. split; [done|]. split; [cbn; set_solver|].
  destruct (kl_open _ _ _ _ _ Eo) as [Hp _]. destruct (k_close fd k1) as [r k2] eqn:Ec. cbn [snd]. by apply (kl_close _ _ _ _ _ Hp Ec).
Qed.

End Locks.

#[local] Instance toy_kernel_locks : KernelLocks ToyKernel (fun k fd => toy_fds k !! fd) (fun k p => p ∈ toy_locks k).
Proof.
  split.
  - intros path mode k fd k' [= <- <-]. cbn. by rewrite lookup_insert_eq.
  - intros fd path k r k' Hp. cbn. unfold toy_setlk. rewrite Hp. intros [= _ <-]. cbn. set_solver.
  - intros fd path k r k' Hp. cbn. unfold toy_close. rewrite Hp. intros [= _ <-]. cbn. set_solver.
Qed.

Definition toy_env : PosixEnv := mkPosixEnv false [] ∅ (mkLimiter 0 0) (mkLimiter 0 0).

(** The second attempt leaves the file open to other processes. *)
Example lock_twice :
  let '(s1, _, e1, k1) := posix_LockFile (str "db/LOCK") toy_env toy0 in
  let '(s2, _, _, k2) := posix_LockFile (str "db/LOCK") e1 k1 in
  (ok s1, bool_decide (str "db/LOCK" ∈ toy_locks k1), ok s2, bool_decide (str "db/LOCK" ∈ toy_locks k2)) = (true, true, false, false).
Proof. vm_compute. reflexivity. Qed.

(** ** Reading mapped files *)

Lemma pm_Read_ok `{!Kernel K} f offset n :
  0 <= offset -> 0 <= n -> offset + n < 2 ^ 64 ->
  pm_Read f offset n = Some (if mmap_length_ f <? offset + n then (PosixError (pm_filename_ f) EINVAL, []) else (OK, ztake n (zdrop offset (mmap_base_ f)))).
Proof.
  intros H1 H2 H3. unfold pm_Read. rewrite u64_small by lia. destruct (Z.ltb_spec (mmap_length_ f) (offset + n)); [done|].
  by destruct (Z.leb_spec (offset + n) (mmap_length_ f)); [|lia].
Qed.

(** An offset so large that the sum wraps passes the check and the slice lies outside the
    mapped region. *)
Lemma pm_Read_wraps `{!Kernel K} f offset n :
  0 <= mmap_length_ f < 2 ^ 64 -> 0 <= offset < 2 ^ 64 -> 0 <= n < 2 ^ 64 -> 2 ^ 64 <= offset + n -> offset + n - 2 ^ 64 <= mmap_length_ f ->
  pm_Read f offset n = None.
Proof.
  intros Hl Ho Hn H1 H2. unfold pm_Read. assert (u64 (offset + n) = offset + n - 2 ^ 64) as ->.
  { unfold u64. rewrite <- (Z_mod_plus_full (offset + n) (-1) (2 ^ 64)). rewrite Z.mod_small; lia. }
  destruct (Z.ltb_spec (mmap_length_ f) (offset + n - 2 ^ 64)); [lia|]. by destruct (Z.leb_spec (offset + n) (mmap_length_ f)); [lia|].
Qed.

(** ** The limiter under concurrency

    The two atomic operations of a refused [Acquire] are separate steps of a thread: [L]
    is the limiter, [h] the resources handed out, [p] the threads between the two. *)
Inductive limiter_step (threads : Z) : Limiter * Z * Z -> Limiter * Z * Z -> Prop :=
  | L_grant l h p : 0 < fst (fetch_add l (-1)) -> limiter_step threads (l, h, p) (snd (fetch_add l (-1)), h + 1, p)
  | L_refuse l h p : fst (fetch_add l (-1)) <= 0 -> p < threads -> limiter_step threads (l, h, p) (snd (fetch_add l (-1)), h, p + 1)
  | L_undo l h p : 0 < p -> limiter_step threads (l, h, p) (snd (fetch_add l 1), h, p - 1)
  | L_release l h p : 0 < h -> limiter_step threads (l, h, p) (snd (fetch_add l 1), h - 1, p).

Definition limiter_ok (threads max : Z) (st : Limiter * Z * Z) : Prop :=
  let '(l, h, p) := st in
  max_acquires_ l = max /\ acquires_allowed_ l = max - h - p /\ 0 <= h <= max /\ 0 <= p <= Z.max 0 threads.

Lemma limiter_step_ok threads max st st' :
  0 <= max < 2 ^ 31 -> threads < 2 ^ 31 -> limiter_step threads st st' -> limiter_ok threads max st -> limiter_ok threads max st'.
Proof.
  intros Hm Ht Hs. destruct Hs as [l h p Hg|l h p Hg Hp|l h p Hp|l h p Hh]; cbn [limiter_ok fst snd fetch_add max_acquires_ acquires_allowed_] in *;
    intros (H1 & H2 & H3 & H4); rewrite i32_small by lia; lia.
Qed.

(** However the threads interleave, at most the allowed number of resources is out, and
    the assertions of a thread that gives one back, or takes its refused attempt back,
    hold. *)
Lemma limiter_safe threads max l0 l h p :
  0 <= max < 2 ^ 31 -> threads < 2 ^ 31 -> Limiter_make max = Some l0 -> rtc (limiter_step threads) (l0, 0, 0) (l, h, p) ->
  0 <= h <= max /\ (0 < h \/ 0 < p -> fst (fetch_add l 1) < max_acquires_ l).
Proof.
  intros Hm Ht E Hr. unfold Limiter_make in E. destruct (negb (0 <=? max)); [done|]. injection E as <-.
  assert (Hi : limiter_ok threads max (l, h, p)).
  { assert (H0 : limiter_ok threads max (mkLimiter max max, 0, 0)) by (cbn; lia). revert Hr H0. generalize (mkLimiter max max, 0, 0) as st0. intros st0 Hr.
    induction Hr as [|st st' st'' Hs _ IH]; intros H0; [done|]. by apply IH, (limiter_step_ok threads max st). }
  destruct Hi as (H1 & H2 & H3 & H4). split; [done|]. cbn. lia.
Qed.

(** ** Background work *)

Definition running (w : Worker) : list nat := match w with Running item => [item] | _ => [] end.

(** Scheduling by any thread, interleaved with the steps of the background thread, which
    may also wake up without being signalled. *)
Inductive bg_step : Background -> list nat -> Background -> Prop :=
  | B_schedule b item : bg_step b [item] (Schedule item b)
  | B_thread b b' : background_step b = Some b' -> bg_step b [] b'
  | B_spurious b : worker b = Waiting -> bg_step b [] (mkBackground (bg_env b) Awake (finished b)).

Inductive bg_run (b : Background) : list nat -> Background -> Prop :=
  | BR_nil : bg_run b [] b
  | BR_step items b1 items1 b2 : bg_run b items b1 -> bg_step b1 items1 b2 -> bg_run b (items ++ items1) b2.

Definition bg_new (e : PosixEnv) : Background := mkBackground (set_queue e false []) NotStarted [].

Fixpoint bg_steps (n : nat) (b : Background) : option Background :=
  match n with O => Some b | S n => b ← background_step b; bg_steps n b end.

Record bg_ok (b : Background) (items : list nat) : Prop := {
  bg_all : finished b ++ running (worker b) ++ background_work_queue_ (bg_env b) = items;
  bg_started : started_background_thread_ (bg_env b) = match worker b with NotStarted => false | _ => true end;
  bg_awake : background_work_queue_ (bg_env b) <> [] -> worker b <> NotStarted /\ worker b <> Waiting
}.

Lemma bg_ok_step b items items1 b' : bg_ok b items -> bg_step b items1 b' -> bg_ok b' (items ++ items1).
Proof.
  intros [H1 H2 H3] Hs. destruct Hs as [b item|b b' Hs|b Hw].
  - unfold Schedule. rewrite H2. destruct (background_work_queue_ (bg_env b)) as [|x q] eqn:Eq, (worker b) eqn:Ew; split; cbn; rewrite ?Eq, ?Ew in *;
      cbn in *; rewrite <- ?H1, <- ?app_assoc; try done; by destruct (H3 ltac:(done)).
  - rewrite app_nil_r. unfold background_step in Hs. destruct (worker b) eqn:Ew; [done|done| |].
    + destruct (background_work_queue_ (bg_env b)) as [|x q] eqn:Eq; injection Hs as <-; split; cbn; rewrite ?Eq in *; cbn in *; done.
    + injection Hs as <-. split; cbn in *; try done. rewrite <- H1, <- !app_assoc. done.
  - rewrite app_nil_r, Hw in *. split; cbn in *; done.
Qed.

Lemma bg_run_ok e items b : bg_run (bg_new e) items b -> bg_ok b items.
Proof. induction 1 as [|items b1 items1 b2 _ IH Hs]; [by split|]. by eapply bg_ok_step. Qed.

(** The thread on its own finishes everything that is queued. *)
Lemma bg_drain q : forall b items, background_work_queue_ (bg_env b) = q -> bg_ok b items ->
  exists n b', (n <= 2 * length q + 1)%nat /\ bg_steps n b = Some b' /\ finished b' = items.
Proof.
  induction q as [|x q IH]; intros b items Eq Hok; pose proof Hok as [H1 H2 H3].
  - rewrite Eq in *. destruct (worker b) eqn:Ew; cbn [running app] in H1; rewrite ?app_nil_r in H1;
      [by exists 0%nat, b; repeat split; [lia|]..|].
    exists 1%nat. cbn [bg_steps]. unfold background_step. rewrite Ew. cbn [mbind option_bind]. eexists. split; [cbn; lia|]. split; [done|]. done.
  - destruct (H3 ltac:(by rewrite Eq)) as [N1 N2]. assert (Ha : forall b1, worker b1 = Awake -> background_work_queue_ (bg_env b1) = x :: q -> bg_ok b1 items ->
      exists n b', (n <= 2 * length q + 2)%nat /\ bg_steps n b1 = Some b' /\ finished b' = items).
    { intros b1 Ew1 Eq1 Hok1. destruct (IH (mkBackground (set_queue (bg_env b1) (started_background_thread_ (bg_env b1)) q) (Running x) (finished b1)) items eq_refl)
        as (n & b' & Hn & E & Hf).
      - rewrite <- (app_nil_r items). apply (bg_ok_step b1); [done|]. apply B_thread. unfold background_step. by rewrite Ew1, Eq1.
      - exists (S n), b'. split; [lia|]. split; [|done]. cbn [bg_steps]. unfold background_step. by rewrite Ew1, Eq1. }
    destruct (worker b) eqn:Ew; [done|done| |].
    + destruct (Ha b Ew Eq Hok) as (n & b' & Hn & ?). exists n, b'. cbn [length]. split; [lia|done].
    + assert (Hs : background_step b = Some (mkBackground (bg_env b) Awake (finished b ++ [item]))) by (unfold background_step; by rewrite Ew).
      destruct (Ha (mkBackground (bg_env b) Awake (finished b ++ [item])) eq_refl Eq) as (n & b' & Hn & E & Hf).
      { rewrite <- (app_nil_r items). apply (bg_ok_step b); [done|by apply B_thread]. }
      exists (S n), b'. split; [cbn [length]; lia|]. split; [|done]. cbn [bg_steps]. by rewrite Hs.
Qed.

(** C15: scheduled work is done, once and in order.  Whatever the interleaving of
    [Schedule] calls with the background thread and its spurious wakeups, the items
    finished, the one running and the queue are together the items scheduled, in order;
    a thread that waits while there is work in the queue does not exist (no wakeup is
    lost); and left alone the thread finishes everything within two steps per item. *)
Theorem background_work e items b :
  bg_run (bg_new e) items b ->
  finished b ++ running (worker b) ++ background_work_queue_ (bg_env b) = items /\
  (background_work_queue_ (bg_env b) <> [] -> exists b', background_step b = Some b') /\
  exists n b', (n <= 2 * length (background_work_queue_ (bg_env b)) + 1)%nat /\ bg_steps n b = Some b' /\ finished b' = items.
Proof.
  intros Hr. pose proof (bg_run_ok e items b Hr) as Hok. pose proof Hok as [H1 H2 H3]. split; [done|]. split; [|by apply bg_drain].
  intros Hq. destruct (H3 Hq) as [N1 N2]. unfold background_step. destruct (worker b); try done; [|by eexists].
  by destruct (background_work_queue_ (bg_env b)); eexists.
Qed.

Lemma background_work_witness :
  exists b n b', bg_run (bg_new toy_env) [1; 2; 3]%nat b /\ bg_steps n b = Some b' /\ finished b' = [1; 2; 3]%nat.
Proof.
  set (b1 := Schedule 2 (Schedule 1 (bg_new toy_env))). set (b2 := mkBackground (set_queue (bg_env b1) true [2%nat]) (Running 1) []).
  assert (Hr : bg_run (bg_new toy_env) [1; 2; 3]%nat (Schedule 3 b2)).
  { apply (BR_step _ [1; 2]%nat b2 [3]%nat); [|constructor]. apply (BR_step _ [1; 2]%nat b1 []); [|by constructor].
    apply (BR_step _ [1]%nat (Schedule 1 (bg_new toy_env)) [2]%nat); [|constructor]. apply (BR_step _ [] (bg_new toy_env) [1]%nat); constructor. }
  destruct (background_work toy_env [1; 2; 3]%nat (Schedule 3 b2) Hr) as (_ & _ & n & b' & _ & E & Hf).
  exists (Schedule 3 b2), n, b'. exact (conj Hr (conj E Hf)).
Defined.
