(* ===== verification/Format.v ===== *)
(** * Block handles, footers and stored blocks

    [table/format.h] and [table/format.cc]: the encodings of [BlockHandle] and
    [Footer], and [ReadBlock], which fetches a block with its one-byte type and
    four-byte checksum.  The compression libraries are parameters. *)

From S2P Require Import Prelude Coding Crc32c Status Env.

(** [enum CompressionType] of [include/leveldb/options.h]. *)
Definition kNoCompression : Z := 0.
Definition kSnappyCompression : Z := 1.
Definition kZstdCompression : Z := 2.

Definition kTableMagicNumber : Z := 0xdb4775248b80fb57.
Definition kBlockTrailerSize : Z := 5.

(** ** Block handles *)

Record BlockHandle := mkHandle { handle_offset : Z; handle_size : Z }.

(** The constructor: both fields [~static_cast<uint64_t>(0)]. *)
Definition BlockHandle_new : BlockHandle := mkHandle (2 ^ 64 - 1) (2 ^ 64 - 1).

Definition set_offset (h : BlockHandle) (offset : Z) : BlockHandle :=
  mkHandle offset (handle_size h).
Definition set_size (h : BlockHandle) (size : Z) : BlockHandle :=
  mkHandle (handle_offset h) size.

Definition kMaxEncodedLength : Z := 10 + 10.

(** [BlockHandle::EncodeTo]; [None] is a failed sanity check. *)
Definition BlockHandle_EncodeTo (h : BlockHandle) (dst : bytes) : option bytes :=
  if negb (handle_offset h =? 2 ^ 64 - 1) && negb (handle_size h =? 2 ^ 64 - 1)
  then Some (PutVarint64 (PutVarint64 dst (handle_offset h)) (handle_size h))
  else None.

(** [BlockHandle::DecodeFrom]: the status, the handle and the rest of the
    input; a failed decode leaves what it did not reach. *)
Definition BlockHandle_DecodeFrom (h : BlockHandle) (input : bytes)
  : Status * BlockHandle * bytes :=
  match GetVarint64 input with
  | Some (o, input1) =>
      match GetVarint64 input1 with
      | Some (s, input2) => (OK, mkHandle o s, input2)
      | None => (Corruption (str "bad block handle") [], set_offset h o, input1)
      end
  | None => (Corruption (str "bad block handle") [], h, input)
  end.

(** ** Footers *)

Record Footer := mkFooter {
  metaindex_handle_ : BlockHandle;
  index_handle_ : BlockHandle
}.

Definition Footer_new : Footer := mkFooter BlockHandle_new BlockHandle_new.

Definition set_metaindex_handle (f : Footer) (h : BlockHandle) : Footer :=
  mkFooter h (index_handle_ f).
Definition set_index_handle (f : Footer) (h : BlockHandle) : Footer :=
  mkFooter (metaindex_handle_ f) h.

Definition kEncodedLength : Z := 2 * kMaxEncodedLength + 8.

(** [std::string::resize]: cut, or pad with zero bytes. *)
Definition resize (s : bytes) (n : Z) : bytes :=
  if n <=? blen s then ztake n s else s ++ replicate (Z.to_nat (n - blen s)) x00.

(** [Footer::EncodeTo]; [None] is a failed assertion. *)
Definition Footer_EncodeTo (f : Footer) (dst : bytes) : option bytes :=
  let original_size := blen dst in
  dst ← BlockHandle_EncodeTo (metaindex_handle_ f) dst;
  dst ← BlockHandle_EncodeTo (index_handle_ f) dst;
  let dst := resize dst (2 * kMaxEncodedLength) in
  let dst := PutFixed32 dst (Z.land kTableMagicNumber 0xffffffff) in
  let dst := PutFixed32 dst (Z.shiftr kTableMagicNumber 32) in
  if blen dst =? original_size + kEncodedLength then Some dst else None.

(** [Footer::DecodeFrom]. *)
Definition Footer_DecodeFrom (f : Footer) (input : bytes) : Status * Footer * bytes :=
  if blen input <? kEncodedLength
  then (Corruption (str "not an sstable (footer too short)") [], f, input)
  else
    let magic_ptr := zdrop (kEncodedLength - 8) input in
    let magic_lo := DecodeFixed32 magic_ptr in
    let magic_hi := DecodeFixed32 (zdrop 4 magic_ptr) in
    let magic := Z.lor (Z.shiftl magic_hi 32) magic_lo in
    if negb (magic =? kTableMagicNumber)
    then (Corruption (str "not an sstable (bad magic number)") [], f, input)
    else
      let '(result, h, rest) := BlockHandle_DecodeFrom (metaindex_handle_ f) input in
      let f := set_metaindex_handle f h in
      if ok result then
        let '(result, h, rest) := BlockHandle_DecodeFrom (index_handle_ f) rest in
        let f := set_index_handle f h in
        if ok result then (result, f, zdrop kEncodedLength input)
        else (result, f, rest)
      else (result, f, rest).

(** ** Reading a block *)

(** The functions of [port/port_stdcxx.h] over one compression library:
    [Compress] (with the level, which only zstd uses), [GetUncompressedLength]
    and [Uncompress], [None] when the library is not configured or rejects its
    input. *)
Record Codec := mkCodec {
  Codec_Compress : Z -> bytes -> option bytes;
  Codec_GetUncompressedLength : bytes -> option Z;
  Codec_Uncompress : bytes -> option bytes
}.

(** A build without the library: every function returns [false]. *)
Definition no_codec : Codec :=
  mkCodec (fun _ _ => None) (fun _ => None) (fun _ => None).

(** What the table code relies on: a block that compressed uncompresses to
    itself. *)
Class CodecLaws (c : Codec) : Prop := {
  codec_roundtrip level raw z :
    Codec_Compress c level raw = Some z ->
    Codec_GetUncompressedLength c z = Some (blen raw) /\ Codec_Uncompress c z = Some raw
}.

#[export] Instance no_codec_laws : CodecLaws no_codec.
Proof. by split. Qed.

Record BlockContents := mkContents {
  contents_data : bytes;
  cachable : bool;
  heap_allocated : bool
}.

(** One of the two decompression cases of [ReadBlock]: [ulength] bytes are
    allocated and filled by the library. *)
Definition ReadCompressed (c : Codec) (name : bytes) (data : bytes)
    (result : BlockContents) : Status * BlockContents :=
  match Codec_GetUncompressedLength c data with
  | None =>
      (Corruption (str "corrupted " ++ name ++ str " compressed block length") [], result)
  | Some ulength =>
      match Codec_Uncompress c data with
      | None =>
          (Corruption (str "corrupted " ++ name ++ str " compressed block contents") [], result)
      | Some ubuf => (OK, mkContents (ztake ulength ubuf) true true)
      end
  end.

(** [ReadBlock].  [addr] is the address the read buffer has, which the checksum
    loop aligns on. *)
Definition ReadBlock `{RandomAccessFile F} (snappy zstd : Codec) (addr : Z) (file : F)
    (verify_checksums : bool) (handle : BlockHandle) : Status * BlockContents :=
  let result := mkContents [] false false in
  let n := handle_size handle in
  let '(s, contents, in_buf) := ReadAt file (handle_offset handle) (u64 (n + kBlockTrailerSize)) in
  if negb (ok s) then (s, result)
  else if negb (blen contents =? u64 (n + kBlockTrailerSize))
  then (Corruption (str "truncated block read") [], result)
  else
    let data := contents in
    let crc := Unmask (DecodeFixed32 (zdrop (n + 1) data)) in
    let actual := Value addr (ztake (n + 1) data) in
    if verify_checksums && negb (actual =? crc)
    then (Corruption (str "block checksum mismatch") [], result)
    else
      let type := schar (byte_at data n) in
      if type =? kNoCompression then
        if negb in_buf then (OK, mkContents (ztake n data) false false)
        else (OK, mkContents (ztake n data) true true)
      else if type =? kSnappyCompression then
        ReadCompressed snappy (str "snappy") (ztake n data) result
      else if type =? kZstdCompression then
        ReadCompressed zstd (str "zstd") (ztake n data) result
      else (Corruption (str "bad block type") [], result).

(** ** Round trips *)

(** Handles a writer may store: 64-bit fields that have been set. *)
Definition handle_ok (h : BlockHandle) : Prop :=
  0 <= handle_offset h < 2 ^ 64 - 1 /\ 0 <= handle_size h < 2 ^ 64 - 1.

(** The encoding itself. *)
Definition handle_bytes (h : BlockHandle) : bytes :=
  EncodeVarint64 (handle_offset h) ++ EncodeVarint64 (handle_size h).

Arguments handle_bytes : simpl never.

Lemma BlockHandle_EncodeTo_ok h dst :
  handle_ok h -> BlockHandle_EncodeTo h dst = Some (dst ++ handle_bytes h).
Proof.
  intros [Ho Hs]. unfold BlockHandle_EncodeTo.
  rewrite (proj2 (Z.eqb_neq _ _)), (proj2 (Z.eqb_neq (handle_size h) _)) by lia. cbn [negb andb].
  unfold PutVarint64, handle_bytes. by rewrite app_assoc.
Qed.

Lemma BlockHandle_DecodeFrom_encoded h0 h rest :
  handle_ok h -> BlockHandle_DecodeFrom h0 (handle_bytes h ++ rest) = (OK, h, rest).
Proof.
  intros [Ho Hs]. unfold BlockHandle_DecodeFrom, handle_bytes.
  rewrite <- app_assoc, !GetVarint64_Encode by lia. by destruct h.
Qed.

Lemma encode_varint_loop_short fuel v :
  (length (encode_varint_loop fuel v) <= fuel)%nat.
Proof.
  revert v. induction fuel as [|fuel IH]; intros v; cbn; [done|].
  destruct (B <=? v); cbn; [|lia]. specialize (IH (Z.shiftr v 7)). lia.
Qed.

Lemma blen_handle_bytes h : blen (handle_bytes h) <= kMaxEncodedLength.
Proof.
  unfold handle_bytes. rewrite blen_app. unfold blen, EncodeVarint64, kMaxEncodedLength.
  pose proof (encode_varint_loop_short 10 (handle_offset h)).
  pose proof (encode_varint_loop_short 10 (handle_size h)). lia.
Qed.

(** The forty-eight bytes of a footer. *)
Definition footer_bytes (f : Footer) : bytes :=
  let hs := handle_bytes (metaindex_handle_ f) ++ handle_bytes (index_handle_ f) in
  hs ++ replicate (Z.to_nat (40 - blen hs)) x00
     ++ EncodeFixed32 (Z.land kTableMagicNumber 0xffffffff)
     ++ EncodeFixed32 (Z.shiftr kTableMagicNumber 32).

Definition footer_ok (f : Footer) : Prop :=
  handle_ok (metaindex_handle_ f) /\ handle_ok (index_handle_ f).

Lemma blen_footer_bytes f : blen (footer_bytes f) = kEncodedLength.
Proof.
  unfold footer_bytes. cbv zeta.
  pose proof (blen_handle_bytes (metaindex_handle_ f)).
  pose proof (blen_handle_bytes (index_handle_ f)). unfold kEncodedLength, kMaxEncodedLength in *.
  rewrite (blen_app (_ ++ _)), !(blen_app (replicate _ _)), (blen_app (EncodeFixed32 _)).
  rewrite blen_app. rewrite blen_replicate by lia. rewrite !blen_EncodeFixed32. lia.
Qed.

Lemma Footer_EncodeTo_ok f : footer_ok f -> Footer_EncodeTo f [] = Some (footer_bytes f).
Proof.
  intros [Hm Hi]. pose proof (blen_footer_bytes f) as Hlen.
  unfold Footer_EncodeTo. rewrite (BlockHandle_EncodeTo_ok _ _ Hm). cbn [mbind option_bind].
  rewrite (BlockHandle_EncodeTo_ok _ _ Hi). cbn [mbind option_bind app].
  unfold footer_bytes in *. cbv zeta in *.
  pose proof (blen_handle_bytes (metaindex_handle_ f)).
  pose proof (blen_handle_bytes (index_handle_ f)).
  set (hs := handle_bytes (metaindex_handle_ f) ++ handle_bytes (index_handle_ f)) in *.
  assert (blen hs <= 40) as Hhs by (subst hs; rewrite blen_app; unfold kMaxEncodedLength in *; lia).
  unfold PutFixed32, resize. change (2 * kMaxEncodedLength) with 40.
  destruct (Z.leb_spec 40 (blen hs)).
  - rewrite ztake_all by lia. replace (40 - blen hs) with 0 in * by lia.
    change (replicate (Z.to_nat 0) x00) with (@nil byte) in *. rewrite (app_nil_l (_ ++ _)) in *.
    rewrite <- !app_assoc. rewrite Hlen. done.
  - rewrite <- !app_assoc. rewrite Hlen. done.
Qed.

Lemma Footer_DecodeFrom_encoded f0 f rest :
  footer_ok f -> Footer_DecodeFrom f0 (footer_bytes f ++ rest) = (OK, f, rest).
Proof.
  intros [Hm Hi]. unfold Footer_DecodeFrom. pose proof (blen_footer_bytes f) as Hlen.
  rewrite blen_app, Hlen. pose proof (blen_nonneg rest).
  destruct (Z.ltb_spec (kEncodedLength + blen rest) kEncodedLength); [lia|].
  rewrite (zdrop_app kEncodedLength) by done.
  assert (zdrop (kEncodedLength - 8) (footer_bytes f ++ rest) =
    EncodeFixed32 (Z.land kTableMagicNumber 0xffffffff) ++
    EncodeFixed32 (Z.shiftr kTableMagicNumber 32) ++ rest) as ->.
  { unfold footer_bytes. cbv zeta. rewrite !app_assoc. rewrite <- (app_assoc _ _ rest).
    rewrite <- (app_assoc _ (EncodeFixed32 _)). apply zdrop_app. symmetry.
    unfold footer_bytes in Hlen. cbv zeta in Hlen. revert Hlen.
    rewrite !blen_app, !blen_EncodeFixed32. lia. }
  rewrite DecodeFixed32_Encode, zdrop_app, DecodeFixed32_Encode by done.
  cbv zeta. change (negb _) with false. cbn iota. unfold footer_bytes. cbv zeta.
  rewrite <- !app_assoc. rewrite (BlockHandle_DecodeFrom_encoded _ _ _ Hm). cbn [ok OK state_].
  rewrite (BlockHandle_DecodeFrom_encoded _ _ _ Hi). cbn [ok OK state_].
  by destruct f.
Qed.

(** ** Stored blocks

    What [TableBuilder::WriteRawBlock] appends for a block, and that
    [ReadBlock] finds it again whether or not checksums are verified. *)

Definition stored_block (contents : bytes) (type : Z) : bytes :=
  contents ++ [z2b type] ++ EncodeFixed32 (Mask (crc32c_ref 0 (contents ++ [z2b type]))).

Lemma blen_stored_block c t : blen (stored_block c t) = blen c + kBlockTrailerSize.
Proof. unfold stored_block, kBlockTrailerSize. len. Qed.

#[export] Hint Rewrite blen_stored_block : blen.

(** What a reader gets back for contents stored with a type. *)
Definition unstored (snappy zstd : Codec) (contents : bytes) (type : Z) : option bytes :=
  if type =? kNoCompression then Some contents
  else if type =? kSnappyCompression then Codec_Uncompress snappy contents
  else if type =? kZstdCompression then Codec_Uncompress zstd contents
  else None.

Section ReadBlock.

Context {F} `{ReliableRandom F file_contents} (snappy zstd : Codec).

(** The bytes of a stored block lie at the handle's offset. *)
Definition stored_at (file : F) (h : BlockHandle) (contents : bytes) (type : Z) : Prop :=
  exists before after,
    file_contents file = before ++ stored_block contents type ++ after /\
    h = mkHandle (blen before) (blen contents) /\ blen (file_contents file) < 2 ^ 64.

Lemma stored_at_read file h c t :
  stored_at file h c t ->
  exists in_buf s,
    ReadAt file (handle_offset h) (u64 (handle_size h + kBlockTrailerSize)) =
      (s, stored_block c t, in_buf) /\ ok s = true.
Proof.
  intros (b & a & Hf & -> & Hlt). cbn [handle_offset handle_size]. rewrite Hf in Hlt.
  rewrite !blen_app, blen_stored_block in Hlt.
  pose proof (blen_nonneg a). pose proof (blen_nonneg b). pose proof (blen_nonneg c).
  unfold kBlockTrailerSize in *. rewrite u64_small by lia.
  destruct (readat_contents (contents := file_contents) file (blen b) (blen c + 5)) as [Hok Hs];
    [rewrite Hf, blen_app; pose proof (blen_nonneg (stored_block c t ++ a)); lia|lia|].
  rewrite Hf, zdrop_app, ztake_app in Hs by (done || (rewrite blen_stored_block; done)).
  destruct (ReadAt file (blen b) (blen c + 5)) as [[s d] i]. cbn in *. subst d. eauto.
Qed.

Lemma ReadBlock_stored addr file verify h c t :
  stored_at file h c t -> 0 <= t < 128 ->
  exists in_buf,
    ReadBlock snappy zstd addr file verify h =
    if t =? kNoCompression then (OK, mkContents c in_buf in_buf)
    else if t =? kSnappyCompression then
      ReadCompressed snappy (str "snappy") c (mkContents [] false false)
    else if t =? kZstdCompression then
      ReadCompressed zstd (str "zstd") c (mkContents [] false false)
    else (Corruption (str "bad block type") [], mkContents [] false false).
Proof.
  intros Hst Ht. destruct (stored_at_read _ _ _ _ Hst) as (in_buf & s & Hread & Hok).
  exists in_buf. unfold ReadBlock. rewrite Hread, Hok. cbn [negb].
  destruct Hst as (b & a & Hf & -> & Hlt). cbn [handle_offset handle_size].
  rewrite Hf in Hlt. rewrite !blen_app, blen_stored_block in Hlt.
  pose proof (blen_nonneg a). pose proof (blen_nonneg b). pose proof (blen_nonneg c).
  rewrite blen_stored_block. unfold kBlockTrailerSize in *. rewrite u64_small, Z.eqb_refl by lia.
  cbn [negb]. cbv zeta. unfold stored_block.
  rewrite (ztake_app (blen c)) by done.
  assert (byte_at (c ++ [z2b t] ++ EncodeFixed32 (Mask (crc32c_ref 0 (c ++ [z2b t])))) (blen c) = z2b t) as ->.
  { unfold byte_at, blen. rewrite Nat2Z.id, app_nth2 by lia. by rewrite Nat.sub_diag. }
  rewrite app_assoc, (ztake_app (blen c + 1)), (zdrop_app (blen c + 1)) by len.
  rewrite <- (app_nil_r (EncodeFixed32 _)), DecodeFixed32_Encode.
  rewrite (u32_small (Mask _)) by apply Mask_range.
  rewrite Unmask_Mask by (apply crc32c_ref_range; lia).
  unfold Value. rewrite Extend_ref by lia. rewrite Z.eqb_refl, andb_false_r.
  unfold schar. rewrite b2z_z2b_small by lia. destruct (Z.ltb_spec t 128); [|lia].
  by destruct in_buf.
Qed.

End ReadBlock.
