(* ===== verification/Iterator.v ===== *)
(** * The iterator interface

    [include/leveldb/iterator.h], [table/iterator.cc] and
    [table/iterator_wrapper.h].  [Iterator] is the class of the virtual
    functions; [IteratesOver] is what the header promises, stated against the
    list of entries the iterator goes through.  The iterators of blocks, tables
    and merges are verified as implementations of it, and their clients against
    it.  The list of cleanup functions every iterator has is at the end. *)

From S2P Require Import Prelude Slice Status Comparator.

(** [class Iterator].  An operation is [None] where the source asserts or has
    no defined behaviour. *)
Class Iterator (I : Type) := {
  it_Valid : I -> bool;
  it_key : I -> bytes;
  it_value : I -> bytes;
  it_status : I -> Status;
  it_SeekToFirst : I -> option I;
  it_SeekToLast : I -> option I;
  it_Seek : I -> bytes -> option I;
  it_Next : I -> option I;
  it_Prev : I -> option I
}.

(** An entry: key and value. *)
Abbreviation entry := (bytes * bytes)%type.

(** ** The contract *)

(** Position [i] of a list, or past its end. *)
Definition clip {A} (l : list A) (i : nat) : option nat :=
  if decide (i < length l)%nat then Some i else None.

(** The position before [i], or before the first. *)
Definition before (i : nat) : option nat :=
  match i with O => None | S i => Some i end.

(** The last position of a list. *)
Definition last_pos {A} (l : list A) : option nat := before (length l).

(** The number of leading entries whose key is below the target. *)
Fixpoint below (cmp : bytes -> bytes -> Z) (target : bytes) (l : list entry) : nat :=
  match l with
  | [] => O
  | (k, _) :: l => if cmp k target <? 0 then S (below cmp target l) else O
  end.

(** The position [Seek] must reach: the first key at or past the target. *)
Definition seek_pos (cmp : bytes -> bytes -> Z) (target : bytes) (l : list entry) : option nat :=
  clip l (below cmp target l).

(** [pos it p]: the iterator is a sound iterator over [l], at position [p] or
    not valid.  [T] are the targets it can seek. *)
Class IteratesWithin {I} `{Iterator I} (T : bytes -> Prop) (cmp : bytes -> bytes -> Z) (l : list entry)
    (pos : I -> option nat -> Prop) : Prop := {
  iter_valid it p : pos it p -> it_Valid it = bool_decide (is_Some p);
  iter_entry it i : pos it (Some i) -> l !! i = Some (it_key it, it_value it);
  iter_status it p : pos it p -> ok (it_status it) = true;
  iter_first it p : pos it p -> exists it', it_SeekToFirst it = Some it' /\ pos it' (clip l 0);
  iter_last it p : pos it p -> exists it', it_SeekToLast it = Some it' /\ pos it' (last_pos l);
  iter_seek it p target :
    pos it p -> T target -> exists it', it_Seek it target = Some it' /\ pos it' (seek_pos cmp target l);
  iter_next it i : pos it (Some i) -> exists it', it_Next it = Some it' /\ pos it' (clip l (S i));
  iter_prev it i : pos it (Some i) -> exists it', it_Prev it = Some it' /\ pos it' (before i)
}.

(** Most iterators can seek any target. *)
Abbreviation any_target := (fun _ : bytes => True).
Abbreviation IteratesOver := (IteratesWithin any_target).

Lemma iterates_fewer {I} `{Iterator I} (T T' : bytes -> Prop) cmp l (pos : I -> option nat -> Prop) :
  (forall target, T' target -> T target) -> IteratesWithin T cmp l pos -> IteratesWithin T' cmp l pos.
Proof. intros HT [H1 H2 H3 H4 H5 H6 H7 H8]. split; eauto. Qed.

(** ** Scans

    The loops every client writes: from the first entry with [Next], or from the
    last with [Prev], until the iterator is not valid. *)

Fixpoint collect {I} `{Iterator I} (step : I -> option I) (fuel : nat) (it : I)
  : option (list entry) :=
  match fuel with
  | O => None
  | S fuel =>
      if it_Valid it then
        it' ← step it;
        rest ← collect step fuel it';
        Some ((it_key it, it_value it) :: rest)
      else Some []
  end.

Definition scan_all {I} `{Iterator I} (fuel : nat) (it : I) : option (list entry) :=
  it ← it_SeekToFirst it; collect it_Next fuel it.

Definition scan_all_back {I} `{Iterator I} (fuel : nat) (it : I) : option (list entry) :=
  it ← it_SeekToLast it; collect it_Prev fuel it.

Definition scan_from {I} `{Iterator I} (fuel : nat) (it : I) (target : bytes)
  : option (list entry) :=
  it ← it_Seek it target; collect it_Next fuel it.

Section Contract.

Context {I} `{IteratesWithin I T cmp l pos}.

Lemma clip_drop {A} (xs : list A) i : clip xs i = None -> drop i xs = [].
Proof. unfold clip. case_decide; [done|]. intros _. apply drop_ge. lia. Qed.

Lemma collect_next n fuel it i :
  pos it (clip l i) -> (length l - i <= n)%nat -> (n < fuel)%nat ->
  collect it_Next fuel it = Some (drop i l).
Proof.
  revert fuel it i. induction n as [|n IH]; intros fuel it i Hp Hn Hf;
    (destruct fuel as [|fuel]; [lia|]); cbn [collect]; rewrite (iter_valid _ _ Hp).
  - unfold clip in *. rewrite decide_False in * by lia. rewrite bool_decide_false by (by intros []).
    by rewrite drop_ge by lia.
  - destruct (clip l i) as [j|] eqn:Ec.
    + unfold clip in Ec. case_decide; simplify_eq. rewrite bool_decide_true by done.
      destruct (iter_next _ _ Hp) as (it' & Hnx & Hp'). rewrite Hnx. cbn.
      rewrite (IH fuel it' (S j) Hp') by lia. cbn.
      by rewrite (drop_S _ _ _ (iter_entry _ _ Hp)).
    + rewrite bool_decide_false by (by intros []). by rewrite clip_drop.
Qed.

Lemma collect_prev fuel it i :
  pos it (before i) -> (i < fuel)%nat -> collect it_Prev fuel it = Some (rev (take i l)).
Proof.
  revert fuel it. induction i as [|i IH]; intros fuel it Hp Hf;
    (destruct fuel as [|fuel]; [lia|]); cbn [collect]; rewrite (iter_valid _ _ Hp); cbn [before] in *.
  - rewrite bool_decide_false by (by intros []). done.
  - rewrite bool_decide_true by done.
    destruct (iter_prev _ _ Hp) as (it' & Hpv & Hp'). rewrite Hpv. cbn [mbind option_bind].
    rewrite (IH fuel it' Hp') by lia. cbn [mbind option_bind].
    rewrite (take_S_r _ _ _ (iter_entry _ _ Hp)), rev_app_distr. done.
Qed.

Lemma scan_all_spec it p fuel :
  pos it p -> (length l < fuel)%nat -> scan_all fuel it = Some l.
Proof.
  intros Hp Hf. unfold scan_all. destruct (iter_first _ _ Hp) as (it' & -> & Hp'). cbn.
  by rewrite (collect_next (length l) fuel it' 0) by (done || lia).
Qed.

Lemma scan_all_back_spec it p fuel :
  pos it p -> (length l < fuel)%nat -> scan_all_back fuel it = Some (rev l).
Proof.
  intros Hp Hf. unfold scan_all_back. destruct (iter_last _ _ Hp) as (it' & -> & Hp'). cbn.
  rewrite (collect_prev fuel it' (length l)) by (done || lia). by rewrite take_ge by lia.
Qed.

Lemma scan_from_spec it p fuel target :
  pos it p -> T target -> (length l < fuel)%nat ->
  scan_from fuel it target = Some (drop (below cmp target l) l).
Proof.
  intros Hp Ht Hf. unfold scan_from. destruct (iter_seek _ _ target Hp Ht) as (it' & -> & Hp'). cbn.
  apply (collect_next (length l) fuel it'); [done|lia|lia].
Qed.

End Contract.

(** ** Cursors

    The abstract iterator is a position in the list of entries.  A client's moves
    on an iterator that satisfies the contract show exactly what the same moves
    show on the position. *)

Inductive move := ToFirst | ToLast | ToTarget (target : bytes) | Forth | Back.

Definition move_iter {I} `{Iterator I} (it : I) (m : move) : option I :=
  match m with
  | ToFirst => it_SeekToFirst it
  | ToLast => it_SeekToLast it
  | ToTarget target => it_Seek it target
  | Forth => it_Next it
  | Back => it_Prev it
  end.

(** [Next] and [Prev] require a valid position. *)
Definition move_cursor (cmp : bytes -> bytes -> Z) (l : list entry) (p : option nat) (m : move)
  : option (option nat) :=
  match m with
  | ToFirst => Some (clip l 0)
  | ToLast => Some (last_pos l)
  | ToTarget target => Some (seek_pos cmp target l)
  | Forth => i ← p; Some (clip l (S i))
  | Back => i ← p; Some (before i)
  end.

Fixpoint moves_iter {I} `{Iterator I} (it : I) (ms : list move) : option I :=
  match ms with
  | [] => Some it
  | m :: ms => it ← move_iter it m; moves_iter it ms
  end.

Fixpoint moves_cursor (cmp : bytes -> bytes -> Z) (l : list entry) (p : option nat)
    (ms : list move) : option (option nat) :=
  match ms with
  | [] => Some p
  | m :: ms => p ← move_cursor cmp l p m; moves_cursor cmp l p ms
  end.

(** What a client sees: the current entry, if any, and the status. *)
Definition shows {I} `{Iterator I} (it : I) (e : option entry) : Prop :=
  (if it_Valid it then Some (it_key it, it_value it) else None) = e /\ ok (it_status it) = true.

(** Moves whose targets are in [T]. *)
Definition move_within (T : bytes -> Prop) (m : move) : Prop := match m with ToTarget target => T target | _ => True end.

Section Refinement.

Context {I} `{IteratesWithin I T cmp l pos}.

Lemma pos_shows it p : pos it p -> shows it (p ≫= (l !!.)).
Proof.
  intros Hp. split; [|by eapply iter_status]. rewrite (iter_valid _ _ Hp).
  destruct p as [i|]; [rewrite bool_decide_true by done|by rewrite bool_decide_false by (by intros [])].
  cbn. by rewrite (iter_entry _ _ Hp).
Qed.

Lemma move_refines it p m p' :
  pos it p -> move_within T m -> move_cursor cmp l p m = Some p' ->
  exists it', move_iter it m = Some it' /\ pos it' p'.
Proof.
  intros Hp Ht Hm. destruct m; cbn in *; simplify_eq.
  - by apply (iter_first it p).
  - by apply (iter_last it p).
  - by apply (iter_seek it p).
  - destruct p as [i|]; cbn in *; simplify_eq. by apply (iter_next it i).
  - destruct p as [i|]; cbn in *; simplify_eq. by apply (iter_prev it i).
Qed.

Lemma moves_refine it p ms p' :
  pos it p -> Forall (move_within T) ms -> moves_cursor cmp l p ms = Some p' ->
  exists it', moves_iter it ms = Some it' /\ pos it' p'.
Proof.
  revert it p. induction ms as [|m ms IH]; intros it p Hp Ht Hm; cbn in *; simplify_eq; [eauto|].
  apply Forall_cons in Ht as [Ht1 Ht].
  destruct (move_cursor cmp l p m) as [p1|] eqn:E; cbn in Hm; [|done].
  destruct (move_refines _ _ _ _ Hp Ht1 E) as (it1 & -> & Hp1). cbn. by apply (IH it1 p1).
Qed.

Lemma moves_show_within it p ms p' :
  pos it p -> Forall (move_within T) ms -> moves_cursor cmp l p ms = Some p' ->
  exists it', moves_iter it ms = Some it' /\ shows it' (p' ≫= (l !!.)).
Proof.
  intros Hp Ht Hm. destruct (moves_refine _ _ _ _ Hp Ht Hm) as (it' & -> & Hp'). eauto using pos_shows.
Qed.

End Refinement.

Lemma any_moves ms : Forall (move_within any_target) ms.
Proof. apply Forall_forall. by intros []. Qed.

Lemma moves_show {I} `{IteratesWithin I any_target cmp l pos} it p ms p' :
  pos it p -> moves_cursor cmp l p ms = Some p' ->
  exists it', moves_iter it ms = Some it' /\ shows it' (p' ≫= (l !!.)).
Proof. intros Hp Hm. exact (moves_show_within it p ms p' Hp (any_moves ms) Hm). Qed.

(** ** Facts on [below] in sorted lists *)

Definition entry_lt (cmp : bytes -> bytes -> Z) (e e' : entry) : Prop := cmp (fst e) (fst e') < 0.

Section Below.

Context (cmp : bytes -> bytes -> Z) {T : ThreeWay cmp}.

Lemma below_le target l : (below cmp target l <= length l)%nat.
Proof. induction l as [|[k v] l IH]; cbn; [done|]. destruct (cmp k target <? 0); lia. Qed.

Lemma below_lt target l i e :
  l !! i = Some e -> (i < below cmp target l)%nat -> cmp (fst e) target < 0.
Proof.
  revert i. induction l as [|[k v] l IH]; intros i Hi Hlt; cbn in *; [lia|].
  destruct (Z.ltb_spec (cmp k target) 0); [|lia].
  destruct i as [|i]; [cbn in Hi; by simplify_eq|]. apply (IH i); [done|lia].
Qed.

Lemma below_at target l e :
  l !! below cmp target l = Some e -> 0 <= cmp (fst e) target.
Proof.
  induction l as [|[k v] l IH]; cbn; [done|].
  destruct (Z.ltb_spec (cmp k target) 0); cbn; [exact IH|]. intros ?. by simplify_eq.
Qed.

Lemma sorted_lookup_lt l i j e e' :
  StronglySorted (entry_lt cmp) l -> l !! i = Some e -> l !! j = Some e' -> (i < j)%nat ->
  cmp (fst e) (fst e') < 0.
Proof. intros Hs Hi Hj Hij. exact (StronglySorted_lookup _ _ _ _ _ _ Hs Hi Hj Hij). Qed.

(** In a sorted list every key from [below] on is at or past the target. *)
Lemma below_ge target l i e :
  StronglySorted (entry_lt cmp) l -> l !! i = Some e -> (below cmp target l <= i)%nat ->
  0 <= cmp (fst e) target.
Proof.
  intros Hs Hi Hle. destruct (Nat.eq_dec i (below cmp target l)) as [->|Hne].
  { by apply (below_at target l). }
  destruct (lookup_lt_is_Some_2 l (below cmp target l)) as [e' He'];
    [apply lookup_lt_Some in Hi; lia|].
  pose proof (below_at _ _ _ He') as Hge.
  pose proof (sorted_lookup_lt l _ i e' e Hs He' Hi ltac:(lia)) as Hlt.
  destruct (Z.lt_ge_cases (cmp (fst e) target) 0) as [Hb|]; [|done].
  pose proof (cmp_lt_trans cmp _ _ _ Hlt Hb). lia.
Qed.

(** [below] is determined by the two sides. *)
Lemma below_unique target l n :
  (n <= length l)%nat ->
  (forall i e, (i < n)%nat -> l !! i = Some e -> cmp (fst e) target < 0) ->
  (forall e, l !! n = Some e -> 0 <= cmp (fst e) target) ->
  below cmp target l = n.
Proof.
  revert n. induction l as [|[k v] l IH]; intros n Hn Hlt Hge; cbn in *; [lia|].
  destruct n as [|n].
  - specialize (Hge _ eq_refl). cbn in Hge. destruct (Z.ltb_spec (cmp k target) 0); [lia|done].
  - pose proof (Hlt O _ ltac:(lia) eq_refl) as H0. cbn in H0.
    destruct (Z.ltb_spec (cmp k target) 0); [|lia]. f_equal.
    apply IH; [lia| |done]. intros i e Hi He. apply (Hlt (S i)); [lia|done].
Qed.

End Below.

(** ** [EmptyIterator] *)

Record EmptyIterator := mkEmpty { empty_status_ : Status }.

#[export] Instance EmptyIterator_ops : Iterator EmptyIterator := {
  it_Valid _ := false;
  it_key _ := [];
  it_value _ := [];
  it_status it := empty_status_ it;
  it_SeekToFirst it := Some it;
  it_SeekToLast it := Some it;
  it_Seek it _ := Some it;
  it_Next _ := None;
  it_Prev _ := None
}.

Definition NewEmptyIterator : EmptyIterator := mkEmpty OK.
Definition NewErrorIterator (status : Status) : EmptyIterator := mkEmpty status.

#[export] Instance EmptyIterator_iterates T cmp :
  IteratesWithin T cmp [] (fun (it : EmptyIterator) p => ok (empty_status_ it) = true /\ p = None).
Proof. split; naive_solver. Qed.

(** ** Iterators of one of two kinds

    [Block::NewIterator] and [NewMergingIterator] return an iterator whose class
    depends on the input; the call goes to the class at hand. *)

#[export] Instance sum_iterator {I J} `{Iterator I} `{Iterator J} : Iterator (I + J) := {
  it_Valid it := match it with inl i => it_Valid i | inr j => it_Valid j end;
  it_key it := match it with inl i => it_key i | inr j => it_key j end;
  it_value it := match it with inl i => it_value i | inr j => it_value j end;
  it_status it := match it with inl i => it_status i | inr j => it_status j end;
  it_SeekToFirst it :=
    match it with inl i => inl <$> it_SeekToFirst i | inr j => inr <$> it_SeekToFirst j end;
  it_SeekToLast it :=
    match it with inl i => inl <$> it_SeekToLast i | inr j => inr <$> it_SeekToLast j end;
  it_Seek it t :=
    match it with inl i => inl <$> it_Seek i t | inr j => inr <$> it_Seek j t end;
  it_Next it := match it with inl i => inl <$> it_Next i | inr j => inr <$> it_Next j end;
  it_Prev it := match it with inl i => inl <$> it_Prev i | inr j => inr <$> it_Prev j end
}.

Definition pos_sum {I J} (posI : I -> option nat -> Prop) (posJ : J -> option nat -> Prop)
    (it : I + J) (p : option nat) : Prop :=
  match it with inl i => posI i p | inr j => posJ j p end.

Lemma lift_move {I J} (f : I -> option I) (g : I -> J) (P : J -> option nat -> Prop) i p :
  (exists i', f i = Some i' /\ P (g i') p) -> exists j, g <$> f i = Some j /\ P j p.
Proof. intros (i' & -> & Hp). cbn. eauto. Qed.

#[export] Instance sum_iterates {I J} `{Iterator I} `{Iterator J} T cmp l
    (posI : I -> option nat -> Prop) (posJ : J -> option nat -> Prop) :
  IteratesWithin T cmp l posI -> IteratesWithin T cmp l posJ -> IteratesWithin T cmp l (pos_sum posI posJ).
Proof.
  intros HI HJ. split; intros [i|j]; cbn; intros.
  1, 2: by apply iter_valid. 1, 2: by apply iter_entry. 1, 2: by eapply iter_status.
  1, 2: by apply lift_move; cbn; eapply iter_first.
  1, 2: by apply lift_move; cbn; eapply iter_last.
  1: by apply (lift_move (fun i => it_Seek i target)); cbn; eapply iter_seek.
  1: by apply (lift_move (fun i => it_Seek i target)); cbn; eapply iter_seek.
  1, 2: by apply lift_move; cbn; eapply iter_next.
  1, 2: by apply lift_move; cbn; eapply iter_prev.
Qed.

(** ** [IteratorWrapper]

    A cached copy of [Valid] and [key] beside the iterator, refreshed by
    [Update] after every move.  [iter_] may be null. *)

Record IteratorWrapper (I : Type) := mkWrapper {
  iter_ : option I;
  valid_ : bool;
  wrapper_key_ : bytes
}.
Arguments mkWrapper {I}.
Arguments iter_ {I}.
Arguments valid_ {I}.
Arguments wrapper_key_ {I}.

Section Wrapper.

Context {I} `{Iterator I}.

Definition Wrapper_new : IteratorWrapper I := mkWrapper None false [].

Definition Update (it : I) (old_key : bytes) : IteratorWrapper I :=
  if it_Valid it then mkWrapper (Some it) true (it_key it)
  else mkWrapper (Some it) false old_key.

Definition Wrapper_Set (w : IteratorWrapper I) (iter : option I) : IteratorWrapper I :=
  match iter with
  | None => mkWrapper None false (wrapper_key_ w)
  | Some it => Update it (wrapper_key_ w)
  end.

(** A forwarded move: [assert(iter_)], the call, [Update()]. *)
Definition forward (w : IteratorWrapper I) (f : I -> option I) : option (IteratorWrapper I) :=
  it ← iter_ w; it' ← f it; Some (Update it' (wrapper_key_ w)).

Definition Wrapper_Next (w : IteratorWrapper I) := forward w it_Next.
Definition Wrapper_Prev (w : IteratorWrapper I) := forward w it_Prev.
Definition Wrapper_Seek (w : IteratorWrapper I) (k : bytes) := forward w (fun it => it_Seek it k).
Definition Wrapper_SeekToFirst (w : IteratorWrapper I) := forward w it_SeekToFirst.
Definition Wrapper_SeekToLast (w : IteratorWrapper I) := forward w it_SeekToLast.

Definition Wrapper_key (w : IteratorWrapper I) : option bytes :=
  if valid_ w then Some (wrapper_key_ w) else None.

Definition Wrapper_value (w : IteratorWrapper I) : option bytes :=
  if valid_ w then it ← iter_ w; Some (it_value it) else None.

Definition Wrapper_status (w : IteratorWrapper I) : option Status :=
  it ← iter_ w; Some (it_status it).

(** The cache agrees with the iterator. *)
Definition wrapper_ok (w : IteratorWrapper I) : Prop :=
  match iter_ w with
  | None => valid_ w = false
  | Some it => valid_ w = it_Valid it /\ (it_Valid it = true -> wrapper_key_ w = it_key it)
  end.

Lemma Update_ok it k : wrapper_ok (Update it k) /\ iter_ (Update it k) = Some it.
Proof. unfold Update, wrapper_ok. by destruct (it_Valid it) eqn:E; cbn; rewrite E. Qed.

Lemma Wrapper_Set_ok w it : wrapper_ok (Wrapper_Set w it) /\ iter_ (Wrapper_Set w it) = it.
Proof. destruct it as [it|]; [apply Update_ok|done]. Qed.

Lemma forward_spec w f it it' :
  iter_ w = Some it -> f it = Some it' ->
  exists w', forward w f = Some w' /\ wrapper_ok w' /\ iter_ w' = Some it'.
Proof.
  intros Hw Hf. unfold forward. rewrite Hw. cbn. rewrite Hf. cbn.
  destruct (Update_ok it' (wrapper_key_ w)). eauto.
Qed.

End Wrapper.
Arguments Wrapper_new {I}.

(** ** Cleanup functions

    [Iterator::RegisterCleanup] and the destructor: a single-linked list whose head
    node lies in the iterator and whose other nodes are on the heap.  A cleanup
    function is known by a number; running one records it with its arguments. *)

(** [struct CleanupNode]; a null function is [None]. *)
Record CleanupNode := mkCleanup { cn_function : option Z; cn_arg1 : Z; cn_arg2 : Z; cn_next : option nat }.

(** The head node of the iterator, the heap of nodes and the next address. *)
Record Cleanups := mkCleanups { cleanup_head_ : CleanupNode; cl_heap : gmap nat CleanupNode; cl_alloc : nat }.

Definition Cleanups_make : Cleanups := mkCleanups (mkCleanup None 0 0 None) ∅ 0.

Definition Cleanup_IsEmpty (n : CleanupNode) : bool := bool_decide (cn_function n = None).

(** [Run]: the call that is made; the null function is an assertion failure. *)
Definition Cleanup_Run (n : CleanupNode) : option (Z * Z * Z) := f ← cn_function n; Some (f, cn_arg1 n, cn_arg2 n).

Definition RegisterCleanup (func arg1 arg2 : Z) (c : Cleanups) : Cleanups :=
  let head := cleanup_head_ c in
  if Cleanup_IsEmpty head then mkCleanups (mkCleanup (Some func) arg1 arg2 (cn_next head)) (cl_heap c) (cl_alloc c)
  else
    let node := cl_alloc c in
    mkCleanups (mkCleanup (cn_function head) (cn_arg1 head) (cn_arg2 head) (Some node))
      (<[node := mkCleanup (Some func) arg1 arg2 (cn_next head)]> (cl_heap c)) (S node).

(** The loop of the destructor: the calls in order and the heap that is left; a node
    that is not there is a use after free. *)
Fixpoint run_nodes (fuel : nat) (node : option nat) (heap : gmap nat CleanupNode) : option (list (Z * Z * Z) * gmap nat CleanupNode) :=
  match node with
  | None => Some ([], heap)
  | Some p =>
      match fuel with
      | O => None
      | S fuel =>
          n ← heap !! p;
          call ← Cleanup_Run n;
          '(calls, heap) ← run_nodes fuel (cn_next n) (delete p heap);
          Some (call :: calls, heap)
      end
  end.

(** [~Iterator] *)
Definition Iterator_delete (fuel : nat) (c : Cleanups) : option (list (Z * Z * Z) * gmap nat CleanupNode) :=
  if Cleanup_IsEmpty (cleanup_head_ c) then Some ([], cl_heap c)
  else
    call ← Cleanup_Run (cleanup_head_ c);
    '(calls, heap) ← run_nodes fuel (cn_next (cleanup_head_ c)) (cl_heap c);
    Some (call :: calls, heap).

(** ** What the destructor runs *)

(** The nodes from [node] on hold the calls [cs], and [heap] holds nothing else. *)
Inductive cleanup_chain : option nat -> gmap nat CleanupNode -> list (Z * Z * Z) -> Prop :=
  | cleanup_chain_nil : cleanup_chain None ∅ []
  | cleanup_chain_cons p heap f a b next cs :
      heap !! p = None -> cleanup_chain next heap cs -> cleanup_chain (Some p) (<[p := mkCleanup (Some f) a b next]> heap) ((f, a, b) :: cs).

Lemma run_cleanup_chain node heap cs : cleanup_chain node heap cs -> forall fuel, (length cs <= fuel)%nat -> run_nodes fuel node heap = Some (cs, ∅).
Proof.
  induction 1 as [|p heap f a b next cs Hp Hc IH]; intros fuel Hf; [by destruct fuel|]. destruct fuel as [|fuel]; cbn [length] in Hf; [lia|].
  cbn [run_nodes]. rewrite lookup_insert_eq. cbn [mbind option_bind Cleanup_Run cn_function cn_next]. rewrite delete_insert_id by done.
  rewrite IH by lia. done.
Qed.

Definition register_all (cs : list (Z * Z * Z)) (c : Cleanups) : Cleanups :=
  fold_left (fun c '(f, a, b) => RegisterCleanup f a b c) cs c.

(** The state once the calls [first] and then [rest] are cleanups_registered. *)
Definition cleanups_registered (first : Z * Z * Z) (rest : list (Z * Z * Z)) (c : Cleanups) : Prop :=
  let '(f, a, b) := first in
  exists next, cleanup_head_ c = mkCleanup (Some f) a b next /\ cleanup_chain next (cl_heap c) (rev rest) /\ forall p, (cl_alloc c <= p)%nat -> cl_heap c !! p = None.

Lemma register_more cs : forall first rest c, cleanups_registered first rest c -> cleanups_registered first (rest ++ cs) (register_all cs c).
Proof.
  induction cs as [|[[f a] b] cs IH]; intros first rest c H; cbn [register_all fold_left]; [by rewrite app_nil_r|].
  replace (rest ++ (f, a, b) :: cs) with ((rest ++ [(f, a, b)]) ++ cs) by (by rewrite <- app_assoc). apply IH. clear IH.
  destruct first as [[f0 a0] b0]. destruct H as (next & Eh & Hc & Hfr). unfold RegisterCleanup, Cleanup_IsEmpty. rewrite Eh. cbn [cn_function cn_arg1 cn_arg2 cn_next].
  rewrite bool_decide_false by done. exists (Some (cl_alloc c)). cbn [cleanup_head_ cl_heap cl_alloc]. split; [done|]. split.
  - rewrite rev_unit. constructor; [by apply Hfr|done].
  - intros p Hp. rewrite lookup_insert_ne by lia. apply Hfr. lia.
Qed.

(** The destructor runs every cleanups_registered function exactly once with its arguments: the
    first one cleanups_registered, then the others from the last one back; and it frees every
    node.  Without a registration it runs nothing. *)
Theorem cleanups_run cs fuel :
  (length cs <= fuel)%nat ->
  Iterator_delete fuel (register_all cs Cleanups_make) = Some (match cs with [] => [] | first :: rest => first :: rev rest end, ∅).
Proof.
  intros Hf. destruct cs as [|first rest]; [done|]. cbn [length] in Hf.
  assert (Hr : cleanups_registered first rest (register_all (first :: rest) Cleanups_make)).
  { destruct first as [[f a] b]. cbn [register_all fold_left]. apply (register_more rest (f, a, b) []). exists None. split; [done|]. split; [constructor|]. intros p _. apply lookup_empty. }
  destruct first as [[f a] b]. destruct Hr as (next & Eh & Hc & _). unfold Iterator_delete, Cleanup_IsEmpty. rewrite Eh. cbn [cn_function]. rewrite bool_decide_false by done.
  cbn [Cleanup_Run mbind option_bind cn_function cn_next]. rewrite (run_cleanup_chain _ _ _ Hc) by (rewrite length_rev; lia). done.
Qed.
