(* ===== verification/Options.v ===== *)
(** * Options

    [struct Options] and [struct ReadOptions] of [include/leveldb/options.h].
    The pointers to the environment, the info log and the block cache are not
    part of the record; the components that use them take them as arguments. *)

From S2P Require Import Prelude Comparator Format.

Record Options := mkOptions {
  comparator : Comparator;
  create_if_missing : bool;
  error_if_exists : bool;
  paranoid_checks : bool;
  write_buffer_size : Z;
  max_open_files : Z;
  block_size : Z;
  block_restart_interval : Z;
  max_file_size : Z;
  compression : Z;
  zstd_compression_level : Z;
  reuse_logs : bool;
  filter_policy : option FilterPolicy
}.

(** The default member initialisers and [Options::Options()]. *)
Definition Options_default : Options := {|
  comparator := BytewiseComparator;
  create_if_missing := false;
  error_if_exists := false;
  paranoid_checks := false;
  write_buffer_size := 4 * 1024 * 1024;
  max_open_files := 1000;
  block_size := 4 * 1024;
  block_restart_interval := 16;
  max_file_size := 2 * 1024 * 1024;
  compression := kSnappyCompression;
  zstd_compression_level := 1;
  reuse_logs := false;
  filter_policy := None
|}.

Definition set_block_restart_interval (o : Options) (n : Z) : Options := {|
  comparator := comparator o;
  create_if_missing := create_if_missing o;
  error_if_exists := error_if_exists o;
  paranoid_checks := paranoid_checks o;
  write_buffer_size := write_buffer_size o;
  max_open_files := max_open_files o;
  block_size := block_size o;
  block_restart_interval := n;
  max_file_size := max_file_size o;
  compression := compression o;
  zstd_compression_level := zstd_compression_level o;
  reuse_logs := reuse_logs o;
  filter_policy := filter_policy o
|}.

Record ReadOptions := mkReadOptions {
  verify_checksums : bool;
  fill_cache : bool;
  snapshot : option Z
}.

Definition ReadOptions_default : ReadOptions := mkReadOptions false true None.
