(* ===== verification/BlockBuilder.v ===== *)
(** * The block builder

    [table/block_builder.h] and [table/block_builder.cc]: entries with their
    keys prefix-compressed against the previous key, restart points where the
    full key is stored, and the restart array at the end.  The file also states
    the layout of the bytes of a finished block, which the block iterator is
    verified against. *)

From S2P Require Import Prelude Slice Coding Comparator Format Options Iterator.

(** [options_] points to options owned by the table builder, which may replace
    them; the operations take the current options as an argument. *)
Record BlockBuilder := mkBlockBuilder {
  buffer_ : bytes;
  restarts_ : list Z;
  counter_ : Z;
  finished_ : bool;
  last_key_ : bytes
}.

(** The constructor; [None] is the failed assertion. *)
Definition BlockBuilder_make (options_ : Options) : option BlockBuilder :=
  if 1 <=? block_restart_interval options_
  then Some (mkBlockBuilder [] [0] 0 false []) else None.

Definition BlockBuilder_Reset (b : BlockBuilder) : BlockBuilder :=
  mkBlockBuilder [] [0] 0 false [].

Definition CurrentSizeEstimate (b : BlockBuilder) : Z :=
  blen (buffer_ b) + Z.of_nat (length (restarts_ b)) * 4 + 4.

Definition BlockBuilder_empty (b : BlockBuilder) : bool :=
  match buffer_ b with [] => true | _ => false end.

(** [Finish]: the builder afterwards; the returned slice is its [buffer_]. *)
Definition BlockBuilder_Finish (b : BlockBuilder) : BlockBuilder :=
  let buffer := fold_left PutFixed32 (restarts_ b) (buffer_ b) in
  let buffer := PutFixed32 buffer (u32 (Z.of_nat (length (restarts_ b)))) in
  mkBlockBuilder buffer (restarts_ b) (counter_ b) true (last_key_ b).

(** [Add]; [None] is a failed assertion.  The sharing loop counts the common
    prefix of the two keys. *)
Definition BlockBuilder_Add (options_ : Options) (b : BlockBuilder) (key value : bytes)
  : option BlockBuilder :=
  if finished_ b then None
  else if negb (counter_ b <=? block_restart_interval options_) then None
  else if negb (BlockBuilder_empty b || (0 <? Compare (comparator options_) key (last_key_ b)))
  then None
  else
    let '(shared, restarts, counter) :=
      if counter_ b <? block_restart_interval options_ then
        (Z.of_nat (diff_index (last_key_ b) key), restarts_ b, counter_ b)
      else (0, restarts_ b ++ [u32 (blen (buffer_ b))], 0) in
    let non_shared := blen key - shared in
    let buffer := PutVarint32 (buffer_ b) (u32 shared) in
    let buffer := PutVarint32 buffer (u32 non_shared) in
    let buffer := PutVarint32 buffer (u32 (blen value)) in
    let buffer := buffer ++ zdrop shared key in
    let buffer := buffer ++ value in
    let last_key := ztake shared (last_key_ b) ++ zdrop shared key in
    if slice_eq last_key key
    then Some (mkBlockBuilder buffer restarts (counter + 1) false last_key)
    else None.

(** A whole block: [Add] for each entry, then [Finish]. *)
Fixpoint add_entries (o : Options) (b : BlockBuilder) (es : list entry) : option BlockBuilder :=
  match es with
  | [] => Some b
  | (k, v) :: es => b ← BlockBuilder_Add o b k v; add_entries o b es
  end.

Definition build_block (o : Options) (es : list entry) : option bytes :=
  b ← BlockBuilder_make o;
  b ← add_entries o b es;
  Some (buffer_ (BlockBuilder_Finish b)).

(** ** Layout of a block

    A block is a sequence of chunks, each a stored entry, the offsets of the
    restart points and their number. *)

Record chunk := mkChunk { ch_shared : Z; ch_key : bytes; ch_value : bytes }.

Definition chunk_entry (c : chunk) : entry := (ch_key c, ch_value c).

Definition chunk_header (c : chunk) : bytes :=
  EncodeVarint32 (ch_shared c) ++ EncodeVarint32 (blen (ch_key c) - ch_shared c)
    ++ EncodeVarint32 (blen (ch_value c)).

Definition chunk_bytes (c : chunk) : bytes :=
  chunk_header c ++ zdrop (ch_shared c) (ch_key c) ++ ch_value c.

Definition chunks_bytes (cs : list chunk) : bytes := concat (map chunk_bytes cs).

(** Offset of chunk [i]. *)
Definition chunk_off (cs : list chunk) (i : nat) : Z := blen (chunks_bytes (take i cs)).

(** The key before chunk [i]. *)
Definition prev_key (cs : list chunk) (i : nat) : bytes :=
  match i with
  | O => []
  | S i => match cs !! i with Some c => ch_key c | None => [] end
  end.

(** What the iterator needs to restore chunk [i]: the shared prefix is one of the
    key before, and restart points share nothing. *)
Definition chunk_ok (cs : list chunk) (rs : list nat) (i : nat) (c : chunk) : Prop :=
  0 <= ch_shared c <= blen (ch_key c) /\
  ch_shared c <= blen (prev_key cs i) /\
  ztake (ch_shared c) (prev_key cs i) = ztake (ch_shared c) (ch_key c) /\
  (i ∈ rs -> ch_shared c = 0).

(** [rs] are the indices of the restart points. *)
Record layout_ok (cs : list chunk) (rs : list nat) : Prop := {
  lay_chunks i c : cs !! i = Some c -> chunk_ok cs rs i c;
  lay_first : rs !! 0%nat = Some 0%nat;
  lay_sorted : StronglySorted lt rs;
  lay_bound r : r ∈ rs -> (r < length cs)%nat \/ (r = 0 /\ cs = [])%nat
}.

Definition block_bytes (cs : list chunk) (rs : list nat) : bytes :=
  chunks_bytes cs ++ encode_words (map (chunk_off cs) rs)
    ++ EncodeFixed32 (Z.of_nat (length rs)).

Lemma chunks_bytes_app cs cs' : chunks_bytes (cs ++ cs') = chunks_bytes cs ++ chunks_bytes cs'.
Proof. unfold chunks_bytes. by rewrite map_app, concat_app. Qed.

Lemma EncodeVarint32_pos v : 1 <= blen (EncodeVarint32 v).
Proof.
  unfold EncodeVarint32. repeat (case_match; [unfold blen; cbn [length]; lia|]).
  unfold blen; cbn [length]; lia.
Qed.

Lemma blen_chunk_header c : 3 <= blen (chunk_header c).
Proof.
  unfold chunk_header. rewrite !blen_app.
  pose proof (EncodeVarint32_pos (ch_shared c)).
  pose proof (EncodeVarint32_pos (blen (ch_key c) - ch_shared c)).
  pose proof (EncodeVarint32_pos (blen (ch_value c))). lia.
Qed.

Lemma blen_chunk_bytes c : 3 <= blen (chunk_bytes c).
Proof.
  unfold chunk_bytes. rewrite blen_app. pose proof (blen_chunk_header c).
  pose proof (blen_nonneg (zdrop (ch_shared c) (ch_key c) ++ ch_value c)). lia.
Qed.

Lemma chunk_off_S cs i c :
  cs !! i = Some c -> chunk_off cs (S i) = chunk_off cs i + blen (chunk_bytes c).
Proof.
  intros Hi. unfold chunk_off. rewrite (take_S_r _ _ _ Hi), chunks_bytes_app, blen_app.
  unfold chunks_bytes at 2. cbn. by rewrite app_nil_r.
Qed.

Lemma chunk_off_0 cs : chunk_off cs 0 = 0.
Proof. done. Qed.

Lemma chunk_off_all cs i : (length cs <= i)%nat -> chunk_off cs i = blen (chunks_bytes cs).
Proof. intros H. unfold chunk_off. by rewrite take_ge by lia. Qed.

Lemma chunk_off_app cs cs' i : (i <= length cs)%nat -> chunk_off (cs ++ cs') i = chunk_off cs i.
Proof. intros H. unfold chunk_off. by rewrite take_app_le. Qed.

Lemma chunk_off_mono cs i j :
  (i < j)%nat -> (i < length cs)%nat -> chunk_off cs i + 3 <= chunk_off cs j.
Proof.
  intros Hij Hi. induction Hij as [|j Hij IH].
  - destruct (lookup_lt_is_Some_2 cs i Hi) as [c Hc]. rewrite (chunk_off_S _ _ _ Hc).
    pose proof (blen_chunk_bytes c). lia.
  - destruct (cs !! j) as [c|] eqn:Hc.
    + rewrite (chunk_off_S _ _ _ Hc). pose proof (blen_chunk_bytes c). lia.
    + apply lookup_ge_None in Hc. rewrite (chunk_off_all cs (S j)), <- (chunk_off_all cs j) by lia.
      done.
Qed.

Lemma chunk_off_lt cs i j :
  (i <= length cs)%nat -> (j <= length cs)%nat ->
  chunk_off cs i < chunk_off cs j <-> (i < j)%nat.
Proof.
  intros Hi Hj. split; intros H.
  - destruct (Nat.lt_ge_cases i j); [done|]. destruct (decide (i = j)) as [->|]; [lia|].
    pose proof (chunk_off_mono cs j i). lia.
  - pose proof (chunk_off_mono cs i j). lia.
Qed.

Lemma chunk_off_nonneg cs i : 0 <= chunk_off cs i.
Proof. apply blen_nonneg. Qed.

Lemma chunk_off_le cs i : chunk_off cs i <= blen (chunks_bytes cs).
Proof.
  unfold chunk_off. rewrite <- (take_drop i cs) at 2. rewrite chunks_bytes_app, blen_app.
  pose proof (blen_nonneg (chunks_bytes (drop i cs))). lia.
Qed.

Lemma chunks_count cs : 3 * Z.of_nat (length cs) <= blen (chunks_bytes cs).
Proof.
  induction cs as [|c cs IH]; [done|]. unfold chunks_bytes in *. cbn [map concat length].
  rewrite blen_app. pose proof (blen_chunk_bytes c). lia.
Qed.

(** The bytes from a chunk on. *)
Lemma chunks_split cs i c :
  cs !! i = Some c ->
  chunks_bytes cs = chunks_bytes (take i cs) ++ chunk_bytes c ++ chunks_bytes (drop (S i) cs).
Proof.
  intros Hi. rewrite <- (take_drop_middle _ _ _ Hi) at 1.
  rewrite chunks_bytes_app. unfold chunks_bytes. done.
Qed.

(** ** The builder produces that layout *)

Lemma diff_index_prefix a b :
  (diff_index a b <= length a)%nat /\ (diff_index a b <= length b)%nat /\
  take (diff_index a b) a = take (diff_index a b) b.
Proof.
  revert b. induction a as [|x a IH]; intros [|y b]; cbn; try (split; [lia|]; split; [lia|done]).
  destruct (Z.eqb_spec (b2z x) (b2z y)) as [E|]; cbn; [|split; [lia|]; split; [lia|done]].
  apply b2z_inj in E. destruct (IH b) as (? & ? & ->). subst.
  split; [lia|]. split; [lia|done].
Qed.

(** State of a builder to which the chunks [cs] have been added. *)
Record builds (o : Options) (b : BlockBuilder) (cs : list chunk) (rs : list nat) : Prop := {
  bld_buffer : buffer_ b = chunks_bytes cs;
  bld_restarts : restarts_ b = map (chunk_off cs) rs;
  bld_last : last_key_ b = prev_key cs (length cs);
  bld_open : finished_ b = false;
  bld_layout : layout_ok cs rs;
  bld_counter : 0 <= counter_ b <= block_restart_interval o;
  bld_fresh : cs = [] -> counter_ b = 0
}.

Lemma builds_make o :
  1 <= block_restart_interval o ->
  exists b, BlockBuilder_make o = Some b /\ builds o b [] [0%nat].
Proof.
  intros H. unfold BlockBuilder_make. rewrite (proj2 (Z.leb_le _ _) H). eexists. split; [done|].
  split; try done.
  - split; try done.
    + repeat constructor.
    + intros r ->%list_elem_of_singleton. auto.
  - cbn. lia.
Qed.

Lemma builds_Reset o b : 1 <= block_restart_interval o -> builds o (BlockBuilder_Reset b) [] [0%nat].
Proof.
  intros H. destruct (builds_make o H) as (b' & Hm & Hb). unfold BlockBuilder_make in Hm.
  rewrite (proj2 (Z.leb_le _ _) H) in Hm. by simplify_eq.
Qed.

(** The bytes of a finished block. *)
Lemma builds_Finish o b cs rs :
  builds o b cs rs -> Z.of_nat (length rs) < 2 ^ 32 ->
  buffer_ (BlockBuilder_Finish b) = block_bytes cs rs.
Proof.
  intros Hb Hr. unfold BlockBuilder_Finish. cbn [buffer_].
  rewrite fold_PutFixed32. unfold PutFixed32, block_bytes.
  rewrite (bld_buffer _ _ _ _ Hb), (bld_restarts _ _ _ _ Hb), length_map.
  rewrite u32_small by lia. by rewrite <- !app_assoc.
Qed.

Lemma blen_block_bytes cs rs :
  blen (block_bytes cs rs) = blen (chunks_bytes cs) + 4 * Z.of_nat (length rs) + 4.
Proof.
  unfold block_bytes. rewrite !blen_app, blen_encode_words, length_map, blen_EncodeFixed32. lia.
Qed.

Lemma prev_key_app cs c : prev_key (cs ++ [c]) (length cs) = prev_key cs (length cs).
Proof.
  destruct cs as [|c0 cs]; [done|]. cbn [length prev_key].
  by rewrite lookup_app_l by (cbn; lia).
Qed.

Lemma prev_key_last cs c : prev_key (cs ++ [c]) (length (cs ++ [c])) = ch_key c.
Proof.
  rewrite length_app. cbn. rewrite Nat.add_1_r. cbn [prev_key]. by rewrite list_lookup_middle.
Qed.

Lemma prev_key_mid cs c i : (i <= length cs)%nat -> prev_key (cs ++ [c]) i = prev_key cs i.
Proof. intros Hi. destruct i; [done|]. cbn. by rewrite lookup_app_l by lia. Qed.

(** Appending a chunk keeps a layout; [rs'] is [rs], or [rs] with the new chunk
    as a restart point. *)
Lemma layout_snoc cs rs c (restart : bool) :
  layout_ok cs rs -> (restart = true -> cs <> []) ->
  0 <= ch_shared c <= blen (ch_key c) ->
  ch_shared c <= blen (prev_key cs (length cs)) ->
  ztake (ch_shared c) (prev_key cs (length cs)) = ztake (ch_shared c) (ch_key c) ->
  (restart = true -> ch_shared c = 0) ->
  layout_ok (cs ++ [c]) (if restart then rs ++ [length cs] else rs).
Proof.
  intros [Hcs H0 Hsort Hb] Hne Hsh Hsh' Hpre Hr.
  assert (forall r, r ∈ rs -> (r < length (cs ++ [c]))%nat) as Hlt.
  { intros r Hin. rewrite length_app. cbn. destruct (Hb r Hin); lia. }
  split.
  - intros i c' Hi. rewrite lookup_app in Hi. destruct (cs !! i) as [c0|] eqn:Ei.
    + simplify_eq. destruct (Hcs i c' Ei) as (A1 & A2 & A3 & A4). apply lookup_lt_Some in Ei as Hi.
      unfold chunk_ok. rewrite prev_key_mid by lia. repeat split; try done; try lia.
      destruct restart; [|done]. intros [|]%elem_of_app; [auto|].
      apply list_elem_of_singleton in H. lia.
    + apply lookup_ge_None in Ei. destruct (i - length cs)%nat eqn:E; [|done]. cbn in Hi. simplify_eq.
      assert (i = length cs) as -> by lia.
      unfold chunk_ok. rewrite prev_key_app. repeat split; try done; try lia.
      destruct restart; [by intros _; apply Hr|]. intros Hin.
      destruct (Hb _ Hin) as [|[Hz ->]]; [lia|]. unfold prev_key, blen in Hsh'. cbn in Hsh'. lia.
  - destruct restart; [|done]. by apply lookup_app_l_Some.
  - destruct restart; [|done]. specialize (Hne eq_refl).
    apply StronglySorted_app; repeat split; [|done|repeat constructor].
    intros x y Hx ->%list_elem_of_singleton. destruct (Hb x Hx) as [|[_ ->]]; done.
  - intros r Hin. left. destruct restart; [|auto].
    apply elem_of_app in Hin as [| ->%list_elem_of_singleton]; [auto|].
    rewrite length_app. cbn. lia.
Qed.

Lemma EncodeVarint32_short v : blen (EncodeVarint32 v) <= 5.
Proof.
  unfold EncodeVarint32. repeat (case_match; [unfold blen; cbn [length]; lia|]).
  unfold blen; cbn [length]; lia.
Qed.

(** The chunk [Add] appends. *)
Definition next_chunk (o : Options) (b : BlockBuilder) (k v : bytes) : chunk :=
  mkChunk (if counter_ b <? block_restart_interval o
           then Z.of_nat (diff_index (last_key_ b) k) else 0) k v.

Lemma blen_next_chunk o b k v :
  blen (chunk_bytes (next_chunk o b k v)) <= blen k + blen v + 15.
Proof.
  unfold chunk_bytes, chunk_header. rewrite !blen_app.
  pose proof (EncodeVarint32_short (ch_shared (next_chunk o b k v))).
  pose proof (EncodeVarint32_short (blen (ch_key (next_chunk o b k v)) - ch_shared (next_chunk o b k v))).
  pose proof (EncodeVarint32_short (blen (ch_value (next_chunk o b k v)))).
  assert (blen (zdrop (ch_shared (next_chunk o b k v)) k) <= blen k) as H2.
  { unfold zdrop, blen. rewrite length_drop. lia. }
  cbn [ch_key ch_value next_chunk] in *. lia.
Qed.

(** [Add] of a larger key appends the next chunk. *)
Lemma builds_Add o b cs rs k v :
  builds o b cs rs -> 1 <= block_restart_interval o ->
  (cs <> [] -> 0 < Compare (comparator o) k (prev_key cs (length cs))) ->
  blen (chunks_bytes cs) + blen k + blen v < 2 ^ 32 ->
  exists b' rs', BlockBuilder_Add o b k v = Some b' /\
    builds o b' (cs ++ [next_chunk o b k v]) rs' /\ (length rs' <= S (length rs))%nat.
Proof.
  intros Hb Ho Hcmp Hsz. destruct Hb as [Hbuf Hres Hlast Hopen Hlay Hcnt Hfr].
  pose proof (blen_nonneg (chunks_bytes cs)). pose proof (blen_nonneg k). pose proof (blen_nonneg v).
  destruct (diff_index_prefix (last_key_ b) k) as (D1 & D2 & D3).
  set (c := next_chunk o b k v).
  set (restart := negb (counter_ b <? block_restart_interval o)).
  assert (0 <= ch_shared c <= blen k) as Hsh.
  { subst c. cbn. destruct (_ <? _); unfold blen in *; lia. }
  assert (ch_shared c <= blen (last_key_ b)) as Hsh'.
  { subst c. cbn. unfold blen. destruct (_ <? _); lia. }
  assert (ztake (ch_shared c) (last_key_ b) = ztake (ch_shared c) k) as Hpre.
  { subst c. cbn. destruct (_ <? _); [|done]. unfold ztake. by rewrite Nat2Z.id. }
  exists (mkBlockBuilder (buffer_ b ++ chunk_bytes c)
    (if restart then restarts_ b ++ [u32 (blen (buffer_ b))] else restarts_ b)
    ((if restart then 0 else counter_ b) + 1) false k).
  exists (if restart then rs ++ [length cs] else rs). split; [|split].
  - unfold BlockBuilder_Add. rewrite Hopen, (proj2 (Z.leb_le _ _)) by lia. cbn [negb].
    assert (BlockBuilder_empty b || (0 <? Compare (comparator o) k (last_key_ b)) = true) as ->.
    { destruct cs as [|c0 cs']; [unfold BlockBuilder_empty; by rewrite Hbuf|].
      apply orb_true_iff. right. apply Z.ltb_lt. rewrite Hlast. by apply Hcmp. }
    cbn [negb].
    assert ((if counter_ b <? block_restart_interval o
      then (Z.of_nat (diff_index (last_key_ b) k), restarts_ b, counter_ b)
      else (0, restarts_ b ++ [u32 (blen (buffer_ b))], 0)) =
      (ch_shared c, if restart then restarts_ b ++ [u32 (blen (buffer_ b))] else restarts_ b,
       if restart then 0 else counter_ b)) as ->.
    { subst c restart. cbn. by destruct (_ <? _). }
    cbv beta iota zeta. rewrite Hpre.
    assert (ztake (ch_shared c) k ++ zdrop (ch_shared c) k = k) as -> by apply ztake_zdrop.
    rewrite (proj2 (slice_eq_spec k k) eq_refl). do 2 f_equal.
    rewrite !u32_small by lia. unfold chunk_bytes, chunk_header, PutVarint32. subst c. cbn [ch_key ch_value next_chunk].
    by rewrite <- !app_assoc.
  - rewrite Hlast in *. split; cbn.
    + rewrite Hbuf, chunks_bytes_app. unfold chunks_bytes at 3. cbn. by rewrite app_nil_r.
    + assert (map (chunk_off (cs ++ [c])) rs = map (chunk_off cs) rs) as Hm.
      { apply map_ext_in. intros r Hin%list_elem_of_In. apply chunk_off_app.
        destruct (lay_bound _ _ Hlay r Hin); lia. }
      destruct restart; [|by rewrite Hm]. rewrite map_app, Hm, Hres. cbn. do 2 f_equal.
      rewrite chunk_off_app, chunk_off_all, Hbuf by done. apply u32_small. lia.
    + by rewrite prev_key_last.
    + done.
    + apply layout_snoc; try done.
      * subst restart. intros Hr%negb_true_iff%Z.ltb_ge ->. specialize (Hfr eq_refl). lia.
      * subst restart c. intros Hr%negb_true_iff. cbn. by rewrite Hr.
    + subst restart. destruct (Z.ltb_spec (counter_ b) (block_restart_interval o)); cbn; lia.
    + intros ?%(f_equal length). rewrite length_app in *. cbn in *. lia.
  - destruct restart; rewrite ?length_app; cbn; lia.
Qed.

(** An upper bound on the size of a block: three varints and at most one restart
    point for each entry. *)
Fixpoint entries_size (es : list entry) : Z :=
  match es with
  | [] => 0
  | (k, v) :: es => blen k + blen v + 19 + entries_size es
  end.

Definition block_bound (es : list entry) : Z := entries_size es + 8.

Lemma entries_size_nonneg es : 0 <= entries_size es.
Proof.
  induction es as [|[k v] es IH]; cbn; [done|]. pose proof (blen_nonneg k). pose proof (blen_nonneg v). lia.
Qed.

Lemma entries_size_app es es' : entries_size (es ++ es') = entries_size es + entries_size es'.
Proof. induction es as [|[k v] es IH]; cbn; [done|]. lia. Qed.

(** Keys in strictly increasing order, following the entries already present. *)
Definition follows (o : Options) (cs : list chunk) (es : list entry) : Prop :=
  StronglySorted (entry_lt (Compare (comparator o))) (map chunk_entry cs ++ es).

Lemma prev_key_entry cs i e :
  map chunk_entry cs !! i = Some e -> prev_key cs (S i) = fst e.
Proof.
  rewrite list_lookup_fmap. cbn. destruct (cs !! i) as [c|]; cbn; [|done]. intros ?. by simplify_eq.
Qed.

Section Build.

Context (o : Options) {L : ComparatorLaws (comparator o)} (Ho : 1 <= block_restart_interval o).

Lemma follows_cmp cs k v es :
  follows o cs ((k, v) :: es) -> cs <> [] ->
  0 < Compare (comparator o) k (prev_key cs (length cs)).
Proof.
  intros Hf Hne. destruct (length cs) as [|n] eqn:En; [by destruct cs|].
  destruct (lookup_lt_is_Some_2 (map chunk_entry cs) n) as [e He]; [rewrite length_fmap; lia|].
  rewrite (prev_key_entry _ _ _ He). apply cmp_opp.
  apply (sorted_lookup_lt _ _ n (S n) e (k, v) Hf); [by apply lookup_app_l_Some| |lia].
  rewrite lookup_app_r; rewrite length_fmap, En; [|lia]. by rewrite Nat.sub_diag.
Qed.

Lemma builds_add_entries es b cs rs :
  builds o b cs rs -> follows o cs es ->
  blen (chunks_bytes cs) + 4 * Z.of_nat (length rs) + entries_size es + 4 < 2 ^ 32 ->
  exists b' cs' rs', add_entries o b es = Some b' /\ builds o b' (cs ++ cs') rs' /\
    map chunk_entry cs' = es /\
    blen (chunks_bytes (cs ++ cs')) + 4 * Z.of_nat (length rs') <=
      blen (chunks_bytes cs) + 4 * Z.of_nat (length rs) + entries_size es.
Proof.
  revert b cs rs. induction es as [|[k v] es IH]; intros b cs rs Hb Hf Hsz.
  { exists b, [], rs. rewrite app_nil_r. split; [done|]. split; [done|]. split; [done|]. cbn. lia. }
  cbn [add_entries entries_size] in *.
  pose proof (entries_size_nonneg es). pose proof (blen_nonneg (chunks_bytes cs)).
  destruct (builds_Add o b cs rs k v Hb Ho) as (b1 & rs1 & Hadd & Hb1 & Hr1).
  { by apply (follows_cmp cs k v es). }
  { lia. }
  rewrite Hadd. cbn [mbind option_bind].
  pose proof (blen_next_chunk o b k v) as Hc. set (c := next_chunk o b k v) in *.
  assert (blen (chunks_bytes (cs ++ [c])) = blen (chunks_bytes cs) + blen (chunk_bytes c)) as Hcs.
  { rewrite chunks_bytes_app, blen_app. unfold chunks_bytes at 2. cbn. by rewrite app_nil_r. }
  destruct (IH b1 (cs ++ [c]) rs1 Hb1) as (b' & cs' & rs' & He & Hb' & Hm & Hs').
  { unfold follows. rewrite map_app, <- app_assoc. exact Hf. }
  { lia. }
  exists b', (c :: cs'), rs'. rewrite cons_middle, app_assoc. split; [done|]. split; [done|].
  split; [by cbn; rewrite Hm|lia].
Qed.

(** What the builder writes for a sorted list of entries. *)
Lemma build_block_layout es :
  StronglySorted (entry_lt (Compare (comparator o))) es -> block_bound es < 2 ^ 32 ->
  exists cs rs, build_block o es = Some (block_bytes cs rs) /\ layout_ok cs rs /\
    map chunk_entry cs = es /\ blen (block_bytes cs rs) < 2 ^ 32.
Proof.
  intros Hs Hsz. unfold block_bound in Hsz. destruct (builds_make o Ho) as (b & Hm & Hb).
  destruct (builds_add_entries es b [] [0%nat] Hb Hs) as (b' & cs & rs & He & Hb' & Hes & Hlen).
  { cbn [length]. change (blen (chunks_bytes [])) with 0. lia. }
  cbn [app] in *. change (blen (chunks_bytes [])) with 0 in Hlen. cbn [length] in Hlen.
  pose proof (blen_block_bytes cs rs) as Hbl.
  exists cs, rs. split; [|split; [apply Hb'|split; [done|lia]]].
  unfold build_block. rewrite Hm. cbn [mbind option_bind]. rewrite He. cbn [mbind option_bind].
  f_equal. apply (builds_Finish o); [done|]. pose proof (blen_nonneg (chunks_bytes cs)). lia.
Qed.

End Build.
