(* ===== verification/Block.v ===== *)
(** * Blocks and their iterator

    [table/block.h] and [table/block.cc]: [Block] over the bytes of a block, and
    [Block::Iter] with its linear decoding, restart points and binary search.
    Pointers into the block are offsets into [data_]; an operation is [None]
    where the source's assertion fails, a pointer leaves the block or the fuel
    of a loop is exhausted.  The loops that decode entries advance by at least
    three bytes a turn, so the fuel they get is the size of the block. *)

From S2P Require Import Prelude Slice Coding Status Comparator Format Iterator Options BlockBuilder.

(** ** [class Block] *)

(** [restart_offset_] is not initialised when [size_] is 0, the error marker. *)
Record Block := mkBlock {
  data_ : bytes;
  size_ : Z;
  restart_offset_ : Z
}.

(** [Block::NumRestarts] *)
Definition NumRestarts (data : bytes) (size : Z) : Z := DecodeFixed32 (zdrop (size - 4) data).

(** The constructor. *)
Definition Block_make (contents : BlockContents) : Block :=
  let data := contents_data contents in
  let size := blen data in
  if size <? 4 then mkBlock data 0 0
  else
    let max_restarts_allowed := (size - 4) / 4 in
    if max_restarts_allowed <? NumRestarts data size then mkBlock data 0 0
    else mkBlock data size (u32 (size - u32 (1 + NumRestarts data size) * 4)).

(** The three lengths at the start of an entry, with the fast path for lengths of
    one byte each; the bytes after them. *)
Definition DecodeLengths (s : bytes) : option (Z * Z * Z * bytes) :=
  let b0 := b2z (byte_at s 0) in
  let b1 := b2z (byte_at s 1) in
  let b2 := b2z (byte_at s 2) in
  if Z.lor (Z.lor b0 b1) b2 <? 128 then Some (b0, b1, b2, zdrop 3 s)
  else
    '(shared, s) ← GetVarint32Ptr s;
    '(non_shared, s) ← GetVarint32Ptr s;
    '(value_length, s) ← GetVarint32Ptr s;
    Some (shared, non_shared, value_length, s).

(** [DecodeEntry(data_ + p, data_ + limit)]: the offset past the three lengths,
    and the lengths. *)
Definition DecodeEntry (data : bytes) (p limit : Z) : option (Z * Z * Z * Z) :=
  if limit - p <? 3 then None
  else
    '(shared, non_shared, value_length, rest) ← DecodeLengths (zdrop p (ztake limit data));
    if u32 (blen rest) <? u32 (non_shared + value_length) then None
    else Some (limit - blen rest, shared, non_shared, value_length).

(** ** [class Block::Iter]

    [value_] is a slice of the block, as offset and size, or the empty slice
    that points nowhere. *)
Record Iter := mkIter {
  comparator_ : Comparator;
  iter_data_ : bytes;
  restarts_off_ : Z;
  num_restarts_ : Z;
  current_ : Z;
  restart_index_ : Z;
  key_ : bytes;
  value_ : option (Z * Z);
  status_ : Status
}.

Definition set_position (it : Iter) (current restart_index : Z) (key : bytes)
    (value : option (Z * Z)) (status : Status) : Iter :=
  mkIter (comparator_ it) (iter_data_ it) (restarts_off_ it) (num_restarts_ it)
    current restart_index key value status.

(** The constructor of [Iter]. *)
Definition Iter_make (c : Comparator) (data : bytes) (restarts num_restarts : Z) : option Iter :=
  if 0 <? num_restarts
  then Some (mkIter c data restarts num_restarts restarts num_restarts [] None OK) else None.

Definition Iter_Valid (it : Iter) : bool := current_ it <? restarts_off_ it.

(** The bytes [value_] refers to. *)
Definition Iter_value (it : Iter) : bytes :=
  match value_ it with
  | Some (off, len) => ztake len (zdrop off (iter_data_ it))
  | None => []
  end.

Definition NextEntryOffset (it : Iter) : option Z :=
  '(off, len) ← value_ it; Some (u32 (off + len)).

Definition GetRestartPoint (it : Iter) (index : Z) : option Z :=
  if index <? num_restarts_ it
  then Some (DecodeFixed32 (zdrop (restarts_off_ it + index * 4) (iter_data_ it))) else None.

Definition SeekToRestartPoint (it : Iter) (index : Z) : option Iter :=
  offset ← GetRestartPoint it index;
  Some (set_position it (current_ it) index [] (Some (offset, 0)) (status_ it)).

Definition CorruptionError (it : Iter) : Iter :=
  set_position it (restarts_off_ it) (num_restarts_ it) [] None
    (Corruption (str "bad entry in block") []).

(** Bytes [p, p + n) of the block, when they are in it. *)
Definition read_range (data : bytes) (p n : Z) : option bytes :=
  if p + n <=? blen data then Some (ztake n (zdrop p data)) else None.

(** The loop that moves [restart_index_] up to the block of [current]. *)
Fixpoint advance_restart (it : Iter) (current : Z) (fuel : nat) (index : Z) : option Z :=
  match fuel with
  | O => None
  | S fuel =>
      if index + 1 <? num_restarts_ it then
        r ← GetRestartPoint it (index + 1);
        if r <? current then advance_restart it current fuel (index + 1) else Some index
      else Some index
  end.

Definition ParseNextKey (it : Iter) : option (bool * Iter) :=
  current ← NextEntryOffset it;
  if restarts_off_ it <=? current
  then Some (false, set_position it (restarts_off_ it) (num_restarts_ it) (key_ it) (value_ it) (status_ it))
  else
    match DecodeEntry (iter_data_ it) current (restarts_off_ it) with
    | None => Some (false, CorruptionError it)
    | Some (p, shared, non_shared, value_length) =>
        if blen (key_ it) <? shared then Some (false, CorruptionError it)
        else
          delta ← read_range (iter_data_ it) p non_shared;
          let key := ztake shared (key_ it) ++ delta in
          index ← advance_restart it current (Z.to_nat (num_restarts_ it)) (restart_index_ it);
          Some (true, set_position it current index key
                        (Some (p + non_shared, value_length)) (status_ it))
    end.

Definition Iter_Next (it : Iter) : option Iter :=
  if Iter_Valid it then snd <$> ParseNextKey it else None.

(** The loop [while (ParseNextKey() && NextEntryOffset() < bound)]. *)
Fixpoint parse_until (bound : Z) (fuel : nat) (it : Iter) : option Iter :=
  match fuel with
  | O => None
  | S fuel =>
      '(more, it) ← ParseNextKey it;
      if more : bool then
        next ← NextEntryOffset it;
        if next <? bound then parse_until bound fuel it else Some it
      else Some it
  end.

(** The first loop of [Prev]: [None] of the inner option is the return for lack
    of earlier entries. *)
Fixpoint prev_restart (it : Iter) (original : Z) (index : nat) : option (option Z) :=
  r ← GetRestartPoint it (Z.of_nat index);
  if original <=? r then
    match index with
    | O => Some None
    | S index => prev_restart it original index
    end
  else Some (Some (Z.of_nat index)).

Definition Iter_Prev (it : Iter) : option Iter :=
  if Iter_Valid it then
    let original := current_ it in
    found ← prev_restart it original (Z.to_nat (restart_index_ it));
    match found with
    | None => Some (set_position it (restarts_off_ it) (num_restarts_ it) (key_ it) (value_ it) (status_ it))
    | Some index =>
        it ← SeekToRestartPoint it index;
        parse_until original (S (length (iter_data_ it))) it
    end
  else None.

(** The binary search of [Seek] in the restart array: [inr lft], or [inl tt]
    after [CorruptionError]. *)
Fixpoint seek_restart (it : Iter) (target : bytes) (fuel : nat) (lft rgt : Z)
  : option (unit + Z) :=
  match fuel with
  | O => None
  | S fuel =>
      if lft <? rgt then
        let mid := u32 (lft + rgt + 1) / 2 in
        region_offset ← GetRestartPoint it mid;
        match DecodeEntry (iter_data_ it) region_offset (restarts_off_ it) with
        | None => Some (inl tt)
        | Some (key_ptr, shared, non_shared, value_length) =>
            if negb (shared =? 0) then Some (inl tt)
            else
              mid_key ← read_range (iter_data_ it) key_ptr non_shared;
              if Compare (comparator_ it) mid_key target <? 0
              then seek_restart it target fuel mid rgt
              else seek_restart it target fuel lft (u32 (mid - 1))
        end
      else Some (inr lft)
  end.

(** The linear search of [Seek]. *)
Fixpoint seek_linear (target : bytes) (fuel : nat) (it : Iter) : option Iter :=
  match fuel with
  | O => None
  | S fuel =>
      '(more, it) ← ParseNextKey it;
      if more : bool then
        if 0 <=? Compare (comparator_ it) (key_ it) target then Some it
        else seek_linear target fuel it
      else Some it
  end.

Definition Iter_Seek (it : Iter) (target : bytes) : option Iter :=
  let current_key_compare :=
    if Iter_Valid it then Compare (comparator_ it) (key_ it) target else 0 in
  if Iter_Valid it && (current_key_compare =? 0) then Some it
  else
    let lft := if current_key_compare <? 0 then restart_index_ it else 0 in
    let rgt := if 0 <? current_key_compare then restart_index_ it
                 else u32 (num_restarts_ it - 1) in
    found ← seek_restart it target (S (Z.to_nat (num_restarts_ it))) lft rgt;
    match found with
    | inl _ => Some (CorruptionError it)
    | inr lft =>
        let skip_seek := (lft =? restart_index_ it) && (current_key_compare <? 0) in
        it ← (if skip_seek then Some it else SeekToRestartPoint it lft);
        seek_linear target (S (length (iter_data_ it))) it
    end.

Definition Iter_SeekToFirst (it : Iter) : option Iter :=
  it ← SeekToRestartPoint it 0; snd <$> ParseNextKey it.

Definition Iter_SeekToLast (it : Iter) : option Iter :=
  it ← SeekToRestartPoint it (u32 (num_restarts_ it - 1));
  parse_until (restarts_off_ it) (S (length (iter_data_ it))) it.

#[export] Instance Iter_ops : Iterator Iter := {
  it_Valid := Iter_Valid;
  it_key := key_;
  it_value := Iter_value;
  it_status := status_;
  it_SeekToFirst := Iter_SeekToFirst;
  it_SeekToLast := Iter_SeekToLast;
  it_Seek := Iter_Seek;
  it_Next := Iter_Next;
  it_Prev := Iter_Prev
}.

(** [Block::NewIterator] *)
Definition Block_NewIterator (b : Block) (c : Comparator) : option (EmptyIterator + Iter) :=
  if size_ b <? 4 then Some (inl (NewErrorIterator (Corruption (str "bad block contents") [])))
  else
    let num_restarts := NumRestarts (data_ b) (size_ b) in
    if num_restarts =? 0 then Some (inl NewEmptyIterator)
    else inr <$> Iter_make c (data_ b) (restart_offset_ b) num_restarts.

(** ** Decoding a stored entry *)

Lemma lor_128 a b : 0 <= a -> 0 <= b -> (Z.lor a b <? 128) = (a <? 128) && (b <? 128).
Proof.
  intros Ha Hb. apply eq_bool_prop_intro. rewrite andb_True, !Is_true_true, !Z.ltb_lt.
  change 128 with (2 ^ 7). split.
  - intros H. assert (forall x, 0 <= x -> (forall i, 7 <= i -> Z.testbit x i = true ->
      Z.testbit (Z.lor a b) i = true) -> x < 2 ^ 7) as Hx.
    { intros x Hx Hi. apply bits_bound; [lia|lia|]. intros i Hi7.
      destruct (Z.testbit x i) eqn:E; [|done]. pose proof (Hi i Hi7 E) as Ht.
      rewrite (testbit_small _ 7) in Ht; [done| |lia]. split; [|done]. by apply Z.lor_nonneg. }
    split; apply Hx; try done; intros i Hi E; rewrite Z.lor_spec, E; by rewrite ?orb_true_r.
  - intros [H1 H2]. apply lor_bound; lia.
Qed.

Lemma EncodeVarint32_byte v : 0 <= v < 2 ^ 32 ->
  exists b rest, EncodeVarint32 v = b :: rest /\
    (if b2z b <? 128 then rest = [] /\ b2z b = v else True).
Proof.
  intros Hv. unfold EncodeVarint32. change (Z.shiftl 1 7) with 128.
  destruct (Z.ltb_spec v 128).
  { exists (z2b v), []. rewrite b2z_z2b_small by lia. split; [done|].
    by destruct (v <? 128). }
  repeat case_match; (eexists _, _; split; [reflexivity|]);
    rewrite z2b_lor_B; (destruct (Z.ltb_spec (v mod 128 + 128) 128); [pose proof (Z.mod_pos_bound v 128); lia|done]).
Qed.

(** The three length fields, whether or not the fast path applies. *)
Lemma decode_lengths a b c rest :
  0 <= a < 2 ^ 32 -> 0 <= b < 2 ^ 32 -> 0 <= c < 2 ^ 32 ->
  DecodeLengths (EncodeVarint32 a ++ EncodeVarint32 b ++ EncodeVarint32 c ++ rest) =
  Some (a, b, c, rest).
Proof.
  intros Ha Hb Hc. unfold DecodeLengths.
  set (s := EncodeVarint32 a ++ _). set (b0 := b2z (byte_at s 0)).
  set (b1 := b2z (byte_at s 1)). set (b2 := b2z (byte_at s 2)). cbv zeta.
  destruct (Z.lor (Z.lor b0 b1) b2 <? 128) eqn:E.
  - rewrite !lor_128 in E by (try apply Z.lor_nonneg; subst b0 b1 b2; repeat split; apply b2z_range).
    rewrite !andb_true_iff in E. destruct E as [[E0 E1] E2].
    destruct (EncodeVarint32_byte a Ha) as (x & ra & Ea & Xa).
    destruct (EncodeVarint32_byte b Hb) as (y & rb & Eb & Xb).
    destruct (EncodeVarint32_byte c Hc) as (z & rc & Ec & Xc).
    subst b0 b1 b2 s. rewrite Ea, Eb, Ec in *. change (byte_at (_ ++ _) 0) with x in *.
    rewrite E0 in Xa. destruct Xa as [-> <-]. change (byte_at (_ ++ _) 1) with y in *.
    rewrite E1 in Xb. destruct Xb as [-> <-]. change (byte_at (_ ++ _) 2) with z in *.
    rewrite E2 in Xc. destruct Xc as [-> <-]. done.
  - subst s. fold GetVarint32. change GetVarint32Ptr with GetVarint32.
    rewrite GetVarint32_Encode by done. cbn [mbind option_bind].
    rewrite GetVarint32_Encode by done. cbn [mbind option_bind].
    by rewrite GetVarint32_Encode by done.
Qed.

(** ** The iterator over a laid-out block *)

Section Correct.

Context (c : Comparator) {L : ComparatorLaws c}.
Context (cs : list chunk) (rs : list nat) (Hlay : layout_ok cs rs).
Context (Hsize : blen (block_bytes cs rs) < 2 ^ 32).

Definition block_data : bytes := block_bytes cs rs.
Definition limit : Z := blen (chunks_bytes cs).
Definition num : nat := length rs.

(** Index of the chunk at restart point [j]. *)
Definition restart_chunk (j : nat) : nat := nth j rs 0%nat.

Lemma blen_data : blen block_data = limit + 4 * Z.of_nat num + 4.
Proof.
  unfold block_data, block_bytes, limit, num.
  rewrite !blen_app, blen_encode_words, length_map, blen_EncodeFixed32. lia.
Qed.

Lemma limit_range : 0 <= limit /\ limit + 4 * Z.of_nat num + 4 < 2 ^ 32.
Proof. pose proof blen_data as H. unfold block_data in H. unfold limit in *. pose proof (blen_nonneg (chunks_bytes cs)). lia. Qed.

Lemma num_pos : (0 < num)%nat.
Proof. unfold num. pose proof (lay_first _ _ Hlay) as H. apply lookup_lt_Some in H. done. Qed.

Lemma ztake_limit : ztake limit block_data = chunks_bytes cs.
Proof. unfold block_data, block_bytes, limit. by apply ztake_app. Qed.

(** The bytes of chunk [i], up to the end of the entries. *)
Lemma chunk_slice i ch :
  cs !! i = Some ch ->
  zdrop (chunk_off cs i) (chunks_bytes cs) = chunk_bytes ch ++ chunks_bytes (drop (S i) cs).
Proof. intros Hi. rewrite (chunks_split _ _ _ Hi). by apply zdrop_app. Qed.

Lemma chunk_fits i ch :
  cs !! i = Some ch ->
  0 <= ch_shared ch <= blen (ch_key ch) /\
  chunk_off cs (S i) = chunk_off cs i + blen (chunk_header ch) + (blen (ch_key ch) - ch_shared ch)
                       + blen (ch_value ch) /\
  chunk_off cs (S i) <= limit.
Proof.
  intros Hi. destruct (lay_chunks _ _ Hlay _ _ Hi) as (Hs & _). split; [done|].
  split; [|apply chunk_off_le]. rewrite (chunk_off_S _ _ _ Hi). unfold chunk_bytes.
  rewrite !blen_app, blen_zdrop by lia. lia.
Qed.

(** A key is no longer than the entries up to it. *)
Lemma chunk_key_bound i ch : cs !! i = Some ch -> blen (ch_key ch) <= chunk_off cs (S i).
Proof.
  revert ch. induction i as [|i IH]; intros ch Hi; destruct (chunk_fits _ _ Hi) as (Hs & Ho & Hl);
    pose proof (blen_nonneg (ch_value ch)); pose proof (blen_chunk_header ch);
    destruct (lay_chunks _ _ Hlay _ _ Hi) as (_ & Hp & _).
  - cbn in Hp. rewrite blen_nil in Hp. rewrite chunk_off_0 in Ho. lia.
  - destruct (lookup_lt_is_Some_2 cs i) as [ch' Hc']; [apply lookup_lt_Some in Hi; lia|].
    cbn in Hp. rewrite Hc' in Hp. specialize (IH _ Hc'). lia.
Qed.

Lemma DecodeEntry_chunk i ch :
  cs !! i = Some ch ->
  DecodeEntry block_data (chunk_off cs i) limit =
  Some (chunk_off cs i + blen (chunk_header ch), ch_shared ch,
        blen (ch_key ch) - ch_shared ch, blen (ch_value ch)).
Proof.
  intros Hi. destruct (chunk_fits _ _ Hi) as (Hs & Ho & Hl). pose proof (chunk_key_bound _ _ Hi).
  pose proof limit_range. pose proof (chunk_off_nonneg cs i). pose proof (blen_chunk_header ch).
  pose proof (blen_nonneg (ch_value ch)).
  unfold DecodeEntry. destruct (Z.ltb_spec (limit - chunk_off cs i) 3); [lia|].
  rewrite ztake_limit, (chunk_slice _ _ Hi). unfold chunk_bytes, chunk_header at 1.
  rewrite <- !app_assoc. rewrite decode_lengths by lia. cbn [mbind option_bind].
  set (rest := zdrop (ch_shared ch) (ch_key ch) ++ ch_value ch ++ chunks_bytes (drop (S i) cs)).
  assert (blen rest = limit - chunk_off cs i - blen (chunk_header ch)) as Hr.
  { pose proof (f_equal blen (chunk_slice _ _ Hi)) as E. unfold chunk_bytes in E.
    rewrite <- !app_assoc, blen_app in E. fold rest in E. rewrite blen_zdrop in E; [|fold limit; lia].
    fold limit in E. lia. }
  rewrite Hr, !u32_small by lia.
  destruct (Z.ltb_spec (limit - chunk_off cs i - blen (chunk_header ch))
    (blen (ch_key ch) - ch_shared ch + blen (ch_value ch))); [lia|].
  do 4 f_equal. lia.
Qed.

(** Reading the two strings of a chunk. *)
Lemma chunk_strings i ch :
  cs !! i = Some ch ->
  let p := chunk_off cs i + blen (chunk_header ch) in
  let n := blen (ch_key ch) - ch_shared ch in
  read_range block_data p n = Some (zdrop (ch_shared ch) (ch_key ch)) /\
  ztake (blen (ch_value ch)) (zdrop (p + n) block_data) = ch_value ch.
Proof.
  intros Hi p n. destruct (chunk_fits _ _ Hi) as (Hs & Ho & Hl). pose proof limit_range.
  pose proof (blen_nonneg (ch_value ch)). pose proof blen_data.
  assert (exists tl, zdrop p block_data = zdrop (ch_shared ch) (ch_key ch) ++ ch_value ch ++ tl) as [tl Htl].
  { unfold block_data, block_bytes. rewrite (chunks_split _ _ _ Hi). unfold chunk_bytes at 1.
    rewrite <- !app_assoc. rewrite app_assoc. rewrite zdrop_app; [|by rewrite blen_app].
    rewrite <- ?app_assoc. eauto. }
  assert (blen (zdrop (ch_shared ch) (ch_key ch)) = n) as Hn by (rewrite blen_zdrop; lia).
  assert (0 <= p) by (subst p; pose proof (chunk_off_nonneg cs i); pose proof (blen_chunk_header ch); lia).
  split.
  - unfold read_range. destruct (Z.leb_spec (p + n) (blen block_data)); [|lia].
    by rewrite Htl, ztake_app by lia.
  - rewrite <- zdrop_zdrop by lia. rewrite Htl, zdrop_app by lia. by apply ztake_app.
Qed.

(** *** Restart points *)

Lemma restart_chunk_in j : (j < num)%nat -> restart_chunk j ∈ rs.
Proof. intros Hj. apply list_elem_of_In, nth_In. exact Hj. Qed.

Lemma restart_chunk_le j : (j < num)%nat -> (restart_chunk j <= length cs)%nat.
Proof. intros Hj. destruct (lay_bound _ _ Hlay _ (restart_chunk_in j Hj)); lia. Qed.

Lemma restart_chunk_0 : restart_chunk 0 = 0%nat.
Proof. unfold restart_chunk. apply nth_lookup_Some. exact (lay_first _ _ Hlay). Qed.

Lemma restart_chunk_lt j j' :
  (j < j')%nat -> (j' < num)%nat -> (restart_chunk j < restart_chunk j')%nat.
Proof.
  intros Hj Hj'. unfold restart_chunk, num in *.
  destruct (lookup_lt_is_Some_2 rs j) as [a Ha]; [lia|].
  destruct (lookup_lt_is_Some_2 rs j') as [b Hb]; [lia|].
  rewrite (nth_lookup_Some _ _ _ _ Ha), (nth_lookup_Some _ _ _ _ Hb).
  by apply (StronglySorted_lookup _ _ _ _ _ _ (lay_sorted _ _ Hlay) Ha Hb).
Qed.

(** The iterator belongs to this block and has seen no error. *)
Record over (it : Iter) : Prop := {
  ov_comparator : comparator_ it = c;
  ov_data : iter_data_ it = block_data;
  ov_limit : restarts_off_ it = limit;
  ov_num : num_restarts_ it = Z.of_nat num;
  ov_status : status_ it = OK
}.

Lemma over_set it cur ri k v : over it -> over (set_position it cur ri k v (status_ it)).
Proof. by intros []. Qed.

Lemma GetRestartPoint_at it j :
  over it -> (j < num)%nat ->
  GetRestartPoint it (Z.of_nat j) = Some (chunk_off cs (restart_chunk j)).
Proof.
  intros [_ Hd Hl Hn _] Hj. unfold GetRestartPoint. rewrite Hn, Hl, Hd.
  destruct (Z.ltb_spec (Z.of_nat j) (Z.of_nat num)); [|lia]. f_equal.
  unfold block_data, block_bytes. rewrite <- zdrop_zdrop by (pose proof limit_range; lia).
  rewrite zdrop_app by done.
  rewrite (DecodeFixed32_words _ j (chunk_off cs (restart_chunk j))).
  - apply u32_small. pose proof (chunk_off_nonneg cs (restart_chunk j)).
    pose proof (chunk_off_le cs (restart_chunk j)). fold limit in *. pose proof limit_range. lia.
  - change (map (chunk_off cs) rs) with (chunk_off cs <$> rs). rewrite list_lookup_fmap.
    destruct (lookup_lt_is_Some_2 rs j Hj) as [r Hr]. rewrite Hr. cbn. f_equal. f_equal.
    symmetry. by apply nth_lookup_Some.
Qed.

(** *** Positions *)

(** [restart_index_] is a restart point at or before chunk [i], and the next one is
    not before it. *)
Definition index_for (i : nat) (index : Z) : Prop :=
  exists j, index = Z.of_nat j /\ (j < num)%nat /\ (restart_chunk j <= i)%nat /\
    ((S j < num)%nat -> (i <= restart_chunk (S j))%nat).

Definition at_pos (it : Iter) (p : option nat) : Prop :=
  over it /\
  match p with
  | None => current_ it = limit /\ restart_index_ it = Z.of_nat num
  | Some i => exists ch, cs !! i = Some ch /\ current_ it = chunk_off cs i /\ key_ it = ch_key ch /\
      value_ it = Some (chunk_off cs (S i) - blen (ch_value ch), blen (ch_value ch)) /\
      index_for i (restart_index_ it)
  end.

(** The iterator is about to decode chunk [i]. *)
Definition ready (it : Iter) (i : nat) : Prop :=
  over it /\ (i <= length cs)%nat /\ NextEntryOffset it = Some (chunk_off cs i) /\
  (exists j, restart_index_ it = Z.of_nat j /\ (j < num)%nat /\ (restart_chunk j <= i)%nat) /\
  forall ch, cs !! i = Some ch ->
    ch_shared ch <= blen (key_ it) /\
    ztake (ch_shared ch) (key_ it) = ztake (ch_shared ch) (ch_key ch).

Lemma advance_restart_spec it i fuel j :
  over it -> (i <= length cs)%nat -> (j < num)%nat -> (restart_chunk j <= i)%nat ->
  (num - j <= fuel)%nat ->
  exists index, advance_restart it (chunk_off cs i) fuel (Z.of_nat j) = Some index /\ index_for i index.
Proof.
  intros Hov Hi. revert j. induction fuel as [|fuel IH]; intros j Hj Hr Hf; [lia|].
  cbn [advance_restart]. rewrite (ov_num _ Hov).
  destruct (Z.ltb_spec (Z.of_nat j + 1) (Z.of_nat num)).
  - replace (Z.of_nat j + 1) with (Z.of_nat (S j)) by lia.
    rewrite (GetRestartPoint_at _ (S j) Hov) by lia. cbn [mbind option_bind].
    pose proof (restart_chunk_le (S j) ltac:(lia)) as Hle.
    destruct (Z.ltb_spec (chunk_off cs (restart_chunk (S j))) (chunk_off cs i)) as [Hlt|Hge].
    + apply chunk_off_lt in Hlt; [|done..]. apply IH; lia.
    + exists (Z.of_nat j). split; [done|]. exists j. repeat split; try done. intros _.
      destruct (Nat.le_gt_cases i (restart_chunk (S j))) as [|Hgt]; [done|].
      apply (chunk_off_lt cs) in Hgt; [lia|done..].
  - exists (Z.of_nat j). split; [done|]. exists j. repeat split; try done. lia.
Qed.

Lemma ParseNextKey_spec it i :
  ready it i ->
  exists it', ParseNextKey it = Some (bool_decide (i < length cs)%nat, it') /\
    at_pos it' (clip (map chunk_entry cs) i).
Proof.
  intros (Hov & Hi & Hnext & (j & Hj & Hjn & Hjr) & Hkey). unfold ParseNextKey. rewrite Hnext.
  cbn [mbind option_bind]. rewrite (ov_limit _ Hov). unfold clip. rewrite length_map.
  destruct (decide (i < length cs)%nat) as [Hlt|Hge].
  - rewrite bool_decide_true by done. destruct (lookup_lt_is_Some_2 cs i Hlt) as [ch Hch].
    destruct (chunk_fits _ _ Hch) as (Hs & Ho & Hle). pose proof (blen_chunk_header ch).
    pose proof (blen_nonneg (ch_value ch)).
    destruct (Z.leb_spec limit (chunk_off cs i)); [lia|].
    rewrite (ov_data _ Hov), (DecodeEntry_chunk _ _ Hch). destruct (Hkey _ Hch) as [Hsh Hpre].
    destruct (Z.ltb_spec (blen (key_ it)) (ch_shared ch)); [lia|].
    destruct (chunk_strings _ _ Hch) as [Hd Hv]. rewrite Hd. cbn [mbind option_bind].
    rewrite (ov_num _ Hov), Nat2Z.id, Hj, Hpre, ztake_zdrop.
    destruct (advance_restart_spec it i num j Hov) as (index & Hadv & Hidx); [lia..|].
    rewrite Hadv. cbn [mbind option_bind]. eexists. split; [done|]. split; [by apply over_set|].
    exists ch. cbn. repeat split; try done. f_equal. f_equal. lia.
  - rewrite bool_decide_false by done. assert (i = length cs) as -> by lia.
    rewrite chunk_off_all by done. fold limit. rewrite Z.leb_refl.
    eexists. split; [done|]. split; [by apply over_set|]. cbn. rewrite (ov_num _ Hov). done.
Qed.

Lemma at_ready it i : at_pos it (Some i) -> ready it (S i).
Proof.
  intros [Hov (ch & Hch & Hcur & Hk & Hv & (j & Hj & Hjn & Hjr & _))].
  apply lookup_lt_Some in Hch as Hlt. destruct (chunk_fits _ _ Hch) as (Hs & Ho & Hle).
  split; [done|]. split; [lia|]. split.
  { unfold NextEntryOffset. rewrite Hv. cbn. f_equal. rewrite Z.sub_add. apply u32_small.
    pose proof (chunk_off_nonneg cs (S i)). pose proof limit_range. lia. }
  split; [exists j; repeat split; [done|done|lia]|].
  intros ch' Hch'. destruct (lay_chunks _ _ Hlay _ _ Hch') as (_ & Hp & Hz & _).
  cbn in Hp, Hz. rewrite Hch in Hp, Hz. by rewrite Hk.
Qed.

Lemma SeekToRestartPoint_spec it j :
  over it -> (j < num)%nat ->
  exists it', SeekToRestartPoint it (Z.of_nat j) = Some it' /\ ready it' (restart_chunk j).
Proof.
  intros Hov Hj. unfold SeekToRestartPoint. rewrite (GetRestartPoint_at _ _ Hov Hj). cbn [mbind option_bind].
  eexists. split; [done|]. split; [by apply over_set|]. split; [by apply restart_chunk_le|]. split.
  { unfold NextEntryOffset. cbn. f_equal. rewrite Z.add_0_r. apply u32_small.
    pose proof (chunk_off_nonneg cs (restart_chunk j)). pose proof (chunk_off_le cs (restart_chunk j)).
    fold limit in *. pose proof limit_range. lia. }
  split; [by exists j|]. intros ch Hch. destruct (lay_chunks _ _ Hlay _ _ Hch) as (_ & _ & _ & Hz).
  rewrite Hz by (by apply restart_chunk_in). done.
Qed.

(** *** Loops *)

Definition entries : list entry := map chunk_entry cs.

Lemma entries_lookup i ch : cs !! i = Some ch -> entries !! i = Some (chunk_entry ch).
Proof. intros H. unfold entries. by rewrite list_lookup_fmap, H. Qed.

Lemma length_entries : length entries = length cs.
Proof. apply length_map. Qed.

Lemma at_next it i :
  at_pos it (Some i) -> NextEntryOffset it = Some (chunk_off cs (S i)).
Proof. intros H. by destruct (at_ready _ _ H) as (_ & _ & Hn & _). Qed.

(** Decoding until the entry that ends at chunk [m]. *)
Lemma parse_until_spec m fuel it i :
  ready it i -> (i < m <= length cs)%nat -> (m - i <= fuel)%nat ->
  exists it', parse_until (chunk_off cs m) fuel it = Some it' /\ at_pos it' (Some (m - 1)%nat).
Proof.
  revert it i. induction fuel as [|fuel IH]; intros it i Hr Him Hf; [lia|].
  cbn [parse_until]. destruct (ParseNextKey_spec _ _ Hr) as (it' & -> & Hat).
  rewrite bool_decide_true by lia. cbn [mbind option_bind].
  unfold clip in Hat. rewrite decide_True in Hat by (fold entries; rewrite length_entries; lia).
  rewrite (at_next _ _ Hat). cbn [mbind option_bind].
  destruct (Z.ltb_spec (chunk_off cs (S i)) (chunk_off cs m)) as [Hlt|Hge].
  - apply chunk_off_lt in Hlt; [|lia..]. apply (IH it' (S i)); [by apply at_ready|lia|lia].
  - assert (m = S i) as ->.
    { destruct (decide (m = S i)); [done|]. pose proof (chunk_off_lt cs (S i) m). lia. }
    replace (S i - 1)%nat with i by lia. eauto.
Qed.

Lemma fuel_enough : (length cs < S (length block_data))%nat.
Proof.
  pose proof (chunks_count cs). pose proof blen_data. fold limit in *. unfold blen in *. lia.
Qed.

Context (Hsorted : StronglySorted (entry_lt (Compare c)) entries).

Lemma entry_below i ch target :
  cs !! i = Some ch -> Compare c (ch_key ch) target < 0 -> (i < below (Compare c) target entries)%nat.
Proof.
  intros Hi Hlt. destruct (Nat.lt_ge_cases i (below (Compare c) target entries)) as [|Hge]; [done|].
  pose proof (below_ge _ target _ i _ Hsorted (entries_lookup _ _ Hi) Hge). cbn in *. lia.
Qed.

(** The linear search ends at the first key at or past the target. *)
Lemma seek_linear_spec target fuel it i :
  ready it i -> (i <= below (Compare c) target entries)%nat -> (length cs - i < fuel)%nat ->
  exists it', seek_linear target fuel it = Some it' /\ at_pos it' (seek_pos (Compare c) target entries).
Proof.
  revert it i. induction fuel as [|fuel IH]; intros it i Hr Hb Hf; [lia|].
  cbn [seek_linear]. destruct (ParseNextKey_spec _ _ Hr) as (it' & -> & Hat). cbn [mbind option_bind].
  fold entries in Hat. unfold clip in Hat. rewrite length_entries in Hat.
  pose proof (below_le (Compare c) target entries) as Hble. rewrite length_entries in Hble.
  destruct (decide (i < length cs)%nat) as [Hlt|Hge].
  - rewrite bool_decide_true by done. pose proof Hat as Hat0.
    destruct Hat as [Hov (ch & Hch & _ & Hk & _)]. rewrite (ov_comparator _ Hov), Hk.
    destruct (Z.leb_spec 0 (Compare c (ch_key ch) target)) as [Hge|Hl].
    + exists it'. split; [done|].
      assert (below (Compare c) target entries = i) as E.
      { destruct (decide (i = below (Compare c) target entries)); [done|].
        pose proof (below_lt (Compare c) target entries i _ (entries_lookup _ _ Hch)). cbn in *. lia. }
      unfold seek_pos, clip. rewrite E, length_entries, decide_True by done. exact Hat0.
    + pose proof (entry_below _ _ _ Hch Hl).
      apply (IH it' (S i)); [by apply at_ready|lia|lia].
  - rewrite bool_decide_false by done. exists it'. split; [done|].
    unfold seek_pos, clip. rewrite length_entries, decide_False by lia. exact Hat.
Qed.

(** The binary search ends at a restart point at or before the sought entry. *)
Lemma seek_restart_spec target it fuel lft rgt :
  over it -> (lft <= rgt < num)%nat ->
  (restart_chunk lft <= below (Compare c) target entries)%nat -> (rgt - lft < fuel)%nat ->
  exists j, seek_restart it target fuel (Z.of_nat lft) (Z.of_nat rgt) = Some (inr (Z.of_nat j)) /\
    (j < num)%nat /\ (restart_chunk j <= below (Compare c) target entries)%nat.
Proof.
  intros Hov. revert lft rgt. induction fuel as [|fuel IH]; intros lft rgt Hlr Hb Hf; [lia|].
  cbn [seek_restart]. destruct (Z.ltb_spec (Z.of_nat lft) (Z.of_nat rgt)); [|exists lft; split; [done|lia]].
  set (mid := ((lft + rgt + 1) / 2)%nat).
  assert (lft < mid <= rgt)%nat as Hmid.
  { pose proof (Nat.div_mod_eq (lft + rgt + 1) 2). pose proof (Nat.mod_upper_bound (lft + rgt + 1) 2). subst mid. lia. }
  assert (u32 (Z.of_nat lft + Z.of_nat rgt + 1) / 2 = Z.of_nat mid) as ->.
  { rewrite u32_small by (pose proof limit_range; lia). subst mid. rewrite Nat2Z.inj_div. f_equal. lia. }
  rewrite (GetRestartPoint_at _ _ Hov) by lia. cbn [mbind option_bind].
  assert (restart_chunk mid < length cs)%nat as Hlen.
  { pose proof (restart_chunk_lt 0 mid). destruct (lay_bound _ _ Hlay _ (restart_chunk_in mid ltac:(lia))); lia. }
  destruct (lookup_lt_is_Some_2 cs _ Hlen) as [ch Hch].
  rewrite (ov_data _ Hov), (ov_limit _ Hov), (DecodeEntry_chunk _ _ Hch).
  destruct (lay_chunks _ _ Hlay _ _ Hch) as (_ & _ & _ & Hz). specialize (Hz (restart_chunk_in mid ltac:(lia))).
  destruct (chunk_strings _ _ Hch) as [Hk _]. rewrite Hz in *. cbn [negb Z.eqb].
  rewrite Hk. cbn [mbind option_bind]. rewrite zdrop_0, (ov_comparator _ Hov).
  destruct (Z.ltb_spec (Compare c (ch_key ch) target) 0) as [Hl|Hge].
  - pose proof (entry_below _ _ _ Hch Hl). apply IH; lia.
  - rewrite u32_small by (pose proof limit_range; lia).
    replace (Z.of_nat mid - 1) with (Z.of_nat (mid - 1)) by lia. apply IH; lia.
Qed.

Lemma prev_restart_spec it i j :
  over it -> (j < num)%nat -> (i <= length cs)%nat ->
  (i = 0%nat /\ prev_restart it (chunk_off cs i) j = Some None) \/
  (exists j', prev_restart it (chunk_off cs i) j = Some (Some (Z.of_nat j')) /\
     (j' < num)%nat /\ (restart_chunk j' < i)%nat).
Proof.
  intros Hov Hj Hi. induction j as [|j IH]; cbn [prev_restart];
    rewrite (GetRestartPoint_at _ _ Hov) by lia; cbn [mbind option_bind].
  - rewrite restart_chunk_0, chunk_off_0. destruct (Z.leb_spec (chunk_off cs i) 0) as [Hle|Hgt].
    + left. split; [|done]. destruct i as [|i]; [done|].
      pose proof (chunk_off_mono cs 0 (S i)). rewrite chunk_off_0 in *. lia.
    + right. exists 0%nat. split; [done|]. rewrite restart_chunk_0. split; [lia|].
      destruct i; [rewrite chunk_off_0 in *; lia|lia].
  - destruct (Z.leb_spec (chunk_off cs i) (chunk_off cs (restart_chunk (S j)))) as [Hle|Hgt].
    + apply IH. lia.
    + right. exists (S j). split; [done|]. split; [done|]. pose proof (restart_chunk_le (S j) Hj).
      by apply (chunk_off_lt cs).
Qed.

(** *** Operations *)

Lemma at_valid it p : at_pos it p -> Iter_Valid it = bool_decide (is_Some p).
Proof.
  intros [Hov Hp]. unfold Iter_Valid. rewrite (ov_limit _ Hov). destruct p as [i|].
  - destruct Hp as (ch & Hch & -> & _). rewrite bool_decide_true by done.
    destruct (chunk_fits _ _ Hch) as (Hs & Ho & Hle). pose proof (blen_chunk_header ch).
    pose proof (blen_nonneg (ch_value ch)). lia.
  - destruct Hp as [-> _]. rewrite bool_decide_false by (by intros []). lia.
Qed.

Lemma at_entry it i : at_pos it (Some i) -> entries !! i = Some (key_ it, Iter_value it).
Proof.
  intros [Hov (ch & Hch & _ & -> & Hv & _)]. rewrite (entries_lookup _ _ Hch).
  unfold Iter_value. rewrite Hv, (ov_data _ Hov). destruct (chunk_strings _ _ Hch) as [_ Hs].
  destruct (chunk_fits _ _ Hch) as (_ & Ho & _). unfold chunk_entry. do 2 f_equal.
  etrans; [symmetry; exact Hs|]. do 2 f_equal. lia.
Qed.

Lemma Seek_from_restart target it j :
  over it -> (j < num)%nat -> (restart_chunk j <= below (Compare c) target entries)%nat ->
  exists it', (it ← SeekToRestartPoint it (Z.of_nat j);
               seek_linear target (S (length (iter_data_ it))) it) = Some it' /\
    at_pos it' (seek_pos (Compare c) target entries).
Proof.
  intros Hov Hj Hb. destruct (SeekToRestartPoint_spec it j Hov Hj) as (it' & -> & Hr).
  cbn [mbind option_bind]. rewrite (ov_data _ (proj1 Hr)).
  apply (seek_linear_spec _ _ _ _ Hr Hb). pose proof fuel_enough. lia.
Qed.

(** [Seek] from an iterator that is not valid. *)
Lemma Seek_invalid it target :
  at_pos it None ->
  exists it', Iter_Seek it target = Some it' /\ at_pos it' (seek_pos (Compare c) target entries).
Proof.
  intros Hat. unfold Iter_Seek. rewrite (at_valid _ _ Hat), bool_decide_false by (by intros []).
  destruct Hat as [Hov _]. cbn [andb Z.ltb Z.compare]. pose proof num_pos. rewrite (ov_num _ Hov), Nat2Z.id.
  rewrite u32_small by (pose proof limit_range; lia).
  replace (Z.of_nat num - 1) with (Z.of_nat (num - 1)) by lia. change 0 with (Z.of_nat 0) at 1.
  destruct (seek_restart_spec target it (S num) 0 (num - 1) Hov) as (j & -> & Hj & Hb);
    [lia|rewrite restart_chunk_0; lia|lia|].
  cbn [mbind option_bind]. rewrite andb_false_r. by apply Seek_from_restart.
Qed.

(** [Seek] from a valid iterator, which narrows the search or stays in the
    restart block. *)
Lemma Seek_valid it i target :
  at_pos it (Some i) ->
  exists it', Iter_Seek it target = Some it' /\ at_pos it' (seek_pos (Compare c) target entries).
Proof.
  intros Hat. unfold Iter_Seek. rewrite (at_valid _ _ Hat), bool_decide_true by done. cbn [andb].
  pose proof Hat as [Hov (ch & Hch & _ & Hk & _ & (j & Hj & Hjn & Hjr & _))].
  apply lookup_lt_Some in Hch as Hlt. pose proof num_pos.
  rewrite (ov_comparator _ Hov), Hk, Hj, (ov_num _ Hov), Nat2Z.id.
  destruct (Z.eqb_spec (Compare c (ch_key ch) target) 0) as [He|Hne].
  { exists it. split; [done|]. unfold seek_pos.
    rewrite (below_unique (Compare c) target entries i).
    - unfold clip. by rewrite length_entries, decide_True.
    - rewrite length_entries. lia.
    - intros i' e Hi' He'. apply (cmp_lt_le_trans (Compare c) _ (ch_key ch)); [|lia].
      apply (sorted_lookup_lt (Compare c) entries i' i e _ Hsorted He' (entries_lookup _ _ Hch) Hi').
    - rewrite (entries_lookup _ _ Hch). intros e [= <-]. cbn. lia. }
  destruct (Z.ltb_spec (Compare c (ch_key ch) target) 0) as [Hl|Hge].
  - pose proof (entry_below _ _ _ Hch Hl) as Hbel.
    destruct (Z.ltb_spec 0 (Compare c (ch_key ch) target)); [lia|].
    rewrite u32_small by (pose proof limit_range; lia).
    replace (Z.of_nat num - 1) with (Z.of_nat (num - 1)) by lia.
    destruct (seek_restart_spec target it (S num) j (num - 1) Hov) as (j' & -> & Hj' & Hb'); [lia..|].
    cbn [mbind option_bind]. rewrite andb_true_r.
    destruct (Z.of_nat j' =? Z.of_nat j); [|by apply Seek_from_restart].
    cbn [mbind option_bind]. rewrite (ov_data _ Hov). apply (seek_linear_spec _ _ _ (S i)); [by apply at_ready|lia|].
    pose proof fuel_enough. lia.
  - destruct (Z.ltb_spec 0 (Compare c (ch_key ch) target)); [|lia]. change 0 with (Z.of_nat 0) at 1.
    destruct (seek_restart_spec target it (S num) 0 j Hov) as (j' & -> & Hj' & Hb');
      [lia|rewrite restart_chunk_0; lia|lia|].
    cbn [mbind option_bind]. rewrite andb_false_r. by apply Seek_from_restart.
Qed.

Lemma SeekToFirst_spec it :
  over it -> exists it', Iter_SeekToFirst it = Some it' /\ at_pos it' (clip entries 0).
Proof.
  intros Hov. unfold Iter_SeekToFirst. change 0 with (Z.of_nat 0).
  destruct (SeekToRestartPoint_spec it 0 Hov num_pos) as (it1 & -> & Hr). rewrite restart_chunk_0 in Hr.
  cbn [mbind option_bind]. destruct (ParseNextKey_spec _ _ Hr) as (it' & -> & Hat). cbn. eauto.
Qed.

Lemma SeekToLast_spec it :
  over it -> exists it', Iter_SeekToLast it = Some it' /\ at_pos it' (last_pos entries).
Proof.
  intros Hov. unfold Iter_SeekToLast. pose proof num_pos. rewrite (ov_num _ Hov).
  rewrite u32_small by (pose proof limit_range; lia).
  replace (Z.of_nat num - 1) with (Z.of_nat (num - 1)) by lia.
  destruct (SeekToRestartPoint_spec it (num - 1) Hov) as (it1 & -> & Hr); [lia|].
  cbn [mbind option_bind]. rewrite (ov_limit _ (proj1 Hr)), (ov_data _ (proj1 Hr)).
  unfold last_pos. rewrite length_entries.
  destruct (lay_bound _ _ Hlay _ (restart_chunk_in (num - 1) ltac:(lia))) as [Hlt|[Hz Hcs]].
  - unfold limit. rewrite <- (chunk_off_all cs (length cs)) by done.
    destruct (parse_until_spec (length cs) (S (length block_data)) it1 _ Hr) as (it' & -> & Hat);
      [lia|pose proof fuel_enough; lia|].
    exists it'. split; [done|]. destruct (length cs) as [|n]; [lia|]. cbn in *. by rewrite Nat.sub_0_r in Hat.
  - cbn [parse_until]. destruct (ParseNextKey_spec _ _ Hr) as (it' & -> & Hat). cbn [mbind option_bind].
    rewrite Hz in *. rewrite Hcs in Hat |- *. rewrite bool_decide_false by (cbn; lia). eauto.
Qed.

Lemma Iter_Next_spec it i :
  at_pos it (Some i) -> exists it', Iter_Next it = Some it' /\ at_pos it' (clip entries (S i)).
Proof.
  intros Hat. unfold Iter_Next. rewrite (at_valid _ _ Hat), bool_decide_true by done.
  destruct (ParseNextKey_spec _ _ (at_ready _ _ Hat)) as (it' & -> & Hat'). cbn. eauto.
Qed.

Lemma Iter_Prev_spec it i :
  at_pos it (Some i) -> exists it', Iter_Prev it = Some it' /\ at_pos it' (before i).
Proof.
  intros Hat. unfold Iter_Prev. rewrite (at_valid _ _ Hat), bool_decide_true by done.
  pose proof Hat as [Hov (ch & Hch & -> & Hk & _ & (j & Hj & Hjn & _))].
  apply lookup_lt_Some in Hch as Hlt. rewrite Hj, Nat2Z.id.
  destruct (prev_restart_spec it i j Hov Hjn) as [[-> ->]|(j' & -> & Hj' & Hr')]; [lia| |];
    cbn [mbind option_bind].
  - eexists. split; [done|]. split; [by apply over_set|]. cbn. by rewrite (ov_limit _ Hov), (ov_num _ Hov).
  - destruct (SeekToRestartPoint_spec it j' Hov Hj') as (it1 & -> & Hr). cbn [mbind option_bind].
    rewrite (ov_data _ (proj1 Hr)).
    destruct (parse_until_spec i (S (length block_data)) it1 _ Hr) as (it' & -> & Hat');
      [lia|pose proof fuel_enough; lia|].
    exists it'. split; [done|]. destruct i as [|i]; [lia|]. cbn in *. by rewrite Nat.sub_0_r in Hat'.
Qed.

#[export] Instance Iter_iterates : IteratesOver (Compare c) entries at_pos.
Proof.
  split.
  - apply at_valid.
  - apply at_entry.
  - intros it p [Hov _]. cbn. by rewrite (ov_status _ Hov).
  - intros it p [Hov _]. by apply SeekToFirst_spec.
  - intros it p [Hov _]. by apply SeekToLast_spec.
  - intros it [i|] target Hat _; [by apply (Seek_valid it i)|by apply Seek_invalid].
  - apply Iter_Next_spec.
  - apply Iter_Prev_spec.
Qed.

(** [Block] and [NewIterator] over the bytes of the layout. *)
Lemma Block_NewIterator_spec contents :
  contents_data contents = block_data ->
  exists it, Block_NewIterator (Block_make contents) c = Some (inr it) /\ at_pos it None.
Proof.
  intros Hd. pose proof limit_range. pose proof num_pos. pose proof blen_data as Hbl.
  assert (NumRestarts block_data (blen block_data) = Z.of_nat num) as Hnr.
  { unfold NumRestarts, block_data, block_bytes. rewrite app_assoc, zdrop_app by len.
    rewrite <- (app_nil_r (EncodeFixed32 _)), DecodeFixed32_Encode. apply u32_small. fold num. lia. }
  unfold Block_make. rewrite Hd, Hnr, Hbl.
  destruct (Z.ltb_spec (limit + 4 * Z.of_nat num + 4) 4); [lia|].
  destruct (Z.ltb_spec ((limit + 4 * Z.of_nat num + 4 - 4) / 4) (Z.of_nat num)) as [Hq|_].
  { pose proof (Z.div_le_lower_bound (limit + 4 * Z.of_nat num + 4 - 4) 4 (Z.of_nat num)). lia. }
  unfold Block_NewIterator. cbn [size_ data_ restart_offset_]. rewrite <- Hbl, Hnr, Hbl.
  destruct (Z.ltb_spec (limit + 4 * Z.of_nat num + 4) 4); [lia|].
  destruct (Z.eqb_spec (Z.of_nat num) 0); [lia|]. unfold Iter_make.
  destruct (Z.ltb_spec 0 (Z.of_nat num)); [|lia]. rewrite (u32_small (1 + _)), u32_small by lia.
  replace (limit + 4 * Z.of_nat num + 4 - (1 + Z.of_nat num) * 4) with limit by lia.
  eexists. split; [reflexivity|]. split; done.
Qed.

End Correct.

(** ** Blocks by their entries

    The same contract without the layout: an iterator over some block with the
    entries [l]. *)

Definition block_pos (c : Comparator) (l : list entry) (it : EmptyIterator + Iter) (p : option nat) : Prop :=
  match it with
  | inl _ => False
  | inr it => exists cs rs, layout_ok cs rs /\ blen (block_bytes cs rs) < 2 ^ 32 /\
      map chunk_entry cs = l /\ at_pos c cs rs it p
  end.

Lemma block_iterates (c : Comparator) (l : list entry) :
  ComparatorLaws c -> StronglySorted (entry_lt (Compare c)) l ->
  IteratesOver (Compare c) l (block_pos c l).
Proof.
  intros Hc Hs.
  assert (forall cs rs, layout_ok cs rs -> blen (block_bytes cs rs) < 2 ^ 32 -> map chunk_entry cs = l ->
    IteratesOver (Compare c) l (at_pos c cs rs)) as Hi.
  { intros cs rs Hl Hb <-. by apply Iter_iterates. }
  assert (forall cs rs (f : Iter -> option Iter) it p, layout_ok cs rs ->
    blen (block_bytes cs rs) < 2 ^ 32 -> map chunk_entry cs = l ->
    (exists it', f it = Some it' /\ at_pos c cs rs it' p) ->
    exists it', inr <$> f it = Some it' /\ block_pos c l it' p) as Hlift.
  { intros cs rs f it p Hl Hb Hm (it' & -> & Hp). cbn. eexists. split; [done|]. cbn. eauto 10. }
  split; (intros [it|it]; [done|]); cbn [block_pos it_Valid it_key it_value it_status it_SeekToFirst
    it_SeekToLast it_Seek it_Next it_Prev sum_iterator].
  - intros p (cs & rs & Hl & Hb & Hm & Hp). pose proof (Hi cs rs Hl Hb Hm). by apply iter_valid.
  - intros i (cs & rs & Hl & Hb & Hm & Hp). pose proof (Hi cs rs Hl Hb Hm). by apply iter_entry.
  - intros p (cs & rs & Hl & Hb & Hm & Hp). pose proof (Hi cs rs Hl Hb Hm). by eapply iter_status.
  - intros p (cs & rs & Hl & Hb & Hm & Hp). pose proof (Hi cs rs Hl Hb Hm).
    apply (Hlift cs rs); try done. by apply (iter_first it p).
  - intros p (cs & rs & Hl & Hb & Hm & Hp). pose proof (Hi cs rs Hl Hb Hm).
    apply (Hlift cs rs); try done. by apply (iter_last it p).
  - intros p target (cs & rs & Hl & Hb & Hm & Hp) _. pose proof (Hi cs rs Hl Hb Hm).
    apply (Hlift cs rs (fun it => it_Seek it target)); try done. by apply (iter_seek it p).
  - intros i (cs & rs & Hl & Hb & Hm & Hp). pose proof (Hi cs rs Hl Hb Hm).
    apply (Hlift cs rs); try done. by apply iter_next.
  - intros i (cs & rs & Hl & Hb & Hm & Hp). pose proof (Hi cs rs Hl Hb Hm).
    apply (Hlift cs rs); try done. by apply iter_prev.
Qed.

(** The iterator over the bytes of a layout; the comparator it is read with matters
    only to [Seek]. *)
Lemma layout_iterator cs rs contents c :
  layout_ok cs rs -> blen (block_bytes cs rs) < 2 ^ 32 -> contents_data contents = block_bytes cs rs ->
  (length cs <= length (contents_data contents))%nat /\
  exists it, Block_NewIterator (Block_make contents) c = Some it /\
    block_pos c (map chunk_entry cs) it None.
Proof.
  intros Hlay Hsz Hd. split.
  { rewrite Hd. pose proof (fuel_enough cs rs). unfold block_data in *. lia. }
  destruct (Block_NewIterator_spec c cs rs Hlay Hsz contents Hd) as (it & Hnew & Hat).
  exists (inr it). split; [done|]. cbn. eauto 10.
Qed.

(** An iterator determines the entries of its block. *)
Lemma block_pos_unique c l l' it :
  ComparatorLaws c -> StronglySorted (entry_lt (Compare c)) l ->
  StronglySorted (entry_lt (Compare c)) l' -> block_pos c l it None -> block_pos c l' it None -> l = l'.
Proof.
  intros Hc Hs Hs' Hp Hp'. pose proof (block_iterates c l Hc Hs). pose proof (block_iterates c l' Hc Hs').
  assert (Some l = Some l') as E; [|congruence].
  rewrite <- (scan_all_spec (l := l) it None (S (length l + length l')) Hp) by lia.
  by rewrite <- (scan_all_spec (l := l') it None (S (length l + length l')) Hp') by lia.
Qed.
