(* ===== verification/BlockSafety.v ===== *)
(** * Blocks read back, and blocks read from damaged files

    The contract of the iterator over a block the builder wrote, and the
    behaviour of [Block::Iter] over bytes nobody vouches for: every operation
    returns, without touching memory outside the block. *)

From S2P Require Import Prelude Slice Coding Status Comparator Format Iterator Options BlockBuilder Block.

(** ** Bounds of [DecodeEntry] *)

Lemma DecodeFixed32_range s : 0 <= DecodeFixed32 s < 2 ^ 32.
Proof.
  unfold DecodeFixed32. repeat apply lor_bound; try lia; try apply u32_range.
  unfold buffer_at. pose proof (b2z_range (byte_at s 0)). lia.
Qed.

Lemma GetVarint32_shorter p v rest :
  GetVarint32Ptr p = Some (v, rest) -> 0 <= v < 2 ^ 32 /\ blen rest + 1 <= blen p.
Proof.
  intros H. split; [by eapply GetVarint32_range|].
  destruct (GetVarint32_suffix _ _ _ H) as (q & -> & Hq). rewrite blen_app.
  destruct q; [done|]. rewrite blen_cons. pose proof (blen_nonneg q). lia.
Qed.

Lemma DecodeLengths_bounds s a b d rest :
  3 <= blen s -> DecodeLengths s = Some (a, b, d, rest) ->
  0 <= a < 2 ^ 32 /\ 0 <= b < 2 ^ 32 /\ 0 <= d < 2 ^ 32 /\ blen rest + 3 <= blen s.
Proof.
  intros Hs. unfold DecodeLengths. cbv zeta. destruct (_ <? 128).
  - intros [= <- <- <- <-]. rewrite blen_zdrop by lia.
    pose proof (b2z_range (byte_at s 0)). pose proof (b2z_range (byte_at s 1)).
    pose proof (b2z_range (byte_at s 2)). lia.
  - destruct (GetVarint32Ptr s) as [[x s1]|] eqn:E1; cbn [mbind option_bind]; [|done].
    destruct (GetVarint32Ptr s1) as [[y s2]|] eqn:E2; cbn [mbind option_bind]; [|done].
    destruct (GetVarint32Ptr s2) as [[z s3]|] eqn:E3; cbn [mbind option_bind]; [|done].
    intros [= <- <- <- <-].
    apply GetVarint32_shorter in E1, E2, E3. lia.
Qed.

(** An accepted entry lies between [p] and [limit], as far as the 32-bit sum of
    its two lengths tells. *)
Lemma DecodeEntry_bounds data p lim q sh ns vl :
  0 <= p -> lim <= blen data < 2 ^ 32 -> DecodeEntry data p lim = Some (q, sh, ns, vl) ->
  p + 3 <= q /\ q + u32 (ns + vl) <= lim /\
  0 <= sh < 2 ^ 32 /\ 0 <= ns < 2 ^ 32 /\ 0 <= vl < 2 ^ 32.
Proof.
  intros Hp Hl. unfold DecodeEntry. destruct (Z.ltb_spec (lim - p) 3); [done|].
  assert (blen (zdrop p (ztake lim data)) = lim - p) as Hs.
  { rewrite blen_zdrop; rewrite blen_ztake; lia. }
  destruct (DecodeLengths _) as [[[[a b] d] rest]|] eqn:E; cbn [mbind option_bind]; [|done].
  apply DecodeLengths_bounds in E; [|lia]. rewrite Hs in E. pose proof (blen_nonneg rest).
  rewrite (u32_small (blen rest)) by lia.
  destruct (Z.ltb_spec (blen rest) (u32 (b + d))); [done|].
  intros [= <- <- <- <-]. lia.
Qed.

(** ** Any block contents *)

Section Total.

Context (data : bytes) (lim nr : Z).
Context (Hlim : 0 <= lim) (Hnr : 0 < nr) (Hfit : lim + 4 * nr <= blen data < 2 ^ 32).

(** No entry the decoder accepts has lengths whose sum wraps around. *)
Definition no_wrap : Prop :=
  forall p q sh ns vl, 0 <= p -> DecodeEntry data p lim = Some (q, sh, ns, vl) -> ns + vl < 2 ^ 32.

Context (Hwrap : no_wrap).

Record of_block (it : Iter) : Prop := {
  ob_data : iter_data_ it = data;
  ob_limit : restarts_off_ it = lim;
  ob_num : num_restarts_ it = nr
}.

(** Ready to decode at offset [n]. *)
Definition primed (it : Iter) (n : Z) : Prop :=
  of_block it /\ 0 <= n < 2 ^ 32 /\ NextEntryOffset it = Some n /\ 0 <= restart_index_ it < nr.

(** At an entry, or not valid. *)
Definition safe (it : Iter) : Prop :=
  of_block it /\ (Iter_Valid it = true -> exists n, primed it n /\ 0 <= current_ it < n /\ n <= lim).

Lemma restart_point_total it i :
  of_block it -> 0 <= i < nr -> exists r, GetRestartPoint it i = Some r /\ 0 <= r < 2 ^ 32.
Proof.
  intros [Hd Hl Hn] Hi. unfold GetRestartPoint. rewrite Hn. destruct (Z.ltb_spec i nr); [|lia].
  eexists. split; [done|]. apply DecodeFixed32_range.
Qed.

Lemma advance_total it cur fuel i :
  of_block it -> 0 <= i < nr -> nr - i <= Z.of_nat fuel ->
  exists i', advance_restart it cur fuel i = Some i' /\ 0 <= i' < nr.
Proof.
  intros Hb. revert i. induction fuel as [|fuel IH]; intros i Hi Hf; [lia|]. cbn [advance_restart].
  rewrite (ob_num _ Hb). destruct (Z.ltb_spec (i + 1) nr); [|eauto].
  destruct (restart_point_total it (i + 1) Hb) as (r & -> & _); [lia|]. cbn [mbind option_bind].
  destruct (r <? cur); [apply IH; lia|eauto].
Qed.

Lemma corruption_safe it : of_block it -> safe (CorruptionError it).
Proof.
  intros []. split; [by split|]. unfold Iter_Valid, CorruptionError. cbn. by rewrite Z.ltb_irrefl.
Qed.

Lemma parse_total it n :
  primed it n ->
  exists b it', ParseNextKey it = Some (b, it') /\ safe it' /\
    (b = true -> exists n', primed it' n' /\ n + 3 <= n' <= lim).
Proof.
  intros (Hb & Hn & Hnext & Hri). unfold ParseNextKey. rewrite Hnext. cbn [mbind option_bind].
  rewrite (ob_limit _ Hb), (ob_data _ Hb), (ob_num _ Hb).
  destruct (Z.leb_spec lim n).
  { eexists false, _. split; [done|]. split; [|done]. destruct Hb. split; [by split|].
    unfold Iter_Valid. cbn. rewrite ob_limit0, Z.ltb_irrefl. done. }
  destruct (DecodeEntry data n lim) as [[[[q sh] ns] vl]|] eqn:E;
    [|eexists false, _; split; [done|]; split; [by apply corruption_safe|done]].
  pose proof (Hwrap _ _ _ _ _ (proj1 Hn) E) as Hw. apply DecodeEntry_bounds in E; [|lia..].
  rewrite u32_small in E by lia.
  destruct (blen (key_ it) <? sh); [eexists false, _; split; [done|]; split; [by apply corruption_safe|done]|].
  unfold read_range. destruct (Z.leb_spec (q + ns) (blen data)); [|lia]. cbn [mbind option_bind].
  destruct (advance_total it n (Z.to_nat nr) (restart_index_ it) Hb Hri) as (i' & -> & Hi'); [lia|].
  cbn [mbind option_bind]. eexists true, _. split; [done|].
  assert (primed (set_position it n i' (ztake sh (key_ it) ++ ztake ns (zdrop q data))
    (Some (q + ns, vl)) (status_ it)) (q + ns + vl)) as Hp.
  { destruct Hb. repeat split; cbn; try done; try lia. unfold NextEntryOffset. cbn. f_equal.
    apply u32_small. lia. }
  split; [|intros _; exists (q + ns + vl); split; [done|lia]].
  split; [apply Hp|]. intros _. exists (q + ns + vl). split; [done|]. cbn. lia.
Qed.

Lemma parse_until_total bound fuel it n :
  primed it n -> lim - n < Z.of_nat fuel -> (0 < fuel)%nat ->
  exists it', parse_until bound fuel it = Some it' /\ safe it'.
Proof.
  revert it n. induction fuel as [|fuel IH]; intros it n Hp Hf Hf0; [lia|]. cbn [parse_until].
  destruct (parse_total _ _ Hp) as (b & it' & -> & Hs & Hn). cbn [mbind option_bind].
  destruct b; [|eauto]. destruct (Hn eq_refl) as (n' & Hp' & Hn'). pose proof Hp' as (_ & _ & -> & _).
  cbn [mbind option_bind]. destruct (n' <? bound); [|eauto].
  destruct (decide (fuel = 0%nat)); [lia|]. apply (IH it' n'); [done|lia|lia].
Qed.

Lemma seek_linear_total target fuel it n :
  primed it n -> lim - n < Z.of_nat fuel -> (0 < fuel)%nat ->
  exists it', seek_linear target fuel it = Some it' /\ safe it'.
Proof.
  revert it n. induction fuel as [|fuel IH]; intros it n Hp Hf Hf0; [lia|]. cbn [seek_linear].
  destruct (parse_total _ _ Hp) as (b & it' & -> & Hs & Hn). cbn [mbind option_bind].
  destruct b; [|eauto]. destruct (Hn eq_refl) as (n' & Hp' & Hn').
  destruct (0 <=? _); [eauto|].
  destruct (decide (fuel = 0%nat)); [lia|]. apply (IH it' n'); [done|lia|lia].
Qed.

Lemma seek_to_restart_total it i :
  of_block it -> 0 <= i < nr ->
  exists it' n, SeekToRestartPoint it i = Some it' /\ primed it' n.
Proof.
  intros Hb Hi. unfold SeekToRestartPoint. destruct (restart_point_total _ _ Hb Hi) as (r & -> & Hr).
  cbn [mbind option_bind]. eexists _, r. split; [done|]. destruct Hb. repeat split; cbn; try done; try lia.
  unfold NextEntryOffset. cbn. f_equal. rewrite Z.add_0_r. by apply u32_small.
Qed.

Lemma prev_restart_total it original i :
  of_block it -> Z.of_nat i < nr ->
  exists r, prev_restart it original i = Some r /\ (forall j, r = Some j -> 0 <= j < nr).
Proof.
  intros Hb. induction i as [|i IH]; intros Hi; cbn [prev_restart].
  - destruct (restart_point_total it (Z.of_nat 0) Hb ltac:(lia)) as (r0 & -> & _).
    cbn [mbind option_bind]. destruct (original <=? r0); eexists; (split; [done|]); [done|].
    intros j [= <-]. lia.
  - destruct (restart_point_total it (Z.of_nat (S i)) Hb ltac:(lia)) as (r & -> & _).
    cbn [mbind option_bind]. destruct (original <=? r); [apply IH; lia|].
    eexists. split; [done|]. intros j [= <-]. lia.
Qed.

Lemma seek_restart_total it target fuel lft rgt :
  of_block it -> 0 <= lft <= rgt -> rgt < nr -> rgt - lft < Z.of_nat fuel ->
  exists r, seek_restart it target fuel lft rgt = Some r /\ (forall j, r = inr j -> 0 <= j < nr).
Proof.
  intros Hb. revert lft rgt. induction fuel as [|fuel IH]; intros lft rgt Hlr Hr Hf; [lia|].
  cbn [seek_restart]. destruct (Z.ltb_spec lft rgt);
    [|eexists; split; [done|]; intros j [= <-]; lia].
  rewrite (u32_small (lft + rgt + 1)) by lia.
  assert (lft < (lft + rgt + 1) / 2 <= rgt) as Hmid.
  { pose proof (Z.div_mod (lft + rgt + 1) 2). pose proof (Z.mod_pos_bound (lft + rgt + 1) 2). lia. }
  set (mid := (lft + rgt + 1) / 2) in *.
  destruct (restart_point_total it mid Hb) as (r & -> & Hrr); [lia|]. cbn [mbind option_bind].
  rewrite (ob_data _ Hb), (ob_limit _ Hb).
  destruct (DecodeEntry data r lim) as [[[[q sh] ns] vl]|] eqn:E; [|eexists; split; [done|]; done].
  pose proof (Hwrap _ _ _ _ _ (proj1 Hrr) E) as Hw. apply DecodeEntry_bounds in E; [|lia..].
  rewrite u32_small in E by lia.
  destruct (negb (sh =? 0)); [eexists; split; [done|]; done|].
  unfold read_range. destruct (Z.leb_spec (q + ns) (blen data)); [|lia]. cbn [mbind option_bind].
  destruct (_ <? 0); [apply IH; lia|]. rewrite u32_small by lia. apply IH; lia.
Qed.

Lemma fuel_suffices n : 0 <= n -> lim - n < Z.of_nat (S (length data)).
Proof. unfold blen in *. lia. Qed.

Lemma SeekToFirst_total it : safe it -> exists it', Iter_SeekToFirst it = Some it' /\ safe it'.
Proof.
  intros [Hb _]. unfold Iter_SeekToFirst.
  destruct (seek_to_restart_total it 0 Hb) as (it1 & n & -> & Hp); [lia|]. cbn [mbind option_bind].
  destruct (parse_total _ _ Hp) as (b & it' & -> & Hs & _). cbn. eauto.
Qed.

Lemma SeekToLast_total it : safe it -> exists it', Iter_SeekToLast it = Some it' /\ safe it'.
Proof.
  intros [Hb _]. unfold Iter_SeekToLast. rewrite (ob_num _ Hb), u32_small by lia.
  destruct (seek_to_restart_total it (nr - 1) Hb) as (it1 & n & -> & Hp); [lia|]. cbn [mbind option_bind].
  pose proof Hp as ([Hd _ _] & Hn & _). rewrite Hd.
  apply (parse_until_total _ _ _ _ Hp); [apply fuel_suffices|]; lia.
Qed.

Lemma Next_total it :
  safe it -> Iter_Valid it = true -> exists it', Iter_Next it = Some it' /\ safe it'.
Proof.
  intros [Hb Hv] Hvalid. unfold Iter_Next. rewrite Hvalid. destruct (Hv Hvalid) as (n & Hp & _).
  destruct (parse_total _ _ Hp) as (b & it' & -> & Hs & _). cbn. eauto.
Qed.

Lemma Prev_total it :
  safe it -> Iter_Valid it = true -> exists it', Iter_Prev it = Some it' /\ safe it'.
Proof.
  intros [Hb Hv] Hvalid. unfold Iter_Prev. rewrite Hvalid. destruct (Hv Hvalid) as (n & (_ & _ & _ & Hri) & _).
  destruct (prev_restart_total it (current_ it) (Z.to_nat (restart_index_ it)) Hb) as (r & -> & Hr); [lia|].
  cbn [mbind option_bind]. destruct r as [j|].
  - destruct (seek_to_restart_total it j Hb (Hr j eq_refl)) as (it1 & n1 & -> & Hp). cbn [mbind option_bind].
    pose proof Hp as ([Hd _ _] & Hn & _). rewrite Hd.
    apply (parse_until_total _ _ _ _ Hp); [apply fuel_suffices|]; lia.
  - eexists. split; [done|]. destruct Hb. split; [by split|]. unfold Iter_Valid. cbn.
    by rewrite Z.ltb_irrefl.
Qed.

Lemma Seek_total it target : safe it -> exists it', Iter_Seek it target = Some it' /\ safe it'.
Proof.
  intros Hs. pose proof Hs as [Hb Hv]. unfold Iter_Seek.
  set (k := if Iter_Valid it then Compare (comparator_ it) (key_ it) target else 0).
  destruct (Iter_Valid it && (k =? 0)); [eauto|].
  assert (k <> 0 -> exists n, primed it n) as Hk.
  { subst k. destruct (Iter_Valid it) eqn:E; [|done]. intros _. destruct (Hv eq_refl) as (n & Hp & _). eauto. }
  rewrite (ob_num _ Hb), (u32_small (nr - 1)) by lia.
  assert (k <> 0 -> 0 <= restart_index_ it < nr) as Hri.
  { intros Hne. destruct (Hk Hne) as (n & _ & _ & _ & ?). done. }
  destruct (seek_restart_total it target (S (Z.to_nat nr)) (if k <? 0 then restart_index_ it else 0)
    (if 0 <? k then restart_index_ it else nr - 1) Hb) as (r & -> & Hr);
    [destruct (Z.ltb_spec k 0), (Z.ltb_spec 0 k); lia..|].
  cbn [mbind option_bind]. destruct r as [[]|j]; [eexists; split; [done|]; by apply corruption_safe|].
  assert (exists it1 n1, (if (j =? restart_index_ it) && (k <? 0) then Some it
    else SeekToRestartPoint it j) = Some it1 /\ primed it1 n1) as (it1 & n1 & -> & Hp).
  { destruct (Z.ltb_spec k 0); [|rewrite andb_false_r; apply seek_to_restart_total; eauto].
    rewrite andb_true_r. destruct (j =? restart_index_ it); [|apply seek_to_restart_total; eauto].
    destruct Hk as [n Hn]; [lia|]. eauto. }
  cbn [mbind option_bind]. pose proof Hp as ([Hd _ _] & Hn & _). rewrite Hd.
  apply (seek_linear_total _ _ _ _ Hp); [apply fuel_suffices|]; lia.
Qed.

End Total.

(** A client that calls [Next] and [Prev] only on a valid iterator. *)
Definition careful_move {I} `{Iterator I} (it : I) (m : move) : option I :=
  match m with
  | Forth | Back => if it_Valid it then move_iter it m else Some it
  | _ => move_iter it m
  end.

Fixpoint careful_moves {I} `{Iterator I} (it : I) (ms : list move) : option I :=
  match ms with
  | [] => Some it
  | m :: ms => it ← careful_move it m; careful_moves it ms
  end.

Lemma careful_total data lim nr it ms :
  0 <= lim -> 0 < nr -> lim + 4 * nr <= blen data < 2 ^ 32 -> no_wrap data lim ->
  safe data lim nr it -> is_Some (careful_moves it ms).
Proof.
  intros H1 H2 H3 H4. revert it. induction ms as [|m ms IH]; intros it Hs; [by eexists|]. cbn.
  assert (exists it', careful_move it m = Some it' /\ safe data lim nr it') as (it' & -> & Hs').
  { destruct m; cbn.
    - by apply (SeekToFirst_total data lim nr).
    - by apply (SeekToLast_total data lim nr).
    - by apply (Seek_total data lim nr).
    - destruct (Iter_Valid it) eqn:E; [by apply (Next_total data lim nr)|eauto].
    - destruct (Iter_Valid it) eqn:E; [by apply (Prev_total data lim nr)|eauto]. }
  cbn. by apply IH.
Qed.

(** The limit [Block] computes for some contents: the offset of the restart array. *)
Definition restarts_of (data : bytes) : Z := restart_offset_ (Block_make (mkContents data false false)).

Lemma careful_empty it ms : is_Some (careful_moves (I := EmptyIterator + Iter) (inl it) ms).
Proof. induction ms as [|[] ms IH]; cbn; [by eexists|..]; exact IH. Qed.

Lemma careful_inr it ms :
  careful_moves (I := EmptyIterator + Iter) (inr it) ms = inr <$> careful_moves it ms.
Proof.
  revert it. induction ms as [|m ms IH]; intros it; [done|]. cbn.
  destruct m; cbn;
    try (destruct (Iter_Valid it); cbn; [|apply IH]);
    match goal with |- context [?f <$> ?x] => destruct x; cbn; [apply IH|done] end.
Qed.

(** ** Properties *)

(** for every list of entries in strictly increasing key order, the iterator
    over the block the builder writes goes through exactly those entries, forwards
    from the first and backwards from the last, whatever the restart interval. *)
Theorem block_scan (o : Options) (es : list entry) (fuel : nat) :
  ComparatorLaws (comparator o) -> 1 <= block_restart_interval o ->
  StronglySorted (entry_lt (Compare (comparator o))) es -> block_bound es < 2 ^ 32 ->
  (length es < fuel)%nat ->
  exists data it, build_block o es = Some data /\
    Block_NewIterator (Block_make (mkContents data true true)) (comparator o) = Some (inr it) /\
    scan_all fuel it = Some es /\ scan_all_back fuel it = Some (rev es).
Proof.
  intros Hc Ho Hs Hb Hf. destruct (build_block_layout o Ho es Hs Hb) as (cs & rs & Hbuild & Hlay & <- & Hsz).
  destruct (Block_NewIterator_spec (comparator o) cs rs Hlay Hsz (mkContents (block_bytes cs rs) true true) eq_refl)
    as (it & Hnew & Hat).
  pose proof (Iter_iterates (comparator o) cs rs Hlay Hsz Hs).
  exists (block_bytes cs rs), it. split; [done|]. split; [done|].
  split; [by apply (scan_all_spec it None)|by apply (scan_all_back_spec it None)].
Qed.

(** C33: the iterator over a block behaves as a cursor over the entries the block
    was built from: after any sequence of [SeekToFirst], [SeekToLast], [Seek],
    [Next] and [Prev] (the last two from a valid position) it shows the entry the
    cursor is at, with an OK status.  [Seek] thus reaches the first key at or past
    its target from every position, through the binary search over the restart
    points and the shortcut from the current position. *)
Theorem block_cursor (o : Options) (es : list entry) (ms : list move) (p : option nat) :
  ComparatorLaws (comparator o) -> 1 <= block_restart_interval o ->
  StronglySorted (entry_lt (Compare (comparator o))) es -> block_bound es < 2 ^ 32 ->
  moves_cursor (Compare (comparator o)) es None ms = Some p ->
  exists data it it', build_block o es = Some data /\
    Block_NewIterator (Block_make (mkContents data true true)) (comparator o) = Some (inr it) /\
    moves_iter it ms = Some it' /\ shows it' (p ≫= (es !!.)).
Proof.
  intros Hc Ho Hs Hb Hm. destruct (build_block_layout o Ho es Hs Hb) as (cs & rs & Hbuild & Hlay & <- & Hsz).
  destruct (Block_NewIterator_spec (comparator o) cs rs Hlay Hsz (mkContents (block_bytes cs rs) true true) eq_refl)
    as (it & Hnew & Hat).
  pose proof (Iter_iterates (comparator o) cs rs Hlay Hsz Hs).
  destruct (moves_show it None ms p Hat Hm) as (it' & Hit' & Hsh). eauto 10.
Qed.

(** C37: over arbitrary block contents, of which the decoder accepts no entry whose
    two lengths add up past 32 bits, every sequence of iterator operations
    terminates without a failed assertion and without reading outside the block. *)
Theorem block_iterator_total (data : bytes) (c : Comparator) (ms : list move) :
  blen data < 2 ^ 32 -> no_wrap data (restarts_of data) ->
  exists it, Block_NewIterator (Block_make (mkContents data true true)) c = Some it /\
    is_Some (careful_moves it ms).
Proof.
  intros Hsz Hw. unfold restarts_of, Block_make in Hw. cbn [contents_data] in Hw.
  unfold Block_make. cbn [contents_data].
  destruct (Z.ltb_spec (blen data) 4) as [|Hge]; [eexists; split; [done|]; apply careful_empty|].
  set (nr := NumRestarts data (blen data)) in *.
  assert (0 <= nr < 2 ^ 32) as Hnr by apply DecodeFixed32_range.
  destruct (Z.ltb_spec ((blen data - 4) / 4) nr) as [|Hle]; [eexists; split; [done|]; apply careful_empty|].
  assert (4 * nr <= blen data - 4) as Hle'.
  { pose proof (Z.div_mod (blen data - 4) 4). pose proof (Z.mod_pos_bound (blen data - 4) 4). lia. }
  cbn [restart_offset_] in Hw. unfold Block_NewIterator. cbn [size_ data_ restart_offset_]. fold nr.
  destruct (Z.ltb_spec (blen data) 4); [lia|].
  destruct (Z.eqb_spec nr 0); [eexists; split; [done|]; apply careful_empty|].
  rewrite (u32_small (1 + nr)), u32_small in Hw |- * by lia. unfold Iter_make.
  destruct (Z.ltb_spec 0 nr); [|lia]. eexists. split; [reflexivity|].
  rewrite careful_inr. apply fmap_is_Some.
  apply (careful_total data (blen data - (1 + nr) * 4) nr); [lia|lia|lia|done|].
  split; [done|]. unfold Iter_Valid. cbn. by rewrite Z.ltb_irrefl.
Qed.

(** [no_wrap] is decided by decoding at every offset. *)
Definition no_wrap_check (data : bytes) (lim : Z) : bool :=
  forallb (fun p => match DecodeEntry data p lim with
                    | Some (_, _, ns, vl) => ns + vl <? 2 ^ 32
                    | None => true
                    end) (seqZ 0 lim).

Lemma no_wrap_check_spec data lim : no_wrap_check data lim = true -> no_wrap data lim.
Proof.
  intros Hc p q sh ns vl Hp E. unfold no_wrap_check in Hc. rewrite forallb_forall in Hc.
  assert (p < lim) as Hlt.
  { unfold DecodeEntry in E. destruct (Z.ltb_spec (lim - p) 3); [done|lia]. }
  specialize (Hc p). rewrite E in Hc. apply Z.ltb_lt, Hc. apply list_elem_of_In, elem_of_seqZ. lia.
Qed.

(** The entry with key length [0xffffffff] and value length 1: the check of
    [DecodeEntry] adds the lengths in 32 bits. *)
Definition wrapping_block : bytes :=
  map z2b [0; 255; 255; 255; 255; 15; 1] ++ EncodeFixed32 0 ++ EncodeFixed32 1.

(** [DecodeEntry] adds the two lengths in 32 bits, so it accepts an entry whose
    key reaches four gigabytes past the end of a fifteen-byte block; positioning
    the iterator on it reads outside the block. *)
Theorem block_length_wrap :
  DecodeEntry wrapping_block 0 (restarts_of wrapping_block) = Some (7, 0, 2 ^ 32 - 1, 1) /\
  exists it, Block_NewIterator (Block_make (mkContents wrapping_block true true)) BytewiseComparator = Some (inr it) /\
    Iter_SeekToFirst it = None /\ read_range wrapping_block 7 (2 ^ 32 - 1) = None.
Proof. split; [by vm_compute|]. eexists. split; [by vm_compute|]. by vm_compute. Qed.

(** *** Witnesses *)

(** Three keys that share prefixes, with a restart point before the third. *)
Definition sample_options : Options := set_block_restart_interval Options_default 2.
Definition sample_entries : list entry :=
  [(str "apple", str "1"); (str "applet", str "2"); (str "apply", str "3")].

Lemma sample_sorted : StronglySorted (entry_lt (Compare (comparator sample_options))) sample_entries.
Proof. repeat constructor. Qed.

Lemma block_scan_witness :
  exists data it, build_block sample_options sample_entries = Some data /\
    Block_NewIterator (Block_make (mkContents data true true)) BytewiseComparator = Some (inr it) /\
    scan_all 4 it = Some sample_entries /\ scan_all_back 4 it = Some (rev sample_entries).
Proof.
  apply (block_scan sample_options sample_entries 4).
  - exact BytewiseComparator_laws.
  - by vm_compute.
  - exact sample_sorted.
  - by vm_compute.
  - cbn. lia.
Defined.

Lemma block_cursor_witness :
  exists data it it', build_block sample_options sample_entries = Some data /\
    Block_NewIterator (Block_make (mkContents data true true)) BytewiseComparator = Some (inr it) /\
    moves_iter it [ToTarget (str "applf"); Back] = Some it' /\
    shows it' (Some (str "applet", str "2")).
Proof.
  apply (block_cursor sample_options sample_entries [ToTarget (str "applf"); Back] (Some 1%nat)).
  - exact BytewiseComparator_laws.
  - by vm_compute.
  - exact sample_sorted.
  - by vm_compute.
  - by vm_compute.
Defined.

(** A block with a damaged shared length in its second entry. *)
Definition damaged_block : bytes :=
  map z2b [0; 1; 1; 97; 49;  9; 1; 1; 98; 50] ++ EncodeFixed32 0 ++ EncodeFixed32 1.

Lemma block_iterator_total_witness :
  exists it, Block_NewIterator (Block_make (mkContents damaged_block true true)) BytewiseComparator = Some it /\
    is_Some (careful_moves it [ToFirst; Forth; Forth; ToTarget (str "b"); Back]).
Proof.
  apply block_iterator_total; [by vm_compute|]. apply no_wrap_check_spec. by vm_compute.
Defined.
