(* ===== verification/TwoLevel.v ===== *)
(** * Two-level iterators

    [table/two_level_iterator.cc]: an iterator over the blocks an index iterator
    refers to.  It is verified against the iterator contract for any index and
    data iterators that satisfy it. *)

From S2P Require Import Prelude Slice Status Comparator Iterator.

(** [class TwoLevelIterator].  [block_function_] stands for the function with its
    argument and read options; [skip_fuel] bounds the turns of the skipping
    loops, one for each index entry. *)
Record TwoLevelIterator (X D : Type) := mkTwoLevel {
  block_function_ : bytes -> option D;
  skip_fuel : nat;
  tl_status_ : Status;
  index_iter_ : IteratorWrapper X;
  data_iter_ : IteratorWrapper D;
  data_block_handle_ : bytes
}.
Arguments mkTwoLevel {X D}.
Arguments block_function_ {X D}.
Arguments skip_fuel {X D}.
Arguments tl_status_ {X D}.
Arguments index_iter_ {X D}.
Arguments data_iter_ {X D}.
Arguments data_block_handle_ {X D}.

Section Operations.

Context {X D : Type} `{Iterator X} `{Iterator D}.

Implicit Types t : TwoLevelIterator X D.

Definition set_index t (w : IteratorWrapper X) : TwoLevelIterator X D :=
  mkTwoLevel (block_function_ t) (skip_fuel t) (tl_status_ t) w (data_iter_ t) (data_block_handle_ t).

Definition set_data t (w : IteratorWrapper D) : TwoLevelIterator X D :=
  mkTwoLevel (block_function_ t) (skip_fuel t) (tl_status_ t) (index_iter_ t) w (data_block_handle_ t).

Definition NewTwoLevelIterator (index_iter : X) (block_function : bytes -> option D) (fuel : nat)
  : TwoLevelIterator X D :=
  mkTwoLevel block_function fuel OK (Wrapper_Set Wrapper_new (Some index_iter)) Wrapper_new [].

Definition SaveError t (s : Status) : TwoLevelIterator X D :=
  if ok (tl_status_ t) && negb (ok s)
  then mkTwoLevel (block_function_ t) (skip_fuel t) s (index_iter_ t) (data_iter_ t) (data_block_handle_ t)
  else t.

Definition SetDataIterator t (data_iter : option D) : TwoLevelIterator X D :=
  let t := match iter_ (data_iter_ t) with
           | Some d => SaveError t (it_status d)
           | None => t
           end in
  set_data t (Wrapper_Set (data_iter_ t) data_iter).

Definition InitDataBlock t : option (TwoLevelIterator X D) :=
  if negb (valid_ (index_iter_ t)) then Some (SetDataIterator t None)
  else
    handle ← Wrapper_value (index_iter_ t);
    match iter_ (data_iter_ t) with
    | Some _ =>
        if compare handle (data_block_handle_ t) =? 0 then Some t
        else
          iter ← block_function_ t handle;
          Some (SetDataIterator (mkTwoLevel (block_function_ t) (skip_fuel t) (tl_status_ t)
                                   (index_iter_ t) (data_iter_ t) handle) (Some iter))
    | None =>
        iter ← block_function_ t handle;
        Some (SetDataIterator (mkTwoLevel (block_function_ t) (skip_fuel t) (tl_status_ t)
                                 (index_iter_ t) (data_iter_ t) handle) (Some iter))
    end.

(** [if (data_iter_.iter() != nullptr) data_iter_.move()] *)
Definition move_data t (f : IteratorWrapper D -> option (IteratorWrapper D))
  : option (TwoLevelIterator X D) :=
  match iter_ (data_iter_ t) with
  | Some _ => w ← f (data_iter_ t); Some (set_data t w)
  | None => Some t
  end.

Definition move_index t (f : IteratorWrapper X -> option (IteratorWrapper X))
  : option (TwoLevelIterator X D) :=
  w ← f (index_iter_ t); Some (set_index t w).

(** The condition of the skipping loops. *)
Definition data_exhausted t : bool :=
  match iter_ (data_iter_ t) with None => true | Some _ => negb (valid_ (data_iter_ t)) end.

Fixpoint skip_forward (fuel : nat) t : option (TwoLevelIterator X D) :=
  match fuel with
  | O => None
  | S fuel =>
      if data_exhausted t then
        if negb (valid_ (index_iter_ t)) then Some (SetDataIterator t None)
        else
          t ← move_index t Wrapper_Next;
          t ← InitDataBlock t;
          t ← move_data t Wrapper_SeekToFirst;
          skip_forward fuel t
      else Some t
  end.

Fixpoint skip_backward (fuel : nat) t : option (TwoLevelIterator X D) :=
  match fuel with
  | O => None
  | S fuel =>
      if data_exhausted t then
        if negb (valid_ (index_iter_ t)) then Some (SetDataIterator t None)
        else
          t ← move_index t Wrapper_Prev;
          t ← InitDataBlock t;
          t ← move_data t Wrapper_SeekToLast;
          skip_backward fuel t
      else Some t
  end.

Definition SkipEmptyDataBlocksForward t := skip_forward (skip_fuel t) t.
Definition SkipEmptyDataBlocksBackward t := skip_backward (skip_fuel t) t.

Definition TwoLevel_Seek t (target : bytes) : option (TwoLevelIterator X D) :=
  t ← move_index t (fun w => Wrapper_Seek w target);
  t ← InitDataBlock t;
  t ← move_data t (fun w => Wrapper_Seek w target);
  SkipEmptyDataBlocksForward t.

Definition TwoLevel_SeekToFirst t : option (TwoLevelIterator X D) :=
  t ← move_index t Wrapper_SeekToFirst;
  t ← InitDataBlock t;
  t ← move_data t Wrapper_SeekToFirst;
  SkipEmptyDataBlocksForward t.

Definition TwoLevel_SeekToLast t : option (TwoLevelIterator X D) :=
  t ← move_index t Wrapper_SeekToLast;
  t ← InitDataBlock t;
  t ← move_data t Wrapper_SeekToLast;
  SkipEmptyDataBlocksBackward t.

Definition TwoLevel_Next t : option (TwoLevelIterator X D) :=
  if valid_ (data_iter_ t) then
    w ← Wrapper_Next (data_iter_ t); SkipEmptyDataBlocksForward (set_data t w)
  else None.

Definition TwoLevel_Prev t : option (TwoLevelIterator X D) :=
  if valid_ (data_iter_ t) then
    w ← Wrapper_Prev (data_iter_ t); SkipEmptyDataBlocksBackward (set_data t w)
  else None.

Definition TwoLevel_status t : Status :=
  match Wrapper_status (index_iter_ t) with
  | Some s =>
      if negb (ok s) then s
      else match Wrapper_status (data_iter_ t) with
           | Some s => if negb (ok s) then s else tl_status_ t
           | None => tl_status_ t
           end
  | None => tl_status_ t
  end.

#[export] Instance TwoLevel_ops : Iterator (TwoLevelIterator X D) := {
  it_Valid t := valid_ (data_iter_ t);
  it_key t := wrapper_key_ (data_iter_ t);
  it_value t := match iter_ (data_iter_ t) with Some d => it_value d | None => [] end;
  it_status := TwoLevel_status;
  it_SeekToFirst := TwoLevel_SeekToFirst;
  it_SeekToLast := TwoLevel_SeekToLast;
  it_Seek := TwoLevel_Seek;
  it_Next := TwoLevel_Next;
  it_Prev := TwoLevel_Prev
}.

End Operations.

(** ** Correctness

    [idx] are the entries of the index and [blk h] those of the block with handle
    [h].  Each index key separates its block from the ones after it. *)

Section Correct.

Context {X D : Type} `{Iterator X} `{Iterator D} (cmp : bytes -> bytes -> Z) {T : ThreeWay cmp} (Tg : bytes -> Prop).
Context (idx : list entry) (posX : X -> option nat -> Prop) {HX : IteratesWithin Tg cmp idx posX}.
Context (blk : bytes -> list entry) (posD : bytes -> D -> option nat -> Prop).
Context (HD : forall h, h ∈ map snd idx -> IteratesWithin Tg cmp (blk h) (posD h)).
Context (bf : bytes -> option D).
Context (Hbf : forall h, h ∈ map snd idx -> exists d, bf h = Some d /\ posD h d None).
Context (Hupper : forall i k h e, idx !! i = Some (k, h) -> e ∈ blk h -> cmp (fst e) k <= 0).
Context (Hlower : forall i j k h k' h' e, (i < j)%nat -> idx !! i = Some (k, h) ->
  idx !! j = Some (k', h') -> e ∈ blk h' -> cmp k (fst e) < 0).

Implicit Types t : TwoLevelIterator X D.

Definition blocks : list (list entry) := map (fun e => blk (snd e)) idx.
Definition all_entries : list entry := concat blocks.

(** Position of the first entry of block [i]. *)
Definition offset (i : nat) : nat := length (concat (take i blocks)).

Lemma blocks_lookup i k h : idx !! i = Some (k, h) -> blocks !! i = Some (blk h).
Proof. intros Hi. unfold blocks. by rewrite list_lookup_fmap, Hi. Qed.

Lemma offset_S i k h : idx !! i = Some (k, h) -> offset (S i) = (offset i + length (blk h))%nat.
Proof.
  intros Hi. unfold offset. rewrite (take_S_r _ _ _ (blocks_lookup _ _ _ Hi)).
  rewrite concat_app, length_app. cbn. by rewrite app_nil_r.
Qed.

Lemma offset_end i : (length idx <= i)%nat -> offset i = length all_entries.
Proof.
  intros Hi. unfold offset, all_entries. rewrite take_ge; [done|]. unfold blocks. rewrite length_map. done.
Qed.

Lemma entry_of i k h j :
  idx !! i = Some (k, h) -> (j < length (blk h))%nat -> all_entries !! (offset i + j)%nat = blk h !! j.
Proof.
  intros Hi Hj. unfold all_entries, offset.
  pose proof (f_equal (@concat entry) (take_drop_middle _ _ _ (blocks_lookup _ _ _ Hi))) as E.
  rewrite concat_app in E. rewrite <- E, lookup_app_r by lia. rewrite Nat.add_comm, Nat.add_sub.
  cbn. by rewrite lookup_app_l.
Qed.

Lemma offset_le i : (offset i <= length all_entries)%nat.
Proof.
  unfold offset, all_entries. rewrite <- (take_drop i blocks) at 2. rewrite concat_app, length_app. lia.
Qed.

Lemma offset_mono i j : (i <= j)%nat -> (offset i <= offset j)%nat.
Proof.
  intros Hij. unfold offset. replace (take j blocks) with (take i blocks ++ take (j - i) (drop i blocks)).
  - rewrite concat_app, length_app. lia.
  - rewrite take_take_drop. f_equal. lia.
Qed.

(** Every entry lies in a block. *)
Lemma entry_in n e :
  all_entries !! n = Some e ->
  exists i k h j, idx !! i = Some (k, h) /\ n = (offset i + j)%nat /\ blk h !! j = Some e.
Proof.
  unfold all_entries, blocks, offset. clear - idx blk.
  assert (forall l n, concat (map (fun x : entry => blk (snd x)) l) !! n = Some e ->
    exists i k h j, l !! i = Some (k, h) /\
      n = (length (concat (take i (map (fun x : entry => blk (snd x)) l))) + j)%nat /\
      blk h !! j = Some e) as Hgen; [|apply Hgen].
  induction l as [|[k h] l IH]; cbn; [done|]. intros m Hm. rewrite lookup_app in Hm.
  destruct (blk h !! m) as [e'|] eqn:E.
  - simplify_eq. exists 0%nat, k, h, m. done.
  - destruct (IH _ Hm) as (i & k' & h' & j & Hi & Hn & Hj). apply lookup_ge_None in E.
    exists (S i), k', h', j. cbn. rewrite length_app. split; [done|]. split; [lia|done].
Qed.
(** *** States *)

Definition index_at t (q : option nat) : Prop :=
  exists x, iter_ (index_iter_ t) = Some x /\ posX x q /\ wrapper_ok (index_iter_ t).

(** A data iterator, if there is one, goes through the block of the remembered
    handle. *)
Definition data_ok t : Prop :=
  wrapper_ok (data_iter_ t) /\
  match iter_ (data_iter_ t) with
  | None => True
  | Some d => data_block_handle_ t ∈ map snd idx /\ exists dp, posD (data_block_handle_ t) d dp
  end.

Definition data_at t (h : bytes) (dp : option nat) : Prop :=
  data_block_handle_ t = h /\ exists d, iter_ (data_iter_ t) = Some d /\ posD h d dp.

Definition sound t (q : option nat) : Prop :=
  block_function_ t = bf /\ (length idx < skip_fuel t)%nat /\ ok (tl_status_ t) = true /\
  index_at t q /\ data_ok t.

Definition tl_pos t (p : option nat) : Prop :=
  match p with
  | None => exists q, sound t q /\ iter_ (data_iter_ t) = None
  | Some n => exists i k h j, idx !! i = Some (k, h) /\ sound t (Some i) /\
      data_at t h (Some j) /\ n = (offset i + j)%nat
  end.

Lemma handle_in i k h : idx !! i = Some (k, h) -> h ∈ map snd idx.
Proof. intros Hi. apply list_elem_of_fmap. exists (k, h). split; [done|]. by apply (list_elem_of_lookup_2 _ i). Qed.

Lemma index_valid t q : index_at t q -> valid_ (index_iter_ t) = bool_decide (is_Some q).
Proof.
  intros (x & Hx & Hp & Hw). unfold wrapper_ok in Hw. rewrite Hx in Hw. destruct Hw as [-> _].
  exact (iter_valid _ _ Hp).
Qed.

Lemma data_valid t h dp :
  data_ok t -> h ∈ map snd idx -> data_at t h dp -> valid_ (data_iter_ t) = bool_decide (is_Some dp).
Proof.
  intros [Hw _] Hin [_ (d & Hd & Hp)]. unfold wrapper_ok in Hw. rewrite Hd in Hw. destruct Hw as [-> _].
  pose proof (HD h Hin). exact (iter_valid _ _ Hp).
Qed.

Lemma move_index_spec t q q' (g : X -> option X) :
  sound t q -> (forall x, posX x q -> exists x', g x = Some x' /\ posX x' q') ->
  exists t', move_index t (fun w => forward w g) = Some t' /\ sound t' q'.
Proof.
  intros (Hb & Hf & Hs & (x & Hx & Hp & Hw) & Hd) Hg. destruct (Hg x Hp) as (x' & Hgx & Hp').
  destruct (forward_spec (index_iter_ t) g x x' Hx Hgx) as (w' & Hw' & Hok & Hit).
  unfold move_index. rewrite Hw'. cbn. eexists. split; [done|].
  split; [done|]. split; [done|]. split; [done|]. split; [|done]. exists x'. done.
Qed.

Lemma move_data_spec t q h dp dp' (g : D -> option D) :
  sound t q -> h ∈ map snd idx -> data_at t h dp ->
  (forall d, posD h d dp -> exists d', g d = Some d' /\ posD h d' dp') ->
  exists t', (w ← forward (data_iter_ t) g; Some (set_data t w)) = Some t' /\
    sound t' q /\ data_at t' h dp'.
Proof.
  intros (Hb & Hf & Hs & Hi & Hdk) Hin [Hh (d & Hd & Hp)] Hg. destruct (Hg d Hp) as (d' & Hgd & Hp').
  destruct (forward_spec (data_iter_ t) g d d' Hd Hgd) as (w' & Hw' & Hok & Hit).
  rewrite Hw'. cbn. eexists. split; [done|]. split.
  - split; [done|]. split; [done|]. split; [done|]. split; [done|]. split; [done|]. cbn. rewrite Hit, Hh. eauto.
  - split; [done|]. exists d'. done.
Qed.

Lemma move_data_at t q h dp dp' (g : D -> option D) :
  sound t q -> h ∈ map snd idx -> data_at t h dp ->
  (forall d, posD h d dp -> exists d', g d = Some d' /\ posD h d' dp') ->
  exists t', move_data t (fun w => forward w g) = Some t' /\ sound t' q /\ data_at t' h dp'.
Proof.
  intros Hs Hin Hda Hg. unfold move_data. pose proof Hda as [_ (d & -> & _)].
  by apply (move_data_spec t q h dp dp' g).
Qed.

Lemma SetDataIterator_spec t q (d : option D) h dp :
  block_function_ t = bf -> (length idx < skip_fuel t)%nat -> ok (tl_status_ t) = true ->
  index_at t q -> (forall d0, iter_ (data_iter_ t) = Some d0 -> ok (it_status d0) = true) ->
  (forall d1, d = Some d1 -> data_block_handle_ t = h /\ h ∈ map snd idx /\ posD h d1 dp) ->
  let t' := SetDataIterator t d in
  sound t' q /\ iter_ (data_iter_ t') = d /\ data_block_handle_ t' = data_block_handle_ t.
Proof.
  intros Hb Hf Hs Hi Hok Hd. unfold SetDataIterator.
  assert (match iter_ (data_iter_ t) with Some d0 => SaveError t (it_status d0) | None => t end = t) as ->.
  { destruct (iter_ (data_iter_ t)) as [d0|] eqn:E; [|done]. unfold SaveError.
    rewrite (Hok d0 eq_refl), andb_false_r. done. }
  destruct (Wrapper_Set_ok (data_iter_ t) d) as [Hw Hit]. cbn. rewrite Hit. split; [|done].
  split; [done|]. split; [done|]. split; [done|]. split; [done|]. split; [done|]. cbn. rewrite Hit.
  destruct d as [d1|]; [|done]. destruct (Hd d1 eq_refl) as (-> & Hin & Hp). eauto.
Qed.

Lemma data_status_ok t q : sound t q -> forall d, iter_ (data_iter_ t) = Some d -> ok (it_status d) = true.
Proof.
  intros (_ & _ & _ & _ & _ & Hm) d Hd. rewrite Hd in Hm. destruct Hm as (Hin & dp & Hp).
  pose proof (HD _ Hin). by eapply iter_status.
Qed.

Lemma clear_data t q : sound t q -> tl_pos (SetDataIterator t None) None.
Proof.
  intros Hs. pose proof Hs as (Hb & Hf & Hst & Hi & _). exists q.
  destruct (SetDataIterator_spec t q None [] None Hb Hf Hst Hi (data_status_ok _ _ Hs)) as (A & B & _);
    [done|]. done.
Qed.

Lemma InitDataBlock_none t :
  sound t None -> exists t', InitDataBlock t = Some t' /\ sound t' None /\ iter_ (data_iter_ t') = None.
Proof.
  intros Hs. pose proof Hs as (Hb & Hf & Hst & Hi & _). unfold InitDataBlock.
  rewrite (index_valid _ _ Hi), bool_decide_false by (by intros []). cbn [negb].
  eexists. split; [done|].
  destruct (SetDataIterator_spec t None None [] None Hb Hf Hst Hi (data_status_ok _ _ Hs)) as (A & B & _);
    [done|]. done.
Qed.

Lemma InitDataBlock_spec t i k h :
  sound t (Some i) -> idx !! i = Some (k, h) ->
  exists t' dp, InitDataBlock t = Some t' /\ sound t' (Some i) /\ data_at t' h dp.
Proof.
  intros Hs Hi. pose proof Hs as (Hb & Hf & Hst & Hix & Hdk). unfold InitDataBlock.
  rewrite (index_valid _ _ Hix), bool_decide_true by done. cbn [negb].
  assert (Wrapper_value (index_iter_ t) = Some h) as ->.
  { unfold Wrapper_value. rewrite (index_valid _ _ Hix), bool_decide_true by done.
    destruct Hix as (x & -> & Hp & _). cbn. pose proof (iter_entry _ _ Hp) as He. rewrite Hi in He. congruence. }
  cbn [mbind option_bind]. pose proof (handle_in _ _ _ Hi) as Hin.
  destruct (Hbf h Hin) as (d1 & Hbf1 & Hp1).
  assert (exists t' dp,
    (iter ← block_function_ t h; Some (SetDataIterator (mkTwoLevel (block_function_ t) (skip_fuel t)
       (tl_status_ t) (index_iter_ t) (data_iter_ t) h) (Some iter))) = Some t' /\
    sound t' (Some i) /\ data_at t' h dp) as Hfresh.
  { rewrite Hb, Hbf1. cbn [mbind option_bind]. eexists _, None. split; [done|].
    destruct (SetDataIterator_spec (mkTwoLevel bf (skip_fuel t) (tl_status_ t) (index_iter_ t) (data_iter_ t) h)
      (Some i) (Some d1) h None eq_refl Hf Hst Hix (data_status_ok t (Some i) Hs)) as (A & B & C).
    { intros d [= <-]. done. }
    split; [done|]. split; [done|]. exists d1. done. }
  destruct (iter_ (data_iter_ t)) as [d|] eqn:Ed; [|exact Hfresh].
  destruct (Z.eqb_spec (compare h (data_block_handle_ t)) 0) as [E|_]; [|exact Hfresh].
  rewrite compare_lex in E. apply lex_eq in E.
  destruct Hdk as [_ Hm]. rewrite Ed in Hm. destruct Hm as (_ & dp & Hp). rewrite <- E in Hp.
  exists t, dp. split; [done|]. split; [done|]. split; [done|]. exists d. done.
Qed.

(** *** The skipping loops *)

Lemma exhausted_at t q h dp :
  sound t q -> h ∈ map snd idx -> data_at t h dp -> data_exhausted t = negb (bool_decide (is_Some dp)).
Proof.
  intros (_ & _ & _ & _ & Hdk) Hin Hda. unfold data_exhausted.
  pose proof Hda as [_ (d & -> & _)]. by rewrite (data_valid t h dp Hdk Hin Hda).
Qed.

Lemma at_tl_pos t i k h j :
  idx !! i = Some (k, h) -> sound t (Some i) -> data_at t h (Some j) -> tl_pos t (Some (offset i + j)%nat).
Proof. intros Hi Hs Hd. exists i, k, h, j. done. Qed.

Lemma skip_forward_none fuel t :
  sound t None -> iter_ (data_iter_ t) = None -> (0 < fuel)%nat ->
  exists t', skip_forward fuel t = Some t' /\ tl_pos t' None.
Proof.
  intros Hs Hd Hf. destruct fuel as [|fuel]; [lia|]. cbn [skip_forward]. unfold data_exhausted. rewrite Hd.
  rewrite (index_valid t None) by apply Hs. rewrite bool_decide_false by (by intros []). cbn [negb].
  eexists. split; [done|]. by apply (clear_data t None).
Qed.

Lemma skip_backward_none fuel t :
  sound t None -> iter_ (data_iter_ t) = None -> (0 < fuel)%nat ->
  exists t', skip_backward fuel t = Some t' /\ tl_pos t' None.
Proof.
  intros Hs Hd Hf. destruct fuel as [|fuel]; [lia|]. cbn [skip_backward]. unfold data_exhausted. rewrite Hd.
  rewrite (index_valid t None) by apply Hs. rewrite bool_decide_false by (by intros []). cbn [negb].
  eexists. split; [done|]. by apply (clear_data t None).
Qed.

(** From block [i]: the data position, or the first entry of a later block. *)
Lemma skip_forward_spec fuel t i k h dp :
  idx !! i = Some (k, h) -> sound t (Some i) -> data_at t h dp -> (length idx - i < fuel)%nat ->
  exists t', skip_forward fuel t = Some t' /\
    tl_pos t' (match dp with Some j => Some (offset i + j)%nat | None => clip all_entries (offset (S i)) end).
Proof.
  revert t i k h dp. induction fuel as [|fuel IH]; intros t i k h dp Hi Hs Hd Hf; [lia|].
  pose proof (handle_in _ _ _ Hi) as Hin. apply lookup_lt_Some in Hi as Hlt.
  cbn [skip_forward]. rewrite (exhausted_at t _ h dp Hs Hin Hd).
  destruct dp as [j|].
  { rewrite bool_decide_true by done. cbn. eexists. split; [done|]. by apply (at_tl_pos t i k h). }
  rewrite bool_decide_false by (by intros []). cbn [negb].
  rewrite (index_valid t (Some i)) by apply Hs. rewrite bool_decide_true by done. cbn [negb].
  destruct (move_index_spec t (Some i) (clip idx (S i)) it_Next Hs) as (t1 & Ht1 & Hs1).
  { intros x Hx. by apply iter_next. }
  unfold Wrapper_Next. rewrite Ht1. cbn [mbind option_bind].
  unfold clip in Hs1. destruct (decide (S i < length idx)%nat) as [HS|HS].
  - destruct (lookup_lt_is_Some_2 idx (S i) HS) as [[k' h'] Hi'].
    destruct (InitDataBlock_spec t1 (S i) k' h' Hs1 Hi') as (t2 & dp2 & -> & Hs2 & Hd2). cbn [mbind option_bind].
    pose proof (handle_in _ _ _ Hi') as Hin'. pose proof (HD h' Hin').
    destruct (move_data_at t2 _ h' dp2 (clip (blk h') 0) it_SeekToFirst Hs2 Hin' Hd2) as (t3 & Ht3 & Hs3 & Hd3).
    { intros d Hp. by apply (iter_first d dp2). }
    unfold Wrapper_SeekToFirst. rewrite Ht3. cbn [mbind option_bind].
    destruct (IH t3 (S i) k' h' _ Hi' Hs3 Hd3) as (t' & Ht' & Hp'); [lia|].
    exists t'. split; [done|]. revert Hp'. unfold clip. pose proof (offset_S _ _ _ Hi') as Ho.
    pose proof (offset_le (S (S i))). rewrite Ho in *. destruct (decide (0 < length (blk h'))%nat).
    + rewrite Nat.add_0_r, (decide_True (P := (offset (S i) < _)%nat)) by lia. done.
    + replace (length (blk h')) with 0%nat by lia. by rewrite Nat.add_0_r.
  - destruct (InitDataBlock_none t1 Hs1) as (t2 & -> & Hs2 & Hd2). cbn [mbind option_bind].
    unfold move_data. rewrite Hd2. cbn [mbind option_bind].
    destruct (skip_forward_none fuel t2 Hs2 Hd2) as (t' & -> & Hp'); [lia|].
    exists t'. split; [done|]. unfold clip. rewrite (offset_end (S i)) by lia.
    by rewrite decide_False by lia.
Qed.

(** From block [i]: the data position, or the last entry of an earlier block. *)
Lemma skip_backward_spec fuel t i k h dp :
  idx !! i = Some (k, h) -> sound t (Some i) -> data_at t h dp -> (i + 1 < fuel)%nat ->
  exists t', skip_backward fuel t = Some t' /\
    tl_pos t' (match dp with Some j => Some (offset i + j)%nat | None => before (offset i) end).
Proof.
  revert t i k h dp. induction fuel as [|fuel IH]; intros t i k h dp Hi Hs Hd Hf; [lia|].
  pose proof (handle_in _ _ _ Hi) as Hin. apply lookup_lt_Some in Hi as Hlt.
  cbn [skip_backward]. rewrite (exhausted_at t _ h dp Hs Hin Hd).
  destruct dp as [j|].
  { rewrite bool_decide_true by done. cbn. eexists. split; [done|]. by apply (at_tl_pos t i k h). }
  rewrite bool_decide_false by (by intros []). cbn [negb].
  rewrite (index_valid t (Some i)) by apply Hs. rewrite bool_decide_true by done. cbn [negb].
  destruct (move_index_spec t (Some i) (before i) it_Prev Hs) as (t1 & Ht1 & Hs1).
  { intros x Hx. by apply iter_prev. }
  unfold Wrapper_Prev. rewrite Ht1. cbn [mbind option_bind].
  destruct i as [|i]; cbn [before] in Hs1.
  - destruct (InitDataBlock_none t1 Hs1) as (t2 & -> & Hs2 & Hd2). cbn [mbind option_bind].
    unfold move_data. rewrite Hd2. cbn [mbind option_bind].
    by apply skip_backward_none; [| |lia].
  - destruct (lookup_lt_is_Some_2 idx i ltac:(lia)) as [[k' h'] Hi'].
    destruct (InitDataBlock_spec t1 i k' h' Hs1 Hi') as (t2 & dp2 & -> & Hs2 & Hd2). cbn [mbind option_bind].
    pose proof (handle_in _ _ _ Hi') as Hin'. pose proof (HD h' Hin').
    destruct (move_data_at t2 _ h' dp2 (last_pos (blk h')) it_SeekToLast Hs2 Hin' Hd2) as (t3 & Ht3 & Hs3 & Hd3).
    { intros d Hp. by apply (iter_last d dp2). }
    unfold Wrapper_SeekToLast. rewrite Ht3. cbn [mbind option_bind].
    destruct (IH t3 i k' h' _ Hi' Hs3 Hd3) as (t' & Ht' & Hp'); [lia|].
    exists t'. split; [done|]. revert Hp'. unfold last_pos. rewrite (offset_S _ _ _ Hi').
    destruct (length (blk h')) as [|n]; cbn [before]; [by rewrite Nat.add_0_r|].
    by rewrite Nat.add_succ_r.
Qed.

(** *** Seeking

    The entries below a target are those of the blocks before the one the index
    leads to, and the ones below it in that block. *)

Lemma earlier_below target i n e :
  (i <= below cmp target idx)%nat -> all_entries !! n = Some e -> (n < offset i)%nat ->
  cmp (fst e) target < 0.
Proof.
  intros Hi He Hn. destruct (entry_in n e He) as (i' & k & h & j & Hi' & -> & Hj).
  assert (i' < i)%nat as Hlt.
  { destruct (Nat.lt_ge_cases i' i); [done|]. pose proof (offset_mono i i'). lia. }
  pose proof (Hupper i' k h e Hi' (list_elem_of_lookup_2 _ _ _ Hj)) as Hu.
  apply (cmp_le_lt_trans cmp _ k); [done|].
  apply (below_lt cmp target idx i' (k, h) Hi'). lia.
Qed.

Lemma below_all_in target i k h :
  idx !! i = Some (k, h) -> below cmp target idx = i ->
  below cmp target all_entries = (offset i + below cmp target (blk h))%nat.
Proof.
  intros Hi Hb. pose proof (below_le cmp target (blk h)) as Hle.
  assert (0 <= cmp k target) as Hk by (apply (below_at cmp target idx (k, h)); by rewrite Hb).
  pose proof (offset_S _ _ _ Hi) as HoS. pose proof (offset_le (S i)).
  apply (below_unique cmp); [lia| |].
  - intros n e Hn He. destruct (Nat.lt_ge_cases n (offset i)) as [|Hge].
    + apply (earlier_below target i n e); [lia|done|done].
    + replace n with (offset i + (n - offset i))%nat in He by lia.
      rewrite (entry_of i k h) in He by (done || lia).
      apply (below_lt cmp target (blk h) _ _ He). lia.
  - intros e He. destruct (Nat.eq_dec (below cmp target (blk h)) (length (blk h))) as [Heq|Hne].
    + destruct (entry_in _ e He) as (i' & k' & h' & j & Hi' & Hn & Hj).
      assert (i < i')%nat as Hlt.
      { destruct (Nat.lt_ge_cases i i'); [done|]. apply lookup_lt_Some in Hj.
        pose proof (offset_mono (S i') (S i)). rewrite (offset_S _ _ _ Hi') in *. lia. }
      pose proof (Hlower i i' k h k' h' e Hlt Hi Hi' (list_elem_of_lookup_2 _ _ _ Hj)) as Hl.
      apply cmp_ge_opp; [done|]. apply Z.lt_le_incl, (cmp_le_lt_trans cmp _ k); [|done].
      by apply cmp_ge_opp.
    + rewrite (entry_of i k h) in He by (done || lia). by apply (below_at cmp target (blk h)).
Qed.

Lemma below_all_end target :
  below cmp target idx = length idx -> below cmp target all_entries = length all_entries.
Proof.
  intros Hb. apply (below_unique cmp); [lia| |].
  - intros n e Hn He. apply (earlier_below target (length idx) n e); [lia|done|].
    by rewrite (offset_end (length idx)).
  - intros e He. apply lookup_lt_Some in He. lia.
Qed.

(** *** The contract *)

Lemma first_spec t q :
  sound t q -> exists t', TwoLevel_SeekToFirst t = Some t' /\ tl_pos t' (clip all_entries 0).
Proof.
  intros Hs. unfold TwoLevel_SeekToFirst.
  destruct (move_index_spec t q (clip idx 0) it_SeekToFirst Hs) as (t1 & Ht1 & Hs1).
  { intros x Hx. by apply (iter_first x q). }
  unfold Wrapper_SeekToFirst. rewrite Ht1. cbn [mbind option_bind]. unfold clip in Hs1.
  destruct (decide (0 < length idx)%nat) as [Hl|Hl].
  - destruct (lookup_lt_is_Some_2 idx 0 Hl) as [[k h] Hi].
    destruct (InitDataBlock_spec t1 0 k h Hs1 Hi) as (t2 & dp2 & -> & Hs2 & Hd2). cbn [mbind option_bind].
    pose proof (handle_in _ _ _ Hi) as Hin. pose proof (HD h Hin).
    destruct (move_data_at t2 _ h dp2 (clip (blk h) 0) it_SeekToFirst Hs2 Hin Hd2) as (t3 & Ht3 & Hs3 & Hd3).
    { intros d Hp. by apply (iter_first d dp2). }
    rewrite Ht3. cbn [mbind option_bind].
    destruct (skip_forward_spec (skip_fuel t3) t3 0 k h _ Hi Hs3 Hd3) as (t' & Ht' & Hp').
    { pose proof Hs3 as (_ & Hf & _). lia. }
    exists t'. split; [done|]. revert Hp'. unfold clip. pose proof (offset_S _ _ _ Hi) as Ho.
    change (offset 0) with 0%nat in *. cbn [Nat.add] in Ho. pose proof (offset_le 1). rewrite Ho in *.
    destruct (decide (0 < length (blk h))%nat).
    + by rewrite decide_True by lia.
    + by replace (length (blk h)) with 0%nat by lia.
  - destruct (InitDataBlock_none t1 Hs1) as (t2 & -> & Hs2 & Hd2). cbn [mbind option_bind].
    unfold move_data. rewrite Hd2. cbn [mbind option_bind].
    destruct (skip_forward_none (skip_fuel t2) t2 Hs2 Hd2) as (t' & Ht' & Hp').
    { pose proof Hs2 as (_ & Hf & _). lia. }
    exists t'. split; [done|]. unfold clip. rewrite decide_False; [done|].
    pose proof (offset_end 0). change (offset 0) with 0%nat in *. lia.
Qed.

Lemma last_spec t q :
  sound t q -> exists t', TwoLevel_SeekToLast t = Some t' /\ tl_pos t' (last_pos all_entries).
Proof.
  intros Hs. unfold TwoLevel_SeekToLast.
  destruct (move_index_spec t q (last_pos idx) it_SeekToLast Hs) as (t1 & Ht1 & Hs1).
  { intros x Hx. by apply (iter_last x q). }
  unfold Wrapper_SeekToLast. rewrite Ht1. cbn [mbind option_bind]. unfold last_pos in *.
  destruct (length idx) as [|n] eqn:El; cbn [before] in Hs1.
  - destruct (InitDataBlock_none t1 Hs1) as (t2 & -> & Hs2 & Hd2). cbn [mbind option_bind].
    unfold move_data. rewrite Hd2. cbn [mbind option_bind].
    rewrite <- (offset_end 0) by lia. change (offset 0) with 0%nat. cbn [before].
    apply skip_backward_none; [done|done|]. pose proof Hs2 as (_ & Hf & _). lia.
  - destruct (lookup_lt_is_Some_2 idx n ltac:(lia)) as [[k h] Hi].
    destruct (InitDataBlock_spec t1 n k h Hs1 Hi) as (t2 & dp2 & -> & Hs2 & Hd2). cbn [mbind option_bind].
    pose proof (handle_in _ _ _ Hi) as Hin. pose proof (HD h Hin).
    destruct (move_data_at t2 _ h dp2 (last_pos (blk h)) it_SeekToLast Hs2 Hin Hd2) as (t3 & Ht3 & Hs3 & Hd3).
    { intros d Hp. by apply (iter_last d dp2). }
    rewrite Ht3. cbn [mbind option_bind].
    destruct (skip_backward_spec (skip_fuel t3) t3 n k h _ Hi Hs3 Hd3) as (t' & Ht' & Hp').
    { pose proof Hs3 as (_ & Hf & _). lia. }
    exists t'. split; [done|]. revert Hp'. rewrite <- (offset_end (S n)), (offset_S _ _ _ Hi) by lia.
    unfold last_pos. destruct (length (blk h)) as [|m]; cbn [before]; [by rewrite Nat.add_0_r|].
    by rewrite Nat.add_succ_r.
Qed.

Lemma seek_spec t q target :
  sound t q -> Tg target ->
  exists t', TwoLevel_Seek t target = Some t' /\ tl_pos t' (seek_pos cmp target all_entries).
Proof.
  intros Hs Htg. unfold TwoLevel_Seek.
  destruct (move_index_spec t q (seek_pos cmp target idx) (fun x => it_Seek x target) Hs) as (t1 & Ht1 & Hs1).
  { intros x Hx. by apply (iter_seek x q). }
  unfold Wrapper_Seek. rewrite Ht1. cbn [mbind option_bind]. unfold seek_pos, clip in Hs1.
  pose proof (below_le cmp target idx) as Hble.
  destruct (decide (below cmp target idx < length idx)%nat) as [Hl|Hl].
  - destruct (lookup_lt_is_Some_2 idx _ Hl) as [[k h] Hi].
    destruct (InitDataBlock_spec t1 _ k h Hs1 Hi) as (t2 & dp2 & -> & Hs2 & Hd2). cbn [mbind option_bind].
    pose proof (handle_in _ _ _ Hi) as Hin. pose proof (HD h Hin).
    destruct (move_data_at t2 _ h dp2 (seek_pos cmp target (blk h)) (fun d => it_Seek d target) Hs2 Hin Hd2)
      as (t3 & Ht3 & Hs3 & Hd3).
    { intros d Hp. by apply (iter_seek d dp2). }
    rewrite Ht3. cbn [mbind option_bind].
    destruct (skip_forward_spec (skip_fuel t3) t3 _ k h _ Hi Hs3 Hd3) as (t' & Ht' & Hp').
    { pose proof Hs3 as (_ & Hf & _). lia. }
    exists t'. split; [done|]. revert Hp'. unfold seek_pos, clip.
    rewrite (below_all_in target _ k h Hi eq_refl). pose proof (below_le cmp target (blk h)).
    pose proof (offset_S _ _ _ Hi) as Ho. pose proof (offset_le (S (below cmp target idx))). rewrite Ho in *.
    destruct (decide (below cmp target (blk h) < length (blk h))%nat).
    + by rewrite decide_True by lia.
    + by replace (length (blk h)) with (below cmp target (blk h)) by lia.
  - destruct (InitDataBlock_none t1 Hs1) as (t2 & -> & Hs2 & Hd2). cbn [mbind option_bind].
    unfold move_data. rewrite Hd2. cbn [mbind option_bind].
    destruct (skip_forward_none (skip_fuel t2) t2 Hs2 Hd2) as (t' & Ht' & Hp').
    { pose proof Hs2 as (_ & Hf & _). lia. }
    exists t'. split; [done|]. unfold seek_pos, clip. rewrite below_all_end by lia.
    by rewrite decide_False by lia.
Qed.

Lemma next_spec t n :
  tl_pos t (Some n) -> exists t', TwoLevel_Next t = Some t' /\ tl_pos t' (clip all_entries (S n)).
Proof.
  intros (i & k & h & j & Hi & Hs & Hd & ->). pose proof (handle_in _ _ _ Hi) as Hin. pose proof (HD h Hin).
  pose proof Hs as (_ & _ & _ & _ & Hdk). unfold TwoLevel_Next.
  rewrite (data_valid t h (Some j) Hdk Hin Hd), bool_decide_true by done.
  destruct (move_data_spec t _ h (Some j) (clip (blk h) (S j)) it_Next Hs Hin Hd) as (t1 & Ht1 & Hs1 & Hd1).
  { intros d Hp. by apply iter_next. }
  unfold Wrapper_Next. destruct (forward (data_iter_ t) it_Next) as [w|]; cbn [mbind option_bind] in *; [|done].
  simplify_eq. destruct (skip_forward_spec (skip_fuel t) (set_data t w) i k h _ Hi Hs1 Hd1) as (t' & Ht' & Hp').
  { pose proof Hs as (_ & Hf & _). lia. }
  exists t'. split; [done|]. revert Hp'. unfold clip. pose proof (offset_S _ _ _ Hi) as Ho.
  pose proof (offset_le (S i)). rewrite Ho in *. destruct Hd as (_ & d & _ & Hp).
  apply iter_entry, lookup_lt_Some in Hp. destruct (decide (S j < length (blk h))%nat).
  - rewrite decide_True by lia. by rewrite Nat.add_succ_r.
  - replace (length (blk h)) with (S j) by lia. by rewrite Nat.add_succ_r.
Qed.

Lemma prev_spec t n :
  tl_pos t (Some n) -> exists t', TwoLevel_Prev t = Some t' /\ tl_pos t' (before n).
Proof.
  intros (i & k & h & j & Hi & Hs & Hd & ->). pose proof (handle_in _ _ _ Hi) as Hin. pose proof (HD h Hin).
  pose proof Hs as (_ & _ & _ & _ & Hdk). unfold TwoLevel_Prev.
  rewrite (data_valid t h (Some j) Hdk Hin Hd), bool_decide_true by done.
  destruct (move_data_spec t _ h (Some j) (before j) it_Prev Hs Hin Hd) as (t1 & Ht1 & Hs1 & Hd1).
  { intros d Hp. by apply iter_prev. }
  unfold Wrapper_Prev. destruct (forward (data_iter_ t) it_Prev) as [w|]; cbn [mbind option_bind] in *; [|done].
  simplify_eq. destruct (skip_backward_spec (skip_fuel t) (set_data t w) i k h _ Hi Hs1 Hd1) as (t' & Ht' & Hp').
  { pose proof Hs as (_ & Hf & _). apply lookup_lt_Some in Hi. lia. }
  exists t'. split; [done|]. revert Hp'. destruct j as [|j]; cbn [before]; [by rewrite Nat.add_0_r|].
  by rewrite Nat.add_succ_r.
Qed.

Lemma tl_sound t p : tl_pos t p -> exists q, sound t q.
Proof. destruct p as [n|]; [intros (i & k & h & j & _ & Hs & _)|intros (q & Hs & _)]; eauto. Qed.

#[export] Instance TwoLevel_iterates : IteratesWithin Tg cmp all_entries tl_pos.
Proof.
  split.
  - intros t [n|]; cbn.
    + intros (i & k & h & j & Hi & Hs & Hd & ->). pose proof Hs as (_ & _ & _ & _ & Hdk).
      by rewrite (data_valid t h (Some j) Hdk (handle_in _ _ _ Hi) Hd).
    + intros (q & (_ & _ & _ & _ & Hw & _) & Hn). unfold wrapper_ok in Hw. rewrite Hn in Hw.
      rewrite Hw. done.
  - intros t n (i & k & h & j & Hi & Hs & (_ & d & Hd & Hp) & ->). cbn. rewrite Hd.
    pose proof (handle_in _ _ _ Hi) as Hin. pose proof (HD h Hin).
    pose proof (iter_entry _ _ Hp) as He. apply lookup_lt_Some in He as Hj.
    rewrite (entry_of i k h j Hi Hj), He. do 2 f_equal.
    destruct Hs as (_ & _ & _ & _ & Hw & _). unfold wrapper_ok in Hw. rewrite Hd in Hw.
    symmetry. apply Hw. rewrite (iter_valid _ _ Hp). by rewrite bool_decide_true.
  - intros t p Hp. destruct (tl_sound t p Hp) as (q & Hs). cbn. unfold TwoLevel_status, Wrapper_status.
    pose proof Hs as (_ & _ & Hst & (x & -> & Hx & _) & _). cbn. rewrite (iter_status _ _ Hx). cbn.
    destruct (iter_ (data_iter_ t)) as [d|] eqn:Ed; cbn; [|done].
    by rewrite (data_status_ok _ _ Hs d Ed).
  - intros t p Hp. destruct (tl_sound t p Hp) as (q & Hs). by apply (first_spec t q).
  - intros t p Hp. destruct (tl_sound t p Hp) as (q & Hs). by apply (last_spec t q).
  - intros t p target Hp Ht. destruct (tl_sound t p Hp) as (q & Hs). by apply (seek_spec t q).
  - intros t n Hp. by apply next_spec.
  - intros t n Hp. by apply prev_spec.
Qed.

Lemma NewTwoLevelIterator_pos x fuel :
  posX x None -> (length idx < fuel)%nat -> tl_pos (NewTwoLevelIterator x bf fuel) None.
Proof.
  intros Hx Hf. destruct (Wrapper_Set_ok (I := X) Wrapper_new (Some x)) as [Hw Hit].
  exists None. split; [|done]. split; [done|]. split; [done|]. split; [done|]. split; [|done].
  exists x. done.
Qed.

End Correct.
