(* ===== verification/Merger.v ===== *)
(** * Merging iterators

    [table/merger.cc]: an iterator over the union of what its children iterate
    over.  It is verified against the iterator contract: over children that
    iterate over sorted lists with no key in common, it iterates over the sorted
    list of all their entries, through any sequence of moves in both
    directions. *)

From S2P Require Import Prelude Slice Status Comparator Iterator.

Inductive Direction := kForward | kReverse.

(** [class MergingIterator].  [current_] is the index of the current child. *)
Record MergingIterator (I : Type) := mkMerging {
  comparator_ : Comparator;
  children_ : list (IteratorWrapper I);
  current_ : option nat;
  direction_ : Direction
}.
Arguments mkMerging {I}.
Arguments comparator_ {I}.
Arguments children_ {I}.
Arguments current_ {I}.
Arguments direction_ {I}.

Section Operations.

Context {I : Type} `{Iterator I}.

Implicit Types t : MergingIterator I.

Definition Merging_make (c : Comparator) (children : list I) : MergingIterator I :=
  mkMerging c (map (fun it => Wrapper_Set Wrapper_new (Some it)) children) None kForward.

(** The loops of [FindSmallest] and [FindLargest]: keep the first valid child, or
    a later one that is strictly [better]. *)
Fixpoint pick_child (better : bytes -> bytes -> bool) (cs : list (nat * IteratorWrapper I))
    (best : option (nat * IteratorWrapper I)) : option (nat * IteratorWrapper I) :=
  match cs with
  | [] => best
  | (i, child) :: cs =>
      let best :=
        if valid_ child then
          match best with
          | None => Some (i, child)
          | Some (_, b) =>
              if better (wrapper_key_ child) (wrapper_key_ b) then Some (i, child) else best
          end
        else best in
      pick_child better cs best
  end.

Definition FindSmallest t : MergingIterator I :=
  let better a b := Compare (comparator_ t) a b <? 0 in
  mkMerging (comparator_ t) (children_ t)
    (fst <$> pick_child better (imap pair (children_ t)) None) (direction_ t).

Definition FindLargest t : MergingIterator I :=
  let better a b := 0 <? Compare (comparator_ t) a b in
  mkMerging (comparator_ t) (children_ t)
    (fst <$> pick_child better (reverse (imap pair (children_ t))) None) (direction_ t).

Definition set_children t (cs : list (IteratorWrapper I)) : MergingIterator I :=
  mkMerging (comparator_ t) cs (current_ t) (direction_ t).

Definition set_direction t (d : Direction) : MergingIterator I :=
  mkMerging (comparator_ t) (children_ t) (current_ t) d.

Definition Merging_Valid t : bool := bool_decide (is_Some (current_ t)).

(** The current child; asserts [Valid()]. *)
Definition current_child t : option (IteratorWrapper I) :=
  i ← current_ t; children_ t !! i.

Definition Merging_key t : option bytes := child ← current_child t; Wrapper_key child.
Definition Merging_value t : option bytes := child ← current_child t; Wrapper_value child.

(** A move of every child. *)
Definition each_child t (f : IteratorWrapper I -> option (IteratorWrapper I))
  : option (MergingIterator I) :=
  cs ← mapM f (children_ t); Some (set_children t cs).

Definition Merging_SeekToFirst t : option (MergingIterator I) :=
  t ← each_child t Wrapper_SeekToFirst; Some (set_direction (FindSmallest t) kForward).

Definition Merging_SeekToLast t : option (MergingIterator I) :=
  t ← each_child t Wrapper_SeekToLast; Some (set_direction (FindLargest t) kReverse).

Definition Merging_Seek t (target : bytes) : option (MergingIterator I) :=
  t ← each_child t (fun w => Wrapper_Seek w target); Some (set_direction (FindSmallest t) kForward).

(** A move of every child but the current one. *)
Definition other_children t (f : IteratorWrapper I -> option (IteratorWrapper I))
  : option (MergingIterator I) :=
  cs ← mapM (fun ic => if decide (current_ t = Some (fst ic)) then Some (snd ic) else f (snd ic))
         (imap pair (children_ t));
  Some (set_children t cs).

Definition move_current t (f : IteratorWrapper I -> option (IteratorWrapper I))
  : option (MergingIterator I) :=
  i ← current_ t;
  child ← children_ t !! i;
  child ← f child;
  Some (set_children t (<[i := child]> (children_ t))).

(** Positioning a child after [key] and before it. *)
Definition child_after (c : Comparator) (key : bytes) (child : IteratorWrapper I)
  : option (IteratorWrapper I) :=
  child ← Wrapper_Seek child key;
  if valid_ child && (Compare c key (wrapper_key_ child) =? 0)
  then Wrapper_Next child else Some child.

Definition child_before (key : bytes) (child : IteratorWrapper I) : option (IteratorWrapper I) :=
  child ← Wrapper_Seek child key;
  if valid_ child then Wrapper_Prev child else Wrapper_SeekToLast child.

Definition Merging_Next t : option (MergingIterator I) :=
  key ← Merging_key t;
  t ← match direction_ t with
      | kForward => Some t
      | kReverse =>
          t ← other_children t (child_after (comparator_ t) key); Some (set_direction t kForward)
      end;
  t ← move_current t Wrapper_Next;
  Some (FindSmallest t).

Definition Merging_Prev t : option (MergingIterator I) :=
  key ← Merging_key t;
  t ← match direction_ t with
      | kReverse => Some t
      | kForward => t ← other_children t (child_before key); Some (set_direction t kReverse)
      end;
  t ← move_current t Wrapper_Prev;
  Some (FindLargest t).

(** The first status that is not OK, or the last one. *)
Fixpoint first_bad (status : Status) (cs : list (IteratorWrapper I)) : Status :=
  match cs with
  | [] => status
  | child :: cs =>
      let status := default OK (Wrapper_status child) in
      if ok status then first_bad status cs else status
  end.

Definition Merging_status t : Status := first_bad OK (children_ t).

End Operations.

#[export] Instance Merging_ops {I} `{Iterator I} : Iterator (MergingIterator I) := {
  it_Valid := Merging_Valid;
  it_key t := default [] (Merging_key t);
  it_value t := default [] (Merging_value t);
  it_status := Merging_status;
  it_SeekToFirst := Merging_SeekToFirst;
  it_SeekToLast := Merging_SeekToLast;
  it_Seek := Merging_Seek;
  it_Next := Merging_Next;
  it_Prev := Merging_Prev
}.

Definition NewMergingIterator {I} `{Iterator I} (c : Comparator) (children : list I)
  : EmptyIterator + (I + MergingIterator I) :=
  match children with
  | [] => inl NewEmptyIterator
  | [child] => inr (inl child)
  | _ => inr (inr (Merging_make c children))
  end.

(** ** Cutting the children where the merged list is cut *)

Section Cuts.

Context (cmp : bytes -> bytes -> Z) {T : ThreeWay cmp}.
Context (ls : list (list entry)) (m : list entry).
Context (Hm : StronglySorted (entry_lt cmp) m) (Hp : m ≡ₚ concat ls).
Context (Hls : Forall (StronglySorted (entry_lt cmp)) ls).

(** The number of entries of [l] among the first [n] of the merged list. *)
Definition cut (n : nat) (l : list entry) : nat :=
  match m !! n with
  | Some e => below cmp (fst e) l
  | None => length l
  end.

Lemma cut_le n l : (cut n l <= length l)%nat.
Proof. unfold cut. destruct (m !! n); [apply below_le|done]. Qed.

Lemma child_sorted c l : ls !! c = Some l -> StronglySorted (entry_lt cmp) l.
Proof. intros Hc. rewrite Forall_lookup in Hls. by eapply Hls. Qed.

Lemma child_in_merged c l i e : ls !! c = Some l -> l !! i = Some e -> exists j, m !! j = Some e.
Proof.
  intros Hc Hi. apply list_elem_of_lookup_1. rewrite Hp. apply list_elem_of_In, in_concat.
  exists l. rewrite <- !list_elem_of_In. split; by eapply list_elem_of_lookup_2.
Qed.

Lemma merged_in_child j e : m !! j = Some e -> exists c l i, ls !! c = Some l /\ l !! i = Some e.
Proof.
  intros Hj. apply list_elem_of_lookup_2 in Hj. rewrite Hp in Hj.
  apply list_elem_of_In, in_concat in Hj as (l & Hl & He).
  rewrite <- list_elem_of_In in Hl; rewrite <- list_elem_of_In in He. apply list_elem_of_lookup_1 in Hl as [c Hc], He as [i Hi].
  by exists c, l, i.
Qed.

(** Equal keys of the merged list are the same entry. *)
Lemma merged_key_inj i j e e' :
  m !! i = Some e -> m !! j = Some e' -> cmp (fst e) (fst e') = 0 -> i = j.
Proof.
  intros Hi Hj He. destruct (Nat.lt_trichotomy i j) as [Hlt|[?|Hlt]]; [|done|].
  - pose proof (sorted_lookup_lt cmp m i j e e' Hm Hi Hj Hlt). lia.
  - pose proof (sorted_lookup_lt cmp m j i e' e Hm Hj Hi Hlt) as Hx. apply cmp_opp in Hx. lia.
Qed.

Lemma merged_NoDup : NoDup m.
Proof.
  apply NoDup_alt. intros i j e Hi Hj. apply (merged_key_inj i j e e Hi Hj). apply cmp_refl.
Qed.

Lemma NoDup_concat_lookup {A} (xs : list (list A)) c c' l l' e :
  NoDup (concat xs) -> xs !! c = Some l -> xs !! c' = Some l' -> e ∈ l -> e ∈ l' -> c = c'.
Proof.
  revert c c'. induction xs as [|x xs IH]; intros c c' Hnd Hc Hc' He He'; [done|].
  cbn in Hnd. apply NoDup_app in Hnd as (_ & Hd & Hnd).
  assert (forall k y, xs !! k = Some y -> e ∈ y -> e ∈ concat xs) as Hin.
  { intros k y Hk Hy. apply list_elem_of_In, in_concat. exists y.
    rewrite <- !list_elem_of_In. split; [by eapply list_elem_of_lookup_2|done]. }
  destruct c as [|c], c' as [|c']; cbn in *; simplify_eq; [done|..].
  - exfalso. eapply Hd; eauto.
  - exfalso. eapply Hd; eauto.
  - f_equal. by apply IH.
Qed.

(** Children have no key in common. *)
Lemma child_key_inj c c' l l' i i' e e' :
  ls !! c = Some l -> ls !! c' = Some l' -> l !! i = Some e -> l' !! i' = Some e' ->
  cmp (fst e) (fst e') = 0 -> c = c' /\ e = e'.
Proof.
  intros Hc Hc' Hi Hi' He. destruct (child_in_merged _ _ _ _ Hc Hi) as [j Hj].
  destruct (child_in_merged _ _ _ _ Hc' Hi') as [j' Hj'].
  pose proof (merged_key_inj _ _ _ _ Hj Hj' He) as ->. assert (e = e') as <- by congruence.
  split; [|done]. apply (NoDup_concat_lookup ls c c' l l' e);
    [rewrite <- Hp; exact merged_NoDup|done|done|by eapply list_elem_of_lookup_2..].
Qed.

Lemma cut_spec n c l i e j :
  ls !! c = Some l -> l !! i = Some e -> m !! j = Some e -> (i < cut n l)%nat <-> (j < n)%nat.
Proof.
  intros Hc Hi Hj. unfold cut. destruct (m !! n) as [x|] eqn:En.
  - split; intros Hlt.
    + pose proof (below_lt cmp _ _ _ _ Hi Hlt) as Hex.
      destruct (Nat.lt_trichotomy j n) as [?|[->|Hn]]; [done|..].
      * assert (e = x) as -> by congruence. rewrite cmp_refl in Hex. lia.
      * pose proof (sorted_lookup_lt cmp m n j x e Hm En Hj Hn) as Hx. apply cmp_opp in Hx. lia.
    + pose proof (sorted_lookup_lt cmp m j n e x Hm Hj En Hlt) as Hx.
      destruct (Nat.lt_ge_cases i (below cmp (fst x) l)) as [?|Hge]; [done|].
      pose proof (below_ge cmp _ _ _ _ (child_sorted c l Hc) Hi Hge). lia.
  - apply lookup_ge_None_1 in En. apply lookup_lt_Some in Hi, Hj. lia.
Qed.

(** A count is determined by which entries it covers. *)
Lemma count_eq (l : list entry) k k' :
  (k <= length l)%nat -> (k' <= length l)%nat ->
  (forall i e, l !! i = Some e -> (i < k)%nat <-> (i < k')%nat) -> k = k'.
Proof.
  intros Hk Hk' Hx. destruct (Nat.lt_trichotomy k k') as [Hlt|[?|Hlt]]; [|done|].
  - destruct (lookup_lt_is_Some_2 l k) as [e He]; [lia|]. apply Hx in He. lia.
  - destruct (lookup_lt_is_Some_2 l k') as [e He]; [lia|]. apply Hx in He. lia.
Qed.

Lemma cut_0 c l : ls !! c = Some l -> cut 0 l = 0%nat.
Proof.
  intros Hc. apply (count_eq l); [apply cut_le|lia|]. intros i e Hi.
  destruct (child_in_merged _ _ _ _ Hc Hi) as [j Hj]. rewrite (cut_spec 0 c l i e j) by done. lia.
Qed.

Lemma cut_all l : cut (length m) l = length l.
Proof. unfold cut. by rewrite lookup_ge_None_2. Qed.

Lemma cut_seek c l target :
  ls !! c = Some l -> cut (below cmp target m) l = below cmp target l.
Proof.
  intros Hc. apply (count_eq l); [apply cut_le|apply below_le|]. intros i e Hi.
  destruct (child_in_merged _ _ _ _ Hc Hi) as [j Hj]. rewrite (cut_spec _ c l i e j) by done.
  destruct (Nat.lt_ge_cases j (below cmp target m)) as [Hlt|Hge];
    destruct (Nat.lt_ge_cases i (below cmp target l)) as [Hlt'|Hge']; try tauto; try lia.
  - pose proof (below_lt cmp _ _ _ _ Hj Hlt).
    pose proof (below_ge cmp _ _ _ _ (child_sorted c l Hc) Hi Hge'). lia.
  - pose proof (below_lt cmp _ _ _ _ Hi Hlt'). pose proof (below_ge cmp _ _ _ _ Hm Hj Hge). lia.
Qed.

(** The entry at the cut is at the cut of the child it comes from. *)
Lemma cut_owner n e :
  m !! n = Some e -> exists c l, ls !! c = Some l /\ l !! cut n l = Some e.
Proof.
  intros Hn. destruct (merged_in_child n e Hn) as (c & l & i & Hc & Hi). exists c, l.
  split; [done|]. replace (cut n l) with i; [done|].
  pose proof (cut_spec n c l i e n Hc Hi Hn). pose proof (cut_spec (S n) c l i e n Hc Hi Hn).
  destruct (Nat.lt_trichotomy i (cut n l)) as [?|[?|Hlt]]; [lia|done|].
  destruct (lookup_lt_is_Some_2 l (cut n l)) as [x Hx]; [apply lookup_lt_Some in Hi; lia|].
  destruct (child_in_merged _ _ _ _ Hc Hx) as [j Hj].
  pose proof (cut_spec n c l (cut n l) x j Hc Hx Hj).
  pose proof (sorted_lookup_lt cmp l _ _ x e (child_sorted c l Hc) Hx Hi Hlt) as Hxe.
  destruct (Nat.lt_trichotomy j n) as [?|[->|Hjn]]; [lia|..].
  - assert (x = e) as -> by congruence. rewrite cmp_refl in Hxe. lia.
  - pose proof (sorted_lookup_lt cmp m n j e x Hm Hn Hj Hjn) as Hx'. apply cmp_opp in Hx'. lia.
Qed.

(** One step of the cut moves the child that owns the entry. *)
Lemma cut_step n e c l c' l' :
  m !! n = Some e -> ls !! c = Some l -> l !! cut n l = Some e -> ls !! c' = Some l' ->
  cut (S n) l' = if decide (c' = c) then S (cut n l') else cut n l'.
Proof.
  intros Hn Hc Hcut Hc'.
  apply (count_eq l'); [apply cut_le| |].
  - case_decide; [|apply cut_le]. assert (l' = l) as -> by congruence. by eapply lookup_lt_Some.
  - intros i x Hi. destruct (child_in_merged _ _ _ _ Hc' Hi) as [j Hj].
    rewrite (cut_spec (S n) c' l' i x j) by done. pose proof (cut_spec n c' l' i x j Hc' Hi Hj) as Hs.
    assert (j = n <-> c' = c /\ i = cut n l) as Hjn.
    { split.
      - intros ->. assert (x = e) as -> by congruence.
        destruct (child_key_inj c' c l' l i (cut n l) e e Hc' Hc Hi Hcut (cmp_refl _)) as [-> _].
        split; [done|]. assert (l' = l) as -> by congruence.
        pose proof (child_sorted c l Hc) as Hsl.
        destruct (Nat.lt_trichotomy i (cut n l)) as [Hlt|[?|Hlt]]; [|done|].
        + pose proof (sorted_lookup_lt cmp l _ _ e e Hsl Hi Hcut Hlt) as Hx. rewrite cmp_refl in Hx. lia.
        + pose proof (sorted_lookup_lt cmp l _ _ e e Hsl Hcut Hi Hlt) as Hx. rewrite cmp_refl in Hx. lia.
      - intros [-> ->]. assert (l' = l) as -> by congruence. assert (x = e) as -> by congruence.
        by apply (merged_key_inj j n e e Hj Hn), cmp_refl. }
    case_decide; [subst; assert (l' = l) as -> by congruence|]; lia.
Qed.

End Cuts.

(** ** Picking a child *)

Lemma pick_child_best {I} better (cs : list (nat * IteratorWrapper I)) best c w :
  ((c, w) ∈ cs \/ best = Some (c, w)) -> valid_ w = true ->
  (forall c' w', (c', w') ∈ cs \/ best = Some (c', w') -> valid_ w' = true ->
     c' = c /\ w' = w \/
     better (wrapper_key_ w) (wrapper_key_ w') = true /\
     better (wrapper_key_ w') (wrapper_key_ w) = false) ->
  (forall c' w', best = Some (c', w') -> valid_ w' = true) ->
  pick_child better cs best = Some (c, w).
Proof.
  revert best. induction cs as [|[i x] cs IH]; intros best Hin Hv Hb Hbest; cbn [pick_child].
  { by destruct Hin as [?%not_elem_of_nil|?]. }
  set (best' := if valid_ x then _ else _).
  assert (Hcase : best' = best \/ best' = Some (i, x) /\ valid_ x = true).
  { unfold best'. destruct (valid_ x); [|auto]. destruct best as [[b y]|]; [|auto].
    destruct (better _ _); auto. }
  apply IH; [|done| |].
  - destruct Hin as [[Hc|?]%elem_of_cons|Hc]; [|auto|].
    + right. simplify_eq. unfold best'. rewrite Hv. destruct best as [[b y]|]; [|done].
      destruct (Hb b y) as [[-> ->]|[-> _]]; [auto|eauto| |done]. by destruct (better _ _).
    + right. unfold best'. rewrite Hc. destruct (valid_ x) eqn:Ex; [|done].
      destruct (Hb i x) as [[-> ->]|[_ ->]]; [set_solver|done|by destruct (better _ _)|done].
  - intros c' w' Hc'. apply Hb. destruct Hcase as [->|[-> _]] in Hc'; set_solver.
  - intros c' w' Hc'. destruct Hcase as [E|[E Hx]]; rewrite E in Hc'; [eauto|by simplify_eq].
Qed.

Lemma pick_child_none {I} better (cs : list (nat * IteratorWrapper I)) :
  (forall c w, (c, w) ∈ cs -> valid_ w = false) -> pick_child better cs None = None.
Proof.
  induction cs as [|[i x] cs IH]; intros Hv; cbn [pick_child]; [done|].
  rewrite (Hv i x) by set_solver. apply IH. intros c w Hc. apply (Hv c w). set_solver.
Qed.

Lemma elem_of_indexed {A} (xs : list A) c x : (c, x) ∈ imap pair xs <-> xs !! c = Some x.
Proof.
  rewrite list_elem_of_lookup. split.
  - intros [i Hi]. rewrite list_lookup_imap in Hi. destruct (xs !! i) eqn:E; cbn in Hi; by simplify_eq.
  - intros Hc. exists c. by rewrite list_lookup_imap, Hc.
Qed.

(** ** The contract *)

Section Contract.

Context {I : Type} `{Iterator I} (cmp : Comparator) {C : ComparatorLaws cmp}.
Context (ls : list (list entry)) (m : list entry).
Context (Hm : StronglySorted (entry_lt (Compare cmp)) m) (Hp : m ≡ₚ concat ls).
Context (Hls : Forall (StronglySorted (entry_lt (Compare cmp))) ls).
Context (pos : nat -> I -> option nat -> Prop) (Tg : bytes -> Prop) (Hkeys : Forall (fun e => Tg (fst e)) m).
Context (Hpos : forall c l, ls !! c = Some l -> IteratesWithin Tg (Compare cmp) l (pos c)).

Abbreviation Cut := (cut (Compare cmp) m).

Definition child_at (c : nat) (w : IteratorWrapper I) (p : option nat) : Prop :=
  wrapper_ok w /\ exists it, iter_ w = Some it /\ pos c it p.

(** Every child is where [f] says. *)
Definition children_at (f : nat -> list entry -> option nat -> Prop) (cs : list (IteratorWrapper I)) : Prop :=
  length cs = length ls /\
  forall c l w, ls !! c = Some l -> cs !! c = Some w -> exists p, f c l p /\ child_at c w p.

(** All children at the first entry from the cut on, or at the last before it. *)
Definition at_cut (n : nat) (c : nat) (l : list entry) (p : option nat) : Prop := p = clip l (Cut n l).
Definition below_cut (n : nat) (c : nat) (l : list entry) (p : option nat) : Prop := p = before (Cut n l).

Definition merge_pos (t : MergingIterator I) (p : option nat) : Prop :=
  comparator_ t = cmp /\ children_at (fun _ _ _ => True) (children_ t) /\
  match p with
  | None => current_ t = None
  | Some i =>
      exists e c l, m !! i = Some e /\ ls !! c = Some l /\ l !! Cut i l = Some e /\
        current_ t = Some c /\
        match direction_ t with
        | kForward => children_at (at_cut i) (children_ t)
        | kReverse => children_at (below_cut (S i)) (children_ t)
        end
  end.

Lemma children_any f cs : children_at f cs -> children_at (fun _ _ _ => True) cs.
Proof. intros [Hl Hc]. split; [done|]. intros c l w Hcl Hw. destruct (Hc c l w Hcl Hw) as (p & _ & ?). eauto. Qed.

Lemma child_valid c l w p : ls !! c = Some l -> child_at c w p -> valid_ w = bool_decide (is_Some p).
Proof.
  intros Hc (Hw & it & Hi & Hpi). unfold wrapper_ok in Hw. rewrite Hi in Hw. destruct Hw as [-> _].
  pose proof (Hpos c l Hc). by apply iter_valid.
Qed.

Lemma child_entry c l w i :
  ls !! c = Some l -> child_at c w (Some i) ->
  exists e, l !! i = Some e /\ wrapper_key_ w = fst e /\ Wrapper_key w = Some (fst e) /\
    Wrapper_value w = Some (snd e).
Proof.
  intros Hc Hw. pose proof (child_valid _ _ _ _ Hc Hw) as Hv. rewrite bool_decide_true in Hv by done.
  destruct Hw as (Hw & it & Hi & Hpi). unfold wrapper_ok in Hw. rewrite Hi in Hw. destruct Hw as [Hv' Hk].
  pose proof (Hpos c l Hc). pose proof (iter_entry it i Hpi) as He.
  exists (it_key it, it_value it). rewrite Hk by congruence.
  split; [done|]. split; [done|]. unfold Wrapper_key, Wrapper_value. rewrite Hv, Hi, Hk by congruence. done.
Qed.

(** Moves of one child. *)
Lemma child_move c w p p' f :
  child_at c w p -> (forall it, pos c it p -> exists it', f it = Some it' /\ pos c it' p') ->
  exists w', forward w f = Some w' /\ child_at c w' p'.
Proof.
  intros (Hw & it & Hi & Hpi) Hf. destruct (Hf it Hpi) as (it' & Ef & Hp').
  destruct (forward_spec w f it it' Hi Ef) as (w' & E & Hw' & Hi'). exists w'. split; [done|].
  split; [done|]. eauto.
Qed.

(** Moves of several children. *)
Lemma children_move f f' g cs :
  children_at f cs ->
  (forall c l w p, ls !! c = Some l -> cs !! c = Some w -> f c l p -> child_at c w p ->
     exists w' p', g (c, w) = Some w' /\ f' c l p' /\ child_at c w' p') ->
  exists cs', mapM g (imap pair cs) = Some cs' /\ children_at f' cs'.
Proof.
  intros [Hl Hc] Hg.
  destruct (mapM_is_Some_2 g (imap pair cs)) as [cs' Hcs'].
  { apply Forall_forall. intros [c w] Hw%elem_of_indexed.
    destruct (lookup_lt_is_Some_2 ls c) as [l Hlc]; [rewrite <- Hl; by eapply lookup_lt_Some|].
    destruct (Hc c l w Hlc Hw) as (p & Hf & Hat). destruct (Hg c l w p Hlc Hw Hf Hat) as (w' & p' & E & _).
    eauto. }
  exists cs'. split; [done|]. apply mapM_Some_1 in Hcs'.
  pose proof (Forall2_length _ _ _ Hcs') as Hlen. rewrite length_imap in Hlen. split; [congruence|].
  intros c l w' Hlc Hw'. destruct (Forall2_lookup_r _ _ _ _ _ Hcs' Hw') as ([c' w] & Hcw & E).
  rewrite list_lookup_imap in Hcw. destruct (cs !! c) as [x|] eqn:Ex; cbn in Hcw; simplify_eq.
  destruct (Hc c' l w Hlc Ex) as (p & Hf & Hat).
  destruct (Hg c' l w p Hlc Ex Hf Hat) as (w1 & p' & E1 & Hf' & Hat'). assert (w1 = w') as -> by congruence.
  eauto.
Qed.

Lemma mapM_indexed {A B} (f : A -> option B) (xs : list A) :
  mapM f xs = mapM (fun ic => f (snd ic)) (imap pair xs).
Proof.
  assert (Hgo : forall k : nat, mapM f xs = mapM (fun ic => f (snd ic)) (imap (fun i x => (k + i, x)%nat) xs)).
  { induction xs as [|x xs IH]; intros k; cbn; [done|]. destruct (f x); cbn; [|done].
    rewrite (IH (S k)). erewrite imap_ext; [done|]. intros i y _. cbn. f_equal. lia. }
  exact (Hgo 0%nat).
Qed.

Lemma each_child_move f f' g t :
  comparator_ t = cmp -> children_at f (children_ t) ->
  (forall c l w p, ls !! c = Some l -> f c l p -> child_at c w p ->
     exists w' p', g w = Some w' /\ f' c l p' /\ child_at c w' p') ->
  exists cs, each_child t g = Some (set_children t cs) /\ children_at f' cs.
Proof.
  intros Hc Hf Hg. unfold each_child. rewrite mapM_indexed.
  destruct (children_move f f' (fun ic => g (snd ic)) (children_ t) Hf) as (cs & -> & Hcs); [eauto|].
  cbn. eauto.
Qed.

(** ** Finding the next and the previous entry *)

Lemma clip_some {A} (l : list A) i : clip l i = Some i <-> (i < length l)%nat.
Proof. unfold clip. by case_decide. Qed.

Lemma clip_none {A} (l : list A) i : clip l i = None <-> (length l <= i)%nat.
Proof. unfold clip. case_decide; [|naive_solver lia]. split; [done|lia]. Qed.

(** The entries at the cuts of the other children come after the one at the cut
    of the merged list. *)
Lemma cut_others n e c l c' l' e' :
  m !! n = Some e -> ls !! c = Some l -> l !! Cut n l = Some e ->
  ls !! c' = Some l' -> l' !! Cut n l' = Some e' -> c' <> c -> Compare cmp (fst e) (fst e') < 0.
Proof.
  intros Hn Hc He Hc' He' Hne.
  destruct (child_in_merged ls m Hp _ _ _ _ Hc' He') as [j Hj].
  pose proof (cut_spec (Compare cmp) ls m Hm Hls n c' l' _ e' j Hc' He' Hj).
  destruct (Nat.eq_dec j n) as [->|].
  - assert (e' = e) as -> by congruence.
    by destruct (child_key_inj (Compare cmp) ls m Hm Hp c' c l' l _ _ e e Hc' Hc He' He (cmp_refl _)).
  - apply (sorted_lookup_lt (Compare cmp) m n j); [done..|lia].
Qed.

(** The entries just below the cuts of the other children come before the one
    just below the cut of the merged list. *)
Lemma below_cut_others n e c l c' l' k e' :
  m !! n = Some e -> ls !! c = Some l -> l !! Cut n l = Some e ->
  ls !! c' = Some l' -> Cut (S n) l' = S k -> l' !! k = Some e' -> c' <> c ->
  Compare cmp (fst e') (fst e) < 0.
Proof.
  intros Hn Hc He Hc' Hk He' Hne.
  destruct (child_in_merged ls m Hp _ _ _ _ Hc' He') as [j Hj].
  pose proof (cut_spec (Compare cmp) ls m Hm Hls (S n) c' l' k e' j Hc' He' Hj) as Hs.
  destruct (Nat.eq_dec j n) as [->|].
  - assert (e' = e) as -> by congruence.
    by destruct (child_key_inj (Compare cmp) ls m Hm Hp c' c l' l _ _ e e Hc' Hc He' He (cmp_refl _)).
  - apply (sorted_lookup_lt (Compare cmp) m j n); [done..|lia].
Qed.

Lemma FindSmallest_spec t n :
  comparator_ t = cmp -> direction_ t = kForward -> children_at (at_cut n) (children_ t) ->
  merge_pos (FindSmallest t) (clip m n).
Proof.
  intros Hc Hd Hat. split; [done|]. split; [by eapply children_any|].
  unfold FindSmallest. cbn [current_ direction_ children_]. rewrite Hc, Hd.
  destruct (m !! n) as [e|] eqn:En.
  - rewrite (proj2 (clip_some m n)) by (by eapply lookup_lt_Some).
    destruct (cut_owner (Compare cmp) ls m Hm Hp Hls n e En) as (c & l & Hcl & Hcut).
    exists e, c, l. split; [done|]. split; [done|]. split; [done|]. split; [|done].
    destruct (lookup_lt_is_Some_2 (children_ t) c) as [w Hw];
      [rewrite (proj1 Hat); by eapply lookup_lt_Some|].
    destruct (proj2 Hat c l w Hcl Hw) as (p & -> & Hcw).
    rewrite (proj2 (clip_some l (Cut n l))) in Hcw by (by eapply lookup_lt_Some).
    destruct (child_entry _ _ _ _ Hcl Hcw) as (e1 & He1 & Hk & _). assert (e1 = e) as -> by congruence.
    rewrite (pick_child_best _ _ None c w); [done|left; by apply elem_of_indexed| | |done].
    + by rewrite (child_valid _ _ _ _ Hcl Hcw), bool_decide_true.
    + intros c' w' [Hw'%elem_of_indexed|?] Hv'; [|done].
      destruct (decide (c' = c)) as [->|Hne]; [left; split; congruence|right].
      destruct (lookup_lt_is_Some_2 ls c') as [l' Hl'];
        [rewrite <- (proj1 Hat); by eapply lookup_lt_Some|].
      destruct (proj2 Hat c' l' w' Hl' Hw') as (p' & -> & Hcw').
      rewrite (child_valid _ _ _ _ Hl' Hcw') in Hv'. apply bool_decide_eq_true_1 in Hv' as [k Hk'].
      rewrite Hk' in Hcw'. assert (k = Cut n l') as -> by (unfold clip in Hk'; by case_decide; simplify_eq).
      destruct (child_entry _ _ _ _ Hl' Hcw') as (e2 & He2 & Hk2 & _). rewrite Hk, Hk2.
      pose proof (cut_others n e c l c' l' e2 En Hcl Hcut Hl' He2 Hne) as Hlt.
      split; [lia|]. apply cmp_opp in Hlt. lia.
  - pose proof (lookup_ge_None_1 _ _ En) as Hge. rewrite (proj2 (clip_none m n) Hge).
    rewrite pick_child_none; [done|]. intros c w Hw%elem_of_indexed.
    destruct (lookup_lt_is_Some_2 ls c) as [l Hl]; [rewrite <- (proj1 Hat); by eapply lookup_lt_Some|].
    destruct (proj2 Hat c l w Hl Hw) as (p & -> & Hcw). rewrite (child_valid _ _ _ _ Hl Hcw).
    unfold cut. rewrite En. rewrite (proj2 (clip_none l (length l))) by done. by apply bool_decide_false; intros [].
Qed.

Lemma FindLargest_spec t n :
  comparator_ t = cmp -> direction_ t = kReverse -> children_at (below_cut n) (children_ t) ->
  (n <= length m)%nat -> merge_pos (FindLargest t) (before n).
Proof.
  intros Hc Hd Hat Hn. split; [done|]. split; [by eapply children_any|].
  unfold FindLargest. cbn [current_ direction_ children_]. rewrite Hc, Hd.
  destruct n as [|i]; cbn [before].
  - rewrite pick_child_none; [done|]. intros c w Hw%elem_of_reverse%elem_of_indexed.
    destruct (lookup_lt_is_Some_2 ls c) as [l Hl]; [rewrite <- (proj1 Hat); by eapply lookup_lt_Some|].
    destruct (proj2 Hat c l w Hl Hw) as (p & -> & Hcw). rewrite (child_valid _ _ _ _ Hl Hcw).
    rewrite (cut_0 (Compare cmp) ls m Hm Hp Hls c l Hl). by apply bool_decide_false; intros [].
  - destruct (lookup_lt_is_Some_2 m i) as [e Ei]; [lia|].
    destruct (cut_owner (Compare cmp) ls m Hm Hp Hls i e Ei) as (c & l & Hcl & Hcut).
    exists e, c, l. split; [done|]. split; [done|]. split; [done|]. split; [|done].
    destruct (lookup_lt_is_Some_2 (children_ t) c) as [w Hw];
      [rewrite (proj1 Hat); by eapply lookup_lt_Some|].
    destruct (proj2 Hat c l w Hcl Hw) as (p & Ep & Hcw). unfold below_cut in Ep.
    rewrite (cut_step (Compare cmp) ls m Hm Hp Hls i e c l c l Ei Hcl Hcut Hcl), decide_True in Ep by done.
    cbn in Ep. subst p.
    destruct (child_entry _ _ _ _ Hcl Hcw) as (e1 & He1 & Hk & _). assert (e1 = e) as -> by congruence.
    rewrite (pick_child_best _ _ None c w); [done|left; by apply elem_of_reverse, elem_of_indexed| | |done].
    + by rewrite (child_valid _ _ _ _ Hcl Hcw), bool_decide_true.
    + intros c' w' [Hw'%elem_of_reverse%elem_of_indexed|?] Hv'; [|done].
      destruct (decide (c' = c)) as [->|Hne]; [left; split; congruence|right].
      destruct (lookup_lt_is_Some_2 ls c') as [l' Hl'];
        [rewrite <- (proj1 Hat); by eapply lookup_lt_Some|].
      destruct (proj2 Hat c' l' w' Hl' Hw') as (p' & -> & Hcw').
      rewrite (child_valid _ _ _ _ Hl' Hcw') in Hv'. apply bool_decide_eq_true_1 in Hv' as [k Hk'].
      rewrite Hk' in Hcw'. destruct (Cut (S i) l') as [|k'] eqn:Ek; [done|]. cbn in Hk'. simplify_eq.
      destruct (child_entry _ _ _ _ Hl' Hcw') as (e2 & He2 & Hk2 & _). rewrite Hk, Hk2.
      pose proof (below_cut_others i e c l c' l' k e2 Ei Hcl Hcut Hl' Ek He2 Hne) as Hlt.
      pose proof (proj1 (cmp_opp _ _) Hlt). split; lia.
Qed.

(** ** Moving *)

Lemma merge_status t p : merge_pos t p -> ok (Merging_status t) = true.
Proof.
  intros (_ & [Hlen Hat] & _). unfold Merging_status.
  assert (Hall : Forall (fun w => ok (default OK (Wrapper_status w)) = true) (children_ t)).
  { apply Forall_lookup_2. intros c w Hw.
    destruct (lookup_lt_is_Some_2 ls c) as [l Hl]; [rewrite <- Hlen; by eapply lookup_lt_Some|].
    destruct (Hat c l w Hl Hw) as (q & _ & Hwok & it & Hi & Hq). unfold Wrapper_status. rewrite Hi. cbn.
    pose proof (Hpos c l Hl). by eapply iter_status. }
  clear -Hall. assert (ok OK = true) as Hok by done. revert Hok. generalize OK.
  induction Hall as [|w ws Hw _ IH]; intros s Hs; cbn [first_bad]; [done|]. rewrite Hw. by apply IH.
Qed.

Lemma current_entry t i :
  merge_pos t (Some i) ->
  exists e c l w, m !! i = Some e /\ ls !! c = Some l /\ l !! Cut i l = Some e /\
    current_ t = Some c /\ children_ t !! c = Some w /\ child_at c w (Some (Cut i l)) /\
    current_child t = Some w /\ Merging_key t = Some (fst e) /\ Merging_value t = Some (snd e).
Proof.
  intros (Hc & Hany & e & c & l & Ei & Hcl & Hcut & Hcur & Hdir). exists e, c, l.
  destruct (lookup_lt_is_Some_2 (children_ t) c) as [w Hw];
    [rewrite (proj1 Hany); by eapply lookup_lt_Some|].
  assert (child_at c w (Some (Cut i l))) as Hcw.
  { destruct (direction_ t).
    - destruct (proj2 Hdir c l w Hcl Hw) as (p & -> & Hcw).
      by rewrite (proj2 (clip_some l (Cut i l))) in Hcw by (by eapply lookup_lt_Some).
    - destruct (proj2 Hdir c l w Hcl Hw) as (p & Ep & Hcw). unfold below_cut in Ep.
      rewrite (cut_step (Compare cmp) ls m Hm Hp Hls i e c l c l Ei Hcl Hcut Hcl), decide_True in Ep by done.
      by subst p. }
  destruct (child_entry _ _ _ _ Hcl Hcw) as (e1 & He1 & _ & Hk & Hv). assert (e1 = e) as -> by congruence.
  exists w. unfold Merging_key, Merging_value, current_child. rewrite Hcur. cbn. rewrite Hw. cbn.
  do 8 (split; [done|]). done.
Qed.

(** Moving the current child, the others being where they have to be. *)
Lemma move_current_spec t f f' c l w p' g :
  current_ t = Some c -> ls !! c = Some l -> children_ t !! c = Some w ->
  children_at f (children_ t) ->
  (forall c' l' q, c' <> c -> ls !! c' = Some l' -> f c' l' q -> f' c' l' q) -> f' c l p' ->
  (exists w', g w = Some w' /\ child_at c w' p') ->
  exists cs, move_current t g = Some (set_children t cs) /\ children_at f' cs.
Proof.
  intros Hcur Hcl Hw [Hlen Hat] Hff Hf' (w' & Eg & Hw').
  unfold move_current. rewrite Hcur. cbn. rewrite Hw. cbn. rewrite Eg. cbn. eexists. split; [done|].
  split; [by rewrite length_insert|]. intros c' l' x Hcl' Hx.
  destruct (decide (c' = c)) as [->|Hne].
  - rewrite list_lookup_insert_eq in Hx by (by eapply lookup_lt_Some). simplify_eq. eauto.
  - rewrite list_lookup_insert_ne in Hx by done. destruct (Hat c' l' x Hcl' Hx) as (q & Hq & Hxq). eauto.
Qed.

Lemma other_children_spec t f f' c g :
  current_ t = Some c -> children_at f (children_ t) ->
  (forall l q, ls !! c = Some l -> f c l q -> f' c l q) ->
  (forall c' l' w q, c' <> c -> ls !! c' = Some l' -> f c' l' q -> child_at c' w q ->
     exists w' q', g w = Some w' /\ f' c' l' q' /\ child_at c' w' q') ->
  exists cs, other_children t g = Some (set_children t cs) /\ children_at f' cs.
Proof.
  intros Hcur Hat Hc Hg. unfold other_children.
  edestruct (children_move f f') as (cs & E & Hcs); [exact Hat| |rewrite E; cbn; eauto].
  intros c' l' w q Hcl' _ Hq Hw. cbn [fst snd]. rewrite Hcur. case_decide as Hd.
  - injection Hd as <-. exists w, q. auto.
  - apply (Hg c' l' w q); [congruence|done..].
Qed.

(** The children around the current entry, ready for a step. *)
Definition ready_next (i c : nat) (c' : nat) (l : list entry) (p : option nat) : Prop :=
  p = if decide (c' = c) then Some (Cut i l) else clip l (Cut (S i) l).
Definition ready_prev (i c : nat) (c' : nat) (l : list entry) (p : option nat) : Prop :=
  p = if decide (c' = c) then Some (Cut i l) else before (Cut i l).

Lemma cut_current i e l : m !! i = Some e -> Cut i l = below (Compare cmp) (fst e) l.
Proof. unfold cut. by intros ->. Qed.

Lemma key_target i e : m !! i = Some e -> Tg (fst e).
Proof. intros Ei. rewrite Forall_forall in Hkeys. apply Hkeys. by eapply list_elem_of_lookup_2. Qed.

Lemma child_after_spec i e c l c' l' w q :
  m !! i = Some e -> ls !! c = Some l -> l !! Cut i l = Some e ->
  c' <> c -> ls !! c' = Some l' -> child_at c' w q ->
  exists w', child_after cmp (fst e) w = Some w' /\ child_at c' w' (clip l' (Cut (S i) l')).
Proof.
  intros Ei Hcl Hcut Hne Hcl' Hw.
  rewrite (cut_step (Compare cmp) ls m Hm Hp Hls i e c l c' l' Ei Hcl Hcut Hcl'), decide_False by done.
  pose proof (Hpos c' l' Hcl').
  destruct (child_move c' w q (clip l' (Cut i l')) (fun it => it_Seek it (fst e)) Hw) as (w1 & E1 & Hw1).
  { intros it Hit. destruct (iter_seek it q (fst e) Hit (key_target i e Ei)) as (it' & E & Hit'). exists it'. split; [done|].
    by rewrite (cut_current i e) by done. }
  unfold child_after, Wrapper_Seek. rewrite E1. cbn. exists w1. split; [|done].
  rewrite (child_valid _ _ _ _ Hcl' Hw1). destruct (clip l' (Cut i l')) as [k|] eqn:Ek.
  - rewrite bool_decide_true by done. assert (k = Cut i l') as -> by (unfold clip in Ek; by case_decide; simplify_eq).
    destruct (child_entry _ _ _ _ Hcl' Hw1) as (e' & He' & Hk & _). rewrite Hk.
    pose proof (cut_others i e c l c' l' e' Ei Hcl Hcut Hcl' He' Hne).
    by rewrite (proj2 (Z.eqb_neq _ _)) by lia.
  - by rewrite bool_decide_false by (by intros []).
Qed.

Lemma child_before_spec i e c' l' w q :
  m !! i = Some e -> ls !! c' = Some l' -> child_at c' w q ->
  exists w', child_before (fst e) w = Some w' /\ child_at c' w' (before (Cut i l')).
Proof.
  intros Ei Hcl' Hw. pose proof (Hpos c' l' Hcl').
  destruct (child_move c' w q (clip l' (Cut i l')) (fun it => it_Seek it (fst e)) Hw) as (w1 & E1 & Hw1).
  { intros it Hit. destruct (iter_seek it q (fst e) Hit (key_target i e Ei)) as (it' & E & Hit'). exists it'. split; [done|].
    by rewrite (cut_current i e) by done. }
  unfold child_before, Wrapper_Seek. rewrite E1. cbn.
  rewrite (child_valid _ _ _ _ Hcl' Hw1). destruct (clip l' (Cut i l')) as [k|] eqn:Ek.
  - rewrite bool_decide_true by done. assert (k = Cut i l') as -> by (unfold clip in Ek; by case_decide; simplify_eq).
    apply (child_move c' w1 (Some (Cut i l'))); [done|]. intros it Hit. by apply iter_prev.
  - rewrite bool_decide_false by (by intros []). apply clip_none in Ek.
    pose proof (cut_le (Compare cmp) m i l'). replace (Cut i l') with (length l') by lia.
    apply (child_move c' w1 None); [done|]. intros it Hit. by apply (iter_last it None).
Qed.

Lemma Merging_Next_spec t i :
  merge_pos t (Some i) -> exists t', Merging_Next t = Some t' /\ merge_pos t' (clip m (S i)).
Proof.
  intros Hpi. destruct (current_entry t i Hpi) as (e & c & l & w & Ei & Hcl & Hcut & Hcur & Hw & Hcw & _ & Hk & _).
  pose proof (fun c' l' Hcl' => cut_step (Compare cmp) ls m Hm Hp Hls i e c l c' l' Ei Hcl Hcut Hcl') as Hstep.
  destruct Hpi as (Hc & _ & ? & ? & ? & _ & _ & _ & _ & Hdir).
  assert (exists t1, match direction_ t with
      | kForward => Some t
      | kReverse =>
          t ← other_children t (child_after (comparator_ t) (fst e)); Some (set_direction t kForward)
      end = Some t1 /\ comparator_ t1 = cmp /\ direction_ t1 = kForward /\ current_ t1 = Some c /\
      children_at (ready_next i c) (children_ t1)) as (t1 & E1 & Hc1 & Hd1 & Hcur1 & Hat1).
  { destruct (direction_ t) eqn:Ed.
    - exists t. do 4 (split; [done|]). split; [apply Hdir|]. intros c' l' w' Hcl' Hw'.
      destruct (proj2 Hdir c' l' w' Hcl' Hw') as (q & -> & Hq). eexists. split; [|done].
      unfold ready_next. case_decide; subst.
      + assert (l' = l) as -> by congruence. apply clip_some. by eapply lookup_lt_Some.
      + by rewrite (Hstep c' l' Hcl'), decide_False.
    - destruct (other_children_spec t (below_cut (S i)) (ready_next i c) c
        (child_after cmp (fst e)) Hcur Hdir) as (cs & E & Hcs).
      + intros l' q Hcl' Hq. unfold below_cut in Hq. rewrite (Hstep c l' Hcl'), decide_True in Hq by done. cbn in Hq.
        unfold ready_next. by rewrite decide_True.
      + intros c' l' w' q Hne Hcl' _ Hw'.
        destruct (child_after_spec i e c l c' l' w' q Ei Hcl Hcut Hne Hcl' Hw') as (w1 & E1 & Hw1).
        exists w1, (clip l' (Cut (S i) l')). unfold ready_next. by rewrite decide_False.
      + rewrite Hc, E. cbn. eexists. split; [done|]. done. }
  unfold Merging_Next. rewrite Hk. cbn. rewrite E1. cbn.
  destruct (lookup_lt_is_Some_2 (children_ t1) c) as [w1 Hw1];
    [rewrite (proj1 Hat1); by eapply lookup_lt_Some|].
  destruct (proj2 Hat1 c l w1 Hcl Hw1) as (q & Hq & Hcw1). unfold ready_next in Hq.
  rewrite decide_True in Hq by done. subst q.
  destruct (move_current_spec t1 (ready_next i c) (at_cut (S i)) c l w1 (clip l (S (Cut i l))) Wrapper_Next
    Hcur1 Hcl Hw1 Hat1) as (cs & E & Hcs).
  - intros c' l' q Hne Hcl' Hq. unfold ready_next in Hq. by rewrite decide_False in Hq.
  - unfold at_cut. by rewrite (Hstep c l Hcl), decide_True.
  - pose proof (Hpos c l Hcl). apply (child_move c w1 (Some (Cut i l))); [done|].
    intros it Hit. by apply iter_next.
  - rewrite E. cbn. eexists. split; [done|]. by apply FindSmallest_spec.
Qed.

Lemma Merging_Prev_spec t i :
  merge_pos t (Some i) -> exists t', Merging_Prev t = Some t' /\ merge_pos t' (before i).
Proof.
  intros Hpi. destruct (current_entry t i Hpi) as (e & c & l & w & Ei & Hcl & Hcut & Hcur & Hw & Hcw & _ & Hk & _).
  pose proof (fun c' l' Hcl' => cut_step (Compare cmp) ls m Hm Hp Hls i e c l c' l' Ei Hcl Hcut Hcl') as Hstep.
  destruct Hpi as (Hc & _ & ? & ? & ? & _ & _ & _ & _ & Hdir).
  assert (exists t1, match direction_ t with
      | kReverse => Some t
      | kForward => t ← other_children t (child_before (fst e)); Some (set_direction t kReverse)
      end = Some t1 /\ comparator_ t1 = cmp /\ direction_ t1 = kReverse /\ current_ t1 = Some c /\
      children_at (ready_prev i c) (children_ t1)) as (t1 & E1 & Hc1 & Hd1 & Hcur1 & Hat1).
  { destruct (direction_ t) eqn:Ed.
    - destruct (other_children_spec t (at_cut i) (ready_prev i c) c
        (child_before (fst e)) Hcur Hdir) as (cs & E & Hcs).
      + intros l' q Hcl' Hq. unfold at_cut in Hq. assert (l' = l) as -> by congruence.
        rewrite (proj2 (clip_some l (Cut i l))) in Hq by (by eapply lookup_lt_Some).
        unfold ready_prev. by rewrite decide_True.
      + intros c' l' w' q Hne Hcl' _ Hw'.
        destruct (child_before_spec i e c' l' w' q Ei Hcl' Hw') as (w1 & E1 & Hw1).
        exists w1, (before (Cut i l')). unfold ready_prev. by rewrite decide_False.
      + rewrite E. cbn. eexists. split; [done|]. done.
    - exists t. do 4 (split; [done|]). split; [apply Hdir|]. intros c' l' w' Hcl' Hw'.
      destruct (proj2 Hdir c' l' w' Hcl' Hw') as (q & -> & Hq). eexists. split; [|done].
      unfold ready_prev. rewrite (Hstep c' l' Hcl'). by case_decide. }
  unfold Merging_Prev. rewrite Hk. cbn. rewrite E1. cbn.
  destruct (lookup_lt_is_Some_2 (children_ t1) c) as [w1 Hw1];
    [rewrite (proj1 Hat1); by eapply lookup_lt_Some|].
  destruct (proj2 Hat1 c l w1 Hcl Hw1) as (q & Hq & Hcw1). unfold ready_prev in Hq.
  rewrite decide_True in Hq by done. subst q.
  destruct (move_current_spec t1 (ready_prev i c) (below_cut i) c l w1 (before (Cut i l)) Wrapper_Prev
    Hcur1 Hcl Hw1 Hat1) as (cs & E & Hcs).
  - intros c' l' q Hne Hcl' Hq. unfold ready_prev in Hq. by rewrite decide_False in Hq.
  - done.
  - pose proof (Hpos c l Hcl). apply (child_move c w1 (Some (Cut i l))); [done|].
    intros it Hit. by apply iter_prev.
  - rewrite E. cbn. eexists. split; [done|]. apply FindLargest_spec; [done..|].
    apply lookup_lt_Some in Ei. lia.
Qed.

#[export] Instance Merging_iterates : IteratesWithin Tg (Compare cmp) m merge_pos.
Proof.
  split.
  - intros t p (_ & _ & Hcur). cbn. unfold Merging_Valid. destruct p as [i|].
    + destruct Hcur as (? & ? & ? & _ & _ & _ & -> & _). done.
    + by rewrite Hcur.
  - intros t i Hpi. destruct (current_entry t i Hpi) as (e & ? & ? & ? & Ei & _ & _ & _ & _ & _ & _ & Hk & Hv).
    cbn. rewrite Hk, Hv, Ei. by destruct e.
  - exact merge_status.
  - intros t p (Hc & Hany & _). cbn. unfold Merging_SeekToFirst.
    edestruct (each_child_move _ (at_cut 0) Wrapper_SeekToFirst t Hc Hany) as (cs & E & Hcs).
    { intros c l w q Hcl _ Hw. pose proof (Hpos c l Hcl).
      destruct (child_move c w q (clip l 0) it_SeekToFirst Hw) as (w' & E & Hw'); [intros it Hit; by eapply iter_first|].
      exists w', (clip l 0). split; [done|]. split; [|done]. unfold at_cut. by rewrite (cut_0 (Compare cmp) ls m Hm Hp Hls c l Hcl). }
    rewrite E. cbn. eexists. split; [done|]. by apply (FindSmallest_spec (set_direction (set_children t cs) kForward)).
  - intros t p (Hc & Hany & _). cbn. unfold Merging_SeekToLast.
    edestruct (each_child_move _ (below_cut (length m)) Wrapper_SeekToLast t Hc Hany) as (cs & E & Hcs).
    { intros c l w q Hcl _ Hw. pose proof (Hpos c l Hcl).
      destruct (child_move c w q (last_pos l) it_SeekToLast Hw) as (w' & E & Hw'); [intros it Hit; by eapply iter_last|].
      exists w', (last_pos l). split; [done|]. split; [|done]. unfold below_cut. by rewrite cut_all. }
    rewrite E. cbn. eexists. split; [done|]. by apply (FindLargest_spec (set_direction (set_children t cs) kReverse)).
  - intros t p target (Hc & Hany & _) Ht. cbn. unfold Merging_Seek.
    edestruct (each_child_move _ (at_cut (below (Compare cmp) target m)) (fun w => Wrapper_Seek w target) t Hc Hany) as (cs & E & Hcs).
    { intros c l w q Hcl _ Hw. pose proof (Hpos c l Hcl).
      destruct (child_move c w q (seek_pos (Compare cmp) target l) (fun it => it_Seek it target) Hw) as (w' & E & Hw');
        [intros it Hit; by eapply iter_seek|].
      exists w', (seek_pos (Compare cmp) target l). split; [done|]. split; [|done]. unfold at_cut, seek_pos.
      by rewrite (cut_seek (Compare cmp) ls m Hm Hp Hls c l target Hcl). }
    rewrite E. cbn. eexists. split; [done|]. by apply (FindSmallest_spec (set_direction (set_children t cs) kForward)).
  - exact Merging_Next_spec.
  - exact Merging_Prev_spec.
Qed.

Lemma Merging_make_pos children :
  length children = length ls ->
  (forall c it, children !! c = Some it -> exists p, pos c it p) ->
  merge_pos (Merging_make cmp children) None.
Proof.
  intros Hlen Hat. split; [done|]. split; [|done]. split; [cbn; by rewrite length_map|].
  intros c l w Hcl Hw. cbn [children_ Merging_make] in Hw. rewrite list_lookup_fmap in Hw.
  destruct (children !! c) as [it|] eqn:Ei; [|done]. cbn in Hw. simplify_eq.
  destruct (Hat c it Ei) as [p Hpi]. exists p. split; [done|].
  destruct (Wrapper_Set_ok Wrapper_new (Some it)) as [Hok Hi]. split; [exact Hok|]. eauto.
Qed.

End Contract.

(** An iterator that is never at hand satisfies any contract. *)
Lemma absent_iterates {I} `{Iterator I} T cmp l : IteratesWithin T cmp l (fun (_ : I) _ => False).
Proof. by split. Qed.

(** [NewMergingIterator] satisfies the contract for the merged list. *)
Lemma NewMergingIterator_iterates {I} `{Iterator I} cmp (ls : list (list entry)) (m : list entry)
    (pos : nat -> I -> option nat -> Prop) (Tg : bytes -> Prop) (children : list I) :
  ComparatorLaws cmp -> Forall (fun e => Tg (fst e)) m ->
  StronglySorted (entry_lt (Compare cmp)) m -> m ≡ₚ concat ls ->
  Forall (StronglySorted (entry_lt (Compare cmp))) ls ->
  (forall c l, ls !! c = Some l -> IteratesWithin Tg (Compare cmp) l (pos c)) ->
  Forall2 (fun c it => pos c it None) (seq 0 (length ls)) children ->
  exists pos' : _ -> option nat -> Prop, IteratesWithin Tg (Compare cmp) m pos' /\ pos' (NewMergingIterator cmp children) None.
Proof.
  intros C Hkeys Hm Hp Hls Hpos Hch.
  pose proof (Forall2_length _ _ _ Hch) as Hlen. rewrite length_seq in Hlen.
  assert (Hinit : forall c it, children !! c = Some it -> pos c it None).
  { intros c it Hc. destruct (Forall2_lookup_r _ _ _ _ _ Hch Hc) as (c' & Hc' & Hpc).
    apply lookup_seq in Hc' as [-> _]. done. }
  destruct children as [|x [|y rest]].
  - destruct ls; [|done]. cbn in Hp. apply Permutation_nil_r in Hp as ->.
    pose proof (sum_iterates (J := I + MergingIterator I) Tg (Compare cmp) [] _ _
      (EmptyIterator_iterates Tg (Compare cmp)) (absent_iterates _ _ _)) as Hit.
    eexists. split; [exact Hit|]. by split.
  - destruct ls as [|l [|]]; [done| |done]. cbn in Hp. rewrite app_nil_r in Hp.
    assert (m = l) as ->.
    { apply (StronglySorted_unique_strong (entry_lt (Compare cmp))); [|done|by inversion Hls|done].
      intros a b _ _ Hab Hba. unfold entry_lt in *. apply cmp_opp in Hba. lia. }
    pose proof (Hpos 0%nat l eq_refl) as Hit0.
    pose proof (sum_iterates (J := MergingIterator I) Tg (Compare cmp) l _ _ Hit0 (absent_iterates _ _ _)) as Hit1.
    pose proof (sum_iterates (I := EmptyIterator) (J := I + MergingIterator I) Tg (Compare cmp) l _ _
      (absent_iterates _ _ _) Hit1) as Hit.
    eexists. split; [exact Hit|]. exact (Hinit 0%nat x eq_refl).
  - pose proof (Merging_iterates cmp ls m Hm Hp Hls pos Tg Hkeys Hpos) as Hit0.
    pose proof (sum_iterates (I := I) (J := MergingIterator I) Tg (Compare cmp) m _ _
      (absent_iterates _ _ _) Hit0) as Hit1.
    pose proof (sum_iterates (I := EmptyIterator) (J := I + MergingIterator I) Tg (Compare cmp) m _ _
      (absent_iterates _ _ _) Hit1) as Hit.
    eexists. split; [exact Hit|].
    change (merge_pos cmp ls m pos (Merging_make cmp (x :: y :: rest)) None).
    apply Merging_make_pos; [done|]. eauto.
Qed.

(** A merging iterator over children that iterate over sorted lists, no key
    occurring twice, behaves like a cursor over the sorted list [m] of all their
    entries: after any sequence of [SeekToFirst], [SeekToLast], [Seek], [Next] and
    [Prev], in whatever mix of directions, with [Next] and [Prev] called at valid
    positions, every call has returned, the status is OK, and the key and value
    shown are those of the cursor. *)
Theorem merge_cursor {I} `{Iterator I} cmp (ls : list (list entry)) (m : list entry)
    (pos : nat -> I -> option nat -> Prop) (children : list I) ms p :
  ComparatorLaws cmp ->
  StronglySorted (entry_lt (Compare cmp)) m -> m ≡ₚ concat ls ->
  Forall (StronglySorted (entry_lt (Compare cmp))) ls ->
  (forall c l, ls !! c = Some l -> IteratesOver (Compare cmp) l (pos c)) ->
  Forall2 (fun c it => pos c it None) (seq 0 (length ls)) children ->
  moves_cursor (Compare cmp) m None ms = Some p ->
  exists it, moves_iter (NewMergingIterator cmp children) ms = Some it /\ shows it (p ≫= (m !!.)).
Proof.
  intros C Hm Hp Hls Hpos Hch Hms.
  destruct (NewMergingIterator_iterates cmp ls m pos any_target children C (proj2 (Forall_forall _ _) (fun _ _ => Logic.I)) Hm Hp Hls Hpos Hch) as (pos' & Hit & Hp0).
  by apply (moves_show _ None ms p).
Qed.

(** ** A list as an iterator *)

Record ListIterator := mkListIter { li_cmp : Comparator; li_entries : list entry; li_pos : option nat }.

Definition li_move (it : ListIterator) (mv : move) : option ListIterator :=
  p ← move_cursor (Compare (li_cmp it)) (li_entries it) (li_pos it) mv;
  Some (mkListIter (li_cmp it) (li_entries it) p).

Definition li_entry (it : ListIterator) : entry := default ([], []) (li_pos it ≫= (li_entries it !!.)).

#[export] Instance ListIterator_ops : Iterator ListIterator := {
  it_Valid it := bool_decide (is_Some (li_pos it));
  it_key it := fst (li_entry it);
  it_value it := snd (li_entry it);
  it_status _ := OK;
  it_SeekToFirst it := li_move it ToFirst;
  it_SeekToLast it := li_move it ToLast;
  it_Seek it target := li_move it (ToTarget target);
  it_Next it := li_move it Forth;
  it_Prev it := li_move it Back
}.

Definition li_at (cmp : Comparator) (l : list entry) (it : ListIterator) (p : option nat) : Prop :=
  it = mkListIter cmp l p /\ forall i, p = Some i -> (i < length l)%nat.

#[export] Instance ListIterator_iterates cmp l : IteratesOver (Compare cmp) l (li_at cmp l).
Proof.
  assert (Hclip : forall n i, clip l n = Some i -> (i < length l)%nat)
    by (unfold clip; intros n i; case_decide; naive_solver).
  split.
  - intros it p [-> _]. done.
  - intros it i [-> Hi]. cbn. unfold li_entry. cbn.
    destruct (lookup_lt_is_Some_2 l i (Hi i eq_refl)) as [[k v] ->]. done.
  - done.
  - intros it p [-> _]. eexists. split; [done|]. by split; [|apply Hclip].
  - intros it p [-> _]. eexists. split; [done|]. split; [done|]. unfold last_pos, before.
    intros i. destruct (length l); naive_solver lia.
  - intros it p target [-> _] _. eexists. split; [done|]. by split; [|apply Hclip].
  - intros it i [-> _]. eexists. split; [done|]. by split; [|apply Hclip].
  - intros it i [-> Hi]. eexists. split; [done|]. split; [done|]. specialize (Hi i eq_refl).
    intros j. destruct i; cbn; naive_solver lia.
Qed.

Definition sample_lists : list (list entry) :=
  [[(str "b", str "1"); (str "e", str "2")]; []; [(str "a", str "3"); (str "c", str "4"); (str "d", str "5")]].
Definition sample_merged : list entry :=
  [(str "a", str "3"); (str "b", str "1"); (str "c", str "4"); (str "d", str "5"); (str "e", str "2")].
Definition sample_children : list ListIterator :=
  map (fun l => mkListIter BytewiseComparator l None) sample_lists.

Lemma merge_cursor_witness :
  exists it, moves_iter (NewMergingIterator BytewiseComparator sample_children)
      [ToTarget (str "c"); Back; Back; Forth; Forth; Back] = Some it /\
    shows it (Some (str "b", str "1")).
Proof.
  apply (merge_cursor BytewiseComparator sample_lists sample_merged
    (fun c => li_at BytewiseComparator (nth c sample_lists [])) sample_children
    [ToTarget (str "c"); Back; Back; Forth; Forth; Back] (Some 1%nat)).
  - exact BytewiseComparator_laws.
  - repeat constructor.
  - apply Permutation_sym. change (concat sample_lists)
      with [(str "b", str "1"); (str "e", str "2"); (str "a", str "3"); (str "c", str "4"); (str "d", str "5")].
    apply (Permutation_trans (l' := [(str "a", str "3"); (str "b", str "1"); (str "e", str "2"); (str "c", str "4"); (str "d", str "5")]));
      [solve_Permutation|solve_Permutation].
  - repeat constructor.
  - intros c l Hc. rewrite (nth_lookup_Some _ _ _ _ Hc). exact (ListIterator_iterates BytewiseComparator l).
  - repeat constructor; done.
  - vm_compute. reflexivity.
Defined.
