(* ===== verification/DbIter.v ===== *)
(** * The database iterator

    [db/db_iter.cc]: [DBIter] turns an iterator over internal keys into one over
    the user's keys as of a sequence number: of the entries of a user key it shows
    the newest that is not newer than the sequence number, unless that is a
    deletion.  It is verified against the iterator contract, over any internal
    iterator that satisfies it. *)

From S2P Require Import Prelude Slice Coding Status Comparator DbFormat Random Iterator Merger.

(** [DBIter::Direction] *)
Inductive DirectionD := kForwardD | kReverseD.

(** [class DBIter].  [samples] lists the calls of [db_->RecordReadSample] in
    order; [loop_fuel] bounds the turns of the loops over the internal iterator,
    one for each of its entries. *)
Record DBIter (I : Type) := mkDBIter {
  user_comparator_ : Comparator;
  inner_ : I;
  sequence_ : Z;
  d_status_ : Status;
  saved_key_ : bytes;
  saved_value_ : bytes;
  d_direction_ : DirectionD;
  d_valid_ : bool;
  d_rnd_ : Z;
  bytes_until_read_sampling_ : Z;
  samples : list bytes;
  loop_fuel : nat
}.
Arguments mkDBIter {I}. Arguments user_comparator_ {I}. Arguments inner_ {I}.
Arguments sequence_ {I}. Arguments d_status_ {I}. Arguments saved_key_ {I}.
Arguments saved_value_ {I}. Arguments d_direction_ {I}. Arguments d_valid_ {I}.
Arguments d_rnd_ {I}. Arguments bytes_until_read_sampling_ {I}. Arguments samples {I}.
Arguments loop_fuel {I}.

(** [RandomCompactionPeriod]: the number and the generator's next state. *)
Definition RandomCompactionPeriod (rnd : Z) : Z * Z := Uniform rnd (2 * kReadBytesPeriod).

Section Operations.

Context {I : Type} `{Iterator I}.

Implicit Types d : DBIter I.

Definition NewDBIterator (cmp : Comparator) (iter : I) (s seed : Z) (fuel : nat) : DBIter I :=
  let '(period, rnd) := RandomCompactionPeriod (Random_make seed) in
  mkDBIter cmp iter s OK [] [] kForwardD false rnd period [] fuel.

Definition set_inner d (it : I) : DBIter I :=
  mkDBIter (user_comparator_ d) it (sequence_ d) (d_status_ d) (saved_key_ d) (saved_value_ d)
    (d_direction_ d) (d_valid_ d) (d_rnd_ d) (bytes_until_read_sampling_ d) (samples d) (loop_fuel d).
Definition set_status d (s : Status) : DBIter I :=
  mkDBIter (user_comparator_ d) (inner_ d) (sequence_ d) s (saved_key_ d) (saved_value_ d)
    (d_direction_ d) (d_valid_ d) (d_rnd_ d) (bytes_until_read_sampling_ d) (samples d) (loop_fuel d).
Definition set_saved_key d (k : bytes) : DBIter I :=
  mkDBIter (user_comparator_ d) (inner_ d) (sequence_ d) (d_status_ d) k (saved_value_ d)
    (d_direction_ d) (d_valid_ d) (d_rnd_ d) (bytes_until_read_sampling_ d) (samples d) (loop_fuel d).
Definition set_saved_value d (v : bytes) : DBIter I :=
  mkDBIter (user_comparator_ d) (inner_ d) (sequence_ d) (d_status_ d) (saved_key_ d) v
    (d_direction_ d) (d_valid_ d) (d_rnd_ d) (bytes_until_read_sampling_ d) (samples d) (loop_fuel d).
Definition set_dir d (dir : DirectionD) : DBIter I :=
  mkDBIter (user_comparator_ d) (inner_ d) (sequence_ d) (d_status_ d) (saved_key_ d) (saved_value_ d)
    dir (d_valid_ d) (d_rnd_ d) (bytes_until_read_sampling_ d) (samples d) (loop_fuel d).
Definition set_valid d (b : bool) : DBIter I :=
  mkDBIter (user_comparator_ d) (inner_ d) (sequence_ d) (d_status_ d) (saved_key_ d) (saved_value_ d)
    (d_direction_ d) b (d_rnd_ d) (bytes_until_read_sampling_ d) (samples d) (loop_fuel d).
Definition set_sampling d (rnd until : Z) (ss : list bytes) : DBIter I :=
  mkDBIter (user_comparator_ d) (inner_ d) (sequence_ d) (d_status_ d) (saved_key_ d) (saved_value_ d)
    (d_direction_ d) (d_valid_ d) rnd until ss (loop_fuel d).

(** A move of the internal iterator. *)
Definition move_inner d (f : I -> option I) : option (DBIter I) :=
  it ← f (inner_ d); Some (set_inner d it).

(** The accessors; [key] and [value] assert [valid_]. *)
Definition DBIter_key d : option bytes :=
  if d_valid_ d then
    Some (match d_direction_ d with
          | kForwardD => ExtractUserKey (it_key (inner_ d))
          | kReverseD => saved_key_ d
          end)
  else None.

Definition DBIter_value d : option bytes :=
  if d_valid_ d then
    Some (match d_direction_ d with
          | kForwardD => it_value (inner_ d)
          | kReverseD => saved_value_ d
          end)
  else None.

Definition DBIter_status d : Status :=
  if ok (d_status_ d) then it_status (inner_ d) else d_status_ d.

(** The sampling loop of [ParseKey]. *)
Fixpoint sample_loop (fuel : nat) (k : bytes) (bytes_read rnd until : Z) (ss : list bytes)
  : option (Z * Z * list bytes) :=
  match fuel with
  | O => None
  | S fuel =>
      if until <? bytes_read then
        let '(period, rnd) := RandomCompactionPeriod rnd in
        sample_loop fuel k bytes_read rnd (u64 (until + period)) (ss ++ [k])
      else Some (rnd, until, ss)
  end.

(** [ParseKey]: the parsed key, [None] for the return value [false].  The loop
    takes at most two turns for each byte read ([sample_loop_total]). *)
Definition ParseKey d : option (option ParsedInternalKey * DBIter I) :=
  let k := it_key (inner_ d) in
  let bytes_read := u64 (blen k + blen (it_value (inner_ d))) in
  '(rnd, until, ss) ← sample_loop (S (2 * Z.to_nat bytes_read)) k bytes_read (d_rnd_ d)
                        (bytes_until_read_sampling_ d) (samples d);
  let d := set_sampling d rnd (until - bytes_read) ss in
  match ParseInternalKey k with
  | None => Some (None, set_status d (Corruption (str "corrupted internal key in DBIter") []))
  | Some ikey => Some (Some ikey, d)
  end.

(** What the body of [FindNextUserEntry]'s loop makes of a parsed key: [inl] is
    the return, [inr] the new value of [skipping]. *)
Definition next_body d (skipping : bool) (parsed : option ParsedInternalKey) : DBIter I + (bool * DBIter I) :=
  match parsed with
  | Some ikey =>
      if sequence ikey <=? sequence_ d then
        match type ikey with
        | kTypeDeletion => inr (true, set_saved_key d (user_key ikey))
        | kTypeValue =>
            if skipping && (Compare (user_comparator_ d) (user_key ikey) (saved_key_ d) <=? 0)
            then inr (skipping, d)
            else inl (set_saved_key (set_valid d true) [])
        end
      else inr (skipping, d)
  | None => inr (skipping, d)
  end.

(** [FindNextUserEntry(skipping, &saved_key_)]: every caller passes [saved_key_]
    as the key to skip. *)
Fixpoint find_next_loop (fuel : nat) (skipping : bool) d : option (DBIter I) :=
  match fuel with
  | O => None
  | S fuel =>
      '(parsed, d) ← ParseKey d;
      match next_body d skipping parsed with
      | inl d => Some d
      | inr (skipping, d) =>
          d ← move_inner d it_Next;
          if it_Valid (inner_ d) then find_next_loop fuel skipping d
          else Some (set_valid (set_saved_key d []) false)
      end
  end.

Definition FindNextUserEntry (skipping : bool) d : option (DBIter I) :=
  if it_Valid (inner_ d) then
    match d_direction_ d with
    | kForwardD => find_next_loop (loop_fuel d) skipping d
    | kReverseD => None
    end
  else None.

Definition DBIter_Next d : option (DBIter I) :=
  if negb (d_valid_ d) then None
  else
    d ← match d_direction_ d with
        | kReverseD =>
            let d := set_dir d kForwardD in
            if it_Valid (inner_ d) then move_inner d it_Next else move_inner d it_SeekToFirst
        | kForwardD =>
            let d := set_saved_key d (ExtractUserKey (it_key (inner_ d))) in
            move_inner d it_Next
        end;
    if it_Valid (inner_ d) then FindNextUserEntry true d
    else Some (set_saved_key (set_valid d false) []).

(** One turn of [FindPrevUserEntry]'s loop after [ParseKey]: [inl] is the
    [break], [inr] the new value type. *)
Definition prev_body d (value_type : ValueType) (parsed : option ParsedInternalKey)
  : unit + (ValueType * DBIter I) :=
  match parsed with
  | Some ikey =>
      if sequence ikey <=? sequence_ d then
        if negb (bool_decide (value_type = kTypeDeletion)) &&
           (Compare (user_comparator_ d) (user_key ikey) (saved_key_ d) <? 0)
        then inl tt
        else
          match type ikey with
          | kTypeDeletion => inr (kTypeDeletion, set_saved_value (set_saved_key d []) [])
          | kTypeValue =>
              inr (kTypeValue,
                   set_saved_value (set_saved_key d (ExtractUserKey (it_key (inner_ d))))
                     (it_value (inner_ d)))
          end
      else inr (value_type, d)
  | None => inr (value_type, d)
  end.

Fixpoint find_prev_loop (fuel : nat) (value_type : ValueType) d : option (ValueType * DBIter I) :=
  match fuel with
  | O => None
  | S fuel =>
      '(parsed, d) ← ParseKey d;
      match prev_body d value_type parsed with
      | inl _ => Some (value_type, d)
      | inr (value_type, d) =>
          d ← move_inner d it_Prev;
          if it_Valid (inner_ d) then find_prev_loop fuel value_type d else Some (value_type, d)
      end
  end.

Definition FindPrevUserEntry d : option (DBIter I) :=
  match d_direction_ d with
  | kForwardD => None
  | kReverseD =>
      '(value_type, d) ← (if it_Valid (inner_ d) then find_prev_loop (loop_fuel d) kTypeDeletion d
                          else Some (kTypeDeletion, d));
      match value_type with
      | kTypeDeletion =>
          Some (set_dir (set_saved_value (set_saved_key (set_valid d false) []) []) kForwardD)
      | kTypeValue => Some (set_valid d true)
      end
  end.

(** The scan of [Prev] to the entries before the current key: [inl] is the
    return when there are none. *)
Fixpoint before_key_loop (fuel : nat) d : option (DBIter I + DBIter I) :=
  match fuel with
  | O => None
  | S fuel =>
      d ← move_inner d it_Prev;
      if negb (it_Valid (inner_ d)) then
        Some (inl (set_saved_value (set_saved_key (set_valid d false) []) []))
      else if Compare (user_comparator_ d) (ExtractUserKey (it_key (inner_ d))) (saved_key_ d) <? 0
      then Some (inr d)
      else before_key_loop fuel d
  end.

Definition DBIter_Prev d : option (DBIter I) :=
  if negb (d_valid_ d) then None
  else
    match d_direction_ d with
    | kForwardD =>
        if negb (it_Valid (inner_ d)) then None
        else
          r ← before_key_loop (loop_fuel d) (set_saved_key d (ExtractUserKey (it_key (inner_ d))));
          match r with
          | inl d => Some d
          | inr d => FindPrevUserEntry (set_dir d kReverseD)
          end
    | kReverseD => FindPrevUserEntry d
    end.

Definition DBIter_Seek d (target : bytes) : option (DBIter I) :=
  let d := set_saved_value (set_dir d kForwardD) [] in
  let d := set_saved_key d
    (AppendInternalKey [] (mkParsedInternalKey target (sequence_ d) kValueTypeForSeek)) in
  d ← move_inner d (fun it => it_Seek it (saved_key_ d));
  if it_Valid (inner_ d) then FindNextUserEntry false d else Some (set_valid d false).

Definition DBIter_SeekToFirst d : option (DBIter I) :=
  let d := set_saved_value (set_dir d kForwardD) [] in
  d ← move_inner d it_SeekToFirst;
  if it_Valid (inner_ d) then FindNextUserEntry false d else Some (set_valid d false).

Definition DBIter_SeekToLast d : option (DBIter I) :=
  let d := set_saved_value (set_dir d kReverseD) [] in
  d ← move_inner d it_SeekToLast;
  FindPrevUserEntry d.

End Operations.

#[export] Instance DBIter_ops {I} `{Iterator I} : Iterator (DBIter I) := {
  it_Valid := d_valid_;
  it_key d := default [] (DBIter_key d);
  it_value d := default [] (DBIter_value d);
  it_status := DBIter_status;
  it_SeekToFirst := DBIter_SeekToFirst;
  it_SeekToLast := DBIter_SeekToLast;
  it_Seek := DBIter_Seek;
  it_Next := DBIter_Next;
  it_Prev := DBIter_Prev
}.

(** ** The user's view of a list of internal entries *)

Definition e_user (e : entry) : bytes := ExtractUserKey (fst e).
Definition e_seq (e : entry) : Z := Z.shiftr (key_tag (fst e)) 8.
Definition e_type (e : entry) : ValueType := ValueType_of (Z.land (key_tag (fst e)) 0xff).

(** The key of an entry parses. *)
Definition entry_parses (e : entry) : bool := bool_decide (is_Some (ParseInternalKey (fst e))).

Section View.

Context (cmp : Comparator) (s : Z).

(** An entry decides what its user key shows when no entry in front of it that
    is not newer than [s] has that user key; it is shown when it is a value. *)
Definition decided (seen : list entry) (e : entry) : bool :=
  existsb (fun e' => (e_seq e' <=? s) && (Compare cmp (e_user e') (e_user e) =? 0)) seen.

Definition shown (seen : list entry) (e : entry) : bool :=
  (e_seq e <=? s) && bool_decide (e_type e = kTypeValue) && negb (decided seen e).

Fixpoint view_after (seen l : list entry) : list entry :=
  match l with
  | [] => []
  | e :: l =>
      (if shown seen e then [(e_user e, snd e)] else []) ++ view_after (seen ++ [e]) l
  end.

Definition user_view (l : list entry) : list entry := view_after [] l.

Lemma view_after_app seen l1 l2 :
  view_after seen (l1 ++ l2) = view_after seen l1 ++ view_after (seen ++ l1) l2.
Proof.
  revert seen. induction l1 as [|e l1 IH]; intros seen; cbn [view_after app].
  - by rewrite app_nil_r.
  - rewrite IH, <- !app_assoc. done.
Qed.

Context (l : list entry).

(** Whether entry [i] is shown, and the number of shown entries before [i]. *)
Definition vis (i : nat) : bool :=
  match l !! i with Some e => shown (take i l) e | None => false end.

Definition rank (i : nat) : nat := length (user_view (take i l)).

Lemma user_view_split i e :
  l !! i = Some e ->
  user_view l = user_view (take i l) ++ (if vis i then [(e_user e, snd e)] else []) ++
    view_after (take (S i) l) (drop (S i) l).
Proof.
  intros Hi. unfold user_view, vis. rewrite Hi. rewrite <- (take_drop i l) at 1.
  rewrite view_after_app, (drop_S _ _ _ Hi). cbn [view_after app].
  by rewrite <- (take_S_r _ _ _ Hi).
Qed.

Lemma rank_S i e : l !! i = Some e -> rank (S i) = (rank i + if vis i then 1 else 0)%nat.
Proof.
  intros Hi. unfold rank, user_view, vis. rewrite Hi, (take_S_r _ _ _ Hi), view_after_app, length_app.
  f_equal. cbn. destruct (shown _ e); done.
Qed.

Lemma rank_all i : (length l <= i)%nat -> rank i = length (user_view l).
Proof. intros Hi. unfold rank. by rewrite take_ge. Qed.

Lemma rank_0 : rank 0 = 0%nat.
Proof. done. Qed.

Lemma view_lookup i e :
  l !! i = Some e -> vis i = true -> user_view l !! rank i = Some (e_user e, snd e).
Proof.
  intros Hi Hv. rewrite (user_view_split i e Hi), Hv. unfold rank.
  rewrite lookup_app_r by done. by rewrite Nat.sub_diag.
Qed.

Lemma vis_lt i : vis i = true -> (i < length l)%nat.
Proof. unfold vis. destruct (l !! i) eqn:E; [|done]. intros _. by eapply lookup_lt_Some. Qed.

(** No shown entry between two positions: the same rank. *)
Lemma rank_between i j :
  (i <= j)%nat -> (forall k, (i <= k < j)%nat -> vis k = false) -> rank j = rank i.
Proof.
  intros Hij Hv. induction Hij as [|j Hij IH]; [done|].
  rewrite <- IH by (intros k Hk; apply Hv; lia).
  destruct (l !! j) as [e|] eqn:Ej.
  - rewrite (rank_S j e Ej), Hv by lia. lia.
  - apply lookup_ge_None_1 in Ej. rewrite !rank_all by lia. done.
Qed.

Lemma rank_le i j : (i <= j)%nat -> (rank i <= rank j)%nat.
Proof.
  induction 1 as [|j Hij IH]; [done|]. destruct (l !! j) as [e|] eqn:Ej.
  - rewrite (rank_S j e Ej). lia.
  - apply lookup_ge_None_1 in Ej. rewrite (rank_all (S j)), <- (rank_all j) by lia. done.
Qed.

Lemma vis_rank_lt i : vis i = true -> (rank i < length (user_view l))%nat.
Proof.
  intros Hv. pose proof (vis_lt i Hv) as Hlt. destruct (lookup_lt_is_Some_2 l i Hlt) as [e Hi].
  eapply lookup_lt_Some. by eapply view_lookup.
Qed.

(** Every index of the view is the rank of a shown entry. *)
Lemma view_index k x :
  user_view l !! k = Some x -> exists i e, l !! i = Some e /\ vis i = true /\ rank i = k /\ x = (e_user e, snd e).
Proof.
  intros Hk. pose proof (lookup_lt_Some _ _ _ Hk) as Hlt.
  assert (Hex : exists i, vis i = true /\ rank i = k).
  { assert (Hgo : forall n, (k < rank n)%nat -> exists i, vis i = true /\ rank i = k).
    { induction n as [|n IH]; [rewrite rank_0; lia|]. intros Hn.
      destruct (decide (k < rank n)%nat); [auto|]. destruct (l !! n) as [e|] eqn:En.
      - rewrite (rank_S n e En) in Hn. destruct (vis n) eqn:Ev; [|lia]. exists n. split; [done|lia].
      - apply lookup_ge_None_1 in En. rewrite (rank_all (S n)), <- (rank_all n) in Hn by lia. lia. }
    apply (Hgo (length l)). by rewrite rank_all. }
  destruct Hex as (i & Hv & <-). destruct (lookup_lt_is_Some_2 l i (vis_lt i Hv)) as [e Hi].
  exists i, e. rewrite (view_lookup i e Hi Hv) in Hk. by simplify_eq.
Qed.

Lemma vis_spec i e :
  l !! i = Some e ->
  vis i = true <->
  e_seq e <= s /\ e_type e = kTypeValue /\
  forall j e', (j < i)%nat -> l !! j = Some e' -> e_seq e' <= s -> Compare cmp (e_user e') (e_user e) <> 0.
Proof.
  intros Hi. unfold vis. rewrite Hi. unfold shown, decided. rewrite !andb_true_iff, bool_decide_eq_true, negb_true_iff.
  rewrite <- not_true_iff_false, existsb_exists, Z.leb_le. split.
  - intros [[H1 H2] H3]. split; [done|]. split; [done|]. intros j e' Hj He' Hs Hc. apply H3. exists e'.
    split; [|rewrite Hc; lia]. apply list_elem_of_In, list_elem_of_lookup. exists j.
    by rewrite lookup_take_lt.
  - intros (H1 & H2 & H3). split; [done|]. intros (e' & Hin & Hc).
    apply list_elem_of_In, list_elem_of_lookup in Hin as [j Hj]. apply lookup_take_Some in Hj as [Hj Hlt].
    apply andb_true_iff in Hc as [Hs Hc]. apply (H3 j e' Hlt Hj); lia.
Qed.

End View.

(** ** Sampling *)

Lemma sample_loop_total fuel k n rnd until ss :
  seed_ok rnd -> 0 <= n < 2 ^ 63 -> 0 <= until < 2 ^ 64 ->
  2 * (n - until) + (if Random_Next rnd mod 2 ^ 21 =? 0 then 1 else 0) <= Z.of_nat fuel ->
  (1 <= fuel)%nat ->
  exists rnd' until' ss', sample_loop fuel k n rnd until ss = Some (rnd', until', ss') /\
    seed_ok rnd' /\ n <= until' < 2 ^ 64.
Proof.
  revert rnd until ss. induction fuel as [|fuel IH]; intros rnd until ss Hr Hn Hu Hf H1; [lia|].
  cbn [sample_loop]. destruct (Z.ltb_spec until n) as [Hlt|]; [|exists rnd, until, ss; repeat split; (done || apply Hr || lia)].
  unfold RandomCompactionPeriod, Uniform. change (2 * kReadBytesPeriod) with (2 ^ 21).
  destruct (Random_Next_spec rnd Hr) as [_ Hr'].
  pose proof (Z.mod_pos_bound (Random_Next rnd) (2 ^ 21) ltac:(lia)) as Hm.
  rewrite u64_small by lia.
  assert (Hz : Random_Next rnd mod 2 ^ 21 = 0 -> Random_Next (Random_Next rnd) mod 2 ^ 21 <> 0)
    by (by apply Random_Next_not_stuck).
  revert Hf. destruct (Z.eqb_spec (Random_Next rnd mod 2 ^ 21) 0) as [E|E]; intros Hf.
  - apply IH; [done|done|lia| |lia]. rewrite E. rewrite (proj2 (Z.eqb_neq _ _) (Hz E)). lia.
  - apply IH; [done|done|lia| |lia]. destruct (_ =? 0); lia.
Qed.

(** ** The contract *)

Lemma parse_entry e :
  entry_parses e = true ->
  ParseInternalKey (fst e) = Some (mkParsedInternalKey (e_user e) (e_seq e) (e_type e)).
Proof.
  unfold entry_parses. rewrite bool_decide_eq_true. intros [x Hx]. rewrite Hx. f_equal. revert Hx.
  unfold ParseInternalKey. destruct (blen (fst e) <? 8); [done|].
  destruct (_ <=? _); [|done]. by intros [= <-].
Qed.

(** The tag of a key that parses. *)
Lemma entry_tag e :
  entry_parses e = true -> key_tag (fst e) = e_seq e * 2 ^ 8 + ValueType_value (e_type e).
Proof.
  intros Hp. unfold e_seq, e_type. rewrite Z.shiftr_div_pow2 by lia.
  change 0xff with (Z.ones 8). rewrite Z.land_ones by lia.
  pose proof (Z.div_mod (key_tag (fst e)) (2 ^ 8) ltac:(lia)).
  assert (0 <= key_tag (fst e) mod 2 ^ 8 <= 1).
  { unfold entry_parses in Hp. apply bool_decide_eq_true in Hp as [x Hx]. unfold ParseInternalKey in Hx.
    destruct (_ <? 8); [done|]. destruct (Z.leb_spec (Z.land (key_tag (fst e)) 0xff) (ValueType_value kTypeValue)) as [Hle|]; [|done].
    change 0xff with (Z.ones 8) in Hle. rewrite Z.land_ones in Hle by lia. cbn in Hle.
    pose proof (Z.mod_pos_bound (key_tag (fst e)) (2 ^ 8) ltac:(lia)). change (2 ^ 8) with 256 in *. lia. }
  unfold ValueType_of. destruct (Z.eqb_spec (key_tag (fst e) mod 2 ^ 8) 0); cbn [ValueType_value]; lia.
Qed.

Section Contract.

Context {I : Type} `{Iterator I} (cmp : Comparator) {C : ComparatorLaws cmp} (s : Z).
Context (Hs : 0 <= s <= kMaxSequenceNumber).
Context (l : list entry) (Hl : StronglySorted (entry_lt (ikey_Compare cmp)) l).
Context (Hparse : Forall (fun e => entry_parses e = true) l).
Context (Hsize : Forall (fun e => blen (fst e) + blen (snd e) < 2 ^ 63) l).
Context (Tg : bytes -> Prop) (pos : I -> option nat -> Prop) {IT : IteratesWithin Tg (ikey_Compare cmp) l pos}.

Abbreviation V := (user_view cmp s l).
Abbreviation Vis := (vis cmp s l).
Abbreviation Rank := (rank cmp s l).

(** The members that stay as they are, and where the internal iterator is. *)
Definition db_ok (d : DBIter I) (q : option nat) : Prop :=
  user_comparator_ d = cmp /\ sequence_ d = s /\ d_status_ d = OK /\ seed_ok (d_rnd_ d) /\
  0 <= bytes_until_read_sampling_ d < 2 ^ 64 /\ (length l < loop_fuel d)%nat /\ pos (inner_ d) q.

Definition db_pos (d : DBIter I) (p : option nat) : Prop :=
  exists q, db_ok d q /\ d_valid_ d = bool_decide (is_Some p) /\
  match p with
  | None => True
  | Some k =>
      exists i e, l !! i = Some e /\ Vis i = true /\ Rank i = k /\
      match d_direction_ d with
      | kForwardD => q = Some i
      | kReverseD =>
          saved_key_ d = e_user e /\ saved_value_ d = snd e /\
          exists n, q = before n /\ (n <= i)%nat /\
            forall j e', (n <= j < i)%nat -> l !! j = Some e' -> s < e_seq e'
      end
  end.

Lemma user_sorted i j e e' :
  l !! i = Some e -> l !! j = Some e' -> (i < j)%nat -> Compare cmp (e_user e) (e_user e') <= 0.
Proof.
  intros Hi Hj Hij. apply ikey_le_user.
  pose proof (sorted_lookup_lt (ikey_Compare cmp) l i j e e' Hl Hi Hj Hij). lia.
Qed.

Lemma ParseKey_spec d i e :
  db_ok d (Some i) -> l !! i = Some e ->
  exists rnd until ss, let d' := set_sampling d rnd until ss in
    ParseKey d = Some (Some (mkParsedInternalKey (e_user e) (e_seq e) (e_type e)), d') /\ db_ok d' (Some i).
Proof.
  intros (H1 & H2 & H3 & Hr & Hu & H6 & Hp) Hi.
  pose proof (iter_entry _ _ Hp) as Hent. rewrite Hi in Hent. injection Hent as He.
  assert (it_key (inner_ d) = fst e /\ it_value (inner_ d) = snd e) as [Ek Ev] by (by rewrite He).
  rewrite Forall_lookup in Hsize, Hparse. pose proof (Hsize i e Hi) as Hsz. pose proof (Hparse i e Hi) as Hpa.
  cbn beta in Hsz. pose proof (blen_nonneg (fst e)). pose proof (blen_nonneg (snd e)).
  unfold ParseKey. rewrite Ek, Ev, u64_small by lia.
  destruct (sample_loop_total (S (2 * Z.to_nat (blen (fst e) + blen (snd e)))) (fst e)
    (blen (fst e) + blen (snd e)) (d_rnd_ d) (bytes_until_read_sampling_ d) (samples d))
    as (rnd & until & ss & E & Hr' & Hu'); [done|lia|done|destruct (_ =? 0); lia|lia|].
  rewrite E. cbn [mbind option_bind]. rewrite (parse_entry e Hpa).
  exists rnd, (until - (blen (fst e) + blen (snd e))), ss. split; [done|].
  unfold db_ok. cbn. do 4 (split; [done|]). split; [lia|]. done.
Qed.

Lemma db_valid d q : db_ok d q -> it_Valid (inner_ d) = bool_decide (is_Some q).
Proof. intros (_ & _ & _ & _ & _ & _ & Hp). by apply iter_valid. Qed.

Lemma db_entry d i e : db_ok d (Some i) -> l !! i = Some e -> it_key (inner_ d) = fst e /\ it_value (inner_ d) = snd e.
Proof.
  intros (_ & _ & _ & _ & _ & _ & Hp) Hi. pose proof (iter_entry _ _ Hp) as Hent. rewrite Hi in Hent.
  injection Hent as He. by rewrite He.
Qed.

(** A move of the internal iterator. *)
Lemma db_move d q q' f :
  db_ok d q -> (forall it, pos it q -> exists it', f it = Some it' /\ pos it' q') ->
  exists it, move_inner d f = Some (set_inner d it) /\ db_ok (set_inner d it) q'.
Proof.
  intros (H1 & H2 & H3 & Hr & Hu & H6 & Hp) Hf. destruct (Hf _ Hp) as (it & E & Hp').
  exists it. unfold move_inner. rewrite E. split; [done|]. unfold db_ok; cbn. do 6 (split; [done|]). done.
Qed.

(** The hidden entries, while the next shown entry from index [w] on is looked
    for at index [i]. *)
Definition next_inv (skipping : bool) (u : bytes) (i w : nat) : Prop :=
  (w <= length l)%nat /\
  (skipping = true -> forall j e, (i <= j)%nat -> (w <= j)%nat -> l !! j = Some e ->
     Compare cmp (e_user e) u <= 0 -> Vis j = false) /\
  (forall i' e' j e, (i' < i)%nat -> l !! i' = Some e' -> e_seq e' <= s -> (i <= j)%nat ->
     l !! j = Some e -> Compare cmp (e_user e') (e_user e) = 0 ->
     skipping = true /\ Compare cmp (e_user e) u <= 0) /\
  (forall j e, (i <= j < w)%nat -> l !! j = Some e -> e_seq e <= s ->
     skipping = true /\ Compare cmp (e_user e) u = 0) /\
  (forall j, (w <= j < i)%nat -> Vis j = false).

Lemma Vis_false_seq j e : l !! j = Some e -> s < e_seq e -> Vis j = false.
Proof.
  intros Hj Hlt. destruct (Vis j) eqn:E; [|done]. apply (vis_spec cmp s l j e Hj) in E as [? _]. lia.
Qed.

Lemma Vis_false_type j e : l !! j = Some e -> e_type e = kTypeDeletion -> Vis j = false.
Proof.
  intros Hj Ht. destruct (Vis j) eqn:E; [|done]. apply (vis_spec cmp s l j e Hj) in E as (_ & ? & _). congruence.
Qed.

Lemma Vis_false_earlier i j e e' :
  l !! i = Some e' -> l !! j = Some e -> (i < j)%nat -> e_seq e' <= s ->
  Compare cmp (e_user e') (e_user e) = 0 -> Vis j = false.
Proof.
  intros Hi Hj Hlt Hs' Hc. destruct (Vis j) eqn:E; [|done].
  apply (vis_spec cmp s l j e Hj) in E as (_ & _ & Hx). by destruct (Hx i e' Hlt Hi Hs').
Qed.

(** Passing an entry that is too new, a deletion and a hidden value. *)
Lemma next_inv_newer skipping u i w e :
  next_inv skipping u i w -> l !! i = Some e -> s < e_seq e -> next_inv skipping u (S i) w.
Proof.
  intros (Hw & Ha & Hb & Hc & Hd) Hi Hlt. split; [done|]. split; [intros; apply (Ha ltac:(done) j e0); (done || lia)|].
  split; [|split].
  - intros i' e' j x Hi' He' Hse Hj Hx Hcmp. destruct (decide (i' = i)) as [->|].
    + assert (e' = e) as -> by congruence. lia.
    + apply (Hb i' e' j x); (done || lia).
  - intros j x Hj. apply Hc. lia.
  - intros j Hj. destruct (decide (j = i)) as [->|]; [by eapply Vis_false_seq|]. apply Hd. lia.
Qed.

Lemma next_inv_deletion skipping u i w e :
  next_inv skipping u i w -> l !! i = Some e -> e_seq e <= s -> e_type e = kTypeDeletion ->
  next_inv true (e_user e) (S i) w.
Proof.
  intros (Hw & Ha & Hb & Hc & Hd) Hi Hse Ht. split; [done|]. split; [|split; [|split]].
  - intros _ j x Hj _ Hx Hle. pose proof (user_sorted i j e x Hi Hx ltac:(lia)) as Hle'.
    apply (Vis_false_earlier i j x e Hi Hx); [lia|done|]. apply cmp_ge_opp in Hle; [|apply C]. lia.
  - intros i' e' j x Hi' He' Hse' Hj Hx Hcmp. split; [done|].
    destruct (decide (i' = i)) as [->|].
    + assert (e' = e) as -> by congruence. apply (cmp_opp_eq (Compare cmp)) in Hcmp. lia.
    + pose proof (user_sorted i' i e' e He' Hi ltac:(lia)) as H1.
      apply (cmp_opp_eq (Compare cmp)) in Hcmp.
      apply (cmp_le_trans (e_user x) (e_user e') (e_user e)); [lia|done].
  - intros j x Hj Hx Hse'. split; [done|].
    destruct (Hc i e ltac:(lia) Hi Hse) as [_ E1]. destruct (Hc j x ltac:(lia) Hx Hse') as [_ E2].
    apply (cmp_eq_trans (Compare cmp) _ u); [done|]. by apply (cmp_opp_eq (Compare cmp)).
  - intros j Hj. destruct (decide (j = i)) as [->|]; [by eapply Vis_false_type|]. apply Hd. lia.
Qed.

Lemma next_inv_hidden u i w e :
  next_inv true u i w -> l !! i = Some e -> Compare cmp (e_user e) u <= 0 -> next_inv true u (S i) w.
Proof.
  intros (Hw & Ha & Hb & Hc & Hd) Hi Hle. split; [done|]. split; [intros; apply (Ha ltac:(done) j e0); (done || lia)|].
  split; [|split].
  - intros i' e' j x Hi' He' Hse Hj Hx Hcmp. destruct (decide (i' = i)) as [->|].
    + assert (e' = e) as -> by congruence. split; [done|]. apply (cmp_opp_eq (Compare cmp)) in Hcmp.
      apply (cmp_le_trans (e_user x) (e_user e) u); [lia|done].
    + apply (Hb i' e' j x); (done || lia).
  - intros j x Hj. apply Hc. lia.
  - intros j Hj. destruct (decide (j = i)) as [->|]; [|apply Hd; lia]. apply (Ha eq_refl i e); (done || lia).
Qed.

(** The entry that is not hidden is shown, and is the next one. *)
Lemma next_inv_found skipping u i w e :
  next_inv skipping u i w -> l !! i = Some e -> e_seq e <= s -> e_type e = kTypeValue ->
  skipping && (Compare cmp (e_user e) u <=? 0) = false -> Vis i = true /\ Rank i = Rank w /\ (w <= i)%nat.
Proof.
  intros (Hw & Ha & Hb & Hc & Hd) Hi Hse Ht Hh.
  assert (Vis i = true) as Hv.
  { apply (vis_spec cmp s l i e Hi). split; [done|]. split; [done|]. intros j e' Hj He' Hse' Hcmp.
    destruct (Hb j e' i e Hj He' Hse' ltac:(lia) Hi Hcmp) as [-> Hle].
    rewrite andb_true_l in Hh. lia. }
  assert (w <= i)%nat.
  { destruct (decide (w <= i)%nat); [done|]. destruct (Hc i e ltac:(lia) Hi Hse) as [-> Hle].
    rewrite andb_true_l in Hh. lia. }
  split; [done|]. split; [|done]. by apply rank_between.
Qed.

Lemma clip_case {A} (xs : list A) i :
  (i < length xs)%nat /\ clip xs i = Some i \/ (length xs <= i)%nat /\ clip xs i = None.
Proof. unfold clip. case_decide; [auto|right]. split; [lia|done]. Qed.

Lemma clip_rank_vis i : Vis i = true -> clip V (Rank i) = Some (Rank i).
Proof. intros Hv. unfold clip. rewrite decide_True; [done|]. by apply vis_rank_lt. Qed.

(** Nothing is shown from [w] on. *)
Lemma clip_rank_end w :
  (w <= length l)%nat -> (forall j, (w <= j < length l)%nat -> Vis j = false) -> clip V (Rank w) = None.
Proof.
  intros Hw Hv. rewrite <- (rank_between cmp s l w (length l) Hw Hv), rank_all by done.
  unfold clip. by rewrite decide_False by lia.
Qed.

Lemma find_next_loop_spec fuel skipping d i w :
  db_ok d (Some i) -> d_direction_ d = kForwardD -> (length l - i < fuel)%nat ->
  next_inv skipping (saved_key_ d) i w ->
  exists d', find_next_loop fuel skipping d = Some d' /\ db_pos d' (clip V (Rank w)).
Proof.
  revert skipping d i. induction fuel as [|fuel IH]; intros skipping d i Hok Hdir Hf Hinv; [lia|].
  destruct (lookup_lt_is_Some_2 l i) as [e Hi].
  { destruct Hok as (_ & _ & _ & _ & _ & _ & Hp). eapply lookup_lt_Some, iter_entry, Hp. }
  cbn [find_next_loop]. destruct (ParseKey_spec d i e Hok Hi) as (rnd & until & ss & E & Hok1).
  rewrite E. cbn [mbind option_bind]. set (d1 := set_sampling d rnd until ss) in *.
  assert (Hstep : forall sk' (d2 : DBIter I), next_inv sk' (saved_key_ d2) (S i) w -> db_ok d2 (Some i) ->
    d_direction_ d2 = kForwardD ->
    exists d', (d3 ← move_inner d2 it_Next;
      if it_Valid (inner_ d3) then find_next_loop fuel sk' d3
      else Some (set_valid (set_saved_key d3 []) false)) = Some d' /\ db_pos d' (clip V (Rank w))).
  { intros sk' d2 Hinv2 Hok2 Hdir2.
    destruct (db_move d2 (Some i) (clip l (S i)) it_Next Hok2) as (it & Em & Hok3); [intros it' Hit'; by apply iter_next|].
    rewrite Em. cbn [mbind option_bind]. rewrite (db_valid _ _ Hok3).
    destruct (clip_case l (S i)) as [[Hlt Ec]|[Hge Ec]]; rewrite Ec in Hok3 |- *.
    - rewrite bool_decide_true by done. apply (IH sk' _ (S i)); [done|done|lia|done].
    - rewrite bool_decide_false by (by intros []). eexists. split; [done|].
      destruct Hinv2 as (Hw & _ & _ & _ & Hd). rewrite clip_rank_end by (done || (intros j Hj; apply Hd; lia)).
      by exists None. }
  unfold next_body. cbn [sequence type user_key].
  assert (sequence_ d1 = s /\ user_comparator_ d1 = cmp) as [-> ->] by (destruct Hok1 as (? & ? & _); done).
  destruct (Z.leb_spec (e_seq e) s) as [Hse|Hse].
  2:{ apply Hstep; [|done|done]. by apply (next_inv_newer _ _ i w e). }
  destruct (e_type e) eqn:Et.
  - apply Hstep; [|done|done]. by apply (next_inv_deletion skipping (saved_key_ d) i w e).
  - destruct (skipping && _) eqn:Eh.
    + apply andb_true_iff in Eh as [-> Hle]. apply Hstep; [|done|done].
      apply (next_inv_hidden _ i w e); [done..|]. by apply Z.leb_le in Hle.
    + destruct (next_inv_found skipping (saved_key_ d) i w e Hinv Hi Hse Et Eh) as (Hv & Hr & _).
      eexists. split; [done|]. rewrite <- Hr, clip_rank_vis by done.
      exists (Some i). split; [done|]. split; [done|]. exists i, e. cbn. by rewrite Hdir.
Qed.

Lemma FindNext_spec d q w skipping :
  db_ok d q -> d_direction_ d = kForwardD ->
  match q with
  | Some i => next_inv skipping (saved_key_ d) i w
  | None => clip V (Rank w) = None
  end ->
  exists d', (if it_Valid (inner_ d) then FindNextUserEntry skipping d else Some (set_valid d false)) = Some d' /\
    db_pos d' (clip V (Rank w)).
Proof.
  intros Hok Hdir Hinv. unfold FindNextUserEntry. rewrite (db_valid _ _ Hok), Hdir. destruct q as [i|].
  - rewrite bool_decide_true by done. apply (find_next_loop_spec _ _ _ i); [done|done| |done].
    destruct Hok as (_ & _ & _ & _ & _ & Hf & _). lia.
  - rewrite bool_decide_false by (by intros []). rewrite Hinv. eexists. split; [done|]. exists None. done.
Qed.

Lemma DBIter_First_spec d q :
  db_ok d q -> exists d', DBIter_SeekToFirst d = Some d' /\ db_pos d' (clip V 0).
Proof.
  intros Hok. unfold DBIter_SeekToFirst.
  destruct (db_move (set_saved_value (set_dir d kForwardD) []) q (clip l 0) it_SeekToFirst)
    as (it & E & Hok1); [done|intros it' Hit'; by apply (iter_first it' q)|].
  rewrite E. cbn [mbind option_bind]. change (clip V 0) with (clip V (Rank 0)).
  apply (FindNext_spec _ (clip l 0) 0%nat); [done|done|].
  destruct (clip_case l 0) as [[Hlt ->]|[Hge ->]].
  - split; [lia|]. split; [done|]. split; [lia|]. split; lia.
  - apply clip_rank_end; lia.
Qed.

(** The state after a shown entry, wherever the search starts again. *)
Lemma next_inv_after i e n :
  l !! i = Some e -> Vis i = true -> (n <= S i)%nat ->
  (forall j e', (n <= j < i)%nat -> l !! j = Some e' -> s < e_seq e') ->
  next_inv true (e_user e) n (S i).
Proof.
  intros Hi Hv Hn Hnew. pose proof (proj1 (vis_spec cmp s l i e Hi) Hv) as (Hse & _ & Hvis).
  split; [by eapply lookup_lt_Some|]. split; [|split; [|split]].
  - intros _ j x _ Hj Hx Hle. pose proof (user_sorted i j e x Hi Hx ltac:(lia)).
    apply (Vis_false_earlier i j x e Hi Hx); [lia|done|].
    apply (cmp_ge_opp (Compare cmp)) in Hle. lia.
  - intros i' e' j x Hi' He' Hse' Hj Hx Hcmp. split; [done|].
    destruct (decide (j <= i)%nat).
    + destruct (decide (j = i)) as [->|]; [assert (x = e) as -> by congruence; by rewrite cmp_refl|].
      by apply user_sorted with j i; [| |lia].
    + assert (i' <> i -> (i' < i)%nat) by lia.
      destruct (decide (i' = i)) as [->|].
      * assert (e' = e) as -> by congruence. apply (cmp_opp_eq (Compare cmp)) in Hcmp. lia.
      * pose proof (user_sorted i' i e' e He' Hi ltac:(lia)) as Hle.
        apply (cmp_opp_eq (Compare cmp)) in Hcmp.
        apply (cmp_le_trans (e_user x) (e_user e') (e_user e)); [lia|done].
  - intros j x Hj Hx Hsx. split; [done|].
    destruct (decide (j = i)) as [->|]; [assert (x = e) as -> by congruence; by apply cmp_refl|].
    pose proof (Hnew j x ltac:(lia) Hx). lia.
  - intros j Hj. lia.
Qed.

Lemma rank_after i : Vis i = true -> Rank (S i) = S (Rank i).
Proof.
  intros Hv. destruct (lookup_lt_is_Some_2 l i (vis_lt cmp s l i Hv)) as [e Hi].
  rewrite (rank_S cmp s l i e Hi), Hv. lia.
Qed.

Lemma DBIter_Next_spec d k :
  db_pos d (Some k) -> exists d', DBIter_Next d = Some d' /\ db_pos d' (clip V (S k)).
Proof.
  intros (q & Hok & Hval & i & e & Hi & Hv & <- & Hdir). unfold DBIter_Next. rewrite Hval, bool_decide_true by done.
  cbn [negb]. rewrite <- rank_after by done. pose proof (vis_lt _ _ _ _ Hv) as Hilt.
  destruct (d_direction_ d) eqn:Ed.
  - subst q. destruct (db_entry d i e Hok Hi) as [Ek _].
    destruct (db_move (set_saved_key d (ExtractUserKey (it_key (inner_ d)))) (Some i) (clip l (S i)) it_Next)
      as (it & E & Hok1); [done|intros it' Hit'; by apply iter_next|].
    rewrite E. cbn [mbind option_bind]. set (d1 := set_inner _ it) in *.
    assert (saved_key_ d1 = e_user e) as Hsk by (cbn; by rewrite Ek).
    rewrite (db_valid _ _ Hok1). destruct (clip_case l (S i)) as [[Hlt Ec]|[Hge Ec]]; rewrite Ec in Hok1 |- *.
    + rewrite bool_decide_true by done.
      pose proof (FindNext_spec d1 (Some (S i)) (S i) true Hok1 Ed) as Hfn.
      rewrite (db_valid _ _ Hok1), bool_decide_true in Hfn by done. apply Hfn.
      rewrite Hsk. apply (next_inv_after i e (S i) Hi Hv); [done|lia].
    + rewrite bool_decide_false by (by intros []). eexists. split; [done|].
      rewrite clip_rank_end by lia. exists None. done.
  - destruct Hdir as (Hk & Hval' & n & -> & Hn & Hnew).
    set (d0 := set_dir d kForwardD).
    assert (exists it, (if it_Valid (inner_ d0) then move_inner d0 it_Next else move_inner d0 it_SeekToFirst)
      = Some (set_inner d0 it) /\ db_ok (set_inner d0 it) (Some n)) as (it & E & Hok1).
    { assert (db_ok d0 (before n)) as Hok0 by done. rewrite (db_valid _ _ Hok0).
      destruct n as [|n]; cbn [before] in *.
      - rewrite bool_decide_false by (by intros []). apply (db_move d0 None); [done|].
        intros it' Hit'. destruct (iter_first it' None Hit') as (it2 & E2 & Hp2). exists it2. split; [done|].
        unfold clip in Hp2. by rewrite decide_True in Hp2 by lia.
      - rewrite bool_decide_true by done. apply (db_move d0 (Some n)); [done|].
        intros it' Hit'. destruct (iter_next it' n Hit') as (it2 & E2 & Hp2). exists it2. split; [done|].
        unfold clip in Hp2. by rewrite decide_True in Hp2 by lia. }
    rewrite E. cbn [mbind option_bind].
    pose proof (FindNext_spec (set_inner d0 it) (Some n) (S i) true Hok1 eq_refl) as Hfn.
    rewrite (db_valid _ _ Hok1), bool_decide_true in Hfn |- * by done. apply Hfn.
    cbn [saved_key_ set_inner set_dir d0]. rewrite Hk. apply next_inv_after; [done|done|lia|done].
Qed.

(** ** [Seek] *)

Definition seek_key (target : bytes) : bytes :=
  AppendInternalKey [] (mkParsedInternalKey target s kValueTypeForSeek).

Lemma seek_compare e target :
  entry_parses e = true ->
  ikey_Compare cmp (fst e) (seek_key target) < 0 <->
  Compare cmp (e_user e) target < 0 \/ Compare cmp (e_user e) target = 0 /\ s < e_seq e.
Proof.
  intros Hp. unfold seek_key, AppendInternalKey. cbn [user_key sequence type app]. unfold PutFixed64.
  rewrite ikey_Compare_spec, ExtractUserKey_app, key_tag_app by (by apply PackSequenceAndType_range).
  rewrite PackSequenceAndType_add, (entry_tag e Hp) by done. fold (e_user e).
  pose proof (ValueType_value_range (e_type e)).
  change (ValueType_value kValueTypeForSeek) with 1.
  destruct (Z.eqb_spec (Compare cmp (e_user e) target) 0) as [->|]; [|lia].
  match goal with |- context [Z.sgn ?x] => destruct (Z.sgn_spec x) as [[? ->]|[[? ->]|[? ->]]] end; lia.
Qed.

Section Seek.

Context (target : bytes).

Let b : nat := below (ikey_Compare cmp) (seek_key target) l.

Lemma seek_before j e : l !! j = Some e -> (j < b)%nat -> e_seq e <= s -> Compare cmp (e_user e) target < 0.
Proof.
  intros Hj Hlt Hse. rewrite Forall_lookup in Hparse. pose proof (Hparse j e Hj) as Hp.
  pose proof (proj1 (seek_compare e target Hp) (below_lt _ _ _ _ _ Hj Hlt)). lia.
Qed.

Lemma seek_after j e : l !! j = Some e -> (b <= j)%nat -> 0 <= Compare cmp (e_user e) target.
Proof.
  intros Hj Hge. rewrite Forall_lookup in Hparse. pose proof (Hparse j e Hj) as Hp.
  pose proof (proj2 (seek_compare e target Hp)) as Hc.
  pose proof (below_ge (ikey_Compare cmp) (T := compare_three_way (c := InternalKeyComparator cmp)) _ _ _ _ Hl Hj Hge). lia.
Qed.

Lemma seek_rank : below (Compare cmp) target V = Rank b.
Proof.
  assert (b <= length l)%nat as Hb by apply below_le.
  apply below_unique.
  - pose proof (rank_le cmp s l b (length l) Hb) as Hle. by rewrite (rank_all _ _ _ (length l)) in Hle.
  - intros k x Hk Hx. destruct (view_index cmp s l k x Hx) as (i & e & Hi & Hv & <- & ->).
    apply (seek_before i e Hi); [|by apply (vis_spec cmp s l i e Hi)].
    destruct (decide (i < b)%nat); [done|]. pose proof (rank_le cmp s l b i ltac:(lia)). lia.
  - intros x Hx. destruct (view_index cmp s l _ x Hx) as (i & e & Hi & Hv & Hr & ->).
    apply (seek_after i e Hi). destruct (decide (b <= i)%nat); [done|].
    pose proof (rank_le cmp s l (S i) b ltac:(lia)). rewrite (rank_after i Hv) in *. lia.
Qed.

Lemma seek_inv u : next_inv false u b b.
Proof.
  split; [apply below_le|]. split; [done|]. split; [|split; lia].
  intros i' e' j e Hi' He' Hse Hj He Hc.
  pose proof (seek_before i' e' He' Hi' Hse) as H1. pose proof (seek_after j e He Hj) as H2.
  apply (cmp_opp_eq (Compare cmp)) in Hc.
  pose proof (cmp_le_lt_trans (Compare cmp) (e_user e) (e_user e') target ltac:(lia) H1). lia.
Qed.

Lemma DBIter_Seek_spec d q :
  db_ok d q -> Tg (seek_key target) -> exists d', DBIter_Seek d target = Some d' /\ db_pos d' (seek_pos (Compare cmp) target V).
Proof.
  intros Hok Htg. unfold DBIter_Seek, seek_pos. rewrite seek_rank.
  assert (sequence_ d = s) as Hsq by apply Hok. cbn [sequence_ set_saved_value set_dir]. rewrite Hsq.
  cbn [saved_key_ set_saved_key]. fold (seek_key target).
  set (d0 := set_saved_key (set_saved_value (set_dir d kForwardD) []) (seek_key target)).
  destruct (db_move d0 q (clip l b) (fun it => it_Seek it (seek_key target))) as (it & E & Hok1);
    [done|intros it' Hit'; by apply (iter_seek it' q)|].
  rewrite E. cbn [mbind option_bind].
  apply (FindNext_spec _ (clip l b) b); [done|done|].
  destruct (clip_case l b) as [[Hlt ->]|[Hge ->]]; [apply seek_inv|].
  apply clip_rank_end; [apply below_le|lia].
Qed.

End Seek.

(** ** Backwards *)

(** The entries passed, while the last shown entry before index [q] is looked
    for; the next one to look at is just before [n]. *)
Definition prev_inv (vt : ValueType) (d : DBIter I) (n q : nat) : Prop :=
  (n <= q <= length l)%nat /\
  match vt with
  | kTypeDeletion => forall j, (n <= j < q)%nat -> Vis j = false
  | kTypeValue =>
      exists i e, (n <= i < q)%nat /\ l !! i = Some e /\ e_seq e <= s /\ e_type e = kTypeValue /\
        saved_key_ d = e_user e /\ saved_value_ d = snd e /\
        (forall j, (i < j < q)%nat -> Vis j = false) /\
        (forall j e', (n <= j < i)%nat -> l !! j = Some e' -> s < e_seq e')
  end.

(** Where the search ends: with the entry shown, if any, and the internal
    iterator before it. *)
Definition prev_done (vt : ValueType) (d : DBIter I) (q : nat) : Prop :=
  match vt with
  | kTypeDeletion => (exists p, db_ok d p) /\ Rank q = 0%nat
  | kTypeValue =>
      exists i e n, l !! i = Some e /\ Vis i = true /\ Rank q = S (Rank i) /\
        saved_key_ d = e_user e /\ saved_value_ d = snd e /\ db_ok d (before n) /\ (n <= i)%nat /\
        forall j e', (n <= j < i)%nat -> l !! j = Some e' -> s < e_seq e'
  end.

(** An entry none in front of which decides its user key is shown. *)
Lemma prev_found d n q i e :
  (n <= i < q)%nat -> (q <= length l)%nat -> l !! i = Some e -> e_seq e <= s -> e_type e = kTypeValue ->
  saved_key_ d = e_user e -> saved_value_ d = snd e ->
  (forall j, (i < j < q)%nat -> Vis j = false) ->
  (forall j e', (n <= j < i)%nat -> l !! j = Some e' -> s < e_seq e') ->
  (forall j e', (j < n)%nat -> l !! j = Some e' -> e_seq e' <= s -> Compare cmp (e_user e') (e_user e) < 0) ->
  db_ok d (before n) -> prev_done kTypeValue d q.
Proof.
  intros Hn Hq Hi Hse Ht Hk Hv Hlater Hnew Hbefore Hok.
  assert (Vis i = true) as Hvis.
  { apply (vis_spec cmp s l i e Hi). split; [done|]. split; [done|]. intros j e' Hj He' Hs' Hc.
    destruct (decide (j < n)%nat); [pose proof (Hbefore j e' ltac:(lia) He' Hs'); lia|].
    pose proof (Hnew j e' ltac:(lia) He'). lia. }
  exists i, e, n. split; [done|]. split; [done|]. split; [|split; [done|]; split; [done|]; split; [done|]; split; [lia|done]].
  rewrite <- (rank_after i Hvis). apply rank_between; [lia|]. intros k Hkk. apply Hlater. lia.
Qed.

Lemma prev_inv_newer vt d i q e :
  prev_inv vt d (S i) q -> l !! i = Some e -> s < e_seq e -> prev_inv vt d i q.
Proof.
  intros [Hq Hinv] Hi Hlt. split; [lia|]. destruct vt.
  - intros j Hj. destruct (decide (j = i)) as [->|]; [by eapply Vis_false_seq|]. apply Hinv. lia.
  - destruct Hinv as (k & x & Hk & Hx & H1 & H2 & H3 & H4 & H5 & H6). exists k, x. split; [lia|].
    do 6 (split; [done|]). intros j e' Hj He'. destruct (decide (j = i)) as [->|]; [congruence|].
    apply (H6 j); [lia|done].
Qed.

(** An entry that is not newer hides what was found after it, unless it belongs
    to a smaller user key. *)
Lemma prev_inv_hides vt d i q e :
  prev_inv vt d (S i) q -> l !! i = Some e -> e_seq e <= s ->
  negb (bool_decide (vt = kTypeDeletion)) && (Compare cmp (e_user e) (saved_key_ d) <? 0) = false ->
  forall j, (i < j < q)%nat -> Vis j = false.
Proof.
  intros [Hq Hinv] Hi Hse Hb j Hj. destruct vt; [apply Hinv; lia|].
  destruct Hinv as (k & x & Hk & Hx & H1 & H2 & H3 & H4 & H5 & H6). rewrite H3, bool_decide_false in Hb by done.
  cbn [negb] in Hb. rewrite andb_true_l in Hb. apply Z.ltb_ge in Hb.
  destruct (Nat.lt_trichotomy j k) as [Hjk|[->|Hjk]]; [|..|apply H5; lia].
  - destruct (lookup_lt_is_Some_2 l j) as [y Hy]; [lia|]. apply (Vis_false_seq j y Hy), (H6 j); [lia|done].
  - apply (Vis_false_earlier i k x e Hi Hx); [lia|done|].
    pose proof (user_sorted i k e x Hi Hx ltac:(lia)). lia.
Qed.

Lemma find_prev_loop_spec fuel vt d i q :
  db_ok d (Some i) -> d_direction_ d = kReverseD -> (i < fuel)%nat -> prev_inv vt d (S i) q ->
  exists vt' d', find_prev_loop fuel vt d = Some (vt', d') /\ prev_done vt' d' q /\ d_direction_ d' = kReverseD.
Proof.
  revert vt d i. induction fuel as [|fuel IH]; intros vt d i Hok Hdir Hf Hinv; [lia|].
  destruct (lookup_lt_is_Some_2 l i) as [e Hi].
  { destruct Hok as (_ & _ & _ & _ & _ & _ & Hp). eapply lookup_lt_Some, iter_entry, Hp. }
  cbn [find_prev_loop]. destruct (ParseKey_spec d i e Hok Hi) as (rnd & until & ss & E & Hok1).
  destruct (db_entry d i e Hok Hi) as [Ek Ev].
  rewrite E. cbn [mbind option_bind]. set (d1 := set_sampling d rnd until ss) in *.
  assert (Hstep : forall vt2 (d2 : DBIter I), prev_inv vt2 d2 i q -> db_ok d2 (Some i) -> d_direction_ d2 = kReverseD ->
    exists vt' d', (d3 ← move_inner d2 it_Prev;
      if it_Valid (inner_ d3) then find_prev_loop fuel vt2 d3 else Some (vt2, d3)) = Some (vt', d') /\
      prev_done vt' d' q /\ d_direction_ d' = kReverseD).
  { intros vt2 d2 Hinv2 Hok2 Hdir2.
    destruct (db_move d2 (Some i) (before i) it_Prev Hok2) as (it & Em & Hok3); [intros it' Hit'; by apply iter_prev|].
    rewrite Em. cbn [mbind option_bind]. rewrite (db_valid _ _ Hok3).
    destruct i as [|i]; cbn [before].
    - rewrite bool_decide_false by (by intros []). do 2 eexists. split; [done|]. split; [|done].
      destruct Hinv2 as [Hq Hinv2]. destruct vt2.
      + split; [by eexists|]. rewrite (rank_between cmp s l 0 q); [done|lia|done].
      + destruct Hinv2 as (k & x & Hk & Hx & H1 & H2 & H3 & H4 & H5 & H6).
        apply (prev_found _ 0 q k x); (done || lia || by intros).
    - rewrite bool_decide_true by done. apply (IH _ _ i); [done|done|lia|done]. }
  unfold prev_body. cbn [sequence type user_key].
  assert (sequence_ d1 = s /\ user_comparator_ d1 = cmp) as [-> ->] by (destruct Hok1 as (? & ? & _); done).
  destruct (Z.leb_spec (e_seq e) s) as [Hse|Hse].
  2:{ apply Hstep; [|done|done]. by apply (prev_inv_newer _ _ i q e). }
  change (saved_key_ d1) with (saved_key_ d). destruct (_ && _) eqn:Eb.
  - exists vt, d1. split; [done|]. split; [|done]. destruct Hinv as [Hq Hinv]. destruct vt; [done|].
    destruct Hinv as (k & x & Hk & Hx & H1 & H2 & H3 & H4 & H5 & H6).
    rewrite H3, bool_decide_false in Eb by done. cbn [negb] in Eb. rewrite andb_true_l in Eb. apply Z.ltb_lt in Eb.
    apply (prev_found _ (S i) q k x); try (done || lia). intros j e' Hj He' _.
    destruct (decide (j = i)) as [->|]; [congruence|].
    apply (cmp_le_lt_trans (Compare cmp) _ (e_user e)); [|done]. apply user_sorted with j i; (done || lia).
  - pose proof (prev_inv_hides vt d i q e Hinv Hi Hse Eb) as Hhid. destruct Hinv as [Hq _].
    destruct (e_type e) eqn:Et; (apply Hstep; [|done|done]).
    + split; [lia|]. intros j Hj. destruct (decide (j = i)) as [->|]; [by eapply Vis_false_type|].
      apply Hhid. lia.
    + split; [lia|]. exists i, e. split; [lia|]. cbn. rewrite Ek, Ev. do 5 (split; [done|]). split; [done|lia].
Qed.

(** [FindPrevUserEntry] from the entries before index [q]. *)
Lemma FindPrev_spec d q :
  db_ok d (before q) -> d_direction_ d = kReverseD -> (q <= length l)%nat ->
  exists d', FindPrevUserEntry d = Some d' /\ db_pos d' (before (Rank q)).
Proof.
  intros Hok Hdir Hq. unfold FindPrevUserEntry. rewrite Hdir, (db_valid _ _ Hok).
  assert (exists vt d1, (if bool_decide (is_Some (before q)) then find_prev_loop (loop_fuel d) kTypeDeletion d
      else Some (kTypeDeletion, d)) = Some (vt, d1) /\ prev_done vt d1 q /\ d_direction_ d1 = kReverseD)
    as (vt & d1 & E & Hd & Hdir1).
  { destruct q as [|q]; cbn [before] in *.
    - rewrite bool_decide_false by (by intros []). exists kTypeDeletion, d. split; [done|]. split; [|done].
      split; [by eexists|done].
    - rewrite bool_decide_true by done. apply (find_prev_loop_spec _ _ _ q); [done|done| |].
      + destruct Hok as (_ & _ & _ & _ & _ & ? & _). lia.
      + split; [lia|]. intros j Hj. lia. }
  rewrite E. cbn [mbind option_bind]. destruct vt.
  - destruct Hd as [[p Hp] Hr]. eexists. split; [done|]. rewrite Hr. cbn [before]. exists p. done.
  - destruct Hd as (i & e & n & Hi & Hv & Hr & Hk & Hval & Hok1 & Hn & Hnew).
    eexists. split; [done|]. rewrite Hr. cbn [before]. exists (before n). split; [done|]. split; [done|].
    exists i, e. do 3 (split; [done|]). cbn. rewrite Hdir1. split; [done|]. split; [done|]. by exists n.
Qed.

Lemma DBIter_Last_spec d q :
  db_ok d q -> exists d', DBIter_SeekToLast d = Some d' /\ db_pos d' (last_pos V).
Proof.
  intros Hok. unfold DBIter_SeekToLast.
  destruct (db_move (set_saved_value (set_dir d kReverseD) []) q (last_pos l) it_SeekToLast)
    as (it & E & Hok1); [done|intros it' Hit'; by apply (iter_last it' q)|].
  rewrite E. cbn [mbind option_bind]. unfold last_pos. rewrite <- (rank_all cmp s l (length l)) by done.
  by apply FindPrev_spec.
Qed.

(** The scan to the entries before the current key. *)
Lemma before_key_loop_spec fuel d i k e :
  db_ok d (Some i) -> (i <= k)%nat -> (i < fuel)%nat -> l !! k = Some e -> Vis k = true ->
  saved_key_ d = e_user e ->
  (forall j e', (i <= j < k)%nat -> l !! j = Some e' -> Compare cmp (e_user e') (e_user e) = 0) ->
  exists r, before_key_loop fuel d = Some r /\
    match r with
    | inl d' => db_pos d' None /\ Rank k = 0%nat
    | inr d' => exists b, db_ok d' (Some b) /\ (b < length l)%nat /\ Rank (S b) = Rank k
    end.
Proof.
  intros Hok Hik Hf Hk Hv Hsk Hsame. pose proof (proj1 (vis_spec cmp s l k e Hk) Hv) as (Hse & _ & _).
  assert (Hhid : forall j x, (j < k)%nat -> l !! j = Some x -> Compare cmp (e_user x) (e_user e) = 0 -> Vis j = false).
  { intros j x Hj Hx Hc. destruct (Vis j) eqn:Ej; [|done].
    pose proof (proj1 (vis_spec cmp s l j x Hx) Ej) as (Hsx & _ & _).
    pose proof (Vis_false_earlier j k e x Hx Hk Hj Hsx Hc). congruence. }
  revert d i Hok Hik Hf Hsk Hsame. induction fuel as [|fuel IH]; intros d i Hok Hik Hf Hsk Hsame; [lia|].
  cbn [before_key_loop].
  destruct (db_move d (Some i) (before i) it_Prev Hok) as (it & Em & Hok1); [intros it' Hit'; by apply iter_prev|].
  rewrite Em. cbn [mbind option_bind]. rewrite (db_valid _ _ Hok1).
  destruct i as [|i]; cbn [before] in *.
  - rewrite bool_decide_false by (by intros []). cbn [negb]. eexists. split; [done|]. cbn beta iota. split; [by exists None|].
    rewrite (rank_between cmp s l 0 k); [done|lia|]. intros j Hj.
    destruct (lookup_lt_is_Some_2 l j) as [x Hx]; [apply lookup_lt_Some in Hk; lia|].
    apply (Hhid j x); [lia|done|]. by apply (Hsame j x).
  - rewrite bool_decide_true by done. cbn [negb].
    destruct (lookup_lt_is_Some_2 l i) as [x Hx]; [apply lookup_lt_Some in Hk; lia|].
    destruct (db_entry _ i x Hok1 Hx) as [Ek _]. rewrite Ek. fold (e_user x).
    change (saved_key_ (set_inner d it)) with (saved_key_ d). rewrite Hsk.
    assert (user_comparator_ (set_inner d it) = cmp) as -> by apply Hok1.
    destruct (Z.ltb_spec (Compare cmp (e_user x) (e_user e)) 0) as [Hlt|Hge].
    + eexists. split; [done|]. cbn beta iota. exists i. split; [done|]. split; [by eapply lookup_lt_Some|].
      symmetry. apply rank_between; [lia|]. intros j Hj.
      destruct (lookup_lt_is_Some_2 l j) as [y Hy]; [apply lookup_lt_Some in Hk; lia|].
      apply (Hhid j y); [lia|done|]. by apply (Hsame j y).
    + apply (IH _ i); [done|lia|lia|done|]. intros j y Hj Hy.
      destruct (decide (j = i)) as [->|]; [|apply (Hsame j y); (lia || done)].
      assert (y = x) as -> by congruence. pose proof (user_sorted i k x e Hx Hk ltac:(lia)). lia.
Qed.

Lemma DBIter_Prev_spec d k :
  db_pos d (Some k) -> exists d', DBIter_Prev d = Some d' /\ db_pos d' (before k).
Proof.
  intros (q & Hok & Hval & i & e & Hi & Hv & <- & Hdir). unfold DBIter_Prev. rewrite Hval, bool_decide_true by done.
  cbn [negb]. pose proof (vis_lt _ _ _ _ Hv) as Hilt. destruct (d_direction_ d) eqn:Ed.
  - subst q. destruct (db_entry d i e Hok Hi) as [Ek _].
    rewrite (db_valid _ _ Hok), bool_decide_true by done. cbn [negb]. rewrite Ek. fold (e_user e).
    destruct (before_key_loop_spec (loop_fuel d) (set_saved_key d (e_user e)) i i e) as (r & E & Hr);
      [done|done|destruct Hok as (_ & _ & _ & _ & _ & ? & _); lia|done|done|done|lia|].
    rewrite E. cbn [mbind option_bind]. destruct r as [d'|d'].
    + destruct Hr as [Hp ->]. by exists d'.
    + destruct Hr as (b & Hokb & Hb & <-).
      by apply (FindPrev_spec (set_dir d' kReverseD) (S b)).
  - destruct Hdir as (_ & _ & n & -> & Hn & Hnew).
    rewrite (rank_between cmp s l n i Hn).
    + apply (FindPrev_spec d n); [done|done|lia].
    + intros j Hj. destruct (lookup_lt_is_Some_2 l j) as [x Hx]; [lia|].
      apply (Vis_false_seq j x Hx). by apply (Hnew j x).
Qed.

#[export] Instance DBIter_iterates : IteratesWithin (fun target => Tg (seek_key target)) (Compare cmp) V db_pos.
Proof.
  split.
  - intros d p (q & _ & Hv & _). exact Hv.
  - intros d k (q & Hok & Hv & i & e & Hi & Hvis & <- & Hdir). rewrite (view_lookup cmp s l i e Hi Hvis).
    cbn. unfold DBIter_key, DBIter_value. rewrite Hv, bool_decide_true by done. cbn.
    destruct (d_direction_ d).
    + subst q. by destruct (db_entry d i e Hok Hi) as [-> ->].
    + by destruct Hdir as (-> & -> & _).
  - intros d p (q & Hok & _). cbn. unfold DBIter_status.
    assert (d_status_ d = OK) as -> by apply Hok. change (ok OK) with true. cbv iota.
    destruct Hok as (_ & _ & _ & _ & _ & _ & Hp). by eapply iter_status.
  - intros d p (q & Hok & _). by apply (DBIter_First_spec d q).
  - intros d p (q & Hok & _). by apply (DBIter_Last_spec d q).
  - intros d p target (q & Hok & _) Ht. by apply (DBIter_Seek_spec target d q).
  - exact DBIter_Next_spec.
  - exact DBIter_Prev_spec.
Qed.

Lemma NewDBIterator_pos it p seed fuel :
  pos it p -> 0 <= seed < 2 ^ 32 -> (length l < fuel)%nat ->
  db_pos (NewDBIterator cmp it s seed fuel) None.
Proof.
  intros Hp Hseed Hf. exists p. unfold NewDBIterator, RandomCompactionPeriod, Uniform.
  split; [|done]. unfold db_ok. cbn.
  pose proof (Random_make_ok seed Hseed) as Hr. destruct (Random_Next_spec _ Hr) as [_ Hr'].
  pose proof (Z.mod_pos_bound (Random_Next (Random_make seed)) 2097152 ltac:(lia)) as Hm.
  do 4 (split; [done|]). split; [|done]. change (2 * kReadBytesPeriod) with 2097152 in *. lia.
Qed.

End Contract.

(** ** What the view holds *)

Section Snapshot.

Context (cmp : Comparator) {C : ComparatorLaws cmp} (s : Z).
Context (l : list entry) (Hl : StronglySorted (entry_lt (ikey_Compare cmp)) l).

(** [e] is the newest entry of its user key that is not newer than [s]. *)
Definition newest (e : entry) : Prop :=
  e ∈ l /\ e_seq e <= s /\
  forall e', e' ∈ l -> e_seq e' <= s -> Compare cmp (e_user e') (e_user e) = 0 ->
    key_tag (fst e') <= key_tag (fst e).

Lemma same_user_tags i j e e' :
  l !! i = Some e -> l !! j = Some e' -> (i < j)%nat -> Compare cmp (e_user e) (e_user e') = 0 ->
  key_tag (fst e') < key_tag (fst e).
Proof.
  intros Hi Hj Hij Hc. pose proof (sorted_lookup_lt (ikey_Compare cmp) l i j e e' Hl Hi Hj Hij) as Hlt.
  rewrite ikey_Compare_spec in Hlt. fold (e_user e) (e_user e') in Hlt. rewrite Hc, Z.eqb_refl in Hlt.
  revert Hlt. match goal with |- context [Z.sgn ?x] => destruct (Z.sgn_spec x) as [[? ->]|[[? ->]|[? ->]]] end; lia.
Qed.

Lemma vis_newest i e : l !! i = Some e -> vis cmp s l i = true <-> newest e /\ e_type e = kTypeValue.
Proof.
  intros Hi. rewrite (vis_spec cmp s l i e Hi). split.
  - intros (Hse & Ht & Hx). split; [|done]. split; [by eapply list_elem_of_lookup_2|]. split; [done|].
    intros e' He' Hse' Hc. apply list_elem_of_lookup_1 in He' as [j Hj].
    destruct (Nat.lt_trichotomy j i) as [Hlt|[->|Hlt]].
    + by destruct (Hx j e' Hlt Hj Hse').
    + assert (e' = e) as -> by congruence. done.
    + apply (cmp_opp_eq (Compare cmp)) in Hc. pose proof (same_user_tags i j e e' Hi Hj Hlt Hc). lia.
  - intros [(_ & Hse & Hx) Ht]. split; [done|]. split; [done|]. intros j e' Hj He' Hse' Hc.
    pose proof (Hx e' ltac:(by eapply list_elem_of_lookup_2) Hse' Hc).
    pose proof (same_user_tags j i e' e He' Hi Hj Hc). lia.
Qed.

Lemma user_view_elem x :
  x ∈ user_view cmp s l <-> exists e, newest e /\ e_type e = kTypeValue /\ x = (e_user e, snd e).
Proof.
  split.
  - intros [k Hk]%list_elem_of_lookup_1. destruct (view_index cmp s l k x Hk) as (i & e & Hi & Hv & _ & ->).
    apply (vis_newest i e Hi) in Hv as [Hn Ht]. by exists e.
  - intros (e & Hn & Ht & ->). destruct Hn as (Hin & Hrest).
    apply list_elem_of_lookup_1 in Hin as [i Hi].
    apply list_elem_of_lookup_2 with (i := rank cmp s l i), view_lookup; [done|].
    apply (vis_newest i e Hi). split; [|done]. split; [by eapply list_elem_of_lookup_2|done].
Qed.

Lemma user_view_sorted : StronglySorted (entry_lt (Compare cmp)) (user_view cmp s l).
Proof.
  apply StronglySorted_by_lookup. intros k1 k2 x y Hk1 Hk2 Hlt.
  destruct (view_index cmp s l k1 x Hk1) as (i & e & Hi & Hv & <- & ->).
  destruct (view_index cmp s l k2 y Hk2) as (j & e' & Hj & Hv' & <- & ->).
  assert (i < j)%nat as Hij.
  { destruct (decide (i < j)%nat); [done|]. pose proof (rank_le cmp s l j i ltac:(lia)). lia. }
  pose proof (user_sorted cmp l Hl i j e e' Hi Hj Hij) as Hle. unfold entry_lt. cbn [fst].
  pose proof (proj1 (vis_spec cmp s l j e' Hj) Hv') as (_ & _ & Hx).
  pose proof (Hx i e Hij Hi (proj1 (proj1 (vis_spec cmp s l i e Hi) Hv))). lia.
Qed.

End Snapshot.

(** C26: A database iterator at sequence number [s] over an internal iterator whose
    keys all parse behaves like a cursor over the user's view at [s], through any
    sequence of moves in both directions with [Next] and [Prev] at valid positions:
    every call returns (the search loops and the read-sampling loop all end), the
    status is OK and the key and value shown are the cursor's.  The view is sorted
    by user key with no key twice, and holds exactly the values of those entries
    that are the newest of their user key not newer than [s] and not deletions. *)
Theorem dbiter_cursor {I} `{Iterator I} cmp (l : list entry) pos (it : I) p0 s seed fuel ms p :
  ComparatorLaws cmp -> 0 <= s <= kMaxSequenceNumber -> 0 <= seed < 2 ^ 32 ->
  StronglySorted (entry_lt (ikey_Compare cmp)) l ->
  Forall (fun e => entry_parses e = true) l ->
  Forall (fun e => blen (fst e) + blen (snd e) < 2 ^ 63) l ->
  IteratesOver (ikey_Compare cmp) l pos -> pos it p0 -> (length l < fuel)%nat ->
  moves_cursor (Compare cmp) (user_view cmp s l) None ms = Some p ->
  (exists d, moves_iter (NewDBIterator cmp it s seed fuel) ms = Some d /\
     shows d (p ≫= (user_view cmp s l !!.))) /\
  StronglySorted (entry_lt (Compare cmp)) (user_view cmp s l) /\
  (forall u v, (u, v) ∈ user_view cmp s l <->
     exists e, newest cmp s l e /\ e_type e = kTypeValue /\ (u, v) = (e_user e, snd e)).
Proof.
  intros C Hs Hseed Hl Hparse Hsize IT Hp Hf Hms. split; [|split].
  - pose proof (DBIter_iterates cmp s Hs l Hl Hparse Hsize any_target pos) as Hit.
    apply (moves_show _ None ms p); [|done]. by apply (NewDBIterator_pos cmp s l pos it p0).
  - by apply user_view_sorted.
  - intros u v. by apply user_view_elem.
Qed.

(** Two keys, one of them overwritten and then deleted; a snapshot between. *)
Definition ikey (u : bytes) (q : Z) (t : ValueType) : bytes := AppendInternalKey [] (mkParsedInternalKey u q t).
Definition sample_internal : list entry :=
  [(ikey (str "a") 9 kTypeDeletion, []); (ikey (str "a") 5 kTypeValue, str "new");
   (ikey (str "a") 2 kTypeValue, str "old"); (ikey (str "b") 4 kTypeDeletion, []);
   (ikey (str "b") 1 kTypeValue, str "gone"); (ikey (str "c") 3 kTypeValue, str "kept")].

Lemma dbiter_cursor_witness :
  (exists d, moves_iter (NewDBIterator BytewiseComparator
        (mkListIter (InternalKeyComparator BytewiseComparator) sample_internal None) 6 301 7)
      [ToFirst; Forth; Back; Forth] = Some d /\ shows d (Some (str "c", str "kept"))) /\
  StronglySorted (entry_lt (Compare BytewiseComparator)) (user_view BytewiseComparator 6 sample_internal) /\
  (forall u v, (u, v) ∈ user_view BytewiseComparator 6 sample_internal <->
     exists e, newest BytewiseComparator 6 sample_internal e /\ e_type e = kTypeValue /\
       (u, v) = (e_user e, snd e)).
Proof.
  apply (dbiter_cursor BytewiseComparator sample_internal
    (li_at (InternalKeyComparator BytewiseComparator) sample_internal)
    (mkListIter (InternalKeyComparator BytewiseComparator) sample_internal None) None 6 301 7
    [ToFirst; Forth; Back; Forth] (Some 1%nat)).
  - exact BytewiseComparator_laws.
  - vm_compute. split; discriminate.
  - lia.
  - repeat constructor.
  - repeat constructor.
  - repeat constructor.
  - exact (ListIterator_iterates (InternalKeyComparator BytewiseComparator) sample_internal).
  - split; [reflexivity|discriminate].
  - cbn. lia.
  - vm_compute. reflexivity.
Defined.
