(* ===== verification/Cache.v ===== *)
(** * The cache

    [util/cache.cc]: a cache with least-recently-used eviction, reference counts
    and its own hash table, in sixteen shards.  Handles live in a store indexed by
    their address; the two circular doubly linked lists go through the handles'
    [next] and [prev] as in the source, and the chains of the hash table are the
    lists of their handles.  The deleter's calls are recorded. *)

From S2P Require Import Prelude Slice Coding Bloom.

(** [struct LRUHandle].  Values stand for the client's pointers. *)
Record LRUHandle := mkHandle {
  value : Z;
  next : nat;
  prev : nat;
  charge : Z;
  h_key : bytes;
  in_cache : bool;
  refs : Z;
  h_hash : Z
}.

(** [class HandleTable]: [list_[i]] is the chain of bucket [i]. *)
Record HandleTable := mkTable {
  length_ : Z;
  elems_ : Z;
  list_ : list (list nat)
}.

(** [class LRUCache].  The list heads [lru_] and [in_use_] are the handles at
    addresses 0 and 1; [malloc_next] is the next address to be handed out and
    [deleted] the deleter's calls so far. *)
Record LRUCache := mkCache {
  capacity_ : Z;
  usage_ : Z;
  handles : gmap nat LRUHandle;
  table_ : HandleTable;
  malloc_next : nat;
  deleted : list (bytes * Z)
}.

Definition lru_ : nat := 0.
Definition in_use_ : nat := 1.

Definition set_next (n : nat) (h : LRUHandle) : LRUHandle :=
  mkHandle (value h) n (prev h) (charge h) (h_key h) (in_cache h) (refs h) (h_hash h).
Definition set_prev (p : nat) (h : LRUHandle) : LRUHandle :=
  mkHandle (value h) (next h) p (charge h) (h_key h) (in_cache h) (refs h) (h_hash h).
Definition set_in_cache (b : bool) (h : LRUHandle) : LRUHandle :=
  mkHandle (value h) (next h) (prev h) (charge h) (h_key h) b (refs h) (h_hash h).
Definition set_refs (r : Z) (h : LRUHandle) : LRUHandle :=
  mkHandle (value h) (next h) (prev h) (charge h) (h_key h) (in_cache h) r (h_hash h).

Definition set_handles (c : LRUCache) (m : gmap nat LRUHandle) : LRUCache :=
  mkCache (capacity_ c) (usage_ c) m (table_ c) (malloc_next c) (deleted c).
Definition set_usage (c : LRUCache) (u : Z) : LRUCache :=
  mkCache (capacity_ c) u (handles c) (table_ c) (malloc_next c) (deleted c).
Definition set_table (c : LRUCache) (t : HandleTable) : LRUCache :=
  mkCache (capacity_ c) (usage_ c) (handles c) t (malloc_next c) (deleted c).
Definition SetCapacity (c : LRUCache) (capacity : Z) : LRUCache :=
  mkCache capacity (usage_ c) (handles c) (table_ c) (malloc_next c) (deleted c).

(** Reading and writing through a handle's address; [None] is a freed handle. *)
Definition at_handle (c : LRUCache) (e : nat) : option LRUHandle := handles c !! e.
Definition update (c : LRUCache) (e : nat) (f : LRUHandle -> LRUHandle) : option LRUCache :=
  h ← at_handle c e; Some (set_handles c (<[e := f h]> (handles c))).

(** ** [HandleTable] *)

Section HandleTable.

Context (m : gmap nat LRUHandle).

(** [hash & (length_ - 1)] *)
Definition bucket (length hash : Z) : nat := Z.to_nat (Z.land hash (u32 (length - 1))).

(** Whether the handle at [e] has this key and hash. *)
Definition matches (key : bytes) (hash : Z) (e : nat) : bool :=
  match m !! e with
  | Some h => (h_hash h =? hash) && slice_eq key (h_key h)
  | None => false
  end.

(** [FindPointer]: the chain in front of the slot, and the chain from the slot
    on. *)
Fixpoint find_slot (key : bytes) (hash : Z) (chain : list nat) : list nat * list nat :=
  match chain with
  | [] => ([], [])
  | e :: rest =>
      if matches key hash e then ([], e :: rest)
      else let '(front, back) := find_slot key hash rest in (e :: front, back)
  end.

Definition FindPointer (t : HandleTable) (key : bytes) (hash : Z) : list nat * list nat :=
  find_slot key hash (nth (bucket (length_ t) hash) (list_ t) []).

Definition table_Lookup (t : HandleTable) (key : bytes) (hash : Z) : option nat :=
  head (snd (FindPointer t key hash)).

(** The inner loop of [Resize]: every handle of a chain goes to the front of its
    new one. *)
Fixpoint rehash_chain (new_length : Z) (chain : list nat) (new_list : list (list nat)) (count : Z)
  : option (list (list nat) * Z) :=
  match chain with
  | [] => Some (new_list, count)
  | e :: chain =>
      h ← m !! e;
      let i := bucket new_length (h_hash h) in
      let new_list := <[i := e :: nth i new_list []]> new_list in
      rehash_chain new_length chain new_list (u32 (count + 1))
  end.

Fixpoint rehash (new_length : Z) (chains : list (list nat)) (new_list : list (list nat)) (count : Z)
  : option (list (list nat) * Z) :=
  match chains with
  | [] => Some (new_list, count)
  | chain :: chains =>
      '(new_list, count) ← rehash_chain new_length chain new_list count;
      rehash new_length chains new_list count
  end.

(** [while (new_length < elems_) new_length *= 2;] from 4: at most 30 turns in 32
    bits. *)
Fixpoint grow (fuel : nat) (new_length elems : Z) : option Z :=
  match fuel with
  | O => None
  | S fuel => if new_length <? elems then grow fuel (u32 (new_length * 2)) elems else Some new_length
  end.

Definition Resize (t : HandleTable) : option HandleTable :=
  new_length ← grow 31 4 (elems_ t);
  '(new_list, count) ← rehash new_length (list_ t) (replicate (Z.to_nat new_length) []) 0;
  if elems_ t =? count then Some (mkTable new_length (elems_ t) new_list) else None.

(** [HandleTable::Insert] of the handle [e] with this key and hash: the handle it
    replaces, and the table. *)
Definition table_Insert (t : HandleTable) (e : nat) (key : bytes) (hash : Z)
  : option (option nat * HandleTable) :=
  let '(front, back) := FindPointer t key hash in
  let i := bucket (length_ t) hash in
  let t' elems := mkTable (length_ t) elems (<[i := front ++ e :: tail back]> (list_ t)) in
  match back with
  | old :: _ => Some (Some old, t' (elems_ t))
  | [] =>
      let t := t' (u32 (elems_ t + 1)) in
      t ← (if length_ t <? elems_ t then Resize t else Some t);
      Some (None, t)
  end.

Definition table_Remove (t : HandleTable) (key : bytes) (hash : Z) : option nat * HandleTable :=
  let '(front, back) := FindPointer t key hash in
  match back with
  | result :: rest =>
      (Some result,
       mkTable (length_ t) (u32 (elems_ t - 1))
         (<[bucket (length_ t) hash := front ++ rest]> (list_ t)))
  | [] => (None, t)
  end.

End HandleTable.

(** The constructor: [Resize] of the empty table. *)
Definition HandleTable_new : HandleTable := mkTable 4 0 [[]; []; []; []].

(** ** [LRUCache] *)

(** A list head: a handle without key, linked to itself. *)
Definition list_head (self : nat) : LRUHandle := mkHandle 0 self self 0 [] false 0 0.

Definition LRUCache_new : LRUCache :=
  mkCache 0 0 (<[lru_ := list_head lru_]> {[ in_use_ := list_head in_use_ ]}) HandleTable_new 2 [].

Definition LRU_Remove (c : LRUCache) (e : nat) : option LRUCache :=
  h ← at_handle c e;
  c ← update c (next h) (set_prev (prev h));
  h ← at_handle c e;
  update c (prev h) (set_next (next h)).

Definition LRU_Append (c : LRUCache) (list e : nat) : option LRUCache :=
  c ← update c e (set_next list);
  hl ← at_handle c list;
  c ← update c e (set_prev (prev hl));
  h ← at_handle c e;
  c ← update c (prev h) (set_next e);
  h ← at_handle c e;
  update c (next h) (set_prev e).

Definition Ref (c : LRUCache) (e : nat) : option LRUCache :=
  h ← at_handle c e;
  c ← (if (refs h =? 1) && in_cache h then
         c ← LRU_Remove c e; LRU_Append c in_use_ e
       else Some c);
  update c e (fun h => set_refs (u32 (refs h + 1)) h).

Definition Unref (c : LRUCache) (e : nat) : option LRUCache :=
  h ← at_handle c e;
  if negb (0 <? refs h) then None
  else
    c ← update c e (set_refs (refs h - 1));
    if refs h - 1 =? 0 then
      if in_cache h then None
      else
        Some (mkCache (capacity_ c) (usage_ c) (delete e (handles c)) (table_ c) (malloc_next c)
                (deleted c ++ [(h_key h, value h)]))
    else if in_cache h && (refs h - 1 =? 1) then
      c ← LRU_Remove c e; LRU_Append c lru_ e
    else Some c.

(** [FinishErase]; the return value tells whether there was a handle. *)
Definition FinishErase (c : LRUCache) (e : option nat) : option (bool * LRUCache) :=
  match e with
  | None => Some (false, c)
  | Some e =>
      h ← at_handle c e;
      if negb (in_cache h) then None
      else
        c ← LRU_Remove c e;
        c ← update c e (set_in_cache false);
        c ← Unref (set_usage c (u64 (usage_ c - charge h))) e;
        Some (true, c)
  end.

(** [FinishErase(table_.Remove(key, hash))] *)
Definition remove_key (c : LRUCache) (key : bytes) (hash : Z) : option (bool * LRUCache) :=
  let '(e, t) := table_Remove (handles c) (table_ c) key hash in
  FinishErase (set_table c t) e.

Definition LRU_Lookup (c : LRUCache) (key : bytes) (hash : Z) : option (option nat * LRUCache) :=
  match table_Lookup (handles c) (table_ c) key hash with
  | None => Some (None, c)
  | Some e => c ← Ref c e; Some (Some e, c)
  end.

Definition Release (c : LRUCache) (e : nat) : option LRUCache := Unref c e.

Definition Erase (c : LRUCache) (key : bytes) (hash : Z) : option LRUCache :=
  '(_, c) ← remove_key c key hash; Some c.

(** Dropping the oldest handle nobody uses: the body of the loops of [Insert] and
    [Prune]. *)
Definition evict_oldest (c : LRUCache) (old : nat) : option LRUCache :=
  h ← at_handle c old;
  if negb (refs h =? 1) then None
  else
    '(erased, c) ← remove_key c (h_key h) (h_hash h);
    if erased : bool then Some c else None.

(** The loops: while [more] holds and the list of unused handles is not empty.
    Every turn frees a handle, so one for each suffices. *)
Fixpoint evict_loop (more : LRUCache -> bool) (fuel : nat) (c : LRUCache) : option LRUCache :=
  match fuel with
  | O => None
  | S fuel =>
      head ← at_handle c lru_;
      if more c && negb (next head =? lru_)%nat
      then c ← evict_oldest c (next head); evict_loop more fuel c
      else Some c
  end.

Definition over_capacity (c : LRUCache) : bool := capacity_ c <? usage_ c.

(** [LRUCache::Insert]: the returned handle and the cache. *)
Definition LRU_Insert (c : LRUCache) (key : bytes) (hash v charge : Z) : option (nat * LRUCache) :=
  let e := malloc_next c in
  let caching := 0 <? capacity_ c in
  let h := mkHandle v 0 0 charge key caching (if caching then 2 else 1) hash in
  let c := mkCache (capacity_ c) (usage_ c) (<[e := h]> (handles c)) (table_ c) (S e) (deleted c) in
  c ← (if caching then
         c ← LRU_Append c in_use_ e;
         let c := set_usage c (u64 (usage_ c + charge)) in
         '(old, t) ← table_Insert (handles c) (table_ c) e key hash;
         '(_, c) ← FinishErase (set_table c t) old;
         Some c
       else Some c);
  c ← evict_loop over_capacity (S (size (handles c))) c;
  Some (e, c).

Definition LRU_Prune (c : LRUCache) : option LRUCache :=
  evict_loop (fun _ => true) (S (size (handles c))) c.

Definition TotalCharge (c : LRUCache) : Z := usage_ c.

(** The destructor: every handle of the list of unused ones loses the cache's
    reference. *)
Fixpoint destroy_loop (fuel : nat) (c : LRUCache) (e : nat) : option LRUCache :=
  match fuel with
  | O => None
  | S fuel =>
      if (e =? lru_)%nat then Some c
      else
        h ← at_handle c e;
        if negb (in_cache h) then None
        else
          c ← update c e (set_in_cache false);
          if negb (refs h =? 1) then None
          else c ← Unref c e; destroy_loop fuel c (next h)
  end.

Definition LRUCache_delete (c : LRUCache) : option LRUCache :=
  used ← at_handle c in_use_;
  if negb (next used =? in_use_)%nat then None
  else
    unused ← at_handle c lru_;
    destroy_loop (S (size (handles c))) c (next unused).

(** ** [ShardedLRUCache] *)

Definition kNumShardBits : Z := 4.
Definition kNumShards : Z := Z.shiftl 1 kNumShardBits.

Definition HashSlice (s : bytes) : Z := Hash s 0.
Definition Shard (hash : Z) : Z := Z.shiftr hash (32 - kNumShardBits).

Record ShardedLRUCache := mkSharded {
  shard_ : list LRUCache;
  last_id_ : Z
}.

(** A handle: the shard whose store it lies in, and its address there. *)
Definition Handle : Type := nat * nat.

Definition ShardedLRUCache_new (capacity : Z) : ShardedLRUCache :=
  let per_shard := u64 (capacity + (kNumShards - 1)) / kNumShards in
  mkSharded (replicate (Z.to_nat kNumShards) (SetCapacity LRUCache_new per_shard)) 0.

(** Running an operation on shard [i] and putting the shard back. *)
Definition on_shard {A} (c : ShardedLRUCache) (i : nat) (f : LRUCache -> option (A * LRUCache))
  : option (A * ShardedLRUCache) :=
  s ← shard_ c !! i;
  '(a, s) ← f s;
  Some (a, mkSharded (<[i := s]> (shard_ c)) (last_id_ c)).

Definition Insert (c : ShardedLRUCache) (key : bytes) (v charge : Z) : option (Handle * ShardedLRUCache) :=
  let hash := HashSlice key in
  let i := Z.to_nat (Shard hash) in
  '(e, c) ← on_shard c i (fun s => LRU_Insert s key hash v charge);
  Some ((i, e), c).

Definition Lookup (c : ShardedLRUCache) (key : bytes) : option (option Handle * ShardedLRUCache) :=
  let hash := HashSlice key in
  let i := Z.to_nat (Shard hash) in
  '(r, c) ← on_shard c i (fun s => LRU_Lookup s key hash);
  Some (option_map (pair i) r, c).

(** The handle a client holds. *)
Definition handle_at (c : ShardedLRUCache) (handle : Handle) : option LRUHandle :=
  s ← shard_ c !! fst handle; at_handle s (snd handle).

(** [Release]: the shard is found from the handle's hash; releasing a handle in a
    shard it does not belong to would be an error. *)
Definition Sharded_Release (c : ShardedLRUCache) (handle : Handle) : option ShardedLRUCache :=
  h ← handle_at c handle;
  let i := Z.to_nat (Shard (h_hash h)) in
  if negb (i =? fst handle)%nat then None
  else '(_, c) ← on_shard c i (fun s => s ← Release s (snd handle); Some (tt, s)); Some c.

Definition Sharded_Erase (c : ShardedLRUCache) (key : bytes) : option ShardedLRUCache :=
  let hash := HashSlice key in
  '(_, c) ← on_shard c (Z.to_nat (Shard hash)) (fun s => s ← Erase s key hash; Some (tt, s)); Some c.

Definition Value (c : ShardedLRUCache) (handle : Handle) : option Z := value <$> handle_at c handle.

Definition NewId (c : ShardedLRUCache) : Z * ShardedLRUCache :=
  let id := u64 (last_id_ c + 1) in (id, mkSharded (shard_ c) id).

Definition Sharded_Prune (c : ShardedLRUCache) : option ShardedLRUCache :=
  shards ← mapM LRU_Prune (shard_ c); Some (mkSharded shards (last_id_ c)).

Definition Sharded_TotalCharge (c : ShardedLRUCache) : Z :=
  fold_left (fun total s => u64 (total + TotalCharge s)) (shard_ c) 0.
