(* ===== verification/CacheSpec.v ===== *)
(** * What the cache promises

    The invariant of [Cache]: the two rings, the hash table, the reference
    counts and the charge agree; and the theorem about any sequence of calls by
    clients that release what they hold. *)

From S2P Require Import Prelude Slice Coding Bloom Cache.

(** ** Rings

    [path N P xs]: each node's [next] is the one after it in [xs], whose [prev]
    it is. *)

Section Paths.

Implicit Types N P : nat -> option nat.

Fixpoint path N P (xs : list nat) : Prop :=
  match xs with
  | a :: (b :: _) as t => N a = Some b /\ P b = Some a /\ path N P t
  | _ => True
  end.

Lemma path_cons N P a b xs : path N P (a :: b :: xs) <-> N a = Some b /\ P b = Some a /\ path N P (b :: xs).
Proof. done. Qed.

Lemma path_app N P xs y ys : path N P (xs ++ y :: ys) <-> path N P (xs ++ [y]) /\ path N P (y :: ys).
Proof.
  induction xs as [|a xs IH]; [cbn; tauto|]. destruct xs as [|b xs].
  - cbn [app]. rewrite !path_cons. cbn [path]. tauto.
  - cbn [app] in *. rewrite !path_cons, IH. tauto.
Qed.

(** A path depends on [next] of all but its last node and on [prev] of all but its
    first. *)
Lemma path_ext N P N' P' xs z :
  (forall a, a ∈ xs -> N' a = N a) -> (forall b, b ∈ tail (xs ++ [z]) -> P' b = P b) ->
  path N P (xs ++ [z]) -> path N' P' (xs ++ [z]).
Proof.
  induction xs as [|a xs IH]; intros HN HP; [done|].
  destruct xs as [|b xs]; cbn [app tail] in *.
  - rewrite !path_cons. intros (H1 & H2 & H3). rewrite HN, HP by set_solver. done.
  - rewrite !path_cons. intros (H1 & H2 & H3). rewrite HN, HP by set_solver. split; [done|]. split; [done|].
    apply IH; [set_solver|set_solver|done].
Qed.

Definition ring N P (h : nat) (l : list nat) : Prop := path N P (h :: l ++ [h]).

Lemma path_two N P xs p n : path N P (xs ++ [p]) -> N p = Some n -> P n = Some p -> path N P ((xs ++ [p]) ++ [n]).
Proof. intros Hp HN HP. rewrite <- app_assoc. cbn [app]. rewrite path_app. split; [done|]. done. Qed.

(** The node in front of the head is the last one. *)
Lemma ring_split N P h l : exists xs p, h :: l = xs ++ [p] /\ (ring N P h l <-> path N P (xs ++ [p]) /\ N p = Some h /\ P h = Some p).
Proof.
  destruct (exists_last (l := h :: l) ltac:(done)) as (xs & p & E). exists xs, p. split; [done|].
  unfold ring. rewrite app_comm_cons, E, <- app_assoc. cbn [app]. rewrite path_app. cbn [path]. tauto.
Qed.

Lemma ring_append N P N' P' h l e :
  ring N P h l -> NoDup (h :: l) -> e ∉ h :: l ->
  N' e = Some h -> P' e = P h -> P' h = Some e ->
  (forall p, P h = Some p -> N' p = Some e) ->
  (forall a, a <> e -> P h <> Some a -> N' a = N a) -> (forall b, b <> e -> b <> h -> P' b = P b) ->
  ring N' P' h (l ++ [e]).
Proof.
  intros Hr Hnd He HNe HPe HPh HNp HN HP.
  destruct (ring_split N P h l) as (xs & p & E & Hs). apply Hs in Hr as (Hpath & HNp' & HPh'). clear Hs.
  unfold ring. rewrite <- app_assoc, app_comm_cons, E. cbn [app].
  rewrite E in Hnd, He. apply NoDup_app in Hnd as (Hndx & Hdp & _).
  rewrite <- app_assoc. cbn [app]. rewrite path_app. cbn [path].
  split; [|rewrite HPe; auto].
  apply (path_ext N P); [| |done].
  - intros a Ha. apply HN; [set_solver|]. rewrite HPh'. intros [= ->]. apply (Hdp a Ha). set_solver.
  - intros b Hb. destruct xs as [|x xs]; [cbn in Hb; set_solver|]. cbn [app tail] in *. injection E as -> El.
    apply HP; [set_solver|]. intros ->. rewrite NoDup_cons in Hndx.
    apply elem_of_app in Hb as [Hb|Hb]; [tauto|]. apply list_elem_of_singleton in Hb as ->.
    apply (Hdp p); set_solver.
Qed.

Lemma ring_remove N P N' P' h l1 e l2 :
  ring N P h (l1 ++ e :: l2) -> NoDup (h :: l1 ++ e :: l2) ->
  exists p n, P e = Some p /\ N e = Some n /\ e <> p /\ e <> n /\ (p = h \/ p ∈ l1) /\ (n = h \/ n ∈ l2) /\
    (N' p = Some n -> P' n = Some p -> (forall a, a <> p -> N' a = N a) -> (forall b, b <> n -> P' b = P b) ->
     ring N' P' h (l1 ++ l2)).
Proof.
  intros Hr Hnd. unfold ring in Hr.
  destruct (exists_last (l := h :: l1) ltac:(done)) as (xs & p & Ep).
  destruct (l2 ++ [h]) as [|n ys] eqn:En; [by destruct l2|].
  rewrite <- app_assoc in Hr. cbn [app] in Hr. rewrite app_comm_cons, Ep, En, <- app_assoc in Hr. cbn [app] in Hr.
  rewrite path_app, !path_cons in Hr. destruct Hr as (Hp1 & HNp & HPe & HNe & HPn & Hp2).
  assert (Hpl : p = h \/ p ∈ l1) by (assert (p ∈ h :: l1) by (rewrite Ep; set_solver); set_solver).
  assert (Hnl : n = h \/ n ∈ l2) by (assert (n ∈ l2 ++ [h]) by (rewrite En; set_solver); set_solver).
  rewrite NoDup_cons, NoDup_app in Hnd. destruct Hnd as (Hh & Hnd1 & Hd & Hnd2).
  rewrite NoDup_cons in Hnd2. destruct Hnd2 as [He2 Hnd2].
  exists p, n. split; [done|]. split; [done|].
  split; [intros ->; destruct Hpl as [->|Hx]; [set_solver|apply (Hd p Hx); set_solver]|].
  split; [intros ->; destruct Hnl as [->|Hx]; set_solver|].
  split; [done|]. split; [done|]. intros HN' HP' HN HP.
  unfold ring. rewrite <- app_assoc, app_comm_cons, Ep, En, <- app_assoc. cbn [app].
  rewrite path_app, path_cons. split; [|split; [done|split; [done|]]].
  - apply (path_ext N P); [| |done].
    + intros a Ha. apply HN. intros ->. assert (NoDup (xs ++ [p])) as Hx
        by (rewrite <- Ep; apply NoDup_cons; split; [set_solver|done]).
      apply NoDup_app in Hx as (_ & Hx & _). apply (Hx p Ha). set_solver.
    + intros b Hb. apply HP. intros ->.
      assert (n ∈ l1) as Hn1 by (rewrite <- Ep in Hb; cbn in Hb; done).
      destruct Hnl as [->|Hx]; [set_solver|]. apply (Hd n Hn1). set_solver.
  - destruct ys as [|y ys]; [done|].
    assert (exists zs, n :: y :: ys = zs ++ [h] /\ l2 = zs) as (zs & Ez & <-).
    { exists l2. split; [by symmetry|done]. }
    rewrite Ez in Hp2 |- *. apply (path_ext N P); [| |done].
    + intros a Ha. apply HN. intros ->. destruct Hpl as [->|Hx]; [set_solver|]. apply (Hd p Hx). set_solver.
    + rewrite <- Ez. cbn [tail]. intros b Hb. apply HP. intros ->.
      destruct l2 as [|n' l2]; cbn in Ez; [done|]. injection Ez as <- Ez.
      rewrite Ez in Hb. apply elem_of_app in Hb as [Hb|Hb].
      * rewrite NoDup_cons in Hnd2. tauto.
      * apply list_elem_of_singleton in Hb as ->. set_solver.
Qed.

End Paths.

(** ** The links of a cache *)

Definition NX (m : gmap nat LRUHandle) (a : nat) : option nat := next <$> m !! a.
Definition PV (m : gmap nat LRUHandle) (a : nat) : option nat := prev <$> m !! a.

(** A handle without its links. *)
Definition body (h : LRUHandle) : LRUHandle := set_next 0 (set_prev 0 h).

(** [c'] is [c] with other links. *)
Definition relinked (c c' : LRUCache) : Prop :=
  exists m, c' = set_handles c m /\ forall a, body <$> m !! a = body <$> handles c !! a.

Lemma relinked_trans c1 c2 c3 : relinked c1 c2 -> relinked c2 c3 -> relinked c1 c3.
Proof.
  intros (m & -> & Hm) (m' & -> & Hm'). exists m'. split; [done|]. intros a. by rewrite Hm', <- Hm.
Qed.

Lemma relinked_at c c' e h :
  relinked c c' -> handles c !! e = Some h -> exists h', handles c' !! e = Some h' /\ body h' = body h.
Proof.
  intros (m & -> & Hm) Hh. specialize (Hm e). rewrite Hh in Hm. cbn [handles set_handles].
  destruct (m !! e) as [h'|]; cbn in Hm; [|done]. exists h'. split; [done|]. by apply (inj Some).
Qed.

(** The members of a handle do not depend on its links. *)
Lemma body_eq h h' :
  body h' = body h ->
  value h' = value h /\ charge h' = charge h /\ h_key h' = h_key h /\ in_cache h' = in_cache h /\
  refs h' = refs h /\ h_hash h' = h_hash h.
Proof. destruct h, h'. cbn. intros [=]. by subst. Qed.

(** Writing a link keeps the bodies. *)
Lemma link_bodies (m : gmap nat LRUHandle) e h h' a :
  m !! e = Some h -> body h' = body h -> body <$> <[e := h']> m !! a = body <$> m !! a.
Proof.
  intros He Hb. destruct (decide (a = e)) as [->|]; [rewrite lookup_insert_eq, He; cbn; by rewrite Hb|].
  by rewrite lookup_insert_ne.
Qed.

Lemma NX_insert m e h a : NX (<[e := h]> m) a = if decide (a = e) then Some (next h) else NX m a.
Proof. unfold NX. case_decide; [subst; by rewrite lookup_insert_eq|by rewrite lookup_insert_ne]. Qed.

Lemma PV_insert m e h a : PV (<[e := h]> m) a = if decide (a = e) then Some (prev h) else PV m a.
Proof. unfold PV. case_decide; [subst; by rewrite lookup_insert_eq|by rewrite lookup_insert_ne]. Qed.

Lemma NX_Some m e n : NX m e = Some n -> exists h, m !! e = Some h /\ next h = n.
Proof. unfold NX. destruct (m !! e) as [h|]; cbn; [|done]. intros [= <-]. by exists h. Qed.

Lemma PV_Some m e p : PV m e = Some p -> exists h, m !! e = Some h /\ prev h = p.
Proof. unfold PV. destruct (m !! e) as [h|]; cbn; [|done]. intros [= <-]. by exists h. Qed.

Lemma update_at c e f h :
  handles c !! e = Some h -> update c e f = Some (set_handles c (<[e := f h]> (handles c))).
Proof. intros He. unfold update, at_handle. by rewrite He. Qed.

(** A ring that shares no node with what is written stays as it is. *)
Lemma ring_frame N P N' P' h l :
  ring N P h l -> (forall a, a ∈ h :: l -> N' a = N a) -> (forall b, b ∈ h :: l -> P' b = P b) -> ring N' P' h l.
Proof.
  unfold ring. rewrite app_comm_cons. intros Hr HN HP. apply (path_ext N P); [done| |done].
  intros b Hb. apply HP. cbn in Hb. set_solver.
Qed.

Lemma LRU_Remove_spec c h l1 e l2 h2 l' :
  ring (NX (handles c)) (PV (handles c)) h (l1 ++ e :: l2) -> NoDup (h :: l1 ++ e :: l2) ->
  ring (NX (handles c)) (PV (handles c)) h2 l' -> (forall a, a ∈ h2 :: l' -> a ∉ h :: l1 ++ e :: l2) ->
  exists c', LRU_Remove c e = Some c' /\ relinked c c' /\
    ring (NX (handles c')) (PV (handles c')) h (l1 ++ l2) /\ ring (NX (handles c')) (PV (handles c')) h2 l'.
Proof.
  intros Hr Hnd Hr2 Hdisj. set (m := handles c) in *.
  destruct (ring_remove (NX m) (PV m) (NX m) (PV m) h l1 e l2 Hr Hnd) as (p & n & HPe & HNe & Hep & Hen & Hpl & Hnl & _).
  assert (Hlive : forall a, a ∈ h :: l1 ++ e :: l2 -> is_Some (m !! a)).
  { intros a Ha. assert (is_Some (NX m a)) as [x Hx]; [|destruct (NX_Some _ _ _ Hx) as (y & ? & _); by exists y].
    unfold ring in Hr. rewrite app_comm_cons in Hr. revert Hr. generalize (h :: l1 ++ e :: l2) Ha. clear.
    intros xs Ha. induction xs as [|x xs IH]; [set_solver|]. destruct xs as [|y xs]; cbn [app].
    - rewrite path_cons. apply list_elem_of_singleton in Ha as ->. intros (? & _). eauto.
    - rewrite path_cons. intros (? & ? & ?). apply elem_of_cons in Ha as [->|Ha]; [eauto|]. by apply IH. }
  destruct (Hlive e ltac:(set_solver)) as [he Ee]. destruct (Hlive n ltac:(set_solver)) as [hn En].
  destruct (Hlive p ltac:(set_solver)) as [hp0 Ep0].
  unfold NX in HNe. unfold PV in HPe. rewrite Ee in HNe, HPe. cbn in HNe, HPe. injection HNe as HNe. injection HPe as HPe.
  set (m1 := <[n := set_prev p hn]> m).
  assert (exists hp, m1 !! p = Some hp /\ body hp = body hp0) as (hp & Ep & Hbp).
  { unfold m1. destruct (decide (p = n)) as [->|].
    - rewrite lookup_insert_eq. assert (hn = hp0) as -> by congruence. by eexists.
    - rewrite lookup_insert_ne by done. by eexists. }
  set (m2 := <[p := set_next n hp]> m1). exists (set_handles c m2).
  assert (Hop : LRU_Remove c e = Some (set_handles c m2)).
  { unfold LRU_Remove, at_handle. fold m. rewrite Ee. cbn [mbind option_bind]. rewrite HNe, HPe.
    rewrite (update_at c n _ hn En). cbn [mbind option_bind handles set_handles]. fold m. fold m1.
    assert (m1 !! e = Some he) as -> by (unfold m1; by rewrite lookup_insert_ne).
    cbn [mbind option_bind]. rewrite HNe, HPe. by rewrite (update_at (set_handles c m1) p _ hp Ep). }
  assert (HN2 : forall a, NX m2 a = if decide (a = p) then Some n else NX m a).
  { intros a. unfold m2. rewrite NX_insert. case_decide; [done|]. unfold m1. rewrite NX_insert.
    case_decide; [|done]. subst. unfold NX. by rewrite En. }
  assert (HP2 : forall b, PV m2 b = if decide (b = n) then Some p else PV m b).
  { intros b. unfold m2. rewrite PV_insert. case_decide as Hb; [subst b|unfold m1; by rewrite PV_insert].
    assert (prev hp = if decide (p = n) then p else prev hp0) as Hprev.
    { unfold m1 in Ep. case_decide as Hpn; [rewrite <- Hpn, lookup_insert_eq in Ep; by injection Ep as <-|].
      rewrite lookup_insert_ne in Ep by done. congruence. }
    cbn. rewrite Hprev. case_decide; [done|]. unfold PV. by rewrite Ep0. }
  split; [exact Hop|]. split; [|split].
  - exists m2. split; [done|]. intros a. unfold m2.
    rewrite (link_bodies m1 p hp) by done. unfold m1. by rewrite (link_bodies m n hn).
  - destruct (ring_remove (NX m) (PV m) (NX m2) (PV m2) h l1 e l2 Hr Hnd) as (p' & n' & HPe' & HNe' & _ & _ & _ & _ & Hgo).
    unfold PV in HPe'. unfold NX in HNe'. rewrite Ee in HPe', HNe'. cbn in HPe', HNe'.
    assert (p' = p) as -> by congruence. assert (n' = n) as -> by congruence.
    apply Hgo; [by rewrite HN2, decide_True|by rewrite HP2, decide_True|..];
      intros a Ha; [rewrite HN2|rewrite HP2]; by rewrite decide_False.
  - apply (ring_frame (NX m) (PV m)); [done|..]; intros a Ha; [rewrite HN2|rewrite HP2];
      (rewrite decide_False; [done|]); intros ->; apply (Hdisj _ Ha); set_solver.
Qed.

(** The node in front of a ring's head is one of its nodes. *)
Lemma ring_last N P h l : ring N P h l -> exists p, P h = Some p /\ N p = Some h /\ p ∈ h :: l.
Proof.
  intros Hr. destruct (ring_split N P h l) as (xs & p & E & Hs). destruct (proj1 Hs Hr) as (_ & HN & HP).
  exists p. split; [done|]. split; [done|]. rewrite E. set_solver.
Qed.

Lemma LRU_Append_spec c h l e he h2 l' :
  ring (NX (handles c)) (PV (handles c)) h l -> NoDup (h :: l) ->
  ring (NX (handles c)) (PV (handles c)) h2 l' -> (forall a, a ∈ h2 :: l' -> a ∉ h :: l) ->
  handles c !! e = Some he -> e ∉ h :: l -> e ∉ h2 :: l' ->
  exists c', LRU_Append c h e = Some c' /\ relinked c c' /\
    ring (NX (handles c')) (PV (handles c')) h (l ++ [e]) /\ ring (NX (handles c')) (PV (handles c')) h2 l'.
Proof.
  intros Hr Hnd Hr2 Hdisj He Hnl Hnl2. set (m := handles c) in *.
  destruct (ring_last _ _ _ _ Hr) as (p & HPh & HNp & Hpl).
  destruct (PV_Some _ _ _ HPh) as (hh & Eh & Hhp). destruct (NX_Some _ _ _ HNp) as (hp & Ep & Hpn).
  assert (e <> h) as Heh by set_solver. assert (e <> p) as Hep by (intros ->; done).
  set (he2 := set_prev p (set_next h he)).
  set (m2 := <[e := he2]> m). set (m3 := <[p := set_next e hp]> m2).
  assert (exists hh3, m3 !! h = Some hh3 /\ body hh3 = body hh /\ next hh3 = (if decide (h = p) then e else next hh))
    as (hh3 & Eh3 & Hb3 & Hn3).
  { unfold m3, m2. case_decide as Hhp'.
    - rewrite Hhp', lookup_insert_eq. assert (hp = hh) as -> by congruence. by eexists.
    - rewrite !lookup_insert_ne by done. by eexists. }
  set (m4 := <[h := set_prev e hh3]> m3). exists (set_handles c m4).
  assert (Hop : LRU_Append c h e = Some (set_handles c m4)).
  { unfold LRU_Append. rewrite (update_at c e _ he He). cbn [mbind option_bind]. unfold at_handle.
    cbn [handles set_handles]. fold m. rewrite lookup_insert_ne, Eh by done. cbn [mbind option_bind]. rewrite Hhp.
    rewrite (update_at _ e _ (set_next h he)) by (cbn; by rewrite lookup_insert_eq).
    cbn [mbind option_bind handles set_handles]. rewrite insert_insert_eq. fold he2. fold m2.
    assert (m2 !! e = Some he2) as E2 by (unfold m2; by rewrite lookup_insert_eq).
    rewrite E2. cbn [mbind option_bind]. change (prev he2) with p.
    rewrite (update_at _ p _ hp) by (cbn; unfold m2; by rewrite lookup_insert_ne).
    cbn [mbind option_bind handles set_handles]. fold m3.
    assert (m3 !! e = Some he2) as -> by (unfold m3; by rewrite lookup_insert_ne).
    cbn [mbind option_bind]. change (next he2) with h. rewrite (update_at _ h _ hh3); [done|exact Eh3]. }
  assert (HN4 : forall a, NX m4 a = if decide (a = p) then Some e else if decide (a = e) then Some h else NX m a).
  { intros a. unfold m4. rewrite NX_insert. destruct (decide (a = h)) as [->|Ha].
    - cbn. rewrite Hn3. case_decide; [done|]. rewrite decide_False by done. unfold NX. by rewrite Eh.
    - unfold m3, m2. rewrite !NX_insert. done. }
  assert (HP4 : forall b, PV m4 b = if decide (b = h) then Some e else if decide (b = e) then Some p else PV m b).
  { intros b. unfold m4. rewrite PV_insert. destruct (decide (b = h)) as [->|Hb]; [done|].
    unfold m3, m2. rewrite !PV_insert. destruct (decide (b = p)) as [->|Hbp]; [|done].
    rewrite decide_False by done. cbn. unfold PV. by rewrite Ep. }
  split; [exact Hop|]. split; [|split].
  - exists m4. split; [done|]. intros a. unfold m4.
    rewrite (link_bodies m3 h hh3) by done. unfold m3.
    rewrite (link_bodies m2 p hp); [|unfold m2; by rewrite lookup_insert_ne|done].
    unfold m2. by rewrite (link_bodies m e he).
  - apply (ring_append (NX m) (PV m)); try done.
    + by rewrite HN4, decide_False, decide_True.
    + by rewrite HP4, decide_False, decide_True.
    + by rewrite HP4, decide_True.
    + intros q Hq. assert (q = p) as -> by congruence. by rewrite HN4, decide_True.
    + intros a Ha Hap. rewrite HN4, !decide_False; [done|done|]. intros ->. done.
    + intros b Hb Hbh. by rewrite HP4, !decide_False.
  - apply (ring_frame (NX m) (PV m)); [done|..]; intros a Ha.
    + rewrite HN4, !decide_False; [done|by intros ->|]. intros ->. by apply (Hdisj p Ha).
    + rewrite HP4, !decide_False; [done|by intros ->|]. intros ->. apply (Hdisj h Ha). set_solver.
Qed.

(** ** The hash table *)

Definition in_bucket (m : gmap nat LRUHandle) (len : Z) (i e : nat) : Prop :=
  exists h, m !! e = Some h /\ 0 <= h_hash h /\ bucket len (h_hash h) = i.

(** The buckets hold the handles [S], each in its own. *)
Definition buckets_ok (m : gmap nat LRUHandle) (len : Z) (bs : list (list nat)) (S : list nat) : Prop :=
  (exists k, 2 <= k <= 31 /\ len = 2 ^ k) /\ length bs = Z.to_nat len /\ concat bs ≡ₚ S /\
  forall i chain e, bs !! i = Some chain -> e ∈ chain -> in_bucket m len i e.

Definition table_ok (m : gmap nat LRUHandle) (t : HandleTable) (S : list nat) : Prop :=
  buckets_ok m (length_ t) (list_ t) S /\ elems_ t = Z.of_nat (length S) /\ elems_ t < 2 ^ 31.

Lemma bucket_range k hash : 0 <= k <= 31 -> 0 <= hash -> (bucket (2 ^ k) hash < Z.to_nat (2 ^ k))%nat.
Proof.
  intros Hk Hh. unfold bucket. assert (0 < 2 ^ k <= 2 ^ 31) by (split; [lia|apply Z.pow_le_mono_r; lia]).
  rewrite u32_small by lia. change (2 ^ k - 1) with (Z.pred (2 ^ k)). rewrite <- Z.ones_equiv, Z.land_ones by lia.
  pose proof (Z.mod_pos_bound hash (2 ^ k)). lia.
Qed.

Lemma find_slot_spec m key hash chain :
  exists front back, find_slot m key hash chain = (front, back) /\ chain = front ++ back /\
    (forall e, e ∈ front -> matches m key hash e = false) /\
    match back with [] => True | e :: _ => matches m key hash e = true end.
Proof.
  induction chain as [|e chain (front & back & E & -> & Hf & Hb)]; cbn [find_slot].
  - exists [], []. set_solver.
  - destruct (matches m key hash e) eqn:Em.
    + exists [], (e :: front ++ back). set_solver.
    + rewrite E. exists (e :: front), back. split; [done|]. split; [done|]. split; [|done]. set_solver.
Qed.

Lemma concat_split {A} (xs : list (list A)) i x y :
  xs !! i = Some x -> exists a b, xs = a ++ x :: b /\ <[i := y]> xs = a ++ y :: b.
Proof.
  intros Hi. exists (take i xs), (drop (S i) xs). split.
  - by rewrite take_drop_middle.
  - rewrite insert_take_drop; [done|by eapply lookup_lt_Some].
Qed.

(** Replacing the chain of one bucket. *)
Lemma buckets_update m len bs S i chain chain' front S' :
  buckets_ok m len bs S -> bs !! i = Some chain ->
  chain ≡ₚ front ++ chain' -> (* what leaves the bucket *)
  forall new, (forall e, e ∈ new -> in_bucket m len i e) ->
  (forall rest, front ++ rest ≡ₚ S -> new ++ rest ≡ₚ S') ->
  forall chain2, chain2 ≡ₚ new ++ chain' -> buckets_ok m len (<[i := chain2]> bs) S'.
Proof.
  intros (Hk & Hlen & Hperm & Hin) Hi Hch new Hnew HS chain2 Hch2.
  destruct (concat_split bs i chain chain2 Hi) as (a & b & Ebs & Ebs').
  split; [done|]. split; [by rewrite length_insert|]. split.
  - rewrite Ebs', concat_app. cbn. rewrite Ebs, concat_app in Hperm. cbn in Hperm. rewrite Hch2.
    rewrite <- (HS (chain' ++ concat a ++ concat b)).
    + solve_Permutation.
    + rewrite <- Hperm, Hch. solve_Permutation.
  - intros j ch e Hj He. destruct (decide (j = i)) as [->|].
    + rewrite list_lookup_insert_eq in Hj by (by eapply lookup_lt_Some). injection Hj as <-.
      rewrite Hch2 in He. apply elem_of_app in He as [He|He]; [auto|].
      apply (Hin i chain e Hi). rewrite Hch. set_solver.
    + rewrite list_lookup_insert_ne in Hj by done. by apply (Hin j ch e).
Qed.

Lemma table_bucket m t S hash :
  table_ok m t S -> 0 <= hash ->
  exists chain, list_ t !! bucket (length_ t) hash = Some chain /\
    nth (bucket (length_ t) hash) (list_ t) [] = chain.
Proof.
  intros [((k & Hk & Hlen) & Hl & _) _] Hh.
  destruct (lookup_lt_is_Some_2 (list_ t) (bucket (length_ t) hash)) as [chain Hc].
  { rewrite Hl, Hlen. apply bucket_range; lia. }
  exists chain. split; [done|]. by apply nth_lookup_Some.
Qed.

Section Keys.

(** The hash function every client uses. *)
Context (hf : bytes -> Z) (Hhf : forall k, 0 <= hf k < 2 ^ 32).

(** The handles of [S] are live, hashed by [hf], and have different keys. *)
Definition keys_ok (m : gmap nat LRUHandle) (S : list nat) : Prop :=
  (forall e, e ∈ S -> exists h, m !! e = Some h /\ h_hash h = hf (h_key h)) /\
  (forall e e' h h', e ∈ S -> e' ∈ S -> m !! e = Some h -> m !! e' = Some h' -> h_key h = h_key h' -> e = e').

Definition has_key (m : gmap nat LRUHandle) (e : nat) (key : bytes) : Prop :=
  exists h, m !! e = Some h /\ h_key h = key.

Lemma matches_spec m S key e :
  keys_ok m S -> e ∈ S -> matches m key (hf key) e = true <-> has_key m e key.
Proof.
  intros [Hk _] He. destruct (Hk e He) as (h & Eh & Hh). unfold matches, has_key. rewrite Eh.
  rewrite andb_true_iff, Z.eqb_eq, slice_eq_spec. split.
  - intros [_ ->]. eauto.
  - intros (h' & [= <-] & <-). done.
Qed.

Lemma in_chain m t S i chain e : table_ok m t S -> list_ t !! i = Some chain -> e ∈ chain -> e ∈ S.
Proof.
  intros [(_ & _ & <- & _) _] Hi He. apply list_elem_of_In, in_concat. exists chain.
  rewrite <- !list_elem_of_In. split; [by eapply list_elem_of_lookup_2|done].
Qed.

(** A handle with this key is in the key's bucket. *)
Lemma key_in_bucket m t S key e chain :
  table_ok m t S -> keys_ok m S -> e ∈ S -> has_key m e key ->
  list_ t !! bucket (length_ t) (hf key) = Some chain -> e ∈ chain.
Proof.
  intros [(_ & _ & Hp & Hin) _] [Hk _] He (h & Eh & <-) Hc.
  rewrite <- Hp in He. apply list_elem_of_In, in_concat in He as (ch & Hch & He).
  rewrite <- list_elem_of_In in Hch. rewrite <- list_elem_of_In in He.
  apply list_elem_of_lookup_1 in Hch as [i Hi].
  destruct (Hin i ch e Hi He) as (h' & Eh' & _ & Hb). assert (h' = h) as -> by congruence.
  assert (e ∈ S) as HeS. { rewrite <- Hp. apply list_elem_of_In, in_concat. exists ch.
    rewrite <- !list_elem_of_In. split; [by eapply list_elem_of_lookup_2|done]. }
  destruct (Hk e HeS) as (h2 & E2 & Hh). assert (h2 = h) as -> by congruence.
  rewrite Hh in Hb. rewrite Hb in Hc. congruence.
Qed.

(** [FindPointer]: the slot of the handle with this key, or the end of the
    chain. *)
Lemma FindPointer_spec m t S key :
  table_ok m t S -> keys_ok m S ->
  exists front back, FindPointer m t key (hf key) = (front, back) /\
    list_ t !! bucket (length_ t) (hf key) = Some (front ++ back) /\
    match back with
    | [] => forall e, e ∈ S -> ~ has_key m e key
    | e :: _ => e ∈ S /\ has_key m e key
    end.
Proof.
  intros Ht Hk. destruct (table_bucket m t S (hf key) Ht ltac:(apply Hhf)) as (chain & Hc & Hn).
  unfold FindPointer. rewrite Hn. destruct (find_slot_spec m key (hf key) chain) as (front & back & E & -> & Hf & Hb).
  exists front, back. split; [done|]. split; [done|]. destruct back as [|e back].
  - intros e He Hke. pose proof (key_in_bucket m t S key e _ Ht Hk He Hke Hc) as Hin.
    rewrite app_nil_r in Hin. specialize (Hf e Hin).
    apply (matches_spec m S key e Hk He) in Hke. congruence.
  - assert (e ∈ S) as He by (eapply in_chain; [exact Ht|exact Hc|set_solver]).
    split; [done|]. by apply (matches_spec m S key e Hk He).
Qed.

Lemma table_Lookup_spec m t S key :
  table_ok m t S -> keys_ok m S ->
  match table_Lookup m t key (hf key) with
  | Some e => e ∈ S /\ has_key m e key
  | None => forall e, e ∈ S -> ~ has_key m e key
  end.
Proof.
  intros Ht Hk. destruct (FindPointer_spec m t S key Ht Hk) as (front & back & E & _ & Hb).
  unfold table_Lookup. rewrite E. by destruct back.
Qed.

Lemma table_Remove_spec m t S key :
  table_ok m t S -> keys_ok m S ->
  match table_Remove m t key (hf key) with
  | (Some e, t') => e ∈ S /\ has_key m e key /\ forall S', S ≡ₚ e :: S' -> table_ok m t' S'
  | (None, t') => t' = t /\ forall e, e ∈ S -> ~ has_key m e key
  end.
Proof.
  intros Ht Hk. destruct (FindPointer_spec m t S key Ht Hk) as (front & back & E & Hc & Hb).
  unfold table_Remove. rewrite E. destruct back as [|e back]; [done|]. destruct Hb as [He Hke].
  split; [done|]. split; [done|]. intros S' HS. destruct Ht as [Hbk [Hel Hlt]].
  assert (length S = Datatypes.S (length S')) as Hlen by (by rewrite HS).
  split; [|cbn; rewrite u32_small by lia; lia]. cbn [length_ list_].
  apply (buckets_update m _ _ S _ (front ++ e :: back) (front ++ back) [e] S' Hbk Hc ltac:(solve_Permutation) []);
    [set_solver| |done].
  intros rest Hr. rewrite HS in Hr. cbn in *. by apply Permutation_cons_inv in Hr.
Qed.

(** Growing stops at a power of two. *)
Lemma grow_spec fuel k elems :
  2 <= k <= 31 -> elems <= 2 ^ 31 -> 31 - k < Z.of_nat fuel ->
  exists k', 2 <= k' <= 31 /\ grow fuel (2 ^ k) elems = Some (2 ^ k').
Proof.
  revert k. induction fuel as [|fuel IH]; intros k Hk He Hf; [lia|]. cbn [grow].
  destruct (Z.ltb_spec (2 ^ k) elems) as [Hlt|]; [|by exists k].
  assert (k <> 31) by (intros ->; lia).
  assert (2 ^ k * 2 = 2 ^ (k + 1)) as E by (rewrite Z.pow_add_r by lia; lia).
  assert (2 ^ (k + 1) <= 2 ^ 31) by (apply Z.pow_le_mono_r; lia).
  rewrite u32_small, E by lia. apply IH; lia.
Qed.

Lemma rehash_chain_spec m len chain nl S count :
  (forall e, e ∈ chain -> exists h, m !! e = Some h /\ 0 <= h_hash h) ->
  buckets_ok m len nl S -> count = Z.of_nat (length S) -> count + Z.of_nat (length chain) < 2 ^ 32 ->
  exists nl', rehash_chain m len chain nl count = Some (nl', count + Z.of_nat (length chain)) /\
    buckets_ok m len nl' (chain ++ S).
Proof.
  revert nl S count. induction chain as [|e chain IH]; intros nl S count Hlive Hb Hc Hlt; cbn [rehash_chain].
  - exists nl. by rewrite Z.add_0_r.
  - destruct (Hlive e ltac:(set_solver)) as (h & Eh & Hh). rewrite Eh. cbn [mbind option_bind].
    cbn [length] in Hlt. rewrite u32_small by lia.
    set (i := bucket len (h_hash h)).
    assert (exists ch, nl !! i = Some ch) as [ch Hch].
    { destruct Hb as ((k & Hk & ->) & Hl & _). apply lookup_lt_is_Some_2. rewrite Hl. apply bucket_range; lia. }
    rewrite (nth_lookup_Some _ _ _ _ Hch).
    destruct (IH (<[i := e :: ch]> nl) (e :: S) (count + 1)) as (nl' & E & Hb').
    + intros x Hx. apply Hlive. set_solver.
    + apply (buckets_update m len nl S i ch ch [] (e :: S) Hb Hch ltac:(done) [e]); [| |done].
      * intros x Hx%list_elem_of_singleton. subst x. by exists h.
      * intros rest Hr. cbn in *. by rewrite Hr.
    + cbn [length]. lia.
    + lia.
    + exists nl'. rewrite E. split; [f_equal; f_equal; cbn [length]; lia|].
      destruct Hb' as (H1 & H2 & H3 & H4). split; [done|]. split; [done|]. split; [|done].
      rewrite H3. solve_Permutation.
Qed.

Lemma rehash_spec m len chains nl S count :
  (forall e, e ∈ concat chains -> exists h, m !! e = Some h /\ 0 <= h_hash h) ->
  buckets_ok m len nl S -> count = Z.of_nat (length S) -> count + Z.of_nat (length (concat chains)) < 2 ^ 32 ->
  exists nl', rehash m len chains nl count = Some (nl', count + Z.of_nat (length (concat chains))) /\
    buckets_ok m len nl' (concat chains ++ S).
Proof.
  revert nl S count. induction chains as [|chain chains IH]; intros nl S count Hlive Hb Hc Hlt; cbn [rehash concat].
  - exists nl. by rewrite Z.add_0_r.
  - cbn [concat] in *. rewrite length_app in *.
    destruct (rehash_chain_spec m len chain nl S count) as (nl1 & E1 & Hb1);
      [intros e He; apply Hlive; set_solver|done|done|lia|].
    rewrite E1. cbn [mbind option_bind].
    destruct (IH nl1 (chain ++ S) (count + Z.of_nat (length chain))) as (nl' & E & Hb');
      [intros e He; apply Hlive; set_solver|done|rewrite length_app; lia|lia|].
    exists nl'. rewrite E. split; [f_equal; f_equal; lia|].
    destruct Hb' as (H1 & H2 & H3 & H4). split; [done|]. split; [done|]. split; [|done].
    rewrite H3. solve_Permutation.
Qed.

Lemma concat_replicate_nil {A} n : concat (replicate n ([] : list A)) = [].
Proof. induction n; done. Qed.

Lemma Resize_spec m t S :
  table_ok m t S -> exists t', Resize m t = Some t' /\ table_ok m t' S.
Proof.
  intros [(Hk & Hl & Hp & Hin) [Hel Hlt]]. unfold Resize.
  destruct (grow_spec 31 2 (elems_ t)) as (k & Hk' & E); [lia|lia|lia|].
  change 4 with (2 ^ 2). rewrite E. cbn [mbind option_bind].
  assert (length (concat (list_ t)) = length S) as Hlen by (by rewrite Hp).
  destruct (rehash_spec m (2 ^ k) (list_ t) (replicate (Z.to_nat (2 ^ k)) []) [] 0) as (nl & E' & Hb).
  - intros e He. apply list_elem_of_In, in_concat in He as (ch & Hch & He).
    rewrite <- list_elem_of_In in Hch. rewrite <- list_elem_of_In in He.
    apply list_elem_of_lookup_1 in Hch as [i Hi]. destruct (Hin i ch e Hi He) as (h & Eh & Hh & _). eauto.
  - split; [by exists k|]. split; [by rewrite length_replicate|]. rewrite concat_replicate_nil. split; [done|].
    intros i ch e Hi He. apply lookup_replicate_1 in Hi as [-> _].
    by apply not_elem_of_nil in He.
  - done.
  - lia.
  - rewrite E'. cbn [mbind option_bind]. rewrite Z.add_0_l, Hlen, Hel, Z.eqb_refl.
    eexists. split; [done|]. split; [|cbn; lia]. cbn [length_ list_]. rewrite app_nil_r in Hb.
    destruct Hb as (H1 & H2 & H3 & H4). split; [done|]. split; [done|]. split; [by rewrite H3|done].
Qed.

Lemma table_Insert_spec m t S e h :
  table_ok m t S -> keys_ok m S -> m !! e = Some h -> h_hash h = hf (h_key h) ->
  Z.of_nat (length S) + 1 < 2 ^ 31 ->
  match table_Insert m t e (h_key h) (hf (h_key h)) with
  | Some (None, t') => (forall x, x ∈ S -> ~ has_key m x (h_key h)) /\ table_ok m t' (e :: S)
  | Some (Some old, t') =>
      old ∈ S /\ has_key m old (h_key h) /\ forall S', S ≡ₚ old :: S' -> table_ok m t' (e :: S')
  | None => False
  end.
Proof.
  intros Ht Hk Eh Hh Hlt. destruct (FindPointer_spec m t S (h_key h) Ht Hk) as (front & back & E & Hc & Hb).
  unfold table_Insert. rewrite E. pose proof Ht as [Hbk [Hel Hel']].
  assert (He : forall x, x ∈ [e] -> in_bucket m (length_ t) (bucket (length_ t) (hf (h_key h))) x).
  { intros x Hx%list_elem_of_singleton. subst x. exists h. rewrite Hh. split; [done|]. split; [|done].
    apply Hhf. }
  destruct back as [|old back]; cbn [tail].
  - set (t1 := mkTable _ _ _).
    assert (table_ok m t1 (e :: S)) as Ht1.
    { split; [|cbn; rewrite u32_small; lia]. cbn [length_ list_ t1]. rewrite app_nil_r in Hc.
      apply (buckets_update m _ _ S _ front front [] (e :: S) Hbk Hc ltac:(done) [e] He);
        [intros rest Hr; cbn in *; by rewrite Hr|solve_Permutation]. }
    destruct (length_ t1 <? elems_ t1).
    + destruct (Resize_spec m t1 (e :: S) Ht1) as (t' & -> & Ht'). done.
    + done.
  - destruct Hb as [Ho Hko]. split; [done|]. split; [done|]. intros S' HS.
    assert (length S = Datatypes.S (length S')) as Hlen by (by rewrite HS).
    split; [|cbn; lia]. cbn [length_ list_].
    apply (buckets_update m _ _ S _ (front ++ old :: back) (front ++ back) [old] (e :: S') Hbk Hc
      ltac:(solve_Permutation) [e] He); [|solve_Permutation].
    intros rest Hr. rewrite HS in Hr. cbn in *. apply Permutation_cons_inv in Hr. by rewrite Hr.
Qed.

(** ** The invariant *)

(** References held by clients: one entry of [hs] for each. *)
Definition held (hs : list nat) (e : nat) : nat := count_occ Nat.eq_dec hs e.

Definition charges (m : gmap nat LRUHandle) (S : list nat) : Z :=
  foldr (fun e sum => match m !! e with Some h => charge h | None => 0 end + sum) 0 S.

Definition is_head (e : nat) : Prop := e = lru_ \/ e = in_use_.

(** What a handle's members say, given the lists it is on. *)
Definition handle_ok (hs L U : list nat) (e : nat) (h : LRUHandle) : Prop :=
  h_hash h = hf (h_key h) /\ 0 <= charge h /\
  (if decide (e ∈ L ++ U) then
     in_cache h = true /\ refs h = 1 + Z.of_nat (held hs e) /\ (e ∈ L <-> held hs e = 0%nat)
   else in_cache h = false /\ refs h = Z.of_nat (held hs e) /\ (0 < held hs e)%nat).

Record core (c : LRUCache) (hs L U : list nat) : Prop := mkCore {
  core_handles e h : handles c !! e = Some h -> ~ is_head e -> handle_ok hs L U e h;
  core_live e : e ∈ L ++ U ++ hs -> is_Some (handles c !! e) /\ ~ is_head e;
  core_usage : usage_ c = charges (handles c) (L ++ U);
  core_small : charges (handles c) (L ++ U) < 2 ^ 64;
  core_fresh e : is_Some (handles c !! e) -> (e < malloc_next c)%nat
}.

Definition links (c : LRUCache) (L U : list nat) : Prop :=
  ring (NX (handles c)) (PV (handles c)) lru_ L /\ ring (NX (handles c)) (PV (handles c)) in_use_ U /\
  NoDup (lru_ :: in_use_ :: L ++ U).

(** The handles' members as far as they do not depend on the links. *)
Definition same_bodies (m m' : gmap nat LRUHandle) : Prop := forall a, body <$> m' !! a = body <$> m !! a.

Lemma same_bodies_at m m' e h' :
  same_bodies m m' -> m' !! e = Some h' -> exists h, m !! e = Some h /\ body h' = body h.
Proof.
  intros Hb He. specialize (Hb e). rewrite He in Hb. destruct (m !! e) as [h|]; cbn in Hb; [|done].
  exists h. split; [done|]. by apply (inj Some).
Qed.

Lemma same_bodies_sym m m' : same_bodies m m' -> same_bodies m' m.
Proof. intros H a. by rewrite H. Qed.

Lemma handle_ok_body hs L U e h h' : body h' = body h -> handle_ok hs L U e h -> handle_ok hs L U e h'.
Proof.
  intros Hb. destruct (body_eq h h' Hb) as (E1 & E2 & E3 & E4 & E5 & E6). unfold handle_ok.
  by rewrite E2, E3, E4, E5, E6.
Qed.

Lemma charges_body m m' S : same_bodies m m' -> charges m' S = charges m S.
Proof.
  intros Hb. unfold charges. induction S as [|e S IH]; cbn [foldr]; [done|]. rewrite IH. f_equal.
  destruct (m' !! e) as [h'|] eqn:E.
  - destruct (same_bodies_at m m' e h' Hb E) as (h & -> & Hbe). by apply body_eq in Hbe as (_ & -> & _).
  - specialize (Hb e). rewrite E in Hb. destruct (m !! e); done.
Qed.

Lemma charges_perm m S S' : S ≡ₚ S' -> charges m S = charges m S'.
Proof. unfold charges. induction 1; cbn [foldr]; lia. Qed.

Lemma core_relinked c c' hs L U : relinked c c' -> core c hs L U -> core c' hs L U.
Proof.
  intros (m & -> & Hb) [H1 H2 H4 H5 H6]. split; cbn [handles set_handles usage_ malloc_next].
  - intros e h' He Hh. destruct (same_bodies_at _ _ e h' Hb He) as (h & Eh & Hbe).
    apply (handle_ok_body hs L U e h); auto.
  - intros e He. destruct (H2 e He) as [[h Eh] Hh]. split; [|done].
    destruct (same_bodies_at _ _ e h (same_bodies_sym _ _ Hb) Eh) as (h' & E' & _). by exists h'.
  - by rewrite (charges_body (handles c)).
  - by rewrite (charges_body (handles c)).
  - intros e [h' Eh]. destruct (same_bodies_at _ _ e h' Hb Eh) as (h & Eh' & _). apply H6. by exists h.
Qed.

(** Different handles of [S] have different keys. *)
Definition uniq (m : gmap nat LRUHandle) (S : list nat) : Prop :=
  forall e e' h h', e ∈ S -> e' ∈ S -> m !! e = Some h -> m !! e' = Some h' -> h_key h = h_key h' -> e = e'.

Lemma core_keys_ok c hs L U : core c hs L U -> uniq (handles c) (L ++ U) -> keys_ok (handles c) (L ++ U).
Proof.
  intros [H1 H2 _ _ _] H3. split; [|exact H3]. intros e He.
  destruct (H2 e ltac:(set_solver)) as [[h Eh] Hh]. exists h. split; [done|]. by apply (H1 e h).
Qed.

(** The table only looks at keys and hashes. *)
Definition same_keys (S : list nat) (m m' : gmap nat LRUHandle) : Prop :=
  forall e, e ∈ S -> h_hash <$> m' !! e = h_hash <$> m !! e.

Lemma table_ok_same m m' t S : same_keys S m m' -> table_ok m t S -> table_ok m' t S.
Proof.
  intros Hs [(H1 & H2 & H3 & H4) H5]. split; [|done]. do 3 (split; [done|]).
  intros i ch e Hi He. destruct (H4 i ch e Hi He) as (h & Eh & Hh & Hb).
  assert (e ∈ S) as HeS by (eapply in_chain; [split; [by repeat split|exact H5]|exact Hi|done]).
  specialize (Hs e HeS). rewrite Eh in Hs. destruct (m' !! e) as [h'|] eqn:E'; cbn in Hs; [|done].
  injection Hs as Hs. exists h'. by rewrite Hs.
Qed.

Lemma same_bodies_keys S m m' : same_bodies m m' -> same_keys S m m'.
Proof.
  intros Hb e _. destruct (m' !! e) as [h'|] eqn:E.
  - destruct (same_bodies_at _ _ e h' Hb E) as (h & -> & (_ & _ & _ & _ & _ & H)%body_eq). cbn. congruence.
  - specialize (Hb e). rewrite E in Hb. by destruct (m !! e).
Qed.

(** What never changes in a handle, and the handles but for the list heads. *)
Definition info (h : LRUHandle) : bytes * Z * Z * Z := (h_key h, value h, charge h, h_hash h).
Definition infos (c : LRUCache) : gmap nat (bytes * Z * Z * Z) :=
  info <$> delete lru_ (delete in_use_ (handles c)).

(** Nothing was allocated, freed or deleted. *)
Definition frame (c c' : LRUCache) : Prop :=
  infos c' = infos c /\ deleted c' = deleted c /\ capacity_ c' = capacity_ c /\ malloc_next c' = malloc_next c.

Lemma frame_trans c1 c2 c3 : frame c1 c2 -> frame c2 c3 -> frame c1 c3.
Proof. unfold frame. intros (-> & -> & -> & ->) (-> & -> & -> & ->). done. Qed.

Lemma info_same (m m' : gmap nat LRUHandle) : (forall a, info <$> m' !! a = info <$> m !! a) -> 
  info <$> delete lru_ (delete in_use_ m') = info <$> delete lru_ (delete in_use_ m).
Proof.
  intros Hi. apply map_eq. intros a. rewrite !lookup_fmap.
  destruct (decide (a = lru_)) as [->|]; [by rewrite !lookup_delete_eq|]. rewrite !(lookup_delete_ne _ lru_) by done.
  destruct (decide (a = in_use_)) as [->|]; [by rewrite !lookup_delete_eq|]. rewrite !(lookup_delete_ne _ in_use_) by done.
  apply Hi.
Qed.

Lemma relinked_frame c c' : relinked c c' -> frame c c' /\ table_ c' = table_ c /\ usage_ c' = usage_ c.
Proof.
  intros (m & -> & Hb). split; [|done]. split; [|done]. unfold infos. cbn [handles set_handles].
  apply info_same. intros a. specialize (Hb a). destruct (m !! a) as [h'|], (handles c !! a) as [h|]; cbn in *; try done.
  f_equal. apply (inj Some) in Hb. apply body_eq in Hb as (E1 & E2 & E3 & _ & _ & E6). unfold info. congruence.
Qed.

Lemma set_frame c e h h' u :
  handles c !! e = Some h -> info h' = info h ->
  frame c (set_usage (set_handles c (<[e := h']> (handles c))) u).
Proof.
  intros He Hi. split; [|done]. unfold infos. cbn [handles set_handles set_usage]. apply info_same. intros a.
  destruct (decide (a = e)) as [->|]; [rewrite lookup_insert_eq, He; cbn; by rewrite Hi|by rewrite lookup_insert_ne].
Qed.

Lemma charges_update m e h h' S :
  m !! e = Some h -> charge h' = charge h -> charges (<[e := h']> m) S = charges m S.
Proof.
  intros He Hc. unfold charges. induction S as [|x S IH]; cbn [foldr]; [done|]. rewrite IH. f_equal.
  destruct (decide (x = e)) as [->|]; [by rewrite lookup_insert_eq, He|by rewrite lookup_insert_ne].
Qed.

(** Changing the references and the membership of one handle. *)
Lemma core_change c hs L U e h h' hs' L' U' u :
  core c hs L U -> handles c !! e = Some h -> ~ is_head e -> info h' = info h ->
  (forall x, x <> e -> held hs' x = held hs x /\ (x ∈ L' <-> x ∈ L) /\ (x ∈ U' <-> x ∈ U)) ->
  handle_ok hs' L' U' e h' ->
  (e ∈ L' ++ U' -> e ∈ L ++ U) ->
  u = charges (handles c) (L' ++ U') -> u < 2 ^ 64 ->
  core (set_usage (set_handles c (<[e := h']> (handles c))) u) hs' L' U'.
Proof.
  intros [H1 H2 H4 H5 H6] He Hh Hi Hx Hok Hin Hu Hlt.
  assert (charge h' = charge h /\ h_key h' = h_key h) as [Hc Hk] by (unfold info in Hi; by simplify_eq).
  assert (HLU : forall x, x ∈ L' ++ U' -> x ∈ L ++ U).
  { intros x Hx'. destruct (decide (x = e)) as [->|Hne]; [auto|]. destruct (Hx x Hne) as (_ & E1 & E2).
    rewrite elem_of_app in Hx' |- *. tauto. }
  split; cbn [handles set_handles set_usage usage_ malloc_next].
  - intros x hx Ex Hnh. destruct (decide (x = e)) as [->|Hne].
    + rewrite lookup_insert_eq in Ex. by simplify_eq.
    + rewrite lookup_insert_ne in Ex by done. pose proof (H1 x hx Ex Hnh) as Ho. destruct (Hx x Hne) as (E1 & E2 & E3).
      unfold handle_ok in *. rewrite E1. destruct Ho as (? & ? & Ho). split; [done|]. split; [done|].
      rewrite (decide_ext (x ∈ L' ++ U') (x ∈ L ++ U)) by (rewrite !elem_of_app; tauto).
      case_decide; [|done].
      destruct Ho as (? & ? & ?). split; [done|]. split; [done|]. by rewrite E2.
  - intros x Hx'. destruct (decide (x = e)) as [->|Hne].
    + split; [|done]. rewrite lookup_insert_eq. by eexists.
    + rewrite lookup_insert_ne by done. apply H2. destruct (Hx x Hne) as (E1 & E2 & E3).
      rewrite !elem_of_app in Hx' |- *. destruct Hx' as [?|[?|Hhs]]; [tauto..|]. right; right.
      apply list_elem_of_In, (count_occ_In Nat.eq_dec) in Hhs. fold (held hs' x) in Hhs. rewrite E1 in Hhs.
      apply list_elem_of_In, (count_occ_In Nat.eq_dec). exact Hhs.
  - by rewrite (charges_update _ _ h).
  - rewrite (charges_update _ _ h) by done. lia.
  - intros x [hx Ex]. apply H6. destruct (decide (x = e)) as [->|]; [by exists h|].
    rewrite lookup_insert_ne in Ex by done. by exists hx.
Qed.

(** ** Moving between the lists *)

Lemma links_remove_lru c l1 e l2 U :
  links c (l1 ++ e :: l2) U -> exists c', LRU_Remove c e = Some c' /\ relinked c c' /\ links c' (l1 ++ l2) U.
Proof.
  intros (H1 & H2 & Hnd). rewrite !NoDup_cons, NoDup_app in Hnd. destruct Hnd as (Ha & Hb & Hl & Hd & Hu).
  destruct (LRU_Remove_spec c lru_ l1 e l2 in_use_ U) as (c' & E & Hr & H1' & H2'); [done| |done| |].
  - apply NoDup_cons. split; [set_solver|done].
  - intros a [->|Haa]%elem_of_cons; [set_solver|]. intros [->|Hx]%elem_of_cons; [set_solver|]. apply (Hd a Hx Haa).
  - exists c'. split; [done|]. split; [done|]. split; [done|]. split; [done|].
    rewrite !NoDup_cons, NoDup_app. apply NoDup_app in Hl as (Hl1 & Hd1 & Hl2). apply NoDup_cons in Hl2 as [He2 Hl2].
    split; [set_solver|]. split; [set_solver|]. split; [apply NoDup_app; set_solver|]. split; [set_solver|done].
Qed.

Lemma links_remove_use c L l1 e l2 :
  links c L (l1 ++ e :: l2) -> exists c', LRU_Remove c e = Some c' /\ relinked c c' /\ links c' L (l1 ++ l2).
Proof.
  intros (H1 & H2 & Hnd). rewrite !NoDup_cons, NoDup_app in Hnd. destruct Hnd as (Ha & Hb & Hl & Hd & Hu).
  destruct (LRU_Remove_spec c in_use_ l1 e l2 lru_ L) as (c' & E & Hr & H2' & H1'); [done| |done| |].
  - apply NoDup_cons. split; [set_solver|done].
  - intros a [->|Haa]%elem_of_cons; [set_solver|]. intros [->|Hx]%elem_of_cons; [set_solver|]. by apply (Hd a Haa).
  - exists c'. split; [done|]. split; [done|]. split; [done|]. split; [done|].
    rewrite !NoDup_cons, NoDup_app. apply NoDup_app in Hu as (Hu1 & Hd1 & Hu2). apply NoDup_cons in Hu2 as [He2 Hu2].
    split; [set_solver|]. split; [set_solver|]. split; [done|]. split; [set_solver|apply NoDup_app; set_solver].
Qed.

Lemma links_append_lru c L U e h :
  links c L U -> handles c !! e = Some h -> ~ is_head e -> e ∉ L ++ U ->
  exists c', LRU_Append c lru_ e = Some c' /\ relinked c c' /\ links c' (L ++ [e]) U.
Proof.
  intros (H1 & H2 & Hnd) He Hh Hni. unfold is_head in Hh.
  rewrite !NoDup_cons, NoDup_app in Hnd. destruct Hnd as (Ha & Hb & Hl & Hd & Hu).
  destruct (LRU_Append_spec c lru_ L e h in_use_ U) as (c' & E & Hr & H1' & H2');
    [done|apply NoDup_cons; set_solver|done|set_solver|done|set_solver|set_solver|].
  exists c'. split; [done|]. split; [done|]. split; [done|]. split; [done|].
  rewrite !NoDup_cons, NoDup_app. split; [set_solver|]. split; [set_solver|].
  split; [apply NoDup_app; split; [done|]; split; [set_solver|apply NoDup_singleton]|]. split; [set_solver|done].
Qed.

Lemma links_append_use c L U e h :
  links c L U -> handles c !! e = Some h -> ~ is_head e -> e ∉ L ++ U ->
  exists c', LRU_Append c in_use_ e = Some c' /\ relinked c c' /\ links c' L (U ++ [e]).
Proof.
  intros (H1 & H2 & Hnd) He Hh Hni. unfold is_head in Hh.
  rewrite !NoDup_cons, NoDup_app in Hnd. destruct Hnd as (Ha & Hb & Hl & Hd & Hu).
  destruct (LRU_Append_spec c in_use_ U e h lru_ L) as (c' & E & Hr & H2' & H1');
    [done|apply NoDup_cons; set_solver|done|set_solver|done|set_solver|set_solver|].
  exists c'. split; [done|]. split; [done|]. split; [done|]. split; [done|].
  rewrite !NoDup_cons, NoDup_app. split; [set_solver|]. split; [set_solver|].
  split; [done|]. split; [set_solver|]. apply NoDup_app. split; [done|]. split; [set_solver|apply NoDup_singleton].
Qed.

(** Rings only look at the links. *)
Lemma links_update c e h h' u L U :
  handles c !! e = Some h -> next h' = next h -> prev h' = prev h ->
  links c L U -> links (set_usage (set_handles c (<[e := h']> (handles c))) u) L U.
Proof.
  intros He Hn Hp (H1 & H2 & H3). cbn [handles set_handles set_usage].
  assert (HN : forall a, NX (<[e := h']> (handles c)) a = NX (handles c) a).
  { intros a. rewrite NX_insert. destruct (decide (a = e)) as [->|]; [|done]. unfold NX. by rewrite He, Hn. }
  assert (HP : forall a, PV (<[e := h']> (handles c)) a = PV (handles c) a).
  { intros a. rewrite PV_insert. destruct (decide (a = e)) as [->|]; [|done]. unfold PV. by rewrite He, Hp. }
  split; [|split; [|done]]; (eapply ring_frame; [eassumption|..]; auto).
Qed.

(** ** References *)

Lemma held_cons e hs x : held (e :: hs) x = if decide (x = e) then S (held hs x) else held hs x.
Proof. unfold held. cbn. destruct (Nat.eq_dec e x); case_decide; congruence. Qed.

Lemma held_self e hs : held (e :: hs) e = S (held hs e).
Proof. rewrite held_cons. by rewrite decide_True. Qed.

Lemma held_perm hs hs' x : hs ≡ₚ hs' -> held hs x = held hs' x.
Proof. intros Hp. unfold held. by apply Permutation_count_occ. Qed.

Lemma held_le hs e : (held hs e <= length hs)%nat.
Proof. apply count_occ_bound. Qed.

(** A handle on a list, and where. *)
Lemma core_on_list c hs L U e :
  core c hs L U -> e ∈ L ++ U ->
  exists h, handles c !! e = Some h /\ ~ is_head e /\ h_hash h = hf (h_key h) /\ 0 <= charge h /\
    in_cache h = true /\ refs h = 1 + Z.of_nat (held hs e) /\ (e ∈ L <-> held hs e = 0%nat).
Proof.
  intros Hc He. destruct (core_live _ _ _ _ Hc e) as [[h Eh] Hh]; [rewrite !elem_of_app in *; tauto|].
  destruct (core_handles _ _ _ _ Hc e h Eh Hh) as (H1 & H2 & H3). rewrite decide_True in H3 by done.
  exists h. tauto.
Qed.

Lemma links_NoDup c L U : links c L U -> NoDup (L ++ U).
Proof. intros (_ & _ & Hnd). by apply NoDup_cons in Hnd as [_ [_ ?]%NoDup_cons]. Qed.

Lemma at_update c e f h :
  handles c !! e = Some h ->
  update c e f = Some (set_usage (set_handles c (<[e := f h]> (handles c))) (usage_ c)).
Proof. intros He. by rewrite (update_at c e f h He). Qed.

(** Taking a reference to a handle in the cache. *)
Lemma LRU_Ref_spec c hs L U e :
  core c hs L U -> links c L U -> e ∈ L ++ U -> Z.of_nat (length hs) + 2 < 2 ^ 32 ->
  exists c' L' U', Ref c e = Some c' /\ core c' (e :: hs) L' U' /\ links c' L' U' /\ L' ++ U' ≡ₚ L ++ U /\
    frame c c' /\ table_ c' = table_ c /\ usage_ c' = usage_ c.
Proof.
  intros Hc Hl He Hlen. destruct (core_on_list c hs L U e Hc He) as (h & Eh & Hh & Hhash & Hch & Hin & Hrf & HL).
  pose proof (held_le hs e) as Hhl. unfold Ref, at_handle. rewrite Eh. cbn [mbind option_bind]. rewrite Hin, andb_true_r.
  assert (exists c1 L' U', (if refs h =? 1 then c ← LRU_Remove c e; LRU_Append c in_use_ e else Some c) = Some c1 /\
    relinked c c1 /\ links c1 L' U' /\ L' ++ U' ≡ₚ L ++ U /\ e ∈ U' /\ e ∉ L' /\
    (forall x, x <> e -> (x ∈ L' <-> x ∈ L) /\ (x ∈ U' <-> x ∈ U))) as (c1 & L' & U' & E1 & Hr & Hl' & Hp & HeU & HeL & Hx).
  { destruct (Z.eqb_spec (refs h) 1) as [Hr1|Hr1].
    - assert (e ∈ L) as HeL by (apply HL; lia). apply elem_of_Permutation in HeL as HeL'.
      apply list_elem_of_split in HeL as (l1 & l2 & ->).
      destruct (links_remove_lru c l1 e l2 U Hl) as (c1 & -> & Hr1' & Hl1). cbn [mbind option_bind].
      destruct (relinked_at _ _ _ _ Hr1' Eh) as (h1 & Eh1 & _).
      pose proof (links_NoDup _ _ _ Hl) as Hnd. rewrite <- app_assoc in Hnd. cbn in Hnd.
      apply NoDup_app in Hnd as (_ & Hd & Hnd). apply NoDup_cons in Hnd as [Hn2 _].
      assert (e ∉ l1) as Hn1 by (intros Hx; apply (Hd e Hx); set_solver).
      destruct (links_append_use c1 (l1 ++ l2) U e h1 Hl1 Eh1 Hh) as (c2 & -> & Hr2 & Hl2); [set_solver|].
      exists c2, (l1 ++ l2), (U ++ [e]). split; [done|]. split; [by eapply relinked_trans|]. split; [done|].
      split; [solve_Permutation|]. split; [set_solver|]. split; [set_solver|]. set_solver.
    - exists c, L, U. split; [done|]. split; [by exists (handles c); destruct c|]. split; [done|]. split; [done|].
      assert (e ∉ L) as HeL by (rewrite HL; lia). split; [rewrite elem_of_app in He; tauto|]. done. }
  rewrite E1. cbn [mbind option_bind]. destruct (relinked_at _ _ _ _ Hr Eh) as (h1 & Eh1 & Hb1).
  destruct (body_eq _ _ Hb1) as (B1 & B2 & B3 & B4 & B5 & B6).
  pose proof (core_relinked _ _ _ _ _ Hr Hc) as Hc1. destruct (relinked_frame _ _ Hr) as (Hf & Ht & Hu).
  rewrite (at_update c1 e _ h1 Eh1). rewrite B5, Hrf, u32_small by lia.
  set (h2 := set_refs (1 + Z.of_nat (held hs e) + 1) h1).
  eexists _, L', U'. split; [done|]. split; [|split; [|split; [done|]]].
  - apply (core_change c1 hs L U e h1); [done|done|done|done| | |intros _; done| |].
    + intros x Hne. rewrite held_cons, decide_False by done. split; [done|]. by apply Hx.
    + unfold handle_ok. cbn [h_hash h_key charge in_cache refs set_refs h2]. rewrite B3, B6, B2, held_self.
      rewrite decide_True by (rewrite elem_of_app; by right). rewrite B4.
      split; [done|]. split; [done|]. split; [done|]. split; [lia|]. split; [done|lia].
    + rewrite (core_usage _ _ _ _ Hc1). by apply charges_perm.
    + rewrite (core_usage _ _ _ _ Hc1). apply (core_small _ _ _ _ Hc1).
  - by apply (links_update c1 e h1).
  - split; [eapply frame_trans; [exact Hf|]; by apply (set_frame c1 e h1)|]. done.
Qed.

(** ** Freeing handles *)

(** The keys and values behind the handles. *)
Definition pairs (m : gmap nat (bytes * Z * Z * Z)) : list (bytes * Z) :=
  map (fun x => (fst (fst (fst (snd x))), snd (fst (fst (snd x))))) (map_to_list m).

(** Nothing was allocated; what is gone was handed to the deleter, once. *)
Definition settled (c c' : LRUCache) : Prop :=
  capacity_ c' = capacity_ c /\ malloc_next c' = malloc_next c /\ infos c' ⊆ infos c /\
  deleted c' ++ pairs (infos c') ≡ₚ deleted c ++ pairs (infos c).

Lemma settled_refl c : settled c c.
Proof. by repeat split. Qed.

Lemma settled_trans c1 c2 c3 : settled c1 c2 -> settled c2 c3 -> settled c1 c3.
Proof.
  intros (A1 & A2 & A3 & A4) (B1 & B2 & B3 & B4). split; [congruence|]. split; [congruence|].
  split; [by etrans|]. by rewrite B4.
Qed.

Lemma frame_settled c c' : frame c c' -> settled c c'.
Proof. intros (E1 & E2 & E3 & E4). split; [done|]. split; [done|]. by rewrite E1, E2. Qed.

Lemma free_settled c c' e h :
  handles c !! e = Some h -> ~ is_head e -> handles c' = delete e (handles c) ->
  capacity_ c' = capacity_ c -> malloc_next c' = malloc_next c ->
  deleted c' = deleted c ++ [(h_key h, value h)] -> settled c c'.
Proof.
  intros He Hh Hd Hc Hm Hdel. split; [done|]. split; [done|].
  assert (infos c !! e = Some (info h)) as Hi.
  { unfold infos, is_head in *. rewrite lookup_fmap, !lookup_delete_ne, He by (intros <-; tauto). done. }
  assert (infos c' = delete e (infos c)) as ->.
  { unfold infos. rewrite Hd, <- fmap_delete. f_equal.
    by rewrite (delete_delete _ in_use_ e), (delete_delete _ lru_ e). }
  split; [apply delete_subseteq|]. rewrite Hdel. unfold pairs.
  rewrite <- (map_to_list_delete (infos c) e _ Hi). cbn. unfold info. cbn. solve_Permutation.
Qed.

Lemma charges_delete m e S : e ∉ S -> charges (delete e m) S = charges m S.
Proof.
  unfold charges. induction S as [|x S IH]; intros He; cbn [foldr]; [done|].
  rewrite IH by set_solver. f_equal. rewrite lookup_delete_ne; [done|]. set_solver.
Qed.

Lemma core_delete c c' hs L U e hs' L' U' :
  core c hs L U -> handles c' = delete e (handles c) ->
  (forall x, x <> e -> held hs' x = held hs x /\ (x ∈ L' <-> x ∈ L) /\ (x ∈ U' <-> x ∈ U)) ->
  e ∉ L' ++ U' ++ hs' ->
  usage_ c' = charges (handles c) (L' ++ U') -> usage_ c' < 2 ^ 64 -> malloc_next c' = malloc_next c ->
  core c' hs' L' U'.
Proof.
  intros [H1 H2 H4 H5 H6] Hd Hx He Hu Hlt Hm.
  assert (HLU : forall x, x ∈ L' ++ U' -> x ∈ L ++ U).
  { intros x Hx'. assert (x <> e) as Hne by (intros ->; apply He; rewrite !elem_of_app in *; tauto).
    destruct (Hx x Hne) as (_ & E1 & E2). rewrite elem_of_app in Hx' |- *. tauto. }
  assert (HeLU : e ∉ L' ++ U') by (rewrite !elem_of_app in *; tauto).
  split; rewrite ?Hd.
  - intros x hx [Hne Ex]%lookup_delete_Some Hnh. pose proof (H1 x hx Ex Hnh) as Ho.
    destruct (Hx x ltac:(done)) as (E1 & E2 & E3).
    unfold handle_ok in *. rewrite E1. destruct Ho as (? & ? & Ho). split; [done|]. split; [done|].
    rewrite (decide_ext (x ∈ L' ++ U') (x ∈ L ++ U)) by (rewrite !elem_of_app; tauto).
    case_decide; [|done]. destruct Ho as (? & ? & ?). split; [done|]. split; [done|]. by rewrite E2.
  - intros x Hx'. assert (x <> e) as Hne by (intros ->; done). rewrite lookup_delete_ne by done. apply H2.
    destruct (Hx x Hne) as (E1 & E2 & E3).
    rewrite !elem_of_app in Hx' |- *. destruct Hx' as [?|[?|Hhs]]; [tauto..|]. right; right.
    apply list_elem_of_In, (count_occ_In Nat.eq_dec) in Hhs. fold (held hs' x) in Hhs. rewrite E1 in Hhs.
    apply list_elem_of_In, (count_occ_In Nat.eq_dec). exact Hhs.
  - by rewrite charges_delete.
  - rewrite charges_delete by done. lia.
  - intros x [hx [_ Ex]%lookup_delete_Some]. rewrite Hm. apply H6. by exists hx.
Qed.

(** Rings are not disturbed by a handle that is on neither. *)
Lemma links_delete c c' e L U :
  links c L U -> handles c' = delete e (handles c) -> ~ is_head e -> e ∉ L ++ U -> links c' L U.
Proof.
  intros (H1 & H2 & H3) Hd Hh He. unfold is_head in Hh.
  assert (HN : forall a, a <> e -> NX (handles c') a = NX (handles c) a)
    by (intros a Ha; unfold NX; by rewrite Hd, lookup_delete_ne).
  assert (HP : forall a, a <> e -> PV (handles c') a = PV (handles c) a)
    by (intros a Ha; unfold PV; by rewrite Hd, lookup_delete_ne).
  rewrite elem_of_app in He.
  split; [|split; [|done]]; (eapply ring_frame; [eassumption|..]); intros a Ha; [apply HN|apply HP|apply HN|apply HP];
    intros ->; apply elem_of_cons in Ha; tauto.
Qed.

Lemma links_insert_frame c c' e h L U :
  links c L U -> handles c' = <[e := h]> (handles c) -> ~ is_head e -> e ∉ L ++ U -> links c' L U.
Proof.
  intros (H1 & H2 & H3) Hd Hh He. unfold is_head in Hh. rewrite elem_of_app in He.
  assert (HN : forall a, a <> e -> NX (handles c') a = NX (handles c) a)
    by (intros a Ha; by rewrite Hd, NX_insert, decide_False).
  assert (HP : forall a, a <> e -> PV (handles c') a = PV (handles c) a)
    by (intros a Ha; by rewrite Hd, PV_insert, decide_False).
  split; [|split; [|done]]; (eapply ring_frame; [eassumption|..]); intros a Ha; [apply HN|apply HP|apply HN|apply HP];
    intros ->; apply elem_of_cons in Ha; tauto.
Qed.

Lemma held_zero hs e : held hs e = 0%nat -> e ∉ hs.
Proof. intros Hz He. apply list_elem_of_In, (count_occ_In Nat.eq_dec) in He. unfold held in Hz. lia. Qed.

Lemma charges_nonneg c hs L U S : core c hs L U -> (forall e, e ∈ S -> ~ is_head e) -> 0 <= charges (handles c) S.
Proof.
  intros Hc. unfold charges. induction S as [|e S IH]; intros HS; cbn [foldr]; [done|].
  pose proof (IH ltac:(intros x Hx; apply HS; set_solver)). destruct (handles c !! e) as [h|] eqn:E; [|lia].
  destruct (core_handles _ _ _ _ Hc e h E ltac:(apply HS; set_solver)) as (_ & ? & _). lia.
Qed.

(** [Unref] by a client: of a handle in the cache, and of one that has been erased
    meanwhile. *)
Definition released (c : LRUCache) (hs L U : list nat) (e : nat) : Prop :=
  exists c' L' U', Release c e = Some c' /\ core c' hs L' U' /\ links c' L' U' /\ L' ++ U' ≡ₚ L ++ U /\
    settled c c' /\ table_ c' = table_ c /\ usage_ c' = usage_ c /\ same_keys (L ++ U) (handles c) (handles c').

Lemma held_cons_ne e hs x : x <> e -> held hs x = held (e :: hs) x.
Proof. intros Hx. by rewrite held_cons, decide_False. Qed.

Lemma Release_cached c hs L U e :
  core c (e :: hs) L U -> links c L U -> e ∈ L ++ U -> released c hs L U e.
Proof.
  intros Hc Hl Hin. destruct (core_on_list _ _ _ _ e Hc Hin) as (h & Eh & Hh & Hhash & Hch & Hic & Hrf & HL).
  rewrite held_self in Hrf, HL. pose proof (held_cons_ne e hs) as Hne.
  unfold released, Release, Unref, at_handle. rewrite Eh. cbn [mbind option_bind].
  rewrite (proj2 (Z.ltb_lt _ _)) by lia. cbn [negb].
  rewrite (at_update c e _ h Eh). cbn [mbind option_bind].
  rewrite (proj2 (Z.eqb_neq _ _)) by lia. rewrite Hic, andb_true_l. cbn [refs].
  set (h1 := set_refs (refs h - 1) h). set (c1 := set_usage _ _).
  assert (Hl1 : links c1 L U) by (by apply (links_update c e h)).
  assert (Hf1 : frame c c1) by (by apply (set_frame c e h)).
  assert (Hsk1 : same_keys (L ++ U) (handles c) (handles c1)).
  { intros x _. cbn. destruct (decide (x = e)) as [->|]; [by rewrite lookup_insert_eq, Eh|by rewrite lookup_insert_ne]. }
  assert (Eh1 : handles c1 !! e = Some h1) by (cbn; by rewrite lookup_insert_eq).
  assert (e ∉ L) as HeL by (rewrite HL; lia). assert (e ∈ U) as HeU by (rewrite elem_of_app in Hin; tauto).
  destruct (Z.eqb_spec (refs h - 1) 1) as [E1|E1].
  + apply list_elem_of_split in HeU as (u1 & u2 & ->).
    destruct (links_remove_use c1 L u1 e u2 Hl1) as (c2 & -> & Hr2 & Hl2). cbn [mbind option_bind].
    destruct (relinked_at _ _ _ _ Hr2 Eh1) as (h2 & Eh2 & _).
    pose proof (links_NoDup _ _ _ Hl) as Hnd. apply NoDup_app in Hnd as (_ & _ & Hnd).
    apply NoDup_app in Hnd as (_ & Hd & Hnd). apply NoDup_cons in Hnd as [Hn2 _].
    assert (e ∉ u1) as Hn1 by (intros Hx; apply (Hd e Hx); set_solver).
    destruct (links_append_lru c2 L (u1 ++ u2) e h2 Hl2 Eh2 Hh) as (c3 & -> & Hr3 & Hl3); [set_solver|].
    exists c3, (L ++ [e]), (u1 ++ u2).
    pose proof (relinked_trans _ _ _ Hr2 Hr3) as Hr. destruct (relinked_frame _ _ Hr) as (Hf & Ht & Hu).
    split; [done|]. split; [|split; [done|]; split; [solve_Permutation|]; split; [by apply frame_settled; eapply frame_trans|]].
    * apply (core_relinked c1); [done|]. apply (core_change c (e :: hs) L (u1 ++ e :: u2) e h); try done.
      -- intros x Hx. split; [by apply Hne|]. set_solver.
      -- unfold handle_ok. cbn [h_hash h_key charge in_cache refs set_refs h1].
         rewrite decide_True by set_solver. assert (held hs e = 0%nat) as Hz by lia. rewrite Hz, Hic.
         split; [done|]. split; [done|]. split; [done|]. split; [lia|]. set_solver.
      -- rewrite (core_usage _ _ _ _ Hc). apply charges_perm. solve_Permutation.
      -- rewrite (core_usage _ _ _ _ Hc). apply (core_small _ _ _ _ Hc).
    * split; [by rewrite Ht|]. split; [by rewrite Hu|]. intros x Hx. etrans; [|by apply Hsk1].
      destruct Hr as (m & -> & Hb). by apply (same_bodies_keys (L ++ u1 ++ e :: u2)).
  + exists c1, L, U. split; [done|]. split; [|split; [done|]; split; [done|]; split; [by apply frame_settled|done]].
    apply (core_change c (e :: hs) L U e h); try done.
    * intros x Hx. split; [by apply Hne|done].
    * unfold handle_ok. cbn [h_hash h_key charge in_cache refs set_refs h1]. rewrite decide_True by done.
      rewrite Hic. split; [done|]. split; [done|]. split; [done|]. split; [lia|]. split; [done|lia].
    * apply (core_usage _ _ _ _ Hc).
    * rewrite (core_usage _ _ _ _ Hc). apply (core_small _ _ _ _ Hc).
Qed.

Lemma Release_erased c hs L U e :
  core c (e :: hs) L U -> links c L U -> e ∉ L ++ U -> released c hs L U e.
Proof.
  intros Hc Hl Hin. destruct (core_live _ _ _ _ Hc e) as [[h Eh] Hh]; [set_solver|].
  destruct (core_handles _ _ _ _ Hc e h Eh Hh) as (Hhash & Hch & Hcase). rewrite held_self in Hcase.
  rewrite decide_False in Hcase by done. pose proof (held_cons_ne e hs) as Hne.
  unfold released, Release, Unref, at_handle. rewrite Eh. cbn [mbind option_bind].
  destruct Hcase as (Hic & Hrf & Hpos). rewrite (proj2 (Z.ltb_lt _ _)) by lia. cbn [negb].
  rewrite (at_update c e _ h Eh). cbn [mbind option_bind]. rewrite Hic, andb_false_l.
  assert (Hhead : forall x, x ∈ L ++ U -> x <> e) by (intros x Hx ->; done).
  destruct (Z.eqb_spec (refs h - 1) 0) as [E0|E0].
  + eexists _, L, U. split; [done|]. cbn [handles set_usage set_handles]. rewrite delete_insert_eq.
    assert (held hs e = 0%nat) as Hz by lia.
    split; [|split; [|split; [done|]; split; [|split; [done|]; split; [done|]]]].
    * apply (core_delete c _ (e :: hs) L U e); try done.
      -- intros x Hx. split; [by apply Hne|done].
      -- rewrite app_assoc, elem_of_app. intros [?|Hx]; [done|]. by apply (held_zero hs e Hz).
      -- apply (core_usage _ _ _ _ Hc).
      -- cbn. rewrite (core_usage _ _ _ _ Hc). apply (core_small _ _ _ _ Hc).
    * by apply (links_delete c _ e).
    * by apply (free_settled c _ e h).
    * intros x Hx. cbn. by rewrite lookup_delete_ne by (intros <-; by apply (Hhead e)).
  + eexists _, L, U. split; [done|]. split; [|split; [|split; [done|]; split; [|split; [done|]; split; [done|]]]].
    * apply (core_change c (e :: hs) L U e h); try done.
      -- intros x Hx. split; [by apply Hne|done].
      -- unfold handle_ok. cbn [h_hash h_key charge in_cache refs set_refs]. rewrite decide_False by done.
         rewrite Hic. split; [done|]. split; [done|]. split; [done|]. split; lia.
      -- apply (core_usage _ _ _ _ Hc).
      -- rewrite (core_usage _ _ _ _ Hc). apply (core_small _ _ _ _ Hc).
    * by apply (links_update c e h).
    * apply frame_settled. by apply (set_frame c e h).
    * intros x Hx. cbn. by rewrite lookup_insert_ne by (intros <-; by apply (Hhead e)).
Qed.

Lemma Release_spec c hs L U e : core c (e :: hs) L U -> links c L U -> released c hs L U e.
Proof. destruct (decide (e ∈ L ++ U)); auto using Release_cached, Release_erased. Qed.

(** ** Taking a handle out of the cache *)

(** Unlinking a handle from the list it is on. *)
Lemma unlink_spec c L U e :
  links c L U -> e ∈ L ++ U ->
  exists c' L' U', LRU_Remove c e = Some c' /\ relinked c c' /\ links c' L' U' /\ L ++ U ≡ₚ e :: L' ++ U' /\
    e ∉ L' ++ U' /\ (forall x, x <> e -> (x ∈ L' <-> x ∈ L) /\ (x ∈ U' <-> x ∈ U)) /\
    (e ∈ L -> L = [] \/ length L = S (length L')) /\ (hd_error L = Some e -> L' = tail L).
Proof.
  intros Hl He. pose proof (links_NoDup _ _ _ Hl) as Hnd. apply elem_of_app in He as [He|He].
  - apply list_elem_of_split in He as (l1 & l2 & ->). rewrite <- app_assoc in Hnd. cbn in Hnd.
    apply NoDup_app in Hnd as (_ & Hd & Hnd). apply NoDup_cons in Hnd as [Hn2 _].
    assert (e ∉ l1) as Hn1 by (intros Hx; apply (Hd e Hx); set_solver).
    destruct (links_remove_lru c l1 e l2 U Hl) as (c' & E & Hr & Hl').
    exists c', (l1 ++ l2), U. split; [done|]. split; [done|]. split; [done|]. split; [solve_Permutation|].
    split; [set_solver|]. split; [set_solver|]. split; [rewrite !length_app; cbn; auto|].
    destruct l1 as [|x l1]; [done|]. cbn. intros [= ->]. set_solver.
  - apply list_elem_of_split in He as (u1 & u2 & ->).
    apply NoDup_app in Hnd as (_ & HdL & Hnd). apply NoDup_app in Hnd as (_ & Hd & Hnd). apply NoDup_cons in Hnd as [Hn2 _].
    assert (e ∉ u1) as Hn1 by (intros Hx; apply (Hd e Hx); set_solver).
    assert (e ∉ L) as HnL by (intros Hx; apply (HdL e Hx); set_solver).
    destruct (links_remove_use c L u1 e u2 Hl) as (c' & E & Hr & Hl').
    exists c', L, (u1 ++ u2). split; [done|]. split; [done|]. split; [done|]. split; [solve_Permutation|].
    split; [set_solver|]. split; [set_solver|]. split; [done|].
    destruct L; [done|]. cbn. intros [= ->]. set_solver.
Qed.

Definition erased_from (c : LRUCache) (hs L U : list nat) (e : nat) (c' : LRUCache) (L' U' : list nat) : Prop :=
  core c' hs L' U' /\ links c' L' U' /\ L ++ U ≡ₚ e :: L' ++ U' /\ e ∉ L' ++ U' /\
  settled c c' /\ table_ c' = table_ c /\ same_keys (L' ++ U') (handles c) (handles c') /\
  (forall x, x <> e -> (x ∈ L' <-> x ∈ L) /\ (x ∈ U' <-> x ∈ U)) /\ (hd_error L = Some e -> L' = tail L).

Lemma FinishErase_spec c hs L U e :
  core c hs L U -> links c L U -> e ∈ L ++ U ->
  exists c' L' U', FinishErase c (Some e) = Some (true, c') /\ erased_from c hs L U e c' L' U'.
Proof.
  intros Hc Hl He. destruct (core_on_list c hs L U e Hc He) as (h & Eh & Hh & Hhash & Hch & Hic & Hrf & HL).
  destruct (unlink_spec c L U e Hl He) as (c1 & L' & U' & E1 & Hr & Hl1 & Hp & Hni & Hx & _ & Hhd).
  destruct (relinked_at _ _ _ _ Hr Eh) as (h1 & Eh1 & Hb1). destruct (body_eq _ _ Hb1) as (B1 & B2 & B3 & B4 & B5 & B6).
  pose proof (core_relinked _ _ _ _ _ Hr Hc) as Hc1. destruct (relinked_frame _ _ Hr) as (Hf1 & Ht1 & Hu1).
  assert (Hsum : charges (handles c1) (L ++ U) = charge h + charges (handles c1) (L' ++ U')).
  { rewrite (charges_perm _ _ _ Hp). unfold charges. cbn [foldr]. by rewrite Eh1, B2. }
  assert (Hnn : 0 <= charges (handles c1) (L' ++ U')).
  { apply (charges_nonneg c1 hs L U); [done|]. intros x Hx'. apply (core_live _ _ _ _ Hc1).
    rewrite app_assoc, elem_of_app. left. rewrite Hp. by apply elem_of_cons; right. }
  pose proof (core_usage _ _ _ _ Hc1) as Hus. pose proof (core_small _ _ _ _ Hc1) as Hsm.
  unfold FinishErase, at_handle. rewrite Eh. cbn [mbind option_bind]. rewrite Hic. cbn [negb].
  rewrite E1. cbn [mbind option_bind]. rewrite (update_at c1 e _ h1 Eh1). cbn [mbind option_bind].
  set (h2 := set_in_cache false h1). set (c2 := set_usage _ _).
  assert (usage_ c2 = charges (handles c1) (L' ++ U')) as Hu2.
  { unfold c2. cbn. rewrite Hus, Hsum. rewrite u64_small; lia. }
  assert (Eh2 : handles c2 !! e = Some h2) by (cbn; by rewrite lookup_insert_eq).
  unfold Unref, at_handle. rewrite Eh2. cbn [mbind option_bind]. change (refs h2) with (refs h1). rewrite B5, Hrf.
  rewrite (proj2 (Z.ltb_lt _ _)) by lia. cbn [negb]. rewrite (update_at c2 e _ h2 Eh2). cbn [mbind option_bind].
  replace (1 + Z.of_nat (held hs e) - 1) with (Z.of_nat (held hs e)) by lia.
  change (in_cache h2) with false. rewrite andb_false_l.
  destruct (Z.eqb_spec (Z.of_nat (held hs e)) 0) as [Hz|Hz]; cbv iota; cbn [mbind option_bind].
  - set (c3 := mkCache _ _ _ _ _ _).
    assert (handles c3 = delete e (handles c1)) as Hd3.
    { unfold c3. cbn [handles set_handles set_usage c2]. by rewrite insert_insert_eq, delete_insert_eq. }
    exists c3, L', U'. split; [done|]. split; [|split; [|split; [done|]; split; [done|]; split; [|split; [done|]; split; [|split; [exact Hx|done]]]]].
    + apply (core_delete c1 c3 hs L U e); [done|done| | |done| |done].
      * intros x Hxe. split; [done|]. by apply Hx.
      * rewrite app_assoc, elem_of_app. intros [?|Hx']; [done|]. apply (held_zero hs e); [lia|done].
      * change (usage_ c3) with (usage_ c2). lia.
    + by apply (links_delete c1 c3 e).
    + eapply settled_trans; [apply frame_settled; exact Hf1|]. apply (free_settled c1 c3 e h1); done.
    + intros x Hx'. rewrite Hd3, lookup_delete_ne by (intros <-; done).
      destruct Hr as (m & -> & Hb). by apply (same_bodies_keys (L' ++ U')).
  - set (c3 := set_handles c2 _).
    assert (c3 = set_usage (set_handles c1 (<[e := set_refs (Z.of_nat (held hs e)) h2]> (handles c1))) (usage_ c2)) as Hc3.
    { unfold c3, c2. cbn [handles set_handles set_usage]. by rewrite insert_insert_eq. }
    exists c3, L', U'. split; [done|]. rewrite Hc3.
    split; [|split; [|split; [done|]; split; [done|]; split; [|split; [done|]; split; [|split; [exact Hx|done]]]]].
    + apply (core_change c1 hs L U e h1); [done|done|done|done| | |done|done|lia].
      * intros x Hxe. split; [done|]. by apply Hx.
      * unfold handle_ok. cbn [h_hash h_key charge in_cache refs set_refs set_in_cache h2]. rewrite B3, B6, B2.
        rewrite decide_False by done. split; [done|]. split; [done|]. split; [done|]. split; [done|lia].
    + by apply (links_update c1 e h1).
    + eapply settled_trans; [apply frame_settled; exact Hf1|]. apply frame_settled. by apply (set_frame c1 e h1).
    + intros x Hx'. cbn [handles set_usage set_handles]. rewrite lookup_insert_ne by (intros <-; done).
      destruct Hr as (m & -> & Hb). by apply (same_bodies_keys (L' ++ U')).
Qed.

(** ** The whole invariant *)

Definition cache_ok (c : LRUCache) (hs L U : list nat) : Prop :=
  core c hs L U /\ links c L U /\ table_ok (handles c) (table_ c) (L ++ U) /\ uniq (handles c) (L ++ U).

(** The key, value, charge and hash of a handle. *)
Lemma infos_at c e h : handles c !! e = Some h -> ~ is_head e -> infos c !! e = Some (info h).
Proof.
  intros He Hh. unfold infos, is_head in *. rewrite lookup_fmap, !lookup_delete_ne, He by (intros <-; tauto). done.
Qed.

Lemma uniq_sub c c' S S' :
  uniq (handles c) S -> infos c' ⊆ infos c -> (forall e, e ∈ S' -> e ∈ S /\ ~ is_head e) -> uniq (handles c') S'.
Proof.
  intros Hu Hi HS e e' h h' He He' Eh Eh' Hk.
  assert (Hg : forall x g, x ∈ S' -> handles c' !! x = Some g -> exists g', handles c !! x = Some g' /\ h_key g' = h_key g).
  { intros x g Hx Eg. destruct (HS x Hx) as [_ Hh]. pose proof (infos_at c' x g Eg Hh) as Ei.
    apply (lookup_weaken _ _ _ _ Ei) in Hi. unfold infos, is_head in *.
    rewrite lookup_fmap, !lookup_delete_ne in Hi by (intros <-; tauto).
    destruct (handles c !! x) as [g'|]; cbn in Hi; [|done]. exists g'. split; [done|]. unfold info in Hi. by simplify_eq. }
  destruct (Hg e h He Eh) as (g & Eg & Hk1), (Hg e' h' He' Eh') as (g' & Eg' & Hk2).
  apply (Hu e e' g g'); [by apply HS|by apply HS|done|done|congruence].
Qed.

Lemma table_ok_perm m t S S' : S ≡ₚ S' -> table_ok m t S -> table_ok m t S'.
Proof.
  intros Hp [(H1 & H2 & H3 & H4) [H5 H6]]. split; [|by rewrite <- Hp]. do 2 (split; [done|]). split; [by rewrite H3|done].
Qed.

Lemma core_set_table c t hs L U : core c hs L U -> core (set_table c t) hs L U.
Proof. by intros []. Qed.

(** Removing a key: nothing to do, or its handle leaves the cache. *)
Lemma remove_key_spec c hs L U key :
  cache_ok c hs L U ->
  (remove_key c key (hf key) = Some (false, c) /\ forall e, e ∈ L ++ U -> ~ has_key (handles c) e key) \/
  (exists e c' L' U', remove_key c key (hf key) = Some (true, c') /\ e ∈ L ++ U /\ has_key (handles c) e key /\
     cache_ok c' hs L' U' /\ L ++ U ≡ₚ e :: L' ++ U' /\ settled c c' /\
     (forall x, x <> e -> (x ∈ L' <-> x ∈ L) /\ (x ∈ U' <-> x ∈ U)) /\ (hd_error L = Some e -> L' = tail L)).
Proof.
  intros (Hc & Hl & Ht & Hun). unfold remove_key.
  pose proof (table_Remove_spec (handles c) (table_ c) (L ++ U) key Ht (core_keys_ok _ _ _ _ Hc Hun)) as Hrm.
  destruct (table_Remove (handles c) (table_ c) key (hf key)) as [[e|] t].
  - right. destruct Hrm as (He & Hk & Ht').
    destruct (FinishErase_spec (set_table c t) hs L U e) as (c' & L' & U' & E & Hc' & Hl' & Hp & Hni & Hs & Et & Hsk & Hx & Hhd);
      [by apply core_set_table|done|done|].
    exists e, c', L', U'. split; [done|]. split; [done|]. split; [done|].
    split; [|split; [done|]; split; [done|]; split; done].
    split; [done|]. split; [done|]. split.
    + rewrite Et. apply (table_ok_same (handles c)); [done|]. by apply Ht'.
    + apply (uniq_sub c c' (L ++ U)); [done|apply Hs|]. intros x Hx'.
      assert (x ∈ L ++ U) by (rewrite Hp; by apply elem_of_cons; right). split; [done|].
      apply (core_live _ _ _ _ Hc). rewrite app_assoc, elem_of_app. by left.
  - left. destruct Hrm as [-> Hno]. split; [|done]. cbn. by destruct c.
Qed.

Lemma not_head c hs L U e : core c hs L U -> e ∈ L ++ U -> ~ is_head e.
Proof. intros Hc He. apply (core_live _ _ _ _ Hc). rewrite app_assoc, elem_of_app. by left. Qed.

(** ** Eviction *)

Lemma evict_oldest_spec c hs old L U :
  cache_ok c hs (old :: L) U ->
  exists c' U', evict_oldest c old = Some c' /\ cache_ok c' hs L U' /\ settled c c' /\
    (forall x, x ∈ U' <-> x ∈ U) /\ (old :: L) ++ U ≡ₚ old :: L ++ U'.
Proof.
  intros Hok. pose proof Hok as (Hc & Hl & Ht & Hun).
  assert (Ho : old ∈ (old :: L) ++ U) by set_solver.
  destruct (core_on_list _ _ _ _ old Hc Ho) as (h & Eh & Hh & Hhash & _ & _ & Hrf & HL).
  unfold evict_oldest, at_handle. rewrite Eh. cbn [mbind option_bind].
  assert (held hs old = 0%nat) as Hz by (apply HL; set_solver).
  rewrite Hrf, Hz, Hhash. change (1 + Z.of_nat 0 =? 1) with true. cbn [negb].
  destruct (remove_key_spec c hs (old :: L) U (h_key h) Hok) as [[_ Hno]|(e & c' & L' & U' & E & He & (he & Ehe & Hke) & Hok' & Hp & Hs & Hx & Hhd)].
  - exfalso. apply (Hno old Ho). by exists h.
  - assert (e = old) as -> by (by apply (Hun e old he h)).
    rewrite E. cbn [mbind option_bind]. rewrite (Hhd eq_refl) in *. cbn [tail] in *.
    exists c', U'. split; [done|]. split; [done|]. split; [done|]. split; [|done].
    intros x. destruct (decide (x = old)) as [->|Hne]; [|by apply Hx].
    pose proof (links_NoDup _ _ _ Hl) as Hnd. cbn in Hnd. rewrite Hp in Hnd.
    apply NoDup_cons in Hnd as [Hn _]. split; [set_solver|]. intros HU.
    pose proof (links_NoDup _ _ _ Hl) as Hnd'. cbn in Hnd'. apply NoDup_cons in Hnd' as [Hn' _]. set_solver.
Qed.

Lemma lru_first c L U : links c L U -> exists h, handles c !! lru_ = Some h /\ next h = hd lru_ L.
Proof.
  intros (Hr & _). unfold ring in Hr. destruct L as [|e L]; cbn [app] in Hr;
    rewrite path_cons in Hr; destruct Hr as (HN & _); by apply NX_Some in HN.
Qed.

Lemma evict_loop_spec more fuel c hs L U :
  cache_ok c hs L U -> (length L < fuel)%nat ->
  exists c' n U', evict_loop more fuel c = Some c' /\ cache_ok c' hs (drop n L) U' /\ settled c c' /\
    (forall x, x ∈ U' <-> x ∈ U) /\ (drop n L = [] \/ more c' = false).
Proof.
  revert c L U. induction fuel as [|fuel IH]; intros c L U Hok Hf; [lia|]. cbn [evict_loop].
  destruct (lru_first c L U) as (h & Eh & Hn); [apply Hok|].
  unfold at_handle. rewrite Eh. cbn [mbind option_bind]. rewrite Hn.
  destruct (more c) eqn:Em; cbn [andb].
  2:{ exists c, 0%nat, U. split; [done|]. split; [done|]. split; [apply settled_refl|]. split; [done|by right]. }
  destruct L as [|old L]; cbn [hd].
  { rewrite Nat.eqb_refl. exists c, 0%nat, U. split; [done|]. split; [done|]. split; [apply settled_refl|]. split; [done|by left]. }
  assert (old <> lru_) as Hne.
  { intros ->. apply (not_head c hs (lru_ :: L) U lru_); [apply Hok|set_solver|by left]. }
  rewrite (proj2 (Nat.eqb_neq _ _) Hne). cbn [negb].
  destruct (evict_oldest_spec c hs old L U Hok) as (c1 & U1 & -> & Hok1 & Hs1 & HU1 & _). cbn [mbind option_bind].
  destruct (IH c1 L U1 Hok1) as (c' & n & U' & E & Hok' & Hs' & HU' & Hend); [cbn in Hf; lia|].
  exists c', (S n), U'. split; [done|]. split; [done|]. split; [by eapply settled_trans|].
  split; [|done]. intros x. by rewrite HU'.
Qed.

(** The number of handles bounds the length of the lists. *)
Lemma lru_length c hs L U : cache_ok c hs L U -> (length L < S (size (handles c)))%nat.
Proof.
  intros (Hc & Hl & _). pose proof (links_NoDup _ _ _ Hl) as Hnd. apply NoDup_app in Hnd as (Hnd & _ & _).
  assert (size (list_to_set L : gset nat) <= size (dom (handles c)))%nat as Hle.
  { apply subseteq_size. intros e He. apply elem_of_list_to_set in He. apply elem_of_dom.
    apply (core_live _ _ _ _ Hc). set_solver. }
  rewrite size_list_to_set in Hle by done. rewrite size_dom in Hle. lia.
Qed.

(** ** The public operations *)

Lemma Lookup_spec c hs L U key :
  cache_ok c hs L U -> Z.of_nat (length hs) + 2 < 2 ^ 32 ->
  exists r c' L' U', LRU_Lookup c key (hf key) = Some (r, c') /\ frame c c' /\
    match r with
    | None => c' = c /\ L' = L /\ U' = U /\ forall e, e ∈ L ++ U -> ~ has_key (handles c) e key
    | Some e => e ∈ L ++ U /\ has_key (handles c) e key /\ L' ++ U' ≡ₚ L ++ U /\ cache_ok c' (e :: hs) L' U'
    end /\ usage_ c' = usage_ c.
Proof.
  intros (Hc & Hl & Ht & Hun) Hlen. unfold LRU_Lookup.
  pose proof (table_Lookup_spec (handles c) (table_ c) (L ++ U) key Ht (core_keys_ok _ _ _ _ Hc Hun)) as Hlk.
  destruct (table_Lookup (handles c) (table_ c) key (hf key)) as [e|].
  - destruct Hlk as [He Hk]. destruct (LRU_Ref_spec c hs L U e Hc Hl He Hlen) as (c' & L' & U' & E & Hc' & Hl' & Hp & Hf & Et & Hu).
    rewrite E. cbn [mbind option_bind]. exists (Some e), c', L', U'. split; [done|]. split; [done|]. split; [|done].
    split; [done|]. split; [done|]. split; [done|]. split; [done|]. split; [done|]. split.
    + rewrite Et. apply (table_ok_perm _ _ (L ++ U)); [by rewrite Hp|]. apply (table_ok_same (handles c)); [|done].
      intros x Hx. pose proof (not_head _ _ _ _ _ Hc Hx) as Hh. destruct (core_live _ _ _ _ Hc x) as [[h Eh] _];
        [rewrite app_assoc, elem_of_app; by left|].
      destruct (core_live _ _ _ _ Hc' x) as [[h' Eh'] _]; [rewrite app_assoc, elem_of_app; left; by rewrite Hp|].
      pose proof (infos_at c x h Eh Hh) as I1. pose proof (infos_at c' x h' Eh' Hh) as I2.
      destruct Hf as (Hi & _). rewrite Hi, I1 in I2. rewrite Eh, Eh'. unfold info in I2. injection I2 as ? ? ? I2. by cbn; rewrite I2.
    + apply (uniq_sub c c' (L ++ U)); [done|by destruct Hf as (-> & _)|]. intros x Hx. rewrite Hp in Hx.
      split; [done|]. by apply (not_head c hs L U).
  - exists None, c, L, U. split; [done|]. split; [done|]. done.
Qed.

Lemma Release_ok c hs L U e :
  cache_ok c (e :: hs) L U ->
  exists c' L' U', Release c e = Some c' /\ cache_ok c' hs L' U' /\ L' ++ U' ≡ₚ L ++ U /\ settled c c' /\ usage_ c' = usage_ c.
Proof.
  intros (Hc & Hl & Ht & Hun).
  destruct (Release_spec c hs L U e Hc Hl) as (c' & L' & U' & E & Hc' & Hl' & Hp & Hs & Et & Hu & Hsk).
  exists c', L', U'. split; [done|]. split; [|done]. split; [done|]. split; [done|]. split.
  - rewrite Et. apply (table_ok_perm _ _ (L ++ U)); [by rewrite Hp|]. by apply (table_ok_same (handles c)).
  - apply (uniq_sub c c' (L ++ U)); [done|apply Hs|]. intros x Hx. rewrite Hp in Hx. split; [done|].
    by apply (not_head c (e :: hs) L U).
Qed.

(** ** Insertion *)

Lemma fresh_handle c hs L U :
  core c hs L U -> links c L U ->
  handles c !! malloc_next c = None /\ ~ is_head (malloc_next c) /\ malloc_next c ∉ L ++ U ++ hs.
Proof.
  intros Hc Hl.
  assert (Hno : forall e, is_Some (handles c !! e) -> e <> malloc_next c)
    by (intros e He ->; pose proof (core_fresh _ _ _ _ Hc _ He); lia).
  split; [|split].
  - destruct (handles c !! malloc_next c) eqn:E; [|done]. exfalso. eapply Hno; [|done]. by rewrite E.
  - destruct (lru_first c L U Hl) as (h & Eh & _).
    destruct Hl as (_ & Hr & _). destruct (ring_last _ _ _ _ Hr) as (p & HP & _). apply PV_Some in HP as (h' & Eh' & _).
    intros [Hx|Hx]; symmetry in Hx; revert Hx; apply Hno; by eexists.
  - intros He. destruct (core_live _ _ _ _ Hc _ He) as [Hx _]. by apply (Hno _ Hx).
Qed.

Lemma held_fresh hs e : e ∉ hs -> held hs e = 0%nat.
Proof. intros He. unfold held. apply count_occ_not_In. by rewrite <- list_elem_of_In. Qed.

Lemma core_alloc c hs L U h U2 u :
  core c hs L U -> links c L U -> let e := malloc_next c in
  handle_ok (e :: hs) L U2 e h -> (forall x, x <> e -> x ∈ U2 <-> x ∈ U) ->
  u = charges (<[e := h]> (handles c)) (L ++ U2) -> u < 2 ^ 64 ->
  core (mkCache (capacity_ c) u (<[e := h]> (handles c)) (table_ c) (S e) (deleted c)) (e :: hs) L U2.
Proof.
  intros Hc Hl e Hok HU Hu Hlt. destruct (fresh_handle c hs L U Hc Hl) as (Hf & Hh & Hn). fold e in Hf, Hh, Hn.
  destruct Hc as [H1 H2 H4 H5 H6]. split; cbn [handles usage_ malloc_next].
  - intros x hx Ex Hnh. destruct (decide (x = e)) as [->|Hne]; [rewrite lookup_insert_eq in Ex; by simplify_eq|].
    rewrite lookup_insert_ne in Ex by done. pose proof (H1 x hx Ex Hnh) as Ho. unfold handle_ok in *.
    rewrite <- (held_cons_ne e hs x Hne). destruct Ho as (? & ? & Ho). split; [done|]. split; [done|].
    rewrite (decide_ext (x ∈ L ++ U2) (x ∈ L ++ U)) by (rewrite !elem_of_app, HU by done; done). done.
  - intros x Hx. destruct (decide (x = e)) as [->|Hne]; [split; [rewrite lookup_insert_eq; by eexists|done]|].
    rewrite lookup_insert_ne by done. apply H2. rewrite !elem_of_app, elem_of_cons, HU in Hx by done.
    rewrite !elem_of_app. naive_solver.
  - done.
  - lia.
  - intros x [hx Ex]. destruct (decide (x = e)) as [->|Hne]; [lia|]. rewrite lookup_insert_ne in Ex by done.
    pose proof (H6 x ltac:(by eexists)). unfold e. lia.
Qed.

Lemma charges_insert m e h S : e ∉ S -> charges (<[e := h]> m) S = charges m S.
Proof.
  unfold charges. induction S as [|x S IH]; intros He; cbn [foldr]; [done|].
  rewrite IH by set_solver. f_equal. rewrite lookup_insert_ne; [done|]. set_solver.
Qed.

Lemma charges_app m S S' : charges m (S ++ S') = charges m S + charges m S'.
Proof. unfold charges. induction S as [|x S IH]; cbn [app foldr]; lia. Qed.

(** The accounts after an allocation. *)
Lemma infos_insert c e h :
  ~ is_head e -> forall cap u t n dl,
  infos (mkCache cap u (<[e := h]> (handles c)) t n dl) = <[e := info h]> (infos c).
Proof.
  intros Hh cap u t n dl. unfold infos, is_head in *. cbn [handles].
  rewrite !delete_insert_ne by (intros <-; tauto). by rewrite fmap_insert.
Qed.

Definition inserted_one (c c' : LRUCache) (e : nat) (key : bytes) (v charge : Z) : Prop :=
  capacity_ c' = capacity_ c /\ malloc_next c' = S e /\
  infos c' ⊆ <[e := (key, v, charge, hf key)]> (infos c) /\
  deleted c' ++ pairs (infos c') ≡ₚ (key, v) :: deleted c ++ pairs (infos c).

Lemma inserted_settled c c0 c' e key v ch :
  inserted_one c c0 e key v ch -> settled c0 c' -> inserted_one c c' e key v ch.
Proof.
  intros (A1 & A2 & A3 & A4) (B1 & B2 & B3 & B4). split; [congruence|]. split; [congruence|].
  split; [by etrans|]. by rewrite B4.
Qed.

Lemma alloc_inserted c u e h :
  handles c !! e = None -> ~ is_head e -> h_hash h = hf (h_key h) ->
  inserted_one c (mkCache (capacity_ c) u (<[e := h]> (handles c)) (table_ c) (S e) (deleted c)) e
    (h_key h) (value h) (charge h).
Proof.
  intros Hf Hh Hhash. split; [done|]. split; [done|]. rewrite infos_insert by done.
  assert (info h = (h_key h, value h, charge h, hf (h_key h))) as Hi by (unfold info; by rewrite Hhash).
  split; [by rewrite Hi|]. cbn [deleted].
  assert (infos c !! e = None) as Hn.
  { unfold infos, is_head in *. rewrite lookup_fmap, !lookup_delete_ne, Hf by (intros <-; tauto). done. }
  unfold pairs. rewrite map_to_list_insert by done. cbn. solve_Permutation.
Qed.

(** Uniqueness of keys only looks at the recorded keys. *)
Lemma uniq_infos c c' S S' :
  uniq (handles c) S -> (forall e, e ∈ S' -> e ∈ S /\ ~ is_head e /\ infos c' !! e = infos c !! e) ->
  uniq (handles c') S'.
Proof.
  intros Hu HS e e' h h' He He' Eh Eh' Hk.
  assert (Hg : forall x g, x ∈ S' -> handles c' !! x = Some g -> exists g', handles c !! x = Some g' /\ h_key g' = h_key g).
  { intros x g Hx Eg. destruct (HS x Hx) as (_ & Hh & Hi). rewrite (infos_at c' x g Eg Hh) in Hi.
    unfold infos, is_head in *. rewrite lookup_fmap, !lookup_delete_ne in Hi by (intros <-; tauto).
    destruct (handles c !! x) as [g'|]; cbn in Hi; [|done]. exists g'. split; [done|]. unfold info in Hi. by simplify_eq. }
  destruct (Hg e h He Eh) as (g & Eg & Hk1), (Hg e' h' He' Eh') as (g' & Eg' & Hk2).
  apply (Hu e e' g g'); [by apply HS|by apply HS|done|done|congruence].
Qed.

(** The state after the new handle has been linked and charged for. *)
Definition linked_in (c : LRUCache) (h : LRUHandle) (hs L U : list nat) (c2 : LRUCache) : Prop :=
  let e := malloc_next c in
  core c2 (e :: hs) L (U ++ [e]) /\ links c2 L (U ++ [e]) /\ table_ c2 = table_ c /\
  inserted_one c c2 e (h_key h) (value h) (charge h) /\
  (forall x, x <> e -> body <$> handles c2 !! x = body <$> handles c !! x) /\
  (exists h', handles c2 !! e = Some h' /\ body h' = body h).

Lemma link_new_spec c hs L U h :
  core c hs L U -> links c L U -> let e := malloc_next c in
  h_hash h = hf (h_key h) -> 0 <= charge h -> in_cache h = true -> refs h = 2 -> usage_ c + charge h < 2 ^ 64 ->
  exists c1,
    LRU_Append (mkCache (capacity_ c) (usage_ c) (<[e := h]> (handles c)) (table_ c) (S e) (deleted c)) in_use_ e = Some c1 /\
    linked_in c h hs L U (set_usage c1 (u64 (usage_ c1 + charge h))).
Proof.
  intros Hc Hl e Hhash Hch Hic Hrf Hsm. destruct (fresh_handle c hs L U Hc Hl) as (Hf & Hh & Hn). fold e in Hf, Hh, Hn.
  assert (e ∉ L ++ U) as Hn2 by (rewrite !elem_of_app in *; tauto).
  set (c0 := mkCache _ _ _ _ _ _).
  assert (links c0 L U) as Hl0 by (by apply (links_insert_frame c c0 e h)).
  destruct (links_append_use c0 L U e h Hl0) as (c1 & E & Hr & Hl1); [unfold c0; cbn; apply lookup_insert_eq|done|done|].
  exists c1. split; [done|].
  assert (usage_ c1 = usage_ c) as Hu1 by (by destruct (relinked_frame _ _ Hr) as (_ & _ & ->)).
  pose proof (charges_nonneg c hs L U (L ++ U) Hc (fun x Hx => not_head c hs L U x Hc Hx)) as Hnn.
  rewrite <- (core_usage _ _ _ _ Hc) in Hnn. rewrite Hu1, u64_small by lia.
  set (c2 := set_usage c1 _).
  assert (relinked (set_usage c0 (usage_ c + charge h)) c2) as Hr2.
  { destruct Hr as (m & -> & Hb). exists m. split; [done|]. exact Hb. }
  split; [|split; [exact Hl1|split; [by destruct (relinked_frame _ _ Hr2) as (_ & -> & _)|split; [|split]]]].
  - apply (core_relinked _ _ _ _ _ Hr2). apply (core_alloc c hs L U h (U ++ [e]) (usage_ c + charge h)); [done|done| | | |done].
    + unfold handle_ok. split; [done|]. split; [done|]. rewrite decide_True by set_solver.
      fold e. rewrite held_self, held_fresh, Hic, Hrf by (rewrite !elem_of_app in Hn; tauto).
      split; [done|]. split; [done|]. split; [|done]. intros; exfalso. apply Hn2. set_solver.
    + intros x Hx. fold e in Hx |- *. rewrite elem_of_app, list_elem_of_singleton. tauto.
    + fold e. rewrite app_assoc, charges_app, charges_insert, (core_usage _ _ _ _ Hc) by done.
      unfold charges at 3. cbn [foldr]. rewrite lookup_insert_eq. lia.
  - eapply inserted_settled; [|apply frame_settled, (proj1 (relinked_frame _ _ Hr2))]. exact (alloc_inserted c (usage_ c + charge h) e h Hf Hh Hhash).
  - intros x Hx. destruct Hr2 as (m & E2 & Hb). rewrite E2. cbn [handles set_handles]. rewrite Hb. cbn [handles set_usage c0].
    by rewrite lookup_insert_ne.
  - destruct (relinked_at _ _ e h Hr2) as (h' & Eh' & Hb'); [unfold c0; cbn; apply lookup_insert_eq|]. by exists h'.
Qed.

End Keys.
