(* ===== verification/CacheClient.v ===== *)
(** * The cache for its clients

    What a client of [util/cache.cc] may rely on, as an abstract machine over the
    handles it holds and the entry each key last got, and the proof that the cache
    of [Cache] refines it: no sequence of calls that releases only held handles
    runs into undefined behaviour or a failed assertion, a held handle keeps its
    key and value, a lookup only ever finds the entry last inserted, and the
    deleter runs exactly once for every entry, never while it is held. *)

From S2P Require Import Prelude Slice Coding Bloom Cache CacheSpec.

Section Client.

(** The hash function. *)
Context (hf : bytes -> Z) (Hhf : forall k, 0 <= hf k < 2 ^ 32).

Notation core := (core hf).
Notation cache_ok := (cache_ok hf).
Notation inserted_one := (inserted_one hf).

(** ** Insertion *)

Lemma body_info (o o' : option LRUHandle) : body <$> o' = body <$> o -> info <$> o' = info <$> o.
Proof.
  destruct o as [h|], o' as [h'|]; intros Hb; try done. apply (inj Some) in Hb.
  destruct (body_eq _ _ Hb) as (E1 & E2 & E3 & _ & _ & E6). cbn. unfold info. congruence.
Qed.

Lemma info_at (m m' : gmap nat LRUHandle) x h' :
  info <$> m' !! x = info <$> m !! x -> m' !! x = Some h' -> exists h, m !! x = Some h /\ info h = info h'.
Proof.
  intros Hi E. rewrite E in Hi. destruct (m !! x) as [h|]; [|done]. apply (inj Some) in Hi. by exists h.
Qed.

Lemma info_key h h' : info h = info h' -> h_key h = h_key h' /\ h_hash h = h_hash h'.
Proof. unfold info. intros [= ? ? ? ?]. done. Qed.

Lemma linked_table c h hs L U c2 :
  cache_ok c hs L U -> linked_in hf c h hs L U c2 ->
  table_ok (handles c2) (table_ c) (L ++ U) /\ keys_ok hf (handles c2) (L ++ U) /\
  (forall x, x ∈ L ++ U -> x <> malloc_next c) /\
  (forall x, x ∈ L ++ U -> infos c2 !! x = infos c !! x) /\
  (forall x key, x ∈ L ++ U -> has_key (handles c2) x key <-> has_key (handles c) x key).
Proof.
  intros (Hc & Hl & Ht & Hun) (Hc2 & Hl2 & Et & Hio & Hb & He).
  destruct (fresh_handle hf c hs L U Hc Hl) as (Hf & Hh & Hn).
  assert (Hx : forall x, x ∈ L ++ U -> x <> malloc_next c).
  { intros x Hx ->. apply Hn. rewrite !elem_of_app in *. tauto. }
  assert (Hm : forall x, x ∈ L ++ U -> info <$> handles c2 !! x = info <$> handles c !! x)
    by (intros x Hxx; by apply body_info, Hb, Hx).
  assert (Hi : forall x, x ∈ L ++ U -> infos c2 !! x = infos c !! x).
  { intros x Hxx. pose proof (not_head hf _ _ _ _ _ Hc Hxx) as Hhx. unfold infos, is_head in *.
    rewrite !lookup_fmap, !lookup_delete_ne by (intros <-; tauto). by apply Hm. }
  split; [|split; [|split; [done|split; [done|]]]].
  - apply (table_ok_same (handles c)); [|done]. intros x Hxx. specialize (Hm x Hxx).
    destruct (handles c2 !! x), (handles c !! x); try done. apply (inj Some), info_key in Hm as [_ Hm]. cbn. by f_equal.
  - split.
    + intros x Hxx. destruct (core_on_list hf _ _ _ _ x Hc2) as (hx & ? & _ & ? & _); [|by exists hx].
      rewrite !elem_of_app in *. tauto.
    + apply (uniq_infos c c2 (L ++ U)); [done|]. intros x Hxx. split; [done|].
      split; [by apply (not_head hf c hs L U)|by apply Hi].
  - intros x key Hxx. specialize (Hm x Hxx). split; intros (g & Eg & <-).
    + destruct (info_at _ _ _ _ Hm Eg) as (g' & Eg' & Hg). apply info_key in Hg as [Hg _]. by exists g'.
    + destruct (info_at _ _ _ _ (eq_sym Hm) Eg) as (g' & Eg' & Hg). apply info_key in Hg as [Hg _]. by exists g'.
Qed.

(** What the caching branch leaves: the new entry, and no other of its key. *)
Definition cached_new (c : LRUCache) (key : bytes) (L U : list nat) (L' U' : list nat) : Prop :=
  let e := malloc_next c in
  e ∈ U' /\ (forall x, x ∈ L' ++ U' -> x = e \/ x ∈ L ++ U /\ ~ has_key (handles c) x key) /\
  (forall x, x ∈ U -> ~ has_key (handles c) x key -> x ∈ U').

Lemma uniq_new c2 h hs L U e S S' :
  core c2 hs L U -> handles c2 !! e = Some h -> uniq (handles c2) S ->
  (forall x, x ∈ S' -> x = e \/ x ∈ S /\ ~ has_key (handles c2) x (h_key h)) -> uniq (handles c2) S'.
Proof.
  intros Hc Eh Hu HS x y hx hy Hx Hy Ex Ey Hk.
  destruct (HS x Hx) as [->|[Hx' Hnx]], (HS y Hy) as [->|[Hy' Hny]]; [done| | |by apply (Hu x y hx hy)].
  - exfalso. apply Hny. exists hy. split; [done|congruence].
  - exfalso. apply Hnx. exists hx. split; [done|congruence].
Qed.

(** Putting the new handle in the table, when its key had no entry. *)
Lemma insert_absent c h hs L U c2 t :
  cache_ok c hs L U -> linked_in hf c h hs L U c2 ->
  (forall x, x ∈ L ++ U -> ~ has_key (handles c2) x (h_key h)) ->
  table_ok (handles c2) t (malloc_next c :: L ++ U) ->
  cache_ok (set_table c2 t) (malloc_next c :: hs) L (U ++ [malloc_next c]) /\
  cached_new c (h_key h) L U L (U ++ [malloc_next c]).
Proof.
  intros Hok Hli Hno Ht. destruct (linked_table c h hs L U c2 Hok Hli) as (_ & [_ Hk] & Hne & _ & Hkey).
  destruct Hli as (Hc2 & Hl2 & Et & Hio & Hb & (h' & Eh' & Hb')). destruct (body_eq _ _ Hb') as (_ & _ & Hkk & _).
  assert (Hmem : forall x, x ∈ L ++ U ++ [malloc_next c] -> x = malloc_next c \/ x ∈ L ++ U).
  { intros x Hx. rewrite !elem_of_app, list_elem_of_singleton in *. tauto. }
  split; [split; [by apply core_set_table|split; [done|split]]|split; [|split]].
  - apply (table_ok_perm _ _ (malloc_next c :: L ++ U)); [|done]. rewrite app_assoc. apply Permutation_cons_append.
  - apply (uniq_new c2 h' (malloc_next c :: hs) L (U ++ [malloc_next c]) (malloc_next c) (L ++ U)); [done|done|exact Hk|].
    intros x Hx. destruct (Hmem x Hx); [by left|right]. split; [done|]. rewrite Hkk. by apply Hno.
  - apply elem_of_app. right. by apply list_elem_of_singleton.
  - intros x Hx. destruct (Hmem x Hx); [by left|right]. split; [done|]. rewrite <- Hkey by done. by apply Hno.
  - intros x Hx _. apply elem_of_app. by left.
Qed.

(** Putting the new handle in the table in place of [old], which leaves. *)
Lemma insert_replace c h hs L U c2 t old :
  cache_ok c hs L U -> linked_in hf c h hs L U c2 ->
  old ∈ L ++ U -> has_key (handles c2) old (h_key h) ->
  (forall S', L ++ U ≡ₚ old :: S' -> table_ok (handles c2) t (malloc_next c :: S')) ->
  exists c' L' U', FinishErase (set_table c2 t) (Some old) = Some (true, c') /\
    cache_ok c' (malloc_next c :: hs) L' U' /\ settled c2 c' /\ cached_new c (h_key h) L U L' U'.
Proof.
  intros Hok Hli Hold Hko Ht. destruct (linked_table c h hs L U c2 Hok Hli) as (_ & [_ Hk] & Hne & _ & Hkey).
  destruct Hli as (Hc2 & Hl2 & Et & Hio & Hb & (h' & Eh' & Hb')). destruct (body_eq _ _ Hb') as (_ & _ & Hkk & _).
  set (e := malloc_next c) in *.
  destruct (FinishErase_spec hf Hhf (set_table c2 t) (e :: hs) L (U ++ [e]) old)
    as (c' & L' & U' & E & Hc' & Hl' & Hp & Hni & Hs & Et' & Hsk & Hx & _);
    [by apply core_set_table|done|rewrite !elem_of_app in *; tauto|].
  exists c', L', U'. split; [done|].
  destruct (list_elem_of_split _ _ Hold) as (S1 & S2 & HS).
  assert (Hperm : L ++ U ≡ₚ old :: S1 ++ S2) by (rewrite HS; solve_Permutation).
  assert (HLU : L' ++ U' ≡ₚ e :: S1 ++ S2).
  { apply (Permutation_cons_inv (a := old)). rewrite <- Hp, app_assoc, Hperm. solve_Permutation. }
  assert (Hnd : old ∉ S1 ++ S2).
  { pose proof (links_NoDup _ _ _ (proj1 (proj2 Hok))) as Hnd. rewrite Hperm in Hnd. by apply NoDup_cons in Hnd as [? _]. }
  assert (Hmem : forall x, x ∈ L' ++ U' -> x = e \/ x ∈ L ++ U /\ ~ has_key (handles c2) x (h_key h)).
  { intros x. rewrite HLU, elem_of_cons. intros [?|Hxs]; [by left|right].
    assert (x ∈ L ++ U) as Hxl by (rewrite Hperm; by apply elem_of_cons; right). split; [done|].
    intros (hx & Ex & Hkx). destruct Hko as (ho & Eo & Hko).
    apply Hnd. by rewrite <- (Hk x old hx ho Hxl Hold Ex Eo ltac:(congruence)). }
  split; [split; [done|split; [done|split]]|split; [done|split; [|split]]].
  - rewrite Et'. apply (table_ok_same (handles c2)); [done|]. apply (table_ok_perm _ _ (e :: S1 ++ S2)); [by rewrite HLU|].
    by apply Ht.
  - apply (uniq_sub c2 c' (L' ++ U')); [|apply Hs|intros x Hx'; split; [done|by apply (not_head hf c' (e :: hs) L' U')]].
    apply (uniq_new c2 h' (e :: hs) L (U ++ [e]) e (L ++ U)); [done|done|exact Hk|]. intros x Hx'. rewrite Hkk. by apply Hmem.
  - apply Hx; [intros Heq; by apply (Hne old)|]. apply elem_of_app. right. by apply list_elem_of_singleton.
  - intros x Hx'. destruct (Hmem x Hx') as [?|[H1 H2]]; [by left|right]. by rewrite <- Hkey.
  - intros x HxU Hnk. apply Hx; [|apply elem_of_app; by left]. intros ->. apply Hnk.
    by rewrite <- Hkey.
Qed.

(** The caching branch of [Insert]. *)
Lemma insert_cached c hs L U h :
  cache_ok c hs L U -> let e := malloc_next c in
  h_hash h = hf (h_key h) -> 0 <= charge h -> in_cache h = true -> refs h = 2 ->
  usage_ c + charge h < 2 ^ 64 -> Z.of_nat (length (L ++ U)) + 1 < 2 ^ 31 ->
  exists c' L' U',
    (c1 ← LRU_Append (mkCache (capacity_ c) (usage_ c) (<[e := h]> (handles c)) (table_ c) (S e) (deleted c)) in_use_ e;
     let c1 := set_usage c1 (u64 (usage_ c1 + charge h)) in
     '(old, t) ← table_Insert (handles c1) (table_ c1) e (h_key h) (h_hash h);
     '(_, c1) ← FinishErase (set_table c1 t) old;
     Some c1) = Some c' /\
    cache_ok c' (e :: hs) L' U' /\ inserted_one c c' e (h_key h) (value h) (charge h) /\
    cached_new c (h_key h) L U L' U'.
Proof.
  intros Hok e Hhash Hch Hic Hrf Hus Hlen.
  destruct (link_new_spec hf Hhf c hs L U h) as (c1 & E1 & Hli); try done; [apply Hok..|].
  fold e in E1. rewrite E1. cbn [mbind option_bind]. cbv zeta. set (c2 := set_usage c1 _) in *.
  destruct (linked_table c h hs L U c2 Hok Hli) as (Ht & Hk & _ & _ & _).
  pose proof Hli as (_ & _ & Et & Hio & _ & (h' & Eh' & Hb')).
  destruct (body_eq _ _ Hb') as (_ & _ & Hkk & _ & _ & Hhh).
  pose proof (table_Insert_spec hf Hhf (handles c2) (table_ c) (L ++ U) e h' Ht Hk Eh' ltac:(congruence) Hlen) as Hins.
  rewrite Hkk in Hins. rewrite Et, Hhash.
  destruct (table_Insert (handles c2) (table_ c) e (h_key h) (hf (h_key h))) as [[[old|] t]|]; [| |done];
    cbn [mbind option_bind].
  - destruct Hins as (Hold & Hko & Ht').
    destruct (insert_replace c h hs L U c2 t old Hok Hli Hold Hko Ht') as (c' & L' & U' & -> & Hok' & Hs & Hnew).
    cbn [mbind option_bind]. exists c', L', U'. split; [done|]. split; [done|]. split; [|done].
    by eapply (inserted_settled hf).
  - destruct Hins as (Hno & Ht'). destruct (insert_absent c h hs L U c2 t Hok Hli Hno Ht') as (Hok' & Hnew).
    cbn [FinishErase mbind option_bind]. eexists _, _, _. split; [done|]. split; [exact Hok'|]. split; [exact Hio|done].
Qed.

(** The other branch: the handle is the caller's alone. *)
Lemma insert_uncached c hs L U h :
  cache_ok c hs L U -> let e := malloc_next c in
  h_hash h = hf (h_key h) -> 0 <= charge h -> in_cache h = false -> refs h = 1 ->
  let c' := mkCache (capacity_ c) (usage_ c) (<[e := h]> (handles c)) (table_ c) (S e) (deleted c) in
  cache_ok c' (e :: hs) L U /\ inserted_one c c' e (h_key h) (value h) (charge h) /\ e ∉ L ++ U.
Proof.
  intros (Hc & Hl & Ht & Hun) e Hhash Hch Hic Hrf c'. destruct (fresh_handle hf c hs L U Hc Hl) as (Hf & Hh & Hn).
  fold e in Hf, Hh, Hn. assert (e ∉ L ++ U) as Hn2 by (rewrite !elem_of_app in *; tauto).
  assert (Hi : forall x, x ∈ L ++ U -> handles c' !! x = handles c !! x).
  { intros x Hx. cbn. rewrite lookup_insert_ne; [done|]. by intros <-. }
  split; [split; [|split; [by apply (links_insert_frame c c' e h)|split]]|split; [by apply (alloc_inserted hf)|done]].
  - apply (core_alloc hf Hhf c hs L U h U); [done|done| |done| |].
    + unfold handle_ok. split; [done|]. split; [done|]. fold e. rewrite decide_False by done.
      rewrite held_self, held_fresh, Hic, Hrf by (rewrite !elem_of_app in Hn; tauto). split; [done|]. split; [done|lia].
    + fold e. rewrite (charges_insert hf Hhf) by done. apply (core_usage _ _ _ _ _ Hc).
    + rewrite (core_usage _ _ _ _ _ Hc). apply (core_small _ _ _ _ _ Hc).
  - apply (table_ok_same (handles c)); [|done]. intros x Hx. by rewrite Hi.
  - intros x y hx hy Hx Hy. rewrite !Hi by done. by apply Hun.
Qed.

Lemma LRU_Insert_spec c hs L U key v ch :
  cache_ok c hs L U -> 0 <= ch -> usage_ c + ch < 2 ^ 64 -> Z.of_nat (length (L ++ U)) + 1 < 2 ^ 31 ->
  let e := malloc_next c in
  exists c' L' U', LRU_Insert c key (hf key) v ch = Some (e, c') /\ cache_ok c' (e :: hs) L' U' /\
    inserted_one c c' e key v ch /\ (0 < capacity_ c <-> e ∈ L' ++ U') /\
    (forall x, x ∈ L' ++ U' -> x = e \/ x ∈ L ++ U /\ (0 < capacity_ c -> ~ has_key (handles c) x key)) /\
    (forall x, x ∈ U -> (0 < capacity_ c -> ~ has_key (handles c) x key) -> x ∈ U') /\
    (L' = [] \/ usage_ c' <= capacity_ c').
Proof.
  intros Hok Hch Hus Hlen e. unfold LRU_Insert. fold e.
  assert (Hev : forall c1 L1 U1, cache_ok c1 (e :: hs) L1 U1 ->
    exists c' n U', evict_loop over_capacity (S (size (handles c1))) c1 = Some c' /\
      cache_ok c' (e :: hs) (drop n L1) U' /\ settled c1 c' /\ (forall x, x ∈ U' <-> x ∈ U1) /\
      (drop n L1 = [] \/ usage_ c' <= capacity_ c')).
  { intros c1 L1 U1 Hok1. destruct (evict_loop_spec hf Hhf over_capacity (S (size (handles c1))) c1 (e :: hs) L1 U1)
      as (c' & n & U' & E & Hok' & Hs & HU & Hend); [done|by apply (lru_length hf Hhf _ (e :: hs) L1 U1)|].
    exists c', n, U'. split; [done|]. split; [done|]. split; [done|]. split; [done|].
    destruct Hend as [?|Hend]; [by left|right]. unfold over_capacity in Hend. by apply Z.ltb_ge in Hend. }
  assert (Hdrop : forall n (l : list nat) x, x ∈ drop n l -> x ∈ l).
  { intros n l x Hx. rewrite <- (take_drop n l), elem_of_app. by right. }
  destruct (Z.ltb_spec 0 (capacity_ c)) as [Hcap|Hcap].
  - destruct (insert_cached c hs L U (mkHandle v 0 0 ch key true 2 (hf key))) as (c1 & L1 & U1 & E1 & Hok1 & Hio & He & Hm & HU1); try done.
    cbn [h_key h_hash value charge] in E1. fold e in E1. rewrite E1. cbn [mbind option_bind].
    destruct (Hev c1 L1 U1 Hok1) as (c' & n & U' & -> & Hok' & Hs & HU & Hend). cbn [mbind option_bind].
    exists c', (drop n L1), U'. split; [done|]. split; [done|]. split; [by eapply (inserted_settled hf)|].
    split; [|split; [|split; [|done]]].
    + split; [intros _|done]. apply elem_of_app. right. by apply HU.
    + intros x Hx. destruct (Hm x) as [?|[? ?]]; [|by left|by right].
      rewrite elem_of_app, HU in Hx. apply elem_of_app. destruct Hx as [Hx|?]; [left; by apply (Hdrop n)|by right].
    + intros x Hx Hn. apply HU, HU1; auto.
  - destruct (insert_uncached c hs L U (mkHandle v 0 0 ch key false 1 (hf key))) as (Hok1 & Hio & He); try done.
    cbn [mbind option_bind]. fold e in Hok1, Hio, He |- *.
    destruct (Hev _ _ _ Hok1) as (c' & n & U' & -> & Hok' & Hs & HU & Hend). cbn [mbind option_bind].
    exists c', (drop n L), U'. split; [done|]. split; [done|]. split; [by eapply (inserted_settled hf)|].
    assert (Hmem : forall x, x ∈ drop n L ++ U' -> x ∈ L ++ U).
    { intros x. rewrite !elem_of_app, HU. intros [Hx|?]; [left; by apply (Hdrop n)|by right]. }
    split; [|split; [|split; [|done]]].
    + split; [lia|]. intros Hx. by apply Hmem in Hx.
    + intros x Hx. right. split; [by apply Hmem|lia].
    + intros x Hx _. by apply HU.
Qed.

(** The charge of handles, read off their recorded contents. *)
Definition weight (m : gmap nat (bytes * Z * Z * Z)) (S : list nat) : Z :=
  foldr (fun x sum => match m !! x with Some i => snd (fst i) | None => 0 end + sum) 0 S.

Lemma charges_weight c S : (forall x, x ∈ S -> ~ is_head x) -> charges (handles c) S = weight (infos c) S.
Proof.
  unfold charges, weight. induction S as [|x S IH]; intros HS; cbn [foldr]; [done|].
  rewrite IH by (intros y Hy; apply HS; by apply elem_of_cons; right). f_equal.
  assert (Hh : ~ is_head x) by (apply HS; by apply elem_of_cons; left). unfold infos, is_head in *.
  rewrite !lookup_fmap, !lookup_delete_ne by (intros <-; tauto). by destruct (handles c !! x).
Qed.

Lemma weight_app m S S' : weight m (S ++ S') = weight m S + weight m S'.
Proof. unfold weight. induction S as [|x S IH]; cbn [app foldr]; lia. Qed.

Lemma weight_perm m S S' : S ≡ₚ S' -> weight m S = weight m S'.
Proof. unfold weight. induction 1; cbn [foldr]; lia. Qed.

Lemma weight_nonneg m S : (forall x i, m !! x = Some i -> 0 <= snd (fst i)) -> 0 <= weight m S.
Proof.
  intros Hm. unfold weight. induction S as [|x S IH]; cbn [foldr]; [lia|].
  destruct (m !! x) eqn:E; [apply Hm in E|]; lia.
Qed.

Lemma weight_sub m m' S : m' ⊆ m -> (forall x, x ∈ S -> is_Some (m' !! x)) -> weight m' S = weight m S.
Proof.
  intros Hs. unfold weight. induction S as [|x S IH]; intros HS; cbn [foldr]; [done|].
  rewrite IH by (intros y Hy; apply HS; by apply elem_of_cons; right). f_equal.
  destruct (HS x) as [i Hi]; [by apply elem_of_cons; left|]. by rewrite Hi, (lookup_weaken _ _ _ _ Hi Hs).
Qed.

Lemma weight_insert m e i S : e ∉ S -> weight (<[e := i]> m) S = weight m S.
Proof.
  unfold weight. induction S as [|x S IH]; intros He; cbn [foldr]; [done|].
  rewrite not_elem_of_cons in He. destruct He as [Hne He]. rewrite IH by done. f_equal. by rewrite lookup_insert_ne.
Qed.

Lemma charge_nonneg c hs L U x i : core c hs L U -> infos c !! x = Some i -> 0 <= snd (fst i).
Proof.
  intros Hc Hi. unfold infos in Hi. rewrite lookup_fmap in Hi.
  destruct (decide (x = lru_)) as [->|H0]; [by rewrite lookup_delete_eq in Hi|].
  destruct (decide (x = in_use_)) as [->|H1]; [by rewrite lookup_delete_ne, lookup_delete_eq in Hi|].
  rewrite !lookup_delete_ne in Hi by congruence. destruct (handles c !! x) as [h|] eqn:Eh; [|done]. cbn in Hi. simplify_eq.
  destruct (core_handles _ _ _ _ _ Hc x h Eh) as (_ & Hch & _); [|done]. intros [?|?]; done.
Qed.

Lemma infos_live c hs L U x : core c hs L U -> x ∈ L ++ U -> ~ is_head x /\ is_Some (infos c !! x).
Proof.
  intros Hc Hx. destruct (core_on_list hf _ _ _ _ x Hc Hx) as (h & Eh & Hh & _). split; [done|].
  exists (info h). by apply infos_at.
Qed.

(** The charge and the number of cached handles are bounded by those of the
    handles they come from. *)
Lemma usage_bound m S c hs L U :
  core c hs L U -> links c L U -> infos c ⊆ m -> (forall x i, m !! x = Some i -> 0 <= snd (fst i)) ->
  (forall x, x ∈ L ++ U -> x ∈ S) ->
  usage_ c <= weight m S /\ (length (L ++ U) <= length S)%nat.
Proof.
  intros Hc Hl Hsub Hm Hin.
  assert (L ++ U ⊆+ S) as Hle by (apply NoDup_submseteq; [by apply (links_NoDup c)|done]).
  split; [|by apply submseteq_length]. apply submseteq_Permutation in Hle as (R & HR).
  rewrite (core_usage _ _ _ _ _ Hc), (weight_perm m _ _ HR), (weight_app m (L ++ U) R).
  rewrite charges_weight by (intros x Hx; by apply (infos_live c hs L U)).
  rewrite (weight_sub m (infos c)); [|done|intros x Hx; by apply (infos_live c hs L U)].
  pose proof (weight_nonneg m R Hm). lia.
Qed.

Lemma usage_weight c hs L U : core c hs L U -> usage_ c = weight (infos c) (L ++ U).
Proof.
  intros Hc. rewrite (core_usage _ _ _ _ _ Hc). apply charges_weight. intros x Hx. by apply (infos_live c hs L U).
Qed.

Lemma shrunk c hs L U c' hs' L' U' :
  core c hs L U -> core c' hs' L' U' -> links c' L' U' -> infos c' ⊆ infos c ->
  (forall x, x ∈ L' ++ U' -> x ∈ L ++ U) ->
  usage_ c' <= usage_ c /\ (length (L' ++ U') <= length (L ++ U))%nat.
Proof.
  intros Hc Hc' Hl' Hsub Hin. rewrite (usage_weight c hs L U Hc).
  apply (usage_bound _ _ c' hs'); try done. intros x i. by apply (charge_nonneg c hs L U).
Qed.

Lemma grown c hs L U c' hs' L' U' key v ch :
  core c hs L U -> links c L U -> core c' hs' L' U' -> links c' L' U' -> 0 <= ch ->
  inserted_one c c' (malloc_next c) key v ch ->
  (forall x, x ∈ L' ++ U' -> x = malloc_next c \/ x ∈ L ++ U) ->
  usage_ c' <= usage_ c + ch /\ (length (L' ++ U') <= S (length (L ++ U)))%nat.
Proof.
  intros Hc Hl Hc' Hl' Hch (_ & _ & Hsub & _) Hin. rewrite (usage_weight c hs L U Hc).
  destruct (fresh_handle hf c hs L U Hc Hl) as (_ & _ & Hn).
  destruct (usage_bound _ (malloc_next c :: L ++ U) c' hs' L' U' Hc' Hl' Hsub) as [H1 H2].
  - intros x i. destruct (decide (x = malloc_next c)) as [->|Hne].
    + rewrite lookup_insert_eq. by intros [= <-].
    + rewrite lookup_insert_ne by done. by apply (charge_nonneg c hs L U).
  - intros x Hx. apply elem_of_cons. by apply Hin.
  - split; [|exact H2]. unfold weight in H1. cbn [foldr] in H1. rewrite lookup_insert_eq in H1. cbn [snd fst] in H1.
    fold (weight (<[malloc_next c := (key, v, ch, hf key)]> (infos c)) (L ++ U)) in H1.
    rewrite weight_insert in H1 by (rewrite !elem_of_app in *; tauto). lia.
Qed.

(** ** The other operations *)

Lemma Erase_spec c hs L U key :
  cache_ok c hs L U ->
  exists c' L' U', Erase c key (hf key) = Some c' /\ cache_ok c' hs L' U' /\ settled c c' /\
    (forall x, x ∈ L' ++ U' -> x ∈ L ++ U /\ ~ has_key (handles c) x key) /\
    (forall x, x ∈ U -> ~ has_key (handles c) x key -> x ∈ U').
Proof.
  intros Hok. unfold Erase.
  destruct (remove_key_spec hf Hhf c hs L U key Hok) as [[-> Hno]|(e & c' & L' & U' & -> & He & Hk & Hok' & Hp & Hs & Hx & _)];
    cbn [mbind option_bind].
  - exists c, L, U. split; [done|]. split; [done|]. split; [apply settled_refl|]. split; [|done].
    intros x Hx. split; [done|]. by apply Hno.
  - exists c', L', U'. split; [done|]. split; [done|]. split; [done|]. split.
    + intros x Hxx. assert (x ∈ L ++ U) as Hxl by (rewrite Hp; by apply elem_of_cons; right). split; [done|].
      intros (hx & Ex & Hkx). destruct Hk as (he & Ee & Hke). destruct Hok as (_ & Hl & _ & Hun).
      pose proof (Hun x e hx he Hxl He Ex Ee ltac:(congruence)) as ->.
      pose proof (links_NoDup _ _ _ Hl) as Hnd. rewrite Hp in Hnd. by apply NoDup_cons in Hnd as [? _].
    + intros x HxU Hnk. apply Hx; [|done]. by intros ->.
Qed.

Lemma Prune_spec c hs L U :
  cache_ok c hs L U ->
  exists c' U', LRU_Prune c = Some c' /\ cache_ok c' hs [] U' /\ settled c c' /\ (forall x, x ∈ U' <-> x ∈ U).
Proof.
  intros Hok. destruct (evict_loop_spec hf Hhf (fun _ => true) (S (size (handles c))) c hs L U)
    as (c' & n & U' & E & Hok' & Hs & HU & [Hd|?]); [done|by apply (lru_length hf Hhf c hs L U)| |done].
  rewrite Hd in Hok'. by exists c', U'.
Qed.

(** ** The destructor *)

Lemma destroy_loop_spec fuel : forall c L,
  (length L < fuel)%nat -> NoDup L -> (forall x, x ∈ L -> ~ is_head x) ->
  path (NX (handles c)) (PV (handles c)) (L ++ [lru_]) ->
  (forall x, x ∈ L -> exists h, handles c !! x = Some h /\ in_cache h = true /\ refs h = 1) ->
  exists c', destroy_loop fuel c (hd lru_ L) = Some c' /\ settled c c' /\
    (forall x, is_Some (handles c' !! x) -> is_Some (handles c !! x) /\ x ∉ L).
Proof.
  induction fuel as [|fuel IH]; intros c L Hf Hnd Hh Hp Hx; [lia|]. cbn [destroy_loop].
  destruct L as [|e L]; cbn [hd].
  { rewrite Nat.eqb_refl. exists c. split; [done|]. split; [apply settled_refl|]. intros x ?. split; [done|]. apply not_elem_of_nil. }
  apply NoDup_cons in Hnd as [Hne Hnd]. pose proof (Hh e ltac:(by apply elem_of_cons; left)) as Hhe.
  rewrite (proj2 (Nat.eqb_neq e lru_)) by (intros ->; apply Hhe; by left).
  destruct (Hx e) as (h & Eh & Hic & Hrf); [by apply elem_of_cons; left|].
  unfold at_handle at 1. rewrite Eh. cbn [mbind option_bind]. rewrite Hic. cbn [negb].
  rewrite (update_at c e _ h Eh). cbn [mbind option_bind]. rewrite Hrf. cbn [negb Z.eqb Pos.eqb].
  unfold Unref, at_handle. cbn [handles set_handles]. rewrite lookup_insert_eq. cbn [mbind option_bind refs set_in_cache in_cache].
  rewrite Hrf. change (0 <? 1) with true. cbn [negb]. unfold update, at_handle. cbn [handles set_handles].
  rewrite lookup_insert_eq. cbn [mbind option_bind]. change (1 - 1 =? 0) with true. cbv iota. cbn [mbind option_bind].
  set (c1 := mkCache _ _ _ _ _ _).
  assert (handles c1 = delete e (handles c)) as Hd.
  { unfold c1. cbn [handles set_handles]. by rewrite insert_insert_eq, delete_insert_eq. }
  assert (next h = hd lru_ L) as Hn.
  { cbn [app] in Hp. destruct L as [|b L]; cbn [app] in Hp; apply path_cons in Hp as (HN & _);
      apply NX_Some in HN as (h' & Eh' & Hn); rewrite Eh in Eh'; by simplify_eq. }
  rewrite Hn. destruct (IH c1 L) as (c' & -> & Hs & Hlive).
  - cbn in Hf. lia.
  - done.
  - intros x Hxl. apply Hh. by apply elem_of_cons; right.
  - assert (path (NX (handles c)) (PV (handles c)) (L ++ [lru_])) as Hp' by (destruct L; [done|by apply path_cons in Hp as (_ & _ & ?)]).
    apply (path_ext (NX (handles c)) (PV (handles c))); [| |done]; intros x Hxl; unfold NX, PV; rewrite Hd, lookup_delete_ne; try done.
    + by intros <-.
    + intros <-. assert (e ∈ L ++ [lru_]) as He.
      { destruct (L ++ [lru_]); [done|]. by apply elem_of_cons; right. }
      rewrite elem_of_app, list_elem_of_singleton in He. destruct He as [?| ->]; [done|]. apply Hhe. by left.
  - intros x Hxl. rewrite Hd, lookup_delete_ne by (by intros <-). apply Hx. by apply elem_of_cons; right.
  - exists c'. split; [done|]. split.
    + eapply settled_trans; [|exact Hs]. by apply (free_settled c c1 e h).
    + intros x Hxs. destruct (Hlive x Hxs) as [Hl Hnl]. rewrite Hd in Hl. destruct (decide (x = e)) as [->|Hxe].
      * rewrite lookup_delete_eq in Hl. by destruct Hl.
      * rewrite lookup_delete_ne in Hl by congruence. split; [done|]. rewrite not_elem_of_cons. done.
Qed.

(** With nothing held, the destructor hands every remaining entry to the deleter. *)
Lemma LRUCache_delete_spec c L U :
  cache_ok c [] L U -> exists c', LRUCache_delete c = Some c' /\ deleted c' ≡ₚ deleted c ++ pairs (infos c).
Proof.
  intros (Hc & Hl & Ht & Hun). pose proof (links_NoDup _ _ _ Hl) as Hnd.
  assert (U = []) as ->.
  { destruct U as [|e U]; [done|]. exfalso. destruct (core_on_list hf c [] L (e :: U) e Hc) as (_ & _ & _ & _ & _ & _ & _ & HL).
    - apply elem_of_app. right. by apply elem_of_cons; left.
    - apply NoDup_app in Hnd as (_ & Hnd & _). apply (Hnd e); [by apply HL|by apply elem_of_cons; left]. }
  rewrite app_nil_r in Hnd. pose proof Hl as (Hrl & Hru & _).
  destruct (lru_first c L [] Hl) as (hl & Ehl & Hnl). unfold ring in Hru. cbn [app] in Hru.
  apply path_cons in Hru as (HN & _). apply NX_Some in HN as (hu & Ehu & Hnu).
  unfold LRUCache_delete, at_handle. rewrite Ehu. cbn [mbind option_bind]. rewrite Hnu, Nat.eqb_refl. cbn [negb].
  rewrite Ehl. cbn [mbind option_bind]. rewrite Hnl.
  assert (Hin : forall x, x ∈ L -> x ∈ L ++ []) by (intros x; by rewrite app_nil_r).
  destruct (destroy_loop_spec (S (size (handles c))) c L) as (c' & E & Hs & Hlive).
  - by apply (lru_length hf Hhf c [] L []).
  - done.
  - intros x Hx. by apply (not_head hf c [] L [] x Hc), Hin.
  - unfold ring in Hrl. destruct L; [done|]. by apply path_cons in Hrl as (_ & _ & ?).
  - intros x Hx. destruct (core_on_list hf c [] L [] x Hc (Hin x Hx)) as (h & Eh & _ & _ & _ & Hic & Hrf & _).
    exists h. split; [done|]. split; [done|]. by rewrite Hrf.
  - exists c'. split; [done|]. destruct Hs as (_ & _ & Hi & Hp). rewrite <- Hp.
    assert (infos c' = ∅) as ->; [|unfold pairs; rewrite map_to_list_empty; cbn; by rewrite app_nil_r].
    apply map_empty. intros x. destruct (infos c' !! x) as [i|] eqn:Ei; [exfalso|done].
    unfold infos in Ei. rewrite lookup_fmap in Ei.
    destruct (decide (x = lru_)) as [->|H0]; [by rewrite lookup_delete_eq in Ei|].
    destruct (decide (x = in_use_)) as [->|H1]; [by rewrite lookup_delete_ne, lookup_delete_eq in Ei|].
    rewrite !lookup_delete_ne in Ei by congruence. destruct (handles c' !! x) eqn:Ex; [|done].
    destruct (Hlive x) as [[h Eh] Hnx]; [by eexists|].
    destruct (core_handles _ _ _ _ _ Hc x h Eh) as (_ & _ & Hd); [by intros [?|?]|].
    rewrite decide_False in Hd by (by rewrite app_nil_r). cbn in Hd. lia.
Qed.

(** ** The abstract cache

    What clients may rely on: the entry each key last got, the handles they hold
    (one element per reference), the entries the deleter has not seen, its calls,
    and the total charge. *)

Record client := mkClient {
  current : gmap bytes nat;
  held_by : list nat;
  alive : gmap nat (bytes * Z);
  gone : list (bytes * Z);
  total : Z
}.

Definition client_new : client := mkClient ∅ [] ∅ [] 0.

Inductive call :=
  | CInsert (key : bytes) (v charge : Z)
  | CLookup (key : bytes)
  | CRelease (e : nat)
  | CErase (key : bytes)
  | CPrune.

(** From the entries [before], some may have been dropped: each to the deleter
    once, and none that is held. *)
Definition dropped (s : client) (before : gmap nat (bytes * Z)) (s' : client) : Prop :=
  alive s' ⊆ before /\
  gone s' ++ map snd (map_to_list (alive s')) ≡ₚ gone s ++ map snd (map_to_list before) /\
  (forall e, e ∈ held_by s' -> is_Some (alive s' !! e)).

Fixpoint remove_one (e : nat) (hs : list nat) : list nat :=
  match hs with
  | [] => []
  | x :: hs => if (x =? e)%nat then hs else x :: remove_one e hs
  end.

Definition all_held (s : client) : Prop := forall e, is_Some (alive s !! e) -> e ∈ held_by s.

(** What a call may answer and do, for a cache of this capacity. *)
Inductive promised (cap : Z) (s : client) : call -> option nat -> client -> Prop :=
  | P_Insert key v ch e s' :
      alive s !! e = None -> held_by s' = e :: held_by s ->
      current s' = (if 0 <? cap then <[key := e]> (current s) else current s) ->
      dropped s (<[e := (key, v)]> (alive s)) s' ->
      total s' <= total s + ch -> total s' <= cap \/ all_held s' ->
      promised cap s (CInsert key v ch) (Some e) s'
  | P_Hit key e v :
      current s !! key = Some e -> alive s !! e = Some (key, v) ->
      promised cap s (CLookup key) (Some e)
        (mkClient (current s) (e :: held_by s) (alive s) (gone s) (total s))
  | P_Miss key :
      (forall e, current s !! key = Some e -> e ∉ held_by s) -> promised cap s (CLookup key) None s
  | P_Release e s' :
      held_by s' = remove_one e (held_by s) -> current s' = current s -> dropped s (alive s) s' ->
      total s' = total s -> promised cap s (CRelease e) None s'
  | P_Erase key s' :
      held_by s' = held_by s -> current s' = delete key (current s) -> dropped s (alive s) s' ->
      total s' <= total s -> promised cap s (CErase key) None s'
  | P_Prune s' :
      held_by s' = held_by s -> current s' = current s -> dropped s (alive s) s' ->
      total s' <= total s -> all_held s' -> promised cap s CPrune None s'.

Inductive promised_run (cap : Z) (s : client) : list call -> list (option nat) -> client -> Prop :=
  | PR_nil : promised_run cap s [] [] s
  | PR_cons o r s1 os rs s' :
      promised cap s o r s1 -> promised_run cap s1 os rs s' -> promised_run cap s (o :: os) (r :: rs) s'.

(** The same calls on the cache. *)
Definition call_cache (c : LRUCache) (o : call) : option (option nat * LRUCache) :=
  match o with
  | CInsert key v charge => '(e, c) ← LRU_Insert c key (hf key) v charge; Some (Some e, c)
  | CLookup key => LRU_Lookup c key (hf key)
  | CRelease e => c ← Release c e; Some (None, c)
  | CErase key => c ← Erase c key (hf key); Some (None, c)
  | CPrune => c ← LRU_Prune c; Some (None, c)
  end.

Fixpoint call_all (c : LRUCache) (os : list call) : option (list (option nat) * LRUCache) :=
  match os with
  | [] => Some ([], c)
  | o :: os => '(r, c) ← call_cache c o; '(rs, c) ← call_all c os; Some (r :: rs, c)
  end.

(** The handles held after a call, and the calls that release only held ones. *)
Definition held_after (o : call) (r : option nat) (hs : list nat) : list nat :=
  match o, r with
  | CRelease e, _ => remove_one e hs
  | _, Some e => e :: hs
  | _, None => hs
  end.

Definition releases_held (hs : list nat) (o : call) : bool :=
  match o with CRelease e => bool_decide (e ∈ hs) | _ => true end.

Fixpoint well_behaved (c : LRUCache) (hs : list nat) (os : list call) : bool :=
  match os with
  | [] => true
  | o :: os =>
      releases_held hs o &&
      match call_cache c o with
      | Some (r, c) => well_behaved c (held_after o r hs) os
      | None => true
      end
  end.

Definition call_charge (o : call) : Z := match o with CInsert _ _ ch => ch | _ => 0 end.
Definition all_charges (os : list call) : Z := foldr (fun o sum => call_charge o + sum) 0 os.
Definition call_pairs (o : call) : list (bytes * Z) :=
  match o with CInsert key v _ => [(key, v)] | _ => [] end.

(** ** The simulation *)

Definition entries (c : LRUCache) : gmap nat (bytes * Z) := (fun i => (fst (fst (fst i)), snd (fst (fst i)))) <$> infos c.

Record simulates (c : LRUCache) (s : client) (n : nat) (L U : list nat) : Prop := mkSim {
  sim_ok : cache_ok c (held_by s) L U;
  sim_alive : alive s = entries c;
  sim_gone : gone s = deleted c;
  sim_total : total s = usage_ c;
  sim_cached x key v : x ∈ L ++ U -> alive s !! x = Some (key, v) -> current s !! key = Some x;
  sim_key key x k v : current s !! key = Some x -> alive s !! x = Some (k, v) -> k = key;
  sim_held key x : current s !! key = Some x -> x ∈ held_by s -> x ∈ L ++ U;
  sim_old key x : current s !! key = Some x -> (x < malloc_next c)%nat;
  sim_held_n : (length (held_by s) <= n)%nat;
  sim_cached_n : (length (L ++ U) <= n)%nat
}.

Lemma pairs_entries c : map snd (map_to_list (entries c)) ≡ₚ pairs (infos c).
Proof.
  unfold entries, pairs. rewrite map_to_list_fmap. rewrite map_map. apply reflexive_eq. apply map_ext. by intros [].
Qed.

Lemma has_key_entries c hs L U x key :
  core c hs L U -> x ∈ L ++ U -> has_key (handles c) x key <-> exists v, entries c !! x = Some (key, v).
Proof.
  intros Hc Hx. destruct (core_on_list hf _ _ _ _ x Hc Hx) as (h & Eh & Hh & _). unfold entries.
  rewrite lookup_fmap, (infos_at c x h Eh Hh). unfold has_key. rewrite Eh. cbn. split.
  - intros (? & [= <-] & <-). by eexists.
  - intros (v & [= <- _]). by exists h.
Qed.

Lemma held_alive c hs L U x : cache_ok c hs L U -> x ∈ hs -> is_Some (entries c !! x).
Proof.
  intros (Hc & _) Hx. destruct (core_live _ _ _ _ _ Hc x) as [[h Eh] Hh]; [rewrite !elem_of_app; tauto|].
  unfold entries. rewrite lookup_fmap, (infos_at c x h Eh Hh). by eexists.
Qed.

Lemma entries_settled c c' : settled c c' -> entries c' ⊆ entries c.
Proof. intros (_ & _ & Hi & _). by apply map_fmap_mono. Qed.

(** The abstract state a cache stands for. *)
Definition view (cur : gmap bytes nat) (hs : list nat) (c : LRUCache) : client :=
  mkClient cur hs (entries c) (deleted c) (usage_ c).

Lemma sim_shrink c s n L U c' L' U' cur hs :
  simulates c s n L U -> cache_ok c' hs L' U' -> settled c c' ->
  (forall x, x ∈ L' ++ U' -> x ∈ L ++ U) -> (length hs <= length (held_by s))%nat ->
  (forall key x, cur !! key = Some x -> current s !! key = Some x) ->
  (forall key x v, x ∈ L' ++ U' -> entries c' !! x = Some (key, v) -> current s !! key = Some x -> cur !! key = Some x) ->
  (forall key x, cur !! key = Some x -> x ∈ hs -> x ∈ L' ++ U' /\ x ∈ held_by s) ->
  simulates c' (view cur hs c') n L' U' /\ dropped s (alive s) (view cur hs c') /\ usage_ c' <= total s.
Proof.
  intros Hsim Hok Hs Hin Hhs Hcur Hcur' Hheld. pose proof (entries_settled c c' Hs) as He.
  destruct (shrunk c (held_by s) L U c' hs L' U') as [Hu Hl]; try done; [apply (sim_ok _ _ _ _ _ Hsim)|apply Hok|apply Hok|apply Hs|].
  destruct Hsim as [H1 H2 H3 H4 H5 HK H6 H7 H8 H9]. split; [split|split; [split; [|split]|by rewrite H4]]; cbn; try done.
  - intros x key v Hx Hv. apply (Hcur' key x v Hx Hv). apply (H5 x key v); [by apply Hin|]. rewrite H2. by apply (lookup_weaken _ _ _ _ Hv).
  - intros key x k v Hc Hv. apply (HK key x k v); [by apply Hcur|]. rewrite H2. by apply (lookup_weaken _ _ _ _ Hv).
  - intros key x Hc Hx. by apply (Hheld key x).
  - intros key x Hc. destruct Hs as (_ & -> & _). by apply (H7 key), Hcur.
  - lia.
  - lia.
  - by rewrite H2.
  - rewrite H2, H3, !pairs_entries. apply Hs.
  - intros x Hx. by apply (held_alive c' hs L' U').
Qed.

Lemma held_in_use c hs L U x : cache_ok c hs L U -> x ∈ hs -> x ∈ L ++ U -> x ∈ U.
Proof.
  intros (Hc & _) Hx Hxl. destruct (core_on_list hf _ _ _ _ x Hc Hxl) as (_ & _ & _ & _ & _ & _ & _ & HL).
  apply elem_of_app in Hxl as [Hl|?]; [|done]. apply HL, held_zero in Hl. done.
Qed.

Lemma remove_one_perm e hs : e ∈ hs -> hs ≡ₚ e :: remove_one e hs.
Proof.
  induction hs as [|x hs IH]; intros He; [by apply not_elem_of_nil in He|]. cbn.
  destruct (Nat.eqb_spec x e) as [->|Hne]; [done|]. apply elem_of_cons in He as [->|He]; [done|].
  rewrite (IH He) at 1. constructor.
Qed.

Lemma core_perm c hs hs' L U : hs ≡ₚ hs' -> core c hs L U -> core c hs' L U.
Proof.
  intros Hp [H1 H2 H3 H4 H5]. split; try done.
  - intros e h He Hh. pose proof (H1 e h He Hh) as Ho. unfold handle_ok in *. by rewrite <- (held_perm hs hs' e Hp).
  - intros e. rewrite app_assoc, elem_of_app, <- Hp, <- elem_of_app, <- app_assoc. apply H2.
Qed.

Lemma all_held_nil c hs U cur : cache_ok c hs [] U -> all_held (view cur hs c).
Proof.
  intros (Hc & Hl & _) x. cbn. unfold entries. intros [i Hi]. rewrite lookup_fmap in Hi.
  unfold infos in Hi. rewrite lookup_fmap in Hi.
  destruct (decide (x = lru_)) as [->|H0]; [by rewrite lookup_delete_eq in Hi|].
  destruct (decide (x = in_use_)) as [->|H1]; [by rewrite lookup_delete_ne, lookup_delete_eq in Hi|].
  rewrite !lookup_delete_ne in Hi by congruence. destruct (handles c !! x) as [h|] eqn:Eh; [|done].
  assert (~ is_head x) as Hh by (by intros [?|?]).
  destruct (core_handles _ _ _ _ _ Hc x h Eh Hh) as (_ & _ & Hd).
  destruct (decide (x ∈ hs)) as [?|Hn]; [done|]. exfalso. apply held_fresh in Hn.
  destruct (decide (x ∈ [] ++ U)); [|lia]. destruct Hd as (_ & _ & HL). apply HL in Hn. by apply not_elem_of_nil in Hn.
Qed.

(** ** Each call *)

Definition step_ok (c : LRUCache) (s : client) (n : nat) (o : call) : Prop :=
  exists r c' s' L' U', call_cache c o = Some (r, c') /\ promised (capacity_ c) s o r s' /\
    capacity_ c' = capacity_ c /\ held_by s' = held_after o r (held_by s) /\ simulates c' s' (S n) L' U'.

Lemma sim_weaken c s n m L U : (n <= m)%nat -> simulates c s n L U -> simulates c s m L U.
Proof. intros Hle []. split; try done; lia. Qed.

Lemma step_Prune c s n L U : simulates c s n L U -> step_ok c s n CPrune.
Proof.
  intros Hsim. pose proof (sim_ok _ _ _ _ _ Hsim) as Hok.
  destruct (Prune_spec c (held_by s) L U Hok) as (c' & U' & E & Hok' & Hs & HU).
  destruct (sim_shrink c s n L U c' [] U' (current s) (held_by s)) as (Hsim' & Hd & Hu); try done.
  - intros x. cbn [app]. rewrite elem_of_app, HU. tauto.
  - intros key x Hc Hx. split; [|done]. rewrite elem_of_app, HU. right. apply (held_in_use c (held_by s) L U); [done|done|].
    by apply (sim_held _ _ _ _ _ Hsim key).
  - exists None, c', (view (current s) (held_by s) c'), [], U'. cbn [call_cache]. rewrite E. split; [done|].
    split; [|split; [apply Hs|split; [done|by apply (sim_weaken _ _ n); [lia|]]]].
    apply P_Prune; try done. by apply (all_held_nil c' (held_by s) U').
Qed.

Lemma step_Erase c s n L U key : simulates c s n L U -> step_ok c s n (CErase key).
Proof.
  intros Hsim. pose proof (sim_ok _ _ _ _ _ Hsim) as Hok.
  destruct (Erase_spec c (held_by s) L U key Hok) as (c' & L' & U' & E & Hok' & Hs & Hm & HU).
  destruct (sim_shrink c s n L U c' L' U' (delete key (current s)) (held_by s)) as (Hsim' & Hd & Hu); try done.
  - intros x Hx. by apply Hm.
  - intros k x. rewrite lookup_delete_Some. tauto.
  - intros k x v Hx Hv Hc. rewrite lookup_delete_Some. split; [|done]. intros <-. destruct (Hm x Hx) as [Hx' Hn].
    apply Hn. apply (has_key_entries c (held_by s) L U); [apply Hok|done|]. exists v.
    by apply (lookup_weaken _ _ _ _ Hv), entries_settled.
  - intros k x. rewrite lookup_delete_Some. intros [Hne Hc] Hx. split; [|done].
    pose proof (sim_held _ _ _ _ _ Hsim k x Hc Hx) as Hx'. rewrite elem_of_app. right.
    apply HU; [by apply (held_in_use c (held_by s) L U)|]. rewrite (has_key_entries c (held_by s) L U) by (done || apply Hok).
    rewrite <- (sim_alive _ _ _ _ _ Hsim). intros [v' Hv']. by apply Hne, (sim_key _ _ _ _ _ Hsim k x key v').
  - exists None, c', (view (delete key (current s)) (held_by s) c'), L', U'. cbn [call_cache]. rewrite E. split; [done|].
    split; [|split; [apply Hs|split; [done|by apply (sim_weaken _ _ n); [lia|]]]]. by apply P_Erase.
Qed.

Lemma step_Release c s n L U e : simulates c s n L U -> e ∈ held_by s -> step_ok c s n (CRelease e).
Proof.
  intros Hsim He. pose proof (sim_ok _ _ _ _ _ Hsim) as Hok. set (hs := remove_one e (held_by s)).
  pose proof (remove_one_perm e (held_by s) He) as Hp. fold hs in Hp.
  assert (Hok1 : cache_ok c (e :: hs) L U) by (destruct Hok as (Hc & ?); split; [by apply (core_perm c (held_by s))|done]).
  destruct (Release_ok hf Hhf c hs L U e Hok1) as (c' & L' & U' & E & Hok' & HLU & Hs & Hu).
  destruct (sim_shrink c s n L U c' L' U' (current s) hs) as (Hsim' & Hd & _); try done.
  - intros x. by rewrite HLU.
  - apply Permutation_length in Hp. cbn in Hp. lia.
  - intros key x Hc Hx. rewrite HLU. assert (x ∈ held_by s) as Hxs by (rewrite Hp; by apply elem_of_cons; right).
    split; [|done]. by apply (sim_held _ _ _ _ _ Hsim key).
  - exists None, c', (view (current s) hs c'), L', U'. cbn [call_cache]. rewrite E. split; [done|].
    split; [|split; [apply Hs|split; [done|by apply (sim_weaken _ _ n); [lia|]]]].
    apply P_Release; try done. cbn. by rewrite Hu, (sim_total _ _ _ _ _ Hsim).
Qed.

Lemma step_Lookup c s n L U key : simulates c s n L U -> Z.of_nat n + 2 < 2 ^ 32 -> step_ok c s n (CLookup key).
Proof.
  intros Hsim Hn. pose proof (sim_ok _ _ _ _ _ Hsim) as Hok. pose proof (sim_held_n _ _ _ _ _ Hsim) as Hlen.
  destruct (Lookup_spec hf Hhf c (held_by s) L U key Hok) as ([e|] & c' & L' & U' & E & (Hi & Hd & Hcap & Hmn) & Hr & Hu); [lia| |].
  - destruct Hr as (He & Hk & HLU & Hok'). assert (entries c' = entries c) as He' by (unfold entries; by rewrite Hi).
    apply (has_key_entries c (held_by s) L U) in Hk as [v Hv]; [|apply Hok|done]. rewrite <- (sim_alive _ _ _ _ _ Hsim) in Hv.
    exists (Some e), c', (mkClient (current s) (e :: held_by s) (alive s) (gone s) (total s)), L', U'.
    split; [done|]. split; [|split; [done|split; [done|]]].
    + apply (P_Hit _ _ key e v); [|done]. by apply (sim_cached _ _ _ _ _ Hsim e key v).
    + destruct Hsim as [H1 H2 H3 H4 H5 HK H6 H7 H8 H9]. split; cbn; rewrite ?HLU; try done; try congruence; try lia.
      * intros x k w Hx. rewrite HLU in Hx. by apply H5.
      * intros k x Hc Hx. rewrite HLU. apply elem_of_cons in Hx as [->|Hx]; [done|by apply (H6 k)].
      * intros k x. rewrite Hmn. apply H7.
  - destruct Hr as (-> & -> & -> & Hno). exists None, c, s, L, U. split; [done|].
    split; [|split; [done|split; [done|by apply (sim_weaken _ _ n); [lia|]]]].
    apply P_Miss. intros e Hc He. pose proof (sim_held _ _ _ _ _ Hsim key e Hc He) as Hx.
    destruct (held_alive c (held_by s) L U e Hok He) as [[k v] Hv]. pose proof Hv as Hv'.
    rewrite <- (sim_alive _ _ _ _ _ Hsim) in Hv'. rewrite (sim_key _ _ _ _ _ Hsim key e k v Hc Hv') in Hv.
    apply (Hno e Hx), (has_key_entries c (held_by s) L U); [apply Hok|done|]. by exists v.
Qed.

(** After an insertion: the new entry, and what is left of the old ones. *)
Lemma entries_inserted c c' e key v ch : inserted_one c c' e key v ch -> entries c' ⊆ <[e := (key, v)]> (entries c).
Proof.
  intros (_ & _ & Hi & _). unfold entries. etrans; [apply map_fmap_mono, Hi|]. by rewrite fmap_insert.
Qed.

Lemma sim_fresh c s n L U :
  simulates c s n L U -> alive s !! malloc_next c = None /\ malloc_next c ∉ held_by s /\ malloc_next c ∉ L ++ U.
Proof.
  intros Hsim. destruct (sim_ok _ _ _ _ _ Hsim) as (Hc & Hl & _).
  destruct (fresh_handle hf c _ L U Hc Hl) as (Hf & Hh & Hn). rewrite (sim_alive _ _ _ _ _ Hsim).
  split; [|rewrite !elem_of_app in *; tauto].
  unfold entries, infos, is_head in *. rewrite !lookup_fmap, !lookup_delete_ne, Hf by (intros Hx; symmetry in Hx; tauto). done.
Qed.

Definition current_after (cap : Z) (cur : gmap bytes nat) (key : bytes) (e : nat) : gmap bytes nat :=
  if 0 <? cap then <[key := e]> cur else cur.

Lemma current_after_Some cap cur key e k x :
  current_after cap cur key e !! k = Some x <->
  (0 < cap /\ k = key /\ x = e) \/ ((0 < cap -> k <> key) /\ cur !! k = Some x).
Proof.
  unfold current_after. destruct (Z.ltb_spec 0 cap) as [Hc|Hc].
  - rewrite lookup_insert_Some. naive_solver.
  - split; [intros; right; split; [lia|done]|]. intros [[? _]|[_ ?]]; [lia|done].
Qed.

Lemma step_Insert c s n L U key v ch :
  simulates c s n L U -> Z.of_nat n + 2 < 2 ^ 31 -> 0 <= ch -> total s + ch < 2 ^ 64 ->
  step_ok c s n (CInsert key v ch).
Proof.
  intros Hsim Hn Hch Htot. pose proof (sim_ok _ _ _ _ _ Hsim) as Hok.
  destruct (sim_fresh c s n L U Hsim) as (Hfa & Hfh & Hfl). set (e := malloc_next c) in *.
  rewrite (sim_total _ _ _ _ _ Hsim) in Htot. pose proof (sim_cached_n _ _ _ _ _ Hsim) as Hcn.
  destruct (LRU_Insert_spec c (held_by s) L U key v ch Hok Hch Htot ltac:(lia)) as (c' & L' & U' & E & Hok' & Hio & Hcap & Hm & HU & Hend).
  pose proof (entries_inserted c c' e key v ch Hio) as Hsub. fold e in E, Hok', Hcap, Hm.
  set (cur := current_after (capacity_ c) (current s) key e).
  destruct (grown c (held_by s) L U c' (e :: held_by s) L' U' key v ch) as [Hu Hlen]; try done;
    [apply Hok|apply Hok|apply Hok'|apply Hok'|intros x Hx; destruct (Hm x Hx) as [?|[? _]]; tauto|].
  assert (Hnew : forall x k w, entries c' !! x = Some (k, w) -> x = e /\ k = key /\ w = v \/ x <> e /\ alive s !! x = Some (k, w)).
  { intros x k w Hx. apply (lookup_weaken _ _ _ _ Hx) in Hsub. rewrite (sim_alive _ _ _ _ _ Hsim).
    apply lookup_insert_Some in Hsub as [[<- [= <- <-]]|[? ?]]; [by left|right]. split; [congruence|done]. }
  assert (Hsim' : simulates c' (view cur (e :: held_by s) c') (S n) L' U').
  { split; cbn; try done.
    - intros x k w Hx Hw. apply current_after_Some. destruct (Hnew x k w Hw) as [(-> & -> & ->)|[Hne Ha]].
      + left. split; [by apply Hcap|done].
      + destruct (Hm x Hx) as [?|[Hx' Hk]]; [done|]. right. split; [|by apply (sim_cached _ _ _ _ _ Hsim x k w)].
        intros Hc ->. apply (Hk Hc). apply (has_key_entries c (held_by s) L U); [apply Hok|done|].
        exists w. by rewrite <- (sim_alive _ _ _ _ _ Hsim).
    - intros k x k' w Hc Hw. apply current_after_Some in Hc. destruct (Hnew x k' w Hw) as [(-> & -> & ->)|[Hne Ha]].
      + destruct Hc as [(_ & -> & _)|[_ Hc]]; [done|]. apply (sim_old _ _ _ _ _ Hsim) in Hc. unfold e in Hc. lia.
      + destruct Hc as [(_ & _ & ->)|[_ Hc]]; [done|]. by apply (sim_key _ _ _ _ _ Hsim k x k' w).
    - intros k x Hc Hx. apply current_after_Some in Hc as [(Hc & -> & ->)|[Hk Hc]]; [by apply Hcap|].
      apply elem_of_cons in Hx as [->|Hx].
      { apply (sim_old _ _ _ _ _ Hsim) in Hc. unfold e in Hc. lia. }
      pose proof (sim_held _ _ _ _ _ Hsim k x Hc Hx) as Hxl. apply elem_of_app. right.
      apply HU; [by apply (held_in_use c (held_by s) L U)|]. intros Hcp.
      rewrite (has_key_entries c (held_by s) L U) by (done || apply Hok).
      rewrite <- (sim_alive _ _ _ _ _ Hsim). intros [w Hw]. apply (Hk Hcp). symmetry.
      by apply (sim_key _ _ _ _ _ Hsim k x key w).
    - intros k x Hc. destruct Hio as (_ & -> & _). apply current_after_Some in Hc as [(_ & _ & ->)|[_ Hc]]; [unfold e; lia|].
      apply (sim_old _ _ _ _ _ Hsim) in Hc. unfold e. lia.
    - apply le_n_S, (sim_held_n _ _ _ _ _ Hsim).
    - lia. }
  exists (Some e), c', (view cur (e :: held_by s) c'), L', U'. cbn [call_cache]. rewrite E. split; [done|].
  split; [|split; [apply Hio|split; [done|exact Hsim']]].
  apply P_Insert; cbn; try done.
  - split; [|split]; cbn.
    + by rewrite (sim_alive _ _ _ _ _ Hsim).
    + rewrite map_to_list_insert by done. cbn [map snd]. rewrite pairs_entries, (sim_alive _ _ _ _ _ Hsim), (sim_gone _ _ _ _ _ Hsim).
      destruct Hio as (_ & _ & _ & ->). rewrite <- Permutation_middle. by rewrite pairs_entries.
    + intros x Hx. by apply (held_alive c' (e :: held_by s) L' U').
  - by rewrite (sim_total _ _ _ _ _ Hsim).
  - destruct Hend as [->|Hend]; [right; by apply (all_held_nil c' (e :: held_by s) U')|left].
    destruct Hio as (Hcc & _). by rewrite <- Hcc.
Qed.

(** ** Any sequence of calls *)

Lemma step_any c s n L U o :
  simulates c s n L U -> Z.of_nat n + 2 < 2 ^ 31 -> 0 <= call_charge o -> total s + call_charge o < 2 ^ 64 ->
  releases_held (held_by s) o = true -> step_ok c s n o.
Proof.
  intros Hsim Hn Hch Htot Hr. destruct o; cbn in *.
  - by apply (step_Insert c s n L U).
  - apply (step_Lookup c s n L U); [done|lia].
  - apply bool_decide_eq_true in Hr. by apply (step_Release c s n L U).
  - by apply (step_Erase c s n L U).
  - by apply (step_Prune c s n L U).
Qed.

Lemma promised_total cap s o r s' : promised cap s o r s' -> 0 <= call_charge o -> total s' <= total s + call_charge o.
Proof. intros H ?. destruct H; cbn in *; lia. Qed.

Lemma run_any os : forall c s n L U,
  simulates c s n L U -> Z.of_nat n + Z.of_nat (length os) + 2 < 2 ^ 31 ->
  (forall o, o ∈ os -> 0 <= call_charge o) -> total s + all_charges os < 2 ^ 64 ->
  well_behaved c (held_by s) os = true ->
  exists rs c' s' L' U', call_all c os = Some (rs, c') /\ promised_run (capacity_ c) s os rs s' /\
    simulates c' s' (n + length os) L' U'.
Proof.
  induction os as [|o os IH]; intros c s n L U Hsim Hn Hch Htot Hwb.
  - exists [], c, s, L, U. split; [done|]. split; [constructor|]. cbn. by rewrite Nat.add_0_r.
  - cbn [well_behaved] in Hwb. apply andb_true_iff in Hwb as [Hr Hwb]. cbn in Hn.
    assert (0 <= call_charge o) as Ho by (apply Hch; by apply elem_of_cons; left).
    assert (Hch' : forall o', o' ∈ os -> 0 <= call_charge o') by (intros o' ?; apply Hch; by apply elem_of_cons; right).
    assert (0 <= all_charges os) as Hall.
    { clear -Hch'. unfold all_charges. induction os as [|o' os IH]; cbn; [lia|].
      pose proof (Hch' o' ltac:(by apply elem_of_cons; left)). assert (0 <= foldr (fun o sum => call_charge o + sum) 0 os); [|lia].
      apply IH. intros o'' ?. apply Hch'. by apply elem_of_cons; right. }
    change (all_charges (o :: os)) with (call_charge o + all_charges os) in Htot.
    destruct (step_any c s n L U o Hsim) as (r & c1 & s1 & L1 & U1 & E & Hp & Hcap & Hh & Hsim1); try done; [lia|lia|].
    rewrite E in Hwb. cbn [call_all]. rewrite E. cbn [mbind option_bind].
    pose proof (promised_total _ _ _ _ _ Hp Ho).
    destruct (IH c1 s1 (S n) L1 U1 Hsim1) as (rs & c' & s' & L' & U' & -> & Hpr & Hsim'); [lia|done|lia|by rewrite Hh|].
    cbn [mbind option_bind]. exists (r :: rs), c', s', L', U'. split; [done|]. rewrite Hcap in Hpr.
    split; [by econstructor|]. cbn [length]. by rewrite <- plus_n_Sm.
Qed.

(** ** From the empty cache *)

Lemma sim_new cap : simulates (SetCapacity LRUCache_new cap) client_new 0 [] [].
Proof.
  assert (entries (SetCapacity LRUCache_new cap) = ∅) as He by reflexivity.
  split; cbn; try done.
  split; [|split; [|split]].
  - split; cbn; try done.
    + intros e h Eh Hh. exfalso. apply Hh. unfold is_head.
      apply lookup_insert_Some in Eh as [[<- _]|[_ Eh]]; [by left|]. apply lookup_singleton_Some in Eh as [<- _]. by right.
    + intros e Hx. by apply not_elem_of_nil in Hx.
    + intros e [h Eh]. apply lookup_insert_Some in Eh as [[<- _]|[_ Eh]]; [unfold lru_; lia|].
      apply lookup_singleton_Some in Eh as [<- _]. unfold in_use_. lia.
  - split; [done|]. split; [done|]. repeat constructor; rewrite ?elem_of_cons, ?elem_of_nil; unfold lru_, in_use_; lia.
  - split; [|done]. split; [exists 2; split; [lia|done]|]. split; [done|]. split; [done|].
    intros i chain e Hi Hx. exfalso. do 4 (destruct i as [|i]; [cbn in Hi; simplify_eq; by apply not_elem_of_nil in Hx|]). done.
  - intros e e' h h' Hx. by apply not_elem_of_nil in Hx.
Qed.

(** Nothing inserted gets lost: it is alive or has gone to the deleter. *)
Lemma promised_pairs cap s o r s' :
  promised cap s o r s' ->
  gone s' ++ map snd (map_to_list (alive s')) ≡ₚ (gone s ++ map snd (map_to_list (alive s))) ++ call_pairs o.
Proof.
  intros H. destruct H as [key v ch e s' Hf _ _ (_ & -> & _)| | |e s' _ _ (_ & -> & _)|key s' _ _ (_ & -> & _)|s' _ _ (_ & -> & _)];
    cbn [call_pairs alive gone]; rewrite ?app_nil_r; try done.
  rewrite map_to_list_insert by done. cbn. solve_Permutation.
Qed.

Lemma promised_run_pairs cap s os rs s' :
  promised_run cap s os rs s' ->
  gone s' ++ map snd (map_to_list (alive s')) ≡ₚ
  (gone s ++ map snd (map_to_list (alive s))) ++ concat (map call_pairs os).
Proof.
  induction 1 as [s|s o r s1 os rs s' Hp _ IH]; cbn [map concat]; [by rewrite app_nil_r|].
  rewrite IH, (promised_pairs _ _ _ _ _ Hp). by rewrite app_assoc.
Qed.

(** C27: any sequence of calls on a new cache of any capacity that releases only
    handles it holds (fewer than 2^31 calls, charges within 64 bits) runs without
    touching a freed handle and without a failed assertion, and answers as the
    abstract cache does: [Insert] returns a fresh held handle and leaves the charge
    within the capacity unless everything left is held; [Lookup] finds nothing but
    the entry its key last got, and does find it while somebody holds it; a held
    handle keeps its key and value; entries that go are handed to the deleter. *)
Theorem cache_refines cap os :
  Z.of_nat (length os) + 2 < 2 ^ 31 -> (forall o, o ∈ os -> 0 <= call_charge o) -> all_charges os < 2 ^ 64 ->
  well_behaved (SetCapacity LRUCache_new cap) [] os = true ->
  exists rs c s, call_all (SetCapacity LRUCache_new cap) os = Some (rs, c) /\
    promised_run cap client_new os rs s /\
    deleted c = gone s /\ TotalCharge c = total s /\
    (forall e key v, alive s !! e = Some (key, v) -> exists h, at_handle c e = Some h /\ h_key h = key /\ value h = v).
Proof.
  intros Hn Hch Htot Hwb.
  destruct (run_any os (SetCapacity LRUCache_new cap) client_new 0 [] []) as (rs & c & s & L & U & E & Hp & Hsim);
    try done; [apply sim_new|].
  exists rs, c, s. split; [done|]. split; [done|]. split; [by rewrite (sim_gone _ _ _ _ _ Hsim)|].
  split; [by rewrite (sim_total _ _ _ _ _ Hsim)|].
  intros e key v. rewrite (sim_alive _ _ _ _ _ Hsim). unfold entries, infos. rewrite !lookup_fmap, !lookup_delete.
  unfold at_handle. destruct (decide _); [done|]. destruct (decide _); [done|].
  destruct (handles c !! e) as [h|]; [|done]. intros [= <- <-]. by exists h.
Qed.

(** The handles held after a sequence of calls with these answers. *)
Fixpoint held_after_all (hs : list nat) (os : list call) (rs : list (option nat)) : list nat :=
  match os, rs with
  | o :: os, r :: rs => held_after_all (held_after o r hs) os rs
  | _, _ => hs
  end.

Lemma promised_run_held cap s os rs s' :
  promised_run cap s os rs s' -> held_by s' = held_after_all (held_by s) os rs.
Proof.
  induction 1 as [s|s o r s1 os rs s' Hp _ IH]; cbn [held_after_all]; [done|]. rewrite IH. f_equal. by destruct Hp.
Qed.

(** the deleter sees every entry exactly once: after any such sequence that ends
    with nothing held, the destructor runs, and its calls and the earlier ones are,
    as a multiset, the keys and values inserted. *)
Theorem cache_deletes_all cap os rs c :
  Z.of_nat (length os) + 2 < 2 ^ 31 -> (forall o, o ∈ os -> 0 <= call_charge o) -> all_charges os < 2 ^ 64 ->
  well_behaved (SetCapacity LRUCache_new cap) [] os = true ->
  call_all (SetCapacity LRUCache_new cap) os = Some (rs, c) -> held_after_all [] os rs = [] ->
  exists c', LRUCache_delete c = Some c' /\ deleted c' ≡ₚ concat (map call_pairs os).
Proof.
  intros Hn Hch Htot Hwb E Hh.
  destruct (run_any os (SetCapacity LRUCache_new cap) client_new 0 [] []) as (rs' & c1 & s & L & U & E' & Hp & Hsim);
    try done; [apply sim_new|]. rewrite E in E'. injection E' as <- <-.
  pose proof (sim_ok _ _ _ _ _ Hsim) as Hok. rewrite (promised_run_held _ _ _ _ _ Hp) in Hok. cbn [held_by client_new] in Hok.
  rewrite Hh in Hok. destruct (LRUCache_delete_spec c L U Hok) as (c' & Ed & Hd). exists c'. split; [done|].
  rewrite Hd, <- pairs_entries, <- (sim_alive _ _ _ _ _ Hsim), <- (sim_gone _ _ _ _ _ Hsim).
  by rewrite (promised_run_pairs _ _ _ _ _ Hp).
Qed.

End Client.

(** Every key in one bucket, a replaced key, an entry erased while held, one
    evicted and one found again. *)
Definition example_calls : list call :=
  [CInsert (str "a") 1 2; CInsert (str "b") 2 2; CRelease 2; CInsert (str "a") 3 1; CLookup (str "b");
   CLookup (str "a"); CErase (str "b"); CRelease 3; CRelease 3; CRelease 4; CRelease 4; CInsert (str "c") 5 4; CRelease 5;
   CPrune].

Definition example_run : list (option nat) * LRUCache :=
  default ([], LRUCache_new) (call_all (fun _ => 7) (SetCapacity LRUCache_new 4) example_calls).

Lemma example_charges o : o ∈ example_calls -> 0 <= call_charge o.
Proof.
  intros Ho. assert (forallb (fun o => 0 <=? call_charge o) example_calls = true) as H by reflexivity.
  rewrite forallb_forall in H. apply list_elem_of_In, H in Ho. lia.
Qed.

Lemma cache_refines_witness :
  exists rs c s, call_all (fun _ => 7) (SetCapacity LRUCache_new 4) example_calls = Some (rs, c) /\
    promised_run 4 client_new example_calls rs s /\
    deleted c = gone s /\ TotalCharge c = total s /\
    (forall e key v, alive s !! e = Some (key, v) -> exists h, at_handle c e = Some h /\ h_key h = key /\ value h = v).
Proof.
  by apply (cache_refines (fun _ => 7) ltac:(intros; lia) 4 example_calls);
    [cbn; lia|apply example_charges|vm_compute; reflexivity..].
Defined.

Lemma cache_deletes_all_witness :
  exists c', LRUCache_delete (snd example_run) = Some c' /\
    deleted c' ≡ₚ [(str "a", 1); (str "b", 2); (str "a", 3); (str "c", 5)].
Proof.
  apply (cache_deletes_all (fun _ => 7) ltac:(intros; lia) 4 example_calls (fst example_run) (snd example_run));
    [cbn; lia|apply example_charges|vm_compute; reflexivity..].
Defined.
