(* ===== verification/CacheShards.v ===== *)
(** * The sharded cache and the objects it keeps

    [ShardedLRUCache] of util/cache.cc as its clients use it: a cache whose values
    are pointers to objects on the heap that the deleter frees.  The state of a
    client is the cache, the objects ever put into it and which of them are pinned
    by handles; reading through a pointer the deleter has seen is an error. *)

From S2P Require Import Prelude Slice Coding Bloom Cache CacheSpec CacheClient.

(** ** Hashes and shards *)

Lemma xor_shift_range h n : 0 <= h < 2 ^ 32 -> 0 <= n -> 0 <= xor_shift h n < 2 ^ 32.
Proof.
  intros [H0 H1] Hn. unfold xor_shift.
  assert (0 <= Z.shiftr h n < 2 ^ 32).
  { rewrite Z.shiftr_div_pow2 by done. split; [apply Z.div_pos; lia|]. apply Z.div_lt_upper_bound; nia. }
  split; [by apply Z.lxor_nonneg; lia|]. destruct (Z.eq_dec (Z.lxor h (Z.shiftr h n)) 0) as [->|Hne]; [lia|].
  apply Z.log2_lt_pow2; [pose proof (proj2 (Z.lxor_nonneg h (Z.shiftr h n)) ltac:(lia)); lia|].
  eapply Z.le_lt_trans; [apply Z.log2_lxor; lia|]. apply Z.max_lub_lt; [|].
  - destruct (Z.eq_dec h 0) as [->|]; [done|]. apply Z.log2_lt_pow2; lia.
  - destruct (Z.eq_dec (Z.shiftr h n) 0) as [->|]; [done|]. apply Z.log2_lt_pow2; lia.
Qed.

Lemma u32_bounds x : 0 <= u32 x < 2 ^ 32.
Proof. unfold u32. by apply Z.mod_pos_bound. Qed.

Lemma Hash_range data seed : 0 <= Hash data seed < 2 ^ 32.
Proof.
  unfold Hash. assert (Hl : forall fuel h d, 0 <= h < 2 ^ 32 -> 0 <= fst (hash_loop fuel h d) < 2 ^ 32).
  { induction fuel as [|fuel IH]; intros h d Hh; cbn [hash_loop]; [done|]. destruct (4 <=? blen d); [|done].
    apply IH, xor_shift_range; [apply u32_bounds|lia]. }
  specialize (Hl (length data) _ data (u32_bounds (Z.lxor seed (u64 (blen data * hash_m))))).
  destruct (hash_loop _ _ _) as [h d]. cbn [fst] in Hl. unfold hash_tail.
  assert (Hx : forall (b : bool) x y, 0 <= y < 2 ^ 32 -> 0 <= (if b then u32 x else y) < 2 ^ 32) by (intros []; auto using u32_bounds).
  destruct (1 <=? blen d); [|by apply Hx, Hx].
  apply xor_shift_range; [apply u32_bounds|unfold hash_r; lia].
Qed.

Lemma HashSlice_range k : 0 <= HashSlice k < 2 ^ 32.
Proof. apply Hash_range. Qed.

Lemma Shard_range k : (Z.to_nat (Shard (HashSlice k)) < 16)%nat.
Proof.
  pose proof (HashSlice_range k) as [H0 H1]. unfold Shard, kNumShardBits. rewrite Z.shiftr_div_pow2 by lia.
  assert (HashSlice k / 2 ^ (32 - 4) < 16) by (apply Z.div_lt_upper_bound; lia). lia.
Qed.

Abbreviation shard_of k := (Z.to_nat (Shard (HashSlice k))).

Lemma fst_held {A} (held : list (Handle * A)) h x : (h, x) ∈ held -> h ∈ map fst held.
Proof. intros Hh. apply list_elem_of_In, in_map_iff. exists (h, x). by rewrite <- list_elem_of_In. Qed.

(** ** Objects behind a cache *)

Section Objects.

Context {T : Type}.

(** The cache, the objects by their address and the next address. *)
Record ObjCache := mkObjs { oc_cache : ShardedLRUCache; oc_objs : gmap Z T; oc_next : Z }.

Implicit Types oc : ObjCache.

Definition ObjCache_new (capacity : Z) : ObjCache := mkObjs (ShardedLRUCache_new capacity) ∅ 1.

(** The values the deleter was called with. *)
Definition freed (c : ShardedLRUCache) : list Z := concat (map (fun s => map snd (deleted s)) (shard_ c)).

Definition obj_at oc (v : Z) : option T := if bool_decide (v ∈ freed (oc_cache oc)) then None else oc_objs oc !! v.

Definition oc_Lookup oc (key : bytes) : option (option Handle * ObjCache) :=
  '(r, c) ← Lookup (oc_cache oc) key; Some (r, mkObjs c (oc_objs oc) (oc_next oc)).

(** [cache->Insert(key, new T(...), charge, deleter)] *)
Definition oc_Insert oc (key : bytes) (x : T) (charge : Z) : option (Handle * ObjCache) :=
  '(h, c) ← Insert (oc_cache oc) key (oc_next oc) charge;
  Some (h, mkObjs c (<[oc_next oc := x]> (oc_objs oc)) (oc_next oc + 1)).

(** The object a handle stands for. *)
Definition oc_Value oc (h : Handle) : option T := v ← Value (oc_cache oc) h; obj_at oc v.

Definition oc_Release oc (h : Handle) : option ObjCache :=
  c ← Sharded_Release (oc_cache oc) h; Some (mkObjs c (oc_objs oc) (oc_next oc)).

Definition oc_Erase oc (key : bytes) : option ObjCache :=
  c ← Sharded_Erase (oc_cache oc) key; Some (mkObjs c (oc_objs oc) (oc_next oc)).

(** ** The invariant *)

(** The handles of shard [i] among the held ones. *)
Definition held_in (i : nat) (held : list Handle) : list nat :=
  omap (fun h => if (fst h =? i)%nat then Some (snd h) else None) held.

Definition alive_values (s : client) : list Z := map (fun x => snd (snd x)) (map_to_list (alive s)).
Definition all_values (ss : list client) : list Z := concat (map (fun s => map snd (gone s) ++ alive_values s) ss).

(** Every shard refines the abstract cache of a client that holds [held], all
    entries are in the shard of their key, and what is not yet freed satisfies [good]
    of its key.  [n] bounds the calls and [t] the charges so far. *)
Record objs_ok (good : bytes -> T -> Prop) oc (held : list Handle) (n : nat) (t : Z) (ss : list client) : Prop := {
  oo_shards : Forall2 (fun c s => exists L U, simulates HashSlice c s n L U) (shard_ (oc_cache oc)) ss;
  oo_sixteen : length ss = 16%nat;
  oo_held i s : ss !! i = Some s -> held_by s ≡ₚ held_in i held;
  oo_in_range h : h ∈ held -> (fst h < 16)%nat;
  oo_total i s : ss !! i = Some s -> total s <= t;
  oo_key i s e k v : ss !! i = Some s -> alive s !! e = Some (k, v) -> shard_of k = i;
  oo_good i s e k v : ss !! i = Some s -> alive s !! e = Some (k, v) -> exists x, oc_objs oc !! v = Some x /\ good k x;
  oo_values : NoDup (all_values ss);
  oo_fresh v : v ∈ all_values ss -> v < oc_next oc;
  oo_dom v x : oc_objs oc !! v = Some x -> v < oc_next oc
}.

(** *** Steps *)

Section Steps.

Context (good : bytes -> T -> Prop).

Notation sims n := (Forall2 (fun c s => exists L U, simulates HashSlice c s n L U)).

Lemma sims_weaken n m cs ss : (n <= m)%nat -> sims n cs ss -> sims m cs ss.
Proof. intros Hle. induction 1 as [|c s cs ss (L & U & Hs) _ IH]; constructor; [|done]. exists L, U. by eapply sim_weaken. Qed.

Lemma freed_gone n (c : ShardedLRUCache) ss : sims n (shard_ c) ss -> freed c = concat (map (fun s => map snd (gone s)) ss).
Proof.
  unfold freed. generalize (shard_ c) as cs. induction 1 as [|x s cs ss (L & U & Hs) _ IH]; [done|]. cbn [map concat].
  by rewrite IH, (sim_gone _ _ _ _ _ _ Hs).
Qed.

Lemma shard_call oc held n t ss i o :
  objs_ok good oc held n t ss -> (i < 16)%nat -> Z.of_nat n + 2 < 2 ^ 31 -> 0 <= call_charge o -> t + call_charge o < 2 ^ 64 ->
  (forall s, ss !! i = Some s -> releases_held (held_by s) o = true) ->
  exists c s r c' s', shard_ (oc_cache oc) !! i = Some c /\ ss !! i = Some s /\ call_cache HashSlice c o = Some (r, c') /\
    promised (capacity_ c) s o r s' /\ held_by s' = held_after o r (held_by s) /\ total s' <= t + call_charge o /\
    sims (S n) (<[i := c']> (shard_ (oc_cache oc))) (<[i := s']> ss).
Proof.
  intros [H1 H2 _ _ H4 _ _ _ _ _] Hi Hn Hch Ht Hr. destruct (lookup_lt_is_Some_2 ss i ltac:(lia)) as [s Es].
  destruct (Forall2_lookup_r _ _ _ _ _ H1 Es) as (c & Ec & L & U & Hs). pose proof (H4 i s Es).
  destruct (step_any HashSlice HashSlice_range c s n L U o Hs Hn Hch ltac:(lia) (Hr s Es)) as (r & c' & s' & L' & U' & E & Hp & _ & Hh & Hs').
  exists c, s, r, c', s'. split; [done|]. split; [done|]. split; [done|]. split; [done|]. split; [done|].
  split; [pose proof (promised_total _ _ _ _ _ Hp Hch); lia|].
  apply Forall2_insert; [by apply (sims_weaken n); [lia|]|by exists L', U'].
Qed.

Lemma all_values_perm ss i s s' vs :
  ss !! i = Some s -> map snd (gone s') ++ alive_values s' ≡ₚ vs ++ map snd (gone s) ++ alive_values s ->
  all_values (<[i := s']> ss) ≡ₚ vs ++ all_values ss.
Proof.
  unfold all_values. revert i. induction ss as [|x ss IH]; intros [|i]; cbn; [done|done| |].
  - intros [= ->] Hp. rewrite app_assoc, Hp, !app_assoc. done.
  - intros Es Hp. rewrite (IH i Es Hp). solve_Permutation.
Qed.

Lemma map_pairs_values (l : list (nat * (bytes * Z))) : map snd (map snd l) = map (fun x => snd (snd x)) l.
Proof. by rewrite map_map. Qed.

(** What a call on shard [i] that adds the values [vs] leaves. *)
Lemma objs_step oc held n t ss i s s' c' before vs objs' next' held' t' :
  objs_ok good oc held n t ss -> ss !! i = Some s -> sims (S n) (<[i := c']> (shard_ (oc_cache oc))) (<[i := s']> ss) ->
  dropped s before s' -> total s' <= t' -> t <= t' ->
  (forall e k v, before !! e = Some (k, v) -> shard_of k = i /\ exists x, objs' !! v = Some x /\ good k x) ->
  map (fun x => snd (snd x)) (map_to_list before) ≡ₚ vs ++ alive_values s -> NoDup (vs ++ all_values ss) ->
  (forall v, v ∈ vs -> v < next') -> oc_objs oc ⊆ objs' -> oc_next oc <= next' -> (forall v x, objs' !! v = Some x -> v < next') ->
  held_by s' ≡ₚ held_in i held' -> (forall j, j <> i -> held_in j held' ≡ₚ held_in j held) -> (forall h, h ∈ held' -> (fst h < 16)%nat) ->
  objs_ok good (mkObjs (mkSharded (<[i := c']> (shard_ (oc_cache oc))) (last_id_ (oc_cache oc))) objs' next') held' (S n) t' (<[i := s']> ss).
Proof.
  intros Hok Es Hs (Hsub & Hperm & _) Ht Htt Hbef Hvs Hnd Hv Hobj Hnx Hdom Hh Hhj Hr.
  assert (Hpv : all_values (<[i := s']> ss) ≡ₚ vs ++ all_values ss).
  { apply (all_values_perm ss i s s' vs Es). unfold alive_values.
    apply (fmap_Permutation snd) in Hperm. rewrite !fmap_app in Hperm.
    change (snd <$> gone s') with (map snd (gone s')) in Hperm. change (snd <$> gone s) with (map snd (gone s)) in Hperm.
    rewrite <- (map_pairs_values (map_to_list (alive s'))), <- (map_pairs_values (map_to_list (alive s))). etrans; [exact Hperm|].
    change (map snd (gone s) ++ map snd (map snd (map_to_list before)) ≡ₚ vs ++ map snd (gone s) ++ map snd (map snd (map_to_list (alive s)))).
    rewrite map_pairs_values, Hvs. unfold alive_values. rewrite map_pairs_values. solve_Permutation. }
  assert (Hlt : (i < length ss)%nat) by (by eapply lookup_lt_Some).
  destruct Hok as [H1 H2 H3 H3' H4 H5 H6 H7 H8 H9]. split; cbn [oc_cache shard_ oc_objs oc_next].
  - done.
  - by rewrite length_insert.
  - intros j sj Hj. apply list_lookup_insert_Some in Hj as [(<- & <- & _)|[Hne Hj]]; [done|]. rewrite Hhj by done. by apply H3.
  - done.
  - intros j sj Hj. apply list_lookup_insert_Some in Hj as [(<- & <- & _)|[Hne Hj]]; [done|]. specialize (H4 j sj Hj). lia.
  - intros j sj e k v Hj Ha. apply list_lookup_insert_Some in Hj as [(<- & <- & _)|[Hne Hj]]; [|by eapply H5].
    eapply (Hbef e k v), lookup_weaken; done.
  - intros j sj e k v Hj Ha. apply list_lookup_insert_Some in Hj as [(<- & <- & _)|[Hne Hj]].
    + eapply (Hbef e k v), lookup_weaken; done.
    + destruct (H6 j sj e k v Hj Ha) as (x & Ex & Hx). exists x. split; [|done]. by eapply lookup_weaken.
  - by rewrite Hpv.
  - intros v. rewrite Hpv, elem_of_app. intros [?|Hx]; [by apply Hv|]. specialize (H8 v Hx). lia.
  - done.
Qed.

(** *** Reading *)

Lemma alive_handle oc held n t ss i s e k v :
  objs_ok good oc held n t ss -> ss !! i = Some s -> alive s !! e = Some (k, v) ->
  exists h, handle_at (oc_cache oc) (i, e) = Some h /\ value h = v /\ h_hash h = HashSlice k.
Proof.
  intros Hok Es Ha. destruct (Forall2_lookup_r _ _ _ _ _ (oo_shards _ _ _ _ _ _ Hok) Es) as (c & Ec & L & U & Hs).
  rewrite (sim_alive _ _ _ _ _ _ Hs) in Ha. destruct (sim_ok _ _ _ _ _ _ Hs) as (Hc & _). revert Ha. unfold entries, infos.
  rewrite !lookup_fmap, !lookup_delete. destruct (decide (lru_ = e)) as [|N1]; [done|]. destruct (decide (in_use_ = e)) as [|N2]; [done|].
  destruct (handles c !! e) as [h|] eqn:Eh; [|done]. intros [= <- <-]. exists h. unfold handle_at. cbn [fst snd]. rewrite Ec.
  split; [done|]. split; [done|]. apply (core_handles _ _ _ _ _ Hc e h Eh). unfold is_head. intuition.
Qed.

Lemma values_split ss :
  all_values ss ≡ₚ concat (map (fun s => map snd (gone s)) ss) ++ concat (map alive_values ss).
Proof. unfold all_values. induction ss as [|s ss IH]; [done|]. cbn [map concat]. rewrite IH. solve_Permutation. Qed.

Lemma alive_value_in ss i s e k v : ss !! i = Some s -> alive s !! e = Some (k, v) -> v ∈ concat (map alive_values ss).
Proof.
  intros Es Ha. apply list_elem_of_In, in_concat. exists (alive_values s). split.
  - apply in_map, list_elem_of_In. by eapply list_elem_of_lookup_2.
  - unfold alive_values. apply in_map_iff. exists (e, (k, v)). split; [done|]. by apply list_elem_of_In, elem_of_map_to_list.
Qed.

(** A handle that is alive can be read, and reads an object that is good for its key. *)
Lemma alive_Value oc held n t ss i s e k v :
  objs_ok good oc held n t ss -> ss !! i = Some s -> alive s !! e = Some (k, v) ->
  oc_Value oc (i, e) = oc_objs oc !! v /\ exists x, oc_objs oc !! v = Some x /\ good k x.
Proof.
  intros Hok Es Ha. split; [|by eapply (oo_good _ _ _ _ _ _ Hok)]. unfold oc_Value, Value.
  destruct (alive_handle oc held n t ss i s e k v Hok Es Ha) as (h & -> & <- & _). cbn [fmap option_fmap option_map mbind option_bind].
  unfold obj_at. rewrite bool_decide_eq_false_2; [done|]. rewrite (freed_gone n _ ss (oo_shards _ _ _ _ _ _ Hok)). intros Hf.
  pose proof (oo_values _ _ _ _ _ _ Hok) as Hnd. rewrite values_split in Hnd. apply NoDup_app in Hnd as (_ & Hnd & _).
  apply (Hnd _ Hf). by eapply alive_value_in.
Qed.

Lemma elem_of_held_in i e held : e ∈ held_in i held <-> (i, e) ∈ held.
Proof.
  unfold held_in. rewrite list_elem_of_omap. split.
  - intros ([j e'] & Hin & E). cbn in E. destruct (Nat.eqb_spec j i) as [->|]; [|done]. by injection E as ->.
  - intros Hin. exists (i, e). cbn. by rewrite Nat.eqb_refl.
Qed.

Lemma held_is_alive oc held n t ss h :
  objs_ok good oc held n t ss -> h ∈ held -> exists s k v, ss !! fst h = Some s /\ alive s !! snd h = Some (k, v).
Proof.
  intros Hok Hh. pose proof (oo_in_range _ _ _ _ _ _ Hok h Hh) as Hr. rewrite <- (oo_sixteen _ _ _ _ _ _ Hok) in Hr.
  destruct (lookup_lt_is_Some_2 ss (fst h) Hr) as [s Es].
  destruct (Forall2_lookup_r _ _ _ _ _ (oo_shards _ _ _ _ _ _ Hok) Es) as (c & Ec & L & U & Hs).
  destruct (held_alive HashSlice c (held_by s) L U (snd h)) as [[k v] E].
  - apply (sim_ok _ _ _ _ _ _ Hs).
  - rewrite (oo_held _ _ _ _ _ _ Hok _ s Es). apply elem_of_held_in. by destruct h.
  - exists s, k, v. split; [done|]. by rewrite (sim_alive _ _ _ _ _ _ Hs).
Qed.

(** What a client sees of the cache. *)
Definition objs_inv oc held n t : Prop := exists ss, objs_ok good oc held n t ss.

(** A pinned object can be read. *)
Lemma oc_Value_ok oc held n t h : objs_inv oc held n t -> h ∈ held -> exists k x, oc_Value oc h = Some x /\ good k x.
Proof.
  intros [ss Hok] Hh. destruct (held_is_alive oc held n t ss h Hok Hh) as (s & k & v & Es & Ha).
  destruct (alive_Value oc held n t ss _ s _ k v Hok Es Ha) as (E & x & Ex & Hx). exists k, x. split; [|done].
  by destruct h as [i e]; cbn [fst snd] in E; rewrite E.
Qed.

(** What was pinned and still is reads the same. *)
Definition same_pinned oc oc' (held held' : list Handle) : Prop :=
  forall h, h ∈ held -> h ∈ held' -> oc_Value oc' h = oc_Value oc h.

Lemma step_same oc held n t ss i s s' oc' held' n' t' before :
  objs_ok good oc held n t ss -> objs_ok good oc' held' n' t' (<[i := s']> ss) -> ss !! i = Some s ->
  alive s' ⊆ before -> alive s ⊆ before -> oc_objs oc ⊆ oc_objs oc' -> same_pinned oc oc' held held'.
Proof.
  intros Hok Hok' Es Hs' Hs Ho [j e] H1 H2.
  destruct (held_is_alive _ _ _ _ _ _ Hok H1) as (sj & k & v & Ej & Ha). destruct (held_is_alive _ _ _ _ _ _ Hok' H2) as (sj' & k' & v' & Ej' & Ha').
  cbn [fst snd] in *. assert (Heq : Some (k, v) = Some (k', v')).
  { apply list_lookup_insert_Some in Ej' as [(<- & <- & _)|[Hne Ej']]; [|congruence]. rewrite Es in Ej. injection Ej as <-.
    rewrite <- (lookup_weaken _ _ _ _ Ha Hs). by apply (lookup_weaken _ _ _ _ Ha'). }
  injection Heq as <- <-. destruct (alive_Value _ _ _ _ _ _ _ _ _ _ Hok Ej Ha) as (-> & x & Ex & _).
  destruct (alive_Value _ _ _ _ _ _ _ _ _ _ Hok' Ej' Ha') as (-> & _). rewrite Ex. by apply (lookup_weaken _ _ _ _ Ex).
Qed.

Lemma held_in_cons i e held : held_in i ((i, e) :: held) = e :: held_in i held.
Proof. unfold held_in. cbn. by rewrite Nat.eqb_refl. Qed.

Lemma held_in_other i j e held : j <> i -> held_in j ((i, e) :: held) = held_in j held.
Proof. intros Hne. unfold held_in. cbn. by destruct (Nat.eqb_spec i j) as [->|]. Qed.

Lemma held_in_perm i held held' : held ≡ₚ held' -> held_in i held ≡ₚ held_in i held'.
Proof. intros Hp. unfold held_in. by apply omap_Permutation. Qed.

(** *** The operations *)

(** A call that adds no entry. *)
Lemma objs_keep oc held n t ss i s s' c' held' :
  objs_ok good oc held n t ss -> ss !! i = Some s -> sims (S n) (<[i := c']> (shard_ (oc_cache oc))) (<[i := s']> ss) ->
  dropped s (alive s) s' -> total s' <= t ->
  held_by s' ≡ₚ held_in i held' -> (forall j, j <> i -> held_in j held' ≡ₚ held_in j held) -> (forall h, h ∈ held' -> (fst h < 16)%nat) ->
  let oc' := mkObjs (mkSharded (<[i := c']> (shard_ (oc_cache oc))) (last_id_ (oc_cache oc))) (oc_objs oc) (oc_next oc) in
  objs_ok good oc' held' (S n) t (<[i := s']> ss) /\ same_pinned oc oc' held held'.
Proof.
  intros Hok Es Hs Hd Ht H1 H2 H3 oc'.
  assert (Hok' : objs_ok good oc' held' (S n) t (<[i := s']> ss)).
  { eapply (objs_step oc held n t ss i s s' c' (alive s) []); try done; [|apply (oo_values _ _ _ _ _ _ Hok)| |exact (oo_dom _ _ _ _ _ _ Hok)].
    - intros e k v Ha. split; [by eapply (oo_key _ _ _ _ _ _ Hok)|by eapply (oo_good _ _ _ _ _ _ Hok)].
    - intros v Hv. by apply not_elem_of_nil in Hv. }
  split; [done|]. by eapply (step_same oc held n t ss i s s'); [..|apply Hd| |].
Qed.

Lemma promised_dropped n cs ss i s s' cap o r :
  sims n cs (<[i := s']> ss) -> ss !! i = Some s -> promised cap s o r s' -> call_pairs o = [] -> dropped s (alive s) s'.
Proof.
  intros Hs Es Hp Ho.
  destruct (Forall2_lookup_r _ _ _ _ _ Hs (list_lookup_insert_eq ss i s' ltac:(by eapply lookup_lt_Some))) as (? & _ & L & U & Hsim).
  assert (Hh : forall y, y ∈ held_by s' -> is_Some (alive s' !! y)).
  { intros y Hy. rewrite (sim_alive _ _ _ _ _ _ Hsim). by apply (held_alive HashSlice _ _ _ _ _ (sim_ok _ _ _ _ _ _ Hsim)). }
  by inversion Hp; subst.
Qed.

Lemma in_range_cons i e held : (i < 16)%nat -> (forall h, h ∈ held -> (fst h < 16)%nat) -> forall h : Handle, h ∈ (i, e) :: held -> (fst h < 16)%nat.
Proof. intros Hi H h. rewrite elem_of_cons. intros [->|?]; [done|by apply H]. Qed.

Lemma oc_Lookup_ok oc held n t key :
  objs_inv oc held n t -> Z.of_nat n + 2 < 2 ^ 31 -> t < 2 ^ 64 ->
  exists r oc', oc_Lookup oc key = Some (r, oc') /\
    match r with
    | Some h => objs_inv oc' (h :: held) (S n) t /\ same_pinned oc oc' held (h :: held) /\ exists x, oc_Value oc' h = Some x /\ good key x
    | None => objs_inv oc' held (S n) t /\ same_pinned oc oc' held held
    end.
Proof.
  intros [ss Hok] Hn Ht. set (i := shard_of key). pose proof (Shard_range key) as Hi. fold i in Hi.
  destruct (shard_call oc held n t ss i (CLookup key) Hok Hi Hn ltac:(done) ltac:(cbn; lia) (fun _ _ => eq_refl))
    as (c & s & r & c' & s' & Ec & Es & E & Hp & Hh & Htot & Hs). cbn in Htot.
  cbn [call_cache] in E. unfold oc_Lookup, Lookup, on_shard. fold i. rewrite Ec. cbn [mbind option_bind]. rewrite E.
  cbn [mbind option_bind]. eexists _, _. split; [done|].
  pose proof (promised_dropped _ _ _ _ _ _ _ _ _ Hs Es Hp eq_refl) as Hd.
  pose proof (oo_held _ _ _ _ _ _ Hok i s Es) as Hhs. pose proof (oo_in_range _ _ _ _ _ _ Hok) as Hr.
  destruct r as [e|]; cbn [option_map held_after] in *.
  - destruct (objs_keep oc held n t ss i s s' c' ((i, e) :: held)) as [Hok' Hsame]; try done; [lia|by rewrite held_in_cons, Hh, Hhs| |by apply in_range_cons|].
    { intros j Hj. by rewrite held_in_other. }
    split; [by eexists|]. split; [done|]. inversion Hp as [|? ? v Hcur Ha| | | |]; subst.
    destruct (alive_Value _ _ _ _ _ i _ e key v Hok' (list_lookup_insert_eq ss i _ ltac:(by eapply lookup_lt_Some)) Ha) as (-> & x & Ex & Hx).
    by exists x.
  - destruct (objs_keep oc held n t ss i s s' c' held) as [Hok' Hsame]; try done; [lia|by rewrite Hh|]. split; [by eexists|done].
Qed.

Lemma oc_Release_ok oc held held' n t h :
  objs_inv oc held n t -> Z.of_nat n + 2 < 2 ^ 31 -> t < 2 ^ 64 -> held ≡ₚ h :: held' ->
  exists oc', oc_Release oc h = Some oc' /\ objs_inv oc' held' (S n) t /\ same_pinned oc oc' held held'.
Proof.
  intros [ss Hok] Hn Ht Hp. destruct h as [i e].
  assert (Hin : (i, e) ∈ held) by (rewrite Hp; apply list_elem_of_here).
  assert (Hr' : forall h, h ∈ held' -> (fst h < 16)%nat).
  { intros h Hh. apply (oo_in_range _ _ _ _ _ _ Hok). rewrite Hp. by apply list_elem_of_further. }
  destruct (held_is_alive _ _ _ _ _ _ Hok Hin) as (s0 & k & v & Es0 & Ha). cbn [fst snd] in *.
  destruct (alive_handle _ _ _ _ _ _ _ _ _ _ Hok Es0 Ha) as (h & Eh & _ & Hhash).
  pose proof (oo_held _ _ _ _ _ _ Hok i s0 Es0) as Hhs.
  destruct (shard_call oc held n t ss i (CRelease e) Hok (oo_in_range _ _ _ _ _ _ Hok (i, e) Hin) Hn ltac:(done) ltac:(cbn; lia))
    as (c & s & r & c' & s' & Ec & Es & E & Hpr & Hh & Htot & Hs).
  { intros s Es. apply bool_decide_eq_true. rewrite (oo_held _ _ _ _ _ _ Hok i s Es). by apply elem_of_held_in. }
  rewrite Es in Es0. injection Es0 as <-. cbn in Htot.
  unfold oc_Release, Sharded_Release. rewrite Eh. cbn [mbind option_bind]. rewrite Hhash, (oo_key _ _ _ _ _ _ Hok i s e k v Es Ha). cbn [fst snd].
  rewrite Nat.eqb_refl. cbn [negb]. unfold on_shard. rewrite Ec. cbn [call_cache mbind option_bind] in *.
  destruct (Release c e) as [c1|]; [|done]. cbn [mbind option_bind] in *. injection E as <- <-.
  eexists. split; [done|].
  pose proof (promised_dropped _ _ _ _ _ _ _ _ _ Hs Es Hpr eq_refl) as Hd. pose proof (held_in_perm i _ _ Hp) as Hpi. rewrite held_in_cons in Hpi.
  destruct (objs_keep oc held n t ss i s s' c1 held') as [Hok' Hsame]; try done; [lia| | |by split; [eexists|]].
  - rewrite Hh. cbn [held_after]. apply (Permutation_cons_inv (a := e)). rewrite <- remove_one_perm; [by rewrite Hhs|].
    rewrite Hhs, Hpi. apply list_elem_of_here.
  - intros j Hj. by rewrite (held_in_perm j _ _ Hp), held_in_other.
Qed.

Lemma oc_Erase_ok oc held n t key :
  objs_inv oc held n t -> Z.of_nat n + 2 < 2 ^ 31 -> t < 2 ^ 64 ->
  exists oc', oc_Erase oc key = Some oc' /\ objs_inv oc' held (S n) t /\ same_pinned oc oc' held held.
Proof.
  intros [ss Hok] Hn Ht. set (i := shard_of key). pose proof (Shard_range key) as Hi. fold i in Hi.
  destruct (shard_call oc held n t ss i (CErase key) Hok Hi Hn ltac:(done) ltac:(cbn; lia) (fun _ _ => eq_refl))
    as (c & s & r & c' & s' & Ec & Es & E & Hp & Hh & Htot & Hs). cbn in Htot.
  unfold oc_Erase, Sharded_Erase, on_shard. fold i. rewrite Ec. cbn [call_cache mbind option_bind] in *.
  destruct (Erase c key (HashSlice key)) as [c1|]; [|done]. cbn [mbind option_bind] in *. injection E as <- <-.
  eexists. split; [done|]. pose proof (promised_dropped _ _ _ _ _ _ _ _ _ Hs Es Hp eq_refl) as Hd.
  destruct (objs_keep oc held n t ss i s s' c1 held) as [Hok' Hsame]; try done; [lia| |by apply (oo_in_range _ _ _ _ _ _ Hok)|by split; [eexists|]].
  rewrite Hh. by apply (oo_held _ _ _ _ _ _ Hok).
Qed.

Lemma oc_Insert_ok oc held n t key x ch :
  objs_inv oc held n t -> Z.of_nat n + 2 < 2 ^ 31 -> 0 <= ch -> t + ch < 2 ^ 64 -> good key x ->
  exists h oc', oc_Insert oc key x ch = Some (h, oc') /\ objs_inv oc' (h :: held) (S n) (t + ch) /\
    same_pinned oc oc' held (h :: held) /\ oc_Value oc' h = Some x.
Proof.
  intros [ss Hok] Hn Hch Ht Hx. set (i := shard_of key). pose proof (Shard_range key) as Hi. fold i in Hi.
  destruct (shard_call oc held n t ss i (CInsert key (oc_next oc) ch) Hok Hi Hn Hch Ht (fun _ _ => eq_refl))
    as (c & s & r & c' & s' & Ec & Es & E & Hp & Hh & Htot & Hs). cbn [call_charge] in Htot.
  inversion Hp as [? ? ? e ? Hfr Hhe Hcur Hd Htt Hcap| | | | |]; subst.
  unfold oc_Insert, Insert, on_shard. fold i. rewrite Ec. cbn [call_cache mbind option_bind] in *.
  destruct (LRU_Insert c key (HashSlice key) (oc_next oc) ch) as [[e' c1]|]; [|done]. cbn [mbind option_bind] in *. injection E as -> ->.
  eexists _, _. split; [done|]. set (oc' := mkObjs _ _ _).
  assert (Hno : oc_next oc ∉ all_values ss) by (intros Hv; pose proof (oo_fresh _ _ _ _ _ _ Hok _ Hv); lia).
  assert (Hsub : oc_objs oc ⊆ <[oc_next oc := x]> (oc_objs oc)).
  { apply insert_subseteq. destruct (oc_objs oc !! oc_next oc) eqn:Ev; [|done]. pose proof (oo_dom _ _ _ _ _ _ Hok _ _ Ev). lia. }
  pose proof (oo_in_range _ _ _ _ _ _ Hok) as Hr.
  assert (Hok' : objs_ok good oc' ((i, e) :: held) (S n) (t + ch) (<[i := s']> ss)).
  { eapply (objs_step oc held n t ss i s s' c' (<[e := (key, oc_next oc)]> (alive s)) [oc_next oc]); try done; try lia.
    - intros e1 k v Ha. apply lookup_insert_Some in Ha as [(<- & Ha)|[_ Ha]].
      + injection Ha as <- <-. split; [done|]. exists x. by rewrite lookup_insert_eq.
      + split; [by eapply (oo_key _ _ _ _ _ _ Hok)|]. destruct (oo_good _ _ _ _ _ _ Hok i s e1 k v Es Ha) as (y & Ey & Hy).
        exists y. split; [|done]. by apply (lookup_weaken _ _ _ _ Ey).
    - rewrite map_to_list_insert by done. done.
    - cbn [app]. apply NoDup_cons. split; [done|apply (oo_values _ _ _ _ _ _ Hok)].
    - intros v Hv. apply list_elem_of_singleton in Hv as ->. lia.
    - intros v y Hv. apply lookup_insert_Some in Hv as [(<- & _)|[_ Hv]]; [lia|]. pose proof (oo_dom _ _ _ _ _ _ Hok _ _ Hv). lia.
    - rewrite held_in_cons, Hhe. constructor. by apply (oo_held _ _ _ _ _ _ Hok).
    - intros j Hj. by rewrite held_in_other.
    - by apply in_range_cons. }
  split; [by eexists|]. split.
  - eapply (step_same oc held n t ss i s s'); [done|done|done|apply Hd|by apply insert_subseteq|done].
  - destruct (proj2 (proj2 Hd) e) as [[k v] Ha]; [rewrite Hhe; apply list_elem_of_here|].
    pose proof (lookup_weaken _ _ _ _ Ha (proj1 Hd)) as Ha'. rewrite lookup_insert_eq in Ha'. injection Ha' as <- <-.
    destruct (alive_Value _ _ _ _ _ i _ e key (oc_next oc) Hok' (list_lookup_insert_eq ss i _ ltac:(by eapply lookup_lt_Some)) Ha) as (-> & _).
    cbn. by rewrite lookup_insert_eq.
Qed.

Lemma objs_new capacity : objs_inv (ObjCache_new capacity) [] 0 0.
Proof.
  exists (replicate 16 client_new). unfold ObjCache_new, ShardedLRUCache_new. split; cbn [oc_cache shard_ oc_objs oc_next].
  - change (Z.to_nat kNumShards) with 16%nat. set (cap := _ / _). clearbody cap.
    assert (exists L U, simulates HashSlice (SetCapacity LRUCache_new cap) client_new 0 L U) by (exists [], []; apply sim_new).
    repeat (constructor; [done|]). constructor.
  - done.
  - intros i s Es. by apply lookup_replicate in Es as [-> _].
  - intros h Hh. by apply not_elem_of_nil in Hh.
  - intros i s Es. by apply lookup_replicate in Es as [-> _].
  - intros i s e k v Es Ha. apply lookup_replicate in Es as [-> _]. done.
  - intros i s e k v Es Ha. apply lookup_replicate in Es as [-> _]. done.
  - apply NoDup_nil_2.
  - intros v Hv. by apply not_elem_of_nil in Hv.
  - done.
Qed.

Lemma objs_weaken oc held n t m u : (n <= m)%nat -> t <= u -> objs_inv oc held n t -> objs_inv oc held m u.
Proof.
  intros Hn Ht [ss [H1 H2 H3 H3' H4 H5 H6 H7 H8 H9]]. exists ss. split; try done; [by apply (sims_weaken n)|].
  intros i s Es. specialize (H4 i s Es). lia.
Qed.

End Steps.

(** What is good may become more, and the id counter is not part of the objects. *)
Lemma objs_mono (good good' : bytes -> T -> Prop) oc held n t :
  (forall k x, good k x -> good' k x) -> objs_inv good oc held n t -> objs_inv good' oc held n t.
Proof.
  intros Hg [ss [H1 H2 H3 H3' H4 H5 H6 H7 H8 H9]]. exists ss. split; try done.
  intros i s e k v Es Ha. destruct (H6 i s e k v Es Ha) as (x & Ex & Hx). exists x. split; [done|by apply Hg].
Qed.

Lemma objs_last_id good oc held n t id :
  objs_inv good oc held n t -> objs_inv good (mkObjs (mkSharded (shard_ (oc_cache oc)) id) (oc_objs oc) (oc_next oc)) held n t.
Proof. intros [ss [H1 H2 H3 H3' H4 H5 H6 H7 H8 H9]]. exists ss. by split. Qed.

Lemma on_shard_last_id {A} c i (f : LRUCache -> option (A * LRUCache)) a c' : on_shard c i f = Some (a, c') -> last_id_ c' = last_id_ c.
Proof. unfold on_shard. destruct (shard_ c !! i) as [s|]; [|done]. cbn. destruct (f s) as [[x s']|]; [|done]. cbn. by intros [= _ <-]. Qed.

Lemma oc_Lookup_last_id oc key r oc' : oc_Lookup oc key = Some (r, oc') -> last_id_ (oc_cache oc') = last_id_ (oc_cache oc).
Proof.
  unfold oc_Lookup, Lookup. destruct (on_shard _ _ _) as [[x c]|] eqn:E; [|done]. cbn. intros [= _ <-]. by apply on_shard_last_id in E.
Qed.

Lemma oc_Insert_last_id oc key x ch h oc' : oc_Insert oc key x ch = Some (h, oc') -> last_id_ (oc_cache oc') = last_id_ (oc_cache oc).
Proof.
  unfold oc_Insert, Insert. destruct (on_shard _ _ _) as [[y c]|] eqn:E; [|done]. cbn. intros [= _ <-]. by apply on_shard_last_id in E.
Qed.

Lemma oc_Release_last_id oc h oc' : oc_Release oc h = Some oc' -> last_id_ (oc_cache oc') = last_id_ (oc_cache oc).
Proof.
  unfold oc_Release, Sharded_Release. destruct (handle_at _ _) as [x|]; [|done]. cbn. destruct (negb _); [done|].
  destruct (on_shard _ _ _) as [[y c]|] eqn:E; [|done]. cbn. intros [= <-]. by apply on_shard_last_id in E.
Qed.

End Objects.
Arguments ObjCache : clear implicits.
