(* ===== verification/TableBuilder.v ===== *)
(** * Building a table file

    [table/table_builder.cc]: the builder that turns a sorted sequence of entries
    into data blocks, a filter block, a metaindex block, an index block and a
    footer.  Every call on the file may fail; its status is kept and stops the
    building.  Operations are [None] where an assertion of the source fails. *)

From S2P Require Import Prelude Slice Coding Crc32c Status Env Comparator FilterBlock Format Iterator Options BlockBuilder.

Section TableBuilder.

(** The file, the compression libraries, and the address of the buffers the
    checksum loop aligns on. *)
Context {F : Type} `{WritableFile F} (snappy zstd : Codec) (addr : Z).

(** [struct TableBuilder::Rep].  [index_block_options] is always the copy of
    [options] with restart interval 1, and [compressed_output] is empty between
    calls.  A filter block builder keeps the policy it was made with. *)
Record Rep := mkRep {
  r_options : Options;
  r_file : F;
  r_offset : Z;
  r_status : Status;
  r_data_block : BlockBuilder;
  r_index_block : BlockBuilder;
  r_last_key : bytes;
  r_num_entries : Z;
  r_closed : bool;
  r_filter_block : option (FilterPolicy * FilterBlockBuilder);
  r_pending_index_entry : bool;
  r_pending_handle : BlockHandle
}.

Definition index_block_options (o : Options) : Options := set_block_restart_interval o 1.

Definition set_file (r : Rep) (file : F) (offset : Z) (status : Status) : Rep :=
  mkRep (r_options r) file offset status (r_data_block r) (r_index_block r) (r_last_key r)
    (r_num_entries r) (r_closed r) (r_filter_block r) (r_pending_index_entry r) (r_pending_handle r).

Definition set_data_block (r : Rep) (b : BlockBuilder) : Rep :=
  mkRep (r_options r) (r_file r) (r_offset r) (r_status r) b (r_index_block r) (r_last_key r)
    (r_num_entries r) (r_closed r) (r_filter_block r) (r_pending_index_entry r) (r_pending_handle r).

Definition set_index_block (r : Rep) (b : BlockBuilder) (last_key : bytes) : Rep :=
  mkRep (r_options r) (r_file r) (r_offset r) (r_status r) (r_data_block r) b last_key
    (r_num_entries r) (r_closed r) (r_filter_block r) false (r_pending_handle r).

Definition set_filter_block (r : Rep) (b : option (FilterPolicy * FilterBlockBuilder)) : Rep :=
  mkRep (r_options r) (r_file r) (r_offset r) (r_status r) (r_data_block r) (r_index_block r)
    (r_last_key r) (r_num_entries r) (r_closed r) b (r_pending_index_entry r) (r_pending_handle r).

Definition set_last_key (r : Rep) (key : bytes) : Rep :=
  mkRep (r_options r) (r_file r) (r_offset r) (r_status r) (r_data_block r) (r_index_block r)
    key (r_num_entries r + 1) (r_closed r) (r_filter_block r) (r_pending_index_entry r) (r_pending_handle r).

Definition set_pending (r : Rep) (pending : bool) (handle : BlockHandle) : Rep :=
  mkRep (r_options r) (r_file r) (r_offset r) (r_status r) (r_data_block r) (r_index_block r)
    (r_last_key r) (r_num_entries r) (r_closed r) (r_filter_block r) pending handle.

Definition set_closed (r : Rep) : Rep :=
  mkRep (r_options r) (r_file r) (r_offset r) (r_status r) (r_data_block r) (r_index_block r)
    (r_last_key r) (r_num_entries r) true (r_filter_block r) (r_pending_index_entry r) (r_pending_handle r).

Definition filter_StartBlock (r : Rep) (offset : Z) : Rep :=
  set_filter_block r
    ((fun '(p, b) => (p, StartBlock p offset b)) <$> r_filter_block r).

(** [Rep::Rep] and the constructor of [TableBuilder]. *)
Definition TableBuilder_make (options : Options) (file : F) : option Rep :=
  data_block ← BlockBuilder_make options;
  index_block ← BlockBuilder_make options;
  let filter_block := (fun p => (p, FilterBlockBuilder_make)) <$> filter_policy options in
  Some (filter_StartBlock
    (mkRep options file 0 OK data_block index_block [] 0 false filter_block false BlockHandle_new) 0).

(** [same_comparator] is the test [options.comparator != rep_->options.comparator]
    on pointers. *)
Definition ChangeOptions (r : Rep) (options : Options) (same_comparator : bool) : Status * Rep :=
  if negb same_comparator
  then (InvalidArgument (str "changing comparator while building table") [], r)
  else (OK, mkRep options (r_file r) (r_offset r) (r_status r) (r_data_block r) (r_index_block r)
              (r_last_key r) (r_num_entries r) (r_closed r) (r_filter_block r)
              (r_pending_index_entry r) (r_pending_handle r)).

Definition tb_ok (r : Rep) : bool := ok (r_status r).

(** [WriteRawBlock]; also the handle it fills. *)
Definition WriteRawBlock (r : Rep) (block_contents : bytes) (type : Z) : Rep * BlockHandle :=
  let handle := mkHandle (r_offset r) (blen block_contents) in
  let '(status, file) := Append (r_file r) block_contents in
  if ok status then
    let crc := Value addr block_contents in
    let crc := Extend addr crc [z2b type] in
    let trailer := [z2b type] ++ EncodeFixed32 (Mask crc) in
    let '(status, file) := Append file trailer in
    if ok status
    then (set_file r file (u64 (r_offset r + blen block_contents + kBlockTrailerSize)) status, handle)
    else (set_file r file (r_offset r) status, handle)
  else (set_file r file (r_offset r) status, handle).

(** The choice between the compressed and the raw form: less than 12.5% saved, or
    no library, stores the block as it is. *)
Definition compress_block (c : Codec) (level : Z) (raw : bytes) (type : Z) : bytes * Z :=
  match Codec_Compress c level raw with
  | Some compressed =>
      if blen compressed <? blen raw - blen raw / 8 then (compressed, type)
      else (raw, kNoCompression)
  | None => (raw, kNoCompression)
  end.

Definition block_contents_of (o : Options) (raw : bytes) : bytes * Z :=
  let type := compression o in
  if type =? kNoCompression then (raw, type)
  else if type =? kSnappyCompression then compress_block snappy 0 raw type
  else if type =? kZstdCompression then compress_block zstd (zstd_compression_level o) raw type
  else ([], type).

(** [WriteBlock]: the builder state, the handle and the reset block builder. *)
Definition WriteBlock (r : Rep) (block : BlockBuilder) : option (Rep * BlockHandle * BlockBuilder) :=
  if tb_ok r then
    let block := BlockBuilder_Finish block in
    let '(block_contents, type) := block_contents_of (r_options r) (buffer_ block) in
    let '(r, handle) := WriteRawBlock r block_contents type in
    Some (r, handle, BlockBuilder_Reset block)
  else None.

Definition TableBuilder_Flush (r : Rep) : option Rep :=
  if r_closed r then None
  else if negb (tb_ok r) then Some r
  else if BlockBuilder_empty (r_data_block r) then Some r
  else if r_pending_index_entry r then None
  else
    '(r, handle, block) ← WriteBlock r (r_data_block r);
    let r := set_pending (set_data_block r block) (r_pending_index_entry r) handle in
    let r := if tb_ok r then
               let r := set_pending r true handle in
               let '(status, file) := Flush (r_file r) in
               set_file r file (r_offset r) status
             else r in
    Some (filter_StartBlock r (r_offset r)).

(** The pending index entry, with [last_key] replaced by the separator. *)
Definition add_index_entry (r : Rep) (separator : bytes) : option Rep :=
  handle_encoding ← BlockHandle_EncodeTo (r_pending_handle r) [];
  index_block ← BlockBuilder_Add (index_block_options (r_options r)) (r_index_block r)
                  separator handle_encoding;
  Some (set_index_block r index_block separator).

Definition TableBuilder_Add (r : Rep) (key value : bytes) : option Rep :=
  if r_closed r then None
  else if negb (tb_ok r) then Some r
  else if (0 <? r_num_entries r) && negb (0 <? Compare (comparator (r_options r)) key (r_last_key r))
  then None
  else
    r ← (if r_pending_index_entry r then
           if BlockBuilder_empty (r_data_block r) then
             add_index_entry r (FindShortestSeparator (comparator (r_options r)) (r_last_key r) key)
           else None
         else Some r);
    let r := set_filter_block r ((fun '(p, b) => (p, AddKey key b)) <$> r_filter_block r) in
    let r := set_last_key r key in
    data_block ← BlockBuilder_Add (r_options r) (r_data_block r) key value;
    let r := set_data_block r data_block in
    let estimated_block_size := CurrentSizeEstimate (r_data_block r) in
    if block_size (r_options r) <=? estimated_block_size then TableBuilder_Flush r else Some r.

(** The steps of [Finish], each taken only while the status is OK. *)
Definition write_filter_block (r : Rep) : Rep * BlockHandle :=
  match r_filter_block r with
  | Some (p, b) => if tb_ok r then WriteRawBlock r (Finish p b) kNoCompression else (r, BlockHandle_new)
  | None => (r, BlockHandle_new)
  end.

Definition write_metaindex_block (r : Rep) (filter_block_handle : BlockHandle)
  : option (Rep * BlockHandle) :=
  if tb_ok r then
    meta_index_block ← BlockBuilder_make (r_options r);
    meta_index_block ←
      match r_filter_block r with
      | Some _ =>
          policy ← filter_policy (r_options r);
          handle_encoding ← BlockHandle_EncodeTo filter_block_handle [];
          BlockBuilder_Add (r_options r) meta_index_block
            (str "filter." ++ PolicyName policy) handle_encoding
      | None => Some meta_index_block
      end;
    '(r, handle, _) ← WriteBlock r meta_index_block;
    Some (r, handle)
  else Some (r, BlockHandle_new).

Definition write_index_block (r : Rep) : option (Rep * BlockHandle) :=
  if tb_ok r then
    r ← (if r_pending_index_entry r then
           add_index_entry r (FindShortSuccessor (comparator (r_options r)) (r_last_key r))
         else Some r);
    '(r, handle, block) ← WriteBlock r (r_index_block r);
    Some (set_index_block r block (r_last_key r), handle)
  else Some (r, BlockHandle_new).

Definition write_footer (r : Rep) (metaindex_handle index_handle : BlockHandle) : option Rep :=
  if tb_ok r then
    let footer := set_index_handle (set_metaindex_handle Footer_new metaindex_handle) index_handle in
    footer_encoding ← Footer_EncodeTo footer [];
    let '(status, file) := Append (r_file r) footer_encoding in
    Some (set_file r file
            (if ok status then u64 (r_offset r + blen footer_encoding) else r_offset r) status)
  else Some r.

Definition TableBuilder_Finish (r : Rep) : option Rep :=
  r ← TableBuilder_Flush r;
  if r_closed r then None
  else
    let r := set_closed r in
    let '(r, filter_block_handle) := write_filter_block r in
    '(r, metaindex_block_handle) ← write_metaindex_block r filter_block_handle;
    '(r, index_block_handle) ← write_index_block r;
    write_footer r metaindex_block_handle index_block_handle.

Definition TableBuilder_Abandon (r : Rep) : option Rep :=
  if r_closed r then None else Some (set_closed r).

Definition NumEntries (r : Rep) : Z := r_num_entries r.
Definition FileSize (r : Rep) : Z := r_offset r.

(** Building a table from a list of entries. *)
Fixpoint add_all (r : Rep) (es : list entry) : option Rep :=
  match es with
  | [] => Some r
  | (k, v) :: es => r ← TableBuilder_Add r k v; add_all r es
  end.

Definition build_table (options : Options) (file : F) (es : list entry) : option Rep :=
  r ← TableBuilder_make options file;
  r ← add_all r es;
  TableBuilder_Finish r.

End TableBuilder.
Arguments Rep F : clear implicits.
