(* ===== verification/Table.v ===== *)
(** * Reading a table file

    [table/table.cc]: opening a table, its filter, its two-level iterator and the
    point lookup [InternalGet].  The model is that of a table without a block
    cache. *)

From S2P Require Import Prelude Slice Coding Status Env Comparator FilterBlock Format Iterator Options BlockBuilder Block TwoLevel.

(** The iterators [Block::NewIterator] returns. *)
Abbreviation BlockIter := (EmptyIterator + Iter)%type.

Section Table.

Context {F : Type} `{RandomAccessFile F} (snappy zstd : Codec) (addr : Z).

(** [struct Table::Rep].  A filter reader keeps the policy it was made with. *)
Record Table := mkTable {
  t_options : Options;
  t_file : F;
  t_filter : option (FilterPolicy * FilterBlockReader);
  t_metaindex_handle : BlockHandle;
  t_index_block : Block
}.

(** [ReadFilter]: the filter, when it could be read. *)
Definition ReadFilter (options : Options) (file : F) (policy : FilterPolicy)
    (filter_handle_value : bytes) : option (FilterPolicy * FilterBlockReader) :=
  let '(s, filter_handle, _) := BlockHandle_DecodeFrom BlockHandle_new filter_handle_value in
  if negb (ok s) then None
  else
    let '(s, block) := ReadBlock snappy zstd addr file (paranoid_checks options) filter_handle in
    if negb (ok s) then None
    else Some (policy, FilterBlockReader_make (contents_data block)).

(** [ReadMeta]; the outer option is the failure of an iterator. *)
Definition ReadMeta (options : Options) (file : F) (footer : Footer)
  : option (option (FilterPolicy * FilterBlockReader)) :=
  match filter_policy options with
  | None => Some None
  | Some policy =>
      let '(s, contents) :=
        ReadBlock snappy zstd addr file (paranoid_checks options) (metaindex_handle_ footer) in
      if negb (ok s) then Some None
      else
        let meta := Block_make contents in
        iter ← Block_NewIterator meta BytewiseComparator;
        let key := str "filter." ++ PolicyName policy in
        iter ← it_Seek iter key;
        if it_Valid iter && slice_eq (it_key iter) key
        then Some (ReadFilter options file policy (it_value iter))
        else Some None
  end.

Definition Table_Open (options : Options) (file : F) (size : Z) : option (Status * option Table) :=
  if size <? kEncodedLength
  then Some (Corruption (str "file is too short to be an sstable") [], None)
  else
    let '(s, footer_input, _) := ReadAt file (size - kEncodedLength) kEncodedLength in
    if negb (ok s) then Some (s, None)
    else
      let '(s, footer, _) := Footer_DecodeFrom Footer_new footer_input in
      if negb (ok s) then Some (s, None)
      else
        let '(s, index_block_contents) :=
          ReadBlock snappy zstd addr file (paranoid_checks options) (index_handle_ footer) in
        if ok s then
          let index_block := Block_make index_block_contents in
          filter ← ReadMeta options file footer;
          Some (s, Some (mkTable options file filter (metaindex_handle_ footer) index_block))
        else Some (s, None).

(** [BlockReader] without a block cache. *)
Definition BlockReader (t : Table) (options : ReadOptions) (index_value : bytes) : option BlockIter :=
  let '(s, handle, _) := BlockHandle_DecodeFrom BlockHandle_new index_value in
  if ok s then
    let '(s, contents) := ReadBlock snappy zstd addr (t_file t) (verify_checksums options) handle in
    if ok s then Block_NewIterator (Block_make contents) (comparator (t_options t))
    else Some (inl (NewErrorIterator s))
  else Some (inl (NewErrorIterator s)).

(** [NewIterator]; the index block has fewer entries than bytes. *)
Definition Table_NewIterator (t : Table) (options : ReadOptions)
  : option (TwoLevelIterator BlockIter BlockIter) :=
  index_iter ← Block_NewIterator (t_index_block t) (comparator (t_options t));
  Some (NewTwoLevelIterator index_iter (BlockReader t options)
          (S (length (data_ (t_index_block t))))).

(** [InternalGet]: the status, and the entry [handle_result] is called with. *)
Definition InternalGet (t : Table) (options : ReadOptions) (k : bytes)
  : option (Status * option entry) :=
  iiter ← Block_NewIterator (t_index_block t) (comparator (t_options t));
  iiter ← it_Seek iiter k;
  '(s, found) ←
    (if it_Valid iiter then
       let handle_value := it_value iiter in
       let '(hs, handle, _) := BlockHandle_DecodeFrom BlockHandle_new handle_value in
       let ruled_out :=
         match t_filter t with
         | Some (p, filter) =>
             ok hs && negb (FilterBlockReader_KeyMayMatch p filter (handle_offset handle) k)
         | None => false
         end in
       if ruled_out then Some (OK, None)
       else
         block_iter ← BlockReader t options handle_value;
         block_iter ← it_Seek block_iter k;
         Some (it_status block_iter,
               if it_Valid block_iter then Some (it_key block_iter, it_value block_iter) else None)
     else Some (OK, None));
  Some (if ok s then it_status iiter else s, found).

Definition ApproximateOffsetOf (t : Table) (key : bytes) : option Z :=
  index_iter ← Block_NewIterator (t_index_block t) (comparator (t_options t));
  index_iter ← it_Seek index_iter key;
  if it_Valid index_iter then
    let '(s, handle, _) := BlockHandle_DecodeFrom BlockHandle_new (it_value index_iter) in
    if ok s then Some (handle_offset handle) else Some (handle_offset (t_metaindex_handle t))
  else Some (handle_offset (t_metaindex_handle t)).

End Table.
Arguments Table F : clear implicits.
