(* ===== verification/TableFile.v ===== *)
(** * What a table file holds

    The contents of a table file, stated on its bytes, and the reader of
    [table/table.cc] verified against them: opening the file, iterating over it
    and looking keys up. *)

From S2P Require Import Prelude Slice Coding Crc32c Status Env Comparator FilterBlock Format Iterator Options BlockBuilder Block TwoLevel TableBuilder Table.

(** A data block: its key in the index, its handle and its entries. *)
Record dblock := mkDblock {
  d_sep : bytes;
  d_handle : BlockHandle;
  d_entries : list entry
}.

Definition index_entry (d : dblock) : entry := (d_sep d, handle_bytes (d_handle d)).

Definition filter_group (d : dblock) : Z * list bytes :=
  (handle_offset (d_handle d), map fst (d_entries d)).

Section TableFile.

Context (snappy zstd : Codec) {Lsnappy : CodecLaws snappy} {Lzstd : CodecLaws zstd} (addr : Z).
Context (o : Options) {Lo : ComparatorLaws (comparator o)}.
Context (Hcompr : 0 <= compression o <= 2).

Abbreviation cmp := (Compare (comparator o)).

(** [raw] is stored at handle [h], in the form the builder chose for it. *)
Definition stored_in (content : bytes) (h : BlockHandle) (form : bytes * Z) : Prop :=
  exists pre post, content = pre ++ stored_block (fst form) (snd form) ++ post /\
    h = mkHandle (blen pre) (blen (fst form)).

(** A block of entries stored at [h]. *)
Definition block_in (content : bytes) (h : BlockHandle) (es : list entry) : Prop :=
  exists cs rs, layout_ok cs rs /\ map chunk_entry cs = es /\ blen (block_bytes cs rs) < 2 ^ 32 /\
    stored_in content h (block_contents_of snappy zstd o (block_bytes cs rs)).

(** The entry of the metaindex block for a filter. *)
Definition filter_entry (p : FilterPolicy) (fh : BlockHandle) : entry :=
  (str "filter." ++ PolicyName p, handle_bytes fh).

(** The filter block and the metaindex block. *)
Definition meta_in (content : bytes) (ds : list dblock) (groups : list (Z * list bytes))
    (mh : BlockHandle) : Prop :=
  match filter_policy o with
  | None => block_in content mh []
  | Some p => exists fh, handle_ok fh /\
      stored_in content fh (build_filter_block p groups, kNoCompression) /\
      block_in content mh [filter_entry p fh]
  end.

(** Groups of keys in the order of their blocks, fewer keys than an [int] counts. *)
Definition groups_ok (groups : list (Z * list bytes)) : Prop :=
  Forall (fun g => 0 <= fst g) groups /\ Sorted (fun g g' => fst g <= fst g') groups /\
  Z.of_nat (length (concat (map snd groups))) < 2 ^ 31.

Record table_in (content : bytes) (ds : list dblock) (groups : list (Z * list bytes))
    (es : list entry) (mh ih : BlockHandle) : Prop := {
  ti_size : blen content < 2 ^ 32;
  ti_footer : exists pre, content = pre ++ footer_bytes (mkFooter mh ih);
  ti_handles : handle_ok mh /\ handle_ok ih;
  ti_blocks d : d ∈ ds -> handle_ok (d_handle d) /\ block_in content (d_handle d) (d_entries d);
  ti_sorted d : d ∈ ds -> StronglySorted (entry_lt cmp) (d_entries d);
  ti_index : block_in content ih (map index_entry ds);
  ti_index_sorted : StronglySorted (entry_lt cmp) (map index_entry ds);
  ti_meta : meta_in content ds groups mh;
  ti_groups d : d ∈ ds -> filter_group d ∈ groups;
  ti_groups_ok : groups_ok groups;
  ti_entries : es = concat (map d_entries ds);
  ti_upper d e : d ∈ ds -> e ∈ d_entries d -> cmp (fst e) (d_sep d) <= 0;
  ti_lower i j d d' e : (i < j)%nat -> ds !! i = Some d -> ds !! j = Some d' ->
    e ∈ d_entries d' -> cmp (d_sep d) (fst e) < 0
}.

(** ** Reading stored blocks *)

Context {F : Type} {RA : RandomAccessFile F} {file_contents : F -> bytes}.
Context {RR : ReliableRandom F file_contents} (file : F).

Abbreviation content := (file_contents file).

Lemma compress_block_cases c level raw type :
  (compress_block c level raw type = (raw, kNoCompression)) \/
  (exists z, Codec_Compress c level raw = Some z /\ compress_block c level raw type = (z, type)).
Proof.
  unfold compress_block. destruct (Codec_Compress c level raw) as [z|]; [|auto].
  destruct (_ <? _); [|auto]. right. eauto.
Qed.

Lemma ReadCompressed_ok c name level raw z result :
  CodecLaws c -> Codec_Compress c level raw = Some z ->
  ReadCompressed c name z result = (OK, mkContents raw true true).
Proof.
  intros L Hz. destruct (codec_roundtrip level raw z Hz) as [Hl Hu]. unfold ReadCompressed.
  rewrite Hl, Hu. by rewrite ztake_all by done.
Qed.

(** A stored block is read back as it was before compression. *)
Lemma read_stored h raw verify :
  blen content < 2 ^ 32 -> stored_in content h (block_contents_of snappy zstd o raw) ->
  exists bc, ReadBlock snappy zstd addr file verify h = (OK, bc) /\ contents_data bc = raw.
Proof.
  intros Hsz (pre & post & Hc & Hh).
  set (form := block_contents_of snappy zstd o raw) in *.
  assert (stored_at (file_contents := file_contents) file h (fst form) (snd form)) as Hst.
  { exists pre, post. split; [done|]. split; [done|]. lia. }
  assert (0 <= snd form < 128 /\
    ((form = (raw, kNoCompression)) \/
     (exists l z, form = (z, kSnappyCompression) /\ Codec_Compress snappy l raw = Some z) \/
     (exists l z, form = (z, kZstdCompression) /\ Codec_Compress zstd l raw = Some z))) as [Ht Hform].
  { subst form. unfold block_contents_of. destruct (Z.eqb_spec (compression o) kNoCompression) as [->|].
    { split; [done|]. auto. }
    destruct (Z.eqb_spec (compression o) kSnappyCompression) as [->|].
    { destruct (compress_block_cases snappy 0 raw kSnappyCompression) as [->|(z & Hz & ->)];
        (split; [done|]); [auto|]. right. left. eauto. }
    destruct (Z.eqb_spec (compression o) kZstdCompression) as [->|].
    { destruct (compress_block_cases zstd (zstd_compression_level o) raw kZstdCompression)
        as [->|(z & Hz & ->)]; (split; [done|]); [auto|]. right. right. eauto. }
    unfold kNoCompression, kSnappyCompression, kZstdCompression in *. lia. }
  destruct (ReadBlock_stored snappy zstd addr file verify h _ _ Hst Ht) as (in_buf & ->).
  destruct Hform as [->|[(l & z & -> & Hz)|(l & z & -> & Hz)]]; cbn [fst snd].
  - eexists. split; [done|]. done.
  - change (_ =? kNoCompression) with false. change (_ =? kSnappyCompression) with true. cbn iota.
    rewrite (ReadCompressed_ok snappy (str "snappy") l raw z _ Lsnappy Hz). eauto.
  - change (_ =? kNoCompression) with false. change (_ =? kSnappyCompression) with false.
    change (_ =? kZstdCompression) with true. cbn iota.
    rewrite (ReadCompressed_ok zstd (str "zstd") l raw z _ Lzstd Hz). eauto.
Qed.

Lemma read_stored_plain h raw verify :
  blen content < 2 ^ 32 -> stored_in content h (raw, kNoCompression) ->
  exists bc, ReadBlock snappy zstd addr file verify h = (OK, bc) /\ contents_data bc = raw.
Proof.
  intros Hsz (pre & post & Hc & Hh).
  assert (stored_at (file_contents := file_contents) file h raw kNoCompression) as Hst.
  { exists pre, post. split; [done|]. split; [done|]. lia. }
  destruct (ReadBlock_stored snappy zstd addr file verify h _ _ Hst) as (in_buf & ->); [done|].
  eexists. split; [done|]. done.
Qed.

(** The iterator over a stored block. *)
Lemma read_block_in h es verify :
  blen content < 2 ^ 32 -> block_in content h es ->
  exists bc, ReadBlock snappy zstd addr file verify h = (OK, bc) /\
    (length es <= length (contents_data bc))%nat /\
    forall c, exists it, Block_NewIterator (Block_make bc) c = Some it /\ block_pos c es it None.
Proof.
  intros Hsz (cs & rs & Hl & <- & Hb & Hst).
  destruct (read_stored h (block_bytes cs rs) verify Hsz Hst) as (bc & Hread & Hd).
  exists bc. split; [done|]. rewrite length_map.
  split; [by apply (layout_iterator cs rs bc (comparator o))|]. intros c. by apply (layout_iterator cs rs).
Qed.

(** ** Opening *)

Context (ds : list dblock) (groups : list (Z * list bytes)) (es : list entry) (mh ih : BlockHandle).
Context (Hin : table_in content ds groups es mh ih).

(** The filter a table is opened with. *)
Definition expected_filter : option (FilterPolicy * FilterBlockReader) :=
  (fun p => (p, FilterBlockReader_make (build_filter_block p groups))) <$> filter_policy o.

Lemma ReadMeta_spec : ReadMeta snappy zstd addr o file (mkFooter mh ih) = Some expected_filter.
Proof.
  pose proof (ti_size _ _ _ _ _ _ Hin) as Hsz. pose proof (ti_meta _ _ _ _ _ _ Hin) as Hm.
  unfold ReadMeta, expected_filter, meta_in in *. destruct (filter_policy o) as [p|]; [|done].
  destruct Hm as (fh & Hfh & Hst & Hmeta). cbn [metaindex_handle_ fmap option_fmap option_map].
  destruct (read_block_in mh _ (paranoid_checks o) Hsz Hmeta) as (bc & -> & _ & Hit).
  cbn [negb ok OK state_]. destruct (Hit BytewiseComparator) as (it & -> & Hp). cbn [mbind option_bind].
  pose proof (block_iterates BytewiseComparator [filter_entry p fh] BytewiseComparator_laws
    ltac:(repeat constructor)) as HI.
  destruct (iter_seek it None (str "filter." ++ PolicyName p) Hp Logic.I) as (it' & -> & Hp').
  cbn [mbind option_bind].
  assert (seek_pos (Compare BytewiseComparator) (str "filter." ++ PolicyName p) [filter_entry p fh] = Some 0%nat)
    as Hpos.
  { unfold seek_pos. cbn [below filter_entry]. by rewrite cmp_refl. }
  rewrite Hpos in Hp'. rewrite (iter_valid _ _ Hp'), bool_decide_true by done.
  pose proof (iter_entry _ _ Hp') as He.
  change ([filter_entry p fh] !! 0%nat) with (Some (filter_entry p fh)) in He.
  unfold filter_entry in He. 
  assert (it_key it' = str "filter." ++ PolicyName p /\ it_value it' = handle_bytes fh) as [Hk Hv]
    by (split; congruence).
  rewrite Hk, (proj2 (slice_eq_spec _ _) eq_refl). cbn [andb]. f_equal.
  unfold ReadFilter. rewrite Hv, <- (app_nil_r (handle_bytes fh)).
  rewrite BlockHandle_DecodeFrom_encoded by done. cbn [negb ok OK state_].
  destruct (read_stored_plain fh _ (paranoid_checks o) Hsz Hst) as (bc' & -> & ->). done.
Qed.

(** The table [Table::Open] makes. *)
Record opened (t : Table F) : Prop := {
  op_options : t_options t = o;
  op_file : t_file t = file;
  op_filter : t_filter t = expected_filter;
  op_meta : t_metaindex_handle t = mh;
  op_index : (length ds <= length (data_ (t_index_block t)))%nat;
  op_iter : exists it, Block_NewIterator (t_index_block t) (comparator o) = Some it /\
    block_pos (comparator o) (map index_entry ds) it None
}.

Lemma Block_make_data bc : data_ (Block_make bc) = contents_data bc.
Proof. unfold Block_make. cbv zeta. destruct (_ <? 4); [done|]. by destruct (_ <? _). Qed.

Lemma Table_Open_spec :
  exists t, Table_Open snappy zstd addr o file (blen content) = Some (OK, Some t) /\ opened t.
Proof.
  pose proof (ti_size _ _ _ _ _ _ Hin) as Hsz. destruct (ti_footer _ _ _ _ _ _ Hin) as [pre Hpre].
  destruct (ti_handles _ _ _ _ _ _ Hin) as [Hmh Hih].
  pose proof (blen_footer_bytes (mkFooter mh ih)) as Hfl.
  assert (blen content = blen pre + kEncodedLength) as Hlen by (by rewrite Hpre, blen_app, Hfl).
  unfold Table_Open. pose proof (blen_nonneg pre).
  destruct (Z.ltb_spec (blen content) kEncodedLength); [lia|].
  replace (blen content - kEncodedLength) with (blen pre) by lia.
  destruct (readat_contents (contents := file_contents) file (blen pre) kEncodedLength) as [Hok Hread];
    [unfold kEncodedLength, kMaxEncodedLength in *; lia|done|].
  destruct (ReadAt file (blen pre) kEncodedLength) as [[s footer_input] b]. cbn in Hok, Hread.
  rewrite Hok. cbn [negb].
  rewrite Hpre, zdrop_app, ztake_all in Hread by (done || lia). rewrite Hread.
  rewrite <- (app_nil_r (footer_bytes _)), Footer_DecodeFrom_encoded by done. cbn [negb ok OK state_ index_handle_].
  destruct (read_block_in ih _ (paranoid_checks o) Hsz
    (ti_index _ _ _ _ _ _ Hin)) as (bc & -> & Hl & Hit). cbn [ok OK state_].
  rewrite ReadMeta_spec. cbn [mbind option_bind metaindex_handle_].
  eexists. split; [done|]. split; cbn; try apply Hit; try done.
  rewrite Block_make_data. by rewrite length_map in Hl.
Qed.

(** ** Iterating *)

Section Opened.

Context (t : Table F) (Ht : opened t) (ro : ReadOptions).

Lemma BlockReader_spec d :
  d ∈ ds -> exists it, BlockReader snappy zstd addr t ro (handle_bytes (d_handle d)) = Some it /\
    block_pos (comparator o) (d_entries d) it None.
Proof.
  intros Hd. destruct (ti_blocks _ _ _ _ _ _ Hin d Hd) as [Hh Hb].
  unfold BlockReader. rewrite <- (app_nil_r (handle_bytes _)), BlockHandle_DecodeFrom_encoded by done.
  cbn [ok OK state_]. rewrite (op_file _ Ht), (op_options _ Ht).
  destruct (read_block_in _ _ (verify_checksums ro) (ti_size _ _ _ _ _ _ Hin) Hb)
    as (bc & -> & _ & Hit). cbn [ok OK state_]. apply Hit.
Qed.

Lemma dblock_sorted d : d ∈ ds -> StronglySorted (entry_lt cmp) (d_entries d).
Proof. apply (ti_sorted _ _ _ _ _ _ Hin). Qed.

(** The entries behind a handle. *)
Definition entries_at (h : bytes) : list entry :=
  match list_find (fun d => handle_bytes (d_handle d) = h) ds with
  | Some (_, d) => d_entries d
  | None => []
  end.

Lemma entries_at_spec d : d ∈ ds -> entries_at (handle_bytes (d_handle d)) = d_entries d.
Proof.
  intros Hd. unfold entries_at.
  destruct (list_find _ ds) as [[i d']|] eqn:E.
  - apply list_find_Some in E as (Hi & Hh & _). apply list_elem_of_lookup_2 in Hi.
    destruct (BlockReader_spec d Hd) as (it & Hr & Hp).
    destruct (BlockReader_spec d' Hi) as (it' & Hr' & Hp'). rewrite Hh, Hr in Hr'. simplify_eq.
    eapply (block_pos_unique (comparator o)); eauto using dblock_sorted.
  - apply list_find_None in E. rewrite Forall_forall in E. by destruct (E d Hd).
Qed.

Lemma index_handle_in h : h ∈ map snd (map index_entry ds) -> exists d, d ∈ ds /\ h = handle_bytes (d_handle d).
Proof. rewrite map_map. intros (d & -> & Hd)%list_elem_of_fmap. eauto. Qed.

Lemma index_lookup i k h :
  map index_entry ds !! i = Some (k, h) ->
  exists d, ds !! i = Some d /\ k = d_sep d /\ h = handle_bytes (d_handle d).
Proof.
  change (map index_entry ds) with (index_entry <$> ds). rewrite list_lookup_fmap.
  destruct (ds !! i) as [d|]; cbn; [|done]. intros [= <- <-]. eauto.
Qed.

Lemma index_at_block i d : ds !! i = Some d -> map index_entry ds !! i = Some (index_entry d).
Proof.
  intros Hi. change (map index_entry ds) with (index_entry <$> ds). by rewrite list_lookup_fmap, Hi.
Qed.

Lemma index_sorted : StronglySorted (entry_lt cmp) (map index_entry ds).
Proof. apply (ti_index_sorted _ _ _ _ _ _ Hin). Qed.

Lemma all_entries_es : all_entries (map index_entry ds) entries_at = es.
Proof.
  rewrite (ti_entries _ _ _ _ _ _ Hin). unfold all_entries, blocks. f_equal. rewrite map_map.
  apply map_ext_in. intros d Hd%list_elem_of_In. by apply entries_at_spec.
Qed.

(** The iterator of an open table satisfies the contract over its entries. *)
Lemma Table_NewIterator_spec :
  exists it pos, Table_NewIterator snappy zstd addr t ro = Some it /\
    IteratesOver cmp es pos /\ pos it None.
Proof.
  destruct (op_iter _ Ht) as (ix & Hix & Hpix).
  unfold Table_NewIterator. rewrite (op_options _ Ht), Hix. cbn [mbind option_bind].
  pose proof (block_iterates (comparator o) _ Lo index_sorted) as HX.
  set (posD := fun h => block_pos (comparator o) (entries_at h)).
  assert (forall h, h ∈ map snd (map index_entry ds) -> IteratesOver cmp (entries_at h) (posD h)) as HD.
  { intros h (d & Hd & ->)%index_handle_in. subst posD. cbv beta. rewrite (entries_at_spec d Hd).
    apply block_iterates; [done|by apply dblock_sorted]. }
  assert (forall h, h ∈ map snd (map index_entry ds) ->
    exists d, BlockReader snappy zstd addr t ro h = Some d /\ posD h d None) as Hbf.
  { intros h (d & Hd & ->)%index_handle_in. subst posD. cbv beta. rewrite (entries_at_spec d Hd).
    by apply BlockReader_spec. }
  assert (forall i k h e, map index_entry ds !! i = Some (k, h) -> e ∈ entries_at h -> cmp (fst e) k <= 0) as Hu.
  { intros i k h e (d & Hd & -> & ->)%index_lookup He. apply list_elem_of_lookup_2 in Hd.
    rewrite (entries_at_spec d Hd) in He. by apply (ti_upper _ _ _ _ _ _ Hin). }
  assert (forall i j k h k' h' e, (i < j)%nat -> map index_entry ds !! i = Some (k, h) ->
    map index_entry ds !! j = Some (k', h') -> e ∈ entries_at h' -> cmp k (fst e) < 0) as Hl.
  { intros i j k h k' h' e Hij (d & Hd & -> & ->)%index_lookup (d' & Hd' & -> & ->)%index_lookup He.
    rewrite (entries_at_spec d' (list_elem_of_lookup_2 _ _ _ Hd')) in He.
    by apply (ti_lower _ _ _ _ _ _ Hin i j d d' e). }
  eexists _, (tl_pos (map index_entry ds) (block_pos (comparator o) (map index_entry ds)) entries_at posD
    (BlockReader snappy zstd addr t ro)).
  split; [done|]. rewrite <- all_entries_es. split.
  - by apply TwoLevel_iterates; try apply _.
  - apply NewTwoLevelIterator_pos; [done|]. rewrite length_map. pose proof (op_index _ Ht). lia.
Qed.

(** ** Lookups *)

(** Whether the filter rules a key out of the block at a handle. *)
Definition ruled_out (h : BlockHandle) (k : bytes) : bool :=
  match expected_filter with
  | Some (p, r) => negb (FilterBlockReader_KeyMayMatch p r (handle_offset h) k)
  | None => false
  end.

(** What [InternalGet] finds: the first entry at or past the key in the one block
    the index leads to, unless the filter rules the key out of it. *)
Definition expected_get (k : bytes) : option entry :=
  d ← ds !! below cmp k (map index_entry ds);
  if ruled_out (d_handle d) k then None else d_entries d !! below cmp k (d_entries d).

Lemma InternalGet_spec k :
  exists s, InternalGet snappy zstd addr t ro k = Some (s, expected_get k) /\ ok s = true.
Proof.
  destruct (op_iter _ Ht) as (ix & Hix & Hpix).
  unfold InternalGet. rewrite (op_options _ Ht), Hix. cbn [mbind option_bind].
  pose proof (block_iterates (comparator o) _ Lo index_sorted) as HX.
  destruct (iter_seek ix None k Hpix Logic.I) as (ix' & -> & Hp). cbn [mbind option_bind].
  rewrite (iter_valid _ _ Hp), (op_filter _ Ht). unfold expected_get, seek_pos, clip in *.
  rewrite length_map in Hp |- *. pose proof (iter_status _ _ Hp) as Hst.
  destruct (decide (below cmp k (map index_entry ds) < length ds)%nat) as [Hlt|Hge].
  2: { rewrite bool_decide_false by (by intros []). rewrite lookup_ge_None_2 by lia.
       cbn [mbind option_bind ok OK state_]. eauto. }
  rewrite bool_decide_true by done. destruct (lookup_lt_is_Some_2 ds _ Hlt) as [d Hd]. rewrite Hd.
  cbn [mbind option_bind]. apply list_elem_of_lookup_2 in Hd as Hdin.
  assert (it_value ix' = handle_bytes (d_handle d)) as ->.
  { pose proof (iter_entry _ _ Hp) as He. rewrite (index_at_block _ _ Hd) in He. unfold index_entry in He. congruence. }
  destruct (ti_blocks _ _ _ _ _ _ Hin d Hdin) as [Hh _].
  rewrite <- (app_nil_r (handle_bytes _)), BlockHandle_DecodeFrom_encoded by done. rewrite app_nil_r.
  assert (match expected_filter with
    | Some (p, filter) => ok OK && negb (FilterBlockReader_KeyMayMatch p filter (handle_offset (d_handle d)) k)
    | None => false end = ruled_out (d_handle d) k) as ->.
  { unfold ruled_out. by destruct expected_filter as [[]|]. }
  destruct (ruled_out (d_handle d) k).
  { cbn [mbind option_bind ok OK state_]. eauto. }
  destruct (BlockReader_spec d Hdin) as (it & -> & Hpd). cbn [mbind option_bind].
  pose proof (block_iterates (comparator o) _ Lo (dblock_sorted d Hdin)) as HDI.
  destruct (iter_seek it None k Hpd Logic.I) as (it' & -> & Hp'). cbn [mbind option_bind].
  rewrite (iter_status _ _ Hp'), (iter_valid _ _ Hp'). exists (it_status ix'). split; [|done]. do 2 f_equal.
  unfold seek_pos, clip in *. destruct (decide (below cmp k (d_entries d) < length (d_entries d))%nat).
  - rewrite bool_decide_true by done. symmetry. by apply iter_entry.
  - rewrite bool_decide_false by (by intros []). by rewrite lookup_ge_None_2 by lia.
Qed.

(** An entry found is the first one of the table at or past the key. *)
Lemma expected_get_first k e : expected_get k = Some e -> es !! below cmp k es = Some e.
Proof.
  unfold expected_get. destruct (ds !! _) as [d|] eqn:Hd; [|done]. cbn [mbind option_bind].
  destruct (ruled_out (d_handle d) k); [done|]. intros He.
  apply list_elem_of_lookup_2 in Hd as Hdin.
  pose proof (index_at_block _ _ Hd) as Hi.
  rewrite <- all_entries_es.
  rewrite (below_all_in cmp (map index_entry ds) entries_at) with (i := below cmp k (map index_entry ds))
    (k := d_sep d) (h := handle_bytes (d_handle d)); [| | |done|done].
  - rewrite (entry_of (map index_entry ds) entries_at _ (d_sep d) (handle_bytes (d_handle d)));
      rewrite ?(entries_at_spec d Hdin); [done|done|]. by apply lookup_lt_Some in He.
  - intros i k' h e' (d' & Hd' & -> & ->)%index_lookup He'. apply list_elem_of_lookup_2 in Hd'.
    rewrite (entries_at_spec d' Hd') in He'. by apply (ti_upper _ _ _ _ _ _ Hin).
  - intros i j k1 h1 k2 h2 e' Hij (d1 & Hd1 & -> & ->)%index_lookup (d2 & Hd2 & -> & ->)%index_lookup He'.
    rewrite (entries_at_spec d2 (list_elem_of_lookup_2 _ _ _ Hd2)) in He'.
    by apply (ti_lower _ _ _ _ _ _ Hin i j d1 d2 e').
Qed.

(** The filter does not rule out a key of the block. *)
Lemma not_ruled_out d k v :
  (forall p, filter_policy o = Some p -> FilterPolicyLaws p) ->
  d ∈ ds -> (k, v) ∈ d_entries d -> ruled_out (d_handle d) k = false.
Proof.
  intros HL Hd Hk. unfold ruled_out, expected_filter.
  pose proof (ti_meta _ _ _ _ _ _ Hin) as Hm. unfold meta_in in Hm.
  destruct (filter_policy o) as [p|]; [|done]. cbn [fmap option_fmap option_map].
  destruct Hm as (fh & _ & (pre & post & Hc & _) & _).
  destruct (ti_groups_ok _ _ _ _ _ _ Hin) as (H1 & H2 & H3).
  pose proof (ti_size _ _ _ _ _ _ Hin) as Hsz. rewrite Hc, !blen_app in Hsz.
  cbn [fst snd] in Hsz. rewrite blen_stored_block in Hsz. unfold kBlockTrailerSize in Hsz.
  pose proof (blen_nonneg pre). pose proof (blen_nonneg post).
  pose proof (HL p eq_refl). rewrite (filter_block_match p groups _ (map fst (d_entries d)) k); try done; [lia| |].
  - exact (ti_groups _ _ _ _ _ _ Hin d Hd).
  - apply list_elem_of_fmap. by exists (k, v).
Qed.

(** A key of the table is found. *)
Lemma expected_get_present k v :
  (forall p, filter_policy o = Some p -> FilterPolicyLaws p) ->
  (k, v) ∈ es -> expected_get k = Some (k, v).
Proof.
  intros HL Hk. rewrite (ti_entries _ _ _ _ _ _ Hin) in Hk.
  apply list_elem_of_In, in_concat in Hk as (l & (d & <- & Hd)%in_map_iff & Hk).
  apply list_elem_of_In in Hd, Hk. apply list_elem_of_lookup_1 in Hd as Hd'. destruct Hd' as [j Hj].
  assert (below cmp k (map index_entry ds) = j) as Hb.
  { apply (below_unique cmp).
    - rewrite length_map. apply lookup_lt_Some in Hj. lia.
    - intros i [k' h'] Hij (d' & Hi & -> & ->)%index_lookup. cbn.
      by apply (ti_lower _ _ _ _ _ _ Hin i j d' d (k, v)).
    - intros [k' h'] (d' & Hi & -> & ->)%index_lookup. cbn. rewrite Hj in Hi. simplify_eq.
      apply cmp_ge_opp; [apply _|]. by apply (ti_upper _ _ _ _ _ _ Hin d' (k, v)). }
  unfold expected_get. rewrite Hb, Hj. cbn [mbind option_bind].
  rewrite (not_ruled_out d k v HL Hd Hk). apply list_elem_of_lookup_1 in Hk as [m Hm].
  assert (below cmp k (d_entries d) = m) as ->; [|done].
  apply (below_unique cmp).
  - apply lookup_lt_Some in Hm. lia.
  - intros i e Hi He. apply (sorted_lookup_lt cmp _ i m e (k, v) (dblock_sorted d Hd) He Hm Hi).
  - intros e He. rewrite Hm in He. simplify_eq. cbn. by rewrite cmp_refl.
Qed.

End Opened.

End TableFile.
