(* ===== verification/TableBuild.v ===== *)
(** * The table builder writes a table file

    The state of [TableBuilder] between calls, in terms of the blocks it has
    written, and the proof that after [Finish] the file holds a table with the
    added entries. *)

From S2P Require Import Prelude Slice Coding Crc32c Status Env Comparator FilterBlock Format Iterator Options BlockBuilder Block TableBuilder Table TableFile.

Section TableBuild.

Context (snappy zstd : Codec) (addr : Z).
Context (o : Options) {Lo : ComparatorLaws (comparator o)} {So : ShortKeys (comparator o)}.
Context (Hrestart : 1 <= block_restart_interval o).
Context {F : Type} {WF : WritableFile F} {contents : F -> bytes} {RW : ReliableWritable F contents}.

Abbreviation cmp := (Compare (comparator o)).
Abbreviation form := (block_contents_of snappy zstd o).

(** ** Writing blocks *)

Lemma WriteRawBlock_spec (r : Rep F) (c : bytes) (t : Z) :
  r_offset r = blen (contents (r_file r)) -> r_offset r + blen c + 5 < 2 ^ 64 ->
  exists f s, WriteRawBlock addr r c t =
      (set_file r f (r_offset r + blen c + 5) s, mkHandle (r_offset r) (blen c)) /\
    ok s = true /\ contents f = contents (r_file r) ++ stored_block c t.
Proof.
  intros Ho Hsz. unfold WriteRawBlock.
  destruct (append_contents (r_file r) c) as [Hok Hc].
  destruct (Append (r_file r) c) as [s f]. cbn [fst snd] in *. rewrite Hok.
  set (trailer := [z2b t] ++ _).
  destruct (append_contents f trailer) as [Hok' Hc'].
  destruct (Append f trailer) as [s' f']. cbn [fst snd] in *. rewrite Hok'.
  pose proof (blen_nonneg c). pose proof (blen_nonneg (contents (r_file r))).
  unfold kBlockTrailerSize. rewrite u64_small by lia.
  exists f', s'. split; [done|]. split; [done|]. rewrite Hc', Hc, <- app_assoc. f_equal.
  subst trailer. unfold stored_block. do 4 f_equal. unfold Value.
  rewrite !Extend_ref by (lia || apply Extend_range; lia). by rewrite crc32c_ref_app.
Qed.

Lemma form_short raw : blen (fst (form raw)) <= blen raw.
Proof.
  unfold block_contents_of. pose proof (blen_nonneg raw).
  assert (forall c l t, blen (fst (compress_block c l raw t)) <= blen raw) as Hc.
  { intros c l t. unfold compress_block. destruct (Codec_Compress c l raw) as [z|]; [|cbn; lia].
    destruct (Z.ltb_spec (blen z) (blen raw - blen raw / 8)); cbn; [|lia].
    pose proof (Z.div_pos (blen raw) 8). lia. }
  destruct (_ =? _); [cbn; lia|]. destruct (_ =? _); [apply Hc|]. destruct (_ =? _); [apply Hc|].
  cbn. rewrite blen_nil. lia.
Qed.

Lemma WriteBlock_spec (r : Rep F) b bo cs rs :
  builds bo b cs rs -> r_options r = o -> tb_ok r = true ->
  r_offset r = blen (contents (r_file r)) ->
  Z.of_nat (length rs) < 2 ^ 32 -> r_offset r + blen (block_bytes cs rs) + 5 < 2 ^ 64 ->
  exists f s, WriteBlock snappy zstd addr r b =
      Some (set_file r f (r_offset r + blen (fst (form (block_bytes cs rs))) + 5) s,
            mkHandle (r_offset r) (blen (fst (form (block_bytes cs rs)))),
            BlockBuilder_Reset (BlockBuilder_Finish b)) /\
    ok s = true /\
    contents f = contents (r_file r) ++
      stored_block (fst (form (block_bytes cs rs))) (snd (form (block_bytes cs rs))).
Proof.
  intros Hb Hro Hok Ho Hr Hsz. unfold WriteBlock. rewrite Hok, Hro.
  rewrite (builds_Finish bo b cs rs Hb Hr). pose proof (form_short (block_bytes cs rs)).
  destruct (form (block_bytes cs rs)) as [c t]. cbn [fst snd] in *.
  destruct (WriteRawBlock_spec r c t Ho) as (f & s & -> & Hs & Hc); [lia|]. eauto.
Qed.

(** Growing files keep the blocks they have. *)
Lemma stored_in_grow c x h fm : stored_in c h fm -> stored_in (c ++ x) h fm.
Proof. intros (pre & post & -> & ->). exists pre, (post ++ x). by rewrite <- !app_assoc. Qed.

Lemma block_in_grow c x h es :
  block_in snappy zstd o c h es -> block_in snappy zstd o (c ++ x) h es.
Proof. intros (cs & rs & Hl & Hm & Hb & Hs). exists cs, rs. eauto using stored_in_grow. Qed.

Lemma block_in_new c cs rs :
  layout_ok cs rs -> blen (block_bytes cs rs) < 2 ^ 32 ->
  block_in snappy zstd o
    (c ++ stored_block (fst (form (block_bytes cs rs))) (snd (form (block_bytes cs rs))))
    (mkHandle (blen c) (blen (fst (form (block_bytes cs rs))))) (map chunk_entry cs).
Proof.
  intros Hl Hb. exists cs, rs. split; [done|]. split; [done|]. split; [done|].
  exists c, []. by rewrite app_nil_r.
Qed.

(** ** The state between calls *)

(** The entries of a builder that wrote the blocks [ds], then perhaps one that is
    not in the index yet, and has [cur] in its data block. *)
Definition entries_of (ds : list dblock) (pend : option dblock) (cur : list entry) : list entry :=
  concat (map d_entries (ds ++ option_list pend)) ++ cur.

(** A block builder holding [es], within the size bound. *)
Definition holds_entries (bo : Options) (b : BlockBuilder) (es : list entry) : Prop :=
  exists cs rs, builds bo b cs rs /\ map chunk_entry cs = es /\
    blen (chunks_bytes cs) + 4 * Z.of_nat (length rs) <= 4 + entries_size es.

(** A block that has been written. *)
Definition written (c : bytes) (d : dblock) : Prop :=
  d_entries d <> [] /\ block_in snappy zstd o c (d_handle d) (d_entries d) /\
  0 <= handle_offset (d_handle d) /\ 0 <= handle_size (d_handle d) /\
  handle_offset (d_handle d) + handle_size (d_handle d) <= blen c.

Definition groups_of (ds : list dblock) (pend : option dblock) (offset : Z) (cur : list entry)
  : list (Z * list bytes) :=
  map filter_group (ds ++ option_list pend) ++ [(offset, map fst cur)].

(** All but what concerns the last key. *)
Record tcore (r : Rep F) (ds : list dblock) (pend : option dblock) (cur : list entry) : Prop := {
  ts_options : r_options r = o;
  ts_open : r_closed r = false;
  ts_status : tb_ok r = true;
  ts_offset : r_offset r = blen (contents (r_file r));
  ts_size : r_offset r <= 2 * entries_size (concat (map d_entries (ds ++ option_list pend)));
  ts_blocks d : d ∈ ds ++ option_list pend -> written (contents (r_file r)) d;
  ts_index : holds_entries (index_block_options o) (r_index_block r) (map index_entry ds);
  ts_index_size : entries_size (map index_entry ds) <= 3 * entries_size (concat (map d_entries ds));
  ts_pending : r_pending_index_entry r = bool_decide (is_Some pend);
  ts_handle d : pend = Some d -> r_pending_handle r = d_handle d /\ cur = [];
  ts_data : holds_entries o (r_data_block r) cur;
  ts_num : r_num_entries r = Z.of_nat (length (entries_of ds pend cur));
  ts_sorted : StronglySorted (entry_lt cmp) (entries_of ds pend cur);
  ts_upper d e : d ∈ ds -> e ∈ d_entries d -> cmp (fst e) (d_sep d) <= 0;
  ts_lower i j d d' e : (i < j)%nat -> ds !! i = Some d -> (ds ++ option_list pend) !! j = Some d' ->
    e ∈ d_entries d' -> cmp (d_sep d) (fst e) < 0;
  ts_lower_cur d e : d ∈ ds -> e ∈ cur -> cmp (d_sep d) (fst e) < 0;
  ts_index_sorted : StronglySorted (entry_lt cmp) (map index_entry ds);
  ts_filter : r_filter_block r =
    (fun p => (p, fold_left (add_block p) (groups_of ds pend (r_offset r) cur) FilterBlockBuilder_make))
      <$> filter_policy o;
  ts_groups : Sorted (fun g g' => fst g <= fst g') (groups_of ds pend (r_offset r) cur)
}.

(** [last_key] is the last key added, and past every key of the index. *)
Definition tstate (r : Rep F) (ds : list dblock) (pend : option dblock) (cur : list entry) : Prop :=
  tcore r ds pend cur /\
  (forall e, last (entries_of ds pend cur) = Some e -> r_last_key r = fst e) /\
  (forall d, d ∈ ds -> cmp (d_sep d) (r_last_key r) < 0).

Lemma entries_size_nonempty es : es <> [] -> 19 <= entries_size es.
Proof.
  destruct es as [|[k v] es]; [done|]. intros _. cbn. pose proof (entries_size_nonneg es).
  pose proof (blen_nonneg k). pose proof (blen_nonneg v). lia.
Qed.

Lemma holds_fresh bo b : 1 <= block_restart_interval bo -> holds_entries bo (BlockBuilder_Reset b) [].
Proof.
  intros H. exists [], [0%nat]. split; [by apply builds_Reset|]. split; [done|]. done.
Qed.

(** A new table. *)
Lemma TableBuilder_make_spec f :
  contents f = [] -> exists r, TableBuilder_make o f = Some r /\ tstate r [] None [].
Proof.
  intros Hf. unfold TableBuilder_make, BlockBuilder_make. rewrite (proj2 (Z.leb_le _ _) Hrestart).
  cbn [mbind option_bind]. eexists. split; [done|].
  assert (forall bo, 1 <= block_restart_interval bo ->
    holds_entries bo (mkBlockBuilder [] [0] 0 false []) []) as Hh.
  { intros bo Hbo. exact (holds_fresh bo (mkBlockBuilder [] [0] 0 false []) Hbo). }
  split; [|by split; [|intros ? ?%elem_of_nil]].
  split; cbn; try done; try (by intros ? ?%elem_of_nil); try (by intros ? ? ?%elem_of_nil).
  - by rewrite Hf.
  - by apply Hh.
  - by apply Hh.
  - constructor.
  - constructor.
  - by destruct (filter_policy o).
  - repeat constructor.
Qed.

(** ** [Flush] *)

Lemma holds_empty bo b es : holds_entries bo b es -> BlockBuilder_empty b = bool_decide (es = []).
Proof.
  intros (cs & rs & Hb & <- & _). unfold BlockBuilder_empty. rewrite (bld_buffer _ _ _ _ Hb).
  pose proof (chunks_count cs) as Hc. destruct cs as [|c cs]; [done|].
  destruct (chunks_bytes (c :: cs)); [rewrite blen_nil in Hc; cbn [length] in Hc; lia|].
  by rewrite bool_decide_false.
Qed.

Lemma written_grow c x d : written c d -> written (c ++ x) d.
Proof.
  intros (Hn & Hb & Ho & Hs & Hl). split; [done|]. split; [by apply block_in_grow|].
  rewrite blen_app. pose proof (blen_nonneg x). lia.
Qed.

Lemma groups_snoc ds d off :
  groups_of ds (Some d) off [] = groups_of ds None (fst (filter_group d)) (d_entries d) ++ [(off, [])].
Proof. unfold groups_of. cbn [option_list]. rewrite app_nil_r, map_app, <- !app_assoc. done. Qed.

Lemma Flush_spec r ds cur :
  tcore r ds None cur -> cur <> [] -> 8 * entries_size (entries_of ds None cur) + 1000 < 2 ^ 32 ->
  exists r' d, TableBuilder_Flush snappy zstd addr r = Some r' /\ tcore r' ds (Some d) [] /\
    entries_of ds (Some d) [] = entries_of ds None cur /\ r_last_key r' = r_last_key r.
Proof.
  intros T Hne Hbound. pose proof (ts_data _ _ _ _ T) as (cs & rs & Hb & Hcs & Hsz).
  pose proof (entries_size_nonempty cur Hne) as H19.
  unfold entries_of in Hbound. rewrite entries_size_app in Hbound.
  pose proof (entries_size_nonneg (concat (map d_entries (ds ++ option_list None)))) as Hds.
  pose proof (ts_size _ _ _ _ T) as Hoff. pose proof (blen_block_bytes cs rs) as Hbl.
  pose proof (blen_nonneg (chunks_bytes cs)) as Hcb. pose proof (ts_offset _ _ _ _ T) as Hofs.
  pose proof (blen_nonneg (contents (r_file r))) as Hnn.
  unfold TableBuilder_Flush. rewrite (ts_open _ _ _ _ T), (ts_status _ _ _ _ T). cbn [negb].
  rewrite (holds_empty _ _ _ (ts_data _ _ _ _ T)), bool_decide_false by done.
  rewrite (ts_pending _ _ _ _ T). rewrite (bool_decide_false (is_Some None)) by (by intros []).
  destruct (WriteBlock_spec r _ o cs rs Hb (ts_options _ _ _ _ T) (ts_status _ _ _ _ T) Hofs)
    as (f & s & -> & Hs & Hc); [lia|lia|].
  cbn [mbind option_bind]. cbv zeta. unfold tb_ok. cbn [r_status set_pending set_data_block set_file].
  rewrite Hs. cbn [r_file set_pending set_data_block set_file]. destruct (flush_contents f) as [Hfok Hfc].
  destruct (Flush f) as [s' f']. cbn [fst snd] in *.
  set (h := mkHandle (r_offset r) (blen (fst (form (block_bytes cs rs))))).
  set (d := mkDblock [] h cur).
  pose proof (form_short (block_bytes cs rs)) as Hfs.
  pose proof (blen_nonneg (fst (form (block_bytes cs rs)))) as Hfn.
  assert (contents f' = contents (r_file r) ++
      stored_block (fst (form (block_bytes cs rs))) (snd (form (block_bytes cs rs)))) as Hcf by (by rewrite Hfc).
  assert (entries_of ds (Some d) [] = entries_of ds None cur) as Hent.
  { unfold entries_of. cbn [option_list]. rewrite map_app, concat_app, !app_nil_r. cbn. by rewrite app_nil_r. }
  eexists _, d. split; [done|]. split; [|done].
  assert (blen (contents f') = r_offset r + blen (fst (form (block_bytes cs rs))) + 5) as Hlen.
  { rewrite Hcf, blen_app, blen_stored_block, <- Hofs. unfold kBlockTrailerSize. lia. }
  split; cbn; rewrite ?Hent.
  - apply (ts_options _ _ _ _ T).
  - apply (ts_open _ _ _ _ T).
  - exact Hfok.
  - done.
  - rewrite map_app, concat_app, entries_size_app. cbn. rewrite app_nil_r.
    cbn [option_list] in Hoff, Hds, Hbound. rewrite app_nil_r in Hoff, Hds, Hbound. lia.
  - intros d' Hd'. apply elem_of_app in Hd' as [Hd'| ->%list_elem_of_singleton].
    + rewrite Hcf. apply written_grow, (ts_blocks _ _ _ _ T), elem_of_app. by left.
    + split; [done|]. split.
      * rewrite Hcf. subst d h. cbn. rewrite Hofs, <- Hcs. apply block_in_new; [apply Hb|lia].
      * cbn. rewrite Hlen. lia.
  - apply (ts_index _ _ _ _ T).
  - apply (ts_index_size _ _ _ _ T).
  - done.
  - intros d' [= <-]. done.
  - by apply holds_fresh.
  - apply (ts_num _ _ _ _ T).
  - apply (ts_sorted _ _ _ _ T).
  - apply (ts_upper _ _ _ _ T).
  - intros i j d1 d2 e Hij Hi Hj He. rewrite lookup_app in Hj. destruct (ds !! j) as [d3|] eqn:Ej.
    + simplify_eq. apply (ts_lower _ _ _ _ T i j d1 d2 e Hij Hi); [|done]. by apply lookup_app_l_Some.
    + destruct (j - length ds)%nat; [|done]. cbn in Hj. simplify_eq. cbn in He.
      apply (ts_lower_cur _ _ _ _ T); [by apply (list_elem_of_lookup_2 _ i)|done].
  - by intros d' e' _ ?%elem_of_nil.
  - apply (ts_index_sorted _ _ _ _ T).
  - rewrite (ts_filter _ _ _ _ T). destruct (filter_policy o) as [p|]; [|done]. cbn. do 3 f_equal.
    rewrite groups_snoc, fold_left_app. done.
  - rewrite groups_snoc. cbn [filter_group fst d_handle d handle_offset h].
    pose proof (ts_groups _ _ _ _ T) as Hg. apply StronglySorted_Sorted.
    apply Sorted_StronglySorted in Hg; [|intros ? ? ?; lia].
    apply StronglySorted_app; split_and!; [|exact Hg|repeat constructor].
    intros g g' Hg1 ->%list_elem_of_singleton. cbn.
    unfold groups_of in Hg1. apply elem_of_app in Hg1 as [Hg1| ->%list_elem_of_singleton]; [|cbn; lia].
    assert (fst g <= r_offset r); [|lia].
    exact (StronglySorted_app_1_elem_of _ _ _ g (r_offset r, map fst cur) Hg Hg1 ltac:(by left)).
Qed.

(** ** [Add] *)

Lemma last_snoc_inv {A} (l : list A) x : last l = Some x -> exists l', l = l' ++ [x].
Proof. apply last_Some. Qed.

Lemma prev_key_last_entry cs e :
  last (map chunk_entry cs) = Some e -> prev_key cs (length cs) = fst e.
Proof.
  intros Hl. rewrite last_lookup in Hl. rewrite length_map in Hl.
  destruct (length cs) as [|n] eqn:E; [destruct cs; [done|done]|]. cbn [Init.Nat.pred] in Hl.
  by apply prev_key_entry.
Qed.

(** Adding an entry to a block builder within its bound. *)
Lemma holds_Add bo b es k v :
  holds_entries bo b es -> 1 <= block_restart_interval bo ->
  (forall e, last es = Some e -> 0 < Compare (comparator bo) k (fst e)) ->
  4 + entries_size (es ++ [(k, v)]) < 2 ^ 32 ->
  exists b', BlockBuilder_Add bo b k v = Some b' /\ holds_entries bo b' (es ++ [(k, v)]).
Proof.
  intros (cs & rs & Hb & Hm & Hsz) Hbo Hlast Hbound. rewrite entries_size_app in *. cbn [entries_size] in *.
  destruct (builds_Add bo b cs rs k v Hb Hbo) as (b' & rs' & Hadd & Hb' & Hr').
  { intros Hne. destruct (last (map chunk_entry cs)) as [e|] eqn:El.
    - rewrite (prev_key_last_entry _ _ El). apply Hlast. by rewrite <- Hm.
    - apply last_None in El. by destruct cs. }
  { lia. }
  exists b'. split; [done|]. exists (cs ++ [next_chunk bo b k v]), rs'. split; [done|].
  rewrite map_app, Hm. split; [done|]. rewrite entries_size_app. cbn [entries_size].
  pose proof (blen_next_chunk bo b k v). rewrite chunks_bytes_app, blen_app.
  unfold chunks_bytes at 2. cbn [map concat]. rewrite app_nil_r. lia.
Qed.

Lemma sorted_last_le l x e :
  StronglySorted (entry_lt cmp) l -> last l = Some x -> e ∈ l -> cmp (fst e) (fst x) <= 0.
Proof.
  intros Hs (l' & ->)%last_Some He. apply elem_of_app in He as [He| ->%list_elem_of_singleton].
  - apply Z.lt_le_incl. exact (StronglySorted_app_1_elem_of _ _ _ e x Hs He ltac:(by left)).
  - by rewrite cmp_refl.
Qed.

Lemma entries_size_elem es e : e ∈ es -> blen (fst e) + 19 <= entries_size es.
Proof.
  induction es as [|[k v] es IH]; [by intros ?%elem_of_nil|]. cbn [entries_size].
  pose proof (entries_size_nonneg es). pose proof (blen_nonneg v). pose proof (blen_nonneg k).
  intros [->|Hin]%elem_of_cons; cbn; [lia|]. specialize (IH Hin). lia.
Qed.

(** The pending block enters the index. *)
Lemma add_index_spec r ds d0 sep :
  tstate r ds (Some d0) [] -> cmp (r_last_key r) sep <= 0 -> blen sep <= blen (r_last_key r) ->
  8 * entries_size (entries_of ds (Some d0) []) + 1000 < 2 ^ 32 ->
  exists ib, add_index_entry r sep = Some (set_index_block r ib sep) /\
    tcore (set_index_block r ib sep) (ds ++ [mkDblock sep (d_handle d0) (d_entries d0)]) None [].
Proof.
  intros (T & Hlast & Hgap) Hsep Hshort Hbound.
  set (d1 := mkDblock sep (d_handle d0) (d_entries d0)).
  assert (entries_of ds (Some d0) [] = concat (map d_entries ds) ++ d_entries d0) as Hent.
  { unfold entries_of. cbn. rewrite map_app, concat_app. cbn. by rewrite !app_nil_r. }
  assert (entries_of (ds ++ [d1]) None [] = concat (map d_entries ds) ++ d_entries d0) as Hent1.
  { unfold entries_of. cbn. rewrite !app_nil_r, map_app, concat_app. cbn. by rewrite app_nil_r. }
  assert (written (contents (r_file r)) d0) as Hw.
  { apply (ts_blocks _ _ _ _ T), elem_of_app. right. by left. }
  pose proof Hw as (Hne & Hbi & Hho & Hhs & Hhl).
  destruct (last (d_entries d0)) as [el|] eqn:El; [|by apply last_None in El].
  assert (r_last_key r = fst el) as Hlk.
  { apply Hlast. rewrite Hent, last_app, El. done. }
  assert (el ∈ d_entries d0) as Hel by (apply last_Some in El as [l' ->]; apply elem_of_app; right; by left).
  rewrite Hent in Hbound. rewrite entries_size_app in Hbound.
  pose proof (entries_size_nonneg (concat (map d_entries ds))).
  pose proof (entries_size_elem _ _ Hel) as Hes. pose proof (ts_index_size _ _ _ _ T) as Hisz.
  pose proof (ts_size _ _ _ _ T) as Hoff. pose proof (ts_offset _ _ _ _ T) as Hofs.
  cbn [option_list] in Hoff. rewrite map_app, concat_app, entries_size_app in Hoff. cbn in Hoff.
  rewrite app_nil_r in Hoff.
  destruct (ts_handle _ _ _ _ T d0 eq_refl) as [Hph _].
  assert (entries_size [index_entry d1] <= 3 * entries_size (d_entries d0)) as Hi1.
  { cbn. pose proof (blen_handle_bytes (d_handle d0)). unfold kMaxEncodedLength in *. rewrite Hlk in Hshort.
    pose proof (blen_nonneg (fst el)). lia. }
  assert (forall e, last (map index_entry ds) = Some e -> cmp (fst e) sep < 0) as Hprev.
  { intros e He. apply last_Some in He as [l He]. assert (e ∈ map index_entry ds) as Hin.
    { rewrite He. apply elem_of_app. right. by left. }
    apply list_elem_of_fmap in Hin as (d & -> & Hd). cbn. apply (cmp_lt_le_trans cmp _ (r_last_key r)); auto. }
  destruct (holds_Add (index_block_options o) (r_index_block r) (map index_entry ds) sep (handle_bytes (d_handle d0))
    (ts_index _ _ _ _ T) ltac:(done)) as (ib & Hadd & Hhold).
  { intros e He. cbn. apply cmp_opp. by apply Hprev. }
  { rewrite entries_size_app. cbn in Hi1 |- *. lia. }
  exists ib. split.
  { unfold add_index_entry. rewrite Hph, BlockHandle_EncodeTo_ok by (split; lia). cbn [mbind option_bind app].
    rewrite (ts_options _ _ _ _ T), Hadd. done. }
  assert (map filter_group ((ds ++ [d1]) ++ []) = map filter_group (ds ++ [d0])) as Hfg.
  { rewrite app_nil_r, !map_app. done. }
  assert (concat (map d_entries ((ds ++ [d1]) ++ [])) = concat (map d_entries (ds ++ [d0]))) as Hce.
  { rewrite app_nil_r, !map_app, !concat_app. done. }
  split; cbn.
  - apply (ts_options _ _ _ _ T).
  - apply (ts_open _ _ _ _ T).
  - apply (ts_status _ _ _ _ T).
  - done.
  - rewrite Hce. apply (ts_size _ _ _ _ T).
  - intros d. rewrite app_nil_r. intros [Hd| ->%list_elem_of_singleton]%elem_of_app; [|exact Hw].
    apply (ts_blocks _ _ _ _ T), elem_of_app. by left.
  - rewrite map_app. exact Hhold.
  - rewrite !map_app, concat_app, !entries_size_app. cbn. rewrite app_nil_r. cbn in Hi1. lia.
  - done.
  - done.
  - apply (ts_data _ _ _ _ T).
  - rewrite (ts_num _ _ _ _ T), Hent, Hent1. done.
  - rewrite Hent1, <- Hent. apply (ts_sorted _ _ _ _ T).
  - intros d e [Hd| ->%list_elem_of_singleton]%elem_of_app He; [by apply (ts_upper _ _ _ _ T)|]. cbn in *.
    apply (cmp_le_trans _ (r_last_key r)); [|done]. rewrite Hlk.
    pose proof (ts_sorted _ _ _ _ T) as Hs. rewrite Hent in Hs. apply StronglySorted_app_1_r in Hs.
    by apply (sorted_last_le (d_entries d0)).
  - rewrite app_nil_r. intros i j d d' e Hij Hi Hj He.
    assert (j < length (ds ++ [d1]))%nat as Hjl by (by apply lookup_lt_Some in Hj).
    rewrite length_app in Hjl. cbn in Hjl. rewrite lookup_app_l in Hi by lia.
    destruct (decide (j = length ds)) as [->|Hnj].
    + rewrite list_lookup_middle in Hj by done. simplify_eq. cbn in He.
      apply (ts_lower _ _ _ _ T i (length ds) d d0 e Hij Hi); [|done]. cbn. by apply list_lookup_middle.
    + rewrite lookup_app_l in Hj by lia. apply (ts_lower _ _ _ _ T i j d d' e Hij Hi); [|done].
      by apply lookup_app_l_Some.
  - by intros d e _ ?%elem_of_nil.
  - rewrite map_app. apply StronglySorted_app; split_and!; [|apply (ts_index_sorted _ _ _ _ T)|repeat constructor].
    intros x y Hx ->%list_elem_of_singleton. apply list_elem_of_fmap in Hx as (d & -> & Hd).
    apply (cmp_lt_le_trans cmp _ (r_last_key r)); [by apply Hgap|done].
  - rewrite (ts_filter _ _ _ _ T). unfold groups_of.
    change (option_list (Some d0)) with [d0]. change (option_list None) with (@nil dblock). by rewrite Hfg.
  - pose proof (ts_groups _ _ _ _ T) as Hg. unfold groups_of in *.
    change (option_list (Some d0)) with [d0] in Hg. change (option_list None) with (@nil dblock). by rewrite Hfg.
Qed.

Lemma last_app_r {A} (l l' : list A) x : last l' = Some x -> last (l ++ l') = Some x.
Proof. intros H. by rewrite last_app, H. Qed.

(** An entry enters the data block. *)
Definition put_entry (r : Rep F) (k : bytes) (db : BlockBuilder) : Rep F :=
  set_data_block (set_last_key (set_filter_block r
    ((fun '(p, b) => (p, AddKey k b)) <$> r_filter_block r)) k) db.

Lemma put_entry_spec r ds cur k v :
  tcore r ds None cur ->
  (forall e, last (entries_of ds None cur) = Some e -> cmp (fst e) k < 0) ->
  (forall d, d ∈ ds -> cmp (d_sep d) k < 0) ->
  8 * entries_size (entries_of ds None cur ++ [(k, v)]) + 1000 < 2 ^ 32 ->
  exists db, BlockBuilder_Add o (r_data_block r) k v = Some db /\
    tcore (put_entry r k db) ds None (cur ++ [(k, v)]).
Proof.
  intros T Hlast Hgap Hbound.
  assert (entries_of ds None (cur ++ [(k, v)]) = entries_of ds None cur ++ [(k, v)]) as Hent.
  { unfold entries_of. by rewrite app_assoc. }
  assert (entries_size (cur ++ [(k, v)]) <= entries_size (entries_of ds None cur ++ [(k, v)])) as Hle.
  { unfold entries_of. rewrite !entries_size_app.
    pose proof (entries_size_nonneg (concat (map d_entries (ds ++ option_list None)))). lia. }
  destruct (holds_Add o (r_data_block r) cur k v (ts_data _ _ _ _ T) Hrestart) as (db & Hadd & Hhold).
  { intros e He. apply cmp_opp. apply Hlast. by apply last_app_r. }
  { lia. }
  exists db. split; [done|]. split; cbn; rewrite ?Hent.
  - apply (ts_options _ _ _ _ T).
  - apply (ts_open _ _ _ _ T).
  - apply (ts_status _ _ _ _ T).
  - apply (ts_offset _ _ _ _ T).
  - apply (ts_size _ _ _ _ T).
  - apply (ts_blocks _ _ _ _ T).
  - apply (ts_index _ _ _ _ T).
  - apply (ts_index_size _ _ _ _ T).
  - apply (ts_pending _ _ _ _ T).
  - done.
  - exact Hhold.
  - rewrite (ts_num _ _ _ _ T), length_app. cbn. lia.
  - apply StronglySorted_app; split_and!; [|apply (ts_sorted _ _ _ _ T)|repeat constructor].
    intros x y Hx ->%list_elem_of_singleton.
    destruct (last (entries_of ds None cur)) as [e|] eqn:El.
    + apply (cmp_le_lt_trans cmp _ (fst e)); [|by apply Hlast].
      by apply (sorted_last_le _ e x (ts_sorted _ _ _ _ T)).
    + apply last_None in El. rewrite El in Hx. by apply elem_of_nil in Hx.
  - apply (ts_upper _ _ _ _ T).
  - apply (ts_lower _ _ _ _ T).
  - intros d e Hd [He| ->%list_elem_of_singleton]%elem_of_app; [by apply (ts_lower_cur _ _ _ _ T)|].
    by apply Hgap.
  - apply (ts_index_sorted _ _ _ _ T).
  - rewrite (ts_filter _ _ _ _ T). destruct (filter_policy o) as [p|]; [|done]. cbn. do 2 f_equal.
    unfold groups_of. rewrite !fold_left_app. cbn. unfold add_block. cbn [fst snd].
    rewrite (map_app fst), fold_left_app. done.
  - pose proof (ts_groups _ _ _ _ T) as Hg. unfold groups_of in *.
    apply StronglySorted_Sorted. apply Sorted_StronglySorted in Hg; [|intros ? ? ?; lia].
    apply StronglySorted_app in Hg as (Hg1 & Hg2 & _).
    apply StronglySorted_app; split_and!; [|done|repeat constructor].
    intros x y Hx ->%list_elem_of_singleton. exact (Hg1 x (r_offset r, map fst cur) Hx ltac:(by left)).
Qed.

Lemma Add_spec r ds pend cur k v :
  tstate r ds pend cur ->
  (forall e, last (entries_of ds pend cur) = Some e -> cmp (fst e) k < 0) ->
  8 * entries_size (entries_of ds pend cur ++ [(k, v)]) + 1000 < 2 ^ 32 ->
  exists r' ds' pend' cur', TableBuilder_Add snappy zstd addr r k v = Some r' /\
    tstate r' ds' pend' cur' /\ entries_of ds' pend' cur' = entries_of ds pend cur ++ [(k, v)].
Proof.
  intros (T & Hlast & Hgap) Hk Hbound. unfold TableBuilder_Add.
  rewrite (ts_open _ _ _ _ T), (ts_status _ _ _ _ T). cbn [negb].
  rewrite (ts_options _ _ _ _ T), (ts_num _ _ _ _ T).
  assert (entries_of ds pend cur <> [] -> cmp (r_last_key r) k < 0) as Hlk.
  { intros Hne. destruct (last (entries_of ds pend cur)) as [e|] eqn:El; [|by apply last_None in El].
    rewrite (Hlast e eq_refl). by apply Hk. }
  assert ((0 <? Z.of_nat (length (entries_of ds pend cur))) && negb (0 <? cmp k (r_last_key r)) = false) as ->.
  { destruct (entries_of ds pend cur) as [|e l]; [done|]. specialize (Hlk ltac:(done)).
    apply cmp_opp in Hlk. destruct (Z.ltb_spec 0 (cmp k (r_last_key r))); [apply andb_false_r|lia]. }
  assert (exists r1 ds1,
    (if r_pending_index_entry r then
       if BlockBuilder_empty (r_data_block r) then
         add_index_entry r (FindShortestSeparator (comparator o) (r_last_key r) k)
       else None
     else Some r) = Some r1 /\ tcore r1 ds1 None cur /\
    entries_of ds1 None cur = entries_of ds pend cur /\ (forall d, d ∈ ds1 -> cmp (d_sep d) k < 0))
    as (r1 & ds1 & -> & T1 & Hent1 & Hgap1).
  { rewrite (ts_pending _ _ _ _ T). destruct pend as [d0|].
    - rewrite bool_decide_true by done. destruct (ts_handle _ _ _ _ T d0 eq_refl) as [_ ->].
      rewrite (holds_empty _ _ _ (ts_data _ _ _ _ T)), bool_decide_true by done.
      assert (written (contents (r_file r)) d0) as (Hne & _).
      { apply (ts_blocks _ _ _ _ T), elem_of_app. right. by left. }
      assert (entries_of ds (Some d0) [] = concat (map d_entries ds) ++ d_entries d0) as Hent.
      { unfold entries_of. cbn. rewrite map_app, concat_app. cbn. by rewrite !app_nil_r. }
      assert (cmp (r_last_key r) k < 0) as Hlt.
      { apply Hlk. rewrite Hent. intros [_ ?]%app_eq_nil. done. }
      destruct (separator_range (r_last_key r) k Hlt) as [Hs1 Hs2].
      rewrite entries_size_app in Hbound. cbn [entries_size] in Hbound.
      pose proof (blen_nonneg k). pose proof (blen_nonneg v).
      destruct (add_index_spec r ds d0 _ (conj T (conj Hlast Hgap)) Hs1 (separator_short _ _)) as (ib & Hib & T1);
        [lia|].
      eexists _, _. split; [exact Hib|]. split; [exact T1|]. split.
      + rewrite Hent. unfold entries_of. cbn. rewrite !app_nil_r, map_app, concat_app. cbn. by rewrite app_nil_r.
      + intros d [Hd| ->%list_elem_of_singleton]%elem_of_app; [|done].
        apply (cmp_lt_trans cmp _ (r_last_key r)); [by apply Hgap|done].
    - rewrite bool_decide_false by (by intros []). exists r, ds. split; [done|]. split; [done|]. split; [done|].
      intros d Hd. apply (cmp_lt_trans cmp _ (r_last_key r)); [by apply Hgap|].
      apply Hlk. assert (written (contents (r_file r)) d) as (Hne & _).
      { apply (ts_blocks _ _ _ _ T), elem_of_app. by left. }
      intros E. apply app_eq_nil in E as [E _]. apply (f_equal length) in E. cbn in E.
      rewrite app_nil_r in E. apply list_elem_of_lookup_1 in Hd as [i Hi].
      rewrite <- (take_drop_middle _ _ _ Hi), map_app, concat_app, length_app in E. cbn in E.
      rewrite length_app in E. destruct (d_entries d); [done|cbn in E; lia]. }
  cbn [mbind option_bind]. cbv zeta.
  destruct (put_entry_spec r1 ds1 cur k v T1) as (db & Hadd & T2); [by rewrite Hent1|done|by rewrite Hent1|].
  cbn [r_options r_data_block set_last_key set_filter_block]. rewrite (ts_options _ _ _ _ T1), Hadd.
  cbn [mbind option_bind]. fold (put_entry r1 k db).
  assert (entries_of ds1 None (cur ++ [(k, v)]) = entries_of ds pend cur ++ [(k, v)]) as Hent2.
  { rewrite <- Hent1. unfold entries_of. by rewrite app_assoc. }
  assert (tstate (put_entry r1 k db) ds1 None (cur ++ [(k, v)])) as T3.
  { split; [done|]. split; [|done]. rewrite Hent2, last_snoc. intros e [= <-]. done. }
  destruct (_ <=? _).
  - destruct (Flush_spec _ _ _ T2) as (r' & d & -> & T' & He' & Hl'); [by destruct cur|by rewrite Hent2|].
    exists r', ds1, (Some d), []. split; [done|]. rewrite He', Hent2. split; [|done].
    split; [done|]. rewrite He', Hl'. apply T3.
  - exists (put_entry r1 k db), ds1, None, (cur ++ [(k, v)]). done.
Qed.

Lemma add_all_spec es r ds pend cur :
  tstate r ds pend cur -> StronglySorted (entry_lt cmp) (entries_of ds pend cur ++ es) ->
  8 * entries_size (entries_of ds pend cur ++ es) + 1000 < 2 ^ 32 ->
  exists r' ds' pend' cur', add_all snappy zstd addr r es = Some r' /\
    tstate r' ds' pend' cur' /\ entries_of ds' pend' cur' = entries_of ds pend cur ++ es.
Proof.
  revert r ds pend cur. induction es as [|[k v] es IH]; intros r ds pend cur T Hs Hb.
  { exists r, ds, pend, cur. by rewrite app_nil_r. }
  rewrite cons_middle, app_assoc in Hs, Hb. cbn [add_all].
  destruct (Add_spec r ds pend cur k v T) as (r1 & ds1 & p1 & c1 & -> & T1 & He1).
  { intros e [l He]%last_Some. apply StronglySorted_app_1_l in Hs.
    exact (StronglySorted_app_1_elem_of _ _ _ e (k, v) Hs ltac:(rewrite He; apply elem_of_app; right; by left) ltac:(by left)). }
  { rewrite entries_size_app in Hb. pose proof (entries_size_nonneg es). lia. }
  cbn [mbind option_bind]. rewrite <- He1 in Hs, Hb.
  destruct (IH r1 ds1 p1 c1 T1 Hs Hb) as (r' & ds' & p' & c' & -> & T' & He').
  exists r', ds', p', c'. split; [done|]. split; [done|]. by rewrite He', He1, <- app_assoc.
Qed.

(** ** [Finish] *)

(** What the writing steps need of the builder. *)
Definition writable (r : Rep F) : Prop :=
  r_options r = o /\ tb_ok r = true /\ r_offset r = blen (contents (r_file r)).

Definition name_size : Z :=
  match filter_policy o with Some p => blen (PolicyName p) | None => 0 end.

(** Writing a block that holds [es]. *)
Lemma write_holds r bo b es :
  writable r -> holds_entries bo b es -> blen (contents (r_file r)) + entries_size es + 13 < 2 ^ 32 ->
  exists f s h b', WriteBlock snappy zstd addr r b = Some (set_file r f (blen (contents f)) s, h, b') /\
    ok s = true /\ (exists x, contents f = contents (r_file r) ++ x) /\ handle_ok h /\
    block_in snappy zstd o (contents f) h es /\
    blen (contents f) <= blen (contents (r_file r)) + entries_size es + 13.
Proof.
  intros (Hro & Hok & Hoff) (cs & rs & Hb & <- & Hsz) Hbound.
  pose proof (blen_nonneg (contents (r_file r))). pose proof (blen_nonneg (chunks_bytes cs)).
  pose proof (blen_block_bytes cs rs) as Hbl. pose proof (form_short (block_bytes cs rs)).
  pose proof (blen_nonneg (fst (form (block_bytes cs rs)))).
  destruct (WriteBlock_spec r b bo cs rs Hb Hro Hok Hoff) as (f & s & -> & Hs & Hc); [lia|lia|].
  assert (blen (contents f) = r_offset r + blen (fst (form (block_bytes cs rs))) + 5) as Hlen.
  { rewrite Hc, blen_app, blen_stored_block, <- Hoff. unfold kBlockTrailerSize. lia. }
  rewrite <- Hlen. eexists _, _, _, _. split; [done|]. split; [done|]. split; [eauto|]. split.
  { split; cbn; lia. }
  split; [|lia]. rewrite Hc, Hoff. apply block_in_new; [apply Hb|lia].
Qed.

(** The metaindex block of a table whose filter, if any, is at [fh]. *)
Lemma write_metaindex_spec r fh :
  writable r -> (filter_policy o <> None -> handle_ok fh) ->
  (r_filter_block r = None <-> filter_policy o = None) ->
  blen (contents (r_file r)) + name_size + 100 < 2 ^ 32 ->
  exists f s mh, write_metaindex_block snappy zstd addr r fh =
      Some (set_file r f (blen (contents f)) s, mh) /\
    ok s = true /\ (exists x, contents f = contents (r_file r) ++ x) /\ handle_ok mh /\
    block_in snappy zstd o (contents f) mh
      (match filter_policy o with Some p => [filter_entry p fh] | None => [] end) /\
    blen (contents f) <= blen (contents (r_file r)) + name_size + 70.
Proof.
  intros Hw Hfh Hiff Hbound. unfold write_metaindex_block. pose proof Hw as (Hro & Hok & _).
  rewrite Hok, Hro. unfold BlockBuilder_make. rewrite (proj2 (Z.leb_le _ _) Hrestart).
  cbn [mbind option_bind]. pose proof (holds_fresh o (mkBlockBuilder [] [0] 0 false []) Hrestart) as Hfresh.
  unfold BlockBuilder_Reset in Hfresh.
  unfold name_size in *. destruct (filter_policy o) as [p|].
  - destruct (r_filter_block r) as [fb|]; [|by destruct Hiff as [Hi _]; specialize (Hi eq_refl)].
    cbn [mbind option_bind]. rewrite BlockHandle_EncodeTo_ok by (by apply Hfh). cbn [mbind option_bind app].
    pose proof (blen_handle_bytes fh). unfold kMaxEncodedLength in *.
    assert (entries_size [filter_entry p fh] <= blen (PolicyName p) + 46) as Hes.
    { cbn [entries_size filter_entry]. rewrite blen_app. change (blen (str "filter.")) with 7. lia. }
    pose proof (blen_nonneg (contents (r_file r))).
    destruct (holds_Add o _ [] (str "filter." ++ PolicyName p) (handle_bytes fh) Hfresh Hrestart) as (b' & -> & Hh);
      [done|cbn [app]; fold (filter_entry p fh); lia|].
    cbn [mbind option_bind app] in *. fold (filter_entry p fh) in Hh.
    destruct (write_holds r o b' _ Hw Hh) as (f & s & mh & b2 & -> & Hs & Hx & Hmh & Hb & Hl); [lia|].
    cbn [mbind option_bind]. exists f, s, mh. split_and!; try done. lia.
  - destruct (r_filter_block r) as [fb|]; [by destruct Hiff as [_ Hi]; specialize (Hi eq_refl)|].
    cbn [mbind option_bind].
    destruct (write_holds r o _ [] Hw Hfresh) as (f & s & mh & b2 & -> & Hs & Hx & Hmh & Hb & Hl);
      [cbn [entries_size]; lia|].
    cbn [mbind option_bind]. exists f, s, mh. split_and!; try done. cbn [entries_size] in Hl. lia.
Qed.

(** The filter block, when there is a policy. *)
Lemma write_filter_spec r (fb : FilterPolicy -> FilterBlockBuilder) :
  writable r -> r_filter_block r = (fun p => (p, fb p)) <$> filter_policy o ->
  (forall p, filter_policy o = Some p ->
    blen (contents (r_file r)) + blen (Finish p (fb p)) + 5 < 2 ^ 32) ->
  exists f s fh, write_filter_block addr r = (set_file r f (blen (contents f)) s, fh) /\
    ok s = true /\ (exists x, contents f = contents (r_file r) ++ x) /\
    (forall p, filter_policy o = Some p -> handle_ok fh /\
      stored_in (contents f) fh (Finish p (fb p), kNoCompression) /\
      blen (contents f) = blen (contents (r_file r)) + blen (Finish p (fb p)) + 5) /\
    (filter_policy o = None -> contents f = contents (r_file r)).
Proof.
  intros (Hro & Hok & Hoff) Hfb Hbound. unfold write_filter_block. rewrite Hfb.
  destruct (filter_policy o) as [p|]; cbn [fmap option_fmap option_map].
  - rewrite Hok. specialize (Hbound p eq_refl). pose proof (blen_nonneg (contents (r_file r))).
    pose proof (blen_nonneg (Finish p (fb p))).
    destruct (WriteRawBlock_spec r (Finish p (fb p)) kNoCompression Hoff) as (f & s & -> & Hs & Hc); [lia|].
    assert (blen (contents f) = blen (contents (r_file r)) + blen (Finish p (fb p)) + 5) as Hlen.
    { rewrite Hc, blen_app, blen_stored_block. unfold kBlockTrailerSize. lia. }
    replace (r_offset r + blen (Finish p (fb p)) + 5) with (blen (contents f)) by lia.
    eexists f, s, _. split; [done|]. split; [done|]. split; [eauto|]. split; [|done].
    intros p' [= <-]. split; [split; cbn; lia|]. split; [|done].
    rewrite Hc. exists (contents (r_file r)), []. cbn. by rewrite app_nil_r, Hoff.
  - exists (r_file r), (r_status r), BlockHandle_new. rewrite <- Hoff. split; [by destruct r|].
    split; [done|]. split; [exists []; by rewrite app_nil_r|]. done.
Qed.

(** The footer ends the file. *)
Lemma write_footer_spec r mh ih :
  writable r -> handle_ok mh -> handle_ok ih -> blen (contents (r_file r)) + 48 < 2 ^ 64 ->
  exists f s, write_footer r mh ih = Some (set_file r f (blen (contents f)) s) /\ ok s = true /\
    contents f = contents (r_file r) ++ footer_bytes (mkFooter mh ih).
Proof.
  intros (Hro & Hok & Hoff) Hmh Hih Hsz. unfold write_footer. rewrite Hok.
  change (set_index_handle (set_metaindex_handle Footer_new mh) ih) with (mkFooter mh ih).
  rewrite Footer_EncodeTo_ok by done. cbn [mbind option_bind].
  destruct (append_contents (r_file r) (footer_bytes (mkFooter mh ih))) as [Hok4 Hc4].
  destruct (Append (r_file r) (footer_bytes (mkFooter mh ih))) as [s f]. cbn [fst snd] in *. rewrite Hok4.
  exists f, s. split; [|done]. pose proof (blen_nonneg (contents (r_file r))).
  rewrite Hc4, blen_app, blen_footer_bytes, Hoff.
  by rewrite u64_small by (unfold kEncodedLength, kMaxEncodedLength; lia).
Qed.

(** The data block is flushed. *)
Lemma Flush_any r ds pend cur :
  tstate r ds pend cur -> 8 * entries_size (entries_of ds pend cur) + 1000 < 2 ^ 32 ->
  exists r1 pend1, TableBuilder_Flush snappy zstd addr r = Some r1 /\ tstate r1 ds pend1 [] /\
    entries_of ds pend1 [] = entries_of ds pend cur.
Proof.
  intros (T & Hl & Hg) Hb. destruct (decide (cur = [])) as [->|Hne].
  - exists r, pend. split; [|done]. unfold TableBuilder_Flush.
    rewrite (ts_open _ _ _ _ T), (ts_status _ _ _ _ T). cbn [negb].
    by rewrite (holds_empty _ _ _ (ts_data _ _ _ _ T)), bool_decide_true.
  - destruct pend as [d|]; [by destruct (ts_handle _ _ _ _ T d eq_refl)|].
    destruct (Flush_spec r ds cur T Hne Hb) as (r1 & d & -> & T1 & He & Hk).
    exists r1, (Some d). split; [done|]. split; [|done]. split; [done|]. by rewrite He, Hk.
Qed.

Lemma add_index_same (r1 r2 : Rep F) sep ib :
  add_index_entry r1 sep = Some (set_index_block r1 ib sep) ->
  r_options r2 = r_options r1 -> r_pending_handle r2 = r_pending_handle r1 ->
  r_index_block r2 = r_index_block r1 -> add_index_entry r2 sep = Some (set_index_block r2 ib sep).
Proof.
  unfold add_index_entry. intros H1 -> -> ->.
  destruct (BlockHandle_EncodeTo _ _) as [he|]; cbn [mbind option_bind] in *; [|done].
  destruct (BlockBuilder_Add _ _ _ _) as [b|]; cbn [mbind option_bind] in *; [|done].
  injection H1 as H1. by rewrite H1.
Qed.

(** The last index entry: what [Finish] adds before it writes the index block. *)
Lemma last_index r ds pend :
  tstate r ds pend [] -> 8 * entries_size (entries_of ds pend []) + 1000 < 2 ^ 32 ->
  exists ds' ri, tcore ri ds' None [] /\ entries_of ds' None [] = entries_of ds pend [] /\
    r_file ri = r_file r /\ r_offset ri = r_offset r /\ r_filter_block ri = r_filter_block r /\
    forall r2 : Rep F, r_options r2 = o -> r_pending_index_entry r2 = r_pending_index_entry r ->
      r_pending_handle r2 = r_pending_handle r -> r_index_block r2 = r_index_block r ->
      r_last_key r2 = r_last_key r ->
      exists r3, (if r_pending_index_entry r2 then
                    add_index_entry r2 (FindShortSuccessor (comparator (r_options r2)) (r_last_key r2))
                  else Some r2) = Some r3 /\
        r_index_block r3 = r_index_block ri /\ r_options r3 = o /\ r_file r3 = r_file r2 /\
        r_offset r3 = r_offset r2 /\ r_status r3 = r_status r2.
Proof.
  intros T0 Hb. pose proof T0 as (T & Hlast & Hgap). destruct pend as [d0|].
  - destruct (add_index_spec r ds d0 (FindShortSuccessor (comparator o) (r_last_key r)) T0
      (successor_ge _) (successor_short _) Hb) as (ib & Hib & T1).
    eexists _, _. split; [exact T1|]. split.
    { unfold entries_of. cbn. rewrite !app_nil_r, !map_app, !concat_app. done. }
    split; [done|]. split; [done|]. split; [done|].
    intros r2 Ho Hp Hh Hi Hk. rewrite Hp, (ts_pending _ _ _ _ T), bool_decide_true, Ho, Hk by done.
    rewrite (add_index_same r r2 _ ib Hib) by (rewrite ?(ts_options _ _ _ _ T); done).
    eexists. split; [done|]. done.
  - exists ds, r. split; [done|]. split; [done|]. split; [done|]. split; [done|]. split; [done|].
    intros r2 Ho Hp Hh Hi Hk. rewrite Hp, (ts_pending _ _ _ _ T), bool_decide_false by (by intros []).
    eexists. split; [done|]. done.
Qed.

Lemma groups_keys ds off :
  length (concat (map snd (groups_of ds None off []))) = length (entries_of ds None []).
Proof.
  unfold groups_of, entries_of. cbn. rewrite !app_nil_r, map_app, concat_app. cbn. rewrite app_nil_r.
  induction ds as [|d ds IH]; [done|]. cbn. rewrite !length_app, length_map. f_equal. exact IH.
Qed.

Lemma entries_size_count es : 19 * Z.of_nat (length es) <= entries_size es.
Proof.
  induction es as [|[k v] es IH]; [done|]. cbn [length entries_size].
  pose proof (blen_nonneg k). pose proof (blen_nonneg v). lia.
Qed.

(** Filters of at most [kf] bytes for each key, and one more. *)
Context (kf : Z) (Hkf : 0 <= kf).
Context (Hfilter : forall p, filter_policy o = Some p -> FilterPolicyLaws p /\
  forall ks, blen (CreateFilter p ks []) <= kf * (1 + Z.of_nat (length ks))).

(** Room for all blocks of a table with the entries [es]. *)
Definition table_bound (es : list entry) : Z :=
  (2 * kf + 8) * entries_size es + name_size + 1000.

Lemma name_size_nonneg : 0 <= name_size.
Proof. unfold name_size. destruct (filter_policy o); [apply blen_nonneg|lia]. Qed.

Lemma filter_fits ri ds p :
  tcore ri ds None [] -> filter_policy o = Some p ->
  blen (build_filter_block p (groups_of ds None (r_offset ri) [])) <=
    (2 * kf + 1) * entries_size (entries_of ds None []) + 20.
Proof.
  intros T Hp. destruct (Hfilter p Hp) as [HL Hsz].
  set (E := entries_size (entries_of ds None [])).
  assert (0 <= r_offset ri <= 2 * E) as Hoff.
  { rewrite (ts_offset _ _ _ _ T) at 1. pose proof (ts_size _ _ _ _ T) as Hs.
    pose proof (blen_nonneg (contents (r_file ri))). subst E. unfold entries_of. rewrite app_nil_r. lia. }
  pose proof (filter_block_size p kf (groups_of ds None (r_offset ri) []) (r_offset ri) Hkf Hsz) as Hf.
  rewrite groups_keys in Hf. pose proof (entries_size_count (entries_of ds None [])) as Hc. fold E in Hc.
  assert (0 <= r_offset ri / kFilterBase <= E / 1024) as Hd.
  { split; [apply Z.div_pos; [lia|done]|]. change kFilterBase with 2048.
    apply Z.div_le_lower_bound; [lia|]. pose proof (Z.mul_div_le (r_offset ri) 2048). lia. }
  pose proof (Z.mul_div_le E 1024).
  assert (2 * kf * Z.of_nat (length (entries_of ds None [])) <= 2 * kf * E) by nia.
  enough (blen (build_filter_block p (groups_of ds None (r_offset ri) [])) <=
    2 * kf * Z.of_nat (length (entries_of ds None [])) + 4 * (r_offset ri / kFilterBase + 2) + 1) by lia.
  apply Hf; [|lia]. unfold groups_of. apply Forall_app. split; [|repeat constructor; cbn; lia].
  apply Forall_forall. intros g (d & -> & Hd')%list_elem_of_fmap.
  destruct (ts_blocks _ _ _ _ T d Hd') as (_ & _ & H1 & H2 & H3). cbn. rewrite <- (ts_offset _ _ _ _ T) in H3. lia.
Qed.

(** The contents of the finished file make a table. *)
Lemma finished_table ri ds es content y mh ih :
  tcore ri ds None [] -> entries_of ds None [] = es -> entries_size es < 2 ^ 32 ->
  content = contents (r_file ri) ++ y -> blen content < 2 ^ 32 ->
  (exists pre, content = pre ++ footer_bytes (mkFooter mh ih)) -> handle_ok mh -> handle_ok ih ->
  block_in snappy zstd o content ih (map index_entry ds) ->
  meta_in snappy zstd o content ds (groups_of ds None (r_offset ri) []) mh ->
  table_in snappy zstd o content ds (groups_of ds None (r_offset ri) []) es mh ih.
Proof.
  intros Ci Hent HE Hc Hsz Hfoot Hmh Hih Hidx Hmeta. split; try done.
  - intros d Hd. destruct (ts_blocks _ _ _ _ Ci d) as (_ & Hbi & H1 & H2 & H3); [apply elem_of_app; by left|].
    split; [|rewrite Hc; by apply block_in_grow]. rewrite Hc, blen_app in Hsz. pose proof (blen_nonneg y).
    split; lia.
  - intros d Hd. pose proof (ts_sorted _ _ _ _ Ci) as Hs. unfold entries_of in Hs.
    change (option_list None) with (@nil dblock) in Hs. rewrite !app_nil_r in Hs.
    apply list_elem_of_lookup_1 in Hd as [i Hi]. rewrite <- (take_drop_middle _ _ _ Hi), map_app, concat_app in Hs.
    apply StronglySorted_app_1_r in Hs. cbn in Hs. by apply StronglySorted_app_1_l in Hs.
  - apply (ts_index_sorted _ _ _ _ Ci).
  - intros d Hd. apply elem_of_app. left. apply list_elem_of_fmap. exists d. split; [done|].
    apply elem_of_app. by left.
  - split; [|split; [apply (ts_groups _ _ _ _ Ci)|]].
    + apply Forall_app. split; [|repeat constructor; cbn; rewrite (ts_offset _ _ _ _ Ci); apply blen_nonneg].
      apply Forall_forall. intros g (d & -> & Hd')%list_elem_of_fmap.
      by destruct (ts_blocks _ _ _ _ Ci d Hd') as (_ & _ & H1 & _).
    + rewrite groups_keys, Hent. pose proof (entries_size_count es). lia.
  - rewrite <- Hent. unfold entries_of. change (option_list None) with (@nil dblock). by rewrite !app_nil_r.
  - apply (ts_upper _ _ _ _ Ci).
  - intros i j d d' e Hij Hi Hj He. apply (ts_lower _ _ _ _ Ci i j d d' e Hij Hi); [|done].
    by apply lookup_app_l_Some.
Qed.

Lemma Finish_spec r ds pend cur :
  tstate r ds pend cur -> table_bound (entries_of ds pend cur) < 2 ^ 32 ->
  exists r' ds' groups mh ih, TableBuilder_Finish snappy zstd addr r = Some r' /\ tb_ok r' = true /\
    r_offset r' = blen (contents (r_file r')) /\
    table_in snappy zstd o (contents (r_file r')) ds' groups (entries_of ds pend cur) mh ih.
Proof.
  intros T0 Hbound. unfold table_bound in Hbound. pose proof name_size_nonneg as Hns.
  set (E := entries_size (entries_of ds pend cur)) in *.
  assert (0 <= E) as HE by apply entries_size_nonneg.
  assert (8 * E + 1000 < 2 ^ 32) as Hb8 by nia.
  destruct (Flush_any r ds pend cur T0 Hb8) as (r1 & pend1 & Hflush & T1 & Hent1).
  unfold TableBuilder_Finish. rewrite Hflush. cbn [mbind option_bind].
  pose proof T1 as (C1 & _). rewrite (ts_open _ _ _ _ C1).
  destruct (last_index r1 ds pend1 T1) as (ds' & ri & Ci & Henti & Hfi & Hoi & Hfbi & Hstep);
    [by rewrite Hent1|].
  rewrite Hent1 in Henti. pose proof (filter_fits ri ds' ) as Hff. rewrite Henti in Hff. fold E in Hff.
  assert (blen (contents (r_file r1)) <= 2 * E) as Hsz1.
  { rewrite <- Hfi, <- (ts_offset _ _ _ _ Ci). pose proof (ts_size _ _ _ _ Ci) as Hs. subst E. rewrite <- Henti.
    unfold entries_of. by rewrite app_nil_r. }
  set (groups := groups_of ds' None (r_offset ri) []) in *.
  (* the filter block *)
  assert (writable (set_closed r1)) as W0.
  { split; [apply (ts_options _ _ _ _ C1)|]. split; [apply (ts_status _ _ _ _ C1)|apply (ts_offset _ _ _ _ C1)]. }
  destruct (write_filter_spec (set_closed r1) (fun p => fold_left (add_block p) groups FilterBlockBuilder_make) W0)
    as (f1 & s1 & fh & -> & Hs1 & (x1 & Hx1) & Hfilt & Hnofilt).
  { cbn. rewrite <- Hfbi. apply (ts_filter _ _ _ _ Ci). }
  { intros p Hp. cbn. specialize (Hff p Ci Hp). unfold build_filter_block in Hff. lia. }
  cbn [r_file set_closed] in Hx1, Hfilt, Hnofilt.
  assert (blen (contents f1) <= (2 * kf + 3) * E + 30) as Hsz2.
  { destruct (filter_policy o) as [p|]; [|rewrite (Hnofilt eq_refl); nia].
    destruct (Hfilt p eq_refl) as (_ & _ & ->). specialize (Hff p Ci eq_refl). unfold build_filter_block in Hff. lia. }
  (* the metaindex block *)
  set (r2 := set_file (set_closed r1) f1 (blen (contents f1)) s1).
  assert (writable r2) as W1 by (split; [apply (ts_options _ _ _ _ C1)|split; done]).
  destruct (write_metaindex_spec r2 fh W1) as (f2 & s2 & mh & -> & Hs2 & (x2 & Hx2) & Hmh & Hmb & Hsz3).
  { intros Hne. destruct (filter_policy o) as [p|]; [|done]. by destruct (Hfilt p eq_refl). }
  { cbn. rewrite (ts_filter _ _ _ _ C1). by destruct (filter_policy o). }
  { cbn. nia. }
  cbn [mbind option_bind]. cbn [r_file r2 set_file] in Hx2, Hsz3.
  (* the index block *)
  set (r3 := set_file r2 f2 (blen (contents f2)) s2).
  destruct (Hstep r3 (ts_options _ _ _ _ C1) eq_refl eq_refl eq_refl eq_refl)
    as (r4 & Hr4 & Hib & Ho4 & Hf4 & Hof4 & Hst4).
  unfold write_index_block. assert (tb_ok r3 = true) as -> by done. rewrite Hr4. cbn [mbind option_bind].
  assert (writable r4) as W3.
  { split; [done|]. split; [unfold tb_ok; rewrite Hst4; done|]. rewrite Hof4, Hf4. done. }
  assert (entries_size (map index_entry ds') <= 3 * E) as Hisz.
  { pose proof (ts_index_size _ _ _ _ Ci) as Hs. subst E. rewrite <- Henti. unfold entries_of.
    cbn. by rewrite !app_nil_r. }
  destruct (write_holds r4 (index_block_options o) (r_index_block r4) (map index_entry ds') W3)
    as (f3 & s3 & ih & b3 & -> & Hs3 & (x3 & Hx3) & Hih & Hibk & Hsz4).
  { rewrite Hib. apply (ts_index _ _ _ _ Ci). }
  { rewrite Hf4. cbn. nia. }
  cbn [mbind option_bind]. rewrite Hf4 in Hx3, Hsz4. cbn [r_file r3 set_file] in Hx3, Hsz4.
  (* the footer *)
  match goal with |- context [write_footer ?r5 mh ih] =>
    destruct (write_footer_spec r5 mh ih) as (f4' & s4 & -> & Hs4 & Hc4) end;
    [split; [exact Ho4|split; [exact Hs3|done]]|done|done|cbn; nia|].
  cbn [r_file set_index_block set_file] in Hc4.
  assert (blen (contents f4') = blen (contents f3) + 48) as Hlen4.
  { rewrite Hc4, blen_app, blen_footer_bytes. done. }
  eexists _, ds', groups, mh, ih. split; [done|]. cbn [r_offset r_file r_status set_file tb_ok].
  split; [exact Hs4|]. split; [done|].
  assert (contents f4' = contents f1 ++ x2 ++ x3 ++ footer_bytes (mkFooter mh ih)) as Hall.
  { by rewrite Hc4, Hx3, Hx2, <- !app_assoc. }
  assert (contents f4' = contents (r_file ri) ++ x1 ++ x2 ++ x3 ++ footer_bytes (mkFooter mh ih)) as Hall0.
  { by rewrite Hall, Hx1, Hfi, <- !app_assoc. }
  assert (contents f4' = contents f2 ++ x3 ++ footer_bytes (mkFooter mh ih)) as Hall2.
  { by rewrite Hc4, Hx3, <- !app_assoc. }
  apply (finished_table ri ds' _ _ _ mh ih Ci Henti ltac:(fold E; lia) Hall0 ltac:(nia) ltac:(eauto) Hmh Hih).
  - rewrite Hc4. by apply block_in_grow.
  - unfold meta_in. destruct (filter_policy o) as [p|]; [|rewrite Hall2; by apply block_in_grow].
    destruct (Hfilt p eq_refl) as (Hfh & Hst & _). exists fh. split; [done|].
    split; [rewrite Hall; by apply stored_in_grow|]. rewrite Hall2. by apply block_in_grow.
Qed.

(** The whole build. *)
Lemma build_table_spec f es :
  contents f = [] -> StronglySorted (entry_lt cmp) es -> table_bound es < 2 ^ 32 ->
  exists r ds groups mh ih, build_table snappy zstd addr o f es = Some r /\ tb_ok r = true /\
    FileSize r = blen (contents (r_file r)) /\
    table_in snappy zstd o (contents (r_file r)) ds groups es mh ih.
Proof.
  intros Hf Hs Hb. pose proof name_size_nonneg. pose proof (entries_size_nonneg es).
  destruct (TableBuilder_make_spec f Hf) as (r0 & Hmk & T0). unfold build_table. rewrite Hmk.
  cbn [mbind option_bind].
  destruct (add_all_spec es r0 [] None [] T0) as (r1 & ds & pend & cur & -> & T1 & He);
    [exact Hs|change (entries_of [] None [] ++ es) with es; unfold table_bound in Hb; nia|].
  cbn [mbind option_bind]. change (entries_of [] None [] ++ es) with es in He. rewrite <- He in Hb |- *.
  destruct (Finish_spec r1 ds pend cur T1 Hb) as (r2 & ds' & groups & mh & ih & -> & Hok & Ho & Ht).
  exists r2, ds', groups, mh, ih. done.
Qed.

End TableBuild.
