(* ===== verification/TableSpec.v ===== *)
(** * Table files: what is written is what is read

    The builder of [table/table_builder.cc] and the reader of [table/table.cc]
    together, over any files that keep what is appended to them, any comparator,
    filter policy and compression libraries with their documented contracts. *)

From S2P Require Import Prelude Slice Coding Status Env Comparator Bloom FilterBlock Format Iterator Options BlockBuilder Block TwoLevel TableBuilder Table TableFile TableBuild.

(** What a table's options must satisfy: a lawful comparator that does not lengthen
    keys, a positive restart interval, a known compression type, and a filter
    policy, if any, that is lawful and takes at most [kf] bytes per key. *)
Record options_ok (o : Options) (kf : Z) : Prop := {
  oo_comparator : ComparatorLaws (comparator o);
  oo_short : ShortKeys (comparator o);
  oo_restart : 1 <= block_restart_interval o;
  oo_compression : 0 <= compression o <= 2;
  oo_kf : 0 <= kf;
  oo_filter p : filter_policy o = Some p -> FilterPolicyLaws p /\
    forall ks, blen (CreateFilter p ks []) <= kf * (1 + Z.of_nat (length ks))
}.

Section TableSpec.

Context {F : Type} {WF : WritableFile F} {written_bytes : F -> bytes}.
Context {RW : ReliableWritable F written_bytes}.
Context {G : Type} {RA : RandomAccessFile G} {file_bytes : G -> bytes}.
Context {RR : ReliableRandom G file_bytes}.

(** A table built, and opened from a file with the same contents. *)
Lemma build_open snappy zstd addr o kf f es :
  CodecLaws snappy -> CodecLaws zstd -> options_ok o kf ->
  written_bytes f = [] -> StronglySorted (entry_lt (Compare (comparator o))) es ->
  table_bound o kf es < 2 ^ 32 ->
  exists r ds groups mh ih, build_table snappy zstd addr o f es = Some r /\ tb_ok r = true /\
    FileSize r = blen (written_bytes (r_file r)) /\
    forall g, file_bytes g = written_bytes (r_file r) ->
    table_in snappy zstd o (file_bytes g) ds groups es mh ih /\
    exists t, Table_Open snappy zstd addr o g (FileSize r) = Some (OK, Some t) /\
      opened o g ds groups mh t.
Proof.
  intros Hsn Hzs Ho Hf Hs Hb. pose proof (oo_comparator _ _ Ho). pose proof (oo_short _ _ Ho).
  destruct (build_table_spec snappy zstd addr o (oo_restart _ _ Ho) kf (oo_kf _ _ Ho) (oo_filter _ _ Ho) f es Hf Hs Hb)
    as (r & ds & groups & mh & ih & Hbuild & Hok & Hsize & Hin).
  exists r, ds, groups, mh, ih. split; [done|]. split; [done|]. split; [done|].
  intros g Hg. rewrite <- Hg in Hin, Hsize. split; [done|]. rewrite Hsize.
  by apply (Table_Open_spec snappy zstd addr o (oo_compression _ _ Ho) g ds groups es mh ih).
Qed.

(** C18: a table file built from entries in key order is opened again without an
    error, and its iterator behaves as a cursor over exactly those entries for
    every sequence of [SeekToFirst], [SeekToLast], [Seek], [Next] and [Prev]:
    across data blocks, with the shortened index keys, and with blocks stored
    compressed or not, and whether or not checksums are verified. *)
Theorem table_cursor snappy zstd addr o kf (f : F) es (ro : ReadOptions) ms p :
  CodecLaws snappy -> CodecLaws zstd -> options_ok o kf ->
  written_bytes f = [] -> StronglySorted (entry_lt (Compare (comparator o))) es ->
  table_bound o kf es < 2 ^ 32 ->
  moves_cursor (Compare (comparator o)) es None ms = Some p ->
  exists r, build_table snappy zstd addr o f es = Some r /\ tb_ok r = true /\
    forall g : G, file_bytes g = written_bytes (r_file r) ->
    exists t it it', Table_Open snappy zstd addr o g (FileSize r) = Some (OK, Some t) /\
      Table_NewIterator snappy zstd addr t ro = Some it /\
      moves_iter it ms = Some it' /\ shows it' (p ≫= (es !!.)).
Proof.
  intros Hsn Hzs Ho Hf Hs Hb Hm. pose proof (oo_comparator _ _ Ho).
  destruct (build_open snappy zstd addr o kf f es Hsn Hzs Ho Hf Hs Hb)
    as (r & ds & groups & mh & ih & Hbuild & Hok & Hsize & Hg).
  exists r. split; [done|]. split; [done|]. intros g Hgc. destruct (Hg g Hgc) as (Hin & t & Hopen & Ht).
  destruct (Table_NewIterator_spec snappy zstd addr o (oo_compression _ _ Ho) g ds groups es mh ih Hin t Ht ro)
    as (it & pos & Hit & HI & Hp).
  destruct (moves_show it None ms p Hp Hm) as (it' & Hit' & Hsh). eauto 10.
Qed.

(** C19: a point lookup in a table finds every key the table was built with, with
    its value, whether or not the table has a filter; and whatever it finds for
    any key is the first entry of the table at or past that key. *)
Theorem table_get snappy zstd addr o kf (f : F) es (ro : ReadOptions) :
  CodecLaws snappy -> CodecLaws zstd -> options_ok o kf ->
  written_bytes f = [] -> StronglySorted (entry_lt (Compare (comparator o))) es ->
  table_bound o kf es < 2 ^ 32 ->
  exists r, build_table snappy zstd addr o f es = Some r /\ tb_ok r = true /\
    forall g : G, file_bytes g = written_bytes (r_file r) ->
    exists t, Table_Open snappy zstd addr o g (FileSize r) = Some (OK, Some t) /\
      forall k, exists s found, InternalGet snappy zstd addr t ro k = Some (s, found) /\ ok s = true /\
        (forall v, (k, v) ∈ es -> found = Some (k, v)) /\
        (forall e, found = Some e -> es !! below (Compare (comparator o)) k es = Some e).
Proof.
  intros Hsn Hzs Ho Hf Hs Hb. pose proof (oo_comparator _ _ Ho).
  destruct (build_open snappy zstd addr o kf f es Hsn Hzs Ho Hf Hs Hb)
    as (r & ds & groups & mh & ih & Hbuild & Hok & Hsize & Hg).
  exists r. split; [done|]. split; [done|]. intros g Hgc. destruct (Hg g Hgc) as (Hin & t & Hopen & Ht).
  exists t. split; [done|]. intros k.
  destruct (InternalGet_spec snappy zstd addr o (oo_compression _ _ Ho) g ds groups es mh ih Hin t Ht ro k)
    as (s & Hget & Hoks).
  exists s, (expected_get o ds groups k). split; [done|]. split; [done|]. split.
  - intros v Hv. apply (expected_get_present snappy zstd o g ds groups es mh ih Hin k v); [|done].
    intros p Hp. by apply (oo_filter _ _ Ho).
  - intros e He. by apply (expected_get_first snappy zstd addr o (oo_compression _ _ Ho) g ds groups es mh ih Hin t Ht ro k e).
Qed.

End TableSpec.

(** ** Witnesses *)

(** Blocks of one or two entries, prefix compression, and a bloom filter. *)
Definition sample_table_options : Options := {|
  comparator := BytewiseComparator;
  create_if_missing := false;
  error_if_exists := false;
  paranoid_checks := true;
  write_buffer_size := 4 * 1024 * 1024;
  max_open_files := 1000;
  block_size := 30;
  block_restart_interval := 2;
  max_file_size := 2 * 1024 * 1024;
  compression := kSnappyCompression;
  zstd_compression_level := 1;
  reuse_logs := false;
  filter_policy := Some (NewBloomFilterPolicy 10)
|}.

Definition sample_table : list entry :=
  [(str "apple", str "1"); (str "applet", str "2"); (str "apply", str "3"); (str "banana", str "4")].

Lemma sample_options_ok : options_ok sample_table_options 20.
Proof.
  split.
  - exact BytewiseComparator_laws.
  - exact BytewiseComparator_short.
  - by vm_compute.
  - by vm_compute.
  - lia.
  - intros p [= <-]. split; [by apply BloomFilterPolicy_laws|].
    intros ks. by apply (bloom_filter_size 10).
Qed.

Lemma table_cursor_witness :
  exists r, build_table no_codec no_codec 0 sample_table_options (mkDest []) sample_table = Some r /\
    tb_ok r = true /\
    forall g, random_contents g = dest_contents (r_file r) ->
    exists t it it', Table_Open no_codec no_codec 0 sample_table_options g (FileSize r) = Some (OK, Some t) /\
      Table_NewIterator no_codec no_codec 0 t ReadOptions_default = Some it /\
      moves_iter it [ToTarget (str "apply"); Forth; Back; Back] = Some it' /\
      shows it' (Some (str "applet", str "2")).
Proof.
  apply (table_cursor no_codec no_codec 0 sample_table_options 20 (mkDest []) sample_table ReadOptions_default
           [ToTarget (str "apply"); Forth; Back; Back] (Some 1%nat)).
  - apply _.
  - apply _.
  - exact sample_options_ok.
  - done.
  - repeat constructor.
  - by vm_compute.
  - by vm_compute.
Defined.

Lemma table_get_witness :
  exists r, build_table no_codec no_codec 0 sample_table_options (mkDest []) sample_table = Some r /\
    tb_ok r = true /\
    forall g, random_contents g = dest_contents (r_file r) ->
    exists t, Table_Open no_codec no_codec 0 sample_table_options g (FileSize r) = Some (OK, Some t) /\
      forall k, exists s found, InternalGet no_codec no_codec 0 t ReadOptions_default k = Some (s, found) /\
        ok s = true /\ (forall v, (k, v) ∈ sample_table -> found = Some (k, v)) /\
        (forall e, found = Some e -> sample_table !! below compare k sample_table = Some e).
Proof.
  apply (table_get no_codec no_codec 0 sample_table_options 20 (mkDest []) sample_table ReadOptions_default).
  - apply _.
  - apply _.
  - exact sample_options_ok.
  - done.
  - repeat constructor.
  - by vm_compute.
Defined.
