(* ===== verification/TableCache.v ===== *)
(** * The table cache

    [db/table_cache.cc]: open tables kept in the sharded cache under their file
    number.  A table is opened when it is not there, errors are not cached, and a
    handle pins the table while a lookup or an iterator reads it.  The theorem at the
    end shows that the cache changes nothing but the cost: every answer is that of a
    table opened for the occasion. *)

From S2P Require Import Prelude Slice Coding Crc32c Status Env Comparator FilterBlock Filename Format Iterator Options BlockBuilder Block TwoLevel TableBuilder Table TableFile TableBuild TableSpec Cache CacheSpec CacheClient CacheShards.

(** [Env::NewRandomAccessFile] *)
Class RandomAccessEnv (W F : Type) := {
  env_NewRandomAccessFile : bytes -> W -> Status * option F * W
}.

(** [struct TableAndFile] *)
Record TableAndFile (F : Type) := mkTF { tf_file : F; tf_table : Table F }.
Arguments mkTF {F} tf_file tf_table.
Arguments tf_file {F} _.
Arguments tf_table {F} _.

Section TableCache.

Context {F W : Type} `{!RandomAccessFile F} `{!RandomAccessEnv W F} (snappy zstd : Codec) (addr : Z).

(** [class TableCache] *)
Record TableCache := mkTableCache { dbname_ : bytes; tc_options_ : Options; tc_cache_ : ObjCache (TableAndFile F) }.

Implicit Types tc : TableCache.

Definition set_cache tc c : TableCache := mkTableCache (dbname_ tc) (tc_options_ tc) c.

Definition TableCache_make (dbname : bytes) (options : Options) (entries : Z) : TableCache :=
  mkTableCache dbname options (ObjCache_new entries).

(** The file of a table, under its present or its old name. *)
Definition open_file (dbname : bytes) (file_number : Z) (w : W) : Status * option F * W :=
  let '(s, file, w) := env_NewRandomAccessFile (TableFileName dbname file_number) w in
  if ok s then (s, file, w)
  else
    let '(s', old_file, w) := env_NewRandomAccessFile (SSTTableFileName dbname file_number) w in
    if ok s' then (OK, old_file, w) else (s, None, w).

(** Opening a table that is not cached. *)
Definition open_table (dbname : bytes) (options : Options) (file_number file_size : Z) (w : W)
  : option (Status * option (TableAndFile F) * W) :=
  if negb (0 <? file_number) then None
  else
    let '(s, file, w) := open_file dbname file_number w in
    if ok s then
      match file with
      | Some file =>
          '(s, table) ← Table_Open snappy zstd addr options file file_size;
          Some (s, option_map (mkTF file) table, w)
      | None => None
      end
    else Some (s, None, w).

Definition FindTable tc (file_number file_size : Z) (w : W) : option (Status * option Handle * TableCache * W) :=
  let key := EncodeFixed64 file_number in
  '(handle, c) ← oc_Lookup (tc_cache_ tc) key;
  match handle with
  | Some h => Some (OK, Some h, set_cache tc c, w)
  | None =>
      '(s, tf, w) ← open_table (dbname_ tc) (tc_options_ tc) file_number file_size w;
      if negb (ok s) then
        match tf with
        | Some _ => None
        | None => Some (s, None, set_cache tc c, w)
        end
      else
        tf ← tf;
        '(h, c) ← oc_Insert c key tf 1;
        Some (s, Some h, set_cache tc c, w)
  end.

(** The table a handle pins. *)
Definition table_of tc (h : Handle) : option (Table F) := tf_table <$> oc_Value (tc_cache_ tc) h.

(** Releases the table when its iterator is deleted. *)
Definition UnrefEntry tc (h : Handle) : option TableCache := c ← oc_Release (tc_cache_ tc) h; Some (set_cache tc c).

(** The iterator, and the handle its cleanup releases. *)
Definition tc_NewIterator tc (options : ReadOptions) (file_number file_size : Z) (w : W)
  : option ((EmptyIterator + TwoLevelIterator BlockIter BlockIter) * option Handle * TableCache * W) :=
  '(s, handle, tc, w) ← FindTable tc file_number file_size w;
  if negb (ok s) then Some (inl (NewErrorIterator s), None, tc, w)
  else
    h ← handle;
    table ← table_of tc h;
    result ← Table_NewIterator snappy zstd addr table options;
    Some (inr result, Some h, tc, w).

(** The status, and the entry [handle_result] is called with. *)
Definition tc_Get tc (options : ReadOptions) (file_number file_size : Z) (k : bytes) (w : W)
  : option (Status * option entry * TableCache * W) :=
  '(s, handle, tc, w) ← FindTable tc file_number file_size w;
  if ok s then
    h ← handle;
    t ← table_of tc h;
    '(s, found) ← InternalGet snappy zstd addr t options k;
    tc ← UnrefEntry tc h;
    Some (s, found, tc, w)
  else Some (s, None, tc, w).

Definition Evict tc (file_number : Z) : option TableCache :=
  c ← oc_Erase (tc_cache_ tc) (EncodeFixed64 file_number); Some (set_cache tc c).

(** The destructor deletes the cache; its shards must have no handle in use. *)
Definition TableCache_delete tc : option (list LRUCache) := mapM LRUCache_delete (shard_ (oc_cache (tc_cache_ tc))).

(** ** Reachable states *)

Section Transparent.

Context (dbname : bytes) (options : Options) (entries : Z).

(** The files the clients ask for, with their sizes, and what opening them gives. *)
Context (live : Z -> Prop) (size_of : Z -> Z) (opened : Z -> Status * option (TableAndFile F)).

(** The environment opens every live file in the same way whenever it is asked. *)
Definition stable (w : W) : Prop :=
  forall num, live num -> exists w', open_table dbname options num (size_of num) w = Some (opened num, w').

Context (Hlive : forall num, live num -> 0 <= num < 2 ^ 64).
Context (Hstable : forall w num w', live num -> stable w -> open_table dbname options num (size_of num) w = Some (opened num, w') -> stable w').

(** The answers without a cache: the table is opened, asked and forgotten. *)
Definition direct_Get (ropts : ReadOptions) (num : Z) (k : bytes) : option (Status * option entry) :=
  match opened num with
  | (_, Some tf) => InternalGet snappy zstd addr (tf_table tf) ropts k
  | (s, None) => Some (s, None)
  end.

Definition direct_iterator (ropts : ReadOptions) (num : Z) : option (EmptyIterator + TwoLevelIterator BlockIter BlockIter) :=
  match opened num with
  | (_, Some tf) => it ← Table_NewIterator snappy zstd addr (tf_table tf) ropts; Some (inr it)
  | (s, None) => Some (inl (NewErrorIterator s))
  end.

(** What a history of operations on a new table cache leads to, with the handles of
    the iterators that are still open and the files they read.  Between operations
    files that are not live may come and go. *)
Inductive reach : TableCache -> W -> list (Handle * Z) -> nat -> Prop :=
  | R_new w : stable w -> reach (TableCache_make dbname options entries) w [] 0
  | R_get tc w held n num ropts k s found tc' w' :
      reach tc w held n -> live num -> tc_Get tc ropts num (size_of num) k w = Some (s, found, tc', w') -> reach tc' w' held (3 + n)
  | R_iter tc w held n num ropts it h tc' w' :
      reach tc w held n -> live num -> tc_NewIterator tc ropts num (size_of num) w = Some (it, Some h, tc', w') ->
      reach tc' w' ((h, num) :: held) (2 + n)
  | R_iter_error tc w held n num ropts it tc' w' :
      reach tc w held n -> live num -> tc_NewIterator tc ropts num (size_of num) w = Some (it, None, tc', w') ->
      reach tc' w' held (2 + n)
  | R_unref tc w held held' n h num tc' :
      reach tc w held n -> held ≡ₚ (h, num) :: held' -> UnrefEntry tc h = Some tc' -> reach tc' w held' (1 + n)
  | R_evict tc w held n num tc' : reach tc w held n -> Evict tc num = Some tc' -> reach tc' w held (1 + n)
  | R_env tc w held n w' : reach tc w held n -> stable w' -> reach tc w' held n.

(** ** The invariant *)

Definition good (key : bytes) (tf : TableAndFile F) : Prop :=
  exists num, live num /\ key = EncodeFixed64 num /\ opened num = (OK, Some tf).

Record inv tc (w : W) (held : list (Handle * Z)) (n : nat) : Prop := {
  inv_name : dbname_ tc = dbname;
  inv_options : tc_options_ tc = options;
  inv_stable : stable w;
  inv_objs : objs_inv good (tc_cache_ tc) (map fst held) n (Z.of_nat n);
  inv_pinned h num : (h, num) ∈ held -> exists tf, opened num = (OK, Some tf) /\ oc_Value (tc_cache_ tc) h = Some tf
}.

Lemma ok_is_OK s : ok s = true -> s = OK.
Proof. destruct s as [[x|]]; [done|]. done. Qed.

Lemma open_table_some num sz w s tf w' : open_table dbname options num sz w = Some (s, tf, w') -> ok s = true <-> is_Some tf.
Proof.
  unfold open_table. destruct (negb _); [done|]. destruct (open_file dbname num w) as [[s0 file] w0]. destruct (ok s0) eqn:E0.
  - destruct file as [file|]; [|done]. unfold Table_Open. destruct (sz <? kEncodedLength).
    { cbn [mbind option_bind]. intros [= <- <- _]. by split; [|intros []]. }
    destruct (ReadAt file _ _) as [[s1 fi] b]. destruct (ok s1) eqn:E1; cbn [negb]; [|intros [= <- <- _]; rewrite E1; by split; [|intros []]].
    destruct (Footer_DecodeFrom _ _) as [[s2 ft] r]. destruct (ok s2) eqn:E2; cbn [negb]; [|intros [= <- <- _]; rewrite E2; by split; [|intros []]].
    destruct (ReadBlock _ _ _ _ _ _) as [s3 bc]. destruct (ok s3) eqn:E3; [|intros [= <- <- _]; rewrite E3; by split; [|intros []]].
    destruct (ReadMeta _ _ _ _ _ _) as [fl|]; [|done]. cbn [mbind option_bind]. intros [= <- <- _]. rewrite E3. by split; [eexists|].
  - intros [= <- <- _]. rewrite E0. by split; [|intros []].
Qed.

Lemma opened_cases num w : live num -> stable w -> (exists tf, opened num = (OK, Some tf)) \/ (exists s, opened num = (s, None) /\ ok s = false).
Proof.
  intros Hl Hs. destruct (Hs num Hl) as [w' E]. destruct (opened num) as [s tf]. apply open_table_some in E. destruct (ok s) eqn:Es.
  - left. destruct (proj1 E eq_refl) as [x ->]. exists x. by rewrite (ok_is_OK s Es).
  - right. exists s. split; [|done]. destruct tf as [tf|]; [|done]. pose proof (proj2 E ltac:(by eexists)). congruence.
Qed.

Lemma Encode_inj num num' : 0 <= num < 2 ^ 64 -> 0 <= num' < 2 ^ 64 -> EncodeFixed64 num = EncodeFixed64 num' -> num = num'.
Proof.
  intros H H' E. pose proof (DecodeFixed64_Encode num []) as D. rewrite E, DecodeFixed64_Encode in D. unfold u64 in D.
  by rewrite !Z.mod_small in D by done.
Qed.

(** The objects pinned before an operation read the same after it. *)
Lemma pinned_keep (held : list (Handle * Z)) c c' held' :
  (forall h num, (h, num) ∈ held -> exists tf, opened num = (OK, Some tf) /\ oc_Value c h = Some tf) ->
  same_pinned c c' (map fst held) held' -> (forall h num, (h, num) ∈ held -> h ∈ held') ->
  forall h num, (h, num) ∈ held -> exists tf, opened num = (OK, Some tf) /\ oc_Value c' h = Some tf.
Proof.
  intros Hp Hs Hin h num Hh. destruct (Hp h num Hh) as (tf & E & Ev). exists tf. split; [done|]. rewrite <- Ev. apply Hs; [|by eapply Hin].
  apply list_elem_of_In, in_map_iff. exists (h, num). by rewrite <- list_elem_of_In.
Qed.

Lemma FindTable_ok tc w held n num :
  inv tc w held n -> live num -> Z.of_nat n + 3 < 2 ^ 31 ->
  (exists tf h tc' w', opened num = (OK, Some tf) /\ FindTable tc num (size_of num) w = Some (OK, Some h, tc', w') /\
     inv tc' w' ((h, num) :: held) (2 + n)) \/
  (exists s tc' w', opened num = (s, None) /\ ok s = false /\ FindTable tc num (size_of num) w = Some (s, None, tc', w') /\ inv tc' w' held (2 + n)).
Proof.
  intros [Hn Ho Hs Hobj Hpin] Hl Hb. unfold FindTable.
  destruct (oc_Lookup_ok good (tc_cache_ tc) (map fst held) n (Z.of_nat n) (EncodeFixed64 num) Hobj) as (r & c & -> & Hr); [lia|lia|].
  cbn [mbind option_bind]. destruct r as [h|].
  - destruct Hr as (Hobj' & Hsame & tf & Ev & (num' & Hl' & Ek & Eo)).
    apply Encode_inj in Ek as <-; [|by apply Hlive..]. left. exists tf, h, (set_cache tc c), w. split; [done|]. split; [done|].
    split; try done; [by apply (objs_weaken good _ _ (S n) (Z.of_nat n)); [lia|lia|]|].
    intros h' num' [[= -> ->]|Hh]%elem_of_cons; [by exists tf|].
    by apply (pinned_keep held (tc_cache_ tc) c (h :: map fst held)); [| |intros ? ? ?%fst_held; by apply list_elem_of_further|].
  - destruct Hr as (Hobj' & Hsame). rewrite Hn, Ho. destruct (Hs num Hl) as [w' E]. rewrite E.
    pose proof (Hstable w num w' Hl Hs E) as Hs'. destruct (opened_cases num w Hl Hs) as [[tf Eo]|[s [Eo Es]]]; rewrite Eo; cbn [mbind option_bind].
    + rewrite ok_OK. cbn [negb].
      destruct (oc_Insert_ok good c (map fst held) (S n) (Z.of_nat n) (EncodeFixed64 num) tf 1 Hobj') as (h & c' & -> & Hobj2 & Hsame2 & Ev);
        [lia|lia|lia|by exists num|]. cbn [mbind option_bind].
      left. exists tf, h, (set_cache tc c'), w'. split; [done|]. split; [done|]. split; try done.
      * by apply (objs_weaken good _ _ (S (S n)) (Z.of_nat n + 1)); [lia|lia|].
      * intros h' num' [[= -> ->]|Hh]%elem_of_cons; [by exists tf|].
        apply (pinned_keep held c c' (h :: map fst held)); [|done|intros ? ? ?%fst_held; by apply list_elem_of_further|done].
        apply (pinned_keep held (tc_cache_ tc) c (map fst held)); [done|done|]. by intros ? ? ?%fst_held.
    + rewrite Es. cbn [negb]. right. exists s, (set_cache tc c), w'. split; [done|]. split; [done|]. split; [done|]. split; try done.
      * by apply (objs_weaken good _ _ (S n) (Z.of_nat n)); [lia|lia|].
      * apply (pinned_keep held (tc_cache_ tc) c (map fst held)); [done|done|]. by intros ? ? ?%fst_held.
Qed.

Lemma table_of_pinned tc w held n h num tf : inv tc w held n -> (h, num) ∈ held -> opened num = (OK, Some tf) -> table_of tc h = Some (tf_table tf).
Proof. intros Hi Hh E. destruct (inv_pinned _ _ _ _ Hi h num Hh) as (tf' & E' & Ev). unfold table_of. rewrite Ev. cbn. congruence. Qed.

Lemma UnrefEntry_ok tc w held held' n h num :
  inv tc w held n -> Z.of_nat n + 3 < 2 ^ 31 -> held ≡ₚ (h, num) :: held' -> exists tc', UnrefEntry tc h = Some tc' /\ inv tc' w held' (1 + n).
Proof.
  intros [Hn Ho Hs Hobj Hpin] Hb Hp.
  destruct (oc_Release_ok good (tc_cache_ tc) (map fst held) (map fst held') n (Z.of_nat n) h Hobj) as (c & E & Hobj' & Hsame); [lia|lia| |].
  { by rewrite Hp. }
  unfold UnrefEntry. rewrite E. cbn [mbind option_bind]. eexists. split; [done|]. split; try done.
  - by apply (objs_weaken good _ _ (S n) (Z.of_nat n)); [lia|lia|].
  - intros h' num' Hh. destruct (Hpin h' num') as (tf & Eo & Ev); [rewrite Hp; by apply list_elem_of_further|]. exists tf. split; [done|].
    cbn [tc_cache_ set_cache]. rewrite <- Ev. apply Hsame; [|by eapply fst_held]. apply (fst_held held h' num'). rewrite Hp. by apply list_elem_of_further.
Qed.

Lemma Evict_ok tc w held n num : inv tc w held n -> Z.of_nat n + 3 < 2 ^ 31 -> exists tc', Evict tc num = Some tc' /\ inv tc' w held (1 + n).
Proof.
  intros [Hn Ho Hs Hobj Hpin] Hb.
  destruct (oc_Erase_ok good (tc_cache_ tc) (map fst held) n (Z.of_nat n) (EncodeFixed64 num) Hobj) as (c & E & Hobj' & Hsame); [lia|lia|].
  unfold Evict. rewrite E. cbn [mbind option_bind]. eexists. split; [done|]. split; try done.
  - by apply (objs_weaken good _ _ (S n) (Z.of_nat n)); [lia|lia|].
  - apply (pinned_keep held (tc_cache_ tc) c (map fst held)); [done|done|]. by intros ? ? ?%fst_held.
Qed.

Lemma inv_weaken tc w held n m : (n <= m)%nat -> inv tc w held n -> inv tc w held m.
Proof. intros Hle []. split; try done. by apply (objs_weaken good _ _ n (Z.of_nat n)); [lia|lia|]. Qed.

Lemma tc_Get_ok tc w held n ropts num k :
  inv tc w held n -> live num -> Z.of_nat n + 5 < 2 ^ 31 ->
  exists tc' w', inv tc' w' held (3 + n) /\
    tc_Get tc ropts num (size_of num) k w = match direct_Get ropts num k with Some (s, found) => Some (s, found, tc', w') | None => None end.
Proof.
  intros Hi Hl Hb. unfold tc_Get, direct_Get.
  destruct (FindTable_ok tc w held n num Hi Hl) as [(tf & h & tc1 & w1 & Eo & -> & Hi1)|(s & tc1 & w1 & Eo & Es & -> & Hi1)]; [lia| |];
    rewrite Eo; cbn [mbind option_bind].
  - rewrite ok_OK, (table_of_pinned tc1 w1 _ _ h num tf Hi1 ltac:(apply list_elem_of_here) Eo). cbn [mbind option_bind].
    destruct (UnrefEntry_ok tc1 w1 ((h, num) :: held) held (2 + n) h num Hi1) as (tc2 & E2 & Hi2); [lia|done|].
    exists tc2, w1. split; [exact Hi2|]. destruct (InternalGet _ _ _ _ _ _) as [[s found]|]; [|done]. cbn [mbind option_bind]. by rewrite E2.
  - rewrite Es. exists tc1, w1. split; [|done]. by apply (inv_weaken _ _ _ (2 + n)); [lia|].
Qed.

Lemma tc_NewIterator_ok tc w held n ropts num :
  inv tc w held n -> live num -> Z.of_nat n + 3 < 2 ^ 31 ->
  exists h tc' w', inv tc' w' (match h with Some h => (h, num) :: held | None => held end) (2 + n) /\
    tc_NewIterator tc ropts num (size_of num) w = match direct_iterator ropts num with Some it => Some (it, h, tc', w') | None => None end.
Proof.
  intros Hi Hl Hb. unfold tc_NewIterator, direct_iterator.
  destruct (FindTable_ok tc w held n num Hi Hl) as [(tf & h & tc1 & w1 & Eo & -> & Hi1)|(s & tc1 & w1 & Eo & Es & -> & Hi1)]; [lia| |];
    rewrite Eo; cbn [mbind option_bind].
  - rewrite ok_OK. cbn [negb]. rewrite (table_of_pinned tc1 w1 _ _ h num tf Hi1 ltac:(apply list_elem_of_here) Eo). cbn [mbind option_bind].
    exists (Some h), tc1, w1. split; [done|]. by destruct (Table_NewIterator _ _ _ _ _).
  - rewrite Es. cbn [negb]. exists None, tc1, w1. by split.
Qed.

Lemma inv_new w : stable w -> inv (TableCache_make dbname options entries) w [] 0.
Proof. intros Hs. split; try done; [apply objs_new|]. intros h num Hh. by apply not_elem_of_nil in Hh. Qed.

Lemma reach_inv tc w held n : reach tc w held n -> Z.of_nat n + 5 < 2 ^ 31 -> inv tc w held n.
Proof.
  induction 1 as [w Hs|tc w held n num ropts k s found tc' w' _ IH Hl E|tc w held n num ropts it h tc' w' _ IH Hl E
    |tc w held n num ropts it tc' w' _ IH Hl E|tc w held held' n h num tc' _ IH Hp E|tc w held n num tc' _ IH E|tc w held n w' _ IH Hs]; intros Hb.
  - by apply inv_new.
  - specialize (IH ltac:(lia)). destruct (tc_Get_ok tc w held n ropts num k IH Hl) as (tc1 & w1 & Hi & E1); [lia|]. rewrite E1 in E.
    destruct (direct_Get _ _ _) as [[]|]; [|done]. by injection E as <- <- <- <-.
  - specialize (IH ltac:(lia)). destruct (tc_NewIterator_ok tc w held n ropts num IH Hl) as (h1 & tc1 & w1 & Hi & E1); [lia|]. rewrite E1 in E.
    destruct (direct_iterator _ _); [|done]. by injection E as _ -> <- <-.
  - specialize (IH ltac:(lia)). destruct (tc_NewIterator_ok tc w held n ropts num IH Hl) as (h1 & tc1 & w1 & Hi & E1); [lia|]. rewrite E1 in E.
    destruct (direct_iterator _ _); [|done]. by injection E as _ -> <- <-.
  - specialize (IH ltac:(lia)). destruct (UnrefEntry_ok tc w held held' n h num IH) as (tc1 & E1 & Hi); [lia|done|]. rewrite E in E1. by injection E1 as <-.
  - specialize (IH ltac:(lia)). destruct (Evict_ok tc w held n num IH) as (tc1 & E1 & Hi); [lia|]. rewrite E in E1. by injection E1 as <-.
  - destruct (IH Hb). by split.
Qed.

(** C13: the table cache is transparent.  After any history of lookups, iterators opened
    and closed and evictions on a new cache (fewer than 2^31 cache calls), while the
    live files are opened by the environment in the same way, a lookup answers with
    the status and the entry of a table opened for it alone, and [NewIterator] with its
    iterator, or with an error iterator if the table does not open; the table an open
    iterator reads is still there and still that of its file; and no operation touches
    a table the deleter has freed or fails an assertion of the cache. *)
Theorem table_cache_transparent tc w held n :
  reach tc w held n -> Z.of_nat n + 5 < 2 ^ 31 ->
  (forall ropts num k s found, live num -> direct_Get ropts num k = Some (s, found) ->
     exists tc' w', tc_Get tc ropts num (size_of num) k w = Some (s, found, tc', w')) /\
  (forall ropts num it, live num -> direct_iterator ropts num = Some it ->
     exists h tc' w', tc_NewIterator tc ropts num (size_of num) w = Some (it, h, tc', w')) /\
  (forall h num, (h, num) ∈ held ->
     (exists tf, opened num = (OK, Some tf) /\ table_of tc h = Some (tf_table tf)) /\ exists tc', UnrefEntry tc h = Some tc') /\
  (forall num, exists tc', Evict tc num = Some tc').
Proof.
  intros Hr Hb. pose proof (reach_inv tc w held n Hr Hb) as Hi. split; [|split; [|split]].
  - intros ropts num k s found Hl E. destruct (tc_Get_ok tc w held n ropts num k Hi Hl Hb) as (tc' & w' & _ & ->). rewrite E. by eexists _, _.
  - intros ropts num it Hl E. destruct (tc_NewIterator_ok tc w held n ropts num Hi Hl) as (h & tc' & w' & _ & ->); [lia|]. rewrite E. by eexists _, _, _.
  - intros h num Hh. split.
    + destruct (inv_pinned _ _ _ _ Hi h num Hh) as (tf & E & _). exists tf. split; [done|]. by apply (table_of_pinned tc w held n h num tf).
    + apply list_elem_of_split in Hh as (l1 & l2 & Hh). destruct (UnrefEntry_ok tc w held (l1 ++ l2) n h num Hi) as (tc' & E & _); [lia| |by exists tc'].
      rewrite Hh. by rewrite Permutation_middle.
  - intros num. destruct (Evict_ok tc w held n num Hi) as (tc' & E & _); [lia|]. by exists tc'.
Qed.

End Transparent.

End TableCache.

(** ** A small history

    File 5 has the old name, file 6 does not exist.  File 5 is looked up, read by an
    iterator and evicted while it is open. *)

Definition cached_file : bytes :=
  match build_table no_codec no_codec 0 sample_table_options (mkDest []) sample_table with Some r => dest_contents (r_file r) | None => [] end.

#[local] Instance one_file : RandomAccessEnv unit StringRandom := {
  env_NewRandomAccessFile fname w :=
    if slice_eq fname (str "db/000005.sst") then (OK, Some (mkRandom cached_file true), w) else (IOError fname (str "missing"), None, w)
}.

Definition ex_opened (num : Z) : Status * option (TableAndFile StringRandom) :=
  match open_table no_codec no_codec 0 (str "db") sample_table_options num (blen cached_file) tt with Some (r, _) => r | None => (OK, None) end.

Definition ex_live (num : Z) : Prop := num = 5 \/ num = 6.
Definition ex_new : TableCache (F := StringRandom) := TableCache_make (str "db") sample_table_options 100.
Definition ex_got := tc_Get no_codec no_codec 0 ex_new ReadOptions_default 5 (blen cached_file) (str "apply") tt.
Definition ex_iter :=
  '(_, _, tc, w) ← ex_got; tc_NewIterator no_codec no_codec 0 tc ReadOptions_default 5 (blen cached_file) w.
Definition ex_evicted := '(_, h, tc, _) ← ex_iter; h ← h; tc ← Evict tc 5; Some (tc, h).

Example ex_got_answer : option_map (fun r => fst (fst r)) ex_got = Some (OK, Some (str "apply", str "3")).
Proof. vm_compute. reflexivity. Qed.

Lemma ex_stable w : stable no_codec no_codec 0 (str "db") sample_table_options ex_live (fun _ => blen cached_file) ex_opened w.
Proof.
  destruct w. intros num Hl. exists tt. unfold ex_opened.
  assert (Hb : match open_table no_codec no_codec 0 (str "db") sample_table_options num (blen cached_file) tt with Some _ => true | None => false end = true)
    by (destruct Hl as [-> | ->]; vm_compute; reflexivity).
  by destruct (open_table _ _ _ _ _ _ _ _) as [[r []]|].
Qed.

Lemma table_cache_transparent_witness :
  exists tc h tc' tc'' w', reach no_codec no_codec 0 (str "db") sample_table_options 100 ex_live (fun _ => blen cached_file) ex_opened tc tt [(h, 5)] 6 /\
    tc_Get no_codec no_codec 0 tc ReadOptions_default 5 (blen cached_file) (str "apply") tt = Some (OK, Some (str "apply", str "3"), tc', w') /\
    UnrefEntry tc h = Some tc''.
Proof.
  assert (Hs : match ex_evicted with Some _ => true | None => false end = true) by (vm_compute; reflexivity). unfold ex_evicted, ex_iter in Hs.
  destruct ex_got as [[[[s f] tc1] []]|] eqn:E1; [|discriminate Hs]. cbn [mbind option_bind] in Hs.
  destruct (tc_NewIterator no_codec no_codec 0 tc1 ReadOptions_default 5 (blen cached_file) tt) as [[[[it [h|]] tc2] []]|] eqn:E2;
    try discriminate Hs. cbn [mbind option_bind] in Hs.
  destruct (Evict tc2 5) as [tc3|] eqn:E3; [|discriminate Hs].
  assert (Hr : reach no_codec no_codec 0 (str "db") sample_table_options 100 ex_live (fun _ => blen cached_file) ex_opened tc3 tt [(h, 5)] 6).
  { apply (R_evict _ _ _ _ _ _ _ _ _ tc2 tt [(h, 5)] 5 5 tc3); [|exact E3].
    apply (R_iter _ _ _ _ _ _ _ _ _ tc1 tt [] 3 5 ReadOptions_default it h tc2 tt); [|by left|exact E2].
    apply (R_get _ _ _ _ _ _ _ _ _ ex_new tt [] 0 5 ReadOptions_default (str "apply") s f tc1 tt); [|by left|exact E1].
    apply R_new, ex_stable. }
  destruct (table_cache_transparent no_codec no_codec 0 (str "db") sample_table_options 100 ex_live (fun _ => blen cached_file) ex_opened
    ltac:(intros num [-> | ->]; lia) (fun w num w' _ _ _ => ex_stable w') tc3 tt [(h, 5)] 6 Hr ltac:(lia)) as (H1 & _ & H3 & _).
  destruct (H1 ReadOptions_default 5 (str "apply") OK (Some (str "apply", str "3")) ltac:(by left) ltac:(vm_compute; reflexivity)) as (tc' & w' & E').
  destruct (H3 h 5 ltac:(apply list_elem_of_here)) as (_ & tc'' & E'').
  exists tc3, h, tc', tc'', w'. exact (conj Hr (conj E' E'')).
Defined.
