(* ===== verification/BlockCache.v ===== *)
(** * Tables with a block cache

    [Table::BlockReader] of table/table.cc when the options have a [block_cache]:
    blocks are kept in the sharded cache under the table's cache id and the block's
    offset, and a handle pins the block while an iterator reads it.  The theorem at
    the end shows that the cache changes nothing but the cost. *)

From S2P Require Import Prelude Slice Coding Crc32c Status Env Comparator FilterBlock Format Iterator Options BlockBuilder Block TwoLevel TableBuilder Table TableFile TableBuild TableSpec Cache CacheSpec CacheClient CacheShards.

Section BlockCache.

Context {F : Type} `{!RandomAccessFile F} (snappy zstd : Codec) (addr : Z).

(** A table and its [cache_id]. *)
Record CachedTable := mkCachedTable { ct_table : Table F; ct_cache_id : Z }.

Implicit Types bc : ObjCache Block.

(** [block_cache->NewId()] *)
Definition bc_NewId bc : Z * ObjCache Block :=
  let '(id, c) := NewId (oc_cache bc) in (id, mkObjs c (oc_objs bc) (oc_next bc)).

(** [Table::Open] *)
Definition CachedTable_Open bc (options : Options) (file : F) (size : Z) : option (Status * option CachedTable * ObjCache Block) :=
  '(s, t) ← Table_Open snappy zstd addr options file size;
  match t with
  | Some t => let '(id, bc) := bc_NewId bc in Some (s, Some (mkCachedTable t id), bc)
  | None => Some (s, None, bc)
  end.

(** [cache_key_buffer] *)
Definition cache_key (id : Z) (handle : BlockHandle) : bytes := EncodeFixed64 id ++ EncodeFixed64 (handle_offset handle).

(** [BlockReader]: the iterator and the handle its cleanup function releases; without a
    handle the cleanup function deletes the block. *)
Definition CachedBlockReader bc (t : CachedTable) (options : ReadOptions) (index_value : bytes)
  : option (BlockIter * option Handle * ObjCache Block) :=
  let cmp := comparator (t_options (ct_table t)) in
  let '(s, handle, _) := BlockHandle_DecodeFrom BlockHandle_new index_value in
  if ok s then
    let key := cache_key (ct_cache_id t) handle in
    '(cache_handle, bc) ← oc_Lookup bc key;
    match cache_handle with
    | Some h =>
        block ← oc_Value bc h;
        iter ← Block_NewIterator block cmp;
        Some (iter, Some h, bc)
    | None =>
        let '(s, contents) := ReadBlock snappy zstd addr (t_file (ct_table t)) (verify_checksums options) handle in
        if ok s then
          let block := Block_make contents in
          '(h, bc) ← (if cachable contents && fill_cache options
                      then '(h, bc) ← oc_Insert bc key block (size_ block); Some (Some h, bc)
                      else Some (None, bc));
          iter ← Block_NewIterator block cmp;
          Some (iter, h, bc)
        else Some (inl (NewErrorIterator s), None, bc)
    end
  else Some (inl (NewErrorIterator s), None, bc).

(** [ReleaseBlock], as the destructor of the iterator calls it. *)
Definition ReleaseBlock bc (h : option Handle) : option (ObjCache Block) :=
  match h with Some h => oc_Release bc h | None => Some bc end.

(** [InternalGet] over a table with a block cache. *)
Definition CachedInternalGet bc (t : CachedTable) (options : ReadOptions) (k : bytes)
  : option (Status * option entry * ObjCache Block) :=
  iiter ← Block_NewIterator (t_index_block (ct_table t)) (comparator (t_options (ct_table t)));
  iiter ← it_Seek iiter k;
  '(s, found, bc) ←
    (if it_Valid iiter then
       let handle_value := it_value iiter in
       let '(hs, handle, _) := BlockHandle_DecodeFrom BlockHandle_new handle_value in
       let ruled_out :=
         match t_filter (ct_table t) with
         | Some (p, filter) => ok hs && negb (FilterBlockReader_KeyMayMatch p filter (handle_offset handle) k)
         | None => false
         end in
       if ruled_out then Some (OK, None, bc)
       else
         '(block_iter, h, bc) ← CachedBlockReader bc t options handle_value;
         block_iter ← it_Seek block_iter k;
         bc ← ReleaseBlock bc h;
         Some (it_status block_iter, if it_Valid block_iter then Some (it_key block_iter, it_value block_iter) else None, bc)
     else Some (OK, None, bc));
  Some (if ok s then it_status iiter else s, found, bc).

(** ** Histories

    [indexed t v]: [v] is a value of the index block of [t]. *)

Section Transparent.

Context (indexed : Table F -> bytes -> Prop).

(** A table whose blocks are known by their offsets, and read the same with and without
    checksum verification. *)
Definition sound_table (t : Table F) : Prop :=
  forall v v' b b', indexed t v -> indexed t v' ->
  let '(s, h, _) := BlockHandle_DecodeFrom BlockHandle_new v in
  let '(s', h', _) := BlockHandle_DecodeFrom BlockHandle_new v' in
  ok s = true -> ok s' = true -> u64 (handle_offset h) = u64 (handle_offset h') ->
  ReadBlock snappy zstd addr (t_file t) b h = ReadBlock snappy zstd addr (t_file t) b' h' /\
  blen (contents_data (snd (ReadBlock snappy zstd addr (t_file t) b h))) < 2 ^ 32.

(** What a history of operations on a new block cache leads to: the tables opened with
    it, and the handles and blocks of the iterators that are still open. *)
Inductive reach : ObjCache Block -> list CachedTable -> list (Handle * Block) -> nat -> Prop :=
  | B_new capacity : reach (ObjCache_new capacity) [] [] 0
  | B_open bc ts held n options file size s t bc' :
      reach bc ts held n -> CachedTable_Open bc options file size = Some (s, Some t, bc') -> sound_table (ct_table t) ->
      reach bc' (t :: ts) held (1 + n)
  | B_read bc ts held n t ropts v it h block bc' :
      reach bc ts held n -> t ∈ ts -> indexed (ct_table t) v -> CachedBlockReader bc t ropts v = Some (it, Some h, bc') ->
      oc_Value bc' h = Some block -> reach bc' ts ((h, block) :: held) (2 + n)
  | B_read_uncached bc ts held n t ropts v it bc' :
      reach bc ts held n -> t ∈ ts -> indexed (ct_table t) v -> CachedBlockReader bc t ropts v = Some (it, None, bc') -> reach bc' ts held (2 + n)
  | B_release bc ts held held' n h block bc' :
      reach bc ts held n -> held ≡ₚ (h, block) :: held' -> ReleaseBlock bc (Some h) = Some bc' -> reach bc' ts held' (1 + n).

(** ** The invariant *)

(** The block a key stands for. *)
Definition good (ts : list CachedTable) (key : bytes) (block : Block) : Prop :=
  exists t v s h r b s' contents, t ∈ ts /\ indexed (ct_table t) v /\ BlockHandle_DecodeFrom BlockHandle_new v = (s, h, r) /\ ok s = true /\
    key = cache_key (ct_cache_id t) h /\ ReadBlock snappy zstd addr (t_file (ct_table t)) b h = (s', contents) /\ ok s' = true /\ block = Block_make contents.

Record inv bc (ts : list CachedTable) (held : list (Handle * Block)) (n : nat) : Prop := {
  inv_objs : objs_inv (good ts) bc (map fst held) n (Z.of_nat n * 2 ^ 32);
  inv_ids : NoDup (map ct_cache_id ts);
  inv_last : 0 <= last_id_ (oc_cache bc) <= Z.of_nat n /\ Forall (fun t => 0 < ct_cache_id t <= last_id_ (oc_cache bc)) ts;
  inv_sound : Forall (fun t => sound_table (ct_table t)) ts;
  inv_pinned h block : (h, block) ∈ held -> oc_Value bc h = Some block
}.

Lemma cache_key_inj id id' h h' :
  0 <= id < 2 ^ 64 -> 0 <= id' < 2 ^ 64 -> cache_key id h = cache_key id' h' -> id = id' /\ u64 (handle_offset h) = u64 (handle_offset h').
Proof.
  intros Hi Hi' E. unfold cache_key in E. apply app_inj_1 in E as [E1 E2]; [|done].
  apply (f_equal DecodeFixed64) in E1, E2. rewrite <- (app_nil_r (EncodeFixed64 _)), DecodeFixed64_Encode, <- (app_nil_r (EncodeFixed64 id')), DecodeFixed64_Encode in E1.
  rewrite <- (app_nil_r (EncodeFixed64 _)), DecodeFixed64_Encode, <- (app_nil_r (EncodeFixed64 (handle_offset h'))), DecodeFixed64_Encode in E2.
  rewrite !u64_small in E1 by done. done.
Qed.

(** The cache of blocks answers a lookup only with the block the file holds. *)
Lemma good_block ts t v s h r b key block :
  NoDup (map ct_cache_id ts) -> Forall (fun t => 0 < ct_cache_id t < 2 ^ 64) ts -> Forall (fun t => sound_table (ct_table t)) ts ->
  t ∈ ts -> indexed (ct_table t) v -> BlockHandle_DecodeFrom BlockHandle_new v = (s, h, r) -> ok s = true ->
  key = cache_key (ct_cache_id t) h -> good ts key block ->
  exists s' contents, ReadBlock snappy zstd addr (t_file (ct_table t)) b h = (s', contents) /\ ok s' = true /\ block = Block_make contents.
Proof.
  intros Hnd Hid Hs Ht Hv Ed Es -> (t' & v' & s1 & h' & r' & b' & s2 & contents & Ht' & Hv' & Ed' & Es1 & Ek & Er & Es2 & ->).
  rewrite Forall_forall in Hid, Hs. pose proof (Hid t Ht). pose proof (Hid t' Ht').
  apply cache_key_inj in Ek as [Eid Eoff]; [|lia|lia].
  assert (t' = t) as ->.
  { apply list_elem_of_lookup_1 in Ht as [i Hi], Ht' as [j Hj].
    assert (i = j) as ->; [|congruence]. eapply NoDup_lookup; [exact Hnd|by rewrite list_lookup_fmap, Hi|by rewrite list_lookup_fmap, Hj; cbn; rewrite Eid]. }
  pose proof (Hs t Ht v v' b b' Hv Hv') as Hsound. rewrite Ed, Ed' in Hsound. destruct (Hsound Es Es1 Eoff) as [E _].
  exists s2, contents. rewrite E. done.
Qed.

(** What was pinned before an operation reads the same after it. *)
Lemma blocks_keep (held : list (Handle * Block)) bc bc' held' :
  (forall h block, (h, block) ∈ held -> oc_Value bc h = Some block) -> same_pinned bc bc' (map fst held) held' ->
  (forall h block, (h, block) ∈ held -> h ∈ held') -> forall h block, (h, block) ∈ held -> oc_Value bc' h = Some block.
Proof.
  intros Hp Hs Hin h block Hh. rewrite <- (Hp h block Hh). apply Hs; [|by eapply Hin]. apply list_elem_of_In, in_map_iff. exists (h, block). by rewrite <- list_elem_of_In.
Qed.

Lemma block_size contents : blen (contents_data contents) < 2 ^ 32 -> 0 <= size_ (Block_make contents) < 2 ^ 32.
Proof.
  intros H. pose proof (blen_nonneg (contents_data contents)). unfold Block_make. destruct (_ <? 4); [cbn; lia|]. by destruct (_ <? _); cbn; [lia|].
Qed.

(** The read of a block with a cache, next to the read without one. *)
Lemma CachedBlockReader_ok bc ts held n t ropts v :
  inv bc ts held n -> t ∈ ts -> indexed (ct_table t) v -> Z.of_nat n + 5 < 2 ^ 31 ->
  exists h bc', CachedBlockReader bc t ropts v = match BlockReader snappy zstd addr (ct_table t) ropts v with Some it => Some (it, h, bc') | None => None end /\
    (match h with Some h => exists block, oc_Value bc' h = Some block /\ inv bc' ts ((h, block) :: held) (2 + n) | None => inv bc' ts held (2 + n) end).
Proof.
  intros [Hobj Hnd [Hl Hid] Hs Hpin] Ht Hv Hn. unfold CachedBlockReader, BlockReader.
  assert (Hweak : forall m c hl, (m <= 2 + n)%nat -> objs_inv (good ts) c hl m (Z.of_nat m * 2 ^ 32) -> objs_inv (good ts) c hl (2 + n) (Z.of_nat (2 + n) * 2 ^ 32)).
  { intros m c hl Hm. apply objs_weaken; [done|lia]. }
  destruct (BlockHandle_DecodeFrom BlockHandle_new v) as [[s hd] r] eqn:Ed. destruct (ok s) eqn:Es.
  2:{ exists None, bc. split; [done|]. split; try done; [by apply (Hweak n); [lia|]|]. split; [lia|done]. }
  destruct (oc_Lookup_ok (good ts) bc (map fst held) n (Z.of_nat n * 2 ^ 32) (cache_key (ct_cache_id t) hd) Hobj) as (found & bc1 & El & Hf); [lia|lia|].
  pose proof (oc_Lookup_last_id _ _ _ _ El) as Elast. rewrite El. cbn [mbind option_bind].
  assert (Hid' : Forall (fun t => 0 < ct_cache_id t < 2 ^ 64) ts) by (eapply Forall_impl; [exact Hid|]; intros t' ?; cbn in *; lia).
  destruct found as [h|].
  - destruct Hf as (Hobj1 & Hsame & block & Ev & Hgood).
    destruct (good_block ts t v s hd r (verify_checksums ropts) _ block Hnd Hid' Hs Ht Hv Ed Es eq_refl Hgood) as (s' & contents & -> & -> & ->).
    rewrite Ev. cbn [mbind option_bind]. exists (Some h), bc1. split; [by destruct (Block_NewIterator _ _)|]. exists (Block_make contents). split; [done|]. split; try done.
    + apply (objs_weaken (good ts) _ _ (S n) (Z.of_nat n * 2 ^ 32)); [lia|lia|done].
    + rewrite Elast. split; [lia|done].
    + intros h' block' [[= -> ->]|Hh]%elem_of_cons; [done|].
      by apply (blocks_keep held bc bc1 (h :: map fst held)); [| |intros ? ? ?%fst_held; by apply list_elem_of_further|].
  - destruct Hf as (Hobj1 & Hsame). destruct (ReadBlock snappy zstd addr (t_file (ct_table t)) (verify_checksums ropts) hd) as [s' contents] eqn:Er.
    assert (Hpin1 : forall h block, (h, block) ∈ held -> oc_Value bc1 h = Some block).
    { apply (blocks_keep held bc bc1 (map fst held)); [done|done|]. by intros ? ? ?%fst_held. }
    assert (Hinv1 : inv bc1 ts held (2 + n)).
    { split; try done; [|rewrite Elast; split; [lia|done]]. apply (objs_weaken (good ts) _ _ (S n) (Z.of_nat n * 2 ^ 32)); [lia|lia|done]. }
    destruct (ok s') eqn:Es'; [|by exists None, bc1]. destruct (cachable contents && fill_cache ropts) eqn:Ec; cbn [mbind option_bind].
    2:{ exists None, bc1. split; [|done]. by destruct (Block_NewIterator _ _). }
    rewrite Forall_forall in Hs. pose proof (Hs t Ht v v (verify_checksums ropts) (verify_checksums ropts) Hv Hv) as Hsnd. rewrite Ed in Hsnd.
    destruct (Hsnd Es Es eq_refl) as [_ Hlen]. rewrite Er in Hlen. cbn [snd] in Hlen. apply block_size in Hlen.
    destruct (oc_Insert_ok (good ts) bc1 (map fst held) (S n) (Z.of_nat n * 2 ^ 32) (cache_key (ct_cache_id t) hd) (Block_make contents) (size_ (Block_make contents)) Hobj1)
      as (h & bc2 & Ei & Hobj2 & Hsame2 & Ev2); [lia|lia|lia| |].
    { exists t, v, s, hd, r, (verify_checksums ropts), s', contents. done. }
    pose proof (oc_Insert_last_id _ _ _ _ _ _ Ei) as Elast2. rewrite Ei. cbn [mbind option_bind].
    exists (Some h), bc2. split; [by destruct (Block_NewIterator _ _)|]. exists (Block_make contents). split; [done|]. split.
    + apply (objs_weaken (good ts) _ _ (S (S n)) (Z.of_nat n * 2 ^ 32 + size_ (Block_make contents))); [lia|lia|done].
    + done.
    + rewrite Elast2, Elast. split; [lia|done].
    + by apply Forall_forall.
    + intros h' block' [[= -> ->]|Hh]%elem_of_cons; [done|].
      by apply (blocks_keep held bc1 bc2 (h :: map fst held)); [| |intros ? ? ?%fst_held; by apply list_elem_of_further|].
Qed.

Lemma ReleaseBlock_ok bc ts held held' n h block :
  inv bc ts held n -> Z.of_nat n + 5 < 2 ^ 31 -> held ≡ₚ (h, block) :: held' -> exists bc', ReleaseBlock bc (Some h) = Some bc' /\ inv bc' ts held' (1 + n).
Proof.
  intros [Hobj Hnd [Hl Hid] Hs Hpin] Hn Hp.
  destruct (oc_Release_ok (good ts) bc (map fst held) (map fst held') n (Z.of_nat n * 2 ^ 32) h Hobj) as (bc' & E & Hobj' & Hsame); [lia|lia|by rewrite Hp|].
  exists bc'. split; [done|]. split; try done.
  - apply (objs_weaken (good ts) _ _ (S n) (Z.of_nat n * 2 ^ 32)); [lia|lia|done].
  - rewrite (oc_Release_last_id _ _ _ E). split; [lia|done].
  - intros h' block' Hh. rewrite <- (Hpin h' block') by (rewrite Hp; by apply list_elem_of_further).
    apply Hsame; [|by eapply fst_held]. apply (fst_held held h' block'). rewrite Hp. by apply list_elem_of_further.
Qed.

Lemma CachedTable_Open_ok bc ts held n options file size s t bc' :
  inv bc ts held n -> Z.of_nat n + 5 < 2 ^ 31 -> CachedTable_Open bc options file size = Some (s, Some t, bc') -> sound_table (ct_table t) ->
  inv bc' (t :: ts) held (1 + n).
Proof.
  intros [Hobj Hnd [Hl Hid] Hs Hpin] Hn E Ht. unfold CachedTable_Open in E. destruct (Table_Open _ _ _ _ _ _) as [[s0 [t0|]]|]; [|done|done].
  cbn in E. injection E as <- <- <-. rewrite u64_small by lia. cbn [ct_table] in Ht. split; cbn [map ct_cache_id oc_cache last_id_].
  - apply objs_last_id. apply (objs_weaken _ _ _ n (Z.of_nat n * 2 ^ 32)); [lia|lia|]. eapply objs_mono; [|exact Hobj].
    intros k x (t' & Hx). destruct Hx as (v & s1 & h & r & b & s2 & contents & Hin & Hx). exists t', v, s1, h, r, b, s2, contents. split; [by right|done].
  - constructor; [|done]. intros Hin. apply list_elem_of_fmap in Hin as (t' & Ht' & Hin). rewrite Forall_forall in Hid. specialize (Hid t' Hin). lia.
  - split; [lia|]. constructor; [cbn; lia|]. eapply Forall_impl; [exact Hid|]. intros t' ?. cbn in *. lia.
  - by constructor.
  - intros h block Hh. specialize (Hpin h block Hh). exact Hpin.
Qed.

Lemma blocks_weaken bc ts held n m : (n <= m)%nat -> inv bc ts held n -> inv bc ts held m.
Proof. intros Hle [Hobj Hnd [Hl Hid] Hs Hpin]. split; try done; [apply (objs_weaken _ _ _ n (Z.of_nat n * 2 ^ 32)); [lia|lia|done]|]. split; [lia|done]. Qed.

(** A lookup with a cache, next to the lookup without one. *)
Lemma CachedInternalGet_ok bc ts held n t ropts k :
  inv bc ts held n -> t ∈ ts -> Z.of_nat n + 8 < 2 ^ 31 ->
  (forall it it', Block_NewIterator (t_index_block (ct_table t)) (comparator (t_options (ct_table t))) = Some it -> it_Seek it k = Some it' ->
     it_Valid it' = true -> indexed (ct_table t) (it_value it')) ->
  exists bc', CachedInternalGet bc t ropts k =
      match InternalGet snappy zstd addr (ct_table t) ropts k with Some (s, found) => Some (s, found, bc') | None => None end /\ inv bc' ts held (3 + n).
Proof.
  intros Hi Ht Hn Hix. unfold CachedInternalGet, InternalGet. pose proof (blocks_weaken bc ts held n (3 + n) ltac:(lia) Hi) as Hi'.
  destruct (Block_NewIterator _ _) as [it0|]; cbn [mbind option_bind]; [|by exists bc]. destruct (it_Seek it0 k) as [it|] eqn:Esk; cbn [mbind option_bind]; [|by exists bc].
  specialize (Hix it0 it eq_refl Esk). destruct (it_Valid it); [|by exists bc]. specialize (Hix eq_refl).
  destruct (BlockHandle_DecodeFrom BlockHandle_new (it_value it)) as [[hs hd] r]. destruct (match t_filter (ct_table t) with Some _ => _ | None => _ end); [by exists bc|].
  destruct (CachedBlockReader_ok bc ts held n t ropts (it_value it) Hi Ht Hix ltac:(lia)) as (h & bc1 & E & Hi1). rewrite E.
  destruct (BlockReader snappy zstd addr (ct_table t) ropts (it_value it)) as [bit|]; [|by exists bc]. cbn [mbind option_bind].
  destruct (it_Seek bit k) as [bit'|]; [|by exists bc]. cbn [mbind option_bind]. destruct h as [h|].
  - destruct Hi1 as (block & _ & Hi1). destruct (ReleaseBlock_ok bc1 ts _ held (2 + n) h block Hi1 ltac:(lia) ltac:(done)) as (bc2 & -> & Hi2).
    cbn [mbind option_bind]. by exists bc2.
  - cbn [ReleaseBlock mbind option_bind]. exists bc1. split; [done|]. by apply (blocks_weaken _ _ _ (2 + n)); [lia|].
Qed.

Lemma reach_blocks bc ts held n : reach bc ts held n -> Z.of_nat n + 8 < 2 ^ 31 -> inv bc ts held n.
Proof.
  induction 1 as [capacity|bc ts held n options file size s t bc' _ IH E Hs|bc ts held n t ropts v it h block bc' _ IH Ht Hv E Eb
    |bc ts held n t ropts v it bc' _ IH Ht Hv E|bc ts held held' n h block bc' _ IH Hp E]; intros Hb.
  - split; [apply objs_new|constructor|split; [cbn; lia|constructor]|constructor|]. intros h block Hh. by apply not_elem_of_nil in Hh.
  - apply (CachedTable_Open_ok bc ts held n options file size s t bc' (IH ltac:(lia)) ltac:(lia) E Hs).
  - destruct (CachedBlockReader_ok bc ts held n t ropts v (IH ltac:(lia)) Ht Hv ltac:(lia)) as (h1 & bc1 & E1 & Hi). rewrite E1 in E.
    destruct (BlockReader _ _ _ _ _ _); [|done]. injection E as _ -> ->. destruct Hi as (block' & Eb' & Hi). congruence.
  - destruct (CachedBlockReader_ok bc ts held n t ropts v (IH ltac:(lia)) Ht Hv ltac:(lia)) as (h1 & bc1 & E1 & Hi). rewrite E1 in E.
    destruct (BlockReader _ _ _ _ _ _); [|done]. by injection E as _ -> ->.
  - destruct (ReleaseBlock_ok bc ts held held' n h block (IH ltac:(lia)) ltac:(lia) Hp) as (bc1 & E1 & Hi). rewrite E in E1. by injection E1 as ->.
Qed.


End Transparent.

End BlockCache.

(** ** A table read twice *)

Lemma Table_Open_file {F} `{!RandomAccessFile F} snappy zstd addr options (file : F) size s t :
  Table_Open snappy zstd addr options file size = Some (s, Some t) -> t_file t = file.
Proof.
  unfold Table_Open. destruct (_ <? _); [done|]. destruct (ReadAt file _ _) as [[s1 fi] b]. destruct (negb (ok s1)); [done|].
  destruct (Footer_DecodeFrom _ _) as [[s2 ft] r]. destruct (negb (ok s2)); [done|]. destruct (ReadBlock _ _ _ _ _ _) as [s3 c]. destruct (ok s3); [|done].
  destruct (ReadMeta _ _ _ _ _ _) as [fl|]; [|done]. cbn. by intros [= _ <-].
Qed.

Definition block_file : StringRandom :=
  mkRandom (match build_table no_codec no_codec 0 sample_table_options (mkDest []) sample_table with Some r => dest_contents (r_file r) | None => [] end) true.

Definition block_opened := CachedTable_Open no_codec no_codec 0 (ObjCache_new 100) sample_table_options block_file (blen (random_contents block_file)).

(** The values of the index block. *)
Definition index_values : list bytes := Eval vm_compute in
  match block_opened with
  | Some (_, Some t, _) =>
      match Block_NewIterator (t_index_block (ct_table t)) (comparator sample_table_options) with
      | Some it => match scan_all 100 it with Some es => map snd es | None => [] end
      | None => []
      end
  | _ => []
  end.

Definition first_value : bytes := match index_values with v :: _ => v | [] => [] end.

Lemma block_file_sound t : t_file t = block_file -> sound_table no_codec no_codec 0 (fun _ v => v ∈ index_values) t.
Proof.
  intros Et v v' b b' Hv Hv'. rewrite Et. unfold index_values in Hv, Hv'.
  repeat (apply elem_of_cons in Hv as [->|Hv]; [|]); [| |by apply elem_of_nil in Hv];
    (repeat (apply elem_of_cons in Hv' as [->|Hv']; [|]); [| |by apply elem_of_nil in Hv']);
    destruct b, b'; vm_compute; intros _ _ Hoff; first [discriminate Hoff | split; reflexivity].
Qed.

