(* ===== verification/Pmem.v ===== *)
(** * The persistent pool a group lives in

    [include/define.h], [include/groupManager.h] and the libpmemobj calls of
    [src/groupManager.cc].  libpmemobj is not part of the repository: it is the
    class [PMEMobj] of the calls the source makes, and [PMEMobjLaws] states what
    its manual pages promise of them, against the contents of the pool.  Flushes
    and drains order the writes to the medium and do not change what the program
    reads, so they have no counterpart here. *)

From S2P Require Import Prelude.

Definition CACHE_LINE_SIZE : Z := 64.
Definition LIST_NODE_SIZE_256M : Z := 256 * Z.shiftl 1 20.

(** [PMEMoid]: the pool an object is in and its offset there. *)
Record PMEMoid := mkOid { pool_uuid_lo : Z; oid_off : Z }.

#[export] Instance PMEMoid_eq_dec : EqDecision PMEMoid.
Proof. solve_decision. Defined.

Definition OID_NULL : PMEMoid := mkOid 0 0.
Definition OID_IS_NULL (o : PMEMoid) : bool := oid_off o =? 0.

(** [struct listroot] *)
Record listroot := mkListroot {
  writeFront : PMEMoid;
  node_count : Z;
  gid : Z;
  head : PMEMoid;
  tail : PMEMoid
}.

Definition sizeof_listroot : Z := 16 + 4 + 4 + 16 + 16.

Definition zero_root : listroot := mkListroot OID_NULL 0 0 OID_NULL OID_NULL.

(** [struct listnode].  [node_data] holds the bytes written so far. *)
Record listnode := mkListnode {
  node_data : gmap Z byte;
  next : PMEMoid
}.

(** The capacity of [data] and the size of a node: data, padding and [next]. *)
Definition node_capacity : Z := LIST_NODE_SIZE_256M - CACHE_LINE_SIZE.
Definition sizeof_listnode : Z := node_capacity + (CACHE_LINE_SIZE - 16) + 16.

(** [listnode::listnode_construct] *)
Definition listnode_construct (n : listnode) : listnode := mkListnode (node_data n) OID_NULL.

(** [listnode::canFit]: an unsigned 64-bit sum. *)
Definition canFit (off size : Z) : bool := u64 (off + size) <=? node_capacity.

(** Bytes stored at consecutive addresses. *)
Fixpoint store_bytes (m : gmap Z byte) (off : Z) (buf : bytes) : gmap Z byte :=
  match buf with
  | [] => m
  | b :: buf => store_bytes (<[off := b]> m) (off + 1) buf
  end.

(** [listnode::appendWrite<T>] of the value or bytes [buf].  For a type [T] wider
    than a byte the whole value [buf], [sizeof(T)] bytes, is stored whatever
    [size] is; otherwise [size] bytes are copied.  The result is the return value,
    the node and the offset. *)
Definition appendWrite (sizeofT : Z) (a : listnode) (off : Z) (buf : bytes) (size : Z)
  : bool * listnode * Z :=
  if negb (canFit off size) then (false, a, off)
  else
    let stored := if 1 <? sizeofT then ztake sizeofT buf else ztake size buf in
    (true, mkListnode (store_bytes (node_data a) off stored) (next a), u64 (off + size)).

(** ** libpmemobj *)

(** The calls, and the reads and writes through [pmemobj_direct].  A read is
    [None] where the pointer does not point to a live object of the type.
    [pmemobj_alloc] runs the constructor it is given on the new object, and is
    [None] when it returns -1. *)
Class PMEMobj (pool : Type) := {
  pmemobj_root : pool -> Z -> PMEMoid * pool;
  pmemobj_alloc : pool -> Z -> (listnode -> listnode) -> option (PMEMoid * pool);
  pmemobj_free : pool -> PMEMoid -> pool;
  root_at : pool -> PMEMoid -> option listroot;
  set_root_at : pool -> PMEMoid -> listroot -> pool;
  node_at : pool -> PMEMoid -> option listnode;
  set_node_at : pool -> PMEMoid -> listnode -> pool
}.

(** What a pool holds: its identity, its root object (where it is, its size and
    contents) and the live objects by offset. *)
Record contents := mkContents {
  c_uuid : Z;
  c_root : option (PMEMoid * Z * listroot);
  c_objs : gmap Z listnode
}.

Definition c_node (c : contents) (o : PMEMoid) : option listnode :=
  if pool_uuid_lo o =? c_uuid c then c_objs c !! oid_off o else None.

(** The root object is created zeroed by the first [pmemobj_root], grown by one
    that asks for more, and returned as it is by one that asks for no more. *)
Definition root_law (c c' : contents) (size : Z) (o : PMEMoid) : Prop :=
  let grown := OID_IS_NULL o = false /\
    c' = mkContents (c_uuid c)
           (Some (o, size, default zero_root (snd <$> c_root c))) (c_objs c) in
  match c_root c with
  | Some (o', s, r) =>
      if size <=? s then o = o' /\ c' = c else grown \/ OID_IS_NULL o = true /\ c' = c
  | None => grown \/ OID_IS_NULL o = true /\ c' = c
  end.

Class PMEMobjLaws (pool : Type) `{PMEMobj pool} (view : pool -> contents) : Prop := {
  pmem_root_law p size :
    root_law (view p) (view (snd (pmemobj_root p size))) size (fst (pmemobj_root p size));
  pmem_alloc_law p size ctor o p' :
    pmemobj_alloc p size ctor = Some (o, p') ->
    OID_IS_NULL o = false /\ pool_uuid_lo o = c_uuid (view p) /\
    c_objs (view p) !! oid_off o = None /\
    exists n, view p' = mkContents (c_uuid (view p)) (c_root (view p))
                          (<[oid_off o := ctor n]> (c_objs (view p)));
  pmem_free_law p o :
    is_Some (c_node (view p) o) ->
    view (pmemobj_free p o) =
      mkContents (c_uuid (view p)) (c_root (view p)) (delete (oid_off o) (c_objs (view p)));
  pmem_root_at p o :
    root_at p o = match c_root (view p) with
                  | Some (o', _, r) => if decide (o = o') then Some r else None
                  | None => None
                  end;
  pmem_set_root p o s r r' :
    c_root (view p) = Some (o, s, r) ->
    view (set_root_at p o r') = mkContents (c_uuid (view p)) (Some (o, s, r')) (c_objs (view p));
  pmem_node_at p o : node_at p o = c_node (view p) o;
  pmem_set_node p o n :
    is_Some (c_node (view p) o) ->
    view (set_node_at p o n) =
      mkContents (c_uuid (view p)) (c_root (view p)) (<[oid_off o := n]> (c_objs (view p)))
}.

(** ** Append writes *)

Lemma store_bytes_lookup m off buf i :
  store_bytes m off buf !! i =
    if decide (off <= i < off + blen buf) then buf !! Z.to_nat (i - off) else m !! i.
Proof.
  revert m off. induction buf as [|b buf IH]; intros m off; cbn [store_bytes].
  - rewrite blen_nil. rewrite decide_False by lia. done.
  - rewrite IH, blen_cons. pose proof (blen_nonneg buf). repeat case_decide; try lia.
    + replace (Z.to_nat (i - off)) with (S (Z.to_nat (i - (off + 1)))) by lia. done.
    + assert (i = off) as -> by lia. rewrite lookup_insert_eq, Z.sub_diag. done.
    + rewrite lookup_insert_ne by lia. done.
Qed.

(** Writing buffers one after the other, as long as they fit. *)
Fixpoint append_all (a : listnode) (off : Z) (bufs : list bytes) : option (listnode * Z) :=
  match bufs with
  | [] => Some (a, off)
  | buf :: bufs =>
      let '(done, a, off) := appendWrite 1 a off buf (blen buf) in
      if done : bool then append_all a off bufs else None
  end.

Lemma canFit_spec off size :
  0 <= off <= node_capacity -> 0 <= size < 2 ^ 63 ->
  canFit off size = bool_decide (off + size <= node_capacity).
Proof.
  intros Ho Hs. assert (node_capacity < 2 ^ 63) by done. unfold canFit. rewrite u64_small by lia.
  case_bool_decide; lia.
Qed.

Lemma appendWrite_spec a off buf :
  0 <= off <= node_capacity -> blen buf < 2 ^ 63 ->
  appendWrite 1 a off buf (blen buf) =
    if decide (off + blen buf <= node_capacity)
    then (true, mkListnode (store_bytes (node_data a) off buf) (next a), off + blen buf)
    else (false, a, off).
Proof.
  intros Ho Hb. pose proof (blen_nonneg buf). unfold appendWrite.
  rewrite canFit_spec by lia.
  destruct (decide _) as [Hd|Hd];
    [rewrite bool_decide_true by done|rewrite bool_decide_false by done; done]; cbn [negb].
  assert (node_capacity < 2 ^ 63) by done.
  change (1 <? 1) with false. cbv iota. rewrite ztake_all, u64_small by lia. done.
Qed.

Lemma append_all_spec a off bufs :
  0 <= off <= node_capacity -> Forall (fun b => blen b < 2 ^ 63) bufs ->
  off + blen (concat bufs) <= node_capacity ->
  append_all a off bufs =
    Some (mkListnode (store_bytes (node_data a) off (concat bufs)) (next a),
          off + blen (concat bufs)).
Proof.
  revert a off. induction bufs as [|buf bufs IH]; intros [d nx] off Ho Hb Hf; cbn [append_all concat].
  - rewrite blen_nil, Z.add_0_r. done.
  - apply Forall_cons in Hb as [Hb Hbs]. cbn [concat] in Hf. rewrite blen_app in Hf.
    pose proof (blen_nonneg buf). pose proof (blen_nonneg (concat bufs)).
    rewrite appendWrite_spec by lia. rewrite decide_True by lia.
    rewrite IH by (lia || done). cbn [node_data next]. rewrite blen_app, Z.add_assoc. f_equal. f_equal. f_equal.
    apply map_eq. intros i. rewrite !store_bytes_lookup, blen_app.
    repeat case_decide; try lia; try done.
    + rewrite lookup_app_r by (unfold blen in *; lia). f_equal. unfold blen in *. lia.
    + rewrite lookup_app_l by (unfold blen in *; lia). done.
Qed.

Lemma append_all_full a off bufs :
  0 <= off <= node_capacity -> Forall (fun b => blen b < 2 ^ 63) bufs ->
  node_capacity < off + blen (concat bufs) -> append_all a off bufs = None.
Proof.
  revert a off. induction bufs as [|buf bufs IH]; intros a off Ho Hb Hf; cbn [append_all concat] in *.
  - rewrite blen_nil in Hf. lia.
  - apply Forall_cons in Hb as [Hb Hbs]. rewrite blen_app in Hf. pose proof (blen_nonneg buf).
    rewrite appendWrite_spec by lia. case_decide; [|done]. apply IH; [lia|done|lia].
Qed.

(** Appending byte buffers to an empty node succeeds exactly when together
    they fit in its 256 MiB less one cache line; then the write offset is their
    total length, reading the node gives back their concatenation in order, and
    no byte at or past the offset (the padding and the [next] pointer among them)
    is touched. *)
Theorem node_append a bufs :
  Forall (fun b => blen b < 2 ^ 63) bufs ->
  match append_all a 0 bufs with
  | Some (a', off) =>
      off = blen (concat bufs) /\ off <= node_capacity /\ next a' = next a /\
      (forall i, 0 <= i < off -> node_data a' !! i = concat bufs !! Z.to_nat i) /\
      (forall i, off <= i -> node_data a' !! i = node_data a !! i)
  | None => node_capacity < blen (concat bufs)
  end.
Proof.
  intros Hb. assert (0 <= 0 <= node_capacity) as H0 by done.
  destruct (decide (0 + blen (concat bufs) <= node_capacity)) as [Hf|Hf].
  - rewrite append_all_spec by done. cbn [node_data next]. rewrite Z.add_0_l in *.
    repeat split; auto; intros i Hi; rewrite store_bytes_lookup.
    + rewrite decide_True by lia. f_equal. lia.
    + rewrite decide_False by lia. done.
  - rewrite append_all_full by (done || lia). lia.
Qed.

Lemma node_append_witness :
  Forall (fun b => blen b < 2 ^ 63) [str "ab"; str "c"] /\
  match append_all (mkListnode ∅ OID_NULL) 0 [str "ab"; str "c"] with
  | Some (a', off) =>
      off = 3 /\ 3 <= node_capacity /\ next a' = OID_NULL /\
      (forall i, 0 <= i < off -> node_data a' !! i = str "abc" !! Z.to_nat i) /\
      (forall i, off <= i -> node_data a' !! i = (∅ : gmap Z byte) !! i)
  | None => node_capacity < 3
  end.
Proof.
  assert (Forall (fun b => blen b < 2 ^ 63) [str "ab"; str "c"]) as H by (repeat constructor).
  split; [exact H|]. exact (node_append (mkListnode ∅ OID_NULL) [str "ab"; str "c"] H).
Defined.
