(* ===== verification/Group.v ===== *)
(** * Groups: the persistent list of nodes of a partition

    [src/groupManager.cc] and the part of [src/deviceManager.cc] that opens the
    pool files.  A [Group] keeps a singly linked list of 256 MiB nodes in its
    pool, with its head, tail and length in the root object.  The operations are
    translated against the [PMEMobj] interface; [list_ok] is the invariant that
    ties the pool to the list of its nodes, and every operation is shown to do to
    that list what its name says. *)

From S2P Require Import Prelude Logging Pmem.

(** The members of a [Group].  [None] is a member no constructor has set:
    [_node_count_dram], [_tail_dram] and [_offset_dram] are only written when the
    list is created. *)
Record Group {pool : Type} := mkGroup {
  pop : pool;
  gid_dram : Z;
  node_count_dram : option Z;
  tail_dram : option PMEMoid;
  offset_dram : option Z
}.
Arguments Group : clear implicits.

(** How a call ends: it returns, throws, or does something with no defined
    behaviour (a null or dangling pointer, signed overflow). *)
Inductive outcome (A : Type) := Ret (a : A) | Throw | Undefined.
Arguments Ret {A}. Arguments Throw {A}. Arguments Undefined {A}.

Definition INT_MAX : Z := 2 ^ 31 - 1.
Definition INT_MIN : Z := - 2 ^ 31.

Section Group.
Context {pool : Type} `{PMEMobj pool}.

Definition G (A : Type) : Type := Group pool -> outcome A * Group pool.

#[global] Instance G_ret : MRet G := fun A a g => (Ret a, g).
#[global] Instance G_bind : MBind G := fun A B f m g =>
  match m g with
  | (Ret a, g) => f a g
  | (Throw, g) => (Throw, g)
  | (Undefined, g) => (Undefined, g)
  end.

Definition undefined {A} : G A := fun g => (Undefined, g).
Definition on_pool {A} (f : pool -> A * pool) : G A := fun g =>
  let '(a, p) := f (pop g) in
  (Ret a, mkGroup _ p (gid_dram g) (node_count_dram g) (tail_dram g) (offset_dram g)).

Definition read_pool {A} (f : pool -> option A) : G A := fun g =>
  match f (pop g) with Some a => (Ret a, g) | None => (Undefined, g) end.

(** Reads and writes through [pmemobj_direct]. *)
Definition load_root (o : PMEMoid) : G listroot := read_pool (fun p => root_at p o).
Definition load_node (o : PMEMoid) : G listnode := read_pool (fun p => node_at p o).
Definition store_root (o : PMEMoid) (r : listroot) : G unit :=
  load_root o ≫= fun _ => on_pool (fun p => (tt, set_root_at p o r)).
Definition store_node (o : PMEMoid) (n : listnode) : G unit :=
  load_node o ≫= fun _ => on_pool (fun p => (tt, set_node_at p o n)).

Definition call_root (size : Z) : G PMEMoid := on_pool (fun p => pmemobj_root p size).

(** [++] and [--] on an [int] *)
Definition int_add (z d : Z) : G Z :=
  if (INT_MIN <=? z + d) && (z + d <=? INT_MAX) then mret (z + d) else undefined.

Definition set_dram (gid count : Z) (tl : PMEMoid) (off : Z) : G unit := fun g =>
  (Ret tt, mkGroup _ (pop g) gid (Some count) (Some tl) (Some off)).

(** [Group::get_pm_root]; [None] is the null pointer. *)
Definition get_pm_root : G (option PMEMoid) :=
  meta_root ← call_root sizeof_listroot;
  if OID_IS_NULL meta_root then mret None else mret (Some meta_root).

Definition check_list_exist : G bool :=
  meta_root ← call_root sizeof_listroot;
  if OID_IS_NULL meta_root then mret false
  else
    meta ← load_root meta_root;
    if (node_count meta =? 0) || (oid_off (head meta) =? 0) || (0 =? oid_off (tail meta))
    then mret false
    else mret true.

(** [_node_count_dram++] and [_node_count_dram--].  Before the member is set, it
    stays without a definite value. *)
Definition add_node_count_dram (d : Z) : G unit := fun g =>
  match node_count_dram g with
  | None => (Ret tt, g)
  | Some z =>
      match int_add z d g with
      | (Ret z, g) => (Ret tt, mkGroup _ (pop g) (gid_dram g) (Some z) (tail_dram g) (offset_dram g))
      | (_, g) => (Undefined, g)
      end
  end.

(** The [pmemobj_alloc] of a node, with the exception thrown when it fails. *)
Definition call_alloc : G PMEMoid := fun g =>
  match pmemobj_alloc (pop g) sizeof_listnode listnode_construct with
  | None => (Throw, g)
  | Some (o, p) =>
      (Ret o, mkGroup _ p (gid_dram g) (node_count_dram g) (tail_dram g) (offset_dram g))
  end.

(** [Group::alloc_node] *)
Definition alloc_node : G PMEMoid :=
  new_node_oid ← call_alloc;
  add_node_count_dram 1 ≫= fun _ =>
  if OID_IS_NULL new_node_oid then undefined else mret new_node_oid.

(** [Group::free_node].  The node is passed by value: the caller's copy is not
    set to null. *)
Definition free_node (node : PMEMoid) : G unit :=
  load_node node ≫= fun _ =>
  on_pool (fun p => (tt, pmemobj_free p node)) ≫= fun _ =>
  add_node_count_dram (-1).

(** The constructor, run on the members its initialiser list sets. *)
Definition Group_init (gid : Z) : G unit :=
  exist ← check_list_exist;
  if exist : bool then mret tt
  else
    meta_oid ← call_root sizeof_listnode;
    if OID_IS_NULL meta_oid then mret tt
    else
      meta ← load_root meta_oid;
      store_root meta_oid (mkListroot (writeFront meta) 1 gid (head meta) (tail meta)) ≫= fun _ =>
      new_node ← alloc_node;
      meta ← load_root meta_oid;
      store_root meta_oid
        (mkListroot (writeFront meta) (node_count meta) (Pmem.gid meta) new_node new_node) ≫= fun _ =>
      set_dram gid 0 new_node 0.

Definition Group_make (p : pool) (gid : Z) : outcome unit * Group pool :=
  Group_init gid (mkGroup _ p gid None None None).

Definition add_node_to_tail (node_oid : PMEMoid) : G unit :=
  meta_root ← call_root sizeof_listroot;
  if OID_IS_NULL meta_root then mret tt
  else
    meta ← load_root meta_root;
    last_node ← load_node (tail meta);
    store_node (tail meta) (mkListnode (node_data last_node) node_oid) ≫= fun _ =>
    count ← int_add (node_count meta) 1;
    store_root meta_root
      (mkListroot (writeFront meta) count (Pmem.gid meta) (head meta) node_oid).

Definition delete_node_from_list (prev node : PMEMoid) : G unit :=
  meta_root ← call_root sizeof_listroot;
  if OID_IS_NULL meta_root then mret tt
  else
    meta ← load_root meta_root;
    count ← int_add (node_count meta) (-1);
    store_root meta_root
      (mkListroot (writeFront meta) count (Pmem.gid meta) (head meta) (tail meta)) ≫= fun _ =>
    prev_node ← load_node prev;
    cur_node ← load_node node;
    store_node prev (mkListnode (node_data prev_node) (next cur_node)) ≫= fun _ =>
    free_node node ≫= fun _ =>
    meta ← load_root meta_root;
    if oid_off node =? oid_off (tail meta)
    then store_root meta_root
           (mkListroot (writeFront meta) (node_count meta) (Pmem.gid meta) (head meta) prev)
    else mret tt.

(** ** A client

    What the tests do with a group: append a new node, or walk to a node and
    delete the one after it. *)
Fixpoint walk (n : nat) (o : PMEMoid) : G PMEMoid :=
  match n with
  | O => mret o
  | S n => node ← load_node o; walk n (next node)
  end.

Inductive gop := Append | RemoveAfter (i : nat).

Definition run_op (o : gop) : G unit :=
  match o with
  | Append => node ← alloc_node; add_node_to_tail node
  | RemoveAfter i =>
      root ← get_pm_root;
      match root with
      | None => mret tt
      | Some root =>
          meta ← load_root root;
          prev ← walk i (head meta);
          prev_node ← load_node prev;
          delete_node_from_list prev (next prev_node)
      end
  end.

Fixpoint run_ops (os : list gop) : G unit :=
  match os with
  | [] => mret tt
  | o :: os => run_op o ≫= fun _ => run_ops os
  end.

End Group.

(** ** The list a pool holds *)

(** The node a list starts with, or what follows it. *)
Definition first_of (l : list PMEMoid) (e : PMEMoid) : PMEMoid :=
  match l with [] => e | o :: _ => o end.

(** The nodes [l] are live and linked in this order, the last of them to [e]. *)
Fixpoint seg (c : contents) (l : list PMEMoid) (e : PMEMoid) : Prop :=
  match l with
  | [] => True
  | o :: l =>
      (OID_IS_NULL o = false /\ exists n, c_node c o = Some n /\ next n = first_of l e) /\ seg c l e
  end.

Definition chained (c : contents) (l : list PMEMoid) : Prop := NoDup l /\ seg c l OID_NULL.

(** The root object describes the list. *)
Definition rooted (c : contents) (l : list PMEMoid) : Prop :=
  exists o s r, c_root c = Some (o, s, r) /\ sizeof_listroot <= s /\ OID_IS_NULL o = false /\
    l !! 0%nat = Some (head r) /\ last l = Some (tail r) /\ node_count r = Z.of_nat (length l).

Definition list_in (c : contents) (l : list PMEMoid) : Prop := rooted c l /\ chained c l.

(** Contents with other objects or another root. *)
Definition with_objs (c : contents) (objs : gmap Z listnode) : contents :=
  mkContents (c_uuid c) (c_root c) objs.
Definition with_root (c : contents) (r : option (PMEMoid * Z * listroot)) : contents :=
  mkContents (c_uuid c) r (c_objs c).

Lemma c_node_insert c o n n' x :
  c_node c o = Some n ->
  c_node (with_objs c (<[oid_off o := n']> (c_objs c))) x =
    if decide (x = o) then Some n' else c_node c x.
Proof.
  unfold c_node, with_objs. cbn [c_uuid c_objs]. destruct (pool_uuid_lo o =? c_uuid c) eqn:Eo; [|done].
  intros _. destruct (pool_uuid_lo x =? c_uuid c) eqn:Ex.
  - case_decide as Hx; [subst; by rewrite lookup_insert_eq|].
    rewrite lookup_insert_ne; [done|]. intros Hoff. apply Hx.
    destruct x, o; cbn in *. f_equal; lia.
  - rewrite decide_False; [done|]. intros ->. congruence.
Qed.

Lemma c_node_delete c o x :
  is_Some (c_node c o) ->
  c_node (with_objs c (delete (oid_off o) (c_objs c))) x =
    if decide (x = o) then None else c_node c x.
Proof.
  unfold c_node, with_objs. cbn [c_uuid c_objs]. intros [n Hn].
  destruct (pool_uuid_lo o =? c_uuid c) eqn:Eo; [|done].
  destruct (pool_uuid_lo x =? c_uuid c) eqn:Ex.
  - case_decide as Hx; [subst; by rewrite lookup_delete_eq|].
    rewrite lookup_delete_ne; [done|]. intros Hoff. apply Hx.
    destruct x, o; cbn in *. f_equal; lia.
  - rewrite decide_False; [done|]. intros ->. congruence.
Qed.

Lemma c_node_fresh c o n x :
  pool_uuid_lo o = c_uuid c ->
  c_node (with_objs c (<[oid_off o := n]> (c_objs c))) x =
    if decide (x = o) then Some n else c_node c x.
Proof.
  intros Hu. unfold c_node, with_objs. cbn [c_uuid c_objs].
  destruct (pool_uuid_lo x =? c_uuid c) eqn:Ex.
  - case_decide as Hx; [subst; by rewrite lookup_insert_eq|].
    rewrite lookup_insert_ne; [done|]. intros Hoff. apply Hx.
    destruct x, o; cbn in *. f_equal; lia.
  - rewrite decide_False; [done|]. intros ->. lia.
Qed.

(** Segments only depend on the nodes they go through, and split. *)
Lemma seg_ext c c' l e :
  (forall o, o ∈ l -> c_node c' o = c_node c o) -> seg c l e -> seg c' l e.
Proof.
  induction l as [|o l IH]; intros Hc; cbn [seg]; [done|].
  intros [(Ho & n & E & En) Hs]. split; [|apply IH; [set_solver|done]].
  split; [done|]. exists n. split; [|done]. rewrite Hc; [done|set_solver].
Qed.

Lemma seg_app c l1 l2 e : seg c (l1 ++ l2) e <-> seg c l1 (first_of l2 e) /\ seg c l2 e.
Proof.
  induction l1 as [|o l1 IH]; cbn [seg app]; [naive_solver|].
  rewrite IH. destruct l1; cbn [first_of app]; naive_solver.
Qed.

Lemma seg_live c l e o : seg c l e -> o ∈ l -> is_Some (c_node c o).
Proof.
  induction l as [|x l IH]; cbn [seg]; [set_solver|].
  intros [(_ & n & E & _) Hs] [->|Ho]%elem_of_cons; [by exists n|auto].
Qed.

Lemma chained_append c l t n tn nn :
  chained c (l ++ [t]) -> c_node c t = Some tn -> OID_IS_NULL n = false ->
  c_node c n = Some nn -> next nn = OID_NULL -> n ∉ l ++ [t] ->
  chained (with_objs c (<[oid_off t := mkListnode (node_data tn) n]> (c_objs c))) ((l ++ [t]) ++ [n]).
Proof.
  intros [Hnd (Hl & (Ht0 & _) & _)%seg_app] Ht Hnn Hn Hnx Hni. split.
  - apply NoDup_app. split; [done|]. split; [set_solver|apply NoDup_singleton].
  - apply NoDup_app in Hnd as (_ & Hd & _). cbn [first_of] in Hl.
    rewrite !seg_app. cbn [seg first_of]. rewrite !(c_node_insert c t tn) by done.
    rewrite decide_True by done. rewrite decide_False by set_solver.
    split; [split|]; [|naive_solver..].
    eapply seg_ext; [|exact Hl]. intros o Ho. rewrite (c_node_insert c t tn) by done.
    rewrite decide_False; [done|]. intros ->. apply (Hd t Ho). set_solver.
Qed.

(** The nodes of a list without repetitions around two neighbours. *)
Lemma NoDup_pair {A} (l1 : list A) p n l2 :
  NoDup (l1 ++ p :: n :: l2) ->
  NoDup (l1 ++ p :: l2) /\ n <> p /\ n ∉ l1 /\ n ∉ l2 /\ p ∉ l1 /\ p ∉ l2.
Proof.
  rewrite !NoDup_app, !NoDup_cons. intros (H1 & Hd & Hp & Hn & H2). set_solver.
Qed.

Lemma chained_remove c l1 p n l2 pn nn :
  chained c (l1 ++ p :: n :: l2) -> c_node c p = Some pn -> c_node c n = Some nn ->
  let c' := with_objs c (<[oid_off p := mkListnode (node_data pn) (next nn)]> (c_objs c)) in
  chained (with_objs c' (delete (oid_off n) (c_objs c'))) (l1 ++ p :: l2).
Proof.
  intros [(Hnd & Hnp & Hn1 & Hn2 & Hp1 & Hp2)%NoDup_pair (H1 & (Hp0 & _) & (_ & m & Em & Hm) & H2)%seg_app] Hp Hn c'.
  assert (m = nn) as -> by congruence.
  assert (Hc : forall x, x <> n -> c_node (with_objs c' (delete (oid_off n) (c_objs c'))) x =
    if decide (x = p) then Some (mkListnode (node_data pn) (next nn)) else c_node c x).
  { intros x Hx. rewrite c_node_delete by (unfold c'; rewrite (c_node_insert c p pn), decide_False by done; done).
    rewrite decide_False by done. by apply c_node_insert with pn. }
  split; [done|]. rewrite seg_app. cbn [seg first_of] in *. rewrite Hc, decide_True by done. split; [|split].
  - eapply seg_ext; [|exact H1]. intros o Ho. rewrite Hc, decide_False by set_solver. done.
  - split; [done|]. by eexists.
  - eapply seg_ext; [|exact H2]. intros o Ho. rewrite Hc, decide_False by set_solver. done.
Qed.

(** ** The operations *)

Section Spec.
Context {pool : Type} `{PMEMobj pool} {view : pool -> contents} {LAWS : PMEMobjLaws pool view}.

Definition set_pop (g : Group pool) (p : pool) : Group pool :=
  mkGroup _ p (gid_dram g) (node_count_dram g) (tail_dram g) (offset_dram g).

Lemma group_bind {A B} (m : @G pool A) (f : A -> @G pool B) g a g' :
  m g = (Ret a, g') -> (m ≫= f) g = f a g'.
Proof. intros E. unfold mbind, G_bind. by rewrite E. Qed.

Lemma group_throw {A B} (m : @G pool A) (f : A -> @G pool B) g g' :
  m g = (Throw, g') -> (m ≫= f) g = (Throw, g').
Proof. intros E. unfold mbind, G_bind. by rewrite E. Qed.

Lemma run_call_root g o s r size :
  c_root (view (pop g)) = Some (o, s, r) -> size <= s ->
  exists p, call_root size g = (Ret o, set_pop g p) /\ view p = view (pop g).
Proof.
  intros Hr Hs. pose proof (pmem_root_law (pop g) size) as Hl. unfold root_law in Hl.
  rewrite Hr in Hl. rewrite (proj2 (Z.leb_le _ _) Hs) in Hl. destruct Hl as [<- Hv].
  exists (snd (pmemobj_root (pop g) size)). split; [|done].
  unfold call_root, on_pool. by destruct (pmemobj_root (pop g) size).
Qed.

Lemma run_load_root g o s r :
  c_root (view (pop g)) = Some (o, s, r) -> load_root o g = (Ret r, g).
Proof. intros Hr. unfold load_root, read_pool. by rewrite pmem_root_at, Hr, decide_True. Qed.

Lemma run_store_root g o s r r' :
  c_root (view (pop g)) = Some (o, s, r) ->
  exists p, store_root o r' g = (Ret tt, set_pop g p) /\
    view p = with_root (view (pop g)) (Some (o, s, r')).
Proof.
  intros Hr. exists (set_root_at (pop g) o r'). split.
  - unfold store_root. by rewrite (group_bind _ _ _ _ _ (run_load_root g o s r Hr)).
  - by apply pmem_set_root with r.
Qed.

Lemma run_load_node g o n : c_node (view (pop g)) o = Some n -> load_node o g = (Ret n, g).
Proof. intros Hn. unfold load_node, read_pool. by rewrite pmem_node_at, Hn. Qed.

Lemma run_store_node g o n n' :
  c_node (view (pop g)) o = Some n ->
  exists p, store_node o n' g = (Ret tt, set_pop g p) /\
    view p = with_objs (view (pop g)) (<[oid_off o := n']> (c_objs (view (pop g)))).
Proof.
  intros Hn. exists (set_node_at (pop g) o n'). split.
  - unfold store_node. by rewrite (group_bind _ _ _ _ _ (run_load_node g o n Hn)).
  - apply pmem_set_node. by exists n.
Qed.

Lemma run_int_add (g : Group pool) z d :
  INT_MIN <= z + d <= INT_MAX -> int_add z d g = (Ret (z + d), g).
Proof.
  intros Hd. unfold int_add. by rewrite (proj2 (Z.leb_le _ _) (proj1 Hd)), (proj2 (Z.leb_le _ _) (proj2 Hd)).
Qed.

(** The state of a group whose pool holds the list [l]. *)
Definition list_ok (g : Group pool) (l : list PMEMoid) : Prop :=
  list_in (view (pop g)) l /\
  match node_count_dram g with
  | None => True
  | Some z => z = Z.of_nat (length l) - 1
  end.

Definition fits (l : list PMEMoid) : Prop := Z.of_nat (length l) <= INT_MAX.

Lemma run_add_count (g : Group pool) l d :
  match node_count_dram g with None => True | Some z => z = Z.of_nat (length l) - 1 end ->
  fits l -> INT_MIN <= Z.of_nat (length l) - 1 + d <= INT_MAX ->
  add_node_count_dram d g =
    (Ret tt, mkGroup _ (pop g) (gid_dram g) ((fun z => z + d) <$> node_count_dram g)
               (tail_dram g) (offset_dram g)).
Proof.
  intros Hz Hf Hd. unfold add_node_count_dram. destruct g as [p gd [z|] t o]; cbn in *; [|done].
  rewrite run_int_add by lia. done.
Qed.

(** [alloc_node] throws, or returns a live node that was not there, linked to
    nothing. *)
Lemma alloc_node_spec g l :
  list_ok g l -> fits l ->
  (exists g', alloc_node g = (Throw, g') /\ g' = g) \/
  (exists o n g', alloc_node g = (Ret o, g') /\
     OID_IS_NULL o = false /\ o ∉ l /\
     view (pop g') = with_objs (view (pop g)) (<[oid_off o := n]> (c_objs (view (pop g)))) /\
     pool_uuid_lo o = c_uuid (view (pop g)) /\ next n = OID_NULL /\
     node_count_dram g' = (fun z => z + 1) <$> node_count_dram g).
Proof.
  intros [[Hr [Hnd Hs]] Hc] Hf. unfold alloc_node.
  destruct (pmemobj_alloc (pop g) sizeof_listnode listnode_construct) as [[o p]|] eqn:E.
  - right. destruct (pmem_alloc_law _ _ _ _ _ E) as (Ho & Hu & Hfr & n & Hv).
    assert (call_alloc g = (Ret o, set_pop g p)) as Ec by (unfold call_alloc; by rewrite E).
    rewrite (group_bind _ _ _ _ _ Ec).
    assert (node_count_dram (set_pop g p) = node_count_dram g) as En by done.
    rewrite (group_bind _ _ _ _ _ (run_add_count (set_pop g p) l 1 Hc Hf ltac:(unfold fits, INT_MIN, INT_MAX in *; lia))).
    rewrite Ho. exists o, (listnode_construct n). eexists. split; [done|]. split; [done|].
    split; [|done]. intros Hin. destruct (seg_live _ _ _ _ Hs Hin) as [m Hm].
    unfold c_node in Hm. by rewrite Hu, Z.eqb_refl, Hfr in Hm.
  - left. exists g. split; [|done]. apply group_throw. unfold call_alloc. by rewrite E.
Qed.

(** Running a lemma [L] about the next call: its result, the pool after it and
    the view of that pool. *)
Ltac call L p Hv :=
  let E := fresh "E" in
  destruct L as (p & E & Hv); rewrite (group_bind _ _ _ _ _ E); clear E.

Lemma rooted_with_objs c objs l : rooted (with_objs c objs) l <-> rooted c l.
Proof. done. Qed.

Lemma chained_with_root c r l : chained c l -> chained (with_root c r) l.
Proof. intros [Hnd Hs]. split; [done|]. by apply (seg_ext c). Qed.

Lemma add_node_to_tail_spec g l n nn :
  list_in (view (pop g)) l -> Z.of_nat (length l) < INT_MAX ->
  OID_IS_NULL n = false -> n ∉ l -> c_node (view (pop g)) n = Some nn -> next nn = OID_NULL ->
  exists p, add_node_to_tail n g = (Ret tt, set_pop g p) /\ list_in (view p) (l ++ [n]).
Proof.
  intros [(o & s & r & Hr & Hs & Ho & Hh & Ht & Hc) Hch] Hf Hn Hni Hnn Hnx.
  apply last_Some in Ht as [l' ->].
  unfold add_node_to_tail. call (run_call_root g o s r sizeof_listroot Hr Hs) p1 Hv1. rewrite Ho.
  assert (c_root (view (pop (set_pop g p1))) = Some (o, s, r)) as Hr1 by (cbn; congruence).
  rewrite (group_bind _ _ _ _ _ (run_load_root _ _ _ _ Hr1)).
  destruct (seg_live _ _ _ (tail r) (proj2 Hch)) as [tn Htn]; [set_solver|].
  assert (c_node (view (pop (set_pop g p1))) (tail r) = Some tn) as Htn1 by (cbn; congruence).
  rewrite (group_bind _ _ _ _ _ (run_load_node _ _ _ Htn1)).
  call (run_store_node _ (tail r) tn (mkListnode (node_data tn) n) Htn1) p2 Hv2.
  rewrite (group_bind _ _ _ _ _ (run_int_add _ (node_count r) 1 ltac:(unfold INT_MIN; lia))).
  assert (c_root (view (pop (set_pop (set_pop g p1) p2))) = Some (o, s, r)) as Hr2
    by (cbn in *; by rewrite Hv2).
  destruct (run_store_root _ o s r
    (mkListroot (writeFront r) (node_count r + 1) (Pmem.gid r) (head r) n) Hr2) as (p3 & E3 & Hv3).
  exists p3. split; [exact E3|]. rewrite Hv3. cbn [pop set_pop] in *. rewrite Hv2, Hv1. split.
  - exists o, s, (mkListroot (writeFront r) (node_count r + 1) (Pmem.gid r) (head r) n).
    split; [done|]. cbn [head tail node_count]. rewrite last_snoc.
    split; [done|]. split; [done|]. split; [|split; [done|]].
    + rewrite lookup_app_l; [done|]. rewrite length_app. cbn. lia.
    + rewrite Hc, !length_app. cbn. lia.
  - apply chained_with_root. by apply chained_append with nn.
Qed.

(** Walking from the head reaches the node at an index. *)
Lemma walk_spec g l e i o :
  seg (view (pop g)) l e -> l !! i = Some o -> walk i (first_of l e) g = (Ret o, g).
Proof.
  revert i. induction l as [|x l IH]; intros i; cbn [seg first_of]; [done|].
  intros [(_ & n & En & Hn) Hs] Hi. destruct i as [|i]; cbn in Hi; [by simplify_eq|].
  cbn [walk]. rewrite (group_bind _ _ _ _ _ (run_load_node _ _ _ En)). rewrite Hn. by apply IH.
Qed.

Lemma free_node_spec g l node n :
  c_node (view (pop g)) node = Some n ->
  match node_count_dram g with None => True | Some z => z = Z.of_nat (length l) - 1 end -> fits l ->
  exists g', free_node node g = (Ret tt, g') /\
    view (pop g') = with_objs (view (pop g)) (delete (oid_off node) (c_objs (view (pop g)))) /\
    node_count_dram g' = (fun z => z + -1) <$> node_count_dram g.
Proof.
  intros Hn Hc Hf. unfold free_node. rewrite (group_bind _ _ _ _ _ (run_load_node _ _ _ Hn)).
  rewrite (group_bind (on_pool _) _ g tt (set_pop g (pmemobj_free (pop g) node))) by done.
  rewrite (run_add_count (set_pop g (pmemobj_free (pop g) node)) l (-1) Hc Hf)
    by (unfold fits, INT_MIN, INT_MAX in *; lia).
  eexists. split; [done|]. cbn [pop set_pop]. split; [|done].
  apply pmem_free_law. by exists n.
Qed.

(** The tail of the list once the node after [p] is gone. *)
Lemma last_remove (l1 : list PMEMoid) p n l2 t :
  NoDup (l1 ++ p :: n :: l2) -> last (l1 ++ p :: n :: l2) = Some t ->
  last (l1 ++ p :: l2) = Some (if decide (t = n) then p else t) /\ (t = n \/ t <> n /\ t ∈ l2).
Proof.
  intros Hnd Hl. apply NoDup_pair in Hnd as (_ & _ & _ & Hn2 & _).
  rewrite last_app in Hl |- *. rewrite !last_cons in Hl. rewrite last_cons.
  destruct (last l2) as [x|] eqn:E; simplify_eq.
  - apply last_Some in E as [l' ->]. assert (t <> n) by set_solver.
    rewrite decide_False by done. split; [done|]. set_solver.
  - rewrite decide_True by done. auto.
Qed.

Lemma oid_off_neq c l e a b :
  seg c l e -> a ∈ l -> b ∈ l -> a <> b -> (oid_off a =? oid_off b) = false.
Proof.
  intros Hs Ha Hb Hab. destruct (seg_live _ _ _ _ Hs Ha) as [x Hx], (seg_live _ _ _ _ Hs Hb) as [y Hy].
  unfold c_node in Hx, Hy. destruct (_ =? _) eqn:E1 in Hx; [|done]. destruct (_ =? _) eqn:E2 in Hy; [|done].
  apply Z.eqb_neq. intros Ho. apply Hab. destruct a, b; cbn in *. f_equal; lia.
Qed.

Lemma delete_node_spec g l1 p n l2 :
  list_ok g (l1 ++ p :: n :: l2) -> fits (l1 ++ p :: n :: l2) ->
  exists g', delete_node_from_list p n g = (Ret tt, g') /\ list_ok g' (l1 ++ p :: l2).
Proof.
  intros [[(o & s & r & Hr & Hs & Ho & Hh & Ht & Hc) Hch] Hd] Hf.
  set (l := l1 ++ p :: n :: l2) in *.
  assert (length l = S (length (l1 ++ p :: l2))) as Hlen
    by (unfold l; rewrite !length_app; cbn; lia).
  unfold delete_node_from_list. call (run_call_root g o s r sizeof_listroot Hr Hs) p1 Hv1. rewrite Ho.
  assert (c_root (view (pop (set_pop g p1))) = Some (o, s, r)) as Hr1 by (cbn; congruence).
  rewrite (group_bind _ _ _ _ _ (run_load_root _ _ _ _ Hr1)).
  rewrite (group_bind _ _ _ _ _ (run_int_add _ (node_count r) (-1)
    ltac:(unfold fits, INT_MIN, INT_MAX in *; lia))).
  set (r1 := mkListroot (writeFront r) (node_count r + -1) (Pmem.gid r) (head r) (tail r)).
  call (run_store_root _ o s r r1 Hr1) p2 Hv2. cbn [pop set_pop] in Hv2. rewrite Hv1 in Hv2.
  set (g2 := set_pop (set_pop g p1) p2). set (c := view (pop g)) in *.
  assert (Hpl : p ∈ l) by (unfold l; set_solver). assert (Hnl : n ∈ l) by (unfold l; set_solver).
  destruct (seg_live _ _ _ p (proj2 Hch) Hpl) as [pn Hpn]. destruct (seg_live _ _ _ n (proj2 Hch) Hnl) as [nn Hnn].
  assert (c_node (view (pop g2)) p = Some pn) as Hpn2 by (cbn; by rewrite Hv2).
  assert (c_node (view (pop g2)) n = Some nn) as Hnn2 by (cbn; by rewrite Hv2).
  rewrite (group_bind _ _ _ _ _ (run_load_node _ _ _ Hpn2)), (group_bind _ _ _ _ _ (run_load_node _ _ _ Hnn2)).
  call (run_store_node _ p pn (mkListnode (node_data pn) (next nn)) Hpn2) p3 Hv3.
  cbn [pop set_pop g2] in Hv3. set (g3 := set_pop g2 p3).
  assert (Hnp : n <> p) by apply (NoDup_pair _ _ _ _ (proj1 Hch)).
  assert (c_node (view (pop g3)) n = Some nn) as Hnn3
    by (cbn; rewrite Hv3, (c_node_insert _ p pn), decide_False by done; by rewrite Hv2).
  destruct (free_node_spec g3 l n nn Hnn3 Hd Hf) as (g4 & E4 & Hv4 & Hd4).
  rewrite (group_bind _ _ _ _ _ E4). cbn [pop set_pop g3] in Hv4.
  assert (c_root (view (pop g4)) = Some (o, s, r1)) as Hr4 by (by rewrite Hv4, Hv3, Hv2).
  rewrite (group_bind _ _ _ _ _ (run_load_root _ _ _ _ Hr4)).
  assert (chained (view (pop g4)) (l1 ++ p :: l2)) as Hch4.
  { rewrite Hv4, Hv3. apply chained_remove; [|done..]. rewrite Hv2. by apply chained_with_root. }
  assert (match node_count_dram g4 with None => True | Some z => z = Z.of_nat (length (l1 ++ p :: l2)) - 1 end) as Hc4.
  { rewrite Hd4. cbn. destruct (node_count_dram g); cbn; [lia|done]. }
  destruct (last_remove _ _ _ _ _ (proj1 Hch) Ht) as [Hlast Hcase].
  assert (Hh' : (l1 ++ p :: l2) !! 0%nat = Some (head r)).
  { unfold l in Hh. destruct l1; cbn in *; congruence. }
  cbn [tail r1]. destruct (decide (tail r = n)) as [Etn|Etn].
  - rewrite Etn, Z.eqb_refl.
    destruct (run_store_root _ o s r1 (mkListroot (writeFront r1) (node_count r1) (Pmem.gid r1) (head r1) p) Hr4)
      as (p5 & E5 & Hv5).
    eexists. split; [exact E5|]. split; [|done]. cbn [pop set_pop]. rewrite Hv5.
    split; [|by apply chained_with_root]. do 3 eexists. split; [done|]. cbn. naive_solver lia.
  - destruct Hcase as [?|[_ Hin]]; [done|].
    rewrite (oid_off_neq c l OID_NULL n (tail r)) by (apply Hch || (unfold l; set_solver) || done).
    exists g4. split; [done|]. split; [|done]. split; [|done].
    do 3 eexists. split; [done|]. cbn. naive_solver lia.
Qed.

(** ** What a sequence of calls does to the list *)

Inductive op_spec : list PMEMoid -> gop -> list PMEMoid -> Prop :=
  | spec_append l n : OID_IS_NULL n = false -> n ∉ l -> op_spec l Append (l ++ [n])
  | spec_remove l1 p n l2 : op_spec (l1 ++ p :: n :: l2) (RemoveAfter (length l1)) (l1 ++ p :: l2).

Inductive ops_spec : list PMEMoid -> list gop -> list PMEMoid -> Prop :=
  | ops_nil l : ops_spec l [] l
  | ops_cons l o l1 os l2 : op_spec l o l1 -> ops_spec l1 os l2 -> ops_spec l (o :: os) l2.

(** A removal needs a node after the one it names; [n] is the length of the
    list. *)
Fixpoint valid_ops (n : nat) (os : list gop) : bool :=
  match os with
  | [] => true
  | Append :: os => valid_ops (S n) os
  | RemoveAfter i :: os => (S (S i) <=? n)%nat && valid_ops (pred n) os
  end.

Lemma run_append_spec g l :
  list_ok g l -> Z.of_nat (length l) < INT_MAX ->
  (run_op Append g = (Throw, g)) \/
  (exists n g', run_op Append g = (Ret tt, g') /\ op_spec l Append (l ++ [n]) /\ list_ok g' (l ++ [n])).
Proof.
  intros Hok Hf. unfold run_op.
  destruct (alloc_node_spec g l Hok) as [(? & E & ->)|(o & n & g1 & E & Ho & Hni & Hv & Hu & Hn & Hd)];
    [unfold fits; lia| |].
  - left. by apply group_throw.
  - right. rewrite (group_bind _ _ _ _ _ E). destruct Hok as [[Hr [Hnd Hs]] Hc].
    assert (list_in (view (pop g1)) l) as Hl.
    { rewrite Hv. split; [done|]. split; [done|]. eapply seg_ext; [|exact Hs].
      intros x Hx. rewrite c_node_fresh by done. rewrite decide_False; [done|]. congruence. }
    destruct (add_node_to_tail_spec g1 l o n Hl Hf Ho Hni) as (p & Ea & Hl');
      [by rewrite Hv, c_node_fresh, decide_True|done|].
    exists o, (set_pop g1 p). split; [done|]. split; [by constructor|]. split; [done|].
    cbn. rewrite Hd. destruct (node_count_dram g); cbn; [|done]. rewrite length_app. cbn. lia.
Qed.

Lemma run_remove_spec g l i :
  list_ok g l -> fits l -> (S i < length l)%nat ->
  exists g' l', run_op (RemoveAfter i) g = (Ret tt, g') /\ op_spec l (RemoveAfter i) l' /\
    list_ok g' l' /\ length l = S (length l').
Proof.
  intros Hok Hf Hi.
  destruct (lookup_lt_is_Some_2 l i) as [p Hp]; [lia|].
  destruct (lookup_lt_is_Some_2 l (S i) Hi) as [n Hn].
  assert (l = take i l ++ p :: n :: drop (S (S i)) l) as El.
  { rewrite <- (take_drop i l) at 1. by rewrite (drop_S l p i), (drop_S l n (S i)). }
  assert (length (take i l) = i) as Ei by (rewrite length_take; lia).
  pose proof Hok as [[(o & s & r & Hr & Hs & Ho & Hh & Ht & Hc) [Hnd Hsg]] Hd].
  cbn [run_op]. unfold get_pm_root.
  destruct (run_call_root g o s r sizeof_listroot Hr Hs) as (p1 & E1 & Hv1).
  assert (Hg : (call_root sizeof_listroot ≫= fun meta_root =>
      if OID_IS_NULL meta_root then mret None else mret (Some meta_root)) g = (Ret (Some o), set_pop g p1)).
  { rewrite (group_bind _ _ _ _ _ E1), Ho. done. }
  rewrite (group_bind _ _ _ _ _ Hg). set (g1 := set_pop g p1).
  assert (list_ok g1 l) as Hok1 by (unfold list_ok; cbn; by rewrite Hv1).
  assert (c_root (view (pop g1)) = Some (o, s, r)) as Hr1 by (cbn; congruence).
  rewrite (group_bind _ _ _ _ _ (run_load_root _ _ _ _ Hr1)).
  assert (first_of l OID_NULL = head r) as <- by (destruct l; cbn in *; congruence).
  rewrite (group_bind _ _ _ _ _ (walk_spec g1 l OID_NULL i p (proj2 (proj2 (proj1 Hok1))) Hp)).
  destruct Hok1 as [[Hr1' [Hnd1 Hs1]] Hd1]. pose proof Hs1 as Hs1'. rewrite El in Hs1'.
  apply seg_app in Hs1' as (_ & (_ & pn & Hpn & Hnx) & _). cbn [first_of] in Hnx.
  rewrite (group_bind _ _ _ _ _ (run_load_node _ _ _ Hpn)), Hnx.
  destruct (delete_node_spec g1 (take i l) p n (drop (S (S i)) l)) as (g' & Eg & Hok');
    [rewrite <- El; by repeat split|by rewrite <- El|].
  exists g', (take i l ++ p :: drop (S (S i)) l). split; [done|]. split; [|split; [done|]].
  - pose proof (spec_remove (take i l) p n (drop (S (S i)) l)) as Hsp.
    by rewrite <- El, Ei in Hsp.
  - rewrite El at 1. rewrite !length_app. cbn. lia.
Qed.

Lemma run_ops_spec g l os :
  list_ok g l -> valid_ops (length l) os = true ->
  Z.of_nat (length l) + Z.of_nat (length os) <= INT_MAX ->
  exists res g' l', run_ops os g = (res, g') /\ list_ok g' l' /\
    (res = Ret tt /\ ops_spec l os l' \/
     res = Throw /\ exists os1 os2, os = os1 ++ Append :: os2 /\ ops_spec l os1 l').
Proof.
  revert g l. induction os as [|[|i] os IH]; intros g l Hok Hv Hf; cbn [valid_ops length run_ops] in *.
  - exists (Ret tt), g, l. split; [done|]. split; [done|]. left. split; [done|constructor].
  - destruct (run_append_spec g l Hok) as [E|(n & g1 & E & Hs & Hok1)]; [lia| |].
    + exists Throw, g, l. split; [by apply group_throw|]. split; [done|]. right. split; [done|].
      exists [], os. split; [done|constructor].
    + rewrite (group_bind _ _ _ _ _ E).
      destruct (IH g1 (l ++ [n]) Hok1) as (res & g' & l' & Er & Hok' & Hres);
        [rewrite length_app; cbn; by rewrite Nat.add_1_r|rewrite length_app; cbn; lia|].
      exists res, g', l'. split; [done|]. split; [done|].
      destruct Hres as [[-> Ho]|(-> & os1 & os2 & -> & Ho)]; [left; split; [done|by econstructor]|].
      right. split; [done|]. exists (Append :: os1), os2. split; [done|by econstructor].
  - apply andb_true_iff in Hv as [Hi%Nat.leb_le Hv].
    destruct (run_remove_spec g l i Hok) as (g1 & l1 & E & Hs & Hok1 & Hl); [unfold fits; lia|lia|].
    rewrite (group_bind _ _ _ _ _ E).
    destruct (IH g1 l1 Hok1) as (res & g' & l' & Er & Hok' & Hres); [by rewrite Hl in Hv|lia|].
    exists res, g', l'. split; [done|]. split; [done|].
    destruct Hres as [[-> Ho]|(-> & os1 & os2 & -> & Ho)]; [left; split; [done|by econstructor]|].
    right. split; [done|]. exists (RemoveAfter i :: os1), os2. split; [done|by econstructor].
Qed.

(** ** Opening a group *)

Lemma seg_non_null c l e o : seg c l e -> o ∈ l -> (oid_off o =? 0) = false.
Proof.
  induction l as [|x l IH]; cbn [seg]; [set_solver|].
  intros [(Hx & _) Hs] [->|Ho]%elem_of_cons; auto.
Qed.

Lemma check_list_exist_spec g l :
  list_in (view (pop g)) l ->
  exists p, check_list_exist g = (Ret true, set_pop g p) /\ view p = view (pop g).
Proof.
  intros [(o & s & r & Hr & Hs & Ho & Hh & Ht & Hc) [Hnd Hsg]].
  unfold check_list_exist. destruct (run_call_root g o s r sizeof_listroot Hr Hs) as (p & E & Hv).
  exists p. split; [|done]. rewrite (group_bind _ _ _ _ _ E), Ho.
  assert (c_root (view (pop (set_pop g p))) = Some (o, s, r)) as Hr1 by (cbn; congruence).
  rewrite (group_bind _ _ _ _ _ (run_load_root _ _ _ _ Hr1)), Hc.
  rewrite (seg_non_null _ _ _ (head r) Hsg) by (by eapply list_elem_of_lookup_2).
  rewrite (Z.eqb_sym 0), (seg_non_null _ _ _ (tail r) Hsg).
  - destruct l; [done|]. done.
  - apply last_Some in Ht as [l' ->]. set_solver.
Qed.

Lemma Group_make_reopen p l gid :
  list_in (view p) l ->
  exists g, Group_make p gid = (Ret tt, g) /\ view (pop g) = view p /\ list_ok g l /\
    gid_dram g = gid /\ node_count_dram g = None /\ tail_dram g = None /\ offset_dram g = None.
Proof.
  intros Hl. unfold Group_make, Group_init.
  destruct (check_list_exist_spec (mkGroup _ p gid None None None) l Hl) as (p1 & E & Hv).
  rewrite (group_bind _ _ _ _ _ E). eexists. split; [done|]. cbn in *. unfold list_ok. cbn.
  by rewrite Hv.
Qed.

(** No list in a pool: the root object is missing, or has no head or tail. *)
Definition no_list (c : contents) : Prop :=
  match c_root c with
  | None => True
  | Some (o, _, r) => OID_IS_NULL o = false /\ (oid_off (head r) = 0 \/ oid_off (tail r) = 0)
  end.

Lemma call_root_cases g size o g' :
  no_list (view (pop g)) -> call_root size g = (Ret o, g') ->
  no_list (view (pop g')) /\ g' = set_pop g (pop g') /\
  (OID_IS_NULL o = true \/
   OID_IS_NULL o = false /\ exists s r, c_root (view (pop g')) = Some (o, s, r) /\ size <= s).
Proof.
  intros Hn E. pose proof (pmem_root_law (pop g) size) as Hl.
  unfold call_root, on_pool in E. destruct (pmemobj_root (pop g) size) as [o1 p] eqn:Ep.
  simplify_eq. cbn [fst snd pop] in *. unfold root_law, no_list in *.
  destruct (c_root (view (pop g))) as [[[o0 s0] r0]|] eqn:Er.
  - destruct (size <=? s0) eqn:Es.
    + destruct Hl as [-> Hv]. rewrite Hv, Er. split; [done|]. split; [done|]. right.
      split; [apply Hn|]. exists s0, r0. split; [done|lia].
    + destruct Hl as [[Ho Hv]|[Ho Hv]]; rewrite Hv; cbn [c_root].
      * split; [naive_solver|]. split; [done|]. right. split; [done|]. by exists size, r0.
      * rewrite Er. auto.
  - destruct Hl as [[Ho Hv]|[Ho Hv]]; rewrite Hv; cbn [c_root].
    + split; [cbn; auto|]. split; [done|]. right. split; [done|]. by exists size, zero_root.
    + rewrite Er. auto.
Qed.

Lemma call_root_returns g size : exists o g', call_root size g = (Ret o, g').
Proof. unfold call_root, on_pool. destruct (pmemobj_root (pop g) size) as [o p]. by do 2 eexists. Qed.

Lemma check_list_exist_false g :
  no_list (view (pop g)) ->
  exists p, check_list_exist g = (Ret false, set_pop g p) /\ no_list (view p).
Proof.
  intros Hn. destruct (call_root_returns g sizeof_listroot) as (o & g1 & E).
  destruct (call_root_cases _ _ _ _ Hn E) as (Hn1 & Eg & Ho).
  exists (pop g1). rewrite <- Eg. split; [|done].
  unfold check_list_exist. rewrite (group_bind _ _ _ _ _ E).
  destruct Ho as [->|(-> & s & r & Hr & Hs)]; [done|].
  rewrite (group_bind _ _ _ _ _ (run_load_root _ _ _ _ Hr)).
  unfold no_list in Hn1. rewrite Hr in Hn1. destruct Hn1 as [_ [Hz|Hz]]; rewrite Hz;
    rewrite ?Z.eqb_refl, ?orb_true_r; done.
Qed.

(** Creating a list: it ends with the one-node list in the pool, or without a
    list when libpmemobj has no room. *)
Lemma Group_make_create p gid :
  no_list (view p) ->
  exists res g, Group_make p gid = (res, g) /\
    (res = Ret tt /\ no_list (view (pop g)) \/
     res = Throw /\ no_list (view (pop g)) \/
     res = Ret tt /\ exists n, list_ok g [n] /\ gid_dram g = gid /\ tail_dram g = Some n /\
       offset_dram g = Some 0 /\ node_count_dram g = Some 0).
Proof.
  intros Hn. unfold Group_make, Group_init. set (g0 := mkGroup _ p gid None None None).
  destruct (check_list_exist_false g0 Hn) as (p1 & E1 & Hn1). rewrite (group_bind _ _ _ _ _ E1).
  destruct (call_root_returns (set_pop g0 p1) sizeof_listnode) as (o & g2 & E2).
  destruct (call_root_cases (set_pop g0 p1) _ _ _ Hn1 E2) as (Hn2 & Eg2 & Ho).
  assert (node_count_dram g2 = None) as Hc2 by (by rewrite Eg2).
  rewrite (group_bind _ _ _ _ _ E2).
  destruct Ho as [->|(Ho & s & r & Hr & Hs)]; [by do 2 eexists; split; [done|]; left|].
  rewrite Ho, (group_bind _ _ _ _ _ (run_load_root _ _ _ _ Hr)).
  set (r1 := mkListroot (writeFront r) 1 gid (head r) (tail r)).
  call (run_store_root g2 o s r r1 Hr) p3 Hv3. set (g3 := set_pop g2 p3).
  destruct (pmemobj_alloc p3 sizeof_listnode listnode_construct) as [[n p4]|] eqn:Ea.
  2:{ exists Throw, g3. split; [apply group_throw, group_throw; unfold call_alloc; cbn; by rewrite Ea|].
      right; left. split; [done|]. unfold no_list in *. cbn. rewrite Hv3. cbn. rewrite Hr in Hn2. done. }
  destruct (pmem_alloc_law _ _ _ _ _ Ea) as (Hnn & Hu & Hfr & nd & Hv4).
  assert (alloc_node g3 = (Ret n, set_pop g3 p4)) as E4.
  { unfold alloc_node. rewrite (group_bind call_alloc _ g3 n (set_pop g3 p4))
      by (unfold call_alloc; cbn; by rewrite Ea).
    rewrite (group_bind (add_node_count_dram 1) _ _ tt (set_pop g3 p4))
      by (unfold add_node_count_dram; cbn; by rewrite Hc2).
    by rewrite Hnn. }
  rewrite (group_bind _ _ _ _ _ E4).
  assert (c_root (view (pop (set_pop g3 p4))) = Some (o, s, r1)) as Hr4 by (cbn; by rewrite Hv4, Hv3).
  rewrite (group_bind _ _ _ _ _ (run_load_root _ _ _ _ Hr4)).
  call (run_store_root _ o s r1 (mkListroot (writeFront r1) (node_count r1) (Pmem.gid r1) n n) Hr4) p5 Hv5.
  do 2 eexists. split; [done|]. right; right. split; [done|]. exists n. split; [|done].
  split; [|done]. change (list_in (view p5) [n]). rewrite Hv5. cbn [pop set_pop]. split.
  - do 3 eexists. split; [done|]. split; [etrans; [|exact Hs]; done|]. done.
  - apply chained_with_root. split; [apply NoDup_singleton|]. cbn [seg first_of].
    split; [|done]. split; [done|]. exists (listnode_construct nd). split; [|done].
    rewrite Hv4. etrans; [exact (c_node_fresh (view p3) n _ n Hu)|]. by rewrite decide_True.
Qed.

End Spec.

(** ** Pool files and the group manager *)

Definition DEFAULT_POOL_LAYOUT_NAME : bytes := str "emerald".
Definition DEFAULT_POOL_MODE : Z := 0x1b6.
Definition DEFAULT_FSDAX_DIR : bytes := str "/pmem0/emerald/".
Definition DEFAULT_PARTITION_NAME : bytes := str "group_".
Definition DEFAULT_PARTITION_NUMS : nat := 4.

(** The libpmemobj calls on pool files: [None] is the null pool. *)
Class PMEMfiles (fs pool : Type) := {
  pmemobj_open : fs -> bytes -> bytes -> option pool;
  pmemobj_create : fs -> bytes -> bytes -> Z -> Z -> option pool * fs
}.

(** [class FsDaxDevice] *)
Record FsDaxDevice {pool : Type} := mkFsDaxDevice {
  dev_pop : option pool;
  pool_path : bytes;
  pool_layout_name : bytes;
  dev_size : Z
}.
Arguments FsDaxDevice : clear implicits.

Section Manager.
Context {fs pool : Type} `{PMEMobj pool} `{PMEMfiles fs pool}.

Definition nonempty_or (s dflt : bytes) : bytes := match s with [] => dflt | _ => s end.

Definition FsDaxDevice_open (d : fs) (dev : FsDaxDevice pool) (path layout : bytes)
  : bool * FsDaxDevice pool :=
  let filepath := nonempty_or path (pool_path dev) in
  let name := nonempty_or layout (pool_layout_name dev) in
  let p := pmemobj_open d filepath name in
  (bool_decide (is_Some p), mkFsDaxDevice _ p (pool_path dev) (pool_layout_name dev) (dev_size dev)).

Definition FsDaxDevice_create (d : fs) (dev : FsDaxDevice pool) (path layout : bytes)
  : bool * FsDaxDevice pool * fs :=
  let filepath := nonempty_or path (pool_path dev) in
  let name := nonempty_or layout (pool_layout_name dev) in
  let '(p, d) := pmemobj_create d filepath name (dev_size dev) DEFAULT_POOL_MODE in
  (bool_decide (is_Some p), mkFsDaxDevice _ p (pool_path dev) (pool_layout_name dev) (dev_size dev), d).

(** The constructor: open the pool file, or create it. *)
Definition FsDaxDevice_make (d : fs) (path layout : bytes) (size : Z) : FsDaxDevice pool * fs :=
  let dev := mkFsDaxDevice _ None path layout size in
  let '(opened, dev) := FsDaxDevice_open d dev path layout in
  if opened : bool then (dev, d)
  else let '(_, dev, d) := FsDaxDevice_create d dev path layout in (dev, d).

Definition partition_size : Z := 50 * Z.shiftl 1 30.

Definition partition_path (i : nat) : bytes :=
  DEFAULT_FSDAX_DIR ++ DEFAULT_PARTITION_NAME ++ NumberToString (Z.of_nat i).

(** The loop of [GroupManager::GroupManager], for partitions [i, i+1, ...]: a
    null pool is dereferenced by the first call on it, and an exception of a
    group leaves the constructor. *)
Fixpoint make_partitions (n i : nat) (d : fs) : outcome (list (bytes * Group pool)) * fs :=
  match n with
  | O => (Ret [], d)
  | S n =>
      let filepath := partition_path i in
      let '(dev, d) := FsDaxDevice_make d filepath DEFAULT_POOL_LAYOUT_NAME partition_size in
      match dev_pop dev with
      | None => (Undefined, d)
      | Some p =>
          match Group_make p (Z.of_nat i) with
          | (Ret _, g) =>
              match make_partitions n (S i) d with
              | (Ret gs, d) => (Ret ((filepath, g) :: gs), d)
              | (r, d) => (r, d)
              end
          | (Throw, _) => (Throw, d)
          | (Undefined, _) => (Undefined, d)
          end
      end
  end.

Definition GroupManager_make (d : fs) : outcome (list (bytes * Group pool)) * fs :=
  make_partitions DEFAULT_PARTITION_NUMS 0 d.

End Manager.
