(* ===== verification/GroupSpec.v ===== *)
(** * Properties of the groups

    The theorems about [Group]: creating the list, working on it and opening it
    again.  [sim] is a small pool that keeps its contents and has room for a fixed
    number of nodes; it shows that the assumptions on libpmemobj can hold. *)

From S2P Require Import Prelude Slice Logging Pmem Group.

(** ** A pool of bounded size *)

Record sim := mkSim { sim_view : contents; sim_room : nat }.

(** An offset above every live object. *)
Definition top_offset (objs : gmap Z listnode) : Z :=
  map_fold (fun k _ m => Z.max k m) 4096 objs.

Lemma top_offset_above objs k n : objs !! k = Some n -> k <= top_offset objs.
Proof.
  revert k n. unfold top_offset.
  apply (map_fold_weak_ind (fun r m => forall k n, m !! k = Some n -> k <= r) (fun k _ m => Z.max k m));
    [done|].
  intros i x m r Hi IH k n. destruct (decide (k = i)) as [->|]; [lia|].
  rewrite lookup_insert_ne by done. intros Hk. pose proof (IH k n Hk). lia.
Qed.

Lemma top_offset_pos objs : 4096 <= top_offset objs.
Proof.
  unfold top_offset.
  apply (map_fold_weak_ind (fun r _ => 4096 <= r) (fun k _ m => Z.max k m)); [done|]. intros. lia.
Qed.

Definition sim_empty (uuid : Z) (room : nat) : sim := mkSim (mkContents uuid None ∅) room.

#[export] Instance sim_PMEMobj : PMEMobj sim := {
  pmemobj_root p size :=
    match c_root (sim_view p) with
    | Some (o, s, r) =>
        if size <=? s then (o, p)
        else (mkOid (c_uuid (sim_view p)) 64,
              mkSim (with_root (sim_view p) (Some (mkOid (c_uuid (sim_view p)) 64, size, r))) (sim_room p))
    | None =>
        (mkOid (c_uuid (sim_view p)) 64,
         mkSim (with_root (sim_view p) (Some (mkOid (c_uuid (sim_view p)) 64, size, zero_root))) (sim_room p))
    end;
  pmemobj_alloc p size ctor :=
    match sim_room p with
    | O => None
    | S room =>
        let off := top_offset (c_objs (sim_view p)) + 1 in
        Some (mkOid (c_uuid (sim_view p)) off,
              mkSim (with_objs (sim_view p)
                       (<[off := ctor (mkListnode ∅ OID_NULL)]> (c_objs (sim_view p)))) room)
    end;
  pmemobj_free p o :=
    mkSim (with_objs (sim_view p) (delete (oid_off o) (c_objs (sim_view p)))) (S (sim_room p));
  root_at p o :=
    match c_root (sim_view p) with
    | Some (o', _, r) => if decide (o = o') then Some r else None
    | None => None
    end;
  set_root_at p o r' :=
    match c_root (sim_view p) with
    | Some (o', s, r) => mkSim (with_root (sim_view p) (Some (o', s, r'))) (sim_room p)
    | None => p
    end;
  node_at p o := c_node (sim_view p) o;
  set_node_at p o n :=
    mkSim (with_objs (sim_view p) (<[oid_off o := n]> (c_objs (sim_view p)))) (sim_room p)
}.

#[export] Instance sim_laws : PMEMobjLaws sim sim_view.
Proof.
  constructor.
  - intros p size. unfold root_law. cbn. destruct (c_root (sim_view p)) as [[[o s] r]|] eqn:E.
    + destruct (size <=? s); [done|]. by left.
    + by left.
  - intros p size ctor o p'. cbn. destruct (sim_room p) as [|room]; [done|]. intros [= <- <-].
    pose proof (top_offset_pos (c_objs (sim_view p))). split; [unfold OID_IS_NULL; cbn; lia|].
    split; [done|]. split; [|by eexists].
    destruct (c_objs (sim_view p) !! _) eqn:E; [|done]. apply top_offset_above in E. cbn in E. lia.
  - done.
  - done.
  - intros p o s r r' Hr. cbn. by rewrite Hr.
  - done.
  - done.
Qed.

(** ** The theorems *)

Section Theorems.
Context {pool : Type} `{PMEMobj pool} {view : pool -> contents} {LAWS : PMEMobjLaws pool view}.



(** C32: When every partition's pool file can be opened and holds a list, the group
    manager returns one group per partition, in order, each at its own path and
    over a pool that still holds the list it was closed with, and creates no
    file. *)
Theorem group_manager_reopen {fs : Type} `{PMEMfiles fs pool} (d : fs) (pools : list pool) :
  length pools = DEFAULT_PARTITION_NUMS ->
  (forall i p, pools !! i = Some p ->
     pmemobj_open d (partition_path i) DEFAULT_POOL_LAYOUT_NAME = Some p /\
     exists l, list_in (view p) l) ->
  exists gs, GroupManager_make d = (Ret gs, d) /\
    map fst gs = map partition_path (seq 0 DEFAULT_PARTITION_NUMS) /\ NoDup (map fst gs) /\
    Forall2 (fun g p => view (pop (snd g)) = view p) gs pools.
Proof.
  intros Hlen Hp.
  assert (Hgo : forall n i, (n + i = DEFAULT_PARTITION_NUMS)%nat ->
    exists gs, make_partitions n i d = (Ret gs, d) /\
      map fst gs = map partition_path (seq i n) /\
      Forall2 (fun g p => view (pop (snd g)) = view p) gs (drop i pools)).
  { induction n as [|n IH]; intros i Hi.
    - exists []. split; [done|]. split; [done|]. rewrite drop_ge by lia. constructor.
    - destruct (lookup_lt_is_Some_2 pools i) as [p Hip]; [lia|].
      destruct (Hp i p Hip) as (Eo & l & Hl). cbn [make_partitions].
      unfold FsDaxDevice_make, FsDaxDevice_open. cbn [pool_path pool_layout_name dev_size].
      assert (nonempty_or (partition_path i) (partition_path i) = partition_path i) as ->
        by (by destruct (partition_path i)).
      change (nonempty_or DEFAULT_POOL_LAYOUT_NAME _) with DEFAULT_POOL_LAYOUT_NAME.
      rewrite Eo. cbn [dev_pop]. rewrite bool_decide_true by (by exists p). cbn [dev_pop].
      destruct (Group_make_reopen p l (Z.of_nat i) Hl) as (g & -> & Hv & _).
      destruct (IH (S i)) as (gs & -> & Hm & Hf); [lia|].
      exists ((partition_path i, g) :: gs). split; [done|]. split; [cbn; by rewrite Hm|].
      rewrite (drop_S _ p) by done. by constructor. }
  destruct (Hgo DEFAULT_PARTITION_NUMS 0%nat eq_refl) as (gs & E & Hm & Hf).
  exists gs. split; [done|]. split; [done|]. split; [|by rewrite drop_0 in Hf].
  rewrite Hm. apply (bool_decide_unpack _). vm_compute. done.
Qed.

End Theorems.

(** ** Witnesses *)

Definition sim_group : Group sim := snd (Group_make (sim_empty 7 3) 0).
Definition sim_list : list PMEMoid := [mkOid 7 4097].

Lemma sim_list_in : list_in (sim_view (pop sim_group)) sim_list.
Proof.
  split.
  - do 3 eexists. split; [vm_compute; reflexivity|]. repeat split; vm_compute; (reflexivity || discriminate).
  - split; [apply NoDup_singleton|]. split; [|done]. split; [done|]. eexists. split; vm_compute; reflexivity.
Qed.



(** Pool files as an association from path to pool; a missing one is created
    empty. *)
Definition sim_files : Type := list (bytes * sim).

Definition sim_find (d : sim_files) (path : bytes) : option sim :=
  snd <$> find (fun x => slice_eq (fst x) path) d.

#[export] Instance sim_PMEMfiles : PMEMfiles sim_files sim := {
  pmemobj_open d path layout := sim_find d path;
  pmemobj_create d path layout size mode := (Some (sim_empty 8 4), (path, sim_empty 8 4) :: d)
}.

Definition sim_dir : sim_files :=
  map (fun i => (partition_path i, pop sim_group)) (seq 0 DEFAULT_PARTITION_NUMS).

Lemma group_manager_reopen_witness :
  exists gs, GroupManager_make (pool := sim) sim_dir = (Ret gs, sim_dir) /\
    map fst gs = map partition_path (seq 0 DEFAULT_PARTITION_NUMS) /\ NoDup (map fst gs) /\
    Forall2 (fun g p => sim_view (pop (snd g)) = sim_view p) gs (replicate 4 (pop sim_group)).
Proof.
  apply (group_manager_reopen sim_dir (replicate 4 (pop sim_group))); [reflexivity|].
  intros i p Hi. apply lookup_replicate_1 in Hi as [-> Hi]. split.
  - do 4 (destruct i as [|i]; [vm_compute; reflexivity|]). lia.
  - exists sim_list. exact sim_list_in.
Defined.
