(* ===== verification/Version.v ===== *)
(** * Versions

    [Version] of [db/version_set.h] and [db/version_set.cc]: the files of each
    level, the searches over them, point lookups, and the choice of inputs for
    compactions.  A pointer to a file's metadata is an element of a type [P]; the
    functions here read its immutable fields only, through [meta]. *)

From S2P Require Import Prelude Slice Coding Status Logging Comparator DbFormat VersionEdit Format Iterator Options TwoLevel.

(** A 64-bit signed value from an unsigned one. *)
Definition i64 (z : Z) : Z := if u64 z <? 2 ^ 63 then u64 z else u64 z - 2 ^ 64.

Section Limits.

Context (options : Options).

Definition TargetFileSize : Z := max_file_size options.
Definition MaxGrandParentOverlapBytes : Z := i64 (u64 (10 * TargetFileSize)).
Definition ExpandedCompactionByteSizeLimit : Z := i64 (u64 (25 * TargetFileSize)).
Definition MaxFileSizeForLevel (level : Z) : Z := TargetFileSize.

End Limits.

Section Files.

Context (c : Comparator) {P : Type} (meta : P -> FileMetaData).

Notation icmp := (ikey_Compare c).
Notation ucmp := (Compare c).

Definition f_smallest (f : P) : bytes := rep_ (smallest (meta f)).
Definition f_largest (f : P) : bytes := rep_ (largest (meta f)).
Definition f_start (f : P) : bytes := InternalKey_user_key (smallest (meta f)).
Definition f_limit (f : P) : bytes := InternalKey_user_key (largest (meta f)).

Definition TotalFileSize (files : list P) : Z :=
  fold_left (fun sum f => i64 (u64 (u64 sum + file_size (meta f)))) files 0.

(** ** Searching a level *)

(** The loop of [FindFile]; [None] is a read past the end of the vector. *)
Fixpoint find_file_loop (fuel : nat) (files : list P) (key : bytes) (left right : Z) : option Z :=
  match fuel with
  | O => None
  | S fuel =>
      if left <? right then
        let mid := u32 (left + right) / 2 in
        f ← files !! Z.to_nat mid;
        if icmp (f_largest f) key <? 0
        then find_file_loop fuel files key (u32 (mid + 1)) right
        else find_file_loop fuel files key left mid
      else Some right
  end.

(** Each turn at least halves the interval; one for each file is plenty. *)
Definition FindFile (files : list P) (key : bytes) : option Z :=
  let right := u32 (Z.of_nat (length files)) in
  find_file_loop (S (length files)) files key 0 right.

Definition AfterFile (user_key : option bytes) (f : P) : bool :=
  match user_key with
  | Some k => 0 <? ucmp k (f_limit f)
  | None => false
  end.

Definition BeforeFile (user_key : option bytes) (f : P) : bool :=
  match user_key with
  | Some k => ucmp k (f_start f) <? 0
  | None => false
  end.

Definition SomeFileOverlapsRange (disjoint_sorted_files : bool) (files : list P)
    (smallest_user_key largest_user_key : option bytes) : option bool :=
  if negb disjoint_sorted_files then
    Some (existsb (fun f => negb (AfterFile smallest_user_key f || BeforeFile largest_user_key f)) files)
  else
    index ← match smallest_user_key with
            | Some k => FindFile files (rep_ (InternalKey_make k kMaxSequenceNumber kValueTypeForSeek))
            | None => Some 0
            end;
    if Z.of_nat (length files) <=? index then Some false
    else
      f ← files !! Z.to_nat index;
      Some (negb (BeforeFile largest_user_key f)).

(** ** [LevelFileNumIterator] *)

Record LevelFileNumIterator := mkLevelIter {
  flist_ : list P;
  index_ : Z
}.

Definition LevelFileNumIterator_new (flist : list P) : LevelFileNumIterator :=
  mkLevelIter flist (u32 (Z.of_nat (length flist))).

Definition Level_Valid (it : LevelFileNumIterator) : bool := index_ it <? Z.of_nat (length (flist_ it)).

Definition Level_Seek (it : LevelFileNumIterator) (target : bytes) : option LevelFileNumIterator :=
  i ← FindFile (flist_ it) target; Some (mkLevelIter (flist_ it) i).
Definition Level_SeekToFirst (it : LevelFileNumIterator) : option LevelFileNumIterator :=
  Some (mkLevelIter (flist_ it) 0).
Definition Level_SeekToLast (it : LevelFileNumIterator) : option LevelFileNumIterator :=
  Some (mkLevelIter (flist_ it)
    (match flist_ it with [] => 0 | _ => u32 (Z.of_nat (length (flist_ it)) - 1) end)).
Definition Level_Next (it : LevelFileNumIterator) : option LevelFileNumIterator :=
  if negb (Level_Valid it) then None else Some (mkLevelIter (flist_ it) (u32 (index_ it + 1))).
Definition Level_Prev (it : LevelFileNumIterator) : option LevelFileNumIterator :=
  if negb (Level_Valid it) then None
  else if index_ it =? 0 then Some (mkLevelIter (flist_ it) (u32 (Z.of_nat (length (flist_ it)))))
  else Some (mkLevelIter (flist_ it) (index_ it - 1)).

Definition file_value (f : P) : bytes := EncodeFixed64 (number (meta f)) ++ EncodeFixed64 (file_size (meta f)).

Definition Level_key (it : LevelFileNumIterator) : bytes :=
  match flist_ it !! Z.to_nat (index_ it) with Some f => f_largest f | None => [] end.
Definition Level_value (it : LevelFileNumIterator) : bytes :=
  match flist_ it !! Z.to_nat (index_ it) with Some f => file_value f | None => [] end.

(** ** The files that may hold a key, newest first *)

Definition NewestFirst (a b : P) : bool := number (meta b) <? number (meta a).

(** [std::sort] by [NewestFirst]: files have distinct numbers. *)
Definition newer_or_same (a b : P) : Prop := number (meta b) <= number (meta a).
#[export] Instance newer_dec a b : Decision (newer_or_same a b) := Z_le_dec _ _.
Definition sort_newest (files : list P) : list P := merge_sort newer_or_same files.

Definition holds_key (user_key : bytes) (f : P) : bool :=
  (0 <=? ucmp user_key (f_start f)) && (ucmp user_key (f_limit f) <=? 0).

(** The calls of [func] in a level above zero. *)
Definition level_candidate (files : list P) (user_key internal_key : bytes) : option (list P) :=
  match files with
  | [] => Some []
  | _ =>
      index ← FindFile files internal_key;
      if index <? Z.of_nat (length files) then
        f ← files !! Z.to_nat index;
        if ucmp user_key (f_start f) <? 0 then Some [] else Some [f]
      else Some []
  end.

(** [func] on each file in turn while it asks for more; the flag tells whether it
    stopped the search. *)
Fixpoint call_each {S} (func : S -> Z -> P -> S * bool) (level : Z) (fs : list P) (s : S) : S * bool :=
  match fs with
  | [] => (s, true)
  | f :: fs => let '(s, more) := func s level f in if more then call_each func level fs s else (s, false)
  end.

Fixpoint for_each_level {S} (func : S -> Z -> P -> S * bool) (levels : list (list P)) (level : Z)
    (user_key internal_key : bytes) (s : S) : option S :=
  match levels with
  | [] => Some s
  | files :: levels =>
      fs ← level_candidate files user_key internal_key;
      let '(s, more) := call_each func level fs s in
      if more then for_each_level func levels (level + 1) user_key internal_key s else Some s
  end.

Definition ForEachOverlapping {S} (files_ : list (list P)) (user_key internal_key : bytes)
    (func : S -> Z -> P -> S * bool) (s : S) : option S :=
  let tmp := sort_newest (List.filter (holds_key user_key) (hd [] files_)) in
  let '(s, more) := call_each func 0 tmp s in
  if more then for_each_level func (tail files_) 1 user_key internal_key s else Some s.

(** ** [Version::Get] *)

Inductive SaverState := kNotFound | kFound | kDeleted | kCorrupt.

(** [SaveValue]: the state and the value after a call. *)
Definition SaveValue (user_key : bytes) (state : SaverState) (value ikey v : bytes) : SaverState * bytes :=
  match ParseInternalKey ikey with
  | None => (kCorrupt, value)
  | Some parsed_key =>
      if ucmp (DbFormat.user_key parsed_key) user_key =? 0
      then if decide (type parsed_key = kTypeValue) then (kFound, v) else (kDeleted, value)
      else (state, value)
  end.

Record GetStats := mkStats { seek_file : option P; seek_file_level : Z }.

(** [struct State] of [Get]. *)
Record GetState := mkGetState {
  saver_state : SaverState;
  saver_value : bytes;
  g_stats : GetStats;
  last_file_read : option P;
  last_file_read_level : Z;
  g_s : Status;
  g_found : bool
}.

(** [TableCache::Get] of a file: its status, and the entry [SaveValue] is called
    with. *)
Context (table_cache_Get : P -> bytes -> Status * option entry).

Definition Get_Match (user_key ikey : bytes) (st : GetState) (level : Z) (f : P) : GetState * bool :=
  let stats :=
    match seek_file (g_stats st), last_file_read st with
    | None, Some last => mkStats (Some last) (last_file_read_level st)
    | _, _ => g_stats st
    end in
  let '(s, found) := table_cache_Get f ikey in
  let '(state, value) :=
    match found with
    | Some (k, v) => SaveValue user_key (saver_state st) (saver_value st) k v
    | None => (saver_state st, saver_value st)
    end in
  let st' := mkGetState state value stats (Some f) level in
  if negb (ok s) then (st' s true, false)
  else
    match state with
    | kNotFound => (st' s (g_found st), true)
    | kFound => (st' s true, false)
    | kDeleted => (st' s (g_found st), false)
    | kCorrupt => (st' (Corruption (str "corrupted key for ") user_key) true, false)
    end.

(** The status, the value and the statistics.  [value] is the caller's string. *)
Definition Version_Get (files_ : list (list P)) (k : LookupKey) (value : bytes)
  : option (Status * bytes * GetStats) :=
  let user_key := lookup_user_key k in
  let ikey := internal_key k in
  st ← ForEachOverlapping files_ user_key ikey (Get_Match user_key ikey)
         (mkGetState kNotFound value (mkStats None (-1)) None (-1) OK false);
  Some (if g_found st then g_s st else NotFound [] [], saver_value st, g_stats st).

(** ** [RecordReadSample] *)

Record SampleState := mkSample { sample_stats : GetStats; sample_matches : Z }.

Definition Sample_Match (st : SampleState) (level : Z) (f : P) : SampleState * bool :=
  let m := sample_matches st + 1 in
  (mkSample (if m =? 1 then mkStats (Some f) level else sample_stats st) m, m <? 2).

(** The statistics [UpdateStats] is called with, if it is. *)
Definition sampled_stats (files_ : list (list P)) (internal_key : bytes) : option (option GetStats) :=
  match ParseInternalKey internal_key with
  | None => Some None
  | Some ikey =>
      st ← ForEachOverlapping files_ (DbFormat.user_key ikey) internal_key Sample_Match
             (mkSample (mkStats None (-1)) 0);
      Some (if 2 <=? sample_matches st then Some (sample_stats st) else None)
  end.

(** ** Overlaps *)

Definition OverlapInLevel (files_ : list (list P)) (level : Z) (smallest_user_key largest_user_key : option bytes)
  : option bool :=
  files ← files_ !! Z.to_nat level;
  SomeFileOverlapsRange (0 <? level) files smallest_user_key largest_user_key.

(** The loop of [GetOverlappingInputs] over [rest], with the range found so far;
    in level 0 it starts over when a file widens the range. *)
Fixpoint overlapping_loop (fuel : nat) (level : Z) (files rest : list P) (user_begin user_end : option bytes)
    (inputs : list P) : option (list P) :=
  match rest with
  | [] => Some inputs
  | f :: rest =>
      match fuel with
      | O => None
      | S fuel =>
          let file_start := f_start f in
          let file_limit := f_limit f in
          let lower b := match b with Some k => ucmp file_limit k <? 0 | None => false end in
          let upper e := match e with Some k => 0 <? ucmp file_start k | None => false end in
          let starts_before b := match b with Some k => ucmp file_start k <? 0 | None => false end in
          let ends_after e := match e with Some k => 0 <? ucmp file_limit k | None => false end in
          if lower user_begin then overlapping_loop fuel level files rest user_begin user_end inputs
          else if upper user_end then overlapping_loop fuel level files rest user_begin user_end inputs
          else if level =? 0 then
            if starts_before user_begin
            then overlapping_loop fuel level files files (Some file_start) user_end []
            else if ends_after user_end
            then overlapping_loop fuel level files files user_begin (Some file_limit) []
            else overlapping_loop fuel level files rest user_begin user_end (inputs ++ [f])
          else overlapping_loop fuel level files rest user_begin user_end (inputs ++ [f])
      end
  end.

(** Every restart moves an end of the range to that of another file: at most two
    for each file. *)
Definition overlapping_fuel (n : nat) : nat := ((2 * n + 1) * n)%nat.

Definition GetOverlappingInputs (files_ : list (list P)) (level : Z) (begin end_ : option InternalKey)
  : option (list P) :=
  if negb ((0 <=? level) && (level <? kNumLevels)) then None
  else
    files ← files_ !! Z.to_nat level;
    overlapping_loop (overlapping_fuel (length files)) level files files
      (option_map InternalKey_user_key begin) (option_map InternalKey_user_key end_) [].

(** The loop of [PickLevelForMemTableOutput]. *)
Fixpoint pick_level_loop (options : Options) (fuel : nat) (files_ : list (list P)) (level : Z)
    (smallest_user_key largest_user_key : bytes) : option Z :=
  match fuel with
  | O => None
  | S fuel =>
      if level <? kMaxMemCompactLevel then
        overlap ← OverlapInLevel files_ (level + 1) (Some smallest_user_key) (Some largest_user_key);
        if overlap : bool then Some level
        else
          too_many ←
            (if level + 2 <? kNumLevels then
               overlaps ← GetOverlappingInputs files_ (level + 2)
                 (Some (InternalKey_make smallest_user_key kMaxSequenceNumber kValueTypeForSeek))
                 (Some (InternalKey_make largest_user_key 0 kTypeDeletion));
               Some (MaxGrandParentOverlapBytes options <? TotalFileSize overlaps)
             else Some false);
          if too_many : bool then Some level
          else pick_level_loop options fuel files_ (level + 1) smallest_user_key largest_user_key
      else Some level
  end.

Definition PickLevelForMemTableOutput (options : Options) (files_ : list (list P))
    (smallest_user_key largest_user_key : bytes) : option Z :=
  overlap ← OverlapInLevel files_ 0 (Some smallest_user_key) (Some largest_user_key);
  if overlap : bool then Some 0
  else pick_level_loop options (S (Z.to_nat kMaxMemCompactLevel)) files_ 0 smallest_user_key largest_user_key.

(** ** [DebugString] *)

Definition file_DebugString (f : P) : bytes :=
  str " " ++ NumberToString (number (meta f)) ++ str ":" ++ NumberToString (file_size (meta f)) ++ str "["
    ++ InternalKey_DebugString (f_smallest f) ++ str " .. " ++ InternalKey_DebugString (f_largest f)
    ++ str "]" ++ [x0a].

Fixpoint levels_DebugString (levels : list (list P)) (level : Z) : bytes :=
  match levels with
  | [] => []
  | files :: levels =>
      str "--- level " ++ NumberToString level ++ str " ---" ++ [x0a] ++
      concat (map file_DebugString files) ++ levels_DebugString levels (level + 1)
  end.

Definition Version_DebugString (files_ : list (list P)) : bytes := levels_DebugString files_ 0.

End Files.

(** ** Iterators over versions *)

Section Iterators.

Context (c : Comparator) {P : Type} (meta : P -> FileMetaData).

#[export] Instance Level_iterator : Iterator LevelFileNumIterator := {
  it_Valid := Level_Valid;
  it_key := Level_key meta;
  it_value := Level_value meta;
  it_status _ := OK;
  it_SeekToFirst := Level_SeekToFirst;
  it_SeekToLast := Level_SeekToLast;
  it_Seek := Level_Seek c meta;
  it_Next := Level_Next;
  it_Prev := Level_Prev
}.

(** [TableCache::NewIterator] of a file number and size. *)
Context {D : Type} (cache_NewIterator : Z -> Z -> option D).

Definition GetFileIterator (file_value : bytes) : option (EmptyIterator + D) :=
  if negb (blen file_value =? 16) then
    Some (inl (NewErrorIterator (Corruption (str "FileReader invoked with unexpected value") [])))
  else
    d ← cache_NewIterator (DecodeFixed64 file_value) (DecodeFixed64 (zdrop 8 file_value));
    Some (inr d).

(** Over the files of a level, opened lazily: one turn of the skipping loops for
    each file. *)
Definition NewConcatenatingIterator (files : list P) : TwoLevelIterator LevelFileNumIterator (EmptyIterator + D) :=
  NewTwoLevelIterator (H := Level_iterator) (LevelFileNumIterator_new files) GetFileIterator (S (length files)).

(** The iterators of a version: one for each file of level 0, one for each other
    level that has files. *)
Definition AddIterators (files_ : list (list P))
  : option (list (D + TwoLevelIterator LevelFileNumIterator (EmptyIterator + D))) :=
  l0 ← mapM (fun f => cache_NewIterator (number (meta f)) (file_size (meta f))) (hd [] files_);
  Some (map inl l0 ++
        map (fun files => inr (NewConcatenatingIterator files))
          (List.filter (fun files => match files with [] => false | _ => true end) (tail files_))).

End Iterators.
