(* ===== verification/VersionSpec.v ===== *)
(** * What the searches over versions find

    Theorems about [Version]: binary search finds the first file at or past a key,
    the overlap tests agree with their definition, the inputs of a level-0
    compaction are closed under overlap, and a point lookup returns the newest
    visible entry of the version. *)

From S2P Require Import Prelude Slice Coding Status Logging Comparator DbFormat VersionEdit Format Iterator Options TwoLevel Merger Version.

Section Search.

Context (c : Comparator) {L : ComparatorLaws c} {P : Type} (meta : P -> FileMetaData).

Notation icmp := (ikey_Compare c).
Notation ucmp := (Compare c).
Notation f_smallest := (f_smallest meta).
Notation f_largest := (f_largest meta).
Notation f_start := (f_start meta).
Notation f_limit := (f_limit meta).

#[local] Instance icmp_three_way : ThreeWay icmp := compare_three_way (c := InternalKeyComparator c).

(** A file's keys are in order, and the files of a level above zero one after the
    other. *)
Definition file_ok (f : P) : Prop := icmp (f_smallest f) (f_largest f) <= 0.
Definition follows (f g : P) : Prop := icmp (f_largest f) (f_smallest g) < 0.
Definition level_ok (files : list P) : Prop := Forall file_ok files /\ StronglySorted follows files.

Lemma level_largest files i j f g :
  level_ok files -> files !! i = Some f -> files !! j = Some g -> (i <= j)%nat -> icmp (f_largest f) (f_largest g) <= 0.
Proof.
  intros [Hok Hs] Hi Hj Hij. destruct (decide (i = j)) as [->|Hne].
  - rewrite Hi in Hj. simplify_eq. by rewrite cmp_refl.
  - pose proof (StronglySorted_lookup _ _ _ _ _ _ Hs Hi Hj ltac:(lia)) as Hlt. unfold follows in Hlt.
    rewrite Forall_lookup in Hok. specialize (Hok j g Hj). unfold file_ok in Hok.
    pose proof (cmp_lt_le_trans icmp _ _ _ Hlt Hok). lia.
Qed.

(** ** [FindFile] *)

(** The number of leading files that end before the key. *)
Fixpoint files_before (key : bytes) (files : list P) : nat :=
  match files with
  | [] => O
  | f :: files => if icmp (f_largest f) key <? 0 then S (files_before key files) else O
  end.

Lemma files_before_le key files : (files_before key files <= length files)%nat.
Proof. induction files as [|f files IH]; cbn; [done|]. destruct (_ <? 0); lia. Qed.

Lemma files_before_lt key files i f :
  files !! i = Some f -> (i < files_before key files)%nat -> icmp (f_largest f) key < 0.
Proof.
  revert i. induction files as [|g files IH]; intros i Hi Hlt; cbn in *; [lia|].
  destruct (Z.ltb_spec (icmp (f_largest g) key) 0); [|lia].
  destruct i as [|i]; [cbn in Hi; by simplify_eq|]. apply (IH i); [done|lia].
Qed.

Lemma files_before_at key files f : files !! files_before key files = Some f -> 0 <= icmp (f_largest f) key.
Proof.
  induction files as [|g files IH]; cbn; [done|].
  destruct (Z.ltb_spec (icmp (f_largest g) key) 0); cbn; [exact IH|]. intros ?. by simplify_eq.
Qed.

Lemma files_before_unique key files n :
  (n <= length files)%nat ->
  (forall i f, (i < n)%nat -> files !! i = Some f -> icmp (f_largest f) key < 0) ->
  (forall f, files !! n = Some f -> 0 <= icmp (f_largest f) key) ->
  files_before key files = n.
Proof.
  revert n. induction files as [|g files IH]; intros n Hn Hlt Hge; cbn in *; [lia|].
  destruct n as [|n].
  - specialize (Hge _ eq_refl). cbn in Hge. destruct (Z.ltb_spec (icmp (f_largest g) key) 0); [lia|done].
  - pose proof (Hlt O _ ltac:(lia) eq_refl) as H0. cbn in H0.
    destruct (Z.ltb_spec (icmp (f_largest g) key) 0); [|lia]. f_equal.
    apply IH; [lia| |done]. intros i f Hi He. apply (Hlt (S i)); [lia|done].
Qed.

Lemma files_before_ge key files i f :
  level_ok files -> files !! i = Some f -> (files_before key files <= i)%nat -> 0 <= icmp (f_largest f) key.
Proof.
  intros Hok Hi Hle. destruct (lookup_lt_is_Some_2 files (files_before key files)) as [g Hg];
    [apply lookup_lt_Some in Hi; lia|].
  pose proof (files_before_at _ _ _ Hg) as Hge. pose proof (level_largest _ _ _ _ _ Hok Hg Hi Hle) as Hle'.
  destruct (Z.lt_ge_cases (icmp (f_largest f) key) 0) as [Hb|]; [|done].
  pose proof (cmp_le_lt_trans icmp _ _ _ Hle' Hb). lia.
Qed.

Lemma find_file_loop_spec files key fuel : forall left right,
  level_ok files -> 0 <= left <= right -> right <= Z.of_nat (length files) < 2 ^ 31 ->
  (Z.to_nat left <= files_before key files <= Z.to_nat right)%nat -> right - left < Z.of_nat fuel ->
  find_file_loop c meta fuel files key left right = Some (Z.of_nat (files_before key files)).
Proof.
  induction fuel as [|fuel IH]; intros left right Hok Hl Hr Hb Hf; [lia|]. cbn [find_file_loop].
  destruct (Z.ltb_spec left right) as [Hlt|Hge]; [|f_equal; lia].
  rewrite (u32_small (left + right)) by lia. set (mid := (left + right) / 2).
  assert (left <= mid < right) as Hm by (unfold mid; pose proof (Z.div_mod (left + right) 2); pose proof (Z.mod_pos_bound (left + right) 2); lia).
  destruct (lookup_lt_is_Some_2 files (Z.to_nat mid)) as [f Ef]; [lia|]. rewrite Ef. cbn [mbind option_bind].
  destruct (Z.ltb_spec (icmp (f_largest f) key) 0) as [Hk|Hk].
  - rewrite u32_small by lia. apply IH; [done|lia|lia| |lia].
    destruct (Nat.le_gt_cases (S (Z.to_nat mid)) (files_before key files)); [lia|].
    pose proof (files_before_ge key files _ f Hok Ef ltac:(lia)). lia.
  - apply IH; [done|lia|lia| |lia].
    destruct (Nat.le_gt_cases (files_before key files) (Z.to_nat mid)); [lia|].
    pose proof (files_before_lt key files _ f Ef ltac:(lia)). lia.
Qed.

Lemma FindFile_spec files key :
  level_ok files -> Z.of_nat (length files) < 2 ^ 31 ->
  FindFile c meta files key = Some (Z.of_nat (files_before key files)).
Proof.
  intros Hok Hn. unfold FindFile. rewrite u32_small by lia. pose proof (files_before_le key files).
  apply find_file_loop_spec; try done; lia.
Qed.

(** ** Overlap *)

(** The range of user keys of a file meets [[lo, hi]], an absent end being open. *)
Definition overlaps (lo hi : option bytes) (f : P) : bool :=
  negb (AfterFile c meta lo f || BeforeFile c meta hi f).

Lemma max_seq_ok : 0 <= kMaxSequenceNumber <= kMaxSequenceNumber.
Proof. split; [vm_compute; discriminate|lia]. Qed.

(** The first internal key of a user key is at or before a key iff the user key is. *)
Lemma seek_key_le u k :
  icmp k (rep_ (InternalKey_make u kMaxSequenceNumber kValueTypeForSeek)) < 0 ->
  ucmp (ExtractUserKey k) u < 0 \/ ucmp (ExtractUserKey k) u = 0 /\ key_tag k > PackSequenceAndType kMaxSequenceNumber kValueTypeForSeek.
Proof.
  unfold InternalKey_make, AppendInternalKey, PutFixed64. cbn [rep_ app user_key sequence type].
  rewrite ikey_Compare_spec, ExtractUserKey_app, key_tag_app by (apply PackSequenceAndType_range, max_seq_ok).
  destruct (Z.eqb_spec (ucmp (ExtractUserKey k) u) 0); lia.
Qed.

Lemma seek_key_ge u k :
  0 <= icmp k (rep_ (InternalKey_make u kMaxSequenceNumber kValueTypeForSeek)) -> 0 <= ucmp (ExtractUserKey k) u.
Proof.
  unfold InternalKey_make, AppendInternalKey, PutFixed64. cbn [rep_ app user_key sequence type].
  rewrite ikey_Compare_spec, ExtractUserKey_app. destruct (Z.eqb_spec (ucmp (ExtractUserKey k) u) 0); lia.
Qed.

(** Tags of stored keys: at most the largest sequence number with the largest type. *)
Definition tag_ok (k : bytes) : Prop := key_tag k <= PackSequenceAndType kMaxSequenceNumber kValueTypeForSeek.

Lemma seek_key_before u k :
  tag_ok k -> icmp k (rep_ (InternalKey_make u kMaxSequenceNumber kValueTypeForSeek)) < 0 <-> ucmp (ExtractUserKey k) u < 0.
Proof.
  intros Ht. split.
  - intros H. apply seek_key_le in H as [?|[? ?]]; [done|]. unfold tag_ok in Ht. lia.
  - intros H. unfold InternalKey_make, AppendInternalKey, PutFixed64. cbn [rep_ app user_key sequence type].
    apply ikey_lt_user. by rewrite ExtractUserKey_app.
Qed.

(** The search for an overlap in a sorted level is the test of all its files. *)
Lemma SomeFileOverlapsRange_spec files lo hi :
  level_ok files -> Forall (fun f => tag_ok (f_largest f)) files -> Z.of_nat (length files) < 2 ^ 31 ->
  SomeFileOverlapsRange c meta true files lo hi = Some (existsb (overlaps lo hi) files).
Proof.
  intros Hok Ht Hn. unfold SomeFileOverlapsRange. cbn [negb].
  set (n := match lo with Some k => files_before (rep_ (InternalKey_make k kMaxSequenceNumber kValueTypeForSeek)) files | None => O end).
  assert (Hafter : forall i f, files !! i = Some f -> AfterFile c meta lo f = true <-> (i < n)%nat).
  { intros i f Hf. unfold AfterFile, n. destruct lo as [k|]; [|split; [done|lia]].
    rewrite Forall_lookup in Ht. specialize (Ht i f Hf).
    rewrite Z.ltb_lt, <- cmp_opp, <- (seek_key_before k (f_largest f) Ht). split.
    - intros Hlt. destruct (Nat.lt_ge_cases i (files_before (rep_ (InternalKey_make k kMaxSequenceNumber kValueTypeForSeek)) files)) as [?|Hge]; [done|].
      pose proof (files_before_ge _ _ _ _ Hok Hf Hge). lia.
    - by apply files_before_lt. }
  replace (match lo with Some k => _ | None => Some 0 end) with (Some (Z.of_nat n)).
  2:{ unfold n. destruct lo; [|done]. by rewrite FindFile_spec. }
  cbn [mbind option_bind].
  destruct (Z.leb_spec (Z.of_nat (length files)) (Z.of_nat n)) as [Hle|Hlt].
  - f_equal. symmetry. apply not_true_iff_false. rewrite existsb_exists. intros (f & Hf & Ho).
    apply list_elem_of_In, list_elem_of_lookup_1 in Hf as [i Hi]. unfold overlaps in Ho.
    rewrite (proj2 (Hafter i f Hi)) in Ho; [done|]. apply lookup_lt_Some in Hi. lia.
  - destruct (lookup_lt_is_Some_2 files n) as [f Hf]; [lia|]. rewrite Nat2Z.id, Hf. cbn [mbind option_bind]. f_equal.
    assert (Hna : AfterFile c meta lo f = false) by (apply not_true_iff_false; rewrite (Hafter n f Hf); lia).
    apply eq_bool_prop_intro. rewrite !Is_true_true, existsb_exists. split.
    + intros Hb. exists f. split; [by apply list_elem_of_In, (list_elem_of_lookup_2 _ n)|]. unfold overlaps. by rewrite Hna.
    + intros (g & Hg & Ho). apply list_elem_of_In, list_elem_of_lookup_1 in Hg as [j Hj].
      unfold overlaps in Ho. apply negb_true_iff, orb_false_iff in Ho as [Ha Hb]. apply negb_true_iff.
      assert (n <= j)%nat as Hnj by (apply Nat.nlt_ge; intros Hj'; apply (Hafter j g Hj) in Hj'; congruence).
      unfold BeforeFile in *. destruct hi as [k|]; [|done]. apply Z.ltb_ge in Hb. apply Z.ltb_ge.
      assert (icmp (f_smallest f) (f_smallest g) <= 0) as Hs.
      { destruct (decide (n = j)) as [->|Hne]; [rewrite Hf in Hj; simplify_eq; by rewrite cmp_refl|].
        destruct Hok as [Hfo Hso]. pose proof (StronglySorted_lookup _ _ _ _ _ _ Hso Hf Hj ltac:(lia)) as Hlt'.
        rewrite Forall_lookup in Hfo. specialize (Hfo n f Hf). unfold follows, file_ok in *.
        pose proof (cmp_le_lt_trans icmp _ _ _ Hfo Hlt'). lia. }
      apply ikey_le_user in Hs. apply (cmp_ge_opp ucmp) in Hb. apply (cmp_ge_opp ucmp).
      apply (cmp_le_trans _ (f_start g)); [exact Hs|exact Hb].
Qed.

(** ** [GetOverlappingInputs] *)

(** The range reaches past [f] on neither side. *)
Definition within (lo hi : option bytes) (f : P) : Prop :=
  (forall k, lo = Some k -> 0 <= ucmp (f_start f) k) /\ (forall k, hi = Some k -> ucmp (f_limit f) k <= 0).

(** [[lo', hi']] contains [[lo, hi]]. *)
Definition wider (lo hi lo' hi' : option bytes) : Prop :=
  match lo, lo' with Some k, Some k' => ucmp k' k <= 0 | None, None => True | _, _ => False end /\
  match hi, hi' with Some k, Some k' => ucmp k k' <= 0 | None, None => True | _, _ => False end.

Lemma wider_refl lo hi : wider lo hi lo hi.
Proof. split; [destruct lo|destruct hi]; by rewrite ?cmp_refl. Qed.

Lemma wider_trans lo hi lo1 hi1 lo2 hi2 : wider lo hi lo1 hi1 -> wider lo1 hi1 lo2 hi2 -> wider lo hi lo2 hi2.
Proof.
  intros [A B] [A' B']. split.
  - destruct lo, lo1, lo2; try done. by eapply cmp_le_trans.
  - destruct hi, hi1, hi2; try done. by eapply cmp_le_trans.
Qed.

(** The files that stick out of the range: each restart takes one away. *)
Definition sticks_out_lo (lo : option bytes) (f : P) : bool :=
  match lo with Some k => ucmp (f_start f) k <? 0 | None => false end.
Definition sticks_out_hi (hi : option bytes) (f : P) : bool :=
  match hi with Some k => 0 <? ucmp (f_limit f) k | None => false end.
Definition sticking_out (files : list P) (lo hi : option bytes) : nat :=
  (length (List.filter (sticks_out_lo lo) files) + length (List.filter (sticks_out_hi hi) files))%nat.

Lemma filter_shrinks (p q : P -> bool) files :
  (forall x, p x = true -> q x = true) -> (length (List.filter p files) <= length (List.filter q files))%nat.
Proof.
  intros Hpq. induction files as [|f files IH]; cbn; [done|]. destruct (p f) eqn:E; [rewrite (Hpq f E); cbn; lia|].
  destruct (q f); cbn; lia.
Qed.

Lemma filter_shrinks_strict (p q : P -> bool) files g :
  (forall x, p x = true -> q x = true) -> g ∈ files -> p g = false -> q g = true ->
  (length (List.filter p files) < length (List.filter q files))%nat.
Proof.
  intros Hpq Hg Hp Hq. induction files as [|f files IH]; [by apply not_elem_of_nil in Hg|].
  cbn. apply elem_of_cons in Hg as [->|Hg].
  - rewrite Hp, Hq. cbn. pose proof (filter_shrinks p q files Hpq). lia.
  - specialize (IH Hg). destruct (p f) eqn:E; [rewrite (Hpq f E); cbn; lia|]. destruct (q f); cbn; lia.
Qed.

Lemma sticking_out_lo files k hi f :
  f ∈ files -> ucmp (f_start f) k < 0 -> (sticking_out files (Some (f_start f)) hi < sticking_out files (Some k) hi)%nat.
Proof.
  intros Hf Hk. unfold sticking_out. apply Nat.add_lt_mono_r. apply (filter_shrinks_strict _ _ _ f); [|done| |].
  - intros x. cbn. rewrite !Z.ltb_lt. intros Hx. by apply (cmp_lt_trans ucmp _ (f_start f)).
  - cbn. rewrite cmp_refl. done.
  - cbn. lia.
Qed.

Lemma sticking_out_hi files lo k f :
  f ∈ files -> 0 < ucmp (f_limit f) k -> (sticking_out files lo (Some (f_limit f)) < sticking_out files lo (Some k))%nat.
Proof.
  intros Hf Hk. unfold sticking_out. apply Nat.add_lt_mono_l. apply (filter_shrinks_strict _ _ _ f); [|done| |].
  - intros x. cbn. rewrite !Z.ltb_lt. rewrite <- !cmp_opp in *. intros Hx. by apply (cmp_lt_trans ucmp _ (f_limit f)).
  - cbn. rewrite cmp_refl. done.
  - cbn. lia.
Qed.

(** The tests of the loop are those of [overlaps]. *)
Lemma overlaps_tests lo hi f :
  overlaps lo hi f =
  negb (match lo with Some k => ucmp (f_limit f) k <? 0 | None => false end) &&
  negb (match hi with Some k => 0 <? ucmp (f_start f) k | None => false end).
Proof.
  unfold overlaps, AfterFile, BeforeFile. rewrite negb_orb. f_equal; f_equal.
  - destruct lo as [k|]; [|done]. apply eq_bool_prop_intro. rewrite !Is_true_true, !Z.ltb_lt. symmetry. apply cmp_opp.
  - destruct hi as [k|]; [|done]. apply eq_bool_prop_intro. rewrite !Is_true_true, !Z.ltb_lt. apply cmp_opp.
Qed.

Lemma overlapping_loop_spec level files fuel : forall passed rest lo hi inputs,
  files = passed ++ rest ->
  inputs = List.filter (overlaps lo hi) passed -> (level = 0 -> Forall (within lo hi) inputs) ->
  (length rest + sticking_out files lo hi * length files <= fuel)%nat ->
  exists lo' hi' inputs', overlapping_loop c meta fuel level files rest lo hi inputs = Some inputs' /\
    wider lo hi lo' hi' /\ inputs' = List.filter (overlaps lo' hi') files /\
    (if level =? 0 then Forall (within lo' hi') inputs' else lo' = lo /\ hi' = hi).
Proof.
  induction fuel as [|fuel IH]; intros passed rest lo hi inputs Hfs Hin Hw Hf.
  - assert (rest = []) as -> by (destruct rest; [done|cbn in Hf; lia]). cbn. exists lo, hi, inputs.
    rewrite app_nil_r in Hfs. subst. split; [done|]. split; [apply wider_refl|]. split; [done|].
    destruct (Z.eqb_spec level 0); [by apply Hw|done].
  - destruct rest as [|f rest]; cbn [overlapping_loop].
    { exists lo, hi, inputs. rewrite app_nil_r in Hfs. subst. split; [done|]. split; [apply wider_refl|]. split; [done|].
      destruct (Z.eqb_spec level 0); [by apply Hw|done]. }
    cbn [length] in Hf. assert (f ∈ files) as Hfin by (rewrite Hfs; apply elem_of_app; right; by apply elem_of_cons; left).
    pose proof (overlaps_tests lo hi f) as Hov.
    assert (Hnext : forall add, add = (if overlaps lo hi f then [f] else []) -> (level = 0 -> Forall (within lo hi) add) ->
      exists lo' hi' inputs', overlapping_loop c meta fuel level files rest lo hi (inputs ++ add) = Some inputs' /\
        wider lo hi lo' hi' /\ inputs' = List.filter (overlaps lo' hi') files /\
        (if level =? 0 then Forall (within lo' hi') inputs' else lo' = lo /\ hi' = hi)).
    { intros add Hadd Hwa. apply (IH (passed ++ [f])); [by rewrite <- app_assoc| | |lia].
      - rewrite List.filter_app, Hin, Hadd. done.
      - intros Hl. apply Forall_app. split; [by apply Hw|by apply Hwa]. }
    assert (Hskip : overlaps lo hi f = false -> exists lo' hi' inputs',
        overlapping_loop c meta fuel level files rest lo hi inputs = Some inputs' /\
        wider lo hi lo' hi' /\ inputs' = List.filter (overlaps lo' hi') files /\
        (if level =? 0 then Forall (within lo' hi') inputs' else lo' = lo /\ hi' = hi)).
    { intros Hn. rewrite <- (app_nil_r inputs). apply Hnext; [by rewrite Hn|done]. }
    destruct (match lo with Some k => ucmp (f_limit f) k <? 0 | None => false end); [by apply Hskip|].
    destruct (match hi with Some k => 0 <? ucmp (f_start f) k | None => false end); [by apply Hskip|].
    cbn in Hov. destruct (Z.eqb_spec level 0) as [Hl|Hl]; [|apply Hnext; [by rewrite Hov|done]].
    assert (Hrestart : forall lo1 hi1, wider lo hi lo1 hi1 -> (sticking_out files lo1 hi1 < sticking_out files lo hi)%nat ->
      exists lo' hi' inputs', overlapping_loop c meta fuel level files files lo1 hi1 [] = Some inputs' /\
        wider lo hi lo' hi' /\ inputs' = List.filter (overlaps lo' hi') files /\ Forall (within lo' hi') inputs').
    { intros lo1 hi1 Hwd Hs. destruct (IH [] files lo1 hi1 []) as (lo' & hi' & inputs' & E & Hw' & Hi' & Hall); [done|done|done|nia|].
      exists lo', hi', inputs'. split; [done|]. split; [by eapply wider_trans|done]. }
    destruct lo as [b|]; [destruct (Z.ltb_spec (ucmp (f_start f) b) 0) as [Hb|Hb]|].
    + apply Hrestart; [split; [lia|destruct hi; by rewrite ?cmp_refl]|by apply sticking_out_lo].
    + destruct hi as [e|]; [destruct (Z.ltb_spec 0 (ucmp (f_limit f) e)) as [He|He]|].
      * apply Hrestart; [split; [by rewrite cmp_refl|rewrite <- cmp_opp in He; lia]|by apply sticking_out_hi].
      * apply Hnext; [by rewrite Hov|]. intros _. constructor; [|constructor]. split; intros ? [= <-]; lia.
      * apply Hnext; [by rewrite Hov|]. intros _. constructor; [|constructor]. split; intros ? [= <-]; lia.
    + destruct hi as [e|]; [destruct (Z.ltb_spec 0 (ucmp (f_limit f) e)) as [He|He]|].
      * apply Hrestart; [split; [done|rewrite <- cmp_opp in He; lia]|by apply sticking_out_hi].
      * apply Hnext; [by rewrite Hov|]. intros _. constructor; [|constructor]. split; intros ? [= <-]; lia.
      * apply Hnext; [by rewrite Hov|]. intros _. constructor; [|constructor]. by split.
Qed.

Lemma sticking_out_le files lo hi : (sticking_out files lo hi <= 2 * length files)%nat.
Proof.
  unfold sticking_out. pose proof (filter_shrinks (sticks_out_lo lo) (fun _ => true) files ltac:(done)).
  pose proof (filter_shrinks (sticks_out_hi hi) (fun _ => true) files ltac:(done)).
  assert (forall fs : list P, List.filter (fun _ => true) fs = fs) as Hall by (induction fs; cbn; congruence).
  rewrite Hall in *. lia.
Qed.

(** The inputs found, and the range they were found for. *)
Lemma GetOverlappingInputs_spec files_ level begin end_ files :
  0 <= level < kNumLevels -> files_ !! Z.to_nat level = Some files ->
  let lo := option_map InternalKey_user_key begin in let hi := option_map InternalKey_user_key end_ in
  exists lo' hi' inputs, GetOverlappingInputs c meta files_ level begin end_ = Some inputs /\
    wider lo hi lo' hi' /\ inputs = List.filter (overlaps lo' hi') files /\
    (if level =? 0 then Forall (within lo' hi') inputs else lo' = lo /\ hi' = hi).
Proof.
  intros Hl Hf lo hi. unfold GetOverlappingInputs.
  rewrite (proj2 (Z.leb_le 0 level)), (proj2 (Z.ltb_lt level kNumLevels)) by lia. cbn [andb negb].
  rewrite Hf. cbn [mbind option_bind].
  destruct (overlapping_loop_spec level files (overlapping_fuel (length files)) [] files lo hi []) as (lo' & hi' & inputs & E & ?);
    [done|done|done| |by exists lo', hi', inputs].
  pose proof (sticking_out_le files lo hi). unfold overlapping_fuel. nia.
Qed.

Lemma wider_overlaps lo hi lo' hi' f : wider lo hi lo' hi' -> overlaps lo hi f = true -> overlaps lo' hi' f = true.
Proof.
  intros [Hlo Hhi]. unfold overlaps, AfterFile, BeforeFile. rewrite !negb_true_iff, !orb_false_iff. intros [Ha Hb]. split.
  - destruct lo as [k|], lo' as [k'|]; try done. apply Z.ltb_ge in Ha. apply Z.ltb_ge. by eapply cmp_le_trans.
  - destruct hi as [k|], hi' as [k'|]; try done. apply Z.ltb_ge in Hb. apply Z.ltb_ge.
    apply (cmp_ge_opp ucmp) in Hb. apply (cmp_ge_opp ucmp). by eapply cmp_le_trans.
Qed.

(** The user keys of two files do not meet. *)
Definition apart (f g : P) : Prop := ucmp (f_limit f) (f_start g) < 0 \/ ucmp (f_limit g) (f_start f) < 0.

Lemma within_apart lo hi f g : within lo hi f -> overlaps lo hi g = false -> apart f g.
Proof.
  intros [Hlo Hhi] Ho. unfold overlaps, AfterFile, BeforeFile in Ho. apply negb_false_iff, orb_true_iff in Ho as [Ha|Hb].
  - right. destruct lo as [k|]; [|done]. apply Z.ltb_lt in Ha. specialize (Hlo k eq_refl). rewrite <- cmp_opp in Ha.
    apply (cmp_ge_opp ucmp) in Hlo. by apply (cmp_lt_le_trans ucmp _ k).
  - left. destruct hi as [k|]; [|done]. apply Z.ltb_lt in Hb. specialize (Hhi k eq_refl). by apply (cmp_le_lt_trans ucmp _ k).
Qed.

End Search.

Arguments overlaps : simpl never.

Section Lookup.

Context (c : Comparator) {L : ComparatorLaws c} {P : Type} (meta : P -> FileMetaData).

Notation icmp := (ikey_Compare c).
Notation ucmp := (Compare c).

#[local] Existing Instance icmp_three_way.

(** ** Point lookups

    [content f] are the entries of a table file; [table_cache_Get] finds in it the
    first entry at or past a key, at least when that entry has the user key asked
    for (a filter may hide the others). *)

Context (content : P -> list entry).

Class TableGet (get : P -> bytes -> Status * option entry) (files : list P) : Prop := {
  get_ok f k : f ∈ files -> ok (fst (get f k)) = true;
  get_first f k e : f ∈ files -> snd (get f k) = Some e -> content f !! below icmp k (content f) = Some e;
  get_hit f k e : f ∈ files -> content f !! below icmp k (content f) = Some e ->
    ucmp (ExtractUserKey (fst e)) (ExtractUserKey k) = 0 -> snd (get f k) = Some e
}.

(** A file's metadata describe its entries. *)
Record table_ok (f : P) : Prop := {
  table_sorted : StronglySorted (entry_lt icmp) (content f);
  table_keys e : e ∈ content f ->
    icmp (f_smallest meta f) (fst e) <= 0 /\ icmp (fst e) (f_largest meta f) <= 0 /\ is_Some (ParseInternalKey (fst e));
  table_last : exists v, (f_largest meta f, v) ∈ content f
}.

(** What [f] says about a user key is newer than what [g] says. *)
Definition newer (f g : P) : Prop :=
  forall e e', e ∈ content f -> e' ∈ content g ->
    ucmp (ExtractUserKey (fst e)) (ExtractUserKey (fst e')) = 0 -> icmp (fst e) (fst e') < 0.

Record version_ok (files_ : list (list P)) : Prop := {
  version_tables f : f ∈ concat files_ -> table_ok f;
  version_small : Forall (fun files => Z.of_nat (length files) < 2 ^ 31) files_;
  version_levels : Forall (level_ok c meta) (tail files_);
  version_numbers : NoDup (map (fun f => number (meta f)) (hd [] files_));
  version_newer0 f g : f ∈ hd [] files_ -> g ∈ hd [] files_ -> number (meta g) < number (meta f) -> newer f g;
  version_newer i j fs gs f g : files_ !! i = Some fs -> files_ !! j = Some gs -> (i < j)%nat ->
    f ∈ fs -> g ∈ gs -> newer f g
}.

(** Entries of the user key that the lookup key can see. *)
Definition visible (ikey : bytes) (e : entry) : Prop :=
  ucmp (ExtractUserKey (fst e)) (ExtractUserKey ikey) = 0 /\ 0 <= icmp (fst e) ikey.

Definition newest_visible (files_ : list (list P)) (ikey : bytes) (o : option entry) : Prop :=
  match o with
  | Some e => (exists f, f ∈ concat files_ /\ e ∈ content f) /\ visible ikey e /\
      forall f e', f ∈ concat files_ -> e' ∈ content f -> visible ikey e' -> icmp (fst e) (fst e') <= 0
  | None => forall f e, f ∈ concat files_ -> e ∈ content f -> ~ visible ikey e
  end.

(** What a lookup in one file yields. *)
Definition hit (ikey : bytes) (f : P) : option entry :=
  match content f !! below icmp ikey (content f) with
  | Some e => if ucmp (ExtractUserKey (fst e)) (ExtractUserKey ikey) =? 0 then Some e else None
  | None => None
  end.

Fixpoint first_hit (ikey : bytes) (fs : list P) : option entry :=
  match fs with
  | [] => None
  | f :: fs => match hit ikey f with Some e => Some e | None => first_hit ikey fs end
  end.

Lemma hit_visible ikey f e : hit ikey f = Some e -> e ∈ content f /\ visible ikey e.
Proof.
  unfold hit. destruct (content f !! below icmp ikey (content f)) as [e'|] eqn:E; [|done].
  destruct (Z.eqb_spec (ucmp (ExtractUserKey (fst e')) (ExtractUserKey ikey)) 0); [|done]. intros [= ->].
  split; [by eapply list_elem_of_lookup_2|]. split; [done|]. by apply (below_at icmp ikey (content f)).
Qed.

(** A visible entry is at or past the hit. *)
Lemma visible_hit ikey f e :
  table_ok f -> e ∈ content f -> visible ikey e -> exists e', hit ikey f = Some e' /\ icmp (fst e') (fst e) <= 0.
Proof.
  intros Hok He [Hu Hge]. apply list_elem_of_lookup_1 in He as [i Hi].
  assert (below icmp ikey (content f) <= i)%nat as Hle.
  { apply Nat.nlt_ge. intros Hlt. pose proof (below_lt icmp ikey (content f) i e Hi Hlt). lia. }
  destruct (lookup_lt_is_Some_2 (content f) (below icmp ikey (content f))) as [e' He']; [apply lookup_lt_Some in Hi; lia|].
  assert (icmp (fst e') (fst e) <= 0) as Hee.
  { destruct (decide (below icmp ikey (content f) = i)) as [Heq|Hne].
    - rewrite Heq, Hi in He'. simplify_eq. by rewrite cmp_refl.
    - pose proof (sorted_lookup_lt icmp _ _ i e' e (table_sorted f Hok) He' Hi ltac:(lia)). lia. }
  exists e'. split; [|done]. unfold hit. rewrite He'. pose proof (below_at icmp ikey _ _ He') as Hat.
  rewrite (proj2 (Z.eqb_eq _ _)); [done|]. apply ikey_le_user in Hee.
  apply (cmp_ge_opp icmp), ikey_le_user in Hat.
  pose proof (cmp_opp (ExtractUserKey (fst e)) (ExtractUserKey ikey)) as Ho1.
  pose proof (cmp_le_trans _ _ _ Hee (ltac:(lia) : ucmp (ExtractUserKey (fst e)) (ExtractUserKey ikey) <= 0)) as H1.
  pose proof (cmp_ge_opp ucmp (ExtractUserKey ikey) (ExtractUserKey (fst e'))). lia.
Qed.

(** ** The candidates of a level *)

Definition covers (ikey : bytes) (files fs : list P) : Prop :=
  (forall f, f ∈ fs -> f ∈ files) /\
  forall f e, f ∈ files -> e ∈ content f -> visible ikey e ->
    exists g e', g ∈ fs /\ hit ikey g = Some e' /\ icmp (fst e') (fst e) <= 0.

Lemma user_between k lo hi u :
  icmp lo k <= 0 -> icmp k hi <= 0 -> ucmp (ExtractUserKey k) u = 0 ->
  0 <= ucmp u (ExtractUserKey lo) /\ ucmp u (ExtractUserKey hi) <= 0.
Proof.
  intros H1 H2 Hu. apply ikey_le_user in H1. apply ikey_le_user in H2.
  pose proof (cmp_opp_eq ucmp (ExtractUserKey k) u) as [Hs _]. specialize (Hs Hu). split.
  - apply (cmp_ge_opp ucmp). by apply (cmp_le_trans _ (ExtractUserKey k)); [|lia].
  - by apply (cmp_le_trans _ (ExtractUserKey k)); [lia|].
Qed.

Lemma level0_covers ikey files :
  (forall f, f ∈ files -> table_ok f) ->
  covers ikey files (sort_newest meta (List.filter (holds_key c meta (ExtractUserKey ikey)) files)).
Proof.
  intros Hok. unfold sort_newest. split.
  - intros f Hf. rewrite merge_sort_Permutation in Hf. apply list_elem_of_In, filter_In in Hf as [Hf _].
    by apply list_elem_of_In.
  - intros f e Hf He Hv. destruct (visible_hit ikey f e (Hok f Hf) He Hv) as (e' & Hh & Hle). exists f, e'. split; [|done].
    rewrite merge_sort_Permutation. apply list_elem_of_In, filter_In. split; [by apply list_elem_of_In|].
    destruct (table_keys f (Hok f Hf) e He) as (H1 & H2 & _). destruct Hv as [Hu _].
    destruct (user_between _ _ _ _ H1 H2 Hu) as [H3 H4]. unfold holds_key. apply andb_true_iff. split; apply Z.leb_le; [exact H3|exact H4].
Qed.

Lemma level_covers ikey files :
  (forall f, f ∈ files -> table_ok f) -> level_ok c meta files -> Z.of_nat (length files) < 2 ^ 31 ->
  exists fs, level_candidate c meta files (ExtractUserKey ikey) ikey = Some fs /\ (length fs <= 1)%nat /\ covers ikey files fs.
Proof.
  intros Hok Hlv Hn. unfold level_candidate. destruct files as [|f0 files0] eqn:Efs.
  { exists []. split; [done|]. split; [cbn; lia|]. split; [done|]. intros f e Hf. by apply not_elem_of_nil in Hf. }
  rewrite <- Efs in *. rewrite (FindFile_spec c meta) by done. cbn [mbind option_bind].
  set (n := files_before c meta ikey files).
  assert (Hearly : forall i f e, files !! i = Some f -> (i < n)%nat -> e ∈ content f -> ~ visible ikey e).
  { intros i f e Hi Hlt He [_ Hge]. pose proof (files_before_lt c meta ikey files i f Hi Hlt) as Hk.
    destruct (table_keys f (Hok f ltac:(by eapply list_elem_of_lookup_2)) e He) as (_ & H2 & _).
    pose proof (cmp_le_lt_trans icmp _ _ _ H2 Hk). lia. }
  destruct (Z.ltb_spec (Z.of_nat n) (Z.of_nat (length files))) as [Hlt|Hge].
  2:{ exists []. split; [done|]. split; [cbn; lia|]. split; [intros f Hf; by apply not_elem_of_nil in Hf|].
      intros f e Hf He Hv. apply list_elem_of_lookup_1 in Hf as [i Hi]. exfalso.
      apply (Hearly i f e Hi); [|done|done]. apply lookup_lt_Some in Hi. lia. }
  destruct (lookup_lt_is_Some_2 files n) as [f Hf]; [lia|]. rewrite Nat2Z.id, Hf. cbn [mbind option_bind].
  assert (f ∈ files) as Hfin by (by eapply list_elem_of_lookup_2).
  pose proof (files_before_at c meta ikey files f Hf) as Hat.
  (* An entry of a later file is past everything in [f]. *)
  assert (Hlate : forall j g e, files !! j = Some g -> (n < j)%nat -> e ∈ content g -> icmp (f_largest meta f) (fst e) < 0).
  { intros j g e Hj Hnj He. destruct Hlv as [_ Hs]. pose proof (StronglySorted_lookup _ _ _ _ _ _ Hs Hf Hj Hnj) as Hfo.
    destruct (table_keys g (Hok g ltac:(by eapply list_elem_of_lookup_2)) e He) as (H1 & _).
    by eapply (cmp_lt_le_trans icmp). }
  (* So when it is visible, the last entry of [f] is. *)
  assert (Hlast : forall j g e, files !! j = Some g -> (n < j)%nat -> e ∈ content g -> visible ikey e ->
    exists e', hit ikey f = Some e' /\ icmp (fst e') (fst e) <= 0).
  { intros j g e Hj Hnj He [Hu _]. pose proof (Hlate j g e Hj Hnj He) as Hle. destruct (table_last f (Hok f Hfin)) as [v Hv].
    destruct (visible_hit ikey f _ (Hok f Hfin) Hv) as (e' & Hh & Hle').
    - split; [cbn|done]. pose proof (ikey_le_user c _ _ (Z.lt_le_incl _ _ Hle)) as H1.
      apply (cmp_ge_opp icmp) in Hat. pose proof (ikey_le_user c _ _ Hat) as H2.
      pose proof (cmp_le_trans _ _ _ H1 (ltac:(lia) : ucmp (ExtractUserKey (fst e)) (ExtractUserKey ikey) <= 0)).
      pose proof (cmp_ge_opp ucmp (ExtractUserKey ikey) (ExtractUserKey (f_largest meta f))). lia.
    - exists e'. split; [done|]. cbn in Hle'. pose proof (cmp_le_lt_trans icmp _ _ _ Hle' Hle). lia. }
  assert (Hall : forall g e, g ∈ files -> e ∈ content g -> visible ikey e -> exists e', hit ikey f = Some e' /\ icmp (fst e') (fst e) <= 0).
  { intros g e Hg He Hv. apply list_elem_of_lookup_1 in Hg as [j Hj].
    destruct (Nat.lt_trichotomy j n) as [Hj'|[->|Hj']]; [by destruct (Hearly j g e Hj Hj' He)| |by apply (Hlast j g)].
    rewrite Hf in Hj. simplify_eq. apply (visible_hit ikey g e); [by apply Hok|done|done]. }
  destruct (Z.ltb_spec (ucmp (ExtractUserKey ikey) (f_start meta f)) 0) as [Hb|Hb].
  - exists []. split; [done|]. split; [cbn; lia|]. split; [intros g Hg; by apply not_elem_of_nil in Hg|].
    intros g e Hg He Hv. exfalso. destruct (Hall g e Hg He Hv) as (e' & Hh & _). apply hit_visible in Hh as [He' [Hu _]].
    destruct (table_keys f (Hok f Hfin) e' He') as (H1 & H2 & _). destruct (user_between _ _ _ _ H1 H2 Hu) as [H3 _].
    change (ExtractUserKey (f_smallest meta f)) with (f_start meta f) in H3. lia.
  - exists [f]. split; [done|]. split; [done|]. split; [intros g Hg; apply list_elem_of_singleton in Hg; by subst|].
    intros g e Hg He Hv. destruct (Hall g e Hg He Hv) as (e' & Hh & Hle). exists f, e'. split; [by apply list_elem_of_singleton|done].
Qed.

(** ** The search in order *)

Context (get : P -> bytes -> Status * option entry).

(** The outcome of [Get_Match] on a run of files. *)
Definition outcome (o : option entry) (value : bytes) (st : GetState (P := P)) (more : bool) : Prop :=
  match o with
  | None => more = true /\ saver_state st = kNotFound /\ saver_value st = value /\ g_found st = false
  | Some e => more = false /\
      exists p, ParseInternalKey (fst e) = Some p /\
        if decide (type p = kTypeValue)
        then g_found st = true /\ ok (g_s st) = true /\ saver_value st = snd e
        else g_found st = false /\ saver_value st = value
  end.

Lemma Parse_user_key k p : ParseInternalKey k = Some p -> user_key p = ExtractUserKey k.
Proof.
  unfold ParseInternalKey. destruct (_ <? 8); [done|]. destruct (_ <=? _); [|done]. intros [= <-]. done.
Qed.

Lemma Get_Match_spec ikey st level f :
  TableGet get [f] -> table_ok f -> saver_state st = kNotFound -> g_found st = false ->
  let '(st', more) := Get_Match c get (ExtractUserKey ikey) ikey st level f in
  outcome (hit ikey f) (saver_value st) st' more.
Proof.
  intros HG Hok Hs Hf. assert (f ∈ [f]) as Hin by (by apply list_elem_of_singleton).
  unfold Get_Match. pose proof (get_ok f ikey Hin) as Ho. pose proof (get_first f ikey) as Hfi. pose proof (get_hit f ikey) as Hh.
  destruct (get f ikey) as [s found]. cbn [fst snd] in *.
  assert (Hpe : forall e, content f !! below icmp ikey (content f) = Some e -> exists p, ParseInternalKey (fst e) = Some p /\ user_key p = ExtractUserKey (fst e)).
  { intros e He. apply list_elem_of_lookup_2 in He. destruct (table_keys f Hok e He) as (_ & _ & [p Hp]). exists p. split; [done|by apply Parse_user_key]. }
  unfold hit. destruct (content f !! below icmp ikey (content f)) as [e|] eqn:E.
  2:{ destruct found as [e|]; [by specialize (Hfi e Hin eq_refl)|]. rewrite Ho, Hs. cbn. done. }
  destruct (Hpe e eq_refl) as (p & Hp & Hpu).
  destruct (Z.eqb_spec (ucmp (ExtractUserKey (fst e)) (ExtractUserKey ikey)) 0) as [Hu|Hu].
  - rewrite (Hh e Hin eq_refl Hu). destruct e as [k v]. cbn [fst snd] in *. unfold SaveValue. rewrite Hp, Hpu, (proj2 (Z.eqb_eq _ _) Hu).
    rewrite Ho. cbn [negb]. unfold outcome. cbn [fst snd].
    destruct (decide (type p = kTypeValue)) eqn:Ed; cbn; (split; [done|]); exists p; rewrite Ed; (split; [done|]); done.
  - destruct found as [e'|].
    + specialize (Hfi e' Hin eq_refl). simplify_eq. destruct e' as [k v]. cbn [fst snd] in *. unfold SaveValue.
      rewrite Hp, Hpu, (proj2 (Z.eqb_neq _ _) Hu), Ho, Hs. cbn. done.
    + rewrite Ho, Hs. cbn. done.
Qed.

Lemma TableGet_sub fs gs : TableGet get fs -> (forall f, f ∈ gs -> f ∈ fs) -> TableGet get gs.
Proof. intros [G1 G2 G3] Hs. split; auto. Qed.

Lemma call_each_spec ikey level fs : forall st,
  TableGet get fs -> (forall f, f ∈ fs -> table_ok f) -> saver_state st = kNotFound -> g_found st = false ->
  let '(st', more) := call_each (Get_Match c get (ExtractUserKey ikey) ikey) level fs st in
  outcome (first_hit ikey fs) (saver_value st) st' more.
Proof.
  induction fs as [|f fs IH]; intros st HG Hok Hs Hf; cbn [call_each first_hit]; [done|].
  assert (TableGet get [f]) as HG1.
  { apply (TableGet_sub (f :: fs)); [done|]. intros g Hg. apply list_elem_of_singleton in Hg as ->. by apply elem_of_cons; left. }
  assert (TableGet get fs) as HG2 by (apply (TableGet_sub (f :: fs)); [done|]; intros g Hg; by apply elem_of_cons; right).
  pose proof (Get_Match_spec ikey st level f HG1 (Hok f ltac:(by apply elem_of_cons; left)) Hs Hf) as Hm.
  destruct (Get_Match c get (ExtractUserKey ikey) ikey st level f) as [st1 more].
  destruct (hit ikey f) as [e|].
  - pose proof Hm as [-> _]. exact Hm.
  - destruct Hm as (-> & H1 & H2 & H3). rewrite <- H2. apply IH; try done. intros g Hg. apply Hok. by apply elem_of_cons; right.
Qed.

Lemma first_hit_app ikey fs gs :
  first_hit ikey (fs ++ gs) = match first_hit ikey fs with Some e => Some e | None => first_hit ikey gs end.
Proof. induction fs as [|f fs IH]; cbn; [done|]. by destruct (hit ikey f). Qed.

Lemma covers_app ikey a b fs gs : covers ikey a fs -> covers ikey b gs -> covers ikey (a ++ b) (fs ++ gs).
Proof.
  intros [A1 A2] [B1 B2]. split.
  - intros f. rewrite !elem_of_app. intros [?|?]; auto.
  - intros f e Hf He Hv. apply elem_of_app in Hf as [Hf|Hf].
    + destruct (A2 f e Hf He Hv) as (g & e' & ? & ?). exists g, e'. rewrite elem_of_app. auto.
    + destruct (B2 f e Hf He Hv) as (g & e' & ? & ?). exists g, e'. rewrite elem_of_app. auto.
Qed.

Definition pairwise_newer (levels : list (list P)) : Prop :=
  forall i j fs gs f g, levels !! i = Some fs -> levels !! j = Some gs -> (i < j)%nat -> f ∈ fs -> g ∈ gs -> newer f g.

Lemma pairwise_cons fs levels :
  pairwise_newer (fs :: levels) -> pairwise_newer levels /\ forall f g, f ∈ fs -> g ∈ concat levels -> newer f g.
Proof.
  intros Hp. split; [intros i j a b f g Hi Hj Hij; by apply (Hp (S i) (S j) a b f g); [..|lia]|].
  intros f g Hf Hg. apply list_elem_of_In, in_concat in Hg as (gs & Hgs & Hg).
  apply list_elem_of_In, list_elem_of_lookup_1 in Hgs as [j Hj].
  apply (Hp 0%nat (S j) fs gs f g); try done; [lia|by apply list_elem_of_In].
Qed.

Lemma for_each_level_spec ikey levels : forall level st,
  TableGet get (concat levels) -> (forall f, f ∈ concat levels -> table_ok f) ->
  Forall (level_ok c meta) levels -> Forall (fun files => Z.of_nat (length files) < 2 ^ 31) levels -> pairwise_newer levels ->
  saver_state st = kNotFound -> g_found st = false ->
  exists cands st' more,
    for_each_level c meta (Get_Match c get (ExtractUserKey ikey) ikey) levels level (ExtractUserKey ikey) ikey st = Some st' /\
    outcome (first_hit ikey cands) (saver_value st) st' more /\
    covers ikey (concat levels) cands /\ StronglySorted newer cands.
Proof.
  induction levels as [|files levels IH]; intros level st HG Hok Hlv Hn Hp Hs Hf; cbn [for_each_level concat].
  { exists [], st, true. split; [done|]. split; [done|]. split; [|constructor]. split; [done|]. intros f e Hx. by apply not_elem_of_nil in Hx. }
  apply Forall_cons in Hlv as [Hl Hlv]. apply Forall_cons in Hn as [Hn0 Hn]. apply pairwise_cons in Hp as [Hp Hnew]. cbn [concat] in *.
  destruct (level_covers ikey files) as (fs & E & Hlen & Hcov); [intros f Hx; apply Hok; rewrite elem_of_app; tauto|done|done|].
  rewrite E. cbn [mbind option_bind].
  assert (TableGet get fs) as HG1 by (apply (TableGet_sub (files ++ concat levels)); [done|]; intros f Hx; apply elem_of_app; left; by apply Hcov).
  assert (TableGet get (concat levels)) as HG2 by (apply (TableGet_sub (files ++ concat levels)); [done|]; intros f Hx; apply elem_of_app; by right).
  pose proof (call_each_spec ikey level fs st HG1) as Hc.
  destruct (call_each _ level fs st) as [st1 more]. specialize (Hc ltac:(intros f Hx; apply Hok, elem_of_app; left; by apply Hcov) Hs Hf).
  assert (Hok' : forall f, f ∈ concat levels -> table_ok f) by (intros f Hx; apply Hok, elem_of_app; by right).
  assert (Hsort : forall cands, covers ikey (concat levels) cands -> StronglySorted newer cands -> StronglySorted newer (fs ++ cands)).
  { intros cands [Hsub _] Hss. destruct fs as [|f [|? ?]]; [done| |cbn in Hlen; lia]. cbn. constructor; [done|].
    apply Forall_forall. intros g Hg. apply Hnew; [apply Hcov; by apply list_elem_of_singleton|by apply Hsub]. }
  destruct (first_hit ikey fs) as [e|] eqn:Eh.
  - (* The search ends here; the later levels only matter for coverage. *)
    destruct (IH (level + 1) (mkGetState kNotFound [] (mkStats None 0) None 0 OK false)) as (cands & st2 & m2 & _ & _ & Hcov2 & Hs2); try done.
    pose proof Hc as [-> _]. exists (fs ++ cands), st1, false. split; [done|]. rewrite first_hit_app, Eh. split; [exact Hc|].
    split; [by apply covers_app|by apply Hsort].
  - destruct Hc as (-> & H1 & H2 & H3).
    destruct (IH (level + 1) st1) as (cands & st2 & m2 & -> & Ho & Hcov2 & Hs2); try done.
    exists (fs ++ cands), st2, m2. split; [done|]. rewrite first_hit_app, Eh, <- H2. split; [done|].
    split; [by apply covers_app|by apply Hsort].
Qed.

Lemma sort_newest_newer files ikey :
  NoDup (map (fun f => number (meta f)) files) ->
  (forall f g, f ∈ files -> g ∈ files -> number (meta g) < number (meta f) -> newer f g) ->
  StronglySorted newer (sort_newest meta (List.filter (holds_key c meta (ExtractUserKey ikey)) files)).
Proof.
  intros Hnd Hnew. unfold sort_newest. set (fs := List.filter _ files).
  assert (Hsub : forall f, f ∈ fs -> f ∈ files) by (intros f Hx; apply list_elem_of_In, filter_In in Hx as [? _]; by apply list_elem_of_In).
  assert (Hnd' : NoDup (map (fun f => number (meta f)) fs)).
  { unfold fs. clear -Hnd. induction files as [|f files IH]; cbn in *; [done|]. apply NoDup_cons in Hnd as [Hn Hnd].
    destruct (holds_key c meta (ExtractUserKey ikey) f); cbn; [|auto]. constructor; [|auto].
    intros Hin. apply Hn. apply list_elem_of_In, in_map_iff in Hin as (g & <- & Hg). apply filter_In in Hg as [Hg _].
    apply list_elem_of_In. by apply (in_map (fun f => number (meta f))). }
  pose proof (merge_sort_Permutation (newer_or_same meta) fs) as Hp.
  assert (Hs : StronglySorted (newer_or_same meta) (merge_sort (newer_or_same meta) fs)).
  { apply StronglySorted_merge_sort.
    - intros a b d. unfold newer_or_same. lia.
    - intros a b. unfold newer_or_same. lia. }
  assert (Hnd2 : NoDup (map (fun f => number (meta f)) (merge_sort (newer_or_same meta) fs))).
  { rewrite (Permutation_map _ Hp). done. }
  assert (Hsub2 : forall f, f ∈ merge_sort (newer_or_same meta) fs -> f ∈ files) by (intros f Hx; rewrite Hp in Hx; auto).
  clear Hp. induction Hs as [|f l Hss IH Hall]; constructor.
  - apply IH; [by apply NoDup_cons in Hnd2 as [_ ?]|]. intros g Hg. apply Hsub2. by apply elem_of_cons; right.
  - cbn in Hnd2. apply NoDup_cons in Hnd2 as [Hni _]. rewrite Forall_forall in Hall |- *. intros g Hg.
    apply Hnew; [apply Hsub2; by apply elem_of_cons; left|apply Hsub2; by apply elem_of_cons; right|].
    specialize (Hall g Hg). unfold newer_or_same in Hall.
    assert (number (meta f) <> number (meta g)); [|lia]. intros Heq. apply Hni. rewrite Heq. apply list_elem_of_In, (in_map (fun f => number (meta f))). by apply list_elem_of_In.
Qed.

Lemma first_hit_newest ikey files_ cands :
  covers ikey (concat files_) cands -> StronglySorted newer cands -> newest_visible files_ ikey (first_hit ikey cands).
Proof.
  intros [Hsub Hcov] Hs.
  assert (Hfirst : match first_hit ikey cands with
    | Some e => (exists f, f ∈ cands /\ e ∈ content f) /\ visible ikey e /\
        forall g e', g ∈ cands -> hit ikey g = Some e' -> icmp (fst e) (fst e') <= 0
    | None => forall g, g ∈ cands -> hit ikey g = None end).
  { clear Hsub Hcov. induction Hs as [|f l Hss IH Hall]; cbn; [intros g Hg; by apply not_elem_of_nil in Hg|].
    destruct (hit ikey f) as [e|] eqn:Eh.
    - pose proof Eh as Eh'. apply hit_visible in Eh' as [He Hv].
      split; [exists f; split; [by apply elem_of_cons; left|done]|]. split; [done|].
      intros g e' Hg Hh. apply elem_of_cons in Hg as [->|Hg]; [rewrite Eh in Hh; simplify_eq; by rewrite cmp_refl|].
      apply hit_visible in Hh as [He' [Hu' _]]. destruct Hv as [Hu _]. rewrite Forall_forall in Hall.
      assert (icmp (fst e) (fst e') < 0); [|lia]. apply (Hall g Hg e e' He He').
      apply (cmp_eq_trans ucmp _ (ExtractUserKey ikey)); [done|]. by apply (cmp_opp_eq ucmp).
    - destruct (first_hit ikey l) as [e|].
      + destruct IH as ((g & Hg & He) & Hv & Hmin). split; [exists g; split; [by apply elem_of_cons; right|done]|]. split; [done|].
        intros g' e' Hg' Hh. apply elem_of_cons in Hg' as [->|Hg']; [congruence|by apply (Hmin g')].
      + intros g Hg. apply elem_of_cons in Hg as [->|Hg]; [done|by apply IH]. }
  destruct (first_hit ikey cands) as [e|]; cbn.
  - destruct Hfirst as ((f & Hf & He) & Hv & Hmin). split; [exists f; split; [by apply Hsub|done]|]. split; [done|].
    intros g e' Hg He' Hv'. destruct (Hcov g e' Hg He' Hv') as (g' & e2 & Hg' & Hh & Hle).
    by apply (cmp_le_trans _ (fst e2)); [apply (Hmin g' e2)|].
  - intros f e Hf He Hv. destruct (Hcov f e Hf He Hv) as (g & e' & Hg & Hh & _). rewrite (Hfirst g Hg) in Hh. done.
Qed.

Lemma Version_Get_newest files_ u seq value :
  version_ok files_ -> files_ <> [] -> TableGet get (concat files_) ->
  let k := LookupKey_make u seq in
  exists o s value' stats, newest_visible files_ (internal_key k) o /\
    Version_Get c meta get files_ k value = Some (s, value', stats) /\
    match o with
    | Some e => exists p, ParseInternalKey (fst e) = Some p /\
        if decide (type p = kTypeValue) then ok s = true /\ value' = snd e
        else s = NotFound [] [] /\ value' = value
    | None => s = NotFound [] [] /\ value' = value
    end.
Proof.
  intros Hv Hne HG k. unfold Version_Get, ForEachOverlapping.
  assert (lookup_user_key k = ExtractUserKey (internal_key k)) as ->.
  { destruct (LookupKey_parts u seq) as (_ & Hi & Hu). unfold k. rewrite Hu, Hi. unfold AppendInternalKey, PutFixed64.
    cbn [app user_key]. by rewrite ExtractUserKey_app. }
  set (ikey := internal_key k).
  destruct files_ as [|files levels]; [done|]. cbn [hd tail]. set (st0 := mkGetState _ _ _ _ _ _ _).
  set (fs := sort_newest meta (List.filter (holds_key c meta (ExtractUserKey ikey)) files)).
  assert (Hok : forall f, f ∈ files ++ concat levels -> table_ok f) by (intros f; apply (version_tables _ Hv)).
  assert (Hcov : covers ikey files fs) by (apply level0_covers; intros f Hf; apply Hok, elem_of_app; by left).
  assert (Hss : StronglySorted newer fs) by (apply sort_newest_newer; [apply (version_numbers _ Hv)|apply (version_newer0 _ Hv)]).
  assert (HG1 : TableGet get fs) by (apply (TableGet_sub (files ++ concat levels)); [done|]; intros f Hx; apply elem_of_app; left; by apply Hcov).
  assert (HG2 : TableGet get (concat levels)) by (apply (TableGet_sub (files ++ concat levels)); [done|]; intros f Hx; apply elem_of_app; by right).
  destruct (pairwise_cons files levels (version_newer _ Hv)) as [Hpw Hnew].
  pose proof (version_small _ Hv) as Hsm. apply Forall_cons in Hsm as [_ Hsm].
  assert (Hlev : forall st, saver_state st = kNotFound -> g_found st = false -> exists cands st' more,
    for_each_level c meta (Get_Match c get (ExtractUserKey ikey) ikey) levels 1 (ExtractUserKey ikey) ikey st = Some st' /\
    outcome (first_hit ikey cands) (saver_value st) st' more /\
    newest_visible (files :: levels) ikey (first_hit ikey (fs ++ cands))).
  { intros st H1 H2. destruct (for_each_level_spec ikey levels 1 st) as (cands & st' & more & E & Ho & Hc & Hs); try done;
      [intros f Hx; apply Hok, elem_of_app; by right|apply (version_levels _ Hv)|].
    exists cands, st', more. split; [done|]. split; [done|]. apply first_hit_newest; [by apply covers_app|].
    apply StronglySorted_app_2; [|done|done]. intros f g Hf Hg. apply Hnew; [by apply Hcov|by apply Hc]. }
  pose proof (call_each_spec ikey 0 fs st0 HG1 ltac:(intros f Hx; apply Hok, elem_of_app; left; by apply Hcov) eq_refl eq_refl) as Hc.
  destruct (call_each _ 0 fs st0) as [st1 more]. cbn [saver_value st0] in Hc.
  destruct (first_hit ikey fs) as [e|] eqn:Eh.
  - destruct Hc as (-> & p & Hp & Hr). destruct (Hlev st0) as (cands & _ & _ & _ & _ & Hnv); try done.
    rewrite first_hit_app, Eh in Hnv. eexists (Some e), _, _, _. split; [done|]. cbn [mbind option_bind]. split; [done|].
    exists p. split; [done|]. destruct (decide (type p = kTypeValue)); destruct Hr as (-> & ?); naive_solver.
  - destruct Hc as (-> & H1 & H2 & H3). destruct (Hlev st1 H1 H3) as (cands & st' & more & -> & Ho & Hnv).
    rewrite first_hit_app, Eh in Hnv. eexists _, _, _, _. split; [exact Hnv|]. cbn [mbind option_bind]. split; [done|].
    rewrite H2 in Ho. unfold outcome in Ho. destruct (first_hit ikey cands) as [e|].
    + destruct Ho as (_ & p & Hp & Hr). exists p. split; [done|]. destruct (decide (type p = kTypeValue)); destruct Hr as (-> & ?); naive_solver.
    + destruct Ho as (_ & _ & ? & ->). done.
Qed.

(** The statistics name a file of the version. *)
Definition stats_in (fs : list P) (st : GetState (P := P)) : Prop :=
  (forall f, seek_file (g_stats st) = Some f -> f ∈ fs) /\ (forall f, last_file_read st = Some f -> f ∈ fs).

Lemma Get_Match_stats u ikey fs st level f :
  stats_in fs st -> f ∈ fs -> stats_in fs (fst (Get_Match c get u ikey st level f)).
Proof.
  intros [H1 H2] Hf. unfold Get_Match. destruct (get f ikey) as [s found].
  destruct (match found with Some (k, v) => _ | None => _ end) as [state v].
  destruct (negb (ok s)); [|destruct state]; cbn [fst]; split; cbn [g_stats last_file_read]; try (by intros g [= <-]);
    intros g; destruct (seek_file (g_stats st)) eqn:Es; rewrite ?Es; auto; destruct (last_file_read st) eqn:El; rewrite ?Es; auto;
    cbn [seek_file]; intros [= <-]; auto.
Qed.

Lemma call_each_stats u ikey fs level gs : forall st,
  stats_in fs st -> (forall f, f ∈ gs -> f ∈ fs) -> stats_in fs (fst (call_each (Get_Match c get u ikey) level gs st)).
Proof.
  induction gs as [|g gs IH]; intros st Hs Hg; cbn [call_each]; [done|].
  pose proof (Get_Match_stats u ikey fs st level g Hs (Hg g ltac:(by apply elem_of_cons; left))) as Hm.
  destruct (Get_Match c get u ikey st level g) as [st' []]; cbn [fst] in *; [|done]. apply IH; [done|]. intros f Hf. apply Hg.
  by apply elem_of_cons; right.
Qed.

Lemma level_candidate_elem files u ikey fs f : level_candidate c meta files u ikey = Some fs -> f ∈ fs -> f ∈ files.
Proof.
  unfold level_candidate. destruct files as [|g files]; [by intros [= <-]|].
  destruct (FindFile c meta (g :: files) ikey) as [i|]; [|done]. cbn [mbind option_bind]. destruct (_ <? _); [|by intros [= <-] ?%not_elem_of_nil].
  destruct ((g :: files) !! Z.to_nat i) as [h|] eqn:E; [|done]. cbn [mbind option_bind].
  destruct (_ <? 0); intros [= <-] Hf; [by apply not_elem_of_nil in Hf|]. apply list_elem_of_singleton in Hf as ->.
  by eapply list_elem_of_lookup_2.
Qed.

Lemma for_each_level_stats u ikey fs levels : forall level st st',
  stats_in fs st -> (forall f, f ∈ concat levels -> f ∈ fs) ->
  for_each_level c meta (Get_Match c get u ikey) levels level u ikey st = Some st' -> stats_in fs st'.
Proof.
  induction levels as [|files levels IH]; intros level st st' Hs Hl; cbn [for_each_level]; [by intros [= <-]|].
  destruct (level_candidate c meta files u ikey) as [gs|] eqn:E; [|done]. cbn [mbind option_bind].
  pose proof (call_each_stats u ikey fs level gs st Hs) as Hc. destruct (call_each _ level gs st) as [st1 more]. cbn [fst] in Hc.
  assert (stats_in fs st1) as H1.
  { apply Hc. intros f Hf. apply Hl. cbn [concat]. apply elem_of_app. left. by eapply level_candidate_elem. }
  destruct more; [|by intros [= <-]]. apply IH; [done|]. intros f Hf. apply Hl. cbn [concat]. apply elem_of_app. by right.
Qed.

Lemma Version_Get_stats files_ k value s v stats f :
  Version_Get c meta get files_ k value = Some (s, v, stats) -> seek_file stats = Some f -> f ∈ concat files_.
Proof.
  unfold Version_Get, ForEachOverlapping. set (st0 := mkGetState _ _ _ _ _ _ _). set (u := lookup_user_key k). set (ikey := internal_key k).
  assert (Hfs : forall g, g ∈ sort_newest meta (List.filter (holds_key c meta u) (hd [] files_)) -> g ∈ concat files_).
  { intros g Hg. unfold sort_newest in Hg. rewrite (merge_sort_Permutation (newer_or_same meta)) in Hg.
    apply list_elem_of_In, filter_In in Hg as [Hg _]. destruct files_ as [|fs levels]; [done|]. apply elem_of_app. left. by apply list_elem_of_In. }
  pose proof (call_each_stats u ikey (concat files_) 0 _ st0 ltac:(done) Hfs) as Hc.
  destruct (call_each _ 0 _ st0) as [st1 more]. cbn [fst] in Hc. destruct more; cbn [mbind option_bind].
  - destruct (for_each_level _ _ _ _ _ _ _ _) as [st|] eqn:E; [|done]. cbn [mbind option_bind]. intros [= _ _ <-].
    eapply for_each_level_stats in E; [|exact Hc|]; [by apply E|]. intros g Hg. destruct files_; [done|]. apply elem_of_app. by right.
  - intros [= _ _ <-]. apply Hc.
Qed.

(** a point lookup in a version returns the value of the newest entry of the
    user key that the snapshot sees, wherever it lies; if that entry is a deletion,
    or there is none, it returns [NotFound] and leaves the caller's string alone. *)
Theorem version_get files_ u seq value :
  version_ok files_ -> files_ <> [] -> TableGet get (concat files_) ->
  let k := LookupKey_make u seq in
  exists o s value' stats, newest_visible files_ (internal_key k) o /\
    Version_Get c meta get files_ k value = Some (s, value', stats) /\
    match o with
    | Some e => exists p, ParseInternalKey (fst e) = Some p /\
        if decide (type p = kTypeValue) then ok s = true /\ value' = snd e
        else s = NotFound [] [] /\ value' = value
    | None => s = NotFound [] [] /\ value' = value
    end.
Proof. exact (Version_Get_newest files_ u seq value). Qed.

End Lookup.

Section Inputs.

Context (c : Comparator) {L : ComparatorLaws c} {P : Type} (meta : P -> FileMetaData).

Notation ucmp := (Compare c).

(** the inputs collected for a range are found after finitely many restarts;
    they are files of the level, in order, and include every file that overlaps the
    range; above level 0 they are exactly those; in level 0 no file left out
    overlaps one that was taken. *)
Theorem overlapping_inputs files_ level begin end_ files :
  0 <= level < kNumLevels -> files_ !! Z.to_nat level = Some files ->
  let lo := option_map InternalKey_user_key begin in
  let hi := option_map InternalKey_user_key end_ in
  exists inputs, GetOverlappingInputs c meta files_ level begin end_ = Some inputs /\
    inputs `sublist_of` files /\
    (forall f, f ∈ files -> overlaps c meta lo hi f = true -> f ∈ inputs) /\
    (level <> 0 -> inputs = List.filter (overlaps c meta lo hi) files) /\
    (level = 0 -> forall f g, f ∈ inputs -> g ∈ files -> g ∉ inputs -> apart c meta f g).
Proof.
  intros Hl Hf lo hi.
  destruct (GetOverlappingInputs_spec c meta files_ level begin end_ files Hl Hf) as (lo' & hi' & inputs & E & Hw & Hin & Hr).
  fold lo hi in Hw, Hr. exists inputs. split; [done|].
  assert (Hmem : forall f, f ∈ inputs <-> f ∈ files /\ overlaps c meta lo' hi' f = true).
  { intros f. rewrite Hin, !list_elem_of_In, filter_In. done. }
  split; [|split; [|split]].
  - rewrite Hin. clear. induction files as [|f files IH]; cbn; [constructor|]. destruct (overlaps _ _ _ _ f); by constructor.
  - intros f Hfi Ho. apply Hmem. split; [done|]. by apply (wider_overlaps c meta lo hi).
  - intros Hne. rewrite (proj2 (Z.eqb_neq _ _) Hne) in Hr. destruct Hr as [-> ->]. done.
  - intros ->. rewrite Z.eqb_refl, Forall_forall in Hr. intros f g Hfi Hg Hng. apply (within_apart c meta lo' hi'); [by apply Hr|].
    apply not_true_iff_false. intros Ho. apply Hng, Hmem. done.
Qed.

(** ** The level for a memtable's output *)

(** A level the output may skip: none of its files overlaps the range. *)
Definition clear_of (lo hi : bytes) (files : list P) : Prop :=
  forall f, f ∈ files -> overlaps c meta (Some lo) (Some hi) f = false.

Definition searchable (level : nat) (files : list P) : Prop :=
  Z.of_nat (length files) < 2 ^ 31 /\
  ((0 < level)%nat -> level_ok c meta files /\ Forall (fun f => tag_ok (f_largest meta f)) files).

Lemma OverlapInLevel_spec files_ level files lo hi :
  0 <= level -> files_ !! Z.to_nat level = Some files -> searchable (Z.to_nat level) files ->
  exists b, OverlapInLevel c meta files_ level (Some lo) (Some hi) = Some b /\ (b = false -> clear_of lo hi files).
Proof.
  intros Hl Hf [Hn Hs]. exists (existsb (overlaps c meta (Some lo) (Some hi)) files). split.
  - unfold OverlapInLevel. rewrite Hf. cbn [mbind option_bind]. destruct (Z.ltb_spec 0 level) as [Hp|Hp].
    + destruct Hs as [H1 H2]; [lia|]. by apply (SomeFileOverlapsRange_spec c meta).
    + unfold SomeFileOverlapsRange. cbn [negb]. done.
  - intros Hb f Hfi. apply not_true_iff_false. intros Ho. apply (not_true_iff_false (existsb _ _)) in Hb. apply Hb.
    apply existsb_exists. exists f. split; [by apply list_elem_of_In|done].
Qed.

Lemma pick_level_loop_spec options files_ lo hi fuel : forall level,
  (forall i files, files_ !! i = Some files -> searchable i files) -> length files_ = Z.to_nat kNumLevels ->
  0 <= level <= kMaxMemCompactLevel -> kMaxMemCompactLevel - level < Z.of_nat fuel ->
  (forall i files, files_ !! i = Some files -> (i <= Z.to_nat level)%nat -> clear_of lo hi files) ->
  exists r, pick_level_loop c meta options fuel files_ level lo hi = Some r /\ level <= r <= kMaxMemCompactLevel /\
    forall i files, files_ !! i = Some files -> (i <= Z.to_nat r)%nat -> clear_of lo hi files.
Proof.
  unfold kMaxMemCompactLevel, kNumLevels. induction fuel as [|fuel IH]; intros level Hs Hlen Hl Hf Hc; [lia|].
  cbn [pick_level_loop]. unfold kMaxMemCompactLevel. destruct (Z.ltb_spec level 2) as [Hlt|Hge].
  2:{ exists level. split; [done|]. split; [lia|done]. }
  destruct (lookup_lt_is_Some_2 files_ (Z.to_nat (level + 1))) as [files Hfi]; [lia|].
  destruct (OverlapInLevel_spec files_ (level + 1) files lo hi) as (b & -> & Hb); [lia|done|by apply Hs|].
  cbn [mbind option_bind]. destruct b; [exists level; split; [done|]; split; [lia|done]|]. unfold kNumLevels.
  rewrite (proj2 (Z.ltb_lt (level + 2) 7)) by lia.
  destruct (lookup_lt_is_Some_2 files_ (Z.to_nat (level + 2))) as [files2 Hf2]; [lia|].
  destruct (GetOverlappingInputs_spec c meta files_ (level + 2)
    (Some (InternalKey_make lo kMaxSequenceNumber kValueTypeForSeek)) (Some (InternalKey_make hi 0 kTypeDeletion)) files2)
    as (lo' & hi' & inputs & -> & _); [unfold kNumLevels; lia|done|].
  cbn [mbind option_bind]. destruct (_ <? TotalFileSize _ _).
  { exists level. split; [done|]. split; [lia|done]. }
  destruct (IH (level + 1)) as (r & -> & Hr & Hcl); try done; [lia|lia| |exists r; split; [done|]; split; [lia|done]].
  intros i fs Hi Hle. destruct (decide (i = Z.to_nat (level + 1))) as [->|Hne]; [rewrite Hfi in Hi; simplify_eq; by apply Hb|].
  apply (Hc i); [done|lia].
Qed.

(** the level chosen for the table made from a memtable is at most 2, and when
    it is above 0 no file of any level up to it overlaps the table's keys, so that
    a lookup still meets newer entries first. *)
Theorem memtable_output_level options files_ lo hi :
  (forall i files, files_ !! i = Some files -> searchable i files) -> length files_ = Z.to_nat kNumLevels ->
  exists r, PickLevelForMemTableOutput c meta options files_ lo hi = Some r /\ 0 <= r <= kMaxMemCompactLevel /\
    (0 < r -> forall i files, files_ !! i = Some files -> (i <= Z.to_nat r)%nat -> clear_of lo hi files).
Proof.
  intros Hs Hlen. unfold PickLevelForMemTableOutput.
  destruct (lookup_lt_is_Some_2 files_ 0) as [files Hf]; [rewrite Hlen; unfold kNumLevels; lia|].
  destruct (OverlapInLevel_spec files_ 0 files lo hi) as (b & -> & Hb); [lia|done|by apply (Hs 0%nat)|].
  cbn [mbind option_bind]. destruct b; [exists 0; split; [done|]; unfold kMaxMemCompactLevel; split; lia|].
  destruct (pick_level_loop_spec options files_ lo hi (S (Z.to_nat kMaxMemCompactLevel)) 0) as (r & -> & Hr & Hc); try done.
  - intros i fs Hi Hle. assert (i = 0%nat) as -> by lia. rewrite Hf in Hi. simplify_eq. by apply Hb.
  - exists r. split; [done|]. split; [lia|done].
Qed.

End Inputs.

Section Cursor.

Context (c : Comparator) {L : ComparatorLaws c} {P : Type} (meta : P -> FileMetaData).

Notation icmp := (ikey_Compare c).

#[local] Existing Instance icmp_three_way.
#[local] Existing Instance Level_iterator.

(** ** The files of a level as an index *)

Definition level_entries (files : list P) : list entry := map (fun f => (f_largest meta f, file_value meta f)) files.

Definition level_pos (files : list P) (it : LevelFileNumIterator) (p : option nat) : Prop :=
  flist_ it = files /\
  match p with
  | Some i => index_ it = Z.of_nat i /\ (i < length files)%nat
  | None => Z.of_nat (length files) <= index_ it
  end.

Lemma below_files key files : below icmp key (level_entries files) = files_before c meta key files.
Proof. unfold level_entries. induction files as [|f files IH]; cbn [below files_before map]; [done|]. destruct (_ <? 0); [by rewrite IH|done]. Qed.

Lemma level_entries_length files : length (level_entries files) = length files.
Proof. apply length_map. Qed.

Lemma level_at files i it :
  flist_ it = files -> index_ it = Z.of_nat i -> level_pos files it (clip (level_entries files) i).
Proof.
  intros Hf Hi. split; [done|]. unfold clip. rewrite level_entries_length. destruct (decide _); [done|lia].
Qed.

Lemma Level_iterates files :
  level_ok c meta files -> Z.of_nat (length files) < 2 ^ 31 ->
  IteratesWithin (H := Level_iterator c meta) any_target icmp (level_entries files) (level_pos files).
Proof.
  intros Hok Hn. split.
  - intros it p [Hf Hp]. cbn. unfold Level_Valid. rewrite Hf. destruct p as [i|].
    + rewrite bool_decide_true by done. lia.
    + rewrite bool_decide_false by (by intros [? ?]). lia.
  - intros it i [Hf [Hi Hlt]]. cbn. unfold Level_key, Level_value. rewrite Hf, Hi, Nat2Z.id.
    unfold level_entries. rewrite list_lookup_fmap. by destruct (lookup_lt_is_Some_2 files i Hlt) as [f ->].
  - done.
  - intros it p [Hf _]. cbn. eexists. split; [done|]. by apply level_at.
  - intros it p [Hf _]. cbn. eexists. split; [done|]. unfold last_pos, before. rewrite level_entries_length.
    split; [done|]. cbn [index_]. rewrite Hf. destruct files as [|f files]; [cbn; lia|].
    cbn [length] in *. rewrite u32_small by lia. lia.
  - intros it p target [Hf _]. change (@it_Seek _ (Level_iterator c meta) it target) with (Level_Seek c meta it target).
    unfold Level_Seek. rewrite Hf, (FindFile_spec c meta) by done. cbn [mbind option_bind].
    eexists. split; [done|]. unfold seek_pos. rewrite below_files. by apply level_at.
  - intros it i [Hf [Hi Hlt]]. cbn. unfold Level_Next, Level_Valid. rewrite Hf, Hi. rewrite (proj2 (Z.ltb_lt _ _)) by lia. cbn [negb].
    eexists. split; [done|]. apply level_at; [done|]. cbn [index_]. rewrite u32_small by lia. lia.
  - intros it i [Hf [Hi Hlt]]. cbn. unfold Level_Prev, Level_Valid. rewrite Hf, Hi. rewrite (proj2 (Z.ltb_lt _ _)) by lia. cbn [negb].
    destruct i as [|i].
    + eexists. split; [done|]. split; [done|]. cbn [before index_]. rewrite u32_small by lia. lia.
    + rewrite (proj2 (Z.eqb_neq _ _)) by lia. eexists. split; [done|]. split; [done|]. cbn [before index_]. split; lia.
Qed.

(** ** The concatenating iterator *)

Context {D : Type} `{Iterator D} (cache_NewIterator : Z -> Z -> option D).
Context (content : P -> list entry) (posD : P -> D -> option nat -> Prop).

(** The cache opens an iterator over the file's entries. *)
Definition opens (f : P) : Prop :=
  0 <= number (meta f) < 2 ^ 64 /\ 0 <= file_size (meta f) < 2 ^ 64 /\
  IteratesOver icmp (content f) (posD f) /\
  exists d, cache_NewIterator (number (meta f)) (file_size (meta f)) = Some d /\ posD f d None.

(** The file of an index entry. *)
Definition file_of (files : list P) (v : bytes) : option P := List.find (fun f => slice_eq (file_value meta f) v) files.
Definition content_of (files : list P) (v : bytes) : list entry :=
  match file_of files v with Some f => content f | None => [] end.
Definition pos_of (files : list P) (v : bytes) (d : EmptyIterator + D) (p : option nat) : Prop :=
  match file_of files v with Some f => pos_sum (fun _ _ => False) (posD f) d p | None => False end.

Lemma file_value_parts f :
  opens f -> blen (file_value meta f) = 16 /\ DecodeFixed64 (file_value meta f) = number (meta f) /\
    DecodeFixed64 (zdrop 8 (file_value meta f)) = file_size (meta f).
Proof.
  intros (Hn & Hs & _). unfold file_value. split; [by rewrite blen_app, !blen_EncodeFixed64|].
  rewrite DecodeFixed64_Encode, zdrop_app by (by rewrite blen_EncodeFixed64).
  rewrite <- (app_nil_r (EncodeFixed64 (file_size (meta f)))), DecodeFixed64_Encode.
  split; by apply u64_small.
Qed.

Lemma file_of_spec files f :
  Forall opens files -> NoDup (map (fun f => number (meta f)) files) -> f ∈ files -> file_of files (file_value meta f) = Some f.
Proof.
  intros Ho Hnd Hf. unfold file_of. induction files as [|g files IH]; [by apply not_elem_of_nil in Hf|].
  cbn [List.find map] in *. apply NoDup_cons in Hnd as [Hni Hnd]. apply Forall_cons in Ho as [Hg Ho].
  destruct (slice_eq (file_value meta g) (file_value meta f)) eqn:E.
  - apply elem_of_cons in Hf as [->|Hf]; [done|]. exfalso. apply Hni. apply slice_eq_spec in E.
    rewrite Forall_forall in Ho. destruct (file_value_parts g Hg) as (_ & H1 & _), (file_value_parts f (Ho f Hf)) as (_ & H2 & _).
    rewrite <- H1, E, H2. apply list_elem_of_In, (in_map (fun f => number (meta f))). by apply list_elem_of_In.
  - apply elem_of_cons in Hf as [->|Hf]; [|by apply IH].
    assert (slice_eq (file_value meta g) (file_value meta g) = true) by (by apply slice_eq_spec). congruence.
Qed.

Lemma GetFileIterator_spec f :
  opens f -> exists d, GetFileIterator cache_NewIterator (file_value meta f) = Some (inr d) /\ posD f d None.
Proof.
  intros Hf. destruct (file_value_parts f Hf) as (Hl & Hn & Hs). destruct Hf as (_ & _ & _ & d & Hd & Hp).
  exists d. unfold GetFileIterator. rewrite Hl, Hn, Hs, Hd. done.
Qed.

(** It satisfies the contract for the entries of all files. *)
Lemma NewConcatenatingIterator_iterates files :
  (forall f, f ∈ files -> table_ok c meta content f) -> level_ok c meta files -> Z.of_nat (length files) < 2 ^ 31 ->
  Forall opens files -> NoDup (map (fun f => number (meta f)) files) ->
  exists pos, IteratesWithin (H := TwoLevel_ops (H := Level_iterator c meta)) any_target icmp (concat (map content files)) pos /\
    pos (NewConcatenatingIterator c meta cache_NewIterator files) None.
Proof.
  intros Hok Hlv Hn Ho Hnd.
  assert (Hfile : forall v, v ∈ map snd (level_entries files) -> exists f, f ∈ files /\ v = file_value meta f).
  { intros v Hv. apply list_elem_of_In, in_map_iff in Hv as (e & <- & He). unfold level_entries in He.
    apply in_map_iff in He as (f & <- & Hf). exists f. split; [by apply list_elem_of_In|done]. }
  assert (Hat : forall i k v, level_entries files !! i = Some (k, v) ->
    exists f, files !! i = Some f /\ k = f_largest meta f /\ v = file_value meta f).
  { intros i k v Hi. unfold level_entries in Hi. rewrite list_lookup_fmap in Hi. destruct (files !! i) as [f|]; [|done].
    cbn in Hi. simplify_eq. by exists f. }
  assert (Hfo : forall f, f ∈ files -> file_of files (file_value meta f) = Some f) by (intros f; by apply file_of_spec).
  rewrite Forall_forall in Ho.
  assert (Hall : concat (map content files) = all_entries (level_entries files) (content_of files)).
  { unfold all_entries, blocks, level_entries. f_equal. rewrite map_map. apply map_ext_in. intros f Hf. cbn [snd].
    unfold content_of. by rewrite Hfo by (by apply list_elem_of_In). }
  rewrite Hall.
  pose proof (Level_iterates files Hlv Hn) as HX.
  assert (HD : forall v, v ∈ map snd (level_entries files) -> IteratesOver icmp (content_of files v) (pos_of files v)).
  { intros v (f & Hf & ->)%Hfile. unfold content_of, pos_of. rewrite (Hfo f Hf). destruct (Ho f Hf) as (_ & _ & Hit & _).
    apply sum_iterates; [|done]. split; done. }
  assert (Hbf : forall v, v ∈ map snd (level_entries files) ->
    exists d, GetFileIterator cache_NewIterator v = Some d /\ pos_of files v d None).
  { intros v (f & Hf & ->)%Hfile. destruct (GetFileIterator_spec f (Ho f Hf)) as (d & E & Hp). exists (inr d). split; [done|].
    unfold pos_of. by rewrite (Hfo f Hf). }
  assert (Hup : forall i k v e, level_entries files !! i = Some (k, v) -> e ∈ content_of files v -> icmp (fst e) k <= 0).
  { intros i k v e (f & Hf & -> & ->)%Hat He. pose proof (list_elem_of_lookup_2 _ _ _ Hf) as Hfi.
    unfold content_of in He. rewrite (Hfo f Hfi) in He. by apply (table_keys c meta content f (Hok f Hfi)). }
  assert (Hlo : forall i j k v k' v' e, (i < j)%nat -> level_entries files !! i = Some (k, v) ->
    level_entries files !! j = Some (k', v') -> e ∈ content_of files v' -> icmp k (fst e) < 0).
  { intros i j k v k' v' e Hij (f & Hf & -> & ->)%Hat (g & Hg & -> & ->)%Hat He.
    pose proof (list_elem_of_lookup_2 _ _ _ Hg) as Hgi. unfold content_of in He. rewrite (Hfo g Hgi) in He.
    destruct Hlv as [_ Hs]. pose proof (StronglySorted_lookup _ _ _ _ _ _ Hs Hf Hg Hij) as Hfg.
    destruct (table_keys c meta content g (Hok g Hgi) e He) as (H1 & _). by eapply (cmp_lt_le_trans icmp). }
  exists (tl_pos (H := Level_iterator c meta) (level_entries files) (level_pos files) (content_of files) (pos_of files) (GetFileIterator cache_NewIterator)).
  split; [by apply TwoLevel_iterates; try apply _|].
  apply NewTwoLevelIterator_pos; [|rewrite level_entries_length; lia].
  split; [done|]. cbn. rewrite u32_small by lia. lia.
Qed.

(** the iterator over a level above 0, which opens the level's tables one after
    the other, behaves under any sequence of moves as a cursor over the entries of
    all of them, provided the tables' own iterators do over theirs. *)
Theorem level_cursor files ms p :
  (forall f, f ∈ files -> table_ok c meta content f) -> level_ok c meta files -> Z.of_nat (length files) < 2 ^ 31 ->
  Forall opens files -> NoDup (map (fun f => number (meta f)) files) ->
  moves_cursor icmp (concat (map content files)) None ms = Some p ->
  exists it, moves_iter (H := TwoLevel_ops (H := Level_iterator c meta))
      (NewConcatenatingIterator c meta cache_NewIterator files) ms = Some it /\
    shows (H := TwoLevel_ops (H := Level_iterator c meta)) it (p ≫= (concat (map content files) !!.)).
Proof.
  intros Hok Hlv Hn Ho Hnd Hm. destruct (NewConcatenatingIterator_iterates files Hok Hlv Hn Ho Hnd) as (pos & Hit & Hp).
  by apply (moves_show (H := TwoLevel_ops (H := Level_iterator c meta)) _ None ms p).
Qed.

End Cursor.

(** ** A small version

    Files 1 and 2 in level 0 (2 the newer), file 3 in level 1, file 4 in level 2. *)

Definition ex_key (u : string) (seq : Z) (t : ValueType) : bytes :=
  AppendInternalKey [] (mkParsedInternalKey (str u) seq t).

Definition ex_content (f : nat) : list entry :=
  match f with
  | 1%nat => [(ex_key "a" 5 kTypeValue, str "a5"); (ex_key "c" 6 kTypeValue, str "c6")]
  | 2%nat => [(ex_key "b" 8 kTypeDeletion, []); (ex_key "c" 9 kTypeValue, str "c9"); (ex_key "c" 7 kTypeValue, str "c7")]
  | 3%nat => [(ex_key "b" 3 kTypeValue, str "b3"); (ex_key "d" 4 kTypeValue, str "d4")]
  | 4%nat => [(ex_key "d" 2 kTypeValue, str "d2"); (ex_key "e" 1 kTypeValue, str "e1")]
  | _ => []
  end.

Definition ex_meta (f : nat) : FileMetaData :=
  FileMetaData_make (Z.of_nat f) 100
    (mkInternalKey (default [] (head (map fst (ex_content f)))))
    (mkInternalKey (default [] (last (map fst (ex_content f))))).

Definition ex_files : list (list nat) := [[1; 2]; [3]; [4]; []; []; []; []]%nat.

Definition ex_get (f : nat) (k : bytes) : Status * option entry :=
  (OK, ex_content f !! below (ikey_Compare BytewiseComparator) k (ex_content f)).

Ltac each_in H :=
  apply list_elem_of_In in H; cbv [ex_files concat app hd tail ex_content] in H;
  repeat (destruct H as [<-|H]); [..|destruct H].

Lemma ex_tables f : f ∈ concat ex_files -> table_ok BytewiseComparator ex_meta ex_content f.
Proof.
  intros Hf. each_in Hf; (split; [repeat constructor; vm_compute; reflexivity| |]);
    try (eexists; apply list_elem_of_In; vm_compute; eauto; fail);
    intros e He; each_in He; (split; [vm_compute; discriminate|split; [vm_compute; discriminate|vm_compute; eauto]]).
Qed.

Lemma ex_version_ok : version_ok BytewiseComparator ex_meta ex_content ex_files.
Proof.
  split.
  - apply ex_tables.
  - repeat constructor.
  - repeat (constructor; [split; repeat constructor; vm_compute; discriminate|]). constructor.
  - vm_compute. repeat (constructor; [rewrite list_elem_of_In; intros H; cbn in H; intuition discriminate|]). constructor.
  - intros f g Hf Hg Hlt e e' He He' Hu. each_in Hf; each_in Hg; try (vm_compute in Hlt; discriminate);
      each_in He; each_in He'; vm_compute in Hu |- *; congruence.
  - intros i j fs gs f g Hi Hj Hij Hf Hg e e' He He' Hu.
    do 3 (destruct i as [|i]; [cbn in Hi; simplify_eq; each_in Hf; clear -Hj Hij Hg He He' Hu;
      (do 3 (destruct j as [|j]; [cbn in Hj; simplify_eq; each_in Hg; try lia;
         each_in He; each_in He'; vm_compute in Hu |- *; congruence|]);
       do 4 (destruct j as [|j]; [cbn in Hj; simplify_eq; by apply not_elem_of_nil in Hg|]); done)|]).
    do 4 (destruct i as [|i]; [cbn in Hi; simplify_eq; by apply not_elem_of_nil in Hf|]). done.
Qed.

Lemma ex_TableGet : TableGet BytewiseComparator ex_content ex_get (concat ex_files).
Proof. split; done. Qed.

Example ex_get_found :
  option_map fst (Version_Get BytewiseComparator ex_meta ex_get ex_files (LookupKey_make (str "d") 9) []) =
  Some (OK, str "d4").
Proof. vm_compute. reflexivity. Qed.

Lemma version_get_witness :
  let k := LookupKey_make (str "b") 9 in
  exists o s value' stats, newest_visible BytewiseComparator ex_content ex_files (internal_key k) o /\
    Version_Get BytewiseComparator ex_meta ex_get ex_files k [] = Some (s, value', stats) /\
    match o with
    | Some e => exists p, ParseInternalKey (fst e) = Some p /\
        if decide (type p = kTypeValue) then ok s = true /\ value' = snd e
        else s = NotFound [] [] /\ value' = []
    | None => s = NotFound [] [] /\ value' = []
    end.
Proof.
  apply (version_get BytewiseComparator ex_meta ex_content ex_get ex_files (str "b") 9 []);
    [exact ex_version_ok|done|exact ex_TableGet].
Defined.

Lemma overlapping_inputs_witness :
  exists inputs,
    GetOverlappingInputs BytewiseComparator ex_meta ex_files 0
      (Some (smallest (ex_meta 1))) (Some (smallest (ex_meta 1))) = Some inputs /\
    inputs = [1; 2]%nat /\
    (0 = 0 -> forall f g, f ∈ inputs -> g ∈ [1; 2]%nat -> g ∉ inputs -> apart BytewiseComparator ex_meta f g).
Proof.
  destruct (overlapping_inputs BytewiseComparator ex_meta ex_files 0
    (Some (smallest (ex_meta 1))) (Some (smallest (ex_meta 1))) [1; 2]%nat) as (inputs & E & _ & _ & _ & H);
    [vm_compute; split; [discriminate|reflexivity]|reflexivity|].
  exists inputs. split; [exact E|]. split; [vm_compute in E; congruence|exact H].
Defined.

Lemma ex_searchable i files : ex_files !! i = Some files -> searchable BytewiseComparator ex_meta i files.
Proof.
  intros Hi. do 7 (destruct i as [|i]; [cbn in Hi; simplify_eq; (split; [cbn; lia|]); intros H; try lia;
    (split; [split; repeat constructor; vm_compute; discriminate|repeat constructor; vm_compute; discriminate])|]). done.
Qed.

Lemma memtable_output_level_witness :
  exists r, PickLevelForMemTableOutput BytewiseComparator ex_meta Options_default ex_files (str "f") (str "g") = Some r /\
    0 <= r <= kMaxMemCompactLevel /\
    (0 < r -> forall i files, ex_files !! i = Some files -> (i <= Z.to_nat r)%nat ->
       clear_of BytewiseComparator ex_meta (str "f") (str "g") files).
Proof.
  apply (memtable_output_level BytewiseComparator ex_meta Options_default ex_files (str "f") (str "g"));
    [exact ex_searchable|reflexivity].
Defined.

(** Files 3 and 4 as the files of one level. *)
Definition ex_open (number size : Z) : option ListIterator :=
  Some (mkListIter (InternalKeyComparator BytewiseComparator) (ex_content (Z.to_nat number)) None).

Lemma level_cursor_witness :
  exists it,
    moves_iter (H := TwoLevel_ops (H := Level_iterator BytewiseComparator ex_meta))
      (NewConcatenatingIterator BytewiseComparator ex_meta ex_open [3; 4]%nat)
      [ToTarget (ex_key "d" 3 kTypeValue); Forth; Back; Back] = Some it /\
    shows (H := TwoLevel_ops (H := Level_iterator BytewiseComparator ex_meta)) it (Some (ex_key "d" 4 kTypeValue, str "d4")).
Proof.
  apply (level_cursor BytewiseComparator ex_meta ex_open ex_content
    (fun f => li_at (InternalKeyComparator BytewiseComparator) (ex_content f)) [3; 4]%nat
    [ToTarget (ex_key "d" 3 kTypeValue); Forth; Back; Back] (Some 1%nat)).
  - intros f Hf. apply ex_tables. apply list_elem_of_In in Hf. apply list_elem_of_In. cbn in *. tauto.
  - split; [repeat constructor; vm_compute; discriminate|repeat constructor; vm_compute; reflexivity].
  - cbn. lia.
  - apply Forall_cons. split; [|apply Forall_cons; split; [|by apply Forall_nil]];
      (split; [vm_compute; split; congruence|]; split; [vm_compute; split; congruence|];
       split; [exact (ListIterator_iterates (InternalKeyComparator BytewiseComparator) _)|];
       eexists; split; [reflexivity|]; split; [reflexivity|]; intros ? [=]).
  - vm_compute. repeat (constructor; [rewrite list_elem_of_In; intros H; cbn in H; intuition discriminate|]). constructor.
  - vm_compute. reflexivity.
Defined.
