(* ===== verification/Compaction.v ===== *)
(** * Compactions

    The part of [db/version_set.cc] that decides what to compact: the score of a
    version ([Finalize]), the choice of input files ([PickCompaction],
    [CompactRange], [SetupOtherInputs]) and [class Compaction].  As in [Version], a
    pointer to a file's metadata is an element of [P]. *)

From S2P Require Import Prelude Slice Coding Status Logging Comparator DbFormat VersionEdit Format Iterator Options Version.
From Stdlib Require Import SpecFloat.

(** ** [double] *)

Definition double_prec : Z := 53.
Definition double_emax : Z := 1024.

Definition double_of (n : Z) : spec_float := binary_normalize double_prec double_emax n 0 false.
Definition double_mul : spec_float -> spec_float -> spec_float := SFmul double_prec double_emax.
Definition double_div : spec_float -> spec_float -> spec_float := SFdiv double_prec double_emax.

(** The loop of [MaxBytesForLevel]: [level - 1] products. *)
Definition MaxBytesForLevel (level : Z) : spec_float :=
  Nat.iter (Z.to_nat (level - 1)) (fun result => double_mul result (double_of 10))
    (double_mul (double_of 10) (double_of 1048576)).

(** What a [Version] holds besides its links and its reference count. *)
Record Version (P : Type) := mkVersion {
  files_ : list (list P);
  file_to_compact_ : option P;
  file_to_compact_level_ : Z;
  compaction_score_ : spec_float;
  compaction_level_ : Z
}.
Arguments mkVersion {P}.
Arguments files_ {P}.
Arguments file_to_compact_ {P}.
Arguments file_to_compact_level_ {P}.
Arguments compaction_score_ {P}.
Arguments compaction_level_ {P}.

Definition Version_new {P} : Version P :=
  mkVersion (replicate (Z.to_nat kNumLevels) []) None (-1) (double_of (-1)) (-1).

(** [class Compaction].  [input_files] are the files of [input_version_]. *)
Record Compaction (P : Type) := mkCompaction {
  level_ : Z;
  max_output_file_size_ : Z;
  input_files : list (list P);
  edit_ : VersionEdit;
  inputs_0 : list P;
  inputs_1 : list P;
  grandparents_ : list P;
  grandparent_index_ : Z;
  seen_key_ : bool;
  overlapped_bytes_ : Z;
  level_ptrs_ : list Z
}.
Arguments mkCompaction {P}.
Arguments level_ {P}.
Arguments max_output_file_size_ {P}.
Arguments input_files {P}.
Arguments edit_ {P}.
Arguments inputs_0 {P}.
Arguments inputs_1 {P}.
Arguments grandparents_ {P}.
Arguments grandparent_index_ {P}.
Arguments seen_key_ {P}.
Arguments overlapped_bytes_ {P}.
Arguments level_ptrs_ {P}.

Section Choose.

Context (options : Options) (c : Comparator) {P : Type} (meta : P -> FileMetaData).

Notation icmp := (ikey_Compare c).
Notation ucmp := (Compare c).

(** ** [Finalize] *)

Definition level_score (level : Z) (files : list P) : spec_float :=
  if level =? 0 then double_div (double_of (Z.of_nat (length files))) (double_of kL0_CompactionTrigger)
  else double_div (double_of (u64 (TotalFileSize meta files))) (MaxBytesForLevel level).

Fixpoint finalize_loop (levels : list (list P)) (level best_level : Z) (best_score : spec_float) : Z * spec_float :=
  match levels with
  | [] => (best_level, best_score)
  | files :: levels =>
      let score := level_score level files in
      if SFltb best_score score then finalize_loop levels (level + 1) level score
      else finalize_loop levels (level + 1) best_level best_score
  end.

Definition Finalize (v : Version P) : Version P :=
  let '(best_level, best_score) :=
    finalize_loop (take (Z.to_nat (kNumLevels - 1)) (files_ v)) 0 (-1) (double_of (-1)) in
  mkVersion (files_ v) (file_to_compact_ v) (file_to_compact_level_ v) best_score best_level.

Definition NeedsCompaction (v : Version P) : bool :=
  SFleb (double_of 1) (compaction_score_ v) || match file_to_compact_ v with Some _ => true | None => false end.

Definition NumLevelFiles (v : Version P) (level : Z) : option Z :=
  if negb ((0 <=? level) && (level <? kNumLevels)) then None
  else files ← files_ v !! Z.to_nat level; Some (Z.of_nat (length files)).

Definition NumLevelBytes (v : Version P) (level : Z) : option Z :=
  if negb ((0 <=? level) && (level <? kNumLevels)) then None
  else files ← files_ v !! Z.to_nat level; Some (TotalFileSize meta files).

(** ** Ranges *)

Fixpoint range_loop (inputs : list P) (small large : InternalKey) : InternalKey * InternalKey :=
  match inputs with
  | [] => (small, large)
  | f :: inputs =>
      range_loop inputs
        (if icmp (f_smallest meta f) (rep_ small) <? 0 then smallest (meta f) else small)
        (if 0 <? icmp (f_largest meta f) (rep_ large) then largest (meta f) else large)
  end.

(** [None] is the failed assertion that there are inputs. *)
Definition GetRange (inputs : list P) : option (InternalKey * InternalKey) :=
  match inputs with
  | [] => None
  | f :: inputs => Some (range_loop inputs (smallest (meta f)) (largest (meta f)))
  end.

Definition GetRange2 (inputs1 inputs2 : list P) : option (InternalKey * InternalKey) := GetRange (inputs1 ++ inputs2).

(** The largest overlap of a file with the next level. *)
Fixpoint max_overlap_files (levels : list (list P)) (level : Z) (files : list P) (result : Z) : option Z :=
  match files with
  | [] => Some result
  | f :: files =>
      overlaps ← GetOverlappingInputs c meta levels (level + 1) (Some (smallest (meta f))) (Some (largest (meta f)));
      let sum := TotalFileSize meta overlaps in
      max_overlap_files levels level files (if result <? sum then sum else result)
  end.

Fixpoint max_overlap_levels (levels : list (list P)) (todo : list (list P)) (level : Z) (result : Z) : option Z :=
  match todo with
  | [] => Some result
  | files :: todo =>
      result ← max_overlap_files levels level files result;
      max_overlap_levels levels todo (level + 1) result
  end.

Definition MaxNextLevelOverlappingBytes (v : Version P) : option Z :=
  max_overlap_levels (files_ v) (take (Z.to_nat (kNumLevels - 2)) (tail (files_ v))) 1 0.

(** ** Boundary files *)

Definition FindLargestKey (files : list P) : option InternalKey :=
  match files with
  | [] => None
  | f :: files =>
      Some (fold_left (fun k f => if 0 <? icmp (f_largest meta f) (rep_ k) then largest (meta f) else k)
              files (largest (meta f)))
  end.

Definition is_boundary (largest_key : InternalKey) (f : P) : bool :=
  (0 <? icmp (f_smallest meta f) (rep_ largest_key)) &&
  (ucmp (f_start meta f) (InternalKey_user_key largest_key) =? 0).

Definition FindSmallestBoundaryFile (level_files : list P) (largest_key : InternalKey) : option P :=
  fold_left (fun best f =>
    if is_boundary largest_key f then
      match best with
      | None => Some f
      | Some b => if icmp (f_smallest meta f) (f_smallest meta b) <? 0 then Some f else best
      end
    else best) level_files None.

Fixpoint boundary_loop (fuel : nat) (level_files : list P) (largest_key : InternalKey) (compaction_files : list P)
  : option (list P) :=
  match fuel with
  | O => None
  | S fuel =>
      match FindSmallestBoundaryFile level_files largest_key with
      | Some b => boundary_loop fuel level_files (largest (meta b)) (compaction_files ++ [b])
      | None => Some compaction_files
      end
  end.

(** The key found grows with each file added, so no file is added twice. *)
Definition AddBoundaryInputs (level_files compaction_files : list P) : option (list P) :=
  match FindLargestKey compaction_files with
  | None => Some compaction_files
  | Some largest_key => boundary_loop (S (length level_files)) level_files largest_key compaction_files
  end.

(** ** The inputs of a compaction *)

Definition Compaction_new (level : Z) (version_files : list (list P)) : Compaction P :=
  mkCompaction level (MaxFileSizeForLevel options level) version_files VersionEdit_Clear [] [] [] 0 false 0
    (replicate (Z.to_nat kNumLevels) 0).

Definition set_inputs (comp : Compaction P) (i0 i1 gp : list P) (edit : VersionEdit) : Compaction P :=
  mkCompaction (level_ comp) (max_output_file_size_ comp) (input_files comp) edit i0 i1 gp
    (grandparent_index_ comp) (seen_key_ comp) (overlapped_bytes_ comp) (level_ptrs_ comp).

(** The wider inputs, when they do not need more files of the next level: the
    inputs of both levels and the range of the first ones. *)
Definition try_expand (version_files : list (list P)) (level : Z) (i0 i1 : list P) (small large : InternalKey)
  : option (list P * list P * InternalKey * InternalKey) :=
  '(all_start, all_limit) ← GetRange2 i0 i1;
  match i1 with
  | [] => Some (i0, i1, small, large)
  | _ =>
      level_files ← version_files !! Z.to_nat level;
      next_files ← version_files !! Z.to_nat (level + 1);
      expanded0 ← GetOverlappingInputs c meta version_files level (Some all_start) (Some all_limit);
      expanded0 ← AddBoundaryInputs level_files expanded0;
      let inputs1_size := TotalFileSize meta i1 in
      let expanded0_size := TotalFileSize meta expanded0 in
      if (Z.of_nat (length i0) <? Z.of_nat (length expanded0)) &&
         (inputs1_size + expanded0_size <? ExpandedCompactionByteSizeLimit options)
      then
        '(new_start, new_limit) ← GetRange expanded0;
        expanded1 ← GetOverlappingInputs c meta version_files (level + 1) (Some new_start) (Some new_limit);
        expanded1 ← AddBoundaryInputs next_files expanded1;
        if Z.of_nat (length expanded1) =? Z.of_nat (length i1)
        then Some (expanded0, expanded1, new_start, new_limit)
        else Some (i0, i1, small, large)
      else Some (i0, i1, small, large)
  end.

(** [SetupOtherInputs]: the compaction and the new [compact_pointer_] of its
    level. *)
Definition SetupOtherInputs (comp : Compaction P) (compact_pointer_ : list bytes)
  : option (Compaction P * list bytes) :=
  let level := level_ comp in
  let version_files := input_files comp in
  level_files ← version_files !! Z.to_nat level;
  next_files ← version_files !! Z.to_nat (level + 1);
  i0 ← AddBoundaryInputs level_files (inputs_0 comp);
  '(small, large) ← GetRange i0;
  i1 ← GetOverlappingInputs c meta version_files (level + 1) (Some small) (Some large);
  i1 ← AddBoundaryInputs next_files i1;
  '(i0, i1, small, large) ← try_expand version_files level i0 i1 small large;
  '(all_start, all_limit) ← GetRange2 i0 i1;
  gp ← (if level + 2 <? kNumLevels
        then GetOverlappingInputs c meta version_files (level + 2) (Some all_start) (Some all_limit)
        else Some (grandparents_ comp));
  encoded ← InternalKey_Encode large;
  Some (set_inputs comp i0 i1 gp (SetCompactPointer level large (edit_ comp)),
        <[Z.to_nat level := encoded]> compact_pointer_).

(** The first file past [compact_pointer_[level]], or the first file of all. *)
Definition pick_file (files : list P) (pointer : bytes) : option P :=
  match List.find (fun f => (blen pointer =? 0) || (0 <? icmp (f_largest meta f) pointer)) files with
  | Some f => Some f
  | None => head files
  end.

(** [PickCompaction] of the current version: [Some None] when there is nothing to
    do. *)
Definition PickCompaction (v : Version P) (compact_pointer_ : list bytes)
  : option (option (Compaction P) * list bytes) :=
  let size_compaction := SFleb (double_of 1) (compaction_score_ v) in
  let go level f :=
    let comp := Compaction_new level (files_ v) in
    i0 ← (if level =? 0 then
            '(small, large) ← GetRange [f];
            i0 ← GetOverlappingInputs c meta (files_ v) 0 (Some small) (Some large);
            match i0 with [] => None | _ => Some i0 end
          else Some [f]);
    '(comp, ptrs) ← SetupOtherInputs (set_inputs comp i0 [] [] (edit_ comp)) compact_pointer_;
    Some (Some comp, ptrs) in
  if size_compaction then
    let level := compaction_level_ v in
    if negb ((0 <=? level) && (level + 1 <? kNumLevels)) then None
    else
      files ← files_ v !! Z.to_nat level;
      pointer ← compact_pointer_ !! Z.to_nat level;
      f ← pick_file files pointer;
      go level f
  else
    match file_to_compact_ v with
    | Some f => go (file_to_compact_level_ v) f
    | None => Some (None, compact_pointer_)
    end.

(** The inputs of [CompactRange] up to the size limit. *)
Fixpoint limit_inputs (limit total : Z) (inputs : list P) : list P :=
  match inputs with
  | [] => []
  | f :: inputs =>
      let total := u64 (total + file_size (meta f)) in
      if limit <=? total then [f] else f :: limit_inputs limit total inputs
  end.

Definition CompactRange (v : Version P) (compact_pointer_ : list bytes) (level : Z) (begin end_ : option InternalKey)
  : option (option (Compaction P) * list bytes) :=
  inputs ← GetOverlappingInputs c meta (files_ v) level begin end_;
  match inputs with
  | [] => Some (None, compact_pointer_)
  | _ =>
      let inputs := if 0 <? level then limit_inputs (MaxFileSizeForLevel options level) 0 inputs else inputs in
      let comp := Compaction_new level (files_ v) in
      '(comp, ptrs) ← SetupOtherInputs (set_inputs comp inputs [] [] (edit_ comp)) compact_pointer_;
      Some (Some comp, ptrs)
  end.

(** ** While a compaction runs *)

Definition IsTrivialMove (comp : Compaction P) : bool :=
  (Z.of_nat (length (inputs_0 comp)) =? 1) && (Z.of_nat (length (inputs_1 comp)) =? 0) &&
  (TotalFileSize meta (grandparents_ comp) <=? MaxGrandParentOverlapBytes options).

Definition AddInputDeletions (comp : Compaction P) (edit : VersionEdit) : VersionEdit :=
  let remove level edit f := RemoveFile level (number (meta f)) edit in
  fold_left (remove (level_ comp + 1)) (inputs_1 comp)
    (fold_left (remove (level_ comp)) (inputs_0 comp) edit).

(** The inner loop of [IsBaseLevelForKey] over the files from [ptr] on: the new
    pointer, and whether the key is in the range of the file there. *)
Fixpoint base_level_loop (user_key : bytes) (files : list P) (ptr : Z) : Z * bool :=
  match files with
  | [] => (ptr, false)
  | f :: files =>
      if ucmp user_key (f_limit meta f) <=? 0 then (ptr, 0 <=? ucmp user_key (f_start meta f))
      else base_level_loop user_key files (ptr + 1)
  end.

Fixpoint base_levels_loop (user_key : bytes) (levels : list (list P)) (ptrs : list Z) : bool * list Z :=
  match levels, ptrs with
  | files :: levels, ptr :: ptrs =>
      let '(ptr, inside) := base_level_loop user_key (drop (Z.to_nat ptr) files) ptr in
      if inside : bool then (false, ptr :: ptrs)
      else let '(r, ptrs) := base_levels_loop user_key levels ptrs in (r, ptr :: ptrs)
  | _, _ => (true, ptrs)
  end.

Definition set_level_ptrs (comp : Compaction P) (ptrs : list Z) : Compaction P :=
  mkCompaction (level_ comp) (max_output_file_size_ comp) (input_files comp) (edit_ comp) (inputs_0 comp)
    (inputs_1 comp) (grandparents_ comp) (grandparent_index_ comp) (seen_key_ comp) (overlapped_bytes_ comp) ptrs.

Definition IsBaseLevelForKey (comp : Compaction P) (user_key : bytes) : bool * Compaction P :=
  let first := Z.to_nat (level_ comp + 2) in
  let '(r, ptrs) := base_levels_loop user_key (drop first (input_files comp)) (drop first (level_ptrs_ comp)) in
  (r, set_level_ptrs comp (take first (level_ptrs_ comp) ++ ptrs)).

(** The loop of [ShouldStopBefore] over the grandparents from the index on. *)
Fixpoint stop_loop (internal_key : bytes) (files : list P) (seen : bool) (index overlapped : Z) : Z * Z :=
  match files with
  | [] => (index, overlapped)
  | f :: files =>
      if 0 <? icmp internal_key (f_largest meta f) then
        stop_loop internal_key files seen (index + 1)
          (if seen then i64 (u64 (u64 overlapped + file_size (meta f))) else overlapped)
      else (index, overlapped)
  end.

Definition ShouldStopBefore (comp : Compaction P) (internal_key : bytes) : bool * Compaction P :=
  let '(index, overlapped) :=
    stop_loop internal_key (drop (Z.to_nat (grandparent_index_ comp)) (grandparents_ comp)) (seen_key_ comp)
      (grandparent_index_ comp) (overlapped_bytes_ comp) in
  let stop := MaxGrandParentOverlapBytes options <? overlapped in
  (stop, mkCompaction (level_ comp) (max_output_file_size_ comp) (input_files comp) (edit_ comp) (inputs_0 comp)
    (inputs_1 comp) (grandparents_ comp) index true (if stop then 0 else overlapped) (level_ptrs_ comp)).

End Choose.
