(* ===== verification/CompactionSpec.v ===== *)
(** * The inputs of compactions

    Theorems about [Compaction]: the set of input files is closed under what a
    correct merge needs, and the test that lets a compaction drop deletion markers
    agrees with its definition. *)

From S2P Require Import Prelude Slice Coding Status Logging Comparator DbFormat VersionEdit Format Iterator Options TwoLevel Version VersionSpec Compaction.

Section Inputs.

Context (options : Options) (c : Comparator) {L : ComparatorLaws c} {P : Type} (meta : P -> FileMetaData).

Notation icmp := (ikey_Compare c).
Notation ucmp := (Compare c).
Notation f_smallest := (f_smallest meta).
Notation f_largest := (f_largest meta).
Notation f_start := (f_start meta).
Notation f_limit := (f_limit meta).
Notation file_ok := (file_ok c meta).
Notation apart := (apart c meta).

#[local] Existing Instance icmp_three_way.

(** ** Ranges *)

(** Every file lies within [[small, large]]. *)
Definition bounded (small large : InternalKey) (files : list P) : Prop :=
  forall f, f ∈ files -> icmp (rep_ small) (f_smallest f) <= 0 /\ icmp (f_largest f) (rep_ large) <= 0.

Lemma range_loop_spec inputs : forall small large,
  let '(s, l) := range_loop c meta inputs small large in
  icmp (rep_ s) (rep_ small) <= 0 /\ icmp (rep_ large) (rep_ l) <= 0 /\ bounded s l inputs /\
  (s = small \/ exists f, f ∈ inputs /\ s = smallest (meta f)) /\ (l = large \/ exists f, f ∈ inputs /\ l = largest (meta f)).
Proof.
  induction inputs as [|f inputs IH]; intros small large; cbn [range_loop].
  { rewrite !cmp_refl. split; [lia|]. split; [lia|]. split; [|by split; left]. intros f Hf. by apply not_elem_of_nil in Hf. }
  set (small1 := if icmp (f_smallest f) (rep_ small) <? 0 then _ else _).
  set (large1 := if 0 <? icmp (f_largest f) (rep_ large) then _ else _).
  specialize (IH small1 large1). destruct (range_loop c meta inputs small1 large1) as [s l].
  destruct IH as (H1 & H2 & H3 & H4 & H5).
  assert (Hs : icmp (rep_ small1) (rep_ small) <= 0 /\ icmp (rep_ small1) (f_smallest f) <= 0 /\
    (small1 = small \/ small1 = smallest (meta f))).
  { unfold small1. destruct (Z.ltb_spec (icmp (f_smallest f) (rep_ small)) 0) as [Hlt|Hge].
    - split; [unfold Version.f_smallest in Hlt; lia|]. split; [|by right]. unfold Version.f_smallest. by rewrite cmp_refl.
    - split; [by rewrite cmp_refl|]. split; [|by left]. by apply (cmp_ge_opp icmp). }
  assert (Hl : icmp (rep_ large) (rep_ large1) <= 0 /\ icmp (f_largest f) (rep_ large1) <= 0 /\
    (large1 = large \/ large1 = largest (meta f))).
  { unfold large1. destruct (Z.ltb_spec 0 (icmp (f_largest f) (rep_ large))) as [Hlt|Hge].
    - rewrite <- cmp_opp in Hlt. split; [unfold Version.f_largest in Hlt; lia|]. split; [|by right]. unfold Version.f_largest. by rewrite cmp_refl.
    - split; [by rewrite cmp_refl|]. split; [done|by left]. }
  destruct Hs as (S1 & S2 & S3), Hl as (L1 & L2 & L3).
  split; [by eapply cmp_le_trans|]. split; [by eapply cmp_le_trans|]. split; [|split].
  - intros g Hg. apply elem_of_cons in Hg as [->|Hg]; [|by apply H3]. split; by eapply cmp_le_trans.
  - destruct H4 as [->|(g & Hg & ->)]; [|right; exists g; split; [by apply elem_of_cons; right|done]].
    destruct S3 as [->| ->]; [by left|right; exists f; split; [by apply elem_of_cons; left|done]].
  - destruct H5 as [->|(g & Hg & ->)]; [|right; exists g; split; [by apply elem_of_cons; right|done]].
    destruct L3 as [->| ->]; [by left|right; exists f; split; [by apply elem_of_cons; left|done]].
Qed.

Lemma GetRange_spec inputs :
  inputs <> [] -> exists s l, GetRange c meta inputs = Some (s, l) /\ bounded s l inputs /\
    (exists f, f ∈ inputs /\ s = smallest (meta f)) /\ (exists f, f ∈ inputs /\ l = largest (meta f)).
Proof.
  destruct inputs as [|f inputs]; [done|]. intros _. cbn [GetRange].
  pose proof (range_loop_spec inputs (smallest (meta f)) (largest (meta f))) as Hr.
  destruct (range_loop c meta inputs (smallest (meta f)) (largest (meta f))) as [s l].
  destruct Hr as (H1 & H2 & H3 & H4 & H5). exists s, l. split; [done|]. split; [|split].
  - intros g Hg. apply elem_of_cons in Hg as [->|Hg]; [done|by apply H3].
  - destruct H4 as [->|(g & Hg & ->)]; [exists f|exists g]; (split; [|done]); apply elem_of_cons; auto.
  - destruct H5 as [->|(g & Hg & ->)]; [exists f|exists g]; (split; [|done]); apply elem_of_cons; auto.
Qed.

(** ** Boundary files *)

Lemma FindLargestKey_spec files :
  files <> [] -> exists k, FindLargestKey c meta files = Some k /\
    (forall f, f ∈ files -> icmp (f_largest f) (rep_ k) <= 0) /\ (exists f, f ∈ files /\ k = largest (meta f)).
Proof.
  destruct files as [|f files]; [done|]. intros _. cbn [FindLargestKey]. eexists. split; [done|].
  assert (Hloop : forall fs k0, let k := fold_left (fun k f => if 0 <? icmp (f_largest f) (rep_ k) then largest (meta f) else k) fs k0 in
    icmp (rep_ k0) (rep_ k) <= 0 /\ (forall g, g ∈ fs -> icmp (f_largest g) (rep_ k) <= 0) /\
    (k = k0 \/ exists g, g ∈ fs /\ k = largest (meta g))).
  { induction fs as [|g fs IH]; intros k0; cbn [fold_left].
    - rewrite cmp_refl. split; [lia|]. split; [intros g Hg; by apply not_elem_of_nil in Hg|by left].
    - set (k1 := if 0 <? _ then _ else _). destruct (IH k1) as (H1 & H2 & H3).
      assert (Hk : icmp (rep_ k0) (rep_ k1) <= 0 /\ icmp (f_largest g) (rep_ k1) <= 0 /\ (k1 = k0 \/ k1 = largest (meta g))).
      { unfold k1. destruct (Z.ltb_spec 0 (icmp (f_largest g) (rep_ k0))) as [Hlt|Hge].
        - rewrite <- cmp_opp in Hlt. unfold Version.f_largest in *. rewrite cmp_refl. split; [lia|]. split; [lia|by right].
        - rewrite cmp_refl. split; [lia|]. split; [done|by left]. }
      destruct Hk as (K1 & K2 & K3). split; [by eapply cmp_le_trans|]. split.
      + intros g' Hg'. apply elem_of_cons in Hg' as [->|Hg']; [by eapply cmp_le_trans|by apply H2].
      + destruct H3 as [->|(g' & Hg' & ->)]; [|right; exists g'; split; [by apply elem_of_cons; right|done]].
        destruct K3 as [->| ->]; [by left|right; exists g; split; [by apply elem_of_cons; left|done]]. }
  destruct (Hloop files (largest (meta f))) as (H1 & H2 & H3). split.
  - intros g Hg. apply elem_of_cons in Hg as [->|Hg]; [done|by apply H2].
  - destruct H3 as [->|(g & Hg & ->)]; [exists f|exists g]; (split; [|done]); apply elem_of_cons; auto.
Qed.

Lemma FindSmallestBoundaryFile_spec files key :
  match FindSmallestBoundaryFile c meta files key with
  | Some b => b ∈ files /\ is_boundary c meta key b = true
  | None => forall f, f ∈ files -> is_boundary c meta key f = false
  end.
Proof.
  unfold FindSmallestBoundaryFile.
  assert (Hloop : forall fs best, (forall b, best = Some b -> b ∈ files /\ is_boundary c meta key b = true) ->
    (forall f, f ∈ fs -> f ∈ files) ->
    match fold_left (fun best f => if is_boundary c meta key f then
      match best with None => Some f | Some b => if icmp (f_smallest f) (f_smallest b) <? 0 then Some f else best end else best) fs best with
    | Some b => b ∈ files /\ is_boundary c meta key b = true
    | None => best = None /\ forall f, f ∈ fs -> is_boundary c meta key f = false
    end).
  { induction fs as [|f fs IH]; intros best Hb Hfs; cbn [fold_left].
    { destruct best as [b|]; [by apply Hb|]. split; [done|]. intros f Hf. by apply not_elem_of_nil in Hf. }
    set (best1 := if is_boundary c meta key f then _ else _).
    assert (Hb1 : forall b, best1 = Some b -> b ∈ files /\ is_boundary c meta key b = true).
    { intros b. unfold best1. destruct (is_boundary c meta key f) eqn:E; [|by apply Hb].
      destruct best as [b0|]; [destruct (_ <? 0); [|by apply Hb]|]; intros [= <-]; (split; [apply Hfs; by apply elem_of_cons; left|done]). }
    specialize (IH best1 Hb1 ltac:(intros g Hg; apply Hfs; by apply elem_of_cons; right)).
    destruct (fold_left _ fs best1) as [b|]; [done|]. destruct IH as [H1 H2]. unfold best1 in H1.
    destruct (is_boundary c meta key f) eqn:E; [destruct best as [b0|]; [by destruct (_ <? 0)|done]|].
    split; [done|]. intros g Hg. apply elem_of_cons in Hg as [->|Hg]; [done|by apply H2]. }
  specialize (Hloop files None ltac:(done) ltac:(done)).
  destruct (fold_left _ files None) as [b|]; [done|by apply Hloop].
Qed.

(** The files that begin past a key: each boundary file added leaves fewer. *)
Definition past (key : InternalKey) (f : P) : bool := 0 <? icmp (f_smallest f) (rep_ key).

Lemma boundary_loop_spec level_files : Forall file_ok level_files -> forall fuel key files,
  (length (List.filter (past key) level_files) < fuel)%nat ->
  exists added last, boundary_loop c meta fuel level_files key files = Some (files ++ added) /\
    (forall f, f ∈ added -> f ∈ level_files /\ icmp (f_largest f) (rep_ last) <= 0) /\
    icmp (rep_ key) (rep_ last) <= 0 /\ (last = key \/ exists f, f ∈ added /\ last = largest (meta f)) /\
    (forall f, f ∈ level_files -> is_boundary c meta last f = false).
Proof.
  intros Hok. induction fuel as [|fuel IH]; intros key files Hf; [lia|]. cbn [boundary_loop].
  pose proof (FindSmallestBoundaryFile_spec level_files key) as Hb.
  destruct (FindSmallestBoundaryFile c meta level_files key) as [b|].
  2:{ exists [], key. rewrite app_nil_r, cmp_refl. split; [done|]. split; [intros f Hx; by apply not_elem_of_nil in Hx|].
      split; [lia|]. split; [by left|done]. }
  destruct Hb as [Hin Hb]. unfold is_boundary in Hb. apply andb_true_iff in Hb as [Hgt _]. apply Z.ltb_lt in Hgt.
  rewrite Forall_forall in Hok. pose proof (Hok b Hin) as Hbo. unfold VersionSpec.file_ok in Hbo.
  assert (Hlt : icmp (rep_ key) (f_largest b) < 0).
  { rewrite <- cmp_opp in Hgt. by eapply (cmp_lt_le_trans icmp). }
  destruct (IH (largest (meta b)) (files ++ [b])) as (added & last & E & H1 & H2 & H3 & H4).
  { assert (length (List.filter (past (largest (meta b))) level_files) < length (List.filter (past key) level_files))%nat; [|lia].
    apply (filter_shrinks_strict _ _ _ b); [|done| |].
    - intros x. unfold past. rewrite !Z.ltb_lt, <- !cmp_opp. intros Hx. by eapply (cmp_lt_trans icmp).
    - unfold past. apply Z.ltb_ge. exact Hbo.
    - unfold past. by apply Z.ltb_lt. }
  exists (b :: added), last. rewrite E. split; [by rewrite <- app_assoc|]. split; [|split; [|split; [|done]]].
  - intros f Hx. apply elem_of_cons in Hx as [->|Hx]; [done|by apply H1].
  - change (rep_ (largest (meta b))) with (f_largest b) in H2. pose proof (cmp_lt_le_trans icmp _ _ _ Hlt H2). lia.
  - right. destruct H3 as [->|(f & Hx & ->)]; [exists b|exists f]; (split; [|done]); apply elem_of_cons; auto.
Qed.

(** No file of the level continues the last user key of [files]. *)
Definition boundary_closed (level_files files : list P) : Prop :=
  exists last, (exists f, f ∈ files /\ last = largest (meta f)) /\
    (forall f, f ∈ files -> icmp (f_largest f) (rep_ last) <= 0) /\
    forall f, f ∈ level_files -> is_boundary c meta last f = false.

Lemma AddBoundaryInputs_spec level_files files :
  Forall file_ok level_files -> (forall f, f ∈ files -> f ∈ level_files) ->
  exists r, AddBoundaryInputs c meta level_files files = Some r /\ (forall f, f ∈ files -> f ∈ r) /\
    (forall f, f ∈ r -> f ∈ level_files) /\ (files = [] -> r = []) /\ (files <> [] -> boundary_closed level_files r).
Proof.
  intros Hok Hsub. unfold AddBoundaryInputs. destruct (decide (files = [])) as [->|Hne].
  { exists []. cbn. split; [done|]. split; [done|]. split; [done|]. split; [done|]. done. }
  destruct (FindLargestKey_spec files Hne) as (k & -> & Hk & (fk & Hfk & ->)).
  destruct (boundary_loop_spec level_files Hok (S (length level_files)) (largest (meta fk)) files) as (added & last & -> & H1 & H2 & H3 & H4).
  { pose proof (filter_shrinks (past (largest (meta fk))) (fun _ => true) level_files ltac:(done)) as Hle.
    assert (forall fs : list P, List.filter (fun _ => true) fs = fs) as Hall by (induction fs; cbn; congruence).
    rewrite Hall in Hle. lia. }
  exists (files ++ added). split; [done|]. split; [intros f Hf; apply elem_of_app; by left|]. split; [|split; [done|]].
  - intros f Hf. apply elem_of_app in Hf as [?|?]; [by apply Hsub|by apply H1].
  - intros _. exists last. split; [|split; [|done]].
    + destruct H3 as [->|(f & Hf & ->)]; [exists fk|exists f]; (split; [|done]); apply elem_of_app; auto.
    + intros f Hf. apply elem_of_app in Hf as [Hf|Hf]; [|by apply H1]. eapply cmp_le_trans; [by apply Hk|done].
Qed.

(** ** What an overlap search leaves out *)

Lemma bounded_within s l f fs :
  bounded s l fs -> f ∈ fs -> within c meta (Some (InternalKey_user_key s)) (Some (InternalKey_user_key l)) f.
Proof.
  intros Hb Hf. destruct (Hb f Hf) as [H1 H2]. split; intros k [= <-].
  - apply (cmp_ge_opp ucmp). by apply ikey_le_user in H1.
  - by apply ikey_le_user in H2.
Qed.

Lemma bounded_overlaps s l f fs :
  bounded s l fs -> f ∈ fs -> file_ok f ->
  overlaps c meta (Some (InternalKey_user_key s)) (Some (InternalKey_user_key l)) f = true.
Proof.
  intros Hb Hf Hok. destruct (bounded_within s l f fs Hb Hf) as [H1 H2]. specialize (H1 _ eq_refl). specialize (H2 _ eq_refl).
  unfold VersionSpec.file_ok in Hok. apply ikey_le_user in Hok.
  unfold overlaps, AfterFile, BeforeFile. apply negb_true_iff, orb_false_iff. split; apply Z.ltb_ge.
  - apply (cmp_ge_opp ucmp) in H1. by eapply cmp_le_trans.
  - apply (cmp_ge_opp ucmp). by eapply cmp_le_trans.
Qed.

Definition covers_range (s l : InternalKey) (files r : list P) : Prop :=
  (forall f, f ∈ r -> f ∈ files) /\
  (forall fs f g, bounded s l fs -> f ∈ fs -> g ∈ files -> g ∉ r -> apart f g) /\
  (forall fs f, bounded s l fs -> f ∈ fs -> f ∈ files -> file_ok f -> f ∈ r).

Lemma overlapping_covers version_files level files s l :
  0 <= level < kNumLevels -> version_files !! Z.to_nat level = Some files ->
  exists r, GetOverlappingInputs c meta version_files level (Some s) (Some l) = Some r /\ covers_range s l files r.
Proof.
  intros Hl Hf. destruct (GetOverlappingInputs_spec c meta version_files level (Some s) (Some l) files Hl Hf)
    as (lo & hi & r & E & Hw & Hr & _). exists r. split; [done|].
  assert (Hmem : forall f, f ∈ r <-> f ∈ files /\ overlaps c meta lo hi f = true) by (intros f; rewrite Hr, !list_elem_of_In, filter_In; done).
  split; [intros f; by rewrite Hmem; intros [? _]|]. split.
  - intros fs f g Hb Hfi Hg Hng.
    apply (within_apart c meta (Some (InternalKey_user_key s)) (Some (InternalKey_user_key l))); [by apply (bounded_within s l f fs)|].
    apply not_true_iff_false. intros Ho. apply Hng, Hmem. split; [done|]. by apply (wider_overlaps c meta _ _ lo hi g Hw).
  - intros fs f Hb Hfi Hff Hok. apply Hmem. split; [done|]. apply (wider_overlaps c meta _ _ lo hi f Hw).
    by apply (bounded_overlaps s l f fs).
Qed.

Lemma covers_more s l files r r' :
  covers_range s l files r -> (forall f, f ∈ r -> f ∈ r') -> (forall f, f ∈ r' -> f ∈ files) -> covers_range s l files r'.
Proof. intros (H1 & H2 & H3) Hr Hr'. split; [done|]. split; [|eauto]. intros fs f g Hb Hf Hg Hn. apply (H2 fs); auto. Qed.

(** ** [SetupOtherInputs] *)

Section Setup.

Context (version_files : list (list P)) (level : Z) (level_files next_files : list P).
Context (Hlevel : 0 <= level) (Hnext : level + 1 < kNumLevels).
Context (Hlf : version_files !! Z.to_nat level = Some level_files).
Context (Hnf : version_files !! Z.to_nat (level + 1) = Some next_files).
Context (Hok0 : Forall file_ok level_files) (Hok1 : Forall file_ok next_files).

(** Inputs a merge may work on: [i0] of the level, within [[small, large]], and
    every file of the next level it can meet. *)
Definition good_inputs (start i0 i1 : list P) (small large : InternalKey) : Prop :=
  i0 <> [] /\ (forall f, f ∈ start -> f ∈ i0) /\ (forall f, f ∈ i0 -> f ∈ level_files) /\ (forall f, f ∈ i1 -> f ∈ next_files) /\
  bounded small large i0 /\ (exists f, f ∈ i0 /\ large = largest (meta f)) /\
  (forall f g, f ∈ i0 -> g ∈ next_files -> g ∉ i1 -> apart f g) /\
  boundary_closed level_files i0 /\ (i1 = [] \/ boundary_closed next_files i1).

(** The inputs of the next level for those of the level. *)
Lemma next_inputs start i0 :
  i0 <> [] -> (forall f, f ∈ start -> f ∈ i0) -> (forall f, f ∈ i0 -> f ∈ level_files) -> boundary_closed level_files i0 ->
  exists small large r i1, GetRange c meta i0 = Some (small, large) /\
    GetOverlappingInputs c meta version_files (level + 1) (Some small) (Some large) = Some r /\
    AddBoundaryInputs c meta next_files r = Some i1 /\ good_inputs start i0 i1 small large.
Proof.
  intros Hne Hst Hsub Hbc. destruct (GetRange_spec i0 Hne) as (s & l & Er & Hb & _ & Hl).
  destruct (overlapping_covers version_files (level + 1) next_files s l) as (r & Eo & Hc); [unfold kNumLevels in *; lia|done|].
  destruct (AddBoundaryInputs_spec next_files r Hok1) as (i1 & Ea & A1 & A2 & A3 & A4); [apply Hc|].
  exists s, l, r, i1. split; [done|]. split; [done|]. split; [done|].
  pose proof (covers_more s l next_files r i1 Hc A1 A2) as (_ & Hap & _).
  split; [done|]. split; [done|]. split; [done|]. split; [done|]. split; [done|]. split; [done|].
  split; [intros f g Hf Hg Hn; by apply (Hap i0)|]. split; [done|].
  destruct (decide (r = [])) as [Hr|Hr]; [left; by apply A3|right; by apply A4].
Qed.

Lemma try_expand_spec start i0 i1 small large :
  good_inputs start i0 i1 small large ->
  exists i0' i1' small' large', try_expand options c meta version_files level i0 i1 small large = Some (i0', i1', small', large') /\
    good_inputs start i0' i1' small' large'.
Proof.
  intros Hg. pose proof Hg as (Hne & Hst & Hs0 & Hs1 & Hb & _ & _ & Hbc & _). unfold try_expand, GetRange2.
  destruct (GetRange_spec (i0 ++ i1)) as (as_ & al & -> & Hball & _ & _); [by destruct i0|]. cbn [mbind option_bind].
  destruct i1 as [|g1 i1'] eqn:Ei1; [by exists i0, [], small, large|]. rewrite <- Ei1 in *.
  rewrite Hlf, Hnf. cbn [mbind option_bind].
  destruct (overlapping_covers version_files level level_files as_ al) as (e0 & -> & Hc0); [unfold kNumLevels in *; lia|done|].
  cbn [mbind option_bind].
  destruct (AddBoundaryInputs_spec level_files e0 Hok0) as (x0 & -> & A1 & A2 & A3 & A4); [apply Hc0|]. cbn [mbind option_bind].
  destruct (_ && _); [|by exists i0, i1, small, large].
  assert (Hin : forall f, f ∈ i0 -> f ∈ e0).
  { intros f Hf. destruct Hc0 as (_ & _ & Hc0). rewrite Forall_forall in Hok0.
    apply (Hc0 (i0 ++ i1)); [done|apply elem_of_app; by left|by apply Hs0|by apply Hok0, Hs0]. }
  assert (e0 <> []) as Hne0.
  { intros ->. destruct i0 as [|f i0]; [done|]. apply (not_elem_of_nil f), Hin. by apply elem_of_cons; left. }
  assert (x0 <> []) as Hne1.
  { intros ->. destruct e0 as [|f e0]; [done|]. apply (not_elem_of_nil f), A1. by apply elem_of_cons; left. }
  destruct (next_inputs start x0) as (s & l & r & x1 & -> & Eo & Ea & Hgood); [done|auto|done|by apply A4|].
  cbn [mbind option_bind]. rewrite Eo. cbn [mbind option_bind]. rewrite Ea. cbn [mbind option_bind].
  destruct (_ =? _); [by exists x0, x1, s, l|by exists i0, i1, small, large].
Qed.

End Setup.

(** C28: the inputs set up for a compaction are what a correct merge needs: they
    include the files it was asked for, every file of the next level that shares a
    user key range with an input of the level, no file of either level continues
    the last user key of its inputs, and the grandparents are the files two levels
    down that the merged range meets. *)
Theorem compaction_inputs comp ptrs level_files next_files :
  0 <= level_ comp -> level_ comp + 1 < kNumLevels -> length (input_files comp) = Z.to_nat kNumLevels ->
  Forall (Forall file_ok) (input_files comp) ->
  (forall f, f ∈ concat (input_files comp) -> blen (f_largest f) <> 0) ->
  input_files comp !! Z.to_nat (level_ comp) = Some level_files ->
  input_files comp !! Z.to_nat (level_ comp + 1) = Some next_files ->
  inputs_0 comp <> [] -> (forall f, f ∈ inputs_0 comp -> f ∈ level_files) ->
  exists comp' ptrs', SetupOtherInputs options c meta comp ptrs = Some (comp', ptrs') /\
    (forall f, f ∈ inputs_0 comp -> f ∈ inputs_0 comp') /\
    (forall f, f ∈ inputs_0 comp' -> f ∈ level_files) /\ (forall f, f ∈ inputs_1 comp' -> f ∈ next_files) /\
    (forall f g, f ∈ inputs_0 comp' -> g ∈ next_files -> g ∉ inputs_1 comp' -> apart f g) /\
    boundary_closed level_files (inputs_0 comp') /\
    (inputs_1 comp' = [] \/ boundary_closed next_files (inputs_1 comp')) /\
    (forall gfiles f g, input_files comp !! Z.to_nat (level_ comp + 2) = Some gfiles ->
       f ∈ inputs_0 comp' ++ inputs_1 comp' -> g ∈ gfiles -> g ∉ grandparents_ comp' -> apart f g).
Proof.
  intros Hl Hn Hlen Hok Hkeys Hlf Hnf Hne Hsub. rewrite Forall_lookup in Hok. pose proof (Hok _ _ Hlf) as Ho0. pose proof (Hok _ _ Hnf) as Ho1.
  unfold SetupOtherInputs. rewrite Hlf, Hnf. cbn [mbind option_bind].
  destruct (AddBoundaryInputs_spec level_files (inputs_0 comp) Ho0 Hsub) as (i0 & -> & A1 & A2 & A3 & A4). cbn [mbind option_bind].
  assert (i0 <> []) as Hne0.
  { intros ->. destruct (inputs_0 comp) as [|f fs]; [done|]. apply (not_elem_of_nil f), A1. by apply elem_of_cons; left. }
  destruct (next_inputs (input_files comp) (level_ comp) level_files next_files Hl Hn Hnf Ho1 (inputs_0 comp) i0)
    as (s & l & r & i1 & -> & Eo & Ea & Hg); [done|done|done|by apply A4|].
  cbn [mbind option_bind]. rewrite Eo. cbn [mbind option_bind]. rewrite Ea. cbn [mbind option_bind].
  destruct (try_expand_spec (input_files comp) (level_ comp) level_files next_files Hl Hn Hlf Hnf Ho0 Ho1 _ _ _ _ _ Hg)
    as (i0' & i1' & s' & l' & -> & Hg'). cbn [mbind option_bind].
  destruct Hg' as (G1 & G2 & G3 & G4 & G5 & (fl & Hfl & ->) & G6 & G7 & G8). unfold GetRange2.
  destruct (GetRange_spec (i0' ++ i1')) as (as_ & al & -> & Hball & _ & _); [by destruct i0'|]. cbn [mbind option_bind].
  assert (Henc : InternalKey_Encode (largest (meta fl)) = Some (f_largest fl)).
  { unfold InternalKey_Encode. rewrite (proj2 (Z.eqb_neq _ _)); [done|]. apply Hkeys. apply list_elem_of_In, in_concat.
    exists level_files. split; [apply list_elem_of_In; by eapply list_elem_of_lookup_2|apply list_elem_of_In; by apply G3]. }
  assert (Hgp : exists gp, (if level_ comp + 2 <? kNumLevels
      then GetOverlappingInputs c meta (input_files comp) (level_ comp + 2) (Some as_) (Some al) else Some (grandparents_ comp)) = Some gp /\
    forall gfiles f g, input_files comp !! Z.to_nat (level_ comp + 2) = Some gfiles ->
      f ∈ i0' ++ i1' -> g ∈ gfiles -> g ∉ gp -> apart f g).
  { destruct (Z.ltb_spec (level_ comp + 2) kNumLevels) as [H2|H2].
    - destruct (lookup_lt_is_Some_2 (input_files comp) (Z.to_nat (level_ comp + 2))) as [gf Hgf]; [unfold kNumLevels in *; lia|].
      destruct (overlapping_covers (input_files comp) (level_ comp + 2) gf as_ al) as (gp & -> & (_ & Hap & _)); [lia|done|].
      exists gp. split; [done|]. intros gfiles f g Hgl. rewrite Hgf in Hgl. simplify_eq. by apply Hap.
    - exists (grandparents_ comp). split; [done|]. intros gfiles f g Hgl. apply lookup_lt_Some in Hgl. unfold kNumLevels in *. lia. }
  destruct Hgp as (gp & -> & Hgp). cbn [mbind option_bind]. rewrite Henc. cbn [mbind option_bind].
  eexists _, _. split; [done|]. cbn [inputs_0 inputs_1 grandparents_ set_inputs]. done.
Qed.

(** ** [IsBaseLevelForKey] *)

(** Some file of the levels has the user key in its range. *)
Definition somewhere (levels : list (list P)) (user_key : bytes) : bool :=
  existsb (existsb (holds_key c meta user_key)) levels.

(** The files before the pointer end before the key. *)
Definition ptr_ok (user_key : bytes) (files : list P) (ptr : Z) : Prop :=
  0 <= ptr /\ forall f, f ∈ take (Z.to_nat ptr) files -> ucmp (f_limit f) user_key < 0.

Lemma ptr_ok_mono k k' files ptr : ucmp k k' <= 0 -> ptr_ok k files ptr -> ptr_ok k' files ptr.
Proof. intros Hk [H1 H2]. split; [done|]. intros f Hf. specialize (H2 f Hf). by eapply (cmp_lt_le_trans ucmp). Qed.

Lemma level_starts files i j f g :
  level_ok c meta files -> files !! i = Some f -> files !! j = Some g -> (i <= j)%nat -> ucmp (f_start f) (f_start g) <= 0.
Proof.
  intros [Hok Hs] Hi Hj Hij. destruct (decide (i = j)) as [->|Hne]; [rewrite Hi in Hj; simplify_eq; by rewrite cmp_refl|].
  pose proof (StronglySorted_lookup _ _ _ _ _ _ Hs Hi Hj ltac:(lia)) as Hlt. rewrite Forall_lookup in Hok.
  specialize (Hok i f Hi). unfold VersionSpec.file_ok, follows in *. apply ikey_le_user.
  apply Z.lt_le_incl. exact (cmp_le_lt_trans icmp _ _ _ Hok Hlt).
Qed.

Lemma base_level_loop_spec k files rest ptr :
  level_ok c meta files -> files = take (Z.to_nat ptr) files ++ rest -> ptr_ok k files ptr ->
  Z.of_nat (length files) = ptr + Z.of_nat (length rest) ->
  let '(ptr', inside) := base_level_loop c meta k rest ptr in
  ptr_ok k files ptr' /\ inside = existsb (holds_key c meta k) files.
Proof.
  intros Hlv. revert ptr. induction rest as [|f rest IH]; intros ptr Hsp [H0 Hp] Hlen; cbn [base_level_loop].
  - split; [done|]. symmetry. apply not_true_iff_false. rewrite existsb_exists. intros (f & Hf & Hh).
    rewrite app_nil_r in Hsp. rewrite Hsp in Hf. apply list_elem_of_In, Hp in Hf. unfold holds_key in Hh.
    apply andb_true_iff in Hh as [_ Hh]. apply Z.leb_le in Hh. apply (cmp_opp (f_limit f) k) in Hf. lia.
  - assert (Hf : files !! Z.to_nat ptr = Some f).
    { cbn in Hlen. rewrite Hsp, lookup_app_r; rewrite length_take_le by lia; [|lia]. by rewrite Nat.sub_diag. }
    destruct (Z.leb_spec (ucmp k (f_limit f)) 0) as [Hle|Hgt].
    + split; [done|]. apply eq_bool_prop_intro. rewrite !Is_true_true, existsb_exists. split.
      * intros Hs. exists f. split; [apply list_elem_of_In; by eapply list_elem_of_lookup_2|]. unfold holds_key. rewrite Hs. lia.
      * intros (g & Hg & Hh). unfold holds_key in Hh. apply andb_true_iff in Hh as [H1 H2]. apply Z.leb_le in H1, H2. apply Z.leb_le.
        apply list_elem_of_In, list_elem_of_lookup_1 in Hg as [j Hj].
        destruct (Nat.le_gt_cases (Z.to_nat ptr) j) as [Hpj|Hpj].
        -- pose proof (level_starts files _ _ f g Hlv Hf Hj Hpj) as Hst. apply (cmp_ge_opp ucmp) in H1. apply (cmp_ge_opp ucmp).
           by eapply cmp_le_trans.
        -- exfalso. assert (g ∈ take (Z.to_nat ptr) files) as Hgt' by (apply (list_elem_of_lookup_2 _ j); by rewrite lookup_take_lt).
           apply Hp in Hgt'. apply (cmp_opp (f_limit g) k) in Hgt'. lia.
    + assert (Htake : take (Z.to_nat (ptr + 1)) files = take (Z.to_nat ptr) files ++ [f]).
      { replace (Z.to_nat (ptr + 1)) with (S (Z.to_nat ptr)) by lia. by apply take_S_r. }
      apply IH; [by rewrite Htake, <- app_assoc| |cbn in Hlen; lia].
      split; [lia|]. rewrite Htake. intros g Hg. apply elem_of_app in Hg as [Hg|Hg]; [by apply Hp|].
      apply list_elem_of_singleton in Hg as ->. by apply cmp_opp.
Qed.

Definition ptrs_ok (k : bytes) : list (list P) -> list Z -> Prop :=
  Forall2 (fun files ptr => ptr_ok k files ptr /\ ptr <= Z.of_nat (length files)).

Lemma base_level_loop_le k files ptr :
  let '(ptr', _) := base_level_loop c meta k files ptr in ptr' <= ptr + Z.of_nat (length files).
Proof.
  revert ptr. induction files as [|f files IH]; intros ptr; cbn [base_level_loop length]; [lia|].
  destruct (_ <=? 0); [lia|]. specialize (IH (ptr + 1)). destruct (base_level_loop c meta k files (ptr + 1)). lia.
Qed.

Lemma base_levels_loop_spec k levels : Forall (level_ok c meta) levels -> forall ptrs,
  ptrs_ok k levels ptrs ->
  let '(r, ptrs') := base_levels_loop c meta k levels ptrs in ptrs_ok k levels ptrs' /\ r = negb (somewhere levels k).
Proof.
  intros Hlv. induction Hlv as [|files levels Hl Hlv IH]; intros ptrs Hp; inversion Hp as [|? ptr ? ptrs0 [Hp1 Hp2] Hp3]; subst; cbn [base_levels_loop].
  { done. }
  pose proof Hp1 as [H0 _].
  pose proof (base_level_loop_spec k files (drop (Z.to_nat ptr) files) ptr Hl ltac:(by rewrite take_drop) Hp1
    ltac:(rewrite length_drop; lia)) as Hs.
  pose proof (base_level_loop_le k (drop (Z.to_nat ptr) files) ptr) as Hle. rewrite length_drop in Hle.
  destruct (base_level_loop c meta k (drop (Z.to_nat ptr) files) ptr) as [ptr' inside]. destruct Hs as [Hs ->].
  unfold somewhere. cbn [existsb]. destruct (existsb (holds_key c meta k) files); cbn [orb].
  - split; [|done]. constructor; [split; [done|lia]|done].
  - specialize (IH ptrs0 Hp3). destruct (base_levels_loop c meta k levels ptrs0) as [r ptrs']. destruct IH as [IH1 ->].
    split; [|done]. constructor; [split; [done|lia]|done].
Qed.

(** The levels below the output of a compaction, and the state of the pointers into
    them after [k] has been asked for. *)
Definition below_output (comp : Compaction P) : list (list P) := drop (Z.to_nat (level_ comp + 2)) (input_files comp).

Record pointers_ok (comp : Compaction P) (k : bytes) : Prop := {
  po_levels : Forall (level_ok c meta) (below_output comp);
  po_ptrs : ptrs_ok k (below_output comp) (drop (Z.to_nat (level_ comp + 2)) (level_ptrs_ comp));
  po_length : (Z.to_nat (level_ comp + 2) <= length (level_ptrs_ comp))%nat
}.

Lemma pointers_mono comp k k' : ucmp k k' <= 0 -> pointers_ok comp k -> pointers_ok comp k'.
Proof.
  intros Hk [H1 H2 H3]. split; [done| |done]. eapply Forall2_impl; [exact H2|]. intros files ptr [Hp Hl].
  split; [by apply (ptr_ok_mono k)|done].
Qed.

Lemma IsBaseLevelForKey_spec comp k :
  pointers_ok comp k ->
  exists ptrs, IsBaseLevelForKey c meta comp k = (negb (somewhere (below_output comp) k), set_level_ptrs comp ptrs) /\
    pointers_ok (set_level_ptrs comp ptrs) k.
Proof.
  intros [Hlv Hp Hlen]. unfold IsBaseLevelForKey. fold (below_output comp).
  set (first := Z.to_nat (level_ comp + 2)) in *. pose proof (base_levels_loop_spec k _ Hlv _ Hp) as Hr.
  destruct (base_levels_loop c meta k (below_output comp) (drop first (level_ptrs_ comp))) as [r ptrs].
  destruct Hr as [Hr ->]. exists (take first (level_ptrs_ comp) ++ ptrs). split; [done|].
  assert (Hdrop : drop first (take first (level_ptrs_ comp) ++ ptrs) = ptrs).
  { rewrite drop_app_ge by (rewrite length_take; lia). rewrite length_take_le by done. by rewrite Nat.sub_diag. }
  split; unfold below_output; cbn [level_ input_files level_ptrs_ set_level_ptrs]; fold first; [done|by rewrite Hdrop|].
  rewrite length_app, length_take_le by done. lia.
Qed.

Lemma pointers_new comp k :
  0 <= level_ comp -> level_ comp + 1 < kNumLevels -> length (input_files comp) = Z.to_nat kNumLevels ->
  level_ptrs_ comp = replicate (Z.to_nat kNumLevels) 0 -> Forall (level_ok c meta) (below_output comp) -> pointers_ok comp k.
Proof.
  intros Hl Hn Hlen Hz Hlv. unfold kNumLevels in *. split; [done| |].
  - unfold below_output. rewrite Hz, drop_replicate. apply Forall2_replicate_r; [rewrite length_drop, Hlen; lia|].
    apply Forall_forall. intros files _. split; [split; [lia|]|lia]. intros f Hf. by apply not_elem_of_nil in Hf.
  - rewrite Hz, length_replicate. lia.
Qed.

(** The answers for a sequence of keys. *)
Fixpoint ask_all (comp : Compaction P) (keys : list bytes) : list bool :=
  match keys with
  | [] => []
  | k :: keys => let '(r, comp) := IsBaseLevelForKey c meta comp k in r :: ask_all comp keys
  end.

Lemma ask_all_spec keys : forall comp k0,
  pointers_ok comp k0 -> StronglySorted (fun a b => ucmp a b <= 0) (k0 :: keys) ->
  ask_all comp keys = map (fun k => negb (somewhere (below_output comp) k)) keys.
Proof.
  induction keys as [|k keys IH]; intros comp k0 Hp Hs; cbn [ask_all map]; [done|].
  apply StronglySorted_inv in Hs as [Hs Hall]. apply Forall_cons in Hall as [Hk _].
  destruct (IsBaseLevelForKey_spec comp k) as (ptrs & -> & Hp'); [by apply (pointers_mono comp k0)|].
  f_equal. by rewrite (IH _ k Hp' Hs).
Qed.

(** for keys asked in increasing order, as a compaction does, the incremental
    [IsBaseLevelForKey] answers true exactly when no file of the levels below the
    compaction's output has the user key in its range, so that a deletion marker
    may be dropped. *)
Theorem base_level_for_keys level version_files keys :
  0 <= level -> level + 1 < kNumLevels -> length version_files = Z.to_nat kNumLevels ->
  Forall (level_ok c meta) (drop (Z.to_nat (level + 2)) version_files) ->
  StronglySorted (fun a b => ucmp a b <= 0) keys ->
  ask_all (Compaction_new options level version_files) keys =
  map (fun k => negb (somewhere (drop (Z.to_nat (level + 2)) version_files) k)) keys.
Proof.
  intros Hl Hn Hlen Hlv Hs. destruct keys as [|k keys]; [done|].
  apply (ask_all_spec (k :: keys) (Compaction_new options level version_files) k); [by apply pointers_new|].
  constructor; [done|]. apply StronglySorted_inv in Hs as [_ Hall]. constructor; [by rewrite cmp_refl|done].
Qed.

End Inputs.

(** ** On the small version of [VersionSpec] *)

Definition ex_compaction : Compaction nat :=
  let comp := Compaction_new Options_default 0 ex_files in set_inputs comp [1; 2]%nat [] [] (edit_ comp).

Lemma ex_files_ok : Forall (Forall (file_ok BytewiseComparator ex_meta)) ex_files.
Proof. repeat constructor; vm_compute; discriminate. Qed.

Lemma compaction_inputs_witness :
  exists comp' ptrs', SetupOtherInputs Options_default BytewiseComparator ex_meta ex_compaction (replicate 7 []) = Some (comp', ptrs') /\
    (forall f, f ∈ inputs_0 ex_compaction -> f ∈ inputs_0 comp') /\
    (forall f, f ∈ inputs_0 comp' -> f ∈ [1; 2]%nat) /\ (forall f, f ∈ inputs_1 comp' -> f ∈ [3]%nat) /\
    (forall f g, f ∈ inputs_0 comp' -> g ∈ [3]%nat -> g ∉ inputs_1 comp' -> apart BytewiseComparator ex_meta f g) /\
    boundary_closed BytewiseComparator ex_meta [1; 2]%nat (inputs_0 comp') /\
    (inputs_1 comp' = [] \/ boundary_closed BytewiseComparator ex_meta [3]%nat (inputs_1 comp')) /\
    (forall gfiles f g, ex_files !! 2%nat = Some gfiles ->
       f ∈ inputs_0 comp' ++ inputs_1 comp' -> g ∈ gfiles -> g ∉ grandparents_ comp' -> apart BytewiseComparator ex_meta f g).
Proof.
  apply (compaction_inputs Options_default BytewiseComparator ex_meta ex_compaction (replicate 7 []) [1; 2]%nat [3]%nat).
  - vm_compute. discriminate.
  - vm_compute. reflexivity.
  - reflexivity.
  - exact ex_files_ok.
  - intros f Hf. change (input_files ex_compaction) with ex_files in Hf. each_in Hf; vm_compute; discriminate.
  - reflexivity.
  - reflexivity.
  - discriminate.
  - intros f Hf. exact Hf.
Defined.

Lemma base_level_for_keys_witness :
  ask_all BytewiseComparator ex_meta (Compaction_new Options_default 0 ex_files) [str "a"; str "d"; str "e"; str "f"] =
  [true; false; false; true].
Proof.
  apply (base_level_for_keys Options_default BytewiseComparator ex_meta 0 ex_files [str "a"; str "d"; str "e"; str "f"]).
  - lia.
  - vm_compute. reflexivity.
  - reflexivity.
  - repeat (constructor; [split; repeat constructor; vm_compute; discriminate|]). constructor.
  - repeat constructor; vm_compute; discriminate.
Defined.
