(* ===== verification/VersionSet.v ===== *)
(** * The version set

    [VersionSet], its [Builder] and the life of versions, from [db/version_set.h]
    and [db/version_set.cc].  The metadata of files are shared between versions, so
    they live in a store with their reference counts; versions are kept, with
    theirs, in the list [dummy_versions_] heads.  [None] is a failed assertion or
    the use of something freed. *)

From S2P Require Import Prelude Slice Coding Status Env Logging LogFormat LogReader Comparator DbFormat VersionEdit Filename Format Iterator Options TwoLevel Version Compaction.

(** ** The store of file metadata *)

Record Store := mkStore { s_heap : gmap nat FileMetaData; s_alloc : nat }.

Definition no_file : FileMetaData := FileMetaData_make 0 0 (mkInternalKey []) (mkInternalKey []).
Definition file_at (st : Store) (p : nat) : option FileMetaData := s_heap st !! p.
Definition fmeta (st : Store) (p : nat) : FileMetaData := default no_file (file_at st p).

Definition with_refs (r : Z) (f : FileMetaData) : FileMetaData :=
  mkFileMetaData r (allowed_seeks f) (number f) (file_size f) (smallest f) (largest f).
Definition with_seeks (n : Z) (f : FileMetaData) : FileMetaData :=
  mkFileMetaData (f_refs f) n (number f) (file_size f) (smallest f) (largest f).

Definition put_file (st : Store) (p : nat) (f : FileMetaData) : Store := mkStore (<[p := f]> (s_heap st)) (s_alloc st).

Definition new_file (st : Store) (f : FileMetaData) : nat * Store :=
  (s_alloc st, mkStore (<[s_alloc st := f]> (s_heap st)) (S (s_alloc st))).

(** [f->refs++] *)
Definition add_ref (st : Store) (p : nat) : option Store :=
  f ← file_at st p; Some (put_file st p (with_refs (f_refs f + 1) f)).

(** [f->refs--; if (f->refs <= 0) delete f;] *)
Definition drop_ref (st : Store) (p : nat) : option Store :=
  f ← file_at st p;
  let r := f_refs f - 1 in
  Some (if r <=? 0 then mkStore (delete p (s_heap st)) (s_alloc st) else put_file st p (with_refs r f)).

Fixpoint drop_refs (st : Store) (ps : list nat) : option Store :=
  match ps with
  | [] => Some st
  | p :: ps => st ← drop_ref st p; drop_refs st ps
  end.

(** ** [VersionSet] *)

Record VersionNode := mkNode { refs_ : Z; version : Version nat }.

(** [descriptor_log_] holds [descriptor_file_] as its destination. *)
Record VersionSet (F : Type) := mkVersionSet {
  dbname_ : bytes;
  options_ : Options;
  user_cmp : Comparator;
  vs_next_file_number_ : Z;
  manifest_file_number_ : Z;
  vs_last_sequence_ : Z;
  vs_log_number_ : Z;
  vs_prev_log_number_ : Z;
  descriptor_log_ : option (Writer F);
  versions_ : list (nat * VersionNode);
  current_ : option nat;
  compact_pointer_ : list bytes;
  store_ : Store;
  version_alloc : nat
}.
Arguments mkVersionSet {F}.
Arguments dbname_ {F}.
Arguments options_ {F}.
Arguments user_cmp {F}.
Arguments vs_next_file_number_ {F}.
Arguments manifest_file_number_ {F}.
Arguments vs_last_sequence_ {F}.
Arguments vs_log_number_ {F}.
Arguments vs_prev_log_number_ {F}.
Arguments descriptor_log_ {F}.
Arguments versions_ {F}.
Arguments current_ {F}.
Arguments compact_pointer_ {F}.
Arguments store_ {F}.
Arguments version_alloc {F}.

Section VersionSet.

Context {F : Type} `{WritableFile F}.

Implicit Types vs : VersionSet F.

Definition set_store vs (st : Store) : VersionSet F :=
  mkVersionSet (dbname_ vs) (options_ vs) (user_cmp vs) (vs_next_file_number_ vs) (manifest_file_number_ vs)
    (vs_last_sequence_ vs) (vs_log_number_ vs) (vs_prev_log_number_ vs) (descriptor_log_ vs) (versions_ vs)
    (current_ vs) (compact_pointer_ vs) st (version_alloc vs).
Definition set_versions vs (l : list (nat * VersionNode)) : VersionSet F :=
  mkVersionSet (dbname_ vs) (options_ vs) (user_cmp vs) (vs_next_file_number_ vs) (manifest_file_number_ vs)
    (vs_last_sequence_ vs) (vs_log_number_ vs) (vs_prev_log_number_ vs) (descriptor_log_ vs) l
    (current_ vs) (compact_pointer_ vs) (store_ vs) (version_alloc vs).
Definition set_current vs (id : nat) : VersionSet F :=
  mkVersionSet (dbname_ vs) (options_ vs) (user_cmp vs) (vs_next_file_number_ vs) (manifest_file_number_ vs)
    (vs_last_sequence_ vs) (vs_log_number_ vs) (vs_prev_log_number_ vs) (descriptor_log_ vs) (versions_ vs)
    (Some id) (compact_pointer_ vs) (store_ vs) (S (version_alloc vs)).
Definition set_pointers vs (ptrs : list bytes) : VersionSet F :=
  mkVersionSet (dbname_ vs) (options_ vs) (user_cmp vs) (vs_next_file_number_ vs) (manifest_file_number_ vs)
    (vs_last_sequence_ vs) (vs_log_number_ vs) (vs_prev_log_number_ vs) (descriptor_log_ vs) (versions_ vs)
    (current_ vs) ptrs (store_ vs) (version_alloc vs).
Definition set_log vs (log : option (Writer F)) : VersionSet F :=
  mkVersionSet (dbname_ vs) (options_ vs) (user_cmp vs) (vs_next_file_number_ vs) (manifest_file_number_ vs)
    (vs_last_sequence_ vs) (vs_log_number_ vs) (vs_prev_log_number_ vs) log (versions_ vs)
    (current_ vs) (compact_pointer_ vs) (store_ vs) (version_alloc vs).
Definition set_numbers vs (next_file manifest last_seq log_number prev_log_number : Z) : VersionSet F :=
  mkVersionSet (dbname_ vs) (options_ vs) (user_cmp vs) next_file manifest
    last_seq log_number prev_log_number (descriptor_log_ vs) (versions_ vs)
    (current_ vs) (compact_pointer_ vs) (store_ vs) (version_alloc vs).

(** *** Numbers *)

Definition NewFileNumber vs : Z * VersionSet F :=
  (vs_next_file_number_ vs,
   set_numbers vs (u64 (vs_next_file_number_ vs + 1)) (manifest_file_number_ vs) (vs_last_sequence_ vs)
     (vs_log_number_ vs) (vs_prev_log_number_ vs)).

Definition ReuseFileNumber vs (file_number : Z) : VersionSet F :=
  if vs_next_file_number_ vs =? u64 (file_number + 1)
  then set_numbers vs file_number (manifest_file_number_ vs) (vs_last_sequence_ vs) (vs_log_number_ vs) (vs_prev_log_number_ vs)
  else vs.

Definition vs_SetLastSequence vs (s : Z) : option (VersionSet F) :=
  if s <? vs_last_sequence_ vs then None
  else Some (set_numbers vs (vs_next_file_number_ vs) (manifest_file_number_ vs) s (vs_log_number_ vs) (vs_prev_log_number_ vs)).

Definition MarkFileNumberUsed vs (number : Z) : VersionSet F :=
  if vs_next_file_number_ vs <=? number
  then set_numbers vs (u64 (number + 1)) (manifest_file_number_ vs) (vs_last_sequence_ vs) (vs_log_number_ vs) (vs_prev_log_number_ vs)
  else vs.

(** *** Versions *)

Definition node_at vs (id : nat) : option VersionNode :=
  snd <$> List.find (fun x => (fst x =? id)%nat) (versions_ vs).

Definition put_node vs (id : nat) (node : VersionNode) : VersionSet F :=
  set_versions vs (map (fun x => if (fst x =? id)%nat then (id, node) else x) (versions_ vs)).

Definition Version_Ref vs (id : nat) : option (VersionSet F) :=
  node ← node_at vs id; Some (put_node vs id (mkNode (refs_ node + 1) (version node))).

(** [Version::~Version] of a version no longer referred to: it leaves the list and
    drops its files, each of which must still have a reference. *)
Fixpoint release_files (st : Store) (ps : list nat) : option Store :=
  match ps with
  | [] => Some st
  | p :: ps =>
      f ← file_at st p;
      if negb (0 <? f_refs f) then None else st ← drop_ref st p; release_files st ps
  end.

Definition Version_delete vs (id : nat) (v : Version nat) : option (VersionSet F) :=
  st ← release_files (store_ vs) (concat (files_ v));
  Some (set_store (set_versions vs (List.filter (fun x => negb (fst x =? id)%nat) (versions_ vs))) st).

Definition Version_Unref vs (id : nat) : option (VersionSet F) :=
  node ← node_at vs id;
  if negb (1 <=? refs_ node) then None
  else
    let r := refs_ node - 1 in
    if r =? 0 then Version_delete vs id (version node)
    else Some (put_node vs id (mkNode r (version node))).

Definition AppendVersion vs (v : Version nat) : option (VersionSet F) :=
  vs ← match current_ vs with Some id => Version_Unref vs id | None => Some vs end;
  let id := version_alloc vs in
  let vs := set_current vs id in
  Some (set_versions vs (versions_ vs ++ [(id, mkNode 1 v)])).

Definition current_version vs : option (Version nat) :=
  id ← current_ vs; node ← node_at vs id; Some (version node).

Definition VersionSet_new (dbname : bytes) (options : Options) (cmp : Comparator) : option (VersionSet F) :=
  AppendVersion
    (mkVersionSet dbname options cmp 2 0 0 0 0 None [] None (replicate (Z.to_nat kNumLevels) []) (mkStore ∅ 0) 0)
    Version_new.

(** [UpdateStats] of the version [id]: the seek is charged to the shared
    metadata. *)
Definition UpdateStats vs (id : nat) (stats : GetStats (P := nat)) : option (bool * VersionSet F) :=
  match seek_file stats with
  | None => Some (false, vs)
  | Some p =>
      node ← node_at vs id;
      f ← file_at (store_ vs) p;
      let seeks := allowed_seeks f - 1 in
      let vs := set_store vs (put_file (store_ vs) p (with_seeks seeks f)) in
      let v := version node in
      match file_to_compact_ v with
      | None =>
          if seeks <=? 0 then
            let v := mkVersion (files_ v) (Some p) (seek_file_level stats) (compaction_score_ v) (compaction_level_ v) in
            Some (true, put_node vs id (mkNode (refs_ node) v))
          else Some (false, vs)
      | Some _ => Some (false, vs)
      end
  end.

Definition RecordReadSample vs (id : nat) (internal_key : bytes) : option (bool * VersionSet F) :=
  node ← node_at vs id;
  stats ← sampled_stats (user_cmp vs) (fmeta (store_ vs)) (files_ (version node)) internal_key;
  match stats with
  | Some stats => UpdateStats vs id stats
  | None => Some (false, vs)
  end.

(** [AddLiveFiles]: the numbers of the files of every version in the list. *)
Definition AddLiveFiles vs : list Z :=
  concat (map (fun x => map (fun p => number (fmeta (store_ vs) p)) (concat (files_ (version (snd x))))) (versions_ vs)).

(** ** [Builder] *)

Record LevelState := mkLevelState { deleted_files : gset Z; added_files : list nat }.

(** [base_] is a version of the set. *)
Record Builder := mkBuilder { base_ : nat; levels_ : list LevelState }.

Definition BySmallestKey (c : Comparator) (st : Store) (f1 f2 : nat) : bool :=
  let r := ikey_Compare c (f_smallest (fmeta st) f1) (f_smallest (fmeta st) f2) in
  if negb (r =? 0) then r <? 0 else number (fmeta st f1) <? number (fmeta st f2).

(** [std::set<FileMetaData*, BySmallestKey>::insert] *)
Fixpoint fileset_insert (c : Comparator) (st : Store) (f : nat) (l : list nat) : list nat :=
  match l with
  | [] => [f]
  | g :: l' =>
      if BySmallestKey c st f g then f :: l
      else if BySmallestKey c st g f then g :: fileset_insert c st f l' else l
  end.

Definition Builder_new vs (base : nat) : option (Builder * VersionSet F) :=
  vs ← Version_Ref vs base;
  Some (mkBuilder base (replicate (Z.to_nat kNumLevels) (mkLevelState ∅ [])), vs).

Definition Builder_delete (b : Builder) vs : option (VersionSet F) :=
  st ← drop_refs (store_ vs) (concat (map added_files (levels_ b)));
  Version_Unref (set_store vs st) (base_ b).

(** The three loops of [Apply]. *)
Fixpoint apply_pointers (ptrs : list bytes) (l : list (Z * InternalKey)) : option (list bytes) :=
  match l with
  | [] => Some ptrs
  | (level, key) :: l => k ← InternalKey_Encode key; apply_pointers (<[Z.to_nat level := k]> ptrs) l
  end.

Fixpoint apply_deleted (levels : list LevelState) (l : list (Z * Z)) : list LevelState :=
  match l with
  | [] => levels
  | (level, number) :: l =>
      apply_deleted
        (alter (fun s => mkLevelState ({[number]} ∪ deleted_files s) (added_files s)) (Z.to_nat level) levels) l
  end.

(** A new file as [Apply] allocates it. *)
Definition seeks_for (size : Z) : Z := Z.max 100 (i32 (size / 16384)).
Definition installed (f : FileMetaData) : FileMetaData := with_refs 1 (with_seeks (seeks_for (file_size f)) f).

Fixpoint apply_new (c : Comparator) (st : Store) (levels : list LevelState) (l : list (Z * FileMetaData))
  : Store * list LevelState :=
  match l with
  | [] => (st, levels)
  | (level, f) :: l =>
      let '(p, st) := new_file st (installed f) in
      apply_new c st
        (alter (fun s => mkLevelState (deleted_files s ∖ {[number f]}) (fileset_insert c st p (added_files s)))
           (Z.to_nat level) levels) l
  end.

Definition Apply (b : Builder) vs (edit : VersionEdit) : option (Builder * VersionSet F) :=
  ptrs ← apply_pointers (compact_pointer_ vs) (compact_pointers_ edit);
  let levels := apply_deleted (levels_ b) (deleted_files_ edit) in
  let '(st, levels) := apply_new (user_cmp vs) (store_ vs) levels (new_files_ edit) in
  Some (mkBuilder (base_ b) levels, set_store (set_pointers vs ptrs) st).

Definition MaybeAddFile (c : Comparator) (st : Store) (deleted : gset Z) (level : Z) (files : list nat) (f : nat)
  : option (Store * list nat) :=
  m ← file_at st f;
  if bool_decide (number m ∈ deleted) then Some (st, files)
  else
    let overlap :=
      match last files with
      | Some prev => (0 <? level) && negb (ikey_Compare c (f_largest (fmeta st) prev) (rep_ (smallest m)) <? 0)
      | None => false
      end in
    if overlap then None else st ← add_ref st f; Some (st, files ++ [f]).

Fixpoint maybe_add_all (c : Comparator) (st : Store) (deleted : gset Z) (level : Z) (files todo : list nat)
  : option (Store * list nat) :=
  match todo with
  | [] => Some (st, files)
  | f :: todo => '(st, files) ← MaybeAddFile c st deleted level files f; maybe_add_all c st deleted level files todo
  end.

(** [std::upper_bound] in a sorted range: the files not above [f], and the rest. *)
Fixpoint upper_bound (c : Comparator) (st : Store) (base : list nat) (f : nat) : list nat * list nat :=
  match base with
  | [] => ([], [])
  | g :: base' =>
      if BySmallestKey c st f g then ([], base)
      else let '(below, rest) := upper_bound c st base' f in (g :: below, rest)
  end.

Fixpoint save_level (c : Comparator) (st : Store) (deleted : gset Z) (level : Z) (files base added : list nat)
  : option (Store * list nat) :=
  match added with
  | [] => maybe_add_all c st deleted level files base
  | a :: added =>
      let '(smaller, base) := upper_bound c st base a in
      '(st, files) ← maybe_add_all c st deleted level files smaller;
      '(st, files) ← MaybeAddFile c st deleted level files a;
      save_level c st deleted level files base added
  end.

(** The check of debug builds: the files of a level above zero do not overlap. *)
Fixpoint no_overlap (c : Comparator) (st : Store) (files : list nat) : bool :=
  match files with
  | f :: (g :: _) as rest =>
      (ikey_Compare c (f_largest (fmeta st) f) (f_smallest (fmeta st) g) <? 0) && no_overlap c st rest
  | _ => true
  end.

Fixpoint save_levels (c : Comparator) (st : Store) (level : Z) (base : list (list nat)) (levels : list LevelState)
  : option (Store * list (list nat)) :=
  match base, levels with
  | files :: base, s :: levels =>
      '(st, saved) ← save_level c st (deleted_files s) level [] files (added_files s);
      if (0 <? level) && negb (no_overlap c st saved) then None
      else '(st, rest) ← save_levels c st (level + 1) base levels; Some (st, saved :: rest)
  | _, _ => Some (st, [])
  end.

Definition SaveTo (b : Builder) vs : option (Version nat * VersionSet F) :=
  node ← node_at vs (base_ b);
  '(st, files) ← save_levels (user_cmp vs) (store_ vs) 0 (files_ (version node)) (levels_ b);
  Some (mkVersion files None (-1) (double_of (-1)) (-1), set_store vs st).

(** ** The MANIFEST *)

(** The functions of the environment the descriptor needs; [env_SetCurrentFile] and
    [env_ReadFileToString] are those of [db/filename.cc] and [util/env.cc] over
    it. *)
Class DescriptorEnv (W S : Type) := {
  env_NewWritableFile : bytes -> W -> Status * option F * W;
  env_NewAppendableFile : bytes -> W -> Status * option F * W;
  env_NewSequentialFile : bytes -> W -> Status * option S * W;
  env_GetFileSize : bytes -> W -> Status * Z * W;
  env_RemoveFile : bytes -> W -> Status * W;
  env_SetCurrentFile : bytes -> Z -> W -> Status * W;
  env_ReadFileToString : bytes -> W -> Status * bytes * W
}.

(** The edit that holds the whole state. *)
Fixpoint snapshot_pointers (ptrs : list bytes) (level : Z) (e : VersionEdit) : VersionEdit :=
  match ptrs with
  | [] => e
  | k :: ptrs =>
      snapshot_pointers ptrs (level + 1)
        (if blen k =? 0 then e else SetCompactPointer level (snd (InternalKey_DecodeFrom k)) e)
  end.

Fixpoint snapshot_files (st : Store) (levels : list (list nat)) (level : Z) (e : VersionEdit) : VersionEdit :=
  match levels with
  | [] => e
  | files :: levels =>
      snapshot_files st levels (level + 1)
        (fold_left (fun e p => let f := fmeta st p in
                               AddFile level (number f) (file_size f) (smallest f) (largest f) e) files e)
  end.

Definition snapshot_edit vs : option VersionEdit :=
  v ← current_version vs;
  let e := SetComparatorName (Name (user_cmp vs)) VersionEdit_Clear in
  let e := snapshot_pointers (compact_pointer_ vs) 0 e in
  Some (snapshot_files (store_ vs) (files_ v) 0 e).

(** Records are encoded at address [addr]. *)
Context (addr : Z).

Definition WriteSnapshot vs (log : Writer F) : option (Status * Writer F) :=
  e ← snapshot_edit vs; AddRecord log addr (EncodeTo e []).

Context {W S : Type} `{!SequentialFile S} `{!DescriptorEnv W S}.

(** The edit as [LogAndApply] completes it. *)
Definition complete_edit vs (edit : VersionEdit) : option VersionEdit :=
  edit ← (if has_log_number_ edit then
            if (vs_log_number_ vs <=? log_number_ edit) && (log_number_ edit <? vs_next_file_number_ vs)
            then Some edit else None
          else Some (SetLogNumber (vs_log_number_ vs) edit));
  let edit := if has_prev_log_number_ edit then edit else SetPrevLogNumber (vs_prev_log_number_ vs) edit in
  Some (SetLastSequence (vs_last_sequence_ vs) (SetNextFile (vs_next_file_number_ vs) edit)).

(** The new version, built and finalized. *)
Definition build_version vs (edit : VersionEdit) : option (Version nat * VersionSet F) :=
  id ← current_ vs;
  '(b, vs) ← Builder_new vs id;
  '(b, vs) ← Apply b vs edit;
  '(v, vs) ← SaveTo b vs;
  vs ← Builder_delete b vs;
  Some (Finalize (fmeta (store_ vs)) v, vs).

(** Opening the descriptor when there is none: the status, whether a new file was
    named, and the state. *)
Definition open_descriptor vs (w : W) : option (Status * bool * VersionSet F * W) :=
  match descriptor_log_ vs with
  | Some _ => Some (OK, false, vs, w)
  | None =>
      let '(s, file, w) := env_NewWritableFile (DescriptorFileName (dbname_ vs) (manifest_file_number_ vs)) w in
      if ok s then
        file ← file;
        '(s, log) ← WriteSnapshot vs (Writer_make addr file);
        Some (s, true, set_log vs (Some log), w)
      else Some (s, true, vs, w)
  end.

(** Writing the edit to the descriptor and syncing it. *)
Definition log_edit vs (edit : VersionEdit) : option (Status * VersionSet F) :=
  log ← descriptor_log_ vs;
  '(s, log) ← AddRecord log addr (EncodeTo edit []);
  if ok s then
    let '(s, file) := Sync (dest_ log) in
    Some (s, set_log vs (Some (mkWriter file (block_offset_ log) (type_crc_ log))))
  else Some (s, set_log vs (Some log)).

(** [LogAndApply]: the status, the edit as completed, the set and the
    environment. *)
Definition LogAndApply vs (edit : VersionEdit) (w : W) : option (Status * VersionEdit * VersionSet F * W) :=
  edit ← complete_edit vs edit;
  '(v, vs) ← build_version vs edit;
  '(s, new_manifest, vs, w) ← open_descriptor vs w;
  '(s, vs) ← (if ok s then log_edit vs edit else Some (s, vs));
  let '(s, w) := if ok s && new_manifest then env_SetCurrentFile (dbname_ vs) (manifest_file_number_ vs) w else (s, w) in
  if ok s then
    vs ← AppendVersion vs v;
    Some (s, edit,
          set_numbers vs (vs_next_file_number_ vs) (manifest_file_number_ vs) (vs_last_sequence_ vs)
            (log_number_ edit) (prev_log_number_ edit), w)
  else
    st ← release_files (store_ vs) (concat (files_ v));
    let vs := set_store vs st in
    let '(vs, w) :=
      if new_manifest then
        (set_log vs None, snd (env_RemoveFile (DescriptorFileName (dbname_ vs) (manifest_file_number_ vs)) w))
      else (vs, w) in
    Some (s, edit, vs, w).

(** *** [Recover] *)

(** The numbers found so far; [None] while there is none. *)
Record Found := mkFound {
  f_log_number : option Z;
  f_prev_log_number : option Z;
  f_next_file : option Z;
  f_last_sequence : option Z
}.

Definition found_in (e : VersionEdit) (f : Found) : Found :=
  mkFound (if has_log_number_ e then Some (log_number_ e) else f_log_number f)
    (if has_prev_log_number_ e then Some (prev_log_number_ e) else f_prev_log_number f)
    (if has_next_file_number_ e then Some (next_file_number_ e) else f_next_file f)
    (if has_last_sequence_ e then Some (last_sequence_ e) else f_last_sequence f).

(** A record of the descriptor, while the status is good. *)
Definition recover_record (b : Builder) vs (found : Found) (record : bytes)
  : option (Status * Builder * VersionSet F * Found) :=
  '(s, edit) ← DecodeFrom record;
  let s :=
    if ok s && has_comparator_ edit && negb (slice_eq (comparator_ edit) (Name (user_cmp vs)))
    then InvalidArgument (comparator_ edit ++ str " does not match existing comparator ") (Name (user_cmp vs))
    else s in
  '(b, vs) ← (if ok s then Apply b vs edit else Some (b, vs));
  Some (s, b, vs, found_in edit found).

(** The reader's reports set the status if it is good. *)
Definition after_reports (s : Status) (old new : list (Z * Status)) : Status :=
  if ok s then match drop (length old) new with (_, r) :: _ => r | [] => s end else s.

Fixpoint recover_loop (turns fuel : nat) (r : Reader S) (scratch : bytes) (s : Status) (b : Builder) vs (found : Found)
  : option (Status * Builder * VersionSet F * Found) :=
  match turns with
  | O => None
  | Datatypes.S turns =>
      '(record, scratch, r') ← ReadRecord fuel scratch r;
      let s := after_reports s (reports_ r) (reports_ r') in
      match record with
      | Some record =>
          if ok s then
            '(s, b, vs, found) ← recover_record b vs found record;
            recover_loop turns fuel r' scratch s b vs found
          else Some (s, b, vs, found)
      | None => Some (s, b, vs, found)
      end
  end.

Definition ReuseManifest vs (dscname dscbase : bytes) (w : W) : bool * VersionSet F * W :=
  if negb (reuse_logs (options_ vs)) then (false, vs, w)
  else
    match ParseFileName dscbase with
    | Some (manifest_number, kDescriptorFile) =>
        let '(s, manifest_size, w) := env_GetFileSize dscname w in
        if negb (ok s) || (TargetFileSize (options_ vs) <=? manifest_size) then (false, vs, w)
        else
          let '(s, file, w) := env_NewAppendableFile dscname w in
          match ok s, file with
          | true, Some file =>
              (true, set_numbers (set_log vs (Some (Writer_reopen addr file manifest_size)))
                       (vs_next_file_number_ vs) manifest_number (vs_last_sequence_ vs) (vs_log_number_ vs) (vs_prev_log_number_ vs), w)
          | _, _ => (false, vs, w)
          end
    | _ => (false, vs, w)
    end.

(** The end of [Recover], on what the descriptor held: the status, whether a new
    descriptor must be saved, and the state. *)
Definition install_recovered (s : Status) (b : Builder) vs (found : Found) (dscname current : bytes) (w : W)
  : option (Status * bool * VersionSet F * W) :=
  let log_number := default 0 (f_log_number found) in
  let prev_log_number := default 0 (f_prev_log_number found) in
  let vs := if ok s then MarkFileNumberUsed (MarkFileNumberUsed vs prev_log_number) log_number else vs in
  let s :=
    if ok s then
      match f_next_file found, f_log_number found, f_last_sequence found with
      | None, _, _ => Corruption (str "no meta-nextfile entry in descriptor") []
      | _, None, _ => Corruption (str "no meta-lognumber entry in descriptor") []
      | _, _, None => Corruption (str "no last-sequence-number entry in descriptor") []
      | _, _, _ => s
      end
    else s in
  if ok s then
    '(v, vs) ← SaveTo b vs;
    vs ← AppendVersion vs (Finalize (fmeta (store_ vs)) v);
    let next_file := default 0 (f_next_file found) in
    let vs := set_numbers vs (u64 (next_file + 1)) next_file (default 0 (f_last_sequence found)) log_number prev_log_number in
    let '(reused, vs, w) := ReuseManifest vs dscname current w in
    vs ← Builder_delete b vs;
    Some (s, negb reused, vs, w)
  else
    vs ← Builder_delete b vs;
    Some (s, false, vs, w).

Definition Recover (fuel : nat) vs (w : W) : option (Status * bool * VersionSet F * W) :=
  let '(s, current, w) := env_ReadFileToString (CurrentFileName (dbname_ vs)) w in
  if negb (ok s) then Some (s, false, vs, w)
  else if (blen current =? 0) || negb (bool_decide (byte_at current (blen current - 1) = x0a))
  then Some (Corruption (str "CURRENT file does not end with newline") [], false, vs, w)
  else
    let current := ztake (blen current - 1) current in
    let dscname := dbname_ vs ++ str "/" ++ current in
    let '(s, file, w) := env_NewSequentialFile dscname w in
    if negb (ok s) then
      if IsNotFound s then Some (Corruption (str "CURRENT points to a non-existent file") (ToString s decimal), false, vs, w)
      else Some (s, false, vs, w)
    else
      file ← file;
      base ← current_ vs;
      '(b, vs) ← Builder_new vs base;
      '(s, b, vs, found) ← recover_loop fuel fuel (Reader_make file true true addr 0) [] s b vs (mkFound None None None None);
      install_recovered s b vs found dscname current w.

End VersionSet.
