(* ===== verification/VersionSetSpec.v ===== *)
(** * What the version set keeps

    Theorems about [VersionSet]: building a version from edits gives the files a
    plain reading of the edits asks for, file metadata stay alive while a version
    refers to them, and a set of versions is recovered from its MANIFEST. *)

From S2P Require Import Prelude Slice Coding Status Env Logging LogFormat LogReader Comparator DbFormat VersionEdit Filename Format Iterator Options TwoLevel Version VersionSpec Compaction VersionSet.

(** ** References to files

    [refs_ok st l]: the pointers of [l] are alive, each with at least as many
    references as it occurs in [l]. *)

Definition occurs (l : list nat) (p : nat) : nat := count_occ Nat.eq_dec l p.

Record refs_ok (st : Store) (l : list nat) : Prop := mkRefsOk {
  refs_live p : p ∈ l -> exists f, file_at st p = Some f /\ Z.of_nat (occurs l p) <= f_refs f;
  refs_fresh p : is_Some (file_at st p) -> (p < s_alloc st)%nat
}.

(** What of a file's metadata never changes. *)
Abbreviation finfo := (Z * Z * InternalKey * InternalKey)%type.
Definition info_of (f : FileMetaData) : finfo := (number f, file_size f, smallest f, largest f).
Definition fi (st : Store) (p : nat) : finfo := info_of (fmeta st p).

Definition keeps (st st' : Store) (l : list nat) : Prop := forall p, p ∈ l -> fi st' p = fi st p.

Lemma keeps_refl st l : keeps st st l.
Proof. done. Qed.

Lemma keeps_trans st st1 st2 l l' : keeps st st1 l -> keeps st1 st2 l' -> (forall p, p ∈ l -> p ∈ l') -> keeps st st2 l.
Proof. intros H1 H2 Hs p Hp. rewrite H2 by auto. auto. Qed.

Lemma occurs_cons p x l : occurs (p :: l) x = if decide (x = p) then S (occurs l x) else occurs l x.
Proof.
  unfold occurs. destruct (decide (x = p)) as [->|Hne]; [by apply count_occ_cons_eq|by apply count_occ_cons_neq].
Qed.

Lemma occurs_zero l p : p ∉ l <-> occurs l p = 0%nat.
Proof. unfold occurs. rewrite <- count_occ_not_In. by rewrite list_elem_of_In. Qed.

Lemma refs_ok_perm st l l' : l ≡ₚ l' -> refs_ok st l -> refs_ok st l'.
Proof.
  intros Hp [H1 H2]. split; [|done]. intros p Hpl. rewrite <- Hp in Hpl. destruct (H1 p Hpl) as (f & Hf & Hc).
  exists f. split; [done|]. unfold occurs in *. by rewrite <- (proj1 (Permutation_count_occ Nat.eq_dec l l') Hp p).
Qed.

Lemma refs_ok_drop st l l' : refs_ok st (l ++ l') -> refs_ok st l'.
Proof.
  intros [H1 H2]. split; [|done]. intros p Hp. destruct (H1 p) as (f & Hf & Hc); [apply elem_of_app; by right|].
  exists f. split; [done|]. unfold occurs in *. rewrite count_occ_app in Hc. lia.
Qed.

Lemma file_at_put st p f x : file_at (put_file st p f) x = if decide (x = p) then Some f else file_at st x.
Proof.
  unfold file_at, put_file. cbn. destruct (decide (x = p)) as [->|]; [apply lookup_insert_eq|by apply lookup_insert_ne].
Qed.

Lemma new_file_ok st l f :
  refs_ok st l -> f_refs f = 1 ->
  let '(p, st') := new_file st f in
  refs_ok st' (p :: l) /\ keeps st st' l /\ p ∉ l /\ fi st' p = info_of f /\ p = s_alloc st.
Proof.
  intros [H1 H2] Hf. unfold new_file. set (p := s_alloc st).
  assert (Hpl : p ∉ l).
  { intros Hp. destruct (H1 p Hp) as (g & Hg & _). pose proof (H2 p ltac:(by eexists)). unfold p in *. lia. }
  set (st' := mkStore _ _). assert (Hat : forall x, file_at st' x = if decide (x = p) then Some f else file_at st x).
  { intros x. unfold file_at, st'. cbn. destruct (decide (x = p)) as [->|]; [apply lookup_insert_eq|by apply lookup_insert_ne]. }
  split; [split|split; [|split; [done|split; [|done]]]].
  - intros x Hx. rewrite Hat, occurs_cons. destruct (decide (x = p)) as [->|Hne].
    + exists f. split; [done|]. rewrite (proj1 (occurs_zero l p) Hpl). lia.
    + apply elem_of_cons in Hx as [?|Hx]; [done|]. by apply H1.
  - intros x. rewrite Hat. cbn. destruct (decide (x = p)) as [->|]; [unfold p; lia|]. intros Hx. specialize (H2 x Hx). lia.
  - intros x Hx. unfold fi, fmeta. rewrite Hat. by destruct (decide (x = p)) as [->|].
  - unfold fi, fmeta. rewrite Hat. by rewrite decide_True.
Qed.

Lemma add_ref_ok st l p :
  refs_ok st l -> p ∈ l -> exists st', add_ref st p = Some st' /\ refs_ok st' (p :: l) /\ (forall x, fi st' x = fi st x).
Proof.
  intros [H1 H2] Hp. destruct (H1 p Hp) as (f & Hf & Hc). unfold add_ref. rewrite Hf. cbn [mbind option_bind].
  eexists. split; [done|]. split; [split|].
  - intros x Hx. rewrite file_at_put, occurs_cons. destruct (decide (x = p)) as [->|Hne].
    + eexists. split; [done|]. cbn. lia.
    + apply elem_of_cons in Hx as [?|Hx]; [done|]. by apply H1.
  - intros x. rewrite file_at_put. cbn. destruct (decide (x = p)) as [->|]; [|by apply H2]. intros _. apply H2. by eexists.
  - intros x. unfold fi, fmeta. rewrite file_at_put. destruct (decide (x = p)) as [->|]; [|done]. by rewrite Hf.
Qed.

Lemma drop_ref_ok st l p :
  refs_ok st (p :: l) -> exists st', drop_ref st p = Some st' /\ refs_ok st' l /\ keeps st st' l.
Proof.
  intros [H1 H2]. destruct (H1 p) as (f & Hf & Hc); [by apply elem_of_cons; left|]. rewrite occurs_cons, decide_True in Hc by done.
  unfold drop_ref. rewrite Hf. cbn [mbind option_bind]. cbv zeta.
  assert (Hother : forall x, x ∈ l -> x <> p -> exists g, file_at st x = Some g /\ Z.of_nat (occurs l x) <= f_refs g).
  { intros x Hx Hne. destruct (H1 x) as (g & Hg & Hcg); [by apply elem_of_cons; right|].
    rewrite occurs_cons, decide_False in Hcg by done. by exists g. }
  destruct (Z.leb_spec (f_refs f - 1) 0) as [Hle|Hgt].
  - eexists. split; [done|]. assert (p ∉ l) as Hpl by (apply occurs_zero; lia).
    assert (Hat : forall x, file_at (mkStore (delete p (s_heap st)) (s_alloc st)) x = if decide (x = p) then None else file_at st x).
    { intros x. unfold file_at. cbn. destruct (decide (x = p)) as [->|]; [apply lookup_delete_eq|by apply lookup_delete_ne]. }
    split; [split|].
    + intros x Hx. rewrite Hat. destruct (decide (x = p)) as [->|Hne]; [done|]. by apply Hother.
    + intros x. rewrite Hat. cbn. destruct (decide (x = p)); [by intros []|apply H2].
    + intros x Hx. unfold fi, fmeta. rewrite Hat. by destruct (decide (x = p)) as [->|].
  - eexists. split; [done|]. split; [split|].
    + intros x Hx. rewrite file_at_put. destruct (decide (x = p)) as [->|Hne]; [|by apply Hother]. eexists. split; [done|]. cbn. lia.
    + intros x. rewrite file_at_put. cbn. destruct (decide (x = p)) as [->|]; [|apply H2]. intros _. apply H2. by eexists.
    + intros x Hx. unfold fi, fmeta. rewrite file_at_put. destruct (decide (x = p)) as [->|]; [|done]. by rewrite Hf.
Qed.

Lemma drop_refs_ok ps : forall st l,
  refs_ok st (ps ++ l) -> exists st', drop_refs st ps = Some st' /\ refs_ok st' l /\ keeps st st' l.
Proof.
  induction ps as [|p ps IH]; intros st l Hr; cbn [drop_refs app] in *; [by exists st|].
  destruct (drop_ref_ok st (ps ++ l) p Hr) as (st1 & -> & Hr1 & Hk1). cbn [mbind option_bind].
  destruct (IH st1 l Hr1) as (st' & -> & Hr' & Hk'). exists st'. split; [done|]. split; [done|].
  intros x Hx. rewrite Hk' by done. apply Hk1. apply elem_of_app. by right.
Qed.

Lemma release_files_ok ps : forall st l,
  refs_ok st (ps ++ l) -> exists st', release_files st ps = Some st' /\ refs_ok st' l /\ keeps st st' l.
Proof.
  induction ps as [|p ps IH]; intros st l Hr; cbn [release_files app] in *; [by exists st|].
  destruct (refs_live _ _ Hr p) as (f & Hf & Hc); [by apply elem_of_cons; left|]. rewrite occurs_cons, decide_True in Hc by done.
  rewrite Hf. cbn [mbind option_bind]. rewrite (proj2 (Z.ltb_lt 0 (f_refs f))) by lia. cbn [negb].
  destruct (drop_ref_ok st (ps ++ l) p Hr) as (st1 & -> & Hr1 & Hk1). cbn [mbind option_bind].
  destruct (IH st1 l Hr1) as (st' & -> & Hr' & Hk'). exists st'. split; [done|]. split; [done|].
  intros x Hx. rewrite Hk' by done. apply Hk1. apply elem_of_app. by right.
Qed.

Section Build.

Context (c : Comparator) {L : ComparatorLaws c}.

Notation icmp := (ikey_Compare c).

#[local] Existing Instance icmp_three_way.

(** ** Files by their contents *)

Definition inum (i : finfo) : Z := fst (fst (fst i)).
Definition ismall (i : finfo) : bytes := rep_ (snd (fst i)).
Definition ilarge (i : finfo) : bytes := rep_ (snd i).

(** The order of a level: by smallest key, then by number. *)
Definition info_ltb (i j : finfo) : bool :=
  let r := icmp (ismall i) (ismall j) in if negb (r =? 0) then r <? 0 else inum i <? inum j.
Definition info_lt (i j : finfo) : Prop := info_ltb i j = true.

Lemma BySmallestKey_info st f g : BySmallestKey c st f g = info_ltb (fi st f) (fi st g).
Proof. done. Qed.

Lemma info_lt_spec i j : info_lt i j <-> icmp (ismall i) (ismall j) < 0 \/ icmp (ismall i) (ismall j) = 0 /\ inum i < inum j.
Proof.
  unfold info_lt, info_ltb. destruct (Z.eqb_spec (icmp (ismall i) (ismall j)) 0); cbn [negb]; lia.
Qed.

Lemma info_lt_irrefl i : ~ info_lt i i.
Proof. rewrite info_lt_spec, cmp_refl. lia. Qed.

Lemma info_lt_trans i j k : info_lt i j -> info_lt j k -> info_lt i k.
Proof.
  rewrite !info_lt_spec. intros [H1|[H1 H1']] [H2|[H2 H2']].
  - left. by eapply (cmp_lt_trans icmp).
  - left. eapply (cmp_lt_le_trans icmp); [done|lia].
  - left. eapply (cmp_le_lt_trans icmp); [|done]. lia.
  - right. split; [by eapply (cmp_eq_trans icmp)|lia].
Qed.

Lemma info_lt_total i j : inum i <> inum j -> info_lt i j \/ info_lt j i.
Proof.
  intros Hne. rewrite !info_lt_spec. pose proof (cmp_opp (ismall i) (ismall j)). pose proof (cmp_opp (ismall j) (ismall i)).
  pose proof (cmp_opp_eq icmp (ismall i) (ismall j)). lia.
Qed.

Definition sorted (l : list finfo) : Prop := StronglySorted info_lt l.

(** Sorted lists with the same files are equal. *)
Lemma sorted_unique l l' : sorted l -> sorted l' -> l ≡ₚ l' -> l = l'.
Proof.
  intros H1 H2 Hp. eapply (StronglySorted_unique_strong info_lt); [|exact H1|exact H2|exact Hp].
  intros i j _ _ Hij Hji. exfalso. apply (info_lt_irrefl i). by eapply info_lt_trans.
Qed.

(** ** Insertion into a set of files *)

Fixpoint info_insert (i : finfo) (l : list finfo) : list finfo :=
  match l with
  | [] => [i]
  | j :: l' => if info_ltb i j then i :: l else if info_ltb j i then j :: info_insert i l' else l
  end.

Lemma fileset_insert_info st f l : map (fi st) (fileset_insert c st f l) = info_insert (fi st f) (map (fi st) l).
Proof.
  induction l as [|g l IH]; cbn [fileset_insert info_insert map]; [done|]. rewrite !BySmallestKey_info.
  destruct (info_ltb (fi st f) (fi st g)); [done|]. destruct (info_ltb (fi st g) (fi st f)); cbn [map]; [by rewrite IH|done].
Qed.

Lemma info_insert_perm i l : inum i ∉ map inum l -> info_insert i l ≡ₚ i :: l.
Proof.
  induction l as [|j l IH]; intros Hn; cbn [info_insert]; [done|]. cbn [map] in Hn. rewrite not_elem_of_cons in Hn.
  destruct Hn as [Hn1 Hn2]. destruct (info_ltb i j) eqn:E1; [done|]. destruct (info_ltb j i) eqn:E2.
  - rewrite IH by done. constructor.
  - exfalso. destruct (info_lt_total i j Hn1) as [?|?]; unfold info_lt in *; congruence.
Qed.

Lemma info_insert_elem i l x : x ∈ info_insert i l -> x = i \/ x ∈ l.
Proof.
  induction l as [|j l IH]; cbn [info_insert]; [rewrite list_elem_of_singleton; tauto|].
  destruct (info_ltb i j); [rewrite elem_of_cons; tauto|]. destruct (info_ltb j i); [|tauto].
  rewrite !elem_of_cons. intros [?|Hx]; [tauto|]. apply IH in Hx. tauto.
Qed.

Lemma info_insert_sorted i l : sorted l -> sorted (info_insert i l).
Proof.
  induction 1 as [|j l Hs IH Hall]; cbn [info_insert]; [repeat constructor|].
  destruct (info_ltb i j) eqn:E1.
  - constructor; [by constructor|]. constructor; [done|]. eapply Forall_impl; [exact Hall|]. intros x Hx. by eapply info_lt_trans.
  - destruct (info_ltb j i) eqn:E2; [|by constructor]. constructor; [done|]. apply Forall_forall. intros x Hx.
    apply info_insert_elem in Hx as [->|Hx]; [done|]. rewrite Forall_forall in Hall. by apply Hall.
Qed.

(** ** Merging *)

(** The files of [save_level], before the deleted ones are dropped. *)
Fixpoint merged (st : Store) (base added : list nat) : list nat :=
  match added with
  | [] => base
  | a :: added => let '(smaller, base) := upper_bound c st base a in smaller ++ a :: merged st base added
  end.

Lemma upper_bound_spec st base a :
  let '(sm, rest) := upper_bound c st base a in
  base = sm ++ rest /\ (forall x, x ∈ sm -> BySmallestKey c st a x = false) /\
  match rest with [] => True | y :: _ => BySmallestKey c st a y = true end.
Proof.
  induction base as [|g base IH]; cbn [upper_bound]; [split; [done|]; split; [|done]; intros x Hx; by apply not_elem_of_nil in Hx|].
  destruct (BySmallestKey c st a g) eqn:E; [split; [done|]; split; [|done]; intros x Hx; by apply not_elem_of_nil in Hx|].
  destruct (upper_bound c st base a) as [sm rest]. destruct IH as (-> & H1 & H2). split; [done|]. split; [|done].
  intros x Hx. apply elem_of_cons in Hx as [->|Hx]; [done|by apply H1].
Qed.

Lemma upper_bound_ext st st' base a : (forall x, fi st' x = fi st x) -> upper_bound c st' base a = upper_bound c st base a.
Proof.
  intros Hfi. induction base as [|g base IH]; cbn [upper_bound]; [done|]. rewrite !BySmallestKey_info, !Hfi, IH. done.
Qed.

Lemma merged_ext st st' added : (forall x, fi st' x = fi st x) -> forall base, merged st' base added = merged st base added.
Proof.
  intros Hfi. induction added as [|a added IH]; intros base; cbn [merged]; [done|]. rewrite (upper_bound_ext st st' base a Hfi).
  destruct (upper_bound c st base a) as [sm rest]. by rewrite IH.
Qed.

Lemma merged_perm st added : forall base, merged st base added ≡ₚ base ++ added.
Proof.
  induction added as [|a added IH]; intros base; cbn [merged]; [by rewrite app_nil_r|].
  pose proof (upper_bound_spec st base a) as Hu. destruct (upper_bound c st base a) as [sm rest]. destruct Hu as (-> & _).
  rewrite IH. rewrite <- app_assoc. apply Permutation_app_head. by rewrite <- Permutation_middle.
Qed.

Lemma merged_sorted st added : forall base,
  sorted (map (fi st) base) -> sorted (map (fi st) added) -> NoDup (map (fun p => inum (fi st p)) (base ++ added)) ->
  sorted (map (fi st) (merged st base added)).
Proof.
  induction added as [|a added IH]; intros base Hb Ha Hnd; cbn [merged]; [done|].
  pose proof (upper_bound_spec st base a) as Hu. destruct (upper_bound c st base a) as [sm rest]. destruct Hu as (-> & H1 & H2).
  cbn [map] in Ha. apply StronglySorted_inv in Ha as [Ha Hall]. rewrite map_app in Hb. apply StronglySorted_app in Hb as (Hc & Hsm & Hrest).
  rewrite <- app_assoc in Hnd.
  assert (Hsma : forall x, x ∈ sm -> info_lt (fi st x) (fi st a)).
  { intros x Hx. destruct (info_lt_total (fi st x) (fi st a)) as [?|Hgt]; [|done|].
    - intros Heq. rewrite !map_app in Hnd. apply NoDup_app in Hnd as (_ & Hnd & _). apply (Hnd (inum (fi st x))).
      + apply list_elem_of_In, (in_map (fun p => inum (fi st p))). by apply list_elem_of_In.
      + rewrite Heq. apply elem_of_app. right. cbn. by apply elem_of_cons; left.
    - specialize (H1 x Hx). rewrite BySmallestKey_info in H1. unfold info_lt in Hgt. congruence. }
  assert (Haft : forall y, y ∈ rest -> info_lt (fi st a) (fi st y)).
  { intros y Hy. destruct rest as [|y0 rest]; [by apply not_elem_of_nil in Hy|]. rewrite BySmallestKey_info in H2.
    apply elem_of_cons in Hy as [->|Hy]; [done|]. cbn [map] in Hrest. apply StronglySorted_inv in Hrest as [_ Hr].
    rewrite Forall_forall in Hr. eapply info_lt_trans; [exact H2|]. apply Hr. apply list_elem_of_In, in_map. by apply list_elem_of_In. }
  rewrite map_app. cbn [map]. apply StronglySorted_app_2; [|done|].
  - intros i j Hi Hj. apply list_elem_of_In, in_map_iff in Hi as (x & <- & Hx). apply list_elem_of_In in Hx.
    apply elem_of_cons in Hj as [->|Hj]; [by apply Hsma|].
    apply list_elem_of_In, in_map_iff in Hj as (y & <- & Hy). apply list_elem_of_In in Hy. rewrite merged_perm in Hy.
    eapply info_lt_trans; [by apply Hsma|]. apply elem_of_app in Hy as [Hy|Hy]; [by apply Haft|].
    rewrite Forall_forall in Hall. apply Hall. apply list_elem_of_In, in_map. by apply list_elem_of_In.
  - constructor.
    + apply IH; [done|done|]. rewrite map_app. rewrite !map_app in Hnd. cbn [map] in Hnd. apply NoDup_app in Hnd as (_ & _ & Hnd).
      apply NoDup_app in Hnd as (N1 & N2 & N3). apply NoDup_cons in N3 as [_ N3]. apply NoDup_app. split; [done|]. split; [|done].
      intros x Hx Hx'. apply (N2 x Hx). by apply elem_of_cons; right.
    + apply Forall_forall. intros j Hj. apply list_elem_of_In, in_map_iff in Hj as (y & <- & Hy). apply list_elem_of_In in Hy.
      rewrite merged_perm in Hy. apply elem_of_app in Hy as [Hy|Hy]; [by apply Haft|].
      rewrite Forall_forall in Hall. apply Hall. apply list_elem_of_In, in_map. by apply list_elem_of_In.
Qed.

(** ** Saving a level *)

Definition keep (st : Store) (D : gset Z) (p : nat) : bool := negb (bool_decide (inum (fi st p) ∈ D)).
Definition kept (st : Store) (D : gset Z) (ps : list nat) : list nat := List.filter (keep st D) ps.

Definition disjoint (l : list finfo) : Prop := StronglySorted (fun i j => icmp (ilarge i) (ismall j) < 0) l.

Lemma kept_app st D a b : kept st D (a ++ b) = kept st D a ++ kept st D b.
Proof. apply List.filter_app. Qed.

Lemma kept_ext st st' D ps : (forall x, fi st' x = fi st x) -> kept st' D ps = kept st D ps.
Proof. intros Hfi. unfold kept. apply List.filter_ext. intros p. unfold keep. by rewrite Hfi. Qed.

Lemma kept_sub st D ps p : p ∈ kept st D ps -> p ∈ ps.
Proof. unfold kept. rewrite !list_elem_of_In, filter_In. tauto. Qed.

Lemma map_fi_ext st st' ps : (forall x, fi st' x = fi st x) -> map (fi st') ps = map (fi st) ps.
Proof. intros Hfi. by apply map_ext. Qed.

Lemma MaybeAddFile_spec st D level files f l :
  refs_ok st l -> f ∈ l -> (0 < level -> disjoint (map (fi st) (files ++ kept st D [f]))) ->
  exists st', MaybeAddFile c st D level files f = Some (st', files ++ kept st D [f]) /\
    refs_ok st' (kept st D [f] ++ l) /\ (forall x, fi st' x = fi st x).
Proof.
  intros Hr Hf Hd. unfold MaybeAddFile. destruct (refs_live _ _ Hr f Hf) as (m & Em & _). rewrite Em. cbn [mbind option_bind].
  assert (Hm : fmeta st f = m) by (unfold fmeta; by rewrite Em).
  unfold kept, keep in *. cbn [List.filter] in *. change (inum (fi st f)) with (number (fmeta st f)) in *. rewrite Hm in *.
  destruct (bool_decide (number m ∈ D)); cbn [negb] in *.
  { exists st. rewrite app_nil_r. done. }
  destruct (match last files with Some prev => _ | None => false end) eqn:E.
  { exfalso. destruct (last files) as [prev|] eqn:El; [|done]. apply andb_true_iff in E as [E1 E2]. apply Z.ltb_lt in E1. specialize (Hd E1).
    apply last_Some in El as [pre ->]. rewrite !map_app in Hd. cbn [map] in Hd.
    apply StronglySorted_app in Hd as (Hd & _). specialize (Hd (fi st prev) (fi st f)).
    unfold f_largest in E2. apply negb_true_iff, Z.ltb_ge in E2. unfold ilarge, ismall, fi, info_of in Hd. rewrite Hm in Hd. cbn in Hd.
    enough (icmp (rep_ (largest (fmeta st prev))) (rep_ (smallest m)) < 0) by lia. apply Hd.
    - apply elem_of_app. right. by apply list_elem_of_singleton.
    - by apply list_elem_of_singleton. }
  destruct (add_ref_ok st l f Hr Hf) as (st' & -> & Hr' & Hfi). cbn [mbind option_bind]. exists st'. done.
Qed.

Lemma disjoint_app_l a b : disjoint (a ++ b) -> disjoint a.
Proof. apply StronglySorted_app_1_l. Qed.

Lemma maybe_add_all_spec D level todo : forall st files l,
  refs_ok st l -> (forall p, p ∈ todo -> p ∈ l) -> (0 < level -> disjoint (map (fi st) (files ++ kept st D todo))) ->
  exists st', maybe_add_all c st D level files todo = Some (st', files ++ kept st D todo) /\
    refs_ok st' (kept st D todo ++ l) /\ (forall x, fi st' x = fi st x).
Proof.
  induction todo as [|f todo IH]; intros st files l Hr Hsub Hd; cbn [maybe_add_all].
  { exists st. cbn. rewrite app_nil_r. done. }
  change (f :: todo) with ([f] ++ todo) in Hd |- *. rewrite !kept_app in *. rewrite !app_assoc in *.
  destruct (MaybeAddFile_spec st D level files f l Hr) as (st1 & -> & Hr1 & Hfi1).
  { apply Hsub. by apply elem_of_cons; left. }
  { intros Hl. specialize (Hd Hl). rewrite map_app in Hd. by apply disjoint_app_l in Hd. }
  cbn [mbind option_bind].
  destruct (IH st1 (files ++ kept st D [f]) (kept st D [f] ++ l) Hr1) as (st' & -> & Hr' & Hfi').
  { intros p Hp. apply elem_of_app. right. apply Hsub. by apply elem_of_cons; right. }
  { intros Hl. rewrite (kept_ext st st1), (map_fi_ext st st1) by done. by apply Hd. }
  exists st'. rewrite (kept_ext st st1) in * by done. split; [done|]. split; [|intros x; by rewrite Hfi'].
  eapply refs_ok_perm; [|exact Hr']. rewrite <- app_assoc. solve_Permutation.
Qed.

Lemma save_level_spec D level added : forall st files base l,
  refs_ok st l -> (forall p, p ∈ base ++ added -> p ∈ l) ->
  (0 < level -> disjoint (map (fi st) (files ++ kept st D (merged st base added)))) ->
  exists st', save_level c st D level files base added = Some (st', files ++ kept st D (merged st base added)) /\
    refs_ok st' (kept st D (merged st base added) ++ l) /\ (forall x, fi st' x = fi st x).
Proof.
  induction added as [|a added IH]; intros st files base l Hr Hsub Hd; cbn [save_level merged] in *.
  { apply maybe_add_all_spec; [done| |done]. intros p Hp. apply Hsub. by rewrite app_nil_r. }
  pose proof (upper_bound_spec st base a) as Hu. destruct (upper_bound c st base a) as [sm rest]. destruct Hu as (-> & _).
  change (a :: merged st rest added) with ([a] ++ merged st rest added) in *. rewrite !kept_app in *. rewrite !app_assoc in *.
  destruct (maybe_add_all_spec D level sm st files l Hr) as (st1 & -> & Hr1 & Hfi1).
  { intros p Hp. apply Hsub. rewrite !elem_of_app. tauto. }
  { intros Hl. specialize (Hd Hl). rewrite <- app_assoc, map_app in Hd. by apply disjoint_app_l in Hd. }
  cbn [mbind option_bind].
  destruct (MaybeAddFile_spec st1 D level (files ++ kept st D sm) a (kept st D sm ++ l) Hr1) as (st2 & -> & Hr2 & Hfi2).
  { apply elem_of_app. right. apply Hsub. rewrite !elem_of_app, elem_of_cons. tauto. }
  { intros Hl. specialize (Hd Hl). rewrite (kept_ext st st1), (map_fi_ext st st1) by done. rewrite map_app in Hd. by apply disjoint_app_l in Hd. }
  cbn [mbind option_bind]. rewrite (kept_ext st st1) in * by done.
  assert (Hfi : forall x, fi st2 x = fi st x) by (intros x; by rewrite Hfi2).
  destruct (IH st2 ((files ++ kept st D sm) ++ kept st D [a]) rest (kept st D [a] ++ kept st D sm ++ l) Hr2) as (st' & -> & Hr' & Hfi').
  { intros p Hp. rewrite !elem_of_app. right. right. apply Hsub. rewrite !elem_of_app, ?elem_of_cons in *. tauto. }
  { intros Hl. rewrite (merged_ext st st2), (kept_ext st st2), (map_fi_ext st st2) by done. by apply Hd. }
  rewrite (merged_ext st st2), (kept_ext st st2) in * by done. exists st'. split; [done|]. split; [|intros x; by rewrite Hfi'].
  eapply refs_ok_perm; [|exact Hr']. solve_Permutation.
Qed.

Lemma no_overlap_disjoint st files : disjoint (map (fi st) files) -> no_overlap c st files = true.
Proof.
  induction files as [|f files IH]; intros Hd; [done|]. cbn [map] in Hd. apply StronglySorted_inv in Hd as [Hd Hall].
  destruct files as [|g files]; [done|]. cbn [no_overlap]. apply andb_true_iff. split; [|by apply IH].
  cbn [map] in Hall. apply Forall_cons in Hall as [Hfg _]. apply Z.ltb_lt. exact Hfg.
Qed.

(** The levels of the saved version. *)
Definition saved_levels (st : Store) (base : list (list nat)) (levels : list LevelState) : list (list nat) :=
  zip_with (fun files s => kept st (deleted_files s) (merged st files (added_files s))) base levels.

Lemma save_levels_spec levels : forall st level base l,
  refs_ok st l -> (forall p, p ∈ concat base ++ concat (map added_files levels) -> p ∈ l) ->
  (forall i files, saved_levels st base levels !! i = Some files -> 0 < level + Z.of_nat i -> disjoint (map (fi st) files)) ->
  exists st', save_levels c st level base levels = Some (st', saved_levels st base levels) /\
    refs_ok st' (concat (saved_levels st base levels) ++ l) /\ (forall x, fi st' x = fi st x).
Proof.
  induction levels as [|s levels IH]; intros st level base l Hr Hsub Hd; (destruct base as [|files base]; cbn [save_levels];
    [by exists st|]); [by exists st|].
  unfold saved_levels in *. cbn [zip_with] in *. cbn [map concat] in Hsub.
  destruct (save_level_spec (deleted_files s) level (added_files s) st [] files l Hr) as (st1 & -> & Hr1 & Hfi1).
  { intros p Hp. apply Hsub. rewrite !elem_of_app in *. tauto. }
  { intros Hl. cbn [app]. apply (Hd 0%nat _ eq_refl). lia. }
  cbn [mbind option_bind app].
  assert (Hno : (0 <? level) && negb (no_overlap c st1 (kept st (deleted_files s) (merged st files (added_files s)))) = false).
  { destruct (Z.ltb_spec 0 level) as [Hl|Hl]; [|done]. cbn [andb]. apply negb_false_iff. apply no_overlap_disjoint.
    rewrite (map_fi_ext st st1) by done. apply (Hd 0%nat _ eq_refl). lia. }
  rewrite Hno.
  assert (Hext : zip_with (fun files s => kept st1 (deleted_files s) (merged st1 files (added_files s))) base levels =
    zip_with (fun files s => kept st (deleted_files s) (merged st files (added_files s))) base levels).
  { apply zip_with_ext; [|done|done]. intros fs s0. by rewrite (merged_ext st st1), (kept_ext st st1). }
  destruct (IH st1 (level + 1) base (kept st (deleted_files s) (merged st files (added_files s)) ++ l) Hr1) as (st' & E & Hr' & Hfi').
  { intros p Hp. apply elem_of_app. right. apply Hsub. rewrite !elem_of_app in *. tauto. }
  { intros i fs Hi Hl. rewrite Hext in Hi. rewrite (map_fi_ext st st1) by done. apply (Hd (S i) fs Hi). lia. }
  rewrite E. cbn [mbind option_bind]. rewrite Hext in *. exists st'. split; [done|]. split; [|intros x; by rewrite Hfi'].
  eapply refs_ok_perm; [|exact Hr']. cbn [concat]. solve_Permutation.
Qed.

(** ** Applying an edit *)

(** What an edit does to level [i]. *)
Definition edit_dels (l : list (Z * Z)) (i : nat) : list Z :=
  map snd (List.filter (fun x => Z.to_nat (fst x) =? i)%nat l).
Definition edit_news (l : list (Z * FileMetaData)) (i : nat) : list finfo :=
  map (fun x => info_of (snd x)) (List.filter (fun x => Z.to_nat (fst x) =? i)%nat l).

Definition insert_all (xs A : list finfo) : list finfo := fold_left (fun A x => info_insert x A) xs A.

Lemma apply_deleted_at l i : forall levels s,
  levels !! i = Some s ->
  exists s', apply_deleted levels l !! i = Some s' /\ added_files s' = added_files s /\
    (forall n, n ∈ deleted_files s' <-> n ∈ deleted_files s \/ n ∈ edit_dels l i).
Proof.
  induction l as [|[level n0] l IH]; intros levels s Hi; cbn [apply_deleted].
  { exists s. split; [done|]. split; [done|]. intros n. unfold edit_dels. cbn. rewrite elem_of_nil. tauto. }
  unfold edit_dels. cbn [List.filter fst]. destruct (Nat.eqb_spec (Z.to_nat level) i) as [->|Hne].
  - destruct (IH (alter (fun s => mkLevelState ({[n0]} ∪ deleted_files s) (added_files s)) i levels)
      (mkLevelState ({[n0]} ∪ deleted_files s) (added_files s))) as (s' & E & Ha & Hd).
    { by rewrite list_lookup_alter_eq, Hi. }
    exists s'. split; [done|]. split; [done|]. intros n. rewrite Hd. cbn [deleted_files map snd]. unfold edit_dels.
    rewrite elem_of_cons, elem_of_union, elem_of_singleton. tauto.
  - apply IH. by rewrite list_lookup_alter_ne.
Qed.

Lemma apply_deleted_length l : forall levels, length (apply_deleted levels l) = length levels.
Proof. induction l as [|[level n] l IH]; intros levels; cbn [apply_deleted]; [done|]. by rewrite IH, length_alter. Qed.

Lemma apply_deleted_added l : forall levels, map added_files (apply_deleted levels l) = map added_files levels.
Proof.
  induction l as [|[level n] l IH]; intros levels; cbn [apply_deleted]; [done|]. rewrite IH.
  apply list_eq. intros i. rewrite !list_lookup_fmap. destruct (decide (i = Z.to_nat level)) as [->|Hne].
  - rewrite list_lookup_alter_eq. by destruct (levels !! Z.to_nat level).
  - by rewrite list_lookup_alter_ne.
Qed.

Lemma concat_alter (f : LevelState -> LevelState) levels i s p :
  levels !! i = Some s -> added_files (f s) ≡ₚ p :: added_files s ->
  concat (map added_files (alter f i levels)) ≡ₚ p :: concat (map added_files levels).
Proof.
  revert i. induction levels as [|s0 levels IH]; intros i Hi Hp; [done|]. destruct i as [|i]; cbn in *.
  - simplify_eq. by rewrite Hp.
  - rewrite (IH i Hi Hp). by rewrite <- Permutation_middle.
Qed.

Lemma fileset_insert_perm st p l : inum (fi st p) ∉ map inum (map (fi st) l) -> fileset_insert c st p l ≡ₚ p :: l.
Proof.
  induction l as [|g l IH]; intros Hn; cbn [fileset_insert]; [done|]. cbn [map] in Hn. rewrite not_elem_of_cons in Hn.
  destruct Hn as [Hn1 Hn2]. rewrite !BySmallestKey_info. destruct (info_ltb (fi st p) (fi st g)) eqn:E1; [done|].
  destruct (info_ltb (fi st g) (fi st p)) eqn:E2.
  - rewrite IH by done. constructor.
  - exfalso. destruct (info_lt_total (fi st p) (fi st g) Hn1) as [?|?]; unfold info_lt in *; congruence.
Qed.

Lemma insert_all_nums xs : forall A, NoDup (map inum A ++ map inum xs) -> map inum (insert_all xs A) ≡ₚ map inum A ++ map inum xs.
Proof.
  induction xs as [|x xs IH]; intros A Hnd; cbn [insert_all fold_left map]; [by rewrite app_nil_r|].
  assert (Hp : info_insert x A ≡ₚ x :: A).
  { apply info_insert_perm. cbn [map] in Hnd. rewrite <- Permutation_middle in Hnd. apply NoDup_cons in Hnd as [Hn _].
    intros Hx. apply Hn, elem_of_app. by left. }
  unfold insert_all in IH. rewrite IH.
  - rewrite (Permutation_map inum Hp). cbn [map app]. by rewrite <- Permutation_middle.
  - rewrite (Permutation_map inum Hp). cbn [map app] in *. by rewrite Permutation_middle.
Qed.

(** The new files of an edit have numbers their level has not seen. *)
Definition fresh_news (st : Store) (levels : list LevelState) (l : list (Z * FileMetaData)) : Prop :=
  forall i s, levels !! i = Some s -> NoDup (map inum (map (fi st) (added_files s)) ++ map inum (edit_news l i)).

Definition new_at (l : list (Z * FileMetaData)) (st st' : Store) (i : nat) (s s' : LevelState) : Prop :=
  (forall n, n ∈ deleted_files s' <-> n ∈ deleted_files s /\ n ∉ map inum (edit_news l i)) /\
  map (fi st') (added_files s') = insert_all (edit_news l i) (map (fi st) (added_files s)).

Lemma apply_new_spec l : forall st levels rest,
  refs_ok st (concat (map added_files levels) ++ rest) -> Forall (fun x => (Z.to_nat (fst x) < length levels)%nat) l ->
  fresh_news st levels l ->
  let '(st', levels') := apply_new c st levels l in
  refs_ok st' (concat (map added_files levels') ++ rest) /\
  keeps st st' (concat (map added_files levels) ++ rest) /\ length levels' = length levels /\
  forall i s, levels !! i = Some s -> exists s', levels' !! i = Some s' /\ new_at l st st' i s s'.
Proof.
  induction l as [|[level f] l IH]; intros st levels rest Hr Hlv Hfr; cbn [apply_new].
  { split; [done|]. split; [done|]. split; [done|]. intros i s Hi. exists s. split; [done|]. split; [|done].
    intros n. unfold edit_news. cbn. rewrite elem_of_nil. tauto. }
  apply Forall_cons in Hlv as [Hlev Hlv]. cbn [fst] in Hlev. set (k := Z.to_nat level) in *.
  pose proof (new_file_ok st _ (installed f) Hr eq_refl) as Hnf. destruct (new_file st (installed f)) as [p st1].
  destruct Hnf as (Hr1 & Hk1 & Hpn & Hfp & _). change (info_of (installed f)) with (info_of f) in Hfp.
  destruct (lookup_lt_is_Some_2 levels k Hlev) as [sk Hsk].
  assert (Hin : forall i s, levels !! i = Some s -> forall x, x ∈ added_files s -> x ∈ concat (map added_files levels) ++ rest).
  { intros i s Hi x Hx. apply elem_of_app. left. apply list_elem_of_In, in_concat. exists (added_files s). split; [|by apply list_elem_of_In].
    apply in_map, list_elem_of_In. by eapply list_elem_of_lookup_2. }
  assert (Hmap : forall i s, levels !! i = Some s -> map (fi st1) (added_files s) = map (fi st) (added_files s)).
  { intros i s Hi. apply map_ext_in. intros x Hx. apply Hk1, (Hin i s Hi). by apply list_elem_of_In. }
  assert (Hfk : inum (info_of f) ∉ map inum (map (fi st) (added_files sk)) /\
    NoDup ((inum (info_of f) :: map inum (map (fi st) (added_files sk))) ++ map inum (edit_news l k))).
  { specialize (Hfr k sk Hsk). unfold edit_news in Hfr. cbn [List.filter fst] in Hfr. fold k in Hfr. rewrite Nat.eqb_refl in Hfr.
    cbn [map snd] in Hfr. rewrite <- Permutation_middle in Hfr. split; [|exact Hfr].
    apply NoDup_cons in Hfr as [Hn _]. intros Hx. apply Hn, elem_of_app. by left. }
  destruct Hfk as [Hfk1 Hfk2].
  set (g := fun s => mkLevelState (deleted_files s ∖ {[number f]}) (fileset_insert c st1 p (added_files s))).
  assert (Hins : added_files (g sk) ≡ₚ p :: added_files sk).
  { unfold g. cbn [added_files]. apply fileset_insert_perm. by rewrite Hfp, (Hmap k sk Hsk). }
  specialize (IH st1 (alter g k levels) rest).
  assert (Hr2 : refs_ok st1 (concat (map added_files (alter g k levels)) ++ rest)).
  { eapply refs_ok_perm; [|exact Hr1]. by rewrite (concat_alter g levels k sk p Hsk Hins). }
  specialize (IH Hr2). rewrite length_alter in IH. specialize (IH Hlv).
  assert (Hgk : map (fi st1) (added_files (g sk)) = info_insert (info_of f) (map (fi st) (added_files sk))).
  { unfold g. cbn [added_files]. by rewrite fileset_insert_info, Hfp, (Hmap k sk Hsk). }
  assert (Hfr2 : fresh_news st1 (alter g k levels) l).
  { intros i s Hi. destruct (decide (i = k)) as [->|Hne].
    - rewrite list_lookup_alter_eq, Hsk in Hi. cbn in Hi. simplify_eq. rewrite Hgk, (Permutation_map inum (info_insert_perm _ _ Hfk1)). exact Hfk2.
    - rewrite list_lookup_alter_ne in Hi by done. rewrite (Hmap i s Hi). specialize (Hfr i s Hi). unfold edit_news in *.
      cbn [List.filter fst] in Hfr. fold k in Hfr. by rewrite (proj2 (Nat.eqb_neq k i)) in Hfr by done. }
  specialize (IH Hfr2). destruct (apply_new c st1 (alter g k levels) l) as [st' levels'].
  destruct IH as (I1 & I2 & I3 & I4). split; [done|]. split; [|split; [done|]].
  - intros x Hx. rewrite I2; [by apply Hk1|]. rewrite (concat_alter g levels k sk p Hsk Hins). by apply elem_of_cons; right.
  - intros i s Hi. destruct (decide (i = k)) as [->|Hne].
    + simplify_eq. destruct (I4 k (g sk)) as (s' & E & Hd & Ha); [by rewrite list_lookup_alter_eq, Hsk|].
      exists s'. split; [done|]. unfold new_at, edit_news. cbn [List.filter fst]. fold k. rewrite Nat.eqb_refl. cbn [map snd]. split.
      * intros n. rewrite Hd. unfold g. cbn [deleted_files]. change (inum (info_of f)) with (number f).
        rewrite elem_of_difference, elem_of_singleton, not_elem_of_cons. unfold edit_news. tauto.
      * rewrite Ha, Hgk. done.
    + destruct (I4 i s) as (s' & E & Hd & Ha); [by rewrite list_lookup_alter_ne|]. exists s'. split; [done|].
      unfold new_at, edit_news. cbn [List.filter fst]. fold k. rewrite (proj2 (Nat.eqb_neq k i)) by done. split; [done|].
      by rewrite Ha, (Hmap i s Hi).
Qed.

(** ** A plain reading of edits

    [edit_level e i fs]: the files of level [i] after the edit: those deleted go,
    the new ones come, in order. *)

Definition undeleted (D : gset Z) (l : list finfo) : list finfo := List.filter (fun x => negb (bool_decide (inum x ∈ D))) l.

Definition edit_level (e : VersionEdit) (i : nat) (fs : list finfo) : list finfo :=
  insert_all (edit_news (new_files_ e) i) (undeleted (list_to_set (edit_dels (deleted_files_ e) i)) fs).

Definition edit_levels (e : VersionEdit) (levels : list (list finfo)) : list (list finfo) := imap (edit_level e) levels.

Lemma map_kept st D ps : map (fi st) (kept st D ps) = undeleted D (map (fi st) ps).
Proof.
  unfold kept, undeleted. induction ps as [|p ps IH]; cbn [List.filter map]; [done|]. unfold keep at 1.
  destruct (bool_decide (inum (fi st p) ∈ D)); cbn [negb map]; [done|]. by rewrite IH.
Qed.

Lemma insert_all_perm xs : forall A, NoDup (map inum A ++ map inum xs) -> insert_all xs A ≡ₚ xs ++ A.
Proof.
  induction xs as [|x xs IH]; intros A Hnd; cbn [insert_all fold_left]; [done|]. cbn [map] in Hnd.
  assert (Hp : info_insert x A ≡ₚ x :: A).
  { apply info_insert_perm. rewrite <- Permutation_middle in Hnd. apply NoDup_cons in Hnd as [Hn _].
    intros Hx. apply Hn, elem_of_app. by left. }
  unfold insert_all in IH. rewrite IH.
  - rewrite Hp. by rewrite <- Permutation_middle.
  - rewrite (Permutation_map inum Hp). cbn [map app] in *. by rewrite Permutation_middle.
Qed.

Lemma insert_all_sorted xs : forall A, sorted A -> sorted (insert_all xs A).
Proof. induction xs as [|x xs IH]; intros A Hs; cbn [insert_all fold_left]; [done|]. by apply IH, info_insert_sorted. Qed.

Lemma undeleted_sorted D l : sorted l -> sorted (undeleted D l).
Proof.
  induction 1 as [|x l Hs IH Hall]; cbn; [constructor|]. destruct (negb _); [|done]. constructor; [done|].
  apply Forall_forall. intros y Hy. rewrite Forall_forall in Hall. apply Hall. apply list_elem_of_In, filter_In in Hy as [Hy _].
  by apply list_elem_of_In.
Qed.

Lemma undeleted_perm D l l' : l ≡ₚ l' -> undeleted D l ≡ₚ undeleted D l'.
Proof.
  unfold undeleted. induction 1 as [|x l l' _ IH|x y l|l1 l2 l3 _ IH1 _ IH2]; cbn; [done| | |by etrans].
  - destruct (negb _); [by constructor|done].
  - destruct (negb (bool_decide (inum y ∈ D))), (negb (bool_decide (inum x ∈ D))); try done. constructor.
Qed.

Lemma undeleted_sublist D l : undeleted D l `sublist_of` l.
Proof. unfold undeleted. induction l as [|x l IH]; cbn; [done|]. destruct (negb _); by constructor. Qed.

Lemma undeleted_app D l l' : undeleted D (l ++ l') = undeleted D l ++ undeleted D l'.
Proof. apply List.filter_app. Qed.

Lemma undeleted_all D l : (forall x, x ∈ l -> inum x ∉ D) -> undeleted D l = l.
Proof.
  unfold undeleted. induction l as [|x l IH]; intros Hl; cbn; [done|].
  rewrite bool_decide_false by (apply Hl; by apply elem_of_cons; left). cbn. f_equal. apply IH. intros y Hy. apply Hl. by apply elem_of_cons; right.
Qed.

Lemma undeleted_undeleted D D1 D2 l :
  (forall x, x ∈ l -> inum x ∈ D2 <-> inum x ∈ D \/ inum x ∈ D1) -> undeleted D1 (undeleted D l) = undeleted D2 l.
Proof.
  unfold undeleted. induction l as [|x l IH]; intros Hl; cbn; [done|].
  specialize (IH ltac:(intros y Hy; apply Hl; by apply elem_of_cons; right)). specialize (Hl x ltac:(by apply elem_of_cons; left)).
  destruct (bool_decide_reflect (inum x ∈ D)) as [H1|H1]; cbn.
  - rewrite bool_decide_true by tauto. cbn. done.
  - destruct (bool_decide_reflect (inum x ∈ D1)) as [H2|H2]; cbn.
    + rewrite bool_decide_true by tauto. cbn. done.
    + rewrite bool_decide_false by tauto. cbn. by rewrite IH.
Qed.

(** ** The builder *)

Definition nums (st : Store) (ps : list nat) : list Z := map (fun p => inum (fi st p)) ps.

Lemma nums_fi st ps : nums st ps = map inum (map (fi st) ps).
Proof. unfold nums. by rewrite map_map. Qed.

(** A level of the builder over the files [B] of the base. *)
Record level_wf (st : Store) (B : list nat) (s : LevelState) : Prop := {
  wf_base : sorted (map (fi st) B);
  wf_added : sorted (map (fi st) (added_files s));
  wf_nums : NoDup (nums st (B ++ added_files s))
}.

(** What saving the level would give. *)
Definition level_result (st : Store) (B : list nat) (s : LevelState) : list finfo :=
  map (fi st) (kept st (deleted_files s) (merged st B (added_files s))).

Lemma level_result_spec st B s :
  level_wf st B s -> sorted (level_result st B s) /\
    level_result st B s ≡ₚ undeleted (deleted_files s) (map (fi st) B ++ map (fi st) (added_files s)).
Proof.
  intros [H1 H2 H3]. unfold level_result. rewrite map_kept. split.
  - apply undeleted_sorted, merged_sorted; done.
  - apply undeleted_perm. rewrite <- map_app. apply Permutation_map, merged_perm.
Qed.

Lemma level_step st st' B s s1 s2 e i :
  level_wf st B s -> (forall p, p ∈ B ++ added_files s -> fi st' p = fi st p) ->
  added_files s1 = added_files s ->
  (forall n, n ∈ deleted_files s1 <-> n ∈ deleted_files s \/ n ∈ edit_dels (deleted_files_ e) i) ->
  new_at (new_files_ e) st st' i s1 s2 ->
  NoDup (nums st (B ++ added_files s) ++ map inum (edit_news (new_files_ e) i)) ->
  level_wf st' B s2 /\ level_result st' B s2 = edit_level e i (level_result st B s) /\
  nums st' (B ++ added_files s2) ≡ₚ nums st (B ++ added_files s) ++ map inum (edit_news (new_files_ e) i).
Proof.
  intros Hwf Hfi Ha1 Hd1 [Hd2 Ha2] Hnd. set (N := edit_news (new_files_ e) i) in *.
  assert (HB : map (fi st') B = map (fi st) B).
  { apply map_ext_in. intros p Hp. apply Hfi, elem_of_app. left. by apply list_elem_of_In. }
  rewrite Ha1 in Ha2. pose proof Hwf as [W1 W2 W3].
  assert (HndA : NoDup (map inum (map (fi st) (added_files s)) ++ map inum N)).
  { unfold nums in Hnd. rewrite map_app, <- app_assoc in Hnd. apply NoDup_app in Hnd as (_ & _ & Hnd). by rewrite map_map. }
  pose proof (insert_all_perm N (map (fi st) (added_files s)) HndA) as HpA. rewrite <- Ha2 in HpA.
  assert (Hnums : nums st' (B ++ added_files s2) ≡ₚ nums st (B ++ added_files s) ++ map inum N).
  { rewrite !nums_fi, !map_app, HB, (Permutation_map inum HpA), !map_app. solve_Permutation. }
  assert (Hwf' : level_wf st' B s2).
  { split; [by rewrite HB|rewrite Ha2; by apply insert_all_sorted|by rewrite Hnums]. }
  split; [done|]. split; [|done].
  destruct (level_result_spec st B s Hwf) as [S1 P1]. destruct (level_result_spec st' B s2 Hwf') as [S2 P2].
  assert (Hfresh : forall x, x ∈ map (fi st) B ++ map (fi st) (added_files s) -> inum x ∉ map inum N).
  { intros x Hx Hn. rewrite <- map_app in Hx. apply NoDup_app in Hnd as (_ & Hnd & _). apply (Hnd (inum x)); [|done].
    rewrite nums_fi. apply list_elem_of_In, in_map. by apply list_elem_of_In. }
  set (D1 := list_to_set (edit_dels (deleted_files_ e) i) : gset Z).
  assert (Hund : undeleted (deleted_files s2) N = N).
  { apply undeleted_all. intros x Hx. rewrite Hd2. intros [_ Hn]. apply Hn. apply list_elem_of_In, in_map. by apply list_elem_of_In. }
  assert (Hall : undeleted D1 (undeleted (deleted_files s) (map (fi st) B ++ map (fi st) (added_files s))) =
                 undeleted (deleted_files s2) (map (fi st) B ++ map (fi st) (added_files s))).
  { apply undeleted_undeleted. intros x Hx. rewrite Hd2, Hd1. unfold D1. rewrite elem_of_list_to_set. specialize (Hfresh x Hx). tauto. }
  assert (HndR : NoDup (map inum (undeleted D1 (level_result st B s)) ++ map inum N)).
  { rewrite (Permutation_map inum (undeleted_perm D1 _ _ P1)), <- (map_app inum). rewrite nums_fi, <- map_app in Hnd.
    eapply sublist_NoDup; [exact Hnd|]. apply (fmap_sublist inum), sublist_app; [|done].
    rewrite map_app. etrans; apply undeleted_sublist. }
  apply sorted_unique; [done| |].
  - apply insert_all_sorted, undeleted_sorted. done.
  - unfold edit_level. fold N D1. rewrite (insert_all_perm N _ HndR), P2, HB, (undeleted_perm D1 _ _ P1), Hall.
    rewrite undeleted_app, (undeleted_perm _ _ _ HpA), undeleted_app, Hund, undeleted_app. solve_Permutation.
Qed.

End Build.
