(* ===== verification/VersionLife.v ===== *)
(** * The life of versions

    The invariant of a [VersionSet]: every file of a version in its list is alive,
    with a reference for each version that holds it, and the files of a level are
    in order.  Every operation of the set keeps it, and a [Builder] computes the
    files a plain reading of the edits asks for. *)

From S2P Require Import Prelude Slice Coding Status Env Logging LogFormat LogReader Comparator DbFormat VersionEdit Filename Format Iterator Options TwoLevel Version VersionSpec Compaction VersionSet VersionSetSpec.

Section Life.

Context (c : Comparator) {L : ComparatorLaws c}.
Context {F : Type} `{WritableFile F}.

Implicit Types vs : VersionSet F.

(** ** The invariant *)

Definition files_of (x : nat * VersionNode) : list nat := concat (files_ (version (snd x))).
Definition all_files vs : list nat := concat (map files_of (versions_ vs)).

(** A level in order, its numbers distinct. *)
Definition level_good (st : Store) (files : list nat) : Prop :=
  sorted c (map (fi st) files) /\ NoDup (nums st files).

Definition version_good (st : Store) (v : Version nat) : Prop :=
  length (files_ v) = Z.to_nat kNumLevels /\ Forall (level_good st) (files_ v).

(** [rest] are references held elsewhere: by a builder, or by a version not yet in
    the list. *)
Record vs_ok vs (rest : list nat) : Prop := mkVsOk {
  ok_cmp : user_cmp vs = c;
  ok_refs : refs_ok (store_ vs) (all_files vs ++ rest);
  ok_ids : NoDup (map fst (versions_ vs));
  ok_alloc : Forall (fun x => (fst x < version_alloc vs)%nat) (versions_ vs);
  ok_nodes : Forall (fun x => 1 <= refs_ (snd x) /\ version_good (store_ vs) (version (snd x))) (versions_ vs)
}.

Lemma level_good_keeps st st' files : keeps st st' files -> level_good st files -> level_good st' files.
Proof.
  intros Hk [H1 H2]. assert (E : map (fi st') files = map (fi st) files).
  { apply map_ext_in. intros p Hp. apply Hk. by apply list_elem_of_In. }
  split; [by rewrite E|]. rewrite nums_fi in *. by rewrite E.
Qed.

Lemma version_good_keeps st st' v : keeps st st' (concat (files_ v)) -> version_good st v -> version_good st' v.
Proof.
  intros Hk [H1 H2]. split; [done|]. rewrite Forall_forall in *. intros files Hf. eapply level_good_keeps; [|by apply H2].
  intros p Hp. apply Hk. apply list_elem_of_In, in_concat. exists files. by rewrite <- !list_elem_of_In.
Qed.

(** ** Nodes *)

Lemma node_at_elem vs id node : node_at vs id = Some node -> (id, node) ∈ versions_ vs.
Proof.
  unfold node_at. destruct (List.find _ _) as [[i n]|] eqn:E; [|done]. intros [= <-]. apply List.find_some in E as [E1 E2].
  cbn in E2. apply Nat.eqb_eq in E2 as ->. by apply list_elem_of_In.
Qed.

Lemma elem_node_at vs id node : NoDup (map fst (versions_ vs)) -> (id, node) ∈ versions_ vs -> node_at vs id = Some node.
Proof.
  unfold node_at. induction (versions_ vs) as [|[i n] l IH]; intros Hnd Hin; [by apply not_elem_of_nil in Hin|].
  cbn [map fst List.find] in *. apply NoDup_cons in Hnd as [Hn Hnd]. apply elem_of_cons in Hin as [[= <- <-]|Hin].
  - by rewrite Nat.eqb_refl.
  - destruct (Nat.eqb_spec i id) as [->|Hne]; [|by apply IH].
    exfalso. apply Hn. apply list_elem_of_In, in_map_iff. exists (id, node). by rewrite <- list_elem_of_In.
Qed.

Lemma all_files_elem vs id node p : node_at vs id = Some node -> p ∈ concat (files_ (version node)) -> p ∈ all_files vs.
Proof.
  intros Hn Hp. apply node_at_elem in Hn. unfold all_files. apply list_elem_of_In, in_concat. exists (files_of (id, node)).
  split; [|by apply list_elem_of_In]. apply in_map. by apply list_elem_of_In.
Qed.

Lemma put_node_at vs id node id' :
  is_Some (node_at vs id) ->
  node_at (put_node vs id node) id' = if decide (id' = id) then Some node else node_at vs id'.
Proof.
  unfold node_at, put_node. cbn [versions_ set_versions]. induction (versions_ vs) as [|[i n] l IH]; cbn [List.find map fst].
  - intros Hs. by apply is_Some_None in Hs.
  - intros Hs. destruct (Nat.eqb_spec i id) as [->|Hne]; cbn [fst].
    + destruct (Nat.eqb_spec id id') as [->|Hne']; [by rewrite decide_True|]. rewrite decide_False by done.
      clear -Hne'. induction l as [|[j m] l IH]; cbn [List.find map fst]; [done|]. destruct (Nat.eqb_spec j id) as [->|]; cbn [fst].
      * by rewrite (proj2 (Nat.eqb_neq id id')).
      * by destruct (j =? id')%nat.
    + destruct (Nat.eqb_spec i id') as [->|Hne']; [by rewrite decide_False|]. by apply IH.
Qed.

Lemma put_node_files vs id node node' :
  NoDup (map fst (versions_ vs)) -> node_at vs id = Some node -> files_ (version node') = files_ (version node) ->
  map files_of (versions_ (put_node vs id node')) = map files_of (versions_ vs) /\
  map fst (versions_ (put_node vs id node')) = map fst (versions_ vs).
Proof.
  intros Hnd Hn Hf. unfold put_node. cbn [versions_ set_versions]. rewrite !map_map. split.
  - apply map_ext_in. intros [i n] Hi. cbn [fst]. destruct (Nat.eqb_spec i id) as [->|]; [|done].
    apply list_elem_of_In, (elem_node_at vs id n Hnd) in Hi. rewrite Hn in Hi. injection Hi as <-. unfold files_of. cbn [snd]. by rewrite Hf.
  - apply map_ext. intros [i n]. cbn [fst]. by destruct (Nat.eqb_spec i id) as [->|].
Qed.

Lemma put_node_ok vs rest id node node' :
  vs_ok vs rest -> node_at vs id = Some node -> files_ (version node') = files_ (version node) -> 1 <= refs_ node' ->
  vs_ok (put_node vs id node') rest.
Proof.
  intros Hok Hn Hf Hr. destruct (put_node_files vs id node node' (ok_ids _ _ Hok) Hn Hf) as [E1 E2]. split.
  - apply (ok_cmp _ _ Hok).
  - unfold all_files. rewrite E1. exact (ok_refs _ _ Hok).
  - rewrite E2. exact (ok_ids _ _ Hok).
  - pose proof (ok_alloc _ _ Hok) as Ha. rewrite Forall_forall in *. intros x Hx. cbn [put_node versions_ set_versions version_alloc] in *.
    apply list_elem_of_In, in_map_iff in Hx as ([i n] & <- & Hx). apply list_elem_of_In in Hx. specialize (Ha _ Hx). cbn [fst] in *.
    by destruct (Nat.eqb_spec i id) as [->|].
  - pose proof (ok_nodes _ _ Hok) as Ha. rewrite Forall_forall in *. intros x Hx. cbn [put_node versions_ set_versions store_] in *.
    apply list_elem_of_In, in_map_iff in Hx as ([i n] & <- & Hx). apply list_elem_of_In in Hx.
    pose proof (Ha _ Hx) as [H1 H2]. cbn [fst snd] in *. destruct (Nat.eqb_spec i id) as [->|]; [|done]. cbn [snd].
    split; [done|]. apply (elem_node_at vs id n (ok_ids _ _ Hok)) in Hx. rewrite Hn in Hx. injection Hx as <-.
    unfold version_good. by rewrite Hf.
Qed.

(** ** [Ref] and [Unref] *)

Lemma Version_Ref_ok vs rest id node :
  vs_ok vs rest -> node_at vs id = Some node ->
  exists vs', Version_Ref vs id = Some vs' /\ vs_ok vs' rest /\ store_ vs' = store_ vs /\ all_files vs' = all_files vs /\
    (forall id', node_at vs' id' = if decide (id' = id) then Some (mkNode (refs_ node + 1) (version node)) else node_at vs id') /\
    vs' = put_node vs id (mkNode (refs_ node + 1) (version node)).
Proof.
  intros Hok Hn. unfold Version_Ref. rewrite Hn. cbn [mbind option_bind]. eexists. split; [done|].
  assert (Hr : 1 <= refs_ node).
  { pose proof (ok_nodes _ _ Hok) as Ha. rewrite Forall_forall in Ha. by destruct (Ha _ (node_at_elem _ _ _ Hn)). }
  split; [eapply put_node_ok; [done|done|done|cbn [refs_]; lia]|]. split; [done|]. split.
  { unfold all_files. by rewrite (proj1 (put_node_files vs id node (mkNode (refs_ node + 1) (version node)) (ok_ids _ _ Hok) Hn eq_refl)). }
  split; [|done]. intros id'. by rewrite put_node_at.
Qed.

(** What is left of the list when [id] leaves it. *)
Definition without (id : nat) (l : list (nat * VersionNode)) : list (nat * VersionNode) :=
  List.filter (fun x => negb (fst x =? id)%nat) l.

Lemma without_elem id l x : x ∈ without id l -> x ∈ l.
Proof. unfold without. rewrite !list_elem_of_In, filter_In. tauto. Qed.

Lemma without_files id node l :
  NoDup (map fst l) -> (id, node) ∈ l -> concat (map files_of l) ≡ₚ files_of (id, node) ++ concat (map files_of (without id l)).
Proof.
  induction l as [|[i n] l IH]; intros Hnd Hin; [by apply not_elem_of_nil in Hin|]. cbn [map fst] in Hnd.
  apply NoDup_cons in Hnd as [Hn Hnd]. apply elem_of_cons in Hin as [[= <- <-]|Hin]; cbn [without List.filter fst map concat].
  - rewrite Nat.eqb_refl. cbn [negb]. fold (without id l). replace (without id l) with l; [done|].
    symmetry. clear -Hn. unfold without. induction l as [|[j m] l IH]; cbn in *; [done|]. apply not_elem_of_cons in Hn as [Hn1 Hn2].
    rewrite (proj2 (Nat.eqb_neq j id)) by done. cbn. by rewrite IH.
  - assert (i <> id) as Hne.
    { intros ->. apply Hn. apply list_elem_of_In, in_map_iff. exists (id, node). by rewrite <- list_elem_of_In. }
    rewrite (proj2 (Nat.eqb_neq i id)) by done. cbn [negb map concat]. fold (without id l). rewrite (IH Hnd Hin). solve_Permutation.
Qed.

Lemma without_ids id l : NoDup (map fst l) -> NoDup (map fst (without id l)).
Proof.
  unfold without. induction l as [|[i n] l IH]; cbn [List.filter map fst]; [done|]. intros Hnd. apply NoDup_cons in Hnd as [Hn Hnd].
  destruct (negb (i =? id)%nat); [|by apply IH]. cbn [map fst]. apply NoDup_cons. split; [|by apply IH].
  intros Hi. apply Hn. apply list_elem_of_In, in_map_iff in Hi as (x & <- & Hx). apply filter_In in Hx as [Hx _]. apply list_elem_of_In.
  by apply in_map.
Qed.

Lemma without_at vs id id' : id' <> id -> node_at (set_versions vs (without id (versions_ vs))) id' = node_at vs id'.
Proof.
  intros Hne. unfold node_at, without. cbn [versions_ set_versions]. f_equal. induction (versions_ vs) as [|[i n] l IH]; [done|].
  cbn [List.filter List.find fst]. destruct (Nat.eqb_spec i id) as [->|]; cbn [negb List.find fst].
  - by rewrite (proj2 (Nat.eqb_neq id id')).
  - by rewrite IH.
Qed.

Lemma vs_ok_store vs rest rest' st :
  vs_ok vs rest -> refs_ok st (all_files vs ++ rest') -> keeps (store_ vs) st (all_files vs) -> vs_ok (set_store vs st) rest'.
Proof.
  intros [H1 H2 H3 H4 H5] Hr Hk. split; try done. cbn [store_ set_store versions_]. rewrite Forall_forall in *. intros [i n] Hx.
  destruct (H5 _ Hx) as [Hr1 Hg]. split; [done|]. eapply version_good_keeps; [|exact Hg]. intros p Hp. apply Hk.
  eapply all_files_elem; [|exact Hp]. by apply elem_node_at.
Qed.

Lemma Version_Unref_ok vs rest id node :
  vs_ok vs rest -> node_at vs id = Some node ->
  exists vs', Version_Unref vs id = Some vs' /\ vs_ok vs' rest /\ keeps (store_ vs) (store_ vs') (all_files vs' ++ rest) /\
    (forall id', id' <> id -> node_at vs' id' = node_at vs id') /\
    node_at vs' id = (if refs_ node =? 1 then None else Some (mkNode (refs_ node - 1) (version node))) /\
    vs' = set_store (set_versions vs (versions_ vs')) (store_ vs').
Proof.
  intros Hok Hn. unfold Version_Unref. rewrite Hn. cbn [mbind option_bind]. pose proof (node_at_elem _ _ _ Hn) as Hin.
  pose proof (ok_nodes _ _ Hok) as Ha. rewrite Forall_forall in Ha. destruct (Ha _ Hin) as [Hr Hg]. cbn [snd] in Hr, Hg.
  rewrite (proj2 (Z.leb_le 1 (refs_ node)) Hr). cbn [negb]. cbv zeta.
  replace (refs_ node - 1 =? 0) with (refs_ node =? 1) by lia. destruct (Z.eqb_spec (refs_ node) 1) as [H1|H1].
  - unfold Version_delete. fold (without id (versions_ vs)).
    pose proof (without_files id node (versions_ vs) (ok_ids _ _ Hok) Hin) as Hp. fold (all_files vs) in Hp.
    destruct (release_files_ok (concat (files_ (version node))) (store_ vs)
                (concat (map files_of (without id (versions_ vs))) ++ rest)) as (st & -> & Hr' & Hk).
    { eapply refs_ok_perm; [|exact (ok_refs _ _ Hok)]. rewrite Hp. unfold files_of at 1. cbn [snd]. by rewrite app_assoc. }
    cbn [mbind option_bind]. eexists. split; [done|]. split; [|split; [exact Hk|split; [|split; [|done]]]].
    + destruct Hok as [O1 O2 O3 O4 O5]. split; cbn [store_ set_store versions_ set_versions version_alloc user_cmp]; try done.
      * by apply without_ids.
      * rewrite Forall_forall in *. intros x Hx. apply O4. by eapply without_elem.
      * rewrite Forall_forall. intros [i n] Hx. destruct (Ha _ (without_elem _ _ _ Hx)) as [Hr1 Hg1]. split; [done|].
        eapply version_good_keeps; [|exact Hg1]. intros p Hpp. apply Hk. apply elem_of_app. left.
        apply list_elem_of_In, in_concat. exists (files_of (i, n)). split; [|by apply list_elem_of_In]. apply in_map. by apply list_elem_of_In.
    + intros id' Hne. by apply (without_at vs id id').
    + unfold node_at. cbn [versions_ set_store set_versions]. destruct (List.find _ _) as [[i n]|] eqn:E; [|done].
      apply List.find_some in E as [E1 E2]. cbn in E2. apply Nat.eqb_eq in E2 as ->. unfold without in E1. apply filter_In in E1 as [_ E1].
      cbn in E1. by rewrite Nat.eqb_refl in E1.
  - eexists. split; [done|]. split; [eapply put_node_ok; [done|done|done|cbn [refs_]; lia]|]. split; [done|]. split; [|split; [|done]].
    + intros id' Hne. rewrite put_node_at by done. by rewrite decide_False.
    + rewrite put_node_at by done. by rewrite decide_True.
Qed.

Lemma find_snoc {A} (f : A -> bool) l x :
  List.find f (l ++ [x]) = match List.find f l with Some y => Some y | None => if f x then Some x else None end.
Proof. induction l as [|y l IH]; cbn; [done|]. by destruct (f y). Qed.

(** What the operations on versions leave alone. *)
Definition frame_of vs :=
  (dbname_ vs, options_ vs, user_cmp vs, vs_next_file_number_ vs, manifest_file_number_ vs, vs_last_sequence_ vs,
   vs_log_number_ vs, vs_prev_log_number_ vs, descriptor_log_ vs).

Lemma AppendVersion_ok vs rest v :
  vs_ok vs (concat (files_ v) ++ rest) -> version_good (store_ vs) v ->
  (forall id, current_ vs = Some id -> is_Some (node_at vs id)) ->
  exists vs', AppendVersion vs v = Some vs' /\ vs_ok vs' rest /\ current_ vs' = Some (version_alloc vs) /\
    node_at vs' (version_alloc vs) = Some (mkNode 1 v) /\
    keeps (store_ vs) (store_ vs') (all_files vs' ++ rest) /\
    (forall id, current_ vs <> Some id -> id <> version_alloc vs -> node_at vs' id = node_at vs id) /\
    frame_of vs' = frame_of vs /\ compact_pointer_ vs' = compact_pointer_ vs /\
    (forall id node, current_ vs = Some id -> node_at vs id = Some node -> refs_ node <> 1 ->
       node_at vs' id = Some (mkNode (refs_ node - 1) (version node))).
Proof.
  intros Hok Hg Hcur. unfold AppendVersion.
  assert (exists vs1, match current_ vs with Some id => Version_Unref vs id | None => Some vs end = Some vs1 /\
    vs_ok vs1 (concat (files_ v) ++ rest) /\ keeps (store_ vs) (store_ vs1) (all_files vs1 ++ concat (files_ v) ++ rest) /\
    (forall id, current_ vs <> Some id -> node_at vs1 id = node_at vs id) /\
    (forall id node, current_ vs = Some id -> node_at vs id = Some node -> refs_ node <> 1 ->
       node_at vs1 id = Some (mkNode (refs_ node - 1) (version node))) /\
    vs1 = set_store (set_versions vs (versions_ vs1)) (store_ vs1)) as (vs1 & -> & Hok1 & Hk1 & Hat & Hbase & Heq).
  { destruct (current_ vs) as [id|] eqn:E; [|exists vs; by destruct vs].
    destruct (Hcur id eq_refl) as [node Hn]. destruct (Version_Unref_ok vs _ id node Hok Hn) as (vs1 & -> & O1 & O2 & O3 & O4 & O5).
    exists vs1. split; [done|]. split; [done|]. split; [done|]. split; [intros id' Hne; apply O3; congruence|]. split; [|done].
    intros id' n' [= <-] Hn' Hr. rewrite Hn in Hn'. injection Hn' as <-. by rewrite O4, (proj2 (Z.eqb_neq (refs_ node) 1)). }
  cbn [mbind option_bind]. assert (Ea : version_alloc vs1 = version_alloc vs) by (by rewrite Heq). rewrite Ea.
  eexists. split; [done|]. destruct Hok1 as [O1 O2 O3 O4 O5].
  assert (Hfresh : version_alloc vs ∉ map fst (versions_ vs1)).
  { intros Hi. apply list_elem_of_In, in_map_iff in Hi as (x & Hx & Hi). rewrite Forall_forall in O4.
    specialize (O4 x ltac:(by apply list_elem_of_In)). rewrite Ea, Hx in O4. lia. }
  assert (Eall : all_files (set_versions (set_current vs1 (version_alloc vs))
    (versions_ (set_current vs1 (version_alloc vs)) ++ [(version_alloc vs, mkNode 1 v)])) =
    all_files vs1 ++ concat (files_ v)).
  { unfold all_files. cbn [versions_ set_versions]. rewrite map_app, concat_app. cbn [map concat]. by rewrite app_nil_r. }
  split; [|split; [done|split; [|split; [rewrite Eall, <- app_assoc; exact Hk1|split; [|split; [by rewrite Heq|split; [by rewrite Heq|]]]]]]].
  - split; cbn [user_cmp set_versions set_current store_ versions_ version_alloc]; try done.
    + rewrite app_assoc, <- Eall in O2. exact O2.
    + rewrite map_app. cbn [map fst]. apply NoDup_app. split; [done|]. split; [|repeat constructor; by apply not_elem_of_nil].
      intros x Hx Hx'. apply list_elem_of_singleton in Hx'. by subst.
    + rewrite Forall_app. split; [|constructor; [cbn [fst]; lia|done]]. eapply Forall_impl; [exact O4|]. intros x Hx. cbn in *. lia.
    + rewrite Forall_app. split; [done|]. constructor; [|done]. cbn [snd refs_ version]. split; [lia|].
      eapply version_good_keeps; [|exact Hg]. intros p Hp. apply Hk1. rewrite !elem_of_app. tauto.
  - unfold node_at. cbn [versions_ set_versions]. rewrite find_snoc. replace (List.find _ (versions_ vs1)) with (@None (nat * VersionNode)).
    + cbn [fst]. by rewrite Nat.eqb_refl.
    + symmetry. destruct (List.find _ _) as [[i n]|] eqn:E; [|done]. apply List.find_some in E as [E1 E2]. cbn in E2.
      apply Nat.eqb_eq in E2 as ->. exfalso. apply Hfresh. apply list_elem_of_In, in_map_iff. by exists (version_alloc vs, n).
  - intros id Hc Hne. rewrite <- Hat by done. unfold node_at. cbn [versions_ set_versions set_current]. rewrite find_snoc.
    destruct (List.find _ (versions_ vs1)) as [x|]; [done|]. cbn [fst]. rewrite (proj2 (Nat.eqb_neq _ _)); [done|congruence].
  - intros id node Hc Hn Hr. specialize (Hbase id node Hc Hn Hr). unfold node_at in *. cbn [versions_ set_versions set_current].
    rewrite find_snoc. by destruct (List.find _ (versions_ vs1)).
Qed.

(** ** The builder *)

Record building vs (b : Builder) (node : VersionNode) (rest : list nat) (abs : list (list finfo)) (seen : nat -> list Z) : Prop := mkBuilding {
  bd_ok : vs_ok vs (concat (map added_files (levels_ b)) ++ rest);
  bd_base : node_at vs (base_ b) = Some node;
  bd_length : length (levels_ b) = Z.to_nat kNumLevels;
  bd_abs : length abs = Z.to_nat kNumLevels;
  bd_level i B s : files_ (version node) !! i = Some B -> levels_ b !! i = Some s ->
    level_wf c (store_ vs) B s /\ abs !! i = Some (level_result c (store_ vs) B s) /\ nums (store_ vs) (B ++ added_files s) ≡ₚ seen i
}.

Definition level_infos (st : Store) (v : Version nat) : list (list finfo) := map (map (fi st)) (files_ v).

Lemma node_good vs rest id node : vs_ok vs rest -> node_at vs id = Some node -> 1 <= refs_ node /\ version_good (store_ vs) (version node).
Proof.
  intros Hok Hn. pose proof (ok_nodes _ _ Hok) as Ha. rewrite Forall_forall in Ha. exact (Ha _ (node_at_elem _ _ _ Hn)).
Qed.

Lemma kept_none st ps : kept st ∅ ps = ps.
Proof.
  unfold kept. induction ps as [|p ps IH]; cbn [List.filter]; [done|]. unfold keep at 1. rewrite bool_decide_false by set_solver.
  cbn [negb]. by rewrite IH.
Qed.

Lemma Builder_new_ok vs rest id node :
  vs_ok vs rest -> node_at vs id = Some node ->
  exists b vs', Builder_new vs id = Some (b, vs') /\ base_ b = id /\
    building vs' b (mkNode (refs_ node + 1) (version node)) rest (level_infos (store_ vs) (version node))
      (fun i => nums (store_ vs) (nth i (files_ (version node)) [])) /\
    vs' = put_node vs id (mkNode (refs_ node + 1) (version node)) /\ all_files vs' = all_files vs.
Proof.
  intros Hok Hn. unfold Builder_new. destruct (Version_Ref_ok vs rest id node Hok Hn) as (vs' & -> & Hok' & Est & Eall & Hat & Heq).
  cbn [mbind option_bind]. eexists _, _. split; [done|]. split; [done|]. split; [|done].
  destruct (node_good vs rest id node Hok Hn) as [_ [Hlen Hg]]. split; cbn [levels_ base_].
  - replace (concat (map added_files (replicate (Z.to_nat kNumLevels) (mkLevelState ∅ [])))) with (@nil nat) by done. exact Hok'.
  - by rewrite Hat, decide_True.
  - by rewrite length_replicate.
  - unfold level_infos. by rewrite length_map.
  - cbn [version]. intros i B s HB Hs. apply lookup_replicate in Hs as [-> _]. rewrite Est. cbn [added_files deleted_files].
    rewrite Forall_forall in Hg. destruct (Hg B) as [G1 G2]; [by eapply list_elem_of_lookup_2|]. rewrite app_nil_r. split; [|split].
    + split; cbn [added_files]; [done|constructor|by rewrite app_nil_r].
    + unfold level_infos, level_result. rewrite list_lookup_fmap, HB. cbn [fmap option_fmap option_map added_files deleted_files merged].
      by rewrite kept_none.
    + apply nth_lookup_Some with (d := []) in HB. by rewrite HB.
Qed.

(** An edit [Apply] can take: its levels exist and its compaction pointers are
    keys. *)
Record edit_fits (e : VersionEdit) : Prop := mkEditFits {
  fits_pointers : Forall (fun p => key_ok (snd p)) (compact_pointers_ e);
  fits_new : Forall (fun x => (Z.to_nat (fst x) < Z.to_nat kNumLevels)%nat) (new_files_ e)
}.

Lemma edit_ok_fits e : edit_ok e -> edit_fits e.
Proof.
  intros [_ _ _ _ _ Hp _ _ Hf]. split.
  - eapply Forall_impl; [exact Hp|]. by intros x [].
  - eapply Forall_impl; [exact Hf|]. intros x [[H1 H2] _]. cbv beta. lia.
Qed.

Definition edit_pointers (l : list (Z * InternalKey)) (ptrs : list bytes) : list bytes :=
  fold_left (fun ptrs p => <[Z.to_nat (fst p) := rep_ (snd p)]> ptrs) l ptrs.

Lemma apply_pointers_ok l : forall ptrs, Forall (fun p => key_ok (snd p)) l -> apply_pointers ptrs l = Some (edit_pointers l ptrs).
Proof.
  induction l as [|[level k] l IH]; intros ptrs Hl; cbn [apply_pointers]; [done|]. apply Forall_cons in Hl as [Hk Hl]. cbn [snd] in Hk.
  unfold InternalKey_Encode. unfold key_ok in Hk. rewrite (proj2 (Z.eqb_neq (blen (rep_ k)) 0)) by lia. cbn [mbind option_bind].
  by rewrite IH.
Qed.

(** The numbers an edit adds to level [i]. *)
Definition edit_nums (e : VersionEdit) (i : nat) : list Z := map inum (edit_news (new_files_ e) i).

Lemma level_lookup {A} (l : list A) i : length l = Z.to_nat kNumLevels -> (i < Z.to_nat kNumLevels)%nat -> is_Some (l !! i).
Proof. intros Hl Hi. apply lookup_lt_is_Some_2. lia. Qed.

Lemma building_levels vs b node rest abs seen i s :
  building vs b node rest abs seen -> levels_ b !! i = Some s ->
  exists B, files_ (version node) !! i = Some B /\ (i < Z.to_nat kNumLevels)%nat.
Proof.
  intros [H1 H2 H3 H4 H5] Hs. apply lookup_lt_Some in Hs as Hi. destruct (node_good _ _ _ _ H1 H2) as [_ [Hlen _]].
  destruct (level_lookup (files_ (version node)) i Hlen ltac:(lia)) as [B HB]. exists B. split; [done|lia].
Qed.

Lemma Apply_ok vs b node rest abs seen e :
  building vs b node rest abs seen -> edit_fits e ->
  (forall i, (i < Z.to_nat kNumLevels)%nat -> NoDup (seen i ++ edit_nums e i)) ->
  exists b' vs', Apply b vs e = Some (b', vs') /\ base_ b' = base_ b /\
    building vs' b' node rest (edit_levels c e abs) (fun i => seen i ++ edit_nums e i) /\
    keeps (store_ vs) (store_ vs') (all_files vs ++ rest) /\
    vs' = set_store (set_pointers vs (edit_pointers (compact_pointers_ e) (compact_pointer_ vs))) (store_ vs').
Proof.
  intros Hb [Fp Fn] Hnd. pose proof Hb as [Hok Hbase Hlen Habs Hlev]. unfold Apply.
  rewrite (apply_pointers_ok _ _ Fp). cbn [mbind option_bind].
  set (levels1 := apply_deleted (levels_ b) (deleted_files_ e)).
  assert (Hlen1 : length levels1 = Z.to_nat kNumLevels) by (unfold levels1; by rewrite apply_deleted_length).
  assert (Hadd : map added_files levels1 = map added_files (levels_ b)) by apply apply_deleted_added.
  assert (Hat1 : forall i s1, levels1 !! i = Some s1 -> exists s, levels_ b !! i = Some s /\ added_files s1 = added_files s /\
    forall n, n ∈ deleted_files s1 <-> n ∈ deleted_files s \/ n ∈ edit_dels (deleted_files_ e) i).
  { intros i s1 Hs1. apply lookup_lt_Some in Hs1 as Hi. destruct (level_lookup (levels_ b) i Hlen ltac:(lia)) as [s Hs].
    destruct (apply_deleted_at (deleted_files_ e) i _ s Hs) as (s1' & E & Ha & Hd). fold levels1 in E. simplify_eq. by exists s. }
  pose proof (apply_new_spec c (new_files_ e) (store_ vs) levels1 (all_files vs ++ rest)) as Hn.
  rewrite (ok_cmp _ _ Hok). destruct (apply_new c (store_ vs) levels1 (new_files_ e)) as [st' levels'].
  destruct Hn as (N1 & N2 & N3 & N4).
  { rewrite Hadd. eapply refs_ok_perm; [|exact (ok_refs _ _ Hok)]. solve_Permutation. }
  { by rewrite Hlen1. }
  { intros i s1 Hs1. destruct (Hat1 i s1 Hs1) as (s & Hs & Ha & _). rewrite Ha. destruct (building_levels _ _ _ _ _ _ i s Hb Hs) as (B & HB & Hi).
    destruct (Hlev i B s HB Hs) as (_ & _ & Hseen). specialize (Hnd i Hi). rewrite <- Hseen in Hnd. rewrite <- nums_fi. unfold nums in *.
    rewrite map_app, <- app_assoc in Hnd. by apply NoDup_app in Hnd as (_ & _ & Hnd). }
  rewrite Hadd in N2. rewrite Hlen1 in N3.
  assert (Hk : keeps (store_ vs) st' (all_files vs ++ rest)).
  { intros p Hp. apply N2. apply elem_of_app. by right. }
  eexists _, _. split; [done|]. split; [done|]. split; [|split; [exact Hk|done]].
  split; cbn [levels_ base_].
  - change (set_store (set_pointers vs (edit_pointers (compact_pointers_ e) (compact_pointer_ vs))) st') with
      (set_pointers (set_store vs st') (edit_pointers (compact_pointers_ e) (compact_pointer_ vs))).
    destruct (vs_ok_store vs _ (concat (map added_files levels') ++ rest) st' Hok) as [O1 O2 O3 O4 O5]; [| |by split].
    + eapply refs_ok_perm; [|exact N1]. solve_Permutation.
    + intros p Hp. apply Hk. apply elem_of_app. by left.
  - exact Hbase.
  - done.
  - unfold edit_levels. by rewrite length_imap.
  - cbn [store_ set_store]. intros i B s2 HB Hs2. apply lookup_lt_Some in Hs2 as Hi.
    destruct (level_lookup levels1 i Hlen1 ltac:(lia)) as [s1 Hs1]. destruct (Hat1 i s1 Hs1) as (s & Hs & Ha & Hd).
    destruct (N4 i s1 Hs1) as (s2' & E2 & Hnew). simplify_eq. destruct (Hlev i B s HB Hs) as (Hwf & Ha' & Hseen).
    destruct (level_step c (store_ vs) st' B s s1 s2 e i Hwf) as (W & R & Nn); [| | | | |].
    + intros p Hp. apply N2. rewrite !elem_of_app in *. destruct Hp as [Hp|Hp].
      * right. left. eapply all_files_elem; [exact Hbase|]. apply list_elem_of_In, in_concat. exists B. rewrite <- !list_elem_of_In.
        split; [by eapply list_elem_of_lookup_2|done].
      * left. apply list_elem_of_In, in_concat. exists (added_files s). rewrite <- !list_elem_of_In. split; [|done].
        apply list_elem_of_In, in_map, list_elem_of_In. by eapply list_elem_of_lookup_2.
    + done.
    + done.
    + done.
    + rewrite Hseen. apply Hnd. lia.
    + split; [done|]. split; [|by rewrite Nn, Hseen]. unfold edit_levels. rewrite list_lookup_imap, Ha'. cbn. by rewrite R.
Qed.

(** The files of every level above zero do not overlap. *)
Definition levels_disjoint (abs : list (list finfo)) : Prop :=
  forall i l, (0 < i)%nat -> abs !! i = Some l -> disjoint c l.

Lemma saved_infos vs b node rest abs seen :
  building vs b node rest abs seen ->
  map (map (fi (store_ vs))) (saved_levels c (store_ vs) (files_ (version node)) (levels_ b)) = abs.
Proof.
  intros Hb. pose proof Hb as [Hok Hbase Hlen Habs Hlev]. destruct (node_good _ _ _ _ Hok Hbase) as [_ [Hlf _]].
  apply list_eq_same_length with (n := Z.to_nat kNumLevels); [done| |].
  { rewrite length_map. unfold saved_levels. rewrite length_zip_with. lia. }
  intros i x y Hi Hx Hy. rewrite list_lookup_fmap in Hx. unfold saved_levels in Hx. rewrite lookup_zip_with in Hx.
  destruct (level_lookup (files_ (version node)) i Hlf Hi) as [B HB]. destruct (level_lookup (levels_ b) i Hlen Hi) as [s Hs].
  rewrite HB, Hs in Hx. cbn in Hx. destruct (Hlev i B s HB Hs) as (_ & Ha & _). unfold level_result in Ha. congruence.
Qed.

Lemma SaveTo_ok vs b node rest abs seen :
  building vs b node rest abs seen -> levels_disjoint abs ->
  exists v st', SaveTo b vs = Some (v, set_store vs st') /\ level_infos st' v = abs /\ version_good st' v /\
    vs_ok (set_store vs st') (concat (map added_files (levels_ b)) ++ concat (files_ v) ++ rest) /\
    (forall p, fi st' p = fi (store_ vs) p).
Proof.
  intros Hb Hdis. pose proof Hb as [Hok Hbase Hlen Habs Hlev]. unfold SaveTo. rewrite Hbase. cbn [mbind option_bind].
  rewrite (ok_cmp _ _ Hok). pose proof (saved_infos _ _ _ _ _ _ Hb) as Hsaved.
  assert (Hlook : forall i files, saved_levels c (store_ vs) (files_ (version node)) (levels_ b) !! i = Some files ->
    abs !! i = Some (map (fi (store_ vs)) files)).
  { intros i files Hi. by rewrite <- Hsaved, list_lookup_fmap, Hi. }
  destruct (save_levels_spec c (levels_ b) (store_ vs) 0 (files_ (version node)) (all_files vs ++ concat (map added_files (levels_ b)) ++ rest)
    (ok_refs _ _ Hok)) as (st' & -> & Hr' & Hfi).
  { intros p Hp. rewrite !elem_of_app in *. destruct Hp as [Hp|Hp]; [|tauto]. left. by eapply all_files_elem. }
  { intros i files Hi Hpos. apply (Hdis i); [lia|]. by apply Hlook. }
  cbn [mbind option_bind]. eexists _, st'. split; [done|]. unfold level_infos. cbn [files_].
  set (saved := saved_levels c (store_ vs) (files_ (version node)) (levels_ b)) in *.
  assert (Einf : map (map (fi st')) saved = abs).
  { rewrite <- Hsaved. apply map_ext. intros files. by apply map_fi_ext. }
  split; [done|]. split; [|split; [|done]].
  - split; [cbn [files_]; by rewrite <- (length_map (map (fi st'))), Einf|]. cbn [files_]. apply Forall_forall. intros files Hf.
    apply list_elem_of_lookup_1 in Hf as [i Hi]. pose proof Hi as Hi'. unfold saved, saved_levels in Hi'. rewrite lookup_zip_with in Hi'.
    destruct (files_ (version node) !! i) as [B|] eqn:HB; [|done]. destruct (levels_ b !! i) as [s|] eqn:Hs; [|done]. cbn in Hi'. simplify_eq.
    destruct (Hlev i B s HB Hs) as (Hwf & _ & _). eapply level_good_keeps; [intros p _; apply Hfi|].
    destruct (level_result_spec c (store_ vs) B s Hwf) as [R1 _]. split; [exact R1|].
    rewrite nums_fi, map_kept. eapply sublist_NoDup; [|apply (fmap_sublist inum), undeleted_sublist].
    rewrite <- nums_fi. unfold nums. rewrite (merged_perm c). exact (wf_nums _ _ _ _ Hwf).
  - eapply vs_ok_store; [exact Hok| |].
    + eapply refs_ok_perm; [|exact Hr']. solve_Permutation.
    + intros p _. apply Hfi.
Qed.

Lemma Builder_delete_ok vs b node rest :
  vs_ok vs (concat (map added_files (levels_ b)) ++ rest) -> node_at vs (base_ b) = Some node ->
  exists vs', Builder_delete b vs = Some vs' /\ vs_ok vs' rest /\ keeps (store_ vs) (store_ vs') (all_files vs' ++ rest) /\
    (forall id, id <> base_ b -> node_at vs' id = node_at vs id) /\
    node_at vs' (base_ b) = (if refs_ node =? 1 then None else Some (mkNode (refs_ node - 1) (version node))) /\
    vs' = set_store (set_versions vs (versions_ vs')) (store_ vs').
Proof.
  intros Hok Hn. unfold Builder_delete.
  destruct (drop_refs_ok (concat (map added_files (levels_ b))) (store_ vs) (all_files vs ++ rest)) as (st & -> & Hr & Hk).
  { eapply refs_ok_perm; [|exact (ok_refs _ _ Hok)]. solve_Permutation. }
  cbn [mbind option_bind].
  destruct (Version_Unref_ok (set_store vs st) rest (base_ b) node) as (vs' & -> & U1 & U2 & U3 & U4 & U5).
  { eapply vs_ok_store; [exact Hok|exact Hr|]. intros p Hp. apply Hk. apply elem_of_app. by left. }
  { exact Hn. }
  exists vs'. split; [done|]. split; [done|]. split; [|done]. intros p Hp. rewrite U2 by done. cbn [store_ set_store]. apply Hk.
  assert (Hsub : forall q, q ∈ all_files vs' -> q ∈ all_files vs).
  { intros q Hq. unfold all_files in Hq. apply list_elem_of_In, in_concat in Hq as (l & Hl & Hq).
    apply in_map_iff in Hl as ([id n] & <- & Hl). apply list_elem_of_In, (elem_node_at vs' id n (ok_ids _ _ U1)) in Hl.
    apply list_elem_of_In in Hq. destruct (decide (id = base_ b)) as [->|Hne].
    - rewrite U4 in Hl. destruct (refs_ node =? 1); [done|]. simplify_eq. by eapply all_files_elem.
    - rewrite U3 in Hl by done. by eapply all_files_elem. }
  rewrite !elem_of_app in *. destruct Hp as [Hp|Hp]; [left; by apply Hsub|by right].
Qed.

Lemma all_files_inv vs rest p :
  vs_ok vs rest -> p ∈ all_files vs -> exists id node, node_at vs id = Some node /\ p ∈ concat (files_ (version node)).
Proof.
  intros Hok Hp. unfold all_files in Hp. apply list_elem_of_In, in_concat in Hp as (l & Hl & Hp).
  apply in_map_iff in Hl as ([id n] & <- & Hl). exists id, n. split; [|by apply list_elem_of_In].
  apply elem_node_at; [exact (ok_ids _ _ Hok)|by apply list_elem_of_In].
Qed.

Lemma Finalize_files (meta : nat -> FileMetaData) v : files_ (Finalize meta v) = files_ v.
Proof. unfold Finalize. by destruct (finalize_loop _ _ _ _ _). Qed.

Lemma Finalize_good meta st v : version_good st v -> version_good st (Finalize meta v).
Proof. unfold version_good. by rewrite Finalize_files. Qed.

Lemma build_version_ok vs rest id node e :
  vs_ok vs rest -> current_ vs = Some id -> node_at vs id = Some node -> edit_fits e ->
  (forall i files, files_ (version node) !! i = Some files -> NoDup (nums (store_ vs) files ++ edit_nums e i)) ->
  levels_disjoint (edit_levels c e (level_infos (store_ vs) (version node))) ->
  exists v vs', build_version vs e = Some (v, vs') /\ vs_ok vs' (concat (files_ v) ++ rest) /\ version_good (store_ vs') v /\
    level_infos (store_ vs') v = edit_levels c e (level_infos (store_ vs) (version node)) /\
    (forall id', node_at vs' id' = node_at vs id') /\ keeps (store_ vs) (store_ vs') (all_files vs ++ rest) /\
    frame_of vs' = frame_of vs /\ current_ vs' = Some id /\ version_alloc vs' = version_alloc vs /\
    compact_pointer_ vs' = edit_pointers (compact_pointers_ e) (compact_pointer_ vs).
Proof.
  intros Hok Hcur Hn Hfit Hfresh Hdis. unfold build_version. rewrite Hcur. cbn [mbind option_bind].
  destruct (Builder_new_ok vs rest id node Hok Hn) as (b0 & vs0 & -> & Eb0 & B0 & E0 & A0). cbn [mbind option_bind].
  destruct (Apply_ok _ _ _ _ _ _ e B0 Hfit) as (b1 & vs1 & -> & Eb1 & B1 & K1 & E1).
  { intros i Hi. destruct (node_good vs rest id node Hok Hn) as [Hr [Hlen _]].
    destruct (level_lookup (files_ (version node)) i Hlen Hi) as [files Hf].
    rewrite (nth_lookup_Some _ _ [] _ Hf). by apply Hfresh. }
  cbn [mbind option_bind]. destruct (SaveTo_ok _ _ _ _ _ _ B1 Hdis) as (v & st2 & -> & Hinf & Hg & Hok2 & Hfi2). cbn [mbind option_bind].
  destruct (Builder_delete_ok (set_store vs1 st2) b1 (mkNode (refs_ node + 1) (version node)) (concat (files_ v) ++ rest) Hok2)
    as (vs3 & -> & Hok3 & K3 & At3 & Atb & E3).
  { exact (bd_base _ _ _ _ _ _ B1). }
  cbn [mbind option_bind]. eexists _, vs3. split; [done|]. rewrite Eb1, Eb0 in *. cbn [refs_ version] in Atb.
  destruct (node_good vs rest id node Hok Hn) as [Hr _]. rewrite (proj2 (Z.eqb_neq (refs_ node + 1) 1)) in Atb by lia.
  assert (Hat : forall id', node_at vs3 id' = node_at vs id').
  { intros id'. destruct (decide (id' = id)) as [->|Hne].
    - rewrite Atb, Hn. destruct node as [r v0]. cbn [refs_ version]. do 2 f_equal. lia.
    - rewrite At3 by done. rewrite E1. change (node_at vs0 id' = node_at vs id'). rewrite E0. rewrite put_node_at by done. by rewrite decide_False. }
  assert (K23 : forall p, p ∈ all_files vs3 ++ concat (files_ v) ++ rest -> fi (store_ vs3) p = fi (store_ vs1) p).
  { intros p Hp. rewrite K3 by done. apply Hfi2. }
  assert (Kv : keeps st2 (store_ vs3) (concat (files_ v))).
  { intros p Hp. apply K3. rewrite !elem_of_app. tauto. }
  rewrite Finalize_files. split; [exact Hok3|]. split; [|split; [|split; [done|split; [|]]]].
  - apply Finalize_good. by eapply (version_good_keeps st2).
  - rewrite <- Hinf. unfold level_infos. rewrite Finalize_files. apply map_ext_in. intros files Hf. apply map_ext_in. intros p Hp. apply Kv.
    apply list_elem_of_In, in_concat. by exists files.
  - intros p Hp. rewrite K23.
    + rewrite K1 by (by rewrite A0). by rewrite E0.
    + rewrite !elem_of_app in *. destruct Hp as [Hp|Hp]; [|tauto]. left. destruct (all_files_inv vs rest p Hok Hp) as (id' & n & Hn' & Hp').
      eapply all_files_elem; [|exact Hp']. by rewrite Hat.
  - rewrite E3, E1, E0. done.
Qed.

End Life.
