(* ===== verification/Manifest.v ===== *)
(** * The MANIFEST

    [VersionSet::LogAndApply] and [VersionSet::Recover]: an edit that was logged
    gives a current version with the files it asks for, one that could not be logged
    changes nothing a reader sees, and what the descriptor holds is enough to
    rebuild the set. *)

From S2P Require Import Prelude Slice Coding Status Env Logging LogFormat LogReader LogLayout LogCorrect LogSpec Comparator DbFormat VersionEdit Filename Format Iterator Options TwoLevel Version VersionSpec Compaction VersionSet VersionSetSpec VersionLife.

Section Manifest.

Context (c : Comparator) {L : ComparatorLaws c}.
Context {F W S : Type} {HF : WritableFile F} {HS : SequentialFile S} {HE : DescriptorEnv (F := F) W S}.
Context (addr : Z).

Implicit Types vs : VersionSet F.

(** ** What readers see *)

(** The files of version [id]. *)
Definition files_in vs (id : nat) : option (list (list finfo)) :=
  (fun node => level_infos (store_ vs) (version node)) <$> node_at vs id.

Definition current_files vs : option (list (list finfo)) := id ← current_ vs; files_in vs id.

(** A version set in a good state, with a current version. *)
Record set_ok vs (rest : list nat) : Prop := mkSetOk {
  so_ok : vs_ok c vs rest;
  so_current : exists id, current_ vs = Some id /\ is_Some (node_at vs id);
  so_log log : descriptor_log_ vs = Some log -> offset_ok log
}.

(** The environment returns the file it says it has opened. *)
Definition opens_files : Prop :=
  forall name w, ok (fst (fst (env_NewWritableFile (F := F) (W := W) name w))) = true ->
    is_Some (snd (fst (env_NewWritableFile (F := F) (W := W) name w))).

(** An edit that can be applied to files [fs]: its new files have numbers their
    level does not hold, and levels above zero stay free of overlaps. *)
Record edit_applies (e : VersionEdit) (fs : list (list finfo)) : Prop := mkApplies {
  ap_fits : edit_fits e;
  ap_fresh i l : fs !! i = Some l -> NoDup (map inum l ++ edit_nums e i);
  ap_disjoint : levels_disjoint c (edit_levels c e fs)
}.

Lemma files_in_keeps vs vs' rest id :
  vs_ok c vs rest -> node_at vs' id = node_at vs id -> keeps (store_ vs) (store_ vs') (all_files vs) ->
  files_in vs' id = files_in vs id.
Proof.
  intros Hok Hat Hk. unfold files_in. rewrite Hat. destruct (node_at vs id) as [node|] eqn:En; cbn; [|done]. f_equal.
  unfold level_infos. apply map_ext_in. intros files Hf. apply map_ext_in. intros p Hp. apply Hk.
  eapply all_files_elem; [exact En|]. apply list_elem_of_In, in_concat. by exists files.
Qed.

Lemma complete_edit_lists vs e e1 :
  complete_edit vs e = Some e1 ->
  new_files_ e1 = new_files_ e /\ deleted_files_ e1 = deleted_files_ e /\ compact_pointers_ e1 = compact_pointers_ e /\
  has_log_number_ e1 = true /\ has_prev_log_number_ e1 = true /\ has_next_file_number_ e1 = true /\ has_last_sequence_ e1 = true /\
  next_file_number_ e1 = vs_next_file_number_ vs /\ last_sequence_ e1 = vs_last_sequence_ vs /\
  has_comparator_ e1 = has_comparator_ e /\ comparator_ e1 = comparator_ e.
Proof.
  unfold complete_edit. destruct (has_log_number_ e) eqn:E1.
  - destruct (_ && _); [|done]. cbn [mbind option_bind]. destruct (has_prev_log_number_ e) eqn:E2; intros [= <-]; cbn; rewrite ?E1, ?E2; done.
  - cbn [mbind option_bind]. cbn [has_prev_log_number_ SetLogNumber]. destruct (has_prev_log_number_ e) eqn:E2; intros [= <-]; cbn; rewrite ?E1, ?E2; done.
Qed.

Lemma edit_levels_ext e e1 fs :
  new_files_ e1 = new_files_ e -> deleted_files_ e1 = deleted_files_ e -> edit_levels c e1 fs = edit_levels c e fs.
Proof. intros E1 E2. unfold edit_levels, edit_level. by rewrite E1, E2. Qed.

Lemma edit_applies_ext e e1 fs :
  new_files_ e1 = new_files_ e -> deleted_files_ e1 = deleted_files_ e -> compact_pointers_ e1 = compact_pointers_ e ->
  edit_applies e fs -> edit_applies e1 fs.
Proof.
  intros E1 E2 E3 [[A1 A2] A3 A4]. split; [split; congruence| |].
  - intros i l Hi. unfold edit_nums. rewrite E1. by apply A3.
  - by rewrite (edit_levels_ext e e1).
Qed.

(** ** The descriptor *)

Lemma set_log_ok vs rest log : vs_ok c vs rest -> vs_ok c (set_log vs log) rest.
Proof. intros [H1 H2 H3 H4 H5]. by split. Qed.

Lemma open_descriptor_some vs id node w :
  opens_files -> current_ vs = Some id -> node_at vs id = Some node ->
  (forall log, descriptor_log_ vs = Some log -> offset_ok log) ->
  exists s new_manifest log w', open_descriptor addr vs w = Some (s, new_manifest, set_log vs log, w') /\
    (forall l, log = Some l -> offset_ok l) /\ (ok s = true -> is_Some log) /\ (new_manifest = false -> log = descriptor_log_ vs).
Proof.
  intros Henv Hc Hn Ho. unfold open_descriptor. destruct (descriptor_log_ vs) as [l|] eqn:El.
  { exists OK, false, (Some l), w. split; [|by eauto]. do 2 f_equal. unfold set_log. rewrite <- El. by destruct vs. }
  specialize (Henv (DescriptorFileName (dbname_ vs) (manifest_file_number_ vs)) w).
  destruct (env_NewWritableFile _ w) as [[s file] w'] eqn:E. cbn [fst snd] in Henv. destruct (ok s) eqn:Es.
  - destruct (Henv eq_refl) as [f ->]. cbn [mbind option_bind]. unfold WriteSnapshot, snapshot_edit, current_version.
    rewrite Hc. cbn [mbind option_bind]. rewrite Hn. cbn [mbind option_bind].
    destruct (AddRecord_some (Writer_make addr f) addr
      (EncodeTo (snapshot_files (store_ vs) (files_ (version node)) 0 (snapshot_pointers (compact_pointer_ vs) 0
        (SetComparatorName (Name (user_cmp vs)) VersionEdit_Clear))) [])) as (s2 & log & Ea & Hl); [by unfold offset_ok; cbn|].
    rewrite Ea. cbn [mbind option_bind].
    exists s2, true, (Some log), w'. split; [done|]. split; [by intros l [= <-]|]. split; [by eauto|done].
  - exists s, true, None, w'. split; [|split; [done|]]; [|split; [congruence|done]].
    do 3 f_equal. unfold set_log. rewrite <- El. by destruct vs.
Qed.

Lemma log_edit_some vs log e :
  descriptor_log_ vs = Some log -> offset_ok log ->
  exists s log', log_edit addr vs e = Some (s, set_log vs (Some log')) /\ offset_ok log'.
Proof.
  intros El Ho. unfold log_edit. rewrite El. cbn [mbind option_bind].
  destruct (AddRecord_some log addr (EncodeTo e []) Ho) as (s & log1 & -> & Ho1). cbn [mbind option_bind].
  destruct (ok s); [|by eauto]. destruct (Sync (dest_ log1)) as [s2 f]. by eexists _, _.
Qed.

(** ** [LogAndApply] *)

(** The descriptor part: opening, writing and installing. *)
Definition log_phase vs (e : VersionEdit) (w : W) : option (Status * bool * VersionSet F * W) :=
  '(s, new_manifest, vs, w) ← open_descriptor addr vs w;
  '(s, vs) ← (if ok s then log_edit addr vs e else Some (s, vs));
  let '(s, w) := if ok s && new_manifest then env_SetCurrentFile (dbname_ vs) (manifest_file_number_ vs) w else (s, w) in
  Some (s, new_manifest, vs, w).

Lemma log_phase_some vs id node e w :
  opens_files -> current_ vs = Some id -> node_at vs id = Some node ->
  (forall log, descriptor_log_ vs = Some log -> offset_ok log) ->
  exists s new_manifest log w', log_phase vs e w = Some (s, new_manifest, set_log vs log, w') /\
    (forall l, log = Some l -> offset_ok l).
Proof.
  intros Henv Hc Hn Ho. unfold log_phase.
  destruct (open_descriptor_some vs id node w Henv Hc Hn Ho) as (s & nm & log & w1 & -> & O1 & O2 & O3). cbn [mbind option_bind].
  assert (exists s2 log2, (if ok s then log_edit addr (set_log vs log) e else Some (s, set_log vs log)) = Some (s2, set_log vs log2) /\
    forall l, log2 = Some l -> offset_ok l) as (s2 & log2 & -> & Ho2).
  { destruct (ok s) eqn:Es; [|by eauto]. destruct (O2 eq_refl) as [l ->].
    destruct (log_edit_some (set_log vs (Some l)) l e eq_refl (O1 l eq_refl)) as (s2 & l2 & -> & Hl2). eexists _, _.
    split; [done|]. by intros ? [= <-]. }
  cbn [mbind option_bind]. destruct (ok s2 && nm); [|by eauto 10].
  destruct (env_SetCurrentFile _ _ w1) as [s3 w3]. by eauto 10.
Qed.

(** Installing the version, or dropping it. *)
Definition install_phase (e : VersionEdit) (v : Compaction.Version nat) (s : Status) (new_manifest : bool) vs (w : W)
  : option (Status * VersionEdit * VersionSet F * W) :=
  if ok s then
    vs ← AppendVersion vs v;
    Some (s, e, set_numbers vs (vs_next_file_number_ vs) (manifest_file_number_ vs) (vs_last_sequence_ vs)
                  (log_number_ e) (prev_log_number_ e), w)
  else
    st ← release_files (store_ vs) (concat (files_ v));
    let vs := set_store vs st in
    let '(vs, w) :=
      if new_manifest then
        (set_log vs None, snd (env_RemoveFile (DescriptorFileName (dbname_ vs) (manifest_file_number_ vs)) w))
      else (vs, w) in
    Some (s, e, vs, w).

Lemma LogAndApply_phases vs e w :
  LogAndApply addr vs e w =
  (e ← complete_edit vs e;
   '(v, vs) ← build_version vs e;
   '(s, new_manifest, vs, w) ← log_phase vs e w;
   install_phase e v s new_manifest vs w).
Proof.
  unfold LogAndApply, log_phase. destruct (complete_edit vs e) as [e1|]; [|done]. cbn [mbind option_bind].
  destruct (build_version vs e1) as [[v vs1]|]; [|done]. cbn [mbind option_bind].
  destruct (open_descriptor addr vs1 w) as [[[[s nm] vs2] w2]|]; [|done]. cbn [mbind option_bind].
  destruct (if ok s then log_edit addr vs2 e1 else Some (s, vs2)) as [[s2 vs3]|]; [|done]. cbn [mbind option_bind].
  by destruct (if ok s2 && nm then _ else _) as [s3 w3].
Qed.

(** What an edit does to the set: [fs] are the files of the current version [id]
    before it. *)
Definition edit_done (s : Status) (e : VersionEdit) (fs : list (list finfo)) (id : nat) vs vs' : Prop :=
  (forall id', id' <> id -> is_Some (node_at vs id') -> files_in vs' id' = files_in vs id') /\
  vs_next_file_number_ vs' = vs_next_file_number_ vs /\ vs_last_sequence_ vs' = vs_last_sequence_ vs /\
  if ok s then
    current_files vs' = Some (edit_levels c e fs) /\ vs_log_number_ vs' = log_number_ e /\ vs_prev_log_number_ vs' = prev_log_number_ e
  else
    current_ vs' = Some id /\ files_in vs' id = Some fs /\
    vs_log_number_ vs' = vs_log_number_ vs /\ vs_prev_log_number_ vs' = vs_prev_log_number_ vs.

Lemma install_ok vs1 rest v fs id e s nm w :
  set_ok vs1 (concat (files_ v) ++ rest) -> version_good c (store_ vs1) v -> current_ vs1 = Some id ->
  level_infos (store_ vs1) v = edit_levels c e fs -> ok s = true ->
  exists vs', install_phase e v s nm vs1 w = Some (s, e, vs', w) /\ set_ok vs' rest /\ edit_done s e fs id vs1 vs'.
Proof.
  intros [Hok (id0 & Hc0 & [node Hn]) Hlog] Hg Hc Hinf Es. unfold install_phase. rewrite Es. rewrite Hc in Hc0. injection Hc0 as <-.
  destruct (AppendVersion_ok c vs1 rest v Hok Hg) as (vs3 & -> & Hok3 & Hc3 & Hn3 & Hk3 & Hat3 & Hfr3 & _).
  { intros id' Hid'. rewrite Hc in Hid'. injection Hid' as <-. by exists node. }
  cbn [mbind option_bind]. eexists. split; [done|]. unfold frame_of in Hfr3. injection Hfr3 as G1 G2 G3 G4 G5 G6 G7 G8 G9.
  assert (Hin : forall id' n', node_at vs3 id' = Some n' -> level_infos (store_ vs3) (version n') = level_infos (store_ vs1) (version n')).
  { intros id' n' Hn'. unfold level_infos. apply map_ext_in. intros files Hfl. apply map_ext_in. intros p Hp. apply Hk3.
    apply elem_of_app. left. eapply all_files_elem; [exact Hn'|]. apply list_elem_of_In, in_concat. by exists files. }
  split; [|split; [|split; [exact G4|split; [exact G6|]]]].
  - split; [by destruct Hok3; split|exists (version_alloc vs1); by eauto|]. intros l Hl. cbn [descriptor_log_ set_numbers] in Hl.
    rewrite G9 in Hl. by apply Hlog.
  - intros id' Hne [n' Hn']. unfold files_in. change (node_at (set_numbers vs3 _ _ _ _ _) id') with (node_at vs3 id').
    assert (id' <> version_alloc vs1) as Hna.
    { pose proof (ok_alloc _ _ _ Hok) as Hal. rewrite Forall_forall in Hal. specialize (Hal _ (node_at_elem _ _ _ Hn')). cbn in Hal. lia. }
    assert (Hn3' : node_at vs3 id' = Some n') by (rewrite Hat3; [done|congruence|done]). rewrite Hn3', Hn'. cbn. f_equal. by apply (Hin id').
  - rewrite Es. split; [|done]. unfold current_files, files_in. cbn [current_ set_numbers]. rewrite Hc3. cbn [mbind option_bind].
    change (node_at (set_numbers vs3 _ _ _ _ _) (version_alloc vs1)) with (node_at vs3 (version_alloc vs1)). rewrite Hn3. cbn. f_equal.
    rewrite <- Hinf. exact (Hin _ _ Hn3).
Qed.

Lemma install_failed vs1 rest v fs id e s nm w :
  set_ok vs1 (concat (files_ v) ++ rest) -> current_ vs1 = Some id -> files_in vs1 id = Some fs -> ok s = false ->
  exists vs' w', install_phase e v s nm vs1 w = Some (s, e, vs', w') /\ set_ok vs' rest /\ edit_done s e fs id vs1 vs'.
Proof.
  intros [Hok (id0 & Hc0 & [node Hn]) Hlog] Hc Hf Es. unfold install_phase. rewrite Es. rewrite Hc in Hc0. injection Hc0 as <-.
  destruct (release_files_ok (concat (files_ v)) (store_ vs1) (all_files vs1 ++ rest)) as (st & -> & Hr & Hk).
  { eapply refs_ok_perm; [|exact (ok_refs _ _ _ Hok)]. solve_Permutation. }
  assert (Hk' : keeps (store_ vs1) st (all_files vs1)) by (intros p Hp; apply Hk, elem_of_app; by left).
  assert (Hok3 : vs_ok c (set_store vs1 st) rest) by (by eapply vs_ok_store).
  assert (Hin : forall id', files_in (set_store vs1 st) id' = files_in vs1 id') by (intros id'; by eapply files_in_keeps).
  cbn [mbind option_bind]. destruct nm; eexists _, _; (split; [done|]); (split; [split|]).
  - by apply set_log_ok.
  - exists id. by eauto.
  - done.
  - split; [intros id' _ _; apply (Hin id')|]. rewrite Es. repeat split; try done. rewrite <- Hf. apply (Hin id).
  - done.
  - exists id. by eauto.
  - exact Hlog.
  - split; [intros id' _ _; apply (Hin id')|]. rewrite Es. repeat split; try done. rewrite <- Hf. apply (Hin id).
Qed.

Lemma LogAndApply_ok vs rest fs id e e1 w :
  set_ok vs rest -> opens_files -> current_ vs = Some id -> files_in vs id = Some fs ->
  complete_edit vs e = Some e1 -> edit_applies e1 fs ->
  exists s vs' w', LogAndApply addr vs e w = Some (s, e1, vs', w') /\ set_ok vs' rest /\ edit_done s e1 fs id vs vs'.
Proof.
  intros [Hok _ Hlog] Henv Hc Hf He [A1 A2 A3]. rewrite LogAndApply_phases, He. cbn [mbind option_bind].
  pose proof Hf as Hfs. unfold files_in in Hf. destruct (node_at vs id) as [node|] eqn:Hn; [|done]. cbn in Hf. injection Hf as <-.
  destruct (build_version_ok c vs rest id node e1 Hok Hc Hn A1) as (v & vs1 & -> & Hok1 & Hg1 & Hinf & Hat1 & Hk1 & Hfr & Hc1 & Ha1 & _).
  { intros i files Hi. rewrite nums_fi. apply A2. unfold level_infos. by rewrite list_lookup_fmap, Hi. }
  { exact A3. }
  assert (Hfi1 : forall id', files_in vs1 id' = files_in vs id').
  { intros id'. eapply files_in_keeps; [exact Hok|apply Hat1|]. intros p Hp. apply Hk1, elem_of_app. by left. }
  cbn [mbind option_bind]. assert (Hn1 : node_at vs1 id = Some node) by (by rewrite Hat1).
  unfold frame_of in Hfr. injection Hfr as F1 F2 F3 F4 F5 F6 F7 F8 F9.
  destruct (log_phase_some vs1 id node e1 w Henv Hc1 Hn1) as (s & nm & log & w2 & -> & Hl2); [by rewrite F9|]. cbn [mbind option_bind].
  assert (Hok2 : set_ok (set_log vs1 log) (concat (files_ v) ++ rest)).
  { split; [by apply set_log_ok|exists id; by eauto|]. intros l Hl. by apply Hl2. }
  assert (Hdone : forall vs', edit_done s e1 (level_infos (store_ vs) (version node)) id (set_log vs1 log) vs' ->
    edit_done s e1 (level_infos (store_ vs) (version node)) id vs vs').
  { intros vs' (D1 & D2 & D3 & D4). unfold edit_done. cbn [vs_next_file_number_ vs_last_sequence_ vs_log_number_ vs_prev_log_number_ set_log] in *.
    rewrite F4 in D2. rewrite F6 in D3. rewrite F7, F8 in D4. split; [|done]. intros id' Hne [n' Hn'].
    rewrite D1; [apply (Hfi1 id')|done|]. exists n'. rewrite <- Hn'. apply (Hat1 id'). }
  destruct (ok s) eqn:Es.
  - destruct (install_ok (set_log vs1 log) rest v (level_infos (store_ vs) (version node)) id e1 s nm w2 Hok2 Hg1 Hc1 Hinf Es)
      as (vs' & -> & Hok' & Hd). by eauto 10.
  - destruct (install_failed (set_log vs1 log) rest v (level_infos (store_ vs) (version node)) id e1 s nm w2 Hok2 Hc1)
      as (vs' & w' & -> & Hok' & Hd); [by rewrite <- Hfs; apply (Hfi1 id)|done|]. by eauto 10.
Qed.

(** ** Replaying a descriptor *)

Definition empty_levels : list (list finfo) := replicate (Z.to_nat kNumLevels) [].
Definition no_numbers : Found := mkFound None None None None.

Definition records (es : list VersionEdit) : list bytes := map (fun e => EncodeTo e []) es.
Definition replay (es : list VersionEdit) (fs : list (list finfo)) : list (list finfo) := fold_left (fun fs e => edit_levels c e fs) es fs.
Definition founds (es : list VersionEdit) (f : Found) : Found := fold_left (fun f e => found_in e f) es f.

(** The numbers given to the files of level [i]. *)
Definition history_nums (es : list VersionEdit) (i : nat) : list Z := concat (map (fun e => edit_nums e i) es).

(** Edits a descriptor may hold. *)
Record history_ok (es : list VersionEdit) : Prop := mkHistoryOk {
  h_edits : Forall edit_ok es;
  h_comparator : Forall (fun e => has_comparator_ e = true -> comparator_ e = Name c) es;
  h_fresh i : (i < Z.to_nat kNumLevels)%nat -> NoDup (history_nums es i)
}.

Context {unread : S -> bytes} {HRS : ReliableSequential S unread}.

Lemma recover_record_ok vs b node rest abs seen found e :
  building c vs b node rest abs seen -> edit_ok e -> (has_comparator_ e = true -> comparator_ e = Name c) ->
  (forall i, (i < Z.to_nat kNumLevels)%nat -> NoDup (seen i ++ edit_nums e i)) ->
  exists b' vs', recover_record b vs found (EncodeTo e []) = Some (OK, b', vs', found_in e found) /\ base_ b' = base_ b /\
    building c vs' b' node rest (edit_levels c e abs) (fun i => seen i ++ edit_nums e i) /\
    vs' = set_store (set_pointers vs (compact_pointer_ vs')) (store_ vs').
Proof.
  intros Hb He Hcmp Hnd. unfold recover_record. rewrite (DecodeFrom_EncodeTo e He). cbn [mbind option_bind].
  change (ok OK) with true. cbn [andb].
  assert (Hs : has_comparator_ e && negb (slice_eq (comparator_ e) (Name (user_cmp vs))) = false).
  { destruct (has_comparator_ e); [|done]. cbn [andb]. rewrite (ok_cmp _ _ _ (bd_ok _ _ _ _ _ _ _ Hb)), Hcmp by done.
    by rewrite (proj2 (slice_eq_spec _ _) eq_refl). }
  rewrite Hs. change (ok OK) with true. cbv iota.
  destruct (Apply_ok c vs b node rest abs seen e Hb (edit_ok_fits e He) Hnd) as (b' & vs' & -> & Eb & Hb' & _ & Heq).
  cbn [mbind option_bind]. exists b', vs'. split; [done|]. split; [done|]. split; [done|]. by rewrite Heq.
Qed.

Lemma after_reports_same s r : after_reports s r r = s.
Proof. unfold after_reports. rewrite drop_all. by destruct (ok s). Qed.

Lemma recover_loop_replay es : forall r scratch s b vs node rest abs seen found turns fuel,
  reading (unread := unread) r (records es) fuel -> (length es < turns)%nat ->
  building c vs b node rest abs seen -> ok s = true -> Forall edit_ok es ->
  Forall (fun e => has_comparator_ e = true -> comparator_ e = Name c) es ->
  (forall i, (i < Z.to_nat kNumLevels)%nat -> NoDup (seen i ++ history_nums es i)) ->
  exists s' b' vs', recover_loop turns fuel r scratch s b vs found = Some (s', b', vs', founds es found) /\ ok s' = true /\
    base_ b' = base_ b /\ building c vs' b' node rest (replay es abs) (fun i => seen i ++ history_nums es i) /\
    vs' = set_store (set_pointers vs (compact_pointer_ vs')) (store_ vs').
Proof.
  induction es as [|e es IH]; intros r scratch s b vs node rest abs seen found turns fuel Hrd Ht Hb Hs He Hcmp Hnd;
    (destruct turns as [|turns]; [cbn in Ht; lia|]); cbn [recover_loop].
  - destruct (read_end r fuel scratch Hrd) as (scr & r' & -> & Hr).
    cbn [mbind option_bind]. rewrite Hr, after_reports_same. exists s, b, vs. split; [done|]. split; [done|]. split; [done|].
    split; [|by destruct vs]. destruct Hb as [B1 B2 B3 B4 B5]. split; try done. intros i B s0 HB Hs0. unfold history_nums. cbn [map concat].
    rewrite app_nil_r. by apply B5.
  - apply Forall_cons in He as [He1 He]. apply Forall_cons in Hcmp as [Hcmp1 Hcmp].
    destruct (read_next r (EncodeTo e []) (records es) fuel scratch Hrd) as (scr & r1 & -> & Hr1 & Hrd1).
    cbn [mbind option_bind]. rewrite Hr1, after_reports_same, Hs.
    destruct (recover_record_ok vs b node rest abs seen found e Hb He1 Hcmp1) as (b1 & vs1 & -> & Eb1 & Hb1 & E1).
    { intros i Hi. specialize (Hnd i Hi). unfold history_nums in Hnd. cbn [map concat] in Hnd. rewrite app_assoc in Hnd.
      by apply NoDup_app in Hnd as (Hnd & _). }
    cbn [mbind option_bind].
    destruct (IH r1 scr OK b1 vs1 node rest (edit_levels c e abs) (fun i => seen i ++ edit_nums e i) (found_in e found)
      turns fuel) as (s' & b' & vs' & -> & Hs' & Eb' & Hb' & E'); try done.
    + cbn in Ht. lia.
    + intros i Hi. specialize (Hnd i Hi). unfold history_nums in *. cbn [map concat] in Hnd. by rewrite <- app_assoc.
    + exists s', b', vs'. split; [done|]. split; [done|]. split; [congruence|]. split; [|rewrite E', E1; done].
      destruct Hb' as [B1 B2 B3 B4 B5]. split; try done. intros i B s0 HB Hs0. destruct (B5 i B s0 HB Hs0) as (C1 & C2 & C3).
      split; [done|]. split; [done|]. rewrite C3, <- app_assoc. done.
Qed.

(** ** [Recover] *)

Lemma set_numbers_ok vs rest n m q l pl : vs_ok c vs rest -> vs_ok c (set_numbers vs n m q l pl) rest.
Proof. intros [H1 H2 H3 H4 H5]. by split. Qed.

Lemma building_numbers vs b node rest abs seen n m q l pl :
  building c vs b node rest abs seen -> building c (set_numbers vs n m q l pl) b node rest abs seen.
Proof. intros [H1 H2 H3 H4 H5]. split; try done. by apply set_numbers_ok. Qed.

Lemma MarkFileNumberUsed_numbers vs n :
  MarkFileNumberUsed vs n = set_numbers vs (if vs_next_file_number_ vs <=? n then u64 (n + 1) else vs_next_file_number_ vs)
    (manifest_file_number_ vs) (vs_last_sequence_ vs) (vs_log_number_ vs) (vs_prev_log_number_ vs).
Proof. unfold MarkFileNumberUsed. destruct (_ <=? _); [done|]. by destruct vs. Qed.

Lemma ReuseManifest_numbers vs dscname dscbase w :
  (forall l, descriptor_log_ vs = Some l -> offset_ok l) ->
  exists reused log m w', ReuseManifest addr vs dscname dscbase w =
    (reused, set_numbers (set_log vs log) (vs_next_file_number_ vs) m (vs_last_sequence_ vs) (vs_log_number_ vs) (vs_prev_log_number_ vs), w') /\
    (forall l, log = Some l -> offset_ok l).
Proof.
  intros Ho.
  assert (Hsame : forall w' : W, exists reused log m w2, (false, vs, w') =
    (reused, set_numbers (set_log vs log) (vs_next_file_number_ vs) m (vs_last_sequence_ vs) (vs_log_number_ vs) (vs_prev_log_number_ vs), w2) /\
    (forall l, log = Some l -> offset_ok l)).
  { intros w'. exists false, (descriptor_log_ vs), (manifest_file_number_ vs), w'. by destruct vs. }
  unfold ReuseManifest. destruct (negb _); [apply Hsame|]. destruct (ParseFileName dscbase) as [[mn ft]|]; [|apply Hsame].
  destruct ft; try apply Hsame. destruct (env_GetFileSize dscname w) as [[s size] w1]. destruct (_ || _); [apply Hsame|].
  destruct (env_NewAppendableFile dscname w1) as [[s2 file] w2]. destruct (ok s2); [|apply Hsame]. destruct file as [file|]; [|apply Hsame].
  exists true, (Some (Writer_reopen addr file size)), mn, w2. split; [done|]. intros l [= <-]. unfold offset_ok, Writer_reopen. cbn.
  pose proof (Z.mod_pos_bound size kBlockSize ltac:(done)). lia.
Qed.

(** What the set is after a recovery of files [abs] with these numbers. *)
Definition recovered vs (abs : list (list finfo)) (next_file last_seq log_number prev_log_number : Z) : Prop :=
  set_ok vs [] /\ current_files vs = Some abs /\
  vs_next_file_number_ vs = u64 (next_file + 1) /\ vs_last_sequence_ vs = last_seq /\
  vs_log_number_ vs = log_number /\ vs_prev_log_number_ vs = prev_log_number.

Lemma install_recovered_ok vs b node abs seen s log_number prev next_file last_seq dscname current w :
  building c vs b node [] abs seen -> current_ vs = Some (base_ b) -> refs_ node <> 1 -> levels_disjoint c abs -> ok s = true ->
  (forall l, descriptor_log_ vs = Some l -> offset_ok l) ->
  exists save vs' w',
    install_recovered addr s b vs (mkFound (Some log_number) prev (Some next_file) (Some last_seq)) dscname current w = Some (s, save, vs', w') /\
    recovered vs' abs next_file last_seq log_number (default 0 prev).
Proof.
  intros Hb Hc Hr Hdis Es Ho. unfold install_recovered. rewrite Es. cbv zeta. cbn [f_next_file f_log_number f_last_sequence f_prev_log_number default from_option id].
  rewrite Es, !MarkFileNumberUsed_numbers.
  match goal with |- context [SaveTo b ?x] => set (vs1 := x) end.
  assert (Hb1 : building c vs1 b node [] abs seen) by (by do 2 apply building_numbers).
  destruct (SaveTo_ok c vs1 b node [] abs seen Hb1 Hdis) as (v & st & -> & Hinf & Hg & Hok & Hfi). cbn [mbind option_bind].
  set (vs2 := set_store vs1 st) in *. set (v' := Finalize (fmeta (store_ vs2)) v).
  destruct (AppendVersion_ok c vs2 (concat (map added_files (levels_ b)) ++ []) v') as (vs3 & -> & Hok3 & Hc3 & Hn3 & Hk3 & Hat3 & Hfr3 & _ & Hbase3).
  { unfold v'. rewrite Finalize_files. destruct Hok as [O1 O2 O3 O4 O5]. split; try done. eapply refs_ok_perm; [|exact O2]. solve_Permutation. }
  { by apply Finalize_good. }
  { intros id Hid. change (current_ vs = Some id) in Hid. rewrite Hc in Hid. injection Hid as <-. exists node. exact (bd_base _ _ _ _ _ _ _ Hb). }
  cbn [mbind option_bind]. unfold frame_of in Hfr3. injection Hfr3 as G1 G2 G3 G4 G5 G6 G7 G8 G9.
  match goal with |- context [ReuseManifest addr ?x dscname current w] => set (vs4 := x) end.
  destruct (ReuseManifest_numbers vs4 dscname current w) as (reused & log & m & w2 & -> & Hl).
  { intros l Hl. change (descriptor_log_ vs4) with (descriptor_log_ vs3) in Hl. rewrite G9 in Hl. by apply Ho. }
  assert (Hbase : node_at vs3 (base_ b) = Some (mkNode (refs_ node - 1) (version node))).
  { apply Hbase3; [exact Hc|exact (bd_base _ _ _ _ _ _ _ Hb1)|done]. }
  match goal with |- context [Builder_delete b ?x] => set (vs5 := x) end.
  destruct (Builder_delete_ok c vs5 b (mkNode (refs_ node - 1) (version node)) []) as (vs6 & -> & Hok6 & Hk6 & Hat6 & _ & Heq6).
  { apply set_numbers_ok, set_log_ok, set_numbers_ok. exact Hok3. }
  { exact Hbase. }
  cbn [mbind option_bind]. exists (negb reused), vs6, w2. split; [done|].
  assert (Hne : version_alloc vs2 <> base_ b).
  { pose proof (ok_alloc _ _ _ Hok) as Hal. rewrite Forall_forall in Hal.
    specialize (Hal _ (node_at_elem vs2 _ _ (bd_base _ _ _ _ _ _ _ Hb1))). change (base_ b < version_alloc vs2)%nat in Hal. lia. }
  assert (Hn6 : node_at vs6 (version_alloc vs2) = Some (mkNode 1 v')) by (rewrite Hat6 by done; exact Hn3).
  assert (Hc6 : current_ vs6 = Some (version_alloc vs2)) by (rewrite Heq6; exact Hc3).
  split; [|split; [|by rewrite Heq6]].
  - split; [done|exists (version_alloc vs2); by eauto|]. intros l Hl6. rewrite Heq6 in Hl6. by apply Hl.
  - unfold current_files, files_in. rewrite Hc6. cbn [mbind option_bind]. rewrite Hn6. cbn. f_equal. rewrite <- Hinf. unfold level_infos, v'.
    rewrite Finalize_files. apply map_ext_in. intros files Hfl. apply map_ext_in. intros p Hp.
    assert (Hpv : p ∈ concat (files_ v')) by (unfold v'; rewrite Finalize_files; apply list_elem_of_In, in_concat; by exists files).
    rewrite (Hk6 p) by (apply elem_of_app; left; exact (all_files_elem vs6 _ _ p Hn6 Hpv)).
    change (store_ vs5) with (store_ vs3). rewrite (Hk3 p) by (apply elem_of_app; left; exact (all_files_elem vs3 _ _ p Hn3 Hpv)). done.
Qed.

(** A fresh version set. *)
Lemma VersionSet_new_ok dbname options :
  exists vs, VersionSet_new (F := F) dbname options c = Some vs /\ set_ok vs [] /\ current_ vs = Some 0%nat /\
    node_at vs 0 = Some (mkNode 1 Version_new) /\ current_files vs = Some empty_levels /\
    dbname_ vs = dbname /\ options_ vs = options /\ descriptor_log_ vs = None /\ compact_pointer_ vs = replicate (Z.to_nat kNumLevels) [].
Proof.
  eexists. split; [done|]. split; [|done]. split; [|exists 0%nat; split; [done|by eexists]|done].
  split; cbn; try done.
  - split; [|intros p [f Hf]; exfalso; by destruct (lookup_empty_Some p f)]. intros p Hp. by apply not_elem_of_nil in Hp.
  - repeat constructor. by apply not_elem_of_nil.
  - repeat constructor.
  - constructor; [|done]. split; [done|]. split; [done|]. repeat (constructor; [split; constructor|]). constructor.
Qed.

(** CURRENT names the descriptor [current], whose bytes are [C]. *)
Definition descriptor_is (w : W) (dbname current C : bytes) : Prop :=
  exists s1 s2 w1 w2 file,
    env_ReadFileToString (F := F) (S := S) (CurrentFileName dbname) w = (s1, current ++ [x0a], w1) /\ ok s1 = true /\
    env_NewSequentialFile (F := F) (dbname ++ str "/" ++ current) w1 = (s2, Some file, w2) /\ ok s2 = true /\ unread file = C.

Lemma current_line current :
  (blen (current ++ [x0a]) =? 0) || negb (bool_decide (byte_at (current ++ [x0a]) (blen (current ++ [x0a]) - 1) = x0a)) = false /\
  ztake (blen (current ++ [x0a]) - 1) (current ++ [x0a]) = current.
Proof.
  assert (E : blen (current ++ [x0a]) - 1 = blen current) by (rewrite blen_app; change (blen [x0a]) with 1; lia).
  rewrite E. split.
  - rewrite (proj2 (Z.eqb_neq _ 0)) by (pose proof (blen_nonneg current); lia). cbn [orb]. rewrite bool_decide_true; [done|].
    unfold byte_at, blen. rewrite Nat2Z.id. by rewrite nth_middle.
  - unfold ztake, blen. rewrite Nat2Z.id. by rewrite take_app_length.
Qed.

Lemma Recover_replays es C vs fuel w current log_number prev next_file last_seq :
  set_ok vs [] -> descriptor_log_ vs = None -> current_ vs = Some 0%nat -> node_at vs 0 = Some (mkNode 1 Version_new) ->
  descriptor_is w (dbname_ vs) current C -> blen C < 2 ^ 64 -> (length C + 1 < fuel)%nat ->
  log_layout 0 (records es) C -> history_ok es -> levels_disjoint c (replay es empty_levels) ->
  founds es no_numbers = mkFound (Some log_number) prev (Some next_file) (Some last_seq) ->
  exists s save vs' w', Recover addr fuel vs w = Some (s, save, vs', w') /\ ok s = true /\
    recovered vs' (replay es empty_levels) next_file last_seq log_number (default 0 prev).
Proof.
  intros [Hok _ _] Hlog Hc Hn (s1 & s2 & w1 & w2 & file & E1 & O1 & E2 & O2 & Hu) HC Hfuel Hlay [H1 H2 H3] Hdis Hfound.
  unfold Recover. rewrite E1, O1. cbn [negb]. destruct (current_line current) as [-> ->]. rewrite E2, O2. cbn [negb mbind option_bind].
  rewrite Hc. cbn [mbind option_bind].
  destruct (Builder_new_ok c vs [] 0 (mkNode 1 Version_new) Hok Hn) as (b & vs1 & -> & Eb & Hb & Ev1 & _). cbn [mbind option_bind refs_ version] in *.
  fold no_numbers. pose proof (log_layout_length _ _ _ Hlay) as Hle. unfold records in Hle. rewrite length_map in Hle.
  destruct (recover_loop_replay es (Reader_make file true true addr 0) [] s2 b vs1 (mkNode (1 + 1) Version_new) []
    (level_infos (store_ vs) Version_new) (fun i => nums (store_ vs) (nth i (files_ Version_new) [])) no_numbers fuel fuel)
    as (s3 & b3 & vs3 & -> & O3 & Eb3 & Hb3 & Ev3); try done.
  - by eapply reading_make.
  - lia.
  - intros i Hi. replace (nth i (files_ Version_new) []) with (@nil nat); [by apply H3|].
    unfold Version_new. cbn [files_]. symmetry. apply nth_lookup_Some. by apply lookup_replicate_2.
  - rewrite Hfound. change (level_infos (store_ vs) Version_new) with empty_levels in Hb3. cbn [mbind option_bind].
    destruct (install_recovered_ok vs3 b3 (mkNode (1 + 1) Version_new) (replay es empty_levels) _ s3 log_number prev next_file last_seq
      (dbname_ vs ++ str "/" ++ current) current w2 Hb3) as (save & vs' & w' & E & Hrec); try done.
    + rewrite Ev3, Ev1, Eb3, Eb. exact Hc.
    + intros l Hl. rewrite Ev3, Ev1 in Hl. change (descriptor_log_ vs = Some l) in Hl. congruence.
    + by eauto 10.
Qed.

End Manifest.
