(* ===== verification/ManifestSpec.v ===== *)
(** * A version set survives in its MANIFEST

    The version set as a state machine: edits are logged, numbers are handed out,
    versions are pinned and released, seeks are charged.  In every state it reaches,
    the descriptor holds a history that [Recover] turns back into the same files and
    log numbers. *)

From S2P Require Import Prelude Slice Coding Status Env Logging LogFormat LogReader LogLayout LogCorrect LogSpec Comparator DbFormat VersionEdit Filename Format Iterator Options TwoLevel Version VersionSpec Compaction VersionSet VersionSetSpec VersionLife Manifest.

Section ManifestSpec.

Context (c : Comparator) {L : ComparatorLaws c}.
Context {F W S : Type} {HF : WritableFile F} {HS : SequentialFile S} {HE : DescriptorEnv (F := F) W S}.
Context {contents : F -> bytes} {HRW : ReliableWritable F contents}.
Context {unread : S -> bytes} {HRS : ReliableSequential S unread}.
Context (addr : Z).

Implicit Types vs : VersionSet F.

Notation writer_ok := (writer_ok (contents := contents)).

(** ** Data that can be written *)

Definition finfo_ok (x : finfo) : Prop :=
  u64_ok (inum x) /\ u64_ok (snd (fst (fst x))) /\ key_ok (snd (fst x)) /\ key_ok (snd x).
Definition ptr_ok (k : bytes) : Prop := k = [] \/ key_ok (mkInternalKey k).

(** ** The snapshot *)

Definition plain (f : FileMetaData) : FileMetaData := FileMetaData_make (number f) (file_size f) (smallest f) (largest f).

Fixpoint snap_news (st : Store) (levels : list (list nat)) (level : Z) : list (Z * FileMetaData) :=
  match levels with
  | [] => []
  | files :: levels => map (fun p => (level, plain (fmeta st p))) files ++ snap_news st levels (level + 1)
  end.

Fixpoint snap_pointers (ptrs : list bytes) (level : Z) : list (Z * InternalKey) :=
  match ptrs with
  | [] => []
  | k :: ptrs => (if blen k =? 0 then [] else [(level, mkInternalKey k)]) ++ snap_pointers ptrs (level + 1)
  end.

Lemma snapshot_pointers_eq ptrs : forall level e ps ds fs,
  snapshot_pointers ptrs level (with_lists e ps ds fs) = with_lists e (ps ++ snap_pointers ptrs level) ds fs.
Proof.
  induction ptrs as [|k ptrs IH]; intros level e ps ds fs; cbn [snapshot_pointers snap_pointers]; [by rewrite app_nil_r|].
  destruct (Z.eqb_spec (blen k) 0) as [Hk|Hk]; [by rewrite IH|].
  replace (snd (InternalKey_DecodeFrom k)) with (mkInternalKey k) by done.
  change (SetCompactPointer level (mkInternalKey k) (with_lists e ps ds fs)) with (with_lists e (ps ++ [(level, mkInternalKey k)]) ds fs).
  by rewrite IH, <- app_assoc.
Qed.

Lemma fold_add_file st level files : forall e ps ds fs,
  fold_left (fun e p => let f := fmeta st p in AddFile level (number f) (file_size f) (smallest f) (largest f) e) files (with_lists e ps ds fs) =
  with_lists e ps ds (fs ++ map (fun p => (level, plain (fmeta st p))) files).
Proof.
  induction files as [|p files IH]; intros e ps ds fs; cbn [fold_left map]; [by rewrite app_nil_r|].
  match goal with |- fold_left _ _ ?x = _ => change x with (with_lists e ps ds (fs ++ [(level, plain (fmeta st p))])) end.
  by rewrite IH, <- app_assoc.
Qed.

Lemma snapshot_files_eq st levels : forall level e ps ds fs,
  snapshot_files st levels level (with_lists e ps ds fs) = with_lists e ps ds (fs ++ snap_news st levels level).
Proof.
  induction levels as [|files levels IH]; intros level e ps ds fs; cbn [snapshot_files snap_news]; [by rewrite app_nil_r|].
  by rewrite fold_add_file, IH, <- app_assoc.
Qed.

Definition snapshot_of vs (v : Compaction.Version nat) : VersionEdit :=
  with_lists (SetComparatorName (Name (user_cmp vs)) VersionEdit_Clear) (snap_pointers (compact_pointer_ vs) 0) []
    (snap_news (store_ vs) (files_ v) 0).

Lemma snapshot_edit_eq vs id node : current_ vs = Some id -> node_at vs id = Some node -> snapshot_edit vs = Some (snapshot_of vs (version node)).
Proof.
  intros Hc Hn. unfold snapshot_edit, current_version. rewrite Hc. cbn [mbind option_bind]. rewrite Hn. cbn [mbind option_bind]. f_equal.
  change (SetComparatorName (Name (user_cmp vs)) VersionEdit_Clear) with
    (with_lists (SetComparatorName (Name (user_cmp vs)) VersionEdit_Clear) [] [] []) at 1.
  by rewrite snapshot_pointers_eq, snapshot_files_eq.
Qed.

Lemma edit_news_app l l' i : edit_news (l ++ l') i = edit_news l i ++ edit_news l' i.
Proof. unfold edit_news. by rewrite List.filter_app, map_app. Qed.

Lemma edit_news_level st level files i :
  edit_news (map (fun p => (level, plain (fmeta st p))) files) i = if (Z.to_nat level =? i)%nat then map (fi st) files else [].
Proof.
  unfold edit_news. induction files as [|p files IH]; cbn [map List.filter fst]; [by destruct (_ =? _)%nat|].
  destruct (Z.to_nat level =? i)%nat; cbn [map]; [by rewrite IH|done].
Qed.

Lemma snap_news_at st levels : forall k i,
  edit_news (snap_news st levels (Z.of_nat k)) i = if (k <=? i)%nat then map (fi st) (nth (i - k) levels []) else [].
Proof.
  induction levels as [|files levels IH]; intros k i; cbn [snap_news].
  { unfold edit_news. cbn. destruct (k <=? i)%nat; [by destruct (i - k)%nat|done]. }
  replace (Z.of_nat k + 1) with (Z.of_nat (Datatypes.S k)) by lia. rewrite edit_news_app, edit_news_level, IH, Nat2Z.id.
  destruct (Nat.eqb_spec k i) as [->|Hne].
  - rewrite Nat.leb_refl, Nat.sub_diag, (proj2 (Nat.leb_gt (Datatypes.S i) i)) by lia. by rewrite app_nil_r.
  - destruct (Nat.leb_spec k i) as [Hle|Hlt].
    + rewrite (proj2 (Nat.leb_le (Datatypes.S k) i)) by lia. replace (i - k)%nat with (Datatypes.S (i - Datatypes.S k)) by lia. done.
    + by rewrite (proj2 (Nat.leb_gt (Datatypes.S k) i)) by lia.
Qed.

Lemma snapshot_news vs v i : edit_news (new_files_ (snapshot_of vs v)) i = map (fi (store_ vs)) (nth i (files_ v) []).
Proof. cbn [snapshot_of new_files_ with_lists]. change 0 with (Z.of_nat 0). rewrite snap_news_at. cbn [Nat.leb]. by rewrite Nat.sub_0_r. Qed.

Lemma snapshot_replay vs v :
  version_good c (store_ vs) v -> edit_levels c (snapshot_of vs v) empty_levels = level_infos (store_ vs) v.
Proof.
  intros [Hlen Hg]. apply list_eq_same_length with (n := Z.to_nat kNumLevels).
  - unfold level_infos. by rewrite length_map.
  - unfold edit_levels. rewrite length_imap. done.
  - intros i x y Hi Hx Hy. unfold edit_levels in Hx. rewrite list_lookup_imap in Hx. unfold empty_levels in Hx.
    rewrite lookup_replicate_2 in Hx by done. cbn [fmap option_fmap option_map] in Hx. injection Hx as <-. unfold level_infos in Hy. rewrite list_lookup_fmap in Hy.
    destruct (files_ v !! i) as [files|] eqn:Ef; [|done]. cbn in Hy. injection Hy as <-.
    rewrite Forall_forall in Hg. destruct (Hg files) as [G1 G2]; [by eapply list_elem_of_lookup_2|].
    unfold edit_level. cbn [undeleted List.filter]. rewrite snapshot_news, (nth_lookup_Some _ _ [] _ Ef).
    apply (sorted_unique c); [apply insert_all_sorted; [done|constructor]|done|].
    rewrite insert_all_perm; [by rewrite app_nil_r|done|]. cbn [map app]. by rewrite <- nums_fi.
Qed.

Lemma snap_news_ok st levels : forall level,
  0 <= level -> level + Z.of_nat (length levels) <= kNumLevels -> Forall (Forall finfo_ok) (map (map (fi st)) levels) ->
  Forall VersionEdit.file_ok (snap_news st levels level).
Proof.
  induction levels as [|files levels IH]; intros level Hl Hn Hf; cbn [snap_news map] in *; [constructor|].
  apply Forall_cons in Hf as [Hf1 Hf]. cbn [length] in Hn. apply Forall_app. split; [|apply IH; [lia|lia|done]].
  apply Forall_forall. intros x Hx. apply list_elem_of_In, in_map_iff in Hx as (p & <- & Hp). rewrite Forall_forall in Hf1.
  specialize (Hf1 (fi st p)). destruct Hf1 as (A1 & A2 & A3 & A4); [apply list_elem_of_In; by apply in_map|].
  unfold VersionEdit.file_ok, VersionEdit.level_ok. cbn [fst snd plain number file_size smallest largest FileMetaData_make]. repeat split; try done; try lia;
    try apply A1; try apply A2; try apply A3; try apply A4.
Qed.

Lemma snap_pointers_ok ptrs : forall level,
  0 <= level -> level + Z.of_nat (length ptrs) <= kNumLevels -> Forall ptr_ok ptrs -> Forall pointer_ok (snap_pointers ptrs level).
Proof.
  induction ptrs as [|k ptrs IH]; intros level Hl Hn Hf; cbn [snap_pointers] in *; [constructor|].
  apply Forall_cons in Hf as [Hk Hf]. cbn [length] in Hn. apply Forall_app. split; [|apply IH; [lia|lia|done]].
  destruct (Z.eqb_spec (blen k) 0) as [E|E]; [constructor|]. constructor; [|done]. split; [unfold VersionEdit.level_ok; cbn; lia|].
  destruct Hk as [->|Hk]; [by rewrite blen_nil in E|done].
Qed.

Lemma snapshot_edit_ok vs v fs :
  user_cmp vs = c -> blen (Name c) < 2 ^ 32 -> version_good c (store_ vs) v -> level_infos (store_ vs) v = fs ->
  Forall (Forall finfo_ok) fs -> length (compact_pointer_ vs) = Z.to_nat kNumLevels -> Forall ptr_ok (compact_pointer_ vs) ->
  edit_ok (snapshot_of vs v).
Proof.
  intros Hc Hn [Hlen _] Hf Hok Hp1 Hp2. split; try done.
  - cbn. by rewrite Hc.
  - apply snap_pointers_ok; [lia|rewrite Hp1; unfold kNumLevels; lia|done].
  - constructor.
  - apply snap_news_ok; [lia|rewrite Hlen; unfold kNumLevels; lia|]. by rewrite <- Hf in Hok.
Qed.

(** ** What an edit keeps *)

Lemma insert_all_elem xs : forall A x, x ∈ insert_all c xs A -> x ∈ xs \/ x ∈ A.
Proof.
  induction xs as [|y xs IH]; intros A x Hx; cbn [insert_all fold_left] in Hx; [by right|].
  apply IH in Hx as [Hx|Hx]; [left; by apply elem_of_cons; right|]. apply info_insert_elem in Hx as [->|Hx]; [|by right].
  left. by apply elem_of_cons; left.
Qed.

Lemma edit_levels_finfo e fs : edit_ok e -> Forall (Forall finfo_ok) fs -> Forall (Forall finfo_ok) (edit_levels c e fs).
Proof.
  intros He Hf. rewrite Forall_forall in *. intros l Hl. apply list_elem_of_lookup_1 in Hl as [i Hi]. unfold edit_levels in Hi.
  rewrite list_lookup_imap in Hi. destruct (fs !! i) as [l0|] eqn:E; [|done]. cbn [fmap option_fmap option_map] in Hi. injection Hi as <-.
  apply Forall_forall. intros x Hx. apply insert_all_elem in Hx as [Hx|Hx].
  - unfold edit_news in Hx. apply list_elem_of_In, in_map_iff in Hx as (y & <- & Hy). apply filter_In in Hy as [Hy _].
    pose proof (ok_files _ He) as Hfo. rewrite Forall_forall in Hfo. destruct (Hfo y) as (_ & A1 & A2 & A3 & A4 & _); [by apply list_elem_of_In|].
    by repeat split; try apply A1; try apply A2; try apply A3; try apply A4.
  - unfold undeleted in Hx. apply list_elem_of_In, filter_In in Hx as [Hx _]. specialize (Hf l0 ltac:(by eapply list_elem_of_lookup_2)).
    rewrite Forall_forall in Hf. apply Hf. by apply list_elem_of_In.
Qed.

Lemma edit_pointers_ok l : forall ptrs,
  Forall pointer_ok l -> Forall ptr_ok ptrs -> Forall ptr_ok (edit_pointers l ptrs) /\ length (edit_pointers l ptrs) = length ptrs.
Proof.
  induction l as [|[level k] l IH]; intros ptrs Hl Hp; cbn [edit_pointers fold_left]; [done|]. apply Forall_cons in Hl as [[_ Hk] Hl]. cbn [fst snd] in *.
  destruct (IH (<[Z.to_nat level := rep_ k]> ptrs) Hl) as [I1 I2].
  - apply Forall_insert; [done|]. right. by destruct k.
  - split; [done|]. unfold edit_pointers in I2. by rewrite I2, length_insert.
Qed.

(** ** Writing the descriptor *)

(** A file the environment creates is empty. *)
Definition creates_files : Prop :=
  forall name w, ok (fst (fst (env_NewWritableFile (F := F) (W := W) (S := S) name w))) = true ->
    exists f, snd (fst (env_NewWritableFile (F := F) (W := W) (S := S) name w)) = Some f /\ contents f = [].

Lemma creates_opens : creates_files -> opens_files (F := F) (W := W) (S := S).
Proof. intros H name w Hs. destruct (H name w Hs) as (f & E & _). by exists f. Qed.

Lemma writer_offset (log : Writer F) : writer_ok log -> offset_ok log.
Proof. by intros (_ & H & _). Qed.

Lemma log_edit_reliable vs log e recs :
  descriptor_log_ vs = Some log -> writer_ok log -> log_layout 0 recs (contents (dest_ log)) ->
  exists s log', log_edit addr vs e = Some (s, set_log vs (Some log')) /\ ok s = true /\ writer_ok log' /\
    log_layout 0 (recs ++ [EncodeTo e []]) (contents (dest_ log')).
Proof.
  intros El Hw Hlay. unfold log_edit. rewrite El. cbn [mbind option_bind].
  destruct (AddRecord_layout log addr (EncodeTo e []) Hw) as (s & log1 & out & -> & Hs & Hw1 & Hc1 & Hr1). cbn [mbind option_bind]. rewrite Hs.
  pose proof (sync_contents (dest_ log1)) as [Hs2 Hc2]. destruct (Sync (dest_ log1)) as [s2 f]. cbn [fst snd] in *.
  exists s2, (mkWriter f (block_offset_ log1) (type_crc_ log1)). split; [done|]. split; [done|]. split.
  - destruct Hw1 as (W1 & W2 & W3). split; [done|]. split; [done|]. cbn [dest_ block_offset_]. by rewrite Hc2.
  - cbn [dest_]. rewrite Hc2, Hc1. apply log_layout_app; [done|]. rewrite <- (app_nil_r out). econstructor; [done|constructor].
Qed.

Lemma log_phase_reliable vs id node e w es :
  creates_files -> current_ vs = Some id -> node_at vs id = Some node ->
  (forall log, descriptor_log_ vs = Some log -> writer_ok log /\ log_layout 0 (records es) (contents (dest_ log))) ->
  exists s nm log w', log_phase addr vs e w = Some (s, nm, set_log vs log, w') /\
    (ok s = false -> nm = true) /\
    (ok s = true -> exists l, log = Some l /\ writer_ok l /\
       log_layout 0 (records (match descriptor_log_ vs with Some _ => es | None => [snapshot_of vs (version node)] end ++ [e])) (contents (dest_ l))).
Proof.
  intros Henv Hc Hn Hlog. unfold log_phase, open_descriptor. destruct (descriptor_log_ vs) as [l|] eqn:El.
  - cbn [mbind option_bind]. change (ok OK) with true. cbv iota. destruct (Hlog l eq_refl) as [Hw Hlay].
    destruct (log_edit_reliable vs l e (records es) El Hw Hlay) as (s & l' & -> & Hs & Hw' & Hlay'). cbn [mbind option_bind].
    rewrite Hs, andb_false_r. exists s, false, (Some l'), w. split; [done|]. split; [congruence|]. intros _. exists l'.
    split; [done|]. split; [done|]. unfold records. by rewrite map_app.
  - specialize (Henv (DescriptorFileName (dbname_ vs) (manifest_file_number_ vs)) w).
    destruct (env_NewWritableFile _ w) as [[s file] w1]. cbn [fst snd] in Henv. destruct (ok s) eqn:Es.
    + destruct (Henv eq_refl) as (f & -> & Hf). cbn [mbind option_bind]. unfold WriteSnapshot. rewrite (snapshot_edit_eq vs id node Hc Hn).
      cbn [mbind option_bind].
      destruct (AddRecord_layout (Writer_make addr f) addr (EncodeTo (snapshot_of vs (version node)) []) (Writer_make_ok addr f Hf))
        as (s1 & l & out & -> & Hs1 & Hw1 & Hc1 & Hr1). cbn [mbind option_bind]. rewrite Hs1.
      cbn [dest_ Writer_make] in Hc1, Hr1. rewrite Hf in Hc1, Hr1. cbn [app] in Hc1.
      assert (Hlay : log_layout 0 (records [snapshot_of vs (version node)]) (contents (dest_ l))).
      { rewrite Hc1. rewrite <- (app_nil_r out). econstructor; [done|constructor]. }
      destruct (log_edit_reliable (set_log vs (Some l)) l e _ eq_refl Hw1 Hlay) as (s2 & l' & -> & Hs2 & Hw2 & Hlay2). cbn [mbind option_bind].
      rewrite Hs2. cbn [andb]. destruct (env_SetCurrentFile _ _ w1) as [s3 w3]. exists s3, true, (Some l'), w3.
      split; [done|]. split; [done|]. intros _. exists l'. split; [done|]. split; [done|]. unfold records in *. by rewrite map_app.
    + cbn [mbind option_bind]. rewrite Es. cbn [mbind option_bind]. rewrite Es. cbn [andb]. exists s, true, None, w1. split; [|split; [done|congruence]].
      do 3 f_equal. unfold set_log. rewrite <- El. by destruct vs.
Qed.

(** ** The parts of [LogAndApply] *)

Lemma AppendVersion_frame vs v vs' :
  AppendVersion vs v = Some vs' -> frame_of vs' = frame_of vs /\ compact_pointer_ vs' = compact_pointer_ vs.
Proof.
  unfold AppendVersion. intros H.
  assert (Hu : forall vs1, (match current_ vs with Some id => Version_Unref vs id | None => Some vs end) = Some vs1 ->
    frame_of vs1 = frame_of vs /\ compact_pointer_ vs1 = compact_pointer_ vs).
  { intros vs1. destruct (current_ vs) as [id|]; [|by intros [= <-]]. unfold Version_Unref, Version_delete.
    destruct (node_at vs id); [|done]. cbn [mbind option_bind]. destruct (negb _); [done|]. cbv zeta. destruct (_ =? 0).
    - destruct (release_files _ _); [|done]. cbn [mbind option_bind]. by intros [= <-].
    - by intros [= <-]. }
  destruct (match current_ vs with Some id => Version_Unref vs id | None => Some vs end) as [vs1|]; [|done]. cbn [mbind option_bind] in H.
  injection H as <-. exact (Hu vs1 eq_refl).
Qed.

Lemma LogAndApply_inv vs e w s e1 vs' w' :
  LogAndApply addr vs e w = Some (s, e1, vs', w') ->
  complete_edit vs e = Some e1 /\
  exists v vs1 nm vs2 w2, build_version vs e1 = Some (v, vs1) /\ log_phase addr vs1 e1 w = Some (s, nm, vs2, w2) /\
    compact_pointer_ vs' = compact_pointer_ vs2 /\
    (ok s = true -> descriptor_log_ vs' = descriptor_log_ vs2) /\ (nm = true -> ok s = false -> descriptor_log_ vs' = None).
Proof.
  rewrite LogAndApply_phases. destruct (complete_edit vs e) as [e0|]; [|done]. cbn [mbind option_bind].
  destruct (build_version vs e0) as [[v vs1]|] eqn:Eb; [|done]. cbn [mbind option_bind].
  destruct (log_phase addr vs1 e0 w) as [[[[s0 nm] vs2] w2]|] eqn:El; [|done]. cbn [mbind option_bind]. unfold install_phase. destruct (ok s0) eqn:Es.
  - destruct (AppendVersion vs2 v) as [vs3|] eqn:Ea; [|done]. cbn [mbind option_bind]. intros [= <- <- <- <-]. split; [done|].
    apply AppendVersion_frame in Ea as [Hf Hp]. unfold frame_of in Hf. injection Hf as _ _ _ _ _ _ _ _ Hd.
    exists v, vs1, nm, vs2, w2. split; [done|]. split; [done|]. split; [exact Hp|]. split; [intros _; exact Hd|congruence].
  - destruct (release_files _ _) as [st|]; [|done]. cbn [mbind option_bind]. destruct nm; intros [= <- <- <- <-]; (split; [done|]);
      eexists v, vs1, _, vs2, w2; (split; [done|]); (split; [done|]); (split; [done|]); (split; [by rewrite Es|done]).
Qed.

(** ** The invariant *)

Record logged vs (es : list VersionEdit) (fs : list (list finfo)) : Prop := mkLogged {
  lg_set : set_ok c vs [];
  lg_files : current_files vs = Some fs;
  lg_finfo : Forall (Forall finfo_ok) fs;
  lg_disjoint : levels_disjoint c fs;
  lg_pointers : length (compact_pointer_ vs) = Z.to_nat kNumLevels /\ Forall ptr_ok (compact_pointer_ vs);
  lg_log log : descriptor_log_ vs = Some log ->
    writer_ok log /\ log_layout 0 (records es) (contents (dest_ log)) /\ history_ok c es /\ replay c es empty_levels = fs /\
    exists e, last es = Some e /\
      founds es no_numbers =
        mkFound (Some (vs_log_number_ vs)) (Some (vs_prev_log_number_ vs)) (Some (next_file_number_ e)) (Some (last_sequence_ e))
}.

(** Changes that leave the current version and what was logged alone. *)
Definition same_view vs vs' : Prop :=
  current_files vs' = current_files vs /\ compact_pointer_ vs' = compact_pointer_ vs /\ descriptor_log_ vs' = descriptor_log_ vs /\
  vs_log_number_ vs' = vs_log_number_ vs /\ vs_prev_log_number_ vs' = vs_prev_log_number_ vs.

Lemma logged_view vs vs' es fs : logged vs es fs -> set_ok c vs' [] -> same_view vs vs' -> logged vs' es fs.
Proof.
  intros [L1 L2 L3 L4 L5 L6] Hs (V1 & V2 & V3 & V4 & V5). split; try done; [by rewrite V1|by rewrite V2|].
  intros log Hl. rewrite V3 in Hl. rewrite V4, V5. by apply L6.
Qed.

Lemma set_ok_numbers vs n m q l pl : set_ok c vs [] -> set_ok c (set_numbers vs n m q l pl) [].
Proof. intros [H1 H2 H3]. split; [by apply set_numbers_ok|exact H2|exact H3]. Qed.

(** The history once [e1] is logged: what the descriptor held, or a snapshot if
    there was none, and the edit. *)
Definition next_history vs (es : list VersionEdit) (e1 : VersionEdit) : list VersionEdit :=
  match descriptor_log_ vs with
  | Some _ => es
  | None =>
      match current_version vs with
      | Some v => [snapshot_of (set_pointers vs (edit_pointers (compact_pointers_ e1) (compact_pointer_ vs))) v]
      | None => []
      end
  end ++ [e1].

Lemma snap_news_ext st st' levels : forall level, keeps st st' (concat levels) -> snap_news st' levels level = snap_news st levels level.
Proof.
  induction levels as [|files levels IH]; intros level Hk; cbn [snap_news concat] in *; [done|]. f_equal.
  - apply map_ext_in. intros p Hp. f_equal. specialize (Hk p ltac:(apply elem_of_app; left; by apply list_elem_of_In)).
    unfold fi, info_of in Hk. unfold plain. by injection Hk as -> -> -> ->.
  - apply IH. intros p Hp. apply Hk. apply elem_of_app. by right.
Qed.

Lemma history_ok_app es es' :
  history_ok c es -> Forall edit_ok es' -> Forall (fun e => has_comparator_ e = true -> comparator_ e = Name c) es' ->
  (forall i, (i < Z.to_nat kNumLevels)%nat -> NoDup (history_nums (es ++ es') i)) -> history_ok c (es ++ es').
Proof. intros [H1 H2 H3] H4 H5 H6. split; [by apply Forall_app|by apply Forall_app|done]. Qed.

Lemma founds_last es e : 
  has_log_number_ e = true -> has_prev_log_number_ e = true -> has_next_file_number_ e = true -> has_last_sequence_ e = true ->
  founds (es ++ [e]) no_numbers =
    mkFound (Some (log_number_ e)) (Some (prev_log_number_ e)) (Some (next_file_number_ e)) (Some (last_sequence_ e)).
Proof. intros H1 H2 H3 H4. unfold founds. rewrite fold_left_app. cbn [fold_left]. unfold found_in. by rewrite H1, H2, H3, H4. Qed.

Lemma replay_last es e fs : replay c (es ++ [e]) fs = edit_levels c e (replay c es fs).
Proof. unfold replay. by rewrite fold_left_app. Qed.

Hypothesis name_fits : blen (Name c) < 2 ^ 32.
Hypothesis env_creates : creates_files.

Lemma next_history_ok vs es fs id node e1 :
  logged vs es fs -> current_ vs = Some id -> node_at vs id = Some node -> edit_ok e1 ->
  (has_comparator_ e1 = true -> comparator_ e1 = Name c) ->
  (forall i, (i < Z.to_nat kNumLevels)%nat -> NoDup (history_nums (next_history vs es e1) i)) ->
  history_ok c (next_history vs es e1) /\ replay c (next_history vs es e1) empty_levels = edit_levels c e1 fs.
Proof.
  intros [Ls Lf Li Ld Lp Ll] Hc Hn He Hcmp Hfresh. unfold next_history in *. rewrite replay_last. destruct (descriptor_log_ vs) as [log|] eqn:El.
  - destruct (Ll log eq_refl) as (_ & _ & Hh & Hr & _). split; [|by rewrite Hr]. apply history_ok_app; [done|by constructor|by constructor|done].
  - assert (Hv : current_version vs = Some (version node)) by (unfold current_version; rewrite Hc; cbn [mbind option_bind]; by rewrite Hn).
    rewrite Hv in *. destruct (edit_pointers_ok (compact_pointers_ e1) (compact_pointer_ vs) (ok_pointers _ He) (proj2 Lp)) as [P1 P2].
    set (vs0 := set_pointers vs (edit_pointers (compact_pointers_ e1) (compact_pointer_ vs))) in *.
    destruct (node_good c vs [] id node (so_ok _ _ _ Ls) Hn) as [_ Hg].
    assert (Hinf : level_infos (store_ vs) (version node) = fs).
    { unfold current_files, files_in in Lf. rewrite Hc in Lf. cbn [mbind option_bind] in Lf. rewrite Hn in Lf. by injection Lf as <-. }
    assert (Hsnap : edit_ok (snapshot_of vs0 (version node))).
    { apply (snapshot_edit_ok vs0 (version node) fs); try done; [exact (ok_cmp _ _ _ (so_ok _ _ _ Ls))|].
      unfold vs0. cbn [compact_pointer_ set_pointers]. rewrite P2. apply Lp. }
    split.
    + split; [by do 2 (constructor; [done|])| |done]. constructor; [|by constructor]. intros _. cbn. by rewrite (ok_cmp _ _ _ (so_ok _ _ _ Ls)).
    + unfold replay. cbn [fold_left]. rewrite (snapshot_replay vs0); [|done]. by rewrite <- Hinf.
Qed.

(** Logging an edit keeps the invariant. *)
Lemma logged_step vs es fs e e1 w s vs' w' :
  logged vs es fs -> LogAndApply addr vs e w = Some (s, e1, vs', w') -> edit_ok e1 -> edit_applies c e1 fs ->
  (has_comparator_ e = true -> comparator_ e = Name c) ->
  (forall i, (i < Z.to_nat kNumLevels)%nat -> NoDup (history_nums (next_history vs es e1) i)) ->
  if ok s then logged vs' (next_history vs es e1) (edit_levels c e1 fs) else logged vs' es fs.
Proof.
  intros [Ls Lf Li Ld Lp Ll] HL He Hap Hcmp Hfresh.
  destruct (LogAndApply_inv _ _ _ _ _ _ _ HL) as (Hce & v & vs1 & nm & vs2 & w2 & Hbv & Hlp & Ep & Elog & Enone).
  pose proof Ls as [Hok (id & Hc & [node Hn]) Ho].
  assert (Hfi : files_in vs id = Some fs) by (unfold current_files in Lf; rewrite Hc in Lf; exact Lf).
  destruct (LogAndApply_ok c addr vs [] fs id e e1 w Ls (creates_opens env_creates) Hc Hfi Hce Hap) as (s' & vs'' & w'' & HL' & Hs' & Hd).
  rewrite HL in HL'. injection HL' as <- <- <-.
  destruct (complete_edit_lists _ _ _ Hce) as (C1 & C2 & C3 & C4 & C5 & C6 & C7 & C8 & C9 & C10 & C11).
  assert (Hfs : fs = level_infos (store_ vs) (version node)) by (unfold files_in in Hfi; rewrite Hn in Hfi; by injection Hfi as <-).
  destruct (build_version_ok c vs [] id node e1 Hok Hc Hn (ap_fits _ _ _ Hap)) as (v0 & vs10 & Hbv' & Hok1 & Hg1 & Hinf & Hat1 & Hk1 & Hfr & Hc1 & Ha1 & Hp1).
  { intros i files Hi. rewrite nums_fi. apply (ap_fresh _ _ _ Hap). rewrite Hfs. unfold level_infos. by rewrite list_lookup_fmap, Hi. }
  { rewrite <- Hfs. exact (ap_disjoint _ _ _ Hap). }
  rewrite Hbv in Hbv'. injection Hbv' as <- <-. unfold frame_of in Hfr. injection Hfr as F1 F2 F3 F4 F5 F6 F7 F8 F9.
  destruct (log_phase_reliable vs1 id node e1 w es env_creates Hc1 ltac:(by rewrite Hat1)) as (s0 & nm0 & log & w20 & Hlp' & Hnm & Hlay).
  { intros l Hl. rewrite F9 in Hl. destruct (Ll l Hl) as (A & B & _). by split. }
  rewrite Hlp in Hlp'. injection Hlp' as <- <- -> <-.
  destruct (edit_pointers_ok (compact_pointers_ e1) (compact_pointer_ vs) (ok_pointers _ He) (proj2 Lp)) as [P1 P2].
  assert (Hptr : length (compact_pointer_ vs') = Z.to_nat kNumLevels /\ Forall ptr_ok (compact_pointer_ vs')).
  { rewrite Ep. change (compact_pointer_ (set_log vs1 log)) with (compact_pointer_ vs1). rewrite Hp1, P2. by split; [apply Lp|]. }
  destruct Hd as (_ & _ & _ & Hd). destruct (ok s) eqn:Es.
  - destruct Hd as (D1 & D2 & D3). split; [done|done|by apply edit_levels_finfo|exact (ap_disjoint _ _ _ Hap)|done|].
    intros l Hl. rewrite (Elog eq_refl) in Hl. destruct (Hlay eq_refl) as (l' & -> & Hw & Hlay'). cbn [descriptor_log_ set_log] in Hl.
    injection Hl as <-. split; [done|]. rewrite F9 in Hlay'.
    destruct (next_history_ok vs es fs id node e1 (mkLogged _ _ _ Ls Lf Li Ld Lp Ll) Hc Hn He) as [Hh Hr]; [by rewrite C10, C11|done|].
    split; [|split; [done|split; [done|]]].
    + unfold next_history. destruct (descriptor_log_ vs); [exact Hlay'|]. unfold current_version. rewrite Hc. cbn [mbind option_bind]. rewrite Hn.
      cbn [mbind option_bind]. replace (snapshot_of (set_pointers vs _) (version node)) with (snapshot_of vs1 (version node)); [exact Hlay'|].
      unfold snapshot_of. cbn [user_cmp compact_pointer_ store_ set_pointers]. rewrite F3, Hp1, (snap_news_ext (store_ vs)); [done|].
      intros p Hp. apply Hk1. apply elem_of_app. left. by eapply all_files_elem.
    + exists e1. unfold next_history. split; [by rewrite last_snoc|]. rewrite founds_last by done. by rewrite D2, D3.
  - destruct Hd as (D1 & D2 & D3 & D4). split; try done; [unfold current_files; by rewrite D1|].
    intros l Hl. rewrite (Enone (Hnm eq_refl) eq_refl) in Hl. done.
Qed.

(** ** The other operations *)

Lemma current_files_at vs vs' id :
  current_ vs = Some id -> current_ vs' = Some id -> files_in vs' id = files_in vs id -> current_files vs' = current_files vs.
Proof. intros H1 H2 H3. unfold current_files. by rewrite H1, H2. Qed.

Lemma Version_Ref_step vs id vs' : set_ok c vs [] -> Version_Ref vs id = Some vs' -> set_ok c vs' [] /\ same_view vs vs'.
Proof.
  intros [Hok (cid & Hc & [n Hn]) Hl] Hr. unfold Version_Ref in Hr. destruct (node_at vs id) as [node|] eqn:En; [|done].
  destruct (Version_Ref_ok c vs [] id node Hok En) as (vs1 & E1 & Hok1 & Est & _ & Hat & Heq).
  unfold Version_Ref in E1. rewrite En in E1. rewrite Hr in E1. injection E1 as <-.
  assert (Hc' : current_ vs' = Some cid) by (by rewrite Heq). split.
  - split; [done| |by rewrite Heq]. exists cid. split; [done|]. rewrite Hat. destruct (decide _); [by eexists|by exists n].
  - split; [|by rewrite Heq]. eapply current_files_at; [exact Hc|done|]. unfold files_in. rewrite Hat, Est. destruct (decide (cid = id)) as [->|]; [|done].
    by rewrite En.
Qed.

Lemma Version_Unref_step vs id node vs' :
  set_ok c vs [] -> node_at vs id = Some node -> current_ vs <> Some id \/ refs_ node <> 1 -> Version_Unref vs id = Some vs' ->
  set_ok c vs' [] /\ same_view vs vs'.
Proof.
  intros [Hok (cid & Hc & [n Hn]) Hl] En Hor Hu.
  destruct (Version_Unref_ok c vs [] id node Hok En) as (vs1 & E1 & Hok1 & Hk & Hat & Hid & Heq). rewrite Hu in E1. injection E1 as <-.
  assert (Hc' : current_ vs' = Some cid) by (rewrite Heq; exact Hc).
  assert (Hnc : exists n', node_at vs' cid = Some n' /\ version n' = version n).
  { destruct (decide (cid = id)) as [->|Hne]; [|exists n; by rewrite Hat]. rewrite Hid. rewrite En in Hn. injection Hn as <-.
    destruct Hor as [?|Hr]; [congruence|]. rewrite (proj2 (Z.eqb_neq _ _) Hr). by eexists. }
  destruct Hnc as (n' & Hn' & Hv). split.
  - split; [done|exists cid; by eauto|]. intros l Hl'. apply Hl. rewrite Heq in Hl'. exact Hl'.
  - split; [|by rewrite Heq]. eapply current_files_at; [exact Hc|done|]. unfold files_in. rewrite Hn, Hn'. cbn. f_equal. rewrite Hv.
    unfold level_infos. apply map_ext_in. intros files Hf. apply map_ext_in. intros p Hp. apply Hk. apply elem_of_app. left.
    eapply all_files_elem; [exact Hn'|]. rewrite Hv. apply list_elem_of_In, in_concat. by exists files.
Qed.

Lemma put_seeks_ok st l p f n :
  refs_ok st l -> file_at st p = Some f ->
  refs_ok (put_file st p (with_seeks n f)) l /\ forall x, fi (put_file st p (with_seeks n f)) x = fi st x.
Proof.
  intros [H1 H2] Hf. split; [split|].
  - intros x Hx. rewrite file_at_put. destruct (decide (x = p)) as [->|]; [|by apply H1]. destruct (H1 p Hx) as (g & Hg & Hr).
    rewrite Hf in Hg. injection Hg as <-. by eexists.
  - intros x. rewrite file_at_put. cbn. destruct (decide (x = p)) as [->|]; [|apply H2]. intros _. apply H2. by eexists.
  - intros x. unfold fi, fmeta. rewrite file_at_put. destruct (decide (x = p)) as [->|]; [|done]. by rewrite Hf.
Qed.

Lemma UpdateStats_step vs id stats b vs' :
  set_ok c vs [] -> UpdateStats vs id stats = Some (b, vs') -> set_ok c vs' [] /\ same_view vs vs'.
Proof.
  intros Hs Hu. unfold UpdateStats in Hu. destruct (seek_file stats) as [p|]; [|by injection Hu as _ <-].
  destruct (node_at vs id) as [node|] eqn:En; [|done]. cbn [mbind option_bind] in Hu.
  destruct (file_at (store_ vs) p) as [f|] eqn:Ef; [|done]. cbn [mbind option_bind] in Hu. cbv zeta in Hu.
  pose proof Hs as [Hok (cid & Hc & [n Hn]) Hl].
  destruct (put_seeks_ok (store_ vs) _ p f (allowed_seeks f - 1) (ok_refs _ _ _ Hok) Ef) as [Hr Hfi].
  set (vs1 := set_store vs _) in Hu.
  assert (Hok1 : vs_ok c vs1 []) by (eapply vs_ok_store; [exact Hok|exact Hr|intros x _; apply Hfi]).
  assert (Hin : forall vs2 cid', store_ vs2 = store_ vs1 -> (files_ ∘ version <$> node_at vs2 cid') = (files_ ∘ version <$> node_at vs cid') ->
    files_in vs2 cid' = files_in vs cid').
  { intros vs2 cid' E1 E2. unfold files_in. rewrite E1. destruct (node_at vs2 cid') as [n2|], (node_at vs cid') as [n1|]; try done.
    cbn in E2 |- *. injection E2 as E2. f_equal. unfold level_infos. rewrite E2. apply map_ext. intros files. by apply map_fi_ext. }
  assert (H1 : set_ok c vs1 [] /\ same_view vs vs1).
  { split; [split; [done|exists cid; by eauto|exact Hl]|]. split; [|done]. eapply current_files_at; [exact Hc|done|]. by apply Hin. }
  destruct (file_to_compact_ (version node)); [by injection Hu as _ <-|]. destruct (_ <=? 0); [|by injection Hu as _ <-].
  injection Hu as _ <-.
  assert (Hat : forall id', node_at (put_node vs1 id (mkNode (refs_ node) (mkVersion (files_ (version node)) (Some p) (seek_file_level stats)
     (compaction_score_ (version node)) (compaction_level_ (version node))))) id' =
     if decide (id' = id) then Some (mkNode (refs_ node) (mkVersion (files_ (version node)) (Some p) (seek_file_level stats)
     (compaction_score_ (version node)) (compaction_level_ (version node)))) else node_at vs id').
  { intros id'. rewrite put_node_at; [done|]. by exists node. }
  destruct (node_good c vs [] id node Hok En) as [Hr1 _]. split.
  - split; [eapply put_node_ok; [exact Hok1|exact En|done|done]| |exact Hl]. exists cid. split; [done|]. rewrite Hat. destruct (decide _); by eexists.
  - split; [|done]. eapply current_files_at; [exact Hc|done|]. apply Hin; [done|]. rewrite Hat. destruct (decide (cid = id)) as [->|]; [|done].
    by rewrite En.
Qed.

(** ** The version set as a state machine

    A state is the set, the edits its descriptor holds (what [LogAndApply] has
    logged, after the snapshot it began with) and the environment. *)

Definition vs_state : Type := VersionSet F * list VersionEdit * W.

(** What a caller of [LogAndApply] must respect, on files [fs]: the completed edit
    fits the format, gives its files numbers their level has not had, and leaves no
    overlaps above level 0. *)
Record edit_valid vs (es : list VersionEdit) (fs : list (list finfo)) (e e1 : VersionEdit) : Prop := mkValid {
  va_complete : complete_edit vs e = Some e1;
  va_ok : edit_ok e1;
  va_comparator : has_comparator_ e = true -> comparator_ e = Name c;
  va_applies : edit_applies c e1 fs;
  va_fresh i : (i < Z.to_nat kNumLevels)%nat -> NoDup (history_nums (next_history vs es e1) i)
}.

Inductive vs_step : vs_state -> vs_state -> Prop :=
  | step_edit vs es w fs e e1 s vs' w' :
      current_files vs = Some fs -> edit_valid vs es fs e e1 -> LogAndApply addr vs e w = Some (s, e1, vs', w') ->
      vs_step (vs, es, w) (vs', if ok s then next_history vs es e1 else es, w')
  | step_new_number vs es w : vs_step (vs, es, w) (snd (NewFileNumber vs), es, w)
  | step_reuse_number vs es w n : vs_step (vs, es, w) (ReuseFileNumber vs n, es, w)
  | step_mark_number vs es w n : vs_step (vs, es, w) (MarkFileNumberUsed vs n, es, w)
  | step_sequence vs es w q vs' : vs_SetLastSequence vs q = Some vs' -> vs_step (vs, es, w) (vs', es, w)
  | step_ref vs es w id vs' : Version_Ref vs id = Some vs' -> vs_step (vs, es, w) (vs', es, w)
  | step_unref vs es w id node vs' :
      node_at vs id = Some node -> current_ vs <> Some id \/ refs_ node <> 1 -> Version_Unref vs id = Some vs' ->
      vs_step (vs, es, w) (vs', es, w)
  | step_stats vs es w id stats b vs' : UpdateStats vs id stats = Some (b, vs') -> vs_step (vs, es, w) (vs', es, w)
  | step_sample vs es w id k b vs' : RecordReadSample vs id k = Some (b, vs') -> vs_step (vs, es, w) (vs', es, w)
  | step_world vs es w w' : vs_step (vs, es, w) (vs, es, w').

Definition reachable (dbname : bytes) (options : Options) (st : vs_state) : Prop :=
  exists vs0 w0, VersionSet_new dbname options c = Some vs0 /\ rtc vs_step (vs0, [], w0) st.

Lemma logged_numbers vs es fs n m q : logged vs es fs -> logged (set_numbers vs n m q (vs_log_number_ vs) (vs_prev_log_number_ vs)) es fs.
Proof. intros Hl. eapply logged_view; [exact Hl|apply set_ok_numbers, Hl|done]. Qed.

Lemma vs_step_logged vs es w vs' es' w' fs :
  vs_step (vs, es, w) (vs', es', w') -> logged vs es fs -> exists fs', logged vs' es' fs'.
Proof.
  intros Hstep Hl. inversion Hstep; subst.
  - match goal with Hf : current_files vs = Some ?x |- _ => rewrite (lg_files _ _ _ Hl) in Hf; injection Hf as <- end.
    match goal with HL : LogAndApply _ _ _ _ = Some _, Hv : edit_valid _ _ _ _ _ |- _ =>
      pose proof (logged_step _ _ _ _ _ _ _ _ _ Hl HL (va_ok _ _ _ _ _ Hv) (va_applies _ _ _ _ _ Hv) (va_comparator _ _ _ _ _ Hv) (va_fresh _ _ _ _ _ Hv))
      as HX end. destruct (ok s); by eauto.
  - eexists. by apply logged_numbers.
  - unfold ReuseFileNumber. destruct (_ =? _); eexists; [by apply logged_numbers|done].
  - unfold MarkFileNumberUsed. destruct (_ <=? _); eexists; [by apply logged_numbers|done].
  - match goal with Hq : vs_SetLastSequence _ _ = _ |- _ => unfold vs_SetLastSequence in Hq; destruct (_ <? _); [done|]; injection Hq as <- end.
    eexists. by apply logged_numbers.
  - exists fs. edestruct Version_Ref_step; [apply Hl|eassumption|]. by eapply logged_view.
  - exists fs. edestruct Version_Unref_step; [apply Hl|eassumption..|]. by eapply logged_view.
  - exists fs. edestruct UpdateStats_step; [apply Hl|eassumption|]. by eapply logged_view.
  - exists fs. match goal with Hq : RecordReadSample _ _ _ = _ |- _ => unfold RecordReadSample in Hq; rename Hq into Hs end.
    destruct (node_at vs id) as [node|]; [|done]. cbn [mbind option_bind] in Hs. destruct (sampled_stats _ _ _ _) as [[stats|]|]; [| |done];
      cbn [mbind option_bind] in Hs; [|by injection Hs as _ <-]. edestruct UpdateStats_step; [apply Hl|exact Hs|]. by eapply logged_view.
  - by exists fs.
Qed.

Lemma reachable_logged dbname options vs es w : reachable dbname options (vs, es, w) -> exists fs, logged vs es fs.
Proof.
  intros (vs0 & w0 & Hnew & Hrun).
  assert (Hgen : forall st st', rtc vs_step st st' -> (exists fs, logged (fst (fst st)) (snd (fst st)) fs) -> exists fs, logged (fst (fst st')) (snd (fst st')) fs).
  { induction 1 as [st|[[v1 e1] w1] [[v2 e2] w2] st' Hs _ IH]; [done|]. intros [fs Hl]. apply IH. cbn [fst snd] in *. by eapply vs_step_logged. }
  apply (Hgen _ _ Hrun). exists empty_levels. cbn [fst snd]. destruct (VersionSet_new_ok (F := F) c dbname options) as (vs1 & E & Hok & Hc & Hn & Hf & _ & _ & Hd & Hp).
  rewrite Hnew in E. injection E as <-. split; try done.
  - apply Forall_forall. intros l Hl. apply elem_of_replicate in Hl as [-> _]. constructor.
  - intros i l _ Hl. apply lookup_replicate in Hl as [-> _]. constructor.
  - rewrite Hp, length_replicate. split; [done|]. apply Forall_forall. intros k Hk. apply elem_of_replicate in Hk as [-> _]. by left.
  - intros log Hl. congruence.
Qed.

(** ** The theorems *)

(** C20: A version set survives in its MANIFEST.  Whatever edits were logged, numbers
    given, versions pinned and seeks charged since the set was created, recovering a
    fresh set from the bytes of its descriptor returns OK and gives the same files in
    every level and the same log numbers; the file and sequence numbers are those of
    the last edit logged. *)
Theorem manifest_recovery dbname options vs es w log fresh dbname' options' w' current :
  reachable dbname options (vs, es, w) -> descriptor_log_ vs = Some log -> blen (contents (dest_ log)) < 2 ^ 64 ->
  VersionSet_new dbname' options' c = Some fresh ->
  descriptor_is (F := F) (S := S) (unread := unread) w' dbname' current (contents (dest_ log)) ->
  exists s save vs' w2 e, Recover addr (enough (contents (dest_ log))) fresh w' = Some (s, save, vs', w2) /\ ok s = true /\
    current_files vs' = current_files vs /\
    vs_log_number_ vs' = vs_log_number_ vs /\ vs_prev_log_number_ vs' = vs_prev_log_number_ vs /\
    last es = Some e /\ vs_next_file_number_ vs' = u64 (next_file_number_ e + 1) /\ vs_last_sequence_ vs' = last_sequence_ e.
Proof.
  intros Hr Hl Hsz Hnew Hd. destruct (reachable_logged _ _ _ _ _ Hr) as [fs [_ Lf _ Ld _ Ll]].
  destruct (Ll log Hl) as (_ & Hlay & Hh & Hrep & e & He & Hfound).
  destruct (VersionSet_new_ok (F := F) c dbname' options') as (vs0 & E & Hok & Hc & Hn & _ & Hdb & _ & Hdl & _). rewrite Hnew in E. injection E as <-.
  destruct (Recover_replays c addr es (contents (dest_ log)) fresh (enough (contents (dest_ log))) w' current (vs_log_number_ vs)
    (Some (vs_prev_log_number_ vs)) (next_file_number_ e) (last_sequence_ e) Hok Hdl Hc Hn) as (s & save & vs' & w2 & HR & Hs & _ & R1 & R2 & R3 & R4 & R5);
    try done; [by rewrite Hdb|unfold enough; lia|by rewrite Hrep|].
  exists s, save, vs', w2, e. by rewrite R1, Hrep, Lf.
Qed.

(** C24: [LogAndApply], called in any state the set can be in with an edit its contract
    allows, returns without a failed assertion.  When the status is OK the current
    version has exactly the files the edit asks for; when it is not, the current
    version and the log numbers are what they were.  Either way every other version
    in use keeps its files. *)
Theorem log_and_apply dbname options vs es w fs id e e1 :
  reachable dbname options (vs, es, w) -> current_ vs = Some id -> current_files vs = Some fs -> edit_valid vs es fs e e1 ->
  exists s vs' w', LogAndApply addr vs e w = Some (s, e1, vs', w') /\
    (forall id', id' <> id -> is_Some (node_at vs id') -> files_in vs' id' = files_in vs id') /\
    if ok s then
      current_files vs' = Some (edit_levels c e1 fs) /\ vs_log_number_ vs' = log_number_ e1 /\ vs_prev_log_number_ vs' = prev_log_number_ e1
    else
      current_ vs' = Some id /\ current_files vs' = Some fs /\
      vs_log_number_ vs' = vs_log_number_ vs /\ vs_prev_log_number_ vs' = vs_prev_log_number_ vs.
Proof.
  intros Hr Hc Hf [V1 V2 V3 V4 V5]. destruct (reachable_logged _ _ _ _ _ Hr) as [fs' [Ls Lf _ _ _ _]]. rewrite Hf in Lf. injection Lf as <-.
  assert (Hfi : files_in vs id = Some fs) by (unfold current_files in Hf; rewrite Hc in Hf; exact Hf).
  destruct (LogAndApply_ok c addr vs [] fs id e e1 w Ls (creates_opens env_creates) Hc Hfi V1 V4) as (s & vs' & w' & HL & _ & D1 & _ & _ & D4).
  exists s, vs', w'. split; [done|]. split; [done|]. destruct (ok s); [done|]. destruct D4 as (E1 & E2 & E3 & E4).
  split; [done|]. split; [|done]. unfold current_files. by rewrite E1.
Qed.

(** C25: File metadata outlive the versions that use them: in any state the set can be
    in, every file of every version in the list is allocated, with at least as many
    references as it has versions and levels that hold it, and its number is among
    those [AddLiveFiles] reports. *)
Theorem version_files_alive dbname options vs es w id node p :
  reachable dbname options (vs, es, w) -> node_at vs id = Some node -> p ∈ concat (files_ (version node)) ->
  exists f, file_at (store_ vs) p = Some f /\ Z.of_nat (occurs (all_files vs) p) <= f_refs f /\ number f ∈ AddLiveFiles vs.
Proof.
  intros Hr Hn Hp. destruct (reachable_logged _ _ _ _ _ Hr) as [fs [[Hok _ _] _ _ _ _ _]].
  pose proof (all_files_elem vs id node p Hn Hp) as Hall. pose proof (ok_refs _ _ _ Hok) as Hrefs. rewrite app_nil_r in Hrefs.
  destruct (refs_live _ _ Hrefs p Hall) as (f & Ef & Hf). exists f. split; [done|]. split; [done|].
  apply node_at_elem in Hn. unfold AddLiveFiles. apply list_elem_of_In, in_concat.
  exists (map (fun q => number (fmeta (store_ vs) q)) (concat (files_ (version node)))). split.
  - apply list_elem_of_In in Hn. apply (in_map (fun x => map (fun q => number (fmeta (store_ vs) q)) (concat (files_ (version (snd x)))))) in Hn. exact Hn.
  - apply in_map_iff. exists p. split; [unfold fmeta; by rewrite Ef|by apply list_elem_of_In].
Qed.

End ManifestSpec.

(** ** A small run

    A set is created, a first edit adds file 5 to level 0 and file 6 to level 1, a
    second one moves file 5 to level 1.  The environment is the bytes a descriptor
    would be read from. *)

#[local] Instance text_env : DescriptorEnv (F := StringDest) bytes StringSource := {
  env_NewWritableFile _ w := (OK, Some (mkDest []), w);
  env_NewAppendableFile _ w := (OK, Some (mkDest w), w);
  env_NewSequentialFile _ w := (OK, Some (mkSource w), w);
  env_GetFileSize _ w := (OK, blen w, w);
  env_RemoveFile _ w := (OK, w);
  env_SetCurrentFile _ _ w := (OK, w);
  env_ReadFileToString _ w := (OK, str "MANIFEST-000002" ++ [x0a], w)
}.

Lemma text_env_creates : creates_files (F := StringDest) (W := bytes) (S := StringSource) (contents := dest_contents).
Proof. intros name w _. by exists (mkDest []). Qed.

Definition run_add : VersionEdit :=
  AddFile 1 6 2000 (demo_key "n" 4) (demo_key "z" 3)
    (AddFile 0 5 1000 (demo_key "a" 5) (demo_key "m" 9) (SetCompactPointer 0 (demo_key "m" 9) VersionEdit_Clear)).
Definition run_move : VersionEdit := AddFile 1 5 1000 (demo_key "a" 5) (demo_key "m" 9) (RemoveFile 0 5 VersionEdit_Clear).

Definition set_of (r : option (Status * VersionEdit * VersionSet StringDest * bytes)) (vs : VersionSet StringDest) : VersionSet StringDest :=
  match r with Some (_, _, vs, _) => vs | None => vs end.
Definition edit_of (r : option (Status * VersionEdit * VersionSet StringDest * bytes)) (e : VersionEdit) : VersionEdit :=
  match r with Some (_, e, _, _) => e | None => e end.

Definition run0 : option (VersionSet StringDest) := VersionSet_new (str "db") Options_default BytewiseComparator.
Definition run_set : VersionSet StringDest :=
  default (mkVersionSet [] Options_default BytewiseComparator 0 0 0 0 0 None [] None [] (mkStore ∅ 0) 0) run0.
Definition run1 : VersionSet StringDest := snd (NewFileNumber run_set).
Definition run2_result := LogAndApply 0 run1 run_add [].
Definition run2 : VersionSet StringDest := set_of run2_result run1.
Definition run3_result := LogAndApply 0 run2 run_move [].
Definition run3 : VersionSet StringDest := set_of run3_result run2.

Example run_files :
  current_files run2 = Some [[(5, 1000, demo_key "a" 5, demo_key "m" 9)]; [(6, 2000, demo_key "n" 4, demo_key "z" 3)]; []; []; []; []; []] /\
  current_files run3 = Some [[]; [(5, 1000, demo_key "a" 5, demo_key "m" 9); (6, 2000, demo_key "n" 4, demo_key "z" 3)]; []; []; []; []; []].
Proof. vm_compute. done. Qed.

Ltac compute_edit_ok :=
  split; [by vm_compute|by vm_compute|by vm_compute|by vm_compute|by vm_compute| | | |];
  repeat first [apply Forall_nil_2 | apply Forall_cons; split; [split_and!; by vm_compute|] | apply SSorted_nil | apply SSorted_cons].

Definition run_add_edit : VersionEdit := Eval vm_compute in edit_of run2_result run_add.
Definition run_move_edit : VersionEdit := Eval vm_compute in edit_of run3_result run_move.

Fixpoint all_before (l : list finfo) : bool :=
  match l with
  | [] => true
  | x :: l => forallb (fun y => ikey_Compare BytewiseComparator (ilarge x) (ismall y) <? 0) l && all_before l
  end.

Lemma run_disjoint (fs : list (list finfo)) : forallb all_before (tail fs) = true -> levels_disjoint BytewiseComparator fs.
Proof.
  intros H i l Hi Hl. destruct i as [|i]; [lia|]. destruct fs as [|f0 fs]; [done|]. cbn [tail] in H. change (fs !! i = Some l) in Hl.
  rewrite forallb_forall in H. specialize (H l ltac:(apply list_elem_of_In; by eapply list_elem_of_lookup_2)). clear Hl.
  induction l as [|x l IH]; [constructor|]. cbn [all_before] in H. apply andb_true_iff in H as [H1 H2]. constructor; [by apply IH|].
  apply Forall_forall. intros y Hy. rewrite forallb_forall in H1. apply Z.ltb_lt, H1. by apply list_elem_of_In.
Qed.

Lemma run_edits_ok : edit_ok run_add_edit /\ edit_ok run_move_edit.
Proof. split; compute_edit_ok. Qed.

Lemma run_add_valid : edit_valid BytewiseComparator run1 [] empty_levels run_add run_add_edit.
Proof.
  split.
  - vm_compute. reflexivity.
  - apply run_edits_ok.
  - done.
  - split.
    + apply edit_ok_fits, run_edits_ok.
    + intros i l Hl. do 7 (destruct i as [|i]; [injection Hl as <-; apply (bool_decide_unpack _); by vm_compute|]). done.
    + apply run_disjoint. vm_compute. reflexivity.
  - intros i Hi. do 7 (destruct i as [|i]; [apply (bool_decide_unpack _); by vm_compute|]). unfold kNumLevels in Hi. lia.
Qed.

Definition run2_files : list (list finfo) := edit_levels BytewiseComparator run_add_edit empty_levels.
Definition run2_history : list VersionEdit := next_history run1 [] run_add_edit.

Lemma run_move_valid : edit_valid BytewiseComparator run2 run2_history run2_files run_move run_move_edit.
Proof.
  split.
  - vm_compute. reflexivity.
  - apply run_edits_ok.
  - done.
  - split.
    + apply edit_ok_fits, run_edits_ok.
    + intros i l Hl. do 7 (destruct i as [|i]; [vm_compute in Hl; injection Hl as <-; apply (bool_decide_unpack _); by vm_compute|]). done.
    + apply run_disjoint. vm_compute. reflexivity.
  - intros i Hi. do 7 (destruct i as [|i]; [apply (bool_decide_unpack _); by vm_compute|]). unfold kNumLevels in Hi. lia.
Qed.

Lemma run2_reachable : reachable (W := bytes) (S := StringSource) BytewiseComparator 0 (str "db") Options_default (run2, run2_history, []).
Proof.
  exists run_set, []. split; [vm_compute; reflexivity|].
  eapply rtc_l; [exact (step_new_number _ _ _ _ _)|].
  eapply rtc_l; [|apply rtc_refl].
  apply (step_edit BytewiseComparator 0 run1 [] [] empty_levels run_add run_add_edit OK run2 []); [vm_compute; reflexivity|exact run_add_valid|vm_compute; reflexivity].
Qed.

Definition run3_history : list VersionEdit := next_history run2 run2_history run_move_edit.

Lemma run3_reachable : reachable (W := bytes) (S := StringSource) BytewiseComparator 0 (str "db") Options_default (run3, run3_history, []).
Proof.
  destruct run2_reachable as (vs0 & w0 & Hnew & Hrun). exists vs0, w0. split; [exact Hnew|]. eapply rtc_r; [exact Hrun|].
  apply (step_edit BytewiseComparator 0 run2 run2_history [] run2_files run_move run_move_edit OK run3 []);
    [vm_compute; reflexivity|exact run_move_valid|vm_compute; reflexivity].
Qed.

Definition run_bytes : bytes := match descriptor_log_ run3 with Some log => dest_contents (dest_ log) | None => [] end.

Lemma manifest_recovery_witness :
  exists s save vs' w2, Recover 0 (enough run_bytes) run_set run_bytes = Some (s, save, vs', w2) /\ ok s = true /\
    current_files vs' = current_files run3.
Proof.
  destruct (descriptor_log_ run3) as [log|] eqn:El; [|vm_compute in El; discriminate].
  assert (Eb : run_bytes = dest_contents (dest_ log)) by (unfold run_bytes; rewrite El; reflexivity). rewrite Eb.
  destruct (manifest_recovery (contents := dest_contents) (unread := source_unread) BytewiseComparator 0 ltac:(vm_compute; reflexivity) text_env_creates (str "db") Options_default run3 run3_history [] log
    run_set (str "db") Options_default (dest_contents (dest_ log)) (str "MANIFEST-000002") run3_reachable El) as (s & save & vs' & w2 & e & HR & Hs & Hf & _).
  - rewrite <- Eb. vm_compute. reflexivity.
  - vm_compute. reflexivity.
  - exists OK, OK, (dest_contents (dest_ log)), (dest_contents (dest_ log)), (mkSource (dest_contents (dest_ log))).
    split; [reflexivity|]. split; [reflexivity|]. split; [reflexivity|]. split; reflexivity.
  - exists s, save, vs', w2. split; [exact HR|]. split; [exact Hs|exact Hf].
Defined.

Lemma log_and_apply_witness :
  exists s vs' w', LogAndApply 0 run2 run_move [] = Some (s, run_move_edit, vs', w') /\ ok s = true /\
    current_files vs' = Some (edit_levels BytewiseComparator run_move_edit run2_files).
Proof.
  destruct (log_and_apply (contents := dest_contents) BytewiseComparator 0 ltac:(vm_compute; reflexivity) text_env_creates (str "db") Options_default run2 run2_history []
    run2_files 1%nat run_move run_move_edit run2_reachable) as (s & vs' & w' & HL & _ & Hs); [vm_compute; reflexivity|vm_compute; reflexivity|exact run_move_valid|].
  exists s, vs', w'. split; [exact HL|]. assert (Es : ok s = true).
  { assert (E : option_map (fun r => ok (fst (fst (fst r)))) (LogAndApply 0 run2 run_move []) = Some true) by (vm_compute; reflexivity).
    rewrite HL in E. cbn [option_map fst] in E. injection E as E. exact E. }
  rewrite Es in Hs. split; [exact Es|exact (proj1 Hs)].
Defined.

Lemma version_files_alive_witness :
  exists node p, node_at run3 2 = Some node /\ p ∈ concat (files_ (version node)) /\
    exists f, file_at (store_ run3) p = Some f /\ Z.of_nat (occurs (all_files run3) p) <= f_refs f /\ number f ∈ AddLiveFiles run3.
Proof.
  destruct (node_at run3 2) as [node|] eqn:En; [|vm_compute in En; discriminate].
  assert (Hp : exists p, p ∈ concat (files_ (version node))).
  { assert (E : option_map (fun n => negb (bool_decide (concat (files_ (version n)) = []))) (node_at run3 2) = Some true) by (vm_compute; reflexivity).
    rewrite En in E. cbn [option_map] in E. injection E as E. destruct (concat (files_ (version node))) as [|p l]; [vm_compute in E; discriminate|].
    exists p. apply elem_of_cons. left. reflexivity. }
  destruct Hp as [p Hp]. exists node, p. split; [reflexivity|]. split; [exact Hp|].
  exact (version_files_alive (contents := dest_contents) BytewiseComparator 0 ltac:(vm_compute; reflexivity) text_env_creates (str "db") Options_default run3 run3_history [] 2%nat node p run3_reachable En Hp).
Defined.
