(* ===== verification/Snapshot.v ===== *)
(** * Snapshots

    [SnapshotImpl] and [SnapshotList] of [db/snapshot.h]: a circular doubly-linked
    list with a dummy head, in a heap of nodes.  [None] is a failed assertion or a
    dangling pointer. *)

From S2P Require Import Prelude.

Record SnapshotImpl := mkSnapshot { prev_ : nat; next_ : nat; sequence_number_ : Z }.

(** The head is node 0; [sn_alloc] is the next address. *)
Record SnapshotList := mkSnapshots { sn_heap : gmap nat SnapshotImpl; sn_alloc : nat }.

Definition SnapshotList_make : SnapshotList := mkSnapshots {[0%nat := mkSnapshot 0 0 0]} 1.

Section SnapshotList.

Implicit Types l : SnapshotList.

Definition snapshot_at l (p : nat) : option SnapshotImpl := sn_heap l !! p.

Definition set_next l (p q : nat) : option SnapshotList :=
  n ← snapshot_at l p; Some (mkSnapshots (<[p := mkSnapshot (prev_ n) q (sequence_number_ n)]> (sn_heap l)) (sn_alloc l)).
Definition set_prev l (p q : nat) : option SnapshotList :=
  n ← snapshot_at l p; Some (mkSnapshots (<[p := mkSnapshot q (next_ n) (sequence_number_ n)]> (sn_heap l)) (sn_alloc l)).

Definition Snapshots_empty l : option bool := h ← snapshot_at l 0; Some (next_ h =? 0)%nat.

Definition oldest l : option nat :=
  e ← Snapshots_empty l; if e : bool then None else h ← snapshot_at l 0; Some (next_ h).

Definition newest l : option nat :=
  e ← Snapshots_empty l; if e : bool then None else h ← snapshot_at l 0; Some (prev_ h).

Definition Snapshots_New l (sequence_number : Z) : option (nat * SnapshotList) :=
  e ← Snapshots_empty l;
  fits ← (if e : bool then Some true
          else p ← newest l; n ← snapshot_at l p; Some (sequence_number_ n <=? sequence_number));
  if negb fits then None
  else
    h ← snapshot_at l 0;
    let snapshot := sn_alloc l in
    let l := mkSnapshots (<[snapshot := mkSnapshot (prev_ h) 0 sequence_number]> (sn_heap l)) (S snapshot) in
    l ← set_next l (prev_ h) snapshot;
    l ← set_prev l 0 snapshot;
    Some (snapshot, l).

(** The assertion is that the node was made by [New]: the head's [list_] is null. *)
Definition Snapshots_Delete l (snapshot : nat) : option SnapshotList :=
  if (snapshot =? 0)%nat then None else
  n ← snapshot_at l snapshot;
  l ← set_next l (prev_ n) (next_ n);
  l ← set_prev l (next_ n) (prev_ n);
  Some (mkSnapshots (delete snapshot (sn_heap l)) (sn_alloc l)).

(** ** The list a heap represents *)

Definition nx l (p : nat) : option nat := next_ <$> snapshot_at l p.
Definition pv l (p : nat) : option nat := prev_ <$> snapshot_at l p.
Definition link l (a b : nat) : Prop := nx l a = Some b /\ pv l b = Some a.

(** From [a] through [ids] to [b]. *)
Fixpoint segment l (a : nat) (ids : list nat) (b : nat) : Prop :=
  match ids with
  | [] => link l a b
  | q :: ids => link l a q /\ segment l q ids b
  end.

Definition seq_of l (p : nat) : option Z := sequence_number_ <$> snapshot_at l p.

(** The snapshots in the list, oldest first, with their sequence numbers. *)
Record snapshots_ok l (ss : list (nat * Z)) : Prop := {
  sn_linked : segment l 0 (map fst ss) 0;
  sn_nodup : NoDup (map fst ss);
  sn_range : Forall (fun x => (0 < fst x < sn_alloc l)%nat /\ seq_of l (fst x) = Some (snd x)) ss;
  sn_order : StronglySorted (fun x y => snd x <= snd y) ss;
  sn_pos : (0 < sn_alloc l)%nat
}.

Lemma segment_app l xs : forall a y ys b, segment l a (xs ++ y :: ys) b <-> segment l a xs y /\ segment l y ys b.
Proof. induction xs as [|x xs IH]; intros a y ys b; cbn [app segment]; [done|]. rewrite IH. tauto. Qed.

(** A segment only depends on the links it follows. *)
Lemma segment_frame l l' ids : forall a b,
  (forall x, x ∈ a :: ids -> nx l' x = nx l x) -> (forall x, x ∈ b :: ids -> pv l' x = pv l x) ->
  segment l a ids b -> segment l' a ids b.
Proof.
  induction ids as [|q ids IH]; intros a b Hn Hp; cbn [segment].
  - intros [H1 H2]. split; [rewrite Hn; [done|by apply elem_of_cons; left]|rewrite Hp; [done|by apply elem_of_cons; left]].
  - intros [[H1 H2] Hs]. split.
    + split; [rewrite Hn; [done|set_solver]|rewrite Hp; [done|set_solver]].
    + apply IH; [| |done]; intros x Hx; [apply Hn|apply Hp]; set_solver.
Qed.

Lemma snapshot_at_set_next l p q l' x :
  set_next l p q = Some l' ->
  nx l' x = (if decide (x = p) then Some q else nx l x) /\ pv l' x = pv l x /\ seq_of l' x = seq_of l x /\ sn_alloc l' = sn_alloc l.
Proof.
  unfold set_next, nx, pv, seq_of. destruct (snapshot_at l p) as [n|] eqn:E; [|done]. cbn [mbind option_bind]. intros [= <-].
  unfold snapshot_at in *. cbn [sn_heap sn_alloc]. destruct (decide (x = p)) as [->|Hne].
  - rewrite lookup_insert_eq, E. done.
  - by rewrite lookup_insert_ne by done.
Qed.

Lemma snapshot_at_set_prev l p q l' x :
  set_prev l p q = Some l' ->
  pv l' x = (if decide (x = p) then Some q else pv l x) /\ nx l' x = nx l x /\ seq_of l' x = seq_of l x /\ sn_alloc l' = sn_alloc l.
Proof.
  unfold set_prev, nx, pv, seq_of. destruct (snapshot_at l p) as [n|] eqn:E; [|done]. cbn [mbind option_bind]. intros [= <-].
  unfold snapshot_at in *. cbn [sn_heap sn_alloc]. destruct (decide (x = p)) as [->|Hne].
  - rewrite lookup_insert_eq, E. done.
  - by rewrite lookup_insert_ne by done.
Qed.

Lemma set_next_some l p q : is_Some (nx l p) -> exists l', set_next l p q = Some l'.
Proof. unfold set_next, nx. destruct (snapshot_at l p); [by eexists|]. intros H. by apply is_Some_None in H. Qed.

Lemma set_prev_some l p q : is_Some (pv l p) -> exists l', set_prev l p q = Some l'.
Proof. unfold set_prev, pv. destruct (snapshot_at l p); [by eexists|]. intros H. by apply is_Some_None in H. Qed.

Lemma snapshots_make_ok : snapshots_ok SnapshotList_make [].
Proof. split; cbn; try constructor; try done; lia. Qed.

Lemma segment_first l ids : forall a b, segment l a ids b -> nx l a = Some (default b (head ids)).
Proof. destruct ids as [|q ids]; intros a b; cbn [segment]; [by intros []|]. by intros [[] _]. Qed.

Lemma segment_last l ids : forall a b, segment l a ids b -> pv l b = Some (default a (last ids)).
Proof.
  induction ids as [|q ids IH]; intros a b; cbn [segment]; [by intros []|]. intros [_ Hs]. rewrite (IH q b Hs), last_cons.
  by destruct (last ids).
Qed.

(** [oldest] and [newest] are the ends of the list. *)
Lemma Snapshots_empty_ok l ss : snapshots_ok l ss -> Snapshots_empty l = Some (bool_decide (ss = [])).
Proof.
  intros [H1 _ H3 _ _]. pose proof (segment_first _ _ _ _ H1) as Hn. unfold Snapshots_empty, nx in *.
  destruct (snapshot_at l 0) as [h|]; [|done]. cbn in Hn |- *. injection Hn as ->. destruct ss as [|[p q] ss]; [done|]. cbn.
  apply Forall_cons in H3 as [[Hp _] _]. cbn in Hp. destruct p; [lia|done].
Qed.

Lemma oldest_ok l p q ss : snapshots_ok l ((p, q) :: ss) -> oldest l = Some p /\ seq_of l p = Some q.
Proof.
  intros Hok. pose proof (Snapshots_empty_ok _ _ Hok) as He. destruct Hok as [H1 _ H3 _ _]. apply Forall_cons in H3 as [[_ Hq] _].
  unfold oldest. rewrite He. cbn [mbind option_bind]. rewrite bool_decide_false by done. pose proof (segment_first _ _ _ _ H1) as Hn. unfold nx in Hn.
  destruct (snapshot_at l 0) as [h|]; [|done]. cbn in Hn |- *. injection Hn as ->. done.
Qed.

Lemma newest_ok l ss p q : snapshots_ok l (ss ++ [(p, q)]) -> newest l = Some p /\ seq_of l p = Some q.
Proof.
  intros Hok. pose proof (Snapshots_empty_ok _ _ Hok) as He. destruct Hok as [H1 _ H3 _ _]. apply Forall_app in H3 as [_ H3].
  apply Forall_cons in H3 as [[_ Hq] _]. unfold newest. rewrite He. cbn [mbind option_bind]. rewrite bool_decide_false by (by destruct ss).
  pose proof (segment_last _ _ _ _ H1) as Hn. rewrite map_app in Hn. cbn [map fst] in Hn. rewrite last_snoc in Hn. unfold pv in Hn.
  destruct (snapshot_at l 0) as [h|]; [|done]. cbn in Hn |- *. injection Hn as ->. done.
Qed.

(** ** [New] and [Delete] *)

Lemma link_in_heap l ids : forall a b x, segment l a ids b -> x ∈ a :: ids -> is_Some (nx l x).
Proof.
  induction ids as [|q ids IH]; intros a b x; cbn [segment].
  - intros [H1 _] Hx. apply list_elem_of_singleton in Hx as ->. by rewrite H1.
  - intros [[H1 _] Hs] Hx. apply elem_of_cons in Hx as [->|Hx]; [by rewrite H1|]. by eapply IH.
Qed.

Lemma link_back l ids : forall a b x, segment l a ids b -> x ∈ b :: ids -> is_Some (pv l x).
Proof.
  induction ids as [|q ids IH]; intros a b x; cbn [segment].
  - intros [_ H1] Hx. apply list_elem_of_singleton in Hx as ->. by rewrite H1.
  - intros [[_ H1] Hs] Hx. destruct (decide (x = q)) as [->|Hne]; [by rewrite H1|]. eapply IH; [exact Hs|]. set_solver.
Qed.

Lemma segment_retarget l l' ids : forall a b b',
  segment l a ids b -> NoDup (a :: ids) ->
  (forall x, x ∈ a :: ids -> nx l' x = if decide (x = default a (last ids)) then Some b' else nx l x) ->
  (forall x, x ∈ ids -> pv l' x = pv l x) -> pv l' b' = Some (default a (last ids)) -> segment l' a ids b'.
Proof.
  induction ids as [|q ids IH]; intros a b b' Hs Hnd Hn Hp Hb; cbn [segment] in *.
  - split; [|done]. rewrite Hn by set_solver. cbn. by rewrite decide_True.
  - destruct Hs as [[H1 H2] Hs]. apply NoDup_cons in Hnd as [Ha Hnd]. rewrite last_cons in Hn, Hb.
    assert (Hl : default a (match last ids with Some y => Some y | None => Some q end) = default q (last ids)) by (by destruct (last ids)).
    rewrite Hl in Hn, Hb.
    assert (Hql : default q (last ids) ∈ q :: ids).
    { destruct (last ids) as [y|] eqn:E; cbn; [|set_solver]. apply last_Some in E as [l0 ->]. set_solver. }
    split.
    + split; [|rewrite Hp; [done|set_solver]]. rewrite Hn by set_solver. rewrite decide_False; [done|]. intros E. apply Ha. by rewrite E.
    + eapply IH; [exact Hs|done| | |done]; intros x Hx; [apply Hn|apply Hp]; set_solver.
Qed.

Lemma Snapshots_New_ok l ss q :
  snapshots_ok l ss -> (forall x, x ∈ ss -> snd x <= q) ->
  exists p l', Snapshots_New l q = Some (p, l') /\ p ∉ map fst ss /\ snapshots_ok l' (ss ++ [(p, q)]).
Proof.
  intros Hok Hq. pose proof (Snapshots_empty_ok _ _ Hok) as He. pose proof Hok as [H1 H2 H3 H4 H5].
  assert (Hz : 0%nat ∉ map fst ss).
  { intros Hi. apply list_elem_of_In, in_map_iff in Hi as (x & Hx & Hi). rewrite Forall_forall in H3.
    destruct (H3 x) as [Hr _]; [by apply list_elem_of_In|]. rewrite Hx in Hr. lia. }
  assert (Hal : sn_alloc l ∉ map fst ss).
  { intros Hi. apply list_elem_of_In, in_map_iff in Hi as (x & Hx & Hi). rewrite Forall_forall in H3.
    destruct (H3 x) as [Hr _]; [by apply list_elem_of_In|]. rewrite Hx in Hr. lia. }
  unfold Snapshots_New. rewrite He. cbn [mbind option_bind].
  assert (Hfits : (if bool_decide (ss = []) then Some true
          else p ← newest l; n ← snapshot_at l p; Some (sequence_number_ n <=? q)) = Some true).
  { destruct (bool_decide_reflect (ss = [])) as [|Hne]; [done|]. destruct (last ss) as [[p s]|] eqn:El; [|by apply last_None in El].
    apply last_Some in El as [ss' ->]. destruct (newest_ok _ _ _ _ Hok) as [-> Hs]. cbn [mbind option_bind]. unfold seq_of in Hs.
    destruct (snapshot_at l p) as [n|]; [|done]. cbn in Hs |- *. injection Hs as ->. f_equal. apply Z.leb_le. apply (Hq (p, s)). set_solver. }
  rewrite Hfits. cbn [mbind option_bind negb]. pose proof (segment_last _ _ _ _ H1) as Hp0. unfold pv in Hp0 at 1.
  destruct (snapshot_at l 0) as [h|] eqn:E0; [|done]. cbn [fmap option_fmap option_map] in Hp0. injection Hp0 as Hph. cbn [mbind option_bind].
  set (t := default 0%nat (last (map fst ss))) in *. rewrite Hph. set (a := sn_alloc l) in *.
  set (l1 := mkSnapshots _ (S a)).
  assert (Ht : t ∈ 0%nat :: map fst ss).
  { unfold t. destruct (last (map fst ss)) as [y|] eqn:E; cbn; [|set_solver]. apply last_Some in E as [l0 E]. rewrite E. set_solver. }
  assert (A1 : forall x, snapshot_at l1 x = if decide (x = a) then Some (mkSnapshot t 0 q) else snapshot_at l x).
  { intros x. unfold l1, snapshot_at. cbn [sn_heap]. destruct (decide (x = a)) as [->|]; [apply lookup_insert_eq|by apply lookup_insert_ne]. }
  assert (Hta : t <> a) by (intros ->; apply elem_of_cons in Ht as [Ht|Ht]; [lia|done]).
  destruct (set_next_some l1 t a) as [l2 E2].
  { unfold nx. rewrite A1, decide_False by done. exact (link_in_heap l _ _ _ t H1 Ht). }
  rewrite E2. cbn [mbind option_bind].
  assert (P2 : forall x, pv l2 x = pv l1 x) by (intros x; apply (snapshot_at_set_next _ _ _ _ x E2)).
  destruct (set_prev_some l2 0 a) as [l3 E3].
  { rewrite P2. unfold pv. rewrite A1, decide_False by lia. rewrite E0. by eexists. }
  rewrite E3. cbn [mbind option_bind].
  assert (N3 : forall x, nx l3 x = if decide (x = t) then Some a else if decide (x = a) then Some 0%nat else nx l x).
  { intros x. destruct (snapshot_at_set_prev _ _ _ _ x E3) as (_ & -> & _). destruct (snapshot_at_set_next _ _ _ _ x E2) as (-> & _).
    destruct (decide (x = t)); [done|]. unfold nx. rewrite A1. by destruct (decide (x = a)). }
  assert (P3 : forall x, pv l3 x = if decide (x = 0%nat) then Some a else if decide (x = a) then Some t else pv l x).
  { intros x. destruct (snapshot_at_set_prev _ _ _ _ x E3) as (-> & _). rewrite P2. destruct (decide (x = 0%nat)); [done|].
    unfold pv. rewrite A1. by destruct (decide (x = a)). }
  assert (S3 : forall x, seq_of l3 x = if decide (x = a) then Some q else seq_of l x).
  { intros x. destruct (snapshot_at_set_prev _ _ _ _ x E3) as (_ & _ & -> & _). destruct (snapshot_at_set_next _ _ _ _ x E2) as (_ & _ & -> & _).
    unfold seq_of. rewrite A1. by destruct (decide (x = a)). }
  assert (Al : sn_alloc l3 = S a).
  { destruct (snapshot_at_set_prev _ _ _ _ 0%nat E3) as (_ & _ & _ & ->). by destruct (snapshot_at_set_next _ _ _ _ 0%nat E2) as (_ & _ & _ & ->). }
  exists a, l3. split; [done|]. split; [done|]. split.
  - rewrite map_app. cbn [map fst]. apply segment_app. split.
    + eapply segment_retarget; [exact H1|by apply NoDup_cons| | |].
      * intros x Hx. fold t. rewrite N3. destruct (decide (x = t)); [done|]. rewrite decide_False; [done|]. intros ->.
        apply elem_of_cons in Hx as [Hx|Hx]; [lia|done].
      * intros x Hx. rewrite P3, !decide_False; [done| |]; intros ->; done.
      * rewrite P3, decide_False, decide_True by (done || lia). done.
    + split; [rewrite N3, decide_False, decide_True by done; done|by rewrite P3, decide_True].
  - rewrite map_app. cbn [map fst]. apply NoDup_app. split; [done|]. split; [set_solver|]. apply NoDup_singleton.
  - rewrite Forall_app, Al. split.
    + rewrite Forall_forall in *. intros x Hx. destruct (H3 x Hx) as [R1 R2]. split; [lia|]. rewrite S3, decide_False; [done|]. lia.
    + constructor; [|done]. cbn [fst snd]. split; [lia|]. by rewrite S3, decide_True.
  - apply StronglySorted_app_2; [|done|repeat constructor]. intros x y Hx Hy. apply list_elem_of_singleton in Hy as ->. by apply Hq.
  - rewrite Al. lia.
Qed.

Lemma Snapshots_Delete_ok l s1 p q s2 :
  snapshots_ok l (s1 ++ (p, q) :: s2) -> exists l', Snapshots_Delete l p = Some l' /\ snapshots_ok l' (s1 ++ s2).
Proof.
  intros [H1 H2 H3 H4 H5]. rewrite map_app in H1, H2. cbn [map fst] in H1, H2. apply segment_app in H1 as [Ha Hb].
  set (a := default 0%nat (last (map fst s1))). set (b := default 0%nat (head (map fst s2))).
  pose proof (segment_last _ _ _ _ Ha) as Hpv. pose proof (segment_first _ _ _ _ Hb) as Hnx. fold a in Hpv. fold b in Hnx.
  assert (Hz : 0%nat ∉ map fst s1 ++ p :: map fst s2).
  { intros Hi. change (p :: map fst s2) with (map fst ((p, q) :: s2)) in Hi. rewrite <- map_app in Hi.
    apply list_elem_of_In, in_map_iff in Hi as (x & Hx & Hi). rewrite Forall_forall in H3.
    destruct (H3 x) as [Hr _]; [by apply list_elem_of_In|]. rewrite Hx in Hr. lia. }
  assert (Haa : a ∈ 0%nat :: map fst s1).
  { unfold a. destruct (last (map fst s1)) as [y|] eqn:E; cbn; [|set_solver]. apply last_Some in E as [l0 E]. rewrite E. set_solver. }
  assert (Hbb : b ∈ 0%nat :: map fst s2) by (unfold b; destruct (map fst s2); set_solver).
  pose proof H2 as H2'. apply NoDup_app in H2 as (N1 & N2 & N3). apply NoDup_cons in N3 as [N3 N4].
  rewrite elem_of_app, elem_of_cons in Hz.
  assert (Z1 : 0%nat ∉ map fst s1) by tauto. assert (Z2 : 0%nat <> p) by tauto. assert (Z3 : 0%nat ∉ map fst s2) by tauto. clear Hz.
  assert (Np : p ∉ map fst s1) by (intros Hi; apply (N2 p Hi); by apply elem_of_cons; left).
  assert (D : forall x, x ∈ map fst s1 -> x ∉ map fst s2) by (intros x Hi Hj; apply (N2 x Hi); by apply elem_of_cons; right).
  clear N2. rewrite elem_of_cons in Haa, Hbb.
  assert (Hap : a <> p) by (intros E; rewrite E in Haa; destruct Haa; [congruence|done]).
  assert (Hbp : b <> p) by (intros E; rewrite E in Hbb; destruct Hbb; [congruence|done]).
  unfold Snapshots_Delete, nx, pv in *. replace (p =? 0)%nat with false by (symmetry; apply Nat.eqb_neq; lia).
  destruct (snapshot_at l p) as [n|] eqn:Ep; [|done]. cbn [fmap option_fmap option_map mbind option_bind] in *.
  injection Hpv as ->. injection Hnx as ->.
  destruct (set_next_some l a b) as [l2 E2]; [apply (link_in_heap l _ _ _ a Ha); by apply elem_of_cons|]. rewrite E2. cbn [mbind option_bind].
  destruct (set_prev_some l2 b a) as [l3 E3].
  { destruct (snapshot_at_set_next _ _ _ _ b E2) as (_ & -> & _). apply (link_back l _ _ _ b Hb). by apply elem_of_cons. }
  rewrite E3. cbn [mbind option_bind]. set (l4 := mkSnapshots (delete p (sn_heap l3)) (sn_alloc l3)).
  assert (A4 : forall x, x <> p -> snapshot_at l4 x = snapshot_at l3 x) by (intros x Hx; unfold l4, snapshot_at; cbn; by apply lookup_delete_ne).
  assert (X4 : forall x, x <> p -> nx l4 x = if decide (x = a) then Some b else nx l x).
  { intros x Hx. unfold nx at 1. rewrite A4 by done. fold (nx l3 x). destruct (snapshot_at_set_prev _ _ _ _ x E3) as (_ & -> & _).
    by destruct (snapshot_at_set_next _ _ _ _ x E2) as (-> & _). }
  assert (P4 : forall x, x <> p -> pv l4 x = if decide (x = b) then Some a else pv l x).
  { intros x Hx. unfold pv at 1. rewrite A4 by done. fold (pv l3 x). destruct (snapshot_at_set_prev _ _ _ _ x E3) as (-> & _).
    by destruct (snapshot_at_set_next _ _ _ _ x E2) as (_ & -> & _). }
  assert (S4 : forall x, x <> p -> seq_of l4 x = seq_of l x).
  { intros x Hx. unfold seq_of at 1. rewrite A4 by done. fold (seq_of l3 x). destruct (snapshot_at_set_prev _ _ _ _ x E3) as (_ & _ & -> & _).
    by destruct (snapshot_at_set_next _ _ _ _ x E2) as (_ & _ & -> & _). }
  assert (Al : sn_alloc l4 = sn_alloc l).
  { change (sn_alloc l3 = sn_alloc l). destruct (snapshot_at_set_prev _ _ _ _ 0%nat E3) as (_ & _ & _ & ->).
    by destruct (snapshot_at_set_next _ _ _ _ 0%nat E2) as (_ & _ & _ & ->). }
  exists l4. split; [done|].
  assert (Hfirst : segment l4 0 (map fst s1) b).
  { eapply segment_retarget; [exact Ha| | | |]; [by apply NoDup_cons| | |].
    - intros x Hx. fold a. apply X4. intros ->. apply elem_of_cons in Hx as [?|?]; congruence.
    - intros x Hx. rewrite P4 by congruence. rewrite decide_False; [done|]. intros ->. destruct Hbb as [E|E]; [congruence|by apply (D b)].
    - rewrite P4 by done. by rewrite decide_True. }
  split.
  - rewrite map_app. destruct s2 as [|[y z] s2]; cbn [map fst] in *; [by rewrite app_nil_r|]. apply segment_app. split; [exact Hfirst|].
    destruct Hb as [_ Hb]. eapply segment_frame; [| |exact Hb]; intros x Hx.
    + rewrite X4 by congruence. rewrite decide_False; [done|]. intros ->. destruct Haa as [E|E]; [congruence|by apply (D a)].
    + apply NoDup_cons in N4 as [N4 _]. rewrite elem_of_cons in Hx. rewrite P4.
      * rewrite decide_False; [done|]. change b with y. intros ->. destruct Hx as [E|E]; [|done]. apply Z3. rewrite E. by apply elem_of_cons; left.
      * intros ->. destruct Hx as [E|E]; [congruence|]. apply N3. by apply elem_of_cons; right.
  - rewrite map_app. by apply NoDup_app.
  - rewrite Al. apply Forall_app in H3 as [F1 F2]. apply Forall_cons in F2 as [_ F2]. apply Forall_app.
    split; rewrite Forall_forall in *; intros x Hx; (destruct (F1 x Hx) as [R1 R2] || destruct (F2 x Hx) as [R1 R2]); (split; [done|]);
      rewrite S4; [done| |done|]; intros Hxp.
    + apply Np. rewrite <- Hxp. apply list_elem_of_In, in_map. by apply list_elem_of_In.
    + apply N3. rewrite <- Hxp. apply list_elem_of_In, in_map. by apply list_elem_of_In.
  - apply StronglySorted_app in H4 as (C1 & C2 & C3). apply StronglySorted_inv in C3 as [C3 _].
    apply StronglySorted_app_2; [|done|done]. intros x y Hx Hy. apply C1; [done|]. by apply elem_of_cons; right.
  - rewrite Al. exact H5.
Qed.

(** Addresses: [New] takes the next one, [Delete] none. *)
Lemma Snapshots_New_alloc l q p l' : Snapshots_New l q = Some (p, l') -> p = sn_alloc l /\ sn_alloc l' = S (sn_alloc l).
Proof.
  unfold Snapshots_New. destruct (Snapshots_empty l) as [e|]; [|done]. cbn [mbind option_bind].
  destruct (if e then _ else _) as [[]|]; [|done..]. cbn [mbind option_bind negb].
  destruct (snapshot_at l 0) as [h|]; [|done]. cbn [mbind option_bind]. destruct (set_next _ _ _) as [l2|] eqn:E2; [|done].
  cbn [mbind option_bind]. destruct (set_prev _ _ _) as [l3|] eqn:E3; [|done]. intros [= <- <-].
  destruct (snapshot_at_set_prev _ _ _ _ 0%nat E3) as (_ & _ & _ & ->).
  by destruct (snapshot_at_set_next _ _ _ _ 0%nat E2) as (_ & _ & _ & ->).
Qed.

Lemma Snapshots_Delete_alloc l p l' : Snapshots_Delete l p = Some l' -> sn_alloc l' = sn_alloc l.
Proof.
  unfold Snapshots_Delete. destruct (p =? 0)%nat; [done|]. destruct (snapshot_at l p) as [n|]; [|done]. cbn [mbind option_bind].
  destruct (set_next _ _ _) as [l2|] eqn:E2; [|done].
  cbn [mbind option_bind]. destruct (set_prev _ _ _) as [l3|] eqn:E3; [|done]. intros [= <-]. cbn [sn_alloc].
  destruct (snapshot_at_set_prev _ _ _ _ 0%nat E3) as (_ & _ & _ & ->).
  by destruct (snapshot_at_set_next _ _ _ _ 0%nat E2) as (_ & _ & _ & ->).
Qed.

(** ** Every history of a list *)

Inductive SnapshotOp := STake (sequence : Z) | SRelease (snapshot : nat).

Definition snapshot_op l (op : SnapshotOp) : option SnapshotList :=
  match op with
  | STake q => snd <$> Snapshots_New l q
  | SRelease p => Snapshots_Delete l p
  end.

Fixpoint snapshot_ops l (ops : list SnapshotOp) : option SnapshotList :=
  match ops with [] => Some l | op :: ops => l ← snapshot_op l op; snapshot_ops l ops end.

(** The snapshots a client holds: it takes them at sequence numbers that do not go
    down, and releases one it holds.  The state is the next address and the held ones. *)
Inductive held_by : list SnapshotOp -> nat -> list (nat * Z) -> Prop :=
  | held_none : held_by [] 1 []
  | held_take ops n ss q : held_by ops n ss -> (forall x, x ∈ ss -> snd x <= q) -> held_by (ops ++ [STake q]) (S n) (ss ++ [(n, q)])
  | held_release ops n s1 p q s2 : held_by ops n (s1 ++ (p, q) :: s2) -> held_by (ops ++ [SRelease p]) n (s1 ++ s2).

Lemma snapshot_ops_snoc ops op : forall l, snapshot_ops l (ops ++ [op]) = l' ← snapshot_ops l ops; snapshot_op l' op.
Proof.
  induction ops as [|o ops IH]; intros l; cbn [app snapshot_ops mbind option_bind]; [by destruct (snapshot_op l op)|].
  destruct (snapshot_op l o) as [l'|]; [exact (IH l')|done].
Qed.

Lemma held_by_ok ops n ss :
  held_by ops n ss -> exists l, snapshot_ops SnapshotList_make ops = Some l /\ sn_alloc l = n /\ snapshots_ok l ss.
Proof.
  induction 1 as [|ops n ss q _ (l & E & <- & Hok) Hq|ops n s1 p q s2 _ (l & E & <- & Hok)].
  - by exists SnapshotList_make; split; [|split; [|apply snapshots_make_ok]].
  - destruct (Snapshots_New_ok l ss q Hok Hq) as (p & l' & E' & _ & Hok'). destruct (Snapshots_New_alloc _ _ _ _ E') as [-> Ha].
    exists l'. rewrite snapshot_ops_snoc, E. cbn [mbind option_bind snapshot_op]. by rewrite E'.
  - destruct (Snapshots_Delete_ok l s1 p q s2 Hok) as (l' & E' & Hok'). exists l'. rewrite snapshot_ops_snoc, E.
    cbn [mbind option_bind snapshot_op]. split; [done|]. split; [exact (Snapshots_Delete_alloc _ _ _ E')|done].
Qed.

(** C38: after any history of taking snapshots at non-decreasing sequence numbers and
    releasing held ones, no assertion has failed and no dangling node was followed:
    the nodes form the circular doubly-linked list, in both directions, of exactly
    the held snapshots, in order of their sequence numbers; [empty] tells whether one
    is held and [oldest] is the held snapshot with the least sequence number. *)
Theorem snapshot_list_type ops n ss :
  held_by ops n ss ->
  exists l, snapshot_ops SnapshotList_make ops = Some l /\ snapshots_ok l ss /\ Snapshots_empty l = Some (bool_decide (ss = [])) /\
    (ss <> [] -> exists p q, oldest l = Some p /\ seq_of l p = Some q /\ (p, q) ∈ ss /\ forall x, x ∈ ss -> q <= snd x).
Proof.
  intros H. destruct (held_by_ok _ _ _ H) as (l & E & _ & Hok). exists l. split; [done|]. split; [done|].
  split; [exact (Snapshots_empty_ok _ _ Hok)|]. destruct ss as [|[p q] ss]; [done|]. intros _. exists p, q.
  destruct (oldest_ok _ _ _ _ Hok) as [H1 H2]. split; [done|]. split; [done|]. split; [by apply elem_of_cons; left|].
  intros x Hx. apply elem_of_cons in Hx as [->|Hx]; [done|]. pose proof (sn_order _ _ Hok) as Ho.
  apply StronglySorted_inv in Ho as [_ Ho]. rewrite Forall_forall in Ho. exact (Ho x Hx).
Qed.

(** Two snapshots taken, the older one released. *)
Lemma snapshot_list_type_witness :
  exists l, snapshot_ops SnapshotList_make [STake 5; STake 9; SRelease 1] = Some l /\ snapshots_ok l [(2%nat, 9)] /\ oldest l = Some 2%nat.
Proof.
  destruct (snapshot_list_type [STake 5; STake 9; SRelease 1] 3 [(2%nat, 9)]) as (l & E & Hok & _ & Ho).
  - apply (held_release [STake 5; STake 9] 3 [] 1 5 [(2%nat, 9)]). apply (held_take [STake 5] 2 [(1%nat, 5)] 9).
    + apply (held_take [] 1 [] 5); [constructor|]. intros x Hx. by apply elem_of_nil in Hx.
    + intros x Hx. apply list_elem_of_singleton in Hx as ->. cbn. lia.
  - exists l. split; [exact E|]. split; [exact Hok|]. destruct Ho as (p & q & H1 & _ & H2 & _); [done|].
    apply list_elem_of_singleton in H2 as [= -> ->]. exact H1.
Defined.

End SnapshotList.
