(* ===== verification/TableFromIter.v ===== *)
(** * Tables from iterators

    [BuildTable] of [db/builder.cc], which writes the contents of an iterator to a
    table file, and [MemTableIterator] of [db/memtable.cc] as an instance of the
    iterator interface.  Whether the finished file can be opened again is the table
    cache's answer, an argument here. *)

From S2P Require Import Prelude Slice Coding Crc32c Status Env Logging LogFormat LogReader Comparator Bloom DbFormat Random Arena SkipList MemTable VersionEdit Filename FilterBlock Format Iterator Options BlockBuilder Block TableBuilder Table TableFile TableBuild TableSpec TwoLevel Version Compaction VersionSet.

(** ** [MemTableIterator] *)

Record MemTableIterator := mkMemIter { mi_table : MemTable; mi_node : option nat }.

Definition mem_NewIterator (m : MemTable) : MemTableIterator := mkMemIter m None.

Section MemTableIterator.

Context (c : Comparator).

Definition mi_move (it : MemTableIterator) (n : option (option nat)) : option MemTableIterator :=
  n ← n; Some (mkMemIter (mi_table it) n).

Definition MemTable_iterator : Iterator MemTableIterator := {|
  it_Valid it := Iterator_Valid (mi_node it);
  it_key it := default [] (MemIter_key (mi_table it) (mi_node it));
  it_value it := default [] (MemIter_value (mi_table it) (mi_node it));
  it_status it := OK;
  it_SeekToFirst it := mi_move it (Some (MemIter_SeekToFirst (mi_table it)));
  it_SeekToLast it := mi_move it (MemIter_SeekToLast (mi_table it));
  it_Seek it k := mi_move it (MemIter_Seek c (mi_table it) k);
  it_Next it := mi_move it (MemIter_Next (mi_table it) (mi_node it));
  it_Prev it := mi_move it (MemIter_Prev c (mi_table it) (mi_node it))
|}.

End MemTableIterator.

(** ** Scanning forward

    The part of the iterator contract [BuildTable] relies on. *)

Class ScansOver {I} `{Iterator I} (l : list entry) (pos : I -> option nat -> Prop) : Prop := {
  scan_valid it p : pos it p -> it_Valid it = bool_decide (is_Some p);
  scan_entry it i : pos it (Some i) -> l !! i = Some (it_key it, it_value it);
  scan_status it p : pos it p -> ok (it_status it) = true;
  scan_first it p : pos it p -> exists it', it_SeekToFirst it = Some it' /\ pos it' (clip l 0);
  scan_next it i : pos it (Some i) -> exists it', it_Next it = Some it' /\ pos it' (clip l (S i))
}.

#[export] Instance IteratesOver_scans {I} `{Iterator I} T cmp l pos (HI : IteratesWithin T cmp l pos) : ScansOver l pos.
Proof.
  split; [apply iter_valid|apply iter_entry|apply iter_status|apply iter_first|apply iter_next].
Qed.

(** A memtable's iterator goes through its entries in the order of their internal
    keys. *)
Section MemTableScan.

Context (c : Comparator) {L : ComparatorLaws c} (m : MemTable) (es : list Entry) (Hm : holds c m es).

Definition mem_entry (e : Entry) : entry := (ikey e, e_value e).

Definition mem_pos (it : MemTableIterator) (p : option nat) : Prop :=
  mi_table it = m /\ exists ids, skip_ok (KeyComparator c) [] (table_ m) ids /\
    keys_of [] (nodes (table_ m)) ids = map encode es /\ mi_node it = (p ≫= (ids !!.)) /\ (forall i, p = Some i -> (i < length es)%nat).

Lemma mem_pos_make : mem_pos (mem_NewIterator m) None.
Proof. destruct Hm as (_ & ids & Hok & Hk). split; [done|]. exists ids. done. Qed.

Lemma mem_ids_length ids : keys_of [] (nodes (table_ m)) ids = map encode es -> length ids = length es.
Proof. intros H. apply (f_equal length) in H. unfold keys_of in H. by rewrite !length_map in H. Qed.

Lemma mem_pos_clip ids i :
  skip_ok (KeyComparator c) [] (table_ m) ids -> keys_of [] (nodes (table_ m)) ids = map encode es ->
  mem_pos (mkMemIter m (ids !! i)) (clip (map mem_entry es) i).
Proof.
  intros Hok Hk. split; [done|]. exists ids. split_and!; [done|done| |]; unfold clip; rewrite length_map; case_decide; try done.
  - cbn [mi_node mbind option_bind]. apply lookup_ge_None. rewrite (mem_ids_length ids) by done. lia.
  - by intros j [= <-].
Qed.

Lemma mem_pos_entry it i ids :
  mi_table it = m -> keys_of [] (nodes (table_ m)) ids = map encode es -> mi_node it = ids !! i -> (i < length es)%nat ->
  exists x e, ids !! i = Some x /\ es !! i = Some e /\ mi_node it = Some x /\
    it_key (Iterator := MemTable_iterator c) it = ikey e /\ it_value (Iterator := MemTable_iterator c) it = e_value e.
Proof.
  intros Et Hk Hn Hi. destruct (lookup_lt_is_Some_2 ids i) as [x Hx]; [by rewrite (mem_ids_length ids)|].
  destruct (lookup_lt_is_Some_2 es i Hi) as [e He]. exists x, e. rewrite Hx in Hn.
  assert (Hxe : key_at [] (nodes (table_ m)) x = encode e).
  { apply (f_equal (.!! i)) in Hk. unfold keys_of in Hk. rewrite !list_lookup_fmap, Hx, He in Hk. by injection Hk. }
  assert (Hok : entry_ok e) by (destruct Hm as [Hok _]; rewrite Forall_forall in Hok; apply Hok; by eapply list_elem_of_lookup_2).
  cbn [it_key it_value MemTable_iterator]. unfold MemIter_key, MemIter_value. rewrite Et, Hn. cbn [Iterator_key]. rewrite Hxe, prefixed_entry by done.
  cbn [fst snd default]. rewrite prefixed_value by done. done.
Qed.

#[export] Instance MemTable_scans : ScansOver (H := MemTable_iterator c) (map mem_entry es) mem_pos.
Proof.
  split.
  - intros it p (Et & ids & Hok & Hk & Hn & Hp). cbn [it_Valid MemTable_iterator]. rewrite Hn. destruct p as [i|]; [|by rewrite bool_decide_false by (by intros [])].
    cbn [mbind option_bind] in *. destruct (mem_pos_entry it i ids Et Hk Hn (Hp i eq_refl)) as (x & e & -> & _). by rewrite bool_decide_true.
  - intros it i (Et & ids & Hok & Hk & Hn & Hp). cbn [mbind option_bind] in *.
    destruct (mem_pos_entry it i ids Et Hk Hn (Hp i eq_refl)) as (x & e & _ & He & _ & -> & ->). by rewrite list_lookup_fmap, He.
  - done.
  - intros it p (Et & ids & Hok & Hk & Hn & Hp). exists (mkMemIter m (ids !! 0%nat)). split; [|by apply mem_pos_clip].
    cbn [it_SeekToFirst MemTable_iterator]. unfold mi_move, MemIter_SeekToFirst, Iterator_SeekToFirst. rewrite Et. cbn [mbind option_bind].
    rewrite (bottom_next (KeyComparator c) [] (table_ m) ids [] ids Hok eq_refl : Next _ head_ 0 = _), head_lookup. done.
  - intros it i (Et & ids & Hok & Hk & Hn & Hp). cbn [mbind option_bind] in *.
    destruct (mem_pos_entry it i ids Et Hk Hn (Hp i eq_refl)) as (x & e & Hx & _ & Hn' & _).
    exists (mkMemIter m (ids !! S i)). split; [|by apply mem_pos_clip].
    cbn [it_Next MemTable_iterator]. unfold mi_move, MemIter_Next. rewrite Et, Hn'. cbn [Iterator_Next mbind option_bind].
    pose proof (bottom_next (KeyComparator c) [] (table_ m) ids (take (S i) ids) (drop (S i) ids) Hok) as Hb.
    rewrite (take_S_r _ _ x Hx), path_end_snoc in Hb. rewrite Hb by (rewrite <- (take_S_r _ _ x Hx); by rewrite take_drop).
    by rewrite head_lookup, lookup_drop, Nat.add_0_r.
Qed.

(** *** The other moves *)

Lemma mem_pos_before ids i :
  skip_ok (KeyComparator c) [] (table_ m) ids -> keys_of [] (nodes (table_ m)) ids = map encode es -> (i <= length es)%nat ->
  mem_pos (mkMemIter m (last (take i ids))) (before i).
Proof.
  intros Hok Hk Hi. split; [done|]. exists ids. split; [done|]. split; [done|]. cbn [mi_node]. destruct i as [|i]; [done|]. cbn [before mbind option_bind].
  split; [|by intros j [= <-]]. destruct (lookup_lt_is_Some_2 ids i) as [x Hx]; [by rewrite (mem_ids_length ids)|].
  by rewrite (take_S_r _ _ x Hx), last_snoc, Hx.
Qed.

Lemma KeyComparator_target e k : entry_ok e -> blen k < 2 ^ 32 -> KeyComparator c (encode e) (EncodeKey k) = ikey_Compare c (ikey e) k.
Proof.
  intros He Hk. unfold KeyComparator. rewrite prefixed_entry by done. cbn [fst].
  pose proof (prefixed_slice_encode k [] Hk) as E. rewrite app_nil_r in E. unfold EncodeKey, PutVarint32. cbn [app]. by rewrite E.
Qed.

(** The entries before a target are those the skip list passes over. *)
Lemma mem_below ids k :
  keys_of [] (nodes (table_ m)) ids = map encode es -> skip_ok (KeyComparator c) [] (table_ m) ids -> blen k < 2 ^ 32 ->
  below (ikey_Compare c) k (map mem_entry es) = length (low (is_before (KeyComparator c) [] (nodes (table_ m)) (EncodeKey k)) ids).
Proof.
  intros Hk Hok Hb. destruct Hm as [Hes _].
  pose proof (is_before_prefix (KeyComparator c) [] (nodes (table_ m)) (EncodeKey k) ids (ok_sorted _ _ _ _ Hok)) as Hp.
  clear Hok Hm. revert Hes Hk. generalize es as l. clear es. induction ids as [|x ids IH]; intros [|e l] Hes Hk; try done.
  cbn [keys_of map] in Hk. injection Hk as Hx Hk. apply Forall_cons in Hes as [He Hes]. cbn [map below low List.filter]. unfold mem_entry at 1.
  assert (is_before (KeyComparator c) [] (nodes (table_ m)) (EncodeKey k) x = (ikey_Compare c (ikey e) k <? 0)) as E
    by (unfold is_before; rewrite Hx; by rewrite KeyComparator_target).
  rewrite E. destruct (ikey_Compare c (ikey e) k <? 0).
  - cbn [length]. f_equal. apply IH; [|done|done]. intros a y b -> Hy. by apply (Hp (x :: a) y b).
  - specialize (Hp [] x ids eq_refl E). rewrite Forall_forall in Hp. by rewrite (filter_none _ ids).
Qed.

(** Targets are encoded with a 32-bit length. *)
Definition mem_target (target : bytes) : Prop := blen target < 2 ^ 32.

#[export] Instance MemTable_iterates :
  IteratesWithin (H := MemTable_iterator c) mem_target (ikey_Compare c) (map mem_entry es) mem_pos.
Proof.
  pose proof MemTable_scans as [S1 S2 S3 S4 S5]. split; try done.
  - intros it p (Et & ids & Hok & Hk & Hn & Hp). exists (mkMemIter m (last ids)). split.
    + cbn [it_SeekToLast MemTable_iterator]. unfold mi_move, MemIter_SeekToLast, Iterator_SeekToLast. rewrite Et, (FindLast_spec _ _ _ _ Hok).
      cbn [mbind option_bind]. rewrite (not_head_path_end (KeyComparator c) [] (table_ m) ids ids [] Hok) by (by rewrite app_nil_r). done.
    + unfold last_pos. rewrite length_map. replace ids with (take (length es) ids) at 1 by (apply take_ge; rewrite (mem_ids_length ids) by done; lia).
      by apply mem_pos_before.
  - intros it p target (Et & ids & Hok & Hk & Hn & Hp) Ht. unfold seek_pos. rewrite (mem_below ids) by done.
    set (lo := low _ ids). exists (mkMemIter m (ids !! length lo)). split; [|by apply mem_pos_clip].
    cbn [it_Seek MemTable_iterator]. unfold mi_move, MemIter_Seek, Iterator_Seek. rewrite Et.
    destruct (FindGreaterOrEqual_spec (KeyComparator c) [] (table_ m) ids (EncodeKey target) Hok) as (prev & -> & _). cbn [mbind option_bind].
    do 2 f_equal. rewrite (lower_upper (KeyComparator c) [] (table_ m) ids (EncodeKey target) Hok) at 2. fold lo.
    rewrite lookup_app_r, Nat.sub_diag by lia. by rewrite head_lookup.
  - intros it i (Et & ids & Hok & Hk & Hn & Hp). cbn [mbind option_bind] in *. specialize (Hp i eq_refl).
    destruct (mem_pos_entry it i ids Et Hk Hn Hp) as (x & e & Hx & _ & Hn' & _).
    exists (mkMemIter m (last (take i ids))). split; [|apply mem_pos_before; [done|done|lia]].
    cbn [it_Prev MemTable_iterator]. unfold mi_move, MemIter_Prev. rewrite Et, Hn'.
    by rewrite (Prev_spec (KeyComparator c) [] (table_ m) ids (take i ids) x (drop (S i) ids) Hok) by (by rewrite take_drop_middle).
Qed.

End MemTableScan.

(** ** [BuildTable] *)

Section BuildTable.

Context {F W S : Type} {HF : WritableFile F} {HE : DescriptorEnv (F := F) W S}.
Context (snappy zstd : Codec) (addr : Z).
Context (table_check : Z -> Z -> W -> Status * W).
Context {I : Type} {HI : Iterator I}.

(** The loop over the iterator; [key] is the last key added. *)
Fixpoint add_entries (fuel : nat) (builder : Rep F) (iter : I) (key : bytes) : option (Rep F * I * bytes) :=
  match fuel with
  | O => None
  | Datatypes.S fuel =>
      if it_Valid iter then
        let key := it_key iter in
        builder ← TableBuilder_Add snappy zstd addr builder key (it_value iter);
        iter ← it_Next iter;
        add_entries fuel builder iter key
      else Some (builder, iter, key)
  end.

Definition meta_with (meta : FileMetaData) (size : Z) (small large : InternalKey) : FileMetaData :=
  mkFileMetaData (f_refs meta) (allowed_seeks meta) (number meta) size small large.

(** Finishing the file: the status, the size and the file. *)
Definition finish_file (builder : Rep F) : option (Status * Z * F) :=
  builder ← TableBuilder_Finish snappy zstd addr builder;
  let s := r_status builder in
  if ok s then
    let size := FileSize builder in
    if negb (0 <? size) then None
    else
      let '(s, file) := Sync (r_file builder) in
      let '(s, file) := if ok s then Close file else (s, file) in
      Some (s, size, file)
  else Some (s, 0, r_file builder).

(** The status, the metadata filled in, the iterator, the environment, and the file
    as it was left. *)
Definition BuildTable (fuel : nat) (dbname : bytes) (options : Options) (iter : I) (meta : FileMetaData) (w : W)
  : option (Status * FileMetaData * I * W * option F) :=
  let meta := meta_with meta 0 (smallest meta) (largest meta) in
  iter ← it_SeekToFirst iter;
  let fname := TableFileName dbname (number meta) in
  let finish s meta iter w file :=
    let s := if ok (it_status iter) then s else it_status iter in
    let w := if ok s && (0 <? file_size meta) then w else snd (env_RemoveFile fname w) in
    Some (s, meta, iter, w, file) in
  if it_Valid iter then
    let '(s, file, w) := env_NewWritableFile fname w in
    if negb (ok s) then Some (s, meta, iter, w, None)
    else
      file ← file;
      builder ← TableBuilder_make options file;
      let small := snd (InternalKey_DecodeFrom (it_key iter)) in
      '(builder, iter, key) ← add_entries fuel builder iter [];
      let large := if blen key =? 0 then largest meta else snd (InternalKey_DecodeFrom key) in
      '(s, size, file) ← finish_file builder;
      let meta := meta_with meta size small large in
      let '(s, w) := if ok s then table_check (number meta) (file_size meta) w else (s, w) in
      finish s meta iter w (Some file)
  else finish OK meta iter w None.

(** ** What it builds *)

Context {contents : F -> bytes} {HR : ReliableWritable F contents}.
Context (es : list entry) (pos : I -> option nat -> Prop) {HP : ScansOver es pos}.

Lemma add_entries_ok fuel : forall builder iter i key r,
  pos iter (clip es i) -> (i <= length es)%nat -> (length es - i < fuel)%nat -> add_all snappy zstd addr builder (drop i es) = Some r ->
  exists iter', add_entries fuel builder iter key = Some (r, iter', default key (fst <$> last (drop i es))) /\ pos iter' None.
Proof.
  induction fuel as [|fuel IH]; intros builder iter i key r Hp Hi Hf Hadd; [lia|]. cbn [add_entries].
  rewrite (scan_valid iter _ Hp). unfold clip in Hp. destruct (decide (i < length es)%nat) as [Hlt|Hge].
  - unfold clip. rewrite decide_True by done. rewrite bool_decide_true by done.
    pose proof (scan_entry iter i Hp) as He. rewrite (drop_S es _ i He) in Hadd |- *. cbn [add_all] in Hadd.
    destruct (TableBuilder_Add snappy zstd addr builder (it_key iter) (it_value iter)) as [b1|]; [|done]. cbn [mbind option_bind] in *.
    destruct (scan_next iter i Hp) as (it1 & -> & Hp1). cbn [mbind option_bind].
    destruct (IH b1 it1 (Datatypes.S i) (it_key iter) r Hp1 ltac:(lia) ltac:(lia) Hadd) as (it' & -> & Hp'). exists it'. split; [|done].
    do 2 f_equal. rewrite last_cons. by destruct (last (drop (Datatypes.S i) es)).
  - unfold clip. rewrite decide_False by done. rewrite bool_decide_false by (by intros []). rewrite drop_ge in Hadd |- * by lia.
    cbn in Hadd. injection Hadd as ->. exists iter. done.
Qed.

(** Finishing a builder that has not failed, on a file that does not fail. *)
Lemma finish_file_ok builder r :
  TableBuilder_Finish snappy zstd addr builder = Some r -> tb_ok r = true -> 0 < FileSize r ->
  exists s file, finish_file builder = Some (s, FileSize r, file) /\ ok s = true /\ contents file = contents (r_file r).
Proof.
  intros Hf Hok Hs. unfold finish_file. rewrite Hf. cbn [mbind option_bind]. unfold tb_ok in Hok. rewrite Hok.
  rewrite (proj2 (Z.ltb_lt _ _) Hs). cbn [negb].
  destruct (sync_contents (r_file r)) as [Ho Hc]. destruct (Sync (r_file r)) as [s f1]. cbn [fst snd] in *. rewrite Ho.
  destruct (close_contents f1) as [Ho' Hc']. destruct (Close f1) as [s' f2]. cbn [fst snd] in *.
  exists s', f2. split; [done|]. split; [done|]. congruence.
Qed.

Lemma table_in_nonempty o content ds groups es0 mh ih : table_in snappy zstd o content ds groups es0 mh ih -> 0 < blen content.
Proof.
  intros Hin. destruct (ti_footer _ _ _ _ _ _ _ _ _ Hin) as (pre & ->).
  rewrite blen_app, blen_footer_bytes. pose proof (blen_nonneg pre). change kEncodedLength with 48. lia.
Qed.

Section Built.

Context (o : Options) (kf : Z) (fuel : nat) (dbname : bytes) (meta : FileMetaData) (w : W).
Context (Ho : options_ok o kf).
Context (Hsorted : StronglySorted (entry_lt (Compare (comparator o))) es).
Context (Hbound : table_bound o kf es < 2 ^ 32) (Hfuel : (length es < fuel)%nat).

(** An iterator with entries: the table of exactly those entries is written. *)
Lemma BuildTable_ok iter p f s w1 e0 en :
  pos iter p -> head es = Some e0 -> last es = Some en -> fst en <> [] ->
  env_NewWritableFile (TableFileName dbname (number meta)) w = (s, Some f, w1) -> ok s = true -> contents f = [] ->
  (forall size, ok (fst (table_check (number meta) size w1)) = true) ->
  exists s' iter' file, let size := blen (contents file) in
    BuildTable fuel dbname o iter meta w =
      Some (s', meta_with meta size (snd (InternalKey_DecodeFrom (fst e0))) (snd (InternalKey_DecodeFrom (fst en))), iter',
            snd (table_check (number meta) size w1), Some file) /\
    ok s' = true /\ 0 < size /\ pos iter' None /\
    exists ds groups mh ih, table_in snappy zstd o (contents file) ds groups es mh ih.
Proof.
  intros Hp He0 Hen Hkey Hnew Hs Hf Hcheck. pose proof (oo_comparator _ _ Ho). pose proof (oo_short _ _ Ho).
  destruct (scan_first iter p Hp) as (it0 & Hfirst & Hp0).
  assert (Hlen : (0 < length es)%nat) by (destruct es; [done|cbn; lia]).
  destruct (build_table_spec snappy zstd addr o (oo_restart _ _ Ho) kf (oo_kf _ _ Ho) (oo_filter _ _ Ho) f es Hf Hsorted Hbound)
    as (r & ds & groups & mh & ih & Hbuild & Hok & Hsize & Hin).
  unfold build_table in Hbuild. destruct (TableBuilder_make o f) as [b0|] eqn:Eb; [|done]. cbn [mbind option_bind] in Hbuild.
  destruct (add_all snappy zstd addr b0 es) as [b1|] eqn:Ea; [|done]. cbn [mbind option_bind] in Hbuild.
  destruct (add_entries_ok fuel b0 it0 0 [] b1 Hp0 ltac:(lia) ltac:(lia)) as (it1 & Hadd & Hp1); [by rewrite drop_0|].
  rewrite drop_0, Hen in Hadd. cbn [fmap option_fmap option_map default] in Hadd. unfold id in Hadd.
  assert (Hpos : 0 < FileSize r) by (rewrite Hsize; eapply table_in_nonempty; exact Hin).
  destruct (finish_file_ok b1 r Hbuild Hok Hpos) as (s1 & file & Hfin & Hs1 & Hcf).
  unfold BuildTable. rewrite Hfirst. cbn [mbind option_bind]. rewrite (scan_valid it0 _ Hp0).
  assert (Hc0 : clip es 0 = Some 0%nat) by (unfold clip; by rewrite decide_True). rewrite Hc0 in Hp0 |- *. rewrite bool_decide_true by done.
  pose proof (scan_entry it0 0 Hp0) as Hent.
  replace (it_key it0) with (fst e0) by (rewrite <- head_lookup, He0 in Hent; by injection Hent as ->).
  cbn [number meta_with]. rewrite Hnew, Hs. cbn [negb mbind option_bind]. rewrite Eb. cbn [mbind option_bind]. rewrite Hadd. cbn [mbind option_bind].
  rewrite Hfin. cbn [mbind option_bind]. rewrite Hs1. cbn [number file_size meta_with].
  exists (fst (table_check (number meta) (blen (contents file)) w1)), it1, file.
  rewrite Hcf, <- Hsize. specialize (Hcheck (FileSize r)). destruct (table_check (number meta) (FileSize r) w1) as [s2 w2]. cbn [fst snd] in *.
  rewrite (scan_status it1 _ Hp1), Hcheck, (proj2 (Z.ltb_lt _ _) Hpos). cbn [andb].
  assert (Hne : (blen (fst en) =? 0) = false) by (apply Z.eqb_neq; intros Hz; by apply Hkey, blen_zero).
  rewrite Hne. split; [done|]. split; [done|]. split; [done|]. split; [done|]. rewrite Hsize, <- Hcf in *. eauto 10.
Qed.

End Built.

End BuildTable.

(** ** Writing a memtable to a table file *)

Section Flush.

Context (c : Comparator) {L : ComparatorLaws c}.
Context {F W S : Type} {HF : WritableFile F} {HE : DescriptorEnv (F := F) W S}.
Context {contents : F -> bytes} {HR : ReliableWritable F contents}.
Context {G : Type} {RA : RandomAccessFile G} {file_bytes : G -> bytes} {RR : ReliableRandom G file_bytes}.


Lemma mem_entries_sorted m es : holds c m es -> StronglySorted (entry_lt (Compare (InternalKeyComparator c))) (map mem_entry es).
Proof.
  intros H. apply holds_sorted in H. clear -H. induction es as [|e es IH]; [constructor|]. cbn [map] in *.
  apply StronglySorted_inv in H as [H Hall]. constructor; [by apply IH|]. rewrite Forall_map in *. exact Hall.
Qed.

Lemma entries_size_perm es es' : es ≡ₚ es' -> entries_size es = entries_size es'.
Proof. induction 1 as [|[k v] ? ? _ IH|[k v] [k' v'] ?|? ? ? _ IH1 _ IH2]; cbn [entries_size]; lia. Qed.

Lemma ikey_nonempty e : ikey e <> [].
Proof. intros H. pose proof (blen_ikey e) as Hl. rewrite H, blen_nil in Hl. pose proof (blen_nonneg (e_key e)). lia. Qed.

(** A memtable that holds [es]: the table of exactly these entries is written, and
    scanning it gives them back. *)
Lemma BuildTable_mem snappy zstd addr table_check o kf m es (ro : ReadOptions) fuel dbname meta (w w1 : W) s f :
  CodecLaws snappy -> CodecLaws zstd -> options_ok o kf -> comparator o = InternalKeyComparator c ->
  holds c m es -> es <> [] -> table_bound o kf (map mem_entry es) < 2 ^ 32 -> (length es < fuel)%nat ->
  env_NewWritableFile (TableFileName dbname (number meta)) w = (s, Some f, w1) -> ok s = true -> contents f = [] ->
  (forall size, ok (fst (table_check (number meta) size w1)) = true) ->
  exists s' meta' iter' w' file,
    BuildTable (HI := MemTable_iterator c) snappy zstd addr table_check fuel dbname o (mem_NewIterator m) meta w = Some (s', meta', iter', w', Some file) /\
    ok s' = true /\ number meta' = number meta /\ file_size meta' = blen (contents file) /\ 0 < blen (contents file) /\
    Some (rep_ (smallest meta')) = ikey <$> head es /\ Some (rep_ (largest meta')) = ikey <$> last es /\
    forall g : G, file_bytes g = contents file ->
    exists t it, Table_Open snappy zstd addr o g (file_size meta') = Some (OK, Some t) /\
      Table_NewIterator snappy zstd addr t ro = Some it /\
      scan_all (Datatypes.S (length es)) it = Some (map mem_entry es).
Proof.
  intros Hsn Hzs Ho Hc Hh Hne Hbe Hfuel Hnew Hs Hf Hcheck. pose proof (mem_entries_sorted m es Hh) as Hsorted. rewrite <- Hc in Hsorted.
  destruct (head es) as [e0|] eqn:E0; [|by apply head_None in E0]. destruct (last es) as [en|] eqn:En; [|by apply last_None in En].
  pose proof (MemTable_scans c m es Hh) as HS.
  destruct (BuildTable_ok (HI := MemTable_iterator c) snappy zstd addr table_check (map mem_entry es) (mem_pos c m es) o kf fuel dbname meta w Ho Hsorted Hbe
      ltac:(rewrite length_map; lia) (mem_NewIterator m) None f s w1 (mem_entry e0) (mem_entry en)) as (s' & it' & file & Hbuild & Hs' & Hpos & Hit & ds & groups & mh & ih & Hin);
    [by apply (mem_pos_make c m es)|by rewrite head_lookup, list_lookup_fmap, <- head_lookup, E0|by rewrite fmap_last, En|apply ikey_nonempty|done|done|done|done|].
  do 5 eexists. split; [exact Hbuild|].
  cbn [meta_with number file_size smallest largest InternalKey_DecodeFrom snd rep_ mem_entry fst]. do 4 (split; [done|]). do 2 (split; [done|]).
  intros g Hg. rewrite <- Hg in Hin |- *. pose proof (oo_comparator _ _ Ho).
  destruct (Table_Open_spec snappy zstd addr o (oo_compression _ _ Ho) g ds groups (map mem_entry es) mh ih Hin) as (t & Hopen & Ht).
  destruct (Table_NewIterator_spec snappy zstd addr o (oo_compression _ _ Ho) g ds groups (map mem_entry es) mh ih Hin t Ht ro) as (it & pos & Hnit & HI & Hp0).
  exists t, it. split; [done|]. split; [done|]. apply (scan_all_spec it None); [done|]. rewrite length_map. lia.
Qed.

(** C21: writing a memtable out loses nothing.  After any sequence of writes with
    different internal keys, [BuildTable] over the memtable's iterator succeeds when
    the environment does; the metadata it fills in is the size of the file and the
    first and the last internal key; and the file, opened as a table and scanned,
    yields each write exactly once, in the order of the internal keys. *)
Theorem memtable_flush snappy zstd addr table_check o kf adds (ro : ReadOptions) fuel dbname meta (w w1 : W) s f :
  CodecLaws snappy -> CodecLaws zstd -> options_ok o kf -> comparator o = InternalKeyComparator c ->
  Forall entry_ok adds -> ForallOrdPairs (different c) adds -> adds <> [] ->
  table_bound o kf (map mem_entry adds) < 2 ^ 32 -> (length adds < fuel)%nat ->
  env_NewWritableFile (TableFileName dbname (number meta)) w = (s, Some f, w1) -> ok s = true -> contents f = [] ->
  (forall size, ok (fst (table_check (number meta) size w1)) = true) ->
  exists m es s' meta' iter' w' file,
    MemTable.add_all c MemTable_make adds = Some m /\ es ≡ₚ adds /\
    StronglySorted (entry_lt (Compare (InternalKeyComparator c))) (map mem_entry es) /\
    BuildTable (HI := MemTable_iterator c) snappy zstd addr table_check fuel dbname o (mem_NewIterator m) meta w = Some (s', meta', iter', w', Some file) /\
    ok s' = true /\ number meta' = number meta /\ file_size meta' = blen (contents file) /\
    Some (rep_ (smallest meta')) = ikey <$> head es /\ Some (rep_ (largest meta')) = ikey <$> last es /\
    forall g : G, file_bytes g = contents file ->
    exists t it, Table_Open snappy zstd addr o g (file_size meta') = Some (OK, Some t) /\
      Table_NewIterator snappy zstd addr t ro = Some it /\
      scan_all (Datatypes.S (length adds)) it = Some (map mem_entry es).
Proof.
  intros Hsn Hzs Ho Hc Hok Hd Hne Hb Hfuel Hnew Hs Hf Hcheck.
  destruct (add_all_holds c adds MemTable_make [] (holds_make c) Hok Hd) as (m & es & E & Hh & Hp).
  { intros e e' He. by apply elem_of_nil in He. }
  cbn [app] in Hp. pose proof (Permutation_length Hp) as Hlen. assert (Hbe : table_bound o kf (map mem_entry es) < 2 ^ 32).
  { unfold table_bound in *. by rewrite (entries_size_perm (map mem_entry es) (map mem_entry adds)) by (by apply Permutation_map). }
  assert (Hne' : es <> []) by (intros ->; by apply Permutation_nil in Hp).
  destruct (BuildTable_mem snappy zstd addr table_check o kf m es ro fuel dbname meta w w1 s f Hsn Hzs Ho Hc Hh Hne' Hbe ltac:(lia) Hnew Hs Hf Hcheck)
    as (s' & meta' & it' & w' & file & Hbuild & Hs' & Hnum & Hsize & _ & Hsm & Hlg & Hread).
  exists m, es, s', meta', it', w', file. split; [done|]. split; [done|]. split; [by eapply mem_entries_sorted|]. do 6 (split; [done|]). by rewrite <- Hlen.
Qed.

End Flush.

(** A witness: two writes and a deletion, flushed to file 7. *)
Definition flush_options : Options := {|
  comparator := InternalKeyComparator BytewiseComparator;
  create_if_missing := false;
  error_if_exists := false;
  paranoid_checks := true;
  write_buffer_size := 4 * 1024 * 1024;
  max_open_files := 1000;
  block_size := 30;
  block_restart_interval := 2;
  max_file_size := 2 * 1024 * 1024;
  compression := kSnappyCompression;
  zstd_compression_level := 1;
  reuse_logs := false;
  filter_policy := Some (InternalFilterPolicy (NewBloomFilterPolicy 10))
|}.

Lemma flush_options_ok : options_ok flush_options 20.
Proof.
  split.
  - apply _.
  - apply _.
  - by vm_compute.
  - by vm_compute.
  - lia.
  - intros p [= <-]. split; [apply InternalFilterPolicy_laws; by apply BloomFilterPolicy_laws|].
    intros ks. cbn [CreateFilter InternalFilterPolicy]. rewrite <- (length_map ExtractUserKey ks). by apply (bloom_filter_size 10).
Qed.

#[local] Instance flush_env : DescriptorEnv (F := StringDest) unit StringSource := {
  env_NewWritableFile _ w := (OK, Some (mkDest []), w);
  env_NewAppendableFile _ w := (OK, Some (mkDest []), w);
  env_NewSequentialFile _ w := (OK, Some (mkSource []), w);
  env_GetFileSize _ w := (OK, 0, w);
  env_RemoveFile _ w := (OK, w);
  env_SetCurrentFile _ _ w := (OK, w);
  env_ReadFileToString _ w := (OK, [], w)
}.

Definition flush_meta : FileMetaData := mkFileMetaData 0 0 7 0 (mkInternalKey []) (mkInternalKey []).

Lemma memtable_flush_witness :
  exists m es s' meta' iter' w' file,
    MemTable.add_all BytewiseComparator MemTable_make demo_adds = Some m /\ es ≡ₚ demo_adds /\
    StronglySorted (entry_lt (Compare (InternalKeyComparator BytewiseComparator))) (map mem_entry es) /\
    BuildTable (HI := MemTable_iterator BytewiseComparator) no_codec no_codec 0 (fun _ _ w => (OK, w)) 4 (str "db") flush_options
      (mem_NewIterator m) flush_meta tt = Some (s', meta', iter', w', Some file) /\
    ok s' = true /\ number meta' = 7 /\ file_size meta' = blen (dest_contents file) /\
    Some (rep_ (smallest meta')) = ikey <$> head es /\ Some (rep_ (largest meta')) = ikey <$> last es /\
    forall g, random_contents g = dest_contents file ->
    exists t it, Table_Open no_codec no_codec 0 flush_options g (file_size meta') = Some (OK, Some t) /\
      Table_NewIterator no_codec no_codec 0 t ReadOptions_default = Some it /\
      scan_all 4 it = Some (map mem_entry es).
Proof.
  apply (memtable_flush BytewiseComparator no_codec no_codec 0 (fun _ _ w => (OK, w)) flush_options 20 demo_adds ReadOptions_default 4
           (str "db") flush_meta tt tt OK (mkDest [])); try done.
  - exact flush_options_ok.
  - unfold demo_adds. repeat (constructor; [split; by vm_compute|]). constructor.
  - unfold demo_adds. repeat constructor; intros [Hc Ht]; vm_compute in Hc, Ht; congruence.
  - cbn [length demo_adds]. lia.
Defined.
