(* ===== verification/DbState.v ===== *)
(** * The state of a database

    The fields of [DBImpl] of [db/db_impl.h], the environment it runs in, and the
    small operations on the state that the rest of [db/db_impl.cc] shares.

    An operation is a function on the state and the environment; [None] is a failed
    assertion, the use of a freed object, or a lack of fuel.  Where the code lets
    other threads in (it takes the mutex again, waits, or reads an atomic without the
    mutex), the argument [others] is what those threads have done to the state and to
    the environment.  What they do while [LogAndApply] has released the mutex is
    placed at the end of that call.  Waking threads up has no effect of its own: a
    waiting thread may wake up at any time.  Messages to the info log are left
    out. *)

From S2P Require Import Prelude Slice Coding Status Env Logging LogFormat LogReader Comparator DbFormat Random Arena SkipList MemTable WriteBatch VersionEdit Filename Format Iterator Options TwoLevel Version Compaction VersionSet Snapshot.

(** [DBImpl::Writer] *)
Record DBWriter := mkDBWriter { w_status : Status; w_batch : option WriteBatch; w_sync : bool; w_done : bool }.

(** [DBImpl::CompactionStats] *)
Record CompactionStats := mkCStats { micros : Z; bytes_read : Z; bytes_written : Z }.

Definition CompactionStats_Add (a b : CompactionStats) : CompactionStats :=
  mkCStats (micros a + micros b) (bytes_read a + bytes_read b) (bytes_written a + bytes_written b).

(** [DBImpl::ManualCompaction]; [tmp_storage] holds the key [m_begin] points to once
    a part of the range is done. *)
Record ManualCompaction := mkManual {
  m_level : Z;
  m_done : bool;
  m_begin : option InternalKey;
  m_end : option InternalKey
}.

(** Memtables, waiting writers and manual compactions are shared by pointers: each
    kind has its heap.  [log_] holds [logfile_] as its destination. *)
Record DBImpl (F : Type) := mkDB {
  db_name : bytes;
  db_options : Options;
  db_lock_ : bool;
  shutting_down_ : bool;
  mems : gmap nat MemTable;
  mem_alloc : nat;
  mem_ : option nat;
  imm_ : option nat;
  has_imm_ : bool;
  logfile_number_ : Z;
  log_ : option (Writer F);
  seed_ : Z;
  writers_ : list nat;
  writer_at : gmap nat DBWriter;
  tmp_batch_ : WriteBatch;
  snapshots_ : SnapshotList;
  pending_outputs_ : gset Z;
  background_compaction_scheduled_ : bool;
  manuals : gmap nat ManualCompaction;
  manual_compaction_ : option nat;
  db_versions_ : VersionSet F;
  bg_error_ : Status;
  stats_ : list CompactionStats
}.
Arguments mkDB {F}.
Arguments db_name {F}.
Arguments db_options {F}.
Arguments db_lock_ {F}.
Arguments shutting_down_ {F}.
Arguments mems {F}.
Arguments mem_alloc {F}.
Arguments mem_ {F}.
Arguments imm_ {F}.
Arguments has_imm_ {F}.
Arguments logfile_number_ {F}.
Arguments log_ {F}.
Arguments seed_ {F}.
Arguments writers_ {F}.
Arguments writer_at {F}.
Arguments tmp_batch_ {F}.
Arguments snapshots_ {F}.
Arguments pending_outputs_ {F}.
Arguments background_compaction_scheduled_ {F}.
Arguments manuals {F}.
Arguments manual_compaction_ {F}.
Arguments db_versions_ {F}.
Arguments bg_error_ {F}.
Arguments stats_ {F}.

Section Setters.

Context {F : Type}.

Implicit Types db : DBImpl F.

Definition set_db_lock (x : bool) db : DBImpl F :=
  mkDB (db_name db) (db_options db) x (shutting_down_ db) (mems db) (mem_alloc db) (mem_ db) (imm_ db) (has_imm_
    db) (logfile_number_ db) (log_ db) (seed_ db) (writers_ db) (writer_at db) (tmp_batch_ db) (snapshots_ db)
    (pending_outputs_ db) (background_compaction_scheduled_ db) (manuals db) (manual_compaction_ db) (db_versions_
    db) (bg_error_ db) (stats_ db).
Definition set_shutting_down (x : bool) db : DBImpl F :=
  mkDB (db_name db) (db_options db) (db_lock_ db) x (mems db) (mem_alloc db) (mem_ db) (imm_ db) (has_imm_ db)
    (logfile_number_ db) (log_ db) (seed_ db) (writers_ db) (writer_at db) (tmp_batch_ db) (snapshots_ db)
    (pending_outputs_ db) (background_compaction_scheduled_ db) (manuals db) (manual_compaction_ db) (db_versions_
    db) (bg_error_ db) (stats_ db).
Definition set_mems (x : gmap nat MemTable) db : DBImpl F :=
  mkDB (db_name db) (db_options db) (db_lock_ db) (shutting_down_ db) x (mem_alloc db) (mem_ db) (imm_ db)
    (has_imm_ db) (logfile_number_ db) (log_ db) (seed_ db) (writers_ db) (writer_at db) (tmp_batch_ db)
    (snapshots_ db) (pending_outputs_ db) (background_compaction_scheduled_ db) (manuals db) (manual_compaction_
    db) (db_versions_ db) (bg_error_ db) (stats_ db).
Definition set_mem_alloc (x : nat) db : DBImpl F :=
  mkDB (db_name db) (db_options db) (db_lock_ db) (shutting_down_ db) (mems db) x (mem_ db) (imm_ db) (has_imm_
    db) (logfile_number_ db) (log_ db) (seed_ db) (writers_ db) (writer_at db) (tmp_batch_ db) (snapshots_ db)
    (pending_outputs_ db) (background_compaction_scheduled_ db) (manuals db) (manual_compaction_ db) (db_versions_
    db) (bg_error_ db) (stats_ db).
Definition set_mem (x : option nat) db : DBImpl F :=
  mkDB (db_name db) (db_options db) (db_lock_ db) (shutting_down_ db) (mems db) (mem_alloc db) x (imm_ db)
    (has_imm_ db) (logfile_number_ db) (log_ db) (seed_ db) (writers_ db) (writer_at db) (tmp_batch_ db)
    (snapshots_ db) (pending_outputs_ db) (background_compaction_scheduled_ db) (manuals db) (manual_compaction_
    db) (db_versions_ db) (bg_error_ db) (stats_ db).
Definition set_imm (x : option nat) db : DBImpl F :=
  mkDB (db_name db) (db_options db) (db_lock_ db) (shutting_down_ db) (mems db) (mem_alloc db) (mem_ db) x
    (has_imm_ db) (logfile_number_ db) (log_ db) (seed_ db) (writers_ db) (writer_at db) (tmp_batch_ db)
    (snapshots_ db) (pending_outputs_ db) (background_compaction_scheduled_ db) (manuals db) (manual_compaction_
    db) (db_versions_ db) (bg_error_ db) (stats_ db).
Definition set_has_imm (x : bool) db : DBImpl F :=
  mkDB (db_name db) (db_options db) (db_lock_ db) (shutting_down_ db) (mems db) (mem_alloc db) (mem_ db) (imm_
    db) x (logfile_number_ db) (log_ db) (seed_ db) (writers_ db) (writer_at db) (tmp_batch_ db) (snapshots_ db)
    (pending_outputs_ db) (background_compaction_scheduled_ db) (manuals db) (manual_compaction_ db) (db_versions_
    db) (bg_error_ db) (stats_ db).
Definition set_logfile_number (x : Z) db : DBImpl F :=
  mkDB (db_name db) (db_options db) (db_lock_ db) (shutting_down_ db) (mems db) (mem_alloc db) (mem_ db) (imm_
    db) (has_imm_ db) x (log_ db) (seed_ db) (writers_ db) (writer_at db) (tmp_batch_ db) (snapshots_ db)
    (pending_outputs_ db) (background_compaction_scheduled_ db) (manuals db) (manual_compaction_ db) (db_versions_
    db) (bg_error_ db) (stats_ db).
Definition set_log (x : option (Writer F)) db : DBImpl F :=
  mkDB (db_name db) (db_options db) (db_lock_ db) (shutting_down_ db) (mems db) (mem_alloc db) (mem_ db) (imm_
    db) (has_imm_ db) (logfile_number_ db) x (seed_ db) (writers_ db) (writer_at db) (tmp_batch_ db) (snapshots_
    db) (pending_outputs_ db) (background_compaction_scheduled_ db) (manuals db) (manual_compaction_ db)
    (db_versions_ db) (bg_error_ db) (stats_ db).
Definition set_seed (x : Z) db : DBImpl F :=
  mkDB (db_name db) (db_options db) (db_lock_ db) (shutting_down_ db) (mems db) (mem_alloc db) (mem_ db) (imm_
    db) (has_imm_ db) (logfile_number_ db) (log_ db) x (writers_ db) (writer_at db) (tmp_batch_ db) (snapshots_
    db) (pending_outputs_ db) (background_compaction_scheduled_ db) (manuals db) (manual_compaction_ db)
    (db_versions_ db) (bg_error_ db) (stats_ db).
Definition set_writers (x : list nat) db : DBImpl F :=
  mkDB (db_name db) (db_options db) (db_lock_ db) (shutting_down_ db) (mems db) (mem_alloc db) (mem_ db) (imm_
    db) (has_imm_ db) (logfile_number_ db) (log_ db) (seed_ db) x (writer_at db) (tmp_batch_ db) (snapshots_ db)
    (pending_outputs_ db) (background_compaction_scheduled_ db) (manuals db) (manual_compaction_ db) (db_versions_
    db) (bg_error_ db) (stats_ db).
Definition set_writer_at (x : gmap nat DBWriter) db : DBImpl F :=
  mkDB (db_name db) (db_options db) (db_lock_ db) (shutting_down_ db) (mems db) (mem_alloc db) (mem_ db) (imm_
    db) (has_imm_ db) (logfile_number_ db) (log_ db) (seed_ db) (writers_ db) x (tmp_batch_ db) (snapshots_ db)
    (pending_outputs_ db) (background_compaction_scheduled_ db) (manuals db) (manual_compaction_ db) (db_versions_
    db) (bg_error_ db) (stats_ db).
Definition set_tmp_batch (x : WriteBatch) db : DBImpl F :=
  mkDB (db_name db) (db_options db) (db_lock_ db) (shutting_down_ db) (mems db) (mem_alloc db) (mem_ db) (imm_
    db) (has_imm_ db) (logfile_number_ db) (log_ db) (seed_ db) (writers_ db) (writer_at db) x (snapshots_ db)
    (pending_outputs_ db) (background_compaction_scheduled_ db) (manuals db) (manual_compaction_ db) (db_versions_
    db) (bg_error_ db) (stats_ db).
Definition set_snapshots (x : SnapshotList) db : DBImpl F :=
  mkDB (db_name db) (db_options db) (db_lock_ db) (shutting_down_ db) (mems db) (mem_alloc db) (mem_ db) (imm_
    db) (has_imm_ db) (logfile_number_ db) (log_ db) (seed_ db) (writers_ db) (writer_at db) (tmp_batch_ db) x
    (pending_outputs_ db) (background_compaction_scheduled_ db) (manuals db) (manual_compaction_ db) (db_versions_
    db) (bg_error_ db) (stats_ db).
Definition set_pending_outputs (x : gset Z) db : DBImpl F :=
  mkDB (db_name db) (db_options db) (db_lock_ db) (shutting_down_ db) (mems db) (mem_alloc db) (mem_ db) (imm_
    db) (has_imm_ db) (logfile_number_ db) (log_ db) (seed_ db) (writers_ db) (writer_at db) (tmp_batch_ db)
    (snapshots_ db) x (background_compaction_scheduled_ db) (manuals db) (manual_compaction_ db) (db_versions_ db)
    (bg_error_ db) (stats_ db).
Definition set_background_compaction_scheduled (x : bool) db : DBImpl F :=
  mkDB (db_name db) (db_options db) (db_lock_ db) (shutting_down_ db) (mems db) (mem_alloc db) (mem_ db) (imm_
    db) (has_imm_ db) (logfile_number_ db) (log_ db) (seed_ db) (writers_ db) (writer_at db) (tmp_batch_ db)
    (snapshots_ db) (pending_outputs_ db) x (manuals db) (manual_compaction_ db) (db_versions_ db) (bg_error_ db)
    (stats_ db).
Definition set_manuals (x : gmap nat ManualCompaction) db : DBImpl F :=
  mkDB (db_name db) (db_options db) (db_lock_ db) (shutting_down_ db) (mems db) (mem_alloc db) (mem_ db) (imm_
    db) (has_imm_ db) (logfile_number_ db) (log_ db) (seed_ db) (writers_ db) (writer_at db) (tmp_batch_ db)
    (snapshots_ db) (pending_outputs_ db) (background_compaction_scheduled_ db) x (manual_compaction_ db)
    (db_versions_ db) (bg_error_ db) (stats_ db).
Definition set_manual_compaction (x : option nat) db : DBImpl F :=
  mkDB (db_name db) (db_options db) (db_lock_ db) (shutting_down_ db) (mems db) (mem_alloc db) (mem_ db) (imm_
    db) (has_imm_ db) (logfile_number_ db) (log_ db) (seed_ db) (writers_ db) (writer_at db) (tmp_batch_ db)
    (snapshots_ db) (pending_outputs_ db) (background_compaction_scheduled_ db) (manuals db) x (db_versions_ db)
    (bg_error_ db) (stats_ db).
Definition set_db_versions (x : VersionSet F) db : DBImpl F :=
  mkDB (db_name db) (db_options db) (db_lock_ db) (shutting_down_ db) (mems db) (mem_alloc db) (mem_ db) (imm_
    db) (has_imm_ db) (logfile_number_ db) (log_ db) (seed_ db) (writers_ db) (writer_at db) (tmp_batch_ db)
    (snapshots_ db) (pending_outputs_ db) (background_compaction_scheduled_ db) (manuals db) (manual_compaction_
    db) x (bg_error_ db) (stats_ db).
Definition set_bg_error (x : Status) db : DBImpl F :=
  mkDB (db_name db) (db_options db) (db_lock_ db) (shutting_down_ db) (mems db) (mem_alloc db) (mem_ db) (imm_
    db) (has_imm_ db) (logfile_number_ db) (log_ db) (seed_ db) (writers_ db) (writer_at db) (tmp_batch_ db)
    (snapshots_ db) (pending_outputs_ db) (background_compaction_scheduled_ db) (manuals db) (manual_compaction_
    db) (db_versions_ db) x (stats_ db).
Definition set_stats (x : list CompactionStats) db : DBImpl F :=
  mkDB (db_name db) (db_options db) (db_lock_ db) (shutting_down_ db) (mems db) (mem_alloc db) (mem_ db) (imm_
    db) (has_imm_ db) (logfile_number_ db) (log_ db) (seed_ db) (writers_ db) (writer_at db) (tmp_batch_ db)
    (snapshots_ db) (pending_outputs_ db) (background_compaction_scheduled_ db) (manuals db) (manual_compaction_
    db) (db_versions_ db) (bg_error_ db) x.

End Setters.

(** ** The environment *)

(** What the database uses of [Env] besides files for the descriptor, and of the
    table cache: whether a table can be opened, and dropping a table from it. *)
Class DbEnv (W : Type) := {
  env_GetChildren : bytes -> W -> Status * list bytes * W;
  env_CreateDir : bytes -> W -> Status * W;
  env_RemoveDir : bytes -> W -> Status * W;
  env_FileExists : bytes -> W -> bool * W;
  env_LockFile : bytes -> W -> Status * W;
  env_UnlockFile : W -> Status * W;
  env_NowMicros : W -> Z * W;
  env_SleepForMicroseconds : Z -> W -> W;
  env_Schedule : W -> W;
  cache_check : Z -> Z -> W -> Status * W;
  cache_Evict : Z -> W -> W
}.

(** ** Operations as functions on the state *)

Section Monad.

Context {F W : Type}.

Definition DbM (A : Type) : Type := DBImpl F -> W -> option (A * DBImpl F * W).

Definition db_ret {A} (a : A) : DbM A := fun db w => Some (a, db, w).
Definition db_bind {A B} (m : DbM A) (k : A -> DbM B) : DbM B :=
  fun db w => '(a, db, w) ← m db w; k a db w.

(** Reading and changing the state, using the environment, and failing. *)
Definition get_db : DbM (DBImpl F) := fun db w => Some (db, db, w).
Definition change (f : DBImpl F -> DBImpl F) : DbM () := fun db w => Some (tt, f db, w).
Definition with_env {A} (f : W -> A * W) : DbM A := fun db w => let '(a, w) := f w in Some (a, db, w).
Definition need {A} (o : option A) : DbM A := fun db w => a ← o; Some (a, db, w).
Definition assert (b : bool) : DbM () := fun db w => if b then Some (tt, db, w) else None.
Definition when (b : bool) (m : DbM ()) : DbM () := if b then m else db_ret tt.
Definition with_versions {A} (f : VersionSet F -> option (A * VersionSet F)) : DbM A :=
  fun db w => '(a, vs) ← f (db_versions_ db); Some (a, set_db_versions vs db, w).
Definition change_versions (f : VersionSet F -> option (VersionSet F)) : DbM () :=
  fun db w => vs ← f (db_versions_ db); Some (tt, set_db_versions vs db, w).

(** Running an operation step by step. *)
Lemma db_bind_run {A B} (m : DbM A) (k : A -> DbM B) db w a db' w' :
  m db w = Some (a, db', w') -> db_bind m k db w = k a db' w'.
Proof. intros H. unfold db_bind. by rewrite H. Qed.

Lemma db_change_run {B} (f : DBImpl F -> DBImpl F) (k : () -> DbM B) db w : db_bind (change f) k db w = k tt (f db) w.
Proof. done. Qed.

Lemma db_bind_inv {A B} (m : DbM A) (k : A -> DbM B) db w r :
  db_bind m k db w = Some r -> exists a db' w', m db w = Some (a, db', w') /\ k a db' w' = Some r.
Proof. unfold db_bind. destruct (m db w) as [[[a db'] w']|]; [|done]. cbn. eauto. Qed.

End Monad.

Arguments DbM : clear implicits.

Declare Scope db_scope.
Delimit Scope db_scope with db.
Notation "'let!' x := m 'in' k" := (db_bind m (fun x => k)) (at level 200, x name, m at level 100, k at level 200) : db_scope.
Notation "'let!' ' x := m 'in' k" := (db_bind m (fun p => match p with x => k end))
  (at level 200, x strict pattern, m at level 100, k at level 200) : db_scope.
Notation "m ';;' k" := (db_bind m (fun _ => k)) (at level 100, k at level 200, right associativity) : db_scope.

Section DbState.

Context {F W S : Type} `{!WritableFile F} `{!SequentialFile S} `{!DescriptorEnv (F := F) W S} `{!DbEnv W}.
Context (others : DBImpl F -> W -> DBImpl F * W).

#[local] Open Scope db_scope.

(** [mutex_.Lock()] after the mutex was released, and [Wait] on a condition. *)
Definition relock : DbM F W () := fun db w => let '(db, w) := others db w in Some (tt, db, w).

(** [shutting_down_.load] with the mutex released. *)
Definition load_shutting_down : DbM F W bool := relock;; let! db := get_db in db_ret (shutting_down_ db).

(** *** Memtables *)

Definition new_mem : DbM F W nat := fun db w =>
  let p := mem_alloc db in
  Some (p, set_mem_alloc (Datatypes.S p) (set_mems (<[p := MemTable_make]> (mems db)) db), w).

Definition mem_at (p : nat) : DbM F W MemTable := let! db := get_db in need (mems db !! p).
Definition put_mem (p : nat) (m : MemTable) : DbM F W () := change (fun db => set_mems (<[p := m]> (mems db)) db).

Definition mem_Ref (p : nat) : DbM F W () := let! m := mem_at p in put_mem p (Ref m).
Definition mem_Unref (p : nat) : DbM F W () :=
  let! m := mem_at p in
  match Unref m with
  | Some m => put_mem p m
  | None => change (fun db => set_mems (delete p (mems db)) db)
  end.

Definition when_some {A} (o : option A) (f : A -> DbM F W ()) : DbM F W () :=
  match o with Some a => f a | None => db_ret tt end.

(** *** Errors and scheduling *)

Definition RecordBackgroundError (s : Status) : DbM F W () :=
  let! db := get_db in
  if ok (bg_error_ db) then change (set_bg_error s) else db_ret tt.

Definition MaybeIgnoreError (s : Status) : DbM F W Status :=
  let! db := get_db in
  if ok s || paranoid_checks (db_options db) then db_ret s else db_ret OK.

Definition MaybeScheduleCompaction : DbM F W () :=
  let! db := get_db in
  if background_compaction_scheduled_ db then db_ret tt
  else if shutting_down_ db then db_ret tt
  else if negb (ok (bg_error_ db)) then db_ret tt
  else
    let! v := need (current_version (db_versions_ db)) in
    if bool_decide (imm_ db = None) && bool_decide (manual_compaction_ db = None) && negb (NeedsCompaction v) then db_ret tt
    else
      change (set_background_compaction_scheduled true);;
      with_env (fun w => (tt, env_Schedule w)).

(** *** Snapshots *)

Definition GetSnapshot : DbM F W nat :=
  relock;;
  let! db := get_db in
  let! '(p, l) := need (Snapshots_New (snapshots_ db) (vs_last_sequence_ (db_versions_ db))) in
  change (set_snapshots l);; db_ret p.

Definition ReleaseSnapshot (p : nat) : DbM F W () :=
  relock;;
  let! db := get_db in
  let! l := need (Snapshots_Delete (snapshots_ db) p) in
  change (set_snapshots l).

(** *** Statistics *)

Definition add_stats (level : Z) (stats : CompactionStats) : DbM F W () :=
  let! db := get_db in
  let! old := need (stats_ db !! Z.to_nat level) in
  change (set_stats (<[Z.to_nat level := CompactionStats_Add old stats]> (stats_ db))).

(** *** Versions *)

Definition log_and_apply (addr : Z) (edit : VersionEdit) : DbM F W (Status * VersionEdit) := fun db w =>
  '(s, edit, vs, w) ← LogAndApply addr (db_versions_ db) edit w;
  let '(db, w) := others (set_db_versions vs db) w in
  Some ((s, edit), db, w).

End DbState.
