(* ===== verification/DbFlush.v ===== *)
(** * Flushing memtables and removing files

    [RemoveObsoleteFiles], [WriteLevel0Table] and [CompactMemTable] of
    [db/db_impl.cc]. *)

From S2P Require Import Prelude Slice Coding Status Env Logging LogFormat LogReader Comparator DbFormat Random Arena SkipList MemTable WriteBatch VersionEdit Filename Format Iterator Options TableBuilder TwoLevel Version Compaction VersionSet Snapshot TableFromIter DbState.

Section Flush.

Context {F W S : Type} `{!WritableFile F} `{!SequentialFile S} `{!DescriptorEnv (F := F) W S} `{!DbEnv W}.
Context (others : DBImpl F -> W -> DBImpl F * W).
Context (snappy zstd : Codec) (addr : Z).

#[local] Open Scope db_scope.

(** ** [RemoveObsoleteFiles] *)

Definition keep_file (vs : VersionSet F) (live : gset Z) (number : Z) (type : FileType) : bool :=
  match type with
  | kLogFile => (vs_log_number_ vs <=? number) || (number =? vs_prev_log_number_ vs)
  | kDescriptorFile => manifest_file_number_ vs <=? number
  | kTableFile => bool_decide (number ∈ live)
  | kTempFile => bool_decide (number ∈ live)
  | kCurrentFile => true
  | kDBLockFile => true
  | kInfoLogFile => true
  end.

(** The files to delete; deleted tables are dropped from the table cache. *)
Fixpoint obsolete_files (vs : VersionSet F) (live : gset Z) (filenames : list bytes) : DbM F W (list bytes) :=
  match filenames with
  | [] => db_ret []
  | filename :: filenames =>
      match ParseFileName filename with
      | Some (number, type) =>
          if keep_file vs live number type then obsolete_files vs live filenames
          else
            when (bool_decide (type = kTableFile)) (with_env (fun w => (tt, cache_Evict number w)));;
            let! rest := obsolete_files vs live filenames in
            db_ret (filename :: rest)
      | None => obsolete_files vs live filenames
      end
  end.

Fixpoint remove_files (dbname : bytes) (filenames : list bytes) : DbM F W () :=
  match filenames with
  | [] => db_ret tt
  | filename :: filenames =>
      let! _ := with_env (env_RemoveFile (dbname ++ str "/" ++ filename)) in
      remove_files dbname filenames
  end.

(** The files that may not be deleted. *)
Definition live_files (db : DBImpl F) : gset Z := pending_outputs_ db ∪ list_to_set (AddLiveFiles (db_versions_ db)).

Definition RemoveObsoleteFiles : DbM F W () :=
  let! db := get_db in
  if negb (ok (bg_error_ db)) then db_ret tt
  else
    let live := live_files db in
    let! '(_, filenames) := with_env (env_GetChildren (db_name db)) in
    let! files_to_delete := obsolete_files (db_versions_ db) live filenames in
    remove_files (db_name db) files_to_delete;;
    relock others.

(** ** [WriteLevel0Table] *)

(** A turn of the loop of [BuildTable] for each entry, and one to see the end. *)
Definition mem_fuel (m : MemTable) : nat := Datatypes.S (length (nodes (table_ m))).

(** The level the new file goes to. *)
Definition output_level (base : option nat) (meta : FileMetaData) : DbM F W Z :=
  match base with
  | None => db_ret 0
  | Some id =>
      let! db := get_db in
      let vs := db_versions_ db in
      let! node := need (node_at vs id) in
      need (PickLevelForMemTableOutput (user_cmp vs) (fmeta (store_ vs)) (options_ vs) (files_ (version node))
              (InternalKey_user_key (smallest meta)) (InternalKey_user_key (largest meta)))
  end.

Definition WriteLevel0Table (mem : nat) (edit : VersionEdit) (base : option nat) : DbM F W (Status * VersionEdit) :=
  let! start_micros := with_env env_NowMicros in
  let! num := with_versions (fun vs => Some (NewFileNumber vs)) in
  change (fun db => set_pending_outputs ({[num]} ∪ pending_outputs_ db) db);;
  let! m := mem_at mem in
  let! db := get_db in
  let meta := FileMetaData_make num 0 (mkInternalKey []) (mkInternalKey []) in
  let! '(s, meta) := (fun db w =>
    '(s, meta, _, w, _) ← BuildTable (HI := MemTable_iterator (user_cmp (db_versions_ db))) snappy zstd addr cache_check
                            (mem_fuel m) (db_name db) (db_options db) (mem_NewIterator m) meta w;
    Some ((s, meta), db, w)) in
  relock others;;
  change (fun db => set_pending_outputs (pending_outputs_ db ∖ {[num]}) db);;
  let! '(level, edit) :=
    (if ok s && (0 <? file_size meta) then
       let! level := output_level base meta in
       db_ret (level, AddFile level (number meta) (file_size meta) (smallest meta) (largest meta) edit)
     else db_ret (0, edit)) in
  let! now := with_env env_NowMicros in
  add_stats level (mkCStats (now - start_micros) 0 (file_size meta));;
  db_ret (s, edit).

(** ** [CompactMemTable] *)

Definition CompactMemTable : DbM F W () :=
  let! db := get_db in
  let! imm := need (imm_ db) in
  let! base := need (current_ (db_versions_ db)) in
  change_versions (fun vs => Version_Ref vs base);;
  let! '(s, edit) := WriteLevel0Table imm VersionEdit_Clear (Some base) in
  change_versions (fun vs => Version_Unref vs base);;
  let! db := get_db in
  let s := if ok s && shutting_down_ db then IOError (str "Deleting DB during memtable compaction") [] else s in
  let! s :=
    (if ok s then
       let edit := SetLogNumber (logfile_number_ db) (SetPrevLogNumber 0 edit) in
       let! '(s, _) := log_and_apply others addr edit in db_ret s
     else db_ret s) in
  if ok s then
    let! db := get_db in
    let! imm := need (imm_ db) in
    mem_Unref imm;;
    change (fun db => set_has_imm false (set_imm None db));;
    RemoveObsoleteFiles
  else RecordBackgroundError s.

(** ** What is removed *)

(** A file the database may still read: the files of every version that is still
    referenced, the outputs being written, the logs not yet compacted, the
    descriptor, and everything else that is not numbered. *)
Definition needed (db : DBImpl F) (num : Z) (type : FileType) : Prop :=
  let vs := db_versions_ db in
  let table := num ∈ pending_outputs_ db \/
    exists id node p, (id, node) ∈ versions_ vs /\ p ∈ concat (files_ (version node)) /\ number (fmeta (store_ vs) p) = num in
  match type with
  | kLogFile => vs_log_number_ vs <= num \/ num = vs_prev_log_number_ vs
  | kDescriptorFile => manifest_file_number_ vs <= num
  | kTableFile | kTempFile => table
  | kCurrentFile | kDBLockFile | kInfoLogFile => True
  end.

Lemma AddLiveFiles_spec (vs : VersionSet F) num :
  num ∈ AddLiveFiles vs <->
  exists id node p, (id, node) ∈ versions_ vs /\ p ∈ concat (files_ (version node)) /\ number (fmeta (store_ vs) p) = num.
Proof.
  unfold AddLiveFiles. rewrite list_elem_of_In, in_concat. split.
  - intros (l & Hl & Hn). apply in_map_iff in Hl as ([id node] & <- & Hin). apply in_map_iff in Hn as (p & <- & Hp).
    exists id, node, p. by rewrite !list_elem_of_In.
  - intros (id & node & p & Hin & Hp & <-). apply list_elem_of_In in Hin, Hp. eexists. split; [apply in_map_iff; by exists (id, node)|].
    apply in_map_iff. by exists p.
Qed.

Lemma keep_file_spec db num type :
  keep_file (db_versions_ db) (live_files db) num type = true <-> needed db num type.
Proof.
  assert (Hlive : num ∈ live_files db <-> num ∈ pending_outputs_ db \/
    exists id node p, (id, node) ∈ versions_ (db_versions_ db) /\ p ∈ concat (files_ (version node)) /\
      number (fmeta (store_ (db_versions_ db)) p) = num).
  { unfold live_files. by rewrite elem_of_union, elem_of_list_to_set, AddLiveFiles_spec. }
  unfold needed. destruct type; cbn [keep_file]; rewrite ?bool_decide_eq_true, ?orb_true_iff, ?Z.leb_le, ?Z.eqb_eq; try done; by apply Hlive.
Qed.

(** A name in the directory that no longer names a file of the database. *)
Definition obsolete (db : DBImpl F) (name : bytes) : Prop :=
  exists num type, ParseFileName name = Some (num, type) /\ ~ needed db num type.

(** The environment after removing files, and after dropping tables from the cache. *)
Definition removed (dbname : bytes) (names : list bytes) (w : W) : W :=
  fold_left (fun w name => snd (env_RemoveFile (dbname ++ str "/" ++ name) w)) names w.

Definition evicted (names : list bytes) (w : W) : W :=
  fold_left (fun w name => match ParseFileName name with
                           | Some (num, kTableFile) => cache_Evict num w
                           | _ => w
                           end) names w.

Lemma remove_files_run dbname names : forall db w, remove_files dbname names db w = Some (tt, db, removed dbname names w).
Proof.
  induction names as [|n names IH]; intros db w; [done|]. cbn [remove_files]. unfold db_bind, with_env.
  cbn [removed fold_left]. destruct (env_RemoveFile (dbname ++ str "/" ++ n) w) as [s w1]. apply IH.
Qed.

Lemma obsolete_files_run db names : forall db0 w, exists deleted,
  obsolete_files (db_versions_ db) (live_files db) names db0 w = Some (deleted, db0, evicted deleted w) /\
  forall name, name ∈ deleted <-> name ∈ names /\ obsolete db name.
Proof.
  induction names as [|n names IH]; intros db0 w.
  { exists []. split; [done|]. intros name. split; [intros H; by apply elem_of_nil in H|]. intros [H _]. by apply elem_of_nil in H. }
  assert (Hskip : ~ obsolete db n -> forall deleted : list bytes, (forall name, name ∈ deleted <-> name ∈ names /\ obsolete db name) ->
            forall name, name ∈ deleted <-> name ∈ n :: names /\ obsolete db name).
  { intros Hn deleted Hd name. rewrite Hd, elem_of_cons. split; [tauto|]. by intros [[->|?] ?]. }
  cbn [obsolete_files]. destruct (ParseFileName n) as [[num type]|] eqn:Ep.
  2:{ destruct (IH db0 w) as (deleted & He & Hd). exists deleted. split; [done|]. apply Hskip; [|done].
      intros (num & type & E & _). congruence. }
  destruct (keep_file (db_versions_ db) (live_files db) num type) eqn:Ek.
  { destruct (IH db0 w) as (deleted & He & Hd). exists deleted. split; [done|]. apply Hskip; [|done].
    intros (num' & type' & E & Hn). rewrite Ep in E. injection E as <- <-. by apply Hn, keep_file_spec. }
  set (w1 := if bool_decide (type = kTableFile) then cache_Evict num w else w).
  destruct (IH db0 w1) as (deleted & He & Hd). exists (n :: deleted). split.
  - unfold db_bind, when, with_env, db_ret. cbn [evicted fold_left]. rewrite Ep.
    replace (match type with kTableFile => cache_Evict num w | _ => w end) with w1 by (unfold w1; by destruct type).
    unfold w1 in *. destruct (bool_decide (type = kTableFile)); cbn [mbind option_bind]; by rewrite He.
  - intros name. rewrite !elem_of_cons, Hd. assert (obsolete db n).
    { exists num, type. split; [done|]. intros Hn. apply keep_file_spec in Hn. congruence. }
    split; [|tauto]. by intros [->|[? ?]]; auto.
Qed.

(** C23: garbage collection removes exactly the files nothing needs.  The names
    [RemoveObsoleteFiles] passes to the environment are those of the directory that
    name a numbered file which is not a table of any version still referenced, not
    an output being written, not a log whose contents have not reached a table, and
    not the descriptor in use or a newer one; [CURRENT], the lock and the info logs
    are never removed.  After a background error nothing is removed. *)
Theorem remove_obsolete_files db w :
  if ok (bg_error_ db) then
    exists deleted : list bytes, let '(_, names, w1) := env_GetChildren (db_name db) w in
      (forall name, name ∈ deleted <-> name ∈ names /\ obsolete db name) /\
      RemoveObsoleteFiles db w =
        let '(db', w') := others db (removed (db_name db) deleted (evicted deleted w1)) in Some (tt, db', w')
  else RemoveObsoleteFiles db w = Some (tt, db, w).
Proof.
  unfold RemoveObsoleteFiles, db_bind, get_db, with_env. cbn [mbind option_bind].
  destruct (ok (bg_error_ db)); [|done]. cbn [negb].
  destruct (env_GetChildren (db_name db) w) as [[s names] w1]. cbn [mbind option_bind].
  destruct (obsolete_files_run db names db w1) as (deleted & Hrun & Hd). exists deleted. split; [done|].
  rewrite Hrun. cbn [mbind option_bind]. rewrite remove_files_run. cbn [mbind option_bind]. done.
Qed.

End Flush.
