(* ===== verification/CompactWork.v ===== *)
(** * Running a compaction

    [DoCompactionWork] of [db/db_impl.cc] with the functions it calls: opening and
    finishing output files, deciding which entries to drop, installing the results
    and cleaning up. *)

From S2P Require Import Prelude Slice Coding Status Env Logging LogFormat LogReader Comparator DbFormat Random Arena SkipList MemTable WriteBatch VersionEdit Filename Format Iterator Options TableBuilder TwoLevel Version Compaction VersionSet Snapshot TableFromIter DbState DbFlush.

(** [CompactionState::Output] *)
Record Output := mkOutput { out_number : Z; out_file_size : Z; out_smallest : InternalKey; out_largest : InternalKey }.

(** [CompactionState]: [builder] holds [outfile] as its file; [done_files] are the
    output files as they were closed. *)
Record CompactionState (F : Type) := mkCompactionState {
  compaction : Compaction nat;
  smallest_snapshot : Z;
  outputs : list Output;
  builder : option (Rep F);
  total_bytes : Z;
  done_files : list F
}.
Arguments mkCompactionState {F}.
Arguments compaction {F}.
Arguments smallest_snapshot {F}.
Arguments outputs {F}.
Arguments builder {F}.
Arguments total_bytes {F}.
Arguments done_files {F}.

Section Setters.

Context {F : Type}.

Implicit Types cs : CompactionState F.

Definition CompactionState_make (comp : Compaction nat) : CompactionState F := mkCompactionState comp 0 [] None 0 [].
Definition set_compaction (x : Compaction nat) cs : CompactionState F :=
  mkCompactionState x (smallest_snapshot cs) (outputs cs) (builder cs) (total_bytes cs) (done_files cs).
Definition set_smallest_snapshot (x : Z) cs : CompactionState F :=
  mkCompactionState (compaction cs) x (outputs cs) (builder cs) (total_bytes cs) (done_files cs).
Definition set_outputs (x : list Output) cs : CompactionState F :=
  mkCompactionState (compaction cs) (smallest_snapshot cs) x (builder cs) (total_bytes cs) (done_files cs).
Definition set_builder (x : option (Rep F)) cs : CompactionState F :=
  mkCompactionState (compaction cs) (smallest_snapshot cs) (outputs cs) x (total_bytes cs) (done_files cs).
Definition finish_output (bytes : Z) (file : F) cs : CompactionState F :=
  mkCompactionState (compaction cs) (smallest_snapshot cs) (outputs cs) None (u64 (total_bytes cs + bytes)) (done_files cs ++ [file]).

(** [*current_output()], changed. *)
Fixpoint change_last {A} (f : A -> A) (l : list A) : option (list A) :=
  match l with
  | [] => None
  | [x] => Some [f x]
  | x :: l => l ← change_last f l; Some (x :: l)
  end.
Definition change_output (f : Output -> Output) cs : option (CompactionState F) :=
  l ← change_last f (outputs cs); Some (set_outputs l cs).

End Setters.

Section CompactWork.

Context {F W S : Type} `{!WritableFile F} `{!SequentialFile S} `{!DescriptorEnv (F := F) W S} `{!DbEnv W}.
Context (others : DBImpl F -> W -> DBImpl F * W).
Context (snappy zstd : Codec) (addr : Z).
Context {I : Type} `{!Iterator I}.

#[local] Open Scope db_scope.

Implicit Types cs : CompactionState F.

(** ** Output files *)

Definition OpenCompactionOutputFile cs : DbM F W (Status * CompactionState F) :=
  assert (bool_decide (builder cs = None));;
  relock others;;
  let! file_number := with_versions (fun vs => Some (NewFileNumber vs)) in
  change (fun db => set_pending_outputs ({[file_number]} ∪ pending_outputs_ db) db);;
  let cs := set_outputs (outputs cs ++ [mkOutput file_number 0 (mkInternalKey []) (mkInternalKey [])]) cs in
  let! db := get_db in
  let! '(s, file) := with_env (env_NewWritableFile (TableFileName (db_name db) file_number)) in
  if ok s then
    let! file := need file in
    let! b := need (TableBuilder_make (db_options db) file) in
    db_ret (s, set_builder (Some b) cs)
  else db_ret (s, cs).

(** Finishing or abandoning the builder, then the file: the status, the size and
    the file as it is left. *)
Definition close_output (s : Status) (b : Rep F) : option (Status * Z * F) :=
  '(s, b) ← (if ok s then b ← TableBuilder_Finish snappy zstd addr b; Some (r_status b, b)
             else b ← TableBuilder_Abandon b; Some (s, b));
  let current_bytes := FileSize b in
  let file := r_file b in
  let '(s, file) := if ok s then Sync file else (s, file) in
  let '(s, file) := if ok s then Close file else (s, file) in
  Some (s, current_bytes, file).

Definition FinishCompactionOutputFile cs (input : I) : DbM F W (Status * CompactionState F) :=
  let! b := need (builder cs) in
  let! out := need (last (outputs cs)) in
  let output_number := out_number out in
  assert (negb (output_number =? 0));;
  let current_entries := NumEntries b in
  let! '(s, current_bytes, file) := need (close_output (it_status input) b) in
  let! cs := need (change_output (fun o => mkOutput (out_number o) current_bytes (out_smallest o) (out_largest o)) cs) in
  let cs := finish_output current_bytes file cs in
  if ok s && (0 <? current_entries) then
    let! s := with_env (cache_check output_number current_bytes) in db_ret (s, cs)
  else db_ret (s, cs).

(** ** Dropping entries *)

Record KeyState := mkKeyState { current_user_key : bytes; has_current_user_key : bool; last_sequence_for_key : Z }.

Definition no_key : KeyState := mkKeyState [] false kMaxSequenceNumber.

Section Keys.

Context (c : Comparator) (meta : nat -> FileMetaData) (smallest_snap : Z).

(** Whether an entry is dropped. *)
Definition handle_key (ks : KeyState) (comp : Compaction nat) (key : bytes) : bool * KeyState * Compaction nat :=
  match ParseInternalKey key with
  | None => (false, no_key, comp)
  | Some ikey =>
      let ks :=
        if negb (has_current_user_key ks) || negb (Compare c (user_key ikey) (current_user_key ks) =? 0)
        then mkKeyState (user_key ikey) true kMaxSequenceNumber else ks in
      let '(drop, comp) :=
        if last_sequence_for_key ks <=? smallest_snap then (true, comp)
        else if bool_decide (type ikey = kTypeDeletion) && (sequence ikey <=? smallest_snap)
        then IsBaseLevelForKey c meta comp (user_key ikey)
        else (false, comp) in
      (drop, mkKeyState (current_user_key ks) (has_current_user_key ks) (sequence ikey), comp)
  end.

End Keys.

(** ** The loop over the input *)

Section Loop.

Context (c : Comparator) (meta : nat -> FileMetaData) (options : Options).

(** Memtable compaction work first, if there is any: the time spent on it. *)
Definition prioritize_imm : DbM F W Z :=
  relock others;;
  let! db := get_db in
  if has_imm_ db then
    let! imm_start := with_env env_NowMicros in
    relock others;;
    let! db := get_db in
    (if bool_decide (imm_ db = None) then db_ret tt else CompactMemTable others snappy zstd addr);;
    let! now := with_env env_NowMicros in
    db_ret (now - imm_start)
  else db_ret 0.

(** Ending the output file before a key that must not go into it. *)
Definition stop_before cs (input : I) : DbM F W (Status * CompactionState F) :=
  let '(stop, comp) := ShouldStopBefore options c meta (compaction cs) (it_key input) in
  let cs := set_compaction comp cs in
  if stop && negb (bool_decide (builder cs = None)) then FinishCompactionOutputFile cs input
  else db_ret (OK, cs).

(** Adding an entry that is kept. *)
Definition add_entry cs (input : I) : DbM F W (Status * CompactionState F) :=
  let! '(s, cs) := (if bool_decide (builder cs = None) then OpenCompactionOutputFile cs else db_ret (OK, cs)) in
  if negb (ok s) then db_ret (s, cs)
  else
    let key := it_key input in
    let! b := need (builder cs) in
    let first := NumEntries b =? 0 in
    let! cs := need (change_output (fun o =>
      mkOutput (out_number o) (out_file_size o)
        (if first then snd (InternalKey_DecodeFrom key) else out_smallest o) (snd (InternalKey_DecodeFrom key))) cs) in
    let! b := need (TableBuilder_Add snappy zstd addr b key (it_value input)) in
    let cs := set_builder (Some b) cs in
    if max_output_file_size_ (compaction cs) <=? FileSize b then FinishCompactionOutputFile cs input
    else db_ret (OK, cs).

Fixpoint compact_loop (fuel : nat) (input : I) (ks : KeyState) cs (imm_micros : Z)
  : DbM F W (Status * I * CompactionState F * Z) :=
  match fuel with
  | O => need None
  | Datatypes.S fuel =>
      if it_Valid input then
        let! shutting := load_shutting_down others in
        if shutting : bool then db_ret (OK, input, cs, imm_micros)
        else
          let! spent := prioritize_imm in
          let imm_micros := imm_micros + spent in
          let! '(s, cs) := stop_before cs input in
          if negb (ok s) then db_ret (s, input, cs, imm_micros)
          else
            let '(drop, ks, comp) := handle_key c meta (smallest_snapshot cs) ks (compaction cs) (it_key input) in
            let cs := set_compaction comp cs in
            let! '(s, cs) := (if drop : bool then db_ret (OK, cs) else add_entry cs input) in
            if negb (ok s) then db_ret (s, input, cs, imm_micros)
            else
              let! input := need (it_Next input) in
              compact_loop fuel input ks cs imm_micros
      else db_ret (OK, input, cs, imm_micros)
  end.

(** The end of the loop: the last output file, and the input's own status. *)
Definition finish_loop (s : Status) (input : I) cs : DbM F W (Status * CompactionState F) :=
  let! shutting := (if ok s then load_shutting_down others else db_ret false) in
  let s := if shutting : bool then IOError (str "Deleting DB during compaction") [] else s in
  let! '(s, cs) :=
    (if ok s && negb (bool_decide (builder cs = None)) then FinishCompactionOutputFile cs input else db_ret (s, cs)) in
  db_ret (if ok s then it_status input else s, cs).

Definition run_compaction (fuel : nat) (input : I) cs : DbM F W (Status * CompactionState F * Z) :=
  let! input := need (it_SeekToFirst input) in
  let! '(s, input, cs, imm_micros) := compact_loop fuel input no_key cs 0 in
  let! '(s, cs) := finish_loop s input cs in
  db_ret (s, cs, imm_micros).

End Loop.

(** ** Installing the results *)

Definition InstallCompactionResults cs : DbM F W (Status * CompactionState F) :=
  let! db := get_db in
  let comp := compaction cs in
  let edit := AddInputDeletions (fmeta (store_ (db_versions_ db))) comp (edit_ comp) in
  let edit := fold_left (fun edit out =>
    AddFile (level_ comp + 1) (out_number out) (out_file_size out) (out_smallest out) (out_largest out) edit) (outputs cs) edit in
  let! '(s, edit) := log_and_apply others addr edit in
  db_ret (s, set_compaction (mkCompaction (level_ comp) (max_output_file_size_ comp) (input_files comp) edit (inputs_0 comp)
    (inputs_1 comp) (grandparents_ comp) (grandparent_index_ comp) (seen_key_ comp) (overlapped_bytes_ comp) (level_ptrs_ comp)) cs).

(** ** [DoCompactionWork] *)

(** The oldest sequence number a reader may still ask for. *)
Definition oldest_needed (db : DBImpl F) : option Z :=
  none ← Snapshots_empty (snapshots_ db);
  if none : bool then Some (vs_last_sequence_ (db_versions_ db))
  else p ← oldest (snapshots_ db); sn ← snapshot_at (snapshots_ db) p; Some (sequence_number_ sn).

(** [MakeInputIterator] gives the input, as the tables are; the metadata of the compaction's files,
    which its version keeps and nobody changes, are read once. *)
Definition DoCompactionWork (fuel : nat) (input : W -> option I) cs
  : DbM F W (Status * CompactionState F) :=
  let! start_micros := with_env env_NowMicros in
  let! db := get_db in
  let vs := db_versions_ db in
  let! v := need (current_version vs) in
  let! n := need (NumLevelFiles v (level_ (compaction cs))) in
  assert (0 <? n);;
  assert (bool_decide (builder cs = None));;
  let! snap := need (oldest_needed db) in
  let cs := set_smallest_snapshot snap cs in
  let! it := (fun db w => it ← input w; Some (it, db, w)) in
  let meta := fmeta (store_ vs) in
  let! '(s, cs, imm_micros) := run_compaction (user_cmp vs) meta (options_ vs) fuel it cs in
  let! now := with_env env_NowMicros in
  let bytes_read := TotalFileSize meta (inputs_0 (compaction cs) ++ inputs_1 (compaction cs)) in
  let bytes_written := fold_left (fun n out => n + out_file_size out) (outputs cs) 0 in
  relock others;;
  add_stats (level_ (compaction cs) + 1) (mkCStats (now - start_micros - imm_micros) bytes_read bytes_written);;
  let! '(s, cs) := (if ok s then InstallCompactionResults cs else db_ret (s, cs)) in
  when (negb (ok s)) (RecordBackgroundError s);;
  db_ret (s, cs).

(** ** [CleanupCompaction] *)

Definition CleanupCompaction cs : DbM F W () :=
  (match builder cs with
   | Some b => let! _ := need (TableBuilder_Abandon b) in db_ret tt
   | None => db_ret tt
   end);;
  change (fun db => set_pending_outputs (pending_outputs_ db ∖ list_to_set (map out_number (outputs cs))) db).

End CompactWork.
