(* ===== verification/CompactRead.v ===== *)
(** * What a compaction may drop

    The rules of [DoCompactionWork] for dropping entries keep every read that can
    still be made: at the oldest snapshot in use and at every later one. *)

From S2P Require Import Prelude Slice Coding Status Env Comparator DbFormat VersionEdit Format Iterator Options TwoLevel DbIter Version VersionSpec Compaction CompactionSpec VersionSet CompactWork.

(** ** Reading a list of entries *)

(** The entry a reader at sequence number [q] finds for a user key, newer entries of
    a key being in front of older ones. *)
Definition find_at (c : Comparator) (q : Z) (l : list entry) (u : bytes) : option entry :=
  List.find (fun e => (Compare c (e_user e) u =? 0) && (e_seq e <=? q)) l.

(** What it reads: a value, or nothing. *)
Definition read_at (c : Comparator) (q : Z) (l : list entry) (u : bytes) : option bytes :=
  e ← find_at c q l u;
  match e_type e with kTypeValue => Some (snd e) | kTypeDeletion => None end.

Section Reads.

Context (c : Comparator) {L : ComparatorLaws c}.

Notation ucmp := (Compare c).
Notation icmp := (ikey_Compare c).

Lemma ParseInternalKey_parts e : entry_parses e = true ->
  ParseInternalKey (fst e) = Some (mkParsedInternalKey (e_user e) (e_seq e) (e_type e)).
Proof.
  unfold entry_parses. rewrite bool_decide_eq_true. intros [ik Hk]. rewrite Hk. f_equal. unfold ParseInternalKey in Hk.
  destruct (blen (fst e) <? 8); [done|]. destruct (Z.land _ _ <=? _); [|done]. by injection Hk as <-.
Qed.

(** ** The rules, with what is below the output given *)

Definition drop_key (smallest : Z) (base : bytes -> bool) (ks : KeyState) (e : entry) : bool * KeyState :=
  let ks :=
    if negb (has_current_user_key ks) || negb (ucmp (e_user e) (current_user_key ks) =? 0)
    then mkKeyState (e_user e) true kMaxSequenceNumber else ks in
  let drop :=
    if last_sequence_for_key ks <=? smallest then true
    else bool_decide (e_type e = kTypeDeletion) && (e_seq e <=? smallest) && base (e_user e) in
  (drop, mkKeyState (current_user_key ks) (has_current_user_key ks) (e_seq e)).

Fixpoint surviving (smallest : Z) (base : bytes -> bool) (ks : KeyState) (es : list entry) : list entry :=
  match es with
  | [] => []
  | e :: es =>
      let '(drop, ks) := drop_key smallest base ks e in
      if drop then surviving smallest base ks es else e :: surviving smallest base ks es
  end.

Lemma surviving_sublist smallest base es : forall ks, sublist (surviving smallest base ks es) es.
Proof.
  induction es as [|e es IH]; intros ks; cbn [surviving]; [constructor|].
  destruct (drop_key smallest base ks e) as [[] ks']; by constructor.
Qed.

Context (smallest : Z) (Hsmall : smallest < kMaxSequenceNumber) (base : bytes -> bool).

(** The state after the entry [p]. *)
Definition after (ks : KeyState) (p : option entry) : Prop :=
  match p with
  | None => ks = no_key
  | Some p => has_current_user_key ks = true /\ ucmp (e_user p) (current_user_key ks) = 0 /\ last_sequence_for_key ks = e_seq p
  end.

(** The last sequence number the rules compare with. *)
Definition seq_before (p : option entry) (e : entry) : Z :=
  match p with
  | Some p => if ucmp (e_user e) (e_user p) =? 0 then e_seq p else kMaxSequenceNumber
  | None => kMaxSequenceNumber
  end.

Lemma eq_swap a b d : ucmp a b = 0 -> (ucmp d b =? 0) = (ucmp d a =? 0).
Proof.
  intros H. apply eq_bool_prop_intro. rewrite !Is_true_true, !Z.eqb_eq. split; intros Hd; eapply (cmp_eq_trans ucmp); try done.
  by apply (cmp_opp_eq ucmp).
Qed.

Lemma drop_key_spec ks p e :
  after ks p ->
  fst (drop_key smallest base ks e) =
    (if seq_before p e <=? smallest then true else bool_decide (e_type e = kTypeDeletion) && (e_seq e <=? smallest) && base (e_user e)) /\
  after (snd (drop_key smallest base ks e)) (Some e).
Proof.
  unfold drop_key, after, seq_before. destruct p as [p|].
  - intros (Hh & Hc & Hl). rewrite Hh. cbn [negb orb]. rewrite (eq_swap (e_user p) (current_user_key ks) (e_user e) Hc).
    destruct (Z.eqb_spec (ucmp (e_user e) (e_user p)) 0) as [He|He]; cbn [negb fst snd has_current_user_key current_user_key last_sequence_for_key].
    + rewrite Hl. split; [done|]. split; [done|]. split; [|done].
      apply Z.eqb_eq. rewrite (eq_swap (e_user p) (current_user_key ks) (e_user e) Hc). by apply Z.eqb_eq.
    + split; [done|]. split; [done|]. split; [by rewrite cmp_refl|done].
  - intros ->. cbn [no_key has_current_user_key negb orb fst snd current_user_key last_sequence_for_key].
    split; [done|]. split; [done|]. split; [by rewrite cmp_refl|done].
Qed.

(** ** Reads are kept *)

Lemma entry_lt_parts x y : entry_lt icmp x y ->
  ucmp (e_user x) (e_user y) < 0 \/ (ucmp (e_user x) (e_user y) = 0 /\ e_seq y <= e_seq x).
Proof.
  unfold entry_lt. rewrite ikey_Compare_spec. fold (e_user x) (e_user y).
  destruct (Z.eqb_spec (ucmp (e_user x) (e_user y)) 0) as [He|He]; [|lia]. intros Hs. right. split; [done|].
  unfold e_seq. rewrite !Z.shiftr_div_pow2 by lia. apply Z.div_le_mono; [lia|].
  destruct (Z.sgn_spec (key_tag (fst y) - key_tag (fst x))) as [[? ?]|[[? ?]|[? ?]]]; lia.
Qed.

(** Once an entry at or below [smallest] has been seen, no entry of its key is
    kept. *)
Lemma hidden_after u es : forall ks p,
  StronglySorted (entry_lt icmp) (p :: es) -> after ks (Some p) -> ucmp (e_user p) u = 0 -> e_seq p <= smallest ->
  forall e, e ∈ surviving smallest base ks es -> ucmp (e_user e) u <> 0.
Proof.
  induction es as [|x es IH]; intros ks p Hs Ha Hp Hseq e He; cbn [surviving] in He; [by apply elem_of_nil in He|].
  destruct (drop_key_spec ks (Some p) x Ha) as [Hd Ha']. destruct (drop_key smallest base ks x) as [d ks']. cbn [fst snd] in Hd, Ha'.
  apply StronglySorted_inv in Hs as [Hs Hall]. apply Forall_cons in Hall as [Hpx _].
  destruct (entry_lt_parts p x Hpx) as [Hlt|[Heq Hle]].
  - assert (Hin : e ∈ x :: es).
    { destruct d; [right|apply elem_of_cons in He as [->|He]; [by left|right]]; (eapply elem_of_sublist; [done|apply surviving_sublist]). }
    assert (Hxe : ucmp (e_user p) (e_user e) < 0).
    { apply elem_of_cons in Hin as [->|Hin]; [done|]. apply StronglySorted_inv in Hs as [_ Hall]. rewrite Forall_forall in Hall.
      destruct (entry_lt_parts x e (Hall e Hin)) as [H1|[H1 _]]; [by eapply (cmp_lt_trans ucmp)|]. eapply (cmp_lt_le_trans ucmp); [done|]. lia. }
    intros Heu. apply (cmp_opp_eq ucmp) in Heu. assert (ucmp (e_user p) (e_user e) = 0) by (by eapply (cmp_eq_trans ucmp)). lia.
  - cbn [seq_before] in Hd. rewrite (proj2 (Z.eqb_eq (ucmp (e_user x) (e_user p)) 0)) in Hd by (by apply (cmp_opp_eq ucmp)).
    rewrite (proj2 (Z.leb_le _ _) Hseq) in Hd. subst d.
    apply (IH ks' x); [done|done| |lia|done]. eapply (cmp_eq_trans ucmp); [by apply (cmp_opp_eq ucmp)|done].
Qed.

Lemma find_at_none l q u : (forall e, e ∈ l -> ucmp (e_user e) u <> 0) -> find_at c q l u = None.
Proof.
  intros H. unfold find_at. induction l as [|x l IH]; [done|]. cbn [List.find].
  rewrite (proj2 (Z.eqb_neq _ _) (H x ltac:(left))). apply IH. intros e He. apply H. by right.
Qed.

Lemma find_at_app l l' q u : find_at c q (l ++ l') u = match find_at c q l u with Some e => Some e | None => find_at c q l' u end.
Proof. unfold find_at. induction l as [|x l IH]; [done|]. cbn [List.find app]. by destruct (_ && _). Qed.

Lemma read_at_cons_skip e l q u : (ucmp (e_user e) u =? 0) && (e_seq e <=? q) = false -> read_at c q (e :: l) u = read_at c q l u.
Proof. intros H. unfold read_at, find_at. cbn [List.find]. by rewrite H. Qed.

Lemma read_at_cons_hit e l l' q u : (ucmp (e_user e) u =? 0) && (e_seq e <=? q) = true -> read_at c q (e :: l) u = read_at c q (e :: l') u.
Proof. intros H. unfold read_at, find_at. cbn [List.find]. by rewrite H. Qed.

(** Entries of one user key are shown alike by what is below. *)
Context (below : list entry) (Hbelow : forall e u, e ∈ below -> ucmp (e_user e) u = 0 -> base u = false).

Lemma surviving_reads q u es : smallest <= q -> forall ks p,
  after ks p -> Forall (fun e => entry_parses e = true) es ->
  StronglySorted (entry_lt icmp) (option_list p ++ es) ->
  (forall e, p = Some e -> ucmp (e_user e) u = 0 -> smallest < e_seq e) ->
  read_at c q (surviving smallest base ks es ++ below) u = read_at c q (es ++ below) u.
Proof.
  intros Hq. induction es as [|e es IH]; intros ks p Ha Hparse Hs Hp; [done|]. cbn [surviving].
  destruct (drop_key_spec ks p e Ha) as [Hd Ha']. destruct (drop_key smallest base ks e) as [d ks']. cbn [fst snd] in Hd, Ha'.
  apply Forall_cons in Hparse as [_ Hparse]. pose proof Hs as Hes. apply StronglySorted_app_1_r in Hes.
  assert (Hseq : ucmp (e_user e) u = 0 -> (seq_before p e <=? smallest) = false).
  { intros He. apply Z.leb_gt. unfold seq_before. destruct p as [p|]; [|done].
    destruct (Z.eqb_spec (ucmp (e_user e) (e_user p)) 0) as [Hep|]; [|done].
    apply (Hp p eq_refl). eapply (cmp_eq_trans ucmp); [by apply (cmp_opp_eq ucmp)|done]. }
  destruct (Z.eqb_spec (ucmp (e_user e) u) 0) as [He|He].
  - rewrite (Hseq He) in Hd. destruct (Z.leb_spec (e_seq e) q) as [Hle|Hgt].
    + destruct d; [|apply read_at_cons_hit; apply andb_true_iff; split; [by apply Z.eqb_eq|by apply Z.leb_le]].
      symmetry in Hd. apply andb_true_iff in Hd as [Hd Hb]. apply andb_true_iff in Hd as [Ht Hle']. apply bool_decide_eq_true in Ht. apply Z.leb_le in Hle'.
      assert (Hr : read_at c q ((e :: es) ++ below) u = None).
      { unfold read_at, find_at. cbn [app List.find]. rewrite (proj2 (Z.eqb_eq _ _) He), (proj2 (Z.leb_le _ _) Hle). cbn. by rewrite Ht. }
      rewrite Hr. unfold read_at. rewrite find_at_app, find_at_none, find_at_none; [done| |].
      * intros b Hb' Hbu. assert (base (e_user e) = false); [|congruence]. apply (Hbelow b); [done|].
        eapply (cmp_eq_trans ucmp); [done|]. by apply (cmp_opp_eq ucmp).
      * by apply (hidden_after u es ks' e).
    + assert (d = false) as ->.
      { rewrite Hd. rewrite (proj2 (Z.leb_gt (e_seq e) smallest)) by lia. by rewrite andb_false_r. }
      assert (Hskip : (ucmp (e_user e) u =? 0) && (e_seq e <=? q) = false) by (apply andb_false_iff; right; by apply Z.leb_gt).
      rewrite <- !app_comm_cons, !read_at_cons_skip by done.
      apply (IH ks' (Some e)); [done|done|done|]. intros e' [= <-] _. lia.
  - assert (Hskip : (ucmp (e_user e) u =? 0) && (e_seq e <=? q) = false) by (apply andb_false_iff; left; by apply Z.eqb_neq).
    assert (Hrest : read_at c q (surviving smallest base ks' es ++ below) u = read_at c q (es ++ below) u).
    { apply (IH ks' (Some e)); [done|done|done|]. by intros e' [= <-]. }
    rewrite <- app_comm_cons, (read_at_cons_skip e (es ++ below)) by done. destruct d; [done|]. rewrite <- app_comm_cons, read_at_cons_skip by done. done.
Qed.

End Reads.

(** ** The rules as the code applies them *)

Section HandleKey.

Context (c : Comparator) {L : ComparatorLaws c} (meta : nat -> FileMetaData) (smallest : Z).

(** No file below the output of the compaction has the key in its range. *)
Definition no_deeper (comp : Compaction nat) (u : bytes) : bool := negb (somewhere c meta (below_output comp) u).

Lemma handle_key_spec ks comp e k0 :
  pointers_ok c meta comp k0 -> Compare c k0 (e_user e) <= 0 -> entry_parses e = true ->
  exists ptrs, let '(drop, ks') := drop_key c smallest (no_deeper comp) ks e in
    handle_key c meta smallest ks comp (fst e) = (drop, ks', set_level_ptrs comp ptrs) /\
    pointers_ok c meta (set_level_ptrs comp ptrs) (e_user e).
Proof.
  intros Hp Hk Hparse. unfold handle_key, drop_key. rewrite ParseInternalKey_parts by done. cbn [user_key sequence type].
  match goal with |- context [if ?b then mkKeyState ?x ?y ?z else ks] => set (ks1 := if b then mkKeyState x y z else ks) end. apply (pointers_mono c meta comp k0 (e_user e)) in Hp; [|done].
  assert (Hsame : set_level_ptrs comp (level_ptrs_ comp) = comp) by (by destruct comp).
  destruct (last_sequence_for_key ks1 <=? smallest); [exists (level_ptrs_ comp); by rewrite Hsame|].
  destruct (bool_decide (e_type e = kTypeDeletion) && (e_seq e <=? smallest)); cbn [andb]; [|exists (level_ptrs_ comp); by rewrite Hsame].
  destruct (IsBaseLevelForKey_spec c meta comp (e_user e) Hp) as (ptrs & Heq & Hp'). exists ptrs. rewrite Heq. done.
Qed.

Lemma existsb_same {A} (f g : A -> bool) l : (forall x, f x = g x) -> existsb f l = existsb g l.
Proof. intros H. induction l as [|x l IH]; [done|]. cbn [existsb]. by rewrite H, IH. Qed.

(** A key in the range of a file is compared, not looked up by its bytes. *)
Lemma no_deeper_eq comp u v : Compare c u v = 0 -> no_deeper comp u = no_deeper comp v.
Proof.
  intros H. unfold no_deeper, somewhere. f_equal. apply existsb_same. intros files. apply existsb_same. intros f.
  unfold holds_key. pose proof (cmp_opp_eq (Compare c) u v) as Ho. apply eq_bool_prop_intro. rewrite !Is_true_true, !andb_true_iff, !Z.leb_le.
  split; intros [H1 H2]; split.
  - apply (cmp_ge_opp (Compare c)) in H1. apply (cmp_ge_opp (Compare c)). eapply (cmp_le_trans (cmp := Compare c)); [done|]. lia.
  - eapply (cmp_le_trans (cmp := Compare c)); [|done]. lia.
  - apply (cmp_ge_opp (Compare c)) in H1. apply (cmp_ge_opp (Compare c)). eapply (cmp_le_trans (cmp := Compare c)); [done|]. lia.
  - eapply (cmp_le_trans (cmp := Compare c)); [|done]. lia.
Qed.

(** Everything a compaction keeps, and what it keeps of the reads. *)
Lemma compaction_reads comp es below q u :
  smallest < kMaxSequenceNumber -> smallest <= q ->
  Forall (fun e => entry_parses e = true) es -> StronglySorted (entry_lt (ikey_Compare c)) es ->
  (forall e, e ∈ below -> somewhere c meta (below_output comp) (e_user e) = true) ->
  read_at c q (surviving c smallest (no_deeper comp) no_key es ++ below) u = read_at c q (es ++ below) u.
Proof.
  intros Hsm Hq Hparse Hs Hb. apply (surviving_reads c smallest Hsm (no_deeper comp) below) with (p := None); try done.
  intros e v He Hv. rewrite <- (no_deeper_eq comp (e_user e) v Hv). unfold no_deeper. by rewrite Hb.
Qed.

End HandleKey.
