(* ===== verification/CompactSpec.v ===== *)
(** * What a compaction writes

    In an environment that does not fail, the loop of [DoCompactionWork] returns, and
    its output files are tables that hold, one after the other, exactly the entries
    the rules keep. *)

From S2P Require Import Prelude Slice Coding Status Env Logging LogFormat LogReader Comparator DbFormat Random Arena SkipList MemTable WriteBatch VersionEdit Filename Format Iterator Options BlockBuilder Block TableBuilder Table TableFile TableBuild TableSpec TwoLevel Merger DbIter Version VersionSpec Compaction CompactionSpec VersionSet Snapshot TableFromIter DbState DbFlush CompactWork CompactRead.

Section CompactSpec.

Context {F W S : Type} `{!WritableFile F} `{!SequentialFile S} `{!DescriptorEnv (F := F) W S} `{!DbEnv W}.
Context {contents : F -> bytes} `{!ReliableWritable F contents}.
Context (others : DBImpl F -> W -> DBImpl F * W).
Context (snappy zstd : Codec) (addr : Z).
Context {I : Type} `{!Iterator I}.
Context (c : Comparator) `{!ComparatorLaws c} (meta : nat -> FileMetaData) (options o : Options) (kf : Z).
Context (Ho : options_ok o kf) (Hcmp : comparator o = InternalKeyComparator c).

Implicit Types cs : CompactionState F.

(** An environment in which nothing fails: what the other threads do keeps it so,
    files are created empty, tables that were written can be opened, and [n] more
    file numbers are left. *)
Record calm (Inv : nat -> DBImpl F -> W -> Prop) : Prop := {
  calm_others n db w : Inv n db w -> Inv n (fst (others db w)) (snd (others db w));
  calm_running n db w : Inv n db w -> shutting_down_ db = false;
  calm_imm n db w : Inv n db w -> exists t db' w', prioritize_imm others snappy zstd addr db w = Some (t, db', w') /\ Inv n db' w';
  calm_options n db w : Inv n db w -> db_options db = o;
  calm_number n db w : Inv (Datatypes.S n) db w ->
    let '(num, vs) := NewFileNumber (db_versions_ db) in
    num <> 0 /\ let db' := set_db_versions vs db in Inv n (set_pending_outputs ({[num]} ∪ pending_outputs_ db') db') w;
  calm_create n db w name : Inv n db w ->
    exists s f w', env_NewWritableFile name w = (s, Some f, w') /\ ok s = true /\ contents f = [] /\ Inv n db w';
  calm_check n db w num size : Inv n db w ->
    ok (fst (cache_check num size w)) = true /\ Inv n db (snd (cache_check num size w));
  calm_less n db w : Inv (Datatypes.S n) db w -> Inv n db w
}.

Context (Inv : nat -> DBImpl F -> W -> Prop) (Hcalm : calm Inv).

(** ** A table being built *)

Definition building (b : Rep F) (chunk : list entry) : Prop :=
  exists ds pend cur, tstate snappy zstd o (contents := contents) b ds pend cur /\ entries_of ds pend cur = chunk.

Lemma building_make f : contents f = [] -> exists b, TableBuilder_make o f = Some b /\ building b [].
Proof.
  intros Hf. pose proof (oo_comparator _ _ Ho). pose proof (oo_short _ _ Ho).
  destruct (TableBuilder_make_spec snappy zstd o (oo_restart _ _ Ho) f Hf) as (b & -> & T). exists b. split; [done|]. by exists [], None, [].
Qed.

Lemma building_num b chunk : building b chunk -> NumEntries b = Z.of_nat (length chunk).
Proof. intros (ds & pend & cur & [T _] & <-). exact (ts_num _ _ _ _ _ _ _ T). Qed.

Lemma table_bound_builds es : table_bound o kf es < 2 ^ 32 -> 8 * entries_size es + 1000 < 2 ^ 32.
Proof.
  unfold table_bound. intros Hb. pose proof (name_size_nonneg o kf (oo_filter _ _ Ho)). pose proof (entries_size_nonneg es). pose proof (oo_kf _ _ Ho).
  pose proof (Z.mul_nonneg_nonneg kf (entries_size es)). lia.
Qed.

Lemma building_add b chunk k v :
  building b chunk -> StronglySorted (entry_lt (ikey_Compare c)) (chunk ++ [(k, v)]) -> table_bound o kf (chunk ++ [(k, v)]) < 2 ^ 32 ->
  exists b', TableBuilder_Add snappy zstd addr b k v = Some b' /\ building b' (chunk ++ [(k, v)]).
Proof.
  intros (ds & pend & cur & T & <-) Hs Hb. pose proof (oo_comparator _ _ Ho). pose proof (oo_short _ _ Ho).
  destruct (Add_spec snappy zstd addr o (oo_restart _ _ Ho) b ds pend cur k v T) as (b' & ds' & p' & c' & -> & T' & He).
  - intros e [l He]%last_Some. rewrite Hcmp. cbn [Compare InternalKeyComparator]. rewrite He in Hs.
    exact (StronglySorted_app_1_elem_of _ _ _ e (k, v) Hs ltac:(apply elem_of_app; right; by left) ltac:(by left)).
  - by apply table_bound_builds.
  - exists b'. split; [done|]. by exists ds', p', c'.
Qed.

Lemma building_close b chunk s :
  building b chunk -> table_bound o kf chunk < 2 ^ 32 -> ok s = true ->
  exists s' file, close_output snappy zstd addr s b = Some (s', blen (contents file), file) /\ ok s' = true /\
    exists ds groups mh ih, table_in snappy zstd o (contents file) ds groups chunk mh ih.
Proof.
  intros (ds & pend & cur & T & <-) Hb Hs. pose proof (oo_comparator _ _ Ho). pose proof (oo_short _ _ Ho).
  destruct (Finish_spec snappy zstd addr o (oo_restart _ _ Ho) kf (oo_kf _ _ Ho) (oo_filter _ _ Ho) b ds pend cur T Hb)
    as (r & ds' & groups & mh & ih & Hf & Hok & Hoff & Hin).
  unfold close_output. rewrite Hs, Hf. cbn [mbind option_bind]. unfold tb_ok in Hok. rewrite Hok.
  destruct (sync_contents (r_file r)) as [Ho1 Hc1]. destruct (Sync (r_file r)) as [s1 f1]. cbn [fst snd] in *. rewrite Ho1.
  destruct (close_contents f1) as [Ho2 Hc2]. destruct (Close f1) as [s2 f2]. cbn [fst snd] in *.
  exists s2, f2. unfold FileSize. rewrite Hoff, Hc2, Hc1. split; [done|]. split; [done|]. eauto.
Qed.

(** ** The state of the work *)

Record output_holds (out : Output) (file : F) (chunk : list entry) : Prop := {
  oh_nonempty : chunk <> [];
  oh_size : out_file_size out = blen (contents file);
  oh_smallest : Some (rep_ (out_smallest out)) = fst <$> head chunk;
  oh_largest : Some (rep_ (out_largest out)) = fst <$> last chunk;
  oh_table : exists ds groups mh ih, table_in snappy zstd o (contents file) ds groups chunk mh ih
}.

(** [chunks] are in finished files, [cur] in the table being built. *)
Definition work_ok cs (chunks : list (list entry)) (cur : list entry) : Prop :=
  exists outs, Forall3 output_holds outs (done_files cs) chunks /\
  match builder cs with
  | None => cur = [] /\ outputs cs = outs
  | Some b =>
      cur <> [] /\ building b cur /\
      exists out, outputs cs = outs ++ [out] /\ out_number out <> 0 /\
        Some (rep_ (out_smallest out)) = fst <$> head cur /\ Some (rep_ (out_largest out)) = fst <$> last cur
  end.

(** What the steps leave alone. *)
Definition same_task cs cs' : Prop := compaction cs' = compaction cs /\ smallest_snapshot cs' = smallest_snapshot cs.

Lemma change_last_snoc {A} (f : A -> A) l x : change_last f (l ++ [x]) = Some (l ++ [f x]).
Proof. induction l as [|y l IH]; [done|]. cbn [app change_last]. rewrite IH. cbn. by destruct (l ++ [x]) eqn:E; [destruct l|]. Qed.

Lemma Finish_output_ok cs chunks cur b input n db w :
  work_ok cs chunks cur -> builder cs = Some b -> ok (it_status input) = true -> table_bound o kf cur < 2 ^ 32 -> Inv n db w ->
  exists s cs' w', FinishCompactionOutputFile snappy zstd addr cs input db w = Some ((s, cs'), db, w') /\ ok s = true /\
    work_ok cs' (chunks ++ [cur]) [] /\ builder cs' = None /\ same_task cs cs' /\ Inv n db w'.
Proof.
  intros (outs & Houts & Hb') Eb Hst Hb Hi. rewrite Eb in Hb'. destruct Hb' as (Hne & Hbuild & out & Eo & Hnum & Hsm & Hla).
  destruct (building_close b cur (it_status input) Hbuild Hb Hst) as (s & file & Hc & Hs & Hin).
  unfold FinishCompactionOutputFile, db_bind, need. rewrite Eb. cbn [mbind option_bind].
  rewrite Eo, last_snoc. cbn [mbind option_bind]. rewrite (proj2 (Z.eqb_neq _ _) Hnum). unfold assert. cbn [negb mbind option_bind].
  rewrite Hc. cbn [mbind option_bind]. unfold change_output. rewrite Eo, change_last_snoc. cbn [mbind option_bind].
  rewrite Hs, (building_num b cur Hbuild). assert (Hpos : (0 <? Z.of_nat (length cur)) = true) by (apply Z.ltb_lt; destruct cur; [done|cbn; lia]).
  rewrite Hpos. cbn [andb]. unfold with_env, db_ret.
  destruct (calm_check _ Hcalm n db w (out_number out) (blen (contents file)) Hi) as [Hck Hiw].
  destruct (cache_check (out_number out) (blen (contents file)) w) as [s' w']. cbn [fst snd mbind option_bind] in *.
  eexists s', _, w'. split; [reflexivity|]. split; [done|]. split; [|done].
  eexists (outs ++ [_]). cbn [finish_output set_outputs builder outputs done_files]. split; [|done].
  apply Forall3_app; [done|]. constructor; [|constructor]. by split.
Qed.

(** The other threads run, and the environment stays calm. *)
Lemma relock_ok n db w : Inv n db w -> exists db' w', relock others db w = Some (tt, db', w') /\ Inv n db' w'.
Proof.
  intros Hi. apply (calm_others _ Hcalm) in Hi. unfold relock. destruct (others db w) as [db' w']. eauto.
Qed.

Lemma load_shutting_down_ok n db w :
  Inv n db w -> exists db' w', load_shutting_down others db w = Some (false, db', w') /\ Inv n db' w'.
Proof.
  intros Hi. destruct (relock_ok n db w Hi) as (db' & w' & Hr & Hi'). exists db', w'. split; [|done].
  unfold load_shutting_down. rewrite (db_bind_run _ _ _ _ _ _ _ Hr). unfold db_bind, get_db, db_ret. cbn [mbind option_bind].
  by rewrite (calm_running _ Hcalm _ _ _ Hi').
Qed.

Lemma Open_output_ok cs n db w :
  builder cs = None -> Inv (Datatypes.S n) db w ->
  exists s b out db' w', let cs' := set_builder (Some b) (set_outputs (outputs cs ++ [out]) cs) in
    OpenCompactionOutputFile others cs db w = Some ((s, cs'), db', w') /\ ok s = true /\
    building b [] /\ out_number out <> 0 /\ Inv n db' w'.
Proof.
  intros Eb Hi. unfold OpenCompactionOutputFile, db_bind, assert. rewrite Eb, bool_decide_true by done. cbn [mbind option_bind].
  destruct (relock_ok _ db w Hi) as (db1 & w1 & -> & Hi1). cbn [mbind option_bind]. unfold with_versions.
  pose proof (calm_number _ Hcalm n db1 w1 Hi1) as Hn. destruct (NewFileNumber (db_versions_ db1)) as [num vs]. destruct Hn as [Hnum Hi2].
  cbn [mbind option_bind]. unfold change, get_db, with_env, need, db_ret. cbn [mbind option_bind].
  set (db2 := set_pending_outputs _ _) in *.
  destruct (calm_create _ Hcalm n db2 w1 (TableFileName (db_name db2) num) Hi2) as (s & f & w2 & -> & Hs & Hf & Hi3).
  cbn [mbind option_bind]. rewrite Hs. cbn [mbind option_bind]. rewrite (calm_options _ Hcalm n db2 w2 Hi3).
  destruct (building_make f Hf) as (b & -> & Hb). cbn [mbind option_bind].
  exists s, b, (mkOutput num 0 (mkInternalKey []) (mkInternalKey [])), db2, w2. done.
Qed.

(** Adding an entry to the output, opening a file first or ending it after. *)
Lemma add_entry_ok cs chunks cur input n db w :
  let e := (it_key input, it_value input) in
  work_ok cs chunks cur -> ok (it_status input) = true -> StronglySorted (entry_lt (ikey_Compare c)) (cur ++ [e]) ->
  table_bound o kf (cur ++ [e]) < 2 ^ 32 -> Inv (Datatypes.S n) db w ->
  exists s cs' db' w' chunks' cur', add_entry others snappy zstd addr cs input db w = Some ((s, cs'), db', w') /\ ok s = true /\
    work_ok cs' chunks' cur' /\ concat chunks' ++ cur' = concat chunks ++ cur ++ [e] /\ same_task cs cs' /\ Inv n db' w'.
Proof.
  intros e (outs & Houts & Hbld) Hst Hsort Hbound Hi.
  assert (Hopen : exists s cs1 b out db1 w1,
    (if bool_decide (builder cs = None) then OpenCompactionOutputFile others cs else db_ret (OK, cs)) db w = Some ((s, cs1), db1, w1) /\
    ok s = true /\ builder cs1 = Some b /\ building b cur /\ outputs cs1 = outs ++ [out] /\ out_number out <> 0 /\ done_files cs1 = done_files cs /\
    (cur <> [] -> Some (rep_ (out_smallest out)) = fst <$> head cur) /\ same_task cs cs1 /\ Inv n db1 w1).
  { destruct (builder cs) as [b|] eqn:Eb.
    - destruct Hbld as (Hne & Hbuild & out & Eo & Hnum & Hsm & Hla). rewrite bool_decide_false by done.
      exists OK, cs, b, out, db, w. split_and!; try done. by apply (calm_less _ Hcalm).
    - destruct Hbld as [-> Eo]. rewrite bool_decide_true by done.
      destruct (Open_output_ok cs n db w Eb Hi) as (s & b & out & db1 & w1 & Hop & Hs & Hb & Hnum & Hi1).
      exists s, (set_builder (Some b) (set_outputs (outputs cs ++ [out]) cs)), b, out, db1, w1. rewrite Eo in Hop |- *. split_and!; try done. }
  destruct Hopen as (s & cs1 & b & out & db1 & w1 & Hop & Hs & Eb & Hbuild & Eo & Hnum & Hdone & Hsm & [Hcomp Hsnap] & Hi1).
  unfold add_entry, db_bind. rewrite Hop. cbn [mbind option_bind]. rewrite Hs. cbn [negb]. unfold need. rewrite Eb. cbn [mbind option_bind].
  unfold change_output. rewrite Eo, change_last_snoc. cbn [mbind option_bind].
  destruct (building_add b cur (it_key input) (it_value input) Hbuild Hsort Hbound) as (b' & -> & Hbuild'). cbn [mbind option_bind].
  match goal with |- context [set_builder (Some b') ?x] => set (cs2 := set_builder (Some b') x) end.
  assert (Hw2 : work_ok cs2 chunks (cur ++ [e])).
  { exists outs. cbn [cs2 set_builder set_outputs done_files builder outputs]. rewrite Hdone. split; [done|].
    split; [by destruct cur|]. split; [done|]. eexists. split; [reflexivity|]. cbn [out_number out_smallest out_largest InternalKey_DecodeFrom snd].
    split; [done|]. rewrite (building_num b cur Hbuild), last_snoc. split; [|done].
    destruct cur as [|e0 cur']; [done|]. cbn [length]. rewrite (proj2 (Z.eqb_neq _ _)) by lia. by rewrite Hsm. }
  assert (Hsame : same_task cs cs2) by (by split). assert (Eb2 : builder cs2 = Some b') by done. clearbody cs2.
  destruct (max_output_file_size_ (compaction cs2) <=? FileSize b').
  - destruct (Finish_output_ok cs2 chunks (cur ++ [e]) b' input n db1 w1 Hw2 Eb2 Hst Hbound Hi1) as (s' & cs3 & w3 & Hf & Hs' & Hw3 & _ & [Hc3 Hn3] & Hi3).
    exists s', cs3, db1, w3, (chunks ++ [cur ++ [e]]), []. split_and!; try done.
    + rewrite concat_app. cbn. by rewrite !app_nil_r.
    + destruct Hsame. split; congruence.
  - exists OK, cs2, db1, w1, chunks, (cur ++ [e]). done.
Qed.

(** Ending the output file before a key. *)
Lemma stop_before_ok cs chunks cur input n db w :
  work_ok cs chunks cur -> ok (it_status input) = true -> table_bound o kf cur < 2 ^ 32 -> Inv n db w ->
  exists s cs' w' chunks' cur', stop_before snappy zstd addr c meta options cs input db w = Some ((s, cs'), db, w') /\ ok s = true /\
    work_ok cs' chunks' cur' /\ concat chunks' ++ cur' = concat chunks ++ cur /\ (cur' = cur \/ cur' = []) /\
    same_task (set_compaction (snd (ShouldStopBefore options c meta (compaction cs) (it_key input))) cs) cs' /\ Inv n db w'.
Proof.
  intros Hw Hst Hb Hi. unfold stop_before. destruct (ShouldStopBefore options c meta (compaction cs) (it_key input)) as [stop comp]. cbn [snd].
  set (cs1 := set_compaction comp cs). assert (Hw1 : work_ok cs1 chunks cur) by exact Hw.
  destruct (stop && negb (bool_decide (builder cs1 = None))) eqn:Es.
  - apply andb_true_iff in Es as [_ Eb]. destruct (builder cs1) as [b|] eqn:Eb1; [|by rewrite bool_decide_true in Eb].
    destruct (Finish_output_ok cs1 chunks cur b input n db w Hw1 Eb1 Hst Hb Hi) as (s & cs' & w' & Hf & Hs & Hw' & _ & Hsame & Hi').
    exists s, cs', w', (chunks ++ [cur]), []. split_and!; try done; [|by right]. rewrite concat_app. cbn. by rewrite !app_nil_r.
  - exists OK, cs1, w, chunks, cur. split_and!; try done. by left.
Qed.

Lemma pointers_stop comp key k : pointers_ok c meta comp k -> pointers_ok c meta (snd (ShouldStopBefore options c meta comp key)) k.
Proof.
  intros [H1 H2 H3]. unfold ShouldStopBefore. destruct (stop_loop _ _ _ _ _ _ _) as [index overlapped]. by split.
Qed.

Lemma below_stop comp key : below_output (snd (ShouldStopBefore options c meta comp key)) = below_output comp.
Proof. unfold ShouldStopBefore, below_output. by destruct (stop_loop _ _ _ _ _ _ _) as [index overlapped]. Qed.

Lemma entries_size_sublist l l' : sublist l l' -> entries_size l <= entries_size l'.
Proof.
  induction 1 as [|[k v] ? ? _ IH|[k v] ? ? _ IH]; cbn [entries_size]; try lia.
  pose proof (blen_nonneg k). pose proof (blen_nonneg v). lia.
Qed.

Lemma table_bound_sublist l l' : sublist l l' -> table_bound o kf l' < 2 ^ 32 -> table_bound o kf l < 2 ^ 32.
Proof.
  intros Hs%entries_size_sublist Hb. unfold table_bound in *. pose proof (oo_kf _ _ Ho).
  pose proof (Z.mul_le_mono_nonneg_l _ _ (2 * kf + 8) ltac:(lia) Hs). lia.
Qed.

Lemma sorted_sublist {A} (R : A -> A -> Prop) l l' : sublist l l' -> StronglySorted R l' -> StronglySorted R l.
Proof.
  induction 1 as [|x l l' Hs IH|x l l' Hs IH]; intros H; [done| |].
  - apply StronglySorted_inv in H as [H Hall]. constructor; [by apply IH|]. rewrite Forall_forall in Hall |- *.
    intros y Hy. apply Hall. by eapply elem_of_sublist.
  - apply StronglySorted_inv in H as [H _]. by apply IH.
Qed.

(** ** The loop *)

Context (es : list entry) (pos : I -> option nat -> Prop) `{!ScansOver es pos}.
Context (Hparse : Forall (fun e => entry_parses e = true) es) (Hsorted : StronglySorted (entry_lt (ikey_Compare c)) es).
Context (Hbound : table_bound o kf es < 2 ^ 32).

(** One entry of the input. *)
Lemma compact_step i e input ks cs chunks cur n db w :
  es !! i = Some e -> pos input (Some i) -> work_ok cs chunks cur -> sublist (concat chunks ++ cur) (take i es) ->
  pointers_ok c meta (compaction cs) (e_user e) -> Inv (Datatypes.S n) db w ->
  let '(drop, ks') := drop_key c (smallest_snapshot cs) (no_deeper c meta (compaction cs)) ks e in
  exists cs' chunks' cur' db' w', work_ok cs' chunks' cur' /\ concat chunks' ++ cur' = concat chunks ++ cur ++ (if drop then [] else [e]) /\
    pointers_ok c meta (compaction cs') (e_user e) /\ below_output (compaction cs') = below_output (compaction cs) /\
    smallest_snapshot cs' = smallest_snapshot cs /\ Inv n db' w' /\
    forall fuel t, exists t', compact_loop others snappy zstd addr c meta options (Datatypes.S fuel) input ks cs t db w =
      (input ← it_Next input; compact_loop others snappy zstd addr c meta options fuel input ks' cs' t' db' w').
Proof.
  intros He Hp Hw Hsub Hptr Hi.
  assert (Hek : e = (it_key input, it_value input)) by (pose proof (scan_entry input i Hp); congruence).
  assert (Hst : ok (it_status input) = true) by (by apply (scan_status input (Some i))).
  assert (Hsub' : sublist (cur ++ [e]) es).
  { rewrite <- (take_drop i es), (drop_S es e i He). apply sublist_app; [|apply sublist_skip, sublist_nil_l].
    etrans; [|exact Hsub]. apply sublist_inserts_l. done. }
  destruct (load_shutting_down_ok _ db w Hi) as (db1 & w1 & Hr & Hi1).
  destruct (calm_imm _ Hcalm _ _ _ Hi1) as (t1 & db2 & w2 & Himm & Hi2).
  destruct (stop_before_ok cs chunks cur input _ db2 w2 Hw Hst ltac:(eapply table_bound_sublist; [|exact Hbound]; etrans; [|exact Hsub']; by apply sublist_inserts_r) Hi2)
    as (s & cs1 & w3 & chunks1 & cur1 & Hstop & Hs & Hw1 & Hcat & Hcur & [Hcomp1 Hsnap1] & Hi3).
  cbn [set_compaction compaction smallest_snapshot] in Hcomp1, Hsnap1.
  pose proof (handle_key_spec c meta (smallest_snapshot cs1) ks (compaction cs1) e (e_user e)) as Hh.
  destruct Hh as (ptrs & Hh); [rewrite Hcomp1; by apply pointers_stop|by rewrite cmp_refl|rewrite Forall_forall in Hparse; by eapply Hparse, list_elem_of_lookup_2|].
  assert (Hnd : no_deeper c meta (compaction cs1) = no_deeper c meta (compaction cs)) by (unfold no_deeper; by rewrite Hcomp1, below_stop).
  rewrite Hsnap1, Hnd in Hh. destruct (drop_key c (smallest_snapshot cs) (no_deeper c meta (compaction cs)) ks e) as [drop ks']. destruct Hh as [Hh Hptr'].
  set (cs2 := set_compaction (set_level_ptrs (compaction cs1) ptrs) cs1).
  assert (Hput : exists s cs' db' w' chunks' cur', (if drop : bool then db_ret (OK, cs2) else add_entry others snappy zstd addr cs2 input) db2 w3 = Some ((s, cs'), db', w') /\
    ok s = true /\ work_ok cs' chunks' cur' /\ concat chunks' ++ cur' = concat chunks ++ cur ++ (if drop then [] else [e]) /\ same_task cs2 cs' /\ Inv n db' w').
  { destruct drop.
    - exists OK, cs2, db2, w3, chunks1, cur1. rewrite app_nil_r. split_and!; try done. by apply (calm_less _ Hcalm).
    - assert (Hsub1 : sublist (cur1 ++ [e]) es) by (destruct Hcur as [->| ->]; [done|etrans; [|exact Hsub']; by apply sublist_inserts_l]).
      rewrite app_assoc, <- Hcat, <- app_assoc. rewrite Hek in Hsub1 |- *.
      apply (add_entry_ok cs2 chunks1 cur1 input n db2 w3 Hw1 Hst); [by eapply sorted_sublist|by eapply table_bound_sublist|done]. }
  destruct Hput as (s' & cs' & db' & w' & chunks' & cur' & Hput & Hs' & Hw' & Hcat' & [Hcomp' Hsnap'] & Hi').
  exists cs', chunks', cur', db', w'. rewrite Hcomp', Hsnap'. split; [done|]. split; [done|]. split; [done|].
  split; [unfold below_output; cbn [cs2 set_compaction compaction set_level_ptrs level_ input_files]; fold (below_output (compaction cs1)); by rewrite Hcomp1, below_stop|].
  split; [exact Hsnap1|]. split; [done|].
  intros fuel t. exists (t + t1). cbn [compact_loop]. rewrite (scan_valid input _ Hp), bool_decide_true by done.
  rewrite (db_bind_run _ _ _ _ _ _ _ Hr), (db_bind_run _ _ _ _ _ _ _ Himm), (db_bind_run _ _ _ _ _ _ _ Hstop), Hs. cbn [negb].
  assert (Hkey : it_key input = fst e) by (by rewrite Hek). rewrite Hkey, Hsnap1, Hh. fold cs2.
  rewrite (db_bind_run _ _ _ _ _ _ _ Hput), Hs'. cbn [negb]. unfold db_bind, need. by destruct (it_Next input).
Qed.

Lemma compact_loop_ok fuel : forall i input ks cs chunks cur n t db w,
  pos input (clip es i) -> (i <= length es)%nat -> (length es - i < fuel)%nat -> (length es - i <= n)%nat ->
  work_ok cs chunks cur -> sublist (concat chunks ++ cur) (take i es) ->
  (forall e, es !! i = Some e -> pointers_ok c meta (compaction cs) (e_user e)) -> Inv n db w ->
  exists s input' cs' t' db' w' chunks' cur',
    compact_loop others snappy zstd addr c meta options fuel input ks cs t db w = Some ((s, input', cs', t'), db', w') /\ ok s = true /\
    pos input' None /\ work_ok cs' chunks' cur' /\
    concat chunks' ++ cur' = concat chunks ++ cur ++ surviving c (smallest_snapshot cs) (no_deeper c meta (compaction cs)) ks (drop i es) /\
    sublist (concat chunks' ++ cur') es /\ exists n', Inv n' db' w'.
Proof.
  induction fuel as [|fuel IH]; intros i input ks cs chunks cur n t db w Hp Hi Hf Hn Hw Hsub Hptr Hinv; [lia|].
  destruct (decide (i < length es)%nat) as [Hlt|Hge].
  2:{ unfold clip in Hp. rewrite decide_False in Hp by done. exists OK, input, cs, t, db, w, chunks, cur.
      rewrite drop_ge by lia. cbn [surviving]. rewrite app_nil_r. cbn [compact_loop]. rewrite (scan_valid input _ Hp), bool_decide_false by (by intros []).
      split_and!; try done; [|by exists n]. rewrite take_ge in Hsub by lia. done. }
  destruct (lookup_lt_is_Some_2 es i Hlt) as [e He]. unfold clip in Hp. rewrite decide_True in Hp by done.
  destruct n as [|n]; [lia|].
  pose proof (compact_step i e input ks cs chunks cur n db w He Hp Hw Hsub (Hptr e He) Hinv) as Hstep.
  rewrite (drop_S es e i He). cbn [surviving].
  destruct (drop_key c (smallest_snapshot cs) (no_deeper c meta (compaction cs)) ks e) as [d ks'].
  destruct Hstep as (cs1 & chunks1 & cur1 & db1 & w1 & Hw1 & Hcat & Hptr1 & Hbelow & Hsnap & Hinv1 & Hrun).
  destruct (Hrun fuel t) as [t' ->]. destruct (scan_next input i Hp) as (input1 & -> & Hp1). cbn [mbind option_bind].
  assert (Hsub1 : sublist (concat chunks1 ++ cur1) (take (Datatypes.S i) es)).
  { rewrite Hcat, (take_S_r _ _ e He), app_assoc. apply sublist_app; [done|]. destruct d; [apply sublist_nil_l|done]. }
  destruct (IH (Datatypes.S i) input1 ks' cs1 chunks1 cur1 n t' db1 w1 Hp1 ltac:(lia) ltac:(lia) ltac:(lia) Hw1 Hsub1) as
    (s & input' & cs' & t'' & db' & w' & chunks' & cur' & Hloop & Hs & Hp' & Hw' & Hcat' & Hsub' & Hinv'); [|done|].
  { intros e' He'. apply (pointers_mono c meta _ (e_user e)); [|done].
    pose proof (StronglySorted_lookup _ _ _ _ _ _ Hsorted He He' ltac:(lia)) as Hle. apply (entry_lt_parts c) in Hle. lia. }
  exists s, input', cs', t'', db', w', chunks', cur'. split_and!; try done. rewrite Hcat'.
  rewrite Hsnap. unfold no_deeper. rewrite Hbelow. fold (no_deeper c meta (compaction cs)).
  rewrite app_assoc, Hcat, <- !app_assoc. by destruct d.
Qed.

Lemma finish_loop_ok s input cs chunks cur n db w :
  ok s = true -> pos input None -> work_ok cs chunks cur -> sublist (concat chunks ++ cur) es -> Inv n db w ->
  exists s' cs' db' w' chunks', finish_loop others snappy zstd addr s input cs db w = Some ((s', cs'), db', w') /\ ok s' = true /\
    work_ok cs' chunks' [] /\ builder cs' = None /\ concat chunks' = concat chunks ++ cur.
Proof.
  intros Hs Hp Hw Hsub Hi. assert (Hst : ok (it_status input) = true) by (by apply (scan_status input None)).
  unfold finish_loop. rewrite Hs. destruct (load_shutting_down_ok _ db w Hi) as (db1 & w1 & Hr & Hi1).
  rewrite (db_bind_run _ _ _ _ _ _ _ Hr), Hs. cbn [andb].
  destruct (builder cs) as [b|] eqn:Eb.
  - rewrite bool_decide_false by done. cbn [negb].
    destruct (Finish_output_ok cs chunks cur b input n db1 w1 Hw Eb Hst) as (s' & cs' & w' & Hf & Hs' & Hw' & Hb' & _ & _); [|done|].
    { eapply table_bound_sublist; [|exact Hbound]. etrans; [|exact Hsub]. by apply sublist_inserts_l. }
    rewrite (db_bind_run _ _ _ _ _ _ _ Hf), Hs'. exists (it_status input), cs', db1, w', (chunks ++ [cur]).
    split_and!; try done. rewrite concat_app. cbn. by rewrite app_nil_r.
  - rewrite bool_decide_true by done. cbn [negb]. unfold db_bind, db_ret. cbn [mbind option_bind]. rewrite Hs.
    exists (it_status input), cs, db1, w1, chunks. destruct Hw as (outs & Houts & Hb). rewrite Eb in Hb. destruct Hb as [-> Eo].
    split_and!; try done; [|by rewrite app_nil_r]. exists outs. by rewrite Eb.
Qed.

(** The whole of a compaction's reading and writing. *)
Lemma run_compaction_ok fuel input p cs db w :
  pos input p -> (length es < fuel)%nat -> builder cs = None -> outputs cs = [] -> done_files cs = [] ->
  (forall k, pointers_ok c meta (compaction cs) k) -> Inv (length es) db w ->
  exists s cs' t db' w' chunks,
    run_compaction others snappy zstd addr c meta options fuel input cs db w = Some ((s, cs', t), db', w') /\ ok s = true /\
    builder cs' = None /\ Forall3 output_holds (outputs cs') (done_files cs') chunks /\
    concat chunks = surviving c (smallest_snapshot cs) (no_deeper c meta (compaction cs)) no_key es.
Proof.
  intros Hp Hf Eb Eo Ed Hptr Hi. unfold run_compaction. destruct (scan_first input p Hp) as (input1 & Hfirst & Hp1).
  assert (Hn : need (it_SeekToFirst input) db w = Some (input1, db, w)) by (unfold need; by rewrite Hfirst).
  rewrite (db_bind_run _ _ _ _ _ _ _ Hn).
  assert (Hw : work_ok cs [] []) by (exists []; rewrite Eb, Ed; split; [constructor|done]).
  destruct (compact_loop_ok fuel 0 input1 no_key cs [] [] (length es) 0 db w Hp1 ltac:(lia) ltac:(lia) ltac:(lia) Hw (sublist_nil_l _)
    (fun e _ => Hptr (e_user e)) Hi) as (s & input' & cs1 & t & db1 & w1 & chunks & cur & Hloop & Hs & Hp' & Hw1 & Hcat & Hsub & n' & Hi1).
  rewrite (db_bind_run _ _ _ _ _ _ _ Hloop).
  destruct (finish_loop_ok s input' cs1 chunks cur n' db1 w1 Hs Hp' Hw1 Hsub Hi1) as (s' & cs' & db' & w' & chunks' & Hfin & Hs' & Hw' & Hb' & Hcat').
  rewrite (db_bind_run _ _ _ _ _ _ _ Hfin). exists s', cs', t, db', w', chunks'. split; [done|]. split; [done|]. split; [done|].
  destruct Hw' as (outs & Houts & Hb). rewrite Hb' in Hb. destruct Hb as [_ ->]. split; [done|]. rewrite Hcat', Hcat. by rewrite drop_0.
Qed.

Context {G : Type} `{!RandomAccessFile G} {file_bytes : G -> bytes} `{!ReliableRandom G file_bytes}.

(** C7: a compaction loses nothing a reader can still see.  In an environment that
    does not fail, reading the sorted input and writing the outputs returns; each
    output file, opened as a table and scanned, yields a non-empty run of the input
    that starts and ends with the keys recorded for it, and the recorded size is the
    file's; the outputs together are a part of the input, in order.  For every user
    key and every sequence number from the oldest snapshot on, looking the key up in
    the outputs and then in the levels below gives the same value, or absence, as
    looking it up in the input and then in the levels below: shadowed versions and
    obsolete deletion markers are all that is dropped. *)
Theorem compaction_keeps_reads fuel input p cs db w ro :
  CodecLaws snappy -> CodecLaws zstd ->
  pos input p -> (length es < fuel)%nat -> builder cs = None -> outputs cs = [] -> done_files cs = [] ->
  0 <= level_ (compaction cs) -> level_ (compaction cs) + 1 < kNumLevels ->
  length (input_files (compaction cs)) = Z.to_nat kNumLevels ->
  level_ptrs_ (compaction cs) = replicate (Z.to_nat kNumLevels) 0 ->
  Forall (level_ok c meta) (below_output (compaction cs)) ->
  smallest_snapshot cs < kMaxSequenceNumber -> Inv (length es) db w ->
  exists s cs' t db' w' chunks,
    run_compaction others snappy zstd addr c meta options fuel input cs db w = Some ((s, cs', t), db', w') /\ ok s = true /\
    Forall3 (fun out file chunk =>
      chunk <> [] /\ out_file_size out = blen (contents file) /\
      Some (rep_ (out_smallest out)) = fst <$> head chunk /\ Some (rep_ (out_largest out)) = fst <$> last chunk /\
      forall g : G, file_bytes g = contents file ->
      exists t it, Table_Open snappy zstd addr o g (out_file_size out) = Some (OK, Some t) /\
        Table_NewIterator snappy zstd addr t ro = Some it /\ scan_all (Datatypes.S (length chunk)) it = Some chunk)
      (outputs cs') (done_files cs') chunks /\
    sublist (concat chunks) es /\
    forall below q u, smallest_snapshot cs <= q ->
      (forall e, e ∈ below -> somewhere c meta (below_output (compaction cs)) (e_user e) = true) ->
      read_at c q (concat chunks ++ below) u = read_at c q (es ++ below) u.
Proof.
  intros Hsn Hzs Hp Hf Eb Eo Ed Hl0 Hl1 Hlen Hz Hlv Hsm Hi.
  destruct (run_compaction_ok fuel input p cs db w Hp Hf Eb Eo Ed) as (s & cs' & t & db' & w' & chunks & Hrun & Hs & _ & Houts & Hcat);
    [intros k; by apply pointers_new|done|].
  exists s, cs', t, db', w', chunks. split; [done|]. split; [done|]. split; [|split].
  - eapply Forall3_impl; [exact Houts|]. intros out file chunk [Hne Hsize Hsmall Hlarge (ds & groups & mh & ih & Hin)].
    split_and!; try done. intros g Hg. rewrite Hsize, <- Hg in *. pose proof (oo_comparator _ _ Ho).
    destruct (Table_Open_spec snappy zstd addr o (oo_compression _ _ Ho) g ds groups chunk mh ih Hin) as (tb & Hopen & Ht).
    destruct (Table_NewIterator_spec snappy zstd addr o (oo_compression _ _ Ho) g ds groups chunk mh ih Hin tb Ht ro) as (it & tpos & Hnit & HI & Hp0).
    exists tb, it. split; [done|]. split; [done|]. apply (scan_all_spec it None); [done|lia].
  - rewrite Hcat. apply surviving_sublist.
  - intros below q u Hq Hb. rewrite Hcat. by apply compaction_reads.
Qed.

End CompactSpec.

(** ** A small compaction

    Two versions of [a], the deletion of [b], and two versions of [d] above the
    oldest snapshot 5; nothing is below the output. *)

Definition small_input : list entry :=
  [(ikey (str "a") 4 kTypeValue, str "new"); (ikey (str "a") 3 kTypeValue, str "old");
   (ikey (str "b") 2 kTypeDeletion, []); (ikey (str "d") 9 kTypeValue, str "x"); (ikey (str "d") 7 kTypeDeletion, [])].

Definition small_compaction : Compaction nat := Compaction_new Options_default 0 (replicate 7 []).

Definition small_state : CompactionState StringDest := set_smallest_snapshot 5 (CompactionState_make small_compaction).

#[local] Instance calm_files : DescriptorEnv (F := StringDest) unit StringSource := {
  env_NewWritableFile _ w := (OK, Some (mkDest []), w);
  env_NewAppendableFile _ w := (OK, Some (mkDest []), w);
  env_NewSequentialFile _ w := (OK, Some (mkSource []), w);
  env_GetFileSize _ w := (OK, 0, w);
  env_RemoveFile _ w := (OK, w);
  env_SetCurrentFile _ _ w := (OK, w);
  env_ReadFileToString _ w := (OK, [], w)
}.

#[local] Instance calm_env : DbEnv unit := {
  env_GetChildren _ w := (OK, [], w);
  env_CreateDir _ w := (OK, w);
  env_RemoveDir _ w := (OK, w);
  env_FileExists _ w := (true, w);
  env_LockFile _ w := (OK, w);
  env_UnlockFile w := (OK, w);
  env_NowMicros w := (0, w);
  env_SleepForMicroseconds _ w := w;
  env_Schedule w := w;
  cache_check _ _ w := (OK, w);
  cache_Evict _ w := w
}.

Definition alone (db : DBImpl StringDest) (w : unit) : DBImpl StringDest * unit := (db, w).

Definition small_db : DBImpl StringDest :=
  mkDB (str "db") flush_options true false ∅ 0 None None false 3 None 0 [] ∅ WriteBatch_make SnapshotList_make ∅ true ∅ None
    (mkVersionSet (str "db") flush_options BytewiseComparator 10 2 9 3 0 None [] None [] (mkStore ∅ 0) 0) OK [].

Definition calm_inv (n : nat) (db : DBImpl StringDest) (w : unit) : Prop :=
  shutting_down_ db = false /\ has_imm_ db = false /\ db_options db = flush_options /\
  0 < vs_next_file_number_ (db_versions_ db) /\ vs_next_file_number_ (db_versions_ db) + Z.of_nat n < 2 ^ 64.

Lemma calm_alone : calm (contents := dest_contents) alone no_codec no_codec 0 flush_options calm_inv.
Proof.
  split; intros n db w; unfold calm_inv.
  - done.
  - by intros (? & _).
  - intros (H1 & H2 & H3). exists 0, db, w. split; [|done]. unfold prioritize_imm, db_bind, relock, alone, get_db. cbn [mbind option_bind]. by rewrite H2.
  - by intros (_ & _ & ? & _).
  - intros (H1 & H2 & H3 & H4 & H5). unfold NewFileNumber. split; [lia|].
    cbn [set_pending_outputs set_db_versions shutting_down_ has_imm_ db_options db_versions_ set_numbers vs_next_file_number_].
    rewrite u64_small by lia. repeat (split; [done|]). lia.
  - intros name H. by exists OK, (mkDest []), w.
  - intros num size H. done.
  - intros (H1 & H2 & H3 & H4 & H5). repeat (split; [done|]). lia.
Qed.

Definition small_iter : ListIterator := mkListIter (InternalKeyComparator BytewiseComparator) small_input None.

Lemma small_parses : Forall (fun e => entry_parses e = true) small_input.
Proof. repeat constructor. Qed.

Lemma small_sorted : StronglySorted (entry_lt (ikey_Compare BytewiseComparator)) small_input.
Proof. repeat constructor. Qed.

Lemma compaction_keeps_reads_witness :
  exists s cs' t db' w' chunks,
    run_compaction alone no_codec no_codec 0 BytewiseComparator (fun _ => no_file) Options_default 6 small_iter
      small_state small_db tt = Some ((s, cs', t), db', w') /\ ok s = true /\
    sublist (concat chunks) small_input /\
    forall q u, 5 <= q -> read_at BytewiseComparator q (concat chunks ++ []) u = read_at BytewiseComparator q (small_input ++ []) u.
Proof.
  destruct (compaction_keeps_reads (contents := dest_contents) (file_bytes := random_contents) alone no_codec no_codec 0 BytewiseComparator
    (fun _ => no_file) Options_default flush_options 20 flush_options_ok eq_refl calm_inv calm_alone small_input
    (li_at (InternalKeyComparator BytewiseComparator) small_input) small_parses small_sorted ltac:(by vm_compute)
    6 small_iter None small_state small_db tt ReadOptions_default) as (s & cs' & t & db' & w' & chunks & Hrun & Hs & _ & Hsub & Hread).
  - apply _.
  - apply _.
  - split; [reflexivity|discriminate].
  - cbn [length small_input]. lia.
  - done.
  - done.
  - done.
  - done.
  - done.
  - done.
  - done.
  - repeat constructor.
  - done.
  - repeat split; done.
  - exists s, cs', t, db', w', chunks. split; [exact Hrun|]. split; [exact Hs|]. split; [exact Hsub|].
    intros q u Hq. apply (Hread [] q u Hq). intros e He. destruct (not_elem_of_nil e He).
Defined.
