(* ===== verification/DbWrite.v ===== *)
(** * Writing

    The queue of writers of [db/db_impl.cc]: [Write], [BuildBatchGroup] and
    [MakeRoomForWrite], and [DB::Put] and [DB::Delete] over them. *)

From S2P Require Import Prelude Slice Coding Status Env Logging LogFormat LogReader Comparator DbFormat Random Arena SkipList MemTable WriteBatch VersionEdit Filename Format Iterator Options TwoLevel Version Compaction VersionSet Snapshot DbState.

Section Write.

Context {F W S : Type} `{!WritableFile F} `{!SequentialFile S} `{!DescriptorEnv (F := F) W S} `{!DbEnv W}.
Context (others : DBImpl F -> W -> DBImpl F * W).
Context (addr : Z).

#[local] Open Scope db_scope.

Definition writer (p : nat) : DbM F W DBWriter := let! db := get_db in need (writer_at db !! p).
Definition put_writer (p : nat) (x : DBWriter) : DbM F W () := change (fun db => set_writer_at (<[p := x]> (writer_at db)) db).

(** ** [BuildBatchGroup] *)

Definition max_group_size (size : Z) : Z := if size <=? 131072 then size + 131072 else 1048576.

(** The loop over the writers behind the first: the batch, whether it is
    [tmp_batch_], and the last writer of the group. *)
Fixpoint group_loop (db : DBImpl F) (first : DBWriter) (first_batch : WriteBatch) (max_size : Z) (rest : list nat)
    (size : Z) (result : WriteBatch) (tmp : bool) (last_writer : nat) : option (WriteBatch * bool * nat) :=
  match rest with
  | [] => Some (result, tmp, last_writer)
  | p :: rest =>
      w ← writer_at db !! p;
      if w_sync w && negb (w_sync first) then Some (result, tmp, last_writer)
      else
        match w_batch w with
        | None => group_loop db first first_batch max_size rest size result tmp p
        | Some b =>
            let size := u64 (size + ByteSize b) in
            if max_size <? size then Some (result, tmp, last_writer)
            else
              result ← (if tmp then Some result
                        else if Count (tmp_batch_ db) =? 0 then Some (batch_Append (tmp_batch_ db) first_batch)
                        else None);
              group_loop db first first_batch max_size rest size (batch_Append result b) true p
        end
  end.

Definition BuildBatchGroup : DbM F W (WriteBatch * bool * nat) :=
  let! db := get_db in
  let! front := need (head (writers_ db)) in
  let! first := writer front in
  let! batch := need (w_batch first) in
  let size := ByteSize batch in
  let! '(result, tmp, last_writer) :=
    need (group_loop db first batch (max_group_size size) (tail (writers_ db)) size batch false front) in
  when tmp (change (set_tmp_batch result));;
  db_ret (result, tmp, last_writer).

(** ** [MakeRoomForWrite] *)

(** Switching to a new log file and a new memtable. *)
Definition switch_memtable : DbM F W Status :=
  let! db := get_db in
  assert (vs_prev_log_number_ (db_versions_ db) =? 0);;
  let! new_log_number := with_versions (fun vs => Some (NewFileNumber vs)) in
  let! '(s, lfile) := with_env (env_NewWritableFile (LogFileName (db_name db) new_log_number)) in
  if negb (ok s) then
    change_versions (fun vs => Some (ReuseFileNumber vs new_log_number));; db_ret s
  else
    let! log := need (log_ db) in
    let '(s, _) := Close (dest_ log) in
    when (negb (ok s)) (RecordBackgroundError s);;
    let! lfile := need lfile in
    change (fun db => set_log (Some (Writer_make addr lfile)) (set_logfile_number new_log_number db));;
    change (fun db => set_has_imm true (set_imm (mem_ db) db));;
    let! mem := new_mem in
    change (set_mem (Some mem));;
    mem_Ref mem;;
    MaybeScheduleCompaction;;
    db_ret OK.

(** Whether the current memtable has room. *)
Definition has_room : DbM F W bool :=
  let! db := get_db in
  let! mem := need (mem_ db) in
  let! m := mem_at mem in
  let! usage := need (ApproximateMemoryUsage m) in
  db_ret (usage <=? write_buffer_size (db_options db)).

Fixpoint make_room (fuel : nat) (force allow_delay : bool) : DbM F W Status :=
  match fuel with
  | O => need None
  | Datatypes.S fuel =>
      let! db := get_db in
      if negb (ok (bg_error_ db)) then db_ret (bg_error_ db)
      else
        let! v := need (current_version (db_versions_ db)) in
        let! level0 := need (NumLevelFiles v 0) in
        if allow_delay && (kL0_SlowdownWritesTrigger <=? level0) then
          with_env (fun w => (tt, env_SleepForMicroseconds 1000 w));;
          relock others;;
          make_room fuel force false
        else
          let! room := (if force then db_ret false else has_room) in
          if room : bool then db_ret OK
          else if negb (bool_decide (imm_ db = None)) then
            relock others;; make_room fuel force allow_delay
          else if kL0_StopWritesTrigger <=? level0 then
            relock others;; make_room fuel force allow_delay
          else
            let! s := switch_memtable in
            if negb (ok s) then db_ret s else make_room fuel false allow_delay
  end.

Definition MakeRoomForWrite (fuel : nat) (force : bool) : DbM F W Status :=
  let! db := get_db in
  assert (negb (bool_decide (writers_ db = [])));;
  make_room fuel force (negb force).

(** ** [Write] *)

(** The writer's batch in place, or the temporary one, with its sequence number. *)
Definition number_batch (front : nat) (b : WriteBatch) (tmp : bool) (seq : Z) : DbM F W WriteBatch :=
  let b := SetSequence b seq in
  (if tmp then change (set_tmp_batch b)
   else let! w := writer front in put_writer front (mkDBWriter (w_status w) (Some b) (w_sync w) (w_done w)));;
  db_ret b.

(** Appending to the log and syncing it: the status, and whether syncing failed. *)
Definition log_write (sync : bool) (b : WriteBatch) : DbM F W (Status * bool) :=
  let! db := get_db in
  let! log := need (log_ db) in
  let! '(s, log) := need (AddRecord log addr (Contents b)) in
  if ok s && sync then
    let '(s, file) := Sync (dest_ log) in
    change (set_log (Some (mkWriter file (block_offset_ log) (type_crc_ log))));;
    db_ret (s, negb (ok s))
  else
    change (set_log (Some log));; db_ret (s, false).

Definition insert_batch (b : WriteBatch) : DbM F W Status :=
  let! db := get_db in
  let! mem := need (mem_ db) in
  let! m := mem_at mem in
  let '(s, m) := InsertInto (user_cmp (db_versions_ db)) b m in
  let! m := need m in
  put_mem mem m;;
  db_ret s.

(** What the front writer does for its group: the status and the last writer. *)
Definition write_group (self : nat) (sync : bool) : DbM F W (Status * nat) :=
  let! db := get_db in
  let last_sequence := vs_last_sequence_ (db_versions_ db) in
  let! '(b, tmp, last_writer) := BuildBatchGroup in
  let! b := number_batch self b tmp (u64 (last_sequence + 1)) in
  let last_sequence := u64 (last_sequence + Count b) in
  let! '(s, sync_error) := log_write sync b in
  let! s := (if ok s then insert_batch b else db_ret s) in
  relock others;;
  when sync_error (RecordBackgroundError s);;
  when tmp (change (set_tmp_batch WriteBatch_Clear));;
  change_versions (fun vs => vs_SetLastSequence vs last_sequence);;
  db_ret (s, last_writer).

(** Taking the group off the queue and telling its other writers the status. *)
Fixpoint pop_writers (queue : list nat) (self last_writer : nat) (s : Status) : DbM F W () :=
  match queue with
  | [] => need None
  | ready :: queue =>
      change (set_writers queue);;
      (if (ready =? self)%nat then db_ret tt
       else let! w := writer ready in put_writer ready (mkDBWriter s (w_batch w) (w_sync w) true));;
      if (ready =? last_writer)%nat then db_ret tt else pop_writers queue self last_writer s
  end.

(** The part of [Write] that runs at the front of the queue. *)
Definition write_front (fuel : nat) (self : nat) (sync : bool) (updates : option WriteBatch) : DbM F W Status :=
  let! s := MakeRoomForWrite fuel (bool_decide (updates = None)) in
  let! '(s, last_writer) :=
    (if ok s && negb (bool_decide (updates = None)) then write_group self sync else db_ret (s, self)) in
  let! db := get_db in
  pop_writers (writers_ db) self last_writer s;;
  db_ret s.

(** Waiting for one's turn: true when another writer has done the work. *)
Fixpoint wait_turn (fuel : nat) (self : nat) : DbM F W bool :=
  match fuel with
  | O => need None
  | Datatypes.S fuel =>
      let! db := get_db in
      let! w := writer self in
      if w_done w then db_ret true
      else
        let! front := need (head (writers_ db)) in
        if (front =? self)%nat then db_ret false
        else relock others;; wait_turn fuel self
  end.

(** [self] is the address of the writer's record on its stack. *)
Definition enqueue (self : nat) (sync : bool) (updates : option WriteBatch) : DbM F W () :=
  put_writer self (mkDBWriter OK updates sync false);;
  change (fun db => set_writers (writers_ db ++ [self]) db).

Definition Write (fuel : nat) (self : nat) (sync : bool) (updates : option WriteBatch) : DbM F W Status :=
  relock others;;
  enqueue self sync updates;;
  let! done := wait_turn fuel self in
  if done : bool then let! w := writer self in db_ret (w_status w)
  else write_front fuel self sync updates.

Definition db_Put (fuel self : nat) (sync : bool) (key value : bytes) : DbM F W Status :=
  Write fuel self sync (Some (batch_Put WriteBatch_make key value)).

Definition db_Delete (fuel self : nat) (sync : bool) (key : bytes) : DbM F W Status :=
  Write fuel self sync (Some (batch_Delete WriteBatch_make key)).

End Write.
