(* ===== verification/DbWriteSpec.v ===== *)
(** * What a write guarantees

    The group of writers a front writer commits: its record in the log, its entries
    in the memtable, the sequence numbers, and the queue afterwards. *)

From S2P Require Import Prelude Slice Coding Crc32c Status Env Logging LogFormat LogReader LogLayout LogCorrect LogSpec Comparator DbFormat Random Arena SkipList MemTable WriteBatch VersionEdit Filename Format Iterator Options TwoLevel Version Compaction VersionSet Snapshot DbState DbWrite.

(** ** Batches *)

(** The operations of a queued writer; none for a forced memtable switch. *)
Definition writer_ops (x : DBWriter) (ops : list Op) : Prop :=
  match w_batch x with
  | Some b => exists seq, b = batch_of seq ops
  | None => ops = []
  end.

Definition total_ops (opss : list (list Op)) : Z := Z.of_nat (length (concat opss)).

Section Group.

Context {F : Type} (db : DBImpl F).

Definition queued (p : nat) (ops : list Op) : Prop := exists x, writer_at db !! p = Some x /\ writer_ops x ops.

(** Whether the group may contain the writer: a write that asks for syncing is only
    done by a group that syncs. *)
Definition may_join (sync : bool) (p : nat) : Prop := forall x, writer_at db !! p = Some x -> w_sync x = true -> sync = true.

Lemma group_loop_spec first fb max seqf ops0 rest opss : 
  fb = batch_of seqf ops0 -> tmp_batch_ db = batch_of 0 [] ->
  Forall2 queued rest opss -> forall size result tmp last_writer (acc : list (list Op)),
  (if tmp : bool then result = batch_of 0 (ops0 ++ concat acc) else result = fb /\ concat acc = []) ->
  Z.of_nat (length ops0 + length (concat acc)) + total_ops opss < 2 ^ 31 ->
  exists k result' tmp' last', (k <= length rest)%nat /\
    group_loop db first fb max rest size result tmp last_writer = Some (result', tmp', last') /\
    (exists seq', result' = batch_of seq' (ops0 ++ concat acc ++ concat (take k opss))) /\
    (tmp' = false -> result' = fb) /\
    last' = default last_writer (last (take k rest)) /\ Forall (may_join (w_sync first)) (take k rest).
Proof.
  intros -> Htmp. induction 1 as [|p ops rest opss (x & Hx & Hops) Hrest IH]; intros size result tmp last_writer acc Hres Hn.
  { exists 0%nat, result, tmp, last_writer. cbn [group_loop take concat last default]. split; [done|]. split; [done|]. rewrite app_nil_r.
    split; [destruct tmp; [eauto|destruct Hres as [-> ->]; rewrite app_nil_r; eauto]|]. split; [intros ->; by destruct Hres|]. by split. }
  assert (Hstop : exists k result' tmp' last', (k <= length (p :: rest))%nat /\
    Some (result, tmp, last_writer) = Some (result', tmp', last') /\
    (exists seq', result' = batch_of seq' (ops0 ++ concat acc ++ concat (take k (ops :: opss)))) /\
    (tmp' = false -> result' = batch_of seqf ops0) /\
    last' = default last_writer (last (take k (p :: rest))) /\ Forall (may_join (w_sync first)) (take k (p :: rest))).
  { exists 0%nat, result, tmp, last_writer. cbn [take concat last default]. split; [lia|]. split; [done|]. rewrite app_nil_r.
    split; [destruct tmp; [eauto|destruct Hres as [-> ->]; rewrite app_nil_r; eauto]|]. split; [intros ->; by destruct Hres|]. by split. }
  assert (Hnext : forall r (t : bool) sz, (if t then r = batch_of 0 (ops0 ++ concat (acc ++ [ops])) else r = batch_of seqf ops0 /\ concat (acc ++ [ops]) = []) ->
    (w_sync x = true -> w_sync first = true) ->
    exists k result' tmp' last', (k <= length (p :: rest))%nat /\
    group_loop db first (batch_of seqf ops0) max rest sz r t p = Some (result', tmp', last') /\
    (exists seq', result' = batch_of seq' (ops0 ++ concat acc ++ concat (take k (ops :: opss)))) /\
    (tmp' = false -> result' = batch_of seqf ops0) /\
    last' = default last_writer (last (take k (p :: rest))) /\ Forall (may_join (w_sync first)) (take k (p :: rest))).
  { intros r t sz Hr Hsync. destruct (IH sz r t p (acc ++ [ops]) Hr) as (k & result' & tmp' & last' & Hk & Hg & Hseq & Ht & Hl & Hj).
    { unfold total_ops in *. cbn [concat] in Hn. rewrite concat_app, !length_app in *. cbn [concat]. rewrite app_nil_r. lia. }
    exists (Datatypes.S k), result', tmp', last'. split; [cbn; lia|]. split; [done|]. split; [|split; [done|split]].
    - destruct Hseq as [seq' ->]. exists seq'. do 2 f_equal. rewrite concat_app. cbn [take concat]. by rewrite app_nil_r, <- app_assoc.
    - rewrite Hl. cbn [take]. rewrite last_cons. by destruct (last (take k rest)).
    - cbn [take]. constructor; [|done]. intros y Hy. rewrite Hx in Hy. injection Hy as <-. done. }
  cbn [group_loop]. rewrite Hx. cbn [mbind option_bind].
  destruct (w_sync x && negb (w_sync first)) eqn:Es; [exact Hstop|].
  assert (Hsync : w_sync x = true -> w_sync first = true) by (intros Hs; rewrite Hs in Es; by destruct (w_sync first)).
  unfold writer_ops in Hops. destruct (w_batch x) as [b|].
  - destruct Hops as [seqb ->]. destruct (max <? u64 (size + ByteSize (batch_of seqb ops))); [exact Hstop|].
    unfold total_ops in Hn. cbn [concat] in Hn. rewrite length_app in Hn. destruct tmp; cbn [mbind option_bind].
    + apply Hnext; [|done]. rewrite Hres, batch_Append_of by (rewrite length_app; lia). by rewrite concat_app, <- app_assoc; cbn [concat]; rewrite app_nil_r.
    + destruct Hres as [-> Hd]. rewrite Htmp, Count_of by (cbn; lia). change (Z.of_nat (length (@nil Op)) =? 0) with true. cbn [mbind option_bind].
      rewrite batch_Append_of by (cbn [length]; lia). apply Hnext; [|done].
      rewrite batch_Append_of by (cbn [app length]; lia). rewrite concat_app, Hd. cbn [concat app]. by rewrite app_nil_r.
  - subst ops. apply Hnext; [|done]. rewrite concat_app. cbn [concat]. rewrite !app_nil_r. exact Hres.
Qed.

End Group.

(** ** The entries of a batch *)

(** Room for the tag in the length fields. *)
Definition op_fits (op : Op) : Prop :=
  match op with
  | OpPut k v => blen k + 8 < 2 ^ 32 /\ blen v < 2 ^ 32
  | OpDelete k => blen k + 8 < 2 ^ 32
  end.

Lemma op_fits_ok op : op_fits op -> op_ok op.
Proof. destruct op as [k v|k]; cbn; [pose proof (blen_nonneg k)|]; lia. Qed.

Lemma number_ops_seq ops : forall seq e, e ∈ number_ops seq ops -> seq <= e_seq e < seq + Z.of_nat (length ops).
Proof.
  induction ops as [|op ops IH]; intros seq e He; [by apply elem_of_nil in He|]. cbn [length].
  assert (Hc : e_seq e = seq \/ e ∈ number_ops (seq + 1) ops) by (destruct op; cbn [number_ops] in He; apply elem_of_cons in He as [->|He]; auto).
  destruct Hc as [Hc|Hc]; [lia|]. apply IH in Hc. lia.
Qed.

Lemma number_ops_ok ops : forall seq, 0 <= seq -> seq + Z.of_nat (length ops) <= kMaxSequenceNumber + 1 -> Forall op_fits ops ->
  Forall entry_ok (number_ops seq ops).
Proof.
  induction ops as [|op ops IH]; intros seq H0 H1 Hf; [constructor|]. apply Forall_cons in Hf as [Ho Hf]. cbn [length] in H1.
  assert (Hrest : Forall entry_ok (number_ops (seq + 1) ops)) by (apply IH; [lia|lia|done]).
  destruct op as [k v|k]; cbn [number_ops]; constructor; try done; cbn in Ho; split; cbn [e_seq e_key e_value]; try lia.
  change (blen []) with 0. lia.
Qed.

Lemma seq_different c e e' : entry_ok e -> entry_ok e' -> e_seq e < e_seq e' -> different c e e'.
Proof.
  intros He He' Hlt [_ Ht]. rewrite !tag_spec in Ht by done. pose proof (ValueType_value_range (e_type e)). pose proof (ValueType_value_range (e_type e')). lia.
Qed.

Lemma number_ops_different c ops : forall seq, Forall entry_ok (number_ops seq ops) -> ForallOrdPairs (different c) (number_ops seq ops).
Proof.
  induction ops as [|op ops IH]; intros seq Hok; [constructor|].
  assert (Hall : forall e, e_seq e = seq -> entry_ok e -> Forall entry_ok (number_ops (seq + 1) ops) -> Forall (different c e) (number_ops (seq + 1) ops)).
  { intros e Hs He Hr. rewrite Forall_forall in Hr |- *. intros e' He'. apply seq_different; [done|by apply Hr|]. apply number_ops_seq in He'. lia. }
  destruct op; cbn [number_ops] in *; apply Forall_cons in Hok as [He Hr]; constructor; auto.
Qed.

Lemma InsertInto_of c ops seq m :
  Forall op_ok ops -> Z.of_nat (length ops) < 2 ^ 31 -> 0 <= seq -> seq + Z.of_nat (length ops) < 2 ^ 64 ->
  InsertInto c (batch_of seq ops) m = (OK, add_all c m (number_ops seq ops)).
Proof.
  intros Hok Hn H0 Hs. unfold InsertInto. rewrite Sequence_of, Iterate_of by (done || lia).
  pose proof (replay_inserts c ops seq m H0 Hs) as E. destruct (fold_left _ ops _) as [q m']. cbn [snd] in E. by rewrite E.
Qed.

(** Inserting a batch numbered past everything in the memtable. *)
Lemma insert_of c `{!ComparatorLaws c} ops seq m es :
  holds c m es -> (forall e, e ∈ es -> e_seq e < seq) -> Forall op_fits ops -> Z.of_nat (length ops) < 2 ^ 31 ->
  0 <= seq -> seq + Z.of_nat (length ops) <= kMaxSequenceNumber + 1 ->
  exists m' es', InsertInto c (batch_of seq ops) m = (OK, Some m') /\ holds c m' es' /\ es' ≡ₚ es ++ number_ops seq ops.
Proof.
  intros Hh Hold Hfit Hn H0 H1. pose proof (number_ops_ok ops seq H0 H1 Hfit) as Hok.
  destruct (add_all_holds c (number_ops seq ops) m es Hh Hok (number_ops_different c ops seq Hok)) as (m' & es' & Ha & Hh' & Hp).
  { intros e e' He He'. pose proof (number_ops_seq ops seq e' He'). destruct Hh as [Hes _]. rewrite Forall_forall in Hes, Hok.
    apply seq_different; [by apply Hes|by apply Hok|]. specialize (Hold e He). lia. }
  exists m', es'. split; [|done]. rewrite InsertInto_of, Ha; [done| |done|done|change kMaxSequenceNumber with 72057594037927935 in H1; lia].
  eapply Forall_impl; [exact Hfit|]. apply op_fits_ok.
Qed.

(** ** The queue after a group *)

Section Queue.

Context {F W : Type}.

Implicit Types db : DBImpl F.

(** The writers of a group, the one that does the work apart, are told its status. *)
Definition mark_done (s : Status) (self : nat) (ws : gmap nat DBWriter) (group : list nat) : gmap nat DBWriter :=
  fold_left (fun ws p => if (p =? self)%nat then ws
                         else alter (fun x => mkDBWriter s (w_batch x) (w_sync x) true) p ws) group ws.

Lemma mark_done_other s self group : forall ws q, q ∉ group -> mark_done s self ws group !! q = ws !! q.
Proof.
  induction group as [|p group IH]; intros ws q Hq; [done|]. rewrite not_elem_of_cons in Hq. destruct Hq as [Hqp Hq].
  cbn [mark_done fold_left]. fold (mark_done s self). unfold mark_done in IH. rewrite IH by done.
  destruct (p =? self)%nat; [done|]. by rewrite lookup_alter_ne.
Qed.

Lemma mark_done_member s self group : forall ws q x, NoDup group -> q ∈ group -> q <> self -> ws !! q = Some x ->
  mark_done s self ws group !! q = Some (mkDBWriter s (w_batch x) (w_sync x) true).
Proof.
  induction group as [|p group IH]; intros ws q x Hnd Hq Hs Hx; [by apply elem_of_nil in Hq|].
  apply NoDup_cons in Hnd as [Hp Hnd]. cbn [mark_done fold_left]. apply elem_of_cons in Hq as [->|Hq].
  - rewrite (proj2 (Nat.eqb_neq _ _) Hs). fold (mark_done s self (alter (fun x => mkDBWriter s (w_batch x) (w_sync x) true) p ws) group).
    rewrite mark_done_other by done. by rewrite lookup_alter_eq, Hx.
  - apply (IH _ q x); [done|done|done|]. destruct (p =? self)%nat; [done|]. rewrite lookup_alter_ne; [done|]. by intros ->.
Qed.

Lemma pop_writers_run group rest self s : forall db (w : W) last_writer,
  NoDup group -> last group = Some last_writer -> (forall q, q ∈ group -> is_Some (writer_at db !! q)) ->
  pop_writers (group ++ rest) self last_writer s db w =
  Some (tt, set_writers rest (set_writer_at (mark_done s self (writer_at db) group) db), w).
Proof.
  induction group as [|p group IH]; intros db w lw Hnd Hl Hq; [done|]. apply NoDup_cons in Hnd as [Hp Hnd].
  cbn [app pop_writers]. unfold db_bind at 1, change at 1. cbn [mbind option_bind].
  set (db1 := set_writers (group ++ rest) db).
  assert (Hmark : (if (p =? self)%nat then db_ret tt else let! w := writer p in put_writer p (mkDBWriter s (w_batch w) (w_sync w) true))%db db1 w =
    Some (tt, set_writer_at (mark_done s self (writer_at db) [p]) db1, w)).
  { cbn [mark_done fold_left]. destruct (p =? self)%nat; [done|]. destruct (Hq p ltac:(left)) as [x Hx].
    unfold writer, db_bind, get_db, need. cbn [mbind option_bind]. change (writer_at db1) with (writer_at db). rewrite Hx. cbn [mbind option_bind].
    unfold put_writer, change. do 3 f_equal. change (writer_at db1) with (writer_at db).
    f_equal. apply map_eq. intros q. destruct (decide (q = p)) as [->|Hne].
    - by rewrite lookup_insert_eq, lookup_alter_eq, Hx.
    - by rewrite lookup_insert_ne, lookup_alter_ne by done. }
  rewrite (db_bind_run _ _ _ _ _ _ _ Hmark).
  destruct group as [|p2 group].
  - injection Hl as ->. by rewrite Nat.eqb_refl.
  - assert (Hne : (p =? lw)%nat = false).
    { apply Nat.eqb_neq. intros ->. apply Hp. rewrite last_cons_cons in Hl. apply last_Some in Hl as [l ->]. apply elem_of_app. right. by left. }
    rewrite Hne. rewrite last_cons_cons in Hl.
    rewrite (IH (set_writer_at (mark_done s self (writer_at db) [p]) db1) w lw Hnd Hl); [done|].
    intros q Hin. cbn [mark_done fold_left writer_at set_writer_at]. destruct (p =? self)%nat; [apply Hq; by right|].
    rewrite lookup_alter_ne by (intros ->; by apply Hp). apply Hq. by right.
Qed.

End Queue.

(** ** Committing a group *)

(** A batch with its sequence number: its record in the log and its entries. *)
Definition batch_record (b : Z * list Op) : bytes := Contents (batch_of (fst b) (snd b)).
Definition batch_entries (b : Z * list Op) : list Entry := number_ops (fst b) (snd b).

Section Commit.

Context {F W S : Type} `{!WritableFile F} `{!SequentialFile S} `{!DescriptorEnv (F := F) W S} `{!DbEnv W}.
Context {contents : F -> bytes} `{!ReliableWritable F contents}.
Context (others : DBImpl F -> W -> DBImpl F * W) (addr : Z) (c : Comparator) `{!ComparatorLaws c}.

Implicit Types db : DBImpl F.

(** The log file holds these records and its writer is in step with it. *)
Definition log_holds (log : Writer F) (recs : list bytes) : Prop :=
  writer_ok (contents := contents) log /\ log_layout 0 recs (contents (dest_ log)).

(** The log and the memtable hold the same batches. *)
Record log_state (db : DBImpl F) (batches : list (Z * list Op)) : Prop := {
  ls_log : exists log, log_ db = Some log /\ log_holds log (map batch_record batches);
  ls_mem : exists p m es, mem_ db = Some p /\ mems db !! p = Some m /\ holds c m es /\ es ≡ₚ concat (map batch_entries batches);
  ls_seq e : e ∈ concat (map batch_entries batches) -> e_seq e <= vs_last_sequence_ (db_versions_ db);
  ls_last : 0 <= vs_last_sequence_ (db_versions_ db);
  ls_cmp : user_cmp (db_versions_ db) = c;
  ls_tmp : tmp_batch_ db = batch_of 0 []
}.

(** What other threads leave alone while the front writer has released the mutex:
    they may only add writers to the queue, and only the front writer writes to the
    log, to the memtable and to [tmp_batch_], and numbers batches. *)
Record yields (db db' : DBImpl F) : Prop := {
  y_log : log_ db' = log_ db;
  y_mem : mem_ db' = mem_ db;
  y_table p m : mem_ db = Some p -> mems db !! p = Some m -> exists m', mems db' !! p = Some m' /\ table_ m' = table_ m;
  y_last : vs_last_sequence_ (db_versions_ db') = vs_last_sequence_ (db_versions_ db);
  y_cmp : user_cmp (db_versions_ db') = user_cmp (db_versions_ db);
  y_tmp : tmp_batch_ db' = tmp_batch_ db;
  y_queue : exists new, writers_ db' = writers_ db ++ new /\ NoDup (writers_ db');
  y_writers q : q ∈ writers_ db -> writer_at db' !! q = writer_at db !! q
}.

Lemma log_write_ok sync b db (w : W) log recs :
  log_ db = Some log -> log_holds log recs ->
  exists s log', log_write addr sync b db w = Some ((s, false), set_log (Some log') db, w) /\ ok s = true /\
    log_holds log' (recs ++ [Contents b]).
Proof.
  intros El [Hok Hlay]. destruct (AddRecord_layout log addr (Contents b) Hok) as (s & log1 & out & Ha & Hs & Hok1 & Hc & Hrl).
  assert (Hl1 : log_holds log1 (recs ++ [Contents b])).
  { split; [done|]. rewrite Hc. apply log_layout_app; [done|]. rewrite <- (app_nil_r out). econstructor; [done|]. constructor. }
  unfold log_write, db_bind, get_db, need. cbn [mbind option_bind]. rewrite El. cbn [mbind option_bind]. rewrite Ha. cbn [mbind option_bind].
  rewrite Hs. cbn [andb]. destruct sync; [|by exists s, log1].
  destruct (sync_contents (dest_ log1)) as [Hso Hsc]. destruct (Sync (dest_ log1)) as [s2 file]. cbn [fst snd] in *.
  exists s2, (mkWriter file (block_offset_ log1) (type_crc_ log1)). rewrite Hso. split; [done|]. split; [done|].
  destruct Hl1 as [Hw Hl]. split; [|cbn [dest_]; by rewrite Hsc].
  unfold writer_ok in *. cbn [dest_ block_offset_ type_crc_]. by rewrite Hsc.
Qed.

(** Building the group and numbering its batch. *)
Lemma group_ok db (w : W) self rest first fb ops0 opss seq :
  writers_ db = self :: rest -> writer_at db !! self = Some first -> w_batch first = Some fb ->
  Forall2 (queued db) (self :: rest) (ops0 :: opss) -> tmp_batch_ db = batch_of 0 [] -> total_ops (ops0 :: opss) < 2 ^ 31 ->
  exists k b tmp db0 db1, let ops := concat (take (Datatypes.S k) (ops0 :: opss)) in
    (k <= length rest)%nat /\
    BuildBatchGroup db w = Some ((b, tmp, default self (last (take k rest))), db0, w) /\
    number_batch self b tmp seq db0 w = Some (batch_of seq ops, db1, w) /\
    Forall (may_join db (w_sync first)) (self :: take k rest) /\
    (if tmp : bool then db1 = set_tmp_batch (batch_of seq ops) db
     else db1 = set_writer_at (<[self := mkDBWriter (w_status first) (Some (batch_of seq ops)) (w_sync first) (w_done first)]> (writer_at db)) db).
Proof.
  intros Ew Ef Eb Hq Htmp Hn. apply Forall2_cons in Hq as [(x & Hx & Hops) Hq]. rewrite Ef in Hx. injection Hx as <-.
  unfold writer_ops in Hops. rewrite Eb in Hops. destruct Hops as [seqf Hfb].
  destruct (group_loop_spec db first fb (max_group_size (ByteSize fb)) seqf ops0 rest opss Hfb Htmp Hq (ByteSize fb) fb false self [])
    as (k & b & tmp & lw & Hk & Hg & [seq' Hb] & Hntmp & Hlw & Hj).
  { done. }
  { unfold total_ops in *. cbn [concat] in *. rewrite length_app in Hn. cbn [length]. lia. }
  cbn [concat app] in Hb. exists k, b, tmp, (if tmp then set_tmp_batch b db else db).
  assert (Hbuild : BuildBatchGroup db w = Some ((b, tmp, lw), if tmp then set_tmp_batch b db else db, w)).
  { unfold BuildBatchGroup, db_bind, get_db, need, writer. cbn [mbind option_bind]. rewrite Ew. cbn [head mbind option_bind].
    unfold db_bind, get_db, need. cbn [mbind option_bind]. rewrite Ef. cbn [mbind option_bind]. rewrite Eb. cbn [mbind option_bind tail].
    rewrite Hg. cbn [mbind option_bind]. by destruct tmp. }
  set (ops := concat (take (Datatypes.S k) (ops0 :: opss))). assert (Hbs : SetSequence b seq = batch_of seq ops) by (rewrite Hb; apply SetSequence_of).
  unfold number_batch. rewrite Hbs, Hbuild, Hlw. destruct tmp.
  - exists (set_tmp_batch (batch_of seq ops) db). split; [done|]. split; [done|]. split; [done|]. split; [|done]. constructor; [|done]. intros x Hx. congruence.
  - eexists. split; [done|]. split; [done|]. split; [|split; [|reflexivity]].
    + unfold writer, db_bind, get_db, need. cbn [mbind option_bind]. rewrite Ef. by cbn [mbind option_bind].
    + constructor; [|done]. intros x Hx. congruence.
Qed.

(** The state of the group's members in the queue when the mutex is taken again. *)
Lemma holds_table m m' es : table_ m' = table_ m -> holds c m es -> holds c m' es.
Proof. intros Ht [H1 H2]. split; [done|]. by rewrite Ht. Qed.

Lemma insert_batch_ok db (w : W) p m es seq ops :
  mem_ db = Some p -> mems db !! p = Some m -> holds c m es -> user_cmp (db_versions_ db) = c ->
  (forall e, e ∈ es -> e_seq e < seq) -> Forall op_fits ops -> Z.of_nat (length ops) < 2 ^ 31 ->
  0 <= seq -> seq + Z.of_nat (length ops) <= kMaxSequenceNumber + 1 ->
  exists m' es', insert_batch (batch_of seq ops) db w = Some (OK, set_mems (<[p := m']> (mems db)) db, w) /\
    holds c m' es' /\ es' ≡ₚ es ++ number_ops seq ops.
Proof.
  intros Ep Em Hh Hc Hold Hfit Hn H0 H1. destruct (insert_of c ops seq m es Hh Hold Hfit Hn H0 H1) as (m' & es' & Hi & Hh' & Hp).
  exists m', es'. split; [|done]. unfold insert_batch, mem_at, db_bind, get_db, need. cbn [mbind option_bind]. rewrite Ep. cbn [mbind option_bind].
  rewrite Em. cbn [mbind option_bind]. rewrite Hc, Hi. cbn [mbind option_bind]. done.
Qed.

(** What holds once the mutex has been taken again and the last sequence number set. *)
Lemma committed db3 db4 (tmp : bool) batches log p m es (b : Z * list Op) last :
  log_ db3 = Some log -> log_holds log (map batch_record (batches ++ [b])) ->
  mem_ db3 = Some p -> mems db3 !! p = Some m -> holds c m es -> es ≡ₚ concat (map batch_entries (batches ++ [b])) ->
  user_cmp (db_versions_ db3) = c -> (tmp = false -> tmp_batch_ db3 = batch_of 0 []) -> yields db3 db4 ->
  0 <= last -> (forall e, e ∈ concat (map batch_entries (batches ++ [b])) -> e_seq e <= last) ->
  let db5 := if tmp then set_tmp_batch WriteBatch_Clear db4 else db4 in
  forall vs, vs_last_sequence_ vs = last -> user_cmp vs = user_cmp (db_versions_ db5) ->
  log_state (set_db_versions vs db5) (batches ++ [b]).
Proof.
  intros El Hlog Ep Em Hh Hes Hc Htmp [Yl Ym Yt Ys Yc Ytmp _ _] H0 Hseq db5 vs Hvs Hcv.
  destruct (Yt p m Ep Em) as (m' & Em' & Ht).
  assert (H5 : log_ db5 = log_ db4 /\ mem_ db5 = mem_ db4 /\ mems db5 = mems db4 /\ db_versions_ db5 = db_versions_ db4 /\ tmp_batch_ db5 = batch_of 0 []).
  { unfold db5. destruct tmp; [by rewrite <- WriteBatch_make_of|]. split_and!; try done. rewrite Ytmp. by apply Htmp. }
  destruct H5 as (E1 & E2 & E3 & E4 & E5). split; cbn [set_db_versions log_ mem_ mems db_versions_ tmp_batch_].
  - exists log. by rewrite E1, Yl.
  - exists p, m', es. rewrite E2, E3, Ym. split_and!; try done. by eapply holds_table.
  - intros e He. rewrite Hvs. by apply Hseq.
  - by rewrite Hvs.
  - by rewrite Hcv, E4, Yc.
  - done.
Qed.

Context (Hyields : forall db w, NoDup (writers_ db) -> yields db (fst (others db w))).

Lemma write_group_ok db (w : W) batches self rest first fb ops0 opss :
  log_state db batches -> writers_ db = self :: rest -> NoDup (self :: rest) ->
  writer_at db !! self = Some first -> w_batch first = Some fb ->
  Forall2 (queued db) (self :: rest) (ops0 :: opss) -> Forall (Forall op_fits) (ops0 :: opss) ->
  total_ops (ops0 :: opss) < 2 ^ 31 -> vs_last_sequence_ (db_versions_ db) + total_ops (ops0 :: opss) <= kMaxSequenceNumber ->
  exists k s new db' w', let seq := vs_last_sequence_ (db_versions_ db) in let ops := concat (take (Datatypes.S k) (ops0 :: opss)) in
    write_group others addr self (w_sync first) db w = Some ((s, default self (last (take k rest))), db', w') /\ ok s = true /\ (k <= length rest)%nat /\
    log_state db' (batches ++ [(seq + 1, ops)]) /\ vs_last_sequence_ (db_versions_ db') = seq + Z.of_nat (length ops) /\
    writers_ db' = self :: rest ++ new /\ NoDup (writers_ db') /\
    (forall q, q ∈ rest -> writer_at db' !! q = writer_at db !! q) /\ is_Some (writer_at db' !! self) /\
    Forall (may_join db (w_sync first)) (self :: take k rest).
Proof.
  intros [(log & El & Hlog) (p & m & es & Ep & Em & Hh & Hes) Hseq Hlast Hc Htmp] Ew Hnd Ef Eb Hq Hfit Hn Hmax.
  set (seq := vs_last_sequence_ (db_versions_ db)) in *. change kMaxSequenceNumber with 72057594037927935 in Hmax.
  assert (H0 : 0 <= total_ops (ops0 :: opss)) by (unfold total_ops; lia).
  destruct (group_ok db w self rest first fb ops0 opss (u64 (seq + 1)) Ew Ef Eb Hq Htmp Hn) as (k & b & tmp & db0 & db1 & Hk & Hb & Hnum & Hj & Edb1).
  set (ops := concat (take (Datatypes.S k) (ops0 :: opss))) in *.
  assert (Hops : Z.of_nat (length ops) <= total_ops (ops0 :: opss)).
  { unfold total_ops, ops. rewrite <- (take_drop (Datatypes.S k) (ops0 :: opss)) at 2. rewrite concat_app, length_app. lia. }
  assert (Hfo : Forall op_fits ops).
  { unfold ops. apply Forall_concat. by apply Forall_take. }
  rewrite u64_small in Hnum, Edb1 by lia.
  assert (Hsame : log_ db1 = log_ db /\ mem_ db1 = mem_ db /\ mems db1 = mems db /\ db_versions_ db1 = db_versions_ db /\ writers_ db1 = writers_ db)
    by (destruct tmp; rewrite Edb1; done).
  destruct Hsame as (El1 & Ep1 & Em1 & Ev1 & Ew1).
  destruct (log_write_ok (w_sync first) (batch_of (seq + 1) ops) db1 w log _ ltac:(by rewrite El1) Hlog) as (s & log' & Hlw & Hs & Hlog').
  set (db2 := set_log (Some log') db1).
  destruct (insert_batch_ok db2 w p m es (seq + 1) ops) as (m' & es' & Hins & Hh' & Hes'); try done.
  { change (mem_ db2) with (mem_ db1). by rewrite Ep1. }
  { change (mems db2) with (mems db1). by rewrite Em1. }
  { change (db_versions_ db2) with (db_versions_ db1). by rewrite Ev1. }
  { intros e He. rewrite Hes in He. apply Hseq in He. lia. }
  { lia. }
  { lia. }
  { change kMaxSequenceNumber with 72057594037927935. lia. }
  set (db3 := set_mems (<[p := m']> (mems db2)) db2).
  assert (Hnd3 : NoDup (writers_ db3)) by (change (writers_ db3) with (writers_ db1); by rewrite Ew1, Ew).
  pose proof (Hyields db3 w Hnd3) as Hy. destruct (others db3 w) as [db4 w4] eqn:Eo. cbn [fst] in Hy.
  pose proof Hy as [Yl Ym Yt Ys Yc Ytmp (new & Yq & Ynd) Yw].
  change (writers_ db3) with (writers_ db1) in Yq, Yw. rewrite Ew1, Ew in Yq, Yw.
  set (db5 := if tmp then set_tmp_batch WriteBatch_Clear db4 else db4).
  assert (Hsl : u64 (seq + Count (batch_of (seq + 1) ops)) = seq + Z.of_nat (length ops)) by (rewrite Count_of by lia; apply u64_small; lia).
  assert (Hv5 : vs_last_sequence_ (db_versions_ db5) = seq).
  { assert (vs_last_sequence_ (db_versions_ db4) = seq) by (rewrite Ys; change (db_versions_ db3) with (db_versions_ db1); by rewrite Ev1). unfold db5. by destruct tmp. }
  exists k, OK, new. eexists. exists w4. split.
  - unfold write_group. rewrite (db_bind_run get_db _ db w db db w eq_refl). fold seq. rewrite (db_bind_run _ _ _ _ _ _ _ Hb).
    rewrite u64_small by lia. rewrite (db_bind_run _ _ _ _ _ _ _ Hnum), (db_bind_run _ _ _ _ _ _ _ Hlw), Hs, Hsl.
    rewrite (db_bind_run _ _ _ _ _ _ _ Hins). fold db3.
    assert (Hre : relock others db3 w = Some (tt, db4, w4)) by (unfold relock; by rewrite Eo).
    rewrite (db_bind_run _ _ _ _ _ _ _ Hre). rewrite (db_bind_run (when false _) _ db4 w4 tt db4 w4 eq_refl).
    assert (Hcl : when tmp (change (set_tmp_batch WriteBatch_Clear)) db4 w4 = Some (tt, db5, w4)) by (by destruct tmp).
    rewrite (db_bind_run _ _ _ _ _ _ _ Hcl). unfold db_bind, change_versions, vs_SetLastSequence. rewrite Hv5.
    rewrite (proj2 (Z.ltb_ge _ _)) by lia. cbn [mbind option_bind]. reflexivity.
  - split; [done|]. split; [done|]. split; [|split; [|split; [|split; [|split; [|split]]]]].
    + apply (committed db3 db4 tmp batches log' p m' es' (seq + 1, ops) (seq + Z.of_nat (length ops))); try done.
      * by rewrite map_app.
      * change (mem_ db3) with (mem_ db1). by rewrite Ep1.
      * cbn [db3 set_mems mems]. by rewrite lookup_insert_eq.
      * rewrite map_app, concat_app, Hes', Hes. cbn [map concat batch_entries fst snd]. by rewrite app_nil_r.
      * change (db_versions_ db3) with (db_versions_ db1). by rewrite Ev1.
      * intros ->. change (tmp_batch_ db3) with (tmp_batch_ db1). by rewrite Edb1.
      * lia.
      * intros e He. rewrite map_app, concat_app, elem_of_app in He. destruct He as [He|He]; [apply Hseq in He; lia|].
        cbn [map concat batch_entries fst snd] in He. rewrite app_nil_r in He. apply number_ops_seq in He. cbn [fst snd] in He. lia.
    + done.
    + cbn [set_db_versions writers_]. unfold db5. by destruct tmp; cbn [set_tmp_batch writers_]; rewrite Yq.
    + cbn [set_db_versions writers_]. unfold db5. by destruct tmp.
    + intros q Hin. assert (Hqs : q <> self) by (apply NoDup_cons in Hnd as [Hnd _]; by intros ->).
      assert (H5 : writer_at db5 = writer_at db4) by (unfold db5; by destruct tmp). cbn [set_db_versions writer_at]. rewrite H5, Yw by (by right).
      change (writer_at db3) with (writer_at db1). destruct tmp; rewrite Edb1; [done|]. cbn [set_writer_at writer_at]. by rewrite lookup_insert_ne.
    + assert (H5 : writer_at db5 = writer_at db4) by (unfold db5; by destruct tmp). cbn [set_db_versions writer_at]. rewrite H5, Yw by (by left).
      change (writer_at db3) with (writer_at db1). destruct tmp; rewrite Edb1; [cbn [set_tmp_batch writer_at]; by rewrite Ef|]. cbn [set_writer_at writer_at]. by rewrite lookup_insert_eq.
    + done.
Qed.

(** C6: what a successful [Write] guarantees.  When the front writer has room, it
    commits a group of writers from the front of the queue, itself first: one record
    is added to the log, a batch with the operations of all of them in the order of
    the queue; the same operations enter the memtable under consecutive sequence
    numbers that start after the last one used, and the last one is advanced past
    them; log and memtable still hold the same batches.  The other members of the
    group are told that their write is done and succeeded, the queue continues with
    the writers behind them, and a writer that asked for syncing is a member only if
    the log was synced. *)
Theorem write_commits fuel db0 (w0 : W) s0 db (w : W) batches self rest first fb ops0 opss :
  MakeRoomForWrite others addr fuel false db0 w0 = Some (s0, db, w) -> ok s0 = true ->
  log_state db batches -> writers_ db = self :: rest -> NoDup (self :: rest) ->
  writer_at db !! self = Some first -> w_batch first = Some fb ->
  Forall2 (queued db) (self :: rest) (ops0 :: opss) -> Forall (Forall op_fits) (ops0 :: opss) ->
  total_ops (ops0 :: opss) < 2 ^ 31 -> vs_last_sequence_ (db_versions_ db) + total_ops (ops0 :: opss) <= kMaxSequenceNumber ->
  exists k s new db' w',
    let seq := vs_last_sequence_ (db_versions_ db) in
    let group := self :: take k rest in
    let ops := concat (take (Datatypes.S k) (ops0 :: opss)) in
    write_front others addr fuel self (w_sync first) (Some fb) db0 w0 = Some (s, db', w') /\ ok s = true /\
    log_state db' (batches ++ [(seq + 1, ops)]) /\ vs_last_sequence_ (db_versions_ db') = seq + Z.of_nat (length ops) /\
    writers_ db' = drop k rest ++ new /\
    (forall q, q ∈ group -> q <> self -> exists x, writer_at db' !! q = Some x /\ w_done x = true /\ ok (w_status x) = true) /\
    Forall (may_join db (w_sync first)) group.
Proof.
  intros Hroom Hs0 Hls Ew Hnd Ef Eb Hq Hfit Hn Hmax.
  destruct (write_group_ok db w batches self rest first fb ops0 opss Hls Ew Hnd Ef Eb Hq Hfit Hn Hmax)
    as (k & s & new & db1 & w1 & Hg & Hs & Hk & Hls1 & Hl1 & Ew1 & Hnd1 & Hwr & Hself & Hj).
  assert (Hin : forall q, q ∈ self :: take k rest -> is_Some (writer_at db1 !! q)).
  { intros q Hqin. apply elem_of_cons in Hqin as [->|Hqin]; [done|]. assert (Hqr : q ∈ rest) by (rewrite <- (take_drop k rest); apply elem_of_app; by left).
    rewrite Hwr by done. apply Forall2_cons in Hq as [_ Hq]. apply list_elem_of_lookup_1 in Hqr as [i Hi].
    destruct (Forall2_lookup_l _ _ _ _ _ Hq Hi) as (? & _ & x & Hx & _). by exists x. }
  assert (Hndg : NoDup (self :: take k rest)).
  { eapply sublist_NoDup; [exact Hnd|]. apply sublist_skip. rewrite <- (take_drop k rest) at 2. by apply sublist_inserts_r. }
  assert (Hpop := pop_writers_run (self :: take k rest) (drop k rest ++ new) self s db1 w1 (default self (last (take k rest))) Hndg
    ltac:(rewrite last_cons; by destruct (last (take k rest))) Hin).
  exists k, s, new. eexists. exists w1. split.
  - unfold write_front. rewrite bool_decide_false by done. rewrite (db_bind_run _ _ _ _ _ _ _ Hroom), Hs0. cbn [andb negb].
    rewrite (db_bind_run _ _ _ _ _ _ _ Hg). rewrite (db_bind_run get_db _ db1 w1 db1 db1 w1 eq_refl).
    rewrite Ew1. replace ((self :: take k rest) ++ drop k rest ++ new) with (self :: rest ++ new) in Hpop by (cbn [app]; by rewrite app_assoc, take_drop).
    rewrite (db_bind_run _ _ _ _ _ _ _ Hpop). reflexivity.
  - split; [done|]. split; [by destruct Hls1|]. split; [done|]. split; [done|]. split; [|done].
    intros q Hqg Hqs. destruct (Hin q Hqg) as [x Hx].
    exists (mkDBWriter s (w_batch x) (w_sync x) true). split; [|done]. cbn [set_writers writer_at set_writer_at].
    by apply mark_done_member.
Qed.

End Commit.

(** ** A small queue

    Three writers: a put, a forced memtable switch and a deletion; the last one asks
    for syncing, which the first does not. *)

#[local] Instance queue_files : DescriptorEnv (F := StringDest) unit StringSource := {
  env_NewWritableFile _ w := (OK, Some (mkDest []), w);
  env_NewAppendableFile _ w := (OK, Some (mkDest []), w);
  env_NewSequentialFile _ w := (OK, Some (mkSource []), w);
  env_GetFileSize _ w := (OK, 0, w);
  env_RemoveFile _ w := (OK, w);
  env_SetCurrentFile _ _ w := (OK, w);
  env_ReadFileToString _ w := (OK, [], w)
}.

#[local] Instance queue_env : DbEnv unit := {
  env_GetChildren _ w := (OK, [], w);
  env_CreateDir _ w := (OK, w);
  env_RemoveDir _ w := (OK, w);
  env_FileExists _ w := (true, w);
  env_LockFile _ w := (OK, w);
  env_UnlockFile w := (OK, w);
  env_NowMicros w := (0, w);
  env_SleepForMicroseconds _ w := w;
  env_Schedule w := w;
  cache_check _ _ w := (OK, w);
  cache_Evict _ w := w
}.

Definition nobody (db : DBImpl StringDest) (w : unit) : DBImpl StringDest * unit := (db, w).

Definition queue_versions : VersionSet StringDest :=
  default (mkVersionSet [] Options_default BytewiseComparator 0 0 0 0 0 None [] None [] (mkStore ∅ 0) 0)
    (VersionSet_new (str "db") Options_default BytewiseComparator).

Definition queue_put : list Op := [OpPut (str "k") (str "v")].
Definition queue_delete : list Op := [OpDelete (str "k")].
Definition queue_first : DBWriter := mkDBWriter OK (Some (batch_of 0 queue_put)) false false.

Definition queue_db : DBImpl StringDest :=
  mkDB (str "db") Options_default true false {[0%nat := Ref MemTable_make]} 1 (Some 0%nat) None false 3
    (Some (Writer_make 0 (mkDest []))) 0 [1; 2; 3]%nat
    {[1%nat := queue_first; 2%nat := mkDBWriter OK None false false;
      3%nat := mkDBWriter OK (Some (batch_of 0 queue_delete)) true false]}
    WriteBatch_make SnapshotList_make ∅ false ∅ None queue_versions OK [].

Lemma queue_db_ok : log_state (contents := dest_contents) BytewiseComparator queue_db [].
Proof.
  split; try done.
  - exists (Writer_make 0 (mkDest [])). split; [done|]. split; [by apply Writer_make_ok|constructor].
  - exists 0%nat, (Ref MemTable_make), []. split; [done|]. split; [done|]. split; [|done].
    by apply (holds_table BytewiseComparator MemTable_make), holds_make.
  - intros e He. by apply elem_of_nil in He.
Qed.

Lemma nobody_yields db w : NoDup (writers_ db) -> yields db (fst (nobody db w)).
Proof. intros Hnd. split; try done; [eauto|]. exists []. by rewrite app_nil_r. Qed.

Lemma write_commits_witness :
  exists k s new db' w',
    write_front nobody 0 1 1 false (Some (batch_of 0 queue_put)) queue_db tt = Some (s, db', w') /\ ok s = true /\
    log_state (contents := dest_contents) BytewiseComparator db'
      ([] ++ [(1, concat (take (S k) [queue_put; []; queue_delete]))]) /\
    writers_ db' = drop k [2; 3]%nat ++ new.
Proof.
  destruct (write_commits (contents := dest_contents) nobody 0 BytewiseComparator nobody_yields 1 queue_db tt OK queue_db tt []
    1 [2; 3]%nat queue_first (batch_of 0 queue_put) queue_put [[]; queue_delete]) as (k & s & new & db' & w' & Hrun & Hs & Hls & _ & Hq & _).
  - by vm_compute.
  - done.
  - exact queue_db_ok.
  - done.
  - apply (bool_decide_unpack _). by vm_compute.
  - by vm_compute.
  - done.
  - repeat constructor; eexists; (split; [by vm_compute|]); [by exists 0|done|by exists 0].
  - repeat constructor; cbn; lia.
  - by vm_compute.
  - by vm_compute.
  - exists k, s, new, db', w'. split; [exact Hrun|]. split; [exact Hs|]. split; [exact Hls|exact Hq].
Defined.
