(* ===== verification/WriteQueue.v ===== *)
(** * The queue of writers

    Threads enter [Write], wait, and one at a time lead: the writer at the front does
    the work of a group.  Whatever a leader's outcome, it takes a non-empty part off
    the front of the queue, so that every writer's turn comes. *)

From S2P Require Import Prelude Slice Coding Status Env Logging LogFormat LogReader Comparator DbFormat Random Arena SkipList MemTable WriteBatch VersionEdit Filename Format Iterator Options TwoLevel Version Compaction VersionSet Snapshot DbState DbWrite DbWriteSpec.

Section WriteQueue.

Context {F W S : Type} `{!WritableFile F} `{!SequentialFile S} `{!DescriptorEnv (F := F) W S} `{!DbEnv W}.
Context (others : DBImpl F -> W -> DBImpl F * W) (addr : Z).

Implicit Types db : DBImpl F.

(** ** Operations that only add to the queue *)

(** The queue is the same but for writers added at its end, and nobody in it is told
    anything. *)
Record grows (db db' : DBImpl F) : Prop := {
  g_queue : exists new, writers_ db' = writers_ db ++ new;
  g_nodup : NoDup (writers_ db) -> NoDup (writers_ db');
  g_records : (forall q, q ∈ writers_ db -> is_Some (writer_at db !! q)) -> forall q, q ∈ writers_ db' -> is_Some (writer_at db' !! q);
  g_same q x : q ∈ writers_ db -> writer_at db !! q = Some x -> exists x', writer_at db' !! q = Some x' /\ w_done x' = w_done x;
  g_kept q x : writer_at db !! q = Some x -> w_done x = true -> exists x', writer_at db' !! q = Some x' /\ w_done x' = true
}.

Lemma grows_refl db : grows db db.
Proof. split; eauto. exists []. by rewrite app_nil_r. Qed.

Lemma grows_trans db1 db2 db3 : grows db1 db2 -> grows db2 db3 -> grows db1 db3.
Proof.
  intros [(n1 & Q1) N1 R1 S1 K1] [(n2 & Q2) N2 R2 S2 K2]. split; eauto.
  - exists (n1 ++ n2). by rewrite Q2, Q1, app_assoc.
  - intros q x Hq Hx. destruct (S1 q x Hq Hx) as (x1 & Hx1 & E1). destruct (S2 q x1) as (x2 & Hx2 & E2); [rewrite Q1; apply elem_of_app; by left|done|].
    exists x2. split; [done|]. congruence.
  - intros q x Hx Hd. destruct (K1 q x Hx Hd) as (x1 & Hx1 & E1). by apply (K2 q x1).
Qed.

(** The queue and the records are not touched at all. *)
Lemma grows_same db db' : writers_ db' = writers_ db -> writer_at db' = writer_at db -> grows db db'.
Proof. intros E1 E2. split; rewrite ?E1, ?E2; eauto. exists []. by rewrite app_nil_r. Qed.

Definition keeps {A} (m : DbM F W A) : Prop := forall db w a db' w', m db w = Some (a, db', w') -> grows db db'.

Lemma keeps_ret {A} (a : A) : keeps (db_ret a).
Proof. intros db w a' db' w' [= _ <- _]. apply grows_refl. Qed.

Lemma keeps_bind {A B} (m : DbM F W A) (k : A -> DbM F W B) : keeps m -> (forall a, keeps (k a)) -> keeps (db_bind m k).
Proof.
  intros Hm Hk db w b db' w' H. unfold db_bind in H. destruct (m db w) as [[[a db1] w1]|] eqn:E; [|done]. cbn [mbind option_bind] in H.
  eapply grows_trans; [by eapply Hm|by eapply Hk].
Qed.

Lemma keeps_get : keeps get_db.
Proof. intros db w a db' w' [= _ <- _]. apply grows_refl. Qed.

Lemma keeps_need {A} (o : option A) : keeps (need o).
Proof. intros db w a db' w' H. unfold need in H. destruct o; [|done]. injection H as _ <- _. apply grows_refl. Qed.

Lemma keeps_assert b : keeps (assert b).
Proof. intros db w a db' w' H. unfold assert in H. destruct b; [|done]. injection H as _ <- _. apply grows_refl. Qed.

Lemma keeps_env {A} (f : W -> A * W) : keeps (with_env f).
Proof. intros db w a db' w' H. unfold with_env in H. destruct (f w). injection H as _ <- _. apply grows_refl. Qed.

Lemma keeps_change f : (forall db, grows db (f db)) -> keeps (change f).
Proof. intros Hf db w a db' w' [= _ <- _]. apply Hf. Qed.

Lemma keeps_versions {A} (f : VersionSet F -> option (A * VersionSet F)) : keeps (with_versions f).
Proof.
  intros db w a db' w' H. unfold with_versions in H. destruct (f (db_versions_ db)) as [[x vs]|]; [|done]. injection H as _ <- _. by apply grows_same.
Qed.

Lemma keeps_change_versions (f : VersionSet F -> option (VersionSet F)) : keeps (change_versions f).
Proof.
  intros db w a db' w' H. unfold change_versions in H. destruct (f (db_versions_ db)); [|done]. injection H as _ <- _. by apply grows_same.
Qed.

Context (Hothers : forall db w, grows db (fst (others db w))).

Lemma keeps_relock : keeps (relock others).
Proof.
  intros db w a db' w' H. unfold relock in H. pose proof (Hothers db w) as Ho. destruct (others db w). by injection H as _ <- _.
Qed.

#[local] Ltac keep_step :=
  first
    [ apply keeps_ret | apply keeps_get | apply keeps_need | apply keeps_assert | apply keeps_env | apply keeps_versions
    | apply keeps_change_versions | apply keeps_relock
    | apply keeps_bind; [|intros ?]
    | apply keeps_change; intros ?; by apply grows_same
    | match goal with
      | |- keeps (if ?b then _ else _) => destruct b
      | |- keeps (match ?x with _ => _ end) => destruct x
      | |- keeps (when ?b _) => unfold when; destruct b
      end ].
#[local] Ltac keep_with t := repeat first [t | keep_step].
#[local] Ltac keep := repeat keep_step.

Lemma keeps_RecordBackgroundError s : keeps (RecordBackgroundError s).
Proof. unfold RecordBackgroundError. keep. Qed.

Lemma keeps_MaybeSchedule : keeps (MaybeScheduleCompaction (F := F) (W := W)).
Proof. unfold MaybeScheduleCompaction. keep. Qed.

Lemma keeps_new_mem : keeps (new_mem (F := F) (W := W)).
Proof. intros db w a db' w' [= _ <- _]. by apply grows_same. Qed.

Lemma keeps_mem_Ref p : keeps (mem_Ref (F := F) (W := W) p).
Proof. unfold mem_Ref, mem_at, put_mem. keep. Qed.

Lemma keeps_switch : keeps (switch_memtable (F := F) (W := W) addr).
Proof.
  unfold switch_memtable.
  keep_with ltac:(first [apply keeps_RecordBackgroundError|apply keeps_new_mem|apply keeps_mem_Ref|apply keeps_MaybeSchedule]).
Qed.

Lemma keeps_room fuel : forall force allow_delay, keeps (make_room others addr fuel force allow_delay).
Proof.
  induction fuel as [|fuel IH]; intros force allow_delay; cbn [make_room]; [keep|].
  unfold has_room, mem_at. keep_with ltac:(first [apply IH|apply keeps_switch]).
Qed.

Lemma keeps_MakeRoomForWrite fuel force : keeps (MakeRoomForWrite others addr fuel force).
Proof. unfold MakeRoomForWrite. keep. apply keeps_room. Qed.

Lemma keeps_BuildBatchGroup : keeps (BuildBatchGroup (F := F) (W := W)).
Proof. unfold BuildBatchGroup, writer. keep. Qed.

Lemma keeps_number_batch p b tmp seq : keeps (number_batch (F := F) (W := W) p b tmp seq).
Proof.
  unfold number_batch. apply keeps_bind; [|intros ?; keep]. destruct tmp; [keep|]. intros db w a db' w' H.
  unfold db_bind, writer, get_db, need, put_writer, change in H. unfold db_bind in H. cbn [mbind option_bind] in H.
  destruct (writer_at db !! p) as [x|] eqn:Ex; [|done]. cbn [mbind option_bind] in H. injection H as _ <- _.
  split; cbn [set_writer_at writers_ writer_at]; eauto.
  - exists []. by rewrite app_nil_r.
  - intros Hr q Hq. destruct (decide (q = p)) as [->|Hne]; [by rewrite lookup_insert_eq|]. rewrite lookup_insert_ne by done. by apply Hr.
  - intros q y Hq Hy. destruct (decide (q = p)) as [->|Hne]; [|rewrite lookup_insert_ne by done; eauto].
    rewrite lookup_insert_eq. eexists. split; [done|]. cbn [w_done]. congruence.
  - intros q y Hy Hd. destruct (decide (q = p)) as [->|Hne]; [|rewrite lookup_insert_ne by done; eauto].
    rewrite lookup_insert_eq. eexists. split; [done|]. cbn [w_done]. congruence.
Qed.

Lemma keeps_log_write sync b : keeps (log_write (F := F) (W := W) addr sync b).
Proof. unfold log_write. keep. Qed.

Lemma keeps_insert_batch b : keeps (insert_batch (F := F) (W := W) b).
Proof. unfold insert_batch, mem_at, put_mem. keep. Qed.

Lemma keeps_write_group self sync : keeps (write_group others addr self sync).
Proof.
  unfold write_group.
  keep_with ltac:(first [apply keeps_BuildBatchGroup|apply keeps_number_batch|apply keeps_log_write|apply keeps_insert_batch|apply keeps_RecordBackgroundError]).
Qed.

(** ** What a leader does to the queue *)

Lemma group_loop_last db first fb max rest : forall size r t lw r' t' lw',
  group_loop db first fb max rest size r t lw = Some (r', t', lw') -> exists k, lw' = default lw (last (take k rest)).
Proof.
  induction rest as [|p rest IH]; intros size r t lw r' t' lw' H; cbn [group_loop] in H; [injection H as _ _ <-; by exists 0%nat|].
  assert (Hmore : forall sz r1 t1, group_loop db first fb max rest sz r1 t1 p = Some (r', t', lw') -> exists k, lw' = default lw (last (take k (p :: rest)))).
  { intros sz r1 t1 Hg. destruct (IH _ _ _ _ _ _ _ Hg) as [k ->]. exists (Datatypes.S k). cbn [take]. rewrite last_cons. by destruct (last (take k rest)). }
  destruct (writer_at db !! p) as [x|]; [|done]. cbn [mbind option_bind] in H.
  destruct (w_sync x && negb (w_sync first)); [injection H as _ _ <-; by exists 0%nat|].
  destruct (w_batch x) as [b|]; [|by eapply Hmore].
  destruct (max <? u64 (size + ByteSize b)); [injection H as _ _ <-; by exists 0%nat|].
  destruct (if t then Some r else _) as [r1|]; [|done]. cbn [mbind option_bind] in H. by eapply Hmore.
Qed.

Lemma BuildBatchGroup_last db (w : W) b tmp lw db' w' :
  BuildBatchGroup db w = Some ((b, tmp, lw), db', w') ->
  exists front rest k, writers_ db = front :: rest /\ lw = default front (last (take k rest)).
Proof.
  unfold BuildBatchGroup, writer, db_bind, get_db, need. cbn [mbind option_bind]. intros H.
  destruct (writers_ db) as [|front rest]; [done|]. cbn [head tail mbind option_bind] in H.
  destruct (writer_at db !! front) as [x|]; [|done]. cbn [mbind option_bind] in H. destruct (w_batch x) as [fb|]; [|done]. cbn [mbind option_bind] in H.
  destruct (group_loop _ _ _ _ _ _ _ _ _) as [[[r t] l]|] eqn:Eg; [|done]. cbn [mbind option_bind] in H.
  destruct (group_loop_last _ _ _ _ _ _ _ _ _ _ _ _ Eg) as [k Hk]. exists front, rest, k. split; [done|].
  destruct t; injection H as _ _ <- _ _; exact Hk.
Qed.

Lemma write_group_last self sync db (w : W) s lw db' w' rest :
  write_group others addr self sync db w = Some ((s, lw), db', w') -> writers_ db = self :: rest -> exists k, lw = default self (last (take k rest)).
Proof.
  intros H Ew. unfold write_group in H. apply db_bind_inv in H as (db0 & db1 & w1 & [= <- <- <-] & H).
  apply db_bind_inv in H as ([[b tmp] l] & db1 & w1 & Eb & H).
  destruct (BuildBatchGroup_last _ _ _ _ _ _ _ Eb) as (front & rest' & k & Ew' & ->). rewrite Ew in Ew'. injection Ew' as <- <-.
  exists k. apply db_bind_inv in H as (b' & db2 & w2 & _ & H). apply db_bind_inv in H as ([s1 se] & db3 & w3 & _ & H).
  do 5 apply db_bind_inv in H as (? & ? & ? & _ & H). by injection H.
Qed.

(** A turn of the queue: the leader and some writers behind it leave, and those are
    told the status; the rest moves up. *)
Lemma write_front_queue fuel self sync updates db (w : W) s db' w' rest :
  write_front others addr fuel self sync updates db w = Some (s, db', w') -> writers_ db = self :: rest ->
  NoDup (writers_ db) -> (forall q, q ∈ writers_ db -> is_Some (writer_at db !! q)) ->
  exists db1 k rest1, grows db db1 /\ writers_ db1 = self :: rest1 /\ writers_ db' = drop k rest1 /\
    writer_at db' = mark_done s self (writer_at db1) (self :: take k rest1).
Proof.
  intros H Ew Hnd Hrec. unfold write_front in H. apply db_bind_inv in H as (s0 & dbA & wA & HA & H). apply keeps_MakeRoomForWrite in HA.
  apply db_bind_inv in H as ([s1 lw] & db1 & w1 & Hg & H).
  destruct (g_queue _ _ HA) as [nA QA]. rewrite Ew, <- app_comm_cons in QA.
  assert (Hk : grows dbA db1 /\ exists k, lw = default self (last (take k (rest ++ nA))) /\ (k <= length (rest ++ nA))%nat).
  { destruct (ok s0 && _).
    - split; [by eapply keeps_write_group|]. destruct (write_group_last _ _ _ _ _ _ _ _ _ Hg QA) as [k ->].
      exists (Nat.min k (length (rest ++ nA))). split; [|lia]. destruct (Nat.min_spec k (length (rest ++ nA))) as [[_ ->]|[Hle ->]]; [done|].
      by rewrite !take_ge by lia.
    - injection Hg as _ <- <- _. split; [apply grows_refl|]. exists 0%nat. split; [done|lia]. }
  destruct Hk as [HB (k & -> & Hk)]. destruct (g_queue _ _ HB) as [nB QB]. rewrite QA in QB. cbn [app] in QB.
  apply db_bind_inv in H as (? & ? & ? & [= <- <- <-] & H). apply db_bind_inv in H as (? & db2 & w2 & Hp & H). injection H as -> <- <-.
  set (rest1 := (rest ++ nA) ++ nB) in *. assert (Htake : take k rest1 = take k (rest ++ nA)) by (by apply take_app_le).
  assert (Hgrow : grows db db1) by (by eapply grows_trans).
  assert (Hpop := pop_writers_run (self :: take k rest1) (drop k rest1) self s db1 w1 (default self (last (take k rest1)))).
  rewrite <- app_comm_cons, take_drop, <- QB, Htake in Hpop. rewrite Hpop in Hp.
  - injection Hp as _ <- _. exists db1, k, rest1. rewrite Htake. done.
  - rewrite <- Htake. pose proof (g_nodup _ _ Hgrow Hnd) as Hnd1. rewrite QB in Hnd1. eapply sublist_NoDup; [exact Hnd1|].
    apply sublist_skip. rewrite <- (take_drop k rest1) at 2. by apply sublist_inserts_r.
  - rewrite last_cons. by destruct (last (take k (rest ++ nA))).
  - intros q Hq. apply (g_records _ _ Hgrow Hrec). rewrite QB. rewrite <- Htake in Hq. apply elem_of_cons in Hq as [->|Hq]; [by left|right].
    rewrite <- (take_drop k rest1). apply elem_of_app. by left.
Qed.

(** ** Runs *)

(** The threads that have returned from [Write] are kept beside the state. *)
Record QState := mkQState { q_db : DBImpl F; q_env : W; q_returned : gset nat }.

(** The turns of the loop of [MakeRoomForWrite]. *)
Context (fuel : nat).

Inductive qstep : bool -> QState -> QState -> Prop :=
| q_enter db w ret p sync updates db' :
    writer_at db !! p = None -> p ∉ writers_ db -> p ∉ ret -> enqueue p sync updates db w = Some (tt, db', w) ->
    qstep false (mkQState db w ret) (mkQState db' w ret)
| q_lead db w ret p x s db' w' :
    head (writers_ db) = Some p -> writer_at db !! p = Some x ->
    write_front others addr fuel p (w_sync x) (w_batch x) db w = Some (s, db', w') ->
    qstep true (mkQState db w ret) (mkQState db' w' ({[p]} ∪ ret))
| q_leave db w ret p x :
    writer_at db !! p = Some x -> w_done x = true -> qstep false (mkQState db w ret) (mkQState db w ({[p]} ∪ ret))
| q_background db w ret db' w' : grows db db' -> qstep false (mkQState db w ret) (mkQState db' w' ret).

(** [qrun n]: any number of steps, of which [n] are led by a writer. *)
Inductive qrun : nat -> QState -> QState -> Prop :=
| qrun_none st : qrun 0 st st
| qrun_step (led : bool) n st1 st2 st3 : qstep led st1 st2 -> qrun n st2 st3 -> qrun ((if led then 1 else 0) + n) st1 st3.

Record queue_ok (db : DBImpl F) : Prop := {
  qo_nodup : NoDup (writers_ db);
  qo_records q : q ∈ writers_ db -> is_Some (writer_at db !! q)
}.

(** The thread has its answer: it led its own write, or another writer has told it the
    status. *)
Definition answered (st : QState) (p : nat) : Prop :=
  p ∈ q_returned st \/ exists x, writer_at (q_db st) !! p = Some x /\ w_done x = true.

Lemma mark_done_is_Some s self group : forall ws q, is_Some (ws !! q) -> is_Some (mark_done s self ws group !! q).
Proof.
  induction group as [|p group IH]; intros ws q Hq; [done|]. cbn [mark_done fold_left]. apply IH.
  destruct (p =? self)%nat; [done|]. rewrite lookup_alter_is_Some. done.
Qed.

Lemma mark_done_kept s self group : forall ws q x, ws !! q = Some x -> w_done x = true ->
  exists x', mark_done s self ws group !! q = Some x' /\ w_done x' = true.
Proof.
  induction group as [|p group IH]; intros ws q x Hx Hd; [eauto|]. cbn [mark_done fold_left].
  destruct (p =? self)%nat; [by eapply IH|]. destruct (decide (q = p)) as [->|Hne].
  - eapply IH; [by rewrite lookup_alter_eq, Hx|done].
  - eapply IH; [by rewrite lookup_alter_ne|done].
Qed.

Lemma enqueue_run p sync updates db (w : W) :
  enqueue p sync updates db w =
  Some (tt, set_writers (writers_ db ++ [p]) (set_writer_at (<[p := mkDBWriter OK updates sync false]> (writer_at db)) db), w).
Proof. done. Qed.

Lemma queue_grows db db' : grows db db' -> queue_ok db -> queue_ok db'.
Proof. intros [Q N R S' K] [H1 H2]. split; [by apply N|by apply R]. Qed.

Lemma answered_grows db db' w w' ret p : grows db db' -> answered (mkQState db w ret) p -> answered (mkQState db' w' ret) p.
Proof. intros Hg [H|(x & Hx & Hd)]; [by left|right]. by apply (g_kept _ _ Hg p x). Qed.

Lemma grows_enter db p sync updates :
  writer_at db !! p = None -> p ∉ writers_ db ->
  grows db (set_writers (writers_ db ++ [p]) (set_writer_at (<[p := mkDBWriter OK updates sync false]> (writer_at db)) db)).
Proof.
  intros Hn Hp. assert (Hother : forall q x, writer_at db !! q = Some x -> q <> p) by (intros q x Hx ->; congruence).
  split; cbn [set_writers set_writer_at writers_ writer_at].
  - by exists [p].
  - intros Hnd. apply NoDup_app. split; [done|]. split; [|apply NoDup_singleton]. intros q Hq Hq'. apply list_elem_of_singleton in Hq' as ->. done.
  - intros Hr q Hq. destruct (decide (q = p)) as [->|Hne]; [by rewrite lookup_insert_eq|]. rewrite lookup_insert_ne by done.
    apply Hr. rewrite elem_of_app, list_elem_of_singleton in Hq. by destruct Hq.
  - intros q x _ Hx. rewrite lookup_insert_ne by (apply not_eq_sym; by eapply Hother). eauto.
  - intros q x Hx Hd. rewrite lookup_insert_ne by (apply not_eq_sym; by eapply Hother). eauto.
Qed.

(** A step keeps the queue in order, forgets no answer, and moves every writer towards
    the front when it is a leader's. *)
Lemma qstep_spec led st st' :
  qstep led st st' -> queue_ok (q_db st) ->
  queue_ok (q_db st') /\ (forall p, answered st p -> answered st' p) /\
  forall k p, writers_ (q_db st) !! k = Some p ->
    answered st' p \/ exists k', writers_ (q_db st') !! k' = Some p /\ (k' + (if led then 1 else 0) <= k)%nat.
Proof.
  assert (Hgrow : forall db db' w w' ret, grows db db' -> queue_ok db ->
    queue_ok db' /\ (forall p, answered (mkQState db w ret) p -> answered (mkQState db' w' ret) p) /\
    forall k p, writers_ db !! k = Some p -> answered (mkQState db' w' ret) p \/ exists k', writers_ db' !! k' = Some p /\ (k' + 0 <= k)%nat).
  { intros db db' w w' ret Hg Hok. split; [by eapply queue_grows|]. split; [intros p; by apply answered_grows|].
    intros k p Hk. right. exists k. split; [|lia]. destruct (g_queue _ _ Hg) as [n ->]. by apply lookup_app_l_Some. }
  intros Hs Hok. destruct Hs as [db w ret p sync updates db' Hn Hp Hr He|db w ret p x s db' w' Hh Hx Hf|db w ret p x Hx Hd|db w ret db' w' Hg]; cbn [q_db] in *.
  - rewrite enqueue_run in He. injection He as <-. apply Hgrow; [by apply grows_enter|done].
  - destruct (writers_ db) as [|p0 rest] eqn:Ew; [done|]. injection Hh as ->. pose proof Hok as [Hnd Hrec].
    destruct (write_front_queue _ _ _ _ _ _ _ _ _ _ Hf Ew Hnd Hrec) as (db1 & k1 & rest1 & Hg & Ew1 & Ew' & Ea).
    pose proof (queue_grows _ _ Hg Hok) as [Hnd1 Hrec1]. rewrite Ew1 in Hnd1, Hrec1.
    assert (Hans : forall q, answered (mkQState db1 w ret) q -> answered (mkQState db' w' ({[p]} ∪ ret)) q).
    { intros q [Hq|(y & Hy & Hd)]; [left; cbn [q_returned] in *; set_solver|right]. cbn [q_db] in *. rewrite Ea. by eapply mark_done_kept. }
    split; [|split].
    + apply NoDup_cons in Hnd1 as [_ Hnd1]. split.
      * rewrite Ew'. eapply sublist_NoDup; [exact Hnd1|]. rewrite <- (take_drop k1 rest1) at 2. by apply sublist_inserts_l.
      * rewrite Ew', Ea. intros q Hq. apply mark_done_is_Some, Hrec1. right. rewrite <- (take_drop k1 rest1). apply elem_of_app. by right.
    + intros q Hq. apply Hans. by eapply answered_grows.
    + intros k q Hk. destruct k as [|k]; [injection Hk as <-; left; left; cbn [q_returned]; set_solver|]. cbn [lookup] in Hk.
      assert (Hk1 : rest1 !! k = Some q).
      { destruct (g_queue _ _ Hg) as [n Q]. rewrite Ew, Ew1, <- app_comm_cons in Q. injection Q as ->. by apply lookup_app_l_Some. }
      destruct (decide (k < k1)%nat) as [Hlt|Hge].
      * left. right. assert (Hin : q ∈ take k1 rest1) by (apply (list_elem_of_lookup_2 _ k); by rewrite lookup_take_lt).
        assert (Hq : q <> p) by (apply NoDup_cons in Hnd1 as [Hnd1 _]; intros ->; apply Hnd1; by eapply list_elem_of_lookup_2).
        destruct (Hrec1 q) as [y Hy]; [right; by eapply list_elem_of_lookup_2|]. cbn [q_db]. rewrite Ea.
        eexists. split; [apply mark_done_member; [|by right|done|exact Hy]|done].
        eapply sublist_NoDup; [exact Hnd1|]. apply sublist_skip. rewrite <- (take_drop k1 rest1) at 2. by apply sublist_inserts_r.
      * right. exists (k - k1)%nat. split; [|lia]. rewrite Ew', lookup_drop. by replace (k1 + (k - k1))%nat with k by lia.
  - split; [done|]. split.
    + intros q [Hq|Hq]; [left; cbn [q_returned] in *; set_solver|by right].
    + intros k q Hk. right. exists k. split; [done|lia].
  - by apply Hgrow.
Qed.

(** C16: every writer's turn comes.  In any run of the queue, in which threads enter
    [Write], leaders commit or fail, answered threads return, and other threads and
    the background work interleave as they like, a writer that has [k] writers in
    front of it has its answer after at most [k + 1] turns of leaders: it has led its
    own write or has been told its status by another leader.  Until then it is in the
    queue, and no nearer writer is overtaken. *)
Theorem write_queue_liveness n st st' k p :
  qrun n st st' -> queue_ok (q_db st) -> writers_ (q_db st) !! k = Some p ->
  queue_ok (q_db st') /\
  (answered st' p \/ exists k', writers_ (q_db st') !! k' = Some p /\ (k' + n <= k)%nat) /\
  ((k < n)%nat -> answered st' p).
Proof.
  intros Hrun Hok Hk.
  assert (Hgen : queue_ok (q_db st') /\ (forall q, answered st q -> answered st' q) /\
    forall k q, writers_ (q_db st) !! k = Some q -> answered st' q \/ exists k', writers_ (q_db st') !! k' = Some q /\ (k' + n <= k)%nat).
  { clear k p Hk. induction Hrun as [st|led n st1 st2 st3 Hs Hrun IH].
    - split; [done|]. split; [done|]. intros k q Hq. right. exists k. split; [done|lia].
    - destruct (qstep_spec led st1 st2 Hs Hok) as (Hok2 & Ha2 & Hm2). destruct (IH Hok2) as (Hok3 & Ha3 & Hm3).
      split; [done|]. split; [auto|]. intros k q Hq. destruct (Hm2 k q Hq) as [Ha|(k' & Hk' & Hle)]; [left; auto|].
      destruct (Hm3 k' q Hk') as [Ha|(k2 & Hk2 & Hle2)]; [by left|]. right. exists k2. split; [done|]. destruct led; lia. }
  destruct Hgen as (Hok' & _ & Hm). split; [done|]. split; [by apply Hm|].
  intros Hlt. destruct (Hm k p Hk) as [Ha|(k' & _ & Hle)]; [done|lia].
Qed.

End WriteQueue.

(** Two leaders' turns answer all three writers of the small queue. *)
#[local] Existing Instance queue_files.
#[local] Existing Instance queue_env.

Definition after_lead (p : nat) (db : DBImpl StringDest) : DBImpl StringDest :=
  match writer_at db !! p with
  | Some x =>
      match write_front nobody 0 1 p (w_sync x) (w_batch x) db tt with
      | Some (_, db', _) => db'
      | None => db
      end
  | None => db
  end.

(** The first leader takes the forced switch with it but not the write that asks for
    syncing, which leads next. *)
Definition queue_db1 : DBImpl StringDest := after_lead 1 queue_db.
Definition queue_db2 : DBImpl StringDest := after_lead 3 queue_db1.

Lemma queue_run : qrun nobody 0 1 2 (mkQState queue_db tt ∅) (mkQState queue_db2 tt ({[3%nat]} ∪ ({[1%nat]} ∪ ∅))).
Proof.
  apply (qrun_step nobody 0 1 true 1 _ (mkQState queue_db1 tt ({[1%nat]} ∪ ∅))).
  - apply (q_lead nobody 0 1 queue_db tt ∅ 1 queue_first OK queue_db1 tt); by vm_compute.
  - apply (qrun_step nobody 0 1 true 0 _ (mkQState queue_db2 tt ({[3%nat]} ∪ ({[1%nat]} ∪ ∅)))).
    + apply (q_lead nobody 0 1 queue_db1 tt ({[1%nat]} ∪ ∅) 3 (mkDBWriter OK (Some (batch_of 0 queue_delete)) true false) OK queue_db2 tt); by vm_compute.
    + apply qrun_none.
Qed.

Lemma queue_db_queue : queue_ok queue_db.
Proof.
  split; [apply (bool_decide_unpack _); by vm_compute|]. intros q Hq. change (writers_ queue_db) with [1; 2; 3]%nat in Hq.
  repeat (apply elem_of_cons in Hq as [->|Hq]; [eexists; by vm_compute|]). by apply elem_of_nil in Hq.
Qed.

Lemma write_queue_liveness_witness :
  queue_ok queue_db2 /\ answered (mkQState queue_db2 tt ({[3%nat]} ∪ ({[1%nat]} ∪ ∅))) 2.
Proof.
  destruct (write_queue_liveness nobody 0 (fun db w => grows_refl db) 1 2 _ _ 1 2 queue_run queue_db_queue eq_refl) as (Hok & _ & Ha).
  split; [exact Hok|]. apply Ha. lia.
Defined.

(** A forced memtable switch that is behind another writer joins its group and is
    told OK without a switch: [imm_] is still empty. *)
Lemma forced_switch_skipped :
  w_batch <$> writer_at queue_db !! 2%nat = Some None /\
  (fun x => (w_done x, w_status x)) <$> writer_at queue_db1 !! 2%nat = Some (true, OK) /\
  imm_ queue_db1 = None /\ mem_ queue_db1 = mem_ queue_db.
Proof. by vm_compute. Qed.
