(* ===== verification/DbRecover.v ===== *)
(** * Opening a database

    [NewDB], [RecoverLogFile] and [Recover] of [db/db_impl.cc], [DB::Open],
    [DestroyDB], and the sanitizing of options. *)

From S2P Require Import Prelude Slice Coding Status Env Logging LogFormat LogReader Comparator DbFormat Random Arena SkipList MemTable WriteBatch VersionEdit Filename Format Iterator Options TwoLevel Version Compaction VersionSet Snapshot TableFromIter DbState DbFlush.

(** ** [SanitizeOptions] *)

Definition kNumNonTableCacheFiles : Z := 10.

(** Both limits are [int]s in every call, so [static_cast<V>] narrows the option to
    [int] before it is compared, while the option itself keeps its own type. *)
Definition ClipToRange (x minvalue maxvalue : Z) : Z :=
  let x := if maxvalue <? i32 x then maxvalue else x in
  if i32 x <? minvalue then minvalue else x.

Lemma ClipToRange_small x a b : - 2 ^ 31 <= x < 2 ^ 31 -> - 2 ^ 31 <= a <= b -> b < 2 ^ 31 -> ClipToRange x a b = Z.max a (Z.min x b).
Proof.
  intros Hx Hab Hb. unfold ClipToRange. rewrite (i32_small x Hx). destruct (Z.ltb_spec b x).
  - rewrite i32_small by lia. destruct (Z.ltb_spec b a); lia.
  - rewrite i32_small by lia. destruct (Z.ltb_spec x a); lia.
Qed.

(** The internal comparator and filter policy take the place of the user's; the info
    log and the block cache are not part of the record. *)
Definition SanitizeOptions (src : Options) : Options := {|
  comparator := InternalKeyComparator (comparator src);
  create_if_missing := create_if_missing src;
  error_if_exists := error_if_exists src;
  paranoid_checks := paranoid_checks src;
  write_buffer_size := ClipToRange (write_buffer_size src) 65536 1073741824;
  max_open_files := ClipToRange (max_open_files src) (64 + kNumNonTableCacheFiles) 50000;
  block_size := ClipToRange (block_size src) 1024 4194304;
  block_restart_interval := block_restart_interval src;
  max_file_size := ClipToRange (max_file_size src) 1048576 1073741824;
  compression := compression src;
  zstd_compression_level := zstd_compression_level src;
  reuse_logs := reuse_logs src;
  filter_policy := InternalFilterPolicy <$> filter_policy src
|}.

Definition TableCacheSize (sanitized_options : Options) : Z := max_open_files sanitized_options - kNumNonTableCacheFiles.

(** C40: when the sizes the caller asks for fit an [int], [SanitizeOptions] moves every
    option it limits to the nearest value of its range, so that the table cache has
    room for at least 64 files, wraps the comparator and the filter policy, and
    leaves the rest as it is. *)
Theorem sanitize_options_ranges src :
  - 2 ^ 31 <= max_open_files src < 2 ^ 31 -> 0 <= write_buffer_size src < 2 ^ 31 ->
  0 <= max_file_size src < 2 ^ 31 -> 0 <= block_size src < 2 ^ 31 ->
  64 <= TableCacheSize (SanitizeOptions src) <= 49990 /\
  SanitizeOptions src =
    mkOptions (InternalKeyComparator (comparator src)) (create_if_missing src) (error_if_exists src) (paranoid_checks src)
      (Z.max (64 * 2 ^ 10) (Z.min (write_buffer_size src) (2 ^ 30))) (Z.max 74 (Z.min (max_open_files src) 50000))
      (Z.max (2 ^ 10) (Z.min (block_size src) (4 * 2 ^ 20))) (block_restart_interval src)
      (Z.max (2 ^ 20) (Z.min (max_file_size src) (2 ^ 30))) (compression src) (zstd_compression_level src) (reuse_logs src)
      (InternalFilterPolicy <$> filter_policy src).
Proof.
  intros H1 H2 H3 H4. unfold SanitizeOptions, TableCacheSize, kNumNonTableCacheFiles. cbn [max_open_files].
  rewrite !ClipToRange_small by lia. split; [lia|reflexivity].
Qed.

(** The defaults, with one file too few asked for. *)
Lemma sanitize_options_ranges_witness :
  let src := mkOptions BytewiseComparator true false false (2 ^ 22) 50 4096 16 (2 ^ 21) 1 1 false None in
  TableCacheSize (SanitizeOptions src) = 64 /\ 64 <= TableCacheSize (SanitizeOptions src) <= 49990.
Proof. split; [reflexivity|]. apply sanitize_options_ranges; cbn; lia. Defined.

(** A size beyond the [int] range is compared after narrowing: 4 GiB and 1 MiB passes
    for 1 MiB and stays, although the limit is 1 GiB; 2 GiB passes for a negative
    number and becomes the minimum. *)
Example clip_to_range_narrows :
  ClipToRange (2 ^ 32 + 2 ^ 20) 65536 1073741824 = 2 ^ 32 + 2 ^ 20 /\ ClipToRange (2 ^ 31) 65536 1073741824 = 65536.
Proof. done. Qed.

Section Open.

Context {F W S : Type} `{!WritableFile F} `{!SequentialFile S} `{!DescriptorEnv (F := F) W S} `{!DbEnv W}.
Context (others : DBImpl F -> W -> DBImpl F * W).
Context (snappy zstd : Codec) (addr : Z).

#[local] Open Scope db_scope.

(** ** The constructor *)

Definition DBImpl_new (raw_options : Options) (dbname : bytes) : option (DBImpl F) :=
  let o := SanitizeOptions raw_options in
  vs ← VersionSet_new dbname o (comparator raw_options);
  Some (mkDB dbname o false false ∅ 0 None None false 0 None 0 [] ∅ WriteBatch_make SnapshotList_make ∅ false ∅ None
          vs OK (replicate (Z.to_nat kNumLevels) (mkCStats 0 0 0))).

(** ** [NewDB] *)

Definition new_db_edit (c : Comparator) : VersionEdit :=
  SetLastSequence 0 (SetNextFile 2 (SetLogNumber 0 (SetComparatorName (Name c) VersionEdit_Clear))).

Definition NewDB : DbM F W Status :=
  let! db := get_db in
  let manifest := DescriptorFileName (db_name db) 1 in
  let! '(s, file) := with_env (env_NewWritableFile manifest) in
  if negb (ok s) then db_ret s
  else
    let! file := need file in
    let record := EncodeTo (new_db_edit (user_cmp (db_versions_ db))) [] in
    let! '(s, log) := need (AddRecord (Writer_make addr file) addr record) in
    let '(s, file) := if ok s then Sync (dest_ log) else (s, dest_ log) in
    let '(s, file) := if ok s then Close file else (s, file) in
    if ok s then with_env (env_SetCurrentFile (db_name db) 1)
    else let! _ := with_env (env_RemoveFile manifest) in db_ret s.

(** ** [RecoverLogFile] *)

(** The local variables of the loop and its outputs. *)
Record LogRecovery := mkLogRecovery {
  lr_status : Status;
  lr_mem : option nat;
  lr_compactions : Z;
  lr_save_manifest : bool;
  lr_edit : VersionEdit;
  lr_max_sequence : Z
}.

Definition with_status (s : Status) (lr : LogRecovery) : LogRecovery :=
  mkLogRecovery s (lr_mem lr) (lr_compactions lr) (lr_save_manifest lr) (lr_edit lr) (lr_max_sequence lr).

(** [LogReporter::Corruption]: only with [paranoid_checks] does it set the status. *)
Definition reported (paranoid : bool) (s r : Status) : Status := if paranoid && ok s then r else s.

(** A record that is a batch; the boolean tells whether the loop goes on. *)
Definition recover_batch (record : bytes) (lr : LogRecovery) : DbM F W (bool * LogRecovery) :=
  let! db := get_db in
  let batch := SetContents record in
  let! mem :=
    match lr_mem lr with
    | Some mem => db_ret mem
    | None => let! mem := new_mem in mem_Ref mem;; db_ret mem
    end in
  let! m := mem_at mem in
  let '(s, m) := InsertInto (user_cmp (db_versions_ db)) batch m in
  let! m := need m in
  put_mem mem m;;
  let! s := MaybeIgnoreError s in
  let lr := mkLogRecovery s (Some mem) (lr_compactions lr) (lr_save_manifest lr) (lr_edit lr) (lr_max_sequence lr) in
  if negb (ok s) then db_ret (false, lr)
  else
    let last_seq := u64 (Sequence batch + Count batch - 1) in
    let max_sequence := if lr_max_sequence lr <? last_seq then last_seq else lr_max_sequence lr in
    let! usage := need (ApproximateMemoryUsage m) in
    if write_buffer_size (db_options db) <? usage then
      let! '(s, edit) := WriteLevel0Table others snappy zstd addr mem (lr_edit lr) None in
      mem_Unref mem;;
      db_ret (ok s, mkLogRecovery s None (lr_compactions lr + 1) true edit max_sequence)
    else db_ret (true, mkLogRecovery s (Some mem) (lr_compactions lr) (lr_save_manifest lr) (lr_edit lr) max_sequence).

Fixpoint recover_log_loop (turns fuel : nat) (r : Reader S) (scratch : bytes) (lr : LogRecovery) : DbM F W LogRecovery :=
  match turns with
  | O => need None
  | Datatypes.S turns =>
      let! db := get_db in
      let paranoid := paranoid_checks (db_options db) in
      let! '(record, scratch, r') := need (ReadRecord fuel scratch r) in
      let s := if paranoid then after_reports (lr_status lr) (reports_ r) (reports_ r') else lr_status lr in
      let lr := with_status s lr in
      match record with
      | Some record =>
          if ok s then
            if blen record <? 12 then
              recover_log_loop turns fuel r' scratch
                (with_status (reported paranoid s (Corruption (str "log record too small") [])) lr)
            else
              let! '(go_on, lr) := recover_batch record lr in
              if go_on : bool then recover_log_loop turns fuel r' scratch lr else db_ret lr
          else db_ret lr
      | None => db_ret lr
      end
  end.

(** Keeping the last log and its memtable in use. *)
Definition reuse_log (fname : bytes) (log_number : Z) (mem : option nat) : DbM F W (option nat) :=
  let! db := get_db in
  assert (bool_decide (log_ db = None) && bool_decide (mem_ db = None));;
  let! '(s, lfile_size) := with_env (env_GetFileSize fname) in
  if ok s then
    let! '(s, lfile) := with_env (env_NewAppendableFile fname) in
    if ok s then
      let! lfile := need lfile in
      change (fun db => set_logfile_number log_number (set_log (Some (Writer_reopen addr lfile lfile_size)) db));;
      match mem with
      | Some _ => change (set_mem mem);; db_ret None
      | None => let! p := new_mem in change (set_mem (Some p));; mem_Ref p;; db_ret None
      end
    else db_ret mem
  else db_ret mem.

Definition RecoverLogFile (fuel : nat) (log_number : Z) (last_log : bool) (save_manifest : bool) (edit : VersionEdit) (max_sequence : Z)
  : DbM F W (Status * bool * VersionEdit * Z) :=
  let! db := get_db in
  let fname := LogFileName (db_name db) log_number in
  let! '(s, file) := with_env (env_NewSequentialFile fname) in
  if negb (ok s) then let! s := MaybeIgnoreError s in db_ret (s, save_manifest, edit, max_sequence)
  else
    let! file := need file in
    let! lr := recover_log_loop fuel fuel (Reader_make file true true addr 0) []
                 (mkLogRecovery s None 0 save_manifest edit max_sequence) in
    let! mem :=
      (if ok (lr_status lr) && reuse_logs (db_options db) && last_log && (lr_compactions lr =? 0)
       then reuse_log fname log_number (lr_mem lr) else db_ret (lr_mem lr)) in
    match mem with
    | None => db_ret (lr_status lr, lr_save_manifest lr, lr_edit lr, lr_max_sequence lr)
    | Some mem =>
        let! '(s, save, edit) :=
          (if ok (lr_status lr) then
             let! '(s, edit) := WriteLevel0Table others snappy zstd addr mem (lr_edit lr) None in
             db_ret (s, true, edit)
           else db_ret (lr_status lr, lr_save_manifest lr, lr_edit lr)) in
        mem_Unref mem;;
        db_ret (s, save, edit, lr_max_sequence lr)
    end.

(** ** [Recover] *)

(** What the directory holds: the live files not found in it, and the logs. *)
Fixpoint scan_directory (min_log prev_log : Z) (filenames : list bytes) (expected : gset Z) (logs : list Z) : gset Z * list Z :=
  match filenames with
  | [] => (expected, logs)
  | filename :: filenames =>
      match ParseFileName filename with
      | Some (number, type) =>
          scan_directory min_log prev_log filenames (expected ∖ {[number]})
            (if bool_decide (type = kLogFile) && ((min_log <=? number) || (number =? prev_log)) then logs ++ [number] else logs)
      | None => scan_directory min_log prev_log filenames expected logs
      end
  end.

Fixpoint recover_logs (fuel : nat) (logs : list Z) (save_manifest : bool) (edit : VersionEdit) (max_sequence : Z)
  : DbM F W (Status * bool * VersionEdit * Z) :=
  match logs with
  | [] => db_ret (OK, save_manifest, edit, max_sequence)
  | log :: logs =>
      let! '(s, save_manifest, edit, max_sequence) :=
        RecoverLogFile fuel log (bool_decide (logs = [])) save_manifest edit max_sequence in
      if negb (ok s) then db_ret (s, save_manifest, edit, max_sequence)
      else
        change_versions (fun vs => Some (MarkFileNumberUsed vs log));;
        recover_logs fuel logs save_manifest edit max_sequence
  end.

Definition missing_files (dbname : bytes) (expected : list Z) : Status :=
  Corruption (NumberToString (Z.of_nat (length expected)) ++ str " missing files; e.g.")
    (TableFileName dbname (default 0 (head expected))).

(** Everything after the descriptor has been read. *)
Definition recover_files (fuel : nat) (save_manifest : bool) (edit : VersionEdit) : DbM F W (Status * bool * VersionEdit) :=
  let! db := get_db in
  let vs := db_versions_ db in
  let! '(s, filenames) := with_env (env_GetChildren (db_name db)) in
  if negb (ok s) then db_ret (s, save_manifest, edit)
  else
    let '(expected, logs) :=
      scan_directory (vs_log_number_ vs) (vs_prev_log_number_ vs) filenames (list_to_set (AddLiveFiles vs)) [] in
    if negb (bool_decide (expected = ∅)) then
      db_ret (missing_files (db_name db) (merge_sort Z.le (elements expected)), save_manifest, edit)
    else
      let! '(s, save_manifest, edit, max_sequence) := recover_logs fuel (merge_sort Z.le logs) save_manifest edit 0 in
      if negb (ok s) then db_ret (s, save_manifest, edit)
      else
        let! db := get_db in
        when (vs_last_sequence_ (db_versions_ db) <? max_sequence) (change_versions (fun vs => vs_SetLastSequence vs max_sequence));;
        db_ret (OK, save_manifest, edit).

(** [DBImpl::Recover]: the status, whether the descriptor must be written, and the
    edit to write. *)
Definition DBImpl_Recover (fuel : nat) (edit : VersionEdit) : DbM F W (Status * bool * VersionEdit) :=
  let! db := get_db in
  let dbname := db_name db in
  let! _ := with_env (env_CreateDir dbname) in
  assert (negb (db_lock_ db));;
  let! s := with_env (env_LockFile (LockFileName dbname)) in
  if negb (ok s) then db_ret (s, false, edit)
  else
    change (set_db_lock true);;
    let! exists_ := with_env (env_FileExists (CurrentFileName dbname)) in
    let! s :=
      (if negb exists_ then
         if create_if_missing (db_options db) then NewDB
         else db_ret (InvalidArgument dbname (str "does not exist (create_if_missing is false)"))
       else
         if error_if_exists (db_options db) then db_ret (InvalidArgument dbname (str "exists (error_if_exists is true)"))
         else db_ret OK) in
    if negb (ok s) then db_ret (s, false, edit)
    else
      let! '(s, save_manifest) := (fun db w =>
        '(s, save, vs, w) ← Recover addr fuel (db_versions_ db) w; Some ((s, save), set_db_versions vs db, w)) in
      if negb (ok s) then db_ret (s, save_manifest, edit)
      else recover_files fuel save_manifest edit.

(** ** [DB::Open] *)

Definition open_log (edit : VersionEdit) : DbM F W (Status * VersionEdit) :=
  let! new_log_number := with_versions (fun vs => Some (NewFileNumber vs)) in
  let! db := get_db in
  let! '(s, lfile) := with_env (env_NewWritableFile (LogFileName (db_name db) new_log_number)) in
  if ok s then
    let! lfile := need lfile in
    change (fun db => set_logfile_number new_log_number (set_log (Some (Writer_make addr lfile)) db));;
    let! mem := new_mem in
    change (set_mem (Some mem));;
    mem_Ref mem;;
    db_ret (s, SetLogNumber new_log_number edit)
  else db_ret (s, edit).

(** Opening the database of a fresh [DBImpl]. *)
Definition DB_Open (fuel : nat) : DbM F W Status :=
  let! '(s, save_manifest, edit) := DBImpl_Recover fuel VersionEdit_Clear in
  let! db := get_db in
  let! '(s, edit) := (if ok s && bool_decide (mem_ db = None) then open_log edit else db_ret (s, edit)) in
  let! s :=
    (if ok s && save_manifest then
       let! db := get_db in
       let! '(s, _) := log_and_apply others addr (SetLogNumber (logfile_number_ db) (SetPrevLogNumber 0 edit)) in db_ret s
     else db_ret s) in
  if ok s then
    RemoveObsoleteFiles others;;
    MaybeScheduleCompaction;;
    let! db := get_db in
    assert (negb (bool_decide (mem_ db = None)));;
    db_ret s
  else db_ret s.

(** ** [DestroyDB] *)

Fixpoint destroy_files (dbname : bytes) (filenames : list bytes) (result : Status) (w : W) : Status * W :=
  match filenames with
  | [] => (result, w)
  | filename :: filenames =>
      match ParseFileName filename with
      | Some (_, kDBLockFile) | None => destroy_files dbname filenames result w
      | Some (_, _) =>
          let '(del, w) := env_RemoveFile (dbname ++ str "/" ++ filename) w in
          destroy_files dbname filenames (if ok result && negb (ok del) then del else result) w
      end
  end.

Definition DestroyDB (dbname : bytes) (w : W) : Status * W :=
  let '(result, filenames, w) := env_GetChildren dbname w in
  if negb (ok result) then (OK, w)
  else
    let lockname := LockFileName dbname in
    let '(result, w) := env_LockFile lockname w in
    if ok result then
      let '(result, w) := destroy_files dbname filenames result w in
      let '(_, w) := env_UnlockFile w in
      let '(_, w) := env_RemoveFile lockname w in
      let '(_, w) := env_RemoveDir dbname w in
      (result, w)
    else (result, w).

End Open.
