(* ===== verification/DbRecoverSpec.v ===== *)
(** * What recovery guarantees

    The log read back by [RecoverLogFile] rebuilds the memtable that was lost. *)

From S2P Require Import Prelude Slice Coding Crc32c Status Env Logging LogFormat LogReader LogLayout LogCorrect LogSpec Comparator DbFormat Random Arena SkipList MemTable WriteBatch VersionEdit Filename Format Iterator Options TwoLevel Version Compaction VersionSet VersionSetSpec VersionLife Manifest Snapshot TableFromIter DbState DbFlush DbWrite DbWriteSpec DbRecover.

(** ** Batches in a log *)

Record batch_ok (b : Z * list Op) : Prop := {
  bo_seq : 0 < fst b;
  bo_max : fst b + Z.of_nat (length (snd b)) <= kMaxSequenceNumber + 1;
  bo_count : Z.of_nat (length (snd b)) < 2 ^ 31;
  bo_fits : Forall op_fits (snd b)
}.

(** Each batch is numbered after the one before. *)
Fixpoint in_order (seq : Z) (bs : list (Z * list Op)) : Prop :=
  match bs with
  | [] => True
  | b :: bs => seq <= fst b /\ in_order (fst b + Z.of_nat (length (snd b))) bs
  end.

Definition last_used (b : Z * list Op) : Z := fst b + Z.of_nat (length (snd b)) - 1.

(** The largest sequence number seen. *)
Definition max_seen (max : Z) (bs : list (Z * list Op)) : Z :=
  fold_left (fun max b => if max <? last_used b then last_used b else max) bs max.

Lemma max_seen_ge bs : forall max, max <= max_seen max bs /\ forall b, b ∈ bs -> last_used b <= max_seen max bs.
Proof.
  induction bs as [|b bs IH]; intros max; cbn [max_seen fold_left].
  { split; [done|]. intros b Hb. by apply elem_of_nil in Hb. }
  destruct (IH (if max <? last_used b then last_used b else max)) as [H1 H2]. unfold max_seen in *.
  destruct (Z.ltb_spec max (last_used b)); (split; [lia|]); intros b' Hb; apply elem_of_cons in Hb as [->|Hb]; (lia || by apply H2).
Qed.

Lemma in_order_seq bs : forall seq e, in_order seq bs -> e ∈ concat (map batch_entries bs) -> seq <= e_seq e.
Proof.
  induction bs as [|b bs IH]; intros seq e Ho He; [by apply elem_of_nil in He|]. destruct Ho as [H1 H2]. cbn [map concat] in He.
  apply elem_of_app in He as [He|He]; [apply number_ops_seq in He; lia|]. apply (IH _ e H2) in He. lia.
Qed.

Lemma in_order_prefix bs bs' : forall seq, in_order seq (bs ++ bs') -> in_order seq bs.
Proof. induction bs as [|b bs IH]; intros seq; cbn; [done|]. intros [H1 H2]. split; [done|by apply IH]. Qed.

Lemma entries_batch bs e : e ∈ concat (map batch_entries bs) -> exists b, b ∈ bs /\ e ∈ batch_entries b.
Proof.
  intros He. apply list_elem_of_In, in_concat in He as (l & Hl & He). apply in_map_iff in Hl as (b & <- & Hb).
  exists b. by rewrite !list_elem_of_In.
Qed.

Lemma batch_entries_ok bs : Forall batch_ok bs -> Forall entry_ok (concat (map batch_entries bs)).
Proof.
  intros Hb. apply Forall_forall. intros e He. destruct (entries_batch bs e He) as (b & Hin & He'). rewrite Forall_forall in Hb.
  destruct (Hb b Hin) as [B1 B2 B3 B4]. pose proof (number_ops_ok (snd b) (fst b) ltac:(lia) B2 B4) as Hok. rewrite Forall_forall in Hok. by apply Hok.
Qed.

Lemma entries_different c bs : forall seq, in_order seq bs -> Forall batch_ok bs -> ForallOrdPairs (different c) (concat (map batch_entries bs)).
Proof.
  induction bs as [|b bs IH]; intros seq Ho Hb; [constructor|]. destruct Ho as [H1 H2]. pose proof (batch_entries_ok _ Hb) as Hall. cbn [map concat] in Hall |- *.
  apply Forall_app in Hall as [Hall1 Hall2]. apply Forall_cons in Hb as [Hb1 Hb].
  assert (Hcross : forall e e', e ∈ batch_entries b -> e' ∈ concat (map batch_entries bs) -> different c e e').
  { intros e e' He He'. rewrite Forall_forall in Hall1, Hall2. apply seq_different; [by apply Hall1|by apply Hall2|].
    apply number_ops_seq in He. apply (in_order_seq bs _ e' H2) in He'. lia. }
  specialize (IH _ H2 Hb). pose proof (number_ops_different c (snd b) (fst b) Hall1) as Hd. fold (batch_entries b) in Hd.
  revert Hd Hcross. generalize (batch_entries b). intros l Hd Hcross. induction Hd as [|e l He Hd IHd]; cbn [app]; [done|].
  constructor; [|apply IHd; intros; apply Hcross; [by right|done]]. apply Forall_app. split; [done|]. apply Forall_forall. intros e' He'. apply Hcross; [by left|done].
Qed.

Lemma add_all_app c es es' : forall m, add_all c m (es ++ es') = (m' ← add_all c m es; add_all c m' es').
Proof.
  induction es as [|e es IH]; intros m; [done|]. cbn [app add_all]. destruct (Add c m (e_seq e) (e_type e) (e_key e) (e_value e)); [|done]. apply IH.
Qed.

(** ** The loop over the records *)

Section RecoverLog.

Context {F W S : Type} `{!WritableFile F} `{!SequentialFile S} `{!DescriptorEnv (F := F) W S} `{!DbEnv W}.
Context {contents : F -> bytes} `{!ReliableWritable F contents}.
Context {unread : S -> bytes} `{!ReliableSequential S unread}.
Context (others : DBImpl F -> W -> DBImpl F * W) (snappy zstd : Codec) (addr : Z).
Context (c : Comparator) `{!ComparatorLaws c}.

Implicit Types db : DBImpl F.

(** The memtable that holds the batches, and that it has not filled up on the way. *)
Definition replayed (bs : list (Z * list Op)) : option MemTable := add_all c (Ref MemTable_make) (concat (map batch_entries bs)).

Definition fits_buffer (o : Options) (bs : list (Z * list Op)) : Prop :=
  forall n, (0 < n <= length bs)%nat ->
  exists m u, replayed (take n bs) = Some m /\ ApproximateMemoryUsage m = Some u /\ u <= write_buffer_size o.

(** The state of the loop: nothing read yet, or a memtable with what was read. *)
Definition loop_mem db (mem : option nat) (bs : list (Z * list Op)) : Prop :=
  match mem with
  | None => bs = []
  | Some p => exists m, mems db !! p = Some m /\ replayed bs = Some m
  end.

(** Only the heap of memtables changes. *)
Definition only_mems db db' : Prop := db' = set_mem_alloc (mem_alloc db') (set_mems (mems db') db).

Lemma only_mems_refl db : only_mems db db.
Proof. by destruct db. Qed.

Lemma only_mems_trans db1 db2 db3 : only_mems db1 db2 -> only_mems db2 db3 -> only_mems db1 db3.
Proof. intros H1 H2. unfold only_mems in *. rewrite H2, H1. done. Qed.

(** Inserting one more batch. *)
Lemma InsertInto_replayed b bs m0 m :
  batch_ok b -> replayed bs = Some m0 -> replayed (bs ++ [b]) = Some m -> InsertInto c (SetContents (batch_record b)) m0 = (OK, Some m).
Proof.
  intros [B1 B2 B3 B4] Hr0 Hm. change kMaxSequenceNumber with 72057594037927935 in B2.
  assert (Hrep : replayed (bs ++ [b]) = add_all c m0 (number_ops (fst b) (snd b))).
  { unfold replayed in *. rewrite map_app, concat_app, add_all_app, Hr0. cbn [mbind option_bind map concat batch_entries]. by rewrite app_nil_r. }
  change (SetContents (batch_record b)) with (batch_of (fst b) (snd b)). rewrite InsertInto_of, <- Hrep, Hm; [done| |done|lia|lia].
  eapply Forall_impl; [exact B4|apply op_fits_ok].
Qed.

Lemma recover_batch_ok b bs db (w : W) lr :
  batch_ok b -> loop_mem db (lr_mem lr) bs -> user_cmp (db_versions_ db) = c -> 
  (exists m u, replayed (bs ++ [b]) = Some m /\ ApproximateMemoryUsage m = Some u /\ u <= write_buffer_size (db_options db)) ->
  exists p db', recover_batch others snappy zstd addr (batch_record b) lr db w =
      Some ((true, mkLogRecovery OK (Some p) (lr_compactions lr) (lr_save_manifest lr) (lr_edit lr) (max_seen (lr_max_sequence lr) [b])), db', w) /\
    loop_mem db' (Some p) (bs ++ [b]) /\ only_mems db db'.
Proof.
  intros Hbatch Hmem Hc (m & u & Hm & Hu & Hle). pose proof Hbatch as [B1 B2 B3 B4]. change kMaxSequenceNumber with 72057594037927935 in B2.
  assert (Hget : exists p m0 db1, (match lr_mem lr with Some mem => db_ret mem | None => let! mem := new_mem in mem_Ref mem;; db_ret mem end)%db db w =
    Some (p, db1, w) /\ mems db1 !! p = Some m0 /\ replayed bs = Some m0 /\ only_mems db db1).
  { destruct (lr_mem lr) as [p|]; cbn [loop_mem] in Hmem.
    - destruct Hmem as (m0 & H1 & H2). exists p, m0, db. split; [done|]. split; [done|]. split; [done|]. apply only_mems_refl.
    - subst bs. exists (mem_alloc db), (Ref MemTable_make). eexists. split; [|split; [|split; [done|]]].
      + unfold db_bind, new_mem, mem_Ref, mem_at, get_db, need, put_mem, change, db_ret. unfold db_bind. cbn [mbind option_bind set_mem_alloc set_mems mems].
        rewrite lookup_insert_eq. cbn [mbind option_bind]. reflexivity.
      + cbn [set_mem_alloc set_mems mems]. by rewrite lookup_insert_eq.
      + by destruct db. }
  destruct Hget as (p & m0 & db1 & Hget & Hp & Hr0 & H01).
  pose proof (InsertInto_replayed b bs m0 m Hbatch Hr0 Hm) as Hins.
  exists p, (set_mems (<[p := m]> (mems db1)) db1). split; [|split].
  - unfold recover_batch. rewrite (db_bind_run get_db _ db w db db w eq_refl), (db_bind_run _ _ _ _ _ _ _ Hget).
    assert (Hat : mem_at p db1 w = Some (m0, db1, w)) by (unfold mem_at, db_bind, get_db, need; cbn [mbind option_bind]; by rewrite Hp).
    rewrite (db_bind_run _ _ _ _ _ _ _ Hat), Hc, Hins. rewrite (db_bind_run (need (Some m)) _ db1 w m db1 w eq_refl).
    rewrite (db_bind_run (put_mem p m) _ db1 w tt (set_mems (<[p := m]> (mems db1)) db1) w eq_refl).
    rewrite (db_bind_run (MaybeIgnoreError OK) _ _ w OK (set_mems (<[p := m]> (mems db1)) db1) w eq_refl). change (negb (ok OK)) with false. cbv iota.
    rewrite Hu. unfold db_bind, need. cbn [mbind option_bind]. rewrite (proj2 (Z.ltb_ge _ _) Hle).
    change (SetContents (batch_record b)) with (batch_of (fst b) (snd b)). rewrite Sequence_of, Count_of by lia.
    rewrite u64_small by lia. unfold db_ret. do 4 f_equal.
  - exists m. cbn [set_mems mems]. by rewrite lookup_insert_eq.
  - eapply only_mems_trans; [exact H01|]. by destruct db1.
Qed.

Lemma record_size b : (blen (batch_record b) <? 12) = false.
Proof.
  apply Z.ltb_ge. unfold batch_record, Contents, batch_of. cbn [wb_rep_]. rewrite !blen_app. change (blen (EncodeFixed64 (fst b))) with 8.
  rewrite blen_EncodeFixed32. pose proof (blen_nonneg (concat (map encode_op (snd b)))). lia.
Qed.

Lemma fits_prefix o bs b todo : fits_buffer o (bs ++ b :: todo) ->
  exists m u, replayed (bs ++ [b]) = Some m /\ ApproximateMemoryUsage m = Some u /\ u <= write_buffer_size o.
Proof.
  intros H. destruct (H (Datatypes.S (length bs))) as (m & u & Hm & Hu); [rewrite length_app; cbn; lia|]. exists m, u. split; [|done].
  rewrite take_app_ge in Hm by lia. rewrite Nat.sub_succ_l, Nat.sub_diag in Hm by lia. exact Hm.
Qed.

Lemma recover_log_loop_ok todo : forall r scratch lr bs db (w : W) turns fuel,
  reading (unread := unread) r (map batch_record todo) fuel -> (length todo < turns)%nat ->
  ok (lr_status lr) = true -> loop_mem db (lr_mem lr) bs -> Forall batch_ok todo -> user_cmp (db_versions_ db) = c ->
  fits_buffer (db_options db) (bs ++ todo) ->
  exists s mem db', recover_log_loop others snappy zstd addr turns fuel r scratch lr db w =
      Some (mkLogRecovery s mem (lr_compactions lr) (lr_save_manifest lr) (lr_edit lr) (max_seen (lr_max_sequence lr) todo), db', w) /\
    ok s = true /\ loop_mem db' mem (bs ++ todo) /\ only_mems db db'.
Proof.
  induction todo as [|b todo IH]; intros r scratch lr bs db w turns fuel Hrd Ht Hs Hmem Hok Hc Hfit;
    (destruct turns as [|turns]; [cbn in Ht; lia|]); cbn [recover_log_loop]; rewrite (db_bind_run get_db _ db w db db w eq_refl).
  - destruct (read_end r fuel scratch Hrd) as (scr & r' & -> & Hr).
    unfold db_bind, need. cbn [mbind option_bind]. rewrite Hr, after_reports_same.
    exists (lr_status lr), (lr_mem lr), db. rewrite app_nil_r. split; [|split; [done|split; [done|apply only_mems_refl]]].
    unfold with_status. destruct (paranoid_checks (db_options db)); by destruct lr.
  - apply Forall_cons in Hok as [Hok1 Hok]. destruct (read_next r (batch_record b) (map batch_record todo) fuel scratch Hrd) as (scr & r1 & -> & Hr1 & Hrd1).
    unfold need. rewrite (db_bind_run _ _ db w (Some (batch_record b), scr, r1) db w eq_refl). cbv iota beta.
    rewrite Hr1, after_reports_same.
    replace (if paranoid_checks (db_options db) then lr_status lr else lr_status lr) with (lr_status lr) by (by destruct (paranoid_checks _)).
    rewrite Hs, record_size.
    assert (Hwith : with_status (lr_status lr) lr = lr) by (by destruct lr). rewrite Hwith.
    destruct (recover_batch_ok b bs db w lr Hok1 Hmem Hc (fits_prefix _ _ _ _ Hfit)) as (q & db1 & Hrb & Hmem1 & H01).
    rewrite (db_bind_run _ _ _ _ _ _ _ Hrb). cbv iota beta.
    assert (Hdb1 : db_versions_ db1 = db_versions_ db /\ db_options db1 = db_options db) by (rewrite H01; done). destruct Hdb1 as [Hv1 Ho1].
    match type of Hrb with _ = Some (_, ?l, _, _) => set (lr1 := l) in * end.
    destruct (IH r1 scr lr1 (bs ++ [b]) db1 w turns fuel) as (s' & mem' & db' & Hrun & Hs' & Hmem' & H1'); try done.
    + cbn in Ht. lia.
    + congruence.
    + rewrite Ho1, <- app_assoc. done.
    + exists s', mem', db'. rewrite Hrun. split; [done|]. split; [done|]. split; [by rewrite <- app_assoc in Hmem'|by eapply only_mems_trans].
Qed.

(** ** Reusing the last log *)

(** The log file as the environment gives it back: to be read, its size, and to be
    appended to. *)
Definition log_on_disk (w : W) (fname : bytes) (C : bytes) : Prop :=
  exists s1 g w1 s2 w2 s3 f w3,
    env_NewSequentialFile fname w = (s1, Some g, w1) /\ ok s1 = true /\ unread g = C /\
    env_GetFileSize fname w1 = (s2, blen C, w2) /\ ok s2 = true /\
    env_NewAppendableFile fname w2 = (s3, Some f, w3) /\ ok s3 = true /\ contents f = C.

Lemma replayed_holds bs : in_order 1 bs -> Forall batch_ok bs ->
  exists m es, replayed bs = Some m /\ holds c m es /\ es ≡ₚ concat (map batch_entries bs).
Proof.
  intros Ho Hb. destruct (add_all_holds c (concat (map batch_entries bs)) (Ref MemTable_make) []) as (m & es & Hm & Hh & Hp).
  - by apply (holds_table c MemTable_make), holds_make.
  - by apply batch_entries_ok.
  - by eapply entries_different.
  - intros e e' He. by apply elem_of_nil in He.
  - exists m, es. done.
Qed.

(** The memtable becomes the database's, and the log is continued. *)
Lemma reuse_log_ok fname n mem bs C db (w1 w2 w3 : W) s2 s3 f :
  loop_mem db mem bs -> in_order 1 bs -> Forall batch_ok bs -> mem_ db = None -> log_ db = None ->
  env_GetFileSize fname w1 = (s2, blen C, w2) -> ok s2 = true -> env_NewAppendableFile fname w2 = (s3, Some f, w3) -> ok s3 = true ->
  exists p m es db', reuse_log addr fname n mem db w1 = Some (None, db', w3) /\
    log_ db' = Some (Writer_reopen addr f (blen C)) /\ logfile_number_ db' = n /\ mem_ db' = Some p /\ mems db' !! p = Some m /\ holds c m es /\
    es ≡ₚ concat (map batch_entries bs) /\ db_versions_ db' = db_versions_ db /\ tmp_batch_ db' = tmp_batch_ db.
Proof.
  intros Hmem Hord Hb Em El Hsize Hs2 Happ Hs3. destruct (replayed_holds bs Hord Hb) as (m & es & Hm & Hh & Hp).
  unfold reuse_log. rewrite (db_bind_run get_db _ db w1 db db w1 eq_refl), Em, El, !bool_decide_true by done.
  rewrite (db_bind_run (assert true) _ db w1 tt db w1 eq_refl).
  assert (H2 : with_env (env_GetFileSize fname) db w1 = Some ((s2, blen C), db, w2)) by (unfold with_env; by rewrite Hsize).
  rewrite (db_bind_run _ _ _ _ _ _ _ H2), Hs2.
  assert (H3 : with_env (env_NewAppendableFile fname) db w2 = Some ((s3, Some f), db, w3)) by (unfold with_env; by rewrite Happ).
  rewrite (db_bind_run _ _ _ _ _ _ _ H3), Hs3. rewrite (db_bind_run (need (Some f)) _ db w3 f db w3 eq_refl).
  rewrite db_change_run. destruct mem as [p|]; cbn [loop_mem] in Hmem.
  - destruct Hmem as (m' & Hp' & Hm'). assert (m' = m) as -> by congruence. exists p, m, es. eexists. split; [reflexivity|]. done.
  - subst bs. exists (mem_alloc db), (Ref MemTable_make), []. eexists. split.
    + unfold db_bind, new_mem, mem_Ref, mem_at, get_db, need, put_mem, change, db_ret. unfold db_bind. cbn [mbind option_bind set_mem set_mem_alloc set_mems mems].
      rewrite lookup_insert_eq. cbn [mbind option_bind]. reflexivity.
    + split; [done|]. split; [done|]. split; [done|]. split; [cbn [set_mem set_mem_alloc set_mems mems]; by rewrite lookup_insert_eq|].
      split; [by apply (holds_table c MemTable_make), holds_make|]. done.
Qed.


End RecoverLog.

(** ** A log of two batches, read back

    The environment is the bytes of the log file. *)

Definition crash_batches : list (Z * list Op) := [(1, queue_put); (2, queue_delete)].

Definition crash_log : Writer StringDest :=
  default (Writer_make 0 (mkDest [])) (write_all (Writer_make 0 (mkDest [])) 0 (map batch_record crash_batches)).

Lemma crash_log_holds : log_holds (contents := dest_contents) crash_log (map batch_record crash_batches).
Proof.
  destruct (write_all_layout (contents := dest_contents) (Writer_make 0 (mkDest [])) 0 (map batch_record crash_batches)) as (w' & out & Hw & Hok & Hc & Hl);
    [by apply Writer_make_ok|].
  unfold crash_log. rewrite Hw. split; [exact Hok|]. cbn [default]. unfold id. rewrite Hc. exact Hl.
Qed.

#[local] Instance crash_files : DescriptorEnv (F := StringDest) bytes StringSource := {
  env_NewWritableFile _ w := (OK, Some (mkDest []), w);
  env_NewAppendableFile _ w := (OK, Some (mkDest w), w);
  env_NewSequentialFile _ w := (OK, Some (mkSource w), w);
  env_GetFileSize _ w := (OK, blen w, w);
  env_RemoveFile _ w := (OK, w);
  env_SetCurrentFile _ _ w := (OK, w);
  env_ReadFileToString _ w := (OK, [], w)
}.

#[local] Instance crash_env : DbEnv bytes := {
  env_GetChildren _ w := (OK, [], w);
  env_CreateDir _ w := (OK, w);
  env_RemoveDir _ w := (OK, w);
  env_FileExists _ w := (true, w);
  env_LockFile _ w := (OK, w);
  env_UnlockFile w := (OK, w);
  env_NowMicros w := (0, w);
  env_SleepForMicroseconds _ w := w;
  env_Schedule w := w;
  cache_check _ _ w := (OK, w);
  cache_Evict _ w := w
}.

Definition reusing_options : Options := {|
  comparator := InternalKeyComparator BytewiseComparator;
  create_if_missing := false;
  error_if_exists := false;
  paranoid_checks := true;
  write_buffer_size := 65536;
  max_open_files := 1000;
  block_size := 4096;
  block_restart_interval := 16;
  max_file_size := 2 * 1024 * 1024;
  compression := kNoCompression;
  zstd_compression_level := 1;
  reuse_logs := true;
  filter_policy := None
|}.

Definition crashed_db : DBImpl StringDest :=
  mkDB (str "db") reusing_options true false ∅ 0 None None false 0 None 0 [] ∅ WriteBatch_make SnapshotList_make ∅ false ∅ None
    queue_versions OK (replicate 7 (mkCStats 0 0 0)).

