(* ===== verification/DbRead.v ===== *)
(** * Reading a database

    [Get], [NewIterator], [RecordReadSample], [GetApproximateSizes], [GetProperty] and
    what they use in [db/db_impl.cc], and [VersionSet::ApproximateOffsetOf].  The table cache is an
    argument: lookups, iterators and offsets of the table with a number and a size,
    as they are in a state of the environment. *)

From Stdlib Require Import SpecFloat.
From S2P Require Import Prelude Slice Coding Status Env Logging LogFormat Comparator DbFormat Random Arena SkipList MemTable WriteBatch VersionEdit Filename Format Iterator Options TwoLevel Merger DbIter Version Compaction VersionSet Snapshot TableFromIter DbState.

(** ** Approximate offsets *)

Section Offsets.

Context (c : Comparator) (meta : nat -> FileMetaData).

(** [Table::ApproximateOffsetOf] of an open table; [None] if it cannot be opened. *)
Context (table_offset : Z -> Z -> bytes -> option Z).

Fixpoint level_offset (level : Z) (files : list nat) (ikey : bytes) (result : Z) : Z :=
  match files with
  | [] => result
  | p :: files =>
      let f := meta p in
      if ikey_Compare c (rep_ (largest f)) ikey <=? 0 then level_offset level files ikey (u64 (result + file_size f))
      else if 0 <? ikey_Compare c (rep_ (smallest f)) ikey then
        if 0 <? level then result else level_offset level files ikey result
      else
        match table_offset (number f) (file_size f) ikey with
        | Some n => level_offset level files ikey (u64 (result + n))
        | None => level_offset level files ikey result
        end
  end.

Fixpoint levels_offset (levels : list (list nat)) (level : Z) (ikey : bytes) (result : Z) : Z :=
  match levels with
  | [] => result
  | files :: levels => levels_offset levels (level + 1) ikey (level_offset level files ikey result)
  end.

Definition vs_ApproximateOffsetOf (files_ : list (list nat)) (ikey : InternalKey) : Z :=
  levels_offset files_ 0 (rep_ ikey) 0.

End Offsets.

(** ** The children of a database's internal iterator

    Memtables, tables of level 0, and the levels below. *)

Definition DbChild (D : Type) : Type :=
  MemTableIterator + (D + TwoLevelIterator (LevelFileNumIterator (P := nat)) (EmptyIterator + D)).

Definition DbChild_iterator {D} {Iterator0 : Iterator D} (c : Comparator) (meta : nat -> FileMetaData) : Iterator (DbChild D) :=
  sum_iterator (H := MemTable_iterator c)
    (H0 := sum_iterator (H := Iterator0)
             (H0 := TwoLevel_ops (H := Level_iterator c meta) (H0 := sum_iterator (H := EmptyIterator_ops) (H0 := Iterator0)))).

Definition DbInternal (D : Type) : Type := EmptyIterator + (DbChild D + MergingIterator (DbChild D)).

Definition DbInternal_iterator {D} {Iterator0 : Iterator D} (c : Comparator) (meta : nat -> FileMetaData) : Iterator (DbInternal D) :=
  sum_iterator (H := EmptyIterator_ops)
    (H0 := sum_iterator (H := DbChild_iterator c meta) (H0 := Merging_ops (H := DbChild_iterator c meta))).

Section DbRead.

Context {F W S : Type} `{!WritableFile F} `{!SequentialFile S} `{!DescriptorEnv (F := F) W S} `{!DbEnv W}.
Context (others : DBImpl F -> W -> DBImpl F * W).

#[local] Open Scope db_scope.

(** The sequence number of the snapshot read at, or the last one. *)
Definition read_sequence (snapshot : option nat) : DbM F W Z :=
  let! db := get_db in
  match snapshot with
  | Some p => let! n := need (snapshot_at (snapshots_ db) p) in db_ret (sequence_number_ n)
  | None => db_ret (vs_last_sequence_ (db_versions_ db))
  end.

(** ** [Get] *)

(** [TableCache::Get]: its status and the entry the callback is called with. *)
Context (cache_Get : W -> Z -> Z -> bytes -> Status * option entry).

(** The mutex is not held while memtables and tables are searched. *)
Definition search_mem (p : nat) (k : LookupKey) : DbM F W GetResult :=
  relock others;;
  let! db := get_db in
  let! m := mem_at p in
  need (MemTable.Get (user_cmp (db_versions_ db)) m k).

Definition search_tables (id : nat) (k : LookupKey) (value : bytes) : DbM F W (Status * bytes * GetStats (P := nat)) :=
  relock others;;
  fun db w =>
    let vs := db_versions_ db in
    let meta := fmeta (store_ vs) in
    node ← node_at vs id;
    r ← Version_Get (user_cmp vs) meta (fun p => cache_Get w (number (meta p)) (file_size (meta p))) (files_ (version node)) k value;
    Some (r, db, w).

(** The status, the value, and the statistics if tables were searched. *)
Definition search (mem : nat) (imm : option nat) (id : nat) (k : LookupKey) (value : bytes)
  : DbM F W (Status * bytes * option (GetStats (P := nat))) :=
  let! r := search_mem mem k in
  match r with
  | MemTable.Found v => db_ret (OK, v, None)
  | MemTable.Deleted s => db_ret (s, value, None)
  | MemTable.Absent =>
      let! r := match imm with Some imm => search_mem imm k | None => db_ret MemTable.Absent end in
      match r with
      | MemTable.Found v => db_ret (OK, v, None)
      | MemTable.Deleted s => db_ret (s, value, None)
      | MemTable.Absent => let! '(s, value, stats) := search_tables id k value in db_ret (s, value, Some stats)
      end
  end.

(** What a reader holds while it reads without the mutex. *)
Record IterState := mkIterState { is_mem : nat; is_imm : option nat; is_version : nat }.

Definition pin_state : DbM F W IterState :=
  let! db := get_db in
  let! mem := need (mem_ db) in
  let! id := need (VersionSet.current_ (db_versions_ db)) in
  mem_Ref mem;;
  when_some (imm_ db) mem_Ref;;
  change_versions (fun vs => Version_Ref vs id);;
  db_ret (mkIterState mem (imm_ db) id).

Definition unpin_state (st : IterState) : DbM F W () :=
  mem_Unref (is_mem st);;
  when_some (is_imm st) mem_Unref;;
  change_versions (fun vs => Version_Unref vs (is_version st)).

Definition charge_seek (id : nat) (stats : GetStats (P := nat)) : DbM F W () :=
  let! b := with_versions (fun vs => UpdateStats vs id stats) in
  when b MaybeScheduleCompaction.

Definition db_Get (snapshot : option nat) (key value : bytes) : DbM F W (Status * bytes) :=
  relock others;;
  let! sequence := read_sequence snapshot in
  let! st := pin_state in
  let! '(s, value, stats) := search (is_mem st) (is_imm st) (is_version st) (LookupKey_make key sequence) value in
  relock others;;
  when_some stats (charge_seek (is_version st));;
  unpin_state st;;
  db_ret (s, value).

(** ** Iterators *)

Section Iterators.

(** [TableCache::NewIterator] of a file number and size. *)
Context {D : Type} `{!Iterator D} (cache_NewIterator : W -> Z -> Z -> option D).

(** An iterator of a memtable reads it as it is when the iterator is made: entries
    added later have later sequence numbers than any read with it asks for. *)
Definition NewInternalIterator : DbM F W (DbInternal D * IterState * Z * Z) :=
  relock others;;
  let! db := get_db in
  let vs := db_versions_ db in
  let latest_snapshot := vs_last_sequence_ vs in
  let! st := pin_state in
  let! mem := mem_at (is_mem st) in
  let! imm := match is_imm st with Some p => let! m := mem_at p in db_ret [m] | None => db_ret [] end in
  let! children := fun db w =>
    v ← current_version vs;
    l ← AddIterators (D := D) (user_cmp vs) (fmeta (store_ vs)) (cache_NewIterator w) (files_ v);
    Some (map (fun m => inl (mem_NewIterator m)) (mem :: imm) ++ map inr l, db, w) in
  let seed := u32 (seed_ db + 1) in
  change (set_seed seed);;
  db_ret (NewMergingIterator (H := DbChild_iterator (user_cmp vs) (fmeta (store_ vs)))
            (InternalKeyComparator (user_cmp vs)) children, st, latest_snapshot, seed).

(** Run when the iterator is destroyed. *)
Definition CleanupIteratorState (st : IterState) : DbM F W () := relock others;; unpin_state st.

(** [fuel] bounds the loops of the iterator over internal entries. *)
Definition db_NewIterator (fuel : nat) (snapshot : option nat) : DbM F W (DBIter (DbInternal D) * IterState) :=
  let! '(iter, st, latest_snapshot, seed) := NewInternalIterator in
  let! db := get_db in
  let! sequence := match snapshot with
                   | Some p => let! n := need (snapshot_at (snapshots_ db) p) in db_ret (sequence_number_ n)
                   | None => db_ret latest_snapshot
                   end in
  db_ret (NewDBIterator (user_cmp (db_versions_ db)) iter sequence seed fuel, st).

End Iterators.

(** ** Sampling and sizes *)

Definition db_RecordReadSample (key : bytes) : DbM F W () :=
  relock others;;
  let! db := get_db in
  let! id := need (VersionSet.current_ (db_versions_ db)) in
  let! b := with_versions (fun vs => RecordReadSample vs id key) in
  when b MaybeScheduleCompaction.

Definition TEST_MaxNextLevelOverlappingBytes : DbM F W Z :=
  relock others;;
  let! db := get_db in
  let vs := db_versions_ db in
  let! v := need (current_version vs) in
  need (MaxNextLevelOverlappingBytes (user_cmp vs) (fmeta (store_ vs)) v).

Context (table_offset : W -> Z -> Z -> bytes -> option Z).

Definition range_size (files_ : list (list nat)) (vs : VersionSet F) (w : W) (start limit : bytes) : Z :=
  let at_key u := vs_ApproximateOffsetOf (user_cmp vs) (fmeta (store_ vs)) (table_offset w) files_
                    (InternalKey_make u kMaxSequenceNumber kValueTypeForSeek) in
  if at_key start <=? at_key limit then at_key limit - at_key start else 0.

Definition GetApproximateSizes (ranges : list (bytes * bytes)) : DbM F W (list Z) :=
  relock others;;
  let! db := get_db in
  let! id := need (VersionSet.current_ (db_versions_ db)) in
  change_versions (fun vs => Version_Ref vs id);;
  let! sizes := fun db w =>
    node ← node_at (db_versions_ db) id;
    Some (map (fun r => range_size (files_ (version node)) (db_versions_ db) w (fst r) (snd r)) ranges, db, w) in
  change_versions (fun vs => Version_Unref vs id);;
  db_ret sizes.

End DbRead.

(** ** [GetProperty] *)

(** The text of [%*d] and [%*.0f]: a number, and a double rounded to the nearest
    integer, to even in a tie, both at the right of a field. *)
Definition padded (width : Z) (s : bytes) : bytes := replicate (Z.to_nat (width - blen s)) x20 ++ s.

Definition round_even (m e : Z) : Z :=
  if 0 <=? e then m * 2 ^ e
  else
    let d := 2 ^ (- e) in
    let q := m / d in
    let r := m mod d in
    if 2 * r <? d then q else if d <? 2 * r then q + 1 else q + q mod 2.

Definition sign_text (s : bool) : bytes := if s then str "-" else [].

Definition fixed_0 (x : spec_float) : bytes :=
  match x with
  | S754_zero s => sign_text s ++ str "0"
  | S754_infinity s => sign_text s ++ str "inf"
  | S754_nan => str "nan"
  | S754_finite s m e => sign_text s ++ decimal (round_even (Zpos m) e)
  end.

Section Property.

Context {F W : Type} `{!DbEnv W} (others : DBImpl F -> W -> DBImpl F * W).

(** [options_.block_cache->TotalCharge()] *)
Context (cache_charge : Z).

Local Open Scope db_scope.

Definition stats_header : bytes :=
  str "                               Compactions" ++ [x0a] ++
  str "Level  Files Size(MB) Time(sec) Read(MB) Write(MB)" ++ [x0a] ++
  str "--------------------------------------------------" ++ [x0a].

Definition stats_row (level files size : Z) (st : CompactionStats) : bytes :=
  let mb n := fixed_0 (double_div (double_of n) (double_of 1048576)) in
  padded 3 (decimal level) ++ str " " ++ padded 8 (decimal files) ++ str " " ++ padded 8 (mb size) ++ str " " ++
  padded 9 (fixed_0 (double_div (double_of (micros st)) (double_of 1000000))) ++ str " " ++
  padded 8 (mb (bytes_read st)) ++ str " " ++ padded 9 (mb (bytes_written st)) ++ [x0a].

(** The rows of the levels from [level] on. *)
Fixpoint stats_rows (levels : nat) (level : Z) (meta : nat -> FileMetaData) (v : Version nat) (stats : list CompactionStats) : option bytes :=
  match levels with
  | O => Some []
  | S levels =>
      files ← NumLevelFiles v level;
      size ← NumLevelBytes meta v level;
      st ← stats !! Z.to_nat level;
      rest ← stats_rows levels (level + 1) meta v stats;
      Some ((if (0 <? micros st) || (0 <? files) then stats_row level files size st else []) ++ rest)
  end.

(** A memtable's share of the memory in use. *)
Definition mem_usage (p : option nat) : DbM F W Z :=
  match p with
  | Some p => let! m := mem_at p in need (ApproximateMemoryUsage m)
  | None => db_ret 0
  end.

(** [None] is the return value [false]. *)
Definition GetProperty (property : bytes) : DbM F W (option bytes) :=
  relock others;;
  let! db := get_db in
  let vs := db_versions_ db in
  let! v := need (current_version vs) in
  let prefix := str "leveldb." in
  if negb (starts_with property prefix) then db_ret None
  else
    let! in_ := need (remove_prefix property (blen prefix)) in
    let files_at := str "num-files-at-level" in
    if starts_with in_ files_at then
      let! in_ := need (remove_prefix in_ (blen files_at)) in
      match ConsumeDecimalNumber in_ with
      | Some (level, []) => if kNumLevels <=? level then db_ret None else let! n := need (NumLevelFiles v level) in db_ret (Some (decimal n))
      | _ => db_ret None
      end
    else if slice_eq in_ (str "stats") then
      let! rows := need (stats_rows (Z.to_nat kNumLevels) 0 (fmeta (store_ vs)) v (stats_ db)) in
      db_ret (Some (stats_header ++ rows))
    else if slice_eq in_ (str "sstables") then db_ret (Some (Version_DebugString (fmeta (store_ vs)) (files_ v)))
    else if slice_eq in_ (str "approximate-memory-usage") then
      let! mem := mem_usage (mem_ db) in
      let! imm := mem_usage (imm_ db) in
      db_ret (Some (decimal (u64 (u64 (cache_charge + mem) + imm))))
    else db_ret None.

(** The number of files at each level, and nothing for a level that does not exist. *)
Theorem num_files_property level db w db1 w1 v :
  others db w = (db1, w1) -> current_version (db_versions_ db1) = Some v -> length (files_ v) = Z.to_nat kNumLevels -> 0 <= level < 2 ^ 64 ->
  GetProperty (str "leveldb.num-files-at-level" ++ NumberToString level) db w =
    Some (if level <? kNumLevels then decimal ∘ Z.of_nat ∘ length <$> files_ v !! Z.to_nat level else None, db1, w1).
Proof.
  intros Ho Hv Hl Hlev. set (n := NumberToString level).
  change (str "leveldb.num-files-at-level" ++ n) with (str "leveldb." ++ (str "num-files-at-level" ++ n)).
  assert (Hrm : forall a b : bytes, remove_prefix (a ++ b) (blen a) = Some b).
  { intros a b. unfold remove_prefix. rewrite blen_app, (proj2 (Z.leb_le _ _)) by (pose proof (blen_nonneg b); lia). by rewrite zdrop_app. }
  unfold GetProperty, relock, db_bind, get_db, need. rewrite Ho. cbn [mbind option_bind]. rewrite Hv. cbn [mbind option_bind].
  rewrite starts_with_app, Hrm. cbn [negb mbind option_bind]. rewrite starts_with_app, Hrm. cbn [mbind option_bind].
  unfold n. rewrite <- (app_nil_r (NumberToString level)), ConsumeDecimalNumber_NumberToString by done.
  destruct (Z.leb_spec kNumLevels level) as [Hge|Hlt]; [by rewrite (proj2 (Z.ltb_ge _ _)) by lia|]. rewrite (proj2 (Z.ltb_lt _ _)) by lia.
  unfold NumLevelFiles. rewrite (proj2 (Z.leb_le 0 level)), (proj2 (Z.ltb_lt level kNumLevels)) by lia. cbn [andb negb].
  destruct (lookup_lt_is_Some_2 (files_ v) (Z.to_nat level)) as [files ->]; [lia|]. done.
Qed.

End Property.

Example fixed_0_rounds : map (fun n => fixed_0 (double_div (double_of n) (double_of 2))) [0; 1; 3; 5; 7; 2000001] = map str ["0"; "0"; "2"; "2"; "4"; "1000000"]%string.
Proof. vm_compute. reflexivity. Qed.
