(* ===== verification/DbReadSpec.v ===== *)
(** * What a read returns

    [Get] of a database answers with the newest entry its sequence number can see,
    wherever it lies: in the memtable, in the one being flushed or in a table of the
    version it pinned, while other threads go on writing and compacting. *)

From S2P Require Import Prelude Slice Coding Status Env LogFormat Comparator DbFormat Random Arena SkipList MemTable WriteBatch VersionEdit Filename Format Iterator Options TwoLevel Merger DbIter Version VersionSpec Compaction VersionSet VersionSetSpec VersionLife Manifest ManifestSpec Snapshot TableFromIter DbState CompactWork CompactRead DbWrite DbWriteSpec DbRead.

(** ** The entries a read chooses from *)

Section Entries.

Context (c : Comparator) {L : ComparatorLaws c}.

Notation ucmp := (Compare c).
Notation icmp := (ikey_Compare c).

(** Entries of the user key [u] that a read at [q] sees. *)
Definition sees (q : Z) (u : bytes) (e : entry) : Prop := ucmp (e_user e) u = 0 /\ e_seq e <= q.

Definition newest_at (q : Z) (u : bytes) (has : entry -> Prop) (o : option entry) : Prop :=
  match o with
  | Some e => has e /\ sees q u e /\ forall e', has e' -> sees q u e' -> e_seq e' <= e_seq e
  | None => forall e, has e -> ~ sees q u e
  end.

(** For a user key in both, the entries of [has] are newer. *)
Definition overrides (has has' : entry -> Prop) : Prop :=
  forall e e', has e -> has' e' -> ucmp (e_user e) (e_user e') = 0 -> e_seq e' < e_seq e.

Lemma newest_first q u has has' e :
  overrides has has' -> newest_at q u has (Some e) -> newest_at q u (fun x => has x \/ has' x) (Some e).
Proof.
  intros Hov (H1 & H2 & H3). split; [by left|]. split; [done|]. intros e' [He|He] Hs; [by apply H3|].
  apply Z.lt_le_incl, (Hov e e' H1 He). destruct H2 as [H2 _], Hs as [Hs _]. eapply (cmp_eq_trans ucmp); [exact H2|].
  by apply (cmp_opp_eq ucmp).
Qed.

Lemma newest_second q u has has' o :
  newest_at q u has None -> newest_at q u has' o -> newest_at q u (fun x => has x \/ has' x) o.
Proof.
  intros Hn. destruct o as [e|]; cbn.
  - intros (H1 & H2 & H3). split; [by right|]. split; [done|]. intros e' [He|He] Hs; [by destruct (Hn e' He)|by apply H3].
  - intros H e [He|He]; [by apply Hn|by apply H].
Qed.

Lemma newest_iff q u has has' o : (forall e, has e <-> has' e) -> newest_at q u has o -> newest_at q u has' o.
Proof.
  intros Hi. destruct o as [e|]; cbn; [|intros H e He; apply H; by apply Hi].
  intros (H1 & H2 & H3). split; [by apply Hi|]. split; [done|]. intros e' He. apply H3. by apply Hi.
Qed.

(** What [Get] returns for the entry it finds; [value] is the caller's string. *)
Definition read_result (o : option entry) (value : bytes) (r : Status * bytes) : Prop :=
  match o with
  | Some e => match e_type e with
              | kTypeValue => ok (fst r) = true /\ snd r = snd e
              | kTypeDeletion => r = (NotFound [] [], value)
              end
  | None => r = (NotFound [] [], value)
  end.

(** *** Entries of a memtable *)

Lemma mem_entry_parts x : entry_ok x ->
  e_user (mem_entry x) = e_key x /\ e_seq (mem_entry x) = MemTable.e_seq x /\ e_type (mem_entry x) = MemTable.e_type x.
Proof.
  intros Hx. destruct (ikey_parts x Hx) as [E1 E2]. unfold e_user, e_seq, e_type, mem_entry. cbn [fst]. rewrite E1, E2.
  unfold tag. pose proof (ValueType_value_range (MemTable.e_type x)). rewrite PackSequenceAndType_add by apply Hx. split; [done|].
  rewrite Z.shiftr_div_pow2 by lia. split; [Z.div_mod_to_equations; lia|].
  change 255 with (Z.ones 8). rewrite Z.land_ones by lia.
  replace ((ValueType_value (MemTable.e_type x) + MemTable.e_seq x * 2 ^ 8) mod 2 ^ 8) with (ValueType_value (MemTable.e_type x))
    by (rewrite Z.mod_add, Z.mod_small; lia).
  by destruct (MemTable.e_type x).
Qed.

Definition in_mem (M : list Entry) (e : entry) : Prop := exists x, x ∈ M /\ e = mem_entry x.

Lemma sees_mem q u x : entry_ok x -> sees q u (mem_entry x) <-> MemTable.visible c u q x.
Proof. intros Hx. unfold sees, MemTable.visible. by destruct (mem_entry_parts x Hx) as (-> & -> & _). Qed.

Lemma mem_answer M q u r :
  Forall entry_ok M -> answers c M u q r ->
  match r with
  | MemTable.Found v => exists e, newest_at q u (in_mem M) (Some e) /\ e_type e = kTypeValue /\ v = snd e
  | MemTable.Deleted s => exists e, newest_at q u (in_mem M) (Some e) /\ e_type e = kTypeDeletion /\ s = NotFound [] []
  | MemTable.Absent => newest_at q u (in_mem M) None
  end.
Proof.
  intros Hok. rewrite Forall_forall in Hok.
  assert (Hnew : forall x, x ∈ M -> MemTable.visible c u q x ->
    (forall x', x' ∈ M -> MemTable.visible c u q x' -> MemTable.e_seq x' <= MemTable.e_seq x) -> newest_at q u (in_mem M) (Some (mem_entry x))).
  { intros x Hx Hv Hm. split; [by exists x|]. split; [by apply sees_mem; [apply Hok|]|]. intros e' (x' & Hx' & ->) Hs.
    apply sees_mem in Hs; [|by apply Hok]. destruct (mem_entry_parts x (Hok _ Hx)) as (_ & -> & _).
    destruct (mem_entry_parts x' (Hok _ Hx')) as (_ & -> & _). by apply Hm. }
  destruct r as [v|s|]; cbn [answers].
  - intros (x & Hx & Hv & Hm & Ht & ->). exists (mem_entry x). split; [by apply Hnew|]. by rewrite (proj2 (proj2 (mem_entry_parts x (Hok _ Hx)))).
  - intros (x & Hx & Hv & Hm & Ht & ->). exists (mem_entry x). split; [by apply Hnew|]. by rewrite (proj2 (proj2 (mem_entry_parts x (Hok _ Hx)))).
  - intros Hn e (x & Hx & ->) Hs. apply sees_mem in Hs; [|by apply Hok]. by apply (Hn x).
Qed.

(** Entries a read does not see do not matter. *)
Lemma answers_agree M M' q u r :
  (forall x, MemTable.e_seq x <= q -> x ∈ M <-> x ∈ M') -> answers c M u q r -> answers c M' u q r.
Proof.
  intros Ha. destruct r as [v|s|]; cbn [answers].
  - intros (x & Hx & Hv & Hm & ?). exists x. pose proof Hv as [_ Hq]. split; [by apply Ha|]. split; [done|]. split; [|done].
    intros x' Hx' Hv'. apply Hm; [|done]. apply Ha; [apply Hv'|done].
  - intros (x & Hx & Hv & Hm & ?). exists x. pose proof Hv as [_ Hq]. split; [by apply Ha|]. split; [done|]. split; [|done].
    intros x' Hx' Hv'. apply Hm; [|done]. apply Ha; [apply Hv'|done].
  - intros Hn x Hx Hv. apply (Hn x); [|done]. apply Ha; [apply Hv|done].
Qed.

(** *** Entries of tables *)

Lemma parsed_tag e : is_Some (ParseInternalKey (fst e)) -> 0 <= key_tag (fst e) mod 256 <= 1 /\ key_tag (fst e) = e_seq e * 256 + key_tag (fst e) mod 256.
Proof.
  intros [p Hp]. unfold ParseInternalKey in Hp. destruct (blen (fst e) <? 8); [done|].
  destruct (Z.leb_spec (Z.land (key_tag (fst e)) 255) (ValueType_value kTypeValue)) as [Hle|]; [|done].
  change 255 with (Z.ones 8) in Hle. rewrite Z.land_ones in Hle by lia. change (ValueType_value kTypeValue) with 1 in Hle.
  change (2 ^ 8) with 256 in Hle. unfold e_seq. rewrite Z.shiftr_div_pow2 by lia. change (2 ^ 8) with 256.
  Z.div_mod_to_equations; lia.
Qed.

Lemma sees_table q u e :
  0 <= q <= kMaxSequenceNumber -> is_Some (ParseInternalKey (fst e)) ->
  sees q u e <-> visible c (internal_key (LookupKey_make u q)) e.
Proof.
  intros Hq Hp. destruct (parsed_tag e Hp) as [H1 H2]. destruct (LookupKey_parts u q) as (_ & -> & _).
  unfold AppendInternalKey, PutFixed64. cbn [app user_key sequence type]. unfold sees, visible, e_user.
  rewrite ikey_Compare_spec, ExtractUserKey_app, key_tag_app by (by apply PackSequenceAndType_range).
  rewrite PackSequenceAndType_add by done. change (ValueType_value kValueTypeForSeek) with 1.
  split; intros [Hu Hs]; (split; [done|]); rewrite Hu in *; cbn [Z.eqb] in *; lia.
Qed.

Lemma table_order e e' :
  is_Some (ParseInternalKey (fst e)) -> is_Some (ParseInternalKey (fst e')) -> ucmp (e_user e) (e_user e') = 0 ->
  icmp (fst e) (fst e') <= 0 -> e_seq e' <= e_seq e.
Proof.
  intros Hp Hp' Hu. destruct (parsed_tag e Hp) as [H1 H2]. destruct (parsed_tag e' Hp') as [H3 H4].
  rewrite ikey_Compare_spec. unfold e_user in Hu. rewrite Hu. cbn [Z.eqb]. lia.
Qed.

End Entries.

(** ** [Get] *)

Section Get.

Context {F W S : Type} `{!WritableFile F} `{!SequentialFile S} `{!DescriptorEnv (F := F) W S} `{!DbEnv W}.
Context (others : DBImpl F -> W -> DBImpl F * W).
Context (cache_Get : W -> Z -> Z -> bytes -> Status * option entry).
Context (c : Comparator) {L : ComparatorLaws c}.

(** The files of the version that is read, and the entries of each. *)
Context (files : list (list nat)) (content : nat -> list entry).

Implicit Types (db : DBImpl F) (w : W).

(** The memtable [p] holds the entries [M], and others that a read at [q] does not
    see. *)
Definition mem_shows (q : Z) db (p : nat) (M : list Entry) : Prop :=
  exists m es, mems db !! p = Some m /\ holds c m es /\ forall x, MemTable.e_seq x <= q -> x ∈ es <-> x ∈ M.

(** What a reader relies on: the objects it has pinned are there, and hold what they
    held. *)
Record can_read (q : Z) (st : IterState) (M I : list Entry) db w : Prop := {
  rd_versions : vs_ok c (db_versions_ db) [];
  rd_current : exists id, VersionSet.current_ (db_versions_ db) = Some id /\ is_Some (node_at (db_versions_ db) id);
  rd_mem : mem_shows q db (is_mem st) M;
  rd_imm : match is_imm st with Some p => p <> is_mem st /\ mem_shows q db p I | None => I = [] end;
  rd_version : exists node, node_at (db_versions_ db) (is_version st) = Some node /\ files_ (version node) = files;
  rd_tables : version_ok c (fmeta (store_ (db_versions_ db))) content files;
  rd_get : TableGet c content
    (fun p => cache_Get w (number (fmeta (store_ (db_versions_ db)) p)) (file_size (fmeta (store_ (db_versions_ db)) p))) (concat files)
}.

(** The other threads respect what the reader has pinned. *)
Definition respects (q : Z) (st : IterState) (M I : list Entry) : Prop :=
  forall db w, can_read q st M I db w -> can_read q st M I (fst (others db w)) (snd (others db w)).

Definition in_tables (e : entry) : Prop := exists f, f ∈ concat files /\ e ∈ content f.

(** Everything stored, from the newest part to the oldest. *)
Definition stored (M I : list Entry) (e : entry) : Prop := in_mem M e \/ in_mem I e \/ in_tables e.

Context (q : Z) (Hq : 0 <= q <= kMaxSequenceNumber) (u : bytes) (Hu : blen u + 8 < 2 ^ 32).
Context (st : IterState) (M I : list Entry) (Hother : respects q st M I).
Context (HM : Forall entry_ok M) (HI : Forall entry_ok I).

Notation k := (LookupKey_make u q).
Notation readable := (can_read q st M I).

Lemma relock_readable db w : readable db w -> exists db' w', relock others db w = Some (tt, db', w') /\ readable db' w'.
Proof. intros H. unfold relock. pose proof (Hother db w H) as H'. destruct (others db w) as [db' w']. eauto. Qed.

Lemma search_mem_ok db w p X :
  readable db w -> (forall db' w', readable db' w' -> mem_shows q db' p X) ->
  exists r db' w', search_mem others p k db w = Some (r, db', w') /\ readable db' w' /\ answers c X u q r.
Proof.
  intros H HX. destruct (relock_readable db w H) as (db1 & w1 & E & H1). destruct (HX db1 w1 H1) as (m & es & Em & Hh & Ha).
  destruct (Get_holds c m es u q Hh Hu Hq) as (r & Er & Hr). exists r, db1, w1. unfold search_mem. erewrite db_bind_run by exact E.
  unfold mem_at, get_db, db_bind, need. cbn [mbind option_bind]. rewrite Em. cbn [mbind option_bind]. rewrite (ok_cmp _ _ _ (rd_versions _ _ _ _ _ _ H1)), Er.
  split; [done|]. split; [done|]. by eapply answers_agree.
Qed.

Lemma search_tables_ok db w value :
  readable db w ->
  exists s v stats db' w' o, search_tables others cache_Get (is_version st) k value db w = Some (s, v, stats, db', w') /\
    readable db' w' /\ newest_at c q u in_tables o /\ read_result o value (s, v) /\ (forall f, seek_file stats = Some f -> f ∈ concat files).
Proof.
  intros H. destruct (relock_readable db w H) as (db1 & w1 & E & H1). unfold search_tables. erewrite db_bind_run by exact E. cbv zeta.
  destruct (rd_version _ _ _ _ _ _ H1) as (node & En & Ef). pose proof (rd_tables _ _ _ _ _ _ H1) as Ht. pose proof (rd_get _ _ _ _ _ _ H1) as Hg.
  rewrite En. cbn [mbind option_bind]. rewrite Ef, (ok_cmp _ _ _ (rd_versions _ _ _ _ _ _ H1)).
  assert (Hne : files <> []).
  { destruct (node_good c _ _ _ _ (rd_versions _ _ _ _ _ _ H1) En) as [_ [Hl _]]. rewrite Ef in Hl. by intros ->. }
  destruct (Version_Get_newest c _ content _ files u q value Ht Hne Hg) as (o & s & v & stats & Ho & Ev & Hr). rewrite Ev. cbn [mbind option_bind].
  assert (Hp : forall f e, f ∈ concat files -> e ∈ content f -> is_Some (ParseInternalKey (fst e))).
  { intros f e Hf He. by apply (table_keys _ _ _ f (version_tables _ _ _ _ Ht f Hf) e He). }
  exists s, v, stats, db1, w1, o. split; [done|]. split; [done|]. split; [|split; [|intros f; by eapply Version_Get_stats]].
  - destruct o as [e|]; cbn in Ho |- *.
    + destruct Ho as ((f & Hf & He) & Hv & Hmin). split; [by exists f|]. split; [apply sees_table; eauto|].
      intros e' (f' & Hf' & He') Hs. apply (table_order c); [eauto|eauto| |].
      * apply (cmp_eq_trans (Compare c) _ u); [|destruct Hs as [Hs _]; by apply (cmp_opp_eq (Compare c))].
        apply (sees_table c q u e Hq) in Hv; [apply Hv|eauto].
      * eapply Hmin; [exact Hf'|done|]. apply sees_table; eauto.
    + intros e (f & Hf & He) Hs. eapply Ho; [exact Hf|exact He|]. apply sees_table; eauto.
  - destruct o as [e|]; cbn [read_result fst snd].
    + destruct Hr as (p & Hpe & Hr). rewrite ParseInternalKey_parts in Hpe by (unfold entry_parses; rewrite bool_decide_eq_true; by eexists).
      injection Hpe as <-. cbn [type] in Hr. destruct (e_type e); cbn in Hr; [|done]. by destruct Hr as [-> ->].
    + by destruct Hr as [-> ->].
Qed.

Lemma search_ok db w value :
  overrides c (in_mem M) (fun e => in_mem I e \/ in_tables e) -> overrides c (in_mem I) in_tables -> readable db w ->
  exists s v stats db' w' o, search others cache_Get (is_mem st) (is_imm st) (is_version st) k value db w = Some (s, v, stats, db', w') /\
    readable db' w' /\ newest_at c q u (stored M I) o /\ read_result o value (s, v) /\
    (forall x f, stats = Some x -> seek_file x = Some f -> f ∈ concat files).
Proof.
  intros Ho1 Ho2 H.
  destruct (search_mem_ok db w (is_mem st) M H ltac:(intros ? ? [_ _ ? _ _ _ _]; done)) as (r & db1 & w1 & E1 & H1 & Ha).
  apply mem_answer in Ha; [|done]. unfold search. erewrite db_bind_run by exact E1.
  destruct r as [v|s|]; [| |].
  - destruct Ha as (e & Hn & Ht & ->). exists OK, (snd e), None, db1, w1, (Some e). split; [done|]. split; [done|].
    split; [by apply newest_first|]. split; [|done]. cbn. by rewrite Ht.
  - destruct Ha as (e & Hn & Ht & ->). exists (NotFound [] []), value, None, db1, w1, (Some e). split; [done|]. split; [done|].
    split; [by apply newest_first|]. split; [|done]. cbn. by rewrite Ht.
  - assert (Himm : exists r db2 w2, match is_imm st with Some imm => search_mem others imm k | None => db_ret MemTable.Absent end db1 w1 = Some (r, db2, w2) /\
       readable db2 w2 /\ answers c I u q r).
    { pose proof (rd_imm _ _ _ _ _ _ H1) as Hi. destruct (is_imm st) as [p|] eqn:Ei.
      - apply search_mem_ok; [done|]. intros db' w' [_ _ _ Hi' _ _ _]. rewrite Ei in Hi'. apply Hi'.
      - exists MemTable.Absent, db1, w1. rewrite Hi. split; [done|]. split; [by rewrite <- Hi|]. intros e He. by apply not_elem_of_nil in He. }
    destruct Himm as (r & db2 & w2 & E2 & H2 & Hb). apply mem_answer in Hb; [|done]. erewrite db_bind_run by exact E2.
    destruct r as [v|s|]; [| |].
    + destruct Hb as (e & Hn & Ht & ->). exists OK, (snd e), None, db2, w2, (Some e). split; [done|]. split; [done|].
      split; [apply newest_second; [done|by apply newest_first]|]. split; [|done]. cbn. by rewrite Ht.
    + destruct Hb as (e & Hn & Ht & ->). exists (NotFound [] []), value, None, db2, w2, (Some e). split; [done|]. split; [done|].
      split; [apply newest_second; [done|by apply newest_first]|]. split; [|done]. cbn. by rewrite Ht.
    + destruct (search_tables_ok db2 w2 value H2) as (s & v & stats & db3 & w3 & o & E3 & H3 & Hn & Hr & Hs). erewrite db_bind_run by exact E3.
      exists s, v, (Some stats), db3, w3, o. split; [done|]. split; [done|]. split; [|split; [done|]].
      * apply newest_second; [done|]. by apply newest_second.
      * intros x f [= <-]. apply Hs.
Qed.

(** *** The references *)

Lemma mem_shows_mems q' db db' p X : mems db' !! p = mems db !! p -> mem_shows q' db p X -> mem_shows q' db' p X.
Proof. intros E (m & es & Em & ?). exists m, es. by rewrite E. Qed.

Lemma mem_shows_refs q' db p p' m r X :
  mems db !! p' = Some m -> mem_shows q' db p X ->
  mem_shows q' (set_mems (<[p' := mkMemTable r (table_ m)]> (mems db)) db) p X.
Proof.
  intros Em (m1 & es & E1 & Hh & Ha). destruct (decide (p = p')) as [->|Hne].
  - rewrite Em in E1. injection E1 as <-. exists (mkMemTable r (table_ m)), es. split; [apply lookup_insert_eq|]. split; [|done].
    destruct Hh as [H1 H2]. by split.
  - exists m1, es. split; [|done]. cbn. by rewrite lookup_insert_ne.
Qed.

Lemma readable_mem_ref db w p m r :
  readable db w -> mems db !! p = Some m -> readable (set_mems (<[p := mkMemTable r (table_ m)]> (mems db)) db) w.
Proof.
  intros [H1 H2 H3 H4 H5 H6 H7] Em. split; try done; [by apply mem_shows_refs|].
  destruct (is_imm st); [|done]. destruct H4 as [Hne H4]. split; [done|]. by apply mem_shows_refs.
Qed.

Lemma mem_Ref_ok db w p X : readable db w -> mem_shows q db p X -> exists db', mem_Ref p db w = Some (tt, db', w) /\ readable db' w /\
  db_versions_ db' = db_versions_ db /\ mem_ db' = mem_ db /\ imm_ db' = imm_ db.
Proof.
  intros H (m & es & Em & _). unfold mem_Ref, mem_at, get_db, put_mem, change, db_bind, need. cbn [mbind option_bind]. rewrite Em.
  cbn [mbind option_bind]. eexists. split; [done|]. split; [by apply readable_mem_ref|done].
Qed.

Lemma pin_state_ok db w :
  readable db w -> mem_ db = Some (is_mem st) -> imm_ db = is_imm st -> VersionSet.current_ (db_versions_ db) = Some (is_version st) ->
  exists db', pin_state db w = Some (st, db', w) /\ readable db' w.
Proof.
  clear Hother. intros H Em Ei Ec. unfold pin_state. unfold get_db at 1, db_bind at 1. cbn [mbind option_bind]. rewrite Em, Ec, Ei. unfold need at 1 2.
  unfold db_bind at 1 2. cbn [mbind option_bind].
  destruct (mem_Ref_ok db w (is_mem st) M H (rd_mem _ _ _ _ _ _ H)) as (db1 & E1 & H1 & V1 & _). erewrite db_bind_run by exact E1.
  assert (exists db2, when_some (is_imm st) mem_Ref db1 w = Some (tt, db2, w) /\ readable db2 w /\ db_versions_ db2 = db_versions_ db1) as (db2 & E2 & H2 & V2).
  { pose proof (rd_imm _ _ _ _ _ _ H1) as Hi. destruct (is_imm st) as [p|]; [|by exists db1]. destruct Hi as [_ Hi].
    destruct (mem_Ref_ok db1 w p I H1 Hi) as (db2 & ? & ? & ? & _). by exists db2. }
  erewrite db_bind_run by exact E2. unfold change_versions. unfold db_bind at 1. pose proof H2 as [R1 R2 R3 R4 (node & En & Ef) R6 R7].
  destruct (Version_Ref_ok c (db_versions_ db2) [] (is_version st) node R1 En) as (vs & -> & Hok & Hst & _ & Hat & Heq).
  cbn [mbind option_bind]. eexists. split; [unfold db_ret; by destruct st|]. split; cbn [db_versions_ set_db_versions mems]; try done.
  - destruct R2 as (id & Hid & Hn). exists id. split; [by rewrite Heq|]. rewrite Hat. destruct (decide _); [by eexists|done].
  - exists (mkNode (refs_ node + 1) (version node)). rewrite Hat, decide_True by done. done.
  - by rewrite Hst.
  - by rewrite Hst.
Qed.

(** What is needed to let go. *)
Record pinned db : Prop := {
  pin_versions : vs_ok c (db_versions_ db) [];
  pin_current : exists id, VersionSet.current_ (db_versions_ db) = Some id /\ is_Some (node_at (db_versions_ db) id);
  pin_mem : is_Some (mems db !! is_mem st);
  pin_imm : match is_imm st with Some p => p <> is_mem st /\ is_Some (mems db !! p) | None => True end;
  pin_version : exists node, node_at (db_versions_ db) (is_version st) = Some node /\ files_ (version node) = files
}.

Lemma readable_pinned db w : readable db w -> pinned db.
Proof.
  intros [H1 H2 (m & ? & Hm & _) H4 H5 _ _]. split; [done|done|by eexists| |done]. destruct (is_imm st); [|done].
  destruct H4 as [Hne (m' & ? & Hm' & _)]. split; [done|by eexists].
Qed.

Lemma UpdateStats_ok vs rest id node stats :
  vs_ok c vs rest -> node_at vs id = Some node -> (forall f, seek_file stats = Some f -> f ∈ concat (files_ (version node))) ->
  exists b (vs' : VersionSet F), UpdateStats vs id stats = Some (b, vs') /\ vs_ok c vs' rest /\ VersionSet.current_ vs' = VersionSet.current_ vs /\
    (forall id' n, node_at vs id' = Some n -> exists n', node_at vs' id' = Some n' /\ files_ (version n') = files_ (version n)).
Proof.
  intros Hok Hn Hf. unfold UpdateStats. destruct (seek_file stats) as [p|]; [|by exists false, vs; eauto 10].
  rewrite Hn. cbn [mbind option_bind]. specialize (Hf p eq_refl). pose proof (ok_refs _ _ _ Hok) as [R1 R2].
  destruct (R1 p) as (f & Ef & _); [apply elem_of_app; left; by eapply all_files_elem|]. rewrite Ef. cbn [mbind option_bind]. cbv zeta.
  destruct (put_seeks_ok (store_ vs) _ p f (allowed_seeks f - 1) (ok_refs _ _ _ Hok) Ef) as [Hr Hfi].
  set (vs1 := set_store vs _).
  assert (Hok1 : vs_ok c vs1 rest) by (eapply vs_ok_store; [exact Hok|exact Hr|intros x _; apply Hfi]).
  destruct (file_to_compact_ (version node)); [exists false, vs1; split; [done|]; eauto|].
  destruct (_ <=? 0); [|exists false, vs1; split; [done|]; eauto].
  set (node' := mkNode _ _). exists true, (put_node vs1 id node'). split; [done|].
  split; [apply (put_node_ok c vs1 rest id node); try done; apply (node_good c vs rest id node Hok Hn)|]. split; [done|].
  intros id' n Hn'. rewrite put_node_at by (by exists node). destruct (decide (id' = id)) as [->|]; [|by exists n].
  exists node'. split; [done|]. rewrite Hn in Hn'. by injection Hn' as <-.
Qed.

Lemma MaybeScheduleCompaction_ok db w :
  pinned db -> exists db' w', MaybeScheduleCompaction db w = Some (tt, db', w') /\ pinned db'.
Proof.
  intros H. unfold MaybeScheduleCompaction, get_db. unfold db_bind at 1. cbn [mbind option_bind].
  destruct (background_compaction_scheduled_ db); [by exists db, w|]. destruct (shutting_down_ db); [by exists db, w|].
  destruct (negb (ok (bg_error_ db))); [by exists db, w|]. destruct (pin_current _ H) as (id & Hid & [n Hn]).
  unfold need, db_bind at 1, current_version. rewrite Hid. cbn [mbind option_bind]. rewrite Hn. cbn [mbind option_bind].
  destruct (_ && _); [by exists db, w|]. unfold db_bind, change, with_env. cbn [mbind option_bind]. eexists _, _. split; [done|].
  by destruct H.
Qed.

Lemma charge_seek_ok db w stats :
  pinned db -> (forall f, seek_file stats = Some f -> f ∈ concat files) ->
  exists db' w', charge_seek (is_version st) stats db w = Some (tt, db', w') /\ pinned db'.
Proof.
  intros H Hf. pose proof H as [P1 P2 P3 P4 (node & En & Ef)]. unfold charge_seek, with_versions. unfold db_bind at 1.
  destruct (UpdateStats_ok (db_versions_ db) [] (is_version st) node stats P1 En) as (b & vs & -> & Hok & Hc & Hn); [by rewrite Ef|].
  cbn [mbind option_bind].
  assert (H' : pinned (set_db_versions vs db)).
  { split; cbn [db_versions_ set_db_versions mems]; try done.
    - destruct P2 as (id & Hid & [n Hn']). destruct (Hn id n Hn') as (n' & ? & _). exists id. split; [by rewrite Hc|by eexists].
    - destruct (Hn _ _ En) as (n' & ? & E). exists n'. split; [done|by rewrite E]. }
  destruct b; cbn [when]; [by apply MaybeScheduleCompaction_ok|by eexists _, _].
Qed.

Lemma mem_Unref_ok db w p : is_Some (mems db !! p) -> exists ms, mem_Unref p db w = Some (tt, set_mems ms db, w) /\ forall p', p' <> p -> ms !! p' = mems db !! p'.
Proof.
  intros [m Em]. unfold mem_Unref, mem_at, get_db, put_mem, change, db_bind, need. cbn [mbind option_bind]. rewrite Em. cbn [mbind option_bind].
  destruct (Unref m); eexists; (split; [done|]); intros p' Hp; [by apply lookup_insert_ne|by apply lookup_delete_ne].
Qed.

Lemma unpin_state_ok db w : pinned db -> exists db', unpin_state st db w = Some (tt, db', w).
Proof.
  intros [P1 P2 P3 P4 (node & En & _)]. unfold unpin_state. destruct (mem_Unref_ok db w (is_mem st) P3) as (ms & E1 & Hms).
  erewrite db_bind_run by exact E1.
  assert (exists ms', when_some (is_imm st) mem_Unref (set_mems ms db) w = Some (tt, set_mems ms' db, w)) as (ms' & E2).
  { destruct (is_imm st) as [p|]; [|by exists ms]. destruct P4 as [Hne Hp]. destruct (mem_Unref_ok (set_mems ms db) w p) as (ms' & E & _).
    - cbn. by rewrite Hms. - by exists ms'. }
  erewrite db_bind_run by exact E2. unfold change_versions. change (db_versions_ (set_mems ms' db)) with (db_versions_ db).
  destruct (Version_Unref_ok c (db_versions_ db) [] (is_version st) node P1 En) as (vs & -> & _). by eexists.
Qed.

End Get.

(** The sequence number a read is made at. *)
Definition sequence_of {F} (db : DBImpl F) (snapshot : option nat) : option Z :=
  match snapshot with
  | Some p => seq_of (snapshots_ db) p
  | None => Some (vs_last_sequence_ (db_versions_ db))
  end.

Section DbGet.

Context {F W S : Type} `{!WritableFile F} `{!SequentialFile S} `{!DescriptorEnv (F := F) W S} `{!DbEnv W}.
Context (others : DBImpl F -> W -> DBImpl F * W).
Context (cache_Get : W -> Z -> Z -> bytes -> Status * option entry).
Context (c : Comparator) {L : ComparatorLaws c}.

(** C4: [Get] always returns, and answers for the state in which it takes the mutex:
    with the newest entry of the key, among the entries of the memtable, of the
    memtable being flushed and of the tables of the current version, whose sequence
    number is at most that of the snapshot (or the last one), if that entry is a
    value; with [NotFound] and the caller's string as it was if it is a deletion or
    there is none.  While the mutex is released other threads may add entries with
    later sequence numbers to the memtable, switch it, flush and compact: they only
    have to respect the objects the reader has pinned. *)
Theorem db_get files content st M I db w db0 w0 snapshot q u value :
  others db w = (db0, w0) -> mem_ db0 = Some (is_mem st) -> imm_ db0 = is_imm st ->
  VersionSet.current_ (db_versions_ db0) = Some (is_version st) ->
  sequence_of db0 snapshot = Some q -> 0 <= q <= kMaxSequenceNumber -> blen u + 8 < 2 ^ 32 ->
  Forall entry_ok M -> Forall entry_ok I ->
  can_read cache_Get c files content q st M I db0 w0 -> respects others cache_Get c files content q st M I ->
  overrides c (in_mem M) (fun e => in_mem I e \/ in_tables files content e) -> overrides c (in_mem I) (in_tables files content) ->
  exists r db' w' o, db_Get others cache_Get snapshot u value db w = Some (r, db', w') /\
    newest_at c q u (stored files content M I) o /\ read_result o value r.
Proof.
  intros E0 Em Ei Ec Es Hq Hu HM HI Hr Hresp Ho1 Ho2. unfold db_Get.
  rewrite (db_bind_run (relock others) _ db w tt db0 w0) by (unfold relock; by rewrite E0).
  assert (Hseq : read_sequence snapshot db0 w0 = Some (q, db0, w0)).
  { unfold read_sequence, sequence_of in *. unfold get_db, db_bind, need. cbn [mbind option_bind]. destruct snapshot as [p|].
    - unfold seq_of in Es. destruct (snapshot_at (snapshots_ db0) p); [|done]. cbn in Es |- *. by injection Es as ->.
    - by injection Es as ->. }
  rewrite (db_bind_run _ _ _ _ _ _ _ Hseq).
  destruct (pin_state_ok cache_Get c files content q st M I db0 w0 Hr Em Ei Ec) as (db1 & E1 & H1). rewrite (db_bind_run _ _ _ _ _ _ _ E1).
  destruct (search_ok others cache_Get c files content q Hq u Hu st M I Hresp HM HI db1 w0 value Ho1 Ho2 H1)
    as (s & v & stats & db2 & w2 & o & E2 & H2 & Hn & Hres & Hst).
  rewrite (db_bind_run _ _ _ _ _ _ _ E2).
  destruct (relock_readable others cache_Get c files content q st M I Hresp db2 w2 H2) as (db3 & w3 & E3 & H3).
  rewrite (db_bind_run _ _ _ _ _ _ _ E3). pose proof (readable_pinned cache_Get c files content q st M I db3 w3 H3) as P3.
  assert (exists db4 w4, when_some stats (charge_seek (is_version st)) db3 w3 = Some (tt, db4, w4) /\ pinned c files st db4) as (db4 & w4 & E4 & P4).
  { destruct stats as [x|]; [|by exists db3, w3]. apply (charge_seek_ok c files st db3 w3 x P3). intros f. by apply Hst. }
  rewrite (db_bind_run _ _ _ _ _ _ _ E4). destruct (unpin_state_ok c files st db4 w4 P4) as (db5 & E5).
  rewrite (db_bind_run _ _ _ _ _ _ _ E5). by exists (s, v), db5, w4, o.
Qed.

End DbGet.

(** ** A small read

    The memtable holds two values of a key and, after the snapshot that is read, its
    deletion. *)

#[local] Existing Instance queue_files.
#[local] Existing Instance queue_env.

Definition read_entries : list Entry :=
  [mkEntry 1 kTypeValue (str "k") (str "old"); mkEntry 2 kTypeValue (str "k") (str "new")].
Definition read_later : Entry := mkEntry 3 kTypeDeletion (str "k") [].

Definition read_mem : MemTable :=
  default MemTable_make (add_all BytewiseComparator MemTable_make (read_entries ++ [read_later])).

Definition read_db : DBImpl StringDest :=
  set_snapshots (default SnapshotList_make (snapshot_ops SnapshotList_make [STake 2])) (set_mems {[0%nat := read_mem]} queue_db).

Definition no_tables (w : unit) (num size : Z) (k : bytes) : Status * option entry := (OK, None).

Example read_db_get : option_map (fun r => fst (fst r)) (db_Get nobody no_tables (Some 1%nat) (str "k") [] read_db tt) = Some (OK, str "new").
Proof. vm_compute. reflexivity. Qed.

Lemma read_entries_ok : Forall entry_ok read_entries.
Proof. by repeat constructor. Qed.

Lemma read_mem_holds : exists es, holds BytewiseComparator read_mem es /\ es ≡ₚ read_entries ++ [read_later].
Proof.
  destruct (add_all_holds BytewiseComparator (read_entries ++ [read_later]) MemTable_make []) as (m & es & E & Hh & Hp).
  - apply holds_make.
  - apply Forall_app. split; [exact read_entries_ok|]. by repeat constructor.
  - repeat (constructor; [repeat constructor; intros [_ H]; vm_compute in H; discriminate|]). constructor.
  - intros e e' He. by apply elem_of_nil in He.
  - exists es. unfold read_mem. rewrite E. by split.
Qed.

Definition read_pins : IterState := mkIterState 0 None 0.

Lemma read_db_readable : can_read no_tables BytewiseComparator (replicate 7 []) (fun _ => []) 2 read_pins read_entries [] read_db tt.
Proof.
  destruct (VersionSet_new_ok (F := StringDest) BytewiseComparator (str "db") Options_default) as (vs & E & [Hok Hc _] & _).
  assert (Hvs : db_versions_ read_db = vs) by (change (db_versions_ read_db) with queue_versions; unfold queue_versions; by rewrite E).
  split; rewrite ?Hvs; try done.
  - destruct read_mem_holds as (es & Hh & Hp). exists read_mem, es. split; [done|]. split; [done|]. intros x Hx. rewrite Hp, elem_of_app.
    split; [|by left]. intros [H|H]; [done|]. apply list_elem_of_singleton in H as ->. cbn in Hx. lia.
  - rewrite <- Hvs. eexists. by split; [vm_compute|].
  - split; try (intros; cbn in *; set_solver).
    + by repeat constructor.
    + repeat (constructor; [by split; constructor|]). constructor.
    + constructor.
    + intros i j fs gs f g Hi Hj _ Hf. apply lookup_replicate in Hi as [-> _]. by apply not_elem_of_nil in Hf.
Qed.

Lemma db_get_witness :
  exists r db' w' o, db_Get nobody no_tables (Some 1%nat) (str "k") [] read_db tt = Some (r, db', w') /\
    newest_at BytewiseComparator 2 (str "k") (stored (replicate 7 []) (fun _ => []) read_entries []) o /\ read_result o [] r.
Proof.
  apply (db_get nobody no_tables BytewiseComparator (replicate 7 []) (fun _ => []) read_pins read_entries [] read_db tt read_db tt
    (Some 1%nat) 2 (str "k") []).
  - reflexivity.
  - reflexivity.
  - reflexivity.
  - vm_compute. reflexivity.
  - vm_compute. reflexivity.
  - split; vm_compute; discriminate.
  - vm_compute. reflexivity.
  - exact read_entries_ok.
  - constructor.
  - exact read_db_readable.
  - intros db w H. exact H.
  - intros e e' _ [(x & Hx & _)|(f & Hf & _)]; [by apply not_elem_of_nil in Hx|by apply not_elem_of_nil in Hf].
  - intros e e' (x & Hx & _). by apply not_elem_of_nil in Hx.
Defined.
