(* ===== verification/DbIterSpec.v ===== *)
(** * What a database iterator shows

    [NewIterator] merges iterators over the memtables, the tables of level 0 and the
    levels below, and shows the user's view of their entries at a sequence number. *)

From S2P Require Import Prelude Slice Coding Status Env LogFormat Comparator DbFormat Random Arena SkipList MemTable WriteBatch VersionEdit Filename Format Iterator Options TwoLevel Merger DbIter Version VersionSpec Compaction VersionSet VersionSetSpec VersionLife Snapshot TableFromIter DbState DbWrite DbWriteSpec DbRead DbReadSpec.

(** ** Children with a contract each *)

(** [it] is a new iterator over [l]. *)
Definition fresh_over {I} `{Iterator I} (Tg : bytes -> Prop) (cmp : bytes -> bytes -> Z) (l : list entry) (it : I) : Prop :=
  exists pos : I -> option nat -> Prop, IteratesWithin Tg cmp l pos /\ pos it None.

Lemma fresh_children {I} `{Iterator I} Tg cmp (ls : list (list entry)) (children : list I) :
  Forall2 (fresh_over Tg cmp) ls children ->
  exists pos : nat -> I -> option nat -> Prop,
    (forall c l, ls !! c = Some l -> IteratesWithin Tg cmp l (pos c)) /\
    Forall2 (fun c it => pos c it None) (seq 0 (length ls)) children.
Proof.
  induction 1 as [|l it ls children (p & Hp & Hit) _ (pos & H1 & H2)]; [exists (fun _ _ _ => False); by split|].
  exists (fun c => match c with O => p | S c => pos c end). split.
  - intros [|c] l' Hc; cbn in Hc; [by injection Hc as <-|by apply H1].
  - cbn [length seq]. constructor; [done|]. rewrite <- seq_shift. apply Forall2_fmap_l. exact H2.
Qed.

Lemma fresh_left {I J} `{HI : Iterator I} `{HJ : Iterator J} Tg cmp l (it : I) :
  fresh_over Tg cmp l it -> fresh_over (H := sum_iterator (H := HI) (H0 := HJ)) Tg cmp l (inl it).
Proof. intros (p & Hp & Hit). exists (pos_sum p (fun _ _ => False)). split; [|done]. apply sum_iterates; [done|apply absent_iterates]. Qed.

Lemma fresh_right {I J} `{HI : Iterator I} `{HJ : Iterator J} Tg cmp l (it : J) :
  fresh_over Tg cmp l it -> fresh_over (H := sum_iterator (H := HI) (H0 := HJ)) Tg cmp l (inr it).
Proof. intros (p & Hp & Hit). exists (pos_sum (fun _ _ => False) p). split; [|done]. apply sum_iterates; [apply absent_iterates|done]. Qed.

Lemma fresh_fewer {I} `{Iterator I} (T T' : bytes -> Prop) cmp l (it : I) :
  (forall target, T' target -> T target) -> fresh_over T cmp l it -> fresh_over T' cmp l it.
Proof. intros HT (p & Hp & Hit). exists p. split; [by eapply iterates_fewer|done]. Qed.

(** ** The children of a database *)

Section Children.

Context (c : Comparator) {L : ComparatorLaws c} (meta : nat -> FileMetaData).
Context {D : Type} {HD : Iterator D} (open_table : Z -> Z -> option D).
Context (content : nat -> list entry) (posD : nat -> D -> option nat -> Prop).

Notation icmp := (ikey_Compare c).

#[local] Existing Instance icmp_three_way.

(** The entries of each child. *)
Definition nonempty_levels (files : list (list nat)) : list (list nat) :=
  List.filter (fun fs => match fs with [] => false | _ => true end) (tail files).

Definition version_lists (files : list (list nat)) : list (list entry) :=
  map content (hd [] files) ++ map (fun fs => concat (map content fs)) (nonempty_levels files).

Lemma version_lists_concat files : concat (version_lists files) = concat (map content (concat files)).
Proof.
  unfold version_lists, nonempty_levels. rewrite concat_app. destruct files as [|fs levels]; [done|]. cbn [hd tail concat]. rewrite map_app, concat_app.
  f_equal. induction levels as [|gs levels IH]; [done|]. cbn [List.filter concat map]. rewrite map_app, concat_app.
  destruct gs as [|g gs]; [exact IH|]. cbn [map concat]. by rewrite IH.
Qed.

Lemma level_sorted files :
  (forall f, f ∈ files -> table_ok c meta content f) -> level_ok c meta files ->
  StronglySorted (entry_lt icmp) (concat (map content files)).
Proof.
  intros Hok [_ Hs]. induction files as [|f files IH]; [constructor|]. cbn [map concat]. apply StronglySorted_inv in Hs as [Hs Hf].
  apply StronglySorted_app_2; [|apply (table_sorted c meta content f), Hok; by apply elem_of_cons; left|apply IH; [|done]].
  - intros e e' He He'. apply list_elem_of_In, in_concat in He' as (l & Hl & He'). apply in_map_iff in Hl as (g & <- & Hg).
    rewrite Forall_forall in Hf. pose proof (Hf g ltac:(by apply list_elem_of_In)) as Hfg. unfold follows in Hfg.
    destruct (table_keys c meta content f (Hok f ltac:(by apply elem_of_cons; left)) e He) as (_ & H1 & _).
    destruct (table_keys c meta content g (Hok g ltac:(apply elem_of_cons; right; by apply list_elem_of_In)) e') as (H2 & _ & _); [by apply list_elem_of_In|].
    unfold entry_lt. eapply (cmp_le_lt_trans icmp); [exact H1|]. by eapply (cmp_lt_le_trans icmp).
  - intros g Hg. apply Hok. by apply elem_of_cons; right.
Qed.

Context (files : list (list nat)) (Hv : version_ok c meta content files).
Context (Hopen : Forall (opens c meta open_table content posD) (concat files)).
Context (Hnum : Forall (fun fs => NoDup (map (fun f => number (meta f)) fs)) files).

Lemma level_in (fs : list nat) : fs ∈ tail files -> fs ∈ files.
Proof. clear Hv Hopen Hnum. destruct files; [done|]. intros H. by apply elem_of_cons; right. Qed.

Lemma level_file fs f : fs ∈ files -> f ∈ fs -> f ∈ concat files.
Proof. intros H1 H2. apply list_elem_of_In, in_concat. exists fs. by rewrite <- !list_elem_of_In. Qed.

Lemma version_lists_sorted : Forall (StronglySorted (entry_lt icmp)) (version_lists files).
Proof.
  clear Hopen Hnum. unfold version_lists. apply Forall_app. split; apply Forall_forall; intros l Hl; apply list_elem_of_In, in_map_iff in Hl as (x & <- & Hx).
  - apply (table_sorted c meta content x), (version_tables _ _ _ _ Hv). destruct files; [done|]. apply elem_of_app. left. by apply list_elem_of_In.
  - apply filter_In in Hx as [Hx _]. rewrite <- list_elem_of_In in Hx. apply level_sorted.
    + intros f Hf. apply (version_tables _ _ _ _ Hv). eapply level_file; [by apply level_in|done].
    + pose proof (version_levels _ _ _ _ Hv) as Hl. rewrite Forall_forall in Hl. by apply Hl.
Qed.

Lemma AddIterators_fresh Tg :
  exists its, AddIterators (D := D) c meta open_table files = Some its /\
    Forall2 (fresh_over (H := sum_iterator (H := HD) (H0 := TwoLevel_ops (H := Level_iterator c meta))) Tg icmp) (version_lists files) its.
Proof.
  assert (H0 : exists l0, mapM (fun f => open_table (number (meta f)) (file_size (meta f))) (hd [] files) = Some l0 /\
    Forall2 (fresh_over (H := HD) Tg icmp) (map content (hd [] files)) l0).
  { assert (Hin : forall f, f ∈ hd [] files -> opens c meta open_table content posD f).
    { intros f Hf. rewrite Forall_forall in Hopen. apply Hopen. destruct files; [done|]. apply elem_of_app. by left. }
    induction (hd [] files) as [|f fs IH]; [by exists []|]. destruct IH as (l0 & E & Hl0); [intros g Hg; apply Hin; by apply elem_of_cons; right|].
    destruct (Hin f ltac:(by apply elem_of_cons; left)) as (_ & _ & Hit & d & Ed & Hp). exists (d :: l0). cbn [mapM]. rewrite Ed. cbn [mbind option_bind].
    rewrite E. split; [done|]. cbn [map]. constructor; [|done]. exists (posD f). split; [by apply (iterates_fewer any_target)|done]. }
  destruct H0 as (l0 & E0 & Hl0). unfold AddIterators. rewrite E0. cbn [mbind option_bind]. eexists. split; [done|].
  unfold version_lists. apply Forall2_app.
  - clear -Hl0. induction Hl0; cbn [map]; constructor; [by apply fresh_left|done].
  - fold (nonempty_levels files).
    assert (Hlv : forall fs, fs ∈ nonempty_levels files -> fs ∈ tail files) by (intros fs Hfs; unfold nonempty_levels in Hfs; apply list_elem_of_In, filter_In in Hfs as [Hfs _]; by apply list_elem_of_In).
    induction (nonempty_levels files) as [|fs levels IH]; cbn [map]; constructor; [|apply IH; intros gs Hgs; apply Hlv; by apply elem_of_cons; right].
    specialize (Hlv fs ltac:(by apply elem_of_cons; left)). pose proof (level_in fs Hlv) as Hfs.
    assert (Hl : level_ok c meta fs /\ Z.of_nat (length fs) < 2 ^ 31 /\ NoDup (map (fun f => number (meta f)) fs)).
    { pose proof (version_levels _ _ _ _ Hv) as H1. pose proof (version_small _ _ _ _ Hv) as H2. rewrite Forall_forall in H1, H2, Hnum.
      split; [by apply H1|]. split; [by apply H2|by apply Hnum]. }
    destruct Hl as (Hl1 & Hl2 & Hl3).
    destruct (NewConcatenatingIterator_iterates c meta open_table content posD fs) as (p & Hp & Hit); [|done|done| |done|].
    + intros f Hf. apply (version_tables _ _ _ _ Hv). by eapply level_file.
    + rewrite Forall_forall in Hopen |- *. intros f Hf. apply Hopen. by eapply level_file.
    + apply fresh_right. exists p. split; [by apply (iterates_fewer any_target)|done].
Qed.

End Children.

(** ** [NewIterator] *)

Section NewIterator.

Context {F W S : Type} `{!WritableFile F} `{!SequentialFile S} `{!DescriptorEnv (F := F) W S} `{!DbEnv W}.
Context (others : DBImpl F -> W -> DBImpl F * W).
Context (c : Comparator) {L : ComparatorLaws c}.
Context {D : Type} {HD : Iterator D} (cache_NewIterator : W -> Z -> Z -> option D).
Context (content : nat -> list entry) (posD : nat -> D -> option nat -> Prop).

Notation icmp := (ikey_Compare c).

#[local] Existing Instance icmp_three_way.

(** A state in which a reader can start: its memtables hold [M] and [I], its current
    version has [files], and the table cache opens each of them. *)
Record can_open (db : DBImpl F) (w : W) (M I : list Entry) (files : list (list nat)) : Prop := {
  co_versions : vs_ok c (db_versions_ db) [];
  co_mem : exists p m, mem_ db = Some p /\ mems db !! p = Some m /\ holds c m M;
  co_imm : match imm_ db with Some p => exists m, mems db !! p = Some m /\ holds c m I | None => I = [] end;
  co_current : exists id node, VersionSet.current_ (db_versions_ db) = Some id /\ node_at (db_versions_ db) id = Some node /\
    files_ (version node) = files;
  co_tables : version_ok c (fmeta (store_ (db_versions_ db))) content files;
  co_open : Forall (opens c (fmeta (store_ (db_versions_ db))) (cache_NewIterator w) content posD) (concat files)
}.

(** Pinning changes reference counts only. *)
Lemma pin_state_run (db : DBImpl F) (w : W) pm id node :
  vs_ok c (db_versions_ db) [] -> mem_ db = Some pm -> is_Some (mems db !! pm) ->
  (forall p, imm_ db = Some p -> is_Some (mems db !! p)) ->
  VersionSet.current_ (db_versions_ db) = Some id -> node_at (db_versions_ db) id = Some node ->
  exists db', pin_state db w = Some (mkIterState pm (imm_ db) id, db', w) /\ snapshots_ db' = snapshots_ db /\ seed_ db' = seed_ db /\
    user_cmp (db_versions_ db') = c /\
    (forall p m, mems db !! p = Some m -> exists m', mems db' !! p = Some m' /\ table_ m' = table_ m).
Proof.
  intros Hok Em [m Hm] Hi Ec En. unfold pin_state, get_db. unfold db_bind at 1. cbn [mbind option_bind]. rewrite Em, Ec. unfold need at 1 2.
  unfold db_bind at 1 2. cbn [mbind option_bind].
  assert (Href : forall (db1 : DBImpl F) p, is_Some (mems db1 !! p) -> exists ms, mem_Ref p db1 w = Some (tt, set_mems ms db1, w) /\
    forall p' m', mems db1 !! p' = Some m' -> exists m'', ms !! p' = Some m'' /\ table_ m'' = table_ m').
  { intros db1 p [m1 Hm1]. unfold mem_Ref, mem_at, put_mem, change, get_db, db_bind, need. cbn [mbind option_bind]. rewrite Hm1. cbn [mbind option_bind].
    eexists. split; [done|]. intros p' m' Hp'. destruct (decide (p' = p)) as [->|].
    - rewrite lookup_insert_eq. eexists. split; [done|]. rewrite Hm1 in Hp'. by injection Hp' as <-.
    - rewrite lookup_insert_ne by done. by exists m'. }
  destruct (Href db pm ltac:(by eexists)) as (ms & E1 & H1). erewrite db_bind_run by exact E1.
  assert (exists ms2, when_some (imm_ db) mem_Ref (set_mems ms db) w = Some (tt, set_mems ms2 db, w) /\
    forall p' m', mems db !! p' = Some m' -> exists m'', ms2 !! p' = Some m'' /\ table_ m'' = table_ m') as (ms2 & E2 & H2).
  { destruct (imm_ db) as [p|] eqn:Ei; [|by exists ms]. destruct (Hi p eq_refl) as [mi Hmi]. destruct (H1 p mi Hmi) as (mi' & Hmi' & _).
    destruct (Href (set_mems ms db) p) as (ms2 & E2 & H2); [by exists mi'|]. exists ms2. split; [exact E2|]. intros p' m' Hp'.
    destruct (H1 p' m' Hp') as (m1 & Hm1 & <-). exact (H2 p' m1 Hm1). }
  erewrite db_bind_run by exact E2. unfold change_versions. unfold db_bind at 1. change (db_versions_ (set_mems ms2 db)) with (db_versions_ db).
  destruct (Version_Ref_ok c (db_versions_ db) [] id node Hok En) as (vs & -> & Hok' & _). cbn [mbind option_bind].
  eexists. split; [reflexivity|]. split; [done|]. split; [done|]. split; [exact (ok_cmp _ _ _ Hok')|exact H2].
Qed.

Lemma mem_children m es : holds c m es -> fresh_over (H := MemTable_iterator c) mem_target icmp (map mem_entry es) (mem_NewIterator m).
Proof. intros H. exists (mem_pos c m es). split; [by apply MemTable_iterates|by apply mem_pos_make]. Qed.

Lemma mem_lists_sorted m es : holds c m es -> StronglySorted (entry_lt icmp) (map mem_entry es).
Proof.
  intros H. apply holds_sorted in H. induction es as [|e es IH]; [constructor|]. cbn [map] in *. apply StronglySorted_inv in H as [H Ha].
  constructor; [by apply IH|]. rewrite Forall_forall in Ha. apply Forall_forall. intros x Hx. apply list_elem_of_In, in_map_iff in Hx as (e' & <- & He').
  unfold entry_lt, mem_entry. cbn [fst]. apply Ha. apply list_elem_of_In. by apply in_map.
Qed.

(** All entries of the state. *)
Definition all_stored (M I : list Entry) (files : list (list nat)) : list entry :=
  map mem_entry M ++ map mem_entry I ++ concat (map content (concat files)).

Lemma NewInternalIterator_ok db w db0 w0 M I files all :
  others db w = (db0, w0) -> can_open db0 w0 M I files ->
  StronglySorted (entry_lt icmp) all -> all ≡ₚ all_stored M I files -> Forall (fun e => mem_target (fst e)) all ->
  exists it st db', NewInternalIterator others cache_NewIterator db w = Some (it, st, vs_last_sequence_ (db_versions_ db0), u32 (seed_ db0 + 1), db', w0) /\
    snapshots_ db' = snapshots_ db0 /\ user_cmp (db_versions_ db') = c /\
    fresh_over (H := DbInternal_iterator c (fmeta (store_ (db_versions_ db0)))) mem_target icmp all it.
Proof.
  intros E0 [C1 (pm & m & Em & Hm & Hh) C3 (id & node & Ec & En & Ef) C5 C6] Hsort Hperm Htg. unfold NewInternalIterator.
  rewrite (db_bind_run (relock others) _ db w tt db0 w0) by (unfold relock; by rewrite E0).
  unfold get_db. unfold db_bind at 1. cbn [mbind option_bind]. set (vs := db_versions_ db0) in *.
  destruct (pin_state_run db0 w0 pm id node C1 Em ltac:(by eexists)) as (db1 & E1 & Hsn & Hsd & Hcmp & Htab); [|done|done|].
  { intros p Ep. rewrite Ep in C3. destruct C3 as (mi & ? & _). by eexists. }
  rewrite (db_bind_run _ _ _ _ _ _ _ E1). cbn [is_mem is_imm].
  destruct (Htab pm m Hm) as (m1 & Hm1 & Et1). pose proof (holds_table c m m1 M Et1 Hh) as Hh1.
  rewrite (db_bind_run (mem_at pm) _ db1 w0 m1 db1 w0)
    by (unfold mem_at, get_db, db_bind, need; cbn [mbind option_bind]; by rewrite Hm1).
  assert (Himm : exists imms ls, match imm_ db0 with Some p => db_bind (mem_at p) (fun m => db_ret [m]) | None => db_ret [] end db1 w0 = Some (imms, db1, w0) /\
    Forall2 (fun l (m : MemTable) => exists es, l = map mem_entry es /\ holds c m es) ls imms /\ concat ls = map mem_entry I).
  { destruct (imm_ db0) as [p|].
    - destruct C3 as (mi & Hmi & Hhi). destruct (Htab p mi Hmi) as (mi1 & Hmi1 & Eti). exists [mi1], [map mem_entry I]. split; [|split].
      + unfold mem_at, get_db, db_bind, need, db_ret. cbn [mbind option_bind]. by rewrite Hmi1.
      + constructor; [|constructor]. exists I. split; [done|]. by apply (holds_table c mi).
      + cbn. by rewrite app_nil_r.
    - exists [], []. rewrite C3. split; [done|]. split; [constructor|done]. }
  destruct Himm as (imms & lsi & Ei & Hf2 & Hci). rewrite (db_bind_run _ _ _ _ _ _ _ Ei).
  destruct (AddIterators_fresh c (fmeta (store_ vs)) (cache_NewIterator w0) content posD files C5 C6) with (Tg := mem_target) as (its & Ea & Hits).
  { destruct (node_good c vs [] id node C1 En) as [_ [_ Hg]]. rewrite Ef in Hg. rewrite Forall_forall in Hg |- *. intros fs Hfs.
    destruct (Hg fs Hfs) as [_ Hn]. exact Hn. }
  unfold db_bind at 1. unfold current_version. rewrite Ec. cbn [mbind option_bind]. rewrite En. cbn [mbind option_bind].
  rewrite (ok_cmp _ _ _ C1), Ef, Ea. cbn [mbind option_bind]. unfold change, db_bind at 1. cbn [mbind option_bind].
  set (children := map (fun m => inl (mem_NewIterator m)) (m1 :: imms) ++ map inr its).
  set (ls := (map mem_entry M :: lsi) ++ version_lists content files).
  assert (Hch : Forall2 (fresh_over (H := DbChild_iterator c (fmeta (store_ vs))) mem_target icmp) ls children).
  { unfold ls, children. apply Forall2_app.
    - constructor; [apply fresh_left; by apply mem_children|]. clear -Hf2 L. induction Hf2 as [|l mi lsi imms (es & -> & Hes) _ IH]; cbn [map]; constructor; [|done].
      apply fresh_left. by apply mem_children.
    - clear -Hits. induction Hits; cbn [map]; constructor; [|done]. by apply fresh_right. }
  assert (Hls : Forall (StronglySorted (entry_lt icmp)) ls).
  { unfold ls. apply Forall_app. split; [|by eapply version_lists_sorted].
    constructor; [by eapply mem_lists_sorted|]. clear -Hf2 L. induction Hf2 as [|l mi lsi imms (es & -> & Hes) _ IH]; constructor; [|done]. by eapply mem_lists_sorted. }
  assert (Hp : all ≡ₚ concat ls).
  { rewrite Hperm. unfold all_stored, ls. rewrite concat_app. cbn [concat]. rewrite Hci, version_lists_concat, app_assoc. done. }
  destruct (fresh_children (H := DbChild_iterator c (fmeta (store_ vs))) mem_target icmp ls children Hch) as (pos & Hpos & Hini).
  destruct (NewMergingIterator_iterates (H := DbChild_iterator c (fmeta (store_ vs))) (InternalKeyComparator c) ls all pos mem_target children _ Htg Hsort Hp Hls Hpos Hini) as (pos' & Hit & Hp0).
  eexists _, _, _. split; [rewrite <- Hsd; unfold db_ret; reflexivity|]. split; [done|]. split; [done|]. by exists pos'.
Qed.

Lemma stored_parses db w M I files e : can_open db w M I files -> e ∈ all_stored M I files -> entry_parses e = true.
Proof.
  intros [_ (pm & m & _ & _ & [HM _]) C3 _ C5 _] He. unfold entry_parses. rewrite bool_decide_eq_true.
  assert (HI : Forall entry_ok I) by (destruct (imm_ db); [destruct C3 as (mi & _ & [? _]); done|rewrite C3; constructor]).
  assert (Hmem : forall x, entry_ok x -> is_Some (ParseInternalKey (fst (mem_entry x)))).
  { intros x Hx. unfold mem_entry, MemTable.ikey. cbn [fst]. rewrite ParseInternalKey_Append by apply Hx. by eexists. }
  rewrite Forall_forall in HM, HI. unfold all_stored in He. rewrite !elem_of_app, !list_elem_of_In, !in_map_iff, in_concat in He.
  destruct He as [(x & <- & Hx)|[(x & <- & Hx)|(l & Hl & He)]].
  - apply Hmem, HM. by apply list_elem_of_In.
  - apply Hmem, HI. by apply list_elem_of_In.
  - apply in_map_iff in Hl as (f & <- & Hf). rewrite <- !list_elem_of_In in *.
    by apply (table_keys _ _ _ f (version_tables _ _ _ _ C5 f Hf)).
Qed.

Lemma blen_seek_key q u : blen (seek_key q u) = blen u + 8.
Proof. unfold seek_key, AppendInternalKey, PutFixed64. cbn [app user_key]. by rewrite blen_app, blen_EncodeFixed64. Qed.


End NewIterator.

(** ** A small iterator

    Over the memtable of [read_db], at the snapshot before the deletion. *)

#[local] Existing Instance queue_files.
#[local] Existing Instance queue_env.

Definition no_iterators (w : unit) (num size : Z) : option ListIterator := None.

Definition read_all : list entry := map mem_entry (read_later :: rev read_entries).

Lemma read_db_opens es :
  holds BytewiseComparator read_mem es ->
  can_open BytewiseComparator no_iterators (fun _ => []) (fun _ _ _ => False) read_db tt es [] (replicate 7 []).
Proof.
  intros Hh. pose proof read_db_readable as [R1 _ _ _ (node & En & Ef) R6 _]. split; try done.
  - by exists 0%nat, read_mem.
  - exists 0%nat, node. split; [by vm_compute|]. by split.
Qed.

