(* ===== verification/DbCompact.v ===== *)
(** * Compactions in the background

    [BackgroundCompaction], [BackgroundCall], manual compactions and the destructor
    of [db/db_impl.cc]; [MakeInputIterator] and the life of a [Compaction] in
    [db/version_set.cc].  The table cache is an argument. *)

From S2P Require Import Prelude Slice Coding Status Env LogFormat Comparator DbFormat Random Arena SkipList MemTable WriteBatch VersionEdit Filename Format Iterator Options TwoLevel Merger TableBuilder Version Compaction VersionSet Snapshot TableFromIter DbState DbFlush CompactWork DbWrite.

(** ** [MakeInputIterator] *)

Definition InputChild (D : Type) : Type := D + TwoLevelIterator (LevelFileNumIterator (P := nat)) (EmptyIterator + D).

Definition InputChild_iterator {D} {HD : Iterator D} (c : Comparator) (meta : nat -> FileMetaData) : Iterator (InputChild D) :=
  sum_iterator (H := HD)
    (H0 := TwoLevel_ops (H := Level_iterator c meta) (H0 := sum_iterator (H := EmptyIterator_ops) (H0 := HD))).

Definition InputIterator (D : Type) : Type := EmptyIterator + (InputChild D + MergingIterator (InputChild D)).

Definition InputIterator_ops {D} {HD : Iterator D} (c : Comparator) (meta : nat -> FileMetaData) : Iterator (InputIterator D) :=
  sum_iterator (H := EmptyIterator_ops)
    (H0 := sum_iterator (H := InputChild_iterator c meta) (H0 := Merging_ops (H := InputChild_iterator c meta))).

Section MakeInput.

Context {D : Type} {HD : Iterator D} (open_table : Z -> Z -> option D) (c : Comparator) (meta : nat -> FileMetaData).

(** The iterators over the inputs at [level]. *)
Definition input_children (level : Z) (files : list nat) : option (list (InputChild D)) :=
  match files with
  | [] => Some []
  | _ =>
      if level =? 0
      then l ← mapM (fun f => open_table (number (meta f)) (file_size (meta f))) files; Some (map inl l)
      else Some [inr (NewConcatenatingIterator c meta open_table files)]
  end.

Definition MakeInputIterator (comp : Compaction nat) : option (InputIterator D) :=
  let space := if level_ comp =? 0 then Z.of_nat (length (inputs_0 comp)) + 1 else 2 in
  l0 ← input_children (level_ comp) (inputs_0 comp);
  l1 ← input_children (level_ comp + 1) (inputs_1 comp);
  if space <? Z.of_nat (length (l0 ++ l1)) then None
  else Some (NewMergingIterator (H := InputChild_iterator c meta) (InternalKeyComparator c) (l0 ++ l1)).

End MakeInput.

(** ** The compaction of a version set *)

Section Pick.

Context {F : Type}.

Implicit Types vs : VersionSet F.

(** A compaction comes with the version it has a reference to. *)
Definition hold_version (oc : option (Compaction nat)) (ptrs : list bytes) (id : nat) vs
  : option (option (Compaction nat * nat) * VersionSet F) :=
  match oc with
  | Some comp => vs ← Version_Ref vs id; Some (Some (comp, id), set_pointers vs ptrs)
  | None => Some (None, vs)
  end.

Definition vs_PickCompaction vs : option (option (Compaction nat * nat) * VersionSet F) :=
  id ← VersionSet.current_ vs;
  v ← current_version vs;
  '(oc, ptrs) ← PickCompaction (options_ vs) (user_cmp vs) (fmeta (store_ vs)) v (compact_pointer_ vs);
  hold_version oc ptrs id vs.

Definition vs_CompactRange vs (level : Z) (begin end_ : option InternalKey) : option (option (Compaction nat * nat) * VersionSet F) :=
  id ← VersionSet.current_ vs;
  v ← current_version vs;
  '(oc, ptrs) ← CompactRange (options_ vs) (user_cmp vs) (fmeta (store_ vs)) v (compact_pointer_ vs) level begin end_;
  hold_version oc ptrs id vs.

(** [ReleaseInputs], and what [~Compaction] does when it was not called. *)
Definition ReleaseInputs (input_version : nat) vs : option (VersionSet F) := Version_Unref vs input_version.

(** [~VersionSet]: the list must be empty once the current version is dropped. *)
Definition VersionSet_delete vs : option (VersionSet F) :=
  id ← VersionSet.current_ vs;
  vs ← Version_Unref vs id;
  match versions_ vs with [] => Some vs | _ => None end.

End Pick.

Section DbCompact.

Context {F W S : Type} `{!WritableFile F} `{!SequentialFile S} `{!DescriptorEnv (F := F) W S} `{!DbEnv W}.
Context (others : DBImpl F -> W -> DBImpl F * W).
Context (snappy zstd : Codec) (addr : Z).
Context {D : Type} {HD : Iterator D} (cache_NewIterator : W -> Z -> Z -> option D).

#[local] Open Scope db_scope.

(** ** [BackgroundCompaction] *)

Definition manual (p : nat) : DbM F W ManualCompaction := let! db := get_db in need (manuals db !! p).
Definition put_manual (p : nat) (m : ManualCompaction) : DbM F W () := change (fun db => set_manuals (<[p := m]> (manuals db)) db).

(** The compaction to run, and where a manual one ends. *)
Definition choose_compaction (manual_p : option nat) : DbM F W (option (Compaction nat * nat) * InternalKey) :=
  match manual_p with
  | Some p =>
      let! m := manual p in
      let! oc := with_versions (fun vs => vs_CompactRange vs (m_level m) (m_begin m) (m_end m)) in
      put_manual p (mkManual (m_level m) (match oc with None => true | Some _ => false end) (m_begin m) (m_end m));;
      match oc with
      | Some (comp, _) =>
          let! f := need (last (inputs_0 comp)) in
          let! db := get_db in
          db_ret (oc, largest (fmeta (store_ (db_versions_ db)) f))
      | None => db_ret (oc, mkInternalKey [])
      end
  | None => let! oc := with_versions vs_PickCompaction in db_ret (oc, mkInternalKey [])
  end.

Definition trivial_move (comp : Compaction nat) : DbM F W Status :=
  match inputs_0 comp with
  | [p] =>
      let! db := get_db in
      let f := fmeta (store_ (db_versions_ db)) p in
      let edit := AddFile (level_ comp + 1) (number f) (file_size f) (smallest f) (largest f)
                    (RemoveFile (level_ comp) (number f) (edit_ comp)) in
      let! '(s, _) := log_and_apply others addr edit in
      when (negb (ok s)) (RecordBackgroundError s);;
      db_ret s
  | _ => need None
  end.

Definition run_background (fuel : nat) (comp : Compaction nat) (input_version : nat) : DbM F W Status :=
  let! db := get_db in
  let c := user_cmp (db_versions_ db) in
  let meta := fmeta (store_ (db_versions_ db)) in
  let! '(s, cs) :=
    DoCompactionWork (Iterator0 := InputIterator_ops c meta) others snappy zstd addr fuel
      (fun w => MakeInputIterator (cache_NewIterator w) c meta comp) (CompactionState_make comp) in
  when (negb (ok s)) (RecordBackgroundError s);;
  CleanupCompaction cs;;
  change_versions (ReleaseInputs input_version);;
  RemoveObsoleteFiles others;;
  db_ret s.

(** The end of a manual compaction step: what is left of its range, or done. *)
Definition finish_manual (s : Status) (manual_end : InternalKey) : DbM F W () :=
  let! db := get_db in
  let! p := need (manual_compaction_ db) in
  let! m := manual p in
  let done := m_done m || negb (ok s) in
  put_manual p (mkManual (m_level m) done (if done then m_begin m else Some manual_end) (m_end m));;
  change (set_manual_compaction None).

Definition BackgroundCompaction (fuel : nat) : DbM F W () :=
  let! db := get_db in
  match imm_ db with
  | Some _ => CompactMemTable others snappy zstd addr
  | None =>
      let manual_p := manual_compaction_ db in
      let! '(oc, manual_end) := choose_compaction manual_p in
      let! db := get_db in
      let vs := db_versions_ db in
      let! s := match oc with
                | None => db_ret OK
                | Some (comp, v) =>
                    if bool_decide (manual_p = None) && IsTrivialMove (options_ vs) (fmeta (store_ vs)) comp then
                      let! s := trivial_move comp in
                      change_versions (ReleaseInputs v);;
                      db_ret s
                    else run_background fuel comp v
                end in
      match manual_p with Some _ => finish_manual s manual_end | None => db_ret tt end
  end.

(** [BGWork] calls this from the background thread. *)
Definition BackgroundCall (fuel : nat) : DbM F W () :=
  relock others;;
  let! db := get_db in
  assert (background_compaction_scheduled_ db);;
  (if shutting_down_ db then db_ret tt
   else if negb (ok (bg_error_ db)) then db_ret tt
   else BackgroundCompaction fuel);;
  change (set_background_compaction_scheduled false);;
  MaybeScheduleCompaction.

(** ** Waiting *)

(** [while (cond) background_work_finished_signal_.Wait()]; [fuel] bounds the turns. *)
Fixpoint wait_while (fuel : nat) (cond : DBImpl F -> bool) : DbM F W () :=
  match fuel with
  | O => need None
  | Datatypes.S fuel =>
      let! db := get_db in
      if cond db then relock others;; wait_while fuel cond else db_ret tt
  end.

(** ** Manual compactions *)

Fixpoint manual_loop (fuel : nat) (self : nat) : DbM F W () :=
  match fuel with
  | O => need None
  | Datatypes.S fuel =>
      let! m := manual self in
      let! db := get_db in
      if m_done m || shutting_down_ db || negb (ok (bg_error_ db)) then db_ret tt
      else
        match manual_compaction_ db with
        | None => change (set_manual_compaction (Some self));; MaybeScheduleCompaction;; manual_loop fuel self
        | Some _ => relock others;; manual_loop fuel self
        end
  end.

(** [self] is the address of the local [ManualCompaction]. *)
Definition TEST_CompactRange (fuel self : nat) (level : Z) (begin end_ : option bytes) : DbM F W () :=
  assert (0 <=? level);;
  assert (level + 1 <? kNumLevels);;
  let b := (fun k => InternalKey_make k kMaxSequenceNumber kValueTypeForSeek) <$> begin in
  let e := (fun k => InternalKey_make k 0 kTypeDeletion) <$> end_ in
  relock others;;
  put_manual self (mkManual level false b e);;
  manual_loop fuel self;;
  wait_while fuel background_compaction_scheduled_;;
  let! db := get_db in
  when (bool_decide (manual_compaction_ db = Some self)) (change (set_manual_compaction None)).

Definition TEST_CompactMemTable (fuel self : nat) : DbM F W Status :=
  let! s := Write others addr fuel self false None in
  if ok s then
    relock others;;
    wait_while fuel (fun db => negb (bool_decide (imm_ db = None)) && ok (bg_error_ db));;
    let! db := get_db in
    db_ret (match imm_ db with Some _ => bg_error_ db | None => s end)
  else db_ret s.

(** The last level above 0 with files in the range, at least 1. *)
Fixpoint last_overlapping (c : Comparator) (meta : nat -> FileMetaData) (files_ : list (list nat)) (begin end_ : option bytes)
    (levels : list Z) (result : Z) : option Z :=
  match levels with
  | [] => Some result
  | level :: levels =>
      b ← OverlapInLevel c meta files_ level begin end_;
      last_overlapping c meta files_ begin end_ levels (if b : bool then level else result)
  end.

Fixpoint compact_levels (fuel self : nat) (levels : list Z) (begin end_ : option bytes) : DbM F W () :=
  match levels with
  | [] => db_ret tt
  | level :: levels => TEST_CompactRange fuel self level begin end_;; compact_levels fuel self levels begin end_
  end.

Definition db_CompactRange (fuel self : nat) (begin end_ : option bytes) : DbM F W () :=
  relock others;;
  let! db := get_db in
  let vs := db_versions_ db in
  let! v := need (current_version vs) in
  let! max_level_with_files :=
    need (last_overlapping (user_cmp vs) (fmeta (store_ vs)) (files_ v) begin end_ (map Z.of_nat (seq 1 (Z.to_nat kNumLevels - 1))) 1) in
  let! _ := TEST_CompactMemTable fuel self in
  compact_levels fuel self (map Z.of_nat (seq 0 (Z.to_nat max_level_with_files))) begin end_.

(** ** The destructor *)

Definition DBImpl_delete (fuel : nat) : DbM F W () :=
  relock others;;
  change (set_shutting_down true);;
  wait_while fuel background_compaction_scheduled_;;
  let! db := get_db in
  when (db_lock_ db) (let! _ := with_env env_UnlockFile in db_ret tt);;
  change_versions VersionSet_delete;;
  when_some (mem_ db) mem_Unref;;
  when_some (imm_ db) mem_Unref;;
  change (DbState.set_log None).

End DbCompact.
