(* ===== verification/DbCompactSpec.v ===== *)
(** * Compactions: their input and their scheduling

    [MakeInputIterator] goes through the entries of all input files in order, and no
    operation of the database leaves compaction work behind without a background
    call scheduled for it. *)

From S2P Require Import Prelude Slice Coding Status Env LogFormat Comparator DbFormat Random Arena SkipList MemTable WriteBatch VersionEdit Filename Format Iterator Options TwoLevel Merger TableBuilder Version VersionSpec Compaction VersionSet VersionSetSpec VersionLife Snapshot TableFromIter DbState DbFlush CompactWork DbWrite DbWriteSpec DbRead DbReadSpec DbIterSpec DbCompact.

(** ** The input of a compaction *)

Section Input.

Context (c : Comparator) {L : ComparatorLaws c} (meta : nat -> FileMetaData).
Context {D : Type} {HD : Iterator D} (open_table : Z -> Z -> option D).
Context (content : nat -> list entry) (posD : nat -> D -> option nat -> Prop).

Notation icmp := (ikey_Compare c).

#[local] Existing Instance icmp_three_way.

(** Input files of one level: tables the cache can open, in order when they lie above
    level 0. *)
Record inputs_ok (level : Z) (files : list nat) : Prop := {
  in_tables_ok f : f ∈ files -> table_ok c meta content f;
  in_opens : Forall (opens c meta open_table content posD) files;
  in_level : 0 < level -> level_ok c meta files /\ Z.of_nat (length files) < 2 ^ 31 /\ NoDup (map (fun f => number (meta f)) files)
}.

Definition input_lists (level : Z) (files : list nat) : list (list entry) :=
  match files with
  | [] => []
  | _ => if level =? 0 then map content files else [concat (map content files)]
  end.

Lemma input_lists_concat level files : concat (input_lists level files) = concat (map content files).
Proof. unfold input_lists. destruct files; [done|]. destruct (level =? 0); [done|]. cbn. by rewrite app_nil_r. Qed.

Lemma input_lists_sorted level files :
  0 <= level -> inputs_ok level files -> Forall (StronglySorted (entry_lt icmp)) (input_lists level files).
Proof.
  intros H0 [Ht Ho Hl]. unfold input_lists. destruct files as [|f fs]; [constructor|]. destruct (Z.eqb_spec level 0) as [->|Hne].
  - apply Forall_forall. intros l Hx. apply list_elem_of_In, in_map_iff in Hx as (g & <- & Hg). apply (table_sorted c meta content g), Ht.
    by apply list_elem_of_In.
  - constructor; [|constructor]. apply (level_sorted c meta); [exact Ht|]. apply Hl. lia.
Qed.

Lemma input_children_ok level files :
  0 <= level -> inputs_ok level files ->
  exists its, input_children open_table c meta level files = Some its /\ length its = length (input_lists level files) /\
    Forall2 (fresh_over (H := InputChild_iterator c meta) any_target icmp) (input_lists level files) its.
Proof.
  intros H0 [Ht Ho Hl]. unfold input_children, input_lists. destruct files as [|f fs]; [by exists []|]. set (files := f :: fs) in *.
  destruct (Z.eqb_spec level 0) as [->|Hne].
  - assert (Hm : exists l, mapM (fun f => open_table (number (meta f)) (file_size (meta f))) files = Some l /\
      Forall2 (fresh_over (H := HD) any_target icmp) (map content files) l).
    { clear -Ho. induction Ho as [|g gs (_ & _ & Hit & d & Ed & Hp) _ (l & E & Hl)]; [by exists []|]. exists (d :: l). cbn [mapM]. rewrite Ed.
      cbn [mbind option_bind]. rewrite E. split; [done|]. cbn [map]. constructor; [by exists (posD g)|done]. }
    destruct Hm as (l & E & Hl2). rewrite E. cbn [mbind option_bind]. exists (map inl l). split; [done|].
    rewrite !length_map. split; [apply Forall2_length in Hl2; by rewrite length_map in Hl2|].
    clear -Hl2. induction Hl2; cbn [map]; constructor; [by apply fresh_left|done].
  - eexists. split; [done|]. split; [done|]. constructor; [|constructor]. apply fresh_right.
    destruct (Hl ltac:(lia)) as (Hl1 & Hl2 & Hl3). by apply (NewConcatenatingIterator_iterates c meta open_table content posD).
Qed.

(** C22: the input iterator of a compaction is made without failing its assertion, and
    behaves under any sequence of moves as a cursor over the sorted list of the
    entries of all input files of both levels: one child for each file of level 0,
    one concatenating child for the files of another level. *)
Theorem compaction_input comp all ms p :
  0 <= level_ comp -> inputs_ok (level_ comp) (inputs_0 comp) -> inputs_ok (level_ comp + 1) (inputs_1 comp) ->
  StronglySorted (entry_lt icmp) all -> all ≡ₚ concat (map content (inputs_0 comp ++ inputs_1 comp)) ->
  moves_cursor icmp all None ms = Some p ->
  exists it it', MakeInputIterator open_table c meta comp = Some it /\
    moves_iter (H := InputIterator_ops c meta) it ms = Some it' /\ shows (H := InputIterator_ops c meta) it' (p ≫= (all !!.)).
Proof.
  intros H0 Hi0 Hi1 Hsort Hperm Hms. unfold MakeInputIterator.
  destruct (input_children_ok _ _ H0 Hi0) as (l0 & -> & Hn0 & Hf0). destruct (input_children_ok (level_ comp + 1) (inputs_1 comp) ltac:(lia) Hi1) as (l1 & -> & Hn1 & Hf1).
  cbn [mbind option_bind].
  assert (Hspace : ((if level_ comp =? 0 then Z.of_nat (length (inputs_0 comp)) + 1 else 2) <? Z.of_nat (length (l0 ++ l1))) = false).
  { apply Z.ltb_ge. rewrite length_app, Hn0, Hn1. unfold input_lists. replace (level_ comp + 1 =? 0) with false by lia.
    destruct (inputs_0 comp), (inputs_1 comp); destruct (level_ comp =? 0); rewrite ?length_map; cbn [length]; lia. }
  rewrite Hspace. set (ls := input_lists (level_ comp) (inputs_0 comp) ++ input_lists (level_ comp + 1) (inputs_1 comp)).
  destruct (fresh_children (H := InputChild_iterator c meta) any_target icmp ls (l0 ++ l1)) as (pos & Hpos & Hini); [by apply Forall2_app|].
  destruct (NewMergingIterator_iterates (H := InputChild_iterator c meta) (InternalKeyComparator c) ls all pos any_target (l0 ++ l1) _
    (proj2 (Forall_forall _ _) (fun _ _ => Logic.I)) Hsort) as (pos' & Hit & Hp0).
  - rewrite Hperm, map_app, concat_app. unfold ls. by rewrite concat_app, !input_lists_concat.
  - unfold ls. apply Forall_app. split; apply input_lists_sorted; try done. lia.
  - exact Hpos.
  - exact Hini.
  - destruct (moves_show (H := InputIterator_ops c meta) (pos := pos') _ None ms p Hp0 Hms) as (it' & E & Hs). eauto.
Qed.

End Input.

(** Compacting files 1 and 2 of level 0 with file 3 of level 1. *)
Definition ex_compaction : Compaction nat :=
  Compaction.set_inputs (Compaction_new Options_default 0 ex_files) [1; 2]%nat [3]%nat [] VersionEdit_Clear.

Definition ex_all : list entry :=
  [(ex_key "a" 5 kTypeValue, str "a5"); (ex_key "b" 8 kTypeDeletion, []); (ex_key "b" 3 kTypeValue, str "b3"); (ex_key "c" 9 kTypeValue, str "c9");
   (ex_key "c" 7 kTypeValue, str "c7"); (ex_key "c" 6 kTypeValue, str "c6"); (ex_key "d" 4 kTypeValue, str "d4")].

Lemma compaction_input_witness :
  exists it it', MakeInputIterator ex_open BytewiseComparator ex_meta ex_compaction = Some it /\
    moves_iter (H := InputIterator_ops BytewiseComparator ex_meta) it [ToFirst; Forth; Forth; Back; Forth; Forth] = Some it' /\
    shows (H := InputIterator_ops BytewiseComparator ex_meta) it' (Some (ex_key "c" 9 kTypeValue, str "c9")).
Proof.
  assert (Hop : forall f, (1 <= f <= 3)%nat -> opens BytewiseComparator ex_meta ex_open ex_content
    (fun f => li_at (InternalKeyComparator BytewiseComparator) (ex_content f)) f).
  { intros f Hf. destruct f as [|[|[|[|f]]]]; try lia;
      (split; [vm_compute; split; congruence|]; split; [vm_compute; split; congruence|];
       split; [exact (ListIterator_iterates (InternalKeyComparator BytewiseComparator) _)|];
       eexists; split; [reflexivity|]; split; [reflexivity|]; intros ? [=]). }
  apply (compaction_input BytewiseComparator ex_meta ex_open ex_content
    (fun f => li_at (InternalKeyComparator BytewiseComparator) (ex_content f)) ex_compaction ex_all
    [ToFirst; Forth; Forth; Back; Forth; Forth] (Some 3%nat)).
  - vm_compute. discriminate.
  - split.
    + intros f Hf. apply ex_tables. apply list_elem_of_In in Hf. apply list_elem_of_In. cbn in *. tauto.
    + apply Forall_cons. split; [apply Hop; lia|]. apply Forall_cons. split; [apply Hop; lia|]. by apply Forall_nil.
    + cbn. lia.
  - split.
    + intros f Hf. apply ex_tables. apply list_elem_of_In in Hf. apply list_elem_of_In. cbn in *. tauto.
    + apply Forall_cons. split; [apply Hop; lia|]. by apply Forall_nil.
    + intros _. split; [split; [repeat constructor; vm_compute; discriminate|repeat constructor]|]. split; [cbn; lia|]. apply NoDup_singleton.
  - repeat constructor.
  - apply (bool_decide_unpack _). vm_compute. reflexivity.
  - vm_compute. reflexivity.
Defined.

(** ** No work is left behind *)

Section Scheduling.

Context {F W S : Type} `{!WritableFile F} `{!SequentialFile S} `{!DescriptorEnv (F := F) W S} `{!DbEnv W}.
Context (others : DBImpl F -> W -> DBImpl F * W).

Implicit Types db : DBImpl F.

Definition idle_versions (vs : VersionSet F) : Prop := forall v, current_version vs = Some v -> NeedsCompaction v = false.

(** A background call is scheduled, or none is wanted: because the database is being
    closed, an error has stopped it, or there is nothing to compact. *)
Definition settled db : Prop :=
  background_compaction_scheduled_ db = true \/ shutting_down_ db = true \/ ok (bg_error_ db) = false \/
  imm_ db = None /\ manual_compaction_ db = None /\ idle_versions (db_versions_ db).

Definition keeps_settled {A} (m : DbM F W A) : Prop := forall db w a db' w', settled db -> m db w = Some (a, db', w') -> settled db'.
Definition leaves_settled {A} (m : DbM F W A) : Prop := forall db w a db' w', m db w = Some (a, db', w') -> settled db'.

Lemma leaves_keeps {A} (m : DbM F W A) : leaves_settled m -> keeps_settled m.
Proof. intros H db w a db' w' _. apply H. Qed.

Lemma settled_bind {A B} (m : DbM F W A) (k : A -> DbM F W B) :
  keeps_settled m -> (forall a, keeps_settled (k a)) -> keeps_settled (db_bind m k).
Proof. intros Hm Hk db w b db' w' Hs H. apply db_bind_inv in H as (a & db1 & w1 & H1 & H2). eapply Hk; [|exact H2]. by eapply Hm. Qed.

Lemma leaves_bind {A B} (m : DbM F W A) (k : A -> DbM F W B) : (forall a, leaves_settled (k a)) -> leaves_settled (db_bind m k).
Proof. intros Hk db w b db' w' H. apply db_bind_inv in H as (a & db1 & w1 & _ & H2). by eapply Hk. Qed.

Lemma leaves_then {A B} (m : DbM F W A) (k : A -> DbM F W B) :
  leaves_settled m -> (forall a, keeps_settled (k a)) -> leaves_settled (db_bind m k).
Proof. intros Hm Hk db w b db' w' H. apply db_bind_inv in H as (a & db1 & w1 & H1 & H2). eapply Hk; [|exact H2]. by eapply Hm. Qed.

Lemma settled_ret {A} (a : A) : keeps_settled (db_ret a).
Proof. intros db w a' db' w' Hs [= _ <- _]. done. Qed.

Lemma settled_get : keeps_settled get_db.
Proof. intros db w a' db' w' Hs [= _ <- _]. done. Qed.

Lemma settled_need {A} (o : option A) : keeps_settled (need o).
Proof. intros db w a db' w' Hs H. unfold need in H. destruct o; [|done]. by injection H as _ <- _. Qed.

Lemma settled_assert b : keeps_settled (assert b).
Proof. intros db w a db' w' Hs H. unfold assert in H. destruct b; [|done]. by injection H as _ <- _. Qed.

Lemma settled_env {A} (f : W -> A * W) : keeps_settled (with_env f).
Proof. intros db w a db' w' Hs H. unfold with_env in H. destruct (f w). by injection H as _ <- _. Qed.

(** Changes to anything else. *)
Lemma settled_change f :
  (forall db, background_compaction_scheduled_ (f db) = background_compaction_scheduled_ db /\ shutting_down_ (f db) = shutting_down_ db /\
     bg_error_ (f db) = bg_error_ db /\ imm_ (f db) = imm_ db /\ manual_compaction_ (f db) = manual_compaction_ db /\
     db_versions_ (f db) = db_versions_ db) -> keeps_settled (change f).
Proof. intros Hf db w a db' w' Hs [= _ <- _]. destruct (Hf db) as (E1 & E2 & E3 & E4 & E5 & E6). unfold settled. by rewrite E1, E2, E3, E4, E5, E6. Qed.

Lemma settled_versions {A} (f : VersionSet F -> option (A * VersionSet F)) :
  (forall vs a vs', f vs = Some (a, vs') -> idle_versions vs -> idle_versions vs') -> keeps_settled (with_versions f).
Proof.
  intros Hf db w a db' w' Hs H. unfold with_versions in H. destruct (f (db_versions_ db)) as [[x vs]|] eqn:E; [|done]. injection H as _ <- _.
  destruct Hs as [?|[?|[?|(? & ? & Hi)]]]; [by left|by right; left|by right; right; left|]. right. right. right. split; [done|]. split; [done|]. by eapply Hf.
Qed.

Lemma settled_change_versions (f : VersionSet F -> option (VersionSet F)) :
  (forall vs vs', f vs = Some vs' -> idle_versions vs -> idle_versions vs') -> keeps_settled (change_versions f).
Proof.
  intros Hf db w a db' w' Hs H. unfold change_versions in H. destruct (f (db_versions_ db)) as [vs|] eqn:E; [|done]. injection H as _ <- _.
  destruct Hs as [?|[?|[?|(? & ? & Hi)]]]; [by left|by right; left|by right; right; left|]. right. right. right. split; [done|]. split; [done|]. by eapply Hf.
Qed.

(** *** The version set *)

Lemma idle_numbers (vs : VersionSet F) n m q l p : idle_versions vs -> idle_versions (set_numbers vs n m q l p).
Proof. done. Qed.

Lemma current_put_node (vs : VersionSet F) id node node' v :
  node_at vs id = Some node -> current_version (put_node vs id node') = Some v ->
  current_version vs = Some v \/ (VersionSet.current_ vs = Some id /\ v = version node').
Proof.
  intros Hn. unfold current_version. change (VersionSet.current_ (put_node vs id node')) with (VersionSet.current_ vs).
  destruct (VersionSet.current_ vs) as [cid|]; [|done]. cbn [mbind option_bind]. rewrite put_node_at by (by exists node).
  destruct (decide (cid = id)) as [->|]; [|by left]. cbn [mbind option_bind]. intros [= <-]. by right.
Qed.

Lemma idle_put_node (vs : VersionSet F) id node node' :
  node_at vs id = Some node -> NeedsCompaction (version node') = NeedsCompaction (version node) -> idle_versions vs -> idle_versions (put_node vs id node').
Proof.
  intros Hn Hv Hi v Hc. destruct (current_put_node vs id node node' v Hn Hc) as [H|[H ->]]; [by apply Hi|]. rewrite Hv. apply Hi.
  unfold current_version. rewrite H. cbn [mbind option_bind]. by rewrite Hn.
Qed.

Lemma idle_Ref (vs vs' : VersionSet F) id : Version_Ref vs id = Some vs' -> idle_versions vs -> idle_versions vs'.
Proof. unfold Version_Ref. destruct (node_at vs id) as [node|] eqn:E; [|done]. intros [= <-]. by apply (idle_put_node vs id node). Qed.

Lemma idle_Unref (vs vs' : VersionSet F) id : Version_Unref vs id = Some vs' -> idle_versions vs -> idle_versions vs'.
Proof.
  unfold Version_Unref. destruct (node_at vs id) as [node|] eqn:E; [|done]. cbn [mbind option_bind]. destruct (negb _); [done|]. cbv zeta.
  destruct (_ =? 0); [|intros [= <-]; by apply (idle_put_node vs id node)].
  unfold Version_delete. destruct (release_files _ _) as [st|]; [|done]. intros [= <-] Hi v Hc. apply Hi. revert Hc. unfold current_version.
  change (VersionSet.current_ (set_store _ st)) with (VersionSet.current_ vs). destruct (VersionSet.current_ vs) as [cid|]; [|done]. cbn [mbind option_bind].
  destruct (decide (cid = id)) as [->|Hne].
  - intros H. exfalso. revert H. unfold node_at. cbn [versions_ set_store set_versions].
    destruct (List.find _ _) as [[i n]|] eqn:Ef; [|done]. apply List.find_some in Ef as [H1 H2]. apply filter_In in H1 as [_ H1]. cbn [fst] in *.
    rewrite H2 in H1. done.
  - change (node_at (set_store (set_versions vs (List.filter (fun x => negb (fst x =? id)%nat) (versions_ vs))) st) cid)
      with (node_at (set_versions vs (without id (versions_ vs))) cid). by rewrite without_at.
Qed.

(** Charging a seek makes work only when it says so. *)
Lemma idle_UpdateStats (vs vs' : VersionSet F) id stats : UpdateStats vs id stats = Some (false, vs') -> idle_versions vs -> idle_versions vs'.
Proof.
  unfold UpdateStats. destruct (seek_file stats) as [p|]; [|by intros [= <-]]. destruct (node_at vs id) as [node|]; [|done]. cbn [mbind option_bind].
  destruct (file_at (store_ vs) p) as [f|]; [|done]. cbn [mbind option_bind]. cbv zeta. destruct (file_to_compact_ (version node)); [by intros [= <-]|].
  destruct (_ <=? 0); [done|]. by intros [= <-].
Qed.

(** *** Operations *)

Context (Hothers : forall db w, settled db -> settled (fst (others db w))).
Context (snappy zstd : Codec) (addr : Z).
Context (cache_Get : W -> Z -> Z -> bytes -> Status * option entry).
Context {D : Type} {HD : Iterator D} (cache_NewIterator : W -> Z -> Z -> option D).

Lemma settled_relock : keeps_settled (relock others).
Proof. intros db w a db' w' Hs H. unfold relock in H. pose proof (Hothers db w Hs) as Ho. destruct (others db w). by injection H as _ <- _. Qed.

Lemma MaybeSchedule_settles : leaves_settled (MaybeScheduleCompaction (F := F) (W := W)).
Proof.
  intros db w a db' w' H. unfold MaybeScheduleCompaction in H. apply db_bind_inv in H as (d & db0 & w0 & [= -> -> ->] & H).
  destruct (background_compaction_scheduled_ db0) eqn:E1; [injection H as _ <- _; by left|].
  destruct (shutting_down_ db0) eqn:E2; [injection H as _ <- _; by right; left|].
  destruct (ok (bg_error_ db0)) eqn:E3; cbn [negb] in H; [|injection H as _ <- _; by right; right; left].
  unfold need in H. unfold db_bind at 1 in H. destruct (current_version (db_versions_ db0)) as [v|] eqn:Ev; [|done]. cbn [mbind option_bind] in H.
  destruct (bool_decide_reflect (imm_ db0 = None)) as [H1|]; [|injection H as _ <- _; by left].
  destruct (bool_decide_reflect (manual_compaction_ db0 = None)) as [H2|]; [|injection H as _ <- _; by left].
  destruct (NeedsCompaction v) eqn:En; cbn [andb negb] in H; [injection H as _ <- _; by left|]. injection H as _ <- _.
  right. right. right. split; [done|]. split; [done|]. intros v'. rewrite Ev. by intros [= <-].
Qed.

Lemma settled_MaybeSchedule : keeps_settled (MaybeScheduleCompaction (F := F) (W := W)).
Proof. apply leaves_keeps, MaybeSchedule_settles. Qed.

Lemma settled_RecordBackgroundError s : keeps_settled (RecordBackgroundError (F := F) (W := W) s).
Proof.
  intros db w a db' w' Hs H. unfold RecordBackgroundError, get_db in H. unfold db_bind at 1 in H. cbn [mbind option_bind] in H.
  destruct (ok (bg_error_ db)) eqn:E; [|by injection H as _ <- _]. injection H as _ <- _.
  destruct Hs as [?|[?|[?|?]]]; [by left|by right; left|congruence|]. by right; right; right.
Qed.

Lemma settled_fun {A} (f : DBImpl F -> W -> option A) : keeps_settled (fun db w => a ← f db w; Some (a, db, w)).
Proof. intros db w a db' w' Hs H. destruct (f db w); [|done]. by injection H as _ <- _. Qed.

#[local] Ltac settle_step :=
  first
    [ apply settled_ret | apply settled_get | apply settled_need | apply settled_assert | apply settled_env | apply settled_relock
    | apply settled_MaybeSchedule | apply settled_RecordBackgroundError | apply settled_fun
    | apply settled_bind; [|intros ?]
    | apply settled_change; intros ?; by split_and!
    | match goal with
      | |- keeps_settled (if ?b then _ else _) => destruct b
      | |- keeps_settled (match ?x with _ => _ end) => destruct x
      | |- keeps_settled (when ?b _) => unfold when; destruct b
      | |- keeps_settled (when_some ?o _) => destruct o; cbn [when_some]
      | |- keeps_settled (let _ := _ in _) => cbv zeta
      end ].
#[local] Ltac settle_with t := repeat first [t | settle_step].
#[local] Ltac settle := repeat settle_step.

Lemma settled_mem_Ref p : keeps_settled (mem_Ref (F := F) (W := W) p).
Proof. unfold mem_Ref, mem_at, put_mem. settle. Qed.

Lemma settled_mem_Unref p : keeps_settled (mem_Unref (F := F) (W := W) p).
Proof. unfold mem_Unref, mem_at, put_mem. settle. Qed.

(** Switching the memtable makes work, and schedules it. *)
Lemma settled_switch : keeps_settled (switch_memtable (F := F) (W := W) addr).
Proof.
  unfold switch_memtable. apply settled_bind; [settle|intros db]. apply settled_bind; [settle|intros _].
  apply settled_bind; [apply settled_versions; by intros vs a vs' [= _ <-]|intros n]. apply settled_bind; [settle|intros [s lfile]].
  destruct (negb (ok s)).
  - apply settled_bind; [|intros ?; settle]. apply settled_change_versions. intros vs vs' [= <-]. unfold ReuseFileNumber. by destruct (_ =? _).
  - apply settled_bind; [settle|intros log]. destruct (Close (dest_ log)) as [s' f]. apply leaves_keeps. do 7 (apply leaves_bind; intros ?).
    apply leaves_then; [apply MaybeSchedule_settles|intros ?; settle].
Qed.

Lemma settled_room fuel : forall force allow_delay, keeps_settled (make_room others addr fuel force allow_delay).
Proof.
  induction fuel as [|fuel IH]; intros force allow_delay; cbn [make_room]; [settle|]. unfold has_room, mem_at.
  settle_with ltac:(first [apply IH|apply settled_switch]).
Qed.

Lemma settled_pop queue : forall self last s, keeps_settled (pop_writers (F := F) (W := W) queue self last s).
Proof. induction queue as [|r queue IH]; intros self last s; cbn [pop_writers]; unfold writer, put_writer; settle_with ltac:(apply IH). Qed.

Lemma settled_wait_turn self fuel : keeps_settled (wait_turn others fuel self).
Proof. induction fuel as [|fuel IH]; cbn [wait_turn]; unfold writer; settle_with ltac:(apply IH). Qed.

Lemma settled_Write fuel self sync updates : keeps_settled (Write others addr fuel self sync updates).
Proof.
  unfold Write, enqueue, write_front, MakeRoomForWrite, write_group, BuildBatchGroup, number_batch, log_write, insert_batch, writer, put_writer, mem_at, put_mem.
  settle_with ltac:(first [apply settled_wait_turn|apply settled_room|apply settled_pop
    | apply settled_change_versions; intros vs vs' Hv; unfold vs_SetLastSequence in Hv; destruct (_ <? _); [done|]; by injection Hv as <-
    | match goal with |- context [Sync ?x] => destruct (Sync x) end
    | match goal with |- context [InsertInto ?x ?y ?z] => destruct (InsertInto x y z) end]).
Qed.

Lemma settled_pin : keeps_settled (pin_state (F := F) (W := W)).
Proof. unfold pin_state. settle_with ltac:(first [apply settled_mem_Ref|apply settled_change_versions; intros vs vs'; apply idle_Ref]). Qed.

Lemma settled_unpin st : keeps_settled (unpin_state (F := F) (W := W) st).
Proof. unfold unpin_state. settle_with ltac:(first [apply settled_mem_Unref|apply settled_change_versions; intros vs vs'; apply idle_Unref]). Qed.

(** A change of the version set that reports new work is followed by scheduling. *)
Lemma settled_report (f : VersionSet F -> option (bool * VersionSet F)) :
  (forall vs vs', f vs = Some (false, vs') -> idle_versions vs -> idle_versions vs') ->
  keeps_settled (db_bind (with_versions f) (fun b => when b (MaybeScheduleCompaction (F := F) (W := W)))).
Proof.
  intros Hf db w a db' w' Hs H. apply db_bind_inv in H as (b & db1 & w1 & H1 & H2). destruct b; cbn [when] in H2; [by eapply MaybeSchedule_settles|].
  injection H2 as _ <- _. unfold with_versions in H1. destruct (f (db_versions_ db)) as [[b vs]|] eqn:E; [|done]. injection H1 as -> <- _.
  destruct Hs as [?|[?|[?|(? & ? & Hi)]]]; [by left|by right; left|by right; right; left|]. right. right. right. split; [done|]. split; [done|]. by eapply Hf.
Qed.

Lemma settled_search_tables id k value : keeps_settled (search_tables others cache_Get id k value).
Proof.
  unfold search_tables. apply settled_bind; [apply settled_relock|intros _]. intros db w a db' w' Hs H. cbv zeta in H.
  destruct (node_at _ _); [|done]. cbn [mbind option_bind] in H. destruct (Version_Get _ _ _ _ _ _); [|done]. by injection H as _ <- _.
Qed.

Lemma settled_Get snapshot key value : keeps_settled (db_Get others cache_Get snapshot key value).
Proof.
  unfold db_Get, read_sequence, search, search_mem, mem_at, charge_seek.
  settle_with ltac:(first [apply settled_pin|apply settled_unpin|apply settled_search_tables|apply settled_report; intros vs vs'; apply idle_UpdateStats]).
Qed.

Lemma settled_sample key : keeps_settled (db_RecordReadSample others key).
Proof.
  unfold db_RecordReadSample. settle_with ltac:(apply settled_report). intros vs vs'. unfold RecordReadSample. destruct (node_at vs _); [|done].
  cbn [mbind option_bind]. destruct (sampled_stats _ _ _ _) as [[stats|]|]; [|by intros [= <-]|done]. apply idle_UpdateStats.
Qed.

Lemma settled_wait_while cond fuel : keeps_settled (wait_while others fuel cond).
Proof. induction fuel as [|fuel IH]; cbn [wait_while]; settle_with ltac:(apply IH). Qed.

Lemma settled_clear_manual : keeps_settled (change (W := W) (set_manual_compaction (F := F) None)).
Proof. intros db w a db' w' Hs [= _ <- _]. destruct Hs as [?|[?|[?|(? & ? & ?)]]]; [by left|by right; left|by right; right; left|by right; right; right]. Qed.

Lemma settled_manual_loop self fuel : keeps_settled (manual_loop others fuel self).
Proof.
  induction fuel as [|fuel IH]; cbn [manual_loop]; [settle|]. unfold manual.
  settle_with ltac:(first [apply IH | apply leaves_keeps, leaves_bind; intros _; apply leaves_then; [apply MaybeSchedule_settles|intros _]]).
Qed.

Lemma settled_TEST_CompactRange fuel self level begin end_ : keeps_settled (TEST_CompactRange others fuel self level begin end_).
Proof.
  unfold TEST_CompactRange, put_manual. settle_with ltac:(first [apply settled_manual_loop|apply settled_wait_while|apply settled_clear_manual]).
Qed.

Lemma settled_compact_levels fuel self levels begin end_ : keeps_settled (compact_levels others fuel self levels begin end_).
Proof. induction levels as [|l levels IH]; cbn [compact_levels]; settle_with ltac:(first [apply IH|apply settled_TEST_CompactRange]). Qed.

Lemma settled_CompactRange fuel self begin end_ : keeps_settled (db_CompactRange others addr fuel self begin end_).
Proof.
  unfold db_CompactRange, TEST_CompactMemTable.
  settle_with ltac:(first [apply settled_compact_levels|apply settled_Write|apply settled_wait_while]).
Qed.

(** C9: compaction work is never left without a background call to do it.  Whatever
    a background call did, it ends with another one scheduled unless the database is
    being closed, an error has stopped it, or there is no memtable to flush, no manual
    compaction and no level over its limits.  Every operation of the clients (writes,
    reads that use up a file's seeks, read samples, manual compactions) keeps that
    property, with other threads that keep it running in between. *)
Theorem work_is_scheduled :
  (forall fuel, leaves_settled (BackgroundCall others snappy zstd addr cache_NewIterator fuel)) /\
  (forall fuel self sync updates, keeps_settled (Write others addr fuel self sync updates)) /\
  (forall snapshot key value, keeps_settled (db_Get others cache_Get snapshot key value)) /\
  (forall key, keeps_settled (db_RecordReadSample others key)) /\
  (forall fuel self begin end_, keeps_settled (db_CompactRange others addr fuel self begin end_)).
Proof.
  split.
  - intros fuel. unfold BackgroundCall. do 5 (apply leaves_bind; intros ?). apply MaybeSchedule_settles.
  - split; [exact settled_Write|]. split; [exact settled_Get|]. split; [exact settled_sample|exact settled_CompactRange].
Qed.

End Scheduling.

(** ** A small run

    A forced switch of the memtable is written, and a background call flushes it. *)

#[local] Existing Instance queue_files.
#[local] Existing Instance queue_env.

Definition idle_db : DBImpl StringDest := set_writers [] read_db.

Definition switched_db : DBImpl StringDest :=
  match Write nobody 0 2 2 false None idle_db tt with Some (_, db, _) => db | None => idle_db end.

Definition flushed_db : DBImpl StringDest :=
  match BackgroundCall nobody no_codec no_codec 0 no_iterators 8 switched_db tt with Some (_, db, _) => db | None => idle_db end.

Example switched_runs : (imm_ switched_db, background_compaction_scheduled_ switched_db) = (Some 0%nat, true).
Proof. vm_compute. reflexivity. Qed.

Example flushed_runs : (imm_ flushed_db, background_compaction_scheduled_ flushed_db, bg_error_ flushed_db) = (None, false, OK).
Proof. vm_compute. reflexivity. Qed.

Lemma idle_db_settled : settled idle_db.
Proof. right. right. right. split; [done|]. split; [done|]. intros v H. vm_compute in H. by injection H as <-. Qed.

Lemma work_is_scheduled_witness : settled switched_db /\ settled flushed_db.
Proof.
  destruct (work_is_scheduled nobody (fun db w H => H) no_codec no_codec 0 no_tables no_iterators) as (Hb & Hw & _).
  split.
  - unfold switched_db. destruct (Write nobody 0 2 2 false None idle_db tt) as [[[s db] w]|] eqn:E; [exact (Hw _ _ _ _ _ _ _ _ _ idle_db_settled E)|].
    exact idle_db_settled.
  - unfold flushed_db. destruct (BackgroundCall nobody no_codec no_codec 0 no_iterators 8 switched_db tt) as [[[s db] w]|] eqn:E;
      [exact (Hb _ _ _ _ _ _ E)|exact idle_db_settled].
Defined.
