(* ===== verification/Repair.v ===== *)
(** * Repairing a database

    [db/repair.cc]: the descriptor of a database is rebuilt from the files that are
    found.  Logs are converted to tables, every table is scanned for its key range and
    its largest sequence number, tables that cannot be read to the end are copied as
    far as they can, and a new descriptor lists them all at level 0.  Messages to the
    info log are left out. *)

From S2P Require Import Prelude Slice Coding Crc32c Status Env Logging LogFormat LogReader Comparator DbFormat Random Arena SkipList MemTable WriteBatch VersionEdit Filename Format Iterator Options BlockBuilder Block TableBuilder TwoLevel Version Compaction VersionSet Snapshot TableFromIter DbState DbRecover Posix.

(** [Env::RenameFile] *)
Class RenameEnv (W : Type) := {
  env_RenameFile : bytes -> bytes -> W -> Status * W
}.

(** [Repairer::TableInfo] *)
Record TableInfo := mkTableInfo { ti_meta : FileMetaData; ti_max_sequence : Z }.

(** The members of [Repairer] that change; [dbname_] and [options_] do not. *)
Record Repairer := mkRepairer {
  rp_manifests_ : list bytes;
  rp_table_numbers_ : list Z;
  rp_logs_ : list Z;
  rp_tables_ : list TableInfo;
  rp_next_file_number_ : Z
}.

Definition Repairer_make : Repairer := mkRepairer [] [] [] [] 1.

Definition push_manifest (name : bytes) r := mkRepairer (rp_manifests_ r ++ [name]) (rp_table_numbers_ r) (rp_logs_ r) (rp_tables_ r) (rp_next_file_number_ r).
Definition push_table_number (n : Z) r := mkRepairer (rp_manifests_ r) (rp_table_numbers_ r ++ [n]) (rp_logs_ r) (rp_tables_ r) (rp_next_file_number_ r).
Definition push_log (n : Z) r := mkRepairer (rp_manifests_ r) (rp_table_numbers_ r) (rp_logs_ r ++ [n]) (rp_tables_ r) (rp_next_file_number_ r).
Definition push_table (t : TableInfo) r := mkRepairer (rp_manifests_ r) (rp_table_numbers_ r) (rp_logs_ r) (rp_tables_ r ++ [t]) (rp_next_file_number_ r).
Definition set_next_file (n : Z) r := mkRepairer (rp_manifests_ r) (rp_table_numbers_ r) (rp_logs_ r) (rp_tables_ r) n.

(** [next_file_number_++] *)
Definition take_number r : Z * Repairer := (rp_next_file_number_ r, set_next_file (u64 (rp_next_file_number_ r + 1)) r).

(** ** [FindFiles] *)

Definition find_file (filename : bytes) r : Repairer :=
  match ParseFileName filename with
  | Some (number, type) =>
      if bool_decide (type = kDescriptorFile) then push_manifest filename r
      else
        let r := if rp_next_file_number_ r <? u64 (number + 1) then set_next_file (u64 (number + 1)) r else r in
        if bool_decide (type = kLogFile) then push_log number r
        else if bool_decide (type = kTableFile) then push_table_number number r
        else r
  | None => r
  end.

Section Repair.

Context {F W S : Type} `{!WritableFile F} `{!SequentialFile S} `{!DescriptorEnv (F := F) W S} `{!DbEnv W} `{!RenameEnv W}.
Context (snappy zstd : Codec) (addr : Z).
Context (dbname : bytes) (c : Comparator) (options : Options).

(** [TableCache::NewIterator] of a file number and size, with [paranoid_checks]. *)
Context {D : Type} {HD : Iterator D} (NewTableIterator : W -> FileMetaData -> option D).

Definition FindFiles r (w : W) : Status * Repairer * W :=
  let '(s, filenames, w) := env_GetChildren dbname w in
  if negb (ok s) then (s, r, w)
  else match filenames with
       | [] => (IOError dbname (str "repair found no files"), r, w)
       | _ => (s, fold_left (fun r f => find_file f r) filenames r, w)
       end.

(** ** [ArchiveFile] *)

Definition ArchiveFile (fname : bytes) (w : W) : W :=
  let '(dir, base) := match rfind_separator fname with Some (dir, base) => (dir, base) | None => ([], fname) end in
  let new_dir := dir ++ str "/lost" in
  let w := snd (env_CreateDir new_dir w) in
  snd (env_RenameFile fname (new_dir ++ str "/" ++ base) w).

(** ** [ConvertLogToTable] *)

(** The loop over the records.  A batch that cannot be inserted is inserted as far as it
    can; the reader's reports only go to the info log. *)
Fixpoint convert_loop (turns fuel : nat) (rd : Reader S) (scratch : bytes) (mem : MemTable) : option MemTable :=
  match turns with
  | O => None
  | Datatypes.S turns =>
      '(record, scratch, rd) ← ReadRecord fuel scratch rd;
      match record with
      | None => Some mem
      | Some record =>
          if blen record <? 12 then convert_loop turns fuel rd scratch mem
          else
            mem ← snd (InsertInto c (SetContents record) mem);
            convert_loop turns fuel rd scratch mem
      end
  end.

Definition FileMetaData_new (num : Z) : FileMetaData := FileMetaData_make num 0 (mkInternalKey []) (mkInternalKey []).

(** The reader is told not to verify checksums.  The last component is the table file
    as it was left. *)
Definition ConvertLogToTable (fuel : nat) (log : Z) r (w : W) : option (Status * Repairer * W * option F) :=
  let '(s, lfile, w) := env_NewSequentialFile (LogFileName dbname log) w in
  if negb (ok s) then Some (s, r, w, None)
  else
    lfile ← lfile;
    mem ← convert_loop fuel fuel (Reader_make lfile true false addr 0) [] (Ref MemTable_make);
    let '(num, r) := take_number r in
    '(s, meta, _, w, file) ← BuildTable (HI := MemTable_iterator c) snappy zstd addr cache_check fuel dbname options (mem_NewIterator mem) (FileMetaData_new num) w;
    let r := if ok s && (0 <? file_size meta) then push_table_number (number meta) r else r in
    Some (s, r, w, file).

Fixpoint ConvertLogFilesToTables (fuel : nat) (logs : list Z) r (w : W) : option (Repairer * W) :=
  match logs with
  | [] => Some (r, w)
  | log :: logs =>
      '(_, r, w, _) ← ConvertLogToTable fuel log r w;
      ConvertLogFilesToTables fuel logs r (ArchiveFile (LogFileName dbname log) w)
  end.

(** ** [ScanTable] *)

(** The loop: what is known of the table so far, [empty] while no key was parsed. *)
Fixpoint scan_loop (fuel : nat) (iter : D) (empty : bool) (t : TableInfo) : option (D * TableInfo) :=
  match fuel with
  | O => None
  | Datatypes.S fuel =>
      if it_Valid iter then
        let key := it_key iter in
        match ParseInternalKey key with
        | None => iter ← it_Next iter; scan_loop fuel iter empty t
        | Some parsed =>
            let m := ti_meta t in
            let k := snd (InternalKey_DecodeFrom key) in
            let t := mkTableInfo (meta_with m (file_size m) (if empty then k else smallest m) k)
                       (if ti_max_sequence t <? sequence parsed then sequence parsed else ti_max_sequence t) in
            iter ← it_Next iter; scan_loop fuel iter false t
        end
      else Some (iter, t)
  end.

(** Copying the entries that can be read; the count is that of the copied entries. *)
Fixpoint copy_loop (fuel : nat) (builder : Rep F) (iter : D) (counter : Z) : option (Rep F * Z) :=
  match fuel with
  | O => None
  | Datatypes.S fuel =>
      if it_Valid iter then
        builder ← TableBuilder_Add snappy zstd addr builder (it_key iter) (it_value iter);
        iter ← it_Next iter;
        copy_loop fuel builder iter (counter + 1)
      else Some (builder, counter)
  end.

(** ** [RepairTable] *)

(** Finishing the copy: the status, the size and the file. *)
Definition finish_copy (builder : Rep F) (counter size : Z) : option (Status * Z * F) :=
  '(s, size, file) ←
    (if counter =? 0 then builder ← TableBuilder_Abandon builder; Some (OK, size, r_file builder)
     else
       builder ← TableBuilder_Finish snappy zstd addr builder;
       Some (r_status builder, if ok (r_status builder) then FileSize builder else size, r_file builder));
  let '(s, file) := if ok s then Close file else (s, file) in
  Some (s, size, file).

(** The last component is the copy as it was left. *)
Definition RepairTable (fuel : nat) (src : bytes) (t : TableInfo) r (w : W) : option (Repairer * W * option F) :=
  let '(num, r) := take_number r in
  let copy := TableFileName dbname num in
  let '(s, file, w) := env_NewWritableFile copy w in
  if negb (ok s) then Some (r, w, None)
  else
    file ← file;
    builder ← TableBuilder_make options file;
    iter ← NewTableIterator w (ti_meta t);
    iter ← it_SeekToFirst iter;
    '(builder, counter) ← copy_loop fuel builder iter 0;
    let w := ArchiveFile src w in
    '(s, size, file) ← finish_copy builder counter (file_size (ti_meta t));
    let m := ti_meta t in
    let t := mkTableInfo (meta_with m size (smallest m) (largest m)) (ti_max_sequence t) in
    let '(s, r, w) :=
      if (0 <? counter) && ok s then
        let '(s, w) := env_RenameFile copy (TableFileName dbname (number m)) w in
        (s, if ok s then push_table t r else r, w)
      else (s, r, w) in
    Some (r, if ok s then w else snd (env_RemoveFile copy w), Some file).

(** The size of the table's file, under its present or its old name, and that name. *)
Definition table_size (num : Z) (w : W) : Status * bytes * Z * W :=
  let fname := TableFileName dbname num in
  let '(s, size, w) := env_GetFileSize fname w in
  if ok s then (s, fname, size, w)
  else
    let fname := SSTTableFileName dbname num in
    let '(s2, size, w) := env_GetFileSize fname w in
    (if ok s2 then OK else s, fname, size, w).

Definition ScanTable (fuel : nat) (num : Z) r (w : W) : option (Repairer * W) :=
  let '(s, fname, size, w) := table_size num w in
  if negb (ok s) then Some (r, ArchiveFile (SSTTableFileName dbname num) (ArchiveFile (TableFileName dbname num) w))
  else
    let meta := meta_with (FileMetaData_new num) size (mkInternalKey []) (mkInternalKey []) in
    iter ← NewTableIterator w meta;
    iter ← it_SeekToFirst iter;
    '(iter, t) ← scan_loop fuel iter true (mkTableInfo meta 0);
    if ok (it_status iter) then Some (push_table t r, w) else '(r, w, _) ← RepairTable fuel fname t r w; Some (r, w).

Fixpoint ExtractMetaData (fuel : nat) (numbers : list Z) r (w : W) : option (Repairer * W) :=
  match numbers with
  | [] => Some (r, w)
  | num :: numbers => '(r, w) ← ScanTable fuel num r w; ExtractMetaData fuel numbers r w
  end.

(** ** [WriteDescriptor] *)

Definition max_sequence_of (tables : list TableInfo) : Z :=
  fold_left (fun m t => if m <? ti_max_sequence t then ti_max_sequence t else m) tables 0.

Definition add_table (e : VersionEdit) (t : TableInfo) : VersionEdit :=
  let m := ti_meta t in AddFile 0 (number m) (file_size m) (smallest m) (largest m) e.

Definition repair_edit r : VersionEdit :=
  fold_left add_table (rp_tables_ r)
    (SetLastSequence (max_sequence_of (rp_tables_ r)) (SetNextFile (rp_next_file_number_ r) (SetLogNumber 0 (SetComparatorName (Name c) VersionEdit_Clear)))).

Definition archive_all (names : list bytes) (w : W) : W := fold_left (fun w name => ArchiveFile (dbname ++ str "/" ++ name) w) names w.

(** The status, the environment and the descriptor file as it was left. *)
Definition WriteDescriptor r (w : W) : option (Status * W * option F) :=
  let tmp := TempFileName dbname 1 in
  let '(s, file, w) := env_NewWritableFile tmp w in
  if negb (ok s) then Some (s, w, None)
  else
    file ← file;
    '(s, log) ← AddRecord (Writer_make addr file) addr (EncodeTo (repair_edit r) []);
    let '(s, file) := if ok s then Close (dest_ log) else (s, dest_ log) in
    if negb (ok s) then Some (s, snd (env_RemoveFile tmp w), Some file)
    else
      let w := archive_all (rp_manifests_ r) w in
      let '(s, w) := env_RenameFile tmp (DescriptorFileName dbname 1) w in
      if ok s then let '(s, w) := env_SetCurrentFile dbname 1 w in Some (s, w, Some file)
      else Some (s, snd (env_RemoveFile tmp w), Some file).

(** ** [Run] *)

Definition Repairer_Run (fuel : nat) (w : W) : option (Status * Repairer * W * option F) :=
  let '(s, r, w) := FindFiles Repairer_make w in
  if ok s then
    '(r, w) ← ConvertLogFilesToTables fuel (rp_logs_ r) r w;
    '(r, w) ← ExtractMetaData fuel (rp_table_numbers_ r) r w;
    '(s, w, file) ← WriteDescriptor r w;
    Some (s, r, w, file)
  else Some (s, r, w, None).

End Repair.

(** [RepairDB]; the table cache of the repairer is the argument [NewTableIterator]. *)
Definition RepairDB {F W S : Type} `{!WritableFile F} `{!SequentialFile S} `{!DescriptorEnv (F := F) W S} `{!DbEnv W} `{!RenameEnv W} {D : Type} {HD : Iterator D}
    (snappy zstd : Codec) (addr : Z) (NewTableIterator : W -> FileMetaData -> option D) (fuel : nat) (dbname : bytes) (options : Options) (w : W)
  : option (Status * Repairer * W * option F) :=
  Repairer_Run snappy zstd addr dbname (comparator options) (SanitizeOptions options) NewTableIterator fuel w.
