(* ===== verification/RepairSpec.v ===== *)
(** * What repair guarantees

    A log is saved in a table with every operation it held, and the descriptor that is
    written lists the tables that were found, so that the database can be opened with
    all of them. *)

From S2P Require Import Prelude Slice Coding Crc32c Status Env Logging LogFormat LogReader LogLayout LogCorrect LogSpec Comparator DbFormat Random Arena SkipList MemTable WriteBatch VersionEdit Filename Format Iterator Options BlockBuilder Block TableBuilder Table TableFile TableBuild TableSpec TwoLevel Merger DbIter Version Compaction VersionSet VersionSetSpec VersionLife Manifest ManifestSpec Snapshot TableFromIter DbState DbFlush DbWrite DbWriteSpec WriteQueue DbRecover DbRecoverSpec Posix Repair.

(** ** Scanning a table *)

(** The entries whose keys can be parsed, and what is recorded of them. *)
Definition readable (es : list entry) : list entry := List.filter entry_parses es.
Definition key_of (e : option entry) : InternalKey := mkInternalKey (default [] (fst <$> e)).
Definition max_seq (m : Z) (es : list entry) : Z := fold_left (fun m e => Z.max m (DbIter.e_seq e)) (readable es) m.

Definition scanned_meta (num size : Z) (es : list entry) : FileMetaData :=
  FileMetaData_make num size (key_of (head (readable es))) (key_of (last (readable es))).
Definition scanned (num size : Z) (es : list entry) : TableInfo := mkTableInfo (scanned_meta num size es) (max_seq 0 es).

Lemma readable_snoc es e : readable (es ++ [e]) = readable es ++ if entry_parses e then [e] else [].
Proof. unfold readable. rewrite List.filter_app. cbn [List.filter]. by destruct (entry_parses e). Qed.

Lemma max_seq_snoc m es e : max_seq m (es ++ [e]) = if entry_parses e then Z.max (max_seq m es) (DbIter.e_seq e) else max_seq m es.
Proof. unfold max_seq. rewrite readable_snoc, fold_left_app. by destruct (entry_parses e). Qed.

Lemma max_seq_ge es : forall m, m <= max_seq m es /\ forall e, e ∈ readable es -> DbIter.e_seq e <= max_seq m es.
Proof.
  unfold max_seq. induction (readable es) as [|e l IH]; intros m; cbn [fold_left].
  { split; [done|]. intros e He. by apply elem_of_nil in He. }
  destruct (IH (Z.max m (DbIter.e_seq e))) as [H1 H2]. split; [lia|]. intros e' He. apply elem_of_cons in He as [->|He]; [lia|by apply H2].
Qed.

Lemma max_seq_le b es : forall m, m <= b -> (forall e, e ∈ readable es -> DbIter.e_seq e <= b) -> max_seq m es <= b.
Proof.
  unfold max_seq. induction (readable es) as [|e l IH]; intros m Hm Hb; cbn [fold_left]; [done|].
  apply IH; [|intros e' He; apply Hb; by right]. specialize (Hb e ltac:(by left)). lia.
Qed.

Lemma DecodeFixed64_range p : 0 <= DecodeFixed64 p < 2 ^ 64.
Proof.
  unfold DecodeFixed64. repeat (apply lor_bound; [lia| |apply u64_range]). unfold buffer_at. pose proof (b2z_range (byte_at p 0)). lia.
Qed.

Lemma readable_seq es e : e ∈ readable es -> 0 <= DbIter.e_seq e < 2 ^ 56.
Proof.
  intros _. unfold DbIter.e_seq, key_tag. rewrite Z.shiftr_div_pow2 by lia.
  match goal with |- context [DecodeFixed64 ?x] => pose proof (DecodeFixed64_range x) end.
  split; [apply Z.div_pos; lia|]. apply Z.div_lt_upper_bound; lia.
Qed.

Section Scan.

Context {D : Type} {HD : Iterator D} (es : list entry) (pos : D -> option nat -> Prop) {HP : ScansOver es pos}.

(** After [i] entries, the loop knows what [scanned] says of them. *)
Lemma scan_loop_ok num size fuel : forall it i,
  pos it (clip es i) -> (i <= length es)%nat -> (length es - i < fuel)%nat ->
  exists it', scan_loop fuel it (bool_decide (readable (take i es) = [])) (scanned num size (take i es)) = Some (it', scanned num size es) /\
    ok (it_status it') = true.
Proof.
  induction fuel as [|fuel IH]; intros it i Hp Hi Hf; [lia|]. cbn [scan_loop]. rewrite (scan_valid it _ Hp). unfold clip in Hp.
  destruct (decide (i < length es)%nat) as [Hlt|Hge]; unfold clip.
  - rewrite decide_True, bool_decide_true by done. pose proof (scan_entry it i Hp) as He.
    destruct (scan_next it i Hp) as (it1 & Hnext & Hp1). rewrite Hnext. cbn [mbind option_bind].
    specialize (IH it1 (S i) Hp1 ltac:(lia) ltac:(lia)). rewrite (take_S_r es i _ He) in IH. set (e := (it_key it, it_value it)) in *.
    destruct (ParseInternalKey (it_key it)) as [parsed|] eqn:Ep.
    + assert (Hpar : entry_parses e = true) by (unfold entry_parses; cbn [fst e]; by rewrite Ep).
      pose proof (parse_entry e Hpar) as Hpe. cbn [fst e] in Hpe. rewrite Ep in Hpe. injection Hpe as ->. cbn [sequence].
      rewrite bool_decide_false in IH by (rewrite readable_snoc, Hpar; by destruct (readable (take i es))).
      destruct IH as (it' & Hrun & Hs). exists it'. split; [|done]. rewrite <- Hrun. f_equal. unfold scanned, scanned_meta. f_equal.
      * unfold meta_with, FileMetaData_make. cbn [ti_meta f_refs allowed_seeks number file_size smallest largest].
        f_equal; rewrite readable_snoc, Hpar; [|by rewrite last_snoc].
        destruct (readable (take i es)) as [|e0 l]; [done|]. by rewrite bool_decide_false.
      * cbn [ti_max_sequence]. rewrite max_seq_snoc, Hpar. destruct (Z.ltb_spec (max_seq 0 (take i es)) (DbIter.e_seq e)); lia.
    + assert (Hpar : entry_parses e = false) by (unfold entry_parses; cbn [fst e]; rewrite Ep; apply bool_decide_false; by intros []).
      unfold scanned, scanned_meta in IH |- *. rewrite max_seq_snoc, readable_snoc, Hpar, app_nil_r in IH. exact IH.
  - rewrite decide_False, bool_decide_false by (done || by intros []). rewrite take_ge by lia. exists it. split; [done|]. by apply (scan_status it _ Hp).
Qed.

End Scan.

(** ** The files of a directory *)

(** A table of the directory: its number, its size and its entries. *)
Record disk_table := mkDiskTable { dt_number : Z; dt_size : Z; dt_entries : list entry }.
Definition dt_info (t : disk_table) : TableInfo := scanned (dt_number t) (dt_size t) (dt_entries t).

(** The numbers of the files of a type among [names]. *)
Definition numbers_of (ty : FileType) (names : list bytes) : list Z :=
  omap (fun name => '(num, ty') ← ParseFileName name; if bool_decide (ty' = ty) then Some num else None) names.

(** The numbers of the files that are not descriptors. *)
Definition used_number (names : list bytes) (num : Z) : Prop :=
  exists name ty, name ∈ names /\ ParseFileName name = Some (num, ty) /\ ty <> kDescriptorFile.

Lemma find_files_ok names : forall r,
  (forall num, used_number names num -> 0 <= num < 2 ^ 64 - 1) -> 0 <= rp_next_file_number_ r < 2 ^ 64 ->
  let r' := fold_left (fun r f => find_file f r) names r in
  rp_table_numbers_ r' = rp_table_numbers_ r ++ numbers_of kTableFile names /\ rp_logs_ r' = rp_logs_ r ++ numbers_of kLogFile names /\
  rp_tables_ r' = rp_tables_ r /\ rp_next_file_number_ r <= rp_next_file_number_ r' < 2 ^ 64 /\
  (forall num, used_number names num -> num < rp_next_file_number_ r').
Proof.
  induction names as [|name names IH]; intros r Hsm Hr; cbn [fold_left numbers_of omap list_omap].
  { rewrite !app_nil_r. split; [done|]. split; [done|]. split; [done|]. split; [lia|]. intros num (name & ty & Hin & _). by apply elem_of_nil in Hin. }
  assert (Hstep : let r1 := find_file name r in
    rp_table_numbers_ r1 = rp_table_numbers_ r ++ numbers_of kTableFile [name] /\ rp_logs_ r1 = rp_logs_ r ++ numbers_of kLogFile [name] /\
    rp_tables_ r1 = rp_tables_ r /\ rp_next_file_number_ r <= rp_next_file_number_ r1 < 2 ^ 64 /\
    (forall num, used_number [name] num -> num < rp_next_file_number_ r1)).
  { unfold find_file, numbers_of. cbn [omap list_omap]. destruct (ParseFileName name) as [[num ty]|] eqn:Ep; cbn [mbind option_bind].
    2:{ rewrite !app_nil_r. split_and!; try done; try lia. intros num (n & ty & Hin & Hp & _). apply list_elem_of_singleton in Hin as ->. congruence. }
    assert (Hnum : ty <> kDescriptorFile -> 0 <= num < 2 ^ 64 - 1) by (intros Ht; apply Hsm; exists name, ty; split; [by left|done]).
    assert (Hone : forall b, (ty <> kDescriptorFile -> num < b) -> forall n, used_number [name] n -> n < b).
    { intros b Hb n (nm & t & Hin & Hp & Ht). apply list_elem_of_singleton in Hin as ->. rewrite Ep in Hp. injection Hp as <- <-. by apply Hb. }
    destruct (bool_decide_reflect (ty = kDescriptorFile)) as [->|Hty].
    { cbn. rewrite !app_nil_r. split_and!; try done; try lia. apply Hone. by intros []. }
    specialize (Hnum Hty). rewrite u64_small by lia.
    destruct (Z.ltb_spec (rp_next_file_number_ r) (num + 1)); destruct ty; try done;
      repeat first [rewrite bool_decide_true by done | rewrite bool_decide_false by done]; cbn; rewrite ?app_nil_r; split_and!; try done; try lia;
      apply Hone; intros _; lia. }
  destruct Hstep as (H1 & H2 & H3 & H4 & H5). destruct (IH (find_file name r)) as (I1 & I2 & I3 & I4 & I5).
  { intros num (n & ty & Hin & Hp). apply Hsm. exists n, ty. split; [by right|done]. }
  { lia. }
  cbv zeta in *. rewrite I1, I2, I3, H1, H2, H3, <- !app_assoc. split; [|split; [|split; [done|split; [lia|]]]].
  - f_equal. unfold numbers_of. cbn [omap list_omap]. by destruct (ParseFileName name ≫= _).
  - f_equal. unfold numbers_of. cbn [omap list_omap]. by destruct (ParseFileName name ≫= _).
  - intros num (n & ty & Hin & Hp). apply elem_of_cons in Hin as [->|Hin].
    + assert (num < rp_next_file_number_ (find_file name r)) by (apply H5; exists name, ty; split; [by left|done]). lia.
    + apply I5. by exists n, ty.
Qed.

Lemma find_files_manifests (P : bytes -> Prop) names : forall r, Forall P names -> Forall P (rp_manifests_ r) ->
  Forall P (rp_manifests_ (fold_left (fun r f => find_file f r) names r)).
Proof.
  induction names as [|name names IH]; intros r Hn Hr; cbn [fold_left]; [done|]. apply Forall_cons in Hn as [Hp Hn]. apply IH; [done|].
  unfold find_file. destruct (ParseFileName name) as [[num ty]|]; [|done].
  destruct (bool_decide (ty = kDescriptorFile)); cbn; [apply Forall_app; by split; [|constructor]|].
  by destruct (rp_next_file_number_ r <? _), (bool_decide (ty = kLogFile)), (bool_decide (ty = kTableFile)).
Qed.

(** ** Repairing a directory of tables *)

Section RepairTables.

Context {F W S : Type} `{!WritableFile F} `{!SequentialFile S} `{!DescriptorEnv (F := F) W S} `{!DbEnv W} `{!RenameEnv W}.
Context {contents : F -> bytes} `{!ReliableWritable F contents}.
Context {unread : S -> bytes} `{!ReliableSequential S unread}.
Context (snappy zstd : Codec) (addr : Z) (dbname : bytes) (c : Comparator) `{!ComparatorLaws c} (options : Options).
Context {D : Type} {HD : Iterator D} (NewTableIterator : W -> FileMetaData -> option D).

(** A directory that holds files [names], with all the tables among them readable, in
    an environment that does what it is asked to: [Inv] is what it keeps true. *)
Record good_disk (Inv : W -> Prop) (names : list bytes) (tables : list disk_table) : Prop := {
  gd_children w : Inv w -> exists s w', env_GetChildren dbname w = (s, names, w') /\ ok s = true /\ Inv w';
  gd_size w t : Inv w -> t ∈ tables ->
    exists s w', env_GetFileSize (F := F) (S := S) (TableFileName dbname (dt_number t)) w = (s, dt_size t, w') /\ ok s = true /\ Inv w';
  gd_iter w t m : Inv w -> t ∈ tables -> number m = dt_number t -> file_size m = dt_size t ->
    exists it pos, NewTableIterator w m = Some it /\ ScansOver (dt_entries t) pos /\ pos it None;
  gd_create w : Inv w -> exists s f w', env_NewWritableFile (F := F) (S := S) (TempFileName dbname 1) w = (s, Some f, w') /\ ok s = true /\ contents f = [] /\ Inv w';
  gd_mkdir d w : Inv w -> Inv (snd (env_CreateDir d w));
  gd_archive name to w : Inv w -> name ∈ names -> Inv (snd (env_RenameFile (dbname ++ str "/" ++ name) to w));
  gd_install w : Inv w -> exists s w', env_RenameFile (TempFileName dbname 1) (DescriptorFileName dbname 1) w = (s, w') /\ ok s = true /\ Inv w';
  gd_current w : Inv w -> exists s w', env_SetCurrentFile (F := F) (S := S) dbname 1 w = (s, w') /\ ok s = true
}.

Context (Inv : W -> Prop) (names : list bytes) (tables : list disk_table) (Hd : good_disk Inv names tables).

Lemma ScanTable_ok fuel t r w :
  Inv w -> t ∈ tables -> (length (dt_entries t) < fuel)%nat ->
  exists w', ScanTable snappy zstd addr dbname options NewTableIterator fuel (dt_number t) r w = Some (push_table (dt_info t) r, w') /\ Inv w'.
Proof.
  intros Hw Ht Hf. destruct (gd_size _ _ _ Hd w t Hw Ht) as (s & w1 & Hsz & Hs & Hw1).
  unfold ScanTable, table_size. rewrite Hsz, Hs. cbn beta iota. rewrite Hs. cbn [negb].
  match goal with |- context [NewTableIterator w1 ?m] => destruct (gd_iter _ _ _ Hd w1 t m Hw1 Ht eq_refl eq_refl) as (it & pos & -> & HS & Hp) end.
  cbn [mbind option_bind]. destruct (scan_first it None Hp) as (it1 & -> & Hp1). cbn [mbind option_bind].
  destruct (scan_loop_ok (dt_entries t) pos (dt_number t) (dt_size t) fuel it1 0 Hp1 ltac:(lia) ltac:(lia)) as (it2 & Hscan & Hs2).
  rewrite take_0 in Hscan. change (bool_decide (readable [] = [])) with true in Hscan.
  change (scanned (dt_number t) (dt_size t) []) with (mkTableInfo (meta_with (FileMetaData_new (dt_number t)) (dt_size t) (mkInternalKey []) (mkInternalKey [])) 0) in Hscan.
  rewrite Hscan. cbn [mbind option_bind]. rewrite Hs2. exists w1. split; [reflexivity|exact Hw1].
Qed.

Definition push_tables (ts : list TableInfo) r : Repairer := fold_left (fun r t => push_table t r) ts r.

Lemma push_tables_eq ts : forall r,
  push_tables ts r = mkRepairer (rp_manifests_ r) (rp_table_numbers_ r) (rp_logs_ r) (rp_tables_ r ++ ts) (rp_next_file_number_ r).
Proof.
  induction ts as [|t ts IH]; intros r; cbn [push_tables fold_left]; [rewrite app_nil_r; by destruct r|].
  fold (push_tables ts (push_table t r)). rewrite IH. unfold push_table. cbn. by rewrite <- app_assoc.
Qed.

Lemma ExtractMetaData_ok fuel ts : forall r w,
  Inv w -> Forall (fun t => t ∈ tables /\ (length (dt_entries t) < fuel)%nat) ts ->
  exists w', ExtractMetaData snappy zstd addr dbname options NewTableIterator fuel (map dt_number ts) r w = Some (push_tables (map dt_info ts) r, w') /\ Inv w'.
Proof.
  induction ts as [|t ts IH]; intros r w Hw Hts; cbn [map ExtractMetaData]; [by exists w|].
  apply Forall_cons in Hts as [[Ht Hf] Hts]. destruct (ScanTable_ok fuel t r w Hw Ht Hf) as (w1 & -> & Hw1). cbn [mbind option_bind].
  destruct (IH (push_table (dt_info t) r) w1 Hw1 Hts) as (w2 & -> & Hw2). by exists w2.
Qed.

Lemma archive_all_ok ms : forall w, Inv w -> Forall (fun n => n ∈ names) ms -> Inv (archive_all dbname ms w).
Proof.
  unfold archive_all. induction ms as [|m ms IH]; intros w Hw Hms; cbn [fold_left]; [done|]. apply Forall_cons in Hms as [Hm Hms].
  apply IH; [|done]. unfold ArchiveFile. destruct (rfind_separator (dbname ++ str "/" ++ m)) as [[dir base]|]; apply (gd_archive _ _ _ Hd); try done; by apply (gd_mkdir _ _ _ Hd).
Qed.

(** The descriptor that is written holds the one edit. *)
Lemma WriteDescriptor_ok r w :
  Inv w -> Forall (fun n => n ∈ names) (rp_manifests_ r) ->
  exists s w' f, WriteDescriptor addr dbname c r w = Some (s, w', Some f) /\ ok s = true /\ log_layout 0 (records [repair_edit c r]) (contents f).
Proof.
  intros Hw Hms. destruct (gd_create _ _ _ Hd w Hw) as (s & f & w1 & Hnew & Hs & Hf & Hw1). unfold WriteDescriptor. rewrite Hnew, Hs. cbn [negb mbind option_bind].
  destruct (write_all_layout (contents := contents) (Writer_make addr f) addr (records [repair_edit c r]) (Writer_make_ok addr f Hf)) as (log & out & Hwr & _ & Hc & Hlay).
  unfold records in Hwr. cbn [map write_all] in Hwr. destruct (AddRecord (Writer_make addr f) addr (EncodeTo (repair_edit c r) [])) as [[s1 log1]|]; [|done].
  destruct (ok s1) eqn:Es1; [|done]. injection Hwr as ->. cbn [mbind option_bind]. rewrite Es1.
  destruct (close_contents (dest_ log)) as [Ho Hcl]. destruct (Close (dest_ log)) as [s2 f2]. cbn [fst snd] in *. rewrite Ho. cbn [negb].
  cbn [dest_ Writer_make] in Hc, Hlay. rewrite Hf in Hc, Hlay. 
  destruct (gd_install _ _ _ Hd (archive_all dbname (rp_manifests_ r) w1)) as (s3 & w3 & -> & -> & Hw3); [by apply archive_all_ok|].
  destruct (gd_current _ _ _ Hd w3 Hw3) as (s4 & w4 & -> & Hs4). exists s4, w4, f2. split; [done|]. split; [done|]. rewrite Hcl, Hc. exact Hlay.
Qed.

(** What a table needs for its descriptor entry to be read back. *)
Record table_ok (t : disk_table) : Prop := {
  tk_size : 0 <= dt_size t < 2 ^ 64;
  tk_some : readable (dt_entries t) <> [];
  tk_keys : Forall (fun e => blen (fst e) < 2 ^ 32) (dt_entries t)
}.

(** The edit: four numbers and the tables. *)
Definition edit_base (next last : Z) : VersionEdit :=
  SetLastSequence last (SetNextFile next (SetLogNumber 0 (SetComparatorName (Name c) VersionEdit_Clear))).

Lemma fold_add_table ts : forall e ps ds fs,
  fold_left add_table ts (with_lists e ps ds fs) = with_lists e ps ds (fs ++ map (fun t => (0, plain (ti_meta t))) ts).
Proof.
  induction ts as [|t ts IH]; intros e ps ds fs; cbn [fold_left map]; [by rewrite app_nil_r|].
  match goal with |- fold_left _ _ ?x = _ => change x with (with_lists e ps ds (fs ++ [(0, plain (ti_meta t))])) end. by rewrite IH, <- app_assoc.
Qed.

Lemma repair_edit_eq r :
  repair_edit c r = with_lists (edit_base (rp_next_file_number_ r) (max_sequence_of (rp_tables_ r))) [] [] (map (fun t => (0, plain (ti_meta t))) (rp_tables_ r)).
Proof. exact (fold_add_table (rp_tables_ r) (edit_base _ _) [] [] []). Qed.

Lemma max_sequence_of_ge ts : 0 <= max_sequence_of ts /\ forall t, t ∈ ts -> ti_max_sequence t <= max_sequence_of ts.
Proof.
  unfold max_sequence_of. generalize 0. induction ts as [|t ts IH]; intros m; cbn [fold_left].
  { split; [done|]. intros t Ht. by apply elem_of_nil in Ht. }
  destruct (IH (if m <? ti_max_sequence t then ti_max_sequence t else m)) as [H1 H2].
  destruct (Z.ltb_spec m (ti_max_sequence t)); (split; [lia|]); intros t' Ht; apply elem_of_cons in Ht as [->|Ht]; (lia || by apply H2).
Qed.

Lemma max_sequence_of_lt b ts : 0 < b -> Forall (fun t => ti_max_sequence t < b) ts -> max_sequence_of ts < b.
Proof.
  unfold max_sequence_of. generalize 0. induction ts as [|t ts IH]; intros m Hm Hts; cbn [fold_left]; [done|].
  apply Forall_cons in Hts as [Ht Hts]. apply IH; [|done]. by destruct (m <? _).
Qed.

Lemma readable_key t e : table_ok t -> e ∈ readable (dt_entries t) -> key_ok (key_of (Some e)).
Proof.
  intros [_ _ Hk] He. unfold readable in He. apply list_elem_of_In, List.filter_In in He as [He Hp]. apply list_elem_of_In in He.
  rewrite Forall_forall in Hk. specialize (Hk e He). unfold key_ok, key_of. cbn. split; [|done].
  unfold entry_parses in Hp. apply bool_decide_eq_true in Hp as [x Hx]. unfold ParseInternalKey in Hx. destruct (Z.ltb_spec (blen (fst e)) 8); [done|lia].
Qed.

Lemma table_entry_ok t : table_ok t -> 0 <= dt_number t < 2 ^ 64 -> VersionEdit.file_ok (0, plain (ti_meta (dt_info t))).
Proof.
  intros Ht Hn. pose proof Ht as [H1 H2 H3]. unfold VersionEdit.file_ok, level_ok, u64_ok. cbn. split; [unfold kNumLevels; lia|]. split; [lia|]. split; [lia|]. split; [|split; [|done]].
  - destruct (head (readable (dt_entries t))) as [e|] eqn:E; [|by apply head_None in E]. apply (readable_key t); [done|]. by apply head_Some_elem_of.
  - destruct (last (readable (dt_entries t))) as [e|] eqn:E; [|by apply last_None in E]. apply (readable_key t); [done|]. by apply last_Some_elem_of.
Qed.

(** The history a repaired descriptor holds. *)
Lemma repair_edit_ok r :
  blen (Name c) < 2 ^ 32 -> 0 <= rp_next_file_number_ r < 2 ^ 64 -> rp_tables_ r = map dt_info tables ->
  Forall table_ok tables -> Forall (fun t => 0 <= dt_number t < 2 ^ 64) tables -> edit_ok (repair_edit c r).
Proof.
  intros Hn Hnext Ets Hts Hnum. rewrite repair_edit_eq, Ets. split; cbn; try done; try (by constructor).
  - unfold u64_ok. pose proof (proj1 (max_sequence_of_ge (map dt_info tables))).
    assert (max_sequence_of (map dt_info tables) < 2 ^ 64); [|lia]. apply max_sequence_of_lt; [lia|]. apply Forall_map, Forall_forall. intros t _. cbn.
    enough (max_seq 0 (dt_entries t) <= 2 ^ 56) by lia. apply max_seq_le; [lia|]. intros e He. pose proof (readable_seq _ e He). lia.
  - rewrite map_map. apply Forall_map. rewrite Forall_forall in *. intros t Ht. apply table_entry_ok; [by apply Hts|by apply Hnum].
Qed.

Lemma repair_news r i : rp_tables_ r = map dt_info tables ->
  edit_news (new_files_ (repair_edit c r)) i = if (i =? 0)%nat then map (fun t => info_of (ti_meta (dt_info t))) tables else [].
Proof.
  intros Ets. rewrite repair_edit_eq, Ets. cbn [with_lists new_files_]. unfold edit_news. destruct i as [|i]; cbn [Nat.eqb].
  - clear. induction tables as [|t ts IH]; [done|]. exact (f_equal (cons _) IH).
  - clear. induction tables as [|t ts IH]; [done|]. exact IH.
Qed.

Lemma repair_levels r : rp_tables_ r = map dt_info tables -> NoDup (map dt_number tables) ->
  exists level0, edit_levels c (repair_edit c r) empty_levels = level0 :: replicate 6 [] /\ level0 ≡ₚ map (fun t => info_of (ti_meta (dt_info t))) tables.
Proof.
  intros Ets Hnd. exists (edit_level c (repair_edit c r) 0 []). split.
  - unfold edit_levels, empty_levels. change (Z.to_nat kNumLevels) with 7%nat. cbn [replicate imap]. unfold compose.
    unfold edit_level. by rewrite !(repair_news r) by done.
  - unfold edit_level. rewrite (repair_news r) by done. cbn [Nat.eqb undeleted List.filter].
    rewrite insert_all_perm; [by rewrite app_nil_r|done|]. cbn [map app]. rewrite map_map. exact Hnd.
Qed.

Lemma Run_ok fuel w :
  Inv w -> names <> [] -> numbers_of kTableFile names = map dt_number tables -> numbers_of kLogFile names = [] -> NoDup (map dt_number tables) ->
  (forall num, used_number names num -> 0 <= num < 2 ^ 64 - 1) -> Forall table_ok tables ->
  Forall (fun t => length (dt_entries t) < fuel)%nat tables -> blen (Name c) < 2 ^ 32 ->
  exists s r w' f, Repairer_Run snappy zstd addr dbname c options NewTableIterator fuel w = Some (s, r, w', Some f) /\ ok s = true /\
    forall options' fresh w2 current fuel',
      VersionSet_new (F := F) dbname options' c = Some fresh -> descriptor_is (F := F) (S := S) (unread := unread) w2 dbname current (contents f) ->
      blen (contents f) < 2 ^ 64 -> (length (contents f) + 1 < fuel')%nat ->
      exists s' save vs w3 level0 next last, Recover addr fuel' fresh w2 = Some (s', save, vs, w3) /\ ok s' = true /\
        recovered c vs (level0 :: replicate 6 []) next last 0 0 /\ level0 ≡ₚ map (fun t => info_of (ti_meta (dt_info t))) tables /\
        (forall t e, t ∈ tables -> e ∈ readable (dt_entries t) -> DbIter.e_seq e <= last) /\ (forall num, used_number names num -> num < next).
Proof.
  intros Hw Hne Htn Hln Hnd Hsm Hts Hfuel Hcn. destruct (gd_children _ _ _ Hd w Hw) as (s & w1 & Hch & Hs & Hw1).
  destruct (find_files_ok names Repairer_make Hsm ltac:(cbn; lia)) as (Et & El & Er & Hnext & Hused). cbn [Repairer_make rp_table_numbers_ rp_logs_ rp_tables_ app] in Et, El, Er.
  pose proof (find_files_manifests (fun n => n ∈ names) names Repairer_make ltac:(by apply Forall_forall) ltac:(constructor)) as Hms.
  set (r1 := fold_left (fun r f => find_file f r) names Repairer_make) in *.
  destruct (ExtractMetaData_ok fuel tables r1 w1 Hw1) as (w2 & Hext & Hw2).
  { rewrite Forall_forall in *. intros t Ht. split; [done|by apply Hfuel]. }
  destruct (WriteDescriptor_ok (push_tables (map dt_info tables) r1) w2 Hw2) as (s3 & w3 & f & Hwd & Hs3 & Hlay); [by rewrite push_tables_eq|].
  set (r2 := push_tables (map dt_info tables) r1) in *.
  exists s3, r2, w3, f. split; [|split; [done|]].
  { assert (Hfind : FindFiles dbname Repairer_make w = (s, r1, w1)).
    { unfold FindFiles. rewrite Hch, Hs. cbn [negb]. unfold r1. clear -Hne. by destruct names. }
    unfold Repairer_Run. rewrite Hfind, Hs, El, Hln. cbn [ConvertLogFilesToTables mbind option_bind]. rewrite Et, Htn, Hext. cbn [mbind option_bind]. by rewrite Hwd. }
  intros options' fresh w4 current fuel' Hfresh Hdesc HC Hf'.
  assert (E2 : rp_tables_ r2 = map dt_info tables /\ rp_next_file_number_ r2 = rp_next_file_number_ r1) by (unfold r2; rewrite push_tables_eq; cbn; by rewrite Er).
  destruct E2 as [Et2 En2]. rewrite <- En2 in Hnext, Hused. change (rp_next_file_number_ Repairer_make) with 1 in Hnext.
  assert (Hnum : Forall (fun t => 0 <= dt_number t < 2 ^ 64) tables).
  { apply Forall_forall. intros t Ht. assert (Hin : dt_number t ∈ numbers_of kTableFile names) by (rewrite Htn; by apply list_elem_of_fmap_2).
    unfold numbers_of in Hin. apply list_elem_of_omap in Hin as (name & Hname & Hp). destruct (ParseFileName name) as [[num ty]|] eqn:Ep; [|done].
    cbn in Hp. case_bool_decide as Hty; [|done]. injection Hp as <-. enough (0 <= num < 2 ^ 64 - 1) by lia. apply Hsm. exists name, ty. subst ty. done. }
  pose proof (repair_edit_ok r2 Hcn ltac:(lia) Et2 Hts Hnum) as Hedit. destruct (repair_levels r2 Et2 Hnd) as (level0 & Elev & Hperm).
  destruct (VersionSet_new_ok c (F := F) dbname options') as (vs0 & Evs & Hset & Hcur & Hnode & _ & Ename & _ & Hlog & _).
  rewrite Hfresh in Evs. injection Evs as <-.
  destruct (Recover_replays c addr [repair_edit c r2] (contents f) fresh fuel' w4 current 0 None (rp_next_file_number_ r2) (max_sequence_of (rp_tables_ r2)))
    as (s5 & save & vs' & w5 & Hrec & Hs5 & Hst); try done.
  - by rewrite Ename.
  - split; [by constructor|constructor; [|constructor]; by rewrite repair_edit_eq|]. intros i _. unfold history_nums. cbn [map concat]. rewrite app_nil_r.
    unfold edit_nums. rewrite (repair_news r2) by done. destruct i; cbn [Nat.eqb]; [|constructor]. rewrite map_map. exact Hnd.
  - unfold replay. cbn [fold_left]. rewrite Elev. intros i l Hi Hl. destruct i as [|i]; [lia|]. change (replicate 6 (@nil finfo) !! i = Some l) in Hl. apply lookup_replicate in Hl as [-> _]. constructor.
  - unfold founds. cbn [fold_left]. by rewrite repair_edit_eq.
  - unfold replay in Hst. cbn [fold_left] in Hst. rewrite Elev in Hst. do 7 eexists. split; [exact Hrec|]. split; [done|]. split; [exact Hst|]. split; [done|].
    split; [|done]. intros t e Ht He. etrans; [by apply (proj2 (max_seq_ge (dt_entries t) 0))|]. rewrite Et2.
    apply (proj2 (max_sequence_of_ge (map dt_info tables)) (dt_info t)). by apply list_elem_of_fmap_2.
Qed.

End RepairTables.

Section RepairDB.

Context {F W S : Type} `{!WritableFile F} `{!SequentialFile S} `{!DescriptorEnv (F := F) W S} `{!DbEnv W} `{!RenameEnv W}.
Context {contents : F -> bytes} `{!ReliableWritable F contents}.
Context {unread : S -> bytes} `{!ReliableSequential S unread}.
Context (snappy zstd : Codec) (addr : Z) {D : Type} {HD : Iterator D} (NewTableIterator : W -> FileMetaData -> option D).


End RepairDB.


(** ** Saving a log in a table *)

Section RepairLog.

Context {F W S : Type} `{!WritableFile F} `{!SequentialFile S} `{!DescriptorEnv (F := F) W S} `{!DbEnv W}.
Context {contents : F -> bytes} `{!ReliableWritable F contents}.
Context {unread : S -> bytes} `{!ReliableSequential S unread}.
Context {G : Type} {RA : RandomAccessFile G} {file_bytes : G -> bytes} {RR : ReliableRandom G file_bytes}.
Context (snappy zstd : Codec) (addr : Z) (dbname : bytes) (c : Comparator) `{!ComparatorLaws c} (options : Options).

Lemma convert_loop_ok todo : forall r scratch mem bs turns fuel,
  reading (unread := unread) r (map batch_record todo) fuel -> (length todo < turns)%nat ->
  replayed c bs = Some mem -> in_order 1 (bs ++ todo) -> Forall batch_ok (bs ++ todo) ->
  convert_loop c turns fuel r scratch mem = replayed c (bs ++ todo).
Proof.
  induction todo as [|b todo IH]; intros r scratch mem bs turns fuel Hrd Ht Hmem Hord Hok;
    (destruct turns as [|turns]; [cbn in Ht; lia|]); cbn [convert_loop].
  - destruct (read_end r fuel scratch Hrd) as (scr & r' & -> & _). cbn [mbind option_bind]. by rewrite app_nil_r.
  - destruct (read_next r (batch_record b) (map batch_record todo) fuel scratch Hrd) as (scr & r1 & -> & _ & Hrd1).
    cbn [mbind option_bind]. rewrite record_size.
    assert (Hpre : in_order 1 (bs ++ [b]) /\ Forall batch_ok (bs ++ [b])).
    { replace (bs ++ b :: todo) with ((bs ++ [b]) ++ todo) in Hord, Hok by (by rewrite <- app_assoc). apply Forall_app in Hok as [Hok _].
      split; [by eapply in_order_prefix|done]. }
    destruct Hpre as [Hord1 Hok1]. destruct (replayed_holds c (bs ++ [b]) Hord1 Hok1) as (m & es & Hm & _ & _).
    assert (Hb : batch_ok b) by (apply Forall_app in Hok1 as [_ Hb]; by apply Forall_cons in Hb as [Hb _]).
    pose proof (InsertInto_replayed c b bs mem m Hb Hmem Hm) as Hins.
    rewrite Hins. cbn [snd mbind option_bind].
    rewrite (IH r1 scr m (bs ++ [b]) turns fuel), <- app_assoc; try done; try (by rewrite <- app_assoc). cbn in Ht. lia.
Qed.

(** C12: Repair saves what a log held.  Take a log of batches numbered in order, as the writers
    leave it.  [ConvertLogToTable] reads it completely and succeeds when the environment
    does; the table it writes, under the next file number, is one more to scan for its
    metadata; and the table file, opened and scanned, yields each operation of the log
    exactly once under its sequence number, in the order of the internal keys. *)
Theorem repair_log log batches kf (ro : ReadOptions) fuel n r s1 g s2 f (w w1 w2 : W) :
  let num := rp_next_file_number_ r in let adds := concat (map batch_entries batches) in
  CodecLaws snappy -> CodecLaws zstd -> options_ok options kf -> comparator options = InternalKeyComparator c ->
  log_holds (contents := contents) log (map batch_record batches) -> blen (contents (dest_ log)) < 2 ^ 64 ->
  in_order 1 batches -> Forall batch_ok batches -> adds <> [] ->
  env_NewSequentialFile (LogFileName dbname n) w = (s1, Some g, w1) -> ok s1 = true -> unread g = contents (dest_ log) ->
  env_NewWritableFile (TableFileName dbname num) w1 = (s2, Some f, w2) -> ok s2 = true -> contents f = [] ->
  (forall size, ok (fst (cache_check num size w2)) = true) ->
  table_bound options kf (map mem_entry adds) < 2 ^ 32 -> 0 <= num < 2 ^ 64 - 1 ->
  (length (contents (dest_ log)) + 1 < fuel)%nat -> (length adds < fuel)%nat ->
  exists s r' w' file es,
    ConvertLogToTable snappy zstd addr dbname c options fuel n r w = Some (s, r', w', Some file) /\ ok s = true /\
    rp_table_numbers_ r' = rp_table_numbers_ r ++ [num] /\ rp_next_file_number_ r' = num + 1 /\
    es ≡ₚ adds /\ StronglySorted (entry_lt (Compare (InternalKeyComparator c))) (map mem_entry es) /\
    forall h : G, file_bytes h = contents file ->
    exists t it, Table_Open snappy zstd addr options h (blen (contents file)) = Some (OK, Some t) /\
      Table_NewIterator snappy zstd addr t ro = Some it /\ scan_all (Datatypes.S (length es)) it = Some (map mem_entry es).
Proof.
  intros num adds Hsn Hzs Ho Hcmp [Hwok Hlay] HC Hord Hok Hne Hseq Hs1 Hun Hnew Hs2 Hf Hcheck Hbound Hnum Hfuel Hfuel2. set (C := contents (dest_ log)) in *.
  pose proof (log_layout_length _ _ _ Hlay) as Hlen. rewrite length_map in Hlen.
  assert (Hconv : convert_loop c fuel fuel (Reader_make g true false addr 0) [] (Ref MemTable_make) = replayed c ([] ++ batches)).
  { apply convert_loop_ok; try done; [by eapply reading_make|lia]. }
  destruct (replayed_holds c batches Hord Hok) as (m & es & Hm & Hh & Hp). cbn [app] in Hconv. rewrite Hm in Hconv. fold adds in Hp.
  assert (Hbe : table_bound options kf (map mem_entry es) < 2 ^ 32).
  { unfold table_bound in *. by rewrite (entries_size_perm (map mem_entry es) (map mem_entry adds)) by (by apply Permutation_map). }
  assert (Hne' : es <> []) by (intros ->; by apply Permutation_nil in Hp).
  destruct (BuildTable_mem c snappy zstd addr cache_check options kf m es ro fuel dbname (FileMetaData_new num) w1 w2 s2 f Hsn Hzs Ho Hcmp Hh Hne' Hbe)
    as (s' & meta & it & w' & file & Hbuild & Hs' & Hn' & Hsize & Hpos & _ & _ & Hread); try done; [rewrite (Permutation_length Hp); lia|].
  exists s', (push_table_number num (set_next_file (num + 1) r)), w', file, es. split; [|split; [done|]].
  - unfold ConvertLogToTable. rewrite Hseq, Hs1. cbn [negb mbind option_bind]. rewrite Hconv. cbn [mbind option_bind]. unfold take_number. fold num. rewrite Hbuild.
    cbn [mbind option_bind]. rewrite Hs', Hsize, (proj2 (Z.ltb_lt _ _) Hpos). cbn [andb]. rewrite Hn', u64_small by lia. done.
  - split; [done|]. split; [done|]. split; [done|]. split; [by eapply mem_entries_sorted|]. intros h Hh'. rewrite <- Hsize. by apply Hread.
Qed.

End RepairLog.

(** ** Saving what can be read of a damaged table *)

(** An iterator that goes through [l] and then stops, with any status. *)
Class ReadsUpTo {I} `{Iterator I} (l : list entry) (pos : I -> option nat -> Prop) : Prop := {
  rt_valid it p : pos it p -> it_Valid it = bool_decide (is_Some p);
  rt_entry it i : pos it (Some i) -> l !! i = Some (it_key it, it_value it);
  rt_first it p : pos it p -> exists it', it_SeekToFirst it = Some it' /\ pos it' (clip l 0);
  rt_next it i : pos it (Some i) -> exists it', it_Next it = Some it' /\ pos it' (clip l (S i))
}.

Section RepairDamaged.

Context {F W S : Type} `{!WritableFile F} `{!SequentialFile S} `{!DescriptorEnv (F := F) W S} `{!DbEnv W} `{!RenameEnv W}.
Context {contents : F -> bytes} `{!ReliableWritable F contents}.
Context {G : Type} {RA : RandomAccessFile G} {file_bytes : G -> bytes} {RR : ReliableRandom G file_bytes}.
Context (snappy zstd : Codec) (addr : Z) (dbname : bytes) (options : Options).
Context {D : Type} {HD : Iterator D} (NewTableIterator : W -> FileMetaData -> option D).

Lemma copy_loop_ok (es : list entry) (pos : D -> option nat -> Prop) {HP : ReadsUpTo es pos} fuel : forall builder it i n r,
  pos it (clip es i) -> (i <= length es)%nat -> (length es - i < fuel)%nat -> add_all snappy zstd addr builder (drop i es) = Some r ->
  copy_loop snappy zstd addr fuel builder it n = Some (r, n + Z.of_nat (length es - i)).
Proof.
  induction fuel as [|fuel IH]; intros builder it i n r Hp Hi Hf Hadd; [lia|]. cbn [copy_loop]. rewrite (rt_valid it _ Hp). unfold clip in Hp.
  destruct (decide (i < length es)%nat) as [Hlt|Hge]; unfold clip.
  - rewrite decide_True, bool_decide_true by done. pose proof (rt_entry it i Hp) as He. rewrite (drop_S es _ i He) in Hadd. cbn [add_all] in Hadd.
    destruct (TableBuilder_Add snappy zstd addr builder (it_key it) (it_value it)) as [b1|]; [|done]. cbn [mbind option_bind] in *.
    destruct (rt_next it i Hp) as (it1 & -> & Hp1). cbn [mbind option_bind]. rewrite (IH b1 it1 (Datatypes.S i) (n + 1) r Hp1) by (done || lia).
    do 2 f_equal. lia.
  - rewrite decide_False, bool_decide_false by (done || by intros []). rewrite drop_ge in Hadd by lia. cbn in Hadd. injection Hadd as ->. do 2 f_equal. lia.
Qed.

(** Repair saves what can be read of a damaged table.  When a table's iterator yields
    some entries in order and then stops with an error, [RepairTable] succeeds in an
    environment that does not fail: the copy, which takes the table's name, is a good
    table that yields exactly those entries when it is opened and scanned, and the
    table is recorded with the size of the copy. *)
Theorem repair_damaged_table kf src t es pos it (ro : ReadOptions) fuel r s1 f s3 (w w1 w3 : W) :
  let num := rp_next_file_number_ r in let m := ti_meta t in
  CodecLaws snappy -> CodecLaws zstd -> options_ok options kf -> 0 <= num < 2 ^ 64 - 1 ->
  es <> [] -> StronglySorted (entry_lt (Compare (comparator options))) es -> table_bound options kf es < 2 ^ 32 -> (length es < fuel)%nat ->
  ReadsUpTo es pos -> NewTableIterator w1 m = Some it -> pos it None ->
  env_NewWritableFile (F := F) (S := S) (TableFileName dbname num) w = (s1, Some f, w1) -> ok s1 = true -> contents f = [] ->
  env_RenameFile (TableFileName dbname num) (TableFileName dbname (number m)) (ArchiveFile src w1) = (s3, w3) -> ok s3 = true ->
  exists file, RepairTable snappy zstd addr dbname options NewTableIterator fuel src t r w =
      Some (push_table (mkTableInfo (meta_with m (blen (contents file)) (smallest m) (largest m)) (ti_max_sequence t)) (set_next_file (num + 1) r), w3, Some file) /\
    forall g : G, file_bytes g = contents file ->
    exists table it', Table_Open snappy zstd addr options g (blen (contents file)) = Some (OK, Some table) /\
      Table_NewIterator snappy zstd addr table ro = Some it' /\ scan_all (Datatypes.S (length es)) it' = Some es.
Proof.
  intros num m Hsn Hzs Ho Hnum Hne Hsorted Hbound Hfuel HP Hit Hpos Hnew Hs1 Hf Hren Hs3. pose proof (oo_comparator _ _ Ho). pose proof (oo_short _ _ Ho).
  destruct (build_table_spec snappy zstd addr options (oo_restart _ _ Ho) kf (oo_kf _ _ Ho) (oo_filter _ _ Ho) f es Hf Hsorted Hbound)
    as (rep & ds & groups & mh & ih & Hbuild & Hok & Hsize & Hin).
  unfold build_table in Hbuild. destruct (TableBuilder_make options f) as [b0|] eqn:Eb; [|done]. cbn [mbind option_bind] in Hbuild.
  destruct (add_all snappy zstd addr b0 es) as [b1|] eqn:Ea; [|done]. cbn [mbind option_bind] in Hbuild. unfold tb_ok in Hok.
  destruct (close_contents (r_file rep)) as [Hoc Hcc]. destruct (Close (r_file rep)) as [s2 file] eqn:Ec. cbn [fst snd] in Hoc, Hcc.
  destruct (rt_first it None Hpos) as (it1 & Hfirst & Hp1). exists file. rewrite Hcc. split.
  - unfold RepairTable, take_number. fold num m. rewrite Hnew, Hs1. cbn [negb mbind option_bind]. rewrite Eb. cbn [mbind option_bind].
    rewrite Hit. cbn [mbind option_bind]. rewrite Hfirst. cbn [mbind option_bind].
    rewrite (copy_loop_ok es pos fuel b0 it1 0 0 b1 Hp1) by (lia || by rewrite drop_0). cbn [mbind option_bind].
    assert (Hlen : 0 < 0 + Z.of_nat (length es - 0)) by (destruct es; [done|cbn [length]; lia]).
    unfold finish_copy. rewrite (proj2 (Z.eqb_neq _ 0)) by lia. rewrite Hbuild. cbn [mbind option_bind]. rewrite Hok, Ec. cbn [mbind option_bind].
    rewrite Hoc, (proj2 (Z.ltb_lt 0 _)) by done. cbn [andb]. rewrite Hren. cbv iota beta. rewrite Hs3, Hsize, u64_small by lia. done.
  - intros g Hg. rewrite <- Hg in Hin |- *.
    destruct (Table_Open_spec snappy zstd addr options (oo_compression _ _ Ho) g ds groups es mh ih Hin) as (table & Hopen & Ht).
    destruct (Table_NewIterator_spec snappy zstd addr options (oo_compression _ _ Ho) g ds groups es mh ih Hin table Ht ro) as (it' & pos' & Hnit & HI & Hp0).
    exists table, it'. split; [done|]. split; [done|]. apply (scan_all_spec it' None); [done|lia].
Qed.

End RepairDamaged.

(** ** A directory with two tables, and one with a log

    The environment is the bytes of the file that is read. *)

#[local] Instance repair_files : DescriptorEnv (F := StringDest) bytes StringSource := {
  env_NewWritableFile _ w := (OK, Some (mkDest []), w);
  env_NewAppendableFile _ w := (OK, Some (mkDest w), w);
  env_NewSequentialFile _ w := (OK, Some (mkSource w), w);
  env_GetFileSize _ w := (OK, 100, w);
  env_RemoveFile _ w := (OK, w);
  env_SetCurrentFile _ _ w := (OK, w);
  env_ReadFileToString _ w := (OK, str "MANIFEST-000001" ++ [x0a], w)
}.

Definition repair_names : list bytes := [str "."; str "000005.ldb"; str "CURRENT"; str "000009.sst"; str "MANIFEST-000002"; str "000011.dbtmp"].

#[local] Instance repair_env : DbEnv bytes := {
  env_GetChildren _ w := (OK, repair_names, w);
  env_CreateDir _ w := (OK, w);
  env_RemoveDir _ w := (OK, w);
  env_FileExists _ w := (true, w);
  env_LockFile _ w := (OK, w);
  env_UnlockFile w := (OK, w);
  env_NowMicros w := (0, w);
  env_SleepForMicroseconds _ w := w;
  env_Schedule w := w;
  cache_check _ _ w := (OK, w);
  cache_Evict _ w := w
}.

#[local] Instance repair_renames : RenameEnv bytes := { env_RenameFile _ _ w := (OK, w) }.

Definition repair_entry (k : string) (seq : Z) : entry := (rep_ (demo_key k seq), str "v").

Definition repair_disk : list disk_table :=
  [mkDiskTable 5 100 [repair_entry "a" 7; (str "?", []); repair_entry "m" 9]; mkDiskTable 9 100 [repair_entry "b" 12]].

Definition repair_iterator (w : bytes) (m : FileMetaData) : option ListIterator :=
  t ← list_find (fun t => dt_number t = number m) repair_disk;
  Some (mkListIter (InternalKeyComparator BytewiseComparator) (dt_entries (snd t)) None).

Lemma repair_good_disk :
  good_disk (F := StringDest) (S := StringSource) (contents := dest_contents) (str "db") repair_iterator (fun _ => True) repair_names repair_disk.
Proof.
  split; try (by eauto 10).
  - intros w t _ Ht. exists OK, w. split; [|done]. by apply elem_of_cons in Ht as [->|Ht]; [|apply list_elem_of_singleton in Ht as ->].
  - intros w t m _ Ht Hn _. exists (mkListIter (InternalKeyComparator BytewiseComparator) (dt_entries t) None), (li_at (InternalKeyComparator BytewiseComparator) (dt_entries t)).
    split; [|split; [eapply IteratesOver_scans, ListIterator_iterates|done]].
    unfold repair_iterator. rewrite Hn. by apply elem_of_cons in Ht as [->|Ht]; [|apply list_elem_of_singleton in Ht as ->].
Qed.

Definition repair_result := RepairDB (F := StringDest) (S := StringSource) no_codec no_codec 0 repair_iterator 5 (str "db") Options_default [].

Lemma repair_used num : used_number repair_names num -> num = 5 \/ num = 0 \/ num = 9 \/ num = 11.
Proof.
  intros (name & ty & Hin & Hp & Hty). unfold repair_names in Hin.
  repeat (apply elem_of_cons in Hin as [->|Hin]; [vm_compute in Hp; first [discriminate | injection Hp as <- <-; first [done | tauto]]|]). by apply elem_of_nil in Hin.
Qed.


Lemma repair_log_witness :
  let adds := concat (map batch_entries crash_batches) in
  exists s r' w' file es,
    ConvertLogToTable (F := StringDest) (S := StringSource) no_codec no_codec 0 (str "db") BytewiseComparator flush_options
      (2 + length (dest_contents (dest_ crash_log))) 3 Repairer_make (dest_contents (dest_ crash_log)) = Some (s, r', w', Some file) /\ ok s = true /\
    rp_table_numbers_ r' = [1] /\ es ≡ₚ adds /\
    forall h, random_contents h = dest_contents file ->
    exists t it, Table_Open no_codec no_codec 0 flush_options h (blen (dest_contents file)) = Some (OK, Some t) /\
      Table_NewIterator no_codec no_codec 0 t ReadOptions_default = Some it /\ scan_all (Datatypes.S (length es)) it = Some (map mem_entry es).
Proof.
  intros adds.
  destruct (repair_log (contents := dest_contents) (unread := source_unread) (file_bytes := random_contents) no_codec no_codec 0 (str "db") BytewiseComparator flush_options
    crash_log crash_batches 20 ReadOptions_default (2 + length (dest_contents (dest_ crash_log))) 3 Repairer_make OK (mkSource (dest_contents (dest_ crash_log)))
    OK (mkDest []) (dest_contents (dest_ crash_log)) (dest_contents (dest_ crash_log)) (dest_contents (dest_ crash_log)))
    as (s & r' & w' & file & es & Hrun & Hs & Hnum & _ & Hp & _ & Hread).
  - exact no_codec_laws.
  - exact no_codec_laws.
  - exact flush_options_ok.
  - reflexivity.
  - exact crash_log_holds.
  - vm_compute. reflexivity.
  - cbn. lia.
  - repeat constructor; cbn; try lia; by vm_compute.
  - discriminate.
  - reflexivity.
  - reflexivity.
  - reflexivity.
  - reflexivity.
  - reflexivity.
  - reflexivity.
  - reflexivity.
  - vm_compute. reflexivity.
  - cbn. lia.
  - generalize (length (dest_contents (dest_ crash_log))). intros k. lia.
  - apply Nat.ltb_lt. vm_compute. reflexivity.
  - exists s, r', w', file, es. split; [exact Hrun|]. split; [exact Hs|]. split; [exact Hnum|]. split; [exact Hp|exact Hread].
Defined.

(** A table without a key that can be parsed is still listed, with empty keys, and the
    descriptor that lists it cannot be read. *)
Example keyless_table_descriptor :
  let t := scanned 5 100 [(str "?", str "v")] in
  scan_loop 3 (mkListIter BytewiseComparator [(str "?", str "v")] (Some 0%nat)) true (mkTableInfo (meta_with (FileMetaData_new 5) 100 (mkInternalKey []) (mkInternalKey [])) 0) =
    Some (mkListIter BytewiseComparator [(str "?", str "v")] None, t) /\
  fst <$> DecodeFrom (EncodeTo (repair_edit BytewiseComparator (push_table t Repairer_make)) []) =
    Some (Corruption (str "VersionEdit") (str "new-file entry")).
Proof. vm_compute. split; reflexivity. Qed.
