(* ===== verification/Dump.v ===== *)
(** * Printing the files of a database

    [db/dumpfile.cc], which prints a log, a descriptor or a table, the command line
    tool of [db/leveldbutil.cc] around it, and [VersionEdit::DebugString].  What is printed goes to a [WritableFile] whose status
    is ignored, as in the source. *)

From S2P Require Import Prelude Slice Coding Crc32c Status Env Logging LogFormat LogReader LogLayout LogCorrect LogSpec Comparator DbFormat WriteBatch VersionEdit Filename Format Iterator Options BlockBuilder Block TwoLevel TableBuilder Table TableFile TableBuild TableSpec Merger DbIter TableCache Version VersionSet TableFromIter DbState DbWrite DbWriteSpec DbRecover DbRecoverSpec Posix.

(** ** [VersionEdit::DebugString] *)

Definition newline : bytes := [x0a].
Definition quote : bytes := [z2b 39].

(** A field that is printed when it is there. *)
Definition field (has : bool) (name text : bytes) : bytes := if has then newline ++ str "  " ++ name ++ str ": " ++ text else [].

Definition VersionEdit_DebugString (e : VersionEdit) : bytes :=
  str "VersionEdit {"
  ++ field (has_comparator_ e) (str "Comparator") (VersionEdit.comparator_ e)
  ++ field (has_log_number_ e) (str "LogNumber") (decimal (log_number_ e))
  ++ field (has_prev_log_number_ e) (str "PrevLogNumber") (decimal (prev_log_number_ e))
  ++ field (has_next_file_number_ e) (str "NextFile") (decimal (next_file_number_ e))
  ++ field (has_last_sequence_ e) (str "LastSeq") (decimal (last_sequence_ e))
  ++ concat (map (fun '(level, key) => field true (str "CompactPointer") (decimal level ++ str " " ++ InternalKey_DebugString (rep_ key))) (compact_pointers_ e))
  ++ concat (map (fun '(level, num) => field true (str "RemoveFile") (decimal level ++ str " " ++ decimal num)) (deleted_files_ e))
  ++ concat (map (fun '(level, f) => field true (str "AddFile") (decimal level ++ str " " ++ decimal (number f) ++ str " " ++ decimal (file_size f) ++ str " "
       ++ InternalKey_DebugString (rep_ (smallest f)) ++ str " .. " ++ InternalKey_DebugString (rep_ (largest f)))) (new_files_ e))
  ++ newline ++ str "}" ++ newline.

Section Dump.

Context {F : Type} `{!WritableFile F}.

(** [dst->Append(r)] *)
Definition print (r : bytes) (dst : F) : F := snd (Append dst r).

Definition GuessType (fname : bytes) : option FileType := snd <$> ParseFileName (Basename fname).

(** [CorruptionReporter::Corruption] *)
Definition report_line (report : Z * Status) : bytes :=
  str "corruption: " ++ decimal (fst report) ++ str " bytes; " ++ ToString (snd report) decimal ++ newline.

(** ** Logs *)

(** [WriteBatchItemPrinter] *)
Definition put_line (key value : bytes) : bytes :=
  str "  put " ++ quote ++ EscapeString key ++ str "' '" ++ EscapeString value ++ quote ++ newline.
Definition delete_line (key : bytes) : bytes := str "  del " ++ quote ++ EscapeString key ++ quote ++ newline.

Definition offset_line (pos : Z) : bytes := str "--- offset " ++ decimal pos ++ str "; ".

Definition WriteBatchPrinter (pos : Z) (record : bytes) (dst : F) : F :=
  if blen record <? 12 then print (offset_line pos ++ str "log record length " ++ decimal (blen record) ++ str " is too small" ++ newline) dst
  else
    let batch := SetContents record in
    let dst := print (offset_line pos ++ str "sequence " ++ decimal (Sequence batch) ++ newline) dst in
    let '(s, dst) := Iterate (fun k v => print (put_line k v)) (fun k => print (delete_line k)) batch dst in
    if ok s then dst else print (str "  error: " ++ ToString s decimal ++ newline) dst.

Definition VersionEditPrinter (pos : Z) (record : bytes) (dst : F) : option F :=
  '(s, edit) ← DecodeFrom record;
  Some (print (offset_line pos ++ (if negb (ok s) then ToString s decimal ++ newline else VersionEdit_DebugString edit)) dst).

(** The loop of [PrintLogContents]; a call of the reader prints the corruption it
    reports before the record it returns is printed. *)
Fixpoint print_log {S : Type} `{!SequentialFile S} (turns fuel : nat) (func : Z -> bytes -> F -> option F) (rd : Reader S) (scratch : bytes) (dst : F) : option F :=
  match turns with
  | O => None
  | Datatypes.S turns =>
      let before := length (reports_ rd) in
      '(record, scratch, rd) ← ReadRecord fuel scratch rd;
      let dst := fold_left (fun dst report => print (report_line report) dst) (drop before (reports_ rd)) dst in
      match record with
      | None => Some dst
      | Some record => dst ← func (last_record_offset_ rd) record dst; print_log turns fuel func rd scratch dst
      end
  end.

Context {W S G : Type} `{!SequentialFile S} `{!DescriptorEnv (F := F) W S} `{!RandomAccessFile G} `{!RandomAccessEnv W G}.
Context (snappy zstd : Codec) (addr : Z).

Definition PrintLogContents (fuel : nat) (fname : bytes) (func : Z -> bytes -> F -> option F) (dst : F) (w : W) : option (Status * F * W) :=
  let '(s, file, w) := env_NewSequentialFile fname w in
  if negb (ok s) then Some (s, dst, w)
  else
    file ← file;
    dst ← print_log fuel fuel func (Reader_make file true true addr 0) [] dst;
    Some (OK, dst, w).

Definition DumpLog (fuel : nat) (fname : bytes) (dst : F) (w : W) : option (Status * F * W) :=
  PrintLogContents fuel fname (fun pos record dst => Some (WriteBatchPrinter pos record dst)) dst w.

Definition DumpDescriptor (fuel : nat) (fname : bytes) (dst : F) (w : W) : option (Status * F * W) :=
  PrintLogContents fuel fname VersionEditPrinter dst w.

(** ** Tables *)

(** The type of a parsed key is one of two. *)
Definition type_name (t : ValueType) : bytes := match t with kTypeDeletion => str "del" | kTypeValue => str "val" end.

Definition entry_line (key value : bytes) : bytes :=
  match ParseInternalKey key with
  | None => str "badkey " ++ quote ++ EscapeString key ++ str "' => '" ++ EscapeString value ++ quote ++ newline
  | Some k => quote ++ EscapeString (user_key k) ++ str "' @ " ++ decimal (sequence k) ++ str " : " ++ type_name (type k)
              ++ str " => '" ++ EscapeString value ++ quote ++ newline
  end.

Fixpoint print_entries {D : Type} {HD : Iterator D} (fuel : nat) (iter : D) (dst : F) : option (D * F) :=
  match fuel with
  | O => None
  | Datatypes.S fuel =>
      if it_Valid iter then
        let dst := print (entry_line (it_key iter) (it_value iter)) dst in
        iter ← it_Next iter; print_entries fuel iter dst
      else Some (iter, dst)
  end.

(** Printing what an iterator goes through. *)
Definition dump_iterator {D : Type} {HD : Iterator D} (fuel : nat) (iter : D) (dst : F) : option F :=
  iter ← it_SeekToFirst iter;
  '(iter, dst) ← print_entries fuel iter dst;
  let s := it_status iter in
  Some (if ok s then dst else print (str "iterator error: " ++ ToString s decimal ++ newline) dst).

Definition DumpTable (fuel : nat) (fname : bytes) (dst : F) (w : W) : option (Status * F * W) :=
  let '(s, file_size, w) := env_GetFileSize fname w in
  let '(s, file, w) := if ok s then env_NewRandomAccessFile fname w else (s, None, w) in
  if negb (ok s) then Some (s, dst, w)
  else
    file ← file;
    '(s, table) ← Table_Open snappy zstd addr Options_default file file_size;
    if negb (ok s) then Some (s, dst, w)
    else
      table ← table;
      iter ← Table_NewIterator snappy zstd addr table (mkReadOptions false false None);
      dst ← dump_iterator fuel iter dst;
      Some (OK, dst, w).

(** ** [DumpFile] *)

Definition DumpFile (fuel : nat) (fname : bytes) (dst : F) (w : W) : option (Status * F * W) :=
  match GuessType fname with
  | None => Some (InvalidArgument (fname ++ str ": unknown file type") [], dst, w)
  | Some kLogFile => DumpLog fuel fname dst w
  | Some kDescriptorFile => DumpDescriptor fuel fname dst w
  | Some kTableFile => DumpTable fuel fname dst w
  | Some _ => Some (InvalidArgument (fname ++ str ": not a dump-able file type") [], dst, w)
  end.

End Dump.

(** ** [leveldbutil] *)

(** [StdoutPrinter]: what was written to the standard output. *)
Record StdoutPrinter := mkStdout { stdout : bytes }.

#[export] Instance StdoutPrinter_ops : WritableFile StdoutPrinter := {
  Append f data := (OK, mkStdout (stdout f ++ data));
  Close f := (OK, f);
  Flush f := (OK, f);
  Sync f := (OK, f)
}.

Section Tool.

Context {W S G : Type} `{!SequentialFile S} `{!DescriptorEnv (F := StdoutPrinter) W S} `{!RandomAccessFile G} `{!RandomAccessEnv W G}.
Context (snappy zstd : Codec) (addr : Z).

(** The loop of [HandleDumpCommand]; [err] is the standard error. *)
Fixpoint dump_files (fuel : nat) (files : list bytes) (ok_ : bool) (out : StdoutPrinter) (err : bytes) (w : W) : option (bool * StdoutPrinter * bytes * W) :=
  match files with
  | [] => Some (ok_, out, err, w)
  | f :: files =>
      '(s, out, w) ← DumpFile (S := S) (G := G) snappy zstd addr fuel f out w;
      if ok s then dump_files fuel files ok_ out err w
      else dump_files fuel files false out (err ++ ToString s decimal ++ newline) w
  end.

Definition HandleDumpCommand (fuel : nat) (files : list bytes) (out : StdoutPrinter) (err : bytes) (w : W) : option (bool * StdoutPrinter * bytes * W) :=
  dump_files fuel files true out err w.

Definition Usage (err : bytes) : bytes :=
  err ++ str "Usage: leveldbutil command..." ++ newline ++ str "   dump files...         -- dump contents of specified files" ++ newline.

(** [main]: the exit status, the outputs and the environment. *)
Definition leveldbutil_main (fuel : nat) (argv : list bytes) (out : StdoutPrinter) (err : bytes) (w : W) : option (Z * StdoutPrinter * bytes * W) :=
  match argv with
  | _ :: command :: files =>
      if slice_eq command (str "dump") then
        match HandleDumpCommand fuel files out err w with
        | Some (ok_, out, err, w) => Some (if ok_ then 0 else 1, out, err, w)
        | None => None
        end
      else Some (1, out, Usage err, w)
  | _ => Some (1, out, Usage err, w)
  end.

(** The tool reports success exactly when it has written no error message. *)
Lemma dump_files_status files : forall fuel ok_ out err (w : W) ok' out' err' w',
  dump_files fuel files ok_ out err w = Some (ok', out', err', w') ->
  exists messages, err' = err ++ messages /\ ok' = ok_ && bool_decide (messages = []).
Proof.
  induction files as [|f files IH]; intros fuel ok_ out err w ok' out' err' w'; cbn [dump_files].
  { intros [= <- <- <- <-]. exists []. by rewrite app_nil_r, andb_true_r. }
  destruct (DumpFile _ _ _ _ _ _ _) as [[[s out1] w1]|]; [|done]. cbn [mbind option_bind]. destruct (ok s); [apply IH|].
  intros (messages & -> & ->)%IH. exists (ToString s decimal ++ newline ++ messages). rewrite <- !app_assoc. split; [done|].
  rewrite andb_false_l, bool_decide_false, andb_false_r; [done|]. unfold newline. by destruct (ToString s decimal).
Qed.

Theorem leveldbutil_exit fuel prog files out err (w : W) code out' err' w' :
  leveldbutil_main fuel (prog :: str "dump" :: files) out err w = Some (code, out', err', w') ->
  exists messages, err' = err ++ messages /\ (code = 0 <-> messages = []).
Proof.
  unfold leveldbutil_main, HandleDumpCommand. change (slice_eq (str "dump") (str "dump")) with true. cbv iota.
  destruct (dump_files _ _ _ _ _ _) as [[[[ok' out1] err1] w1]|] eqn:E; [|done]. intros [= <- <- <- <-].
  apply dump_files_status in E as (messages & -> & ->). exists messages. split; [done|]. cbn [andb]. by case_bool_decide.
Qed.

End Tool.

(** ** What is printed *)

Section DumpSpec.

Context {F : Type} `{!WritableFile F} {contents : F -> bytes} `{!ReliableWritable F contents}.

Lemma print_contents r dst : contents (print r dst) = contents dst ++ r.
Proof. apply append_contents. Qed.

Definition op_line (op : Op) : bytes := match op with OpPut k v => put_line k v | OpDelete k => delete_line k end.

(** The lines of a batch found at [pos]. *)
Definition batch_text (pos : Z) (b : Z * list Op) : bytes :=
  offset_line pos ++ str "sequence " ++ decimal (fst b) ++ newline ++ concat (map op_line (snd b)).

Lemma print_ops ops : forall dst,
  contents (fold_left (replay_op (fun k v => print (put_line k v)) (fun k => print (delete_line k))) ops dst) = contents dst ++ concat (map op_line ops).
Proof.
  induction ops as [|op ops IH]; intros dst; cbn [fold_left map concat]; [by rewrite app_nil_r|].
  rewrite IH, app_assoc. f_equal. destruct op; apply print_contents.
Qed.

Lemma WriteBatchPrinter_ok pos b dst : batch_ok b -> contents (WriteBatchPrinter pos (batch_record b) dst) = contents dst ++ batch_text pos b.
Proof.
  intros [B1 B2 B3 B4]. change kMaxSequenceNumber with 72057594037927935 in B2. unfold WriteBatchPrinter. rewrite record_size.
  change (SetContents (batch_record b)) with (batch_of (fst b) (snd b)). rewrite Sequence_of by lia.
  rewrite Iterate_of; [|eapply Forall_impl; [exact B4|apply op_fits_ok]|done]. cbv iota. change (ok OK) with true. cbv iota.
  rewrite print_ops, print_contents. unfold batch_text. by rewrite <- !app_assoc.
Qed.

Context {S : Type} `{!SequentialFile S} {unread : S -> bytes} `{!ReliableSequential S unread}.

Lemma print_log_ok todo : forall r scratch dst turns fuel,
  reading (unread := unread) r (map batch_record todo) fuel -> (length todo < turns)%nat -> Forall batch_ok todo ->
  exists offsets dst', print_log turns fuel (fun pos record dst => Some (WriteBatchPrinter pos record dst)) r scratch dst = Some dst' /\
    length offsets = length todo /\ contents dst' = contents dst ++ concat (zip_with batch_text offsets todo).
Proof.
  induction todo as [|b todo IH]; intros r scratch dst turns fuel Hrd Ht Hok; (destruct turns as [|turns]; [cbn in Ht; lia|]); cbn [print_log].
  - destruct (read_end r fuel scratch Hrd) as (scr & r' & -> & Hr). cbn [mbind option_bind]. rewrite Hr, drop_all. exists [], dst. cbn. by rewrite app_nil_r.
  - apply Forall_cons in Hok as [Hok1 Hok]. destruct (read_next r (batch_record b) (map batch_record todo) fuel scratch Hrd) as (scr & r1 & -> & Hr1 & Hrd1).
    cbn [mbind option_bind]. rewrite Hr1, drop_all. cbn [fold_left mbind option_bind].
    destruct (IH r1 scr (WriteBatchPrinter (last_record_offset_ r1) (batch_record b) dst) turns fuel) as (offsets & dst' & -> & Hl & Hc); [done|cbn in Ht; lia|done|].
    exists (last_record_offset_ r1 :: offsets), dst'. split; [done|]. split; [cbn; by rewrite Hl|]. cbn [zip_with concat].
    rewrite Hc, WriteBatchPrinter_ok by done. by rewrite app_assoc.
Qed.

Context {W G : Type} `{!DescriptorEnv (F := F) W S} `{!RandomAccessFile G} `{!RandomAccessEnv W G} (snappy zstd : Codec) (addr : Z).

(** Dumping the log of a database prints, for each batch in turn, its sequence number and
    its operations in order with their keys and values escaped, and nothing else. *)
Theorem dump_log log batches fuel fname dst (w w1 : W) s g :
  GuessType fname = Some kLogFile -> log_holds (contents := contents) log (map batch_record batches) -> blen (contents (dest_ log)) < 2 ^ 64 ->
  Forall batch_ok batches -> env_NewSequentialFile fname w = (s, Some g, w1) -> ok s = true -> unread g = contents (dest_ log) ->
  (length (contents (dest_ log)) + 1 < fuel)%nat ->
  exists offsets dst', DumpFile (G := G) snappy zstd addr fuel fname dst w = Some (OK, dst', w1) /\ length offsets = length batches /\
    contents dst' = contents dst ++ concat (zip_with batch_text offsets batches).
Proof.
  intros Hty [Hwok Hlay] HC Hok Hnew Hs Hun Hfuel. set (C := contents (dest_ log)) in *. pose proof (log_layout_length _ _ _ Hlay) as Hlen. rewrite length_map in Hlen.
  destruct (print_log_ok batches (Reader_make g true true addr 0) [] dst fuel fuel) as (offsets & dst' & Hp & Hl & Hc); [by eapply reading_make|lia|done|].
  exists offsets, dst'. split; [|done]. unfold DumpFile, DumpLog, PrintLogContents. rewrite Hty, Hnew, Hs. cbn [negb mbind option_bind]. by rewrite Hp.
Qed.

(** Dumping what an iterator goes through prints one line per entry. *)
Lemma print_entries_ok {D : Type} {HD : Iterator D} (es : list entry) (pos : D -> option nat -> Prop) {HP : ScansOver es pos} fuel : forall it i dst,
  pos it (clip es i) -> (i <= length es)%nat -> (length es - i < fuel)%nat ->
  exists it' dst', print_entries fuel it dst = Some (it', dst') /\ ok (it_status it') = true /\
    contents dst' = contents dst ++ concat (map (fun e => entry_line (fst e) (snd e)) (drop i es)).
Proof.
  induction fuel as [|fuel IH]; intros it i dst Hp Hi Hf; [lia|]. cbn [print_entries]. rewrite (scan_valid it _ Hp). unfold clip in Hp.
  destruct (decide (i < length es)%nat) as [Hlt|Hge]; unfold clip.
  - rewrite decide_True, bool_decide_true by done. pose proof (scan_entry it i Hp) as He.
    destruct (scan_next it i Hp) as (it1 & -> & Hp1). cbn [mbind option_bind].
    destruct (IH it1 (Datatypes.S i) (print (entry_line (it_key it) (it_value it)) dst) Hp1 ltac:(lia) ltac:(lia)) as (it' & dst' & -> & Hs & Hc).
    exists it', dst'. split; [done|]. split; [done|]. rewrite Hc, print_contents, (drop_S es _ i He). cbn [map concat fst snd]. by rewrite app_assoc.
  - rewrite decide_False, bool_decide_false by (done || by intros []). exists it, dst. split; [done|]. split; [by apply (scan_status it _ Hp)|].
    rewrite drop_ge by lia. cbn. by rewrite app_nil_r.
Qed.

Theorem dump_entries {D : Type} {HD : Iterator D} (es : list entry) (pos : D -> option nat -> Prop) {HP : ScansOver es pos} it p fuel dst :
  pos it p -> (length es < fuel)%nat ->
  exists dst', dump_iterator fuel it dst = Some dst' /\ contents dst' = contents dst ++ concat (map (fun e => entry_line (fst e) (snd e)) es).
Proof.
  intros Hp Hf. unfold dump_iterator. destruct (scan_first it p Hp) as (it1 & -> & Hp1). cbn [mbind option_bind].
  destruct (print_entries_ok es pos fuel it1 0 dst Hp1 ltac:(lia) ltac:(lia)) as (it' & dst' & -> & Hs & Hc). cbn [mbind option_bind]. rewrite Hs. by exists dst'.
Qed.

End DumpSpec.

Example edit_text :
  VersionEdit_DebugString (AddFile 1 6 2000 (mkInternalKey (str "n")) (mkInternalKey (str "z")) (SetLogNumber 7 VersionEdit_Clear)) =
  str "VersionEdit {" ++ newline ++ str "  LogNumber: 7" ++ newline ++ str "  AddFile: 1 6 2000 (bad)n .. (bad)z" ++ newline ++ str "}" ++ newline.
Proof. vm_compute. reflexivity. Qed.
