(* ===== verification/CApi.v ===== *)
(** * The C interface

    [db/c.cc]: the functions C programs call, over the interface [DB] of
    [include/leveldb/db.h].  The structs only hold the object they stand for, so an
    object takes the place of its struct.  Strings handed to the caller are allocated
    with [malloc]; that heap is explicit, because the caller has to free what it gets.
    Memory does not run out. *)

From S2P Require Import Prelude Slice Coding Status Logging Comparator Bloom DbFormat WriteBatch Iterator Options Cache Snapshot.

(** ** Strings for the caller *)

Record CHeap := mkCHeap { c_bufs : gmap nat bytes; c_next : nat }.

Implicit Types h : CHeap.

Definition c_malloc (b : bytes) h : nat * CHeap := (c_next h, mkCHeap (<[c_next h := b]> (c_bufs h)) (S (c_next h))).

(** [free]; the null pointer is ignored, and freeing twice is an error. *)
Definition c_free (p : option nat) h : option CHeap :=
  match p with
  | None => Some h
  | Some p => if bool_decide (is_Some (c_bufs h !! p)) then Some (mkCHeap (delete p (c_bufs h)) (c_next h)) else None
  end.

(** The part of a string in front of its first NUL, and a copy of it with a NUL. *)
Fixpoint c_str (s : bytes) : bytes :=
  match s with
  | [] => []
  | c :: s => if Byte.eqb c x00 then [] else c :: c_str s
  end.
Definition strdup (s : bytes) h : nat * CHeap := c_malloc (c_str s ++ [x00]) h.

Definition CopyString (str : bytes) h : nat * CHeap := c_malloc str h.

(** What [*errptr] is and the heap afterwards; the result is whether [s] is an error. *)
Definition SaveError (errptr : option nat) (s : Status) h : option (bool * option nat * CHeap) :=
  if ok s then Some (false, errptr, h)
  else
    match errptr with
    | None => let '(p, h) := strdup (ToString s decimal) h in Some (true, Some p, h)
    | Some _ =>
        h ← c_free errptr h;
        let '(p, h) := strdup (ToString s decimal) h in Some (true, Some p, h)
    end.

(** A function that only reports an error. *)
Definition report {A} (errptr : option nat) (r : Status * A) h : option (option nat * CHeap * A) :=
  '(_, errptr, h) ← SaveError errptr (fst r) h; Some (errptr, h, snd r).

Definition leveldb_free (p : option nat) h : option CHeap := c_free p h.

(** ** Databases *)

(** [struct WriteOptions] *)
Record WriteOptions := mkWriteOptions { sync : bool }.
Definition WriteOptions_default : WriteOptions := mkWriteOptions false.

(** The options with the pointers to the environment, the info log and the cache. *)
Record COptions := mkCOptions { co_rep : Options; co_env : option Z; co_info_log : option Z; co_block_cache : option Z }.

(** [class DB] over its state [B], with iterators of type [I].  A snapshot is known by
    its number. *)
Class DB (B I : Type) := {
  DB_Put : WriteOptions -> bytes -> bytes -> B -> Status * B;
  DB_Delete : WriteOptions -> bytes -> B -> Status * B;
  DB_Write : WriteOptions -> WriteBatch -> B -> Status * (WriteBatch * B);
  DB_Get : ReadOptions -> bytes -> B -> Status * bytes * B;
  DB_NewIterator : ReadOptions -> B -> I * B;
  DB_GetSnapshot : B -> Z * B;
  DB_ReleaseSnapshot : Z -> B -> B;
  DB_GetProperty : bytes -> B -> option bytes * B;
  DB_GetApproximateSizes : list (bytes * bytes) -> B -> list Z * B;
  DB_CompactRange : option bytes -> option bytes -> B -> B
}.

(** The functions that work on a directory of the environment [W]. *)
Class DbFunctions (W B : Type) := {
  DB_Open : COptions -> bytes -> W -> Status * (option B * W);
  DB_close : B -> W -> W;
  DestroyDB : bytes -> COptions -> W -> Status * W;
  RepairDB : bytes -> COptions -> W -> Status * W
}.

Section Database.

Context {W B I : Type} `{!DB B I} `{!DbFunctions W B} `{!Iterator I}.

Definition leveldb_open (options : COptions) (name : bytes) (errptr : option nat) h (w : W) : option (option B * option nat * CHeap * W) :=
  let '(s, (db, w)) := DB_Open options (c_str name) w in
  '(failed, errptr, h) ← SaveError errptr s h;
  Some (if failed : bool then None else db, errptr, h, w).

Definition leveldb_close (db : B) (w : W) : W := DB_close db w.

Definition leveldb_put (db : B) (options : WriteOptions) (key val : bytes) (errptr : option nat) h : option (option nat * CHeap * B) :=
  report errptr (DB_Put (I := I) options key val db) h.

Definition leveldb_delete (db : B) (options : WriteOptions) (key : bytes) (errptr : option nat) h : option (option nat * CHeap * B) :=
  report errptr (DB_Delete (I := I) options key db) h.

Definition leveldb_write (db : B) (options : WriteOptions) (batch : WriteBatch) (errptr : option nat) h : option (option nat * CHeap * (WriteBatch * B)) :=
  report errptr (DB_Write (I := I) options batch db) h.

(** The result, [*vallen], [*errptr], the heap and the database. *)
Definition leveldb_get (db : B) (options : ReadOptions) (key : bytes) (errptr : option nat) h : option (option nat * Z * option nat * CHeap * B) :=
  let '(s, tmp, db) := DB_Get (I := I) options key db in
  if ok s then let '(p, h) := CopyString tmp h in Some (Some p, blen tmp, errptr, h, db)
  else if negb (IsNotFound s) then '(_, errptr, h) ← SaveError errptr s h; Some (None, 0, errptr, h, db)
  else Some (None, 0, errptr, h, db).

Definition leveldb_create_iterator (db : B) (options : ReadOptions) : I * B := DB_NewIterator options db.
Definition leveldb_create_snapshot (db : B) : Z * B := DB_GetSnapshot (I := I) db.
Definition leveldb_release_snapshot (db : B) (snapshot : Z) : B := DB_ReleaseSnapshot (I := I) snapshot db.

Definition leveldb_property_value (db : B) (propname : bytes) h : option nat * CHeap * B :=
  match DB_GetProperty (I := I) (c_str propname) db with
  | (Some tmp, db) => let '(p, h) := strdup tmp h in (Some p, h, db)
  | (None, db) => (None, h, db)
  end.

Definition leveldb_approximate_sizes (db : B) (starts limits : list bytes) : list Z * B :=
  DB_GetApproximateSizes (I := I) (combine starts limits) db.

Definition leveldb_compact_range (db : B) (start_key limit_key : option bytes) : B := DB_CompactRange (I := I) start_key limit_key db.

Definition leveldb_destroy_db (options : COptions) (name : bytes) (errptr : option nat) h (w : W) : option (option nat * CHeap * W) :=
  report errptr (DestroyDB (B := B) (c_str name) options w) h.

Definition leveldb_repair_db (options : COptions) (name : bytes) (errptr : option nat) h (w : W) : option (option nat * CHeap * W) :=
  report errptr (RepairDB (B := B) (c_str name) options w) h.

(** ** Iterators *)

Definition leveldb_iter_valid (iter : I) : Z := if it_Valid iter then 1 else 0.
Definition leveldb_iter_seek_to_first (iter : I) : option I := it_SeekToFirst iter.
Definition leveldb_iter_seek_to_last (iter : I) : option I := it_SeekToLast iter.
Definition leveldb_iter_seek (iter : I) (k : bytes) : option I := it_Seek iter k.
Definition leveldb_iter_next (iter : I) : option I := it_Next iter.
Definition leveldb_iter_prev (iter : I) : option I := it_Prev iter.
Definition leveldb_iter_key (iter : I) : bytes * Z := (it_key iter, blen (it_key iter)).
Definition leveldb_iter_value (iter : I) : bytes * Z := (it_value iter, blen (it_value iter)).
Definition leveldb_iter_get_error (iter : I) (errptr : option nat) h : option (option nat * CHeap * unit) :=
  report errptr (it_status iter, tt) h.

End Database.

(** ** Write batches *)

Definition leveldb_writebatch_create : WriteBatch := WriteBatch_make.
Definition leveldb_writebatch_clear (b : WriteBatch) : WriteBatch := WriteBatch_Clear.
Definition leveldb_writebatch_put (b : WriteBatch) (key val : bytes) : WriteBatch := batch_Put b key val.
Definition leveldb_writebatch_delete (b : WriteBatch) (key : bytes) : WriteBatch := batch_Delete b key.
Definition leveldb_writebatch_append (destination source : WriteBatch) : WriteBatch := batch_Append destination source.

(** The callbacks change the caller's [state]; the status is dropped. *)
Definition leveldb_writebatch_iterate {H} (b : WriteBatch) (state : H) (put : bytes -> bytes -> H -> H) (deleted : bytes -> H -> H) : H :=
  snd (Iterate put deleted b state).

(** ** Comparators and filter policies of the caller *)

Record leveldb_comparator_t := mkCComparator { compare_ : bytes -> bytes -> Z; name_ : bytes }.

(** The shortening methods do nothing. *)
Definition comparator_of (c : leveldb_comparator_t) : Comparator := {|
  Name := c_str (name_ c);
  Compare := compare_ c;
  FindShortestSeparator start limit := start;
  FindShortSuccessor key := key
|}.

Definition leveldb_comparator_create (compare : bytes -> bytes -> Z) (name : bytes) : leveldb_comparator_t := mkCComparator compare name.

Record leveldb_filterpolicy_t := mkCPolicy { fp_name_ : bytes; create_ : list bytes -> bytes; key_match_ : bytes -> bytes -> Z }.

Definition policy_of (p : leveldb_filterpolicy_t) : FilterPolicy := {|
  PolicyName := c_str (fp_name_ p);
  CreateFilter keys dst := dst ++ create_ p keys;
  KeyMayMatch key filter := negb (key_match_ p key filter =? 0)
|}.

Definition leveldb_filterpolicy_create (create_filter : list bytes -> bytes) (key_may_match : bytes -> bytes -> Z) (name : bytes) : leveldb_filterpolicy_t :=
  mkCPolicy name create_filter key_may_match.

(** The wrapper hands every call to the bloom filter policy. *)
Definition leveldb_filterpolicy_create_bloom (bits_per_key : Z) : FilterPolicy :=
  let rep_ := NewBloomFilterPolicy bits_per_key in
  {| PolicyName := PolicyName rep_;
     CreateFilter keys dst := CreateFilter rep_ keys dst;
     KeyMayMatch key filter := KeyMayMatch rep_ key filter |}.

(** ** Options *)

(** A [uint8_t] as a [bool]. *)
Definition flag (v : Z) : bool := negb (v =? 0).

Definition set_rep (o : COptions) (rep : Options) : COptions := mkCOptions rep (co_env o) (co_info_log o) (co_block_cache o).

Definition with_fields (o : Options) cmp create exists_ paranoid wbs files bs restart mfs comp policy : Options :=
  mkOptions cmp create exists_ paranoid wbs files bs restart mfs comp (zstd_compression_level o) (reuse_logs o) policy.

Definition leveldb_options_create : COptions := mkCOptions Options_default (Some 0) None None.
Definition leveldb_options_set_comparator (o : COptions) (cmp : leveldb_comparator_t) : COptions :=
  let r := co_rep o in set_rep o (with_fields r (comparator_of cmp) (create_if_missing r) (error_if_exists r) (paranoid_checks r) (write_buffer_size r) (max_open_files r) (block_size r) (block_restart_interval r) (max_file_size r) (compression r) (filter_policy r)).
Definition leveldb_options_set_filter_policy (o : COptions) (policy : option FilterPolicy) : COptions :=
  let r := co_rep o in set_rep o (with_fields r (comparator r) (create_if_missing r) (error_if_exists r) (paranoid_checks r) (write_buffer_size r) (max_open_files r) (block_size r) (block_restart_interval r) (max_file_size r) (compression r) policy).
Definition leveldb_options_set_create_if_missing (o : COptions) (v : Z) : COptions :=
  let r := co_rep o in set_rep o (with_fields r (comparator r) (flag v) (error_if_exists r) (paranoid_checks r) (write_buffer_size r) (max_open_files r) (block_size r) (block_restart_interval r) (max_file_size r) (compression r) (filter_policy r)).
Definition leveldb_options_set_error_if_exists (o : COptions) (v : Z) : COptions :=
  let r := co_rep o in set_rep o (with_fields r (comparator r) (create_if_missing r) (flag v) (paranoid_checks r) (write_buffer_size r) (max_open_files r) (block_size r) (block_restart_interval r) (max_file_size r) (compression r) (filter_policy r)).
Definition leveldb_options_set_paranoid_checks (o : COptions) (v : Z) : COptions :=
  let r := co_rep o in set_rep o (with_fields r (comparator r) (create_if_missing r) (error_if_exists r) (flag v) (write_buffer_size r) (max_open_files r) (block_size r) (block_restart_interval r) (max_file_size r) (compression r) (filter_policy r)).
Definition leveldb_options_set_write_buffer_size (o : COptions) (s : Z) : COptions :=
  let r := co_rep o in set_rep o (with_fields r (comparator r) (create_if_missing r) (error_if_exists r) (paranoid_checks r) s (max_open_files r) (block_size r) (block_restart_interval r) (max_file_size r) (compression r) (filter_policy r)).
Definition leveldb_options_set_max_open_files (o : COptions) (n : Z) : COptions :=
  let r := co_rep o in set_rep o (with_fields r (comparator r) (create_if_missing r) (error_if_exists r) (paranoid_checks r) (write_buffer_size r) n (block_size r) (block_restart_interval r) (max_file_size r) (compression r) (filter_policy r)).
Definition leveldb_options_set_block_size (o : COptions) (s : Z) : COptions :=
  let r := co_rep o in set_rep o (with_fields r (comparator r) (create_if_missing r) (error_if_exists r) (paranoid_checks r) (write_buffer_size r) (max_open_files r) s (block_restart_interval r) (max_file_size r) (compression r) (filter_policy r)).
Definition leveldb_options_set_block_restart_interval (o : COptions) (n : Z) : COptions :=
  let r := co_rep o in set_rep o (with_fields r (comparator r) (create_if_missing r) (error_if_exists r) (paranoid_checks r) (write_buffer_size r) (max_open_files r) (block_size r) n (max_file_size r) (compression r) (filter_policy r)).
Definition leveldb_options_set_max_file_size (o : COptions) (s : Z) : COptions :=
  let r := co_rep o in set_rep o (with_fields r (comparator r) (create_if_missing r) (error_if_exists r) (paranoid_checks r) (write_buffer_size r) (max_open_files r) (block_size r) (block_restart_interval r) s (compression r) (filter_policy r)).
Definition leveldb_options_set_compression (o : COptions) (t : Z) : COptions :=
  let r := co_rep o in set_rep o (with_fields r (comparator r) (create_if_missing r) (error_if_exists r) (paranoid_checks r) (write_buffer_size r) (max_open_files r) (block_size r) (block_restart_interval r) (max_file_size r) t (filter_policy r)).
Definition leveldb_options_set_env (o : COptions) (env : option Z) : COptions := mkCOptions (co_rep o) env (co_info_log o) (co_block_cache o).
Definition leveldb_options_set_info_log (o : COptions) (l : option Z) : COptions := mkCOptions (co_rep o) (co_env o) l (co_block_cache o).
(** The cache, unlike the other two, may not be null. *)
Definition leveldb_options_set_cache (o : COptions) (c : option Z) : option COptions := c ← c; Some (mkCOptions (co_rep o) (co_env o) (co_info_log o) (Some c)).

Definition leveldb_readoptions_create : ReadOptions := ReadOptions_default.
Definition leveldb_readoptions_set_verify_checksums (o : ReadOptions) (v : Z) : ReadOptions := mkReadOptions (flag v) (fill_cache o) (snapshot o).
Definition leveldb_readoptions_set_fill_cache (o : ReadOptions) (v : Z) : ReadOptions := mkReadOptions (verify_checksums o) (flag v) (snapshot o).
Definition leveldb_readoptions_set_snapshot (o : ReadOptions) (snap : option Z) : ReadOptions := mkReadOptions (verify_checksums o) (fill_cache o) snap.
Definition leveldb_writeoptions_create : WriteOptions := WriteOptions_default.
Definition leveldb_writeoptions_set_sync (o : WriteOptions) (v : Z) : WriteOptions := mkWriteOptions (flag v).
Definition leveldb_cache_create_lru (capacity : Z) : ShardedLRUCache := ShardedLRUCache_new capacity.

(** ** Environments *)

(** [rep] is known by a number. *)
Record leveldb_env_t := mkCEnv { ce_rep : Z; is_default : bool }.

(** [Default] is [Env::Default()]. *)
Definition leveldb_create_default_env (Default : Z) : leveldb_env_t := mkCEnv Default true.

(** The environments that are deleted. *)
Definition leveldb_env_destroy (env : leveldb_env_t) : list Z := if is_default env then [] else [ce_rep env].

Definition leveldb_env_get_test_directory (GetTestDirectory : Z -> Status * bytes) (env : leveldb_env_t) h : option nat * CHeap :=
  let '(s, result) := GetTestDirectory (ce_rep env) in
  if negb (ok s) then (None, h) else let '(p, h) := c_malloc (result ++ [x00]) h in (Some p, h).

Definition leveldb_major_version : Z := 1.
Definition leveldb_minor_version : Z := 23.

(** ** What the caller owns *)

(** Buffers in use have addresses below the next one. *)
Definition heap_ok h : Prop := forall p, is_Some (c_bufs h !! p) -> (p < c_next h)%nat.

(** [errptr] is null, or the only buffer the heap has on top of [bufs], with the text
    of [s]. *)
Definition owns (bufs : gmap nat bytes) (errptr : option nat) (s : Status) h : Prop :=
  heap_ok h /\
  match errptr with
  | None => c_bufs h = bufs /\ ok s = true
  | Some p => bufs !! p = None /\ c_bufs h = <[p := c_str (ToString s decimal) ++ [x00]]> bufs /\ ok s = false
  end.

Lemma heap_ok_malloc b h : heap_ok h -> heap_ok (snd (c_malloc b h)) /\ c_bufs h !! c_next h = None.
Proof.
  intros Hh. split.
  - intros p Hp. cbn in Hp |- *. destruct (decide (p = c_next h)) as [->|Hne]; [lia|]. rewrite lookup_insert_ne in Hp by done. specialize (Hh p Hp). lia.
  - apply eq_None_not_Some. intros Hs. specialize (Hh _ Hs). lia.
Qed.

(** A new error replaces the old one, which is freed. *)
Lemma SaveError_owns bufs errptr s0 s h :
  owns bufs errptr s0 h -> (forall p, is_Some (bufs !! p) -> (p < c_next h)%nat) ->
  exists errptr' h', SaveError errptr s h = Some (negb (ok s), errptr', h') /\ owns bufs errptr' (if ok s then s0 else s) h' /\ (c_next h <= c_next h')%nat.
Proof.
  intros [Hh He] Hb. unfold SaveError. destruct (ok s) eqn:Es; [by exists errptr, h|].
  assert (Hnone : bufs !! c_next h = None) by (apply eq_None_not_Some; intros Hs; specialize (Hb _ Hs); lia).
  destruct errptr as [p|].
  - destruct He as (Hp & Eb & _). unfold c_free. rewrite Eb, lookup_insert_eq, bool_decide_true by done. cbn [mbind option_bind].
    rewrite delete_insert_id by done. set (h1 := mkCHeap bufs (c_next h)). assert (Hh1 : heap_ok h1) by exact Hb.
    destruct (heap_ok_malloc (c_str (ToString s decimal) ++ [x00]) h1 Hh1) as [Hh2 _].
    exists (Some (c_next h)), (snd (c_malloc (c_str (ToString s decimal) ++ [x00]) h1)). split; [done|]. split; [|cbn; lia]. split; [done|]. split; [done|]. by rewrite Es.
  - destruct He as [Eb _]. destruct (heap_ok_malloc (c_str (ToString s decimal) ++ [x00]) h Hh) as [Hh2 _].
    exists (Some (c_next h)), (snd (c_malloc (c_str (ToString s decimal) ++ [x00]) h)). split; [done|]. split; [|cbn; lia]. split; [done|].
    split; [done|]. cbn. by rewrite Eb.
Qed.

(** A program that makes calls with the same error pointer. *)
Fixpoint save_all (ss : list Status) (errptr : option nat) h : option (option nat * CHeap) :=
  match ss with
  | [] => Some (errptr, h)
  | s :: ss => '(_, errptr, h) ← SaveError errptr s h; save_all ss errptr h
  end.

(** The last status that is an error, or a good one. *)
Definition last_error (s0 : Status) (ss : list Status) : Status := fold_left (fun s0 s => if ok s then s0 else s) ss s0.

Lemma save_all_owns bufs ss : forall errptr s0 h,
  owns bufs errptr s0 h -> (forall p, is_Some (bufs !! p) -> (p < c_next h)%nat) ->
  exists errptr' h', save_all ss errptr h = Some (errptr', h') /\ owns bufs errptr' (last_error s0 ss) h'.
Proof.
  induction ss as [|s ss IH]; intros errptr s0 h Ho Hb; cbn [save_all last_error fold_left]; [by exists errptr, h|].
  destruct (SaveError_owns bufs errptr s0 s h Ho Hb) as (e1 & h1 & -> & Ho1 & Hn). cbn [mbind option_bind].
  apply (IH e1 _ h1 Ho1). intros p Hp. specialize (Hb p Hp). lia.
Qed.

(** The C interface does not leak errors.  Whatever statuses the calls of a program that
    keeps one error pointer end with, no buffer is freed twice; afterwards the pointer is
    null exactly if no call failed, and otherwise holds the text of the last error; and
    freeing it leaves the heap as it was before the first call. *)
Theorem errors_do_not_leak ss h :
  heap_ok h ->
  exists errptr h' h'', save_all ss None h = Some (errptr, h') /\ leveldb_free errptr h' = Some h'' /\ c_bufs h'' = c_bufs h /\
    match errptr with
    | None => Forall (fun s => ok s = true) ss
    | Some p => c_bufs h' !! p = Some (c_str (ToString (last_error OK ss) decimal) ++ [x00]) /\ ok (last_error OK ss) = false
    end.
Proof.
  intros Hh. destruct (save_all_owns (c_bufs h) ss None OK h) as (errptr & h' & E & [_ Ho]); [split; [done|]; by split|exact Hh|].
  assert (Hlast : forall s0, ok (last_error s0 ss) = true -> Forall (fun s => ok s = true) ss).
  { clear. induction ss as [|s ss IH]; intros s0; [constructor|]. cbn [last_error fold_left]. destruct (ok s) eqn:Es; [intros H; constructor; [done|by apply (IH s0)]|].
    intros H. exfalso. assert (Hbad : forall ss s, ok s = false -> ok (last_error s ss) = false).
    { clear. induction ss as [|s' ss IH]; intros s Hs; cbn [last_error fold_left]; [done|]. destruct (ok s') eqn:Es'; by apply IH. }
    pose proof (Hbad ss s Es). unfold last_error in *. congruence. }
  destruct errptr as [p|].
  - destruct Ho as (Hp & Eb & Hs). exists (Some p), h', (mkCHeap (c_bufs h) (c_next h')). split; [done|]. split; [|split; [done|]].
    + unfold leveldb_free, c_free. rewrite Eb, lookup_insert_eq, bool_decide_true by done. by rewrite delete_insert_id by done.
    + rewrite Eb, lookup_insert_eq. done.
  - destruct Ho as [Eb Hs]. exists None, h', h'. split; [done|]. split; [done|]. split; [done|]. by apply (Hlast OK).
Qed.

Section Results.

Context {B I : Type} `{!DB B I}.

(** [leveldb_get]: a value that was found is copied to a buffer of its size that the
    caller frees; a key that is not found is no error; any other status is. *)
Theorem leveldb_get_result (db : B) options key errptr h s value db' :
  heap_ok h -> errptr = None -> DB_Get (I := I) options key db = (s, value, db') ->
  if ok s then
    exists p h' h'', leveldb_get (I := I) db options key errptr h = Some (Some p, blen value, errptr, h', db') /\ c_bufs h' !! p = Some value /\
      leveldb_free (Some p) h' = Some h'' /\ c_bufs h'' = c_bufs h
  else if IsNotFound s then leveldb_get (I := I) db options key errptr h = Some (None, 0, errptr, h, db')
  else exists p h', leveldb_get (I := I) db options key errptr h = Some (None, 0, Some p, h', db') /\
         c_bufs h' !! p = Some (c_str (ToString s decimal) ++ [x00]).
Proof.
  intros Hh -> E. unfold leveldb_get. rewrite E. destruct (ok s) eqn:Es.
  - destruct (heap_ok_malloc value h Hh) as [_ Hn]. exists (c_next h), (snd (c_malloc value h)), (mkCHeap (c_bufs h) (S (c_next h))).
    split; [done|]. split; [cbn; apply lookup_insert_eq|]. split; [|done]. unfold leveldb_free, c_free. cbn [c_malloc snd c_bufs c_next].
    rewrite lookup_insert_eq, bool_decide_true by done. by rewrite delete_insert_id by done.
  - destruct (IsNotFound s); cbn [negb]; [done|]. unfold SaveError. rewrite Es. cbn [strdup c_malloc mbind option_bind].
    eexists _, _. split; [done|]. cbn [c_bufs]. apply lookup_insert_eq.
Qed.

End Results.

(** ** Callbacks as comparators and filter policies

    A comparison by a total order is all the library needs of a C comparator, and a
    filter policy without false negatives is one in C too. *)

Lemma comparator_of_laws (c : leveldb_comparator_t) : ThreeWay (compare_ c) -> ComparatorLaws (comparator_of c) /\ ShortKeys (comparator_of c).
Proof.
  intros L. assert (Hrefl : forall k, compare_ c k k = 0) by (intros k; apply cmp_refl).
  split; split; cbn [comparator_of Compare FindShortestSeparator FindShortSuccessor]; try done.
  - intros start limit H. rewrite Hrefl. lia.
  - intros key. rewrite Hrefl. lia.
Qed.

Lemma policy_of_laws (p : leveldb_filterpolicy_t) :
  (forall keys key, key ∈ keys -> key_match_ p key (create_ p keys) <> 0) -> FilterPolicyLaws (policy_of p).
Proof.
  intros H. split; cbn [policy_of CreateFilter KeyMayMatch]; [by intros keys dst|]. intros keys key _ Hk. cbn [app].
  rewrite (proj2 (Z.eqb_neq _ 0)) by (by apply H). done.
Qed.
